(* ===== verification/_CoqProject ===== *)
-Q . S2P
Prelude.v
Words.v
Types.v
Crc.v
Sha256.v
Header.v
SlotTable.v
Manifest.v
FileSystem.v
Reader.v
ManifestCodec.v
ManifestFile.v
Buffer.v
Segment.v
Wal.v
Verify.v
EntryTable.v
Visibility.v
CString.v
Config.v
Snapshot.v
Manager.v
Lexical.v
Selection.v
Vectors.v
Planner.v
Compaction.v
Collect.v
TermMap.v
Tokens.v
Unicode.v
LexicalWriter.v
LexicalIndex.v
Frame.v
LexicalFiles.v
LexicalRoundtrip.v
Json.v
Metadata.v
MetadataFiles.v
Filter.v
Sizer.v
TermStats.v
SizerSpec.v
SegmentPlan.v
PlanImages.v
Ann.v
SegmentFiles.v
SliceWrite.v
SliceFiles.v
HttpHead.v
Executor.v
