(* ===== verification/Prelude.v ===== *)
(** Yappod2: a verification development of the index engine.

    * The program

    Yappod2 is a search server.  Its index is a directory of immutable segments and one manifest
    that lists the live ones.  An update writes new segments and publishes a new manifest; a
    compaction merges segments and publishes a manifest in which they are replaced; a reader
    takes a snapshot of the manifest, loads its segments and answers queries from it while the
    writers go on.  The parts that this development models, under src/src/:

    - common/yappo_types_v2.c, yappo_unicode.c: values and statuses; normalised texts, tokens and
      chunks;
    - storage/yappo_storage_v2.c and .h, yappo_manifest_v2.c: the manifest, in memory and as a
      file, its publication under a generation check;
    - storage/yappo_segment_v2.c: files of documents, passages and tombstones, the digest of a
      file, and the verification of the components of a segment;
    - storage/yappo_snapshot_v2.c: which segment holds the latest version of a document,
      reference counts, and the manager that threads share;
    - components/yappo_lexical_v2.c, yappo_lexical_reader_v2.c: writer and reader of the inverted
      index of a segment;
    - components/yappo_metadata_v2.c, yappo_vector_v2.c, yappo_ann_v2.c: the metadata and the
      vectors of a segment, and building the nearest-neighbour index;
    - indexing/yappo_update_wal_v2.c: the write-ahead log of an update;
    - indexing/yappo_segment_planner_v2.c: cutting a batch of documents into segments and
      writing them;
    - indexing/yappo_compact_v2.c and config/yappo_compaction_policy_v2.c: choosing and merging
      segments;
    - query/yappo_filter_v2.c: filters on metadata;
    - config/yappo_config_v2.c: validation and fingerprint of the configuration;
    - server/yappo_executor_v2.c, yappo_core_http_v2.c: the bounded executor, the parser of
      requests.

    * The files

    Foundations:
    - Prelude: [outcome], its monad, lists and blocks of bytes, arithmetic, tactics and hints;
    - Words: little-endian loads and stores of 16, 32 and 64 bits;
    - Types: statuses, byte views, documents and passages, the allocator;
    - FileSystem, Frame: stdio and POSIX calls that fail or crash, atomic replacement of a file;
      which files one or several replacements leave alone;
    - Reader, Buffer: sequential parsers with their judgements [parses] and [sound]; the growing
      output buffer;
    - CString: NUL-terminated arrays and the decimal text of [snprintf];
    - Json: JSON values behind the interface of yyjson, and JSON trees that implement it;
    - Crc, Sha256: the two digests, each against its reference;
    - SlotTable, EntryTable, TermMap: the open-addressing tables of the program and what they
      represent.
    Storage:
    - Header, Manifest, ManifestCodec, ManifestFile: the manifest;
    - Segment, Wal, Verify: the other files of an index;
    - Visibility, Snapshot, Manager: snapshots and their concurrent use.
    Components of a segment:
    - Tokens, Unicode: token sequences; the tokeniser and the chunker over ICU;
    - Lexical: the reader of the inverted index;
    - LexicalWriter, LexicalIndex, LexicalFiles, LexicalRoundtrip: its writer, the payloads as
      byte strings and that they pass the reader's validation, the files, and the round trip;
    - Vectors, Metadata, MetadataFiles: vector files; metadata files;
    - Ann, SegmentFiles: building the nearest-neighbour index; what every writer leaves on disk.
    Indexing:
    - Planner, Sizer, TermStats, SizerSpec, SegmentPlan, PlanImages: units and slices; the
      planner's sizes, what its tables count, the meaning of the sizes; the planner; the files of
      a planned slice;
    - SliceWrite, SliceFiles: writing a slice as a segment, and the segment on disk;
    - Selection, Compaction, Collect: compaction.
    Query, configuration, server:
    - Filter, Config, HttpHead, Executor.
    Every file names its sources in its own heading, and definitions keep the names of the C
    functions and types they translate.

    * How code is modelled

    A C function is a Rocq function.  It returns [Ok], [Err] with a status, or [Fault] when it
    reads or writes outside of an object, so that memory safety is the absence of [Fault].
    Machine integers are [Z] with the wrap-around of their width written out ([u32], [u64], and
    the checked additions and multiplications of the code).  A block of memory is the list of its
    bytes; a view is an option of bytes, [None] for the null pointer.  What [malloc] and [realloc]
    leave in a block is the parameter [garbage]; whether an allocation succeeds is decided by the
    class [Allocator], a function of the size.  Out parameters are results; a function that leaves
    something behind when it fails returns it beside its status.  Releasing memory is modelled
    where the code counts references (Snapshot), and not elsewhere.

    Calls to the operating system go through FileSystem: a world holds inodes, names with their
    unsynchronised history, and a script of events that makes any call fail or crash; theorems
    quantify over the script.  Concurrent code is a relation on a state with one transition per
    critical section (Executor, Manager).  Mapped files are the content of the file when it is
    mapped.  A stream is the bytes that are still to come and whether it then ends
    or fails (HttpHead).  Floating-point numbers are the 32-bit patterns that are stored.

    Libraries outside of the repository are classes, with what their documentation promises as
    laws, and every theorem over them has a witness with a concrete instance: [Icu] (Unicode),
    [Tokenizer] (Tokens; the tokeniser of Unicode is an instance), [Qsort] (LexicalWriter),
    [Yyjson] (Json), [Doubles] (Filter), [Usearch] (Ann).

    Loops are recursion on the data where they run over an array.  The others have fuel, and a
    theorem about them shows that the fuel is enough: a probe of a table makes at most as many
    turns as the table has slots; a binary search over a 64-bit range has 64 halvings; doubling a
    capacity from 1 to 2^63 takes 63 turns; the buffer of Buffer doubles at most 32 times before it
    is capped at 256 MiB; a size tier, growing by four, is left after 32 turns; the padding of
    SHA-256 fills at most two blocks; the loops of the tokeniser and the chunker advance in the
    text; every turn over runs and blocks of occurrences consumes an item; a dotted path loses a
    character per turn; a filter is refused below depth 32; a request head is at most 64 KiB and
    every turn over its lines consumes some of it.

    * What the theorems show

    - Crash safety and publication (FileSystem, ManifestFile, Wal): whatever call fails and
      wherever the machine stops, the file of a manifest or of a log holds the old or the new
      content; a publication takes effect exactly when the generation is the expected one and is
      exclusive of another; a written log is loaded back.
    - Formats (ManifestCodec, Segment, Vectors, Wal, LexicalRoundtrip, MetadataFiles): what is
      written is read back, under any failure while it is written; the readers stay inside of the
      bytes for any content (ManifestCodec, Segment, Lexical, Vectors, MetadataFiles), and the
      metadata reader accepts nothing but what the writer writes.
    - Tables and manifests (SlotTable, EntryTable, TermMap, Manifest): look-up is membership,
      insertion refines a finite map, validation accepts exactly the well-formed manifests.
    - Snapshots (Visibility, Snapshot, Manager): the visibility table answers like replaying the
      segments in order; a held snapshot stays as it was; no segment is freed while it is
      referenced and none is freed twice; generations only grow; a reload installs the manifest
      on disk.
    - Texts (Unicode): the chunks cover the text, the chunker ends and its chunks are within the
      limits; tokens lie inside of the text.
    - Inverted index: opening accepts only files in which all offsets hold, and then term search
      and the iterators over postings and positions return what the files say (Lexical); the
      written index shows exactly the occurrences of the documents, whether they are tokenised
      at once or unit by unit (LexicalRoundtrip).
    - Planning (PlanImages): the slices of a plan cover the batch in order, respect the limits
      and cannot be longer; the sizes that the planner computes, without writing anything, are
      exactly the lengths of the files that the writers produce.
    - Writing a segment (SliceFiles), which composes the planner, all writers and the
      verification: when it succeeds, the files are there with the planned payloads, durable,
      and the descriptor describes them so that verification accepts them.
    - Compaction (Selection, Compaction, Collect): the selected range is the best admissible one;
      the collection reads the latest documents and the tombstones still needed; replacing the
      range leaves the answer to every look-up unchanged; the candidate manifest is the old one
      with the range replaced.
    - Filters (Filter): exactly the filters of the grammar are accepted, and a filter accepts the
      documents whose metadata it describes.
    - Requests (HttpHead): exactly the well-formed heads are accepted; a request that is read is
      the head and the body that the stream starts with, and the stream is left behind them.
    - Executor: jobs run in the order of their submission, none twice; after closing none is
      left; as long as a job is queued a worker can take a step.
    - Digests (Crc, Sha256, Config): the implementations agree with each other and with the
      padded, block-wise reference.
    - Defects: some theorems state that the code does what its callers do not expect
      ([publish_error_may_install], [snapshot_array_failure_faults],
      [config_fingerprint_collision], [wal_empty_id_unreadable], [lexical_open_overflow],
      [vectors_malformed_reported_ok], [ann_index_not_durable]); the others are remarks in the files.

    * Not modelled

    TOML, ICU, yyjson, USearch, ONNX and curl are libraries outside of the repository: code that
    only passes values between them (the ingest parser, the configuration loader, the embedding
    client, views of saved nearest-neighbour indexes, the JSON of the HTTP interface) has no logic
    of its own to verify without them.
    Ranking, hybrid fusion and vector search compute with floating point, and the order of their
    results is the order of rounded scores.  The reactor, sockets, observability and the
    command-line programs are input and output.  The functions that tie the parts together -
    build, update, the frame of a compaction - create and remove directories, which the model of
    the file system does not have; the parts they call are modelled. *)
From Stdlib Require Export ZArith Lia Bool.
From stdpp Require Export base tactics option list numbers gmap.

#[global] Open Scope Z_scope.

(** ** Outcomes of C code

    A C routine of the code base returns a value ([Ok]), an error status ([Err])
    or performs an access outside an object it owns ([Fault]).  The last case
    makes memory safety a property of the model: a routine is safe when it never
    evaluates to [Fault]. *)
Inductive outcome (E A : Type) : Type :=
  | Ok (a : A)
  | Err (e : E)
  | Fault.
Arguments Ok {E A} a.
Arguments Err {E A} e.
Arguments Fault {E A}.

#[export] Instance outcome_ret {E} : MRet (outcome E) := fun A a => Ok a.
#[export] Instance outcome_bind {E} : MBind (outcome E) := fun A B f m =>
  match m with Ok a => f a | Err e => Err e | Fault => Fault end.


(** ** Memory blocks

    A block of memory (an array, a [malloc]ed buffer, the content of a file) is
    the list of its bytes, each a [Z] in [0, 255].  A pointer into a block is the
    block together with an offset.  Reads and writes outside the block are
    [Fault]s. *)
Abbreviation bytes := (list Z).

Definition zlen {A} (l : list A) : Z := Z.of_nat (length l).

Definition byte_ok (b : Z) : Prop := 0 <= b < 256.
Abbreviation bytes_ok := (Forall byte_ok).

Definition slice {A} (m : list A) (p n : Z) : list A := take (Z.to_nat n) (drop (Z.to_nat p) m).

Definition in_range (p n len : Z) : bool := (0 <=? p) && (0 <=? n) && (p + n <=? len).

Definition load {E} (m : bytes) (p : Z) : outcome E Z :=
  if in_range p 1 (zlen m) then Ok (m !!! Z.to_nat p) else Fault.

Definition load_bytes {E} (m : bytes) (p n : Z) : outcome E bytes :=
  if in_range p n (zlen m) then Ok (slice m p n) else Fault.

Definition store_bytes {E} (m : bytes) (p : Z) (bs : bytes) : outcome E bytes :=
  if in_range p (zlen bs) (zlen m)
  then Ok (take (Z.to_nat p) m ++ bs ++ drop (Z.to_nat p + length bs) m) else Fault.

(** ** Allocation

    [malloc], [calloc] and [realloc] may fail.  Which requests succeed is a
    parameter of the routines that allocate; [alloc_total] is the allocator of an
    execution that never runs out of memory. *)
Class Allocator := alloc_ok : Z -> bool.

Definition alloc_total : Allocator := fun _ => true.

Definition SIZE_MAX : Z := 2 ^ 64 - 1.

(** ** Generic lemmas and automation *)

Lemma outcome_bind_ok {E A B} (a : A) (f : A -> outcome E B) : (Ok a : outcome E A) ≫= f = f a.
Proof. done. Qed.

Lemma bind_ok {E A B} (m : outcome E A) (f : A -> outcome E B) b :
  m ≫= f = Ok b <-> exists a, m = Ok a /\ f a = Ok b.
Proof. destruct m; cbn; split; [eauto|intros (?&[=->]&?); done|done|intros (?&[=]&_)|done|intros (?&[=]&_)]. Qed.

Lemma bind_unit_ok {E B} (m : outcome E unit) (k : outcome E B) b :
  (m ≫= fun _ => k) = Ok b <-> m = Ok tt /\ k = Ok b.
Proof. rewrite bind_ok; split; [intros ([]&?&?)|intros [? ?]; exists tt]; auto. Qed.

Lemma bind_not_fault {E A B} (m : outcome E A) (f : A -> outcome E B) :
  m <> Fault -> (forall a, m = Ok a -> f a <> Fault) -> m ≫= f <> Fault.
Proof. destruct m; cbn; auto; congruence. Qed.

Lemma filter_all {B} (P : B -> Prop) `{!forall x, Decision (P x)} l : Forall P l -> filter P l = l.
Proof. induction 1 as [|x l HP HF IH]; [done|]. by rewrite filter_cons_True, IH. Qed.
Lemma filter_none {B} (P : B -> Prop) `{!forall x, Decision (P x)} l : Forall (fun x => ~ P x) l -> filter P l = [].
Proof. induction 1 as [|x l HP HF IH]; [done|]. by rewrite filter_cons_False. Qed.

(** [inv_ok] opens an equation [e = Ok b] through binds, matches and tests. *)
Ltac inv_ok_step :=
  match goal with
  | H : mbind _ _ = Ok _ |- _ => apply bind_ok in H as (?&?&H)
  | H : Ok _ = Ok _ |- _ => injection H as H; subst
  | H : Err _ = Ok _ |- _ => discriminate H
  | H : Fault = Ok _ |- _ => discriminate H
  | H : mret _ = Ok _ |- _ => injection H as H; subst
  | H : (if ?b then _ else _) = Ok _ |- _ => destruct b eqn:?
  | H : (let '(_, _) := ?p in _) = Ok _ |- _ => destruct p eqn:?
  | H : match ?o with Some _ => _ | None => _ end = Ok _ |- _ => destruct o eqn:?
  end.
Ltac inv_ok := repeat inv_ok_step; simplify_eq.

(** [btests] turns boolean tests into propositions. *)
Ltac btests :=
  repeat match goal with
  | H : (_ || _) = true |- _ => apply orb_true_iff in H
  | H : (_ || _) = false |- _ => apply orb_false_iff in H as [? ?]
  | H : (_ && _) = true |- _ => apply andb_true_iff in H as [? ?]
  | H : (_ && _) = false |- _ => apply andb_false_iff in H
  | H : negb _ = true |- _ => apply negb_true_iff in H
  | H : negb _ = false |- _ => apply negb_false_iff in H
  | H : (_ <=? _) = true |- _ => apply Z.leb_le in H
  | H : (_ <=? _) = false |- _ => apply Z.leb_gt in H
  | H : (_ <? _) = true |- _ => apply Z.ltb_lt in H
  | H : (_ <? _) = false |- _ => apply Z.ltb_ge in H
  | H : (_ =? _) = true |- _ => apply Z.eqb_eq in H
  | H : (_ =? _) = false |- _ => apply Z.eqb_neq in H
  | H : bool_decide _ = true |- _ => apply bool_decide_eq_true in H
  | H : bool_decide _ = false |- _ => apply bool_decide_eq_false in H
  end.

Create Rewrite HintDb len.
#[export] Hint Rewrite @length_app @length_take @length_drop @length_replicate @length_insert
  @length_fmap @length_map @length_cons : len.

Lemma zlen_nil {A} : zlen (@nil A) = 0.
Proof. done. Qed.
Lemma zlen_cons {A} (x : A) l : zlen (x :: l) = 1 + zlen l.
Proof. unfold zlen; cbn [length]; lia. Qed.
Lemma zlen_app {A} (l k : list A) : zlen (l ++ k) = zlen l + zlen k.
Proof. unfold zlen; rewrite length_app; lia. Qed.
Lemma zlen_nonneg {A} (l : list A) : 0 <= zlen l.
Proof. unfold zlen; lia. Qed.
Lemma zlen_fmap {A B} (f : A -> B) l : zlen (f <$> l) = zlen l.
Proof. unfold zlen; by rewrite length_fmap. Qed.
Lemma zlen_replicate {A} n (x : A) : zlen (replicate n x) = Z.of_nat n.
Proof. unfold zlen; by rewrite length_replicate. Qed.
Lemma zlen_drop {A} n (l : list A) : zlen (drop n l) = Z.max 0 (zlen l - Z.of_nat n).
Proof. unfold zlen; rewrite length_drop; lia. Qed.
Create Rewrite HintDb zlen.
#[export] Hint Rewrite @zlen_drop @zlen_nil @zlen_cons @zlen_app @zlen_fmap @zlen_replicate : zlen.

(** [zl] normalises lengths and calls [lia], knowing lengths are not negative. *)
Ltac pose_zlen :=
  repeat match goal with
  | |- context [zlen ?l] =>
      lazymatch goal with H : 0 <= zlen l |- _ => fail | _ => pose proof (zlen_nonneg l) end
  | K : context [zlen ?l] |- _ =>
      lazymatch goal with H : 0 <= zlen l |- _ => fail | _ => pose proof (zlen_nonneg l) end
  end.
Ltac zl := autorewrite with zlen in *; pose_zlen; lia.

Lemma in_range_true p n len : in_range p n len = true <-> 0 <= p /\ 0 <= n /\ p + n <= len.
Proof. unfold in_range; rewrite !andb_true_iff, !Z.leb_le; tauto. Qed.

Lemma zlen_slice {A} (m : list A) p n :
  0 <= p -> 0 <= n -> p + n <= zlen m -> zlen (slice m p n) = n.
Proof. unfold zlen, slice; rewrite length_take, length_drop; lia. Qed.

Lemma slice_app_mid {A} (a b c : list A) p n :
  p = zlen a -> n = zlen b -> slice (a ++ b ++ c) p n = b.
Proof.
  intros -> ->; unfold slice, zlen; rewrite !Nat2Z.id.
  by rewrite drop_app_length, take_app_length.
Qed.

Lemma slice_all {A} (m : list A) : slice m 0 (zlen m) = m.
Proof. unfold slice, zlen; rewrite Nat2Z.id, drop_0. by apply take_ge. Qed.

Lemma load_bytes_slice {E} (m : bytes) p n : 0 <= p -> 0 <= n -> p + n <= zlen m -> load_bytes (E := E) m p n = Ok (slice m p n).
Proof. intros. unfold load_bytes. by rewrite (proj2 (in_range_true _ _ _)). Qed.

Lemma load_bytes_app {E} (a b c : bytes) p n :
  p = zlen a -> n = zlen b -> load_bytes (E := E) (a ++ b ++ c) p n = Ok b.
Proof.
  intros Hp Hn; unfold load_bytes.
  destruct (in_range _ _ _) eqn:R; [by rewrite slice_app_mid|].
  assert (in_range p n (zlen (a ++ b ++ c)) = true) by (apply in_range_true; zl); congruence.
Qed.

Lemma load_bytes_app0 {E} (b c : bytes) n : n = zlen b -> load_bytes (E := E) (b ++ c) 0 n = Ok b.
Proof. intros. by apply (load_bytes_app [] b c). Qed.

Lemma load_bytes_app_end {E} (a b : bytes) p n :
  p = zlen a -> n = zlen b -> load_bytes (E := E) (a ++ b) p n = Ok b.
Proof. intros. rewrite <- (app_nil_r b) at 1. by apply load_bytes_app. Qed.

Lemma store_bytes_app {E} (a b c bs : bytes) p :
  p = zlen a -> zlen bs = zlen b ->
  store_bytes (E := E) (a ++ b ++ c) p bs = Ok (a ++ bs ++ c).
Proof.
  intros -> Hb; unfold store_bytes.
  assert (length bs = length b) as Hl by (unfold zlen in Hb; lia).
  destruct (in_range _ _ _) eqn:R.
  - unfold zlen; rewrite Nat2Z.id, take_app_length, Hl.
    by rewrite (assoc_L (++) a b c), drop_app_length' by (rewrite length_app; lia).
  - assert (in_range (zlen a) (zlen bs) (zlen (a ++ b ++ c)) = true)
      by (apply in_range_true; zl); congruence.
Qed.

(** Sequential writing: the next piece goes right behind what was written. *)
Lemma store_bytes_next {E} (pre tail bs : bytes) p :
  p = zlen pre -> zlen bs <= zlen tail ->
  store_bytes (E := E) (pre ++ tail) p bs = Ok ((pre ++ bs) ++ drop (length bs) tail).
Proof.
  intros -> H. rewrite <- (take_drop (length bs) tail) at 1.
  rewrite store_bytes_app by (done || (unfold zlen in *; rewrite length_take; lia)).
  by rewrite (assoc_L (++)).
Qed.

Lemma Forall_slice {A} (P : A -> Prop) m p n : Forall P m -> Forall P (slice m p n).
Proof. intros H; unfold slice; by apply Forall_take, Forall_drop. Qed.
