(* ===== verification/Words.v ===== *)
(** Machine words and the little-endian encoding of the index files.

    The C sources carry the same six routines in several translation units
    (storage_v2.c, manifest_v2.c, segment_v2.c, update_wal_v2.c, lexical_v2.c);
    the writers come in a masking form ([value & 0xff]) and in a truncating form
    ([(unsigned char)value]).  [le_enc] and [le_dec] are the reference encoding
    by arithmetic; every routine is proved equal to it. *)
From S2P Require Import Prelude.

(** ** Unsigned conversions *)
Definition u8 (x : Z) : Z := x mod 2 ^ 8.
Definition u16 (x : Z) : Z := x mod 2 ^ 16.
Definition u32 (x : Z) : Z := x mod 2 ^ 32.
Definition u64 (x : Z) : Z := x mod 2 ^ 64.

Definition UINT32_MAX : Z := 2 ^ 32 - 1.
Definition UINT64_MAX : Z := 2 ^ 64 - 1.
Definition INT64_MAX : Z := 2 ^ 63 - 1.

(** The value of a 64-bit pattern read as [int64_t], and back. *)
Definition i64 (x : Z) : Z := if x <=? INT64_MAX then x else x - 2 ^ 64.

Definition is_u16 (x : Z) : Prop := 0 <= x < 2 ^ 16.
Definition is_u32 (x : Z) : Prop := 0 <= x < 2 ^ 32.
Definition is_u64 (x : Z) : Prop := 0 <= x < 2 ^ 64.
Definition is_i64 (x : Z) : Prop := - 2 ^ 63 <= x < 2 ^ 63.

(** ** Writers *)
Definition put_u16_le (value : Z) : bytes :=
  [Z.land value 0xff; Z.land (Z.shiftr value 8) 0xff].

Definition put_u32_le (value : Z) : bytes :=
  [Z.land value 0xff; Z.land (Z.shiftr value 8) 0xff;
   Z.land (Z.shiftr value 16) 0xff; Z.land (Z.shiftr value 24) 0xff].

Definition put_u64_le (value : Z) : bytes :=
  (fun i => Z.land (Z.shiftr value (i * 8)) 0xff) <$> seqZ 0 8.

Definition put_u32 (value : Z) : bytes :=
  [u8 value; u8 (Z.shiftr value 8); u8 (Z.shiftr value 16); u8 (Z.shiftr value 24)].

Definition put_u64 (value : Z) : bytes :=
  (fun i => u8 (Z.shiftr value (i * 8))) <$> seqZ 0 8.

(** ** Readers: a pointer is a block and an offset *)
Definition get_u16_le {E} (m : bytes) (p : Z) : outcome E Z :=
  b0 ← load m p; b1 ← load m (p + 1);
  Ok (Z.lor b0 (u16 (Z.shiftl b1 8))).

Definition get_u32_le {E} (m : bytes) (p : Z) : outcome E Z :=
  b0 ← load m p; b1 ← load m (p + 1); b2 ← load m (p + 2); b3 ← load m (p + 3);
  Ok (Z.lor (Z.lor (Z.lor b0 (u32 (Z.shiftl b1 8))) (u32 (Z.shiftl b2 16)))
            (u32 (Z.shiftl b3 24))).

Definition get_u64_le {E} (m : bytes) (p : Z) : outcome E Z :=
  foldl (fun acc i => value ← acc; b ← load m (p + i);
                      Ok (Z.lor value (u64 (Z.shiftl b (i * 8)))))
        (Ok 0) (seqZ 0 8).

(** ** Reference encoding *)
Fixpoint le_enc (n : nat) (v : Z) : bytes :=
  match n with O => [] | S n => v mod 256 :: le_enc n (v / 256) end.

Fixpoint le_dec (bs : bytes) : Z :=
  match bs with [] => 0 | b :: bs => b + 256 * le_dec bs end.

(** ** The reference encoding is a bijection *)
Lemma length_le_enc n v : length (le_enc n v) = n.
Proof. revert v; induction n; intros; cbn; auto. Qed.

Lemma zlen_le_enc n v : zlen (le_enc n v) = Z.of_nat n.
Proof. unfold zlen; by rewrite length_le_enc. Qed.
#[export] Hint Rewrite zlen_le_enc : zlen.

Lemma le_enc_ok n v : bytes_ok (le_enc n v).
Proof.
  revert v; induction n; intros; cbn; constructor; auto.
  unfold byte_ok; pose proof (Z.mod_pos_bound v 256); lia.
Qed.

Lemma le_dec_enc n v : 0 <= v < 256 ^ Z.of_nat n -> le_dec (le_enc n v) = v.
Proof.
  revert v; induction n as [|n IH]; intros v Hv; cbn [le_enc le_dec].
  - change (Z.of_nat 0) with 0 in Hv; rewrite Z.pow_0_r in Hv; lia.
  - rewrite Nat2Z.inj_succ, Z.pow_succ_r in Hv by lia.
    rewrite IH by (split; [apply Z.div_pos; lia | apply Z.div_lt_upper_bound; lia]).
    pose proof (Z.div_mod v 256); lia.
Qed.

Lemma le_enc_dec bs : bytes_ok bs -> le_enc (length bs) (le_dec bs) = bs.
Proof.
  induction 1 as [|b bs Hb _ IH]; cbn [length le_dec le_enc]; [done|].
  unfold byte_ok in Hb. f_equal.
  - rewrite Z.mul_comm, Z.mod_add by lia. apply Z.mod_small; lia.
  - rewrite Z.mul_comm, Z.div_add, Z.div_small by lia. done.
Qed.

Lemma le_dec_bound bs : bytes_ok bs -> 0 <= le_dec bs < 256 ^ zlen bs.
Proof.
  induction 1 as [|b bs Hb _ IH]; [done|].
  rewrite zlen_cons, Z.add_comm, Z.pow_add_r by zl.
  cbn [le_dec]; unfold byte_ok in Hb; rewrite Z.pow_1_r; nia.
Qed.

Lemma le_enc_inj n v w :
  0 <= v < 256 ^ Z.of_nat n -> 0 <= w < 256 ^ Z.of_nat n -> le_enc n v = le_enc n w -> v = w.
Proof. intros Hv Hw He. rewrite <- (le_dec_enc n v), He by done. by apply le_dec_enc. Qed.

(** ** The writers are the reference encoding *)
Lemma land_ff x : Z.land x 0xff = x mod 256.
Proof. change 0xff with (Z.ones 8). by rewrite Z.land_ones. Qed.

Lemma u8_ff x : u8 x = x mod 256.
Proof. done. Qed.

Lemma shiftr_div x n : 0 <= n -> Z.shiftr x n = x / 2 ^ n.
Proof. apply Z.shiftr_div_pow2. Qed.

Lemma le_enc_shift n v k :
  0 <= k -> le_enc (S n) (v / 2 ^ k) = (v / 2 ^ k) mod 256 :: le_enc n (v / 2 ^ (k + 8)).
Proof. intros; cbn [le_enc]. rewrite Zdiv.Zdiv_Zdiv, Z.pow_add_r by lia. done. Qed.

Lemma le_enc_S n v : le_enc (S n) v = v mod 256 :: le_enc n (v / 2 ^ 8).
Proof. done. Qed.

Ltac le_enc_unfold :=
  rewrite le_enc_S; repeat rewrite le_enc_shift by lia; cbn [le_enc];
  cbn [fmap list_fmap]; rewrite ?land_ff, ?u8_ff, ?shiftr_div by lia; try reflexivity.

Lemma put_u16_le_enc v : put_u16_le v = le_enc 2 v.
Proof. unfold put_u16_le. le_enc_unfold. Qed.
Lemma put_u32_le_enc v : put_u32_le v = le_enc 4 v.
Proof. unfold put_u32_le. le_enc_unfold. Qed.
Lemma put_u32_enc v : put_u32 v = le_enc 4 v.
Proof. unfold put_u32. le_enc_unfold. Qed.
Lemma put_u64_le_enc v : put_u64_le v = le_enc 8 v.
Proof. unfold put_u64_le. change (seqZ 0 8) with [0; 1; 2; 3; 4; 5; 6; 7].
  le_enc_unfold. by rewrite Z.div_1_r. Qed.
Lemma put_u64_enc v : put_u64 v = le_enc 8 v.
Proof. unfold put_u64. change (seqZ 0 8) with [0; 1; 2; 3; 4; 5; 6; 7].
  le_enc_unfold. by rewrite Z.div_1_r. Qed.

Lemma length_put_u16_le v : length (put_u16_le v) = 2%nat. Proof. done. Qed.
Lemma length_put_u32_le v : length (put_u32_le v) = 4%nat. Proof. done. Qed.
Lemma length_put_u64_le v : length (put_u64_le v) = 8%nat. Proof. done. Qed.
Lemma length_put_u32 v : length (put_u32 v) = 4%nat. Proof. done. Qed.
Lemma length_put_u64 v : length (put_u64 v) = 8%nat. Proof. done. Qed.
#[export] Hint Rewrite length_put_u16_le length_put_u32_le length_put_u64_le length_put_u32
  length_put_u64 : len.
Lemma zlen_put_u16_le v : zlen (put_u16_le v) = 2. Proof. done. Qed.
Lemma zlen_put_u32_le v : zlen (put_u32_le v) = 4. Proof. done. Qed.
Lemma zlen_put_u64_le v : zlen (put_u64_le v) = 8. Proof. done. Qed.
Lemma zlen_put_u32 v : zlen (put_u32 v) = 4. Proof. done. Qed.
Lemma zlen_put_u64 v : zlen (put_u64 v) = 8. Proof. done. Qed.
#[export] Hint Rewrite zlen_put_u16_le zlen_put_u32_le zlen_put_u64_le zlen_put_u32 zlen_put_u64 : zlen.

Lemma put_u16_le_ok v : bytes_ok (put_u16_le v).
Proof. rewrite put_u16_le_enc; apply le_enc_ok. Qed.
Lemma put_u32_le_ok v : bytes_ok (put_u32_le v).
Proof. rewrite put_u32_le_enc; apply le_enc_ok. Qed.
Lemma put_u64_le_ok v : bytes_ok (put_u64_le v).
Proof. rewrite put_u64_le_enc; apply le_enc_ok. Qed.
Lemma put_u32_ok v : bytes_ok (put_u32 v).
Proof. rewrite put_u32_enc; apply le_enc_ok. Qed.
Lemma put_u64_ok v : bytes_ok (put_u64 v).
Proof. rewrite put_u64_enc; apply le_enc_ok. Qed.
Create HintDb bytes.
#[export] Hint Resolve put_u16_le_ok put_u32_le_ok put_u64_le_ok put_u32_ok put_u64_ok
  le_enc_ok Forall_slice Forall_app_2 Forall_nil_2 Forall_take Forall_drop : bytes.

(** [bok] closes byte-range side conditions of concatenations. *)
Ltac bok := solve [done | repeat apply Forall_app_2; auto with bytes].

(** ** The readers are the reference decoding *)
Lemma lor_shiftl a b n : 0 <= n -> 0 <= a < 2 ^ n -> Z.lor a (Z.shiftl b n) = a + b * 2 ^ n.
Proof.
  intros Hn Ha.
  assert (Z.land a (Z.shiftl b n) = 0) as L.
  { apply Z.bits_inj'; intros k Hk. rewrite Z.land_spec, Z.bits_0.
    destruct (Z.ltb_spec k n).
    - rewrite Z.shiftl_spec_low by lia. by rewrite andb_false_r.
    - rewrite <- (Z.mod_small a (2 ^ n)) by lia.
      rewrite Z.mod_pow2_bits_high by lia. done. }
  rewrite <- Z.lxor_lor, <- Z.add_nocarry_lxor by done.
  by rewrite Z.shiftl_mul_pow2.
Qed.

Lemma wrap_shiftl w b n : 0 <= n -> 0 <= b < 256 -> n + 8 <= w ->
  Z.shiftl b n mod 2 ^ w = Z.shiftl b n.
Proof.
  intros Hn Hb Hw. apply Z.mod_small. rewrite Z.shiftl_mul_pow2 by done.
  assert (2 ^ n * 256 <= 2 ^ w).
  { change 256 with (2 ^ 8). rewrite <- Z.pow_add_r by lia. apply Z.pow_le_mono_r; lia. }
  pose proof (Z.pow_pos_nonneg 2 n). nia.
Qed.

Lemma slice_lookup (m : bytes) p i n :
  0 <= p -> 0 <= i < n -> p + n <= zlen m ->
  slice m p n !!! Z.to_nat i = m !!! Z.to_nat (p + i).
Proof.
  intros. unfold slice, zlen in *. rewrite !list_lookup_total_alt, lookup_take.
  case_decide; [|lia]. rewrite lookup_drop. do 2 f_equal. lia.
Qed.

Lemma load_slice {E} (m : bytes) p n i :
  0 <= p -> 0 <= i < n -> p + n <= zlen m ->
  load (E := E) m (p + i) = Ok (slice m p n !!! Z.to_nat i).
Proof.
  intros. unfold load. rewrite slice_lookup by lia.
  by rewrite (proj2 (in_range_true _ _ _)) by lia.
Qed.

Lemma load_slice0 {E} (m : bytes) p n :
  0 <= p -> 0 < n -> p + n <= zlen m ->
  load (E := E) m p = Ok (slice m p n !!! 0%nat).
Proof. intros. rewrite <- (Z.add_0_r p) at 1. by rewrite (load_slice m p n 0) by lia. Qed.

Ltac nat_offsets :=
  repeat match goal with
  | |- context [Z.to_nat ?k] =>
      let n := eval vm_compute in (Z.to_nat k) in change (Z.to_nat k) with n
  end.
Ltac split_bytes bs Hok :=
  nat_offsets;
  repeat (destruct bs as [|? bs]; [discriminate|]); destruct bs; [|discriminate];
  repeat match goal with H : Forall _ (_ :: _) |- _ => apply Forall_cons in H as [? H] end;
  unfold byte_ok in *.

Section readers.
Context {E : Type} (m : bytes) (p : Z).
Hypothesis Hm : bytes_ok m.
Hypothesis Hp : 0 <= p.

Lemma get_u16_le_dec :
  p + 2 <= zlen m -> get_u16_le (E := E) m p = Ok (le_dec (slice m p 2)).
Proof using Hm Hp.
  intros Hr. unfold get_u16_le.
  rewrite (load_slice0 m p 2) by lia. rewrite (load_slice m p 2 1) by lia.
  assert (length (slice m p 2) = 2%nat) as Hl
  by (pose proof (zlen_slice m p 2); unfold zlen in *; lia).
  pose proof (Forall_slice byte_ok m p 2 Hm) as Hok.
  remember (slice m p 2) as bs. clear Heqbs. split_bytes bs Hok.
  cbn -[Z.shiftl Z.lor Z.add Z.mul]. unfold u16.
  rewrite wrap_shiftl, lor_shiftl by lia. f_equal. lia.
Qed.

Lemma get_u32_le_dec :
  p + 4 <= zlen m -> get_u32_le (E := E) m p = Ok (le_dec (slice m p 4)).
Proof using Hm Hp.
  intros Hr. unfold get_u32_le.
  rewrite (load_slice0 m p 4) by lia. rewrite (load_slice m p 4 1) by lia.
  rewrite (load_slice m p 4 2) by lia. rewrite (load_slice m p 4 3) by lia.
  assert (length (slice m p 4) = 4%nat) as Hl
  by (pose proof (zlen_slice m p 4); unfold zlen in *; lia).
  pose proof (Forall_slice byte_ok m p 4 Hm) as Hok.
  remember (slice m p 4) as bs. clear Heqbs. split_bytes bs Hok.
  cbn -[Z.shiftl Z.lor Z.add Z.mul]. unfold u32.
  rewrite !wrap_shiftl by lia. rewrite (lor_shiftl _ _ 8), (lor_shiftl _ _ 16), (lor_shiftl _ _ 24) by lia. f_equal. lia.
Qed.

Lemma get_u64_le_dec :
  p + 8 <= zlen m -> get_u64_le (E := E) m p = Ok (le_dec (slice m p 8)).
Proof using Hm Hp.
  intros Hr. unfold get_u64_le. change (seqZ 0 8) with [0; 1; 2; 3; 4; 5; 6; 7].
  cbn [foldl mbind outcome_bind]. rewrite !(load_slice m p 8) by lia. cbn [mbind outcome_bind].
  assert (length (slice m p 8) = 8%nat) as Hl
  by (pose proof (zlen_slice m p 8); unfold zlen in *; lia).
  pose proof (Forall_slice byte_ok m p 8 Hm) as Hok.
  remember (slice m p 8) as bs. clear Heqbs. split_bytes bs Hok.
  cbn -[Z.shiftl Z.lor Z.add Z.mul]. unfold u64.
  rewrite !wrap_shiftl by lia. rewrite Z.shiftl_0_r, Z.lor_0_l.
  rewrite (lor_shiftl _ _ (1 * 8)), (lor_shiftl _ _ (2 * 8)), (lor_shiftl _ _ (3 * 8)),
  (lor_shiftl _ _ (4 * 8)), (lor_shiftl _ _ (5 * 8)), (lor_shiftl _ _ (6 * 8)),
  (lor_shiftl _ _ (7 * 8)) by lia. f_equal. lia.
Qed.
End readers.

(** Reading back what a writer left in the middle of a block. *)
Lemma get_u16_le_app {E} (a c : bytes) v p :
  bytes_ok (a ++ c) -> is_u16 v -> p = zlen a ->
  get_u16_le (E := E) (a ++ put_u16_le v ++ c) p = Ok v.
Proof.
  intros [? ?]%Forall_app Hv ->.
  rewrite get_u16_le_dec; auto using zlen_nonneg with bytes; [|zl].
  rewrite slice_app_mid, put_u16_le_enc by (done || zl). f_equal. by apply le_dec_enc.
Qed.

Lemma get_u32_le_app {E} (a c : bytes) v p :
  bytes_ok (a ++ c) -> is_u32 v -> p = zlen a ->
  get_u32_le (E := E) (a ++ put_u32_le v ++ c) p = Ok v.
Proof.
  intros [? ?]%Forall_app Hv ->.
  rewrite get_u32_le_dec; auto using zlen_nonneg with bytes; [|zl].
  rewrite slice_app_mid, put_u32_le_enc by (done || zl). f_equal. by apply le_dec_enc.
Qed.

Lemma get_u64_le_app {E} (a c : bytes) v p :
  bytes_ok (a ++ c) -> is_u64 v -> p = zlen a ->
  get_u64_le (E := E) (a ++ put_u64_le v ++ c) p = Ok v.
Proof.
  intros [? ?]%Forall_app Hv ->.
  rewrite get_u64_le_dec; auto using zlen_nonneg with bytes; [|zl].
  rewrite slice_app_mid, put_u64_le_enc by (done || zl). f_equal. by apply le_dec_enc.
Qed.

Lemma le_dec_u32 m p : bytes_ok m -> 0 <= p -> p + 4 <= zlen m -> is_u32 (le_dec (slice m p 4)).
Proof.
  intros Hm ??. pose proof (le_dec_bound (slice m p 4)) as B.
  rewrite zlen_slice in B by lia. apply B; auto with bytes.
Qed.
Lemma le_dec_u64 m p : bytes_ok m -> 0 <= p -> p + 8 <= zlen m -> is_u64 (le_dec (slice m p 8)).
Proof.
  intros Hm ??. pose proof (le_dec_bound (slice m p 8)) as B.
  rewrite zlen_slice in B by lia. apply B; auto with bytes.
Qed.

Lemma i64_u64 x : is_i64 x -> i64 (u64 x) = x.
Proof.
  unfold is_i64, i64, u64, INT64_MAX. intros.
  destruct (Z.ltb_spec x 0).
  - replace (x mod 2 ^ 64) with (x + 2 ^ 64) by (apply Z.mod_unique with (-1); lia).
    destruct (Z.leb_spec (x + 2 ^ 64) (2 ^ 63 - 1)); lia.
  - rewrite Z.mod_small by lia. destruct (Z.leb_spec x (2 ^ 63 - 1)); lia.
Qed.

Lemma u64_is_u64 x : is_u64 (u64 x).
Proof. unfold is_u64, u64. apply Z.mod_pos_bound. lia. Qed.

Lemma u64_small x : 0 <= x < 2 ^ 64 -> u64 x = x.
Proof. intros. unfold u64. by apply Z.mod_small. Qed.

Lemma u64_add_l a b : u64 (u64 a + b) = u64 (a + b).
Proof. unfold u64. apply Zplus_mod_idemp_l. Qed.
Lemma u64_sub_l a b : u64 (u64 a - b) = u64 (a - b).
Proof. unfold u64. apply Zminus_mod_idemp_l. Qed.
