(* ===== verification/Types.v ===== *)
(** Status codes, byte views, documents and passages
    (src/src/common/yappo_types_v2.h and yappo_types_v2.c).

    A view is a pointer, possibly NULL, with a length; it never owns its bytes.
    The block behind a non-NULL pointer is the memory readable from it on. *)
From Stdlib Require Import String.
From S2P Require Import Prelude Words.

#[local] Open Scope string_scope.
#[local] Open Scope Z_scope.

(** ** Status codes *)
Inductive YAP_V2_STATUS :=
  | YAP_V2_OK
  | YAP_V2_INVALID_ARGUMENT
  | YAP_V2_INVALID_FORMAT
  | YAP_V2_OUT_OF_RANGE
  | YAP_V2_DUPLICATE
  | YAP_V2_ALLOCATION_FAILED
  | YAP_V2_IO_ERROR
  | YAP_V2_CHECKSUM_MISMATCH
  | YAP_V2_CONFLICT
  | YAP_V2_NOT_FOUND
  | YAP_V2_SEGMENT_CAPACITY_EXCEEDED.

#[export] Instance status_eq_dec : EqDecision YAP_V2_STATUS.
Proof. solve_decision. Defined.

(** The integer a status is passed as; [YAP_V2_status_string] takes that integer. *)
Definition status_code (s : YAP_V2_STATUS) : Z :=
  match s with
  | YAP_V2_OK => 0 | YAP_V2_INVALID_ARGUMENT => -1 | YAP_V2_INVALID_FORMAT => -2
  | YAP_V2_OUT_OF_RANGE => -3 | YAP_V2_DUPLICATE => -4 | YAP_V2_ALLOCATION_FAILED => -5
  | YAP_V2_IO_ERROR => -6 | YAP_V2_CHECKSUM_MISMATCH => -7 | YAP_V2_CONFLICT => -8
  | YAP_V2_NOT_FOUND => -9 | YAP_V2_SEGMENT_CAPACITY_EXCEEDED => -10
  end.

Definition YAP_V2_status_string (code : Z) : string :=
  (if code =? 0 then "ok" else if code =? -1 then "invalid argument"
   else if code =? -2 then "invalid format" else if code =? -3 then "out of range"
   else if code =? -4 then "duplicate" else if code =? -5 then "allocation failed"
   else if code =? -6 then "I/O error" else if code =? -7 then "checksum mismatch"
   else if code =? -8 then "conflict" else if code =? -9 then "not found"
   else if code =? -10 then "segment capacity exceeded" else "unknown status").

(** A routine that returns a status returns [YAP_V2_OK] with a value, or another status. *)
Abbreviation result := (outcome YAP_V2_STATUS).

(** ** Limits *)
Definition YAP_V2_FORMAT_VERSION : Z := 2.
Definition YAP_V2_MAX_IDENTIFIER_BYTES : Z := 255.
Definition YAP_V2_MAX_URL_BYTES : Z := 8 * 1024.
Definition YAP_V2_MAX_METADATA_BYTES : Z := 1024 * 1024.
Definition YAP_V2_MAX_CHUNK_CHARS : Z := 1024 * 1024.

(** ** Views *)
Record YAP_V2_BYTES_VIEW := BytesView { data : option bytes; len : Z }.

Record YAP_V2_DOCUMENT_VIEW := DocumentView {
  doc_id : YAP_V2_BYTES_VIEW;
  url : YAP_V2_BYTES_VIEW;
  title : YAP_V2_BYTES_VIEW;
  body : YAP_V2_BYTES_VIEW;
  metadata_json : YAP_V2_BYTES_VIEW;
  updated_at_unix_ms : Z }.

Record YAP_V2_PASSAGE_VIEW := PassageView {
  passage_id : YAP_V2_BYTES_VIEW;
  parent_document_id : YAP_V2_BYTES_VIEW;
  text : YAP_V2_BYTES_VIEW;
  ordinal : Z;
  start_char : Z;
  end_char : Z }.

(** The bytes a view shows, and the view of a block of bytes. *)
Definition view_bytes (v : YAP_V2_BYTES_VIEW) : bytes :=
  match data v with Some m => slice m 0 (len v) | None => [] end.
Definition mk_view (bs : bytes) : YAP_V2_BYTES_VIEW := BytesView (Some bs) (zlen bs).

(** A view is well formed when its length is a [size_t] and its bytes are readable. *)
Definition view_wf (v : YAP_V2_BYTES_VIEW) : Prop :=
  0 <= len v <= SIZE_MAX /\
  match data v with Some m => len v <= zlen m /\ bytes_ok m | None => True end.

(** ** Validation *)
Fixpoint scan_nul (m : bytes) (i : Z) (n : nat) : result bool :=
  match n with
  | O => Ok false
  | S n => b ← load m i; if b =? 0 then Ok true else scan_nul m (i + 1) n
  end.

Definition bytes_view_validate (value : YAP_V2_BYTES_VIEW) (max_bytes : Z) (required : bool)
  : result unit :=
  if required && (bool_decide (data value = None) || (len value =? 0))
  then Err YAP_V2_INVALID_FORMAT
  else if (max_bytes <? len value) || ((0 <? len value) && bool_decide (data value = None))
  then Err YAP_V2_OUT_OF_RANGE
  else
    found ← match data value with
            | Some m => scan_nul m 0 (Z.to_nat (len value))
            | None => Ok false
            end;
    if (found : bool) then Err YAP_V2_INVALID_FORMAT else Ok tt.

Definition YAP_V2_document_validate (document : option YAP_V2_DOCUMENT_VIEW) : result unit :=
  match document with
  | None => Err YAP_V2_INVALID_ARGUMENT
  | Some d =>
      _ ← bytes_view_validate (doc_id d) YAP_V2_MAX_IDENTIFIER_BYTES true;
      _ ← bytes_view_validate (url d) YAP_V2_MAX_URL_BYTES false;
      _ ← bytes_view_validate (title d) YAP_V2_MAX_IDENTIFIER_BYTES false;
      _ ← bytes_view_validate (body d) YAP_V2_MAX_METADATA_BYTES false;
      _ ← bytes_view_validate (metadata_json d) YAP_V2_MAX_METADATA_BYTES false;
      if updated_at_unix_ms d <? 0 then Err YAP_V2_OUT_OF_RANGE else Ok tt
  end.

Definition YAP_V2_passage_validate (passage : option YAP_V2_PASSAGE_VIEW) : result unit :=
  match passage with
  | None => Err YAP_V2_INVALID_ARGUMENT
  | Some p =>
      _ ← bytes_view_validate (passage_id p) YAP_V2_MAX_IDENTIFIER_BYTES true;
      _ ← bytes_view_validate (parent_document_id p) YAP_V2_MAX_IDENTIFIER_BYTES true;
      _ ← bytes_view_validate (text p) YAP_V2_MAX_METADATA_BYTES true;
      if (end_char p <? start_char p) || (YAP_V2_MAX_CHUNK_CHARS <? start_char p) ||
         (YAP_V2_MAX_CHUNK_CHARS <? end_char p)
      then Err YAP_V2_OUT_OF_RANGE else Ok tt
  end.

(** ** Specification *)

(** Text of at most [max] bytes without NUL, not empty when it is required. *)
Definition text_ok (max : Z) (required : bool) (v : YAP_V2_BYTES_VIEW) : Prop :=
  (required = true -> view_bytes v <> []) /\ len v <= max /\
  len v = zlen (view_bytes v) /\ 0 ∉ view_bytes v.

Definition document_valid (d : YAP_V2_DOCUMENT_VIEW) : Prop :=
  text_ok YAP_V2_MAX_IDENTIFIER_BYTES true (doc_id d) /\
  text_ok YAP_V2_MAX_URL_BYTES false (url d) /\
  text_ok YAP_V2_MAX_IDENTIFIER_BYTES false (title d) /\
  text_ok YAP_V2_MAX_METADATA_BYTES false (body d) /\
  text_ok YAP_V2_MAX_METADATA_BYTES false (metadata_json d) /\
  0 <= updated_at_unix_ms d.

Definition passage_valid (p : YAP_V2_PASSAGE_VIEW) : Prop :=
  text_ok YAP_V2_MAX_IDENTIFIER_BYTES true (passage_id p) /\
  text_ok YAP_V2_MAX_IDENTIFIER_BYTES true (parent_document_id p) /\
  text_ok YAP_V2_MAX_METADATA_BYTES true (text p) /\
  start_char p <= end_char p <= YAP_V2_MAX_CHUNK_CHARS.

Definition document_wf (d : YAP_V2_DOCUMENT_VIEW) : Prop :=
  view_wf (doc_id d) /\ view_wf (url d) /\ view_wf (title d) /\ view_wf (body d) /\
  view_wf (metadata_json d) /\ is_i64 (updated_at_unix_ms d).

Definition passage_wf (p : YAP_V2_PASSAGE_VIEW) : Prop :=
  view_wf (passage_id p) /\ view_wf (parent_document_id p) /\ view_wf (text p) /\
  is_u32 (ordinal p) /\ is_u32 (start_char p) /\ is_u32 (end_char p).

(** ** Lemmas *)
Lemma zlen_view v : view_wf v -> data v <> None -> zlen (view_bytes v) = len v.
Proof.
  unfold view_wf, view_bytes. intros [? H] ?.
  destruct (data v); [|done]. destruct H. by rewrite zlen_slice by lia.
Qed.

Lemma view_bytes_ok v : view_wf v -> bytes_ok (view_bytes v).
Proof. unfold view_wf, view_bytes. intros [_ H]. destruct (data v); [|auto]. apply Forall_slice; tauto. Qed.

Lemma view_bytes_mk bs : view_bytes (mk_view bs) = bs.
Proof. unfold view_bytes, mk_view; cbn. apply slice_all. Qed.

Lemma mk_view_wf bs : bytes_ok bs -> zlen bs <= SIZE_MAX -> view_wf (mk_view bs).
Proof. unfold view_wf; cbn. intros; pose proof (zlen_nonneg bs); split; [lia|split; [lia|done]]. Qed.

Lemma scan_nul_spec m i n :
  0 <= i -> i + Z.of_nat n <= zlen m ->
  scan_nul m i n = Ok (bool_decide (0 ∈ slice m i (Z.of_nat n))).
Proof.
  revert i; induction n as [|n IH]; intros i Hi Hn.
  - cbn. unfold slice; cbn. done.
  - cbn [scan_nul]. rewrite (load_slice0 m i (Z.of_nat (S n))) by lia.
    assert (exists b, slice m i (Z.of_nat (S n)) = b :: slice m (i + 1) (Z.of_nat n)) as [b ->].
    { unfold slice, zlen in *. rewrite !Nat2Z.id.
      replace (Z.to_nat (i + 1)) with (S (Z.to_nat i)) by lia.
      destruct (drop (Z.to_nat i) m) as [|b r] eqn:D.
      - apply (f_equal length) in D. rewrite length_drop in D. cbn in D. lia.
      - exists b. cbn. do 2 f_equal. by rewrite <- (Nat.add_1_r (Z.to_nat i)), <- drop_drop, D. }
    cbn [mbind outcome_bind lookup_total list_lookup_total].
    rewrite IH by lia. destruct (Z.eqb_spec b 0) as [Hb|Hb].
    + f_equal. symmetry. apply bool_decide_eq_true. rewrite Hb. apply list_elem_of_here.
    + f_equal. apply bool_decide_ext. rewrite elem_of_cons. naive_solver.
Qed.

Lemma bytes_view_validate_safe v max req : view_wf v -> bytes_view_validate v max req <> Fault.
Proof.
  intros [Hl Hd]. unfold bytes_view_validate. repeat case_match; try done.
  apply bind_not_fault; [|intros []; done].
  destruct (data v); [|done]. rewrite scan_nul_spec; [done|lia|]. destruct Hd; lia.
Qed.

Lemma bytes_view_validate_ok v max req :
  view_wf v -> bytes_view_validate v max req = Ok tt <-> text_ok max req v.
Proof.
  intros Hwf; pose proof Hwf as [Hl Hd]; unfold bytes_view_validate, text_ok.
  destruct (data v) as [m|] eqn:D.
  - rewrite zlen_view by (done || congruence). unfold view_bytes; rewrite D. destruct Hd as [Hm _].
    rewrite scan_nul_spec, Z2Nat.id by lia. cbn [mbind outcome_bind].
    assert (slice m 0 (len v) <> [] <-> len v <> 0) as N.
    { rewrite <- (zlen_slice m 0 (len v)) at 2 by lia.
      destruct (slice m 0 (len v)); unfold zlen; cbn; split; congruence || lia. }
    rewrite (bool_decide_false (Some m = None)) by done.
    destruct req, (Z.eqb_spec (len v) 0), (Z.ltb_spec max (len v)); cbn;
      rewrite ?andb_false_r; cbn; try (case_bool_decide);
      intuition (try done; try congruence; try lia).
  - unfold view_bytes; rewrite D. cbn.
    destruct req, (Z.eqb_spec (len v) 0), (Z.ltb_spec max (len v)), (Z.ltb_spec 0 (len v)); cbn;
      unfold zlen; cbn; intuition (try done; try congruence; try lia; try set_solver).
Qed.

Lemma document_validate_iff d :
  document_wf d -> YAP_V2_document_validate (Some d) = Ok tt <-> document_valid d.
Proof.
  intros (?&?&?&?&?&?); unfold document_valid; rewrite <- !bytes_view_validate_ok by done.
  unfold YAP_V2_document_validate; rewrite !bind_unit_ok.
  assert ((if updated_at_unix_ms d <? 0 then Err YAP_V2_OUT_OF_RANGE else Ok tt) = Ok tt
          <-> 0 <= updated_at_unix_ms d) as ->; [|done].
  destruct (Z.ltb_spec (updated_at_unix_ms d) 0); split; (done || lia).
Qed.

Lemma passage_validate_iff p :
  passage_wf p -> YAP_V2_passage_validate (Some p) = Ok tt <-> passage_valid p.
Proof.
  intros (?&?&?&?&?&?); unfold passage_valid; rewrite <- !bytes_view_validate_ok by done.
  unfold YAP_V2_passage_validate; rewrite !bind_unit_ok.
  match goal with |- _ /\ _ /\ _ /\ ?A <-> _ /\ _ /\ _ /\ ?B =>
    assert (A <-> B) as ->; [|done] end.
  destruct (Z.ltb_spec (end_char p) (start_char p)),
    (Z.ltb_spec YAP_V2_MAX_CHUNK_CHARS (start_char p)),
    (Z.ltb_spec YAP_V2_MAX_CHUNK_CHARS (end_char p)); cbn; split; (done || lia).
Qed.

Lemma document_validate_safe d :
  document_wf d -> YAP_V2_document_validate (Some d) <> Fault.
Proof.
  intros (?&?&?&?&?&?); unfold YAP_V2_document_validate.
  repeat (apply bind_not_fault; [by apply bytes_view_validate_safe|intros _ _]).
  by destruct (_ <? _).
Qed.

Lemma passage_validate_safe p :
  passage_wf p -> YAP_V2_passage_validate (Some p) <> Fault.
Proof.
  intros (?&?&?&?&?&?); unfold YAP_V2_passage_validate.
  repeat (apply bind_not_fault; [by apply bytes_view_validate_safe|intros _ _]).
  by destruct (_ || _).
Qed.
