(* ===== verification/Crc.v ===== *)
(** CRC-32C, the checksum of every index file payload and of the update WAL.

    The sources compute it in two ways: with a branch on the low bit
    (yappo_segment_v2.c, yappo_lexical_v2.c, yappo_lexical_reader_v2.c) and with a
    mask built from it (yappo_manifest_v2.c, yappo_update_wal_v2.c, the latter
    incrementally).  The two agree, the incremental form composes over
    concatenation, and the checksum tells apart any two payloads that differ in a
    window of at most four bytes. *)
From S2P Require Import Prelude Words.

Definition CRC32C_POLY : Z := 0x82f63b78.

Fixpoint iter {A} (n : nat) (f : A -> A) (x : A) : A :=
  match n with O => x | S n => f (iter n f x) end.

(** ** The branching form *)
Definition crc_step_branch (crc : Z) : Z :=
  if negb (Z.land crc 1 =? 0) then Z.lxor (Z.shiftr crc 1) CRC32C_POLY else Z.shiftr crc 1.

Definition crc_byte_branch (crc b : Z) : Z := iter 8 crc_step_branch (Z.lxor crc b).

Definition crc32c (payload : bytes) : Z :=
  u32 (Z.lnot (foldl crc_byte_branch UINT32_MAX payload)).

(** ** The masking form *)
Definition crc_step_mask (crc : Z) : Z :=
  Z.lxor (Z.shiftr crc 1) (Z.land CRC32C_POLY (u32 (- Z.land crc 1))).

Definition crc_byte_mask (crc b : Z) : Z := iter 8 crc_step_mask (Z.lxor crc b).

Definition manifest_crc32c (payload : bytes) : Z :=
  u32 (Z.lnot (foldl crc_byte_mask 0xffffffff payload)).

Definition crc32c_update (crc : Z) (payload : bytes) : Z := foldl crc_byte_mask crc payload.

(** ** Both steps are the same function *)
Lemma iter_succ_r {A} n (f : A -> A) x : iter (S n) f x = iter n f (f x).
Proof. induction n as [|n IH]; [done|]. cbn [iter] in *. by rewrite IH. Qed.

Lemma iter_add {A} n m (f : A -> A) x : iter (n + m) f x = iter n f (iter m f x).
Proof. induction n as [|n IH]; [done|]. cbn [iter Nat.add]. by rewrite IH. Qed.

Lemma land_1 x : Z.land x 1 = Z.b2z (Z.odd x).
Proof.
  change 1 with (Z.ones 1) at 1. rewrite Z.land_ones by lia.
  change (2 ^ 1) with 2. by rewrite Zmod_odd; destruct (Z.odd x).
Qed.

Lemma crc_step_branch_eq x :
  crc_step_branch x = Z.lxor (Z.shiftr x 1) (if Z.odd x then CRC32C_POLY else 0).
Proof.
  unfold crc_step_branch. rewrite land_1. destruct (Z.odd x); cbn -[Z.shiftr Z.lxor]; [done|].
  by rewrite Z.lxor_0_r.
Qed.

Lemma crc_step_mask_eq x :
  crc_step_mask x = Z.lxor (Z.shiftr x 1) (if Z.odd x then CRC32C_POLY else 0).
Proof. unfold crc_step_mask. rewrite land_1. by destruct (Z.odd x). Qed.

Lemma crc_byte_mask_branch crc b : crc_byte_mask crc b = crc_byte_branch crc b.
Proof.
  unfold crc_byte_mask, crc_byte_branch. generalize (Z.lxor crc b) as x. intros x.
  generalize 8%nat as n; intros n; induction n as [|n IH]; cbn [iter]; [done|].
  by rewrite IH, crc_step_mask_eq, crc_step_branch_eq.
Qed.

Lemma crc_run_mask_branch crc bs : foldl crc_byte_mask crc bs = foldl crc_byte_branch crc bs.
Proof. revert crc; induction bs; intros; cbn [foldl]; [done|]. by rewrite crc_byte_mask_branch. Qed.

Lemma manifest_crc32c_eq bs : manifest_crc32c bs = crc32c bs.
Proof. unfold manifest_crc32c, crc32c. by rewrite crc_run_mask_branch. Qed.

Lemma crc32c_update_crc32c bs : u32 (Z.lnot (crc32c_update UINT32_MAX bs)) = crc32c bs.
Proof. unfold crc32c_update, crc32c. by rewrite crc_run_mask_branch. Qed.

Lemma crc32c_update_app crc a b : crc32c_update crc (a ++ b) = crc32c_update (crc32c_update crc a) b.
Proof. apply foldl_app. Qed.

Lemma crc32c_is_u32 bs : is_u32 (crc32c bs).
Proof. unfold crc32c, u32, is_u32. apply Z.mod_pos_bound; lia. Qed.

(** ** The step is linear and injective on 32-bit states *)
Lemma lxor_u32 x y : is_u32 x -> is_u32 y -> is_u32 (Z.lxor x y).
Proof.
  unfold is_u32. intros Hx Hy.
  assert (0 <= Z.lxor x y) by (apply Z.lxor_nonneg; lia).
  split; [done|]. destruct (Z.eq_dec (Z.lxor x y) 0) as [->|]; [lia|].
  apply Z.log2_lt_pow2; [lia|].
  eapply Z.le_lt_trans; [apply Z.log2_lxor; lia|].
  apply Z.max_lub_lt.
  - destruct (Z.eq_dec x 0) as [->|]; [done|]. apply Z.log2_lt_pow2; lia.
  - destruct (Z.eq_dec y 0) as [->|]; [done|]. apply Z.log2_lt_pow2; lia.
Qed.

Lemma crc_step_u32 x : is_u32 x -> is_u32 (crc_step_branch x).
Proof.
  intros Hx. rewrite crc_step_branch_eq. apply lxor_u32; [|destruct (Z.odd x); done].
  unfold is_u32 in *. rewrite shiftr_div by lia.
  split; [apply Z.div_pos; lia|apply Z.div_lt_upper_bound; lia].
Qed.

Lemma crc_step_lxor x y :
  crc_step_branch (Z.lxor x y) = Z.lxor (crc_step_branch x) (crc_step_branch y).
Proof.
  rewrite !crc_step_branch_eq, Z.shiftr_lxor, <- !Z.bit0_odd, Z.lxor_spec.
  apply Z.bits_inj'; intros n Hn. rewrite !Z.lxor_spec.
  destruct (Z.testbit x 0), (Z.testbit y 0); cbn [xorb]; rewrite ?Z.bits_0;
    destruct (Z.testbit CRC32C_POLY n), (Z.testbit (Z.shiftr x 1) n), (Z.testbit (Z.shiftr y 1) n); done.
Qed.

Lemma crc_step_high x : is_u32 x -> Z.testbit (crc_step_branch x) 31 = Z.odd x.
Proof.
  intros Hx. rewrite crc_step_branch_eq, Z.lxor_spec, Z.shiftr_spec by lia.
  assert (Z.testbit x (31 + 1) = false) as ->.
  { unfold is_u32 in Hx. rewrite <- (Z.mod_small x (2 ^ 32)) by lia.
    by rewrite Z.mod_pow2_bits_high by lia. }
  by destruct (Z.odd x).
Qed.

Lemma crc_step_inj x y :
  is_u32 x -> is_u32 y -> crc_step_branch x = crc_step_branch y -> x = y.
Proof.
  intros Hx Hy E. pose proof (f_equal (fun z => Z.testbit z 31) E) as P.
  cbn beta in P. rewrite !crc_step_high in P by done.
  rewrite !crc_step_branch_eq, P in E.
  apply (f_equal (fun z => Z.lxor z (if Z.odd y then CRC32C_POLY else 0))) in E.
  rewrite !Z.lxor_assoc, !Z.lxor_nilpotent, !Z.lxor_0_r, !shiftr_div in E by lia.
  rewrite (Z.div_mod x 2), (Z.div_mod y 2), !Zmod_odd, P by lia.
  change (2 ^ 1) with 2 in E. by rewrite E.
Qed.

Section iterate.
Implicit Types n : nat.

Lemma crc_iter_u32 n x : is_u32 x -> is_u32 (iter n crc_step_branch x).
Proof. intros; induction n; cbn [iter]; auto using crc_step_u32. Qed.

Lemma crc_iter_lxor n x y :
  iter n crc_step_branch (Z.lxor x y) =
  Z.lxor (iter n crc_step_branch x) (iter n crc_step_branch y).
Proof. induction n as [|n IH]; cbn [iter]; [done|]. by rewrite IH, crc_step_lxor. Qed.

Lemma crc_iter_inj n x y : is_u32 x -> is_u32 y ->
  iter n crc_step_branch x = iter n crc_step_branch y -> x = y.
Proof.
  intros Hx Hy; induction n as [|n IH]; cbn [iter]; [done|].
  intros E; apply IH, crc_step_inj; auto using crc_iter_u32.
Qed.

(** Zero low bits are shifted out without touching the rest. *)
Lemma crc_iter_shift n x : iter n crc_step_branch (2 ^ Z.of_nat n * x) = x.
Proof.
  revert x; induction n as [|n IH]; intros x; [cbn -[Z.mul]; lia|].
  rewrite <- (IH x) at 2. rewrite Nat2Z.inj_succ, Z.pow_succ_r, iter_succ_r by lia.
  f_equal. rewrite crc_step_branch_eq, <- Z.mul_assoc, Z.odd_mul. cbn [Z.odd andb].
  rewrite Z.lxor_0_r, shiftr_div by lia. change (2 ^ 1) with 2.
  rewrite Z.mul_comm, Z.div_mul by lia. done.
Qed.
End iterate.

Lemma byte_u32 b : byte_ok b -> is_u32 b.
Proof. unfold byte_ok, is_u32; lia. Qed.

Lemma crc_run_u32 crc bs : is_u32 crc -> bytes_ok bs -> is_u32 (foldl crc_byte_branch crc bs).
Proof.
  intros Hc Hb; revert crc Hc; induction Hb; intros; cbn [foldl]; auto.
  apply IHHb. unfold crc_byte_branch. apply crc_iter_u32, lxor_u32; auto using byte_u32.
Qed.

Lemma crc_run_inj bs x y : bytes_ok bs -> is_u32 x -> is_u32 y ->
  foldl crc_byte_branch x bs = foldl crc_byte_branch y bs -> x = y.
Proof.
  intros Hb; revert x y; induction Hb as [|b bs Hb _ IH]; intros x y Hx Hy E; [done|].
  cbn [foldl] in E.
  apply IH in E; try (unfold crc_byte_branch; apply crc_iter_u32, lxor_u32; auto using byte_u32).
  unfold crc_byte_branch in E. apply crc_iter_inj in E; auto using lxor_u32, byte_u32.
  apply (f_equal (fun z => Z.lxor z b)) in E.
  by rewrite !Z.lxor_assoc, Z.lxor_nilpotent, !Z.lxor_0_r in E.
Qed.

(** Four bytes enter the state as one 32-bit word. *)
Lemma crc_run_word s bs : bytes_ok bs -> (length bs <= 4)%nat ->
  foldl crc_byte_branch s bs = iter (8 * length bs) crc_step_branch (Z.lxor s (le_dec bs)).
Proof.
  intros Hb; revert s; induction Hb as [|b bs Hb Hbs IH]; intros s Hl.
  - cbn. by rewrite Z.lxor_0_r.
  - cbn [foldl length] in *. rewrite IH by lia.
    replace (8 * S (length bs))%nat with (8 * length bs + 8)%nat by lia.
    rewrite iter_add. f_equal. unfold crc_byte_branch.
    rewrite <- (crc_iter_shift 8 (le_dec bs)) at 1. rewrite <- crc_iter_lxor. f_equal.
    rewrite Z.lxor_assoc. f_equal. cbn [le_dec]. change (2 ^ Z.of_nat 8) with 256.
    unfold byte_ok in Hb.
    rewrite (Z.mul_comm 256). change 256 with (2 ^ 8). rewrite <- lor_shiftl by lia.
    rewrite <- Z.shiftl_mul_pow2 by lia. apply Z.lxor_lor.
    apply Z.bits_inj'; intros k Hk. rewrite Z.land_spec, Z.bits_0.
    destruct (Z.ltb_spec k 8).
    + rewrite Z.shiftl_spec_low by lia. by rewrite andb_false_r.
    + rewrite <- (Z.mod_small b (2 ^ 8)) by lia. by rewrite Z.mod_pow2_bits_high by lia.
Qed.

Lemma le_dec_inj x y : bytes_ok x -> bytes_ok y -> length x = length y -> le_dec x = le_dec y -> x = y.
Proof. intros Hx Hy L E. rewrite <- (le_enc_dec x), <- (le_enc_dec y), L, E; done. Qed.

Lemma u32_lnot_inj x y : is_u32 x -> is_u32 y -> u32 (Z.lnot x) = u32 (Z.lnot y) -> x = y.
Proof.
  unfold is_u32, u32, Z.lnot. intros Hx Hy E.
  assert (forall z, 0 <= z < 2 ^ 32 -> Z.pred (- z) mod 2 ^ 32 = 2 ^ 32 - 1 - z) as P
    by (intros z Hz; symmetry; apply Z.mod_unique with (-1); lia).
  rewrite !P in E by done. lia.
Qed.

Lemma le_dec_is_u32 bs : bytes_ok bs -> (length bs <= 4)%nat -> is_u32 (le_dec bs).
Proof.
  intros Hb Hl. pose proof (le_dec_bound bs Hb) as B. unfold is_u32, zlen in *.
  split; [lia|]. eapply Z.lt_le_trans; [apply B|]. change (2 ^ 32) with (256 ^ 4).
  apply Z.pow_le_mono_r; lia.
Qed.

Lemma crc32c_burst a x y c :
  bytes_ok a -> bytes_ok x -> bytes_ok y -> bytes_ok c ->
  length x = length y -> (length x <= 4)%nat ->
  crc32c (a ++ x ++ c) = crc32c (a ++ y ++ c) -> x = y.
Proof.
  intros Ha Hx Hy Hc HL H4 E. unfold crc32c in E.
  assert (is_u32 UINT32_MAX) as HM by (unfold is_u32, UINT32_MAX; lia).
  apply u32_lnot_inj in E; try (apply crc_run_u32; auto with bytes).
  rewrite !foldl_app in E.
  apply crc_run_inj in E; auto using crc_run_u32.
  rewrite (crc_run_word _ x), (crc_run_word _ y), HL in E by (done || lia).
  pose proof (crc_run_u32 _ _ HM Ha) as Hs. set (s := foldl crc_byte_branch UINT32_MAX a) in *.
  apply crc_iter_inj in E; try (apply lxor_u32; auto; apply le_dec_is_u32; auto; lia).
  apply (f_equal (Z.lxor s)) in E.
  rewrite <- !Z.lxor_assoc, Z.lxor_nilpotent, !Z.lxor_0_l in E.
  by apply le_dec_inj.
Qed.

(** ** Main theorem *)

(** The three CRC-32C routines of the sources compute one function: the table-free loop
    of the segment files, the masking loop of the manifest, and the running CRC of the update
    log over any partition of the bytes into pieces. *)
Theorem crc_implementations_agree (pieces : list bytes) :
  manifest_crc32c (concat pieces) = crc32c (concat pieces) /\
  u32 (Z.lnot (foldl crc32c_update UINT32_MAX pieces)) = crc32c (concat pieces).
Proof.
  split; [apply manifest_crc32c_eq|]. rewrite <- crc32c_update_crc32c. do 2 f_equal.
  generalize UINT32_MAX as c. induction pieces as [|p ps IH]; intros c; [done|].
  cbn [foldl concat]. by rewrite IH, crc32c_update_app.
Qed.
