(* ===== verification/Sha256.v ===== *)
(** SHA-256 as yappo_segment_v2.c implements it: a streaming context that
    buffers up to one block, padding in [sha256_final], and the one-shot and
    file digests built on it.  The reference is the padded message absorbed block
    by block; the streaming code is proved equal to it for every way of cutting
    the input into pieces, and never writes outside its block. *)
From S2P Require Import Prelude Words.

Record YAP_V2_SHA256 := Sha256Ctx {
  sha_state : list Z;
  bit_length : Z;
  block : bytes;
  block_length : Z }.

Definition sha256_rotr (value count : Z) : Z :=
  Z.lor (Z.shiftr value count) (u32 (Z.shiftl value (32 - count))).

Definition sha256_constants : list Z :=
  [0x428a2f98; 0x71374491; 0xb5c0fbcf; 0xe9b5dba5] ++ [0x3956c25b; 0x59f111f1; 0x923f82a4; 0xab1c5ed5] ++
  [0xd807aa98; 0x12835b01; 0x243185be; 0x550c7dc3] ++ [0x72be5d74; 0x80deb1fe; 0x9bdc06a7; 0xc19bf174] ++
  [0xe49b69c1; 0xefbe4786; 0x0fc19dc6; 0x240ca1cc] ++ [0x2de92c6f; 0x4a7484aa; 0x5cb0a9dc; 0x76f988da] ++
  [0x983e5152; 0xa831c66d; 0xb00327c8; 0xbf597fc7] ++ [0xc6e00bf3; 0xd5a79147; 0x06ca6351; 0x14292967] ++
  [0x27b70a85; 0x2e1b2138; 0x4d2c6dfc; 0x53380d13] ++ [0x650a7354; 0x766a0abb; 0x81c2c92e; 0x92722c85] ++
  [0xa2bfe8a1; 0xa81a664b; 0xc24b8b70; 0xc76c51a3] ++ [0xd192e819; 0xd6990624; 0xf40e3585; 0x106aa070] ++
  [0x19a4c116; 0x1e376c08; 0x2748774c; 0x34b0bcb5] ++ [0x391c0cb3; 0x4ed8aa4a; 0x5b9cca4f; 0x682e6ff3] ++
  [0x748f82ee; 0x78a5636f; 0x84c87814; 0x8cc70208] ++ [0x90befffa; 0xa4506ceb; 0xbef9a3f7; 0xc67178f2].

Definition sha256_initial_state : list Z :=
  [0x6a09e667; 0xbb67ae85; 0x3c6ef372; 0xa54ff53a; 0x510e527f; 0x9b05688c; 0x1f83d9ab; 0x5be0cd19].

(** The sixteen big-endian words of a block. *)
Definition block_words (blk : bytes) : list Z :=
  (fun i : nat =>
     Z.lor (Z.lor (Z.lor (u32 (Z.shiftl (blk !!! (i * 4)%nat) 24))
                         (u32 (Z.shiftl (blk !!! (i * 4 + 1)%nat) 16)))
                  (u32 (Z.shiftl (blk !!! (i * 4 + 2)%nat) 8)))
           (blk !!! (i * 4 + 3)%nat)) <$> seq 0 16.

(** One more word of the message schedule, for index [i >= 16]. *)
Definition schedule_step (words : list Z) (i : nat) : list Z :=
  let w15 := words !!! (i - 15)%nat in
  let w2 := words !!! (i - 2)%nat in
  let s0 := Z.lxor (Z.lxor (sha256_rotr w15 7) (sha256_rotr w15 18)) (Z.shiftr w15 3) in
  let s1 := Z.lxor (Z.lxor (sha256_rotr w2 17) (sha256_rotr w2 19)) (Z.shiftr w2 10) in
  words ++ [u32 (words !!! (i - 16)%nat + s0 + words !!! (i - 7)%nat + s1)].

Definition sha256_words (blk : bytes) : list Z := foldl schedule_step (block_words blk) (seq 16 48).

(** One round on the working variables [a .. h]. *)
Definition sha256_round (words v : list Z) (i : nat) : list Z :=
  match v with
  | [a; b; c; d; e; f; g; h] =>
      let sigma1 := Z.lxor (Z.lxor (sha256_rotr e 6) (sha256_rotr e 11)) (sha256_rotr e 25) in
      let choose := Z.lxor (Z.land e f) (Z.land (u32 (Z.lnot e)) g) in
      let sigma0 := Z.lxor (Z.lxor (sha256_rotr a 2) (sha256_rotr a 13)) (sha256_rotr a 22) in
      let majority := Z.lxor (Z.lxor (Z.land a b) (Z.land a c)) (Z.land b c) in
      let t1 := u32 (h + sigma1 + choose + sha256_constants !!! i + words !!! i) in
      let t2 := u32 (sigma0 + majority) in
      [u32 (t1 + t2); a; b; c; u32 (d + t1); e; f; g]
  | _ => v
  end.

Definition sha256_transform (state : list Z) (blk : bytes) : list Z :=
  zip_with (fun s v => u32 (s + v)) state (foldl (sha256_round (sha256_words blk)) state (seq 0 64)).

(** [sha256_init] leaves the block as it finds it. *)
Definition sha256_init (ctx : YAP_V2_SHA256) : YAP_V2_SHA256 :=
  Sha256Ctx sha256_initial_state 0 (block ctx) 0.

(** The loop of [sha256_update]; every turn consumes at least one byte. *)
Fixpoint sha256_update_loop {E} (fuel : nat) (ctx : YAP_V2_SHA256) (payload : bytes)
  : outcome E YAP_V2_SHA256 :=
  match payload with
  | [] => Ok ctx
  | _ =>
      match fuel with
      | O => Fault
      | S fuel =>
          let copied := u64 (64 - block_length ctx) in
          let copied := if zlen payload <? copied then zlen payload else copied in
          blk ← store_bytes (block ctx) (block_length ctx) (slice payload 0 copied);
          let len' := block_length ctx + copied in
          let bits := u64 (bit_length ctx + u64 (copied * 8)) in
          let rest := drop (Z.to_nat copied) payload in
          if len' =? 64
          then sha256_update_loop fuel
                 (Sha256Ctx (sha256_transform (sha_state ctx) blk) bits blk 0) rest
          else sha256_update_loop fuel (Sha256Ctx (sha_state ctx) bits blk len') rest
      end
  end.

Definition sha256_update {E} (ctx : YAP_V2_SHA256) (payload : bytes) : outcome E YAP_V2_SHA256 :=
  sha256_update_loop (length payload) ctx payload.

(** The zero-padding loop of [sha256_final]: it runs until the block holds 56 bytes. *)
Fixpoint sha256_pad_loop {E} (fuel : nat) (ctx : YAP_V2_SHA256) : outcome E YAP_V2_SHA256 :=
  if block_length ctx =? 56 then Ok ctx
  else match fuel with
  | O => Fault
  | S fuel =>
      let ctx := if block_length ctx =? 64
                 then Sha256Ctx (sha256_transform (sha_state ctx) (block ctx)) (bit_length ctx)
                        (block ctx) 0
                 else ctx in
      blk ← store_bytes (block ctx) (block_length ctx) [0];
      sha256_pad_loop fuel (Sha256Ctx (sha_state ctx) (bit_length ctx) blk (block_length ctx + 1))
  end.

Definition be64 (v : Z) : bytes :=
  (fun i => Z.land (Z.shiftr v (56 - i * 8)) 0xff) <$> seqZ 0 8.

Definition digest_bytes (state : list Z) : bytes :=
  mjoin ((fun w => [u8 (Z.shiftr w 24); u8 (Z.shiftr w 16); u8 (Z.shiftr w 8); u8 w]) <$> state).

Definition sha256_final {E} (ctx : YAP_V2_SHA256) : outcome E bytes :=
  blk ← store_bytes (block ctx) (block_length ctx) [0x80];
  ctx ← sha256_pad_loop 64 (Sha256Ctx (sha_state ctx) (bit_length ctx) blk (block_length ctx + 1));
  blk ← store_bytes (block ctx) 56 (be64 (bit_length ctx));
  Ok (digest_bytes (sha256_transform (sha_state ctx) blk)).

(** The digest of a buffer; [ctx] is the uninitialised context on the stack. *)
Definition sha256_digest {E} (ctx : YAP_V2_SHA256) (payload : bytes) : outcome E bytes :=
  ctx ← sha256_update (sha256_init ctx) payload;
  sha256_final ctx.

(** ** Reference *)
Fixpoint absorb (n : nat) (state : list Z) (msg : bytes) : list Z :=
  match n with
  | O => state
  | S n => absorb n (sha256_transform state (take 64 msg)) (drop 64 msg)
  end.

Definition pad_zeros (n : Z) : nat := Z.to_nat ((55 - n) mod 64).

Definition sha256_pad (msg : bytes) : bytes :=
  msg ++ [0x80] ++ replicate (pad_zeros (zlen msg)) 0 ++ be64 (u64 (8 * zlen msg)).

Definition sha256_spec (msg : bytes) : bytes :=
  let p := sha256_pad msg in
  digest_bytes (absorb (length p / 64) sha256_initial_state p).

(** ** The streaming context represents the message absorbed so far *)
Definition sha_rep (ctx : YAP_V2_SHA256) (msg : bytes) : Prop :=
  exists q full rest tail,
    msg = full ++ rest /\ length full = (64 * q)%nat /\
    sha_state ctx = absorb q sha256_initial_state full /\
    block ctx = rest ++ tail /\ zlen (block ctx) = 64 /\
    block_length ctx = zlen rest.

#[local] Opaque sha256_transform sha256_initial_state.

Definition ctx_valid (ctx : YAP_V2_SHA256) : Prop := zlen (block ctx) = 64.

Lemma absorb_snoc q st full blk :
  length full = (64 * q)%nat -> length blk = 64%nat ->
  absorb (S q) st (full ++ blk) = sha256_transform (absorb q st full) blk.
Proof.
  revert st full; induction q as [|q IH]; intros st full Hf Hb.
  - destruct full; [|done]. cbn [absorb app]. by rewrite take_ge by lia.
  - change (absorb (S (S q)) st (full ++ blk))
      with (absorb (S q) (sha256_transform st (take 64 (full ++ blk))) (drop 64 (full ++ blk))).
    rewrite take_app_le, drop_app_le by lia.
    rewrite IH by (rewrite ?length_drop; lia). done.
Qed.

(** Closing a full block keeps the represented message. *)
Lemma sha_rep_flush ctx msg bits :
  sha_rep ctx msg -> block_length ctx = 64 ->
  sha_rep (Sha256Ctx (sha256_transform (sha_state ctx) (block ctx)) bits (block ctx) 0) msg.
Proof.
  intros (q&full&rest&tail&->&Hf&Hs&Hb&H64&Hl) E.
  assert (tail = []) as -> by (apply length_zero_iff_nil; rewrite Hb in H64; unfold zlen in *;
    rewrite length_app in H64; lia).
  rewrite app_nil_r in Hb. exists (S q), (full ++ rest), [], rest. cbn.
  rewrite app_nil_r, Hb, Hs. split_and!; try done.
  - rewrite length_app. unfold zlen in *. lia.
  - symmetry. apply absorb_snoc; [done|]. unfold zlen in *; lia.
  - by rewrite <- Hb.
Qed.

(** Appending bytes that fit into the block. *)
Lemma sha_rep_push {E} ctx msg bs :
  sha_rep ctx msg -> block_length ctx + zlen bs <= 64 ->
  exists blk, store_bytes (E := E) (block ctx) (block_length ctx) bs = Ok blk /\
    forall bits, sha_rep (Sha256Ctx (sha_state ctx) bits blk (block_length ctx + zlen bs)) (msg ++ bs).
Proof.
  intros (q&full&rest&tail&->&Hf&Hs&Hb&H64&Hl) Hle.
  assert (zlen rest + zlen tail = 64) by (rewrite <- H64, Hb; zl).
  rewrite Hb, <- (take_drop (length bs) tail).
  assert (zlen bs = zlen (take (length bs) tail)) as Hz
    by (unfold zlen in *; rewrite length_take; lia).
  eexists; split; [by apply store_bytes_app|]. intros bits.
  exists q, full, (rest ++ bs), (drop (length bs) tail). cbn.
  rewrite !(assoc_L (++)). split_and!; try done; [|zl].
  rewrite !zlen_app. unfold zlen in *; rewrite length_drop; lia.
Qed.

Lemma sha_rep_init ctx : ctx_valid ctx -> sha_rep (sha256_init ctx) [].
Proof. intros H. by exists 0%nat, [], [], (block ctx). Qed.

Definition sha_inv (ctx : YAP_V2_SHA256) (msg : bytes) : Prop :=
  sha_rep ctx msg /\ block_length ctx < 64 /\ bit_length ctx = u64 (8 * zlen msg).

Lemma sha_rep_len ctx msg : sha_rep ctx msg -> 0 <= block_length ctx.
Proof. intros (?&?&?&?&_&_&_&_&_&->). apply zlen_nonneg. Qed.

Lemma sha_inv_step {E} ctx msg bs blk (len' := block_length ctx + zlen bs) :
  sha_inv ctx msg -> len' <= 64 ->
  store_bytes (E := E) (block ctx) (block_length ctx) bs = Ok blk ->
  let bits := u64 (bit_length ctx + u64 (zlen bs * 8)) in
  sha_inv (if len' =? 64 then Sha256Ctx (sha256_transform (sha_state ctx) blk) bits blk 0
           else Sha256Ctx (sha_state ctx) bits blk len') (msg ++ bs).
Proof.
  intros (HR&Hlt&Hbits) Hle Hst bits.
  destruct (sha_rep_push (E := E) ctx msg bs HR Hle) as (blk'&Hst'&HR').
  rewrite Hst in Hst'. injection Hst' as <-.
  assert (bits = u64 (8 * zlen (msg ++ bs))) as Hb.
  { subst bits. rewrite Hbits, u64_add_l, Z.add_comm, u64_add_l. f_equal. zl. }
  specialize (HR' bits). fold len' in HR'.
  destruct (Z.eqb_spec len' 64) as [E64|N64].
  - split_and!; [|done|done]. by apply (sha_rep_flush _ _ bits) in HR'.
  - split_and!; [done| |done]. cbn. lia.
Qed.

Lemma sha256_update_loop_inv {E} fuel ctx msg payload :
  sha_inv ctx msg -> (length payload <= fuel)%nat ->
  exists ctx', sha256_update_loop (E := E) fuel ctx payload = Ok ctx' /\ sha_inv ctx' (msg ++ payload).
Proof.
  revert ctx msg payload; induction fuel as [|fuel IH]; intros ctx msg payload HI Hf.
  { destruct payload; [|cbn in Hf; lia]. exists ctx. by rewrite app_nil_r. }
  destruct payload as [|b p]; [exists ctx; by rewrite app_nil_r|].
  cbn [sha256_update_loop]. remember (b :: p) as payload eqn:Hp.
  assert (1 <= zlen payload) by (subst; unfold zlen; cbn; lia).
  destruct HI as (HR&Hlt&Hbits). pose proof (sha_rep_len _ _ HR).
  assert (u64 (64 - block_length ctx) = 64 - block_length ctx) as Hc
    by (unfold u64; apply Z.mod_small; lia).
  rewrite Hc. set (copied := if zlen payload <? 64 - block_length ctx then _ else _).
  assert (1 <= copied /\ copied <= zlen payload /\ block_length ctx + copied <= 64) as (?&?&?)
    by (subst copied; destruct (Z.ltb_spec (zlen payload) (64 - block_length ctx)); lia).
  clearbody copied. set (bs := slice payload 0 copied).
  assert (zlen bs = copied) as Hbs by (apply zlen_slice; lia).
  destruct (sha_rep_push (E := E) ctx msg bs HR ltac:(lia)) as (blk&Hst&_).
  rewrite Hst. cbn [mbind outcome_bind].
  pose proof (sha_inv_step ctx msg bs blk (conj HR (conj Hlt Hbits)) ltac:(lia) Hst) as HI.
  rewrite Hbs in HI. cbn zeta in HI.
  assert (msg ++ payload = (msg ++ bs) ++ drop (Z.to_nat copied) payload) as ->.
  { subst bs. unfold slice. by rewrite <- (assoc_L (++)), drop_0, take_drop. }
  assert ((length (drop (Z.to_nat copied) payload) <= fuel)%nat)
    by (rewrite length_drop; unfold zlen in *; lia).
  destruct (block_length ctx + copied =? 64); by apply IH.
Qed.

Lemma sha256_update_inv {E} ctx msg payload :
  sha_inv ctx msg ->
  exists ctx', sha256_update (E := E) ctx payload = Ok ctx' /\ sha_inv ctx' (msg ++ payload).
Proof. intros. by apply sha256_update_loop_inv. Qed.

(** Length of the padded message, modulo the block size. *)
Lemma sha_rep_mod ctx msg : sha_rep ctx msg -> block_length ctx <= 64 ->
  block_length ctx mod 64 = zlen msg mod 64.
Proof.
  intros (q&full&rest&tail&->&Hf&_&_&_&->) _. rewrite zlen_app.
  unfold zlen at 2. rewrite Hf. replace (Z.of_nat (64 * q)) with (Z.of_nat q * 64) by lia.
  by rewrite Z.add_comm, Z.mod_add by lia.
Qed.

Lemma sha256_pad_loop_inv {E} k fuel ctx msg :
  sha_rep ctx msg -> block_length ctx <= 64 -> (k <= fuel)%nat -> (k < 64)%nat ->
  (zlen msg + Z.of_nat k) mod 64 = 56 ->
  exists ctx', sha256_pad_loop (E := E) fuel ctx = Ok ctx' /\
    sha_rep ctx' (msg ++ replicate k 0) /\ block_length ctx' = 56 /\ bit_length ctx' = bit_length ctx.
Proof.
  revert fuel ctx msg; induction k as [|k IH]; intros fuel ctx msg HR Hle Hf Hk Hm.
  - exists ctx. rewrite Z.add_0_r in Hm. rewrite <- (sha_rep_mod ctx) in Hm by done.
    pose proof (sha_rep_len _ _ HR).
    assert (block_length ctx = 56) as E56.
    { destruct (Z.eq_dec (block_length ctx) 64) as [E64|]; [by rewrite E64 in Hm|].
      rewrite Z.mod_small in Hm; lia. }
    destruct fuel; cbn [sha256_pad_loop]; rewrite E56; cbn; by rewrite app_nil_r.
  - destruct fuel as [|fuel]; [lia|]. cbn [sha256_pad_loop].
    pose proof (sha_rep_mod ctx msg HR Hle) as HM. pose proof (sha_rep_len _ _ HR).
    assert (block_length ctx <> 56) as N56.
    { intros E56. rewrite E56 in HM. change (56 mod 64) with 56 in HM.
      rewrite Z.add_mod, <- HM, (Z.mod_small (Z.of_nat (S k))) in Hm by lia.
      pose proof (Z.div_mod (56 + Z.of_nat (S k)) 64). 
      pose proof (Z.div_pos (56 + Z.of_nat (S k)) 64). lia. }
    rewrite (proj2 (Z.eqb_neq _ _) N56).
    set (c := if block_length ctx =? 64 then _ else ctx).
    assert (sha_rep c msg /\ block_length c < 64 /\ bit_length c = bit_length ctx) as (HRc&Hlc&Hbc).
    { subst c. destruct (Z.eqb_spec (block_length ctx) 64); split_and!; cbn; try done; try lia.
      by apply sha_rep_flush. }
    destruct (sha_rep_push (E := E) c msg [0] HRc) as (blk&Hst&HR'); [unfold zlen; cbn; lia|].
    rewrite Hst. cbn [mbind outcome_bind].
    destruct (IH fuel (Sha256Ctx (sha_state c) (bit_length c) blk (block_length c + 1)) (msg ++ [0]))
      as (ctx'&Hp&HR2&H56&Hb2); try lia.
    + apply HR'.
    + cbn; lia.
    + rewrite <- Hm. f_equal. autorewrite with zlen. lia.
    + exists ctx'. split_and!; try done; [|by rewrite Hb2].
      by rewrite <- (assoc_L (++)) in HR2.
Qed.

Lemma zlen_be64 v : zlen (be64 v) = 8.
Proof. done. Qed.

Lemma sha_rep_absorb ctx msg : sha_rep ctx msg -> block_length ctx = 64 ->
  sha256_transform (sha_state ctx) (block ctx) = absorb (length msg / 64) sha256_initial_state msg.
Proof.
  intros HR E64. destruct (sha_rep_flush _ _ 0 HR E64) as (q&full&rest&tail&->&Hf&Hs&_&_&Hl).
  cbn [sha_state block_length] in *. destruct rest; [|unfold zlen in Hl; cbn in Hl; lia].
  rewrite app_nil_r, Hf, Nat.mul_comm, Nat.div_mul by lia. done.
Qed.

Lemma sha256_tail_spec {E} ctx msg k :
  sha_rep ctx (msg ++ [0x80]) -> block_length ctx <= 64 -> bit_length ctx = u64 (8 * zlen msg) ->
  k = pad_zeros (zlen msg) ->
  exists c blk, sha256_pad_loop (E := E) 64 ctx = Ok c /\
    store_bytes (E := E) (block c) 56 (be64 (bit_length c)) = Ok blk /\
    sha256_transform (sha_state c) blk =
    absorb (length (sha256_pad msg) / 64) sha256_initial_state (sha256_pad msg).
Proof.
  intros HR Hle Hbits Hk.
  pose proof (Z.mod_pos_bound (55 - zlen msg) 64 ltac:(lia)) as HK.
  destruct (sha256_pad_loop_inv (E := E) k 64 _ _ HR) as (c&Hp&HR2&H56&Hb2);
    [done|subst k; unfold pad_zeros; lia|subst k; unfold pad_zeros; lia| |].
  { subst k; unfold pad_zeros. rewrite Z2Nat.id by lia. autorewrite with zlen.
    rewrite Zplus_mod_idemp_r. replace (_ + (55 - zlen msg)) with 56 by lia. done. }
  destruct (sha_rep_push (E := E) c _ (be64 (bit_length c)) HR2) as (blk2&Hst2&HR3).
  { rewrite zlen_be64; lia. }
  exists c, blk2. rewrite H56 in Hst2. split_and!; [done|done|].
  specialize (HR3 0). apply sha_rep_absorb in HR3; [|cbn; rewrite zlen_be64; lia].
  cbn [sha_state block] in HR3. rewrite HR3, Hb2, Hbits. unfold sha256_pad. rewrite <- Hk.
  by rewrite <- !(assoc_L (++)).
Qed.

Lemma sha256_final_spec {E} ctx msg :
  sha_inv ctx msg -> sha256_final (E := E) ctx = Ok (sha256_spec msg).
Proof.
  intros (HR&Hlt&Hbits). unfold sha256_final.
  destruct (sha_rep_push (E := E) ctx msg [0x80] HR) as (blk&Hst&HR1); [unfold zlen; cbn; lia|].
  rewrite Hst, outcome_bind_ok. change (zlen [0x80]) with 1 in HR1.
  destruct (sha256_tail_spec (E := E) _ msg (pad_zeros (zlen msg)) (HR1 (bit_length ctx)))
    as (c&blk2&Hp&Hst2&HT); [cbn; lia|done|done|].
  rewrite Hp, outcome_bind_ok, Hst2, outcome_bind_ok, HT. done.
Qed.

Lemma sha256_digest_eq {E} ctx msg :
  ctx_valid ctx -> sha256_digest (E := E) ctx msg = Ok (sha256_spec msg).
Proof.
  intros Hc. unfold sha256_digest.
  destruct (sha256_update_inv (E := E) (sha256_init ctx) [] msg) as (c&->&HI).
  { split_and!; [by apply sha_rep_init|done|done]. }
  cbn [mbind outcome_bind]. by apply sha256_final_spec.
Qed.

(** The digest of a stream read piece by piece, as [YAP_V2_file_sha256] reads a file. *)
Definition sha256_stream {E} (ctx : YAP_V2_SHA256) (pieces : list bytes) : outcome E bytes :=
  ctx ← foldl (fun acc piece => c ← acc; sha256_update c piece) (Ok (sha256_init ctx)) pieces;
  sha256_final ctx.

Lemma sha256_pieces_inv {E} pieces ctx msg :
  sha_inv ctx msg ->
  exists c, foldl (fun acc piece => c ← acc; sha256_update (E := E) c piece) (Ok ctx) pieces = Ok c /\
            sha_inv c (msg ++ mjoin pieces).
Proof.
  revert ctx msg; induction pieces as [|p ps IH]; intros ctx msg HI.
  - exists ctx. cbn. by rewrite app_nil_r.
  - cbn [foldl mbind outcome_bind].
    destruct (sha256_update_inv (E := E) ctx msg p HI) as (c&Hc&HI').
    rewrite Hc. destruct (IH c _ HI') as (c'&Hc'&HI2). exists c'. split; [done|].
    cbn [mjoin list_join]. by rewrite (assoc_L (++)).
Qed.

Lemma sha256_stream_eq {E} ctx pieces :
  ctx_valid ctx -> sha256_stream (E := E) ctx pieces = Ok (sha256_spec (mjoin pieces)).
Proof.
  intros Hc. unfold sha256_stream.
  destruct (sha256_pieces_inv (E := E) pieces (sha256_init ctx) []) as (c&->&HI).
  { split_and!; [by apply sha_rep_init|done|done]. }
  cbn [mbind outcome_bind]. by apply sha256_final_spec.
Qed.

(** ** Main theorem *)



Example sha256_abc : take 4 (sha256_spec [97; 98; 99]) = [0xba; 0x78; 0x16; 0xbf].
Proof. vm_compute. reflexivity. Qed.
