(* ===== verification/Header.v ===== *)
(** The 32-byte header of every index file
    (src/src/storage/yappo_storage_v2.h and yappo_storage_v2.c, lines 282-363). *)
From S2P Require Import Prelude Words Types.

Definition YAP_V2_FILE_HEADER_BYTES : Z := 32.
Definition YAP_V2_MAGIC : bytes := [89; 65; 80; 50].  (* "YAP2" *)

Definition YAP_V2_FILE_TERMS : Z := 1.
Definition YAP_V2_FILE_POSTINGS : Z := 2.
Definition YAP_V2_FILE_POSITIONS : Z := 3.
Definition YAP_V2_FILE_DOCUMENTS : Z := 4.
Definition YAP_V2_FILE_METADATA : Z := 5.
Definition YAP_V2_FILE_VECTORS : Z := 6.
Definition YAP_V2_FILE_TOMBSTONES : Z := 7.
Definition YAP_V2_FILE_ANN : Z := 8.
Definition YAP_V2_FILE_MANIFEST : Z := 9.
Definition YAP_V2_FILE_ANN_BASE : Z := 10.

Record YAP_V2_FILE_HEADER := FileHeader {
  format_version : Z;
  header_bytes : Z;
  file_type : Z;
  generation : Z;
  payload_bytes : Z;
  payload_crc32c : Z }.

Definition file_header_type_valid (t : Z) : bool :=
  ((YAP_V2_FILE_TERMS <=? t) && (t <=? YAP_V2_FILE_TOMBSTONES)) ||
  (t =? YAP_V2_FILE_MANIFEST) || (t =? YAP_V2_FILE_ANN_BASE).

(** The condition both routines refuse a header on. *)
Definition header_fields_invalid (h : YAP_V2_FILE_HEADER) : bool :=
  negb (format_version h =? YAP_V2_FORMAT_VERSION) ||
  negb (header_bytes h =? YAP_V2_FILE_HEADER_BYTES) ||
  negb (file_header_type_valid (file_type h)) || (generation h =? 0).

(** [output] is the block the header is written to the front of. *)
Definition YAP_V2_file_header_encode (header : option YAP_V2_FILE_HEADER) (output : option bytes)
  : result bytes :=
  match header, output with
  | Some h, Some out =>
      if header_fields_invalid h then Err YAP_V2_INVALID_FORMAT
      else
        out ← store_bytes out 0 (replicate 32 0);
        out ← store_bytes out 0 YAP_V2_MAGIC;
        out ← store_bytes out 4 (put_u16_le (format_version h));
        out ← store_bytes out 6 (put_u16_le (header_bytes h));
        out ← store_bytes out 8 (put_u32_le (file_type h));
        out ← store_bytes out 12 (put_u64_le (generation h));
        out ← store_bytes out 20 (put_u64_le (payload_bytes h));
        store_bytes out 28 (put_u32_le (payload_crc32c h))
  | _, _ => Err YAP_V2_INVALID_FORMAT
  end.

Definition YAP_V2_file_header_decode (input : option bytes) : result YAP_V2_FILE_HEADER :=
  match input with
  | None => Err YAP_V2_INVALID_FORMAT
  | Some m =>
      magic ← load_bytes m 0 4;
      if bool_decide (magic = YAP_V2_MAGIC) then
        version ← get_u16_le m 4;
        hbytes ← get_u16_le m 6;
        type ← get_u32_le m 8;
        gen ← get_u64_le m 12;
        pbytes ← get_u64_le m 20;
        crc ← get_u32_le m 28;
        let h := FileHeader version hbytes type gen pbytes crc in
        if header_fields_invalid h then Err YAP_V2_INVALID_FORMAT else Ok h
      else Err YAP_V2_INVALID_FORMAT
  end.

(** ** Specification *)
Definition header_image (h : YAP_V2_FILE_HEADER) : bytes :=
  YAP_V2_MAGIC ++ put_u16_le (format_version h) ++ put_u16_le (header_bytes h) ++
  put_u32_le (file_type h) ++ put_u64_le (generation h) ++ put_u64_le (payload_bytes h) ++
  put_u32_le (payload_crc32c h).

Definition header_wf (h : YAP_V2_FILE_HEADER) : Prop :=
  is_u16 (format_version h) /\ is_u16 (header_bytes h) /\ is_u32 (file_type h) /\
  is_u64 (generation h) /\ is_u64 (payload_bytes h) /\ is_u32 (payload_crc32c h).

Definition header_valid (h : YAP_V2_FILE_HEADER) : Prop :=
  header_wf h /\ header_fields_invalid h = false.

(** ** Lemmas *)
Lemma zlen_header_image h : zlen (header_image h) = 32.
Proof. done. Qed.
#[export] Hint Rewrite zlen_header_image : zlen.

Lemma header_image_ok h : bytes_ok (header_image h).
Proof.
  unfold header_image, YAP_V2_MAGIC. apply Forall_app_2; [|auto 10 with bytes].
  repeat constructor; unfold byte_ok; lia.
Qed.
#[export] Hint Resolve header_image_ok : bytes.

Lemma file_header_encode_image h junk rest :
  header_fields_invalid h = false -> zlen junk = 32 ->
  YAP_V2_file_header_encode (Some h) (Some (junk ++ rest)) = Ok (header_image h ++ rest).
Proof.
  intros Hv Hj. unfold YAP_V2_file_header_encode. rewrite Hv.
  rewrite (store_bytes_app [] junk rest) by (done || zl). rewrite outcome_bind_ok.
  set (z := replicate 32 0 ++ rest).
  assert (zlen z = 32 + zlen rest) as Hz by (subst z; zl). pose proof (zlen_nonneg rest).
  rewrite (store_bytes_next [] z) by (done || (rewrite Hz; unfold zlen; cbn; lia)).
  do 5 (rewrite outcome_bind_ok, store_bytes_next;
    [|done|autorewrite with len zlen; cbn [length YAP_V2_MAGIC]; lia]).
  rewrite outcome_bind_ok, (store_bytes_next (_ ++ _) (drop _ _)).
  - autorewrite with len. rewrite !drop_drop. unfold header_image. by rewrite <- !(assoc_L (++)).
  - done.
  - autorewrite with len zlen; cbn [length YAP_V2_MAGIC]; lia.
Qed.

(** Decoding reads exactly the first 32 bytes. *)
Lemma file_header_decode_image h rest :
  header_valid h -> bytes_ok rest ->
  YAP_V2_file_header_decode (Some (header_image h ++ rest)) = Ok h.
Proof.
  intros [(?&?&?&?&?&?) Hv] Hr. unfold YAP_V2_file_header_decode, header_image.
  assert (bytes_ok YAP_V2_MAGIC) by (repeat constructor; unfold byte_ok; lia).
  rewrite <- !(assoc_L (++)).
  rewrite (load_bytes_app0 YAP_V2_MAGIC) by done. rewrite outcome_bind_ok, bool_decide_true by done.
  rewrite (get_u16_le_app YAP_V2_MAGIC _ _ 4), outcome_bind_ok by bok.
  rewrite (assoc_L (++) YAP_V2_MAGIC), (get_u16_le_app _ _ _ 6), outcome_bind_ok by bok.
  rewrite (assoc_L (++) _ (put_u16_le (header_bytes h))), (get_u32_le_app _ _ _ 8), outcome_bind_ok by bok.
  rewrite (assoc_L (++) _ (put_u32_le _)), (get_u64_le_app _ _ _ 12), outcome_bind_ok by bok.
  rewrite (assoc_L (++) _ (put_u64_le (generation h))), (get_u64_le_app _ _ _ 20), outcome_bind_ok by bok.
  rewrite (assoc_L (++) _ (put_u64_le (payload_bytes h))), (get_u32_le_app _ _ _ 28) by bok.
  rewrite outcome_bind_ok. destruct h; cbn in *. by rewrite Hv.
Qed.

(** The four magic bytes and the six fields of a 32-byte prefix. *)
Lemma file_header_decode_safe m : bytes_ok m -> 32 <= zlen m -> YAP_V2_file_header_decode (Some m) <> Fault.
Proof.
  intros Hm Hl. unfold YAP_V2_file_header_decode, load_bytes.
  rewrite (proj2 (in_range_true _ _ _)), outcome_bind_ok by lia.
  destruct (bool_decide _); [|done].
  rewrite !get_u16_le_dec, !get_u32_le_dec, !get_u64_le_dec by (done || lia).
  rewrite !outcome_bind_ok. by destruct (header_fields_invalid _).
Qed.

Lemma slice_split {A} (m : list A) p n k :
  0 <= p -> 0 <= n -> 0 <= k -> slice m p (n + k) = slice m p n ++ slice m (p + n) k.
Proof.
  intros. unfold slice. rewrite !Z2Nat.inj_add by lia.
  rewrite <- drop_drop. generalize (drop (Z.to_nat p) m) as l. intros l.
  rewrite <- (take_drop (Z.to_nat n) l) at 1.
  destruct (Nat.le_gt_cases (Z.to_nat n) (length l)).
  - rewrite take_app_ge by (rewrite length_take; lia). rewrite length_take. f_equal. f_equal. lia.
  - rewrite drop_ge, app_nil_r by lia. rewrite !take_nil, app_nil_r, take_take. f_equal. lia.
Qed.

Lemma file_header_decode_inv m h :
  bytes_ok m -> 32 <= zlen m -> YAP_V2_file_header_decode (Some m) = Ok h ->
  header_valid h /\ take 32 m = header_image h.
Proof.
  intros Hm Hl. unfold YAP_V2_file_header_decode, load_bytes.
  rewrite (proj2 (in_range_true _ _ _)), outcome_bind_ok by lia.
  destruct (bool_decide _) eqn:HM; [|done]. apply bool_decide_eq_true in HM.
  rewrite !get_u16_le_dec, !get_u32_le_dec, !get_u64_le_dec by (done || lia).
  rewrite !outcome_bind_ok. destruct (header_fields_invalid _) eqn:Hv; [done|]. intros [= <-].
  assert (forall p n, 0 <= p -> 0 <= n -> p + n <= zlen m ->
    bytes_ok (slice m p n) /\ length (slice m p n) = Z.to_nat n) as HS.
  { intros p n ???. split; [auto with bytes|]. pose proof (zlen_slice m p n). unfold zlen in *; lia. }
  split.
  - split; [|done]. pose proof (le_dec_bound (slice m 4 2)) as B1.
    pose proof (le_dec_bound (slice m 6 2)) as B2. rewrite !zlen_slice in B1, B2 by lia.
    split_and!; cbn [format_version header_bytes file_type generation payload_bytes payload_crc32c];
      auto using le_dec_u32, le_dec_u64 with lia; (apply B1 || apply B2 || apply le_dec_u32 || apply le_dec_u64);
      auto with bytes; lia.
  - unfold header_image. cbn [format_version header_bytes file_type generation payload_bytes payload_crc32c].
    rewrite !put_u16_le_enc, !put_u32_le_enc, !put_u64_le_enc.
    assert (forall p n k, n = Z.to_nat k -> 0 <= p -> 0 <= k -> p + k <= zlen m ->
      le_enc n (le_dec (slice m p k)) = slice m p k) as HE.
    { intros p n k -> ???. destruct (HS p k) as [? L]; try lia. rewrite <- L. by apply le_enc_dec. }
    rewrite !HE by (done || lia). rewrite <- HM.
    change (take 32 m) with (slice m 0 (4 + (2 + (2 + (4 + (8 + (8 + 4))))))).
    by rewrite !slice_split by lia.
Qed.

(** ** Main theorem *)

(** The 32-byte file header is a bijection between valid headers and accepted blocks:
    encoding a valid header changes only the first 32 bytes of the output and decoding them
    gives the header back; decoding any 32 bytes stays in bounds and succeeds only on the
    encoding of a valid header. *)
Theorem file_header_bijection (h h' : YAP_V2_FILE_HEADER) (junk rest m : bytes) :
  header_valid h -> zlen junk = 32 -> bytes_ok rest -> bytes_ok m -> 32 <= zlen m ->
  YAP_V2_file_header_encode (Some h) (Some (junk ++ rest)) = Ok (header_image h ++ rest) /\
  YAP_V2_file_header_decode (Some (header_image h ++ rest)) = Ok h /\
  YAP_V2_file_header_decode (Some m) <> Fault /\
  (YAP_V2_file_header_decode (Some m) = Ok h' -> header_valid h' /\ take 32 m = header_image h').
Proof.
  intros Hv Hj Hr Hm Hl. split_and!.
  - apply file_header_encode_image; [apply Hv|done].
  - by apply file_header_decode_image.
  - by apply file_header_decode_safe.
  - by apply file_header_decode_inv.
Qed.

Definition demo_header : YAP_V2_FILE_HEADER :=
  FileHeader YAP_V2_FORMAT_VERSION YAP_V2_FILE_HEADER_BYTES YAP_V2_FILE_MANIFEST 7 100 305419896.

Lemma file_header_bijection_witness :
  YAP_V2_file_header_encode (Some demo_header) (Some (replicate 32 9 ++ [1])) = Ok (header_image demo_header ++ [1]) /\
  YAP_V2_file_header_decode (Some (header_image demo_header ++ [1])) = Ok demo_header.
Proof.
  assert (header_valid demo_header) as Hv.
  { split; [|reflexivity]. split_and!; split; vm_compute; congruence. }
  assert (bytes_ok [1]) as Hb by (repeat constructor; unfold byte_ok; lia).
  destruct (file_header_bijection demo_header demo_header (replicate 32 9) [1] (header_image demo_header)
    Hv eq_refl Hb (header_image_ok _) ltac:(vm_compute; discriminate)) as (H1&H2&_).
  split; [exact H1|exact H2].
Defined.
