(* ===== verification/SlotTable.v ===== *)
(** The open-addressing table of segment identifiers.

    The manifest and its auxiliary maps index segments by identifier with a
    power-of-two array of slots, FNV-1a hashing and linear probing; slot value 0
    means empty and [i + 1] refers to segment [i]
    (src/src/storage/yappo_storage_v2.c, manifest_slots_rebuild,
    manifest_segment_find, YAP_V2_manifest_validate;
    src/src/storage/yappo_manifest_v2.c, YAP_V2_manifest_segment_map_build and
    YAP_V2_manifest_segment_map_find).  The abstract content of a table is the
    list of identifiers; [table_inv] is the probe-sequence invariant under which
    look-up is membership. *)
From S2P Require Import Prelude Words Types.

Definition FNV_OFFSET : Z := 1469598103934665603.
Definition FNV_PRIME : Z := 1099511628211.

(** FNV-1a over the bytes of a C string. *)
Definition manifest_segment_hash (value : bytes) : Z :=
  foldl (fun hash c => u64 (Z.lxor hash c * FNV_PRIME)) FNV_OFFSET value.

(** [l[i]] of an array of structures. *)
Definition elem_at {E A} (l : list A) (i : Z) : outcome E A :=
  if 0 <=? i then match l !! Z.to_nat i with Some x => Ok x | None => Fault end else Fault.

(** The doubling loop that sizes a table; the guarded variant refuses to overflow. *)
Fixpoint grow_capacity (fuel : nat) (guarded : bool) (capacity need : Z) : result Z :=
  if capacity <? need then
    match fuel with
    | O => Fault
    | S fuel =>
        if guarded && (SIZE_MAX / 2 <? capacity) then Err YAP_V2_OUT_OF_RANGE
        else grow_capacity fuel guarded (u64 (capacity * 2)) need
    end
  else Ok capacity.

Section table.
Variable ids : list bytes.

(** The slot a new identifier goes to, or [None] when it is already present. *)
Fixpoint probe_insert (fuel : nat) (slots : list Z) (capacity : Z) (id : bytes) (slot : Z)
  : result (option Z) :=
  match fuel with
  | O => Fault
  | S fuel =>
  encoded ← load slots slot;
  if encoded =? 0 then Ok (Some slot)
  else
    existing ← elem_at ids (encoded - 1);
    if bool_decide (existing = id) then Ok None
    else probe_insert fuel slots capacity id (Z.land (slot + 1) (capacity - 1))
  end.

(** The first empty slot of a probe sequence. *)
Fixpoint probe_free (fuel : nat) (slots : list Z) (capacity slot : Z) : result Z :=
  match fuel with
  | O => Fault
  | S fuel =>
  encoded ← load slots slot;
  if encoded =? 0 then Ok slot
  else probe_free fuel slots capacity (Z.land (slot + 1) (capacity - 1))
  end.

(** Look-up: at most [capacity] probes, stopping at an empty slot. *)
Fixpoint probe_find (probes : nat) (slots : list Z) (capacity : Z) (id : bytes) (slot : Z)
  : result (option Z) :=
  match probes with
  | O => Ok None
  | S probes =>
  encoded ← load slots slot;
  if encoded =? 0 then Ok None
  else
    existing ← elem_at ids (encoded - 1);
    if bool_decide (existing = id) then Ok (Some (encoded - 1))
    else probe_find probes slots capacity id (Z.land (slot + 1) (capacity - 1))
  end.
End table.

(** Enter the identifiers [todo], the first of which is segment [i]; [None] on a duplicate. *)
Fixpoint table_fill (ids : list bytes) (slots : list Z) (capacity i : Z) (todo : list bytes)
  : result (option (list Z)) :=
  match todo with
  | [] => Ok (Some slots)
  | id :: todo =>
      found ← probe_insert ids (Z.to_nat capacity) slots capacity id
                (Z.land (manifest_segment_hash id) (capacity - 1));
      match found with
      | None => Ok None
      | Some slot =>
          slots ← store_bytes slots slot [i + 1];
          table_fill ids slots capacity (i + 1) todo
      end
  end.

Definition table_find (ids : list bytes) (slots : list Z) (capacity : Z) (id : bytes)
  : result (option Z) :=
  probe_find ids (Z.to_nat capacity) slots capacity id
    (Z.land (manifest_segment_hash id) (capacity - 1)).

(** ** The probe-sequence invariant *)

(** The [d]-th slot probed from [slot]. *)
Definition nth_probe (cap slot : Z) (d : nat) : nat := Z.to_nat ((slot + Z.of_nat d) mod cap).

Definition home (cap : Z) (id : bytes) : Z := Z.land (manifest_segment_hash id) (cap - 1).

Definition occupied (slots : list Z) : nat := length (filter (fun e => e <> 0) slots).

(** Identifier number [i] sits [d] probes from its home, behind occupied slots only. *)
Definition placed (cap : Z) (slots : list Z) (i : nat) (id : bytes) : Prop :=
  exists d : nat, Z.of_nat d < cap /\
    slots !! nth_probe cap (home cap id) d = Some (Z.of_nat i + 1) /\
    forall d', (d' < d)%nat -> slots !! nth_probe cap (home cap id) d' <> Some 0.

Record table_inv (cap : Z) (slots : list Z) (ids : list bytes) : Prop := {
  inv_cap : exists k, 0 <= k /\ cap = 2 ^ k;
  inv_len : zlen slots = cap;
  inv_entries : forall j e, slots !! j = Some e -> e <> 0 -> 1 <= e <= zlen ids;
  inv_placed : forall i id, ids !! i = Some id -> placed cap slots i id;
  inv_occupied : occupied slots = length ids;
  inv_nodup : NoDup ids }.

(** ** Lemmas on the probe sequence *)
Lemma least_nat (P : nat -> Prop) `{forall n, Decision (P n)} n :
  P n -> exists m, (m <= n)%nat /\ P m /\ forall k, (k < m)%nat -> ~ P k.
Proof.
  intros HP.
  assert (forall m, (exists j, (j < m)%nat /\ P j /\ forall k, (k < j)%nat -> ~ P k) \/
                    (forall k, (k < m)%nat -> ~ P k)) as A.
  { induction m as [|m [(j&?&?)|N]]; [right; lia|left; exists j; split; [lia|done]|].
    destruct (decide (P m)) as [Pm|NPm]; [left; exists m; split; [lia|done]|right].
    intros k Hk. destruct (decide (k = m)) as [->|]; [done|]. apply N; lia. }
  destruct (A (S n)) as [(j&?&?)|N]; [exists j; split; [lia|done]|].
  exfalso. by apply (N n); [lia|].
Qed.

Lemma land_pred_mod k x : 0 <= k -> Z.land x (2 ^ k - 1) = x mod 2 ^ k.
Proof. intros. rewrite Z.sub_1_r, <- Z.ones_equiv. by apply Z.land_ones. Qed.

Section probe.
Context (cap : Z) (k : Z) (Hk : 0 <= k) (Hcap : cap = 2 ^ k).

Lemma cap_pos : 0 < cap.
Proof using Hk Hcap. subst. by apply Z.pow_pos_nonneg. Qed.

Lemma land_cap x : Z.land x (cap - 1) = x mod cap.
Proof using Hk Hcap. subst. by apply land_pred_mod. Qed.

Lemma home_range id : 0 <= home cap id < cap.
Proof using Hk Hcap. unfold home. rewrite land_cap. apply Z.mod_pos_bound, cap_pos. Qed.

Lemma nth_probe_lt slot d : (nth_probe cap slot d < Z.to_nat cap)%nat.
Proof using Hk Hcap.
  pose proof cap_pos. unfold nth_probe.
  pose proof (Z.mod_pos_bound (slot + Z.of_nat d) cap). lia.
Qed.

Lemma nth_probe_next slot d :
  nth_probe cap (Z.land (slot + 1) (cap - 1)) d = nth_probe cap slot (S d).
Proof using Hk Hcap.
  unfold nth_probe. rewrite land_cap, Zplus_mod_idemp_l. do 2 f_equal. lia.
Qed.

Lemma nth_probe_0 slot : 0 <= slot < cap -> nth_probe cap slot 0 = Z.to_nat slot.
Proof using Hk Hcap. intros. unfold nth_probe. rewrite Z.add_0_r, Z.mod_small; done. Qed.

Lemma land_next_range slot : 0 <= Z.land (slot + 1) (cap - 1) < cap.
Proof using Hk Hcap. rewrite land_cap. apply Z.mod_pos_bound, cap_pos. Qed.

(** Every slot is met within [cap] probes. *)
Lemma nth_probe_surj slot j :
  0 <= slot < cap -> (j < Z.to_nat cap)%nat ->
  exists d, Z.of_nat d < cap /\ nth_probe cap slot d = j.
Proof using Hk Hcap.
  intros Hs Hj. pose proof cap_pos.
  exists (Z.to_nat ((Z.of_nat j - slot) mod cap)).
  pose proof (Z.mod_pos_bound (Z.of_nat j - slot) cap). unfold nth_probe.
  rewrite Z2Nat.id by lia. split; [lia|].
  rewrite Zplus_mod_idemp_r, Z.add_sub_assoc, Z.add_simpl_l, Z.mod_small; lia.
Qed.
End probe.

Lemma load_lookup {E} (l : list Z) (i : Z) x :
  0 <= i -> l !! Z.to_nat i = Some x -> load (E := E) l i = Ok x.
Proof.
  intros Hi Hl. pose proof (lookup_lt_Some _ _ _ Hl). unfold load.
  rewrite (proj2 (in_range_true _ _ _)) by (unfold zlen; lia).
  by rewrite list_lookup_total_alt, Hl.
Qed.

Lemma elem_at_lookup {E A} (l : list A) (i : nat) x :
  l !! i = Some x -> elem_at (E := E) l (Z.of_nat i) = Ok x.
Proof. intros H. unfold elem_at. rewrite (proj2 (Z.leb_le _ _)), Nat2Z.id, H by lia. done. Qed.

Lemma free_slot_exists slots :
  (occupied slots < length slots)%nat -> exists j, slots !! j = Some 0.
Proof.
  unfold occupied. induction slots as [|e s IH]; intros H; [cbn in H; lia|].
  rewrite filter_cons in H. case_decide as Hd; cbn in H.
  - destruct IH as [j Hj]; [lia|]. by exists (S j).
  - exists 0%nat. cbn. f_equal. destruct (decide (e = 0)); [done|tauto].
Qed.

Lemma occupied_insert slots j e :
  slots !! j = Some 0 -> e <> 0 -> occupied (<[j := e]> slots) = S (occupied slots).
Proof.
  unfold occupied. revert j; induction slots as [|a s IH]; intros j Hj He; [done|].
  destruct j as [|j]; cbn in Hj.
  - injection Hj as ->. change (<[0%nat := e]> (0 :: s)) with (e :: s). rewrite !filter_cons.
    rewrite decide_True by done. rewrite decide_False by tauto. done.
  - change (<[S j := e]> (a :: s)) with (a :: <[j := e]> s). rewrite !filter_cons. destruct (decide (a <> 0)); cbn; rewrite IH by done; done.
Qed.

Section probing.
Context (cap : Z) (k : Z) (Hk : 0 <= k) (Hcap : cap = 2 ^ k).
Context (slots : list Z) (ids : list bytes) (Hlen : zlen slots = cap).
Hypothesis Hentries : forall j e, slots !! j = Some e -> e <> 0 -> 1 <= e <= zlen ids.

Lemma slot_at slot d : exists e, slots !! nth_probe cap slot d = Some e.
Proof using Hk Hcap Hlen.
  apply lookup_lt_is_Some. pose proof (nth_probe_lt cap k Hk Hcap slot d). unfold zlen in Hlen. lia.
Qed.

Lemma load_probe0 slot e : 0 <= slot < cap -> slots !! nth_probe cap slot 0 = Some e ->
  load (E := YAP_V2_STATUS) slots slot = Ok e.
Proof using Hk Hcap Hlen. intros ? H. rewrite (nth_probe_0 cap k) in H by done. apply load_lookup; [lia|done]. Qed.

Lemma entry_id j e : slots !! j = Some e -> e <> 0 ->
  exists id, ids !! Z.to_nat (e - 1) = Some id /\ elem_at (E := YAP_V2_STATUS) ids (e - 1) = Ok id.
Proof using Hk Hcap Hlen Hentries.
  intros Hj He. pose proof (Hentries _ _ Hj He).
  destruct (lookup_lt_is_Some_2 ids (Z.to_nat (e - 1))) as [id Hid]; [unfold zlen in *; lia|].
  exists id. split; [done|]. rewrite <- (Z2Nat.id (e - 1)) by lia. by apply elem_at_lookup.
Qed.

(** A free slot [d] probes away, behind occupied slots. *)
Definition first_free (slot : Z) (d : nat) : Prop :=
  slots !! nth_probe cap slot d = Some 0 /\
  forall d', (d' < d)%nat -> slots !! nth_probe cap slot d' <> Some 0.

Lemma first_free_next slot d : first_free slot (S d) ->
  first_free (Z.land (slot + 1) (cap - 1)) d.
Proof using Hk Hcap.
  intros [H1 H2]. split; [by rewrite (nth_probe_next cap k)|].
  intros d' Hd. rewrite (nth_probe_next cap k) by done. apply H2. lia.
Qed.

Lemma first_free_exists slot : 0 <= slot < cap -> (occupied slots < length slots)%nat ->
  exists d, Z.of_nat d < cap /\ first_free slot d.
Proof using Hk Hcap Hlen.
  intros Hs Ho. destruct (free_slot_exists slots Ho) as [j Hj].
  pose proof (lookup_lt_Some _ _ _ Hj). unfold zlen in Hlen.
  destruct (nth_probe_surj cap k Hk Hcap slot j Hs) as (d&Hd&Hp); [lia|].
  destruct (least_nat (fun d => slots !! nth_probe cap slot d = Some 0) d) as (m&?&?&?);
  [by rewrite Hp|].
  exists m. split; [lia|done].
Qed.

Lemma probe_free_spec fuel slot d : 0 <= slot < cap -> (d < fuel)%nat -> first_free slot d ->
  probe_free fuel slots cap slot = Ok (Z.of_nat (nth_probe cap slot d)).
Proof using Hk Hcap Hlen.
  revert fuel slot; induction d as [|d IH]; intros [|fuel] slot Hs Hf HF; try lia; cbn [probe_free].
  - destruct HF as [H0 _]. rewrite (load_probe0 slot 0), outcome_bind_ok by done. cbn.
  rewrite (nth_probe_0 cap k) by done. f_equal. lia.
  - destruct (slot_at slot 0) as [e He].
  rewrite (load_probe0 slot e), outcome_bind_ok by done.
  destruct (Z.eqb_spec e 0) as [->|]; [by destruct (proj2 HF 0%nat ltac:(lia))|].
  rewrite IH; [by rewrite (nth_probe_next cap k)|by apply (land_next_range cap k)|lia|].
  by apply first_free_next.
Qed.

(** Some slot before the free one refers to [id]. *)
Definition met (slot : Z) (d : nat) (id : bytes) : Prop :=
  exists d' e, (d' < d)%nat /\ slots !! nth_probe cap slot d' = Some e /\
  ids !! Z.to_nat (e - 1) = Some id.

Lemma probe_insert_spec fuel slot d id : 0 <= slot < cap -> (d < fuel)%nat -> first_free slot d ->
  (probe_insert ids fuel slots cap id slot = Ok None /\ met slot d id) \/
  (probe_insert ids fuel slots cap id slot = Ok (Some (Z.of_nat (nth_probe cap slot d))) /\
 ~ met slot d id).
Proof using Hk Hcap Hlen Hentries.
  revert fuel slot; induction d as [|d IH]; intros [|fuel] slot Hs Hf HF; try lia; cbn [probe_insert].
  - destruct HF as [H0 _]. rewrite (load_probe0 slot 0), outcome_bind_ok by done. cbn. right.
  rewrite (nth_probe_0 cap k) by done. split; [do 2 f_equal; lia|]. intros (?&?&?&_); lia.
  - destruct (slot_at slot 0) as [e He].
  rewrite (load_probe0 slot e), outcome_bind_ok by done.
  destruct (Z.eqb_spec e 0) as [->|Ne]; [by destruct (proj2 HF 0%nat ltac:(lia))|].
  destruct (entry_id _ _ He Ne) as (id'&Hid&->). rewrite outcome_bind_ok.
  case_bool_decide as Heq.
  + left. split; [done|]. subst. exists 0%nat, e. split; [lia|done].
  + destruct (IH fuel (Z.land (slot + 1) (cap - 1))) as [[-> (d'&e'&?&H1&H2)]|[-> N]];
    [by apply (land_next_range cap k)|lia|by apply first_free_next| |].
  * left. split; [done|]. exists (S d'), e'.
    rewrite (nth_probe_next cap k) in H1 by done. split; [lia|done].
  * right. rewrite (nth_probe_next cap k) by done. split; [done|].
    intros ([|d']&e'&?&H1&H2); [by simplify_eq|].
    apply N. exists d', e'. rewrite (nth_probe_next cap k) by done. split; [lia|done].
Qed.

Lemma probe_find_miss fuel slot id : 0 <= slot < cap -> id ∉ ids ->
  probe_find ids fuel slots cap id slot = Ok None.
Proof using Hk Hcap Hlen Hentries.
  intros Hs Hn; revert slot Hs; induction fuel as [|fuel IH]; intros slot Hs; [done|].
  cbn [probe_find]. destruct (slot_at slot 0) as [e He].
  rewrite (load_probe0 slot e), outcome_bind_ok by done.
  destruct (Z.eqb_spec e 0); [done|].
  destruct (entry_id _ _ He) as (id'&Hid&->); [done|]. rewrite outcome_bind_ok.
  rewrite bool_decide_false by (intros ->; apply Hn; by eapply list_elem_of_lookup_2).
  apply IH. by apply (land_next_range cap k).
Qed.

Lemma probe_find_hit fuel slot d i id : 0 <= slot < cap -> (d < fuel)%nat -> NoDup ids ->
  ids !! i = Some id -> slots !! nth_probe cap slot d = Some (Z.of_nat i + 1) ->
  (forall d', (d' < d)%nat -> slots !! nth_probe cap slot d' <> Some 0) ->
  probe_find ids fuel slots cap id slot = Ok (Some (Z.of_nat i)).
Proof using Hk Hcap Hlen Hentries.
  intros Hs Hf HN Hi; revert fuel slot Hs Hf; induction d as [|d IH]; intros [|fuel] slot Hs Hf Hd Hb;
  try lia; cbn [probe_find].
  - rewrite (load_probe0 slot (Z.of_nat i + 1)), outcome_bind_ok by done.
  destruct (Z.eqb_spec (Z.of_nat i + 1) 0); [lia|].
  rewrite Z.add_simpl_r, (elem_at_lookup ids i id), outcome_bind_ok by done.
  by rewrite bool_decide_true.
  - destruct (slot_at slot 0) as [e He].
  rewrite (load_probe0 slot e), outcome_bind_ok by done.
  destruct (Z.eqb_spec e 0) as [->|Ne]; [by destruct (Hb 0%nat ltac:(lia))|].
  pose proof (Hentries _ _ He Ne).
  destruct (entry_id _ _ He Ne) as (id'&Hid&->). rewrite outcome_bind_ok.
  case_bool_decide as Heq.
  + subst. rewrite <- (NoDup_lookup _ _ _ _ HN Hid Hi). do 2 f_equal. lia.
  + apply IH; [by apply (land_next_range cap k)|lia|by rewrite (nth_probe_next cap k)|].
  intros d' Hd'. rewrite (nth_probe_next cap k) by done. apply Hb. lia.
Qed.
End probing.

(** ** Tables *)
Lemma table_inv_empty k : 0 <= k -> table_inv (2 ^ k) (replicate (Z.to_nat (2 ^ k)) 0) [].
Proof.
  intros Hk. pose proof (Z.pow_pos_nonneg 2 k). split.
  - by exists k.
  - rewrite zlen_replicate. lia.
  - intros j e [-> _]%lookup_replicate. done.
  - done.
  - unfold occupied. induction (Z.to_nat (2 ^ k)); [done|]. cbn [replicate].
    rewrite filter_cons, decide_False by tauto. done.
  - constructor.
Qed.

Lemma table_inv_room cap slots ids :
  table_inv cap slots ids -> zlen ids < cap -> (occupied slots < length slots)%nat.
Proof. intros [? Hl _ _ -> _] ?. unfold zlen in *. lia. Qed.

Lemma home_free cap slots ids id : table_inv cap slots ids -> zlen ids < cap ->
  exists d, Z.of_nat d < cap /\ first_free cap slots (home cap id) d.
Proof.
  intros HI Hr. pose proof (table_inv_room _ _ _ HI Hr). destruct HI as [(k&Hk&Hc) Hl _ _ _ _].
  apply (first_free_exists cap k); auto. by apply (home_range cap k).
Qed.

Lemma table_inv_insert cap slots ids id d :
  table_inv cap slots ids -> id ∉ ids -> Z.of_nat d < cap -> first_free cap slots (home cap id) d ->
  table_inv cap (<[nth_probe cap (home cap id) d := zlen ids + 1]> slots) (ids ++ [id]).
Proof.
  intros [(k&Hk&Hc) Hl He Hp Ho HN] Hid Hd [Hz Hb].
  set (j := nth_probe cap (home cap id) d) in *.
  assert ((j < length slots)%nat) as Hj by (by eapply lookup_lt_Some).
  pose proof (zlen_nonneg ids) as Hnn. split.
  - by exists k.
  - unfold zlen in *. by rewrite length_insert.
  - intros j' e Hj' Hne. rewrite zlen_app. change (zlen [id]) with 1.
    destruct (decide (j = j')) as [<-|Nj].
    + rewrite list_lookup_insert_eq in Hj' by done. simplify_eq. lia.
    + rewrite list_lookup_insert_ne in Hj' by done. specialize (He _ _ Hj' Hne). lia.
  - intros i id' Hi. apply lookup_app_Some in Hi as [Hi|[Hge Hi]].
    + destruct (Hp _ _ Hi) as (d'&?&Hs&Hbef). exists d'. split_and!; [done| |].
      * rewrite list_lookup_insert_ne; [done|]. intros E. rewrite <- E, Hz in Hs. simplify_eq. lia.
      * intros d'' Hd'' HH. apply (Hbef d'' Hd'').
        destruct (decide (j = nth_probe cap (home cap id') d'')) as [E|NE].
        -- by rewrite <- E, Hz.
        -- by rewrite list_lookup_insert_ne in HH.
    + destruct (i - length ids)%nat eqn:Ei; [|done]. cbn in Hi. injection Hi as <-.
      exists d. split_and!; [done| |].
      * rewrite list_lookup_insert_eq by done. unfold zlen. do 2 f_equal. lia.
      * intros d' Hd' HH. apply (Hb d' Hd').
        destruct (decide (j = nth_probe cap (home cap id) d')) as [E|NE]; [by rewrite <- E|].
        by rewrite list_lookup_insert_ne in HH.
  - rewrite occupied_insert, Ho, length_app by (done || lia). cbn. lia.
  - apply NoDup_app. split_and!; [done| |apply NoDup_singleton].
    intros x Hx ->%list_elem_of_singleton. done.
Qed.

Lemma store_slot {E} (slots : list Z) (j : nat) v :
  (j < length slots)%nat -> store_bytes (E := E) slots (Z.of_nat j) [v] = Ok (<[j := v]> slots).
Proof.
  intros Hj. unfold store_bytes. rewrite (proj2 (in_range_true _ _ _)) by (unfold zlen; cbn; lia).
  rewrite Nat2Z.id. f_equal. rewrite insert_take_drop by done. cbn. by rewrite Nat.add_1_r.
Qed.

Lemma met_in_prefix cap slots done todo slot d id :
  (forall j e, slots !! j = Some e -> e <> 0 -> 1 <= e <= zlen done) ->
  first_free cap slots slot d -> met cap slots (done ++ todo) slot d id -> id ∈ done.
Proof.
  intros He HF (d'&e&Hd'&Hs&Hid).
  assert (e <> 0) as Ne by (intros ->; by apply (proj2 HF d')).
  specialize (He _ _ Hs Ne). rewrite lookup_app_l in Hid by (unfold zlen in He; lia).
  by eapply list_elem_of_lookup_2.
Qed.

(** One turn of a filling loop: a duplicate is reported, anything else is entered. *)
Lemma table_step cap slots done id todo :
  table_inv cap slots done -> 2 * zlen (done ++ id :: todo) <= cap ->
  let probe := probe_insert (done ++ id :: todo) (Z.to_nat cap) slots cap id
                 (Z.land (manifest_segment_hash id) (cap - 1)) in
  if decide (id ∈ done) then probe = Ok None
  else exists slot slots', probe = Ok (Some slot) /\
         store_bytes (E := YAP_V2_STATUS) slots slot [zlen done + 1] = Ok slots' /\
         table_inv cap slots' (done ++ [id]).
Proof.
  intros HI Hcap probe. pose proof HI as [(k&Hk&Hc) Hl He Hp Ho HN].
  rewrite zlen_app, zlen_cons in Hcap. pose proof (zlen_nonneg done); pose proof (zlen_nonneg todo).
  destruct (home_free cap slots done id HI) as (d&Hd&HF); [lia|].
  destruct (probe_insert_spec cap k Hk Hc slots (done ++ id :: todo) Hl) with
    (fuel := Z.to_nat cap) (slot := home cap id) (d := d) (id := id)
    as [[Hpi Hmet]|[Hpi Hnm]];
    [ intros j e H1 H2; specialize (He _ _ H1 H2); rewrite zlen_app; pose proof (zlen_nonneg (id :: todo)); lia
    | by apply (home_range cap k) | lia | done | | ]; subst probe; fold (home cap id).
  - apply met_in_prefix in Hmet; [|done|done]. by rewrite decide_True.
  - destruct (decide (id ∈ done)) as [Hin|Hnin].
    { exfalso. apply Hnm. apply list_elem_of_lookup in Hin as [i Hi].
      destruct (Hp _ _ Hi) as (d'&Hd'&Hs&Hb). exists d', (Z.of_nat i + 1). split_and!.
      - destruct (Nat.lt_trichotomy d' d) as [?|[->|Hgt]]; [done| |].
        + rewrite (proj1 HF) in Hs. simplify_eq. lia.
        + by destruct (Hb _ Hgt (proj1 HF)).
      - done.
      - rewrite Z.add_simpl_r, Nat2Z.id. by apply lookup_app_l_Some. }
    eexists _, _. split_and!; [done|by apply store_slot; eapply lookup_lt_Some, HF|].
    by apply table_inv_insert.
Qed.

(** Entering all identifiers succeeds exactly when they are pairwise distinct. *)
Lemma table_fill_spec cap slots done todo :
  table_inv cap slots done -> 2 * zlen (done ++ todo) <= cap ->
  if decide (NoDup (done ++ todo))
  then exists slots', table_fill (done ++ todo) slots cap (zlen done) todo = Ok (Some slots') /\
                      table_inv cap slots' (done ++ todo)
  else table_fill (done ++ todo) slots cap (zlen done) todo = Ok None.
Proof.
  revert done slots; induction todo as [|id todo IH]; intros done slots HI Hcap.
  - rewrite app_nil_r in *. rewrite decide_True by apply HI. by exists slots.
  - cbn [table_fill]. pose proof (table_step cap slots done id todo HI Hcap) as HS. cbn zeta in HS.
    destruct (decide (id ∈ done)) as [Hin|Hnin].
    + rewrite HS, outcome_bind_ok. rewrite decide_False; [done|].
      intros (_&Hx&_)%NoDup_app. by apply (Hx _ Hin), list_elem_of_here.
    + destruct HS as (slot&slots'&->&Hst&HI'). rewrite outcome_bind_ok, Hst, outcome_bind_ok.
      specialize (IH (done ++ [id]) _ HI'). rewrite <- (assoc_L (++)) in IH. cbn [app] in IH.
      assert (zlen (done ++ [id]) = zlen done + 1) as Hz by zl. rewrite Hz in IH. by apply IH.
Qed.

Lemma table_build_spec k ids :
  0 <= k -> 2 * zlen ids <= 2 ^ k ->
  if decide (NoDup ids)
  then exists slots, table_fill ids (replicate (Z.to_nat (2 ^ k)) 0) (2 ^ k) 0 ids = Ok (Some slots) /\
                     table_inv (2 ^ k) slots ids
  else table_fill ids (replicate (Z.to_nat (2 ^ k)) 0) (2 ^ k) 0 ids = Ok None.
Proof. intros Hk Hn. by apply (table_fill_spec (2 ^ k) _ [] ids); [apply table_inv_empty|]. Qed.

(** Look-up returns the index of the identifier, and [None] when there is none. *)
Lemma table_find_hit cap slots ids i id :
  table_inv cap slots ids -> ids !! i = Some id -> table_find ids slots cap id = Ok (Some (Z.of_nat i)).
Proof.
  intros [(k&Hk&Hc) Hl He Hp Ho HN] Hi. destruct (Hp _ _ Hi) as (d&Hd&Hs&Hb).
  unfold table_find. fold (home cap id).
  eapply (probe_find_hit cap k); eauto; [by apply (home_range cap k)|lia].
Qed.

Lemma table_find_miss cap slots ids id :
  table_inv cap slots ids -> id ∉ ids -> table_find ids slots cap id = Ok None.
Proof.
  intros [(k&Hk&Hc) Hl He Hp Ho HN] Hi. unfold table_find. fold (home cap id).
  eapply (probe_find_miss cap k); eauto. by apply (home_range cap k).
Qed.

(** ** Sizing *)
Lemma grow_capacity_spec fuel guarded k need :
  0 <= k -> k + Z.of_nat fuel <= 62 -> need <= 2 ^ (k + Z.of_nat fuel) ->
  exists k', 0 <= k' /\ grow_capacity fuel guarded (2 ^ k) need = Ok (2 ^ k') /\ need <= 2 ^ k' /\
             (k' = k \/ 2 ^ k' < 2 * need).
Proof.
  revert k; induction fuel as [|fuel IH]; intros k Hk Hf Hn.
  - rewrite Z.add_0_r in Hn. exists k. cbn [grow_capacity].
    destruct (Z.ltb_spec (2 ^ k) need); [lia|]. auto.
  - cbn [grow_capacity]. destruct (Z.ltb_spec (2 ^ k) need) as [Hlt|]; [|exists k; auto].
    assert (2 ^ k <= 2 ^ 62) by (apply Z.pow_le_mono_r; lia).
    assert (2 ^ k * 2 = 2 ^ (k + 1)) as E by (rewrite Z.pow_add_r by lia; done).
    change (SIZE_MAX / 2) with (2 ^ 63 - 1).
    destruct (Z.ltb_spec (2 ^ 63 - 1) (2 ^ k)); [lia|]. rewrite andb_false_r.
    assert (u64 (2 ^ k * 2) = 2 ^ (k + 1)) as ->.
    { rewrite E. unfold u64. apply Z.mod_small. pose proof (Z.pow_nonneg 2 (k + 1)). lia. }
    destruct (IH (k + 1)) as (k'&?&->&?&[->|?]); [lia|lia| |exists (k + 1)|exists k'; auto].
    + replace (k + 1 + Z.of_nat fuel) with (k + Z.of_nat (S fuel)) by lia. done.
    + split_and!; try done. right. lia.
Qed.

Lemma grow_capacity_table guarded n :
  0 <= n <= 2 ^ 40 ->
  exists k, 0 <= k /\ grow_capacity 60 guarded 1 (n * 2) = Ok (2 ^ k) /\ n * 2 <= 2 ^ k /\
    2 ^ k <= Z.max 1 (4 * n).
Proof.
  intros Hn. destruct (grow_capacity_spec 60 guarded 0 (n * 2)) as (k&?&E&?&H); [lia|lia| |].
  { change (2 ^ (0 + Z.of_nat 60)) with (2 ^ 60). lia. }
  exists k. split_and!; try done. destruct H as [->|]; lia.
Qed.
