(* ===== verification/Manifest.v ===== *)
(** The manifest in memory: segment identifiers, component and segment
    descriptors, the segment list with its slot table, and validation
    (src/src/storage/yappo_storage_v2.c, lines 6-280).

    C strings are the bytes before their NUL.  The count fields of the C structs
    are the lengths of the lists.  A routine that updates a manifest in place
    returns the manifest it leaves behind together with its outcome, because a
    failing [YAP_V2_manifest_add_segment] may already have rebuilt the table. *)
From S2P Require Import Prelude Words Types Header SlotTable.

Definition YAP_V2_MAX_SEGMENTS : Z := 100000.
Definition YAP_V2_MAX_COMPONENTS : Z := 8.
Definition YAP_V2_MAX_COMPONENT_NAME_BYTES : Z := 63.

Record YAP_V2_COMPONENT_DESCRIPTOR := ComponentDescriptor {
  name : bytes;
  component_type : Z;
  record_count : Z;
  file_bytes : Z;
  checksum : bytes }.

Record YAP_V2_SEGMENT_DESCRIPTOR := SegmentDescriptor {
  id : bytes;
  document_count : Z;
  passage_count : Z;
  tombstone_count : Z;
  components : list YAP_V2_COMPONENT_DESCRIPTOR }.

Record YAP_V2_MANIFEST := Manifest {
  manifest_version : Z;
  manifest_generation : Z;
  config_fingerprint : bytes;
  segments : list YAP_V2_SEGMENT_DESCRIPTOR;
  segment_capacity : Z;
  segment_slots : option (list Z);
  segment_slot_capacity : Z }.

Record YAP_V2_SEGMENT_ID_LIST := SegmentIdList { items : list bytes; capacity : Z }.

(** [sizeof] of the structures whose arrays are reallocated. *)
Definition sizeof_segment_id : Z := 256.
Definition sizeof_segment_descriptor : Z := 1248.

Definition segment_count (m : YAP_V2_MANIFEST) : Z := zlen (segments m).
Definition segment_ids (m : YAP_V2_MANIFEST) : list bytes := id <$> segments m.

#[export] Instance component_eq_dec : EqDecision YAP_V2_COMPONENT_DESCRIPTOR.
Proof. solve_decision. Defined.
#[export] Instance segment_eq_dec : EqDecision YAP_V2_SEGMENT_DESCRIPTOR.
Proof. solve_decision. Defined.

(** ** Strings and identifiers *)

(** The length scan of [c_string_validate]: it stops at the NUL or behind [max_bytes]. *)
Fixpoint bounded_length (value : bytes) (len max_bytes : Z) : Z :=
  match value with
  | [] => len
  | c :: value =>
      if (len <=? max_bytes) && negb (c =? 0) then bounded_length value (len + 1) max_bytes else len
  end.

Definition c_string_validate (value : option bytes) (max_bytes : Z) (required : bool) : result unit :=
  match value with
  | None => if required then Err YAP_V2_INVALID_ARGUMENT else Ok tt
  | Some s =>
      let len := bounded_length s 0 max_bytes in
      if max_bytes <? len then Err YAP_V2_INVALID_FORMAT
      else if required && (len =? 0) then Err YAP_V2_INVALID_FORMAT else Ok tt
  end.

Definition id_char_ok (c : Z) : bool :=
  ((97 <=? c) && (c <=? 122)) || ((65 <=? c) && (c <=? 90)) || ((48 <=? c) && (c <=? 57)) ||
  (c =? 45) || (c =? 95) || (c =? 46).

Fixpoint id_chars_ok (value : bytes) : bool :=
  match value with
  | [] => true
  | c :: value => if c =? 0 then true else if id_char_ok c then id_chars_ok value else false
  end.

Definition YAP_V2_segment_id_validate (value : option bytes) : result unit :=
  _ ← c_string_validate value YAP_V2_MAX_IDENTIFIER_BYTES true;
  match value with
  | Some s => if id_chars_ok s then Ok tt else Err YAP_V2_INVALID_FORMAT
  | None => Fault
  end.

(** ** Growable arrays *)

(** The next capacity of an array of at most [YAP_V2_MAX_SEGMENTS] elements. *)
Definition next_capacity (cap : Z) : Z :=
  let c := if cap =? 0 then 4 else u64 (cap * 2) in
  if (c <? cap) || (YAP_V2_MAX_SEGMENTS <? c) then YAP_V2_MAX_SEGMENTS else c.

Section operations.
Context {A : Allocator}.

Definition YAP_V2_segment_id_list_init : YAP_V2_SEGMENT_ID_LIST := SegmentIdList [] 0.

Definition YAP_V2_segment_id_list_add (l : option YAP_V2_SEGMENT_ID_LIST) (segment_id : option bytes)
  : result YAP_V2_SEGMENT_ID_LIST :=
  match l, segment_id with
  | Some l, Some s =>
  _ ← YAP_V2_segment_id_validate (Some s);
  if YAP_V2_MAX_SEGMENTS <=? zlen (items l) then Err YAP_V2_OUT_OF_RANGE
  else
    cap ← (if zlen (items l) =? capacity l then
             let c := next_capacity (capacity l) in
             if SIZE_MAX / sizeof_segment_id <? c then Err YAP_V2_OUT_OF_RANGE
             else if alloc_ok (c * sizeof_segment_id) then Ok c
             else Err YAP_V2_ALLOCATION_FAILED
           else Ok (capacity l));
    if zlen (items l) <? cap then Ok (SegmentIdList (items l ++ [s]) cap) else Fault
  | _, _ => Err YAP_V2_INVALID_ARGUMENT
  end.

(** *** Manifests *)
Definition YAP_V2_manifest_init : YAP_V2_MANIFEST :=
  Manifest YAP_V2_FORMAT_VERSION 1 (replicate 32 0) [] 0 None 0.

(** [free] both arrays and start over. *)
Definition YAP_V2_manifest_free (m : YAP_V2_MANIFEST) : YAP_V2_MANIFEST := YAP_V2_manifest_init.

Definition set_slots (m : YAP_V2_MANIFEST) (slots : list Z) (cap : Z) : YAP_V2_MANIFEST :=
  Manifest (manifest_version m) (manifest_generation m) (config_fingerprint m) (segments m)
  (segment_capacity m) (Some slots) cap.

Definition set_segments (m : YAP_V2_MANIFEST) segs cap slots : YAP_V2_MANIFEST :=
  Manifest (manifest_version m) (manifest_generation m) (config_fingerprint m) segs
  cap (Some slots) (segment_slot_capacity m).

Definition set_generation (m : YAP_V2_MANIFEST) (g : Z) : YAP_V2_MANIFEST :=
  Manifest (manifest_version m) g (config_fingerprint m) (segments m)
  (segment_capacity m) (segment_slots m) (segment_slot_capacity m).

(** A fresh table over the current segments. *)
Definition build_slots (m : YAP_V2_MANIFEST) (required : Z) : result (list Z * Z) :=
  if (YAP_V2_MAX_SEGMENTS <? required) || (SIZE_MAX / 2 <? required) then Err YAP_V2_OUT_OF_RANGE
  else
  cap ← grow_capacity 60 true 1 (u64 (required * 2));
  if alloc_ok (cap * 8) then
  filled ← table_fill (segment_ids m) (replicate (Z.to_nat cap) 0) cap 0 (segment_ids m);
  match filled with
  | Some slots => Ok (slots, cap)
  | None => Err YAP_V2_DUPLICATE
  end
  else Err YAP_V2_ALLOCATION_FAILED.

Definition manifest_slots_rebuild (m : YAP_V2_MANIFEST) (required : Z)
  : YAP_V2_MANIFEST * result unit :=
  match build_slots m required with
  | Ok (slots, cap) => (set_slots m slots cap, Ok tt)
  | Err e => (m, Err e)
  | Fault => (m, Fault)
  end.

Definition manifest_segment_find (m : YAP_V2_MANIFEST) (s : bytes) : result bool :=
  match segment_slots m with
  | None => Ok false
  | Some slots =>
  if segment_slot_capacity m =? 0 then Ok false
  else
    found ← table_find (segment_ids m) slots (segment_slot_capacity m) s;
    Ok (bool_decide (is_Some found))
  end.

(** Append behind the last segment and enter it into the table. *)
Definition manifest_append (m : YAP_V2_MANIFEST) (segment : YAP_V2_SEGMENT_DESCRIPTOR)
  : result YAP_V2_MANIFEST :=
  cap ← (if segment_count m =? segment_capacity m then
       let c := next_capacity (segment_capacity m) in
       if SIZE_MAX / sizeof_segment_descriptor <? c then Err YAP_V2_OUT_OF_RANGE
       else if alloc_ok (sizeof_segment_descriptor * c) then Ok c
       else Err YAP_V2_ALLOCATION_FAILED
     else Ok (segment_capacity m));
  if segment_count m <? cap then
  match segment_slots m with
  | None => Fault
  | Some slots =>
    slot ← probe_free (Z.to_nat (segment_slot_capacity m)) slots (segment_slot_capacity m)
             (Z.land (manifest_segment_hash (id segment)) (segment_slot_capacity m - 1));
    slots ← store_bytes slots slot [segment_count m + 1];
    Ok (set_segments m (segments m ++ [segment]) cap slots)
  end
  else Fault.

Definition add_segment (m : YAP_V2_MANIFEST) (segment : YAP_V2_SEGMENT_DESCRIPTOR)
  : YAP_V2_MANIFEST * result unit :=
  match YAP_V2_segment_id_validate (Some (id segment)) with
  | Err e => (m, Err e)
  | Fault => (m, Fault)
  | Ok _ =>
  if YAP_V2_MAX_SEGMENTS <=? segment_count m then (m, Err YAP_V2_OUT_OF_RANGE)
  else
    match (if (segment_slot_capacity m =? 0) ||
              (segment_slot_capacity m / 2 <? segment_count m + 1)
           then manifest_slots_rebuild m (segment_count m + 1) else (m, Ok tt)) with
    | (m, Ok _) =>
        match manifest_segment_find m (id segment) with
        | Ok true => (m, Err YAP_V2_DUPLICATE)
        | Ok false =>
            match manifest_append m segment with
            | Ok m' => (m', Ok tt)
            | Err e => (m, Err e)
            | Fault => (m, Fault)
            end
        | Err e => (m, Err e)
        | Fault => (m, Fault)
        end
    | (m, r) => (m, r)
    end
  end.

Definition YAP_V2_manifest_add_segment (m : YAP_V2_MANIFEST)
  (segment : option YAP_V2_SEGMENT_DESCRIPTOR) : YAP_V2_MANIFEST * result unit :=
  match segment with
  | None => (m, Err YAP_V2_INVALID_ARGUMENT)
  | Some segment => add_segment m segment
  end.

(** *** Components *)
Definition component_refused (c : YAP_V2_COMPONENT_DESCRIPTOR) : bool :=
  let length := Z.min (zlen (name c)) (YAP_V2_MAX_COMPONENT_NAME_BYTES + 1) in
  (length =? 0) || (YAP_V2_MAX_COMPONENT_NAME_BYTES + 1 <=? length) ||
  (component_type c =? 0) || (YAP_V2_FILE_ANN <? component_type c) || (file_bytes c =? 0) ||
  (negb (component_type c =? YAP_V2_FILE_ANN) && (file_bytes c <? YAP_V2_FILE_HEADER_BYTES)) ||
  bool_decide (47 ∈ name c) || bool_decide (92 ∈ name c).

Definition component_clash (c d : YAP_V2_COMPONENT_DESCRIPTOR) : bool :=
  bool_decide (name d = name c) || (component_type d =? component_type c).

Definition YAP_V2_segment_descriptor_add_component (segment : option YAP_V2_SEGMENT_DESCRIPTOR)
  (component : option YAP_V2_COMPONENT_DESCRIPTOR) : result YAP_V2_SEGMENT_DESCRIPTOR :=
  match segment, component with
  | Some s, Some c =>
  if component_refused c then Err YAP_V2_INVALID_FORMAT
  else if YAP_V2_MAX_COMPONENTS <=? zlen (components s) then Err YAP_V2_OUT_OF_RANGE
  else if existsb (component_clash c) (components s) then Err YAP_V2_DUPLICATE
  else Ok (SegmentDescriptor (id s) (document_count s) (passage_count s) (tombstone_count s)
             (components s ++ [c]))
  | _, _ => Err YAP_V2_INVALID_ARGUMENT
  end.

(** *** Validation *)

(** Re-adding component [j] to a copy of the segment that holds the first [j]. *)
Fixpoint components_validate (s : YAP_V2_SEGMENT_DESCRIPTOR)
  (done todo : list YAP_V2_COMPONENT_DESCRIPTOR) : result unit :=
  match todo with
  | [] => Ok tt
  | c :: todo =>
  _ ← YAP_V2_segment_descriptor_add_component
        (Some (SegmentDescriptor (id s) (document_count s) (passage_count s)
                 (tombstone_count s) done)) (Some c);
  components_validate s (done ++ [c]) todo
  end.

Definition segment_validate (s : YAP_V2_SEGMENT_DESCRIPTOR) : result unit :=
  _ ← YAP_V2_segment_id_validate (Some (id s));
  if (zlen (components s) =? 0) || (YAP_V2_MAX_COMPONENTS <? zlen (components s))
  then Err YAP_V2_INVALID_FORMAT
  else components_validate s [] (components s).

Fixpoint segments_validate (ids : list bytes) (slots : list Z) (cap i : Z)
  (todo : list YAP_V2_SEGMENT_DESCRIPTOR) : result unit :=
  match todo with
  | [] => Ok tt
  | s :: todo =>
  _ ← segment_validate s;
  found ← probe_insert ids (Z.to_nat cap) slots cap (id s)
            (Z.land (manifest_segment_hash (id s)) (cap - 1));
  match found with
  | None => Err YAP_V2_DUPLICATE
  | Some slot =>
      slots ← store_bytes slots slot [i + 1];
      segments_validate ids slots cap (i + 1) todo
  end
  end.

Definition YAP_V2_manifest_validate (manifest : option YAP_V2_MANIFEST) : result unit :=
  match manifest with
  | None => Err YAP_V2_INVALID_ARGUMENT
  | Some m =>
  if negb (manifest_version m =? YAP_V2_FORMAT_VERSION) || (manifest_generation m =? 0) ||
     (YAP_V2_MAX_SEGMENTS <? segment_count m)
  then Err YAP_V2_INVALID_FORMAT
  else if forallb (fun b => b =? 0) (config_fingerprint m) then Err YAP_V2_INVALID_FORMAT
  else if 0 <? segment_count m then
    cap ← grow_capacity 60 false 1 (u64 (segment_count m * 2));
    if alloc_ok (cap * 8) then
      segments_validate (segment_ids m) (replicate (Z.to_nat cap) 0) cap 0 (segments m)
    else Err YAP_V2_ALLOCATION_FAILED
  else Ok tt
  end.
End operations.

(** ** Specification *)
Definition c_string (s : bytes) : Prop := 0 ∉ s.

Definition id_ok (s : bytes) : Prop :=
  1 <= zlen s <= YAP_V2_MAX_IDENTIFIER_BYTES /\ Forall (fun c => id_char_ok c = true) s.

#[export] Instance id_ok_dec s : Decision (id_ok s).
Proof. unfold id_ok. apply _. Defined.

(** What adding a segment means for the list of segments. *)
Definition abs_add (segs : list YAP_V2_SEGMENT_DESCRIPTOR) (s : YAP_V2_SEGMENT_DESCRIPTOR)
  : result (list YAP_V2_SEGMENT_DESCRIPTOR) :=
  if decide (id_ok (id s)) then
    if YAP_V2_MAX_SEGMENTS <=? zlen segs then Err YAP_V2_OUT_OF_RANGE
    else if decide (id s ∈ (id <$> segs)) then Err YAP_V2_DUPLICATE
    else Ok (segs ++ [s])
  else Err YAP_V2_INVALID_FORMAT.

Definition table_ok (m : YAP_V2_MANIFEST) (room : Z) : Prop :=
  exists slots, segment_slots m = Some slots /\
    table_inv (segment_slot_capacity m) slots (segment_ids m) /\
    2 * (segment_count m + room) <= segment_slot_capacity m.

Record manifest_inv (m : YAP_V2_MANIFEST) : Prop := {
  mi_cap : segment_count m <= segment_capacity m <= YAP_V2_MAX_SEGMENTS;
  mi_ids : Forall (fun s => id_ok (id s)) (segments m);
  mi_table : (segment_slots m = None /\ segment_slot_capacity m = 0 /\ segments m = []) \/
             table_ok m 0 }.

(** A component accepted on its own, and a list of components accepted together. *)
Definition component_ok (c : YAP_V2_COMPONENT_DESCRIPTOR) : Prop := component_refused c = false.

Definition components_ok (cs : list YAP_V2_COMPONENT_DESCRIPTOR) : Prop :=
  Forall component_ok cs /\ zlen cs <= YAP_V2_MAX_COMPONENTS /\
  NoDup (name <$> cs) /\ NoDup (component_type <$> cs).

Definition segment_ok (s : YAP_V2_SEGMENT_DESCRIPTOR) : Prop :=
  id_ok (id s) /\ components s <> [] /\ components_ok (components s).

Definition manifest_valid (m : YAP_V2_MANIFEST) : Prop :=
  manifest_version m = YAP_V2_FORMAT_VERSION /\ manifest_generation m <> 0 /\
  segment_count m <= YAP_V2_MAX_SEGMENTS /\ Exists (fun b => b <> 0) (config_fingerprint m) /\
  Forall segment_ok (segments m) /\ NoDup (segment_ids m).

(** ** Identifiers *)
Lemma bounded_length_spec s len max : c_string s -> len <= max + 1 ->
  bounded_length s len max = Z.min (len + zlen s) (max + 1).
Proof.
  revert len; induction s as [|c s IH]; intros len Hs Hl; [unfold zlen; cbn; lia|].
  apply not_elem_of_cons in Hs as [Hc Hs]. cbn [bounded_length]. rewrite zlen_cons.
  rewrite (proj2 (Z.eqb_neq c 0)) by congruence. cbn [negb]. rewrite andb_true_r.
  pose proof (zlen_nonneg s). destruct (Z.leb_spec len max); [rewrite IH by (done || lia)|]; lia.
Qed.

Lemma id_chars_ok_spec s : c_string s -> id_chars_ok s = true <-> Forall (fun c => id_char_ok c = true) s.
Proof.
  induction s as [|c s IH]; intros Hs; [by cbn|].
  apply not_elem_of_cons in Hs as [Hc Hs]. cbn [id_chars_ok].
  rewrite (proj2 (Z.eqb_neq c 0)) by congruence. rewrite Forall_cons, <- IH by done.
  destruct (id_char_ok c); intuition congruence.
Qed.

Lemma id_ok_c_string s : id_ok s -> c_string s.
Proof. intros [_ H] Hin. by apply (Forall_forall _ _) with (x := 0) in H. Qed.

Lemma segment_id_validate_spec s : c_string s ->
  YAP_V2_segment_id_validate (Some s) = if decide (id_ok s) then Ok tt else Err YAP_V2_INVALID_FORMAT.
Proof.
  intros Hs. unfold YAP_V2_segment_id_validate, c_string_validate.
  rewrite bounded_length_spec by (done || unfold YAP_V2_MAX_IDENTIFIER_BYTES; lia).
  pose proof (id_chars_ok_spec s Hs) as HC. unfold id_ok, YAP_V2_MAX_IDENTIFIER_BYTES in *.
  pose proof (zlen_nonneg s).
  destruct (Z.ltb_spec 255 (Z.min (0 + zlen s) (255 + 1))).
  { rewrite decide_False by lia. done. }
  destruct (Z.eqb_spec (Z.min (0 + zlen s) (255 + 1)) 0); cbn [andb].
  { rewrite decide_False by lia. done. }
  rewrite outcome_bind_ok. destruct (id_chars_ok s).
  - rewrite decide_True; [done|]. split; [lia|]. by apply HC.
  - rewrite decide_False; [done|]. intros [_ H2]. apply HC in H2. done.
Qed.

Lemma segment_id_validate_safe s : YAP_V2_segment_id_validate s <> Fault.
Proof.
  unfold YAP_V2_segment_id_validate, c_string_validate.
  destruct s; [|done]. repeat case_match; done.
Qed.

(** ** Adding a segment *)
Lemma next_capacity_grows cap : 0 <= cap < YAP_V2_MAX_SEGMENTS ->
  cap < next_capacity cap <= YAP_V2_MAX_SEGMENTS.
Proof.
  unfold next_capacity, YAP_V2_MAX_SEGMENTS, u64. intros Hc.
  destruct (Z.eqb_spec cap 0) as [->|]; [cbn; lia|].
  rewrite Z.mod_small by lia.
  destruct (Z.ltb_spec (cap * 2) cap), (Z.ltb_spec 100000 (cap * 2)); cbn; lia.
Qed.

Section add.
Context {A : Allocator}.

Definition same_content (m m' : YAP_V2_MANIFEST) : Prop :=
  manifest_version m' = manifest_version m /\ manifest_generation m' = manifest_generation m /\
  config_fingerprint m' = config_fingerprint m.

Lemma build_slots_spec m required :
  NoDup (segment_ids m) -> segment_count m <= required <= YAP_V2_MAX_SEGMENTS ->
  (build_slots m required = Err YAP_V2_ALLOCATION_FAILED /\ exists n, alloc_ok n = false) \/
  exists slots cap, build_slots m required = Ok (slots, cap) /\
  table_inv cap slots (segment_ids m) /\ 2 * required <= cap.
Proof.
  intros HN Hr. unfold build_slots. unfold segment_count, YAP_V2_MAX_SEGMENTS in *.
  pose proof (zlen_nonneg (segments m)).
  change (SIZE_MAX / 2) with (2 ^ 63 - 1).
  destruct (Z.ltb_spec 100000 required), (Z.ltb_spec (2 ^ 63 - 1) required); try lia.
  cbn [orb]. assert (u64 (required * 2) = required * 2) as ->
  by (unfold u64; apply Z.mod_small; lia).
  destruct (grow_capacity_table true required) as (k&Hk&->&Hn&_); [lia|].
  rewrite outcome_bind_ok. destruct (alloc_ok (2 ^ k * 8)) eqn:HA; [|left; eauto].
  right. pose proof (table_build_spec k (segment_ids m) Hk) as HB.
  rewrite decide_True in HB by done. unfold segment_ids in *. rewrite zlen_fmap in HB.
  destruct HB as (slots&->&HI); [lia|]. rewrite outcome_bind_ok.
  exists slots, (2 ^ k). split_and!; [done|done|lia].
Qed.

(** Before look-up the table has room for one more identifier, or there was no memory. *)
Lemma rebuild_ready m :
  manifest_inv m -> segment_count m < YAP_V2_MAX_SEGMENTS ->
  let '(m', r) := if (segment_slot_capacity m =? 0) ||
                 (segment_slot_capacity m / 2 <? segment_count m + 1)
              then manifest_slots_rebuild m (segment_count m + 1) else (m, Ok tt) in
  (r = Err YAP_V2_ALLOCATION_FAILED /\ m' = m /\ exists n, alloc_ok n = false) \/
  (r = Ok tt /\ table_ok m' 1 /\ segments m' = segments m /\
 segment_capacity m' = segment_capacity m /\ same_content m m').
Proof.
  intros [Hc Hi Ht] Hm.
  destruct (_ || _) eqn:B; [|right].
  - assert (NoDup (segment_ids m)) as HN.
  { destruct Ht as [(_&_&E)|(slots&_&HI&_)]; [|apply HI]. unfold segment_ids. rewrite E. constructor. }
  unfold manifest_slots_rebuild.
  destruct (build_slots_spec m (segment_count m + 1)) as [[-> HA]|(slots&cap&->&HI&Hr)];
  [done|lia|by left|right].
  split_and!; try done. exists slots. done.
  - split_and!; try done. apply orb_false_iff in B as [B1 B2].
  apply Z.eqb_neq in B1. apply Z.ltb_ge in B2.
  destruct Ht as [(_&E&_)|(slots&Hs&HI&Hr)]; [lia|]. exists slots. split_and!; [done..|].
  pose proof (Z.mul_div_le (segment_slot_capacity m) 2). lia.
Qed.

Lemma manifest_find_spec m s room : table_ok m room -> 0 <= room ->
  manifest_segment_find m s = Ok (bool_decide (s ∈ segment_ids m)).
Proof.
  intros (slots&Hs&HI&Hr) H0. unfold manifest_segment_find. rewrite Hs.
  destruct (Z.eqb_spec (segment_slot_capacity m) 0) as [E|_].
  { destruct (inv_cap _ _ _ HI) as (k&Hk&Hc). pose proof (Z.pow_pos_nonneg 2 k). lia. }
  destruct (decide (s ∈ segment_ids m)) as [Hin|Hnin].
  - pose proof Hin as [i Hi]%list_elem_of_lookup. rewrite (table_find_hit _ _ _ i s) by done.
  rewrite outcome_bind_ok. rewrite !bool_decide_true by done. done.
  - rewrite table_find_miss by done. rewrite outcome_bind_ok.
  rewrite !bool_decide_false; [done|done|]. by intros [? ?].
Qed.

Lemma manifest_append_spec m s :
  table_ok m 1 -> id s ∉ segment_ids m ->
  segment_count m <= segment_capacity m <= YAP_V2_MAX_SEGMENTS -> segment_count m < YAP_V2_MAX_SEGMENTS ->
  (manifest_append m s = Err YAP_V2_ALLOCATION_FAILED /\ exists n, alloc_ok n = false) \/
  exists m', manifest_append m s = Ok m' /\ table_ok m' 0 /\ segments m' = segments m ++ [s] /\
  segment_count m' <= segment_capacity m' <= YAP_V2_MAX_SEGMENTS /\ same_content m m'.
Proof.
  intros (slots&Hs&HI&Hr) Hnin Hcap Hmax. unfold manifest_append.
  pose proof (zlen_nonneg (segments m)). unfold segment_count in *.
  set (g := if zlen (segments m) =? segment_capacity m then _ else _).
  assert ((g = Err YAP_V2_ALLOCATION_FAILED /\ exists n, alloc_ok n = false) \/
      exists c, g = Ok c /\ zlen (segments m) < c <= YAP_V2_MAX_SEGMENTS) as
  [[-> HA]|(c&->&Hc)]; [|by left|].
  { subst g. destruct (Z.eqb_spec (zlen (segments m)) (segment_capacity m)) as [E|N];
  [|right; eexists; split; [done|lia]].
  pose proof (next_capacity_grows (segment_capacity m)). unfold YAP_V2_MAX_SEGMENTS in *.
  assert (100000 < SIZE_MAX / sizeof_segment_descriptor) by (by vm_compute).
  destruct (Z.ltb_spec (SIZE_MAX / sizeof_segment_descriptor) (next_capacity (segment_capacity m)));
  [lia|].
  destruct (alloc_ok _) eqn:HA; [right|left; eauto]. eexists; split; [done|lia]. }
  right. rewrite outcome_bind_ok, Hs. rewrite (proj2 (Z.ltb_lt _ _)) by lia.
  destruct (home_free _ _ _ (id s) HI) as (d&Hd&HF).
  { unfold segment_ids. rewrite zlen_fmap. lia. }
  pose proof HI as [(k&Hk&Hck) Hl _ _ _ _]. fold (home (segment_slot_capacity m) (id s)).
  rewrite (probe_free_spec _ k Hk Hck slots Hl _ _ d), outcome_bind_ok
  by (done || lia || by apply (home_range _ k)).
  rewrite store_slot, outcome_bind_ok by (by eapply lookup_lt_Some, HF).
  eexists; split; [done|]. split_and!; try done; unfold set_segments, segment_count in *; cbn;
  try (rewrite ?zlen_app; change (zlen [s]) with 1; lia).
  eexists; split; [done|]. cbn. unfold segment_ids in *; cbn. rewrite fmap_app. split.
  - rewrite <- (zlen_fmap id (segments m)). by apply table_inv_insert.
  - unfold segment_count; cbn. rewrite zlen_app. change (zlen [s]) with 1. lia.
Qed.

Lemma add_segment_refines m s m' r :
  manifest_inv m -> c_string (id s) -> add_segment m s = (m', r) ->
  manifest_inv m' /\ same_content m m' /\
  ((r = Err YAP_V2_ALLOCATION_FAILED /\ segments m' = segments m /\ exists n, alloc_ok n = false) \/
 match abs_add (segments m) s with
 | Ok segs => r = Ok tt /\ segments m' = segs
 | Err e => r = Err e /\ segments m' = segments m
 | Fault => False
 end).
Proof.
  intros HI Hc. unfold add_segment, abs_add. rewrite segment_id_validate_spec by done.
  destruct (decide (id_ok (id s))) as [Hid|Hid]; [|intros [= <- <-]; unfold same_content; auto 10].
  fold (segment_count m).
  destruct (Z.leb_spec YAP_V2_MAX_SEGMENTS (segment_count m)); [intros [= <- <-]; unfold same_content; auto 10|].
  pose proof (rebuild_ready m HI ltac:(lia)) as HR. pose proof HI as [Hcap Hids Ht].
  destruct (if _ || _ then _ else _) as [m1 r1].
  destruct HR as [(->&->&HA)|(->&Htab&Hseg&Hcap1&Hsame)]; [intros [= <- <-]; unfold same_content; auto 10|].
  assert (segment_ids m1 = segment_ids m) as Eids by (unfold segment_ids; by rewrite Hseg).
  assert (segment_count m1 = segment_count m) as Ecnt by (unfold segment_count; by rewrite Hseg).
  assert (manifest_inv m1) as HI1.
  { split; [by rewrite Ecnt, Hcap1|by rewrite Hseg|right].
  destruct Htab as (sl&?&?&?). exists sl. split_and!; [done..|lia]. }
  rewrite (manifest_find_spec m1 _ 1) by (done || lia). rewrite Eids. unfold segment_ids.
  destruct (decide (id s ∈ (id <$> segments m))) as [Hin|Hnin].
  { rewrite bool_decide_true by done. intros [= <- <-]. auto 10. }
  rewrite bool_decide_false by done.
  destruct (manifest_append_spec m1 s) as [[-> HA]|(m2&->&Ht2&Hs2&Hc2&Hsame2)];
  [done|by rewrite Eids|by rewrite Ecnt, Hcap1|by rewrite Ecnt| |].
  { intros [= <- <-]. auto 10. }
  intros [= <- <-]. split; [|split; [|right; by rewrite Hs2, Hseg]].
  2: { unfold same_content in *. intuition congruence. }
  split; [done| |by right]. rewrite Hs2, Hseg. by apply Forall_app_2; [|constructor].
Qed.
End add.

(** ** Validation *)
Lemma component_clash_false c d :
  component_clash c d = false <-> name d <> name c /\ component_type d <> component_type c.
Proof.
  unfold component_clash. rewrite orb_false_iff, bool_decide_eq_false, Z.eqb_neq. tauto.
Qed.

Lemma existsb_clash c cs :
  existsb (component_clash c) cs = false <->
  ~ (name c ∈ name <$> cs) /\ ~ (component_type c ∈ component_type <$> cs).
Proof.
  induction cs as [|d cs IH]; cbn [existsb].
  - split; [intros _; split; apply not_elem_of_nil|done].
  - rewrite orb_false_iff, IH, component_clash_false, !fmap_cons, !not_elem_of_cons.
    intuition congruence.
Qed.

Lemma add_component_ok s c s' :
  YAP_V2_segment_descriptor_add_component (Some s) (Some c) = Ok s' <->
  component_ok c /\ zlen (components s) < YAP_V2_MAX_COMPONENTS /\
  ~ (name c ∈ name <$> components s) /\ ~ (component_type c ∈ component_type <$> components s) /\
  s' = SegmentDescriptor (id s) (document_count s) (passage_count s) (tombstone_count s)
         (components s ++ [c]).
Proof.
  unfold YAP_V2_segment_descriptor_add_component, component_ok.
  destruct (component_refused c); [intuition congruence|].
  destruct (Z.leb_spec YAP_V2_MAX_COMPONENTS (zlen (components s))); [intuition (congruence || lia)|].
  destruct (existsb (component_clash c) (components s)) eqn:EX.
  - split; [done|]. intros (_&_&?&?&_). rewrite (proj2 (existsb_clash _ _)) in EX; done.
  - apply existsb_clash in EX. intuition congruence.
Qed.

Lemma components_ok_snoc cs c :
  components_ok (cs ++ [c]) <->
  components_ok cs /\ component_ok c /\ zlen cs < YAP_V2_MAX_COMPONENTS /\
  ~ (name c ∈ name <$> cs) /\ ~ (component_type c ∈ component_type <$> cs).
Proof.
  unfold components_ok. rewrite !fmap_app, Forall_app, !NoDup_app, zlen_app, Forall_singleton.
  change (zlen [c]) with 1. cbn [fmap list_fmap].
  pose proof (NoDup_singleton (name c)). pose proof (NoDup_singleton (component_type c)).
  pose proof (not_elem_of_nil (A := bytes)).
  split.
  - intros ((?&?)&?&(?&D1&_)&(?&D2&_)). split_and!; try done; try lia.
    + intros Hin. apply (D1 _ Hin), list_elem_of_singleton. done.
    + intros Hin. apply (D2 _ Hin), list_elem_of_singleton. done.
  - intros ((?&?&?&?)&?&?&?&?). split_and!; try done; try lia;
      intros x Hx ->%list_elem_of_singleton; done.
Qed.

Lemma components_validate_ok s done todo :
  components_ok done ->
  components_validate s done todo = Ok tt <-> components_ok (done ++ todo).
Proof.
  revert done; induction todo as [|c todo IH]; intros done Hd; cbn [components_validate].
  - by rewrite app_nil_r.
  - rewrite bind_ok. change (c :: todo) with ([c] ++ todo). rewrite (assoc_L (++)).
    setoid_rewrite add_component_ok. cbn [components]. split.
    + intros (s'&(?&?&?&?&_)&Hv). apply IH; [|done]. by apply components_ok_snoc.
    + intros Hok. assert (components_ok (done ++ [c])) as Hc.
      { destruct Hok as (HF&HL&HN1&HN2). rewrite !fmap_app in HN1. rewrite !fmap_app in HN2.
        apply Forall_app in HF as [? ?]. apply NoDup_app in HN1 as (?&_&_).
        apply NoDup_app in HN2 as (?&_&_). rewrite zlen_app in HL. pose proof (zlen_nonneg todo).
        unfold components_ok. rewrite !fmap_app. split_and!; try done; lia. }
      pose proof Hc as (_&?&?&?&?)%components_ok_snoc.
      eexists. split; [split_and!; done|]. by apply IH.
Qed.

Lemma segment_validate_ok s : c_string (id s) -> segment_validate s = Ok tt <-> segment_ok s.
Proof.
  intros Hs. unfold segment_validate, segment_ok. rewrite bind_unit_ok, segment_id_validate_spec by done.
  assert (components_ok []) as Hn by (unfold components_ok; repeat split; constructor || done).
  destruct (decide (id_ok (id s))); [|intuition congruence].
  destruct (components s) as [|c cs] eqn:E; [split; [by intros [_ ?]|by intros (_&?&_)]|].
  rewrite zlen_cons. pose proof (zlen_nonneg cs).
  rewrite (proj2 (Z.eqb_neq (1 + zlen cs) 0)) by lia. cbn [orb].
  destruct (Z.ltb_spec YAP_V2_MAX_COMPONENTS (1 + zlen cs)).
  - split; [intuition congruence|]. intros (_&_&_&HL&_). rewrite zlen_cons in HL. lia.
  - rewrite components_validate_ok by done. cbn [app]. intuition congruence.
Qed.

Section validate.
Context {A : Allocator}.

Lemma segments_validate_ok cap slots done todo :
  table_inv cap slots (id <$> done) -> 2 * zlen (done ++ todo) <= cap ->
  Forall (fun s => c_string (id s)) todo ->
  segments_validate (id <$> (done ++ todo)) slots cap (zlen done) todo = Ok tt <->
  Forall segment_ok todo /\ NoDup (id <$> (done ++ todo)).
Proof.
  revert done slots; induction todo as [|s todo IH]; intros done slots HI Hcap Hs; cbn [segments_validate].
  - rewrite app_nil_r. split; [|done]. intros _. split; [constructor|apply HI].
  - apply Forall_cons in Hs as [Hs Hss]. rewrite bind_unit_ok, segment_validate_ok by done.
  pose proof (table_step cap slots (id <$> done) (id s) (id <$> todo) HI) as HS.
  rewrite fmap_app, fmap_cons in *. rewrite zlen_app, !zlen_cons, !zlen_fmap, zlen_app, zlen_cons in *.
  specialize (HS ltac:(lia)). cbn zeta in HS.
  destruct (decide (id s ∈ id <$> done)) as [Hin|Hnin].
  + rewrite HS, outcome_bind_ok. split; [by intros [_ ?]|].
  intros [_ (_&Hx&_)%NoDup_app]. exfalso. by apply (Hx _ Hin), list_elem_of_here.
  + destruct HS as (slot&slots'&->&Hst&HI'). rewrite outcome_bind_ok, Hst, outcome_bind_ok.
  specialize (IH (done ++ [s]) slots').
  rewrite <- (assoc_L (++)), fmap_app in IH. cbn [app] in IH.
  assert (zlen (done ++ [s]) = zlen done + 1) as Hz by zl. rewrite Hz in IH.
  rewrite <- fmap_cons, <- fmap_app. rewrite IH; [|done|zl|done].
  rewrite Forall_cons. tauto.
Qed.

(** Validation stays inside its table. *)
Lemma components_validate_safe s done todo : components_validate s done todo <> Fault.
Proof.
  revert done; induction todo as [|c todo IH]; intros done; cbn [components_validate]; [by intros H|].
  apply bind_not_fault; [|by intros]. unfold YAP_V2_segment_descriptor_add_component. by repeat case_match.
Qed.

Lemma segment_validate_safe s : segment_validate s <> Fault.
Proof.
  unfold segment_validate. apply bind_not_fault; [apply segment_id_validate_safe|].
  intros _ _. destruct (_ || _); [by intros H|]. apply components_validate_safe.
Qed.

Lemma segments_validate_safe cap slots done todo :
  table_inv cap slots (id <$> done) -> 2 * zlen (done ++ todo) <= cap ->
  segments_validate (id <$> (done ++ todo)) slots cap (zlen done) todo <> Fault.
Proof.
  revert done slots; induction todo as [|s todo IH]; intros done slots HI Hcap; cbn [segments_validate];
  [by intros H|].
  apply bind_not_fault; [apply segment_validate_safe|]. intros _ _.
  pose proof (table_step cap slots (id <$> done) (id s) (id <$> todo) HI) as HS.
  rewrite fmap_app, fmap_cons in *. rewrite zlen_app, !zlen_cons, !zlen_fmap, zlen_app, zlen_cons in *.
  specialize (HS ltac:(lia)). cbn zeta in HS.
  destruct (decide (id s ∈ id <$> done)) as [Hin|Hnin]; [by rewrite HS|].
  destruct HS as (slot&slots'&->&Hst&HI'). rewrite outcome_bind_ok, Hst, outcome_bind_ok.
  specialize (IH (done ++ [s]) slots').
  rewrite <- (assoc_L (++)), fmap_app in IH. cbn [app] in IH.
  assert (zlen (done ++ [s]) = zlen done + 1) as Hz by zl. rewrite Hz in IH.
  rewrite <- fmap_cons, <- fmap_app. apply IH; [done|zl].
Qed.

Lemma forallb_zero l : forallb (fun b => b =? 0) l = false <-> Exists (fun b => b <> 0) l.
Proof.
  induction l as [|b l IH]; cbn [forallb]; [by rewrite Exists_nil|].
  rewrite Exists_cons, <- IH, andb_false_iff, Z.eqb_neq. tauto.
Qed.

(** Validation decides [manifest_valid] unless it runs out of memory. *)
Lemma manifest_validate_spec m :
  Forall (fun s => c_string (id s)) (segments m) ->
  (YAP_V2_manifest_validate (Some m) = Err YAP_V2_ALLOCATION_FAILED /\ exists n, alloc_ok n = false) \/
  (YAP_V2_manifest_validate (Some m) = Ok tt <-> manifest_valid m).
Proof.
  intros Hs. unfold YAP_V2_manifest_validate, manifest_valid. rewrite <- forallb_zero.
  unfold segment_count. pose proof (zlen_nonneg (segments m)).
  destruct (Z.eqb_spec (manifest_version m) YAP_V2_FORMAT_VERSION); [|right; split; [done|tauto]].
  destruct (Z.eqb_spec (manifest_generation m) 0); [right; split; [done|tauto]|].
  destruct (Z.ltb_spec YAP_V2_MAX_SEGMENTS (zlen (segments m))); [right; split; [done|intuition lia]|].
  cbn [negb orb]. destruct (forallb _ _); [right; split; [done|intuition congruence]|].
  destruct (Z.ltb_spec 0 (zlen (segments m))).
  - unfold YAP_V2_MAX_SEGMENTS in *.
  assert (u64 (zlen (segments m) * 2) = zlen (segments m) * 2) as ->
  by (unfold u64; apply Z.mod_small; lia).
  destruct (grow_capacity_table false (zlen (segments m))) as (k&Hk&->&Hn&_); [lia|].
  rewrite outcome_bind_ok. destruct (alloc_ok _) eqn:HA; [right|left; eauto].
  pose proof (segments_validate_ok (2 ^ k) _ [] (segments m) (table_inv_empty k Hk)) as HV.
  cbn [app] in HV. unfold segment_ids. rewrite HV by (done || lia). intuition lia.
  - right. assert (segments m = []) as E.
  { destruct (segments m); [done|]. unfold zlen in *; cbn in *; lia. }
  unfold segment_ids. rewrite E. cbn. intuition (try done); constructor.
Qed.

Lemma manifest_validate_safe m : YAP_V2_manifest_validate (Some m) <> Fault.
Proof.
  unfold YAP_V2_manifest_validate, segment_count, YAP_V2_MAX_SEGMENTS. pose proof (zlen_nonneg (segments m)).
  destruct (_ || _) eqn:T; [done|]. btests. destruct (forallb _ _); [done|].
  destruct (0 <? _); [|done].
  assert (u64 (zlen (segments m) * 2) = zlen (segments m) * 2) as -> by (unfold u64; apply Z.mod_small; lia).
  destruct (grow_capacity_table false (zlen (segments m))) as (k&Hk&->&Hn&_); [lia|].
  rewrite outcome_bind_ok. destruct (alloc_ok _); [|done].
  apply (segments_validate_safe (2 ^ k) _ [] (segments m) (table_inv_empty k Hk)). cbn [app]. lia.
Qed.

Lemma manifest_validate_iff m :
  (forall n, alloc_ok n = true) -> Forall (fun s => c_string (id s)) (segments m) ->
  YAP_V2_manifest_validate (Some m) = Ok tt <-> manifest_valid m.
Proof.
  intros HA Hs. destruct (manifest_validate_spec m Hs) as [[_ [n Hn]]|H]; [|done].
  by rewrite HA in Hn.
Qed.
End validate.

(** ** Main theorems *)

Definition demo_component : YAP_V2_COMPONENT_DESCRIPTOR :=
  ComponentDescriptor [100; 111; 99; 115] 4 3 200 (replicate 32 17).
Definition demo_segment : YAP_V2_SEGMENT_DESCRIPTOR :=
  SegmentDescriptor [115; 101; 103; 45; 49] 2 1 0 [demo_component].
Definition demo_manifest : YAP_V2_MANIFEST :=
  Manifest YAP_V2_FORMAT_VERSION 7 (replicate 32 5) [demo_segment] 4 None 0.

Lemma demo_manifest_valid : manifest_valid demo_manifest.
Proof.
  split_and!; try done; [by constructor| |apply NoDup_singleton].
  constructor; [|constructor]. split; [|split; [done|]].
  - split; [done|]. repeat constructor.
  - split_and!; [by repeat constructor|done|apply NoDup_singleton..].
Qed.

(** C33: adding a segment to a manifest refines adding it to a list of segments with distinct
    identifiers: an invalid identifier, a full manifest and a duplicate are refused and leave
    the segments alone, otherwise the segment is appended; the slot table, which is rebuilt
    and grown on the way, stays a correct index of the segments.  The only other outcome is a
    failed allocation, which changes no segment. *)
Theorem manifest_add_segment_refinement {A : Allocator} (m m' : YAP_V2_MANIFEST) (s : YAP_V2_SEGMENT_DESCRIPTOR)
    (r : result unit) :
  manifest_inv m -> c_string (id s) -> YAP_V2_manifest_add_segment m (Some s) = (m', r) ->
  manifest_inv m' /\ same_content m m' /\
  ((r = Err YAP_V2_ALLOCATION_FAILED /\ segments m' = segments m /\ exists n, alloc_ok n = false) \/
   match abs_add (segments m) s with
   | Ok segs => r = Ok tt /\ segments m' = segs
   | Err e => r = Err e /\ segments m' = segments m
   | Fault => False
   end).
Proof. apply add_segment_refines. Qed.

Lemma demo_segment_id : c_string (id demo_segment).
Proof. apply (bool_decide_unpack _). by vm_compute. Qed.

Lemma demo_init_inv : manifest_inv YAP_V2_manifest_init.
Proof. split; [by vm_compute|constructor|by left]. Qed.

Lemma manifest_add_segment_refinement_witness :
  exists m', YAP_V2_manifest_add_segment (A:=alloc_total) YAP_V2_manifest_init (Some demo_segment) = (m', Ok tt) /\
    manifest_inv m' /\ segments m' = [demo_segment].
Proof.
  destruct (YAP_V2_manifest_add_segment (A:=alloc_total) YAP_V2_manifest_init (Some demo_segment)) as [m' r] eqn:E.
  assert (r = Ok tt) as -> by (vm_compute in E; congruence).
  exists m'. split; [reflexivity|].
  destruct (manifest_add_segment_refinement (A:=alloc_total) _ _ _ _ demo_init_inv
    demo_segment_id E) as (HI&_&[(H&_)|H]); [discriminate|].
  split; [exact HI|exact (proj2 H)].
Defined.

(** C34: with enough memory, validation accepts a manifest exactly when it has the
    current version, a non-zero generation, a non-zero fingerprint, at most 100000 segments
    with distinct valid identifiers, and in each segment one to eight acceptable components
    with distinct names and types; it never reads out of bounds. *)
Theorem manifest_validate_exact {A : Allocator} (m : YAP_V2_MANIFEST) :
  (forall n, alloc_ok n = true) -> Forall (fun s => c_string (id s)) (segments m) ->
  (YAP_V2_manifest_validate (Some m) = Ok tt <-> manifest_valid m) /\
  YAP_V2_manifest_validate (Some m) <> Fault.
Proof. intros HA Hs. split; [by apply manifest_validate_iff|apply manifest_validate_safe]. Qed.

Lemma manifest_validate_exact_witness :
  YAP_V2_manifest_validate (A:=alloc_total) (Some demo_manifest) = Ok tt.
Proof.
  apply (manifest_validate_exact (A:=alloc_total) demo_manifest); [reflexivity| |apply demo_manifest_valid].
  apply Forall_singleton, demo_segment_id.
Defined.
