(* ===== verification/FileSystem.v ===== *)
(** The file system the storage routines call: stdio and POSIX calls that may
    fail, and crashes.

    Files are inodes; a name maps to the history of what it referred to since its
    directory was last synchronised, newest first.  A crash may bring back any
    element of the history, and the content of an inode survives it only when the
    inode was synchronised after its last change.  Every call first consumes one
    event of a script: it succeeds, fails, or the machine stops there.  All
    theorems quantify over the script. *)
From S2P Require Import Prelude Words Types.

Abbreviation path := (list Z).

Record inode := Inode { content : bytes; synced : bool }.

Inductive event :=
  | Succeed
  | Fail (transferred : nat)
  | Crash (transferred : nat).

Record world := World {
  inodes : gmap nat inode;
  names : gmap path (list (option nat));
  next_inode : nat;
  script : list event }.

(** ** Computations *)
Inductive run (A : Type) : Type :=
  | Done (a : A) (w : world)
  | Crashed (w : world).
Arguments Done {A} a w.
Arguments Crashed {A} w.

Definition io (A : Type) : Type := world -> run A.

Definition io_ret {A} (a : A) : io A := fun w => Done a w.
Definition io_bind {A B} (c : io A) (f : A -> io B) : io B := fun w =>
  match c w with Done a w => f a w | Crashed w => Crashed w end.

Declare Scope io_scope.
Delimit Scope io_scope with io.
Notation "'let*' x := c 'in' k" := (io_bind c (fun x => k))
  (at level 10, x name, c at level 100, k at level 200) : io_scope.
Notation "'do*' c 'in' k" := (io_bind c (fun _ => k))
  (at level 10, c at level 100, k at level 200) : io_scope.
#[local] Open Scope io_scope.

(** ** Names *)
Definition history (w : world) (p : path) : list (option nat) := default [None] (names w !! p).
Definition current (w : world) (p : path) : option nat := default None (head (history w p)).

(** What reading a name shows now. *)
Definition file_at (w : world) (p : path) : option bytes :=
  i ← current w p; nd ← inodes w !! i; Some (content nd).

(** What a name may show after a crash; the content of an unsynchronised inode is arbitrary. *)
Definition crash_view (w : world) (p : path) (v : option bytes) : Prop :=
  exists e, e ∈ history w p /\
    match e with
    | None => v = None
    | Some i => match inodes w !! i with
                | None => v = None
                | Some nd => if synced nd then v = Some (content nd) else is_Some v
                end
    end.

Definition set_history (w : world) (p : path) (h : list (option nat)) : world :=
  World (inodes w) (<[p := h]> (names w)) (next_inode w) (script w).
Definition set_inode (w : world) (i : nat) (nd : inode) : world :=
  World (<[i := nd]> (inodes w)) (names w) (next_inode w) (script w).

(** ** Calls *)
Definition next_event : io event := fun w =>
  match script w with
  | [] => Done Succeed w
  | e :: s => Done e (World (inodes w) (names w) (next_inode w) s)
  end.

(** A call without partial effects: [effect] happens when it succeeds. *)
Definition call (effect : world -> world) : io bool := fun w =>
  match next_event w with
  | Done Succeed w => Done true (effect w)
  | Done (Fail _) w => Done false w
  | Done (Crash _) w => Crashed w
  | Crashed w => Crashed w
  end.

(** Create or truncate, as [fopen(p, "wb")] and [mkstemp] do. *)
Definition create_effect (p : path) (w : world) : world :=
  match current w p with
  | Some i => set_inode w i (Inode [] false)
  | None =>
      World (<[next_inode w := Inode [] false]> (inodes w))
        (<[p := Some (next_inode w) :: history w p]> (names w)) (S (next_inode w)) (script w)
  end.

(** [fopen(p, "wb")]: the inode of the stream, or [None]. *)
Definition fopen_wb (p : path) : io (option nat) :=
  let* ok := call (create_effect p) in
  fun w => Done (if ok : bool then current w p else None) w.

(** [fopen(p, "rb")]: the content the stream will deliver.  [fstat], [fseek] and a [fread] of
    the whole content have no effect on the file. *)
Definition fopen_rb (p : path) : io (option bytes) :=
  let* ok := call (fun w => w) in
  fun w => Done (if ok : bool then file_at w p else None) w.
Definition fstat : io bool := call (fun w => w).
Definition mmap : io bool := call (fun w => w).
Definition fread_all : io bool := call (fun w => w).
Definition fclose_rb : io bool := call (fun w => w).

(** [fopen(p, "rb")] with its [errno]: [Err YAP_V2_NOT_FOUND] for [ENOENT]. *)
Definition fopen_rb_errno (p : path) : io (result bytes) :=
  let* ok := call (fun w => w) in
  fun w => Done (if ok : bool then match file_at w p with Some bs => Ok bs | None => Err YAP_V2_NOT_FOUND end
                 else Err YAP_V2_IO_ERROR) w.

(** [access(p, F_OK) == 0]. *)
Definition access_ok (p : path) : io bool :=
  let* ok := call (fun w => w) in
  fun w => Done ((ok : bool) && negb (bool_decide (file_at w p = None))) w.

(** [access(p, F_OK) != 0 && errno == ENOENT]. *)
Definition access_enoent (p : path) : io bool :=
  let* ok := call (fun w => w) in
  fun w => Done ((ok : bool) && bool_decide (file_at w p = None)) w.

(** [open(p, O_CREAT | O_RDWR)], [flock] and [close] of a lock file. *)
Definition open_creat_effect (p : path) (w : world) : world :=
  match current w p with Some _ => w | None => create_effect p w end.
Definition open_creat (p : path) : io bool := call (open_creat_effect p).
Definition flock : io bool := call (fun w => w).
Definition close_lock : io bool := call (fun w => w).

Definition append_effect (i : nat) (bs : bytes) (w : world) : world :=
  match inodes w !! i with
  | Some nd => set_inode w i (Inode (content nd ++ bs) false)
  | None => w
  end.

(** A call that transfers a buffer; when it fails or is interrupted a prefix was transferred. *)
Definition write_call (effect : bytes -> world -> world) (bs : bytes) : io bool := fun w =>
  match next_event w with
  | Done Succeed w => Done true (effect bs w)
  | Done (Fail n) w => Done false (effect (take n bs) w)
  | Done (Crash n) w => Crashed (effect (take n bs) w)
  | Crashed w => Crashed w
  end.

(** [fwrite] of a whole buffer at the end of the file. *)
Definition fwrite (i : nat) : bytes -> io bool := write_call (append_effect i).

(** [fwrite] after [fseek(file, 0, SEEK_SET)]. *)
Definition overwrite_effect (i : nat) (bs : bytes) (w : world) : world :=
  match inodes w !! i with
  | Some nd => set_inode w i (Inode (bs ++ drop (length bs) (content nd)) false)
  | None => w
  end.
Definition fseek_start (i : nat) : io bool := call (fun w => w).
Definition fwrite_start (i : nat) : bytes -> io bool := write_call (overwrite_effect i).

(** [mkstemp] creates a file that did not exist; [t] is the name it tries. *)
Definition mkstemp (t : path) : io (option nat) := fun w =>
  match current w t with
  | Some _ => Done None w
  | None => fopen_wb t w
  end.

(** [fread] of a stream until the end: the bytes delivered before a failure. *)
Definition fread_stream (bs : bytes) : io bytes := fun w =>
  match next_event w with
  | Done Succeed w => Done bs w
  | Done (Fail n) w => Done (take n bs) w
  | Done (Crash _) w => Crashed w
  | Crashed w => Crashed w
  end.

Definition fflush (i : nat) : io bool := call (fun w => w).
Definition fclose (i : nat) : io bool := call (fun w => w).

Definition fsync_effect (i : nat) (w : world) : world :=
  match inodes w !! i with
  | Some nd => set_inode w i (Inode (content nd) true)
  | None => w
  end.
Definition fsync (i : nat) : io bool := call (fsync_effect i).

Definition rename_effect (src dst : path) (w : world) : world :=
  let i := current w src in
  let w := set_history w dst (i :: history w dst) in
  set_history w src (None :: history w src).

(** [rename] fails when the source does not exist. *)
Definition rename (src dst : path) : io bool := fun w =>
  match current w src with
  | None => Done false w
  | Some _ => call (rename_effect src dst) w
  end.

Definition unlink_effect (p : path) (w : world) : world :=
  match current w p with
  | None => w
  | Some _ => set_history w p (None :: history w p)
  end.
Definition unlink (p : path) : io bool := call (unlink_effect p).

(** The directory of a path, computed as the sources do with [strrchr]. *)
Definition SLASH : Z := 47.
Definition DOT : bytes := [46].

Fixpoint split_last (p : bytes) : option (bytes * bytes) :=
  match p with
  | [] => None
  | c :: p =>
      match split_last p with
      | Some (a, b) => Some (c :: a, b)
      | None => if c =? SLASH then Some ([], p) else None
      end
  end.

Definition parent (p : path) : path :=
  match split_last p with
  | None => DOT
  | Some ([], _) => [SLASH]
  | Some (d, _) => d
  end.

(** [fsync] of a directory: the current entry of every name in it becomes the only one. *)
Definition sync_names (d : path) (m : gmap path (list (option nat))) : gmap path (list (option nat)) :=
  map_imap (fun p h => Some (if bool_decide (parent p = d) then take 1 h else h)) m.

Definition fsync_dir_effect (d : path) (w : world) : world :=
  World (inodes w) (sync_names d (names w)) (next_inode w) (script w).

(** [open], [fsync] and [close] of a directory; [false] when one fails.
    A descriptor that was opened is closed even when [fsync] failed. *)
Definition fsync_dir (d : path) : io bool :=
  let* opened := call (fun w => w) in
  if opened : bool then
    let* synced := call (fsync_dir_effect d) in
    let* closed := call (fun w => w) in
    io_ret (synced && closed)
  else io_ret false.
Definition fsync_parent (p : path) : io bool := fsync_dir (parent p).

Lemma split_last_join (d name : bytes) : SLASH ∉ name -> split_last (d ++ [SLASH] ++ name) = Some (d, name).
Proof.
  intros Hn. induction d as [|c d IH]; cbn [app split_last] in *.
  - assert (split_last name = None) as ->; [|done].
    induction name as [|c name IH]; [done|]. apply not_elem_of_cons in Hn as [Hc Hn]. cbn.
    rewrite (IH Hn). by destruct (Z.eqb_spec c SLASH).
  - by rewrite IH.
Qed.

(** ** Atomic replacement *)
Definition TMP_SUFFIX : bytes := [46; 116; 109; 112].  (* ".tmp" *)
Definition tmp_path (p : path) : path := p ++ TMP_SUFFIX.

Definition INT_MAX : Z := 2147483647.

(** The error exits of [write_atomic]: remove the temporary file, closing it first if it is
    still open. *)
Definition discard (p : path) : io (result unit) :=
  do* unlink (tmp_path p) in io_ret (Err YAP_V2_IO_ERROR).
Definition close_discard (p : path) (i : nat) : io (result unit) :=
  do* fclose i in discard p.

(** [rename] and the synchronisation of the directory. *)
Definition commit_tmp {A : Allocator} (p : path) : io (result unit) :=
  let* renamed := rename (tmp_path p) p in
  if negb renamed then discard p
  else if negb (alloc_ok (zlen p + 1)) then io_ret (Err YAP_V2_ALLOCATION_FAILED)
  else
  let* durable := fsync_parent p in
  io_ret (if durable : bool then Ok tt else Err YAP_V2_IO_ERROR).

(** [fflush], [fsync] and [fclose] of the written temporary file, then the commit. *)
Definition finish_tmp {A : Allocator} (p : path) (i : nat) : io (result unit) :=
  let* flushed := (let* f := fflush i in if f : bool then fsync i else io_ret false) in
  if negb flushed then close_discard p i
  else
  let* closed := fclose i in
  if negb closed then discard p else commit_tmp p.

(** [write_atomic] of yappo_segment_v2.c; [snprintf] fails on a result above [INT_MAX]. *)
Definition write_atomic {A : Allocator} (p : path) (bs : bytes) : io (result unit) :=
  if SIZE_MAX - 5 <? zlen p then io_ret (Err YAP_V2_OUT_OF_RANGE)
  else if negb (alloc_ok (zlen p + 5)) then io_ret (Err YAP_V2_ALLOCATION_FAILED)
  else if INT_MAX <? zlen p + 4 then io_ret (Err YAP_V2_IO_ERROR)
  else
  let* file := fopen_wb (tmp_path p) in
  match file with
  | None => io_ret (Err YAP_V2_IO_ERROR)
  | Some i =>
      let* written := (if 0 <? zlen bs then fwrite i bs else io_ret true) in
      if negb written then close_discard p i else finish_tmp p i
  end.

(** ** Reasoning about computations

    [wp c Q R w]: started in [w], [c] either returns in a state of [Q], or the
    machine stops in a state of [R]. *)
Definition wp {A} (c : io A) (Q : A -> world -> Prop) (R : world -> Prop) (w : world) : Prop :=
  match c w with Done a w' => Q a w' | Crashed w' => R w' end.

Definition set_script (w : world) (s : list event) : world :=
  World (inodes w) (names w) (next_inode w) s.

Lemma wp_ret {A} (a : A) Q R w : Q a w -> wp (io_ret a) Q R w.
Proof. done. Qed.

Lemma wp_bind {A B} (c : io A) (f : A -> io B) Q R w :
  wp c (fun a w => wp (f a) Q R w) R w -> wp (io_bind c f) Q R w.
Proof. unfold wp, io_bind. by destruct (c w). Qed.

Lemma wp_mono {A} (c : io A) (Q Q' : A -> world -> Prop) R w :
  wp c Q R w -> (forall a w, Q a w -> Q' a w) -> wp c Q' R w.
Proof. unfold wp. destruct (c w); auto. Qed.

Lemma wp_weaken {A} (c : io A) (Q Q' : A -> world -> Prop) (R R' : world -> Prop) w :
  wp c Q R w -> (forall a w, Q a w -> Q' a w) -> (forall w, R w -> R' w) -> wp c Q' R' w.
Proof. unfold wp. destruct (c w); auto. Qed.

Lemma wp_call effect Q R w :
  (forall s, Q true (effect (set_script w s)) /\ Q false (set_script w s) /\ R (set_script w s)) ->
  wp (call effect) Q R w.
Proof.
  intros H. unfold wp, call, next_event.
  destruct (script w) as [|[]] eqn:E; try apply H.
  destruct (H []) as [H1 _]. unfold set_script in H1.
  replace w with (World (inodes w) (names w) (next_inode w) (script w)) by (by destruct w).
  by rewrite E.
Qed.

Lemma wp_write_call effect bs Q R w :
  (forall s n, Q true (effect bs (set_script w s)) /\ Q false (effect (take n bs) (set_script w s)) /\
     R (effect (take n bs) (set_script w s))) ->
  wp (write_call effect bs) Q R w.
Proof.
  intros H. unfold wp, write_call, next_event.
  destruct (script w) as [|[]] eqn:E; try apply (H _ 0%nat); try apply H.
  destruct (H [] 0%nat) as [H1 _]. unfold set_script in H1.
  replace w with (World (inodes w) (names w) (next_inode w) (script w)) by (by destruct w).
  by rewrite E.
Qed.

Lemma wp_fwrite i bs Q R w :
  (forall s n, Q true (append_effect i bs (set_script w s)) /\
     Q false (append_effect i (take n bs) (set_script w s)) /\
     R (append_effect i (take n bs) (set_script w s))) ->
  wp (fwrite i bs) Q R w.
Proof. apply wp_write_call. Qed.

(** A call without effect keeps every assertion on the files. *)
Lemma wp_noop (Q : bool -> world -> Prop) (R : world -> Prop) w :
  (forall s b, Q b (set_script w s)) -> (forall s, R (set_script w s)) -> wp (call (fun w => w)) Q R w.
Proof. intros H1 H2. apply wp_call. auto. Qed.

(** ** Crash safety of atomic replacement *)
Lemma tmp_path_ne p : tmp_path p <> p.
Proof. unfold tmp_path, TMP_SUFFIX. intros E. apply (f_equal length) in E. rewrite length_app in E. cbn in E. lia. Qed.

Section replacement.
Context (p t : path) (w0 : world).

(** Nothing that [p] may show has been touched. *)
Definition untouched (w : world) : Prop :=
  history w p = history w0 p /\
  forall j, Some j ∈ history w0 p -> inodes w !! j = inodes w0 !! j.

(** The temporary file [i] is apart from what [p] may show. *)
Definition staged (i : nat) (nd : inode) (w : world) : Prop :=
  untouched w /\ current w t = Some i /\ ~ (Some i ∈ history w0 p) /\ inodes w !! i = Some nd.

(** After [rename]: [p] shows the complete new content, or what it showed before. *)
Definition replaced (bs : bytes) (w : world) : Prop :=
  exists i h, history w p = Some i :: h /\ (h = [] \/ h = history w0 p) /\
  inodes w !! i = Some (Inode bs true) /\
  (forall j, Some j ∈ h -> inodes w !! j = inodes w0 !! j).

Definition durable (bs : bytes) (w : world) : Prop :=
  exists i, history w p = [Some i] /\ inodes w !! i = Some (Inode bs true).

(** New inode numbers are fresh, and the temporary name, when it exists, is not one of the
inodes [p] may show. *)
Definition apart : Prop :=
  (forall j, Some j ∈ history w0 p \/ current w0 t = Some j -> (j < next_inode w0)%nat) /\
  (forall i, current w0 t = Some i -> ~ (Some i ∈ history w0 p)).

Lemma history_other (q : path) h w : p <> q -> history (set_history w q h) p = history w p.
Proof. intros. unfold history, set_history; cbn. by rewrite lookup_insert_ne by congruence. Qed.

Lemma history_same q h w : history (set_history w q h) q = h.
Proof. unfold history, set_history; cbn. by rewrite lookup_insert_eq. Qed.

Lemma create_staged s : t <> p -> apart ->
  exists i, staged i (Inode [] false) (create_effect t (set_script w0 s)).
Proof.
  intros Hne [Hf Ht]. unfold create_effect.
  change (current (set_script w0 s) t) with (current w0 t).
  destruct (current w0 t) as [i|] eqn:C.
  - exists i. specialize (Ht _ eq_refl). split; [split|split; [done|split; [done|]]].
  + done.
  + intros j Hj. cbn. rewrite lookup_insert_ne; [done|]. congruence.
  + cbn. by rewrite lookup_insert_eq.
  - exists (next_inode w0). split; [split|split; [|split]].
  + unfold history; cbn. by rewrite lookup_insert_ne by congruence.
  + intros j Hj. cbn. rewrite lookup_insert_ne; [done|]. specialize (Hf _ (or_introl Hj)). lia.
  + unfold current, history; cbn. by rewrite lookup_insert_eq.
  + intros Hin. specialize (Hf _ (or_introl Hin)). lia.
  + cbn. by rewrite lookup_insert_eq.
Qed.

Lemma staged_set i nd nd' w : staged i nd w -> staged i nd' (set_inode w i nd').
Proof.
  intros ((Hh&Hj)&Hc&Hi&Hn). split; [split|split; [done|split; [done|]]].
  - done.
  - intros j Hin. cbn. rewrite lookup_insert_ne by congruence. by apply Hj.
  - cbn. by rewrite lookup_insert_eq.
Qed.

Lemma staged_append i c b w bs : staged i (Inode c b) w ->
  staged i (Inode (c ++ bs) false) (append_effect i bs w).
Proof. intros H. pose proof H as (_&_&_&Hn). unfold append_effect. rewrite Hn. by eapply staged_set. Qed.

Lemma staged_overwrite i c b w bs : staged i (Inode c b) w ->
  staged i (Inode (bs ++ drop (length bs) c) false) (overwrite_effect i bs w).
Proof. intros H. pose proof H as (_&_&_&Hn). unfold overwrite_effect. rewrite Hn. by eapply staged_set. Qed.

Lemma staged_fsync i c b w : staged i (Inode c b) w -> staged i (Inode c true) (fsync_effect i w).
Proof. intros H. pose proof H as (_&_&_&Hn). unfold fsync_effect. rewrite Hn. by eapply staged_set. Qed.

Lemma untouched_unlink w : t <> p -> untouched w -> untouched (unlink_effect t w).
Proof.
  intros Hne [Hh Hj]. unfold unlink_effect. destruct (current w t); [|done].
  split; [|done]. rewrite history_other by congruence. done.
Qed.

Lemma staged_rename i bs w : t <> p -> staged i (Inode bs true) w -> replaced bs (rename_effect t p w).
Proof.
  intros Hne ((Hh&Hj)&Hc&Hi&Hn). unfold rename_effect. rewrite Hc.
  exists i, (history w0 p). split_and!; [|by right|done|done].
  rewrite history_other by congruence. by rewrite history_same, Hh.
Qed.

Lemma history_sync w d : history (fsync_dir_effect d w) p =
  if bool_decide (parent p = d) then take 1 (history w p) else history w p.
Proof.
  unfold history, fsync_dir_effect, sync_names; cbn. rewrite map_lookup_imap.
  destruct (names w !! p); cbn; by destruct (bool_decide _).
Qed.

Lemma replaced_sync bs w : replaced bs w -> durable bs (fsync_dir_effect (parent p) w).
Proof.
  intros (i&h&Hh&_&Hn&_). exists i. split; [|done].
  rewrite history_sync, bool_decide_true, Hh by done. done.
Qed.

Lemma durable_replaced bs w : durable bs w -> replaced bs w.
Proof. intros (i&Hh&Hn). exists i, []. split_and!; auto. intros j []%not_elem_of_nil. Qed.
End replacement.

Definition tmp_apart (p : path) (w : world) : Prop := apart p (tmp_path p) w.

Section outcomes.
Context (p : path) (w0 : world) (bs : bytes).

(** Old content, untouched, or new content, complete. *)
Definition old_or_new (w : world) : Prop := untouched p w0 w \/ replaced p w0 bs w.

Definition replace_post (r : result unit) (w : world) : Prop :=
  match r with Ok _ => durable p bs w | Err _ => old_or_new w | Fault => False end.

Lemma old_or_new_view w v : old_or_new w -> crash_view w p v -> v = Some bs \/ crash_view w0 p v.
Proof.
  intros [[Hh Hj]|(i&h&Hh&Hc&Hn&Hj)] (e&He&Hv).
  - right. exists e. rewrite Hh in He. split; [done|]. destruct e as [j|]; [|done].
  by rewrite Hj in Hv.
  - rewrite Hh in He. apply elem_of_cons in He as [->|He].
  + rewrite Hn in Hv. by left.
  + destruct Hc as [->| ->]; [by apply not_elem_of_nil in He|].
  right. exists e. split; [done|]. destruct e as [j|]; [|done]. by rewrite Hj in Hv.
Qed.

Lemma old_or_new_file w : (forall j, current w0 p = Some j -> Some j ∈ history w0 p) ->
  old_or_new w -> file_at w p = Some bs \/ file_at w p = file_at w0 p.
Proof.
  intros Hcur [[Hh Hj]|(i&h&Hh&Hc&Hn&Hj)]; unfold file_at, current in *.
  - right. rewrite Hh. destruct (default None (head (history w0 p))) as [j|] eqn:C; [|done].
  cbn. by rewrite Hj by (by apply Hcur).
  - left. rewrite Hh. cbn. by rewrite Hn.
Qed.

Lemma durable_view w v : durable p bs w -> crash_view w p v -> v = Some bs.
Proof.
  intros (i&Hh&Hn) (e&He&Hv). rewrite Hh in He. apply list_elem_of_singleton in He as ->.
  by rewrite Hn in Hv.
Qed.

Lemma durable_file w : durable p bs w -> file_at w p = Some bs.
Proof. intros (i&Hh&Hn). unfold file_at, current. rewrite Hh. cbn. by rewrite Hn. Qed.

Lemma wp_cleanup_unlink t (Q : bool -> world -> Prop) R w :
  t <> p -> untouched p w0 w -> (forall b w, untouched p w0 w -> Q b w) -> (forall w, untouched p w0 w -> R w) ->
  wp (unlink t) Q R w.
Proof. intros Hne Hu HQ HR. apply wp_call. intros s. split_and!; auto using untouched_unlink. Qed.

(** Publishing a complete, synchronised temporary file. *)
Lemma wp_fsync_parent (Q : bool -> world -> Prop) (R : world -> Prop) w :
  replaced p w0 bs w ->
  (forall w, durable p bs w -> Q true w) -> (forall w, replaced p w0 bs w -> Q false w) ->
  (forall w, replaced p w0 bs w -> R w) ->
  wp (fsync_parent p) Q R w.
Proof.
  intros Hr HQ HQ' HR. apply wp_bind, wp_noop; [|auto]. intros s [|]; [|by apply HQ'].
  apply wp_bind, wp_call. intros s'. split_and!; [| |auto].
  - apply wp_bind, wp_noop.
  + intros s'' [|]; apply wp_ret; cbn.
  * apply HQ. by apply (replaced_sync p w0).
  * apply HQ'. by apply durable_replaced, (replaced_sync p w0).
  + intros s''. apply HR. by apply durable_replaced, (replaced_sync p w0).
  - apply wp_bind, wp_noop; [|auto]. intros s'' b. apply wp_ret. by apply HQ'.
Qed.

Lemma wp_rename_staged t (Q : bool -> world -> Prop) (R : world -> Prop) w i :
  t <> p -> staged p t w0 i (Inode bs true) w ->
  (forall w, replaced p w0 bs w -> Q true w) ->
  (forall w, untouched p w0 w -> Q false w) -> (forall w, untouched p w0 w -> R w) ->
  wp (rename t p) Q R w.
Proof.
  intros Hne Hs HQ HQ' HR. unfold wp, rename. rewrite (proj1 (proj2 Hs)).
  apply (wp_call (rename_effect t p)). intros s. split_and!.
  - by apply HQ, (staged_rename p t w0 i bs).
  - by apply HQ', Hs.
  - by apply HR, Hs.
Qed.
End outcomes.

Section write_atomic_proof.
Context {A : Allocator} (p : path) (w0 : world) (bs : bytes).

(** [fopen] of the temporary file: either the stage is set or nothing happened. *)
Lemma wp_fopen_tmp (Q : option nat -> world -> Prop) (R : world -> Prop) :
  tmp_apart p w0 ->
  (forall i w, staged p (tmp_path p) w0 i (Inode [] false) w -> Q (Some i) w) ->
  (forall w, untouched p w0 w -> Q None w) -> (forall w, untouched p w0 w -> R w) ->
  wp (fopen_wb (tmp_path p)) Q R w0.
Proof.
  intros Ht HS HN HR. apply wp_bind, wp_call. intros s. split_and!.
  - destruct (create_staged p (tmp_path p) w0 s (tmp_path_ne p) Ht) as (i&Hi). unfold wp. cbn.
  rewrite (proj1 (proj2 Hi)). by apply HS.
  - by apply HN.
  - by apply HR.
Qed.

Abbreviation post := (replace_post p w0 bs).
Abbreviation crash := (old_or_new p w0 bs).

Lemma discard_wp w : untouched p w0 w -> wp (discard p) post crash w.
Proof.
  intros Hu. apply wp_bind, (wp_cleanup_unlink p w0); [apply tmp_path_ne|done| |by left].
  intros b w' Hu'. apply wp_ret. by left.
Qed.

Lemma close_discard_wp w i : untouched p w0 w -> wp (close_discard p i) post crash w.
Proof. intros Hu. apply wp_bind, wp_noop; [|by left]. intros s b. by apply discard_wp. Qed.

Lemma commit_tmp_wp w i : staged p (tmp_path p) w0 i (Inode bs true) w -> wp (commit_tmp p) post crash w.
Proof.
  intros Hs. apply wp_bind, (wp_rename_staged p w0 bs (tmp_path p) _ _ _ i); [apply tmp_path_ne|done| |by apply discard_wp|by left].
  intros w' Hr. cbn [negb]. destruct (negb (alloc_ok _)); [by right|].
  apply wp_bind, (wp_fsync_parent p w0 bs); [done| | |by right].
  - intros w'' Hd. by apply wp_ret.
  - intros w'' Hd. apply wp_ret. by right.
Qed.

Lemma finish_tmp_wp w i : staged p (tmp_path p) w0 i (Inode bs false) w -> wp (finish_tmp p i) post crash w.
Proof.
  intros Hs. apply wp_bind, wp_bind, wp_noop; [|left; apply Hs].
  intros s [|]; [|apply wp_ret, close_discard_wp, Hs].
  apply wp_call. intros s'. split_and!; [|apply close_discard_wp, Hs|left; apply Hs].
  apply (staged_fsync p (tmp_path p) w0 i bs false (set_script (set_script w s) s')) in Hs.
  apply wp_bind, wp_noop; [|left; apply Hs].
  intros s'' [|]; [by eapply commit_tmp_wp|apply discard_wp, Hs].
Qed.

Lemma write_atomic_wp : tmp_apart p w0 -> wp (write_atomic p bs) post crash w0.
Proof.
  intros Ht. unfold write_atomic.
  repeat (match goal with |- wp (if ?b then _ else _) _ _ _ => destruct b; [by left|] end).
  apply wp_bind, wp_fopen_tmp; [done| |by left|by left]. intros i w1 H1. apply wp_bind.
  destruct (Z.ltb_spec 0 (zlen bs)) as [Hpos|Hz].
  - apply wp_fwrite. intros s n.
  pose proof (fun b => staged_append p (tmp_path p) w0 i [] false (set_script w1 s) b H1) as Hap.
  split_and!; cbn [negb].
  + by apply finish_tmp_wp, (Hap bs).
  + apply close_discard_wp, (Hap (take n bs)).
  + left. apply (Hap (take n bs)).
  - apply wp_ret, finish_tmp_wp.
  assert (bs = []) as -> by (destruct bs; [done|unfold zlen in Hz; cbn in Hz; lia]). done.
Qed.
End write_atomic_proof.

(** The invariant that separates the temporary file is kept by every call [write_atomic]
    makes, so replacements of a file can follow one another. *)
Section tmp_apart_kept.
Context {A : Allocator} (p : path).

Abbreviation Inv := (tmp_apart p).
Abbreviation keeps c := (forall w, Inv w -> wp c (fun _ => Inv) Inv w).

Lemma current_other q h w : p <> q -> current (set_history w q h) p = current w p.
Proof. intros. unfold current. by rewrite history_other. Qed.

Lemma current_same q h w : current (set_history w q h) q = default None (head h).
Proof. unfold current. by rewrite history_same. Qed.

Lemma apart_create w : Inv w -> Inv (create_effect (tmp_path p) w).
Proof.
  intros [Hf Ht]. unfold create_effect. destruct (current w (tmp_path p)) as [i|] eqn:C.
  - split; unfold current, history in *; cbn in *; [|by rewrite C].
  intros j Hj. rewrite C in Hj. by apply Hf.
  - pose proof (tmp_path_ne p).
  split; unfold current, history in *; cbn in *; rewrite lookup_insert_eq; cbn;
  rewrite lookup_insert_ne by congruence.
  + intros j [Hj|[= <-]]; [|lia]. specialize (Hf j (or_introl Hj)). lia.
  + intros i [= <-] Hin. specialize (Hf _ (or_introl Hin)). lia.
Qed.

Lemma apart_append w i bs : Inv w -> Inv (append_effect i bs w).
Proof. intros H. unfold append_effect. by destruct (inodes w !! i). Qed.

Lemma apart_fsync w i : Inv w -> Inv (fsync_effect i w).
Proof. intros H. unfold fsync_effect. by destruct (inodes w !! i). Qed.

Lemma apart_unlink w : Inv w -> Inv (unlink_effect (tmp_path p) w).
Proof.
  intros [Hf Ht]. pose proof (tmp_path_ne p). unfold unlink_effect.
  destruct (current w (tmp_path p)) eqn:C; [|by split; rewrite ?C].
  split; rewrite current_same, history_other by done; [|done].
  intros j [Hj|[=]]. apply Hf. by left.
Qed.

Lemma apart_rename w : Inv w -> Inv (rename_effect (tmp_path p) p w).
Proof.
  intros [Hf Ht]. pose proof (tmp_path_ne p). unfold rename_effect.
  split; rewrite current_same, (history_other p), history_same by done; [|done].
  intros j [[Hj|Hj]%elem_of_cons|[=]]; apply Hf; auto.
Qed.

Lemma apart_sync w d : Inv w -> Inv (fsync_dir_effect d w).
Proof.
  intros [Hf Ht].
  assert (forall x (l : list (option nat)), x ∈ take 1 l -> x ∈ l) as Htk.
  { intros x l (i&Hi&_)%elem_of_take. by eapply list_elem_of_lookup_2. }
  assert (current (fsync_dir_effect d w) (tmp_path p) = current w (tmp_path p)) as Hc.
  { unfold current. rewrite history_sync. destruct (bool_decide _); [|done]. by destruct (history w (tmp_path p)) as [|[]]. }
  split; rewrite Hc, history_sync; destruct (bool_decide _); auto.
  - intros j [Hj%Htk|Hj]; apply Hf; auto.
  - intros i Hi Hin%Htk. by eapply Ht.
Qed.

Lemma keeps_call f : (forall w, Inv w -> Inv (f w)) -> keeps (call f).
Proof. intros Hf w Hw. apply wp_call. intros s. split_and!; [apply Hf|..]; exact Hw. Qed.

Lemma keeps_ret {B} (b : B) : keeps (io_ret b).
Proof. by intros w Hw. Qed.

Lemma keeps_bind {B C} (c : io B) (f : B -> io C) : keeps c -> (forall b, keeps (f b)) -> keeps (io_bind c f).
Proof. intros Hc Hf w Hw. apply wp_bind. eapply wp_mono; [by apply Hc|]. intros b w'. apply Hf. Qed.

Lemma keeps_fwrite i bs : keeps (fwrite i bs).
Proof. intros w Hw. apply wp_fwrite. intros s n. split_and!; apply apart_append, Hw. Qed.

Lemma keeps_rename : keeps (rename (tmp_path p) p).
Proof.
  intros w Hw. unfold wp, rename. destruct (current w (tmp_path p)); [|done].
  by apply (keeps_call (rename_effect (tmp_path p) p) apart_rename).
Qed.

Lemma keeps_fopen : keeps (fopen_wb (tmp_path p)).
Proof. apply keeps_bind; [apply keeps_call, apart_create|]. by intros b w Hw. Qed.
End tmp_apart_kept.

Create HintDb keeps.
#[export] Hint Resolve keeps_fwrite keeps_rename keeps_fopen keeps_ret : keeps.
#[export] Hint Resolve apart_unlink apart_fsync apart_sync : keeps.
#[export] Hint Extern 1 (wp (call _) _ _ _) => apply keeps_call; [|assumption] : keeps.

(** [keep] shows that a computation keeps the temporary file apart. *)
Ltac keep := repeat (match goal with
  | |- forall w, _ -> wp (io_bind _ _) _ _ w => apply keeps_bind; [|intros ?]
  | |- forall w, _ -> wp (if ?b then _ else _) _ _ w => destruct b
  | |- forall w, _ -> wp (match ?b with _ => _ end) _ _ w => destruct b end);
  eauto with keeps.

Section write_atomic_keeps.
Context {A : Allocator} (p : path).
Abbreviation keeps c := (forall w, tmp_apart p w -> wp c (fun _ => tmp_apart p) (tmp_apart p) w).

Lemma keeps_discard : keeps (discard p).
Proof. unfold discard, unlink. keep. Qed.

Lemma keeps_fsync_parent q : keeps (fsync_parent q).
Proof. unfold fsync_parent, fsync_dir. keep. Qed.
#[local] Hint Resolve keeps_discard keeps_fsync_parent : keeps.

Lemma keeps_write_atomic bs : keeps (write_atomic p bs).
Proof. unfold write_atomic, finish_tmp, commit_tmp, close_discard, fflush, fsync, fclose. keep. Qed.
End write_atomic_keeps.
#[export] Hint Resolve keeps_discard keeps_fsync_parent keeps_write_atomic : keeps.


(** ** Without failing calls the replacement is carried out *)
Lemma call_nil f w : script w = [] -> call f w = Done true (f w).
Proof. intros Hw. unfold call, next_event. by rewrite Hw. Qed.

Lemma fwrite_nil i bs w : script w = [] -> fwrite i bs w = Done true (append_effect i bs w).
Proof. intros Hw. unfold fwrite, write_call, next_event. by rewrite Hw. Qed.

Lemma rename_nil p w : script w = [] -> is_Some (current w (tmp_path p)) ->
  rename (tmp_path p) p w = Done true (rename_effect (tmp_path p) p w).
Proof. intros Hw [i Hi]. unfold rename. rewrite Hi. by apply call_nil. Qed.

Lemma script_create p w : script (create_effect p w) = script w.
Proof. unfold create_effect. by destruct (current w p). Qed.
Lemma script_append i bs w : script (append_effect i bs w) = script w.
Proof. unfold append_effect. by destruct (inodes w !! i). Qed.
Lemma script_fsync i w : script (fsync_effect i w) = script w.
Proof. unfold fsync_effect. by destruct (inodes w !! i). Qed.
Lemma current_append i bs w p : current (append_effect i bs w) p = current w p.
Proof. unfold append_effect. by destruct (inodes w !! i). Qed.
Lemma current_fsync i w p : current (fsync_effect i w) p = current w p.
Proof. unfold fsync_effect. by destruct (inodes w !! i). Qed.

Lemma current_create p w : is_Some (current (create_effect p w) p).
Proof.
  unfold create_effect. destruct (current w p) eqn:C; unfold current, history in *; cbn in *.
  - by rewrite C.
  - by rewrite lookup_insert_eq.
Qed.

Lemma bind_done {A B} (c : io A) (f : A -> io B) a w w' : c w = Done a w' -> io_bind c f w = f a w'.
Proof. intros H. unfold io_bind. by rewrite H. Qed.

Lemma bind_nil {B} f (k : bool -> io B) w : script w = [] -> io_bind (call f) k w = k true (f w).
Proof. intros H. by apply bind_done, call_nil. Qed.

Lemma fsync_dir_nil d w : script w = [] -> fsync_dir d w = Done true (fsync_dir_effect d w).
Proof. intros Hs. unfold fsync_dir. by rewrite !bind_nil. Qed.
Lemma fsync_parent_nil p w : script w = [] -> fsync_parent p w = Done true (fsync_dir_effect (parent p) w).
Proof. apply fsync_dir_nil. Qed.

Lemma commit_succeeds p w : script w = [] -> is_Some (current w (tmp_path p)) ->
  exists w', commit_tmp (A:=alloc_total) p w = Done (Ok tt) w'.
Proof.
  intros Hs Hi. unfold commit_tmp. erewrite bind_done by (by apply rename_nil). cbn.
  erewrite bind_done by (by apply fsync_parent_nil). by eexists.
Qed.

Lemma finish_succeeds p i w : script w = [] -> is_Some (current w (tmp_path p)) ->
  exists w', finish_tmp (A:=alloc_total) p i w = Done (Ok tt) w'.
Proof.
  intros Hs Hi. unfold finish_tmp, fflush, fsync, fclose.
  erewrite bind_done by (rewrite bind_nil by done; by apply call_nil). cbn [negb].
  rewrite bind_nil by (by rewrite script_fsync).
  apply commit_succeeds; by rewrite ?script_fsync, ?current_fsync.
Qed.

Lemma write_atomic_ok p bs w : script w = [] -> zlen p <= INT_MAX - 4 ->
  exists w', write_atomic (A:=alloc_total) p bs w = Done (Ok tt) w'.
Proof.
  intros Hs Hp. unfold write_atomic. unfold INT_MAX, SIZE_MAX in *.
  destruct (Z.ltb_spec (2 ^ 64 - 1 - 5) (zlen p)); [lia|]. cbn [negb alloc_ok alloc_total].
  destruct (Z.ltb_spec 2147483647 (zlen p + 4)); [lia|].
  unfold fopen_wb. destruct (current_create (tmp_path p) w) as [i Hi].
  erewrite bind_done by (by rewrite bind_nil). rewrite Hi.
  destruct (0 <? zlen bs).
  - erewrite bind_done by (apply fwrite_nil; by rewrite script_create). cbn [negb].
    apply finish_succeeds; rewrite ?script_append, ?current_append, ?script_create, ?Hi; done.
  - apply finish_succeeds; rewrite ?script_create, ?Hi; done.
Qed.

(** ** Main theorems *)

(** However calls fail and wherever the machine stops, [write_atomic] never leaves a
    partial file: on success the name shows exactly the new bytes, now and after any crash;
    after an error or a crash it shows either the complete new bytes or what it could show
    before the call.  The routine always returns a status. *)
Theorem write_atomic_crash_safe {A : Allocator} (p : path) (bs : bytes) (w0 : world) :
  tmp_apart p w0 ->
  match write_atomic p bs w0 with
  | Done (Ok _) w => file_at w p = Some bs /\ (forall v, crash_view w p v -> v = Some bs) /\ tmp_apart p w
  | Done (Err _) w | Crashed w =>
      (forall v, crash_view w p v -> v = Some bs \/ crash_view w0 p v) /\ tmp_apart p w
  | Done Fault _ => False
  end.
Proof.
  intros Ht. pose proof (write_atomic_wp p w0 bs Ht) as H. pose proof (keeps_write_atomic p bs w0 Ht) as K.
  unfold wp in H, K. destruct (write_atomic p bs w0) as [[]|]; cbn in H; [| |done|].
  - split_and!; [by apply durable_file| |done]. intros v. by apply durable_view.
  - split; [|done]. intros v. by apply old_or_new_view.
  - split; [|done]. intros v. by apply old_or_new_view.
Qed.

Definition demo_world (s : list event) : world :=
  World {[0%nat := Inode [1; 2] true]} {[ [97] := [Some 0%nat] ]} 1 s.

Lemma demo_apart s : tmp_apart [97] (demo_world s).
Proof.
  split; intros j.
  - intros [H|H]; [|by vm_compute in H].
    change (history (demo_world s) [97]) with [Some 0%nat] in H.
    apply list_elem_of_singleton in H as [= ->]. cbn. lia.
  - intros H. by vm_compute in H.
Qed.

Lemma write_atomic_crash_safe_witness :
  exists w, write_atomic (A:=alloc_total) [97] [7; 8; 9] (demo_world [Succeed; Crash 2]) = Crashed w /\
    (forall v, crash_view w [97] v -> v = Some [7; 8; 9] \/ crash_view (demo_world [Succeed; Crash 2]) [97] v).
Proof.
  pose proof (write_atomic_crash_safe (A:=alloc_total) [97] [7; 8; 9] (demo_world [Succeed; Crash 2])
    (demo_apart _)) as H.
  destruct (write_atomic (A:=alloc_total) [97] [7; 8; 9] (demo_world [Succeed; Crash 2])) as [[]|w] eqn:E;
    [exfalso; vm_compute in E; discriminate ..|].
  exists w. split; [reflexivity|exact (proj1 H)].
Defined.

(** When no call fails and no allocation fails, [write_atomic] returns [YAP_V2_OK], and
    the new bytes are then durable. *)
Theorem write_atomic_succeeds (p : path) (bs : bytes) (w0 : world) :
  script w0 = [] -> zlen p <= INT_MAX - 4 -> tmp_apart p w0 ->
  exists w, write_atomic (A:=alloc_total) p bs w0 = Done (Ok tt) w /\
    file_at w p = Some bs /\ forall v, crash_view w p v -> v = Some bs.
Proof.
  intros Hs Hp Ht. destruct (write_atomic_ok p bs w0 Hs Hp) as [w E]. exists w. split; [done|].
  pose proof (write_atomic_wp (A:=alloc_total) p w0 bs Ht) as H. unfold wp in H. rewrite E in H. cbn in H.
  split; [by apply durable_file|]. intros v. by apply durable_view.
Qed.

Lemma write_atomic_succeeds_witness :
  exists w, write_atomic (A:=alloc_total) [97] [7; 8; 9] (demo_world []) = Done (Ok tt) w /\
    file_at w [97] = Some [7; 8; 9] /\ forall v, crash_view w [97] v -> v = Some [7; 8; 9].
Proof. apply write_atomic_succeeds; [reflexivity|vm_compute; discriminate|apply demo_apart]. Defined.
