(* ===== verification/Reader.v ===== *)
(** Sequential readers: a block, the length that may be read, and an offset that
    moves forward.  They model [MANIFEST_READER] of yappo_manifest_v2.c and the
    [read_u32]/[read_u64]/[read_bytes_view] family of yappo_segment_v2.c, and carry
    the two judgements every parser of the development is proved with:

    - [parses r a bs]: on bytes [bs], wherever they stand, [r] consumes exactly
      [bs] and yields [a] (completeness of a parser for an encoder);
    - [sound r P]: on any block [r] stays inside it and never moves past the
      limit, and what it yields is related by [P] to the bytes it consumed. *)
From S2P Require Import Prelude Words Types Header.

Definition reader (A : Type) : Type := bytes -> Z -> Z -> result (A * Z).

#[export] Instance reader_ret : MRet reader := fun A a data len off => Ok (a, off).
#[export] Instance reader_bind : MBind reader := fun A B f r data len off =>
  match r data len off with
  | Ok (a, off) => f a data len off
  | Err e => Err e
  | Fault => Fault
  end.

Definition reader_fail {A} (e : YAP_V2_STATUS) : reader A := fun _ _ _ => Err e.

(** A test that ends the parse with [e] when it holds. *)
Definition refuse_if (b : bool) (e : YAP_V2_STATUS) : reader unit :=
  if b then reader_fail e else mret tt.

(** ** yappo_manifest_v2.c *)
Definition reader_take (n : Z) : reader bytes := fun data len off =>
  if (len <? off) || (len - off <? n) then Err YAP_V2_INVALID_FORMAT
  else bs ← load_bytes data off n; Ok (bs, u64 (off + n)).

Definition reader_u32 : reader Z := fun data len off =>
  taken ← reader_take 4 data len off;
  v ← get_u32_le data off; Ok (v, taken.2).

Definition reader_u64 : reader Z := fun data len off =>
  taken ← reader_take 8 data len off;
  v ← get_u64_le data off; Ok (v, taken.2).

(** ** yappo_segment_v2.c *)
Definition read_u32 : reader Z := fun data len off =>
  if (len <? off) || (len - off <? 4) then Err YAP_V2_INVALID_FORMAT
  else v ← get_u32_le data off; Ok (v, u64 (off + 4)).

Definition read_u64 : reader Z := fun data len off =>
  if (len <? off) || (len - off <? 8) then Err YAP_V2_INVALID_FORMAT
  else v ← get_u64_le data off; Ok (v, u64 (off + 8)).

Definition read_bytes_view : reader YAP_V2_BYTES_VIEW := fun data len off =>
  '(length, off) ← read_u32 data len off;
  if u64 (len - off) <? length then Err YAP_V2_INVALID_FORMAT
  else bs ← load_bytes data off length; Ok (BytesView (Some bs) length, u64 (off + length)).

(** [count] elements in sequence. *)
Fixpoint read_list {A} (r : reader A) (count : nat) : reader (list A) :=
  match count with
  | O => mret []
  | S count => a ← r; l ← read_list r count; mret (a :: l)
  end.

(** ** Judgements *)
Definition parses {A} (r : reader A) (a : A) (bs : bytes) : Prop :=
  forall pre post len, bytes_ok (pre ++ bs ++ post) ->
    zlen pre + zlen bs <= len <= zlen (pre ++ bs ++ post) -> len < 2 ^ 64 ->
    r (pre ++ bs ++ post) len (zlen pre) = Ok (a, zlen pre + zlen bs).

Definition sound {A} (r : reader A) (P : A -> bytes -> Prop) : Prop :=
  forall data len off, bytes_ok data -> 0 <= off <= len -> len <= zlen data -> len < 2 ^ 64 ->
    match r data len off with
    | Ok (a, off') => off <= off' <= len /\ P a (slice data off (off' - off))
    | Err _ => True
    | Fault => False
    end.

Section composition.
Context {A B : Type}.

Lemma parses_ret (a : A) : parses (mret a) a [].
Proof. intros pre post len _ _ _. unfold mret, reader_ret. by rewrite zlen_nil, Z.add_0_r. Qed.

Lemma parses_bind (r : reader A) (f : A -> reader B) a b bs bs' :
  parses r a bs -> parses (f a) b bs' -> parses (r ≫= f) b (bs ++ bs').
Proof.
  intros Hr Hf pre post len Hok Hlen Hmax. unfold mbind, reader_bind.
  rewrite <- (assoc_L (++) bs) in *. rewrite Hr; [|done|zl|done].
  specialize (Hf (pre ++ bs) post len). rewrite <- (assoc_L (++) pre), zlen_app in Hf.
  rewrite Hf; [f_equal; f_equal; zl|done|zl|done].
Qed.

Lemma sound_ret (a : A) (P : A -> bytes -> Prop) : P a [] -> sound (mret a) P.
Proof.
  intros H data len off ????. cbn. split; [lia|].
  rewrite Z.sub_diag. unfold slice. by rewrite take_0.
Qed.

Lemma sound_fail e (P : A -> bytes -> Prop) : sound (reader_fail e) P.
Proof. by intros data len off ????. Qed.

Lemma sound_bind (r : reader A) (f : A -> reader B) (P : A -> bytes -> Prop) (Q : B -> bytes -> Prop) :
  sound r P -> (forall a bs, P a bs -> sound (f a) (fun b bs' => Q b (bs ++ bs'))) -> sound (r ≫= f) Q.
Proof.
  intros Hr Hf data len off Hd Ho Hl Hm. unfold mbind, reader_bind.
  specialize (Hr data len off Hd Ho Hl Hm). destruct (r data len off) as [[a o]| |]; [|done..].
  destruct Hr as [Hoff HP]. specialize (Hf a _ HP data len o Hd ltac:(lia) Hl Hm).
  destruct (f a data len o) as [[b o']| |]; [|done..]. destruct Hf as [Ho' HQ]. split; [lia|].
  replace (o' - off) with ((o - off) + (o' - o)) by lia. rewrite slice_split by lia.
  by replace (off + (o - off)) with o by lia.
Qed.

Lemma sound_mono (r : reader A) (P Q : A -> bytes -> Prop) :
  sound r P -> (forall a bs, P a bs -> Q a bs) -> sound r Q.
Proof.
  intros Hr HPQ data len off Hd Ho Hl Hm. specialize (Hr data len off Hd Ho Hl Hm).
  destruct (r data len off) as [[a o]| |]; [|done..]. split; [apply Hr|apply HPQ, Hr].
Qed.
End composition.

Lemma parses_refuse {A} (b : bool) e (k : reader A) a bs :
  b = false -> parses k a bs -> parses (_ ← refuse_if b e; k) a bs.
Proof. intros -> H. by apply (parses_bind _ _ tt _ []); [apply parses_ret|]. Qed.

Lemma sound_refuse {A} (b : bool) e (k : reader A) P :
  (b = false -> sound k P) -> sound (_ ← refuse_if b e; k) P.
Proof.
  intros H. destruct b; [by intros data len off ????|].
  apply (sound_bind _ _ (fun _ bs => bs = [])); [by apply sound_ret|]. intros _ bs ->. by apply H.
Qed.

Lemma parses_list {A B} (r : reader B) (g : A -> B) (enc : A -> bytes) l :
  Forall (fun a => parses r (g a) (enc a)) l -> parses (read_list r (length l)) (g <$> l) (l ≫= enc).
Proof.
  induction 1 as [|a l Ha _ IH]; cbn [read_list length]; [apply parses_ret|].
  change ((a :: l) ≫= enc) with (enc a ++ (l ≫= enc)). rewrite fmap_cons.
  apply (parses_bind _ _ (g a)); [done|].
  rewrite <- (app_nil_r (l ≫= enc)). apply (parses_bind _ _ (g <$> l)); [done|apply parses_ret].
Qed.

Lemma sound_list {A} (r : reader A) (P : A -> bytes -> Prop) n : sound r P ->
  sound (read_list r n) (fun l bs => length l = n /\ exists parts, Forall2 P l parts /\ bs = concat parts).
Proof.
  intros Hr. induction n as [|n IH]; cbn [read_list].
  - apply sound_ret. split; [done|]. by exists [].
  - apply (sound_bind _ _ P); [done|]. intros a bs HP. eapply sound_bind; [exact IH|].
    intros l bs' (Hl&parts&HF&->). apply sound_ret. split; [cbn; lia|].
    exists (bs :: parts). split; [by constructor|]. cbn. by rewrite app_nil_r.
Qed.

(** ** Primitive readers *)

Lemma bytes_ok_outer (pre bs post : bytes) : bytes_ok (pre ++ bs ++ post) -> bytes_ok (pre ++ post).
Proof. rewrite !Forall_app. tauto. Qed.

Lemma reader_take_parses bs : parses (reader_take (zlen bs)) bs bs.
Proof.
  intros pre post len Hok Hl Hm. unfold reader_take. pose_zlen.
  destruct (Z.ltb_spec len (zlen pre)), (Z.ltb_spec (len - zlen pre) (zlen bs)); try lia. cbn [orb].
  by rewrite load_bytes_app, outcome_bind_ok, u64_small by (done || lia).
Qed.

Lemma reader_take_sound n : 0 <= n -> sound (reader_take n) (fun a bs => a = bs /\ zlen bs = n /\ bytes_ok bs).
Proof.
  intros Hn data len off Hd Ho Hl Hm. unfold reader_take.
  destruct (_ || _) eqn:T; [done|]. btests.
  unfold load_bytes. rewrite (proj2 (in_range_true _ _ _)), outcome_bind_ok, u64_small by lia.
  replace (off + n - off) with n by lia. split; [lia|]. split_and!; [done|apply zlen_slice; lia|by apply Forall_slice].
Qed.

Lemma reader_u32_parses v : is_u32 v -> parses reader_u32 v (put_u32_le v).
Proof.
  intros Hv pre post len Hok Hl Hm. unfold reader_u32.
  rewrite (reader_take_parses (put_u32_le v)), outcome_bind_ok by done.
  by rewrite get_u32_le_app by eauto using bytes_ok_outer.
Qed.

Lemma reader_u64_parses v : is_u64 v -> parses reader_u64 v (put_u64_le v).
Proof.
  intros Hv pre post len Hok Hl Hm. unfold reader_u64.
  rewrite (reader_take_parses (put_u64_le v)), outcome_bind_ok by done.
  by rewrite get_u64_le_app by eauto using bytes_ok_outer.
Qed.

(** A little-endian field is determined by its bytes. *)
Definition is_field (put : Z -> bytes) (range : Z -> Prop) (v : Z) (bs : bytes) : Prop :=
  range v /\ bs = put v.

Lemma field_u32 data off : bytes_ok data -> 0 <= off -> off + 4 <= zlen data ->
  get_u32_le (E := YAP_V2_STATUS) data off = Ok (le_dec (slice data off 4)) /\
  is_field put_u32_le is_u32 (le_dec (slice data off 4)) (slice data off 4).
Proof.
  intros. rewrite get_u32_le_dec by done. split; [done|]. split; [by apply le_dec_u32|].
  rewrite put_u32_le_enc. pose proof (zlen_slice data off 4 ltac:(lia) ltac:(lia) ltac:(lia)) as L. unfold zlen in L.
  replace 4%nat with (length (slice data off 4)) by lia. rewrite le_enc_dec; auto with bytes.
Qed.

Lemma field_u64 data off : bytes_ok data -> 0 <= off -> off + 8 <= zlen data ->
  get_u64_le (E := YAP_V2_STATUS) data off = Ok (le_dec (slice data off 8)) /\
  is_field put_u64_le is_u64 (le_dec (slice data off 8)) (slice data off 8).
Proof.
  intros. rewrite get_u64_le_dec by done. split; [done|]. split; [by apply le_dec_u64|].
  rewrite put_u64_le_enc. pose proof (zlen_slice data off 8 ltac:(lia) ltac:(lia) ltac:(lia)) as L. unfold zlen in L.
  replace 8%nat with (length (slice data off 8)) by lia. rewrite le_enc_dec; auto with bytes.
Qed.

Lemma reader_u32_sound : sound reader_u32 (is_field put_u32_le is_u32).
Proof.
  intros data len off Hd Ho Hl Hm. unfold reader_u32, reader_take.
  destruct (_ || _) eqn:T; [done|]. btests.
  unfold load_bytes. rewrite (proj2 (in_range_true _ _ _)), !outcome_bind_ok, u64_small by lia.
  destruct (field_u32 data off) as [-> HF]; [done|lia..|]. cbn.
  replace (off + 4 - off) with 4 by lia. split; [lia|done].
Qed.

Lemma reader_u64_sound : sound reader_u64 (is_field put_u64_le is_u64).
Proof.
  intros data len off Hd Ho Hl Hm. unfold reader_u64, reader_take.
  destruct (_ || _) eqn:T; [done|]. btests.
  unfold load_bytes. rewrite (proj2 (in_range_true _ _ _)), !outcome_bind_ok, u64_small by lia.
  destruct (field_u64 data off) as [-> HF]; [done|lia..|]. cbn.
  replace (off + 8 - off) with 8 by lia. split; [lia|done].
Qed.

(** The readers of the segment code behave as those of the manifest code on every block
    that holds the bytes the length promises. *)
Lemma read_u32_eq data len off : 0 <= off -> len <= zlen data ->
  read_u32 data len off = reader_u32 data len off.
Proof.
  intros Ho Hl. unfold read_u32, reader_u32, reader_take, load_bytes.
  destruct (_ || _) eqn:T; [done|]. btests.
  by rewrite (proj2 (in_range_true _ _ _)) by lia.
Qed.

Lemma read_u64_eq data len off : 0 <= off -> len <= zlen data ->
  read_u64 data len off = reader_u64 data len off.
Proof.
  intros Ho Hl. unfold read_u64, reader_u64, reader_take, load_bytes.
  destruct (_ || _) eqn:T; [done|]. btests.
  by rewrite (proj2 (in_range_true _ _ _)) by lia.
Qed.

Lemma read_u32_parses v : is_u32 v -> parses read_u32 v (put_u32_le v).
Proof. intros Hv pre post len ???. rewrite read_u32_eq by zl. by apply reader_u32_parses. Qed.
Lemma read_u64_parses v : is_u64 v -> parses read_u64 v (put_u64_le v).
Proof. intros Hv pre post len ???. rewrite read_u64_eq by zl. by apply reader_u64_parses. Qed.
Lemma read_u32_sound : sound read_u32 (is_field put_u32_le is_u32).
Proof. intros data len off ????. rewrite read_u32_eq by lia. by apply reader_u32_sound. Qed.
Lemma read_u64_sound : sound read_u64 (is_field put_u64_le is_u64).
Proof. intros data len off ????. rewrite read_u64_eq by lia. by apply reader_u64_sound. Qed.

(** A length-prefixed byte string. *)
Definition view_image (bs : bytes) : bytes := put_u32_le (zlen bs) ++ bs.

Lemma read_bytes_view_parses bs : is_u32 (zlen bs) ->
  parses read_bytes_view (BytesView (Some bs) (zlen bs)) (view_image bs).
Proof.
  intros Hv pre post len Hok Hl Hm. unfold read_bytes_view, view_image in *.
  rewrite <- (assoc_L (++) (put_u32_le _)) in *.
  rewrite read_u32_parses by (done || zl). rewrite outcome_bind_ok.
  rewrite u64_small by zl. destruct (Z.ltb_spec (len - (zlen pre + zlen (put_u32_le (zlen bs)))) (zlen bs)); [zl|].
  rewrite (assoc_L (++) pre), load_bytes_app, outcome_bind_ok, u64_small by (done || zl).
  by rewrite zlen_app, Z.add_assoc.
Qed.

Lemma read_bytes_view_sound : sound read_bytes_view
  (fun v bs => exists s, v = BytesView (Some s) (zlen s) /\ is_u32 (zlen s) /\ bytes_ok s /\ bs = view_image s).
Proof.
  intros data len off Hd Ho Hl Hm. unfold read_bytes_view.
  pose proof (read_u32_sound data len off Hd Ho Hl Hm) as HR.
  destruct (read_u32 data len off) as [[n o]| |]; [|done..]. destruct HR as [Ho' [Hn HF]].
  rewrite outcome_bind_ok. rewrite u64_small by lia.
  destruct (Z.ltb_spec (len - o) n); [done|]. unfold is_u32 in Hn.
  unfold load_bytes. rewrite (proj2 (in_range_true _ _ _)), !outcome_bind_ok, u64_small by lia.
  split; [lia|]. exists (slice data o n). rewrite zlen_slice by lia. split_and!; [done|done|by apply Forall_slice|].
  unfold view_image. rewrite zlen_slice, <- HF by lia.
  replace (o + n - off) with ((o - off) + n) by lia. rewrite slice_split by lia.
  by replace (off + (o - off)) with o by lia.
Qed.
