(* ===== verification/ManifestCodec.v ===== *)
(** The manifest file format: the parser and the encoder of
    src/src/storage/yappo_manifest_v2.c, the comparison of descriptors and the
    map from identifiers to segments.

    The encoder fills a buffer of unspecified content that was sized beforehand;
    writing outside it is a [Fault].  The parser reads an arbitrary block. *)
From S2P Require Import Prelude Words Types Crc Header SlotTable Manifest Reader.

Definition YAP_V2_MANIFEST_PAYLOAD_VERSION : Z := 1.
Definition YAP_V2_MANIFEST_PAYLOAD_HEADER_BYTES : Z := 40.
Definition YAP_V2_MANIFEST_SEGMENT_FIXED_BYTES : Z := 32.
Definition YAP_V2_MANIFEST_COMPONENT_FIXED_BYTES : Z := 56.
Definition YAP_V2_MAX_MANIFEST_BYTES : Z := 128 * 1024 * 1024.

(** ** Descriptors *)
Definition component_differs (a b : YAP_V2_COMPONENT_DESCRIPTOR) : bool :=
  negb (bool_decide (name a = name b)) || negb (component_type a =? component_type b) ||
  negb (record_count a =? record_count b) || negb (file_bytes a =? file_bytes b) ||
  negb (bool_decide (checksum a = checksum b)).

(** The loop over [left->components], reading [right->components] at the same index. *)
Fixpoint components_equal (l r : list YAP_V2_COMPONENT_DESCRIPTOR) : bool :=
  match l, r with
  | [], _ => true
  | a :: l, b :: r => if component_differs a b then false else components_equal l r
  | _ :: _, [] => false
  end.

Definition YAP_V2_segment_descriptor_equal (left right : option YAP_V2_SEGMENT_DESCRIPTOR) : bool :=
  match left, right with
  | Some l, Some r =>
      if negb (bool_decide (id l = id r)) || negb (document_count l =? document_count r) ||
         negb (passage_count l =? passage_count r) || negb (tombstone_count l =? tombstone_count r) ||
         negb (zlen (components l) =? zlen (components r))
      then false else components_equal (components l) (components r)
  | _, _ => false
  end.

(** ** The segment map *)
Record YAP_V2_MANIFEST_SEGMENT_MAP := SegmentMap {
  map_manifest : option YAP_V2_MANIFEST;
  map_slots : option (list Z);
  map_capacity : Z }.

Definition YAP_V2_manifest_segment_map_init : YAP_V2_MANIFEST_SEGMENT_MAP := SegmentMap None None 0.

(** The identifier hash of yappo_manifest_v2.c. *)
Definition segment_id_hash (value : bytes) : Z :=
  foldl (fun hash c => u64 (Z.lxor hash c * 1099511628211)) 1469598103934665603 value.

Section coding.
Context {A : Allocator}.

(** The map it leaves behind, with the status. *)
Definition YAP_V2_manifest_segment_map_build (manifest : option YAP_V2_MANIFEST)
  : YAP_V2_MANIFEST_SEGMENT_MAP * result unit :=
  match manifest with
  | None => (YAP_V2_manifest_segment_map_init, Err YAP_V2_INVALID_ARGUMENT)
  | Some m =>
  if segment_count m =? 0 then (SegmentMap (Some m) None 0, Ok tt)
  else if SIZE_MAX / 2 <? segment_count m then (SegmentMap (Some m) None 0, Err YAP_V2_OUT_OF_RANGE)
  else
    match grow_capacity 60 true 1 (u64 (segment_count m * 2)) with
    | Err e => (SegmentMap (Some m) None 0, Err e)
    | Fault => (SegmentMap (Some m) None 0, Fault)
    | Ok cap =>
        if alloc_ok (cap * 8) then
          match table_fill (segment_ids m) (replicate (Z.to_nat cap) 0) cap 0 (segment_ids m) with
          | Ok (Some slots) => (SegmentMap (Some m) (Some slots) cap, Ok tt)
          | Ok None => (YAP_V2_manifest_segment_map_init, Err YAP_V2_CONFLICT)
          | Err e => (SegmentMap (Some m) None 0, Err e)
          | Fault => (SegmentMap (Some m) None 0, Fault)
          end
        else (SegmentMap None None 0, Err YAP_V2_ALLOCATION_FAILED)
    end
  end.

(** The segment index. *)
Definition YAP_V2_manifest_segment_map_find (map : YAP_V2_MANIFEST_SEGMENT_MAP) (segment_id : option bytes)
  : result Z :=
  match segment_id with
  | None => Err YAP_V2_INVALID_ARGUMENT
  | Some s =>
  match map_manifest map with
  | None => Err YAP_V2_NOT_FOUND
  | Some m =>
      if map_capacity map =? 0 then Err YAP_V2_NOT_FOUND
      else
        match map_slots map with
        | None => Fault
        | Some slots =>
            found ← table_find (segment_ids m) slots (map_capacity map) s;
            match found with Some i => Ok i | None => Err YAP_V2_NOT_FOUND end
        end
  end
  end.

(** ** The parser *)
Definition lift {B} (r : result B) : reader B := fun _ _ off =>
  b ← r; Ok (b, off).

Definition parse_component : reader YAP_V2_COMPONENT_DESCRIPTOR :=
  name_bytes ← reader_u32;
  file_type ← reader_u32;
  record_count ← reader_u64;
  file_bytes ← reader_u64;
  checksum ← reader_take 32;
  _ ← refuse_if ((name_bytes =? 0) || (YAP_V2_MAX_COMPONENT_NAME_BYTES <? name_bytes)) YAP_V2_INVALID_FORMAT;
  name ← reader_take name_bytes;
  _ ← refuse_if (bool_decide (0 ∈ name)) YAP_V2_INVALID_FORMAT;
  mret (ComponentDescriptor name file_type record_count file_bytes checksum).

Fixpoint parse_components (count : nat) (segment : YAP_V2_SEGMENT_DESCRIPTOR)
  : reader YAP_V2_SEGMENT_DESCRIPTOR :=
  match count with
  | O => mret segment
  | S count =>
  component ← parse_component;
  segment ← lift (YAP_V2_segment_descriptor_add_component (Some segment) (Some component));
  parse_components count segment
  end.

Definition parse_segment : reader YAP_V2_SEGMENT_DESCRIPTOR :=
  id_bytes ← reader_u32;
  component_count ← reader_u32;
  document_count ← reader_u64;
  passage_count ← reader_u64;
  tombstone_count ← reader_u64;
  _ ← refuse_if ((id_bytes =? 0) || (YAP_V2_MAX_IDENTIFIER_BYTES <? id_bytes) || (component_count =? 0) ||
             (YAP_V2_MAX_COMPONENTS <? component_count)) YAP_V2_INVALID_FORMAT;
  id ← reader_take id_bytes;
  _ ← refuse_if (bool_decide (0 ∈ id)) YAP_V2_INVALID_FORMAT;
  parse_components (Z.to_nat component_count)
  (SegmentDescriptor id document_count passage_count tombstone_count []).

(** [YAP_V2_manifest_add_segment] on the manifest being parsed. *)
Definition add_parsed (parsed : YAP_V2_MANIFEST) (segment : YAP_V2_SEGMENT_DESCRIPTOR) : result YAP_V2_MANIFEST :=
  let '(parsed, status) := YAP_V2_manifest_add_segment parsed (Some segment) in
  _ ← status; Ok parsed.

Fixpoint parse_segments (count : nat) (parsed : YAP_V2_MANIFEST) : reader YAP_V2_MANIFEST :=
  match count with
  | O => mret parsed
  | S count =>
  segment ← parse_segment;
  parsed ← lift (add_parsed parsed segment);
  parse_segments count parsed
  end.

Definition parse_payload (header : YAP_V2_FILE_HEADER) : reader YAP_V2_MANIFEST :=
  payload_version ← reader_u32;
  segment_count ← reader_u32;
  fingerprint ← reader_take 32;
  _ ← refuse_if (negb (payload_version =? YAP_V2_MANIFEST_PAYLOAD_VERSION) ||
             (YAP_V2_MAX_SEGMENTS <? segment_count)) YAP_V2_INVALID_FORMAT;
  parse_segments (Z.to_nat segment_count)
  (Manifest YAP_V2_FORMAT_VERSION (generation header) fingerprint [] 0 None 0).

(** [YAP_V2_manifest_load] behind the reading of the file. *)
Definition manifest_parse (data : bytes) : result YAP_V2_MANIFEST :=
  let file_size := zlen data in
  header ← YAP_V2_file_header_decode (Some data);
  if negb (file_type header =? YAP_V2_FILE_MANIFEST) ||
 negb (payload_bytes header =? file_size - YAP_V2_FILE_HEADER_BYTES)
  then Err YAP_V2_INVALID_FORMAT
  else
  payload ← load_bytes data YAP_V2_FILE_HEADER_BYTES (payload_bytes header);
  if negb (manifest_crc32c payload =? payload_crc32c header) then Err YAP_V2_CHECKSUM_MISMATCH
  else
  '(parsed, offset) ← parse_payload header payload (file_size - YAP_V2_FILE_HEADER_BYTES) 0;
  if negb (offset =? file_size - YAP_V2_FILE_HEADER_BYTES) then Err YAP_V2_INVALID_FORMAT
  else _ ← YAP_V2_manifest_validate (Some parsed); Ok parsed.
End coding.

(** ** The encoder *)
Definition add_size (total additional : Z) : result Z :=
  if SIZE_MAX - total <? additional then Err YAP_V2_OUT_OF_RANGE else Ok (u64 (total + additional)).

Fixpoint components_size (cs : list YAP_V2_COMPONENT_DESCRIPTOR) (total : Z) : result Z :=
  match cs with
  | [] => Ok total
  | c :: cs =>
      total ← add_size total (u64 (YAP_V2_MANIFEST_COMPONENT_FIXED_BYTES + zlen (name c)));
      components_size cs total
  end.

Fixpoint segments_size (segs : list YAP_V2_SEGMENT_DESCRIPTOR) (total : Z) : result Z :=
  match segs with
  | [] => Ok total
  | s :: segs =>
      total ← add_size total (u64 (YAP_V2_MANIFEST_SEGMENT_FIXED_BYTES + zlen (id s)));
      total ← components_size (components s) total;
      segments_size segs total
  end.

Definition manifest_payload_size (m : YAP_V2_MANIFEST) : result Z :=
  total ← segments_size (segments m) YAP_V2_MANIFEST_PAYLOAD_HEADER_BYTES;
  if YAP_V2_MAX_MANIFEST_BYTES - YAP_V2_FILE_HEADER_BYTES <? total then Err YAP_V2_OUT_OF_RANGE
  else Ok total.

(** A write at [payload + offset] that moves [offset] behind it. *)
Definition put (bs : bytes) (st : bytes * Z) : result (bytes * Z) :=
  let '(file_data, offset) := st in
  file_data ← store_bytes file_data (YAP_V2_FILE_HEADER_BYTES + offset) bs;
  Ok (file_data, offset + zlen bs).

Definition encode_component (c : YAP_V2_COMPONENT_DESCRIPTOR) (st : bytes * Z) : result (bytes * Z) :=
  st ← put (put_u32_le (u32 (zlen (name c)))) st;
  st ← put (put_u32_le (component_type c)) st;
  st ← put (put_u64_le (record_count c)) st;
  st ← put (put_u64_le (file_bytes c)) st;
  st ← put (checksum c) st;
  put (name c) st.

Fixpoint encode_components (cs : list YAP_V2_COMPONENT_DESCRIPTOR) (st : bytes * Z) : result (bytes * Z) :=
  match cs with
  | [] => Ok st
  | c :: cs => st ← encode_component c st; encode_components cs st
  end.

Definition encode_segment (s : YAP_V2_SEGMENT_DESCRIPTOR) (st : bytes * Z) : result (bytes * Z) :=
  st ← put (put_u32_le (u32 (zlen (id s)))) st;
  st ← put (put_u32_le (u32 (zlen (components s)))) st;
  st ← put (put_u64_le (document_count s)) st;
  st ← put (put_u64_le (passage_count s)) st;
  st ← put (put_u64_le (tombstone_count s)) st;
  st ← put (id s) st;
  encode_components (components s) st.

Fixpoint encode_segments (segs : list YAP_V2_SEGMENT_DESCRIPTOR) (st : bytes * Z) : result (bytes * Z) :=
  match segs with
  | [] => Ok st
  | s :: segs => st ← encode_segment s st; encode_segments segs st
  end.

Definition encode_manifest (m : YAP_V2_MANIFEST) (file_data : bytes) (file_size : Z) : result bytes :=
  st ← put (put_u32_le YAP_V2_MANIFEST_PAYLOAD_VERSION) (file_data, 0);
  st ← put (put_u32_le (u32 (segment_count m))) st;
  st ← put (config_fingerprint m) st;
  '(file_data, offset) ← encode_segments (segments m) st;
  if negb (offset =? file_size - YAP_V2_FILE_HEADER_BYTES) then Err YAP_V2_CONFLICT
  else
  payload ← load_bytes file_data YAP_V2_FILE_HEADER_BYTES offset;
  YAP_V2_file_header_encode
    (Some (FileHeader YAP_V2_FORMAT_VERSION YAP_V2_FILE_HEADER_BYTES YAP_V2_FILE_MANIFEST
             (manifest_generation m) offset (manifest_crc32c payload)))
    (Some file_data).

(** ** Specification: the image of a manifest *)
Definition component_image (c : YAP_V2_COMPONENT_DESCRIPTOR) : bytes :=
  put_u32_le (zlen (name c)) ++ put_u32_le (component_type c) ++ put_u64_le (record_count c) ++
  put_u64_le (file_bytes c) ++ checksum c ++ name c.

Definition segment_image (s : YAP_V2_SEGMENT_DESCRIPTOR) : bytes :=
  put_u32_le (zlen (id s)) ++ put_u32_le (zlen (components s)) ++ put_u64_le (document_count s) ++
  put_u64_le (passage_count s) ++ put_u64_le (tombstone_count s) ++ id s ++
  (components s ≫= component_image).

Definition manifest_payload (m : YAP_V2_MANIFEST) : bytes :=
  put_u32_le YAP_V2_MANIFEST_PAYLOAD_VERSION ++ put_u32_le (segment_count m) ++
  config_fingerprint m ++ (segments m ≫= segment_image).

Definition manifest_header (m : YAP_V2_MANIFEST) : YAP_V2_FILE_HEADER :=
  FileHeader YAP_V2_FORMAT_VERSION YAP_V2_FILE_HEADER_BYTES YAP_V2_FILE_MANIFEST
    (manifest_generation m) (zlen (manifest_payload m)) (manifest_crc32c (manifest_payload m)).

Definition manifest_image (m : YAP_V2_MANIFEST) : bytes :=
  header_image (manifest_header m) ++ manifest_payload m.

(** The values the C types can hold. *)
Definition component_wf (c : YAP_V2_COMPONENT_DESCRIPTOR) : Prop :=
  bytes_ok (name c) /\ c_string (name c) /\ is_u32 (component_type c) /\ is_u64 (record_count c) /\
  is_u64 (file_bytes c) /\ bytes_ok (checksum c) /\ zlen (checksum c) = 32.

Definition segment_wf (s : YAP_V2_SEGMENT_DESCRIPTOR) : Prop :=
  bytes_ok (id s) /\ c_string (id s) /\ is_u64 (document_count s) /\ is_u64 (passage_count s) /\
  is_u64 (tombstone_count s) /\ Forall component_wf (components s).

Definition manifest_wf (m : YAP_V2_MANIFEST) : Prop :=
  is_u64 (manifest_generation m) /\ bytes_ok (config_fingerprint m) /\ zlen (config_fingerprint m) = 32 /\
  Forall segment_wf (segments m).

(** Two manifests with the same content; their tables and capacities may differ. *)
Definition manifest_equiv (m m' : YAP_V2_MANIFEST) : Prop :=
  same_content m m' /\ segments m' = segments m.

#[export] Instance manifest_equiv_equivalence : Equivalence manifest_equiv.
Proof.
  unfold manifest_equiv, same_content. split; [repeat split|intros m m'; intuition congruence|].
  intros m1 m2 m3. intuition congruence.
Qed.

#[export] Instance manifest_image_proper : Proper (manifest_equiv ==> eq) manifest_image.
Proof.
  intros m m' ((_&Hg&Hf)&Hs).
  unfold manifest_image, manifest_header, manifest_payload, segment_count. by rewrite Hg, Hf, Hs.
Qed.

#[export] Instance manifest_valid_proper : Proper (manifest_equiv ==> iff) manifest_valid.
Proof.
  intros m m' ((Hv&Hg&Hf)&Hs). unfold manifest_valid, segment_ids, segment_count. by rewrite Hv, Hg, Hf, Hs.
Qed.

(** ** Descriptors are compared completely *)
Lemma component_differs_false a b : component_differs a b = false <-> a = b.
Proof.
  unfold component_differs. rewrite !orb_false_iff, !negb_false_iff, !bool_decide_eq_true, !Z.eqb_eq.
  destruct a, b; cbn. intuition congruence.
Qed.

Lemma components_equal_spec l r : length l = length r -> components_equal l r = true <-> l = r.
Proof.
  revert r; induction l as [|a l IH]; intros [|b r] Hl; try done. cbn [components_equal].
  injection Hl as Hl. specialize (IH r Hl). destruct (component_differs a b) eqn:D.
  - split; [done|]. intros [= -> ->]. by rewrite (proj2 (component_differs_false b b)) in D.
  - apply component_differs_false in D as ->. rewrite IH. split; congruence.
Qed.

Lemma segment_descriptor_equal_spec l r :
  YAP_V2_segment_descriptor_equal (Some l) (Some r) = true <-> l = r.
Proof.
  unfold YAP_V2_segment_descriptor_equal. destruct (_ || _) eqn:T.
  - split; [done|]. intros ->. by rewrite bool_decide_true, !Z.eqb_refl in T.
  - btests. rewrite components_equal_spec by (unfold zlen in *; lia). destruct l, r; cbn in *.
    split; [|congruence]. intros ->. congruence.
Qed.

(** ** The segment map *)
Lemma segment_id_hash_eq s : segment_id_hash s = manifest_segment_hash s.
Proof. done. Qed.

Section segment_map.
Context {A : Allocator}.

(** A built map finds exactly the segments of the manifest, at their positions. *)
Definition map_ok (m : YAP_V2_MANIFEST) (map : YAP_V2_MANIFEST_SEGMENT_MAP) : Prop :=
  (forall i s, segments m !! i = Some s ->
 YAP_V2_manifest_segment_map_find map (Some (id s)) = Ok (Z.of_nat i)) /\
  (forall x, x ∉ segment_ids m ->
 YAP_V2_manifest_segment_map_find map (Some x) = Err YAP_V2_NOT_FOUND).

Lemma map_ok_table m slots cap : table_inv cap slots (segment_ids m) ->
  map_ok m (SegmentMap (Some m) (Some slots) cap).
Proof.
  intros HI. unfold map_ok, YAP_V2_manifest_segment_map_find; cbn.
  destruct (Z.eqb_spec cap 0) as [->|_].
  { destruct (inv_cap _ _ _ HI) as (k&?&?). pose proof (Z.pow_pos_nonneg 2 k). lia. }
  split.
  - intros i s Hi. rewrite (table_find_hit _ _ _ i); [done|done|].
  unfold segment_ids. by rewrite list_lookup_fmap, Hi.
  - intros x Hx. by rewrite table_find_miss.
Qed.

Lemma segment_map_build_spec m : segment_count m <= YAP_V2_MAX_SEGMENTS ->
  let '(map, r) := YAP_V2_manifest_segment_map_build (Some m) in
  (r = Err YAP_V2_ALLOCATION_FAILED /\ exists n, alloc_ok n = false) \/
  (if decide (NoDup (segment_ids m)) then r = Ok tt /\ map_ok m map
 else r = Err YAP_V2_CONFLICT /\ map = YAP_V2_manifest_segment_map_init).
Proof.
  intros Hm. unfold YAP_V2_manifest_segment_map_build, segment_count, YAP_V2_MAX_SEGMENTS in *.
  pose proof (zlen_nonneg (segments m)).
  destruct (Z.eqb_spec (zlen (segments m)) 0) as [E|E].
  { right. assert (segments m = []) as E' by (destruct (segments m); [done|unfold zlen in E; cbn in E; lia]).
  unfold segment_ids. rewrite E', decide_True by constructor. split; [done|]. split; [|done].
  intros i s. by rewrite E', lookup_nil. }
  change (SIZE_MAX / 2) with (2 ^ 63 - 1). destruct (Z.ltb_spec (2 ^ 63 - 1) (zlen (segments m))); [lia|].
  rewrite u64_small by lia. destruct (grow_capacity_table true (zlen (segments m))) as (k&Hk&->&Hn&_); [lia|].
  destruct (alloc_ok _) eqn:HA; [|left; eauto].
  pose proof (table_build_spec k (segment_ids m) Hk) as HB. unfold segment_ids in HB at 1. rewrite zlen_fmap in HB.
  specialize (HB ltac:(lia)). destruct (decide (NoDup (segment_ids m))); [|rewrite HB; by right].
  destruct HB as (slots&->&HI). right. split; [done|]. by apply map_ok_table.
Qed.
End segment_map.

(** ** The parser accepts the images *)
Lemma component_ok_name c : component_ok c -> 1 <= zlen (name c) <= YAP_V2_MAX_COMPONENT_NAME_BYTES.
Proof.
  unfold component_ok, component_refused, YAP_V2_MAX_COMPONENT_NAME_BYTES. intros H. btests.
  pose proof (zlen_nonneg (name c)). lia.
Qed.

Lemma parses_lift {B} (r : result B) b : r = Ok b -> parses (lift r) b [].
Proof. intros -> pre post len _ _ _. unfold lift. by rewrite outcome_bind_ok, zlen_nil, Z.add_0_r. Qed.

(** [parses_step] reads the next piece of an image. *)
Ltac parses_step :=
  lazymatch goal with
  | |- parses (_ ← refuse_if _ _; _) _ _ => apply parses_refuse
  | |- parses (reader_u32 ≫= _) _ _ => eapply parses_bind; [apply reader_u32_parses; try done|]
  | |- parses (reader_u64 ≫= _) _ _ => eapply parses_bind; [apply reader_u64_parses; try done|]
  | |- parses (reader_take _ ≫= _) _ _ => eapply parses_bind; [apply reader_take_parses|]
  end.

Lemma parses_take_last {B} bs (f : bytes -> reader B) b :
  parses (f bs) b [] -> parses (reader_take (zlen bs) ≫= f) b bs.
Proof. intros H. rewrite <- (app_nil_r bs) at 2. eapply parses_bind; [apply reader_take_parses|done]. Qed.

Lemma parse_component_parses c : component_wf c -> component_ok c ->
  parses parse_component c (component_image c).
Proof.
  intros (Hn&Hz&?&?&?&?&Hl) Hok. apply component_ok_name in Hok. unfold YAP_V2_MAX_COMPONENT_NAME_BYTES in *.
  unfold parse_component, component_image, YAP_V2_MAX_COMPONENT_NAME_BYTES. rewrite <- Hl.
  assert (is_u32 (zlen (name c))) by (unfold is_u32; lia). do 5 parses_step.
  parses_step; [apply orb_false_iff; split; [apply Z.eqb_neq|apply Z.ltb_ge]; lia|].
  apply (parses_take_last (name c)).
  parses_step; [by apply bool_decide_eq_false|]. destruct c. apply parses_ret.
Qed.

Definition with_components (s : YAP_V2_SEGMENT_DESCRIPTOR) (cs : list YAP_V2_COMPONENT_DESCRIPTOR) :=
  SegmentDescriptor (id s) (document_count s) (passage_count s) (tombstone_count s) cs.

Lemma components_ok_prefix cs ds : components_ok (cs ++ ds) -> components_ok cs.
Proof.
  unfold components_ok. rewrite !fmap_app, Forall_app, !NoDup_app, zlen_app.
  pose proof (zlen_nonneg ds). intuition lia.
Qed.

Lemma parse_components_parses cs s :
  components_ok (components s ++ cs) -> Forall component_wf cs ->
  parses (parse_components (length cs) s) (with_components s (components s ++ cs)) (cs ≫= component_image).
Proof.
  revert s; induction cs as [|c cs IH]; intros s Hok Hwf; cbn [parse_components length].
  - rewrite app_nil_r. destruct s. apply parses_ret.
  - apply Forall_cons in Hwf as [Hc Hcs].
    change (c :: cs) with ([c] ++ cs) in Hok |- *. rewrite (assoc_L (++)) in Hok |- *.
    pose proof (components_ok_prefix _ _ Hok) as (_&Hcok&?&?&?)%components_ok_snoc.
    change (([c] ++ cs) ≫= component_image) with (component_image c ++ (cs ≫= component_image)).
    eapply parses_bind; [by apply parse_component_parses|].
    apply (parses_bind _ _ (with_components s (components s ++ [c])) _ []).
    + by apply parses_lift, add_component_ok.
    + apply (IH (with_components s (components s ++ [c]))); done.
Qed.

Lemma parse_segment_parses s : segment_wf s -> segment_ok s -> parses parse_segment s (segment_image s).
Proof.
  intros (?&Hz&?&?&?&Hcs) ([Hi _]&Hne&Hok). unfold parse_segment, segment_image.
  pose proof Hok as (_&Hl&_). pose proof (zlen_nonneg (components s)).
  assert (zlen (components s) <> 0) by (intros E; apply Hne; destruct (components s); [done|zl]).
  unfold YAP_V2_MAX_IDENTIFIER_BYTES, YAP_V2_MAX_COMPONENTS in *.
  assert (is_u32 (zlen (id s))) by (unfold is_u32; lia).
  assert (is_u32 (zlen (components s))) by (unfold is_u32; lia).
  do 5 parses_step.
  parses_step; [rewrite !orb_false_iff, !Z.eqb_neq, !Z.ltb_ge; lia|].
  parses_step. parses_step; [by apply bool_decide_eq_false|].
  pose proof (parse_components_parses (components s)
    (SegmentDescriptor (id s) (document_count s) (passage_count s) (tombstone_count s) []) Hok Hcs) as HP.
  unfold zlen. rewrite Nat2Z.id. by destruct s.
Qed.

Section manifest_parser.
Context {A : Allocator}.

(** Segments parsed after [m]: what [add_parsed] did to [m]. *)
Definition extends (m m' : YAP_V2_MANIFEST) (segs : list YAP_V2_SEGMENT_DESCRIPTOR) : Prop :=
  same_content m m' /\ segments m' = segments m ++ segs /\ manifest_inv m'.

Lemma extends_trans m1 m2 m3 l k : extends m1 m2 l -> extends m2 m3 k -> extends m1 m3 (l ++ k).
Proof.
  intros ((?&?&?)&E1&_) ((?&?&?)&E2&?). unfold extends, same_content. rewrite E2, E1, (assoc_L (++)).
  intuition congruence.
Qed.

Lemma add_parsed_spec m s : manifest_inv m -> c_string (id s) ->
  (add_parsed m s = Err YAP_V2_ALLOCATION_FAILED /\ exists n, alloc_ok n = false) \/
  match abs_add (segments m) s with
  | Ok _ => exists m', add_parsed m s = Ok m' /\ extends m m' [s]
  | Err e => add_parsed m s = Err e
  | Fault => False
  end.
Proof.
  intros HI Hc. unfold add_parsed, YAP_V2_manifest_add_segment.
  destruct (add_segment m s) as [m' r] eqn:E.
  destruct (add_segment_refines m s m' r HI Hc E) as (HI'&Hs&[(->&_&HA)|H]); [by left|right].
  unfold abs_add in *. repeat case_match; try done; destruct H as [-> Hsegs]; try done.
  exists m'. rewrite outcome_bind_ok. split; [done|]. unfold extends. simplify_eq. done.
Qed.

Lemma parse_segments_parses segs m : (forall n, alloc_ok n = true) ->
  manifest_inv m -> Forall segment_wf segs -> Forall segment_ok segs ->
  NoDup (id <$> (segments m ++ segs)) -> zlen (segments m ++ segs) <= YAP_V2_MAX_SEGMENTS ->
  exists m', parses (parse_segments (length segs) m) m' (segs ≫= segment_image) /\ extends m m' segs.
Proof.
  intros HA. revert m; induction segs as [|s segs IH]; intros m HI Hwf Hok HN HL; cbn [parse_segments length].
  - exists m. split; [apply parses_ret|]. unfold extends, same_content. by rewrite app_nil_r.
  - apply Forall_cons in Hwf as [Hs Hwf], Hok as [Hsok Hok].
  change (s :: segs) with ([s] ++ segs) in *. rewrite (assoc_L (++)) in HN, HL.
  destruct (add_parsed_spec m s HI) as [[_ [n Hn]]|H]; [by apply Hs|by rewrite HA in Hn|].
  unfold abs_add in H. rewrite decide_True in H by apply Hsok.
  destruct (Z.leb_spec YAP_V2_MAX_SEGMENTS (zlen (segments m))); [zl|].
  rewrite decide_False in H; [destruct H as (m1&E&Hx)|].
  2: { rewrite !fmap_app in HN. apply NoDup_app in HN as [HN _].
     apply NoDup_app in HN as (_&HN&_). intros Hin. by apply (HN _ Hin), list_elem_of_here. }
  pose proof Hx as (_&Hseg&HI1). destruct (IH m1) as (m2&HP&Hx2); [done..|by rewrite Hseg|by rewrite Hseg|].
  exists m2. split; [|by eapply extends_trans].
  change (([s] ++ segs) ≫= segment_image) with (segment_image s ++ (segs ≫= segment_image)).
  eapply parses_bind; [by apply parse_segment_parses|].
  apply (parses_bind _ _ m1 _ []); [by apply parses_lift|done].
Qed.

(** ** The parser is sound on every block *)
Lemma sound_lift {B} (r : result B) (P : B -> bytes -> Prop) :
  r <> Fault -> (forall b, r = Ok b -> P b []) -> sound (lift r) P.
Proof.
  intros HF HP data len off ????. unfold lift. destruct r as [b| |]; [|done..].
  rewrite outcome_bind_ok. split; [lia|]. rewrite Z.sub_diag. unfold slice. rewrite take_0. by apply HP.
Qed.

Lemma parse_component_sound : sound parse_component (fun c bs => component_wf c /\ bs = component_image c).
Proof.
  unfold parse_component.
  eapply sound_bind; [apply reader_u32_sound|]. intros nb ? [Hnb ->].
  eapply sound_bind; [apply reader_u32_sound|]. intros ty ? [Hty ->].
  eapply sound_bind; [apply reader_u64_sound|]. intros rc ? [Hrc ->].
  eapply sound_bind; [apply reader_u64_sound|]. intros fb ? [Hfb ->].
  eapply sound_bind; [by apply reader_take_sound|]. intros ck ? (->&Hck&?).
  apply sound_refuse. intros _.
  eapply sound_bind; [apply reader_take_sound, Hnb|]. intros nm ? (->&<-&?).
  apply sound_refuse. intros Hz%bool_decide_eq_false. apply sound_ret.
  split; [done|]. unfold component_image; cbn. by rewrite app_nil_r.
Qed.

Lemma parse_components_sound n s :
  sound (parse_components n s) (fun s' bs => exists cs, s' = with_components s (components s ++ cs) /\
  length cs = n /\ Forall component_wf cs /\ bs = cs ≫= component_image).
Proof.
  revert s; induction n as [|n IH]; intros s; cbn [parse_components].
  - apply sound_ret. exists []. rewrite app_nil_r. by destruct s.
  - eapply sound_bind; [apply parse_component_sound|]. intros c ? [Hc ->].
  apply (sound_bind _ _ (fun s' bs => s' = with_components s (components s ++ [c]) /\ bs = [])).
  + apply sound_lift.
  * unfold YAP_V2_segment_descriptor_add_component. by repeat case_match.
  * intros s' (_&_&_&_&->)%add_component_ok. done.
  + intros s' ? [-> ->]. eapply sound_mono; [apply IH|]. cbn.
  intros s' bs (cs&->&<-&Hcs&->). exists (c :: cs).
  rewrite <- (assoc_L (++)). unfold with_components; cbn. split_and!; try done. by constructor.
Qed.

Lemma parse_segment_sound : sound parse_segment (fun s bs => segment_wf s /\ bs = segment_image s).
Proof.
  unfold parse_segment.
  eapply sound_bind; [apply reader_u32_sound|]. intros ib ? [Hib ->].
  eapply sound_bind; [apply reader_u32_sound|]. intros cc ? [Hcc ->].
  eapply sound_bind; [apply reader_u64_sound|]. intros dc ? [Hdc ->].
  eapply sound_bind; [apply reader_u64_sound|]. intros pc ? [Hpc ->].
  eapply sound_bind; [apply reader_u64_sound|]. intros tc ? [Htc ->].
  apply sound_refuse. intros _.
  eapply sound_bind; [apply reader_take_sound, Hib|]. intros i ? (->&<-&?).
  apply sound_refuse. intros Hz%bool_decide_eq_false.
  eapply sound_mono; [apply parse_components_sound|].
  intros s bs' (cs&->&Hl&Hcs&->). split; [done|].
  unfold segment_image, with_components; cbn. assert (zlen cs = cc) as -> by (unfold zlen; rewrite Hl; apply Z2Nat.id, Hcc). done.
Qed.

Lemma parse_segments_sound n m : manifest_inv m ->
  sound (parse_segments n m) (fun m' bs => exists segs, extends m m' segs /\ length segs = n /\
  Forall segment_wf segs /\ bs = segs ≫= segment_image).
Proof.
  revert m; induction n as [|n IH]; intros m HI; cbn [parse_segments].
  - apply sound_ret. exists []. unfold extends, same_content. by rewrite app_nil_r.
  - eapply sound_bind; [apply parse_segment_sound|]. intros s ? [Hs ->].
  pose proof (add_parsed_spec m s HI (proj1 (proj2 Hs))) as HP.
  apply (sound_bind _ _ (fun m' bs => extends m m' [s] /\ bs = [])).
  + apply sound_lift.
  * destruct HP as [[-> _]|HP]; [done|]. destruct (abs_add _ _); [|by rewrite HP|done].
    by destruct HP as (?&->&_).
  * intros m' E. split; [|done]. destruct HP as [[HP _]|HP]; [congruence|].
    destruct (abs_add _ _); [|congruence|done]. destruct HP as (?&HP&?). congruence.
  + intros m' ? [Hx ->]. eapply sound_mono; [apply IH, Hx|].
  intros m'' bs (segs&Hx'&<-&Hsegs&->). exists (s :: segs). split_and!; try done.
  * by apply (extends_trans _ _ _ [s] segs Hx).
  * by constructor.
Qed.
End manifest_parser.

Lemma fresh_manifest_inv g fp : manifest_inv (Manifest YAP_V2_FORMAT_VERSION g fp [] 0 None 0).
Proof. split; cbn; [unfold segment_count, YAP_V2_MAX_SEGMENTS; cbn; unfold zlen; cbn; lia|constructor|by left]. Qed.

Lemma bytes_ok_bind {B} (f : B -> bytes) l : Forall (fun b => bytes_ok (f b)) l -> bytes_ok (l ≫= f).
Proof. induction 1; cbn; [constructor|]. by apply Forall_app_2. Qed.

Lemma component_image_ok c : component_wf c -> bytes_ok (component_image c).
Proof. intros (?&?&?&?&?&?&?). unfold component_image. bok. Qed.

Lemma segment_image_ok s : segment_wf s -> bytes_ok (segment_image s).
Proof.
  intros (?&?&?&?&?&Hc). unfold segment_image. assert (bytes_ok (components s ≫= component_image)).
  { apply bytes_ok_bind. eapply Forall_impl; [exact Hc|]. apply component_image_ok. }
  bok.
Qed.

Lemma manifest_payload_ok m : manifest_wf m -> bytes_ok (manifest_payload m).
Proof.
  intros (?&?&?&Hs). unfold manifest_payload. assert (bytes_ok (segments m ≫= segment_image)).
  { apply bytes_ok_bind. eapply Forall_impl; [exact Hs|]. apply segment_image_ok. }
  bok.
Qed.

Lemma manifest_image_ok m : manifest_wf m -> bytes_ok (manifest_image m).
Proof. intros H%manifest_payload_ok. apply Forall_app_2; auto with bytes. Qed.

Lemma zlen_manifest_image m : zlen (manifest_image m) = 32 + zlen (manifest_payload m).
Proof. unfold manifest_image. by rewrite zlen_app, zlen_header_image. Qed.

Lemma manifest_header_fields m : manifest_generation m <> 0 -> header_fields_invalid (manifest_header m) = false.
Proof. intros H. unfold header_fields_invalid; cbn. by apply Z.eqb_neq. Qed.

Lemma manifest_header_valid m : manifest_wf m -> manifest_generation m <> 0 ->
  zlen (manifest_payload m) < 2 ^ 64 -> header_valid (manifest_header m).
Proof.
  intros (Hg&_) Hn Hl. split; [|by apply manifest_header_fields].
  unfold header_wf, manifest_header; cbn. pose proof (zlen_nonneg (manifest_payload m)).
  split_and!; try done.
  rewrite manifest_crc32c_eq. apply crc32c_is_u32.
Qed.

Lemma wf_c_strings segs : Forall segment_wf segs -> Forall (fun s => c_string (id s)) segs.
Proof. intros H. eapply Forall_impl; [exact H|]. by intros s (?&?&?). Qed.

(** ** Parsing a file *)
Section manifest_file_parser.
Context {A : Allocator}.

Lemma parse_payload_parses h m : (forall n, alloc_ok n = true) ->
  manifest_wf m -> manifest_valid m -> generation h = manifest_generation m ->
  exists m', parses (parse_payload h) m' (manifest_payload m) /\ manifest_equiv m m' /\ manifest_inv m'.
Proof.
  intros HA (?&?&Hfp&Hwf) (Hv&_&Hcnt&_&Hok&HN) Hg.
  destruct (parse_segments_parses (segments m)
  (Manifest YAP_V2_FORMAT_VERSION (generation h) (config_fingerprint m) [] 0 None 0)) as (m'&HP&Hx);
  [done|apply fresh_manifest_inv|done..|].
  exists m'. destruct Hx as (Hs&Hsegs&HI). cbn in Hsegs. split; [|split; [|done]].
  2: { unfold manifest_equiv, same_content in *; cbn in *. intuition congruence. }
  unfold parse_payload, manifest_payload. rewrite <- Hfp.
  unfold segment_count, YAP_V2_MAX_SEGMENTS in *. pose proof (zlen_nonneg (segments m)).
  assert (is_u32 (zlen (segments m))) by (unfold is_u32; lia). do 3 parses_step.
  parses_step; [rewrite orb_false_iff, Z.ltb_ge; split; [done|lia]|].
  unfold zlen. by rewrite Nat2Z.id.
Qed.

Lemma parse_payload_sound h : is_u64 (generation h) ->
  sound (parse_payload h) (fun m bs => bs = manifest_payload m /\ manifest_wf m /\ manifest_inv m /\
  manifest_generation m = generation h /\ manifest_version m = YAP_V2_FORMAT_VERSION).
Proof.
  intros Hg. unfold parse_payload.
  eapply sound_bind; [apply reader_u32_sound|]. intros pv ? [Hpv ->].
  eapply sound_bind; [apply reader_u32_sound|]. intros sc ? [Hsc ->].
  eapply sound_bind; [by apply reader_take_sound|]. intros fp ? (->&Hfp&?).
  apply sound_refuse. intros Ht. btests.
  eapply sound_mono; [apply parse_segments_sound, fresh_manifest_inv|].
  intros m ? (segs&((Hv&Hgm&Hf)&Hs&HI)&Hl&Hwf&->). cbn in *. subst pv.
  split; [|unfold manifest_wf; rewrite Hs, Hf, Hgm; done].
  unfold manifest_payload, segment_count. rewrite Hs, Hf.
  assert (zlen segs = sc) as -> by (unfold zlen; rewrite Hl; apply Z2Nat.id, Hsc). done.
Qed.

Lemma manifest_parse_complete m : (forall n, alloc_ok n = true) ->
  manifest_wf m -> manifest_valid m -> zlen (manifest_image m) < 2 ^ 64 ->
  exists m', manifest_parse (manifest_image m) = Ok m' /\ manifest_equiv m m' /\ manifest_inv m'.
Proof.
  intros HA Hwf Hval Hl. rewrite zlen_manifest_image in Hl.
  destruct (parse_payload_parses (manifest_header m) m HA Hwf Hval eq_refl) as (m'&HP&He&HI).
  exists m'. split; [|done]. unfold manifest_parse. pose proof (manifest_payload_ok m Hwf) as Hp.
  cbv zeta. rewrite zlen_manifest_image.
  change (manifest_image m) with (header_image (manifest_header m) ++ manifest_payload m).
  rewrite file_header_decode_image, outcome_bind_ok by (done || (apply manifest_header_valid; [done|apply (proj1 (proj2 Hval))|lia])).
  change (file_type (manifest_header m) =? YAP_V2_FILE_MANIFEST) with true.
  change (payload_bytes (manifest_header m)) with (zlen (manifest_payload m)).
  change YAP_V2_FILE_HEADER_BYTES with 32.
  replace (32 + zlen (manifest_payload m) - 32) with (zlen (manifest_payload m)) by lia.
  rewrite Z.eqb_refl. cbn [negb orb].
  rewrite <- (app_nil_r (manifest_payload m)) at 1.
  rewrite load_bytes_app, outcome_bind_ok by done.
  change (payload_crc32c (manifest_header m)) with (manifest_crc32c (manifest_payload m)).
  rewrite Z.eqb_refl. cbn [negb].
  specialize (HP [] [] (zlen (manifest_payload m))). cbn [app] in HP. rewrite app_nil_r in HP.
  rewrite zlen_nil in HP. rewrite HP, outcome_bind_ok by (done || lia). rewrite Z.add_0_l.
  rewrite Z.eqb_refl. cbn [negb].
  assert (YAP_V2_manifest_validate (Some m') = Ok tt) as ->; [|done].
  apply manifest_validate_iff; [done| |by rewrite <- He].
  rewrite (proj2 He). apply wf_c_strings, Hwf.
Qed.

(** Whatever is accepted is a valid manifest, and the block is exactly its image. *)
Lemma manifest_parse_sound data : bytes_ok data -> 32 <= zlen data < 2 ^ 64 ->
  match manifest_parse data with
  | Ok m => data = manifest_image m /\ manifest_wf m /\ manifest_valid m /\ manifest_inv m
  | Err _ => True
  | Fault => False
  end.
Proof.
  intros Hd Hl. unfold manifest_parse. pose proof (file_header_decode_safe data Hd ltac:(lia)) as HF.
  destruct (YAP_V2_file_header_decode (Some data)) as [h| |] eqn:HD; [|done..]. rewrite outcome_bind_ok.
  destruct (file_header_decode_inv data h Hd ltac:(lia) HD) as [[Hwf Hfi] Himg].
  destruct (_ || _) eqn:T; [done|]. btests. unfold YAP_V2_FILE_HEADER_BYTES in *.
  unfold load_bytes. rewrite (proj2 (in_range_true _ _ _)), outcome_bind_ok by lia.
  destruct (negb _) eqn:TC; [done|]. btests.
  assert (slice data 32 (payload_bytes h) = drop 32 data) as Hs.
  { unfold slice. apply take_ge. rewrite length_drop. unfold zlen in *. lia. }
  rewrite Hs in *.
  pose proof (parse_payload_sound h ltac:(apply Hwf) (drop 32 data) (zlen data - 32) 0) as HP.
  destruct (parse_payload _ _ _ _) as [[m o]| |]; [| |apply HP; [by apply Forall_drop|zl..]].
  2: done.
  destruct HP as [Ho HP]; [by apply Forall_drop|zl..|]. rewrite outcome_bind_ok. cbn [fst snd].
  destruct (negb (o =? _)) eqn:TO; [done|]. btests. subst o.
  rewrite Z.sub_0_r in HP. replace (zlen data - 32) with (zlen (drop 32 data)) in HP by zl.
  rewrite slice_all in HP. destruct HP as (Epl&Hmwf&HI&Hmg&Hmv).
  destruct (manifest_validate_spec m) as [[-> _]|HV]; [|done|].
  { apply wf_c_strings, Hmwf. }
  pose proof (manifest_validate_safe m) as HVS.
  destruct (YAP_V2_manifest_validate (Some m)) as [[]| |] eqn:EV; cbn; [|done..].
  split_and!; [|done|by apply HV|done].
  rewrite <- (take_drop 32 data), Himg, Epl at 1. unfold manifest_image.
  enough (h = manifest_header m) as -> by done.
  unfold manifest_header. rewrite <- Epl, Hmg, TC. unfold header_fields_invalid in Hfi.
  destruct h; cbn in H, H0, Hfi |- *. btests. f_equal; zl.
Qed.
End manifest_file_parser.

(** ** The encoder writes the image *)

(** [f] writes [bs] behind what was written, when the buffer has room for it. *)
Definition writes (f : bytes * Z -> result (bytes * Z)) (bs : bytes) : Prop :=
  forall hd w tail, zlen hd = YAP_V2_FILE_HEADER_BYTES -> zlen bs <= zlen tail ->
    f (hd ++ w ++ tail, zlen w) = Ok (hd ++ (w ++ bs) ++ drop (length bs) tail, zlen (w ++ bs)).

Lemma writes_put bs : writes (put bs) bs.
Proof.
  intros hd w tail Hh Ht. unfold put. rewrite (assoc_L (++) hd), store_bytes_next by (done || zl).
  rewrite outcome_bind_ok. f_equal. f_equal; [by rewrite <- !(assoc_L (++))|zl].
Qed.

Lemma writes_nil : writes Ok [].
Proof. intros hd w tail _ _. by rewrite !app_nil_r, drop_0. Qed.

Lemma writes_seq f g a b : writes f a -> writes g b -> writes (fun st => st ← f st; g st) (a ++ b).
Proof.
  intros Hf Hg hd w tail Hh Ht. rewrite Hf by (done || zl). rewrite outcome_bind_ok.
  rewrite Hg; [|done|unfold zlen in *; rewrite length_drop, length_app in *; lia].
  rewrite drop_drop, length_app. by rewrite !(assoc_L (++)).
Qed.

Lemma u32_small x : 0 <= x < 2 ^ 32 -> u32 x = x.
Proof. intros. unfold u32. by apply Z.mod_small. Qed.

(** Every piece of an image is written by one [put]. *)
Ltac writes_steps := repeat (apply writes_seq; [apply writes_put|]).

Lemma encode_component_writes c : component_ok c -> writes (encode_component c) (component_image c).
Proof.
  intros Hc%component_ok_name. unfold encode_component, component_image, YAP_V2_MAX_COMPONENT_NAME_BYTES in *.
  rewrite u32_small by lia. writes_steps. apply writes_put.
Qed.

Lemma encode_components_writes cs : Forall component_ok cs ->
  writes (encode_components cs) (cs ≫= component_image).
Proof.
  induction 1; cbn [encode_components]; [apply writes_nil|].
  apply writes_seq; [by apply encode_component_writes|done].
Qed.

Lemma encode_segment_writes s : segment_ok s -> writes (encode_segment s) (segment_image s).
Proof.
  intros ([Hi _]&_&Hc&Hl&_). unfold encode_segment, segment_image.
  unfold YAP_V2_MAX_IDENTIFIER_BYTES, YAP_V2_MAX_COMPONENTS in *. pose proof (zlen_nonneg (components s)).
  rewrite !u32_small by lia. writes_steps. by apply encode_components_writes.
Qed.

Lemma encode_segments_writes segs : Forall segment_ok segs ->
  writes (encode_segments segs) (segs ≫= segment_image).
Proof.
  induction 1; cbn [encode_segments]; [apply writes_nil|].
  apply writes_seq; [by apply encode_segment_writes|done].
Qed.

Lemma encode_manifest_image m file_data : manifest_valid m ->
  zlen file_data = zlen (manifest_image m) ->
  encode_manifest m file_data (zlen file_data) = Ok (manifest_image m).
Proof.
  intros (_&Hg&Hn&_&Hs&_) Hl. rewrite zlen_manifest_image in Hl.
  rewrite <- (take_drop 32 file_data). set (hd := take 32 file_data). set (tail := drop 32 file_data).
  assert (zlen hd = YAP_V2_FILE_HEADER_BYTES /\ zlen tail = zlen (manifest_payload m)) as [Hh Ht].
  { subst hd tail. unfold zlen in *. rewrite length_take, length_drop. unfold YAP_V2_FILE_HEADER_BYTES. lia. }
  assert (writes (fun st => st ← put (put_u32_le YAP_V2_MANIFEST_PAYLOAD_VERSION) st;
      st ← put (put_u32_le (u32 (segment_count m))) st; st ← put (config_fingerprint m) st;
      encode_segments (segments m) st) (manifest_payload m)) as HW.
  { unfold manifest_payload. unfold segment_count, YAP_V2_MAX_SEGMENTS in *.
    pose proof (zlen_nonneg (segments m)). rewrite u32_small by lia. writes_steps.
    by apply encode_segments_writes. }
  specialize (HW hd [] tail Hh ltac:(lia)). cbn [app] in HW. rewrite zlen_nil in HW.
  rewrite (drop_ge tail), app_nil_r in HW by (unfold zlen in Ht; lia).
  unfold encode_manifest.
  transitivity ('(file_data, offset) ← (Ok (hd ++ manifest_payload m, zlen (manifest_payload m)) : result _);
    if negb (offset =? zlen (hd ++ tail) - YAP_V2_FILE_HEADER_BYTES) then Err YAP_V2_CONFLICT
    else payload ← load_bytes file_data YAP_V2_FILE_HEADER_BYTES offset;
    YAP_V2_file_header_encode
      (Some (FileHeader YAP_V2_FORMAT_VERSION YAP_V2_FILE_HEADER_BYTES YAP_V2_FILE_MANIFEST
             (manifest_generation m) offset (manifest_crc32c payload))) (Some file_data)).
  { rewrite <- HW. destruct (put _ _) as [st1| |]; [|done..]. cbn. destruct (put _ st1) as [st2| |]; [|done..]. cbn.
    by destruct (put _ st2). }
  rewrite outcome_bind_ok. rewrite zlen_app, Hh, Ht.
  rewrite (proj2 (Z.eqb_eq _ _)) by lia. cbn [negb].
  rewrite <- (app_nil_r (manifest_payload m)) at 1.
  rewrite load_bytes_app, outcome_bind_ok by (done || lia).
  by apply (file_header_encode_image (manifest_header m)); [apply manifest_header_fields|].
Qed.

(** ** The size computed beforehand *)
Lemma add_size_spec t a : 0 <= t <= SIZE_MAX -> 0 <= a ->
  add_size t a = if t + a <=? SIZE_MAX then Ok (t + a) else Err YAP_V2_OUT_OF_RANGE.
Proof.
  unfold add_size, SIZE_MAX. intros Ht Ha.
  destruct (Z.ltb_spec (2 ^ 64 - 1 - t) a), (Z.leb_spec (t + a) (2 ^ 64 - 1)); try lia; [done|].
  by rewrite u64_small by lia.
Qed.

Lemma zlen_component_image c : component_wf c -> zlen (component_image c) = 56 + zlen (name c).
Proof. intros (_&_&_&_&_&_&H). unfold component_image. autorewrite with zlen. lia. Qed.

Lemma components_size_spec cs t : 0 <= t <= SIZE_MAX -> Forall component_wf cs -> Forall component_ok cs ->
  components_size cs t = if t + zlen (cs ≫= component_image) <=? SIZE_MAX
    then Ok (t + zlen (cs ≫= component_image)) else Err YAP_V2_OUT_OF_RANGE.
Proof.
  intros Ht Hwf. revert t Ht; induction Hwf as [|c cs Hc Hcs IH]; intros t Ht Hok; cbn [components_size].
  - cbn. rewrite zlen_nil, Z.add_0_r. by rewrite (proj2 (Z.leb_le _ _)) by lia.
  - apply Forall_cons in Hok as [Ho Hos]. pose proof (component_ok_name c Ho).
    unfold YAP_V2_MAX_COMPONENT_NAME_BYTES, YAP_V2_MANIFEST_COMPONENT_FIXED_BYTES in *.
    change ((c :: cs) ≫= component_image) with (component_image c ++ (cs ≫= component_image)).
    rewrite u64_small, add_size_spec by lia. rewrite zlen_app, zlen_component_image by done.
    pose proof (zlen_nonneg (cs ≫= component_image)).
    destruct (Z.leb_spec (t + (56 + zlen (name c))) SIZE_MAX).
    + rewrite outcome_bind_ok, IH by (done || lia). by rewrite <- !Z.add_assoc.
    + by rewrite (proj2 (Z.leb_gt _ _)) by lia.
Qed.

Lemma zlen_segment_image s :
  zlen (segment_image s) = (32 + zlen (id s)) + zlen (components s ≫= component_image).
Proof. unfold segment_image. autorewrite with zlen. lia. Qed.

Lemma segments_size_spec segs t : 0 <= t <= SIZE_MAX -> Forall segment_wf segs -> Forall segment_ok segs ->
  segments_size segs t = if t + zlen (segs ≫= segment_image) <=? SIZE_MAX
    then Ok (t + zlen (segs ≫= segment_image)) else Err YAP_V2_OUT_OF_RANGE.
Proof.
  intros Ht Hwf. revert t Ht; induction Hwf as [|s segs Hs Hsegs IH]; intros t Ht Hok; cbn [segments_size].
  - cbn. rewrite zlen_nil, Z.add_0_r. by rewrite (proj2 (Z.leb_le _ _)) by lia.
  - apply Forall_cons in Hok as [Ho Hos]. pose proof Ho as ([Hi _]&_&Hco&_). pose proof Hs as (_&_&_&_&_&Hcw).
    unfold YAP_V2_MAX_IDENTIFIER_BYTES, YAP_V2_MANIFEST_SEGMENT_FIXED_BYTES in *.
    change ((s :: segs) ≫= segment_image) with (segment_image s ++ (segs ≫= segment_image)).
    rewrite u64_small, add_size_spec by lia. rewrite zlen_app, zlen_segment_image.
    pose proof (zlen_nonneg (segs ≫= segment_image)). pose proof (zlen_nonneg (components s ≫= component_image)).
    destruct (Z.leb_spec (t + (32 + zlen (id s))) SIZE_MAX);
      [|by rewrite (proj2 (Z.leb_gt _ _)) by lia].
    rewrite outcome_bind_ok, components_size_spec by (done || lia).
    destruct (Z.leb_spec (t + (32 + zlen (id s)) + zlen (components s ≫= component_image)) SIZE_MAX);
      [|by rewrite (proj2 (Z.leb_gt _ _)) by lia].
    rewrite outcome_bind_ok, IH by (done || lia). by rewrite <- !Z.add_assoc.
Qed.

Lemma manifest_payload_size_spec m : manifest_wf m -> manifest_valid m ->
  manifest_payload_size m =
    if zlen (manifest_image m) <=? YAP_V2_MAX_MANIFEST_BYTES then Ok (zlen (manifest_payload m))
    else Err YAP_V2_OUT_OF_RANGE.
Proof.
  intros (_&_&Hf&Hwf) (_&_&_&_&Hok&_). unfold manifest_payload_size, YAP_V2_MANIFEST_PAYLOAD_HEADER_BYTES.
  rewrite segments_size_spec by (done || (unfold SIZE_MAX; lia)).
  assert (zlen (manifest_payload m) = 40 + zlen (segments m ≫= segment_image)) as Hp.
  { unfold manifest_payload. rewrite !zlen_app, !zlen_put_u32_le, Hf. lia. }
  rewrite zlen_manifest_image, Hp. pose proof (zlen_nonneg (segments m ≫= segment_image)).
  unfold YAP_V2_MAX_MANIFEST_BYTES, YAP_V2_FILE_HEADER_BYTES, SIZE_MAX.
  destruct (Z.leb_spec (40 + zlen (segments m ≫= segment_image)) (2 ^ 64 - 1)) as [H1|H1].
  - rewrite outcome_bind_ok. destruct (Z.ltb_spec (128 * 1024 * 1024 - 32) (40 + zlen (segments m ≫= segment_image))).
    + by rewrite (proj2 (Z.leb_gt _ _)) by lia.
    + by rewrite (proj2 (Z.leb_le _ _)) by lia.
  - by rewrite (proj2 (Z.leb_gt _ _)) by lia.
Qed.

(** ** Corruption of the payload *)
Lemma manifest_parse_corrupt {A : Allocator} m a x y c :
  manifest_wf m -> manifest_valid m -> zlen (manifest_image m) < 2 ^ 64 ->
  manifest_payload m = a ++ x ++ c -> bytes_ok y -> length y = length x -> (length x <= 4)%nat -> x <> y ->
  manifest_parse (header_image (manifest_header m) ++ a ++ y ++ c) = Err YAP_V2_CHECKSUM_MISMATCH.
Proof.
  intros Hwf Hval Hl Ep Hy Hlen H4 Hne. rewrite zlen_manifest_image in Hl.
  pose proof (manifest_payload_ok m Hwf) as Hok. rewrite Ep, !Forall_app in Hok. destruct Hok as (Ha&Hx&Hc).
  assert (zlen (a ++ y ++ c) = zlen (manifest_payload m)) as El
    by (rewrite Ep; unfold zlen; rewrite !length_app; lia).
  assert (bytes_ok (a ++ y ++ c)) by (rewrite !Forall_app; done).
  unfold manifest_parse. cbv zeta.
  rewrite file_header_decode_image, outcome_bind_ok
    by (done || (apply manifest_header_valid; [done|apply (proj1 (proj2 Hval))|lia])).
  rewrite zlen_app, zlen_header_image, El. change YAP_V2_FILE_HEADER_BYTES with 32.
  change (file_type (manifest_header m) =? YAP_V2_FILE_MANIFEST) with true.
  change (payload_bytes (manifest_header m)) with (zlen (manifest_payload m)).
  replace (32 + zlen (manifest_payload m) - 32) with (zlen (manifest_payload m)) by lia.
  rewrite Z.eqb_refl. cbn [negb orb].
  rewrite <- (app_nil_r (a ++ y ++ c)), load_bytes_app, outcome_bind_ok by done.
  change (payload_crc32c (manifest_header m)) with (manifest_crc32c (manifest_payload m)).
  rewrite !manifest_crc32c_eq, Ep. destruct (Z.eqb_spec (crc32c (a ++ y ++ c)) (crc32c (a ++ x ++ c))) as [E|]; [|done].
  exfalso. apply Hne. symmetry. apply (crc32c_burst a y x c); auto with lia.
Qed.

(** ** Main theorems *)

Lemma demo_bytes_ok (l : bytes) : forallb (fun b => (0 <=? b) && (b <? 256)) l = true -> bytes_ok l.
Proof.
  intros H. apply Forall_forall. intros b Hb. apply forallb_forall with (x := b) in H; [|by apply list_elem_of_In].
  btests. done.
Qed.

Lemma demo_manifest_wf : manifest_wf demo_manifest.
Proof.
  split_and!; try done; [by apply demo_bytes_ok|]. repeat constructor; try done; try (by apply demo_bytes_ok);
    intros Hin; repeat (apply elem_of_cons in Hin as [Hin|Hin]; [discriminate|]); by apply not_elem_of_nil in Hin.
Qed.

(** C27: a valid manifest survives the file format.  [encode_manifest] fills a buffer of the
    size [manifest_payload_size] computed, whatever it contained, and the parser returns a
    manifest with the same version, generation, fingerprint and segments. *)
Theorem manifest_roundtrip (m : YAP_V2_MANIFEST) (file_data : bytes) (payload_bytes : Z) :
  manifest_wf m -> manifest_valid m ->
  manifest_payload_size m = Ok payload_bytes -> zlen file_data = YAP_V2_FILE_HEADER_BYTES + payload_bytes ->
  exists encoded parsed,
    encode_manifest m file_data (zlen file_data) = Ok encoded /\ zlen encoded = zlen file_data /\
    manifest_parse (A:=alloc_total) encoded = Ok parsed /\ manifest_equiv m parsed /\ manifest_inv parsed.
Proof.
  intros Hwf Hval Hsize Hl. rewrite manifest_payload_size_spec in Hsize by done.
  destruct (Z.leb_spec (zlen (manifest_image m)) YAP_V2_MAX_MANIFEST_BYTES); [|done]. injection Hsize as <-.
  assert (zlen file_data = zlen (manifest_image m)) as El by (by rewrite zlen_manifest_image).
  destruct (manifest_parse_complete (A:=alloc_total) m) as (m'&HP&He&HI);
    [done..|unfold YAP_V2_MAX_MANIFEST_BYTES in *; lia|].
  exists (manifest_image m), m'. by rewrite encode_manifest_image.
Qed.

Lemma manifest_roundtrip_witness : exists encoded parsed,
  encode_manifest demo_manifest (replicate 169 99) 169 = Ok encoded /\ zlen encoded = 169 /\
  manifest_parse (A:=alloc_total) encoded = Ok parsed /\ manifest_equiv demo_manifest parsed /\
  manifest_inv parsed.
Proof.
  apply (manifest_roundtrip demo_manifest (replicate 169 99) 137);
    [apply demo_manifest_wf|apply demo_manifest_valid|vm_compute; reflexivity|reflexivity].
Defined.

(** On an arbitrary block the manifest parser reads no byte outside it, and what it
    accepts is a valid manifest whose encoding is that very block: a manifest has one file
    representation. *)
Theorem manifest_parse_canonical {A : Allocator} (data : bytes) :
  bytes_ok data -> 32 <= zlen data < 2 ^ 64 ->
  manifest_parse data <> Fault /\
  forall m, manifest_parse data = Ok m ->
    manifest_wf m /\ manifest_valid m /\ manifest_inv m /\
    encode_manifest m (replicate (length data) 0) (zlen data) = Ok data.
Proof.
  intros Hd Hl. pose proof (manifest_parse_sound data Hd Hl) as H.
  destruct (manifest_parse data) as [m| |]; [|done..]. split; [done|]. intros ? [= <-].
  destruct H as (->&Hwf&Hval&HI). split_and!; try done.
  pose proof (encode_manifest_image m (replicate (length (manifest_image m)) 0) Hval) as E.
  rewrite zlen_replicate in E. by apply E.
Qed.

Lemma manifest_parse_canonical_witness :
  manifest_parse (A:=alloc_total) (manifest_image demo_manifest) <> Fault /\
  forall m, manifest_parse (A:=alloc_total) (manifest_image demo_manifest) = Ok m ->
    manifest_wf m /\ manifest_valid m /\ manifest_inv m /\
    encode_manifest m (replicate (length (manifest_image demo_manifest)) 0) (zlen (manifest_image demo_manifest))
      = Ok (manifest_image demo_manifest).
Proof.
  apply manifest_parse_canonical;
    [apply demo_bytes_ok; vm_compute; reflexivity|rewrite zlen_manifest_image; vm_compute; split; [discriminate|reflexivity]].
Defined.

(** The encoder never writes outside the buffer sized by [manifest_payload_size], and the
    size check refuses exactly the manifests whose file would exceed
    [YAP_V2_MAX_MANIFEST_BYTES]. *)
Theorem manifest_size_exact (m : YAP_V2_MANIFEST) (file_data : bytes) :
  manifest_wf m -> manifest_valid m ->
  match manifest_payload_size m with
  | Ok n => 32 + n <= YAP_V2_MAX_MANIFEST_BYTES /\
      (zlen file_data = 32 + n -> exists out, encode_manifest m file_data (32 + n) = Ok out)
  | Err e => e = YAP_V2_OUT_OF_RANGE /\ YAP_V2_MAX_MANIFEST_BYTES < zlen (manifest_image m)
  | Fault => False
  end.
Proof.
  intros Hwf Hval. rewrite manifest_payload_size_spec by done.
  destruct (Z.leb_spec (zlen (manifest_image m)) YAP_V2_MAX_MANIFEST_BYTES) as [H|H]; [|done].
  rewrite zlen_manifest_image in H. split; [done|]. intros El. eexists. rewrite <- El.
  by apply encode_manifest_image; [|rewrite zlen_manifest_image].
Qed.

Lemma manifest_size_exact_witness :
  match manifest_payload_size demo_manifest with
  | Ok n => 32 + n <= YAP_V2_MAX_MANIFEST_BYTES /\
      (zlen (replicate 169 1) = 32 + n -> exists out, encode_manifest demo_manifest (replicate 169 1) (32 + n) = Ok out)
  | Err e => e = YAP_V2_OUT_OF_RANGE /\ YAP_V2_MAX_MANIFEST_BYTES < zlen (manifest_image demo_manifest)
  | Fault => False
  end.
Proof. apply manifest_size_exact; [apply demo_manifest_wf|apply demo_manifest_valid]. Defined.

(** Any corruption of a manifest file confined to four consecutive payload bytes is
    reported as a checksum mismatch. *)
Theorem manifest_corruption_detected {A : Allocator} (m : YAP_V2_MANIFEST) (a x y c : bytes) :
  manifest_wf m -> manifest_valid m -> zlen (manifest_image m) <= YAP_V2_MAX_MANIFEST_BYTES ->
  manifest_payload m = a ++ x ++ c -> bytes_ok y -> length y = length x -> (length x <= 4)%nat -> x <> y ->
  manifest_parse (header_image (manifest_header m) ++ a ++ y ++ c) = Err YAP_V2_CHECKSUM_MISMATCH.
Proof.
  intros Hwf Hval Hl. apply manifest_parse_corrupt; [done..|].
  unfold YAP_V2_MAX_MANIFEST_BYTES in Hl. lia.
Qed.

Lemma manifest_corruption_detected_witness :
  manifest_parse (A:=alloc_total) (header_image (manifest_header demo_manifest) ++
    take 48 (manifest_payload demo_manifest) ++ [200] ++ drop 49 (manifest_payload demo_manifest))
  = Err YAP_V2_CHECKSUM_MISMATCH.
Proof.
  apply (manifest_corruption_detected demo_manifest _ [2]);
    [apply demo_manifest_wf|apply demo_manifest_valid|rewrite zlen_manifest_image; vm_compute; discriminate
    |vm_compute; reflexivity|by apply demo_bytes_ok|reflexivity|cbn; lia|discriminate].
Defined.

(** The segment map either runs out of memory, or reports a conflict exactly when two
    segments share an identifier, or maps every identifier to the position of its segment and
    every other identifier to [YAP_V2_NOT_FOUND]. *)
Theorem segment_map_correct {A : Allocator} (m : YAP_V2_MANIFEST) (map : YAP_V2_MANIFEST_SEGMENT_MAP)
    (r : result unit) :
  segment_count m <= YAP_V2_MAX_SEGMENTS -> YAP_V2_manifest_segment_map_build (Some m) = (map, r) ->
  (r = Err YAP_V2_ALLOCATION_FAILED /\ exists n, alloc_ok n = false) \/
  (r = Err YAP_V2_CONFLICT /\ ~ NoDup (segment_ids m)) \/
  (r = Ok tt /\ NoDup (segment_ids m) /\
   (forall i s, segments m !! i = Some s ->
      YAP_V2_manifest_segment_map_find map (Some (id s)) = Ok (Z.of_nat i)) /\
   (forall x, x ∉ segment_ids m ->
      YAP_V2_manifest_segment_map_find map (Some x) = Err YAP_V2_NOT_FOUND)).
Proof.
  intros Hm E. pose proof (segment_map_build_spec m Hm) as H. rewrite E in H.
  destruct H as [H|H]; [by left|right]. destruct (decide (NoDup (segment_ids m))); [right|left].
  - destruct H as (?&?&?). done.
  - by destruct H as [? _].
Qed.

Lemma segment_map_correct_witness : exists map,
  YAP_V2_manifest_segment_map_find map (Some [115; 101; 103; 45; 49]) = Ok 0.
Proof.
  destruct (YAP_V2_manifest_segment_map_build (A:=alloc_total) (Some demo_manifest)) as [map r] eqn:E.
  destruct (segment_map_correct (A:=alloc_total) demo_manifest map r ltac:(vm_compute; discriminate) E)
    as [[_ [n Hn]]|[[_ HN]|(_&_&Hf&_)]].
  - discriminate Hn.
  - exfalso. apply HN, NoDup_singleton.
  - exists map. apply (Hf 0%nat demo_segment). reflexivity.
Defined.

(** [YAP_V2_segment_descriptor_equal] compares every field: it returns 1 exactly for equal
    descriptors. *)
Theorem segment_descriptor_equal_iff (l r : YAP_V2_SEGMENT_DESCRIPTOR) :
  YAP_V2_segment_descriptor_equal (Some l) (Some r) = true <-> l = r.
Proof. apply segment_descriptor_equal_spec. Qed.
