(* ===== verification/ManifestFile.v ===== *)
(** Loading, saving and publishing the manifest file
    (src/src/storage/yappo_manifest_v2.c, lines 235-340 and 450-604).

    A routine that fills or changes a manifest passed by pointer returns the
    manifest it leaves behind with its status.  The content of a block obtained from
    [malloc] is a parameter. *)
From S2P Require Import Prelude Words Types Crc Header SlotTable Manifest FileSystem Reader ManifestCodec.
#[local] Open Scope io_scope.

Definition LOCK_SUFFIX : bytes := [46; 108; 111; 99; 107].  (* ".lock" *)
Definition lock_path (p : path) : path := p ++ LOCK_SUFFIX.

Section manifest_file.
Context {A : Allocator} (garbage : nat -> Z).

(** An uninitialised block of [n] bytes. *)
Definition malloc_block (n : Z) : bytes := garbage <$> seq 0 (Z.to_nat n).

Definition close_with {B} (r : B) : io B := do* fclose_rb in io_ret r.

Definition YAP_V2_manifest_load (p : option path) (manifest : YAP_V2_MANIFEST)
  : io (YAP_V2_MANIFEST * result unit) :=
  match p with
  | None => io_ret (manifest, Err YAP_V2_INVALID_ARGUMENT)
  | Some p =>
  let* file := fopen_rb p in
  match file with
  | None => io_ret (manifest, Err YAP_V2_IO_ERROR)
  | Some data =>
      let* stat_ok := fstat in
      if negb stat_ok then close_with (manifest, Err YAP_V2_IO_ERROR)
      else if zlen data <? YAP_V2_FILE_HEADER_BYTES + YAP_V2_MANIFEST_PAYLOAD_HEADER_BYTES
      then close_with (manifest, Err YAP_V2_INVALID_FORMAT)
      else if YAP_V2_MAX_MANIFEST_BYTES <? zlen data then close_with (manifest, Err YAP_V2_OUT_OF_RANGE)
      else if negb (alloc_ok (zlen data)) then close_with (manifest, Err YAP_V2_ALLOCATION_FAILED)
      else
      let* read_ok := fread_all in
      if negb read_ok then close_with (manifest, Err YAP_V2_IO_ERROR)
      else
      let* closed := fclose_rb in
      if negb closed then io_ret (manifest, Err YAP_V2_IO_ERROR)
      else
      io_ret match manifest_parse data with
             | Ok parsed => (parsed, Ok tt)
             | Err e => (manifest, Err e)
             | Fault => (manifest, Fault)
             end
  end
  end.

(** [fingerprint] is what [YAP_V2_config_fingerprint] returned for the configuration. *)
Definition YAP_V2_manifest_load_for_config (p : option path) (fingerprint : result bytes)
  (manifest : YAP_V2_MANIFEST) : io (YAP_V2_MANIFEST * result unit) :=
  match p, fingerprint with
  | None, _ => io_ret (manifest, Err YAP_V2_INVALID_ARGUMENT)
  | Some p, Err e => io_ret (manifest, Err e)
  | Some p, Fault => io_ret (manifest, Fault)
  | Some p, Ok fp =>
  let* loaded := YAP_V2_manifest_load (Some p) manifest in
  io_ret match loaded with
         | (m, Ok _) =>
             if negb (bool_decide (fp = config_fingerprint m))
             then (YAP_V2_manifest_free m, Err YAP_V2_CONFLICT) else (m, Ok tt)
         | (m, r) => (m, r)
         end
  end.

(** The encoded file, or the status that ends [YAP_V2_manifest_save_atomic] before it
touches the file system. *)
Definition manifest_file_data (m : YAP_V2_MANIFEST) : result bytes :=
  _ ← YAP_V2_manifest_validate (Some m);
  payload_bytes ← manifest_payload_size m;
  let file_size := YAP_V2_FILE_HEADER_BYTES + payload_bytes in
  if negb (alloc_ok file_size) then Err YAP_V2_ALLOCATION_FAILED
  else encode_manifest m (malloc_block file_size) file_size.

(** [fwrite], [fflush] and [fsync] until one fails, then [fclose] in any case. *)
Definition write_tmp (i : nat) (bs : bytes) : io bool :=
  let* written := (let* written := fwrite i bs in
               if negb written then io_ret false
               else let* flushed := fflush i in
                    if negb flushed then io_ret false else fsync i) in
  let* closed := fclose i in
  io_ret (written && closed).

(** [fsync_parent] first copies the path. *)
Definition sync_parent (p : path) : io bool :=
  if alloc_ok (zlen p + 1) then fsync_parent p else io_ret false.

Definition YAP_V2_manifest_save_atomic (p : option path) (manifest : option YAP_V2_MANIFEST) : io (result unit) :=
  match p, manifest with
  | Some p, Some m =>
  match manifest_file_data m with
  | Err e => io_ret (Err e)
  | Fault => io_ret Fault
  | Ok file_data =>
      if SIZE_MAX - 5 <? zlen p then io_ret (Err YAP_V2_OUT_OF_RANGE)
      else if negb (alloc_ok (zlen p + 5)) then io_ret (Err YAP_V2_ALLOCATION_FAILED)
      else
      let* file := fopen_wb (tmp_path p) in
      match file with
      | None => io_ret (Err YAP_V2_IO_ERROR)
      | Some i =>
          let* written := write_tmp i file_data in
          let* done := (if negb written then io_ret false
                        else let* renamed := rename (tmp_path p) p in
                             if negb renamed then io_ret false else sync_parent p) in
          if negb done then do* unlink (tmp_path p) in io_ret (Err YAP_V2_IO_ERROR)
          else io_ret (Ok tt)
      end
  end
  | _, _ => io_ret (Err YAP_V2_INVALID_ARGUMENT)
  end.

(** Run [body] under the exclusive lock on the lock file of [p]; [on_error] is what the
caller's manifest is when the lock is not obtained. *)
Definition with_lock (p : path) (on_error : YAP_V2_MANIFEST)
  (body : io (YAP_V2_MANIFEST * result unit)) : io (YAP_V2_MANIFEST * result unit) :=
  if SIZE_MAX - 6 <? zlen p then io_ret (on_error, Err YAP_V2_OUT_OF_RANGE)
  else if negb (alloc_ok (zlen p + 6)) then io_ret (on_error, Err YAP_V2_ALLOCATION_FAILED)
  else
  let* opened := open_creat (lock_path p) in
  if negb opened then io_ret (on_error, Err YAP_V2_IO_ERROR)
  else
  let* locked := flock in
  if negb locked then do* close_lock in io_ret (on_error, Err YAP_V2_IO_ERROR)
  else
  let* r := body in
  do* flock in
  let* closed := close_lock in
  io_ret match r with
     | (m, Ok _) => (m, if closed : bool then Ok tt else Err YAP_V2_IO_ERROR)
     | (m, s) => (m, s)
     end.

(** The manifest on disk under the lock; a missing file counts as generation 0. *)
Definition load_current (p : path) : io (YAP_V2_MANIFEST * result unit) :=
  let* loaded := YAP_V2_manifest_load (Some p) YAP_V2_manifest_init in
  match loaded with
  | (current, Err YAP_V2_IO_ERROR) =>
  let* missing := access_enoent p in
  io_ret (if missing : bool then (set_generation current 0, Ok tt) else (current, Err YAP_V2_IO_ERROR))
  | r => io_ret r
  end.

Definition publish_next_locked (p : path) (manifest : YAP_V2_MANIFEST) : io (YAP_V2_MANIFEST * result unit) :=
  let* loaded := load_current p in
  match loaded with
  | (current, Ok _) =>
  if (0 <? manifest_generation current) &&
     negb (bool_decide (config_fingerprint current = config_fingerprint manifest))
  then io_ret (manifest, Err YAP_V2_CONFLICT)
  else if manifest_generation current =? UINT64_MAX then io_ret (manifest, Err YAP_V2_OUT_OF_RANGE)
  else
  let manifest := set_generation manifest (u64 (manifest_generation current + 1)) in
  let* status := YAP_V2_manifest_save_atomic (Some p) (Some manifest) in
  io_ret (manifest, status)
  | (_, r) => io_ret (manifest, r)
  end.

Definition YAP_V2_manifest_publish_next (p : option path) (manifest : YAP_V2_MANIFEST)
  : io (YAP_V2_MANIFEST * result unit) :=
  match p with
  | None => io_ret (manifest, Err YAP_V2_INVALID_ARGUMENT)
  | Some p => with_lock p manifest (publish_next_locked p manifest)
  end.

Definition publish_if_generation_locked (p : path) (expected_generation : Z) (manifest : YAP_V2_MANIFEST)
  : io (YAP_V2_MANIFEST * result unit) :=
  let* loaded := YAP_V2_manifest_load (Some p) YAP_V2_manifest_init in
  match loaded with
  | (current, Ok _) =>
  if negb (manifest_generation current =? expected_generation) then io_ret (manifest, Err YAP_V2_CONFLICT)
  else if negb (bool_decide (config_fingerprint current = config_fingerprint manifest))
  then io_ret (manifest, Err YAP_V2_CONFLICT)
  else
  let manifest := set_generation manifest (u64 (expected_generation + 1)) in
  let* status := YAP_V2_manifest_save_atomic (Some p) (Some manifest) in
  io_ret (manifest, status)
  | (_, r) => io_ret (manifest, r)
  end.

Definition YAP_V2_manifest_publish_if_generation (p : option path) (expected_generation : Z)
  (manifest : YAP_V2_MANIFEST) : io (YAP_V2_MANIFEST * result unit) :=
  match p with
  | None => io_ret (manifest, Err YAP_V2_INVALID_ARGUMENT)
  | Some p =>
  if expected_generation =? UINT64_MAX then io_ret (manifest, Err YAP_V2_INVALID_ARGUMENT)
  else with_lock p manifest (publish_if_generation_locked p expected_generation manifest)
  end.
End manifest_file.

(** ** Loading *)

(** Files hold bytes. *)
Definition file_bytes_ok (w : world) (p : path) : Prop := forall data, file_at w p = Some data -> bytes_ok data.

Section load.
Context {A : Allocator}.

(** What [YAP_V2_manifest_load] may return in a state of the file system. *)
Definition load_outcome (w : world) (p : path) (m0 : YAP_V2_MANIFEST) (r : YAP_V2_MANIFEST * result unit) : Prop :=
  match r.2 with
  | Ok _ => exists data, file_at w p = Some data /\
  72 <= zlen data <= YAP_V2_MAX_MANIFEST_BYTES /\ manifest_parse data = Ok r.1
  | Err _ => r.1 = m0
  | Fault => False
  end.

Lemma wp_close_with {B} (r : B) (Q : B -> world -> Prop) (R : world -> Prop) w :
  (forall s, Q r (set_script w s)) -> (forall s, R (set_script w s)) -> wp (close_with r) Q R w.
Proof. intros HQ HR. apply wp_bind, wp_noop; [|done]. intros s b. by apply wp_ret. Qed.

Lemma wp_load p m0 (Q : YAP_V2_MANIFEST * result unit -> world -> Prop) (R : world -> Prop) w :
  file_bytes_ok w p ->
  (forall s r, load_outcome w p m0 r -> Q r (set_script w s)) -> (forall s, R (set_script w s)) ->
  wp (YAP_V2_manifest_load (Some p) m0) Q R w.
Proof.
  intros Hb HQ HR. apply wp_bind, wp_bind, wp_noop; [|done]. intros s ok.
  unfold wp at 1. change (file_at (set_script w s) p) with (file_at w p).
  destruct (if ok then file_at w p else None) as [data|] eqn:F; [|by apply wp_ret, HQ].
  destruct ok; [|done]. specialize (Hb data F).
  apply wp_bind, wp_noop; [|done]. intros s1 ok1.
  destruct ok1; cbn [negb]; [|by apply wp_close_with; [intros; apply HQ|]].
  unfold YAP_V2_FILE_HEADER_BYTES, YAP_V2_MANIFEST_PAYLOAD_HEADER_BYTES.
  destruct (Z.ltb_spec (zlen data) (32 + 40)); [by apply wp_close_with; [intros; apply HQ|]|].
  destruct (Z.ltb_spec YAP_V2_MAX_MANIFEST_BYTES (zlen data)); [by apply wp_close_with; [intros; apply HQ|]|].
  destruct (negb (alloc_ok _)); [by apply wp_close_with; [intros; apply HQ|]|].
  apply wp_bind, wp_noop; [|done]. intros s2 [|]; cbn [negb]; [|by apply wp_close_with; [intros; apply HQ|]].
  apply wp_bind, wp_noop; [|done]. intros s3 [|]; cbn [negb]; [|by apply wp_ret, HQ].
  apply wp_ret, HQ.
  pose proof (manifest_parse_sound data Hb ltac:(unfold YAP_V2_MAX_MANIFEST_BYTES in *; lia)) as HS.
  destruct (manifest_parse data) eqn:E; [|done..]. exists data. split_and!; [done|lia|done|done].
Qed.

Lemma load_outcome_file w p m0 m : file_bytes_ok w p -> load_outcome w p m0 (m, Ok tt) ->
  file_at w p = Some (manifest_image m) /\ manifest_wf m /\ manifest_valid m /\ manifest_inv m.
Proof.
  intros Hb (data&F&Hl&E). specialize (Hb data F).
  pose proof (manifest_parse_sound data Hb ltac:(unfold YAP_V2_MAX_MANIFEST_BYTES in *; lia)) as HS.
  cbn [fst snd] in E. rewrite E in HS. destruct HS as (->&?&?&?). done.
Qed.
End load.

(** ** Saving *)
Section save.
Context {A : Allocator} (garbage : nat -> Z).

Lemma zlen_malloc_block n : 0 <= n -> zlen (malloc_block garbage n) = n.
Proof. intros. unfold malloc_block, zlen. rewrite length_fmap, length_seq. lia. Qed.

(** The file that is written is the image, whatever [malloc] returned. *)
Lemma manifest_file_data_spec m : manifest_wf m ->
  match manifest_file_data garbage m with
  | Ok data => data = manifest_image m /\ manifest_valid m /\ zlen data <= YAP_V2_MAX_MANIFEST_BYTES
  | Err _ => True
  | Fault => False
  end.
Proof.
  intros Hwf. unfold manifest_file_data.
  destruct (manifest_validate_spec m) as [[-> _]|HV]; [apply wf_c_strings, Hwf|done|].
  pose proof (manifest_validate_safe m) as HS.
  destruct (YAP_V2_manifest_validate (Some m)) as [[]| |]; [|done..]. rewrite outcome_bind_ok.
  assert (manifest_valid m) as Hval by (by apply HV).
  rewrite manifest_payload_size_spec by done.
  destruct (Z.leb_spec (zlen (manifest_image m)) YAP_V2_MAX_MANIFEST_BYTES); [|done].
  rewrite outcome_bind_ok. destruct (negb _); [done|].
  pose proof (zlen_nonneg (manifest_payload m)). unfold YAP_V2_FILE_HEADER_BYTES.
  pose proof (zlen_malloc_block (32 + zlen (manifest_payload m)) ltac:(lia)) as Hz.
  pose proof (encode_manifest_image m (malloc_block garbage (32 + zlen (manifest_payload m))) Hval) as E.
  rewrite Hz in E. rewrite E; [done|]. by rewrite zlen_manifest_image.
Qed.

Context (p : path) (w0 : world) (bs : bytes).

Lemma wp_write_tmp i (Q : bool -> world -> Prop) (R : world -> Prop) w :
  staged p (tmp_path p) w0 i (Inode [] false) w ->
  (forall w, staged p (tmp_path p) w0 i (Inode bs true) w -> Q true w) ->
  (forall w, untouched p w0 w -> Q false w) -> (forall w, untouched p w0 w -> R w) ->
  wp (write_tmp i bs) Q R w.
Proof.
  intros Hs HQ HQ' HR.
  assert (forall w, untouched p w0 w -> wp (let* closed := fclose i in io_ret (false && closed)) Q R w) as Hfail.
  { intros w' Hu. apply wp_bind, wp_noop; [|intros; by apply HR]. intros s b. by apply wp_ret, HQ'. }
  apply wp_bind, wp_bind, wp_fwrite. intros s n.
  pose proof (fun b => staged_append p (tmp_path p) w0 i [] false (set_script w s) b Hs) as Hap.
  split_and!; cbn [negb]; [|apply Hfail, (Hap (take n bs))|apply HR, (Hap (take n bs))].
  specialize (Hap bs). apply wp_bind, wp_noop; [|intros; apply HR, Hap].
  intros s1 [|]; cbn [negb]; [|apply Hfail, Hap].
  apply wp_call. intros s2. split_and!; [|apply Hfail, Hap|apply HR, Hap].
  apply (staged_fsync p (tmp_path p) w0 i bs false (set_script (set_script _ s1) s2)) in Hap.
  apply wp_bind, wp_noop; [|intros; apply HR, Hap].
  intros s3 [|]; apply wp_ret; [by apply HQ|apply HQ', Hap].
Qed.

Lemma replaced_unlink w : replaced p w0 bs w -> replaced p w0 bs (unlink_effect (tmp_path p) w).
Proof.
  intros (i&h&Hh&Hc&Hn&Hj). unfold unlink_effect. destruct (current w (tmp_path p)); [|by exists i, h].
  exists i, h. split_and!; [|done..].
  rewrite history_other by (intros E; by apply (tmp_path_ne p)). done.
Qed.

Lemma wp_unlink_failed w : old_or_new p w0 bs w ->
  wp (do* unlink (tmp_path p) in io_ret (Err YAP_V2_IO_ERROR)) (replace_post p w0 bs) (old_or_new p w0 bs) w.
Proof.
  intros H. apply wp_bind, wp_call. intros s. split_and!; [|by apply wp_ret|done].
  apply wp_ret. destruct H as [H|H]; [left; apply untouched_unlink; [apply tmp_path_ne|done]|right; by apply replaced_unlink].
Qed.
End save.

Section save_safe.
Context {A : Allocator} (garbage : nat -> Z) (p : path) (w0 : world) (m : YAP_V2_MANIFEST).

(** What saving leaves: on success the image, durably; otherwise the old or the new file. *)
Lemma save_atomic_wp : manifest_wf m -> tmp_apart p w0 ->
  wp (YAP_V2_manifest_save_atomic garbage (Some p) (Some m))
  (fun r w => replace_post p w0 (manifest_image m) r w /\ (r = Ok tt -> manifest_valid m))
  (old_or_new p w0 (manifest_image m)) w0.
Proof.
  intros Hwf Ht. unfold YAP_V2_manifest_save_atomic.
  pose proof (manifest_file_data_spec garbage m Hwf) as HD.
  destruct (manifest_file_data garbage m) as [data| |]; [|apply wp_ret; split; [by left|done]|done].
  destruct HD as (->&Hval&_).
  assert (forall r w, replace_post p w0 (manifest_image m) r w ->
  replace_post p w0 (manifest_image m) r w /\ (r = Ok tt -> manifest_valid m)) as Hv by done.
  destruct (_ <? _); [apply wp_ret, Hv; by left|]. destruct (negb _); [apply wp_ret, Hv; by left|].
  apply wp_bind, wp_fopen_tmp; [done| |intros; apply wp_ret, Hv; by left|by left]. intros i w1 H1.
  eapply wp_mono; [|intros r w; apply Hv]. apply wp_bind, (wp_write_tmp p w0 (manifest_image m)); [done|..].
  - intros w2 H2. cbn [negb]. apply wp_bind, wp_bind.
  apply (wp_rename_staged p w0 (manifest_image m) (tmp_path p) _ _ _ i); [apply tmp_path_ne|done|..|by left].
  + intros w3 H3. cbn [negb]. unfold sync_parent. destruct (alloc_ok _).
  * apply (wp_fsync_parent p w0 (manifest_image m)); [done|..].
    -- intros w4 H4. by apply wp_ret.
    -- intros w4 H4. apply wp_unlink_failed. by right.
    -- intros w4 H4. by right.
  * apply wp_ret, wp_unlink_failed. by right.
  + intros w3 H3. apply wp_ret, wp_unlink_failed. by left.
  - intros w2 H2. apply wp_bind, wp_ret, wp_unlink_failed. by left.
  - intros w2 H2. by left.
Qed.
End save_safe.

(** ** The lock file stays out of the way *)
Lemma untouched_trans p w0 w1 w2 : untouched p w0 w1 -> untouched p w1 w2 -> untouched p w0 w2.
Proof.
  intros [H1 J1] [H2 J2]. split; [congruence|]. intros j Hj. rewrite J2 by (by rewrite H1). by apply J1.
Qed.

Lemma replaced_trans p w0 w1 bs w2 : untouched p w0 w1 -> replaced p w1 bs w2 -> replaced p w0 bs w2.
Proof.
  intros [H1 J1] (i&h&Hh&Hc&Hn&Hj). exists i, h. rewrite <- H1. split_and!; [done..|].
  intros j Hin. rewrite Hj by done. apply J1. destruct Hc as [->| ->]; [by apply not_elem_of_nil in Hin|by rewrite <- H1].
Qed.

Lemma old_or_new_trans p w0 w1 bs w2 : untouched p w0 w1 -> old_or_new p w1 bs w2 -> old_or_new p w0 bs w2.
Proof. intros H1 [H|H]; [left; by eapply untouched_trans|right; by eapply replaced_trans]. Qed.

Lemma untouched_file p w0 w : untouched p w0 w -> file_at w p = file_at w0 p.
Proof.
  intros [Hh Hj]. unfold file_at, current. rewrite Hh.
  destruct (history w0 p) as [|[j|] h] eqn:E; [done| |done]. cbn. rewrite Hj; [done|]. apply list_elem_of_here.
Qed.

Lemma lock_path_ne p : p <> lock_path p /\ tmp_path p <> lock_path p.
Proof.
  unfold lock_path, tmp_path, LOCK_SUFFIX, TMP_SUFFIX.
  split; intros E; apply (f_equal length) in E; rewrite ?length_app in E; cbn in E; lia.
Qed.

Lemma open_lock_untouched p w : tmp_apart p w ->
  untouched p w (open_creat_effect (lock_path p) w) /\ tmp_apart p (open_creat_effect (lock_path p) w).
Proof.
  intros [Hf Ht]. destruct (lock_path_ne p) as [N1 N2]. unfold open_creat_effect.
  destruct (current w (lock_path p)) eqn:C; [by split; [split|split]|]. unfold create_effect. rewrite C.
  split; split; unfold current, history in *; cbn; rewrite ?lookup_insert_ne by congruence.
  - done.
  - intros j Hj. rewrite lookup_insert_ne; [done|]. specialize (Hf j (or_introl Hj)). lia.
  - intros j Hj. specialize (Hf j Hj). lia.
  - done.
Qed.

Section lock.
Context {A : Allocator} (p : path) (w0 : world).

(** A body that behaves after any state that leaves the file alone also behaves under the
lock; releasing the lock may turn a success into an error. *)
Lemma wp_with_lock m body (Q : YAP_V2_MANIFEST * result unit -> world -> Prop) (R : world -> Prop) :
  tmp_apart p w0 ->
  (forall w e, untouched p w0 w -> Q (m, Err e) w) -> (forall w, untouched p w0 w -> R w) ->
  (forall w, untouched p w0 w -> tmp_apart p w ->
  wp body (fun r w => forall s, R (set_script w s) /\ Q r (set_script w s) /\
  (r.2 = Ok tt -> Q (r.1, Err YAP_V2_IO_ERROR) (set_script w s))) R w) ->
  wp (with_lock p m body) Q R w0.
Proof.
  intros Ht HE HR HB. unfold with_lock.
  assert (untouched p w0 w0) by done.
  destruct (_ <? _); [by apply wp_ret, HE|]. destruct (negb _); [by apply wp_ret, HE|].
  apply wp_bind, wp_call. intros s. destruct (open_lock_untouched p (set_script w0 s) Ht) as [Hu Hap].
  split_and!; cbn [negb]; [|by apply wp_ret, HE|by apply HR].
  apply wp_bind, wp_noop; [|intros; by apply HR]. intros s1 [|]; cbn [negb].
  - apply wp_bind. eapply wp_mono; [by apply HB|]. intros [m' r] w H1.
  apply wp_bind, wp_noop; [|apply H1]. intros s2 _.
  apply wp_bind, wp_noop; [|intros s3; apply (H1 s3)]. intros s3 b. apply wp_ret.
  destruct (H1 s3) as (_&HQ&HQ'). cbn in *. destruct r as [[]| |]; [|done..]. destruct b; auto.
  - apply wp_bind, wp_noop; [|intros; by apply HR]. intros s2 b. by apply wp_ret, HE.
Qed.
End lock.

(** ** Publishing *)

(** The generation a state of the file system holds; a missing manifest is generation 0. *)
Definition generation_at (w : world) (p : path) (g : Z) : Prop :=
  match file_at w p with
  | None => g = 0
  | Some data => exists m, data = manifest_image m /\ manifest_wf m /\ manifest_valid m /\ manifest_generation m = g
  end.

Section publish.
Context {A : Allocator} (garbage : nat -> Z) (p : path) (w0 : world) (manifest : YAP_V2_MANIFEST).
Context (Hwf : manifest_wf manifest).

(** The outcome of publishing when [next] says which generations may be written. *)
Definition published (next : Z -> Prop) (r : YAP_V2_MANIFEST * result unit) (w : world) : Prop :=
  match r.2 with
  | Ok _ => exists g, next g /\ r.1 = set_generation manifest g /\ manifest_valid r.1 /\
          durable p (manifest_image r.1) w
  | Err _ => untouched p w0 w \/ exists g, next g /\ replaced p w0 (manifest_image (set_generation manifest g)) w
  | Fault => False
  end.
Definition interrupted (next : Z -> Prop) (w : world) : Prop :=
  untouched p w0 w \/ exists g, next g /\ replaced p w0 (manifest_image (set_generation manifest g)) w.

(** The outcome before the lock is released, which may turn a success into an error. *)
Definition released (next : Z -> Prop) (r : YAP_V2_MANIFEST * result unit) (w : world) : Prop :=
  forall s, interrupted next (set_script w s) /\ published next r (set_script w s) /\
  (r.2 = Ok tt -> published next (r.1, Err YAP_V2_IO_ERROR) (set_script w s)).

Lemma set_generation_wf g : is_u64 g -> manifest_wf (set_generation manifest g).
Proof using Hwf. intros Hg. destruct Hwf as (_&?&?&?). done. Qed.

(** Saving under a generation that [next] allows. *)
Lemma wp_save_published (next : Z -> Prop) g w : next g -> is_u64 g -> untouched p w0 w -> tmp_apart p w ->
  wp (let* status := YAP_V2_manifest_save_atomic garbage (Some p) (Some (set_generation manifest g)) in
  io_ret (set_generation manifest g, status))
  (released next)
  (interrupted next) w.
Proof using Hwf.
  intros Hn Hg Hu Ht. apply wp_bind.
  pose proof (save_atomic_wp garbage p w (set_generation manifest g) (set_generation_wf g Hg) Ht) as HS.
  unfold wp in HS |- *. destruct (YAP_V2_manifest_save_atomic _ _ _ w) as [r w1|w1]; cbn.
  - destruct HS as [HP Hval]. intros s.
  assert (interrupted next (set_script w1 s)) as HI.
  { destruct r as [[]| |]; cbn in HP; [|destruct HP as [HP|HP]|done].
  - right. exists g. split; [done|]. eapply replaced_trans; [done|]. by apply durable_replaced.
  - left. by eapply untouched_trans.
  - right. exists g. split; [done|]. by eapply replaced_trans. }
  split_and!; [done| |done]. destruct r as [[]| |]; cbn in HP |- *; [|done..].
  exists g. split_and!; try done. by apply Hval.
  - destruct HS as [HS|HS]; [left; by eapply untouched_trans|right].
  exists g. split; [done|]. by eapply replaced_trans.
Qed.

Lemma released_untouched next m e w : untouched p w0 w -> released next (m, Err e) w.
Proof. intros Hu s. split_and!; [by left|by left|done]. Qed.

Lemma load_generation w m : untouched p w0 w -> file_bytes_ok w p ->
  load_outcome w p YAP_V2_manifest_init (m, Ok tt) ->
  file_at w0 p = Some (manifest_image m) /\ generation_at w0 p (manifest_generation m) /\
  manifest_wf m /\ manifest_valid m.
Proof.
  intros Hu Hb HL. destruct (load_outcome_file w p _ m Hb HL) as (HF&?&?&_).
  rewrite (untouched_file p w0 w Hu) in HF. split_and!; try done.
  unfold generation_at. rewrite HF. eauto.
Qed.

(** The outcome of [load_current]. *)
Lemma wp_load_current (Q : YAP_V2_MANIFEST * result unit -> world -> Prop) (R : world -> Prop) w :
  file_bytes_ok w p ->
  (forall s m e, Q (m, Err e) (set_script w s)) ->
  (forall s m, load_outcome w p YAP_V2_manifest_init (m, Ok tt) -> Q (m, Ok tt) (set_script w s)) ->
  (forall s, file_at w p = None -> Q (set_generation YAP_V2_manifest_init 0, Ok tt) (set_script w s)) ->
  (forall s, R (set_script w s)) -> wp (load_current p) Q R w.
Proof.
  intros Hb HE HO HN HR. apply wp_bind, wp_load; [done| |done]. intros s [m r] HL.
  destruct r as [[]|e|]; [by apply wp_ret, HO| |done].
  destruct e; try (by apply wp_ret, HE).
  apply wp_bind, wp_bind, wp_noop; [|intros; apply HR]. intros s1 ok. unfold wp; cbn.
  change (file_at (set_script (set_script w s) s1) p) with (file_at w p).
  cbn in HL. subst m. destruct ok; cbn; [|apply HE].
  destruct (bool_decide (file_at w p = None)) eqn:B; [|apply HE]. apply bool_decide_eq_true in B. by apply HN.
Qed.

Definition next_generation (g : Z) : Prop := exists g0, generation_at w0 p g0 /\ g = g0 + 1.

Lemma publish_next_locked_wp w : file_bytes_ok w p -> untouched p w0 w -> tmp_apart p w ->
  wp (publish_next_locked garbage p manifest)
  (released next_generation)
  (interrupted next_generation) w.
Proof using Hwf.
  intros Hb Hu Ht.
  assert (forall s m g0, is_u64 g0 -> manifest_generation m = g0 -> generation_at w0 p g0 ->
  wp (if (0 <? manifest_generation m) && negb (bool_decide (config_fingerprint m = config_fingerprint manifest))
    then io_ret (manifest, Err YAP_V2_CONFLICT)
    else if manifest_generation m =? UINT64_MAX then io_ret (manifest, Err YAP_V2_OUT_OF_RANGE)
    else
    let manifest := set_generation manifest (u64 (manifest_generation m + 1)) in
    let* status := YAP_V2_manifest_save_atomic garbage (Some p) (Some manifest) in
    io_ret (manifest, status))
  (released next_generation)
  (interrupted next_generation) (set_script w s)) as Hgo.
  { intros s m g0 Hg <- Hat. destruct (_ && _); [by apply wp_ret, released_untouched|].
  destruct (Z.eqb_spec (manifest_generation m) UINT64_MAX); [by apply wp_ret, released_untouched|].
  unfold is_u64, UINT64_MAX in *. rewrite u64_small by lia.
  apply wp_save_published; [eexists; split; done|unfold is_u64; lia|done|done]. }
  apply wp_bind, wp_load_current; [done| | | |intros; by left].
  - intros s m e. by apply wp_ret, released_untouched.
  - intros s m HL. destruct (load_generation w m Hu Hb HL) as (_&Hat&[Hg _]&_). by eapply Hgo.
  - intros s HN. apply (Hgo s _ 0); [done|done|]. rewrite (untouched_file p w0 w Hu) in HN.
  unfold generation_at. by rewrite HN.
Qed.

Lemma publish_next_wp : file_bytes_ok w0 p -> tmp_apart p w0 ->
  wp (YAP_V2_manifest_publish_next garbage (Some p) manifest)
  (published next_generation) (interrupted next_generation) w0.
Proof using Hwf.
  intros Hb Ht. apply wp_with_lock; [done|by left..|].
  intros w Hu Hap. apply publish_next_locked_wp; [|done..]. intros d. rewrite (untouched_file p w0 w Hu). apply Hb.
Qed.

(** The generations [publish_if_generation] may write: the successor of the expected one,
and only over a manifest of that generation and of the same configuration. *)
Definition expected_next (expected g : Z) : Prop :=
  g = expected + 1 /\ exists m, file_at w0 p = Some (manifest_image m) /\ manifest_wf m /\ manifest_valid m /\
  manifest_generation m = expected /\ config_fingerprint m = config_fingerprint manifest.

Lemma publish_if_generation_wp expected : file_bytes_ok w0 p -> tmp_apart p w0 -> is_u64 expected ->
  wp (YAP_V2_manifest_publish_if_generation garbage (Some p) expected manifest)
  (published (expected_next expected)) (interrupted (expected_next expected)) w0.
Proof using Hwf.
  intros Hb Ht Hx. unfold YAP_V2_manifest_publish_if_generation.
  destruct (Z.eqb_spec expected UINT64_MAX) as [|Hmax]; [by left|].
  apply wp_with_lock; [done|by left..|]. intros w Hu Hap.
  assert (file_bytes_ok w p) as Hb' by (intros d; rewrite (untouched_file p w0 w Hu); apply Hb).
  apply wp_bind, wp_load; [done| |intros; by left]. intros s [m r] HL.
  destruct r as [[]| |]; [|by apply wp_ret, released_untouched|done].
  destruct (load_generation w m Hu Hb' HL) as (HF&_&Hmwf&Hval).
  destruct (Z.eqb_spec (manifest_generation m) expected); cbn [negb]; [|by apply wp_ret, released_untouched].
  destruct (bool_decide _) eqn:B; cbn [negb]; [|by apply wp_ret, released_untouched]. btests.
  unfold is_u64, UINT64_MAX in *. rewrite u64_small by lia.
  apply wp_save_published; [split; [done|eauto 10]|unfold is_u64; lia|done|done].
Qed.
End publish.

(** ** Repeated publication *)
Section publish_keeps.
Context {A : Allocator} (garbage : nat -> Z) (p : path).
Abbreviation keeps c := (forall w, tmp_apart p w -> wp c (fun _ => tmp_apart p) (tmp_apart p) w).

Lemma keeps_state {B} (f : world -> B) : keeps (fun w => Done (f w) w).
Proof. by intros w Hw. Qed.
#[local] Hint Resolve keeps_state : keeps.

Lemma keeps_load q m : keeps (YAP_V2_manifest_load q m).
Proof. unfold YAP_V2_manifest_load, fopen_rb, fstat, fread_all, close_with, fclose_rb. keep. Qed.

Lemma keeps_save m : keeps (YAP_V2_manifest_save_atomic garbage (Some p) m).
Proof.
  unfold YAP_V2_manifest_save_atomic, write_tmp, sync_parent, unlink, fflush, fsync, fclose. keep.
Qed.

Lemma apart_open_lock w : tmp_apart p w -> tmp_apart p (open_creat_effect (lock_path p) w).
Proof. apply open_lock_untouched. Qed.
#[local] Hint Resolve keeps_load keeps_save apart_open_lock : keeps.

Lemma keeps_with_lock m body : keeps body -> keeps (with_lock p m body).
Proof. intros Hb. unfold with_lock, open_creat, flock, close_lock. keep. Qed.

Lemma keeps_publish_if_generation g m :
  keeps (YAP_V2_manifest_publish_if_generation garbage (Some p) g m).
Proof.
  unfold YAP_V2_manifest_publish_if_generation. destruct (_ =? _); [keep|].
  apply keeps_with_lock. unfold publish_if_generation_locked. cbv zeta. keep.
Qed.
End publish_keeps.

(** ** Main theorems *)

Lemma untouched_view p w0 w v : untouched p w0 w -> crash_view w p v -> crash_view w0 p v.
Proof.
  intros [Hh Hj] (e&He&Hv). exists e. rewrite <- Hh. split; [done|].
  destruct e as [j|]; [|done]. rewrite Hh in He. by rewrite Hj in Hv.
Qed.

Lemma interrupted_view p w0 m next w v : interrupted p w0 m next w -> crash_view w p v ->
  crash_view w0 p v \/ exists g, next g /\ v = Some (manifest_image (set_generation m g)).
Proof.
  intros [H|(g&Hn&H)] Hv; [left; by eapply untouched_view|].
  destruct (old_or_new_view p w0 _ w v (or_intror H) Hv) as [->|]; [right; eauto|by left].
Qed.

(** Files of different generations differ. *)
Lemma manifest_image_generation m m' : manifest_wf m -> manifest_wf m' -> manifest_image m = manifest_image m' ->
  manifest_generation m = manifest_generation m'.
Proof.
  intros (Hg&_) (Hg'&_) E.
  assert (forall m, slice (manifest_image m) 12 8 = put_u64_le (manifest_generation m)) as HS.
  { intros n. unfold manifest_image, header_image. rewrite <- !(assoc_L (++)).
    rewrite (assoc_L (++) _ (put_u16_le _)), (assoc_L (++) _ (put_u16_le (header_bytes _))),
      (assoc_L (++) _ (put_u32_le (file_type _))). by apply slice_app_mid. }
  apply (f_equal (fun l => slice l 12 8)) in E. rewrite !HS, !put_u64_le_enc in E.
  unfold is_u64 in *. apply le_enc_inj in E; [done|..]; change (256 ^ Z.of_nat 8) with (2 ^ 64); lia.
Qed.

(** C1: [YAP_V2_manifest_save_atomic] replaces the manifest atomically under any failure of
    its file-system calls and any crash, with any content of uninitialised memory: success
    means the encoding of the manifest is durable, and in every other case the name shows,
    now or after a crash, the old file or the complete new one. *)
Theorem manifest_save_crash_safe {A : Allocator} (garbage : nat -> Z) (p : path) (m : YAP_V2_MANIFEST) (w0 : world) :
  manifest_wf m -> tmp_apart p w0 ->
  match YAP_V2_manifest_save_atomic garbage (Some p) (Some m) w0 with
  | Done (Ok _) w => manifest_valid m /\ file_at w p = Some (manifest_image m) /\
      (forall v, crash_view w p v -> v = Some (manifest_image m))
  | Done (Err _) w | Crashed w => forall v, crash_view w p v -> v = Some (manifest_image m) \/ crash_view w0 p v
  | Done Fault _ => False
  end.
Proof.
  intros Hwf Ht. pose proof (save_atomic_wp garbage p w0 m Hwf Ht) as H. unfold wp in H.
  destruct (YAP_V2_manifest_save_atomic _ _ _ w0) as [r w|w].
  - destruct H as [HP Hv]. destruct r as [[]| |]; cbn in HP; [|intros v; by apply old_or_new_view|done].
    split_and!; [by apply Hv|by apply durable_file|intros v; by apply durable_view].
  - intros v. by apply old_or_new_view.
Qed.

Definition zeroed : nat -> Z := fun _ => 0.
Definition demo_store (s : list event) : world :=
  World {[0%nat := Inode (manifest_image demo_manifest) true]} {[ [97] := [Some 0%nat] ]} 1 s.

Lemma demo_store_apart s : tmp_apart [97] (demo_store s).
Proof.
  split; intros j.
  - intros [H|H]; [|by vm_compute in H].
    change (history (demo_store s) [97]) with [Some 0%nat] in H.
    apply list_elem_of_singleton in H as [= ->]. cbn. lia.
  - intros H. by vm_compute in H.
Qed.

Lemma demo_store_bytes s : file_bytes_ok (demo_store s) [97].
Proof. intros d [= <-]. apply manifest_image_ok, demo_manifest_wf. Qed.

Lemma manifest_save_crash_safe_witness :
  exists w, YAP_V2_manifest_save_atomic (A:=alloc_total) zeroed (Some [97]) (Some demo_manifest)
              (demo_store [Succeed; Succeed; Succeed; Succeed; Succeed; Fail 0]) = Done (Err YAP_V2_IO_ERROR) w /\
    (forall v, crash_view w [97] v -> v = Some (manifest_image demo_manifest) \/
       crash_view (demo_store [Succeed; Succeed; Succeed; Succeed; Succeed; Fail 0]) [97] v).
Proof.
  pose proof (manifest_save_crash_safe (A:=alloc_total) zeroed [97] demo_manifest
    (demo_store [Succeed; Succeed; Succeed; Succeed; Succeed; Fail 0]) demo_manifest_wf (demo_store_apart _)) as H.
  destruct (YAP_V2_manifest_save_atomic (A:=alloc_total) zeroed (Some [97]) (Some demo_manifest)
              (demo_store [Succeed; Succeed; Succeed; Succeed; Succeed; Fail 0])) as [[a|e|]|w] eqn:E;
    [exfalso; vm_compute in E; discriminate| |destruct H|exfalso; vm_compute in E; discriminate].
  assert (e = YAP_V2_IO_ERROR) as -> by (vm_compute in E; congruence).
  exists w. split; [reflexivity|exact H].
Defined.

(** C29: [YAP_V2_manifest_publish_next] under any failure and any crash: success means the
    manifest on disk is now, durably, the given one under the generation that follows the one
    that was there (1 when there was none); otherwise the name shows the previous manifest or
    that same next one.  An existing manifest that cannot be read is never restarted at
    generation 1. *)
Theorem publish_next_correct {A : Allocator} (garbage : nat -> Z) (p : path) (m : YAP_V2_MANIFEST) (w0 : world) :
  manifest_wf m -> file_bytes_ok w0 p -> tmp_apart p w0 ->
  match YAP_V2_manifest_publish_next garbage (Some p) m w0 with
  | Done (m', Ok _) w => exists g, generation_at w0 p g /\ m' = set_generation m (g + 1) /\ manifest_valid m' /\
      file_at w p = Some (manifest_image m') /\ forall v, crash_view w p v -> v = Some (manifest_image m')
  | Done (_, Err _) w | Crashed w => forall v, crash_view w p v ->
      crash_view w0 p v \/ exists g, generation_at w0 p g /\ v = Some (manifest_image (set_generation m (g + 1)))
  | Done (_, Fault) _ => False
  end.
Proof.
  intros Hwf Hb Ht. pose proof (publish_next_wp garbage p w0 m Hwf Hb Ht) as H. unfold wp in H.
  assert (forall w v, interrupted p w0 m (next_generation p w0) w -> crash_view w p v ->
    crash_view w0 p v \/ exists g, generation_at w0 p g /\ v = Some (manifest_image (set_generation m (g + 1)))) as HI.
  { intros w v Hi Hv. destruct (interrupted_view p w0 m _ w v Hi Hv) as [|(?&(g&Hg&->)&->)]; eauto. }
  destruct (YAP_V2_manifest_publish_next _ _ _ w0) as [[m' r] w|w]; [|intros v; by apply HI].
  unfold published in H. cbn [fst snd] in H. destruct r as [[]| |]; [|intros v; by apply HI|done].
  destruct H as (?&(g&Hg&->)&->&Hv&Hd). exists g.
  split_and!; [done|done|done|by apply durable_file|intros v; by apply durable_view].
Qed.

Lemma publish_next_correct_witness : exists g, generation_at (demo_store []) [97] g /\
  exists w, YAP_V2_manifest_publish_next (A:=alloc_total) zeroed (Some [97]) demo_manifest (demo_store [])
    = Done (set_generation demo_manifest (g + 1), Ok tt) w.
Proof.
  pose proof (publish_next_correct (A:=alloc_total) zeroed [97] demo_manifest (demo_store []) demo_manifest_wf
    (demo_store_bytes _) (demo_store_apart _)) as H.
  destruct (YAP_V2_manifest_publish_next (A:=alloc_total) zeroed (Some [97]) demo_manifest (demo_store []))
    as [[m' [[]|e|]] w|w] eqn:E; [|exfalso; vm_compute in E; discriminate..].
  destruct H as (g&Hg&->&_). exists g. split; [exact Hg|]. exists w. reflexivity.
Defined.

(** C2: [YAP_V2_manifest_publish_if_generation] is a compare-and-swap on the manifest file: it
    succeeds only over a valid manifest of the expected generation and the same configuration,
    and then the given manifest under the next generation is durable; in every other case,
    including crashes, the name shows what it showed before or exactly that successor. *)
Theorem publish_if_generation_correct {A : Allocator} (garbage : nat -> Z) (p : path) (expected : Z)
    (m : YAP_V2_MANIFEST) (w0 : world) :
  manifest_wf m -> is_u64 expected -> file_bytes_ok w0 p -> tmp_apart p w0 ->
  match YAP_V2_manifest_publish_if_generation garbage (Some p) expected m w0 with
  | Done (m', Ok _) w => m' = set_generation m (expected + 1) /\ manifest_valid m' /\
      (exists old, file_at w0 p = Some (manifest_image old) /\ manifest_generation old = expected /\
         config_fingerprint old = config_fingerprint m) /\
      file_at w p = Some (manifest_image m') /\ forall v, crash_view w p v -> v = Some (manifest_image m')
  | Done (_, Err _) w | Crashed w => forall v, crash_view w p v ->
      crash_view w0 p v \/ v = Some (manifest_image (set_generation m (expected + 1)))
  | Done (_, Fault) _ => False
  end.
Proof.
  intros Hwf Hx Hb Ht. pose proof (publish_if_generation_wp garbage p w0 m Hwf expected Hb Ht Hx) as H. unfold wp in H.
  assert (forall w v, interrupted p w0 m (expected_next p w0 m expected) w -> crash_view w p v ->
    crash_view w0 p v \/ v = Some (manifest_image (set_generation m (expected + 1)))) as HI.
  { intros w v Hi Hv. destruct (interrupted_view p w0 m _ w v Hi Hv) as [|(?&(->&_)&->)]; auto. }
  destruct (YAP_V2_manifest_publish_if_generation _ _ _ _ w0) as [[m' r] w|w]; [|intros v; by apply HI].
  unfold published in H. cbn [fst snd] in H. destruct r as [[]| |]; [|intros v; by apply HI|done].
  destruct H as (?&(->&old&?&_&_&?&?)&->&Hv&Hd).
  split_and!; [done|done|by exists old|by apply durable_file|intros v; by apply durable_view].
Qed.

Lemma publish_if_generation_correct_witness : exists w,
  YAP_V2_manifest_publish_if_generation (A:=alloc_total) zeroed (Some [97]) 7 demo_manifest (demo_store [])
    = Done (set_generation demo_manifest 8, Ok tt) w /\
  forall v, crash_view w [97] v -> v = Some (manifest_image (set_generation demo_manifest 8)).
Proof.
  pose proof (publish_if_generation_correct (A:=alloc_total) zeroed [97] 7 demo_manifest (demo_store [])
    demo_manifest_wf ltac:(split; [discriminate|reflexivity]) (demo_store_bytes _) (demo_store_apart _)) as H.
  destruct (YAP_V2_manifest_publish_if_generation (A:=alloc_total) zeroed (Some [97]) 7 demo_manifest (demo_store []))
    as [[m' [[]|e|]] w|w] eqn:E; [|exfalso; vm_compute in E; discriminate..].
  destruct H as (->&_&_&_&Hv). exists w. split; [reflexivity|exact Hv].
Defined.

(** Of two publishers that both saw generation [expected], at most one succeeds: once the
    first has published, the second returns an error, whatever fails meanwhile, and the first
    one's manifest stays in place. *)
Theorem publish_if_generation_exclusive {A : Allocator} (garbage : nat -> Z) (p : path) (expected : Z)
    (m1 m2 m1' : YAP_V2_MANIFEST) (w0 w1 : world) (s : list event) :
  manifest_wf m1 -> manifest_wf m2 -> is_u64 expected -> file_bytes_ok w0 p -> tmp_apart p w0 ->
  YAP_V2_manifest_publish_if_generation garbage (Some p) expected m1 w0 = Done (m1', Ok tt) w1 ->
  match YAP_V2_manifest_publish_if_generation garbage (Some p) expected m2 (set_script w1 s) with
  | Done (_, Err _) w | Crashed w => forall v, crash_view w p v -> v = Some (manifest_image m1')
  | Done (_, _) _ => False
  end.
Proof.
  intros Hwf1 Hwf2 Hx Hb Ht E1.
  pose proof (publish_if_generation_wp garbage p w0 m1 Hwf1 expected Hb Ht Hx) as H1.
  pose proof (keeps_publish_if_generation garbage p expected m1 w0 Ht) as K1.
  unfold wp in H1, K1. rewrite E1 in H1, K1. unfold published in H1. cbn [fst snd] in H1.
  destruct H1 as (?&[-> _]&->&Hv1&Hd1). unfold is_u64 in Hx.
  assert (file_at w1 p = Some (manifest_image (set_generation m1 (expected + 1)))) as F1 by (by apply durable_file).
  assert (expected <> UINT64_MAX) as Hmax.
  { intros ->. unfold YAP_V2_manifest_publish_if_generation in E1. rewrite Z.eqb_refl in E1. done. }
  assert (manifest_wf (set_generation m1 (expected + 1))) as Hw
    by (apply set_generation_wf; [done|unfold is_u64, UINT64_MAX in *; lia]).
  assert (file_bytes_ok (set_script w1 s) p) as Hb1.
  { intros d. change (file_at (set_script w1 s) p) with (file_at w1 p). rewrite F1. intros [= <-].
    by apply manifest_image_ok. }
  pose proof (publish_if_generation_wp garbage p (set_script w1 s) m2 Hwf2 expected Hb1 K1 Hx) as H2. unfold wp in H2.
  assert (forall g, ~ expected_next p (set_script w1 s) m2 expected g) as Hno.
  { intros g (_&old&F&Hwo&_&Hg&_). change (file_at (set_script w1 s) p) with (file_at w1 p) in F.
    rewrite F1 in F. apply (inj Some), manifest_image_generation in F; [|done..]. cbn in F. lia. }
  assert (forall w v, interrupted p (set_script w1 s) m2 (expected_next p (set_script w1 s) m2 expected) w ->
    crash_view w p v -> v = Some (manifest_image (set_generation m1 (expected + 1)))) as HI.
  { intros w v [Hu|(g&Hg&_)] Hv; [|by apply Hno in Hg].
    apply (durable_view p _ w1 v Hd1). by apply (untouched_view p (set_script w1 s) w v). }
  destruct (YAP_V2_manifest_publish_if_generation _ _ _ _ (set_script w1 s)) as [[m' r] w|w]; [|intros v; by apply HI].
  unfold published in H2. cbn [fst snd] in H2.
  destruct r as [[]| |]; [destruct H2 as (g&Hg&_); by apply Hno in Hg|intros v; by apply HI|done].
Qed.

Lemma publish_if_generation_exclusive_witness : exists m1' w1,
  YAP_V2_manifest_publish_if_generation (A:=alloc_total) zeroed (Some [97]) 7 demo_manifest (demo_store [])
    = Done (m1', Ok tt) w1 /\
  match YAP_V2_manifest_publish_if_generation (A:=alloc_total) zeroed (Some [97]) 7 demo_manifest (set_script w1 []) with
  | Done (_, Err _) w | Crashed w => forall v, crash_view w [97] v -> v = Some (manifest_image m1')
  | Done (_, _) _ => False
  end.
Proof.
  destruct (YAP_V2_manifest_publish_if_generation (A:=alloc_total) zeroed (Some [97]) 7 demo_manifest (demo_store []))
    as [[m1' [[]|e|]] w1|w1] eqn:E; [|exfalso; vm_compute in E; discriminate..].
  exists m1', w1. split; [reflexivity|].
  exact (publish_if_generation_exclusive (A:=alloc_total) zeroed [97] 7 demo_manifest demo_manifest m1' (demo_store [])
    w1 [] demo_manifest_wf demo_manifest_wf ltac:(split; [discriminate|reflexivity]) (demo_store_bytes _)
    (demo_store_apart _) E).
Defined.


(** What was saved is what is loaded: after a successful save, loading the file without
    failing calls returns a manifest with the same content. *)
Theorem manifest_save_then_load {A : Allocator} (garbage : nat -> Z) (p : path) (m m0 : YAP_V2_MANIFEST) (w0 w : world) :
  manifest_wf m -> tmp_apart p w0 ->
  YAP_V2_manifest_save_atomic garbage (Some p) (Some m) w0 = Done (Ok tt) w ->
  exists m', YAP_V2_manifest_load (A:=alloc_total) (Some p) m0 (set_script w []) = Done (m', Ok tt) (set_script w []) /\
    manifest_equiv m m' /\ manifest_inv m'.
Proof.
  intros Hwf Ht E. pose proof (save_atomic_wp garbage p w0 m Hwf Ht) as H. unfold wp in H. rewrite E in H.
  destruct H as [Hd Hv]. specialize (Hv eq_refl). apply durable_file in Hd.
  assert (zlen (manifest_image m) <= YAP_V2_MAX_MANIFEST_BYTES) as Hl.
  { unfold YAP_V2_manifest_save_atomic in E. pose proof (manifest_file_data_spec garbage m Hwf) as HF.
    destruct (manifest_file_data garbage m); [|done..]. by destruct HF as (->&_&?). }
  destruct (manifest_parse_complete (A:=alloc_total) m) as (m'&HP&He&HI);
    [done..|unfold YAP_V2_MAX_MANIFEST_BYTES in *; lia|].
  exists m'. split; [|done]. unfold YAP_V2_manifest_load, fopen_rb, fstat, fread_all, fclose_rb.
  erewrite bind_done by (by rewrite bind_nil). change (file_at (set_script w []) p) with (file_at w p).
  rewrite Hd, bind_nil by done. cbn [negb].
  unfold YAP_V2_FILE_HEADER_BYTES, YAP_V2_MANIFEST_PAYLOAD_HEADER_BYTES.
  destruct (Z.ltb_spec (zlen (manifest_image m)) (32 + 40)) as [Hs|_].
  { exfalso. rewrite zlen_manifest_image in Hs. unfold manifest_payload in Hs. destruct Hwf as (_&_&Hf&_). zl. }
  destruct (Z.ltb_spec YAP_V2_MAX_MANIFEST_BYTES (zlen (manifest_image m))); [lia|].
  change (negb (@alloc_ok alloc_total (zlen (manifest_image m)))) with false. cbv iota.
  rewrite !bind_nil by done. cbn [negb]. by rewrite HP.
Qed.

Lemma manifest_save_then_load_witness : exists w m',
  YAP_V2_manifest_save_atomic (A:=alloc_total) zeroed (Some [97]) (Some demo_manifest) (demo_store []) = Done (Ok tt) w /\
  YAP_V2_manifest_load (A:=alloc_total) (Some [97]) YAP_V2_manifest_init (set_script w []) = Done (m', Ok tt) (set_script w []) /\
  manifest_equiv demo_manifest m'.
Proof.
  destruct (YAP_V2_manifest_save_atomic (A:=alloc_total) zeroed (Some [97]) (Some demo_manifest) (demo_store []))
    as [[[]|e|] w|w] eqn:E; [|exfalso; vm_compute in E; discriminate..].
  destruct (manifest_save_then_load (A:=alloc_total) zeroed [97] demo_manifest YAP_V2_manifest_init (demo_store []) w
    demo_manifest_wf (demo_store_apart _) E) as (m'&HL&He&_).
  exists w, m'. split; [reflexivity|split; [exact HL|exact He]].
Defined.
