(* ===== verification/Buffer.v ===== *)
(** The growable output buffer of src/src/storage/yappo_segment_v2.c (lines 16-139).

    [buffer_data] is the whole allocated block, its size the capacity; [buffer_len]
    bytes of it are written.  What [realloc] adds is unspecified.  A buffer without
    block is the null pointer. *)
From S2P Require Import Prelude Words Types Reader.

Definition YAP_V2_MAX_SEGMENT_PAYLOAD_BYTES : Z := 256 * 1024 * 1024.

Record YAP_V2_BUFFER := Buffer { buffer_data : bytes; buffer_len : Z }.

Definition buffer_zero : YAP_V2_BUFFER := Buffer [] 0.

(** The doubling loop; it stops at the maximum. *)
Fixpoint next_buffer_capacity (fuel : nat) (next_capacity required : Z) : result Z :=
  if next_capacity <? required then
    match fuel with
    | O => Fault
    | S fuel =>
        if YAP_V2_MAX_SEGMENT_PAYLOAD_BYTES / 2 <? next_capacity then Ok YAP_V2_MAX_SEGMENT_PAYLOAD_BYTES
        else next_buffer_capacity fuel (next_capacity * 2) required
    end
  else Ok next_capacity.

Section buffer.
Context {A : Allocator} (garbage : nat -> Z).

Definition realloc_block (block : bytes) (n : Z) : bytes :=
  take (Z.to_nat n) block ++ (garbage <$> seq 0 (Z.to_nat (n - zlen block))).

Definition buffer_reserve (b : YAP_V2_BUFFER) (additional : Z) : result YAP_V2_BUFFER :=
  if u64 (YAP_V2_MAX_SEGMENT_PAYLOAD_BYTES - buffer_len b) <? additional
  then Err YAP_V2_SEGMENT_CAPACITY_EXCEEDED
  else
  let required := buffer_len b + additional in
  let capacity := zlen (buffer_data b) in
  if required <=? capacity then Ok b
  else
  next_capacity ← next_buffer_capacity 32 (if capacity =? 0 then 256 else capacity) required;
  if alloc_ok next_capacity then Ok (Buffer (realloc_block (buffer_data b) next_capacity) (buffer_len b))
  else Err YAP_V2_ALLOCATION_FAILED.

(** [memcpy] of [len] bytes from [data]. *)
Definition buffer_append (b : YAP_V2_BUFFER) (data : option bytes) (len : Z) : result YAP_V2_BUFFER :=
  if (0 <? len) && bool_decide (data = None) then Err YAP_V2_INVALID_ARGUMENT
  else
  b ← buffer_reserve b len;
  if 0 <? len then
  match data with
  | None => Fault
  | Some m =>
    bs ← load_bytes m 0 len;
    block ← store_bytes (buffer_data b) (buffer_len b) bs;
    Ok (Buffer block (buffer_len b + len))
  end
  else Ok b.

Definition buffer_append_u32 (v : Z) (b : YAP_V2_BUFFER) : result YAP_V2_BUFFER :=
  buffer_append b (Some (put_u32_le v)) 4.
Definition buffer_append_u64 (v : Z) (b : YAP_V2_BUFFER) : result YAP_V2_BUFFER :=
  buffer_append b (Some (put_u64_le v)) 8.

Definition buffer_append_bytes_view (value : YAP_V2_BYTES_VIEW) (b : YAP_V2_BUFFER) : result YAP_V2_BUFFER :=
  if UINT32_MAX <? len value then Err YAP_V2_OUT_OF_RANGE
  else
  b ← buffer_append_u32 (u32 (len value)) b;
  buffer_append b (data value) (len value).

(** ** Specification *)
Definition content (b : YAP_V2_BUFFER) : bytes := take (Z.to_nat (buffer_len b)) (buffer_data b).

(** The capacity is 0 or between 256 and the maximum. *)
Definition buffer_ok (b : YAP_V2_BUFFER) : Prop :=
  0 <= buffer_len b <= zlen (buffer_data b) /\ zlen (buffer_data b) <= YAP_V2_MAX_SEGMENT_PAYLOAD_BYTES /\
  (zlen (buffer_data b) = 0 \/ 256 <= zlen (buffer_data b)).

(** [f] appends [bs] to any buffer, unless memory or the capacity limit is exhausted. *)
Definition appends (f : YAP_V2_BUFFER -> result YAP_V2_BUFFER) (bs : bytes) : Prop :=
  forall b, buffer_ok b ->
  match f b with
  | Ok b' => buffer_ok b' /\ content b' = content b ++ bs
  | Err YAP_V2_ALLOCATION_FAILED => exists n, alloc_ok n = false
  | Err YAP_V2_SEGMENT_CAPACITY_EXCEEDED => YAP_V2_MAX_SEGMENT_PAYLOAD_BYTES < zlen (content b ++ bs)
  | _ => False
  end.

(** ** Lemmas *)
Lemma zlen_content b : buffer_ok b -> zlen (content b) = buffer_len b.
Proof. intros (?&_). unfold content, zlen in *. rewrite length_take. lia. Qed.

Lemma buffer_zero_ok : buffer_ok buffer_zero.
Proof. unfold buffer_ok, YAP_V2_MAX_SEGMENT_PAYLOAD_BYTES; cbn. unfold zlen; cbn. lia. Qed.

Lemma zlen_realloc block n : zlen block <= n -> zlen (realloc_block block n) = n.
Proof.
  intros H. unfold realloc_block, zlen in *.
  rewrite length_app, length_take, length_fmap, length_seq. lia.
Qed.

Lemma next_buffer_capacity_spec fuel c required :
  256 <= c -> required <= YAP_V2_MAX_SEGMENT_PAYLOAD_BYTES -> c <= YAP_V2_MAX_SEGMENT_PAYLOAD_BYTES ->
  YAP_V2_MAX_SEGMENT_PAYLOAD_BYTES < c * 2 ^ Z.of_nat fuel ->
  exists n, next_buffer_capacity fuel c required = Ok n /\ required <= n /\ c <= n <= YAP_V2_MAX_SEGMENT_PAYLOAD_BYTES.
Proof.
  unfold YAP_V2_MAX_SEGMENT_PAYLOAD_BYTES.
  revert c; induction fuel as [|fuel IH]; intros c Hc Hr Hm Hf; cbn [next_buffer_capacity];
  destruct (Z.ltb_spec c required) as [H|H]; try (exists c; split; [done|lia]).
  - change (2 ^ Z.of_nat 0) with 1 in Hf. lia.
  - unfold YAP_V2_MAX_SEGMENT_PAYLOAD_BYTES.
  destruct (Z.ltb_spec (256 * 1024 * 1024 / 2) c) as [H2|H2]; [eexists; split; [done|lia]|].
  change (256 * 1024 * 1024 / 2) with 134217728 in H2.
  destruct (IH (c * 2)) as (n&->&Hn); [lia..| |exists n; split; [done|lia]].
  rewrite Nat2Z.inj_succ, Z.pow_succ_r in Hf by lia. lia.
Qed.

Lemma buffer_reserve_spec b n : buffer_ok b -> 0 <= n <= SIZE_MAX ->
  match buffer_reserve b n with
  | Ok b' => buffer_ok b' /\ content b' = content b /\ buffer_len b' = buffer_len b /\
  buffer_len b + n <= zlen (buffer_data b')
  | Err YAP_V2_ALLOCATION_FAILED => exists n, alloc_ok n = false
  | Err YAP_V2_SEGMENT_CAPACITY_EXCEEDED => YAP_V2_MAX_SEGMENT_PAYLOAD_BYTES < buffer_len b + n
  | _ => False
  end.
Proof.
  intros (Hl&Hm&Hc) Hn. unfold buffer_reserve, SIZE_MAX in *.
  rewrite u64_small by (unfold YAP_V2_MAX_SEGMENT_PAYLOAD_BYTES in *; lia).
  destruct (Z.ltb_spec (YAP_V2_MAX_SEGMENT_PAYLOAD_BYTES - buffer_len b) n); [lia|]. cbv zeta.
  destruct (Z.leb_spec (buffer_len b + n) (zlen (buffer_data b))); [done|].
  destruct (next_buffer_capacity_spec 32 (if zlen (buffer_data b) =? 0 then 256 else zlen (buffer_data b))
  (buffer_len b + n)) as (c&->&H1&H2).
  - destruct (Z.eqb_spec (zlen (buffer_data b)) 0); lia.
  - lia.
  - destruct (Z.eqb_spec (zlen (buffer_data b)) 0); [unfold YAP_V2_MAX_SEGMENT_PAYLOAD_BYTES; lia|done].
  - change (2 ^ Z.of_nat 32) with 4294967296. unfold YAP_V2_MAX_SEGMENT_PAYLOAD_BYTES.
  destruct (Z.eqb_spec (zlen (buffer_data b)) 0); lia.
  - rewrite outcome_bind_ok. destruct (alloc_ok c) eqn:HA; [|eauto].
  assert (256 <= c /\ zlen (buffer_data b) <= c) by (destruct (Z.eqb_spec (zlen (buffer_data b)) 0); lia).
  split_and!; unfold buffer_ok, content; cbn; rewrite ?zlen_realloc by lia; try lia.
  unfold realloc_block. rewrite (take_ge (buffer_data b)) by (unfold zlen in *; lia).
  apply take_app_le. unfold zlen in *. lia.
Qed.

Lemma buffer_append_appends m n : 0 <= n <= SIZE_MAX -> n <= zlen m ->
  appends (fun b => buffer_append b (Some m) n) (slice m 0 n).
Proof.
  intros Hn Hm b Hb. unfold buffer_append. rewrite bool_decide_false, andb_false_r by done.
  pose proof (buffer_reserve_spec b n Hb Hn) as HR.
  rewrite zlen_app, zlen_content, zlen_slice by (done || lia).
  destruct (buffer_reserve b n) as [b'|e|]; [|by destruct e|done]. rewrite outcome_bind_ok.
  destruct HR as (Hb'&Hc&Hl&Hr). destruct (Z.ltb_spec 0 n).
  - unfold load_bytes. rewrite (proj2 (in_range_true _ _ _)), outcome_bind_ok by lia.
  pose proof (zlen_content b' Hb') as Hzc.
  rewrite <- (take_drop (Z.to_nat (buffer_len b')) (buffer_data b')). fold (content b').
  pose proof Hb' as ((?&?)&?&?).
  rewrite store_bytes_next; [|lia|rewrite zlen_slice, zlen_drop by lia; lia]. rewrite outcome_bind_ok.
  assert (zlen (slice m 0 n) = n) as Hs by (apply zlen_slice; lia).
  split.
  + unfold buffer_ok; cbn. rewrite !zlen_app, !zlen_drop, Hzc, Hs. unfold zlen in Hs. lia.
  + unfold content at 1; cbn. rewrite take_app_length'; [by rewrite Hc|].
  unfold zlen in *. rewrite length_app. lia.
  - split; [done|]. replace n with 0 by lia. unfold slice. by rewrite take_0, app_nil_r.
Qed.

Lemma appends_ext f g bs : (forall b, f b = g b) -> appends f bs -> appends g bs.
Proof. intros E H b Hb. rewrite <- E. by apply H. Qed.

Lemma appends_nil : appends Ok [].
Proof. intros b Hb. by rewrite app_nil_r. Qed.

Lemma appends_seq f g a c : appends f a -> appends g c -> appends (fun b => b ← f b; g b) (a ++ c).
Proof.
  intros Hf Hg b Hb. specialize (Hf b Hb). rewrite (assoc_L (++)).
  destruct (f b) as [b'|e|]; cbn.
  - destruct Hf as [Hb' Hc]. specialize (Hg b' Hb'). rewrite Hc in Hg. by destruct (g b') as [|[]|].
  - destruct e; try done. rewrite zlen_app. pose proof (zlen_nonneg c). lia.
  - done.
Qed.

Lemma append_whole bs : zlen bs <= SIZE_MAX -> appends (fun b => buffer_append b (Some bs) (zlen bs)) bs.
Proof.
  intros H. pose proof (buffer_append_appends bs (zlen bs)) as HA. rewrite slice_all in HA.
  apply HA; [pose proof (zlen_nonneg bs); lia|lia].
Qed.

Lemma append_u32_appends v : appends (buffer_append_u32 v) (put_u32_le v).
Proof. by apply (append_whole (put_u32_le v)). Qed.
Lemma append_u64_appends v : appends (buffer_append_u64 v) (put_u64_le v).
Proof. by apply (append_whole (put_u64_le v)). Qed.

Lemma append_view_appends v : view_wf v -> len v = zlen (view_bytes v) -> len v <= UINT32_MAX ->
  appends (buffer_append_bytes_view v) (view_image (view_bytes v)).
Proof.
  intros [Hl Hd] Hz Hm. unfold view_image. rewrite <- Hz.
  pose proof (appends_seq (buffer_append_u32 (len v)) (fun b => buffer_append b (data v) (len v))
  (put_u32_le (len v)) (view_bytes v) (append_u32_appends _)) as HS.
  eapply appends_ext; [|apply HS].
  - intros b. unfold buffer_append_bytes_view. destruct (Z.ltb_spec UINT32_MAX (len v)); [lia|].
  unfold u32. rewrite Z.mod_small by (unfold UINT32_MAX in *; lia). done.
  - unfold view_bytes in *. destruct (data v) as [m|] eqn:D.
  + apply buffer_append_appends; [done|apply Hd].
  + rewrite zlen_nil in Hz. rewrite Hz. intros b Hb. unfold buffer_append; cbn.
  pose proof (buffer_reserve_spec b 0 Hb ltac:(unfold SIZE_MAX; lia)) as HR. rewrite app_nil_r, zlen_content by done.
  destruct (buffer_reserve b 0) as [b'|e|]; [|destruct e; cbn in HR |- *; try done; by rewrite Z.add_0_r in HR|done].
  cbn. destruct HR as (?&?&_). done.
Qed.

(** A record: its type, the length of its body written behind it afterwards, the body. *)
Definition put_length (b : YAP_V2_BUFFER) (start : Z) : result YAP_V2_BUFFER :=
  let n := u64 (buffer_len b - start - 8) in
  if UINT32_MAX <? n then Err YAP_V2_OUT_OF_RANGE
  else
  block ← store_bytes (buffer_data b) (start + 4) (put_u32_le (u32 n));
  Ok (Buffer block (buffer_len b)).

Definition append_record (type : Z) (body : YAP_V2_BUFFER -> result YAP_V2_BUFFER) (b : YAP_V2_BUFFER)
  : result YAP_V2_BUFFER :=
  let start := buffer_len b in
  b ← buffer_append_u32 type b;
  b ← buffer_append_u32 0 b;
  b ← body b;
  put_length b start.

Definition record_image (type : Z) (bs : bytes) : bytes := put_u32_le type ++ put_u32_le (zlen bs) ++ bs.

Lemma append_record_appends type body bs : appends body bs -> appends (append_record type body) (record_image type bs).
Proof.
  intros HB b Hb.
  pose proof (appends_seq _ _ _ _ (append_u32_appends type)
  (appends_seq _ _ _ _ (append_u32_appends 0) HB) b Hb) as HS. cbn beta in HS.
  unfold append_record. cbv zeta.
  assert (zlen (content b ++ put_u32_le type ++ put_u32_le 0 ++ bs) = zlen (content b ++ record_image type bs)) as El
  by (unfold record_image; autorewrite with zlen; done). rewrite El in HS.
  destruct (buffer_append_u32 type b) as [b1|e|]; [rewrite outcome_bind_ok in HS |- *|exact HS..].
  destruct (buffer_append_u32 0 b1) as [b2|e|]; [rewrite outcome_bind_ok in HS |- *|exact HS..].
  destruct (body b2) as [b3|e|]; [rewrite outcome_bind_ok|exact HS..].
  destruct HS as [H3 Hc]. pose proof (zlen_content b3 H3) as Hl3. pose proof (zlen_content b Hb) as Hlb.
  pose proof H3 as (?&?&?). rewrite Hc, !zlen_app, !zlen_put_u32_le, Hlb in Hl3.
  pose proof (zlen_nonneg bs). unfold put_length, YAP_V2_MAX_SEGMENT_PAYLOAD_BYTES in *. cbv zeta.
  pose proof Hb as (?&_&_). rewrite u64_small by lia.
  replace (buffer_len b3 - buffer_len b - 8) with (zlen bs) by lia.
  destruct (Z.ltb_spec UINT32_MAX (zlen bs)); [unfold UINT32_MAX in *; lia|].
  unfold u32. rewrite Z.mod_small by (unfold UINT32_MAX in *; lia).
  rewrite <- (take_drop (Z.to_nat (buffer_len b3)) (buffer_data b3)). fold (content b3). rewrite Hc.
  set (tl := drop _ _). rewrite <- !(assoc_L (++)), (assoc_L (++) (content b)).
  rewrite store_bytes_app by (done || zl). rewrite outcome_bind_ok.
  assert (zlen tl = zlen (buffer_data b3) - buffer_len b3) as Ht by (subst tl; rewrite zlen_drop; lia).
  split.
  - unfold buffer_ok, YAP_V2_MAX_SEGMENT_PAYLOAD_BYTES; cbn [buffer_len buffer_data].
  rewrite !zlen_app, !zlen_put_u32_le, Ht, Hlb. lia.
  - unfold content at 1, record_image; cbn [buffer_len buffer_data].
  rewrite !(assoc_L (++)). apply take_app_length'. rewrite <- !(assoc_L (++)), !length_app. unfold zlen in *.
  rewrite !length_put_u32_le. lia.
Qed.
End buffer.

(** ** Sequences of appends *)

(** A buffer that went through [f]. *)
Definition wrote (b : YAP_V2_BUFFER) (r : result YAP_V2_BUFFER) (bs : bytes) : Prop :=
  match r with Ok b' => buffer_ok b' /\ content b' = content b ++ bs | Err _ => True | Fault => False end.

Lemma appends_wrote {A : Allocator} f bs b : appends f bs -> buffer_ok b -> wrote b (f b) bs.
Proof. intros H Hb. specialize (H b Hb). unfold wrote. by destruct (f b) as [|[]|]. Qed.

Lemma wrote_bind {B} b r bs (k : YAP_V2_BUFFER -> result B) (Q : result B -> Prop) :
  wrote b r bs -> (forall e, Q (Err e)) -> (forall b', buffer_ok b' -> content b' = content b ++ bs -> Q (k b')) -> Q (r ≫= k).
Proof. intros HW He Hk. destruct r as [b'|e|]; [|apply He|done]. destruct HW. by apply Hk. Qed.

(** Overwriting a part of what a buffer holds. *)
Lemma store_content b a old c bs p : buffer_ok b -> content b = a ++ old ++ c -> p = zlen a -> zlen bs = zlen old ->
  exists block, store_bytes (E := YAP_V2_STATUS) (buffer_data b) p bs = Ok block /\
  buffer_ok (Buffer block (buffer_len b)) /\ content (Buffer block (buffer_len b)) = a ++ bs ++ c.
Proof.
  intros Hb Hc -> Hz. pose proof (zlen_content b Hb) as Hl. pose proof Hb as (?&?&?).
  assert (exists tail, buffer_data b = a ++ old ++ c ++ tail) as [tail E].
  { exists (drop (Z.to_nat (buffer_len b)) (buffer_data b)).
  rewrite <- (take_drop (Z.to_nat (buffer_len b)) (buffer_data b)) at 1. fold (content b). by rewrite Hc, <- !(assoc_L (++)). }
  exists (a ++ bs ++ c ++ tail). split; [rewrite E; by apply store_bytes_app|].
  assert (zlen (a ++ bs ++ c ++ tail) = zlen (buffer_data b)) as Hz' by (rewrite E, !zlen_app; lia).
  split; [unfold buffer_ok; cbn [buffer_data buffer_len]; by rewrite Hz'|].
  unfold content at 1; cbn [buffer_data buffer_len]. rewrite Hc, !zlen_app in Hl.
  rewrite !(assoc_L (++)). apply take_app_length'. rewrite !length_app. unfold zlen in *. lia.
Qed.

(** Reading back a word that stands at a known place. *)
Lemma word32_at payload a v t p : bytes_ok payload -> payload = a ++ put_u32_le v ++ t -> p = zlen a -> is_u32 v ->
  get_u32_le (E:=YAP_V2_STATUS) payload p = Ok v.
Proof.
  intros Hok -> -> Hv. apply Forall_app in Hok as [? Hok]. apply Forall_app in Hok as [_ Hok]. apply get_u32_le_app; [by apply Forall_app_2|done..].
Qed.
Lemma word64_at payload a v t p : bytes_ok payload -> payload = a ++ put_u64_le v ++ t -> p = zlen a -> is_u64 v ->
  get_u64_le (E:=YAP_V2_STATUS) payload p = Ok v.
Proof.
  intros Hok -> -> Hv. apply Forall_app in Hok as [? Hok]. apply Forall_app in Hok as [_ Hok]. apply get_u64_le_app; [by apply Forall_app_2|done..].
Qed.
