(* ===== verification/Segment.v ===== *)
(** Document segments and tombstone files
    (src/src/storage/yappo_segment_v2.c, lines 52-190 and 348-1092).

    The arrays of documents, passages and identifiers are lists; their counts are
    the lengths.  Views read from a file point into the block the file was read to. *)
From S2P Require Import Prelude Words Types Crc Sha256 Header SlotTable Manifest FileSystem Reader Buffer.
#[local] Open Scope io_scope.

Definition YAP_V2_SEGMENT_PAYLOAD_VERSION : Z := 1.
Definition YAP_V2_SEGMENT_RECORD_DOCUMENT : Z := 1.
Definition YAP_V2_SEGMENT_RECORD_PASSAGE : Z := 2.
Definition YAP_V2_MAX_SEGMENT_DOCUMENTS : Z := 1000000.
Definition YAP_V2_MAX_SEGMENT_PASSAGES : Z := 4000000.
Definition sizeof_document_view : Z := 88.
Definition sizeof_passage_view : Z := 64.
Definition sizeof_bytes_view : Z := 16.

Record YAP_V2_SEGMENT := Segment {
  segment_id : bytes;
  segment_generation : Z;
  documents : list YAP_V2_DOCUMENT_VIEW;
  passages : list YAP_V2_PASSAGE_VIEW;
  storage : bytes }.

(** ** Comparison and validation of views *)
Definition bytes_equal (lhs rhs : YAP_V2_BYTES_VIEW) : result bool :=
  if len lhs =? len rhs then
    if len lhs =? 0 then Ok true
    else
      match data lhs, data rhs with
      | Some l, Some r =>
          a ← load_bytes l 0 (len lhs);
          b ← load_bytes r 0 (len rhs);
          Ok (bool_decide (a = b))
      | _, _ => Fault
      end
  else Ok false.

(** A loop that stops at the first element for which the test holds. *)
Fixpoint exists_m {A} (f : A -> result bool) (l : list A) : result bool :=
  match l with
  | [] => Ok false
  | x :: l => b ← f x; if (b : bool) then Ok true else exists_m f l
  end.

Fixpoint validate_documents (seen todo : list YAP_V2_DOCUMENT_VIEW) : result unit :=
  match todo with
  | [] => Ok tt
  | d :: todo =>
      _ ← YAP_V2_document_validate (Some d);
      dup ← exists_m (fun e => bytes_equal (doc_id d) (doc_id e)) seen;
      if (dup : bool) then Err YAP_V2_DUPLICATE else validate_documents (seen ++ [d]) todo
  end.

Definition passage_clash (p q : YAP_V2_PASSAGE_VIEW) : result bool :=
  same_id ← bytes_equal (passage_id p) (passage_id q);
  if (same_id : bool) then Ok true
  else
    same_parent ← bytes_equal (parent_document_id p) (parent_document_id q);
    Ok ((same_parent : bool) && (ordinal p =? ordinal q)).

Fixpoint validate_passages (docs : list YAP_V2_DOCUMENT_VIEW) (seen todo : list YAP_V2_PASSAGE_VIEW) : result unit :=
  match todo with
  | [] => Ok tt
  | p :: todo =>
      _ ← YAP_V2_passage_validate (Some p);
      parent_found ← exists_m (fun d => bytes_equal (parent_document_id p) (doc_id d)) docs;
      if negb parent_found then Err YAP_V2_INVALID_FORMAT
      else
      dup ← exists_m (passage_clash p) seen;
      if (dup : bool) then Err YAP_V2_DUPLICATE else validate_passages docs (seen ++ [p]) todo
  end.

Definition validate_segment_views (docs : list YAP_V2_DOCUMENT_VIEW) (pass : list YAP_V2_PASSAGE_VIEW) : result unit :=
  if (YAP_V2_MAX_SEGMENT_DOCUMENTS <? zlen docs) || (YAP_V2_MAX_SEGMENT_PASSAGES <? zlen pass)
  then Err YAP_V2_OUT_OF_RANGE
  else
  _ ← validate_documents [] docs;
  validate_passages docs [] pass.

(** ** Writing *)
Section segment_write.
Context {A : Allocator} (garbage : nat -> Z).

Definition append_document_record (d : YAP_V2_DOCUMENT_VIEW) : YAP_V2_BUFFER -> result YAP_V2_BUFFER :=
  append_record garbage YAP_V2_SEGMENT_RECORD_DOCUMENT (fun b =>
  b ← buffer_append_bytes_view garbage (doc_id d) b;
  b ← buffer_append_bytes_view garbage (url d) b;
  b ← buffer_append_bytes_view garbage (title d) b;
  b ← buffer_append_bytes_view garbage (body d) b;
  b ← buffer_append_bytes_view garbage (metadata_json d) b;
  buffer_append_u64 garbage (u64 (updated_at_unix_ms d)) b).

Definition append_passage_record (p : YAP_V2_PASSAGE_VIEW) : YAP_V2_BUFFER -> result YAP_V2_BUFFER :=
  append_record garbage YAP_V2_SEGMENT_RECORD_PASSAGE (fun b =>
  b ← buffer_append_bytes_view garbage (passage_id p) b;
  b ← buffer_append_bytes_view garbage (parent_document_id p) b;
  b ← buffer_append_bytes_view garbage (text p) b;
  b ← buffer_append_u32 garbage (ordinal p) b;
  b ← buffer_append_u32 garbage (start_char p) b;
  buffer_append_u32 garbage (end_char p) b).

Fixpoint append_all {B} (f : B -> YAP_V2_BUFFER -> result YAP_V2_BUFFER) (l : list B) (b : YAP_V2_BUFFER)
  : result YAP_V2_BUFFER :=
  match l with
  | [] => Ok b
  | x :: l => b ← f x b; append_all f l b
  end.

Definition append_segment (sid : bytes) (docs : list YAP_V2_DOCUMENT_VIEW) (pass : list YAP_V2_PASSAGE_VIEW)
  (b : YAP_V2_BUFFER) : result YAP_V2_BUFFER :=
  b ← buffer_append_u32 garbage YAP_V2_SEGMENT_PAYLOAD_VERSION b;
  b ← buffer_append_u32 garbage (u32 (zlen sid)) b;
  b ← buffer_append garbage b (Some sid) (zlen sid);
  b ← buffer_append_u64 garbage (zlen docs) b;
  b ← buffer_append_u64 garbage (zlen pass) b;
  b ← append_all append_document_record docs b;
  append_all append_passage_record pass b.

(** Header and payload in one block, as both writers assemble their file. *)
Definition assemble (type generation : Z) (payload : YAP_V2_BUFFER) : result bytes :=
  bs ← load_bytes (buffer_data payload) 0 (buffer_len payload);
  header_bytes ← YAP_V2_file_header_encode
  (Some (FileHeader YAP_V2_FORMAT_VERSION YAP_V2_FILE_HEADER_BYTES type generation (buffer_len payload) (crc32c bs)))
  (Some (garbage <$> seq 0 32));
  if SIZE_MAX - YAP_V2_FILE_HEADER_BYTES <? buffer_len payload then Err YAP_V2_OUT_OF_RANGE
  else
  let file_size := YAP_V2_FILE_HEADER_BYTES + buffer_len payload in
  if negb (alloc_ok file_size) then Err YAP_V2_ALLOCATION_FAILED
  else
  file ← store_bytes (garbage <$> seq 0 (Z.to_nat file_size)) 0 header_bytes;
  store_bytes file YAP_V2_FILE_HEADER_BYTES bs.

(** The bytes [YAP_V2_segment_write] writes. *)
Definition segment_file_data (sid : bytes) (generation : Z) (docs : list YAP_V2_DOCUMENT_VIEW)
  (pass : list YAP_V2_PASSAGE_VIEW) : result bytes :=
  _ ← YAP_V2_segment_id_validate (Some sid);
  _ ← validate_segment_views docs pass;
  if UINT32_MAX <? zlen sid then Err YAP_V2_OUT_OF_RANGE
  else
  payload ← append_segment sid docs pass buffer_zero;
  assemble YAP_V2_FILE_DOCUMENTS generation payload.

Definition stack_sha : YAP_V2_SHA256 := Sha256Ctx [] 0 (garbage <$> seq 0 64) 0.

Definition DOCUMENTS_NAME : bytes := [100; 111; 99; 117; 109; 101; 110; 116; 115; 46; 121; 97; 112; 50].
Definition TOMBSTONES_NAME : bytes := [116; 111; 109; 98; 115; 116; 111; 110; 101; 115; 46; 121; 97; 112; 50].

(** The descriptor of a documents file with one component. *)
Definition documents_descriptor (sid : bytes) (document_count passage_count file_size : Z) (checksum : bytes)
  : result YAP_V2_SEGMENT_DESCRIPTOR :=
  YAP_V2_segment_descriptor_add_component
  (Some (SegmentDescriptor sid document_count passage_count 0 []))
  (Some (ComponentDescriptor DOCUMENTS_NAME YAP_V2_FILE_DOCUMENTS (u64 (document_count + passage_count))
         file_size checksum)).

Definition YAP_V2_segment_write (p : option path) (sid : option bytes) (generation : Z)
  (docs : list YAP_V2_DOCUMENT_VIEW) (pass : list YAP_V2_PASSAGE_VIEW) : io (result YAP_V2_SEGMENT_DESCRIPTOR) :=
  match p, sid with
  | Some p, Some sid =>
  if generation =? 0 then io_ret (Err YAP_V2_INVALID_ARGUMENT)
  else
  match segment_file_data sid generation docs pass with
  | Err e => io_ret (Err e)
  | Fault => io_ret Fault
  | Ok file =>
      match sha256_digest stack_sha file with
      | Ok checksum =>
          let* status := write_atomic p file in
          io_ret (_ ← status; documents_descriptor sid (zlen docs) (zlen pass) (zlen file) checksum)
      | Err e => io_ret (Err e)
      | Fault => io_ret Fault
      end
  end
  | _, _ => io_ret (Err YAP_V2_INVALID_ARGUMENT)
  end.

(** *** Tombstones *)
Fixpoint append_tombstones (seen todo : list YAP_V2_BYTES_VIEW) (b : YAP_V2_BUFFER) : result YAP_V2_BUFFER :=
  match todo with
  | [] => Ok b
  | v :: todo =>
  if bool_decide (data v = None) || (len v =? 0) || (YAP_V2_MAX_IDENTIFIER_BYTES <? len v)
  then Err YAP_V2_INVALID_FORMAT
  else
  dup ← exists_m (fun u => bytes_equal v u) seen;
  if (dup : bool) then Err YAP_V2_DUPLICATE
  else
  b ← buffer_append_bytes_view garbage v b;
  append_tombstones (seen ++ [v]) todo b
  end.

Definition tombstones_file_data (generation : Z) (ids : list YAP_V2_BYTES_VIEW) : result bytes :=
  b ← buffer_append_u32 garbage 1 buffer_zero;
  b ← buffer_append_u64 garbage (zlen ids) b;
  payload ← append_tombstones [] ids b;
  assemble YAP_V2_FILE_TOMBSTONES generation payload.

Definition YAP_V2_tombstones_write (p : option path) (generation : Z) (ids : list YAP_V2_BYTES_VIEW)
  : io (result YAP_V2_COMPONENT_DESCRIPTOR) :=
  match p with
  | Some p =>
  if generation =? 0 then io_ret (Err YAP_V2_INVALID_ARGUMENT)
  else
  match tombstones_file_data generation ids with
  | Err e => io_ret (Err e)
  | Fault => io_ret Fault
  | Ok file =>
      let* status := write_atomic p file in
      io_ret (_ ← status;
              checksum ← sha256_digest stack_sha file;
              Ok (ComponentDescriptor TOMBSTONES_NAME YAP_V2_FILE_TOMBSTONES (zlen ids) (zlen file) checksum))
  end
  | None => io_ret (Err YAP_V2_INVALID_ARGUMENT)
  end.
End segment_write.

(** ** Reading *)

(** The C string that starts a block: the bytes before its first NUL. *)
Fixpoint c_str (m : bytes) : bytes :=
  match m with
  | [] => []
  | c :: m => if c =? 0 then [] else c :: c_str m
  end.

(** One record: type, length, and a body that must end where the length says. *)
Definition read_record {B} (type : Z) (read_body : reader B) : reader B := fun data len off =>
  '(record_type, off) ← read_u32 data len off;
  '(record_bytes, off) ← read_u32 data len off;
  if u64 (len - off) <? record_bytes then Err YAP_V2_INVALID_FORMAT
  else
  let record_end := u64 (off + record_bytes) in
  if record_type =? type then
    '(b, off) ← read_body data record_end off;
    if negb (off =? record_end) then Err YAP_V2_INVALID_FORMAT else Ok (b, record_end)
  else Err YAP_V2_INVALID_FORMAT.

Definition read_document : reader YAP_V2_DOCUMENT_VIEW :=
  read_record YAP_V2_SEGMENT_RECORD_DOCUMENT (
    doc_id ← read_bytes_view;
    url ← read_bytes_view;
    title ← read_bytes_view;
    body ← read_bytes_view;
    metadata_json ← read_bytes_view;
    updated_at ← read_u64;
    _ ← refuse_if (INT64_MAX <? updated_at) YAP_V2_OUT_OF_RANGE;
    mret (DocumentView doc_id url title body metadata_json updated_at)).

Definition read_passage : reader YAP_V2_PASSAGE_VIEW :=
  read_record YAP_V2_SEGMENT_RECORD_PASSAGE (
    passage_id ← read_bytes_view;
    parent_document_id ← read_bytes_view;
    text ← read_bytes_view;
    ordinal ← read_u32;
    start_char ← read_u32;
    end_char ← read_u32;
    mret (PassageView passage_id parent_document_id text ordinal start_char end_char)).

Section segment_read.
Context {A : Allocator} (garbage : nat -> Z).

(** [calloc] of [n] elements, when there are any. *)
Definition calloc_views (n size : Z) : reader unit :=
  refuse_if ((0 <? n) && negb (alloc_ok (n * size))) YAP_V2_ALLOCATION_FAILED.

(** An error while the payload header is read is reported as [YAP_V2_INVALID_FORMAT]. *)
Definition read_segment_id : reader bytes := fun data len off =>
  '(payload_version, off) ← read_u32 data len off;
  '(segment_id_len, off) ← read_u32 data len off;
  if negb (payload_version =? YAP_V2_SEGMENT_PAYLOAD_VERSION) || (segment_id_len =? 0) ||
 (YAP_V2_MAX_IDENTIFIER_BYTES <? segment_id_len) || (u64 (len - off) <? segment_id_len)
  then Err YAP_V2_INVALID_FORMAT
  else
  raw ← load_bytes data off segment_id_len;
  _ ← YAP_V2_segment_id_validate (Some (c_str raw));
  Ok (c_str raw, u64 (off + segment_id_len)).

Definition read_segment : reader (bytes * list YAP_V2_DOCUMENT_VIEW * list YAP_V2_PASSAGE_VIEW) :=
  sid ← read_segment_id;
  document_count ← read_u64;
  passage_count ← read_u64;
  _ ← refuse_if ((YAP_V2_MAX_SEGMENT_DOCUMENTS <? document_count) ||
             (YAP_V2_MAX_SEGMENT_PASSAGES <? passage_count) ||
             (SIZE_MAX <? document_count) || (SIZE_MAX <? passage_count)) YAP_V2_OUT_OF_RANGE;
  _ ← calloc_views document_count sizeof_document_view;
  _ ← calloc_views passage_count sizeof_passage_view;
  docs ← read_list read_document (Z.to_nat document_count);
  pass ← read_list read_passage (Z.to_nat passage_count);
  mret (sid, docs, pass).

(** The checks both readers make on the header of a file of [file_size] bytes. *)
Definition check_header (type expected_generation : Z) (file : bytes) : result YAP_V2_FILE_HEADER :=
  if zlen file <? YAP_V2_FILE_HEADER_BYTES then Err YAP_V2_INVALID_FORMAT
  else
  match YAP_V2_file_header_decode (Some file) with
  | Fault => Fault
  | Err _ => Err YAP_V2_INVALID_FORMAT
  | Ok header =>
  if negb (file_type header =? type) ||
     negb (payload_bytes header =? zlen file - YAP_V2_FILE_HEADER_BYTES) ||
     (negb (expected_generation =? 0) && negb (generation header =? expected_generation))
  then Err YAP_V2_INVALID_FORMAT
  else
  payload ← load_bytes file YAP_V2_FILE_HEADER_BYTES (zlen file - YAP_V2_FILE_HEADER_BYTES);
  if negb (crc32c payload =? payload_crc32c header) then Err YAP_V2_CHECKSUM_MISMATCH else Ok header
  end.

(** [YAP_V2_segment_read] behind the reading of the file; the descriptor is filled when the
caller asks for it. *)
Definition segment_parse (expected_generation : Z) (want_descriptor : bool) (file : bytes)
  : result (YAP_V2_SEGMENT * option YAP_V2_SEGMENT_DESCRIPTOR) :=
  header ← check_header YAP_V2_FILE_DOCUMENTS expected_generation file;
  checksum ← sha256_digest (stack_sha garbage) file;
  if YAP_V2_MAX_SEGMENT_PAYLOAD_BYTES <? payload_bytes header then Err YAP_V2_OUT_OF_RANGE
  else
  let storage_bytes := zlen file - YAP_V2_FILE_HEADER_BYTES in
  if negb (alloc_ok storage_bytes) && (0 <? storage_bytes) then Err YAP_V2_ALLOCATION_FAILED
  else
  storage ← load_bytes file YAP_V2_FILE_HEADER_BYTES storage_bytes;
  '(sid, docs, pass, offset) ← read_segment storage storage_bytes 0;
  if negb (offset =? storage_bytes) then Err YAP_V2_INVALID_FORMAT
  else
  match validate_segment_views docs pass with
  | Fault => Fault
  | Err _ => Err YAP_V2_INVALID_FORMAT
  | Ok _ =>
  let segment := Segment sid (generation header) docs pass storage in
  if (want_descriptor : bool) then
    descriptor ← documents_descriptor sid (zlen docs) (zlen pass) (zlen file) checksum;
    Ok (segment, Some descriptor)
  else Ok (segment, None)
  end.

(** *** Tombstones *)
Fixpoint read_tombstones (seen : list YAP_V2_BYTES_VIEW) (count : nat) : reader (list YAP_V2_BYTES_VIEW) :=
  match count with
  | O => mret seen
  | S count =>
  v ← read_bytes_view;
  _ ← refuse_if ((len v =? 0) || (YAP_V2_MAX_IDENTIFIER_BYTES <? len v)) YAP_V2_INVALID_FORMAT;
  dup ← (fun _ _ off => b ← exists_m (fun u => bytes_equal v u) seen; Ok (b, off));
  _ ← refuse_if dup YAP_V2_DUPLICATE;
  read_tombstones (seen ++ [v]) count
  end.

Definition tombstones_parse (expected_generation : Z) (file : bytes) : result (list YAP_V2_BYTES_VIEW) :=
  header ← check_header YAP_V2_FILE_TOMBSTONES expected_generation file;
  '(ids, offset) ← (payload_version ← read_u32;
                count ← read_u64;
                _ ← refuse_if (negb (payload_version =? 1) || (YAP_V2_MAX_SEGMENT_DOCUMENTS <? count) ||
                               (SIZE_MAX <? count)) YAP_V2_INVALID_FORMAT;
                _ ← calloc_views count sizeof_bytes_view;
                read_tombstones [] (Z.to_nat count)) file (zlen file) YAP_V2_FILE_HEADER_BYTES;
  if negb (offset =? zlen file) then Err YAP_V2_INVALID_FORMAT else Ok ids.

(** ** The file-reading shell *)
Definition read_file (p : path) : io (result bytes) :=
  let* file := fopen_rb p in
  match file with
  | None => io_ret (Err YAP_V2_IO_ERROR)
  | Some bs =>
  let close (r : result bytes) := do* fclose_rb in io_ret r in
  let* at_end := fstat in
  if negb at_end then close (Err YAP_V2_IO_ERROR)
  else
  let* told := fstat in
  if negb told then close (Err YAP_V2_IO_ERROR)
  else if YAP_V2_FILE_HEADER_BYTES + YAP_V2_MAX_SEGMENT_PAYLOAD_BYTES <? zlen bs
  then close (Err YAP_V2_OUT_OF_RANGE)
  else
  let* rewound := fstat in
  if negb rewound then close (Err YAP_V2_IO_ERROR)
  else if negb (alloc_ok (zlen bs)) && (0 <? zlen bs) then close (Err YAP_V2_ALLOCATION_FAILED)
  else
  let* read := (if 0 <? zlen bs then fread_all else io_ret true) in
  if negb read then close (Err YAP_V2_IO_ERROR)
  else
  let* closed := fclose_rb in
  io_ret (if negb closed then Err YAP_V2_IO_ERROR else Ok bs)
  end.

Definition YAP_V2_segment_read (p : option path) (expected_generation : Z) (want_descriptor : bool)
  : io (result (YAP_V2_SEGMENT * option YAP_V2_SEGMENT_DESCRIPTOR)) :=
  match p with
  | None => io_ret (Err YAP_V2_INVALID_ARGUMENT)
  | Some p =>
  let* r := read_file p in
  io_ret (file ← r; segment_parse expected_generation want_descriptor file)
  end.

Definition YAP_V2_tombstones_read (p : option path) (expected_generation : Z)
  : io (result (list YAP_V2_BYTES_VIEW)) :=
  match p with
  | None => io_ret (Err YAP_V2_INVALID_ARGUMENT)
  | Some p =>
  let* r := read_file p in
  io_ret (file ← r; tombstones_parse expected_generation file)
  end.
End segment_read.

(** ** Specification *)
Definition document_image (d : YAP_V2_DOCUMENT_VIEW) : bytes :=
  view_image (view_bytes (doc_id d)) ++ view_image (view_bytes (url d)) ++ view_image (view_bytes (title d)) ++
  view_image (view_bytes (body d)) ++ view_image (view_bytes (metadata_json d)) ++
  put_u64_le (updated_at_unix_ms d).

Definition passage_image (p : YAP_V2_PASSAGE_VIEW) : bytes :=
  view_image (view_bytes (passage_id p)) ++ view_image (view_bytes (parent_document_id p)) ++
  view_image (view_bytes (text p)) ++ put_u32_le (ordinal p) ++ put_u32_le (start_char p) ++ put_u32_le (end_char p).

Definition document_record (d : YAP_V2_DOCUMENT_VIEW) : bytes := record_image YAP_V2_SEGMENT_RECORD_DOCUMENT (document_image d).
Definition passage_record (p : YAP_V2_PASSAGE_VIEW) : bytes := record_image YAP_V2_SEGMENT_RECORD_PASSAGE (passage_image p).

Definition segment_payload (sid : bytes) (docs : list YAP_V2_DOCUMENT_VIEW) (pass : list YAP_V2_PASSAGE_VIEW) : bytes :=
  put_u32_le YAP_V2_SEGMENT_PAYLOAD_VERSION ++ put_u32_le (zlen sid) ++ sid ++ put_u64_le (zlen docs) ++
  put_u64_le (zlen pass) ++ (docs ≫= document_record) ++ (pass ≫= passage_record).

Definition tombstones_payload (ids : list YAP_V2_BYTES_VIEW) : bytes :=
  put_u32_le 1 ++ put_u64_le (zlen ids) ++ (ids ≫= fun v => view_image (view_bytes v)).

Definition file_header (type generation : Z) (payload : bytes) : YAP_V2_FILE_HEADER :=
  FileHeader YAP_V2_FORMAT_VERSION YAP_V2_FILE_HEADER_BYTES type generation (zlen payload) (crc32c payload).
Definition file_image (type generation : Z) (payload : bytes) : bytes :=
  header_image (file_header type generation payload) ++ payload.

(** A view with readable bytes, and the view of the same bytes in a file. *)
Definition view_ok (v : YAP_V2_BYTES_VIEW) : Prop := view_wf v /\ len v = zlen (view_bytes v).
Definition canon (v : YAP_V2_BYTES_VIEW) : YAP_V2_BYTES_VIEW := mk_view (view_bytes v).
Definition canon_document (d : YAP_V2_DOCUMENT_VIEW) : YAP_V2_DOCUMENT_VIEW :=
  DocumentView (canon (doc_id d)) (canon (url d)) (canon (title d)) (canon (body d)) (canon (metadata_json d))
    (updated_at_unix_ms d).
Definition canon_passage (p : YAP_V2_PASSAGE_VIEW) : YAP_V2_PASSAGE_VIEW :=
  PassageView (canon (passage_id p)) (canon (parent_document_id p)) (canon (text p))
    (ordinal p) (start_char p) (end_char p).

Definition document_ids (docs : list YAP_V2_DOCUMENT_VIEW) : list bytes := (fun d => view_bytes (doc_id d)) <$> docs.
Definition passage_ids (pass : list YAP_V2_PASSAGE_VIEW) : list bytes := (fun p => view_bytes (passage_id p)) <$> pass.
Definition passage_slots (pass : list YAP_V2_PASSAGE_VIEW) : list (bytes * Z) :=
  (fun p => (view_bytes (parent_document_id p), ordinal p)) <$> pass.

(** What a segment may contain. *)
Definition segment_views_valid (docs : list YAP_V2_DOCUMENT_VIEW) (pass : list YAP_V2_PASSAGE_VIEW) : Prop :=
  zlen docs <= YAP_V2_MAX_SEGMENT_DOCUMENTS /\ zlen pass <= YAP_V2_MAX_SEGMENT_PASSAGES /\
  Forall document_valid docs /\ NoDup (document_ids docs) /\
  Forall passage_valid pass /\ Forall (fun p => view_bytes (parent_document_id p) ∈ document_ids docs) pass /\
  NoDup (passage_ids pass) /\ NoDup (passage_slots pass).

(** ** Comparison and validation *)
Lemma text_ok_view max req v : view_wf v -> text_ok max req v -> view_ok v.
Proof. intros Hw (_&_&Hl&_). done. Qed.

Lemma bytes_equal_spec l r : view_ok l -> view_ok r ->
  bytes_equal l r = Ok (bool_decide (view_bytes l = view_bytes r)).
Proof.
  intros [[Hl Hld] El] [[Hr Hrd] Er]. unfold bytes_equal.
  destruct (Z.eqb_spec (len l) (len r)) as [E|N].
  2: { rewrite bool_decide_false; [done|]. intros E. apply N. by rewrite El, Er, E. }
  destruct (Z.eqb_spec (len l) 0) as [E0|N0].
  - rewrite bool_decide_true; [done|].
    assert (forall b : bytes, zlen b = 0 -> b = []) as Hn by (intros [|? ?]; [done|unfold zlen; cbn; lia]).
    rewrite (Hn (view_bytes l)), (Hn (view_bytes r)) by congruence. done.
  - unfold view_bytes in *. destruct (data l) as [m|], (data r) as [m'|];
      try (rewrite zlen_nil in *; exfalso; congruence).
    unfold load_bytes. rewrite !(proj2 (in_range_true _ _ _)), !outcome_bind_ok by lia. done.
Qed.

Lemma exists_m_spec {A} (f : A -> result bool) (g : A -> bool) l :
  Forall (fun x => f x = Ok (g x)) l -> exists_m f l = Ok (existsb g l).
Proof.
  induction 1 as [|x l Hx _ IH]; cbn [exists_m existsb]; [done|].
  rewrite Hx, outcome_bind_ok. by destruct (g x).
Qed.

Lemma existsb_elem {A B} `{EqDecision B} (g : A -> B) x l :
  existsb (fun e => bool_decide (x = g e)) l = bool_decide (x ∈ g <$> l).
Proof.
  induction l as [|e l IH]; cbn [existsb]; [symmetry; apply bool_decide_false, not_elem_of_nil|].
  rewrite IH, fmap_cons, <- bool_decide_or. apply bool_decide_ext. by rewrite elem_of_cons.
Qed.

Definition doc_ok (d : YAP_V2_DOCUMENT_VIEW) : Prop := document_wf d /\ document_valid d.
Definition pass_ok (p : YAP_V2_PASSAGE_VIEW) : Prop := passage_wf p /\ passage_valid p.

Lemma doc_ok_id d : doc_ok d -> view_ok (doc_id d).
Proof. intros [(?&_) (?&_)]. by eapply text_ok_view. Qed.
Lemma pass_ok_id p : pass_ok p -> view_ok (passage_id p).
Proof. intros [(?&_) (?&_)]. by eapply text_ok_view. Qed.
Lemma pass_ok_parent p : pass_ok p -> view_ok (parent_document_id p).
Proof. intros [(_&?&_) (_&?&_)]. by eapply text_ok_view. Qed.

Lemma document_dup_spec d seen : doc_ok d -> Forall doc_ok seen ->
  exists_m (fun e => bytes_equal (doc_id d) (doc_id e)) seen =
  Ok (bool_decide (view_bytes (doc_id d) ∈ document_ids seen)).
Proof.
  intros Hd Hs. unfold document_ids. rewrite <- existsb_elem. apply exists_m_spec.
  eapply Forall_impl; [exact Hs|]. intros e He. apply bytes_equal_spec; by apply doc_ok_id.
Qed.

Lemma NoDup_snoc_iff {B} (l : list B) x : NoDup (l ++ [x]) <-> NoDup l /\ x ∉ l.
Proof. rewrite NoDup_app. pose proof (NoDup_singleton x). set_solver. Qed.

Lemma validate_documents_spec seen todo :
  Forall doc_ok seen -> Forall document_wf todo -> NoDup (document_ids seen) ->
  validate_documents seen todo <> Fault /\
  (validate_documents seen todo = Ok tt <-> Forall document_valid todo /\ NoDup (document_ids (seen ++ todo))).
Proof.
  revert seen; induction todo as [|d todo IH]; intros seen Hs Hw HN; cbn [validate_documents].
  - rewrite app_nil_r. split; [done|]. split; [|done]. intros _. split; [constructor|done].
  - apply Forall_cons in Hw as [Hd Hw]. pose proof (document_validate_safe d Hd) as HS.
    pose proof (document_validate_iff d Hd) as HV. rewrite Forall_cons.
    destruct (YAP_V2_document_validate (Some d)) as [[]| |]; [|split; [done|split; [done|]]|done].
    2: { intros [[Hx _] _]. apply HV in Hx. done. }
    assert (document_valid d) as Hdv by (by apply HV). rewrite outcome_bind_ok.
    rewrite document_dup_spec, outcome_bind_ok by done.
    change (d :: todo) with ([d] ++ todo). rewrite (assoc_L (++)).
    assert (document_ids (seen ++ [d]) = document_ids seen ++ [view_bytes (doc_id d)]) as Ed
      by (unfold document_ids; by rewrite fmap_app).
    case_bool_decide as Hin.
    + split; [done|]. split; [done|]. intros [_ H]. unfold document_ids in H. rewrite fmap_app in H.
      apply NoDup_app in H as (H&_&_). change (NoDup (document_ids (seen ++ [d]))) in H. rewrite Ed in H.
      by apply NoDup_snoc_iff in H as [_ H].
    + destruct (IH (seen ++ [d])) as [IH1 IH2]; [by apply Forall_app_2; [|constructor]|done| |].
      { rewrite Ed. by apply NoDup_snoc_iff. }
      split; [done|]. rewrite IH2. tauto.
Qed.

Lemma passage_clash_spec p q : pass_ok p -> pass_ok q ->
  passage_clash p q = Ok (bool_decide (view_bytes (passage_id p) = view_bytes (passage_id q)) ||
    bool_decide ((view_bytes (parent_document_id p), ordinal p) = (view_bytes (parent_document_id q), ordinal q))).
Proof.
  intros Hp Hq. unfold passage_clash.
  rewrite (bytes_equal_spec (passage_id p)), outcome_bind_ok by (by apply pass_ok_id).
  case_bool_decide; [done|].
  rewrite bytes_equal_spec, outcome_bind_ok by (by apply pass_ok_parent). cbn [orb]. f_equal.
  destruct (Z.eqb_spec (ordinal p) (ordinal q)); repeat case_bool_decide; cbn; intuition congruence.
Qed.

Lemma existsb_or {B} (f g : B -> bool) l : existsb (fun x => f x || g x) l = existsb f l || existsb g l.
Proof.
  induction l as [|x l IH]; [done|]. cbn [existsb]. rewrite IH.
  destruct (f x), (g x), (existsb f l), (existsb g l); done.
Qed.

Lemma passage_dup_spec p seen : pass_ok p -> Forall pass_ok seen ->
  exists_m (passage_clash p) seen =
  Ok (bool_decide (view_bytes (passage_id p) ∈ passage_ids seen) ||
      bool_decide ((view_bytes (parent_document_id p), ordinal p) ∈ passage_slots seen)).
Proof.
  intros Hp Hs. unfold passage_ids, passage_slots. rewrite <- !existsb_elem, <- existsb_or. apply exists_m_spec.
  eapply Forall_impl; [exact Hs|]. intros q Hq. by apply passage_clash_spec.
Qed.

Lemma parent_found_spec p docs : pass_ok p -> Forall doc_ok docs ->
  exists_m (fun d => bytes_equal (parent_document_id p) (doc_id d)) docs =
  Ok (bool_decide (view_bytes (parent_document_id p) ∈ document_ids docs)).
Proof.
  intros Hp Hs. unfold document_ids. rewrite <- existsb_elem. apply exists_m_spec.
  eapply Forall_impl; [exact Hs|]. intros e He. apply bytes_equal_spec; [by apply pass_ok_parent|by apply doc_ok_id].
Qed.

Lemma passages_snoc seen p todo :
  passage_ids (seen ++ p :: todo) = passage_ids ((seen ++ [p]) ++ todo) /\
  passage_slots (seen ++ p :: todo) = passage_slots ((seen ++ [p]) ++ todo) /\
  passage_ids (seen ++ [p]) = passage_ids seen ++ [view_bytes (passage_id p)] /\
  passage_slots (seen ++ [p]) = passage_slots seen ++ [(view_bytes (parent_document_id p), ordinal p)].
Proof. rewrite <- !(assoc_L (++)). unfold passage_ids, passage_slots. by rewrite !fmap_app. Qed.

Lemma NoDup_prefix {B C} (f : B -> C) l k : NoDup (f <$> (l ++ k)) -> NoDup (f <$> l).
Proof. rewrite fmap_app, NoDup_app. tauto. Qed.

Lemma validate_passages_spec docs seen todo :
  Forall doc_ok docs -> Forall pass_ok seen -> Forall passage_wf todo ->
  NoDup (passage_ids seen) -> NoDup (passage_slots seen) ->
  validate_passages docs seen todo <> Fault /\
  (validate_passages docs seen todo = Ok tt <->
   Forall passage_valid todo /\ Forall (fun p => view_bytes (parent_document_id p) ∈ document_ids docs) todo /\
   NoDup (passage_ids (seen ++ todo)) /\ NoDup (passage_slots (seen ++ todo))).
Proof.
  intros Hdocs. revert seen; induction todo as [|p todo IH]; intros seen Hs Hw HN1 HN2; cbn [validate_passages].
  - rewrite app_nil_r. split; [done|]. split; [|done]. intros _. split_and!; [apply Forall_nil_2|apply Forall_nil_2|done|done].
  - apply Forall_cons in Hw as [Hp Hw]. pose proof (passage_validate_safe p Hp) as HS.
    pose proof (passage_validate_iff p Hp) as HV. rewrite !Forall_cons.
    destruct (YAP_V2_passage_validate (Some p)) as [[]| |]; [|split; [done|split; [done|]]|done].
    2: { intros [[Hx _] _]. apply HV in Hx. done. }
    assert (pass_ok p) as Hpo by (split; [done|by apply HV]). rewrite outcome_bind_ok.
    rewrite parent_found_spec, outcome_bind_ok by done.
    case_bool_decide as Hpar; cbn [negb]; [|split; [done|]; split; [done|tauto]].
    rewrite passage_dup_spec, outcome_bind_ok by done.
    destruct (passages_snoc seen p todo) as (->&->&E1&E2).
    destruct (_ || _) eqn:D.
    + split; [done|]. split; [done|]. intros (_&_&H1&H2). exfalso.
      apply NoDup_prefix in H1, H2. fold (passage_ids (seen ++ [p])) (passage_slots (seen ++ [p])) in *.
      rewrite E1 in H1. rewrite E2 in H2. apply NoDup_snoc_iff in H1 as [_ H1], H2 as [_ H2].
      rewrite !bool_decide_false in D by done. done.
    + apply orb_false_iff in D as [D1 D2]. btests.
      destruct (IH (seen ++ [p])) as [IH1 IH2]; [by apply Forall_app_2; [|constructor]|done|..].
      { rewrite E1. by apply NoDup_snoc_iff. }
      { rewrite E2. by apply NoDup_snoc_iff. }
      split; [done|]. rewrite IH2. destruct Hpo as [_ Hpv]. tauto.
Qed.

(** Validation of the arrays decides [segment_views_valid]. *)
Lemma validate_segment_views_spec docs pass : Forall document_wf docs -> Forall passage_wf pass ->
  validate_segment_views docs pass <> Fault /\
  (validate_segment_views docs pass = Ok tt <-> segment_views_valid docs pass).
Proof.
  intros Hd Hp. unfold validate_segment_views, segment_views_valid.
  destruct (Z.ltb_spec YAP_V2_MAX_SEGMENT_DOCUMENTS (zlen docs)); [split; [done|split; [done|lia]]|].
  destruct (Z.ltb_spec YAP_V2_MAX_SEGMENT_PASSAGES (zlen pass)); [split; [done|split; [done|lia]]|]. cbn [orb].
  destruct (validate_documents_spec [] docs) as [HF HV]; [constructor|done|constructor|]. cbn [app] in HV.
  destruct (validate_documents [] docs) as [[]| |]; [|split; [done|split; [done|]]|done].
  2: { intros (_&_&Hx&Hy&_). assert (Err e = Ok tt :> result unit) by (by apply HV). done. }
  assert (Forall document_valid docs /\ NoDup (document_ids docs)) as [Hdv HN] by (by apply HV).
  rewrite outcome_bind_ok.
  destruct (validate_passages_spec docs [] pass) as [HF' HV']; [|apply Forall_nil_2|done|apply NoDup_nil_2|apply NoDup_nil_2|].
  { apply Forall_forall. intros d Hin. split; [by eapply Forall_forall in Hd|by eapply Forall_forall in Hdv]. }
  split; [done|]. cbn [app] in HV'. rewrite HV'. tauto.
Qed.

(** ** Writing produces the image *)
Section write_proofs.
Context {A : Allocator} (garbage : nat -> Z).

Lemma zlen_garbage n : zlen (garbage <$> seq 0 n) = Z.of_nat n.
Proof. unfold zlen. by rewrite length_fmap, length_seq. Qed.

Lemma assemble_spec type g b : header_fields_invalid (file_header type g (content b)) = false -> buffer_ok b ->
  (assemble garbage type g b = Err YAP_V2_ALLOCATION_FAILED /\ exists n, alloc_ok n = false) \/
  assemble garbage type g b = Ok (file_image type g (content b)).
Proof.
  intros Hh Hb. pose proof (zlen_content b Hb) as Hz. pose proof Hb as (Hl&Hm&_). unfold assemble.
  assert (load_bytes (E:=YAP_V2_STATUS) (buffer_data b) 0 (buffer_len b) = Ok (content b)) as ->.
  { unfold load_bytes. by rewrite (proj2 (in_range_true _ _ _)) by lia. }
  rewrite outcome_bind_ok, <- Hz.
  change (FileHeader _ _ type g _ _) with (file_header type g (content b)).
  rewrite <- (app_nil_r (garbage <$> seq 0 32)), file_header_encode_image by (done || apply zlen_garbage).
  rewrite outcome_bind_ok, app_nil_r. unfold YAP_V2_FILE_HEADER_BYTES, SIZE_MAX, YAP_V2_MAX_SEGMENT_PAYLOAD_BYTES in *.
  destruct (Z.ltb_spec (2 ^ 64 - 1 - 32) (zlen (content b))); [lia|]. cbv zeta.
  destruct (alloc_ok _) eqn:HA; cbn [negb]; [right|left; eauto].
  set (blk := garbage <$> _). assert (zlen blk = 32 + zlen (content b)) as Hblk.
  { subst blk. rewrite zlen_garbage. pose proof (zlen_nonneg (content b)). lia. }
  pose proof (zlen_nonneg (content b)).
  change blk with ([] ++ blk). rewrite store_bytes_next by (done || (rewrite zlen_header_image; lia)).
  cbn [app]. rewrite outcome_bind_ok, store_bytes_next; [|by rewrite zlen_header_image|rewrite zlen_drop; change (Z.of_nat (length (header_image _))) with 32; lia].
  rewrite drop_drop, drop_ge, app_nil_r; [done|]. unfold zlen in *. change (length (header_image _)) with 32%nat. lia.
Qed.

Lemma append_all_appends {B} (f : B -> YAP_V2_BUFFER -> result YAP_V2_BUFFER) (enc : B -> bytes) l :
  Forall (fun x => appends (f x) (enc x)) l -> appends (append_all f l) (l ≫= enc).
Proof. induction 1; cbn [append_all]; [apply appends_nil|]. by apply appends_seq. Qed.

Lemma append_text_appends v max req : view_wf v -> text_ok max req v -> max <= UINT32_MAX ->
  appends (buffer_append_bytes_view garbage v) (view_image (view_bytes v)).
Proof. intros Hw (_&Hm&Hl&_) Hx. apply append_view_appends; [done|done|lia]. Qed.

Ltac text_appends := repeat (apply appends_seq; [eapply append_text_appends; [eassumption|eassumption|done]|]).

Lemma append_document_appends d : doc_ok d -> appends (append_document_record garbage d) (document_record d).
Proof.
  intros [(?&?&?&?&?&Hi) (?&?&?&?&?&Hu)]. apply append_record_appends. unfold document_image. text_appends.
  assert (u64 (updated_at_unix_ms d) = updated_at_unix_ms d) as ->
  by (apply u64_small; unfold is_i64 in Hi; lia). apply append_u64_appends.
Qed.

Lemma append_passage_appends p : pass_ok p -> appends (append_passage_record garbage p) (passage_record p).
Proof.
  intros [(?&?&?&_) (?&?&?&_)]. apply append_record_appends. unfold passage_image. text_appends.
  apply appends_seq; [apply append_u32_appends|]. apply appends_seq; apply append_u32_appends.
Qed.

Lemma append_segment_appends sid docs pass : id_ok sid -> Forall doc_ok docs -> Forall pass_ok pass ->
  appends (append_segment garbage sid docs pass) (segment_payload sid docs pass).
Proof.
  intros [Hi _] Hd Hp. unfold append_segment, segment_payload, YAP_V2_MAX_IDENTIFIER_BYTES in *.
  assert (u32 (zlen sid) = zlen sid) as -> by (unfold u32; apply Z.mod_small; lia).
  apply appends_seq; [apply append_u32_appends|]. apply appends_seq; [apply append_u32_appends|].
  apply appends_seq; [apply append_whole; unfold SIZE_MAX; lia|].
  apply appends_seq; [apply append_u64_appends|]. apply appends_seq; [apply append_u64_appends|].
  apply appends_seq; apply append_all_appends.
  - eapply Forall_impl; [exact Hd|]. apply append_document_appends.
  - eapply Forall_impl; [exact Hp|]. apply append_passage_appends.
Qed.

Lemma file_header_fields type g payload : file_header_type_valid type = true -> g <> 0 ->
  header_fields_invalid (file_header type g payload) = false.
Proof. intros Ht Hg. unfold header_fields_invalid; cbn [file_header format_version header_bytes file_type generation].
  rewrite Ht. by rewrite (proj2 (Z.eqb_neq g 0)). Qed.

Lemma Forall_both {B} (P Q : B -> Prop) l : Forall P l -> Forall Q l -> Forall (fun x => P x /\ Q x) l.
Proof. intros HP HQ. apply Forall_and. done. Qed.

(** What [segment_file_data] returns. *)
Lemma segment_file_data_spec sid g docs pass : c_string sid -> g <> 0 ->
  Forall document_wf docs -> Forall passage_wf pass ->
  match segment_file_data garbage sid g docs pass with
  | Ok file => id_ok sid /\ segment_views_valid docs pass /\
  file = file_image YAP_V2_FILE_DOCUMENTS g (segment_payload sid docs pass) /\
  zlen (segment_payload sid docs pass) <= YAP_V2_MAX_SEGMENT_PAYLOAD_BYTES
  | Err _ => ~ (id_ok sid /\ segment_views_valid docs pass) \/
  YAP_V2_MAX_SEGMENT_PAYLOAD_BYTES < zlen (segment_payload sid docs pass) \/ exists n, alloc_ok n = false
  | Fault => False
  end.
Proof.
  intros Hs Hg Hd Hp. unfold segment_file_data. rewrite segment_id_validate_spec by done.
  destruct (decide (id_ok sid)) as [Hid|Hid]; [|cbn; tauto]. rewrite outcome_bind_ok.
  destruct (validate_segment_views_spec docs pass Hd Hp) as [HF HV].
  destruct (validate_segment_views docs pass) as [[]|e|]; [|cbn; left; intros [_ H]; apply HV in H; done|done].
  assert (segment_views_valid docs pass) as Hval by (by apply HV). rewrite outcome_bind_ok.
  pose proof Hid as [Hl _]. unfold YAP_V2_MAX_IDENTIFIER_BYTES, UINT32_MAX in *.
  destruct (Z.ltb_spec (2 ^ 32 - 1) (zlen sid)); [lia|].
  pose proof Hval as (_&_&Hdv&_&Hpv&_).
  pose proof (append_segment_appends sid docs pass Hid (Forall_both _ _ _ Hd Hdv) (Forall_both _ _ _ Hp Hpv)
  buffer_zero buffer_zero_ok) as HA.
  destruct (append_segment garbage sid docs pass buffer_zero) as [b|e|]; [|destruct e; cbn; tauto|done].
  destruct HA as [Hb Hc]. rewrite outcome_bind_ok. change (content buffer_zero) with (@nil Z) in Hc. cbn [app] in Hc.
  destruct (assemble_spec YAP_V2_FILE_DOCUMENTS g b) as [[-> HA]|HA];
  [by apply file_header_fields|done|tauto|rewrite HA].
  rewrite Hc. split_and!; try done. rewrite <- Hc, zlen_content by done. destruct Hb as (?&?&_). lia.
Qed.
End write_proofs.

(** ** Reading *)
Lemma read_record_parses {B} type (r : reader B) b bs : is_u32 type -> is_u32 (zlen bs) ->
  parses r b bs -> parses (read_record type r) b (record_image type bs).
Proof.
  intros Ht Hz Hr pre post len Hok Hl Hm. unfold read_record, record_image in *.
  rewrite <- !(assoc_L (++)) in *. rewrite !zlen_app, !zlen_put_u32_le in *. pose_zlen.
  rewrite (read_u32_parses type) by (done || (rewrite ?zlen_app, ?zlen_put_u32_le; lia)).
  rewrite outcome_bind_ok, zlen_put_u32_le.
  pose proof (read_u32_parses (zlen bs) Hz (pre ++ put_u32_le type) (bs ++ post) len) as R2.
  rewrite <- (assoc_L (++) pre), !zlen_app, !zlen_put_u32_le in R2.
  rewrite R2, outcome_bind_ok by (done || lia).
  rewrite u64_small by lia. destruct (Z.ltb_spec (len - (zlen pre + 4 + 4)) (zlen bs)); [lia|].
  cbv zeta. rewrite u64_small, Z.eqb_refl by lia.
  pose proof (Hr ((pre ++ put_u32_le type) ++ put_u32_le (zlen bs)) post (zlen pre + 4 + 4 + zlen bs)) as R3.
  rewrite <- !(assoc_L (++)), !zlen_app, !zlen_put_u32_le in R3.
  replace (zlen pre + (4 + 4)) with (zlen pre + 4 + 4) in R3 by lia.
  rewrite R3, outcome_bind_ok by (done || lia). rewrite Z.eqb_refl. cbn [negb]. do 2 f_equal. lia.
Qed.

Lemma read_record_sound {B} type (r : reader B) (P : B -> bytes -> Prop) :
  sound r P -> sound (read_record type r) (fun b bs => exists body, bs = record_image type body /\ P b body).
Proof.
  intros Hr data len off Hd Ho Hl Hm. unfold read_record.
  pose proof (read_u32_sound data len off Hd Ho Hl Hm) as H1.
  destruct (read_u32 data len off) as [[t o1]| |]; [|done..]. destruct H1 as [Ho1 [Ht E1]]. rewrite outcome_bind_ok.
  pose proof (read_u32_sound data len o1 Hd ltac:(lia) Hl Hm) as H2.
  destruct (read_u32 data len o1) as [[n o2]| |]; [|done..]. destruct H2 as [Ho2 [Hn E2]]. rewrite outcome_bind_ok.
  rewrite u64_small by lia. destruct (Z.ltb_spec (len - o2) n); [done|]. unfold is_u32 in Hn.
  cbv zeta. rewrite u64_small by lia. destruct (Z.eqb_spec t type) as [->|]; [|done].
  pose proof (Hr data (o2 + n) o2 Hd ltac:(lia) ltac:(lia) ltac:(lia)) as H3.
  destruct (r data (o2 + n) o2) as [[b o3]| |]; [|done..]. destruct H3 as [Ho3 HP]. rewrite outcome_bind_ok.
  destruct (Z.eqb_spec o3 (o2 + n)) as [->|]; [|done]. cbn [negb].
  split; [lia|]. exists (slice data o2 n). replace (o2 + n - o2) with n in HP by lia. split; [|done].
  unfold record_image. rewrite zlen_slice by lia. rewrite <- E1, <- E2.
  replace (o2 + n - off) with ((o1 - off) + ((o2 - o1) + n)) by lia.
  rewrite !slice_split by lia. do 2 f_equal; [by replace (off + (o1 - off)) with o1 by lia|].
  by replace (off + (o1 - off) + (o2 - o1)) with o2 by lia.
Qed.

Lemma view_parses v : zlen (view_bytes v) <= UINT32_MAX ->
  parses read_bytes_view (canon v) (view_image (view_bytes v)).
Proof. intros H. apply read_bytes_view_parses. unfold is_u32, UINT32_MAX in *. pose proof (zlen_nonneg (view_bytes v)). lia. Qed.

Lemma text_parses max req v : text_ok max req v -> max <= UINT32_MAX ->
  parses read_bytes_view (canon v) (view_image (view_bytes v)).
Proof. intros (_&Hm&Hl&_) Hx. apply view_parses. lia. Qed.

Lemma zlen_view_image bs : zlen (view_image bs) = 4 + zlen bs.
Proof. unfold view_image. by rewrite zlen_app, zlen_put_u32_le. Qed.

Ltac read_text := eapply parses_bind; [eapply text_parses; [eassumption|done]|].

Lemma parses_bind_last {B C} (r : reader B) (f : B -> reader C) b c bs :
  parses r b bs -> parses (f b) c [] -> parses (r ≫= f) c bs.
Proof. intros H1 H2. rewrite <- (app_nil_r bs). by eapply parses_bind. Qed.

Lemma read_document_parses d : doc_ok d -> parses read_document (canon_document d) (document_record d).
Proof.
  intros [(?&?&?&?&?&Hi) (T1&T2&T3&T4&T5&Hu)]. apply read_record_parses; [done| |].
  - unfold is_u32, document_image. pose_zlen. rewrite !zlen_app, !zlen_view_image, zlen_put_u64_le.
    destruct T1 as (_&?&?&_), T2 as (_&?&?&_), T3 as (_&?&?&_), T4 as (_&?&?&_), T5 as (_&?&?&_).
    unfold YAP_V2_MAX_IDENTIFIER_BYTES, YAP_V2_MAX_URL_BYTES, YAP_V2_MAX_METADATA_BYTES in *. pose_zlen. lia.
  - unfold document_image. do 5 read_text.
    apply (parses_bind_last _ _ (updated_at_unix_ms d)).
    + apply read_u64_parses. unfold is_i64 in Hi. unfold is_u64. lia.
    + apply parses_refuse; [|apply parses_ret]. apply Z.ltb_ge. unfold is_i64, INT64_MAX in *. lia.
Qed.

Lemma read_passage_parses p : pass_ok p -> parses read_passage (canon_passage p) (passage_record p).
Proof.
  intros [(?&?&?&?&?&?) (T1&T2&T3&_)]. apply read_record_parses; [done| |].
  - unfold is_u32, passage_image. rewrite !zlen_app, !zlen_view_image, !zlen_put_u32_le.
    destruct T1 as (_&?&?&_), T2 as (_&?&?&_), T3 as (_&?&?&_).
    unfold YAP_V2_MAX_IDENTIFIER_BYTES, YAP_V2_MAX_METADATA_BYTES in *. pose_zlen. lia.
  - unfold passage_image. do 3 read_text.
    do 2 (eapply parses_bind; [by apply read_u32_parses|]).
    apply (parses_bind_last _ _ (end_char p)); [by apply read_u32_parses|apply parses_ret].
Qed.

Lemma c_str_c_string s : c_string s -> c_str s = s.
Proof.
  induction s as [|c s IH]; [done|]. intros Hs. apply not_elem_of_cons in Hs as [Hc Hs].
  cbn [c_str]. rewrite (proj2 (Z.eqb_neq c 0)) by congruence. by rewrite IH.
Qed.

Lemma c_str_no_nul s : c_string (c_str s).
Proof.
  unfold c_string. induction s as [|c s IH]; cbn [c_str]; [apply not_elem_of_nil|].
  destruct (Z.eqb_spec c 0); [apply not_elem_of_nil|]. rewrite not_elem_of_cons. split; [congruence|done].
Qed.

Section read_proofs.
Context {A : Allocator}.

Lemma read_segment_id_parses sid : id_ok sid ->
  parses read_segment_id sid (put_u32_le YAP_V2_SEGMENT_PAYLOAD_VERSION ++ put_u32_le (zlen sid) ++ sid).
Proof.
  intros Hid pre post len Hok Hl Hm. pose proof Hid as [Hz _]. unfold YAP_V2_MAX_IDENTIFIER_BYTES in *.
  unfold read_segment_id, YAP_V2_SEGMENT_PAYLOAD_VERSION, YAP_V2_MAX_IDENTIFIER_BYTES in *.
  rewrite <- !(assoc_L (++)) in *. rewrite !zlen_app, !zlen_put_u32_le in *. pose_zlen.
  rewrite (read_u32_parses 1) by (done || (rewrite ?zlen_app, ?zlen_put_u32_le; lia)).
  rewrite outcome_bind_ok, zlen_put_u32_le.
  pose proof (read_u32_parses (zlen sid) ltac:(unfold is_u32; lia) (pre ++ put_u32_le 1) (sid ++ post) len) as R2.
  rewrite <- (assoc_L (++) pre), !zlen_app, !zlen_put_u32_le in R2.
  rewrite R2, outcome_bind_ok by (done || lia). rewrite u64_small by lia.
  rewrite (proj2 (Z.eqb_neq (zlen sid) 0)), !(proj2 (Z.ltb_ge _ (zlen sid))) by lia. cbn [Z.eqb Pos.eqb negb orb].
  rewrite (assoc_L (++) pre), (assoc_L (++) _ (put_u32_le _)), load_bytes_app, outcome_bind_ok
  by (done || (rewrite !zlen_app, !zlen_put_u32_le; lia)).
  rewrite c_str_c_string by (by apply id_ok_c_string).
  rewrite segment_id_validate_spec, decide_True, outcome_bind_ok, u64_small by (done || lia || by apply id_ok_c_string).
  do 2 f_equal. lia.
Qed.

Lemma read_segment_parses sid docs pass : (forall n, alloc_ok n = true) -> id_ok sid ->
  Forall document_wf docs -> Forall passage_wf pass -> segment_views_valid docs pass ->
  parses read_segment (sid, canon_document <$> docs, canon_passage <$> pass) (segment_payload sid docs pass).
Proof.
  intros HA Hid Hd Hp (Hnd&Hnp&Hdv&_&Hpv&_). unfold read_segment, segment_payload.
  unfold YAP_V2_MAX_SEGMENT_DOCUMENTS, YAP_V2_MAX_SEGMENT_PASSAGES in *. pose_zlen.
  rewrite (assoc_L (++) (put_u32_le (zlen sid))), (assoc_L (++) (put_u32_le _)).
  eapply parses_bind; [by apply read_segment_id_parses|].
  eapply parses_bind; [apply read_u64_parses; unfold is_u64; lia|].
  eapply parses_bind; [apply read_u64_parses; unfold is_u64; lia|].
  apply parses_refuse; [rewrite !orb_false_iff, !Z.ltb_ge; unfold SIZE_MAX; lia|].
  unfold calloc_views. do 2 (apply parses_refuse; [by rewrite HA, andb_false_r|]).
  apply (parses_bind _ _ (canon_document <$> docs)).
  - unfold zlen. rewrite Nat2Z.id. apply parses_list.
  eapply Forall_impl; [exact (Forall_both _ _ _ Hd Hdv)|]. apply read_document_parses.
  - apply (parses_bind_last _ _ (canon_passage <$> pass)); [|apply parses_ret].
  unfold zlen. rewrite Nat2Z.id. apply parses_list.
  eapply Forall_impl; [exact (Forall_both _ _ _ Hp Hpv)|]. apply read_passage_parses.
Qed.

(** *** Soundness *)
Lemma read_view_sound : sound read_bytes_view (fun v bs => view_wf v /\ canon v = v /\ bs = view_image (view_bytes v)).
Proof.
  eapply sound_mono; [apply read_bytes_view_sound|]. intros v bs (s&->&Hz&Hok&->).
  change (BytesView (Some s) (zlen s)) with (mk_view s). unfold canon. rewrite view_bytes_mk. split_and!; try done.
  apply mk_view_wf; [done|]. unfold is_u32, SIZE_MAX in *. lia.
Qed.

Lemma read_document_sound : sound read_document
  (fun d bs => document_wf d /\ canon_document d = d /\ bs = document_record d).
Proof.
  unfold read_document. eapply sound_mono.
  - eapply (read_record_sound _ _ (fun d bs => document_wf d /\ canon_document d = d /\ bs = document_image d)).
  do 5 (eapply sound_bind; [apply read_view_sound|]; intros ? ? (?&?&->)).
  eapply sound_bind; [apply read_u64_sound|]. intros u ? [Hu ->].
  apply sound_refuse. intros Hx%Z.ltb_ge. apply sound_ret. unfold is_u64, INT64_MAX in *. split_and!.
  + unfold document_wf; split_and!; try done; cbn; unfold is_i64; lia.
  + unfold canon_document; cbn. congruence.
  + unfold document_image; cbn. by rewrite app_nil_r.
  - intros d bs (body&->&?&?&->). done.
Qed.

Lemma read_passage_sound : sound read_passage
  (fun p bs => passage_wf p /\ canon_passage p = p /\ bs = passage_record p).
Proof.
  unfold read_passage. eapply sound_mono.
  - eapply (read_record_sound _ _ (fun p bs => passage_wf p /\ canon_passage p = p /\ bs = passage_image p)).
  do 3 (eapply sound_bind; [apply read_view_sound|]; intros ? ? (?&?&->)).
  do 3 (eapply sound_bind; [apply read_u32_sound|]; intros ? ? [? ->]). apply sound_ret. split_and!.
  + unfold passage_wf; by split_and!.
  + unfold canon_passage; cbn. congruence.
  + unfold passage_image. by rewrite app_nil_r.
  - intros d bs (body&->&?&?&->). done.
Qed.

Lemma read_segment_id_sound : sound read_segment_id (fun sid bs => exists raw, sid = c_str raw /\ id_ok sid /\
  is_u32 (zlen raw) /\ bs = put_u32_le YAP_V2_SEGMENT_PAYLOAD_VERSION ++ put_u32_le (zlen raw) ++ raw).
Proof.
  intros data len off Hd Ho Hl Hm. unfold read_segment_id.
  pose proof (read_u32_sound data len off Hd Ho Hl Hm) as H1.
  destruct (read_u32 data len off) as [[t o1]| |]; [|done..]. destruct H1 as [Ho1 [Ht E1]]. rewrite outcome_bind_ok.
  pose proof (read_u32_sound data len o1 Hd ltac:(lia) Hl Hm) as H2.
  destruct (read_u32 data len o1) as [[n o2]| |]; [|done..]. destruct H2 as [Ho2 [Hn E2]]. rewrite outcome_bind_ok.
  rewrite u64_small by lia. destruct (_ || _) eqn:T; [done|]. btests. subst t. unfold is_u32 in Hn.
  unfold load_bytes. rewrite (proj2 (in_range_true _ _ _)), outcome_bind_ok by lia.
  rewrite segment_id_validate_spec by apply c_str_no_nul.
  destruct (decide (id_ok _)) as [Hid|]; [|done]. rewrite outcome_bind_ok, u64_small by lia. split; [lia|].
  exists (slice data o2 n). rewrite zlen_slice by lia. split_and!; [done|done|done|].
  rewrite <- E1, <- E2. replace (o2 + n - off) with ((o1 - off) + ((o2 - o1) + n)) by lia.
  rewrite !slice_split by lia. do 2 f_equal; [by replace (off + (o1 - off)) with o1 by lia|].
  by replace (off + (o1 - off) + (o2 - o1)) with o2 by lia.
Qed.

(** The records that were read, put together again. *)
Lemma concat_records {B} (P : B -> Prop) (enc : B -> bytes) l parts :
  Forall2 (fun x bs => P x /\ bs = enc x) l parts -> Forall P l /\ concat parts = l ≫= enc.
Proof.
  induction 1 as [|x bs l parts [HP ->] _ [IH1 IH2]]; [by split|].
  split; [by constructor|]. cbn. by rewrite IH2.
Qed.
End read_proofs.

Lemma fmap_fixed {B} (f : B -> B) l : Forall (fun x => f x = x) l -> f <$> l = l.
Proof. induction 1 as [|x l Hx _ IH]; [done|]. rewrite fmap_cons. by rewrite Hx, IH. Qed.

Section read_segment_proofs.
Context {A : Allocator} (garbage : nat -> Z).

Lemma read_segment_sound : sound read_segment (fun '(sid, docs, pass) bs =>
  exists raw, sid = c_str raw /\ id_ok sid /\ Forall document_wf docs /\ Forall passage_wf pass /\
  canon_document <$> docs = docs /\ canon_passage <$> pass = pass /\
  bs = segment_payload raw docs pass).
Proof.
  unfold read_segment. eapply sound_bind; [apply read_segment_id_sound|]. intros sid ? (raw&->&Hid&Hz&->).
  eapply sound_bind; [apply read_u64_sound|]. intros dc ? [Hdc ->].
  eapply sound_bind; [apply read_u64_sound|]. intros pc ? [Hpc ->].
  apply sound_refuse. intros T. unfold calloc_views. do 2 (apply sound_refuse; intros _).
  eapply sound_bind; [apply sound_list, read_document_sound|].
  intros docs ? (Hld&parts&HF&->).
  eapply sound_bind; [apply sound_list, read_passage_sound|].
  intros pass ? (Hlp&parts'&HF'&->). apply sound_ret.
  assert (zlen docs = dc /\ zlen pass = pc) as [<- <-]
  by (unfold zlen, is_u64 in *; rewrite Hld, Hlp; lia).
  destruct (concat_records (fun d => document_wf d /\ canon_document d = d) document_record docs parts)
  as [HD ->]; [eapply Forall2_impl; [exact HF|]; naive_solver|].
  destruct (concat_records (fun d => passage_wf d /\ canon_passage d = d) passage_record pass parts')
  as [HP ->]; [eapply Forall2_impl; [exact HF'|]; naive_solver|].
  exists raw. split_and!; try done.
  - eapply Forall_impl; [exact HD|]. by intros ? [? _].
  - eapply Forall_impl; [exact HP|]. by intros ? [? _].
  - apply fmap_fixed. eapply Forall_impl; [exact HD|]. by intros ? [_ ?].
  - apply fmap_fixed. eapply Forall_impl; [exact HP|]. by intros ? [_ ?].
  - unfold segment_payload. rewrite app_nil_r. by rewrite <- !(assoc_L (++)).
Qed.

(** *** Headers *)
Lemma file_header_valid type g payload : file_header_type_valid type = true -> is_u32 type -> is_u64 g -> g <> 0 ->
  zlen payload < 2 ^ 64 -> header_valid (file_header type g payload).
Proof.
  intros. split; [|by apply file_header_fields]. unfold header_wf; cbn. pose proof (zlen_nonneg payload).
  split_and!; try done. apply crc32c_is_u32.
Qed.

Lemma check_header_image type g eg payload : file_header_type_valid type = true -> is_u32 type -> is_u64 g -> g <> 0 ->
  zlen payload < 2 ^ 63 -> bytes_ok payload -> (eg = 0 \/ eg = g) ->
  check_header type eg (file_image type g payload) = Ok (file_header type g payload).
Proof.
  intros Ht Htw Hg Hg0 Hz Hok Heg. unfold check_header, file_image. pose proof (zlen_nonneg payload).
  rewrite zlen_app, zlen_header_image. unfold YAP_V2_FILE_HEADER_BYTES.
  destruct (Z.ltb_spec (32 + zlen payload) 32); [lia|].
  rewrite file_header_decode_image by (done || (apply file_header_valid; (done || lia))).
  change (file_type (file_header type g payload)) with type.
  change (payload_bytes (file_header type g payload)) with (zlen payload).
  change (generation (file_header type g payload)) with g.
  replace (32 + zlen payload - 32) with (zlen payload) by lia. rewrite !Z.eqb_refl. cbn [negb orb].
  assert (negb (eg =? 0) && negb (g =? eg) = false) as ->.
  { destruct Heg as [->| ->]; [done|]. by rewrite Z.eqb_refl, andb_false_r. }
  rewrite load_bytes_app_end, outcome_bind_ok by done.
  change (payload_crc32c (file_header type g payload)) with (crc32c payload). by rewrite Z.eqb_refl.
Qed.

Lemma check_header_sound type eg file : bytes_ok file ->
  match check_header type eg file with
  | Ok h => 32 <= zlen file /\ file = file_image type (generation h) (drop 32 file) /\ header_valid h /\
  payload_bytes h = zlen file - 32 /\ (eg = 0 \/ generation h = eg)
  | Err _ => True
  | Fault => False
  end.
Proof.
  intros Hok. unfold check_header, YAP_V2_FILE_HEADER_BYTES. destruct (Z.ltb_spec (zlen file) 32); [done|].
  pose proof (file_header_decode_safe file Hok ltac:(lia)) as HS.
  destruct (YAP_V2_file_header_decode (Some file)) as [h| |] eqn:HD; [|done..].
  destruct (file_header_decode_inv file h Hok ltac:(lia) HD) as [Hv Himg].
  destruct (_ || _) eqn:T; [done|]. btests.
  unfold load_bytes. rewrite (proj2 (in_range_true _ _ _)), outcome_bind_ok by lia.
  destruct (Z.eqb_spec (crc32c (slice file 32 (zlen file - 32))) (payload_crc32c h)) as [Hc|]; [|done]. cbn [negb].
  assert (slice file 32 (zlen file - 32) = drop 32 file) as Hs.
  { unfold slice. apply take_ge. rewrite length_drop. unfold zlen. lia. }
  rewrite Hs in Hc. split_and!; [lia| |done|lia|].
  - rewrite <- (take_drop 32 file) at 1. rewrite Himg. unfold file_image.
  enough (h = file_header type (generation h) (drop 32 file)) as <- by done.
  pose proof Hv as [_ Hfi]. unfold header_fields_invalid in Hfi. unfold file_header. rewrite Hc.
  destruct h; cbn in *. btests. subst. f_equal. unfold zlen. rewrite length_drop. unfold zlen in *. lia.
  - match goal with H : _ \/ _ |- _ => destruct H; btests; auto end.
Qed.
End read_segment_proofs.

(** ** Segments survive the file *)
Lemma view_bytes_canon v : view_bytes (canon v) = view_bytes v.
Proof. apply view_bytes_mk. Qed.

Lemma canon_wf v : view_wf v -> zlen (view_bytes v) <= SIZE_MAX -> view_wf (canon v).
Proof. intros Hw Hl. apply mk_view_wf; [by apply view_bytes_ok|done]. Qed.

Lemma text_ok_canon max req v : text_ok max req v -> text_ok max req (canon v).
Proof. intros (?&Hm&Hl&?). unfold text_ok. rewrite view_bytes_canon. cbn. split_and!; try done. lia. Qed.

Lemma text_ok_canon_wf max req v : max <= SIZE_MAX -> view_wf v -> text_ok max req v -> view_wf (canon v).
Proof. intros Hx Hw (_&Hm&Hl&_). apply canon_wf; [done|lia]. Qed.

Lemma doc_ok_canon d : doc_ok d -> doc_ok (canon_document d).
Proof.
  intros [(?&?&?&?&?&?) (?&?&?&?&?&?)]. split.
  - unfold document_wf; cbn; split_and!; try done; (eapply text_ok_canon_wf; [|eassumption|eassumption]; done).
  - unfold document_valid; cbn; split_and!; try done; by apply text_ok_canon.
Qed.

Lemma pass_ok_canon p : pass_ok p -> pass_ok (canon_passage p).
Proof.
  intros [(?&?&?&?&?&?) (?&?&?&?)]. split.
  - unfold passage_wf; cbn; split_and!; try done; (eapply text_ok_canon_wf; [|eassumption|eassumption]; done).
  - unfold passage_valid; cbn; split_and!; try done; try by apply text_ok_canon. all: lia.
Qed.

Lemma fmap_canon_ids docs pass :
  document_ids (canon_document <$> docs) = document_ids docs /\
  passage_ids (canon_passage <$> pass) = passage_ids pass /\
  passage_slots (canon_passage <$> pass) = passage_slots pass.
Proof.
  unfold document_ids, passage_ids, passage_slots. rewrite <- !list_fmap_compose.
  split_and!; apply list_fmap_ext; intros; [apply view_bytes_canon..|apply (f_equal (fun b => (b, _))), view_bytes_canon].
Qed.

Lemma Forall_split {B} (P Q : B -> Prop) l : Forall (fun x => P x /\ Q x) l -> Forall P l /\ Forall Q l.
Proof. apply Forall_and. Qed.

Lemma segment_views_canon docs pass : Forall document_wf docs -> Forall passage_wf pass -> segment_views_valid docs pass ->
  Forall document_wf (canon_document <$> docs) /\ Forall passage_wf (canon_passage <$> pass) /\
  segment_views_valid (canon_document <$> docs) (canon_passage <$> pass).
Proof.
  intros Hd Hp (?&?&Hdv&?&Hpv&Hpar&?&?).
  assert (Forall doc_ok (canon_document <$> docs)) as [HD1 HD2]%Forall_split.
  { apply Forall_fmap. eapply Forall_impl; [exact (Forall_both _ _ _ Hd Hdv)|]. apply doc_ok_canon. }
  assert (Forall pass_ok (canon_passage <$> pass)) as [HP1 HP2]%Forall_split.
  { apply Forall_fmap. eapply Forall_impl; [exact (Forall_both _ _ _ Hp Hpv)|]. apply pass_ok_canon. }
  split_and!; try done. unfold segment_views_valid. destruct (fmap_canon_ids docs pass) as (->&->&->).
  rewrite !zlen_fmap. split_and!; try done. apply Forall_fmap. eapply Forall_impl; [exact Hpar|].
  intros p Hin. change (view_bytes (canon (parent_document_id p)) ∈ document_ids docs). by rewrite view_bytes_canon.
Qed.

Definition written_descriptor (sid : bytes) (docs : list YAP_V2_DOCUMENT_VIEW) (pass : list YAP_V2_PASSAGE_VIEW)
    (file : bytes) : YAP_V2_SEGMENT_DESCRIPTOR :=
  SegmentDescriptor sid (zlen docs) (zlen pass) 0
    [ComponentDescriptor DOCUMENTS_NAME YAP_V2_FILE_DOCUMENTS (zlen docs + zlen pass) (zlen file) (sha256_spec file)].

Lemma documents_descriptor_spec sid docs pass file : 32 <= zlen file -> segment_views_valid docs pass ->
  documents_descriptor sid (zlen docs) (zlen pass) (zlen file) (sha256_spec file) =
  Ok (written_descriptor sid docs pass file).
Proof.
  intros Hl (Hd&Hp&_). unfold documents_descriptor, written_descriptor.
  unfold YAP_V2_MAX_SEGMENT_DOCUMENTS, YAP_V2_MAX_SEGMENT_PASSAGES in *. pose_zlen. rewrite u64_small by lia.
  apply add_component_ok; cbn. split_and!; try done; try apply not_elem_of_nil.
  unfold component_ok, component_refused; cbn.
  rewrite (proj2 (Z.eqb_neq (zlen file) 0)), (proj2 (Z.ltb_ge (zlen file) YAP_V2_FILE_HEADER_BYTES))
    by (unfold YAP_V2_FILE_HEADER_BYTES; lia). done.
Qed.

Lemma record_image_ok type bs : bytes_ok bs -> bytes_ok (record_image type bs).
Proof. intros. unfold record_image. bok. Qed.
Lemma view_image_ok bs : bytes_ok bs -> bytes_ok (view_image bs).
Proof. intros. unfold view_image. bok. Qed.
#[export] Hint Resolve record_image_ok view_image_ok view_bytes_ok : bytes.

Lemma bytes_ok_flat {B} (f : B -> bytes) l : Forall (fun b => bytes_ok (f b)) l -> bytes_ok (l ≫= f).
Proof. induction 1; cbn; [constructor|]. by apply Forall_app_2. Qed.

Lemma id_ok_bytes s : id_ok s -> bytes_ok s.
Proof.
  intros [_ H]. eapply Forall_impl; [exact H|]. intros c. unfold id_char_ok, byte_ok.
  rewrite !orb_true_iff, !andb_true_iff, !Z.leb_le, !Z.eqb_eq. lia.
Qed.

Lemma segment_payload_ok sid docs pass : id_ok sid -> Forall document_wf docs -> Forall passage_wf pass ->
  bytes_ok (segment_payload sid docs pass).
Proof.
  intros Hid%id_ok_bytes Hd Hp. unfold segment_payload.
  assert (bytes_ok (docs ≫= document_record)).
  { apply bytes_ok_flat. eapply Forall_impl; [exact Hd|]. intros d (?&?&?&?&?&?).
    apply record_image_ok. unfold document_image. repeat apply Forall_app_2; auto with bytes. }
  assert (bytes_ok (pass ≫= passage_record)).
  { apply bytes_ok_flat. eapply Forall_impl; [exact Hp|]. intros d (?&?&?&?&?&?).
    apply record_image_ok. unfold passage_image. repeat apply Forall_app_2; auto with bytes. }
  repeat apply Forall_app_2; auto with bytes.
Qed.

Section segment_roundtrip.
Context {A : Allocator} (garbage : nat -> Z).

Lemma stack_sha_valid : ctx_valid (stack_sha garbage).
Proof. apply (zlen_garbage garbage 64). Qed.

Lemma segment_parse_image sid g eg want docs pass : (forall n, alloc_ok n = true) ->
  id_ok sid -> is_u64 g -> g <> 0 -> (eg = 0 \/ eg = g) ->
  Forall document_wf docs -> Forall passage_wf pass -> segment_views_valid docs pass ->
  zlen (segment_payload sid docs pass) <= YAP_V2_MAX_SEGMENT_PAYLOAD_BYTES ->
  let payload := segment_payload sid docs pass in
  let file := file_image YAP_V2_FILE_DOCUMENTS g payload in
  segment_parse garbage eg want file =
  Ok (Segment sid g (canon_document <$> docs) (canon_passage <$> pass) payload,
    if want : bool then Some (written_descriptor sid docs pass file) else None).
Proof.
  intros HA Hid Hg Hg0 Heg Hd Hp Hval Hl payload file. fold payload in Hl.
  unfold segment_parse, YAP_V2_MAX_SEGMENT_PAYLOAD_BYTES in *.
  pose proof (zlen_nonneg payload). pose proof (segment_payload_ok sid docs pass Hid Hd Hp) as Hok. fold payload in Hok.
  assert (zlen file = 32 + zlen payload) as Hz by (subst file; unfold file_image; by rewrite zlen_app, zlen_header_image).
  subst file. rewrite check_header_image, outcome_bind_ok by (done || lia).
  rewrite sha256_digest_eq, outcome_bind_ok by apply stack_sha_valid.
  change (payload_bytes (file_header YAP_V2_FILE_DOCUMENTS g payload)) with (zlen payload).
  destruct (Z.ltb_spec (256 * 1024 * 1024) (zlen payload)); [lia|].
  rewrite Hz. unfold YAP_V2_FILE_HEADER_BYTES. replace (32 + zlen payload - 32) with (zlen payload) by lia.
  cbv zeta. rewrite HA. cbn [negb andb].
  rewrite (load_bytes_app_end (header_image (file_header YAP_V2_FILE_DOCUMENTS g payload)) payload), outcome_bind_ok by done.
  pose proof (read_segment_parses sid docs pass HA Hid Hd Hp Hval [] [] (zlen payload)) as HP.
  cbn [app] in HP. rewrite app_nil_r, zlen_nil in HP. fold payload in HP. rewrite HP by (done || lia).
  rewrite outcome_bind_ok, Z.add_0_l, Z.eqb_refl. cbn [negb].
  destruct (segment_views_canon docs pass Hd Hp Hval) as (Hcd&Hcp&Hcv).
  destruct (validate_segment_views_spec _ _ Hcd Hcp) as [_ HV]. rewrite (proj2 HV) by done.
  destruct want; [|done]. rewrite !zlen_fmap, <- Hz.
  rewrite documents_descriptor_spec by (done || lia). done.
Qed.

(** On any file the reader stays in bounds and returns only valid segments. *)
Lemma segment_parse_sound eg want file : bytes_ok file -> zlen file < 2 ^ 64 ->
  match segment_parse garbage eg want file with
  | Ok (s, _) => segment_views_valid (documents s) (passages s) /\ id_ok (segment_id s) /\
  Forall document_wf (documents s) /\ Forall passage_wf (passages s) /\
  (eg = 0 \/ segment_generation s = eg) /\
  exists raw, segment_id s = c_str raw /\
    file = file_image YAP_V2_FILE_DOCUMENTS (segment_generation s) (segment_payload raw (documents s) (passages s))
  | Err _ => True
  | Fault => False
  end.
Proof.
  intros Hok Hm. unfold segment_parse. pose proof (check_header_sound YAP_V2_FILE_DOCUMENTS eg file Hok) as HC.
  destruct (check_header _ _ _) as [h| |]; [|done..]. destruct HC as (Hl&Hf&_&Hpb&Heg). rewrite outcome_bind_ok.
  rewrite sha256_digest_eq, outcome_bind_ok by apply stack_sha_valid.
  destruct (_ <? _); [done|]. unfold YAP_V2_FILE_HEADER_BYTES. cbv zeta. destruct (_ && _); [done|].
  unfold load_bytes. rewrite (proj2 (in_range_true _ _ _)), outcome_bind_ok by lia.
  assert (slice file 32 (zlen file - 32) = drop 32 file) as ->.
  { unfold slice. apply take_ge. rewrite length_drop. unfold zlen. lia. }
  assert (zlen (drop 32 file) = zlen file - 32) as Hz by (rewrite zlen_drop; lia).
  pose proof (read_segment_sound (drop 32 file) (zlen file - 32) 0 ltac:(by apply Forall_drop) ltac:(lia) ltac:(lia) ltac:(lia)) as HR.
  destruct (read_segment _ _ _) as [[[[sid docs] pass] o]| |]; [|done..]. destruct HR as [Ho HR].
  rewrite outcome_bind_ok. destruct (Z.eqb_spec o (zlen file - 32)) as [->|]; [|done]. cbn [negb].
  rewrite Z.sub_0_r, <- Hz, slice_all in HR. destruct HR as (raw&->&Hid&Hdw&Hpw&_&_&Epl).
  destruct (validate_segment_views_spec docs pass Hdw Hpw) as [HF HV].
  destruct (validate_segment_views docs pass) as [[]| |]; [|done..].
  assert (segment_views_valid docs pass) as Hval by (by apply HV).
  assert (segment_views_valid docs pass /\ id_ok (c_str raw) /\ Forall document_wf docs /\ Forall passage_wf pass /\
  (eg = 0 \/ generation h = eg) /\ exists raw', c_str raw = c_str raw' /\
    file = file_image YAP_V2_FILE_DOCUMENTS (generation h) (segment_payload raw' docs pass)) as HG.
  { split_and!; try done. exists raw. split; [done|]. by rewrite <- Epl. }
  destruct want; [|done]. rewrite documents_descriptor_spec, outcome_bind_ok by done. done.
Qed.
End segment_roundtrip.

(** ** Tombstone files *)
Definition tombstone_ok (v : YAP_V2_BYTES_VIEW) : Prop :=
  view_ok v /\ 1 <= zlen (view_bytes v) <= YAP_V2_MAX_IDENTIFIER_BYTES.
Definition id_images (ids : list YAP_V2_BYTES_VIEW) : bytes := ids ≫= fun v => view_image (view_bytes v).
Definition tombstones_valid (ids : list YAP_V2_BYTES_VIEW) : Prop :=
  Forall tombstone_ok ids /\ NoDup (view_bytes <$> ids).

Lemma tombstone_dup_spec v seen : view_ok v -> Forall view_ok seen ->
  exists_m (fun u => bytes_equal v u) seen = Ok (bool_decide (view_bytes v ∈ view_bytes <$> seen)).
Proof.
  intros Hv Hs. rewrite <- existsb_elem. apply exists_m_spec.
  eapply Forall_impl; [exact Hs|]. intros u Hu. by apply bytes_equal_spec.
Qed.

Lemma tombstones_valid_app seen todo : tombstones_valid (seen ++ todo) -> tombstones_valid seen.
Proof. unfold tombstones_valid. rewrite Forall_app, fmap_app, NoDup_app. tauto. Qed.

Lemma tombstones_valid_view seen : tombstones_valid seen -> Forall view_ok seen.
Proof. intros [H _]. eapply Forall_impl; [exact H|]. by intros v [? _]. Qed.

Lemma tombstone_check v : view_wf v ->
  bool_decide (data v = None) || (len v =? 0) || (YAP_V2_MAX_IDENTIFIER_BYTES <? len v) = false <-> tombstone_ok v.
Proof.
  intros Hw. rewrite !orb_false_iff, bool_decide_eq_false, Z.eqb_neq, Z.ltb_ge.
  unfold tombstone_ok, view_ok. pose proof (zlen_view v Hw) as Hz. pose proof Hw as [? _]. split.
  - intros [[? ?] ?]. rewrite Hz by done. split_and!; try done; lia.
  - intros [[_ E] Hl]. split_and!; [|lia|lia]. intros D.
    assert (view_bytes v = []) as Hn by (unfold view_bytes; by rewrite D). rewrite Hn, zlen_nil in Hl. lia.
Qed.

Lemma append_tombstones_spec {A : Allocator} garbage seen todo b : Forall view_wf todo -> tombstones_valid seen -> buffer_ok b ->
  match append_tombstones garbage seen todo b with
  | Ok b' => buffer_ok b' /\ content b' = content b ++ id_images todo /\ tombstones_valid (seen ++ todo)
  | Err _ => ~ tombstones_valid (seen ++ todo) \/ YAP_V2_MAX_SEGMENT_PAYLOAD_BYTES < zlen (content b ++ id_images todo) \/
             exists n, alloc_ok n = false
  | Fault => False
  end.
Proof.
  revert seen b; induction todo as [|v todo IH]; intros seen b Hw Hs Hb; cbn [append_tombstones].
  - by rewrite !app_nil_r.
  - apply Forall_cons in Hw as [Hv Hw]. pose proof (tombstone_check v Hv) as HC.
    assert (seen ++ v :: todo = (seen ++ [v]) ++ todo) as -> by (by rewrite <- (assoc_L (++))).
    change (id_images (v :: todo)) with (view_image (view_bytes v) ++ id_images todo).
    destruct (_ || _); [left; intros [[[_ Hx]%Forall_app _]%Forall_app _]; apply Forall_singleton, HC in Hx; done|].
    assert (tombstone_ok v) as Htv by (by apply HC).
    rewrite tombstone_dup_spec, outcome_bind_ok by (apply Htv || by apply tombstones_valid_view).
    case_bool_decide as Hin.
    { left. intros Hx%tombstones_valid_app. destruct Hx as [_ Hx]. rewrite fmap_app in Hx.
      by apply NoDup_snoc_iff in Hx as [_ Hx]. }
    destruct Htv as [[_ El] Hl]. unfold YAP_V2_MAX_IDENTIFIER_BYTES in Hl.
    pose proof (append_view_appends garbage v Hv El ltac:(unfold UINT32_MAX; lia) b Hb) as HA.
    destruct (buffer_append_bytes_view garbage v b) as [b1|e|]; [|destruct e; try done; cbn [mbind outcome_bind]|done].
    + destruct HA as [Hb1 Hc1]. rewrite outcome_bind_ok, (assoc_L (++)), <- Hc1.
      apply IH; [done| |done]. destruct Hs as [Hs1 Hs2]. split.
      * apply Forall_app_2; [done|]. by constructor; [apply HC|].
      * rewrite fmap_app. by apply NoDup_snoc_iff.
    + tauto.
    + right. left. rewrite (assoc_L (++)), zlen_app. pose proof (zlen_nonneg (id_images todo)). lia.
Qed.

Section tombstones.
Context {A : Allocator} (garbage : nat -> Z).

Lemma tombstones_file_data_spec g ids : g <> 0 -> Forall view_wf ids ->
  match tombstones_file_data garbage g ids with
  | Ok file => tombstones_valid ids /\ file = file_image YAP_V2_FILE_TOMBSTONES g (tombstones_payload ids) /\
  zlen (tombstones_payload ids) <= YAP_V2_MAX_SEGMENT_PAYLOAD_BYTES
  | Err _ => ~ tombstones_valid ids \/ YAP_V2_MAX_SEGMENT_PAYLOAD_BYTES < zlen (tombstones_payload ids) \/
         exists n, alloc_ok n = false
  | Fault => False
  end.
Proof.
  intros Hg Hw. unfold tombstones_file_data, tombstones_payload. fold (id_images ids).
  pose proof (appends_seq _ _ _ _ (append_u32_appends garbage 1) (append_u64_appends garbage (zlen ids))
  buffer_zero buffer_zero_ok) as HA. cbn beta in HA.
  change (content buffer_zero) with (@nil Z) in HA. cbn [app] in HA.
  assert (forall e, match (Err e : result YAP_V2_BUFFER) with
  | Ok _ => True | Err YAP_V2_ALLOCATION_FAILED => exists n, alloc_ok n = false
  | Err YAP_V2_SEGMENT_CAPACITY_EXCEEDED => YAP_V2_MAX_SEGMENT_PAYLOAD_BYTES < zlen (put_u32_le 1 ++ put_u64_le (zlen ids))
  | _ => False end -> exists n, alloc_ok n = false) as He.
  { intros e HE. by destruct e. }
  destruct (buffer_append_u32 garbage 1 buffer_zero) as [b1|e|]; [|right; right; exact (He e HA)|done].
  rewrite outcome_bind_ok. change ((Ok b1 : result _) ≫= ?f) with (f b1) in HA. cbn beta in HA.
  destruct (buffer_append_u64 garbage (zlen ids) b1) as [b2|e|]; [rewrite outcome_bind_ok|right; right; exact (He e HA)|done].
  destruct HA as [Hb Hc].
  assert (tombstones_valid []) as Hn by (split; constructor).
  pose proof (append_tombstones_spec garbage [] ids b2 Hw Hn Hb) as HT. cbn [app] in HT. rewrite Hc in HT.
  rewrite <- (assoc_L (++)) in HT.
  destruct (append_tombstones garbage [] ids b2) as [b|e|]; [rewrite outcome_bind_ok|exact HT|done].
  destruct HT as (Hb3&Hc3&Hval).
  destruct (assemble_spec garbage YAP_V2_FILE_TOMBSTONES g b) as [[-> HAl]|HAs];
  [by apply file_header_fields|done|tauto|rewrite HAs].
  rewrite Hc3. split_and!; [done|done|]. rewrite <- Hc3, zlen_content by done. destruct Hb3 as (?&?&_). lia.
Qed.
End tombstones.

Section tombstones_read_proofs.
Context {A : Allocator}.

Lemma view_ok_canon v : tombstone_ok v -> tombstone_ok (canon v).
Proof.
  intros [[Hw El] Hl]. unfold tombstone_ok, view_ok. rewrite view_bytes_canon. cbn.
  unfold YAP_V2_MAX_IDENTIFIER_BYTES in *. split_and!; try done; try lia. apply canon_wf; [done|]. unfold SIZE_MAX. lia.
Qed.

Lemma parses_state {B C} (r : result B) (b : B) (f : B -> reader C) c bs : r = Ok b ->
  parses (f b) c bs -> parses (b ← (fun _ _ off => b ← r; Ok (b, off)); f b) c bs.
Proof. intros -> H. apply (parses_bind _ _ b _ []); [|done]. intros pre post len _ _ _. by rewrite zlen_nil, Z.add_0_r. Qed.

Lemma read_tombstones_parses seen todo : tombstones_valid (seen ++ todo) ->
  parses (read_tombstones (canon <$> seen) (length todo)) (canon <$> (seen ++ todo)) (id_images todo).
Proof.
  revert seen; induction todo as [|v todo IH]; intros seen Hval; cbn [read_tombstones length].
  - rewrite app_nil_r. apply parses_ret.
  - assert (seen ++ v :: todo = (seen ++ [v]) ++ todo) as E by (by rewrite <- (assoc_L (++))). rewrite E in *.
  specialize (IH _ Hval). rewrite fmap_app in IH.
  pose proof (tombstones_valid_app _ _ Hval) as [[Hs Hv]%Forall_app HN]. apply Forall_cons in Hv as [Hv _].
  rewrite fmap_app in HN. apply NoDup_snoc_iff in HN as [_ HN]. pose proof Hv as [_ Hl].
  unfold YAP_V2_MAX_IDENTIFIER_BYTES in Hl.
  change (id_images (v :: todo)) with (view_image (view_bytes v) ++ id_images todo).
  eapply parses_bind; [apply view_parses; unfold UINT32_MAX; lia|].
  apply parses_refuse; [rewrite orb_false_iff, Z.eqb_neq, Z.ltb_ge; cbn; unfold YAP_V2_MAX_IDENTIFIER_BYTES; lia|].
  apply (parses_state _ false).
  + rewrite tombstone_dup_spec; [|apply (view_ok_canon v Hv)|].
  * f_equal. apply bool_decide_false. rewrite view_bytes_canon, <- list_fmap_compose.
    erewrite list_fmap_ext; [exact HN|]. intros i u _. apply view_bytes_canon.
  * apply Forall_fmap. eapply Forall_impl; [exact Hs|]. intros u Hu. apply (view_ok_canon u Hu).
  + by apply parses_refuse.
Qed.

(** A view on readable, non-empty bytes. *)
Definition named_view (v : YAP_V2_BYTES_VIEW) : Prop := view_ok v /\ len v <> 0.

Lemma read_tombstones_sound seen n : Forall named_view seen ->
  sound (read_tombstones seen n) (fun ids bs => Forall named_view ids /\ length ids = (length seen + n)%nat).
Proof.
  revert seen; induction n as [|n IH]; intros seen Hs; cbn [read_tombstones]; [apply sound_ret; split; [done|lia]|].
  eapply sound_bind; [apply read_view_sound|]. intros v ? (Hw&Hc&->).
  apply sound_refuse. intros Hr. btests.
  assert (view_ok v) as Hv by (split; [done|]; rewrite <- Hc at 1; done).
  apply (sound_bind _ _ (fun _ bs => True)).
  - intros data len off ????. rewrite tombstone_dup_spec; [cbn; split; [lia|done]|done|].
  eapply Forall_impl; [exact Hs|]. by intros ? [? _].
  - intros dup ? _. apply sound_refuse. intros _. eapply sound_mono; [apply IH|].
  + apply Forall_app_2; [done|]. by apply Forall_singleton.
  + intros ids ? [? Hl]. split; [done|]. rewrite length_app in Hl. cbn in Hl. lia.
Qed.

Lemma tombstones_payload_ok ids : Forall view_wf ids -> bytes_ok (tombstones_payload ids).
Proof.
  intros Hw. unfold tombstones_payload.
  assert (bytes_ok (ids ≫= fun v => view_image (view_bytes v))).
  { apply bytes_ok_flat. eapply Forall_impl; [exact Hw|]. auto with bytes. }
  repeat apply Forall_app_2; auto with bytes.
Qed.

Lemma tombstones_parse_image g eg ids : (forall n, alloc_ok n = true) ->
  is_u64 g -> g <> 0 -> (eg = 0 \/ eg = g) -> Forall view_wf ids -> tombstones_valid ids ->
  zlen ids <= YAP_V2_MAX_SEGMENT_DOCUMENTS -> zlen (tombstones_payload ids) <= YAP_V2_MAX_SEGMENT_PAYLOAD_BYTES ->
  tombstones_parse eg (file_image YAP_V2_FILE_TOMBSTONES g (tombstones_payload ids)) = Ok (canon <$> ids).
Proof.
  intros HA Hg Hg0 Heg Hw Hval Hn Hl. unfold tombstones_parse.
  unfold YAP_V2_MAX_SEGMENT_DOCUMENTS, YAP_V2_MAX_SEGMENT_PAYLOAD_BYTES in *.
  pose proof (tombstones_payload_ok ids Hw) as Hok. pose_zlen.
  rewrite check_header_image, outcome_bind_ok by (done || lia).
  match goal with |- (?r _ _ _ ≫= _) = _ => assert (parses r (canon <$> ids) (tombstones_payload ids)) as HP end.
  { unfold tombstones_payload. fold (id_images ids).
  eapply parses_bind; [by apply read_u32_parses|].
  eapply parses_bind; [apply read_u64_parses; unfold is_u64; lia|].
  apply parses_refuse; [rewrite !orb_false_iff, !Z.ltb_ge; unfold YAP_V2_MAX_SEGMENT_DOCUMENTS, SIZE_MAX; cbn; lia|].
  apply parses_refuse; [by rewrite HA, andb_false_r|].
  unfold zlen. rewrite Nat2Z.id. by apply (read_tombstones_parses []). }
  specialize (HP (header_image (file_header YAP_V2_FILE_TOMBSTONES g (tombstones_payload ids))) []).
  rewrite app_nil_r in HP. fold (file_image YAP_V2_FILE_TOMBSTONES g (tombstones_payload ids)) in HP.
  assert (zlen (file_image YAP_V2_FILE_TOMBSTONES g (tombstones_payload ids)) = 32 + zlen (tombstones_payload ids)) as Hz
  by (unfold file_image; by rewrite zlen_app, zlen_header_image).
  change YAP_V2_FILE_HEADER_BYTES with 32. rewrite zlen_header_image in HP.
  rewrite HP by ((rewrite Hz; lia) || (apply Forall_app_2; auto with bytes)).
  rewrite outcome_bind_ok, Hz, Z.eqb_refl. done.
Qed.

Lemma tombstones_parse_sound eg file : bytes_ok file -> zlen file < 2 ^ 64 ->
  match tombstones_parse eg file with
  | Ok ids => Forall named_view ids /\ zlen ids <= YAP_V2_MAX_SEGMENT_DOCUMENTS
  | Err _ => True
  | Fault => False
  end.
Proof.
  intros Hok Hm. unfold tombstones_parse. pose proof (check_header_sound YAP_V2_FILE_TOMBSTONES eg file Hok) as HC.
  destruct (check_header _ _ _) as [h| |]; [|done..]. destruct HC as (Hl&_). rewrite outcome_bind_ok.
  match goal with |- context [(?r file (zlen file) _) ≫= _] =>
  assert (sound r (fun ids _ => Forall named_view ids /\ zlen ids <= YAP_V2_MAX_SEGMENT_DOCUMENTS)) as HS end.
  { eapply sound_bind; [apply read_u32_sound|]. intros v ? _. eapply sound_bind; [apply read_u64_sound|]. intros n ? [Hn _].
  apply sound_refuse. intros Hr. btests. apply sound_refuse. intros _.
  eapply sound_mono; [apply read_tombstones_sound; constructor|]. intros ids ? [? E]. split; [done|]. unfold zlen. cbn in E.
  unfold is_u64 in Hn. lia. }
  specialize (HS file (zlen file) YAP_V2_FILE_HEADER_BYTES Hok ltac:(unfold YAP_V2_FILE_HEADER_BYTES; lia) ltac:(lia) Hm).
  match goal with |- context [?x ≫= _] => destruct x as [[ids o]| |] end; [|done..].
  rewrite outcome_bind_ok. destruct HS as [_ HS]. by destruct (negb _).
Qed.
End tombstones_read_proofs.

(** ** Through the file system *)
Lemma read_file_ok p bs w : script w = [] -> file_at w p = Some bs ->
  zlen bs <= YAP_V2_FILE_HEADER_BYTES + YAP_V2_MAX_SEGMENT_PAYLOAD_BYTES ->
  read_file (A:=alloc_total) p w = Done (Ok bs) w.
Proof.
  intros Hs Hf Hl. unfold read_file, fopen_rb, fstat, fread_all, fclose_rb.
  erewrite bind_done by (by rewrite bind_nil). rewrite Hf. cbv zeta.
  do 2 (rewrite bind_nil by done; cbn [negb]).
  destruct (Z.ltb_spec (YAP_V2_FILE_HEADER_BYTES + YAP_V2_MAX_SEGMENT_PAYLOAD_BYTES) (zlen bs)); [lia|].
  rewrite bind_nil by done. cbn [negb alloc_ok alloc_total andb].
  destruct (0 <? zlen bs).
  - rewrite bind_nil by done. cbn [negb]. by rewrite bind_nil.
  - erewrite bind_done by done. cbn [negb]. by rewrite bind_nil.
Qed.

Lemma zlen_file_image type g payload : zlen (file_image type g payload) = 32 + zlen payload.
Proof. unfold file_image. by rewrite zlen_app, zlen_header_image. Qed.

(** ** Main theorems *)
Definition demo_document : YAP_V2_DOCUMENT_VIEW :=
  DocumentView (mk_view [100; 49]) (mk_view [117]) (BytesView None 0) (mk_view [104; 105]) (mk_view [123; 125]) 5.
Definition demo_passage : YAP_V2_PASSAGE_VIEW := PassageView (mk_view [112]) (mk_view [100; 49]) (mk_view [104; 105]) 0 0 2.

Lemma demo_bytes (l : bytes) : forallb (fun b => (0 <=? b) && (b <? 256)) l = true -> bytes_ok l.
Proof.
  intros H. apply Forall_forall. intros b Hb. apply forallb_forall with (x := b) in H; [|by apply list_elem_of_In].
  btests. done.
Qed.

Lemma demo_view_wf l : forallb (fun b => (0 <=? b) && (b <? 256)) l = true -> zlen l <= SIZE_MAX -> view_wf (mk_view l).
Proof. intros H Hl. apply mk_view_wf; [by apply demo_bytes|done]. Qed.

Lemma demo_documents_wf : Forall document_wf [demo_document].
Proof.
  constructor; [|constructor]. unfold document_wf; split_and!; try (by apply demo_view_wf); try done.
Qed.
Lemma demo_passages_wf : Forall passage_wf [demo_passage].
Proof. constructor; [|constructor]. unfold passage_wf; split_and!; try (by apply demo_view_wf); done. Qed.

(** A segment survives its file.  Whatever [segment_file_data] produced from documents and
    passages, parsing it returns the same identifier, generation, documents and passages (each
    text byte for byte), and the descriptor the writer announced. *)
Theorem segment_roundtrip {A : Allocator} (garbage garbage' : nat -> Z) (sid : bytes) (g eg : Z)
    (docs : list YAP_V2_DOCUMENT_VIEW) (pass : list YAP_V2_PASSAGE_VIEW) (file : bytes) :
  c_string sid -> is_u64 g -> g <> 0 -> (eg = 0 \/ eg = g) -> Forall document_wf docs -> Forall passage_wf pass ->
  segment_file_data garbage sid g docs pass = Ok file ->
  segment_parse (A:=alloc_total) garbage' eg true file =
    Ok (Segment sid g (canon_document <$> docs) (canon_passage <$> pass) (segment_payload sid docs pass),
        Some (written_descriptor sid docs pass file)).
Proof.
  intros Hs Hg Hg0 Heg Hd Hp E. pose proof (segment_file_data_spec garbage sid g docs pass Hs Hg0 Hd Hp) as H.
  rewrite E in H. destruct H as (Hid&Hval&->&Hl).
  by apply (segment_parse_image (A:=alloc_total) garbage' sid g eg true).
Qed.

Lemma segment_roundtrip_witness : exists file,
  segment_file_data (A:=alloc_total) (fun _ => 7) [115; 49] 3 [demo_document] [demo_passage] = Ok file /\
  segment_parse (A:=alloc_total) (fun _ => 0) 3 true file =
    Ok (Segment [115; 49] 3 [canon_document demo_document] [canon_passage demo_passage]
          (segment_payload [115; 49] [demo_document] [demo_passage]),
        Some (written_descriptor [115; 49] [demo_document] [demo_passage] file)).
Proof.
  destruct (segment_file_data (A:=alloc_total) (fun _ => 7) [115; 49] 3 [demo_document] [demo_passage]) as [file| |] eqn:E;
    [|exfalso; vm_compute in E; discriminate..].
  exists file. split; [reflexivity|].
  apply (segment_roundtrip (A:=alloc_total) (fun _ => 7) (fun _ => 0) [115; 49] 3 3 [demo_document] [demo_passage] file);
    [|split; [discriminate|reflexivity]|discriminate|right; reflexivity|exact demo_documents_wf|exact demo_passages_wf|exact E].
  intros H. apply elem_of_cons in H as [[=]|H]. apply elem_of_cons in H as [[=]|H]. exact (not_elem_of_nil _ H).
Defined.

(** On the content of any file [YAP_V2_segment_read] reads inside the block only, and a
    segment it accepts satisfies every rule the writer enforces: identifier, unique document
    and passage identifiers, passages of existing documents with distinct ordinals, text
    without NUL inside the limits, and the expected generation. *)
Theorem segment_read_sound {A : Allocator} (garbage : nat -> Z) (eg : Z) (want : bool) (file : bytes) :
  bytes_ok file -> zlen file < 2 ^ 64 ->
  segment_parse garbage eg want file <> Fault /\
  forall s d, segment_parse garbage eg want file = Ok (s, d) ->
    id_ok (segment_id s) /\ segment_views_valid (documents s) (passages s) /\
    (eg = 0 \/ segment_generation s = eg).
Proof.
  intros Hok Hl. pose proof (segment_parse_sound garbage eg want file Hok Hl) as H.
  destruct (segment_parse garbage eg want file) as [[s d]| |]; [|done..]. split; [done|]. intros ? ? [= <- <-].
  destruct H as (?&?&_&_&?&_). done.
Qed.

Lemma segment_read_sound_witness :
  segment_parse (A:=alloc_total) (fun _ => 0) 0 true (replicate 90 200) <> Fault.
Proof.
  apply (segment_read_sound (A:=alloc_total) (fun _ => 0) 0 true (replicate 90 200));
    [apply demo_bytes; vm_compute; reflexivity|reflexivity].
Defined.

(** Writing fails only for a reason: [segment_file_data] encodes every valid set of
    documents and passages unless the payload exceeds 256 MiB or an allocation fails, rejects
    every invalid one, and never writes outside the growing buffer. *)
Theorem segment_write_total {A : Allocator} (garbage : nat -> Z) (sid : bytes) (g : Z)
    (docs : list YAP_V2_DOCUMENT_VIEW) (pass : list YAP_V2_PASSAGE_VIEW) :
  c_string sid -> g <> 0 -> Forall document_wf docs -> Forall passage_wf pass ->
  match segment_file_data garbage sid g docs pass with
  | Ok file => id_ok sid /\ segment_views_valid docs pass /\
      file = file_image YAP_V2_FILE_DOCUMENTS g (segment_payload sid docs pass)
  | Err _ => ~ (id_ok sid /\ segment_views_valid docs pass) \/
      YAP_V2_MAX_SEGMENT_PAYLOAD_BYTES < zlen (segment_payload sid docs pass) \/ exists n, alloc_ok n = false
  | Fault => False
  end.
Proof.
  intros Hs Hg Hd Hp. pose proof (segment_file_data_spec garbage sid g docs pass Hs Hg Hd Hp) as H.
  destruct (segment_file_data garbage sid g docs pass); [|done..]. by destruct H as (?&?&?&_).
Qed.

Lemma segment_write_total_witness :
  match segment_file_data (A:=alloc_total) (fun _ => 7) [115; 49] 3 [demo_document] [] with
  | Ok file => id_ok [115; 49] /\ segment_views_valid [demo_document] [] /\
      file = file_image YAP_V2_FILE_DOCUMENTS 3 (segment_payload [115; 49] [demo_document] [])
  | Err _ => ~ (id_ok [115; 49] /\ segment_views_valid [demo_document] []) \/
      YAP_V2_MAX_SEGMENT_PAYLOAD_BYTES < zlen (segment_payload [115; 49] [demo_document] []) \/
      exists n, @alloc_ok alloc_total n = false
  | Fault => False
  end.
Proof.
  apply (segment_write_total (A:=alloc_total)); [|discriminate|exact demo_documents_wf|constructor].
  intros H. apply elem_of_cons in H as [[=]|H]. apply elem_of_cons in H as [[=]|H]. exact (not_elem_of_nil _ H).
Defined.

(** C38: what [YAP_V2_segment_write] reported as written is what [YAP_V2_segment_read] returns:
    after a successful write, under any file-system behaviour during it, reading the file back
    yields the documents and passages, and a descriptor equal to the one the writer returned. *)
Theorem segment_write_then_read {A : Allocator} (garbage garbage' : nat -> Z) (p : path) (sid : bytes) (g : Z)
    (docs : list YAP_V2_DOCUMENT_VIEW) (pass : list YAP_V2_PASSAGE_VIEW) (d : YAP_V2_SEGMENT_DESCRIPTOR) (w0 w : world) :
  c_string sid -> is_u64 g -> Forall document_wf docs -> Forall passage_wf pass -> tmp_apart p w0 ->
  YAP_V2_segment_write garbage (Some p) (Some sid) g docs pass w0 = Done (Ok d) w ->
  YAP_V2_segment_read (A:=alloc_total) garbage' (Some p) g true (set_script w []) =
    Done (Ok (Segment sid g (canon_document <$> docs) (canon_passage <$> pass) (segment_payload sid docs pass), Some d))
      (set_script w []).
Proof.
  intros Hs Hg Hd Hp Ht E. unfold YAP_V2_segment_write in E. destruct (Z.eqb_spec g 0) as [|Hg0]; [done|].
  pose proof (segment_file_data_spec garbage sid g docs pass Hs Hg0 Hd Hp) as H.
  destruct (segment_file_data garbage sid g docs pass) as [file| |]; [|done..]. destruct H as (Hid&Hval&->&Hl).
  set (file := file_image _ _ _) in *. rewrite sha256_digest_eq in E by apply stack_sha_valid.
  pose proof (write_atomic_wp p w0 file Ht) as HW. unfold wp in HW. unfold io_bind in E.
  destruct (write_atomic p file w0) as [[[]| |] w1|w1]; [|done..]. cbn in HW.
  assert (documents_descriptor sid (zlen docs) (zlen pass) (zlen file) (sha256_spec file) = Ok d /\ w1 = w) as [E' <-]
    by (unfold io_ret in E; rewrite outcome_bind_ok in E; by inversion E).
  assert (32 <= zlen file <= 32 + YAP_V2_MAX_SEGMENT_PAYLOAD_BYTES) as Hz.
  { pose proof (zlen_nonneg (segment_payload sid docs pass)). subst file. rewrite zlen_file_image. lia. }
  rewrite documents_descriptor_spec in E' by (done || lia). injection E' as <-.
  unfold YAP_V2_segment_read. erewrite bind_done.
  2: { apply read_file_ok; [done|exact (durable_file p file w1 HW)|unfold YAP_V2_FILE_HEADER_BYTES; lia]. }
  unfold io_ret. rewrite outcome_bind_ok. subst file. f_equal.
  by apply (segment_parse_image (A:=alloc_total) garbage' sid g g true docs pass); auto.
Qed.

Definition empty_world : world := World ∅ ∅ 0 [].

Lemma segment_write_then_read_witness : exists d w,
  YAP_V2_segment_write (A:=alloc_total) (fun _ => 7) (Some [97]) (Some [115; 49]) 3 [demo_document] [] empty_world = Done (Ok d) w /\
  YAP_V2_segment_read (A:=alloc_total) (fun _ => 0) (Some [97]) 3 true (set_script w []) =
    Done (Ok (Segment [115; 49] 3 [canon_document demo_document] [] (segment_payload [115; 49] [demo_document] []), Some d))
      (set_script w []).
Proof.
  destruct (YAP_V2_segment_write (A:=alloc_total) (fun _ => 7) (Some [97]) (Some [115; 49]) 3 [demo_document] [] empty_world)
    as [[d| |] w|w] eqn:E; [|exfalso; vm_compute in E; discriminate..].
  exists d, w. split; [reflexivity|].
  apply (segment_write_then_read (A:=alloc_total) (fun _ => 7) (fun _ => 0) [97] [115; 49] 3 [demo_document] [] d empty_world w);
    [|split; [discriminate|reflexivity]|exact demo_documents_wf|constructor| |exact E].
  - intros H. apply elem_of_cons in H as [[=]|H]. apply elem_of_cons in H as [[=]|H]. exact (not_elem_of_nil _ H).
  - split; intros j; vm_compute.
    + intros [H|H]; [|discriminate]. apply list_elem_of_singleton in H. discriminate.
    + discriminate.
Defined.

(** The checks on the arrays of a segment decide exactly the rules of a segment. *)
Theorem validate_segment_views_iff (docs : list YAP_V2_DOCUMENT_VIEW) (pass : list YAP_V2_PASSAGE_VIEW) :
  Forall document_wf docs -> Forall passage_wf pass ->
  validate_segment_views docs pass <> Fault /\
  (validate_segment_views docs pass = Ok tt <-> segment_views_valid docs pass).
Proof. apply validate_segment_views_spec. Qed.

Lemma validate_segment_views_iff_witness :
  validate_segment_views [demo_document] [demo_passage; demo_passage] <> Fault /\
  (validate_segment_views [demo_document] [demo_passage; demo_passage] = Ok tt <->
   segment_views_valid [demo_document] [demo_passage; demo_passage]).
Proof.
  apply validate_segment_views_iff; [exact demo_documents_wf|].
  constructor; [|exact demo_passages_wf]. exact (Forall_inv demo_passages_wf).
Defined.

(** A tombstone file of at most a million identifiers survives writing and reading; what
    the writer accepts has no empty, over-long or repeated identifier. *)
Theorem tombstones_roundtrip {A : Allocator} (garbage : nat -> Z) (g eg : Z) (ids : list YAP_V2_BYTES_VIEW) (file : bytes) :
  is_u64 g -> g <> 0 -> (eg = 0 \/ eg = g) -> Forall view_wf ids -> zlen ids <= YAP_V2_MAX_SEGMENT_DOCUMENTS ->
  tombstones_file_data garbage g ids = Ok file ->
  tombstones_valid ids /\ tombstones_parse (A:=alloc_total) eg file = Ok (canon <$> ids).
Proof.
  intros Hg Hg0 Heg Hw Hn E. pose proof (tombstones_file_data_spec garbage g ids Hg0 Hw) as H. rewrite E in H.
  destruct H as (Hval&->&Hl). split; [done|]. by apply (tombstones_parse_image (A:=alloc_total)).
Qed.

Lemma tombstones_roundtrip_witness : exists file,
  tombstones_file_data (A:=alloc_total) (fun _ => 9) 2 [mk_view [97]; mk_view [98]] = Ok file /\
  tombstones_parse (A:=alloc_total) 2 file = Ok [canon (mk_view [97]); canon (mk_view [98])].
Proof.
  destruct (tombstones_file_data (A:=alloc_total) (fun _ => 9) 2 [mk_view [97]; mk_view [98]]) as [file| |] eqn:E;
    [|exfalso; vm_compute in E; discriminate..].
  exists file. split; [reflexivity|].
  apply (tombstones_roundtrip (A:=alloc_total) (fun _ => 9) 2 2 [mk_view [97]; mk_view [98]] file);
    [split; [discriminate|reflexivity]|discriminate|right; reflexivity| |vm_compute; discriminate|exact E].
  constructor; [|constructor; [|constructor]]; apply demo_view_wf; (reflexivity || (vm_compute; discriminate)).
Defined.
