(* ===== verification/Wal.v ===== *)
(** The write-ahead log of index updates (src/src/indexing/yappo_update_wal_v2.c) and
    the operations it holds (src/src/indexing/yappo_ingest.h).

    Strings are C strings ([None] is the null pointer); a [float] is its 32 bits.  The
    reader of the log works on a stream: the bytes not read yet, the running CRC and
    the number of payload bytes that remain. *)
From S2P Require Import Prelude Words Types Crc Header Manifest FileSystem Reader Segment.
#[local] Open Scope io_scope.

Definition WAL_HEADER_BYTES : Z := 64.
Definition WAL_OPERATION_HEADER_BYTES : Z := 72.
Definition WAL_VERSION : Z := 1.
Definition WAL_MAX_OPERATIONS : Z := 10000.
Definition wal_magic : bytes := [89; 65; 80; 87; 65; 76; 50; 0].  (* "YAPWAL2\0" *)

Definition YAP_V2_INGEST_UPSERT : Z := 1.
Definition YAP_V2_INGEST_DELETE : Z := 2.

Record YAP_V2_INGEST_OPERATION := IngestOperation {
  op_kind : Z;
  op_id : option bytes;
  op_url : option bytes;
  op_title : option bytes;
  op_body : option bytes;
  op_metadata_json : option bytes;
  op_updated_at_unix_ms : Z;
  op_vectors : option (list Z);
  op_vector_count : Z;
  op_vector_dimensions : Z }.

Record YAP_V2_UPDATE_WAL := UpdateWal {
  base_generation : Z;
  target_generation : Z;
  operations : list YAP_V2_INGEST_OPERATION }.

Definition sizeof_operation : Z := 80.
Definition sizeof_float : Z := 4.

(** ** Writing *)
Definition text_length (value : option bytes) : Z := match value with None => 0 | Some s => zlen s end.
Definition text_of (value : option bytes) : bytes := default [] value.
Definition op_texts (op : YAP_V2_INGEST_OPERATION) : list (option bytes) :=
  [op_id op; op_url op; op_title op; op_body op; op_metadata_json op].

Definition kind_valid (k : Z) : bool := (k =? YAP_V2_INGEST_UPSERT) || (k =? YAP_V2_INGEST_DELETE).

(** The checks on one operation; the number of vector components. *)
Definition check_operation (op : YAP_V2_INGEST_OPERATION) : result Z :=
  if bool_decide (op_id op = None) || negb (kind_valid (op_kind op)) then Err YAP_V2_INVALID_ARGUMENT
  else if negb (op_vector_count op =? 0) && (SIZE_MAX / op_vector_count op <? op_vector_dimensions op)
  then Err YAP_V2_OUT_OF_RANGE
  else
  let vector_values := u64 (op_vector_count op * op_vector_dimensions op) in
  if negb (vector_values =? 0) && bool_decide (op_vectors op = None) then Err YAP_V2_INVALID_ARGUMENT
  else Ok vector_values.

(** The five text lengths go to [record + 32], 8 bytes apart. *)
Fixpoint put_lengths (record : bytes) (at_ : Z) (texts : list (option bytes)) : result bytes :=
  match texts with
  | [] => Ok record
  | t :: texts => record ← store_bytes record at_ (put_u64 (text_length t)); put_lengths record (at_ + 8) texts
  end.

Definition operation_header (op : YAP_V2_INGEST_OPERATION) : result bytes :=
  record ← store_bytes (replicate 72 0) 0 (put_u32 (op_kind op));
  record ← store_bytes record 8 (put_u64 (u64 (op_updated_at_unix_ms op)));
  record ← store_bytes record 16 (put_u64 (op_vector_count op));
  record ← store_bytes record 24 (put_u64 (op_vector_dimensions op));
  put_lengths record 32 (op_texts op).

(** The pieces [write_bytes] is called on for one operation, in order. *)
Definition operation_pieces (op : YAP_V2_INGEST_OPERATION) : result (list bytes) :=
  vector_values ← check_operation op;
  record ← operation_header op;
  bits ← match op_vectors op with
         | Some v => load_bytes v 0 vector_values
         | None => if vector_values =? 0 then Ok [] else Fault
         end;
  Ok (record :: (text_of <$> op_texts op) ++ (put_u32 <$> bits)).

(** The final header. *)
Definition wal_header (base operation_count payload_bytes crc : Z) : result bytes :=
  header ← store_bytes (replicate 64 0) 0 wal_magic;
  header ← store_bytes header 8 (put_u32 WAL_VERSION);
  header ← store_bytes header 12 (put_u32 WAL_HEADER_BYTES);
  header ← store_bytes header 16 (put_u64 base);
  header ← store_bytes header 24 (put_u64 (u64 (base + 1)));
  header ← store_bytes header 32 (put_u64 operation_count);
  header ← store_bytes header 40 (put_u64 payload_bytes);
  store_bytes header 48 (put_u32 (u32 (Z.lnot crc))).

(** ** Reading *)
Record wal_stream := WalStream { rest : bytes; crc : Z; remaining : Z }.
Definition wal_reader (A : Type) : Type := wal_stream -> result (A * wal_stream).

#[export] Instance wal_ret : MRet wal_reader := fun A a st => Ok (a, st).
#[export] Instance wal_bind : MBind wal_reader := fun A B f r st =>
  match r st with Ok (a, st) => f a st | Err e => Err e | Fault => Fault end.

Definition wal_refuse (b : bool) (e : YAP_V2_STATUS) : wal_reader unit :=
  fun st => if b then Err e else Ok (tt, st).

Definition read_exact (length : Z) : wal_reader bytes := fun st =>
  if remaining st <? length then Err YAP_V2_INVALID_FORMAT
  else if negb (length =? 0) && (zlen (rest st) <? length) then Err YAP_V2_INVALID_FORMAT
  else
    let bs := take (Z.to_nat length) (rest st) in
    Ok (bs, WalStream (drop (Z.to_nat length) (rest st)) (crc32c_update (crc st) bs)
              (u64 (remaining st - length))).

Section wal_read.
Context {A : Allocator}.

(** The string is what precedes the first NUL of the bytes read. *)
Definition read_text (length : Z) : wal_reader bytes :=
  _ ← wal_refuse (SIZE_MAX - 1 <? length) YAP_V2_OUT_OF_RANGE;
  _ ← wal_refuse (negb (alloc_ok (length + 1))) YAP_V2_ALLOCATION_FAILED;
  bs ← read_exact length;
  mret (c_str bs).

Fixpoint read_texts (lengths : list Z) : wal_reader (list bytes) :=
  match lengths with
  | [] => mret []
  | n :: lengths => t ← read_text n; ts ← read_texts lengths; mret (t :: ts)
  end.

Fixpoint read_vectors (n : nat) : wal_reader (list Z) :=
  match n with
  | O => mret []
  | S n => encoded ← read_exact 4; bits ← (fun st => b ← get_u32_le encoded 0; Ok (b, st));
       vs ← read_vectors n; mret (bits :: vs)
  end.

(** A field of the fixed part of a record. *)
Definition field_u64 (record : bytes) (at_ : Z) : wal_reader Z := fun st =>
  v ← get_u64_le record at_; Ok (v, st).

Definition read_operation : wal_reader YAP_V2_INGEST_OPERATION :=
  record ← read_exact WAL_OPERATION_HEADER_BYTES;
  kind ← (fun st => v ← get_u32_le record 0; Ok (v, st));
  updated ← field_u64 record 8;
  vector_count ← field_u64 record 16;
  vector_dimensions ← field_u64 record 24;
  _ ← wal_refuse (negb (kind_valid kind) || (SIZE_MAX <? vector_count) || (SIZE_MAX <? vector_dimensions) ||
              (negb (vector_count =? 0) && (SIZE_MAX / vector_count <? vector_dimensions))) YAP_V2_INVALID_FORMAT;
  l0 ← field_u64 record 32; l1 ← field_u64 record 40; l2 ← field_u64 record 48;
  l3 ← field_u64 record 56; l4 ← field_u64 record 64;
  texts ← read_texts [l0; l1; l2; l3; l4];
  let vector_values := u64 (vector_count * vector_dimensions) in
  vectors ← (if negb (vector_values =? 0) then
           _ ← wal_refuse (SIZE_MAX / sizeof_float <? vector_values) YAP_V2_OUT_OF_RANGE;
           _ ← wal_refuse (negb (alloc_ok (vector_values * sizeof_float))) YAP_V2_ALLOCATION_FAILED;
           vs ← read_vectors (Z.to_nat vector_values); mret (Some vs)
         else mret None);
  _ ← wal_refuse (bool_decide (texts !! 0%nat = Some [])) YAP_V2_INVALID_FORMAT;
  mret (IngestOperation kind (texts !! 0%nat) (texts !! 1%nat) (texts !! 2%nat) (texts !! 3%nat) (texts !! 4%nat)
      (i64 updated) vectors vector_count vector_dimensions).

Fixpoint read_operations (n : nat) : wal_reader (list YAP_V2_INGEST_OPERATION) :=
  match n with
  | O => mret []
  | S n => op ← read_operation; ops ← read_operations n; mret (op :: ops)
  end.

(** The body of [YAP_V2_update_wal_load]: [size] is the size of the file, [file] what the
stream delivers before it ends or a read fails. *)
Definition wal_parse (size : Z) (file : bytes) : result YAP_V2_UPDATE_WAL :=
  if (size <? WAL_HEADER_BYTES) || (zlen file <? WAL_HEADER_BYTES) then Err YAP_V2_INVALID_FORMAT
  else
  header ← load_bytes file 0 WAL_HEADER_BYTES;
  operation_count ← get_u64_le header 32;
  payload_bytes ← get_u64_le header 40;
  expected_crc ← get_u32_le header 48;
  magic ← load_bytes header 0 8;
  version ← get_u32_le header 8;
  header_bytes ← get_u32_le header 12;
  if negb (bool_decide (magic = wal_magic)) || negb (version =? WAL_VERSION) ||
 negb (header_bytes =? WAL_HEADER_BYTES) || (operation_count =? 0) ||
 (WAL_MAX_OPERATIONS <? operation_count) || negb (payload_bytes =? size - WAL_HEADER_BYTES)
  then Err YAP_V2_INVALID_FORMAT
  else
  base ← get_u64_le header 16;
  target ← get_u64_le header 24;
  if (base =? UINT64_MAX) || negb (target =? u64 (base + 1)) then Err YAP_V2_INVALID_FORMAT
  else if negb (alloc_ok (operation_count * sizeof_operation)) then Err YAP_V2_ALLOCATION_FAILED
  else
  '(ops, st) ← read_operations (Z.to_nat operation_count)
             (WalStream (drop 64 file) UINT32_MAX payload_bytes);
  if negb (remaining st =? 0) || negb (u32 (Z.lnot (crc st)) =? expected_crc) || negb (bool_decide (rest st = []))
  then Err YAP_V2_INVALID_FORMAT
  else Ok (UpdateWal base target ops).
End wal_read.

(** ** The log file *)
Section wal_file.
Context {A : Allocator}.

Definition WAL_NAME : bytes := [117; 112; 100; 97; 116; 101; 46; 119; 97; 108].  (* "update.wal" *)
Definition PATH_CAPACITY : Z := 4096.

(** [snprintf(output, capacity, "%s/%s", left, right)] into a buffer of 4096 bytes. *)
Definition join_path (left right : bytes) : option path :=
  let path := left ++ [SLASH] ++ right in
  if PATH_CAPACITY <=? zlen path then None else Some path.

Definition wal_path (index_dir : option path) : option path :=
  d ← index_dir; join_path d WAL_NAME.

(** The name [mkstemp] makes of the template; [suffix] are the six characters it picks. *)
Definition wal_temporary (dir suffix : bytes) : option path :=
  join_path dir (WAL_NAME ++ [46; 116; 109; 112; 45] ++ suffix).  (* ".tmp-" *)

(** The empty path cannot be opened. *)
Definition sync_directory (dir : path) : io (result unit) :=
  if bool_decide (dir = []) then io_ret (Err YAP_V2_IO_ERROR)
  else let* ok := fsync_dir dir in io_ret (if ok : bool then Ok tt else Err YAP_V2_IO_ERROR).

Definition YAP_V2_update_wal_exists (index_dir : option path) : io bool :=
  match wal_path index_dir with None => io_ret false | Some p => access_ok p end.

(** The CRC and the number of payload bytes so far. *)
Definition progress : Type := Z * Z.

Definition write_bytes (i : nat) (data : bytes) (st : progress) : io (result progress) :=
  let '(crc, payload_bytes) := st in
  let* written := (if zlen data =? 0 then io_ret true else fwrite i data) in
  io_ret (if negb written then Err YAP_V2_IO_ERROR
      else let crc := crc32c_update crc data in
      if UINT64_MAX - payload_bytes <? zlen data then Err YAP_V2_OUT_OF_RANGE
      else Ok (crc, payload_bytes + zlen data)).

Fixpoint write_pieces (i : nat) (pieces : list bytes) (st : progress) : io (result progress) :=
  match pieces with
  | [] => io_ret (Ok st)
  | data :: pieces =>
  let* r := write_bytes i data st in
  match r with Ok st => write_pieces i pieces st | Err e => io_ret (Err e) | Fault => io_ret Fault end
  end.

Fixpoint write_operations (i : nat) (ops : list YAP_V2_INGEST_OPERATION) (st : progress) : io (result progress) :=
  match ops with
  | [] => io_ret (Ok st)
  | op :: ops =>
  match operation_pieces op with
  | Err e => io_ret (Err e)
  | Fault => io_ret Fault
  | Ok pieces =>
      let* r := write_pieces i pieces st in
      match r with Ok st => write_operations i ops st | Err e => io_ret (Err e) | Fault => io_ret Fault end
  end
  end.

(** The final header over the first bytes of the file, then [fflush] and [fsync]. *)
Definition write_header (i : nat) (header : bytes) : io (result unit) :=
  let* sought := fseek_start i in
  if negb sought then io_ret (Err YAP_V2_IO_ERROR) else
  let* written := fwrite_start i header in
  if negb written then io_ret (Err YAP_V2_IO_ERROR) else
  let* flushed := fflush i in
  if negb flushed then io_ret (Err YAP_V2_IO_ERROR) else
  let* synced := fsync i in
  io_ret (if synced : bool then Ok tt else Err YAP_V2_IO_ERROR).

(** What is written between [fdopen] and [fclose]. *)
Definition write_log (i : nat) (base : Z) (ops : list YAP_V2_INGEST_OPERATION) : io (result unit) :=
  let* room := fwrite i (replicate 64 0) in
  if negb room then io_ret (Err YAP_V2_IO_ERROR) else
  let* r := write_operations i ops (UINT32_MAX, 0) in
  match r with
  | Err e => io_ret (Err e)
  | Fault => io_ret Fault
  | Ok (crc, payload_bytes) =>
  match wal_header base (zlen ops) payload_bytes crc with
  | Ok header => write_header i header
  | Err e => io_ret (Err e)
  | Fault => io_ret Fault
  end
  end.

(** [rename] and [sync_directory]; the temporary file is removed unless it was renamed. *)
Definition install_log (dir p temporary : path) (status : result unit) : io (result unit) :=
  match status with
  | Fault => io_ret Fault
  | Err e => do* unlink temporary in io_ret (Err e)
  | Ok _ =>
  let* renamed := rename temporary p in
  if renamed : bool then sync_directory dir
  else do* unlink temporary in io_ret (Err YAP_V2_IO_ERROR)
  end.

Definition YAP_V2_update_wal_write (suffix : bytes) (index_dir : option path) (base : Z)
  (operations : option (list YAP_V2_INGEST_OPERATION)) : io (result unit) :=
  match index_dir, operations with
  | Some dir, Some ops =>
  if (zlen ops =? 0) || (WAL_MAX_OPERATIONS <? zlen ops) || (base =? UINT64_MAX)
  then io_ret (Err YAP_V2_INVALID_ARGUMENT)
  else
  match join_path dir WAL_NAME, wal_temporary dir suffix with
  | Some p, Some temporary =>
      let* file := mkstemp temporary in
      match file with
      | None => io_ret (Err YAP_V2_IO_ERROR)
      | Some i =>
          let* opened := call (fun w => w) in  (* fdopen *)
          if negb opened then
            do* fclose i in do* unlink temporary in io_ret (Err YAP_V2_IO_ERROR)
          else
          let* status := write_log i base ops in
          let* closed := fclose i in
          install_log dir p temporary
            (match status with Ok _ => if closed : bool then Ok tt else Err YAP_V2_IO_ERROR | r => r end)
      end
  | _, _ => io_ret (Err YAP_V2_OUT_OF_RANGE)
  end
  | _, _ => io_ret (Err YAP_V2_INVALID_ARGUMENT)
  end.

Definition YAP_V2_update_wal_load (index_dir : option path) : io (result YAP_V2_UPDATE_WAL) :=
  match wal_path index_dir with
  | None => io_ret (Err YAP_V2_INVALID_ARGUMENT)
  | Some p =>
  let* opened := fopen_rb_errno p in
  match opened with
  | Err e => io_ret (Err e)
  | Fault => io_ret Fault
  | Ok file =>
      let* stat := fstat in
      let* r := (if stat : bool then let* stream := fread_stream file in io_ret (wal_parse (zlen file) stream)
                 else io_ret (Err YAP_V2_INVALID_FORMAT)) in
      let* closed := fclose_rb in
      io_ret (match r with Ok wal => if closed : bool then Ok wal else Err YAP_V2_IO_ERROR | _ => r end)
  end
  end.

Definition YAP_V2_update_wal_clear (index_dir : option path) : io (result unit) :=
  match index_dir, wal_path index_dir with
  | Some dir, Some p =>
  let* removed := unlink p in
  if negb removed then io_ret (Err YAP_V2_IO_ERROR) else sync_directory dir
  | _, _ => io_ret (Err YAP_V2_INVALID_ARGUMENT)
  end.
End wal_file.

(** ** Specification *)
Definition operation_header_image (op : YAP_V2_INGEST_OPERATION) : bytes :=
  put_u32 (op_kind op) ++ [0; 0; 0; 0] ++ put_u64 (u64 (op_updated_at_unix_ms op)) ++ put_u64 (op_vector_count op) ++
  put_u64 (op_vector_dimensions op) ++ (op_texts op ≫= fun t => put_u64 (text_length t)).

Definition vector_values (op : YAP_V2_INGEST_OPERATION) : Z := op_vector_count op * op_vector_dimensions op.

(** The components that are logged. *)
Definition vector_bits (op : YAP_V2_INGEST_OPERATION) : list Z := slice (default [] (op_vectors op)) 0 (vector_values op).

Definition operation_image (op : YAP_V2_INGEST_OPERATION) : bytes :=
  operation_header_image op ++ (op_texts op ≫= text_of) ++ (vector_bits op ≫= put_u32).

Definition wal_header_image (base count : Z) (payload : bytes) : bytes :=
  wal_magic ++ put_u32 WAL_VERSION ++ put_u32 WAL_HEADER_BYTES ++ put_u64 base ++ put_u64 (base + 1) ++
  put_u64 count ++ put_u64 (zlen payload) ++ put_u32 (crc32c payload) ++ replicate 12 0.

Definition wal_payload (ops : list YAP_V2_INGEST_OPERATION) : bytes := ops ≫= operation_image.
Definition wal_image (base : Z) (ops : list YAP_V2_INGEST_OPERATION) : bytes :=
  wal_header_image base (zlen ops) (wal_payload ops) ++ wal_payload ops.

(** What the log can hold: the values of the C types, NUL-terminated strings, vectors of the
    announced size. *)
Definition operation_wf (op : YAP_V2_INGEST_OPERATION) : Prop :=
  Forall (fun t => bytes_ok (text_of t) /\ c_string (text_of t)) (op_texts op) /\
  is_i64 (op_updated_at_unix_ms op) /\ is_u64 (op_vector_count op) /\ is_u64 (op_vector_dimensions op) /\
  match op_vectors op with
  | Some v => Forall is_u32 v /\ vector_values op <= zlen v
  | None => True
  end.

(** An operation that can be read back. *)
Definition operation_ok (op : YAP_V2_INGEST_OPERATION) : Prop :=
  kind_valid (op_kind op) = true /\ (exists c s, op_id op = Some (c :: s)) /\
  vector_values op <= SIZE_MAX / sizeof_float /\ (vector_values op <> 0 -> op_vectors op <> None).

(** An operation that is written. *)
Definition operation_writable (op : YAP_V2_INGEST_OPERATION) : Prop :=
  kind_valid (op_kind op) = true /\ op_id op <> None /\ vector_values op <= SIZE_MAX /\
  (vector_values op <> 0 -> op_vectors op <> None).

(** What reading back yields: null strings became empty, unused vectors are gone. *)
Definition normal (op : YAP_V2_INGEST_OPERATION) : YAP_V2_INGEST_OPERATION :=
  IngestOperation (op_kind op) (Some (text_of (op_id op))) (Some (text_of (op_url op))) (Some (text_of (op_title op)))
    (Some (text_of (op_body op))) (Some (text_of (op_metadata_json op))) (op_updated_at_unix_ms op)
    (if vector_values op =? 0 then None else Some (vector_bits op)) (op_vector_count op) (op_vector_dimensions op).

(** ** Writing produces the image *)
Lemma zlen_operation_header_image op : zlen (operation_header_image op) = 72.
Proof. done. Qed.

Lemma put_lengths_spec pre post texts at_ : at_ = zlen pre ->
  forall junk, zlen junk = 8 * zlen texts ->
  put_lengths (pre ++ junk ++ post) at_ texts = Ok (pre ++ (texts ≫= fun t => put_u64 (text_length t)) ++ post).
Proof.
  revert pre at_; induction texts as [|t texts IH]; intros pre at_ -> junk Hj; cbn [put_lengths].
  - destruct junk; [done|zl].
  - rewrite zlen_cons in Hj. pose proof (zlen_nonneg texts).
    rewrite <- (take_drop 8 junk) at 1. rewrite <- (assoc_L (++) (take 8 junk)).
    assert (zlen (take 8 junk) = 8 /\ zlen (drop 8 junk) = 8 * zlen texts) as [H1 H2].
    { unfold zlen in *. rewrite length_take, length_drop. lia. }
    rewrite store_bytes_app by (done || by rewrite H1). rewrite outcome_bind_ok.
    rewrite (assoc_L (++) pre), (IH (pre ++ put_u64 (text_length t))); [|by rewrite zlen_app|done].
    cbn [mbind list_bind]. by rewrite <- !(assoc_L (++)).
Qed.

Lemma operation_header_spec op : operation_header op = Ok (operation_header_image op).
Proof.
  unfold operation_header, operation_header_image.
  change (replicate 72 0) with (replicate 4 0 ++ replicate 68 0).
  rewrite (store_bytes_app [] (replicate 4 0) (replicate 68 0)), outcome_bind_ok by done. cbn [app].
  change (replicate 68 0) with (replicate 4 0 ++ replicate 8 0 ++ replicate 56 0).
  rewrite (assoc_L (++) (put_u32 _)), store_bytes_app, outcome_bind_ok by done.
  change (replicate 56 0) with (replicate 8 0 ++ replicate 48 0).
  rewrite (assoc_L (++) _ (put_u64 _)), store_bytes_app, outcome_bind_ok by done.
  change (replicate 48 0) with (replicate 8 0 ++ replicate 40 0).
  rewrite (assoc_L (++) _ (put_u64 (op_vector_count op))), store_bytes_app, outcome_bind_ok by done.
  rewrite (assoc_L (++) _ (put_u64 (op_vector_dimensions op))).
  rewrite <- (app_nil_r (replicate 40 0)), put_lengths_spec by done.
  rewrite app_nil_r, <- !(assoc_L (++)). done.
Qed.

Lemma wal_header_spec base ops : is_u64 base -> base <> UINT64_MAX ->
  wal_header base (zlen ops) (zlen (wal_payload ops)) (crc32c_update UINT32_MAX (wal_payload ops)) =
  Ok (wal_header_image base (zlen ops) (wal_payload ops)).
Proof.
  intros Hb Hm. unfold wal_header, wal_header_image. rewrite crc32c_update_crc32c.
  rewrite u64_small by (unfold is_u64, UINT64_MAX in *; lia).
  change (replicate 64 0) with (replicate 8 0 ++ replicate 56 0).
  rewrite (store_bytes_app [] (replicate 8 0) (replicate 56 0)), outcome_bind_ok by done. cbn [app].
  change (replicate 56 0) with (replicate 4 0 ++ replicate 52 0).
  rewrite store_bytes_app, outcome_bind_ok by done. rewrite (assoc_L (++) wal_magic).
  change (replicate 52 0) with (replicate 4 0 ++ replicate 48 0).
  rewrite store_bytes_app, outcome_bind_ok by done. rewrite (assoc_L (++) _ (put_u32 WAL_HEADER_BYTES)).
  change (replicate 48 0) with (replicate 8 0 ++ replicate 40 0).
  rewrite store_bytes_app, outcome_bind_ok by done. rewrite (assoc_L (++) _ (put_u64 base)).
  change (replicate 40 0) with (replicate 8 0 ++ replicate 32 0).
  rewrite store_bytes_app, outcome_bind_ok by done. rewrite (assoc_L (++) _ (put_u64 (base + 1))).
  change (replicate 32 0) with (replicate 8 0 ++ replicate 24 0).
  rewrite store_bytes_app, outcome_bind_ok by done. rewrite (assoc_L (++) _ (put_u64 (zlen ops))).
  change (replicate 24 0) with (replicate 8 0 ++ replicate 16 0).
  rewrite store_bytes_app, outcome_bind_ok by done. rewrite (assoc_L (++) _ (put_u64 (zlen (wal_payload ops)))).
  change (replicate 16 0) with (replicate 4 0 ++ replicate 12 0).
  rewrite store_bytes_app by done. by rewrite <- !(assoc_L (++)).
Qed.

Lemma concat_fmap {B} (f : B -> bytes) l : concat (f <$> l) = l ≫= f.
Proof. induction l as [|x l IH]; [done|]. cbn. by rewrite IH. Qed.

(** The checks of the writer accept every operation that can be read back, and more: an
    operation with an empty identifier is logged although it will be refused when the log is
    read. *)
Lemma operation_pieces_spec op : operation_wf op ->
  match operation_pieces op with
  | Ok ps => concat ps = operation_image op /\ operation_writable op
  | Err _ => ~ operation_ok op
  | Fault => False
  end.
Proof.
  intros (_&_&Hc&Hd&Hv). unfold operation_pieces, check_operation, operation_ok, operation_writable, vector_values in *.
  unfold is_u64 in *. rewrite operation_header_spec.
  destruct (bool_decide (op_id op = None)) eqn:B; cbn [orb]; [|destruct (kind_valid (op_kind op)) eqn:K; cbn [negb]].
  { btests. intros (_&(?&?&?)&_). congruence. }
  2: { intros [[=] _]. }
  btests. destruct (_ && _) eqn:T.
  { btests. intros (_&_&Hx&_). change (SIZE_MAX / sizeof_float) with 4611686018427387903 in Hx.
    assert (SIZE_MAX < op_vector_count op * op_vector_dimensions op); [|unfold SIZE_MAX in *; lia].
    pose proof (Z.mul_succ_div_gt SIZE_MAX (op_vector_count op) ltac:(lia)). nia. }
  assert (op_vector_count op * op_vector_dimensions op <= SIZE_MAX) as Hm.
  { destruct (Z.eqb_spec (op_vector_count op) 0) as [->|N]; [unfold SIZE_MAX; lia|]. cbn [negb andb] in T.
    apply Z.ltb_ge in T. pose proof (Z.mul_div_le SIZE_MAX (op_vector_count op) ltac:(lia)). nia. }
  assert (0 <= op_vector_count op * op_vector_dimensions op) by nia.
  cbv zeta. rewrite u64_small by (unfold SIZE_MAX in *; lia).
  destruct (negb (op_vector_count op * op_vector_dimensions op =? 0) && bool_decide (op_vectors op = None)) eqn:T2.
  { btests. intros (_&_&_&Hx). by apply Hx. }
  rewrite !outcome_bind_ok.
  assert (op_vector_count op * op_vector_dimensions op <> 0 -> op_vectors op <> None) as Hnv.
  { intros Hn Hx. by rewrite (proj2 (Z.eqb_neq _ 0)), bool_decide_true in T2 by done. }
  unfold operation_image, vector_bits, vector_values.
  destruct (op_vectors op) as [v|] eqn:V; cbn [default].
  - unfold load_bytes. rewrite (proj2 (in_range_true _ _ _)), outcome_bind_ok by lia. split_and!; try done.
    cbn [concat]. by rewrite concat_app, !concat_fmap.
  - destruct (Z.eqb_spec (op_vector_count op * op_vector_dimensions op) 0) as [E|E]; [|by destruct Hnv].
    rewrite outcome_bind_ok. split_and!; try done.
    cbn [concat]. rewrite concat_app, !concat_fmap. unfold slice. by rewrite drop_nil, take_nil.
Qed.

(** ** Reading back *)
Definition wparses {A} (r : wal_reader A) (a : A) (bs : bytes) : Prop :=
  forall tail c n, zlen bs <= n < 2 ^ 64 ->
    r (WalStream (bs ++ tail) c n) = Ok (a, WalStream tail (crc32c_update c bs) (n - zlen bs)).

Lemma wparses_ret {A} (a : A) : wparses (mret a) a [].
Proof. intros tail c n Hn. unfold mret, wal_ret. rewrite zlen_nil, Z.sub_0_r. done. Qed.

Lemma wparses_bind {A B} (r : wal_reader A) (f : A -> wal_reader B) a b bs bs' :
  wparses r a bs -> wparses (f a) b bs' -> wparses (r ≫= f) b (bs ++ bs').
Proof.
  intros Hr Hf tail c n Hn. unfold mbind, wal_bind. rewrite zlen_app in Hn. pose_zlen.
  rewrite <- (assoc_L (++)), Hr by lia. rewrite Hf by lia. rewrite crc32c_update_app, zlen_app.
  do 3 f_equal. lia.
Qed.

Lemma wparses_pure {A B} (r : result A) (a : A) (f : A -> wal_reader B) b bs :
  r = Ok a -> wparses (f a) b bs -> wparses (x ← (fun st => y ← r; Ok (y, st)); f x) b bs.
Proof. intros -> H tail c n Hn. unfold mbind, wal_bind. cbn. by apply H. Qed.

Lemma wparses_refuse {A} (b : bool) e (k : wal_reader A) a bs :
  b = false -> wparses k a bs -> wparses (_ ← wal_refuse b e; k) a bs.
Proof. intros -> H tail c n Hn. by apply H. Qed.

Lemma wparses_last {A B} (r : wal_reader A) (f : A -> wal_reader B) a b bs :
  wparses r a bs -> wparses (f a) b [] -> wparses (r ≫= f) b bs.
Proof. intros H1 H2. rewrite <- (app_nil_r bs). by eapply wparses_bind. Qed.

Lemma read_exact_parses bs : wparses (read_exact (zlen bs)) bs bs.
Proof.
  intros tail c n Hn. unfold read_exact. cbn [rest crc remaining]. pose proof (zlen_nonneg bs). pose proof (zlen_nonneg tail).
  destruct (Z.ltb_spec n (zlen bs)); [lia|]. rewrite zlen_app.
  rewrite (proj2 (Z.ltb_ge (zlen bs + zlen tail) (zlen bs))), andb_false_r by lia. cbv zeta.
  assert (Z.to_nat (zlen bs) = length bs) as -> by (unfold zlen; lia).
  by rewrite take_app_length, drop_app_length, u64_small by lia.
Qed.

Section wal_read_proofs.
Context {A : Allocator} (HA : forall n, alloc_ok n = true).

Lemma read_text_parses bs : c_string bs -> zlen bs <= SIZE_MAX - 1 -> wparses (read_text (zlen bs)) bs bs.
Proof using HA.
  intros Hc Hl. unfold read_text. apply wparses_refuse; [apply Z.ltb_ge; lia|].
  apply wparses_refuse; [by rewrite HA|].
  eapply wparses_last; [apply read_exact_parses|]. rewrite c_str_c_string by done. apply wparses_ret.
Qed.

Lemma read_texts_parses l : Forall (fun t => c_string (text_of t) /\ zlen (text_of t) <= SIZE_MAX - 1) l ->
  wparses (read_texts (text_length <$> l)) (text_of <$> l) (l ≫= text_of).
Proof using HA.
  induction 1 as [|t l [Hc Hl] _ IH]; cbn [read_texts]; [apply wparses_ret|].
  change ((t :: l) ≫= text_of) with (text_of t ++ (l ≫= text_of)).
  rewrite !fmap_cons. cbn [read_texts]. eapply wparses_bind.
  - assert (text_length t = zlen (text_of t)) as -> by (by destruct t). by apply read_text_parses.
  - eapply wparses_last; [exact IH|apply wparses_ret].
Qed.

Lemma get_u32_put v : is_u32 v -> get_u32_le (E := YAP_V2_STATUS) (put_u32 v) 0 = Ok v.
Proof.
  intros Hv. rewrite put_u32_enc, <- put_u32_le_enc. rewrite <- (app_nil_r (put_u32_le v)).
  by apply (get_u32_le_app []).
Qed.

Lemma read_vectors_parses vs : Forall is_u32 vs -> wparses (read_vectors (length vs)) vs (vs ≫= put_u32).
Proof.
  induction 1 as [|v vs Hv _ IH]; cbn [read_vectors length]; [apply wparses_ret|].
  change ((v :: vs) ≫= put_u32) with (put_u32 v ++ (vs ≫= put_u32)).
  eapply wparses_bind; [apply (read_exact_parses (put_u32 v))|].
  eapply wparses_pure; [by apply get_u32_put|]. eapply wparses_last; [exact IH|apply wparses_ret].
Qed.
End wal_read_proofs.

Lemma text_length_of t : text_length t = zlen (text_of t).
Proof. by destruct t. Qed.

Lemma put_u64_eq v : put_u64 v = put_u64_le v.
Proof. by rewrite put_u64_enc, put_u64_le_enc. Qed.
Lemma put_u32_eq v : put_u32 v = put_u32_le v.
Proof. by rewrite put_u32_enc, put_u32_le_enc. Qed.

(** The [i]-th word of a sequence of 64-bit words. *)
Lemma words_ok vs : bytes_ok (vs ≫= put_u64).
Proof. induction vs; cbn; [constructor|]. apply Forall_app_2; auto with bytes. Qed.

Lemma get_word a vs c (i : nat) v p : vs !! i = Some v -> is_u64 v -> bytes_ok a -> bytes_ok c ->
  p = zlen a + 8 * Z.of_nat i ->
  get_u64_le (E := YAP_V2_STATUS) (a ++ (vs ≫= put_u64) ++ c) p = Ok v.
Proof.
  intros Hi Hv Ha Hc ->. revert a i Hi Ha; induction vs as [|x vs IH]; intros a i Hi Ha; [done|].
  change ((x :: vs) ≫= put_u64) with (put_u64 x ++ (vs ≫= put_u64)).
  destruct i as [|i]; cbn in Hi.
  - injection Hi as ->. rewrite Z.add_0_r, put_u64_eq, <- (assoc_L (++) (put_u64_le v)).
    apply get_u64_le_app; [|done|done]. apply Forall_app_2; [done|]. apply Forall_app_2; [apply words_ok|done].
  - rewrite <- (assoc_L (++) (put_u64 x)), (assoc_L (++) a).
    specialize (IH (a ++ put_u64 x) i Hi). rewrite zlen_app, zlen_put_u64 in IH.
    replace (zlen a + 8 * Z.of_nat (S i)) with (zlen a + 8 + 8 * Z.of_nat i) by lia.
    apply IH, Forall_app_2; auto with bytes.
Qed.

Definition header_words (op : YAP_V2_INGEST_OPERATION) : list Z :=
  u64 (op_updated_at_unix_ms op) :: op_vector_count op :: op_vector_dimensions op :: (text_length <$> op_texts op).

Lemma operation_header_words op :
  operation_header_image op = (put_u32 (op_kind op) ++ [0; 0; 0; 0]) ++ (header_words op ≫= put_u64) ++ [].
Proof. done. Qed.

Lemma get_header_word op (i : nat) v p : header_words op !! i = Some v -> is_u64 v -> p = 8 + 8 * Z.of_nat i ->
  get_u64_le (E := YAP_V2_STATUS) (operation_header_image op) p = Ok v.
Proof.
  intros Hi Hv ->. rewrite operation_header_words. apply (get_word _ _ _ i); [done|done| |constructor|done].
  apply Forall_app_2; auto with bytes. repeat constructor; unfold byte_ok; lia.
Qed.

Lemma get_header_kind op : is_u32 (op_kind op) -> get_u32_le (E := YAP_V2_STATUS) (operation_header_image op) 0 = Ok (op_kind op).
Proof.
  intros Hk. unfold operation_header_image. rewrite put_u32_eq. apply (get_u32_le_app []); [|done|done].
  cbn [app]. change (0 :: 0 :: 0 :: 0 :: ?x) with ([0;0;0;0] ++ x). apply Forall_app_2.
  - repeat constructor; unfold byte_ok; lia.
  - apply (words_ok (header_words op)).
Qed.

Lemma kind_u32 k : kind_valid k = true -> is_u32 k.
Proof.
  unfold kind_valid, YAP_V2_INGEST_UPSERT, YAP_V2_INGEST_DELETE, is_u32. rewrite orb_true_iff, !Z.eqb_eq. lia.
Qed.

Section read_operation_proofs.
Context {A : Allocator} (HA : forall n, alloc_ok n = true).

Lemma read_operation_parses op : operation_wf op -> operation_ok op ->
  Forall (fun t => zlen (text_of t) <= SIZE_MAX - 1) (op_texts op) ->
  wparses read_operation (normal op) (operation_image op).
Proof using HA.
  intros (Ht&Hu&Hc&Hd&Hv) (Hk&(c&s&Hid)&Hm&Hnv) Hl.
  assert (Forall (fun t => is_u64 (text_length t)) (op_texts op)) as Hlu.
  { eapply Forall_impl; [exact Hl|]. intros t Hz. rewrite text_length_of. unfold is_u64, SIZE_MAX in *.
  pose proof (zlen_nonneg (text_of t)). lia. }
  unfold op_texts in Hlu. repeat rewrite Forall_cons in Hlu. destruct Hlu as (L0&L1&L2&L3&L4&_).
  unfold read_operation, operation_image.
  eapply wparses_bind; [apply (read_exact_parses (operation_header_image op))|].
  eapply wparses_pure; [by apply get_header_kind, kind_u32|].
  eapply wparses_pure; [by apply (get_header_word op 0 _ 8 eq_refl); [apply u64_is_u64|]|].
  eapply wparses_pure; [by apply (get_header_word op 1 _ 16 eq_refl)|].
  eapply wparses_pure; [by apply (get_header_word op 2 _ 24 eq_refl)|].
  unfold vector_values in *. change (SIZE_MAX / sizeof_float) with 4611686018427387903 in *.
  assert (0 <= op_vector_count op * op_vector_dimensions op) by (unfold is_u64 in *; nia).
  apply wparses_refuse.
  { rewrite Hk. cbn [negb orb]. unfold is_u64, SIZE_MAX in *. rewrite !(proj2 (Z.ltb_ge _ _)) by lia. cbn [orb].
  destruct (Z.eqb_spec (op_vector_count op) 0) as [|N]; [done|]. apply Z.ltb_ge.
  apply Z.div_le_lower_bound; lia. }
  eapply wparses_pure; [by apply (get_header_word op 3 _ 32 eq_refl)|].
  eapply wparses_pure; [by apply (get_header_word op 4 _ 40 eq_refl)|].
  eapply wparses_pure; [by apply (get_header_word op 5 _ 48 eq_refl)|].
  eapply wparses_pure; [by apply (get_header_word op 6 _ 56 eq_refl)|].
  eapply wparses_pure; [by apply (get_header_word op 7 _ 64 eq_refl)|].
  eapply wparses_bind.
  { apply (read_texts_parses HA (op_texts op)). apply Forall_both; [|done].
  eapply Forall_impl; [exact Ht|]. by intros t [_ ?]. }
  cbv zeta. rewrite (u64_small (op_vector_count op * op_vector_dimensions op)) by lia.
  apply (wparses_last _ _ (if op_vector_count op * op_vector_dimensions op =? 0 then None else Some (vector_bits op))).
  - unfold vector_bits, vector_values.
  destruct (Z.eqb_spec (op_vector_count op * op_vector_dimensions op) 0) as [E|N]; cbn [negb].
  { rewrite E. unfold slice. rewrite take_0. apply wparses_ret. }
  specialize (Hnv N). destruct (op_vectors op) as [v|]; [|done]. cbn [default]. destruct Hv as [Hv Hz].
  apply wparses_refuse; [apply Z.ltb_ge; lia|]. apply wparses_refuse; [by rewrite HA|].
  eapply wparses_last; [|apply wparses_ret].
  assert (Z.to_nat (op_vector_count op * op_vector_dimensions op) =
  length (slice v 0 (op_vector_count op * op_vector_dimensions op))) as ->.
  { pose proof (zlen_slice v 0 (op_vector_count op * op_vector_dimensions op)). unfold zlen in *. lia. }
  apply read_vectors_parses. by apply Forall_slice.
  - cbn. rewrite Hid. apply wparses_refuse; [done|].
  rewrite i64_u64 by done. unfold normal, vector_values. rewrite Hid. apply wparses_ret.
Qed.

Lemma read_operations_parses ops :
  Forall (fun op => operation_wf op /\ operation_ok op /\ Forall (fun t => zlen (text_of t) <= SIZE_MAX - 1) (op_texts op)) ops ->
  wparses (read_operations (length ops)) (normal <$> ops) (wal_payload ops).
Proof using HA.
  induction 1 as [|op ops (?&?&?) _ IH]; cbn [read_operations length]; [apply wparses_ret|].
  change (wal_payload (op :: ops)) with (operation_image op ++ wal_payload ops).
  eapply wparses_bind; [by apply read_operation_parses|].
  eapply wparses_last; [exact IH|apply wparses_ret].
Qed.
End read_operation_proofs.

Lemma wal_magic_ok : bytes_ok wal_magic.
Proof. repeat constructor; unfold byte_ok; lia. Qed.
Lemma zeros_ok n : bytes_ok (replicate n 0).
Proof. apply Forall_replicate. unfold byte_ok. lia. Qed.
#[export] Hint Resolve wal_magic_ok zeros_ok words_ok : bytes.

(** The fields of the log header. *)
Section wal_header_fields.
Context (base count : Z) (payload : bytes).
Context (Hb : is_u64 base) (Hb' : is_u64 (base + 1)) (Hc : is_u64 count) (Hp : zlen payload < 2 ^ 64).
Abbreviation h := (wal_header_image base count payload).

Lemma wal_header_words : h = (wal_magic ++ put_u32 WAL_VERSION ++ put_u32 WAL_HEADER_BYTES) ++
  ([base; base + 1; count; zlen payload] ≫= put_u64) ++ put_u32 (crc32c payload) ++ replicate 12 0.
Proof. unfold wal_header_image. cbn [mbind list_bind]. rewrite app_nil_r, <- !(assoc_L (++)). done. Qed.

Lemma wal_word (i : nat) v p : [base; base + 1; count; zlen payload] !! i = Some v -> is_u64 v -> p = 16 + 8 * Z.of_nat i ->
  get_u64_le (E := YAP_V2_STATUS) h p = Ok v.
Proof.
  intros Hi Hv ->. rewrite wal_header_words. apply (get_word _ _ _ i); [done|done|..|done];
  repeat apply Forall_app_2; auto with bytes.
Qed.

Lemma wal_crc : get_u32_le (E := YAP_V2_STATUS) h 48 = Ok (crc32c payload).
Proof.
  rewrite wal_header_words, put_u32_eq, (assoc_L (++) (wal_magic ++ _)). rewrite (put_u32_eq (crc32c payload)).
  apply get_u32_le_app; [|apply crc32c_is_u32|done]. repeat apply Forall_app_2; auto with bytes.
Qed.

Lemma wal_small : load_bytes (E := YAP_V2_STATUS) h 0 8 = Ok wal_magic /\
  get_u32_le (E := YAP_V2_STATUS) h 8 = Ok WAL_VERSION /\ get_u32_le (E := YAP_V2_STATUS) h 12 = Ok WAL_HEADER_BYTES.
Proof.
  unfold wal_header_image. split_and!.
  - by apply load_bytes_app0.
  - rewrite (put_u32_eq WAL_VERSION). apply get_u32_le_app; [|done|done]. repeat apply Forall_app_2; auto with bytes.
  - rewrite (put_u32_eq WAL_HEADER_BYTES), (assoc_L (++) wal_magic).
  apply get_u32_le_app; [|done|done]. repeat apply Forall_app_2; auto with bytes.
Qed.
End wal_header_fields.

Definition text_lengths_ok (op : YAP_V2_INGEST_OPERATION) : Prop :=
  Forall (fun t => zlen (text_of t) <= SIZE_MAX - 1) (op_texts op).

Lemma zlen_wal_image base ops : zlen (wal_image base ops) = 64 + zlen (wal_payload ops).
Proof. unfold wal_image. by rewrite zlen_app. Qed.

Lemma zlen_bind_le {B} (f : B -> bytes) l x : x ∈ l -> zlen (f x) <= zlen (l ≫= f).
Proof.
  induction l as [|y l IH]; [by intros ?%not_elem_of_nil|]. intros [->|Hx]%elem_of_cons; cbn; rewrite zlen_app.
  - pose proof (zlen_nonneg (l ≫= f)). lia.
  - pose proof (zlen_nonneg (f y)). specialize (IH Hx). lia.
Qed.

(** Texts are shorter than the log they are in. *)
Lemma wal_texts_bound ops : zlen (wal_payload ops) <= SIZE_MAX - 1 -> Forall text_lengths_ok ops.
Proof.
  intros Hl. apply Forall_forall. intros op Hop. apply Forall_forall. intros t Ht.
  pose proof (zlen_bind_le operation_image ops op Hop). pose proof (zlen_bind_le text_of (op_texts op) t Ht).
  fold (wal_payload ops) in *. unfold operation_image in *. rewrite !zlen_app in *.
  pose proof (zlen_nonneg (operation_header_image op)). pose proof (zlen_nonneg (vector_bits op ≫= put_u32)). lia.
Qed.

Lemma wal_parse_image {A : Allocator} base ops : (forall n, alloc_ok n = true) ->
  is_u64 base -> base <> UINT64_MAX -> 1 <= zlen ops <= WAL_MAX_OPERATIONS ->
  Forall operation_wf ops -> Forall operation_ok ops -> zlen (wal_image base ops) < 2 ^ 63 ->
  wal_parse (zlen (wal_image base ops)) (wal_image base ops) = Ok (UpdateWal base (base + 1) (normal <$> ops)).
Proof.
  intros HA Hb Hb1 Hn Hwf Hok Hl. rewrite zlen_wal_image in Hl. pose proof (zlen_nonneg (wal_payload ops)).
  unfold wal_parse, WAL_HEADER_BYTES, WAL_MAX_OPERATIONS in *. rewrite zlen_wal_image.
  rewrite (proj2 (Z.ltb_ge (64 + zlen (wal_payload ops)) 64)) by lia. cbn [orb].
  rewrite (load_bytes_app0 (wal_header_image base (zlen ops) (wal_payload ops)) (wal_payload ops)), outcome_bind_ok by done.
  unfold is_u64, UINT64_MAX in *.
  rewrite (wal_word base (zlen ops) (wal_payload ops) 2 (zlen ops) 32), outcome_bind_ok by (done || (unfold is_u64; lia)).
  rewrite (wal_word base (zlen ops) (wal_payload ops) 3 (zlen (wal_payload ops)) 40), outcome_bind_ok by (done || (unfold is_u64; lia)).
  rewrite wal_crc, outcome_bind_ok. destruct (wal_small base (zlen ops) (wal_payload ops)) as (->&->&->).
  rewrite !outcome_bind_ok. rewrite bool_decide_true by done.
  replace (64 + zlen (wal_payload ops) - 64) with (zlen (wal_payload ops)) by lia.
  rewrite !Z.eqb_refl, (proj2 (Z.eqb_neq (zlen ops) 0)), (proj2 (Z.ltb_ge 10000 (zlen ops))) by lia. cbn [negb orb].
  rewrite (wal_word base (zlen ops) (wal_payload ops) 0 base 16), outcome_bind_ok by (done || (unfold is_u64; lia)).
  rewrite (wal_word base (zlen ops) (wal_payload ops) 1 (base + 1) 24), outcome_bind_ok by (done || (unfold is_u64; lia)).
  rewrite u64_small, Z.eqb_refl, (proj2 (Z.eqb_neq base _)) by lia. cbn [negb orb].
  rewrite HA. cbn [negb].
  pose proof (read_operations_parses HA ops) as HP.
  assert (drop 64 (wal_image base ops) = wal_payload ops ++ []) as ->.
  { unfold wal_image. rewrite app_nil_r. by apply drop_app_length'. }
  unfold zlen at 1. rewrite Nat2Z.id.
  rewrite HP, outcome_bind_ok; [| |unfold SIZE_MAX in *; lia].
  2: { pose proof (wal_texts_bound ops ltac:(unfold SIZE_MAX; lia)) as Hx.
       apply Forall_forall. intros op Hop. rewrite Forall_forall in Hwf, Hok, Hx.
       split_and!; [by apply Hwf|by apply Hok|by apply Hx]. }
  cbn [remaining crc rest]. rewrite Z.sub_diag, crc32c_update_crc32c, !Z.eqb_refl, bool_decide_true by done. done.
Qed.

(** ** Reading arbitrary bytes *)

(** [wsound r P]: [r] never leaves the file; when it succeeds its result satisfies [P], it has
    consumed a prefix of the stream, and the running CRC and the count agree with it. *)
Definition consumed (st st' : wal_stream) : Prop :=
  exists bs, rest st = bs ++ rest st' /\ crc st' = crc32c_update (crc st) bs /\
    remaining st' = remaining st - zlen bs /\ 0 <= remaining st'.

Definition wsound {A} (r : wal_reader A) (P : A -> Prop) : Prop :=
  forall st, bytes_ok (rest st) -> is_u64 (remaining st) ->
    match r st with Ok (a, st') => P a /\ consumed st st' | Err _ => True | Fault => False end.

Lemma consumed_refl st : is_u64 (remaining st) -> consumed st st.
Proof. intros [? ?]. exists []. split_and!; cbn; try done. rewrite zlen_nil. lia. Qed.

Lemma consumed_trans a b c : consumed a b -> consumed b c -> consumed a c.
Proof.
  intros (x&Hx1&Hx2&Hx3&_) (y&Hy1&Hy2&Hy3&Hn). exists (x ++ y). split_and!; [|..|done].
  - by rewrite Hx1, Hy1, (assoc_L (++)).
  - by rewrite Hy2, Hx2, crc32c_update_app.
  - rewrite zlen_app. lia.
Qed.

Lemma consumed_ok a b : consumed a b -> bytes_ok (rest a) -> is_u64 (remaining a) ->
  bytes_ok (rest b) /\ is_u64 (remaining b).
Proof.
  intros (x&->&_&Hr&Hn) [_ Hb]%Forall_app Hu. split; [done|].
  unfold is_u64 in *. pose proof (zlen_nonneg x). lia.
Qed.

Lemma wsound_ret {A} (a : A) (P : A -> Prop) : P a -> wsound (mret a) P.
Proof. intros Ha st _ Hr. split; [done|by apply consumed_refl]. Qed.

Lemma wsound_bind {A B} (r : wal_reader A) (f : A -> wal_reader B) (P : A -> Prop) (Q : B -> Prop) :
  wsound r P -> (forall a, P a -> wsound (f a) Q) -> wsound (r ≫= f) Q.
Proof.
  intros Hr Hf st Hb Hu. unfold mbind, wal_bind. specialize (Hr st Hb Hu).
  destruct (r st) as [[a st1]| |]; [|done..]. destruct Hr as [Ha Hc].
  destruct (consumed_ok _ _ Hc Hb Hu) as [Hb1 Hu1]. specialize (Hf a Ha st1 Hb1 Hu1).
  destruct (f a st1) as [[b st2]| |]; [|done..]. destruct Hf as [HQ Hc2]. split; [done|].
  by eapply consumed_trans.
Qed.

Lemma wsound_refuse {A} (b : bool) e (k : wal_reader A) P :
  (b = false -> wsound k P) -> wsound (_ ← wal_refuse b e; k) P.
Proof.
  intros Hk. eapply (wsound_bind _ _ (fun _ => b = false)); [|by intros _].
  intros st Hb Hu. unfold wal_refuse. destruct b; [done|]. split; [done|by apply consumed_refl].
Qed.

Lemma wsound_pure {A B} (r : result A) (P : A -> Prop) (f : A -> wal_reader B) Q :
  (exists a, r = Ok a /\ P a) -> (forall a, P a -> wsound (f a) Q) ->
  wsound (x ← (fun st => y ← r; Ok (y, st)); f x) Q.
Proof.
  intros (a&->&Ha) Hf. eapply (wsound_bind _ _ P); [|done].
  intros st Hb Hu. cbn. split; [done|by apply consumed_refl].
Qed.

Lemma read_exact_sound n : 0 <= n -> wsound (read_exact n) (fun bs => bytes_ok bs /\ zlen bs = n).
Proof.
  intros Hn st Hb [Hr1 Hr2]. unfold read_exact.
  destruct (Z.ltb_spec (remaining st) n); [done|].
  destruct (negb (n =? 0) && (zlen (rest st) <? n)) eqn:T; [done|]. cbv zeta.
  assert (n <= zlen (rest st)) as Hle.
  { destruct (Z.eqb_spec n 0) as [->|]; [apply zlen_nonneg|]. cbn in T. by apply Z.ltb_ge in T. }
  assert (zlen (take (Z.to_nat n) (rest st)) = n) as Hz.
  { unfold zlen in *. rewrite length_take. lia. }
  split_and!; [by apply Forall_take|done|]. exists (take (Z.to_nat n) (rest st)). cbn. rewrite Hz.
  rewrite u64_small by lia. split_and!; [by rewrite take_drop|done|done|lia].
Qed.

Lemma field_u64_ok record p : bytes_ok record -> 0 <= p -> p + 8 <= zlen record ->
  exists v, get_u64_le (E := YAP_V2_STATUS) record p = Ok v /\ is_u64 v.
Proof. intros Hr Hp Hl. exists (le_dec (slice record p 8)). split; [by apply get_u64_le_dec|by apply le_dec_u64]. Qed.

Lemma field_u32_ok record p : bytes_ok record -> 0 <= p -> p + 4 <= zlen record ->
  exists v, get_u32_le (E := YAP_V2_STATUS) record p = Ok v /\ is_u32 v.
Proof. intros Hr Hp Hl. exists (le_dec (slice record p 4)). split; [by apply get_u32_le_dec|by apply le_dec_u32]. Qed.

Lemma c_str_bytes_ok s : bytes_ok s -> bytes_ok (c_str s).
Proof. induction 1 as [|c s Hc _ IH]; cbn [c_str]; [constructor|]. destruct (c =? 0); by constructor. Qed.

Section wal_sound.
Context {A : Allocator}.

Definition text_ok (t : bytes) : Prop := bytes_ok t /\ c_string t.

Lemma read_text_sound n : 0 <= n -> wsound (read_text n) text_ok.
Proof.
  intros Hn. unfold read_text. apply wsound_refuse; intros _. apply wsound_refuse; intros _.
  eapply wsound_bind; [by apply read_exact_sound|]. intros bs [Hb _]. apply wsound_ret.
  split; [by apply c_str_bytes_ok|apply c_str_no_nul].
Qed.

Lemma read_texts_sound ls : Forall is_u64 ls -> wsound (read_texts ls) (fun ts => length ts = length ls /\ Forall text_ok ts).
Proof.
  induction 1 as [|n ls [Hn _] _ IH]; cbn [read_texts]; [by apply wsound_ret|].
  eapply wsound_bind; [by apply read_text_sound|]. intros t Ht.
  eapply wsound_bind; [exact IH|]. intros ts [Hl Hts]. apply wsound_ret. split; [cbn; lia|by constructor].
Qed.

Lemma read_vectors_sound n : wsound (read_vectors n) (fun vs => length vs = n /\ Forall is_u32 vs).
Proof.
  induction n as [|n IH]; cbn [read_vectors]; [by apply wsound_ret|].
  eapply wsound_bind; [by apply read_exact_sound|]. intros bs [Hb Hz].
  eapply wsound_pure; [by apply field_u32_ok; rewrite ?Hz|]. intros b Hbits.
  eapply wsound_bind; [exact IH|]. intros vs [Hl Hvs]. apply wsound_ret. split; [cbn; lia|by constructor].
Qed.

(** The product of two sizes that passed the check fits. *)
Lemma product_fits a b : is_u64 a -> is_u64 b -> negb (a =? 0) && (SIZE_MAX / a <? b) = false -> is_u64 (a * b).
Proof.
  unfold is_u64. intros [Ha _] [Hb _] T. destruct (Z.eqb_spec a 0) as [->|N]; [lia|]. cbn in T.
  apply Z.ltb_ge in T. pose proof (Z.mul_div_le SIZE_MAX a ltac:(lia)). unfold SIZE_MAX in *. nia.
Qed.

Lemma read_operation_sound : wsound read_operation (fun op => operation_wf op /\ operation_ok op).
Proof.
  unfold read_operation. eapply wsound_bind; [by apply read_exact_sound|]. intros record [Hb Hz].
  unfold WAL_OPERATION_HEADER_BYTES in Hz. unfold field_u64.
  eapply wsound_pure; [apply field_u32_ok; auto; lia|intros kind Hkind].
  eapply wsound_pure; [apply field_u64_ok; auto; lia|intros updated Hupd].
  eapply wsound_pure; [apply field_u64_ok; auto; lia|intros vc Hvc].
  eapply wsound_pure; [apply field_u64_ok; auto; lia|intros vd Hvd].
  apply wsound_refuse; intros T. btests.
  do 5 (eapply wsound_pure; [apply field_u64_ok; auto; lia|intros ??]).
  eapply wsound_bind; [apply read_texts_sound; repeat (apply Forall_cons_2; [done|]); apply Forall_nil_2|]. intros ts [Hl Hts].
  destruct ts as [|t0 [|t1 [|t2 [|t3 [|t4 [|? ?]]]]]]; try discriminate Hl. cbv zeta.
  assert (is_u64 (vc * vd)) as Hp.
  { apply product_fits; [done..|]. by apply andb_false_iff. }
  rewrite u64_small by done.
  apply (wsound_bind _ _ (fun vs => vc * vd <= SIZE_MAX / sizeof_float /\ (vc * vd <> 0 -> vs <> None) /\
  match vs with Some v => Forall is_u32 v /\ vc * vd <= zlen v | None => True end)).
  - destruct (Z.eqb_spec (vc * vd) 0) as [E|N]; cbn [negb].
  { apply wsound_ret. rewrite E. split_and!; [by vm_compute|done|done]. }
  apply wsound_refuse; intros ?%Z.ltb_ge. apply wsound_refuse; intros _.
  eapply wsound_bind; [apply read_vectors_sound|]. intros vs [Hvl Hvs]. apply wsound_ret.
  split_and!; [done|done|done|]. unfold zlen, is_u64 in *. lia.
  - intros vs (Hm&Hnv&Hv). apply wsound_refuse; intros Hid. btests. apply wsound_ret. cbn in *.
  split.
  + unfold operation_wf. cbn. split_and!; [|..|done|done|done].
  * unfold op_texts. cbn. repeat rewrite Forall_cons in *. naive_solver.
  * unfold i64, is_i64, is_u64, INT64_MAX in *. destruct (Z.leb_spec updated (2 ^ 63 - 1)); lia.
  + unfold operation_ok, vector_values. cbn. split_and!; [done| |done|done].
  destruct t0 as [|c s]; [done|]. by exists c, s.
Qed.

Lemma read_operations_sound n :
  wsound (read_operations n) (fun ops => length ops = n /\ Forall (fun op => operation_wf op /\ operation_ok op) ops).
Proof.
  induction n as [|n IH]; cbn [read_operations]; [by apply wsound_ret|].
  eapply wsound_bind; [apply read_operation_sound|]. intros op Hop.
  eapply wsound_bind; [exact IH|]. intros ops [Hl Hops]. apply wsound_ret. split; [cbn; lia|by constructor].
Qed.
End wal_sound.

(** A log that can be applied: the successor generation and 1 to 10000 complete operations. *)
Definition wal_ok (wal : YAP_V2_UPDATE_WAL) : Prop :=
  is_u64 (base_generation wal) /\ target_generation wal = base_generation wal + 1 /\ is_u64 (target_generation wal) /\
  1 <= zlen (operations wal) <= WAL_MAX_OPERATIONS /\
  Forall (fun op => operation_wf op /\ operation_ok op) (operations wal).

Lemma wal_parse_sound {A : Allocator} size file : bytes_ok file -> size < 2 ^ 63 ->
  match wal_parse size file with
  | Ok wal => wal_ok wal /\ zlen file = size /\
      get_u32_le (E := YAP_V2_STATUS) (take 64 file) 48 = Ok (crc32c (drop 64 file))
  | Err _ => True
  | Fault => False
  end.
Proof.
  intros Hb Hl. unfold wal_parse, WAL_HEADER_BYTES in *.
  destruct (Z.ltb_spec size 64); [done|]. destruct (Z.ltb_spec (zlen file) 64); [done|]. cbn [orb].
  rewrite <- (take_drop 64 file) in Hb at 1. apply Forall_app in Hb as [Hh Hp].
  assert (zlen (take 64 file) = 64) as Hz by (unfold zlen in *; rewrite length_take; lia).
  assert (zlen (drop 64 file) = zlen file - 64) as Hz' by (rewrite zlen_drop; lia).
  assert (load_bytes (E := YAP_V2_STATUS) file 0 64 = Ok (take 64 file)) as ->.
  { rewrite <- (take_drop 64 file) at 1. by apply load_bytes_app0. }
  rewrite outcome_bind_ok.
  destruct (field_u64_ok (take 64 file) 32 Hh) as (count&->&Hc); [lia..|]. rewrite outcome_bind_ok.
  destruct (field_u64_ok (take 64 file) 40 Hh) as (payload&->&Hpl); [lia..|]. rewrite outcome_bind_ok.
  destruct (field_u32_ok (take 64 file) 48 Hh) as (expected&Hx&Hxu); [lia..|]. rewrite Hx, outcome_bind_ok.
  unfold load_bytes. rewrite (proj2 (in_range_true 0 8 _)), outcome_bind_ok by lia.
  destruct (field_u32_ok (take 64 file) 8 Hh) as (version&->&_); [lia..|]. rewrite outcome_bind_ok.
  destruct (field_u32_ok (take 64 file) 12 Hh) as (hbytes&->&_); [lia..|]. rewrite outcome_bind_ok.
  destruct (_ || _) eqn:T; [done|]. btests.
  destruct (field_u64_ok (take 64 file) 16 Hh) as (base&->&Hbase); [lia..|]. rewrite outcome_bind_ok.
  destruct (field_u64_ok (take 64 file) 24 Hh) as (target&->&Htarget); [lia..|]. rewrite outcome_bind_ok.
  destruct ((base =? UINT64_MAX) || _) eqn:T2; [done|]. btests.
  destruct (negb (alloc_ok _)); [done|].
  pose proof (read_operations_sound (Z.to_nat count) (WalStream (drop 64 file) UINT32_MAX payload) Hp Hpl) as HR.
  destruct (read_operations _ _) as [[ops st]| |]; [|done..]. rewrite outcome_bind_ok.
  destruct HR as [[Hlen Hops] (bs&Hr&Hcrc&Hrem&_)]. cbn in Hr, Hcrc, Hrem.
  destruct (negb (remaining st =? 0) || _ || _) eqn:T3; [done|]. btests.
  unfold UINT64_MAX, is_u64 in *. rewrite u64_small in * by lia.
  match goal with H : rest st = [] |- _ => rewrite H, app_nil_r in Hr end. subst bs. split_and!.
  - unfold wal_ok, is_u64; cbn. unfold WAL_MAX_OPERATIONS in *. split_and!; try done; try lia;
      unfold zlen; rewrite Hlen; lia.
  - lia.
  - rewrite Hcrc, crc32c_update_crc32c in *. by subst expected.
Qed.


(** ** Writing the log file *)
Lemma parent_join d p : join_path d WAL_NAME = Some p -> d <> [] -> parent p = d.
Proof.
  unfold join_path. intros Hp Hd. destruct (_ <=? _); [done|]. injection Hp as <-.
  unfold parent. pose proof (split_last_join d WAL_NAME) as E. cbn [app] in *. rewrite E; [by destruct d|].
  apply (bool_decide_unpack _). by vm_compute.
Qed.

Lemma wal_temporary_ne d suffix p t : join_path d WAL_NAME = Some p -> wal_temporary d suffix = Some t -> t <> p.
Proof.
  unfold wal_temporary, join_path. intros Hp Ht E.
  destruct (_ <=? zlen (d ++ [SLASH] ++ WAL_NAME)); [done|]. destruct (_ <=? _); [done|].
  injection Hp as <-. injection Ht as <-. apply (f_equal length) in E. rewrite !length_app in E. cbn in E. lia.
Qed.

Section write_log_proof.
Context (p t : path) (w0 : world).

(** A phase that appends [bs] to the temporary file. *)
Definition appended (i : nat) (c bs : bytes) (st : progress) (r : result progress) (w : world) : Prop :=
  match r with
  | Ok st' => st' = (crc32c_update st.1 bs, st.2 + zlen bs) /\ staged p t w0 i (Inode (c ++ bs) false) w
  | Err _ => untouched p w0 w
  | Fault => False
  end.

Lemma write_bytes_wp i bs c st w : staged p t w0 i (Inode c false) w ->
  wp (write_bytes i bs st) (appended i c bs st) (untouched p w0) w.
Proof.
  intros Hs. destruct st as [crc n]. unfold write_bytes. apply wp_bind.
  destruct (Z.eqb_spec (zlen bs) 0) as [E|N].
  - apply wp_ret. unfold wp. cbn [negb io_ret]. rewrite E. destruct (_ <? _); [apply Hs|].
  assert (bs = []) as -> by (destruct bs; [done|unfold zlen in E; cbn in E; lia]).
  split; [done|]. by rewrite app_nil_r.
  - apply wp_fwrite. intros s m. pose proof (fun b => staged_append p t w0 i c false (set_script w s) b Hs) as Hap.
  split_and!; [|apply wp_ret, (Hap (take m bs))|apply (Hap (take m bs))].
  apply wp_ret. cbn [negb]. destruct (_ <? _); [apply (Hap bs)|]. split; [done|apply (Hap bs)].
Qed.

Lemma appended_next i c a b st r w st' : st' = (crc32c_update st.1 a, st.2 + zlen a) ->
  appended i (c ++ a) b st' r w -> appended i c (a ++ b) st r w.
Proof.
  intros ->. unfold appended. destruct r; [|done..]. cbn [fst snd]. intros [-> Hs].
  rewrite crc32c_update_app, zlen_app, Z.add_assoc, (assoc_L (++)). done.
Qed.

Lemma write_pieces_wp i ps : forall c st w, staged p t w0 i (Inode c false) w ->
  wp (write_pieces i ps st) (appended i c (concat ps) st) (untouched p w0) w.
Proof.
  induction ps as [|bs ps IH]; intros c st w Hs; cbn [write_pieces concat].
  - apply wp_ret. cbn. rewrite zlen_nil, Z.add_0_r, app_nil_r. by destruct st.
  - apply wp_bind. eapply wp_mono; [by apply write_bytes_wp|]. intros [st'|e|] w' H; [|by apply wp_ret|done].
  destruct H as [E H]. eapply wp_mono; [by apply IH|]. intros r w''. by apply appended_next.
Qed.

Lemma write_operations_wp i ops : Forall operation_wf ops -> forall c st w, staged p t w0 i (Inode c false) w ->
  wp (write_operations i ops st)
  (fun r w => appended i c (wal_payload ops) st r w /\ (forall st', r = Ok st' -> Forall operation_writable ops))
  (untouched p w0) w.
Proof.
  induction 1 as [|op ops Hwf _ IH]; intros c st w Hs; cbn [write_operations].
  - apply wp_ret. split; [|done]. cbn. rewrite zlen_nil, Z.add_0_r, app_nil_r. by destruct st.
  - pose proof (operation_pieces_spec op Hwf) as HP.
  destruct (operation_pieces op) as [ps|e|]; [|apply wp_ret; split; [apply Hs|done]|done].
  destruct HP as [E Hw]. apply wp_bind. eapply wp_mono; [by apply write_pieces_wp|].
  intros [st'|e|] w' H; [|by apply wp_ret|done]. destruct H as [E' H]. rewrite E in *.
  eapply wp_mono; [by apply IH|]. intros r w'' [HA HB]. split; [by eapply appended_next|].
  intros st'' Hr. constructor; eauto.
Qed.

Lemma write_header_wp i h c w : staged p t w0 i (Inode c false) w ->
  wp (write_header i h) (fun r w => match r with
  | Ok _ => staged p t w0 i (Inode (h ++ drop (length h) c) true) w
  | Err _ => untouched p w0 w | Fault => False end) (untouched p w0) w.
Proof.
  intros Hs. apply wp_bind, wp_noop; [|intros; apply Hs]. intros s [|]; [|apply wp_ret, Hs]. cbn [negb].
  apply wp_bind, wp_write_call. intros s1 n.
  pose proof (fun b => staged_overwrite p t w0 i c false (set_script (set_script w s) s1) b Hs) as Hap.
  split_and!; [|apply wp_ret, (Hap (take n h))|apply (Hap (take n h))]. specialize (Hap h). cbn [negb].
  apply wp_bind, wp_noop; [|intros; apply Hap]. intros s2 [|]; [|apply wp_ret, Hap]. cbn [negb].
  apply wp_bind, wp_call. intros s3. split_and!; [|apply wp_ret, Hap|apply Hap].
  apply wp_ret. by apply (staged_fsync p t w0 i _ false (set_script (set_script _ s2) s3)).
Qed.

Lemma write_log_wp i base ops w : is_u64 base -> base <> UINT64_MAX -> Forall operation_wf ops ->
  staged p t w0 i (Inode [] false) w ->
  wp (write_log i base ops) (fun r w => match r with
  | Ok _ => staged p t w0 i (Inode (wal_image base ops) true) w /\ Forall operation_writable ops
  | Err _ => untouched p w0 w | Fault => False end) (untouched p w0) w.
Proof.
  intros Hb Hb' Hwf Hs. apply wp_bind, wp_fwrite. intros s n.
  pose proof (fun b => staged_append p t w0 i [] false (set_script w s) b Hs) as Hap.
  split_and!; [|apply wp_ret, (Hap (take n (replicate 64 0)))|apply (Hap (take n (replicate 64 0)))].
  specialize (Hap (replicate 64 0)). cbn [negb app] in *. apply wp_bind.
  eapply wp_mono; [by apply write_operations_wp|]. intros [st|e|] w1 [H Hw]; [|by apply wp_ret|done].
  destruct H as [-> H]. cbn [fst snd]. rewrite Z.add_0_l, wal_header_spec by done.
  eapply wp_mono; [by apply write_header_wp|]. intros [[]|e|] w2 H2; [|done..]. split; [|by eapply Hw]. exact H2.
Qed.
End write_log_proof.

(** What writing leaves: on success the bytes, durably, and [G]; otherwise the old or the new file. *)
Definition log_post (G : Prop) (p : path) (w0 : world) (bs : bytes) (r : result unit) (w : world) : Prop :=
  replace_post p w0 bs r w /\ (r = Ok tt -> G).

Section wal_write_proof.
Context (G : Prop) (dir p t : path) (w0 : world) (bs : bytes).
Context (Hp : join_path dir WAL_NAME = Some p) (Hne : t <> p).

Abbreviation post := (log_post G p w0 bs).
Abbreviation crash := (old_or_new p w0 bs).

Lemma failed_post e w : untouched p w0 w -> post (Err e) w.
Proof. intros Hu. split; [by left|done]. Qed.

Lemma remove_wp e w : untouched p w0 w -> wp (do* unlink t in io_ret (Err e)) post crash w.
Proof using Hne.
  intros Hu. apply wp_bind, (wp_cleanup_unlink p w0); [done|done| |by left].
  intros b w' Hu'. by apply wp_ret, failed_post.
Qed.

Lemma sync_directory_wp w : G -> replaced p w0 bs w -> wp (sync_directory dir) post crash w.
Proof using Hp.
  intros HG Hr. unfold sync_directory.
  destruct (bool_decide (dir = [])) eqn:B; btests; [apply wp_ret; split; [by right|done]|].
  rewrite <- (parent_join dir p Hp B). apply wp_bind, (wp_fsync_parent p w0 bs); [done|..].
  - intros w' Hd. by apply wp_ret.
  - intros w' Hd. apply wp_ret. split; [by right|done].
  - by right.
Qed.

Lemma install_log_wp r i w :
  match r with Ok _ => staged p t w0 i (Inode bs true) w /\ G | Err _ => untouched p w0 w | Fault => False end ->
  wp (install_log dir p t r) post crash w.
Proof using Hp Hne.
  destruct r as [[]|e|]; [|by apply remove_wp|done]. intros [Hs HG]. unfold install_log.
  apply wp_bind, (wp_rename_staged p w0 bs t _ _ _ i); [done|done| |by apply remove_wp|by left].
  intros w' Hr. by apply sync_directory_wp.
Qed.
End wal_write_proof.

(** [mkstemp] succeeds only when the name was free. *)
Lemma wp_mkstemp p t w0 (Q : option nat -> world -> Prop) (R : world -> Prop) :
  t <> p -> (forall j, Some j ∈ history w0 p -> (j < next_inode w0)%nat) ->
  (forall i w, staged p t w0 i (Inode [] false) w -> Q (Some i) w) ->
  (forall w, untouched p w0 w -> Q None w) -> (forall w, untouched p w0 w -> R w) ->
  wp (mkstemp t) Q R w0.
Proof.
  intros Hne Hf HS HN HR. unfold wp, mkstemp. destruct (current w0 t) eqn:C; [by apply HN|].
  apply (wp_bind (call (create_effect t)) (fun ok w => Done (if ok : bool then current w t else None) w)).
  apply wp_call. intros s. split_and!; [|by apply HN|by apply HR].
  destruct (create_staged p t w0 s Hne) as (i&Hi); [split|].
  - intros j [Hj|Hj]; [by apply Hf|congruence].
  - congruence.
  - unfold wp. rewrite (proj1 (proj2 Hi)). by apply HS.
Qed.

Definition log_request_ok (base : Z) (ops : list YAP_V2_INGEST_OPERATION) : Prop :=
  Forall operation_writable ops /\ 1 <= zlen ops <= WAL_MAX_OPERATIONS /\ base <> UINT64_MAX.

Lemma wal_write_wp suffix dir p base ops w0 :
  join_path dir WAL_NAME = Some p -> is_u64 base -> Forall operation_wf ops ->
  (forall j, Some j ∈ history w0 p -> (j < next_inode w0)%nat) ->
  wp (YAP_V2_update_wal_write suffix (Some dir) base (Some ops))
    (log_post (log_request_ok base ops) p w0 (wal_image base ops)) (old_or_new p w0 (wal_image base ops)) w0.
Proof.
  intros Hp Hb Hwf Hf. unfold YAP_V2_update_wal_write. pose proof (zlen_nonneg ops) as Hz.
  destruct (_ || _) eqn:T; [by apply wp_ret, failed_post|]. btests. rewrite Hp.
  destruct (wal_temporary dir suffix) as [t|] eqn:Ht; [|by apply wp_ret, failed_post].
  pose proof (wal_temporary_ne _ _ _ _ Hp Ht) as Hne.
  apply wp_bind, (wp_mkstemp p); [done|done| |by intros; apply wp_ret, failed_post|by left]. intros i w1 HS.
  apply wp_bind, wp_noop; [|left; apply HS]. intros s [|]; cbn [negb].
  - apply wp_bind. eapply wp_weaken; [by apply (write_log_wp p t w0)| |by left]. intros r w2 H2.
    apply wp_bind, wp_noop; [|intros s'; left; destruct r; [apply H2|apply H2|done]].
    intros s' b. apply (install_log_wp _ _ _ _ _ _ Hp Hne _ i).
    destruct r as [[]|e|]; [|done..]. destruct H2 as [H2 Hw]. destruct b; [|apply H2].
    split; [exact H2|]. split_and!; [done|lia..|done].
  - apply wp_bind, wp_noop; [|left; apply HS]. intros s' b. apply remove_wp; [done|apply HS].
Qed.

(** ** Without failing calls the log is written *)

(** A clean world in which [t] names the file being written. *)
Definition quiet (t : path) (w : world) : Prop := script w = [] /\ is_Some (current w t).

Lemma quiet_append t i bs w : quiet t w -> quiet t (append_effect i bs w).
Proof. intros [? ?]. split; by rewrite ?script_append, ?current_append. Qed.
Lemma quiet_fsync t i w : quiet t w -> quiet t (fsync_effect i w).
Proof. intros [? ?]. split; by rewrite ?script_fsync, ?current_fsync. Qed.
Lemma quiet_overwrite t i bs w : quiet t w -> quiet t (overwrite_effect i bs w).
Proof. intros [? ?]. unfold overwrite_effect. by destruct (inodes w !! i). Qed.

Lemma write_call_nil f bs w : script w = [] -> write_call f bs w = Done true (f bs w).
Proof. intros Hw. unfold write_call, next_event. by rewrite Hw. Qed.

Section wal_write_nil.
Context (t : path).

Lemma write_bytes_nil i bs st w : quiet t w -> st.2 + zlen bs <= UINT64_MAX ->
  exists w', write_bytes i bs st w = Done (Ok (crc32c_update st.1 bs, st.2 + zlen bs)) w' /\ quiet t w'.
Proof.
  intros Hq Hb. destruct st as [crc n]. unfold write_bytes. cbn [fst snd] in *.
  assert ((UINT64_MAX - n <? zlen bs) = false) as Hlt by (apply Z.ltb_ge; lia).
  destruct (zlen bs =? 0).
  - exists w. split; [|done]. unfold io_bind, io_ret. by rewrite Hlt.
  - exists (append_effect i bs w). erewrite bind_done by (by apply fwrite_nil, Hq).
  split; [unfold io_ret; by rewrite Hlt|by apply quiet_append].
Qed.

Lemma write_pieces_nil i ps : forall st w, quiet t w -> st.2 + zlen (concat ps) <= UINT64_MAX ->
  exists w', write_pieces i ps st w = Done (Ok (crc32c_update st.1 (concat ps), st.2 + zlen (concat ps))) w' /\ quiet t w'.
Proof.
  induction ps as [|bs ps IH]; intros st w Hq Hb; cbn [write_pieces concat] in *.
  - exists w. split; [|done]. rewrite zlen_nil, Z.add_0_r. by destruct st.
  - rewrite zlen_app in *. pose proof (zlen_nonneg (concat ps)).
  destruct (write_bytes_nil i bs st w Hq) as (w1&E1&Q1); [lia|]. erewrite bind_done by exact E1.
  destruct (IH (crc32c_update st.1 bs, st.2 + zlen bs) w1 Q1) as (w2&E2&Q2); [cbn; lia|].
  exists w2. rewrite E2. cbn [fst snd]. rewrite crc32c_update_app, Z.add_assoc. done.
Qed.

Lemma write_operations_nil i ops : Forall operation_wf ops -> Forall operation_ok ops ->
  forall st w, quiet t w -> st.2 + zlen (wal_payload ops) <= UINT64_MAX ->
  exists w', write_operations i ops st w =
  Done (Ok (crc32c_update st.1 (wal_payload ops), st.2 + zlen (wal_payload ops))) w' /\ quiet t w'.
Proof.
  intros Hwf Hok. induction ops as [|op ops IH]; intros st w Hq Hb; cbn [write_operations].
  { exists w. cbn [wal_payload mbind list_bind]. rewrite zlen_nil, Z.add_0_r. by destruct st. }
  apply Forall_cons in Hwf as [Hw Hwf]. apply Forall_cons in Hok as [Ho Hok].
  change (wal_payload (op :: ops)) with (operation_image op ++ wal_payload ops) in Hb. rewrite zlen_app in Hb.
  change (wal_payload (op :: ops)) with (operation_image op ++ wal_payload ops). rewrite zlen_app.
  pose proof (zlen_nonneg (wal_payload ops)).
  pose proof (operation_pieces_spec op Hw) as HP. destruct (operation_pieces op) as [ps|e|]; [|done..].
  destruct HP as [E _]. rewrite <- E in *.
  destruct (write_pieces_nil i ps st w Hq) as (w1&E1&Q1); [lia|]. erewrite bind_done by exact E1.
  rewrite crc32c_update_app, Z.add_assoc. apply (IH Hwf Hok (_, _)); [done|]. cbn [fst snd]. lia.
Qed.

Lemma write_header_nil i h w : quiet t w -> exists w', write_header i h w = Done (Ok tt) w' /\ quiet t w'.
Proof.
  intros Hq. unfold write_header, fseek_start, fflush, fsync. rewrite bind_nil by apply Hq. cbn [negb].
  erewrite bind_done by (apply write_call_nil, Hq). cbn [negb]. apply (quiet_overwrite t i h) in Hq.
  rewrite bind_nil by apply Hq. cbn [negb]. rewrite bind_nil by apply Hq. apply (quiet_fsync t i) in Hq.
  by eexists.
Qed.

Lemma write_log_nil i base ops w : quiet t w -> Forall operation_wf ops -> Forall operation_ok ops ->
  is_u64 base -> base <> UINT64_MAX -> zlen (wal_payload ops) <= UINT64_MAX ->
  exists w', write_log i base ops w = Done (Ok tt) w' /\ quiet t w'.
Proof.
  intros Hq Hwf Hok Hb Hb' Hl. unfold write_log. erewrite bind_done by (apply fwrite_nil, Hq). cbn [negb].
  apply (quiet_append t i (replicate 64 0)) in Hq.
  destruct (write_operations_nil i ops Hwf Hok (UINT32_MAX, 0) _ Hq) as (w1&E1&Q1); [cbn; lia|].
  erewrite bind_done by exact E1. cbn [fst snd]. rewrite Z.add_0_l, wal_header_spec by done.
  by apply write_header_nil.
Qed.
End wal_write_nil.

Lemma install_nil dir p t w : quiet t w -> dir <> [] ->
  exists w', install_log dir p t (Ok tt) w = Done (Ok tt) w' /\ script w' = [].
Proof.
  intros [Hs [i Hi]] Hd. unfold install_log.
  assert (rename t p w = Done true (rename_effect t p w)) as E by (unfold rename; rewrite Hi; by apply call_nil).
  erewrite bind_done by exact E. unfold sync_directory. rewrite bool_decide_false by done.
  erewrite bind_done by (by apply fsync_dir_nil). by eexists.
Qed.

Lemma wal_write_nil suffix dir p t base ops w :
  script w = [] -> dir <> [] -> join_path dir WAL_NAME = Some p -> wal_temporary dir suffix = Some t ->
  current w t = None -> is_u64 base -> log_request_ok base ops -> Forall operation_wf ops -> Forall operation_ok ops ->
  zlen (wal_payload ops) <= UINT64_MAX ->
  exists w', YAP_V2_update_wal_write suffix (Some dir) base (Some ops) w = Done (Ok tt) w' /\ script w' = [].
Proof.
  intros Hs Hd Hp Ht Hc Hb (_&Hn&Hb') Hwf Hok Hl. unfold YAP_V2_update_wal_write, WAL_MAX_OPERATIONS in *.
  rewrite (proj2 (Z.eqb_neq (zlen ops) 0)), (proj2 (Z.ltb_ge 10000 (zlen ops))), (proj2 (Z.eqb_neq base _)) by (done || lia).
  cbn [orb]. rewrite Hp, Ht. destruct (current_create t w) as [i Hi].
  assert (mkstemp t w = Done (Some i) (create_effect t w)) as E.
  { unfold mkstemp, fopen_wb. rewrite Hc, bind_nil by done. by rewrite Hi. }
  erewrite bind_done by exact E. cbv beta iota. rewrite bind_nil by (by rewrite script_create). cbn [negb].
  assert (quiet t (create_effect t w)) as Hq by (split; [by rewrite script_create|by exists i]).
  destruct (write_log_nil t i base ops _ Hq) as (w1&E1&Q1); [done..|].
  erewrite bind_done by exact E1. unfold fclose. rewrite bind_nil by apply Q1.
  by apply install_nil.
Qed.

(** ** Loading *)
Lemma wp_fread_stream bs Q R w :
  (forall s n, Q bs (set_script w s) /\ Q (take n bs) (set_script w s) /\ R (set_script w s)) ->
  wp (fread_stream bs) Q R w.
Proof.
  intros H. unfold wp, fread_stream, next_event.
  destruct (script w) as [|[]] eqn:E; try apply (H _ 0%nat); try apply H.
  destruct (H [] 0%nat) as [H1 _]. unfold set_script in H1.
  replace w with (World (inodes w) (names w) (next_inode w) (script w)) by (by destruct w).
  by rewrite E.
Qed.

(** A truncated stream is never accepted. *)
Lemma wal_parse_short {A : Allocator} file n wal : bytes_ok file -> zlen file < 2 ^ 63 ->
  wal_parse (zlen file) (take n file) = Ok wal -> take n file = file.
Proof.
  intros Hb Hl E. pose proof (wal_parse_sound (zlen file) (take n file) (Forall_take _ _ _ Hb) Hl) as H.
  rewrite E in H. destruct H as (_&H&_). apply take_ge. unfold zlen in *. rewrite length_take in H. lia.
Qed.

Definition loaded {A : Allocator} (p : path) (w : world) (r : result YAP_V2_UPDATE_WAL) : Prop :=
  match r with
  | Ok wal => exists d, file_at w p = Some d /\ wal_parse (zlen d) d = Ok wal
  | Err e => file_at w p = None -> e = YAP_V2_NOT_FOUND \/ e = YAP_V2_IO_ERROR
  | Fault => False
  end.

Lemma wal_load_wp {A : Allocator} dir p w : wal_path dir = Some p ->
  (forall d, file_at w p = Some d -> bytes_ok d /\ zlen d < 2 ^ 63) ->
  wp (YAP_V2_update_wal_load dir) (fun r _ => loaded p w r) (fun w' => True) w.
Proof.
  intros Hp Hd. unfold YAP_V2_update_wal_load. rewrite Hp.
  apply wp_bind, wp_bind, wp_noop; [|done]. intros s [|]; [|apply wp_ret; by right].
  unfold wp at 1. change (file_at (set_script w s) p) with (file_at w p).
  destruct (file_at w p) as [d|] eqn:F; [|apply wp_ret; by left]. destruct (Hd d eq_refl) as [Hb Hl].
  assert (forall n, loaded p w (wal_parse (zlen d) (take n d))) as HP.
  { intros n. unfold loaded. pose proof (wal_parse_sound (zlen d) (take n d) (Forall_take _ _ _ Hb) Hl) as H.
    destruct (wal_parse (zlen d) (take n d)) as [wal|e|] eqn:E; [|by rewrite F|done].
    exists d. split; [done|]. by rewrite (wal_parse_short d n wal) in E. }
  apply wp_bind, wp_noop; [|done]. intros s' b. apply wp_bind.
  eapply (wp_weaken _ (fun r _ => loaded p w r) _ (fun _ => True)); [..|done].
  - destruct b; [|apply wp_ret; unfold loaded; by rewrite F]. apply wp_bind, wp_fread_stream. intros s'' n.
    split_and!; [|by apply wp_ret|done]. specialize (HP (length d)). rewrite firstn_all in HP. by apply wp_ret.
  - intros r w1 Hr. apply wp_bind, wp_noop; [|done]. intros s'' c. apply wp_ret.
    destruct r as [wal|e|]; [|done..]. destruct c; [done|]. unfold loaded. by rewrite F.
Qed.

Lemma wal_load_nil {A : Allocator} dir p w d : wal_path dir = Some p -> script w = [] -> file_at w p = Some d ->
  YAP_V2_update_wal_load dir w = Done (wal_parse (zlen d) d) w.
Proof.
  intros Hp Hs Hf. unfold YAP_V2_update_wal_load. rewrite Hp.
  assert (fopen_rb_errno p w = Done (Ok d) w) as E1.
  { unfold fopen_rb_errno. rewrite bind_nil by done. by rewrite Hf. }
  erewrite bind_done by exact E1. cbv beta iota. unfold fstat. rewrite bind_nil by done.
  assert (fread_stream d w = Done d w) as E2 by (unfold fread_stream, next_event; by rewrite Hs).
  erewrite bind_done by (erewrite bind_done by exact E2; reflexivity).
  unfold fclose_rb. rewrite bind_nil by done. by destruct (wal_parse _ _).
Qed.

(** ** Clearing *)
Definition absent (p : path) (w : world) : Prop := forall v, crash_view w p v -> v = None.

Lemma unlink_view p w v : crash_view (unlink_effect p w) p v -> v = None \/ crash_view w p v.
Proof.
  unfold unlink_effect. destruct (current w p); [|by right]. unfold crash_view. rewrite history_same.
  intros (e&[->|He]%elem_of_cons&Hv); [by left|]. right. by exists e.
Qed.

Lemma unlink_current p w : current (unlink_effect p w) p = None.
Proof. unfold unlink_effect. destruct (current w p) eqn:C; [|done]. unfold current. by rewrite history_same. Qed.

Lemma sync_absent p w : current w p = None -> absent p (fsync_dir_effect (parent p) w).
Proof.
  intros Hc v (e&He&Hv). rewrite history_sync, bool_decide_true in He by done.
  unfold current in Hc. destruct (history w p) as [|x h]; cbn in He; [by apply not_elem_of_nil in He|].
  apply list_elem_of_singleton in He as ->. cbn in Hc. by subst x.
Qed.

Lemma wal_clear_wp dir p w : join_path dir WAL_NAME = Some p ->
  wp (YAP_V2_update_wal_clear (Some dir))
    (fun r w' => match r with Ok _ => absent p w' | Err _ => forall v, crash_view w' p v -> v = None \/ crash_view w p v
                 | Fault => False end)
    (fun w' => forall v, crash_view w' p v -> v = None \/ crash_view w p v) w.
Proof.
  intros Hp. unfold YAP_V2_update_wal_clear, wal_path. cbn [mbind option_bind]. rewrite Hp.
  apply wp_bind, wp_call. intros s. split_and!; [cbn [negb]|apply wp_ret; by right|by right].
  unfold sync_directory. set (w1 := unlink_effect p (set_script w s)).
  assert (forall v, crash_view w1 p v -> v = None \/ crash_view w p v) as H1 by (intros v; apply (unlink_view p (set_script w s))).
  destruct (bool_decide (dir = [])) eqn:B; btests; [by apply wp_ret|].
  rewrite <- (parent_join dir p Hp B). unfold fsync_dir.
  apply wp_bind, wp_bind, wp_noop; [|done]. intros s1 [|]; [|by apply wp_ret].
  apply wp_bind, wp_call. intros s2. pose proof (sync_absent p w1 (unlink_current p _)) as H2.
  split_and!; [|by apply wp_bind, wp_noop|done].
  apply wp_bind, wp_noop; [|by left; apply H2]. intros s3 [|]; apply wp_ret; [exact H2|]. left; by apply H2.
Qed.

(** ** Main theorems *)
Definition demo_op : YAP_V2_INGEST_OPERATION :=
  IngestOperation YAP_V2_INGEST_UPSERT (Some [97; 98]) (Some [104]) None (Some [98; 111; 100; 121]) None (-5)
    (Some [1065353216; 0]) 1 2.

Lemma demo_op_wf : Forall operation_wf [demo_op].
Proof.
  apply Forall_singleton. unfold operation_wf, op_texts. cbn. repeat rewrite Forall_cons.
  unfold byte_ok, c_string, is_i64, is_u64, is_u32, vector_values; cbn.
  repeat rewrite Forall_cons. unfold zlen; cbn.
  split_and!; try lia; try apply Forall_nil_2; by apply (bool_decide_unpack _); vm_compute.
Qed.

Lemma demo_op_ok : Forall operation_ok [demo_op].
Proof. apply Forall_singleton. split_and!; [done|by exists 97, [98]|by vm_compute|done]. Qed.

Definition demo_dir : path := [100].
Definition demo_wal_path : path := demo_dir ++ [SLASH] ++ WAL_NAME.
Definition demo_suffix : bytes := [65; 66; 67; 68; 69; 70].
Definition wal_world (s : list event) : world := World ∅ ∅ 0 s.

Lemma wal_world_fresh s p j : Some j ∈ history (wal_world s) p -> (j < next_inode (wal_world s))%nat.
Proof.
  change (history (wal_world s) p) with [@None nat]. intros H. by apply list_elem_of_singleton in H.
Qed.

(** C3: however calls fail and wherever the machine stops, writing the log is atomic: on
    success the log holds exactly the encoded operations, now and after any crash, and every
    operation passed the checks; otherwise the log is the complete new one or what it could
    be before. *)
Theorem wal_write_crash_safe (suffix dir p : path) (base : Z) (ops : list YAP_V2_INGEST_OPERATION)
    (w0 : world) :
  join_path dir WAL_NAME = Some p -> is_u64 base -> Forall operation_wf ops ->
  (forall j, Some j ∈ history w0 p -> (j < next_inode w0)%nat) ->
  match YAP_V2_update_wal_write suffix (Some dir) base (Some ops) w0 with
  | Done (Ok _) w => file_at w p = Some (wal_image base ops) /\
      (forall v, crash_view w p v -> v = Some (wal_image base ops)) /\ log_request_ok base ops
  | Done (Err _) w | Crashed w => forall v, crash_view w p v -> v = Some (wal_image base ops) \/ crash_view w0 p v
  | Done Fault _ => False
  end.
Proof.
  intros Hp Hb Hwf Hf. pose proof (wal_write_wp suffix dir p base ops w0 Hp Hb Hwf Hf) as H. unfold wp in H.
  destruct (YAP_V2_update_wal_write _ _ _ _ _) as [[[]|e|] w|w]; [destruct H as [H HG]..|].
  - split_and!; [by apply durable_file|intros v; by apply durable_view|by apply HG].
  - intros v. by apply old_or_new_view.
  - done.
  - intros v. by apply old_or_new_view.
Qed.

Lemma wal_write_crash_safe_witness :
  exists w, YAP_V2_update_wal_write demo_suffix (Some demo_dir) 4 (Some [demo_op])
      (wal_world [Succeed; Succeed; Succeed; Crash 3]) = Crashed w /\
    forall v, crash_view w demo_wal_path v ->
      v = Some (wal_image 4 [demo_op]) \/ crash_view (wal_world [Succeed; Succeed; Succeed; Crash 3]) demo_wal_path v.
Proof.
  pose proof (wal_write_crash_safe demo_suffix demo_dir demo_wal_path 4 [demo_op]
    (wal_world [Succeed; Succeed; Succeed; Crash 3]) eq_refl ltac:(unfold is_u64; lia) demo_op_wf
    (wal_world_fresh _ _)) as H.
  destruct (YAP_V2_update_wal_write _ _ _ _ _) as [[]|w] eqn:E;
    [exfalso; vm_compute in E; discriminate ..|].
  exists w. split; [reflexivity|exact H].
Defined.

(** C28: when no call fails, a batch of acceptable operations is written with [YAP_V2_OK], and
    loading the log then yields the same operations with the base generation and its
    successor (absent texts come back empty, vectors that were not announced are dropped). *)
Theorem wal_write_then_load (suffix dir p t : path) (base : Z) (ops : list YAP_V2_INGEST_OPERATION) (w0 : world) :
  join_path dir WAL_NAME = Some p -> wal_temporary dir suffix = Some t -> dir <> [] ->
  script w0 = [] -> current w0 t = None -> (forall j, Some j ∈ history w0 p -> (j < next_inode w0)%nat) ->
  is_u64 base -> base <> UINT64_MAX -> 1 <= zlen ops <= WAL_MAX_OPERATIONS ->
  Forall operation_wf ops -> Forall operation_ok ops -> zlen (wal_image base ops) < 2 ^ 63 ->
  exists w, YAP_V2_update_wal_write suffix (Some dir) base (Some ops) w0 = Done (Ok tt) w /\
    YAP_V2_update_wal_load (A:=alloc_total) (Some dir) w = Done (Ok (UpdateWal base (base + 1) (normal <$> ops))) w.
Proof.
  intros Hp Ht Hd Hs Hc Hf Hb Hb' Hn Hwf Hok Hl.
  assert (Forall operation_writable ops) as Hw.
  { eapply Forall_impl; [exact Hok|]. intros op (Hk&(c&s&Hid)&Hv&Hx). split_and!; [done|by rewrite Hid| |done].
    change (SIZE_MAX / sizeof_float) with 4611686018427387903 in Hv. unfold SIZE_MAX. lia. }
  destruct (wal_write_nil suffix dir p t base ops w0) as (w&E&Hs'); try done.
  { rewrite zlen_wal_image in Hl. unfold UINT64_MAX. lia. }
  exists w. split; [done|].
  pose proof (wal_write_wp suffix dir p base ops w0 Hp Hb Hwf Hf) as H.
  unfold wp in H. rewrite E in H. destruct H as [H _].
  rewrite (wal_load_nil (Some dir) p w (wal_image base ops)); [|done|done|by apply durable_file].
  by rewrite wal_parse_image.
Qed.

Lemma wal_write_then_load_witness :
  exists w, YAP_V2_update_wal_write demo_suffix (Some demo_dir) 4 (Some [demo_op]) (wal_world []) = Done (Ok tt) w /\
    YAP_V2_update_wal_load (A:=alloc_total) (Some demo_dir) w = Done (Ok (UpdateWal 4 5 [normal demo_op])) w.
Proof.
  apply (wal_write_then_load demo_suffix demo_dir demo_wal_path (demo_wal_path ++ [46; 116; 109; 112; 45] ++ demo_suffix) 4 [demo_op]);
    [reflexivity|reflexivity|discriminate|reflexivity|reflexivity|apply wal_world_fresh|unfold is_u64; lia
    |discriminate|vm_compute; split; discriminate|apply demo_op_wf|apply demo_op_ok|vm_compute; reflexivity].
Defined.

(** Loading arbitrary bytes never reads outside the file, whatever calls fail; a log that
    is loaded has 1 to 10000 operations of a known kind with a non-empty identifier and a
    complete vector, its target generation is the successor of its base generation, and the
    stored CRC is the CRC-32C of the payload. *)
Theorem wal_load_sound {A : Allocator} (dir : option path) (p : path) (w0 : world) :
  wal_path dir = Some p -> (forall d, file_at w0 p = Some d -> bytes_ok d /\ zlen d < 2 ^ 63) ->
  match YAP_V2_update_wal_load dir w0 with
  | Done (Ok wal) _ => wal_ok wal /\ exists d, file_at w0 p = Some d /\
      get_u32_le (E := YAP_V2_STATUS) (take 64 d) 48 = Ok (crc32c (drop 64 d))
  | Done (Err e) _ => file_at w0 p = None -> e = YAP_V2_NOT_FOUND \/ e = YAP_V2_IO_ERROR
  | Done Fault _ => False
  | Crashed _ => True
  end.
Proof.
  intros Hp Hd. pose proof (wal_load_wp dir p w0 Hp Hd) as H. unfold wp in H.
  destruct (YAP_V2_update_wal_load dir w0) as [[wal|e|] w|w]; [|done..].
  destruct H as (d&Hf&E). destruct (Hd d Hf) as [Hb Hl].
  pose proof (wal_parse_sound (zlen d) d Hb Hl) as HS. rewrite E in HS. destruct HS as (Hok&_&Hcrc).
  split; [done|]. by exists d.
Qed.

Definition log_world (d : bytes) (s : list event) : world :=
  World {[0%nat := Inode d true]} {[ demo_wal_path := [Some 0%nat] ]} 1 s.

Lemma wal_load_sound_witness :
  match YAP_V2_update_wal_load (A:=alloc_total) (Some demo_dir) (log_world (wal_image 4 [demo_op]) []) with
  | Done (Ok wal) _ => wal_ok wal
  | _ => False
  end.
Proof.
  pose proof (wal_load_sound (A:=alloc_total) (Some demo_dir) demo_wal_path (log_world (wal_image 4 [demo_op]) []) eq_refl) as H.
  destruct (YAP_V2_update_wal_load (A:=alloc_total) (Some demo_dir) (log_world (wal_image 4 [demo_op]) [])) as [[]|] eqn:E;
    [|exfalso; vm_compute in E; discriminate ..].
  apply H. intros d Hd. replace d with (wal_image 4 [demo_op]) by (vm_compute in Hd; vm_compute; congruence).
  split; [|vm_compute; reflexivity].
  apply (bool_decide_unpack _). vm_compute. exact I.
Defined.

Lemma bind_bytes_ok {B} (f : B -> bytes) l : Forall (fun x => bytes_ok (f x)) l -> bytes_ok (l ≫= f).
Proof. induction 1; cbn; [constructor|]. by apply Forall_app_2. Qed.

Lemma wal_payload_ok ops : Forall operation_wf ops -> bytes_ok (wal_payload ops).
Proof.
  intros Hwf. apply bind_bytes_ok. eapply Forall_impl; [exact Hwf|]. intros op (Ht&_).
  unfold operation_image. rewrite operation_header_words.
  apply Forall_app_2; [|apply Forall_app_2].
  - repeat apply Forall_app_2; auto with bytes; apply (zeros_ok 4).
  - apply bind_bytes_ok. eapply Forall_impl; [exact Ht|]. by intros t [? _].
  - apply bind_bytes_ok, Forall_true. intros v. auto with bytes.
Qed.

(** A change confined to at most four consecutive payload bytes of a log is detected: the
    changed log is not loaded. *)
Theorem wal_corruption_detected {A : Allocator} (base : Z) (ops : list YAP_V2_INGEST_OPERATION) (a x y c : bytes) :
  Forall operation_wf ops -> wal_payload ops = a ++ x ++ c -> bytes_ok y -> length y = length x ->
  (length x <= 4)%nat -> x <> y -> 64 + zlen (wal_payload ops) < 2 ^ 63 ->
  forall wal, wal_parse (64 + zlen (wal_payload ops))
    (wal_header_image base (zlen ops) (wal_payload ops) ++ a ++ y ++ c) <> Ok wal.
Proof.
  intros Hwf Hpay Hy HL H4 Hxy Hl wal E. pose proof (wal_payload_ok ops Hwf) as Hb. rewrite Hpay in Hb.
  apply Forall_app in Hb as [Ha [Hx Hc]%Forall_app].
  assert (bytes_ok (wal_header_image base (zlen ops) (wal_payload ops))) as Hh.
  { unfold wal_header_image. repeat apply Forall_app_2; auto with bytes. }
  pose proof (wal_parse_sound (64 + zlen (wal_payload ops)) (wal_header_image base (zlen ops) (wal_payload ops) ++ a ++ y ++ c)) as H.
  rewrite E in H. destruct H as (_&_&H); [apply Forall_app_2; [done|by repeat apply Forall_app_2]|done|].
  rewrite (take_app_length' _ _ 64), (drop_app_length' _ _ 64) in H by done.
  rewrite wal_crc in H. injection H as H. rewrite Hpay in H.
  by apply Hxy, (crc32c_burst a x y c).
Qed.

Lemma wal_corruption_detected_witness :
  wal_payload [demo_op] = take 72 (wal_payload [demo_op]) ++ [97] ++ drop 73 (wal_payload [demo_op]) /\
  forall wal, wal_parse (A:=alloc_total) (64 + zlen (wal_payload [demo_op]))
    (wal_header_image 4 1 (wal_payload [demo_op]) ++ take 72 (wal_payload [demo_op]) ++ [65] ++ drop 73 (wal_payload [demo_op])) <> Ok wal.
Proof.
  split; [vm_compute; reflexivity|].
  apply (wal_corruption_detected 4 [demo_op] _ [97]);
    [apply demo_op_wf|vm_compute; reflexivity|apply (bool_decide_unpack _); vm_compute; exact I|reflexivity|cbn; lia|discriminate|vm_compute; reflexivity].
Defined.

(** Clearing the log removes it durably: when it reports success the log is absent, also
    after any crash; in every other case the log is absent or as it was. *)
Theorem wal_clear_durable (dir p : path) (w0 : world) :
  join_path dir WAL_NAME = Some p ->
  match YAP_V2_update_wal_clear (Some dir) w0 with
  | Done (Ok _) w => forall v, crash_view w p v -> v = None
  | Done (Err _) w | Crashed w => forall v, crash_view w p v -> v = None \/ crash_view w0 p v
  | Done Fault _ => False
  end.
Proof.
  intros Hp. pose proof (wal_clear_wp dir p w0 Hp) as H. unfold wp in H.
  by destruct (YAP_V2_update_wal_clear (Some dir) w0) as [[]|].
Qed.

Lemma wal_clear_durable_witness :
  exists w, YAP_V2_update_wal_clear (Some demo_dir) (log_world [1; 2] []) = Done (Ok tt) w /\
    forall v, crash_view w demo_wal_path v -> v = None.
Proof.
  pose proof (wal_clear_durable demo_dir demo_wal_path (log_world [1; 2] []) eq_refl) as H.
  destruct (YAP_V2_update_wal_clear (Some demo_dir) (log_world [1; 2] [])) as [[[]| |] w|w] eqn:E;
    [|exfalso; vm_compute in E; discriminate ..].
  exists w. split; [reflexivity|exact H].
Defined.

Definition nameless_op : YAP_V2_INGEST_OPERATION :=
  IngestOperation YAP_V2_INGEST_DELETE (Some []) None None None None 0 None 0 0.

(** The writer accepts an operation with an empty identifier, and the log it reports as
    written cannot be loaded. *)
Theorem wal_empty_id_unreadable :
  exists w, YAP_V2_update_wal_write demo_suffix (Some demo_dir) 4 (Some [nameless_op]) (wal_world []) = Done (Ok tt) w /\
    YAP_V2_update_wal_load (A:=alloc_total) (Some demo_dir) w = Done (Err YAP_V2_INVALID_FORMAT) w.
Proof.
  destruct (YAP_V2_update_wal_write demo_suffix (Some demo_dir) 4 (Some [nameless_op]) (wal_world [])) as [[[]| |] w|w] eqn:E;
    [|exfalso; vm_compute in E; discriminate ..].
  exists w. split; [reflexivity|]. vm_compute in E. injection E as <-. vm_compute. reflexivity.
Qed.
