(* ===== verification/Verify.v ===== *)
(** Checking the component files of a manifest: [YAP_V2_file_sha256]
    (src/src/storage/yappo_segment_v2.c) and [YAP_V2_manifest_verify_components]
    (src/src/storage/yappo_manifest_v2.c). *)
From S2P Require Import Prelude Words Types Sha256 Header Manifest FileSystem Segment.
#[local] Open Scope io_scope.

Definition SHA_BUFFER_BYTES : Z := 65536.
Definition sha_chunk : nat := Z.to_nat SHA_BUFFER_BYTES.
Definition SEGMENTS_DIR : bytes := [47; 115; 101; 103; 109; 101; 110; 116; 115; 47].  (* "/segments/" *)

(** "%s/segments/%s/%s" *)
Definition component_file (index_dir segment_id component_name : bytes) : path :=
  index_dir ++ SEGMENTS_DIR ++ segment_id ++ [SLASH] ++ component_name.

(** The loop over [fread]: [rest] is what the file still delivers. *)
Fixpoint hash_chunks (fuel : nat) (rest : bytes) (sha : YAP_V2_SHA256) (total : Z) : io (result (YAP_V2_SHA256 * Z)) :=
  match fuel with
  | O => io_ret Fault
  | S fuel =>
      let* ok := fread_all in
      if negb ok then io_ret (Err YAP_V2_IO_ERROR)
      else
      let chunk := take sha_chunk rest in
      if zlen chunk =? 0 then io_ret (Ok (sha, total))
      else if UINT64_MAX - zlen chunk <? total then do* fclose_rb in io_ret (Err YAP_V2_OUT_OF_RANGE)
      else
      match sha256_update sha chunk with
      | Ok sha => hash_chunks fuel (drop sha_chunk rest) sha (total + zlen chunk)
      | Err e => io_ret (Err e)
      | Fault => io_ret Fault
      end
  end.

Section verify.
Context {A : Allocator} (garbage : nat -> Z).

(** The digest and the size of a file. *)
Definition YAP_V2_file_sha256 (p : option path) : io (result (bytes * Z)) :=
  match p with
  | None => io_ret (Err YAP_V2_INVALID_ARGUMENT)
  | Some p =>
  let* file := fopen_rb p in
  match file with
  | None => io_ret (Err YAP_V2_IO_ERROR)
  | Some bs =>
      let* r := hash_chunks (S (S (length bs))) bs (sha256_init (stack_sha garbage)) 0 in
      match r with
      | Err e => io_ret (Err e)
      | Fault => io_ret Fault
      | Ok (sha, total) =>
          let* closed := fclose_rb in
          io_ret (if negb closed then Err YAP_V2_IO_ERROR else digest ← sha256_final sha; Ok (digest, total))
      end
  end
  end.

(** The first 32 bytes of a file. *)
Definition read_header_bytes (p : path) : io (result bytes) :=
  let* file := fopen_rb p in
  match file with
  | None => io_ret (Err YAP_V2_IO_ERROR)
  | Some bs =>
  let* read := fread_all in
  let* closed := fclose_rb in
  io_ret (if negb read || (zlen bs <? YAP_V2_FILE_HEADER_BYTES) || negb closed then Err YAP_V2_IO_ERROR
          else load_bytes bs 0 YAP_V2_FILE_HEADER_BYTES)
  end.

Definition check_component_header (manifest_generation : Z) (component : YAP_V2_COMPONENT_DESCRIPTOR) (bytes_ : Z)
  (header_data : bytes) : result unit :=
  header ← YAP_V2_file_header_decode (Some header_data);
  if (generation header =? 0) || (manifest_generation <? generation header) ||
 negb (file_type header =? component_type component) ||
 negb (u64 (payload_bytes header + YAP_V2_FILE_HEADER_BYTES) =? bytes_)
  then Err YAP_V2_INVALID_FORMAT else Ok tt.

Definition verify_component (index_dir : bytes) (manifest_generation : Z) (segment_id_ : bytes)
  (component : YAP_V2_COMPONENT_DESCRIPTOR) : io (result unit) :=
  let p := component_file index_dir segment_id_ (name component) in
  if negb (alloc_ok (zlen p + 1)) then io_ret (Err YAP_V2_ALLOCATION_FAILED)
  else
  let* r := YAP_V2_file_sha256 (Some p) in
  match r with
  | Err e => io_ret (Err e)
  | Fault => io_ret Fault
  | Ok (digest, bytes_) =>
  if negb (bytes_ =? file_bytes component) || negb (bool_decide (digest = checksum component))
  then io_ret (Err YAP_V2_CHECKSUM_MISMATCH)
  else if component_type component =? YAP_V2_FILE_ANN then io_ret (Ok tt)
  else
  let* h := read_header_bytes p in
  io_ret (header_data ← h; check_component_header manifest_generation component bytes_ header_data)
  end.

Fixpoint verify_each (index_dir : bytes) (manifest_generation : Z) (segment_id_ : bytes)
  (components_ : list YAP_V2_COMPONENT_DESCRIPTOR) : io (result unit) :=
  match components_ with
  | [] => io_ret (Ok tt)
  | c :: components_ =>
  let* r := verify_component index_dir manifest_generation segment_id_ c in
  match r with Ok _ => verify_each index_dir manifest_generation segment_id_ components_ | r => io_ret r end
  end.

Definition YAP_V2_manifest_verify_segment_components (index_dir : option bytes) (manifest_generation : Z)
  (segment : option YAP_V2_SEGMENT_DESCRIPTOR) : io (result unit) :=
  match index_dir, segment with
  | Some dir, Some s =>
  if manifest_generation =? 0 then io_ret (Err YAP_V2_INVALID_ARGUMENT)
  else verify_each dir manifest_generation (id s) (components s)
  | _, _ => io_ret (Err YAP_V2_INVALID_ARGUMENT)
  end.

Fixpoint verify_segments (index_dir : bytes) (manifest_generation : Z) (segments_ : list YAP_V2_SEGMENT_DESCRIPTOR)
  : io (result unit) :=
  match segments_ with
  | [] => io_ret (Ok tt)
  | s :: segments_ =>
  let* r := YAP_V2_manifest_verify_segment_components (Some index_dir) manifest_generation (Some s) in
  match r with Ok _ => verify_segments index_dir manifest_generation segments_ | r => io_ret r end
  end.

Definition YAP_V2_manifest_verify_components (index_dir : option bytes) (manifest : option YAP_V2_MANIFEST)
  : io (result unit) :=
  match index_dir, manifest with
  | Some dir, Some m =>
  match YAP_V2_manifest_validate (Some m) with
  | Ok _ => verify_segments dir (manifest_generation m) (segments m)
  | Err e => io_ret (Err e)
  | Fault => io_ret Fault
  end
  | _, _ => io_ret (Err YAP_V2_INVALID_ARGUMENT)
  end.
End verify.

(** ** Specification *)

(** The file of a component is what its descriptor says: size, digest and, except for the ANN
    index, a header of the right type, not newer than the manifest, for the whole file. *)
Definition component_intact (w : world) (index_dir : bytes) (manifest_generation : Z) (segment_id_ : bytes)
    (c : YAP_V2_COMPONENT_DESCRIPTOR) : Prop :=
  exists bs, file_at w (component_file index_dir segment_id_ (name c)) = Some bs /\
    zlen bs = file_bytes c /\ sha256_spec bs = checksum c /\
    (component_type c <> YAP_V2_FILE_ANN ->
      exists h, header_valid h /\ take 32 bs = header_image h /\ file_type h = component_type c /\
        0 < generation h <= manifest_generation /\ zlen bs = 32 + payload_bytes h).

(** ** Reading leaves the files alone *)
Definition frames (w0 w : world) : Prop := exists s, w = set_script w0 s.

Lemma frames_refl w : frames w w.
Proof. exists (script w). by destruct w. Qed.
Lemma frames_trans w0 w1 w2 : frames w0 w1 -> frames w1 w2 -> frames w0 w2.
Proof. intros [s ->] [s' ->]. by exists s'. Qed.
Lemma frames_file w0 w p : frames w0 w -> file_at w p = file_at w0 p.
Proof. by intros [s ->]. Qed.

(** [reads c P]: [c] leaves the files alone, and its result satisfies [P]. *)
Definition reads {B} (c : io B) (P : B -> Prop) (w : world) : Prop :=
  wp c (fun b w' => P b /\ frames w w') (fun w' => frames w w') w.

Lemma reads_ret {B} (b : B) (P : B -> Prop) w : P b -> reads (io_ret b) P w.
Proof. intros Hb. apply wp_ret. split; [done|apply frames_refl]. Qed.

Lemma reads_bind {B C} (c : io B) (f : B -> io C) (P : B -> Prop) (Q : C -> Prop) w :
  reads c P w -> (forall b w', P b -> frames w w' -> reads (f b) Q w') -> reads (io_bind c f) Q w.
Proof.
  intros Hc Hf. apply wp_bind. eapply wp_mono; [exact Hc|]. intros b w' [Hb Hw].
  eapply wp_weaken; [by apply Hf| |]; cbn; intros; [destruct_and!; split; [done|]|]; by eapply frames_trans.
Qed.

Lemma reads_noop (P : bool -> Prop) w : (forall b, P b) -> reads (call (fun w => w)) P w.
Proof. intros HP. apply wp_noop; intros; [split; [done|]|]; by eexists. Qed.

Lemma reads_fopen p (P : option bytes -> Prop) w : P None -> P (file_at w p) -> reads (fopen_rb p) P w.
Proof.
  intros H0 H1. apply (reads_bind _ _ (fun _ => True)); [by apply reads_noop|]. intros b w' _ Hw.
  unfold reads, wp. split; [|apply frames_refl]. destruct b; [|done]. by rewrite (frames_file _ _ p Hw).
Qed.

Lemma reads_mono {B} (c : io B) (P Q : B -> Prop) w : reads c P w -> (forall b, P b -> Q b) -> reads c Q w.
Proof. intros H HPQ. eapply wp_mono; [exact H|]. intros b w' [? ?]. auto. Qed.

(** ** Digests of files *)
Definition hashed (msg : bytes) (r : result (YAP_V2_SHA256 * Z)) : Prop :=
  match r with Ok (sha, total) => sha_inv sha msg /\ total = zlen msg | Err _ => True | Fault => False end.

Lemma sha_chunk_pos : (0 < sha_chunk)%nat.
Proof. unfold sha_chunk. assert (0 < SHA_BUFFER_BYTES) as H by done. revert H. generalize SHA_BUFFER_BYTES. lia. Qed.

Lemma drop_shorter (n : nat) (rest : bytes) : (0 < n)%nat -> zlen (take n rest) <> 0 -> (length (drop n rest) < length rest)%nat.
Proof. unfold zlen. rewrite length_take, length_drop. lia. Qed.

Lemma take_empty (n : nat) (rest : bytes) : (0 < n)%nat -> zlen (take n rest) = 0 -> rest = [].
Proof. unfold zlen. rewrite length_take. intros Hn E. apply length_zero_iff_nil. lia. Qed.

Lemma hash_chunks_reads fuel : forall rest sha msg w, sha_inv sha msg -> (length rest < fuel)%nat ->
  zlen (msg ++ rest) <= UINT64_MAX -> reads (hash_chunks fuel rest sha (zlen msg)) (hashed (msg ++ rest)) w.
Proof.
  induction fuel as [|fuel IH]; intros rest sha msg w Hs Hf Hl; [lia|]. cbn [hash_chunks].
  apply (reads_bind _ _ (fun _ => True)); [by apply reads_noop|]. intros [|] w1 _ _; cbn [negb]; [|by apply reads_ret].
  set (chunk := take sha_chunk rest).
  assert (rest = chunk ++ drop sha_chunk rest) as Er by (symmetry; apply take_drop).
  destruct (Z.eqb_spec (zlen chunk) 0) as [E|N].
  - apply reads_ret. assert (rest = []) as ->; [|by rewrite app_nil_r].
    by eapply take_empty, E; apply sha_chunk_pos.
  - rewrite zlen_app in Hl. assert (zlen rest = zlen chunk + zlen (drop sha_chunk rest)) as Ez.
    { rewrite Er at 1. apply zlen_app. }
    pose proof (zlen_nonneg (drop sha_chunk rest)).
    rewrite (proj2 (Z.ltb_ge _ _)) by lia.
    destruct (sha256_update_inv (E := YAP_V2_STATUS) sha msg chunk Hs) as (sha'&->&Hs').
    rewrite <- zlen_app. eapply reads_mono; [apply (IH _ _ (msg ++ chunk) w1 Hs')|].
    + pose proof (drop_shorter sha_chunk rest sha_chunk_pos N). lia.
    + rewrite <- (assoc_L (++)), <- Er, zlen_app. lia.
    + by rewrite <- (assoc_L (++)), <- Er.
Qed.

Section verify_proofs.
Context {A : Allocator} (garbage : nat -> Z).

Lemma init_inv : sha_inv (sha256_init (stack_sha garbage)) [].
Proof. split_and!; [apply sha_rep_init, stack_sha_valid|done|done]. Qed.

Definition digested (w : world) (p : path) (r : result (bytes * Z)) : Prop :=
  match r with
  | Ok (digest, total) => exists bs, file_at w p = Some bs /\ digest = sha256_spec bs /\ total = zlen bs
  | Err _ => True
  | Fault => False
  end.

Definition readable (w : world) : Prop := forall p bs, file_at w p = Some bs -> bytes_ok bs /\ zlen bs < 2 ^ 63.

Lemma file_sha256_reads_at p w : (forall bs, file_at w p = Some bs -> zlen bs < 2 ^ 63) ->
  reads (YAP_V2_file_sha256 garbage (Some p)) (digested w p) w.
Proof.
  intros Hw. unfold YAP_V2_file_sha256.
  apply (reads_bind _ _ (fun o => forall bs, o = Some bs -> file_at w p = Some bs)); [by apply reads_fopen|].
  intros [bs|] w1 Hbs Hf1; [|by apply reads_ret]. specialize (Hbs bs eq_refl). pose proof (Hw bs Hbs) as Hl.
  eapply reads_bind; [apply (hash_chunks_reads _ bs _ [] w1 init_inv); [lia|cbn; unfold UINT64_MAX; lia]|].
  intros [[sha total]|e|] w2 Hh Hf2; [|by apply reads_ret|done]. destruct Hh as [Hs ->].
  apply (reads_bind _ _ (fun _ => True)); [by apply reads_noop|]. intros [|] w3 _ _; cbn [negb]; [|by apply reads_ret].
  apply reads_ret. rewrite (sha256_final_spec sha bs) by done. rewrite outcome_bind_ok. by exists bs.
Qed.

Lemma file_sha256_reads p w : readable w -> reads (YAP_V2_file_sha256 garbage (Some p)) (digested w p) w.
Proof. intros Hw. apply file_sha256_reads_at. intros bs Hbs. by destruct (Hw p bs Hbs). Qed.

Lemma check_component_header_ok g c size hd : bytes_ok hd -> zlen hd = 32 -> 32 <= size < 2 ^ 63 ->
  match check_component_header g c size hd with
  | Ok _ => exists h, header_valid h /\ hd = header_image h /\ file_type h = component_type c /\
  0 < generation h <= g /\ size = 32 + payload_bytes h
  | Err _ => True
  | Fault => False
  end.
Proof.
  intros Hb Hl Hsz. unfold check_component_header. pose proof (file_header_decode_safe hd Hb ltac:(lia)) as HS.
  destruct (YAP_V2_file_header_decode (Some hd)) as [h| |] eqn:E; [|done..]. rewrite outcome_bind_ok.
  destruct (file_header_decode_inv hd h Hb ltac:(lia) E) as [Hv Hi].
  destruct (_ || _) eqn:T; [done|]. btests. exists h. unfold YAP_V2_FILE_HEADER_BYTES in *.
  pose proof Hv as [(?&?&?&Hg&Hp&?) _]. unfold is_u64 in *. split_and!; [done| |done|lia|lia|].
  - rewrite <- Hi. symmetry. apply take_ge. unfold zlen in Hl. lia.
  - assert (payload_bytes h + 32 < 2 ^ 64 \/ 2 ^ 64 <= payload_bytes h + 32) as [Hlt|Hge] by lia.
  + rewrite u64_small in * by lia. lia.
  + unfold u64 in *. rewrite <- (Z_mod_plus_full _ (-1)), Z.mod_small in * by lia. lia.
Qed.

Definition verified (P : Prop) (r : result unit) : Prop := match r with Ok _ => P | Err _ => True | Fault => False end.

Lemma verify_component_reads dir g sid c w0 w : frames w0 w -> readable w0 ->
  reads (verify_component garbage dir g sid c) (verified (component_intact w0 dir g sid c)) w.
Proof.
  intros Hf0 Hw. unfold verify_component. destruct (negb _); [by apply reads_ret|].
  set (p := component_file dir sid (name c)).
  assert (readable w) as Hw' by (intros q bs; rewrite (frames_file _ _ q Hf0); apply Hw).
  eapply reads_bind; [by apply file_sha256_reads|]. intros [[digest total]|e|] w1 H1 Hf1; [|by apply reads_ret|done].
  destruct H1 as (bs&Hbs&->&->). rewrite (frames_file _ _ p Hf0) in Hbs. destruct (Hw p bs Hbs) as [Hb Hl].
  destruct (_ || _) eqn:T; [by apply reads_ret|]. btests.
  destruct (Z.eqb_spec (component_type c) YAP_V2_FILE_ANN) as [Ea|Na].
  - apply reads_ret. exists bs. split_and!; done.
  - eapply (reads_bind _ _ (fun r => match r with Ok hd => hd = take 32 bs /\ 32 <= zlen bs | Err _ => True | Fault => False end)).
  + unfold read_header_bytes. apply (reads_bind _ _ (fun o => forall bs', o = Some bs' -> bs' = bs)).
  { apply reads_fopen; [done|]. rewrite (frames_file _ _ p Hf1), (frames_file _ _ p Hf0), Hbs. congruence. }
  intros [bs'|] w2 Hbs' _; [|by apply reads_ret]. rewrite (Hbs' bs' eq_refl).
  apply (reads_bind _ _ (fun _ => True)); [by apply reads_noop|]. intros b w3 _ _.
  apply (reads_bind _ _ (fun _ => True)); [by apply reads_noop|]. intros b' w4 _ _. apply reads_ret.
  destruct (negb b || _ || _) eqn:T; [done|]. btests. unfold YAP_V2_FILE_HEADER_BYTES, load_bytes in *.
  rewrite (proj2 (in_range_true _ _ _)) by lia. done.
  + intros r w2 Hr _. apply reads_ret. destruct r as [hd| |]; [|done..]. destruct Hr as [-> Hge].
  rewrite outcome_bind_ok.
  pose proof (check_component_header_ok g c (zlen bs) (take 32 bs)) as HC.
  destruct (check_component_header g c (zlen bs) (take 32 bs)); cbn; [|done|].
  * exists bs. split_and!; [done|done|done|]. intros _. apply HC; [by apply Forall_take| |lia].
    unfold zlen in *. rewrite length_take. lia.
  * apply HC; [by apply Forall_take| |lia]. unfold zlen in *. rewrite length_take. lia.
Qed.

Lemma verify_each_reads dir g sid cs w0 : readable w0 -> forall w, frames w0 w ->
  reads (verify_each garbage dir g sid cs) (verified (Forall (component_intact w0 dir g sid) cs)) w.
Proof.
  intros Hw. induction cs as [|c cs IH]; intros w Hf; cbn [verify_each]; [apply reads_ret; constructor|].
  eapply reads_bind; [by apply verify_component_reads|]. intros [[]|e|] w1 H1 Hf1; [|by apply reads_ret|done].
  eapply reads_mono; [apply IH; by eapply frames_trans|]. intros [[]| |] H2; [|done..]. by constructor.
Qed.

Definition segment_intact (w : world) (dir : bytes) (g : Z) (s : YAP_V2_SEGMENT_DESCRIPTOR) : Prop :=
  Forall (component_intact w dir g (id s)) (components s).

Lemma verify_segment_reads dir g s w0 w : readable w0 -> frames w0 w ->
  reads (YAP_V2_manifest_verify_segment_components garbage (Some dir) g (Some s))
  (verified (segment_intact w0 dir g s)) w.
Proof.
  intros Hw Hf. unfold YAP_V2_manifest_verify_segment_components. destruct (g =? 0); [by apply reads_ret|].
  by apply verify_each_reads.
Qed.

Lemma verify_segments_reads dir g ss w0 : readable w0 -> forall w, frames w0 w ->
  reads (verify_segments garbage dir g ss) (verified (Forall (segment_intact w0 dir g) ss)) w.
Proof.
  intros Hw. induction ss as [|s ss IH]; intros w Hf; cbn [verify_segments]; [apply reads_ret; constructor|].
  eapply reads_bind; [by apply verify_segment_reads|]. intros [[]|e|] w1 H1 Hf1; [|by apply reads_ret|done].
  eapply reads_mono; [apply IH; by eapply frames_trans|]. intros [[]| |] H2; [|done..]. by constructor.
Qed.

(** *** Without failing calls intact files are accepted *)
Lemma hash_chunks_nil fuel : forall rest sha msg w, script w = [] -> sha_inv sha msg -> (length rest < fuel)%nat ->
  zlen (msg ++ rest) <= UINT64_MAX ->
  exists sha', hash_chunks fuel rest sha (zlen msg) w = Done (Ok (sha', zlen (msg ++ rest))) w /\ sha_inv sha' (msg ++ rest).
Proof.
  induction fuel as [|fuel IH]; intros rest sha msg w Hn Hs Hf Hl; [lia|]. cbn [hash_chunks].
  unfold fread_all at 1. rewrite bind_nil by done. cbn [negb].
  assert (rest = take sha_chunk rest ++ drop sha_chunk rest) as Er by (symmetry; apply take_drop).
  destruct (Z.eqb_spec (zlen (take sha_chunk rest)) 0) as [E|N].
  - apply (take_empty _ _ sha_chunk_pos) in E as ->. exists sha. by rewrite app_nil_r.
  - rewrite zlen_app in Hl. pose proof (f_equal zlen Er) as Ez. rewrite zlen_app in Ez. pose_zlen.
  rewrite (proj2 (Z.ltb_ge _ _)) by lia.
  destruct (sha256_update_inv (E := YAP_V2_STATUS) sha msg (take sha_chunk rest) Hs) as (sha'&->&Hs').
  pose proof (drop_shorter sha_chunk rest sha_chunk_pos N).
  destruct (IH (drop sha_chunk rest) sha' (msg ++ take sha_chunk rest) w Hn Hs') as (sha''&E&Hs''); [lia|..].
  + rewrite <- (assoc_L (++)), <- Er, zlen_app. lia.
  + rewrite <- (assoc_L (++)), <- Er in *. exists sha''. by rewrite <- zlen_app.
Qed.

Lemma fopen_rb_nil p w : script w = [] -> fopen_rb p w = Done (file_at w p) w.
Proof. intros Hn. unfold fopen_rb. by rewrite bind_nil. Qed.

Lemma file_sha256_nil p w bs : script w = [] -> file_at w p = Some bs -> zlen bs < 2 ^ 63 ->
  YAP_V2_file_sha256 garbage (Some p) w = Done (Ok (sha256_spec bs, zlen bs)) w.
Proof.
  intros Hn Hf Hl. unfold YAP_V2_file_sha256. erewrite bind_done by (rewrite fopen_rb_nil, Hf; done).
  destruct (hash_chunks_nil (S (S (length bs))) bs (sha256_init (stack_sha garbage)) [] w Hn init_inv) as (sha&E&Hs);
  [lia|cbn; unfold UINT64_MAX; lia|]. change (zlen []) with 0 in E. cbn [app] in *.
  cbv beta iota. erewrite bind_done by exact E. cbv beta iota. unfold fclose_rb. rewrite bind_nil by done.
  cbn [negb]. rewrite (sha256_final_spec sha bs) by done. done.
Qed.
End verify_proofs.

(** *** Completeness *)
Section verify_complete.
Context (garbage : nat -> Z) (w : world) (Hn : script w = []) (Hr : readable w).

Lemma read_header_bytes_nil p bs : file_at w p = Some bs -> 32 <= zlen bs ->
  read_header_bytes p w = Done (Ok (take 32 bs)) w.
Proof.
  intros Hf Hl. unfold read_header_bytes. erewrite bind_done by (rewrite fopen_rb_nil, Hf; done).
  cbv beta iota. unfold fread_all, fclose_rb. rewrite !bind_nil by done. cbn [negb orb].
  unfold YAP_V2_FILE_HEADER_BYTES. rewrite (proj2 (Z.ltb_ge _ _)) by lia. cbn [orb].
  unfold load_bytes. by rewrite (proj2 (in_range_true _ _ _)) by lia.
Qed.

Lemma check_component_header_complete g c size h : header_valid h -> file_type h = component_type c ->
  0 < generation h <= g -> size = 32 + payload_bytes h -> size < 2 ^ 63 ->
  check_component_header g c size (header_image h) = Ok tt.
Proof.
  intros Hv Ht Hg -> Hs. unfold check_component_header.
  pose proof (file_header_decode_image h [] Hv (Forall_nil_2 _)) as ->%(eq_trans (f_equal _ (f_equal _ (eq_sym (app_nil_r _))))).
  rewrite outcome_bind_ok. destruct Hv as [(?&?&?&?&Hp&?) _]. unfold is_u64 in Hp.
  unfold YAP_V2_FILE_HEADER_BYTES. rewrite u64_small, Ht, Z.eqb_refl by lia.
  rewrite (proj2 (Z.eqb_neq _ _)), (proj2 (Z.ltb_ge _ _)) by lia.
  by rewrite (Z.add_comm 32), Z.eqb_refl.
Qed.

Lemma verify_component_nil dir g sid c : component_intact w dir g sid c ->
  verify_component (A:=alloc_total) garbage dir g sid c w = Done (Ok tt) w.
Proof.
  intros (bs&Hf&Hz&Hd&Hh). destruct (Hr _ _ Hf) as [_ Hl]. unfold verify_component. cbn [negb alloc_ok alloc_total].
  erewrite bind_done by (by apply file_sha256_nil). cbv beta iota.
  rewrite Hz, Z.eqb_refl, Hd, bool_decide_true by done. cbn [negb orb].
  destruct (Z.eqb_spec (component_type c) YAP_V2_FILE_ANN) as [E|N]; [done|].
  destruct (Hh N) as (h&Hv&Hi&Ht&Hg&Hp). pose proof Hv as [(?&?&?&?&?&?) _]. unfold is_u64 in *.
  erewrite bind_done by (apply read_header_bytes_nil; [done|lia]). unfold io_ret. rewrite outcome_bind_ok, Hi.
  by rewrite check_component_header_complete by (done || lia).
Qed.

Lemma verify_each_nil dir g sid cs : Forall (component_intact w dir g sid) cs ->
  verify_each (A:=alloc_total) garbage dir g sid cs w = Done (Ok tt) w.
Proof.
  induction 1; cbn [verify_each]; [done|]. by erewrite bind_done by (by apply verify_component_nil).
Qed.

Lemma verify_segment_nil dir g s : g <> 0 -> segment_intact w dir g s ->
  YAP_V2_manifest_verify_segment_components (A:=alloc_total) garbage (Some dir) g (Some s) w = Done (Ok tt) w.
Proof.
  intros Hg Hs. unfold YAP_V2_manifest_verify_segment_components. rewrite (proj2 (Z.eqb_neq _ _)) by done.
  by apply verify_each_nil.
Qed.

Lemma verify_segments_nil dir g ss : g <> 0 -> Forall (segment_intact w dir g) ss ->
  verify_segments (A:=alloc_total) garbage dir g ss w = Done (Ok tt) w.
Proof.
  intros Hg. induction 1; cbn [verify_segments]; [done|]. by erewrite bind_done by (by apply verify_segment_nil).
Qed.
End verify_complete.

(** ** Main theorems *)

(** C36: whatever fails, checking the components of a manifest changes no file and never
    reads out of bounds; when it reports success, every component file of every segment has
    the recorded size and SHA-256 digest and, unless it is an ANN index, starts with a valid
    header of the component's type for exactly this file, not newer than the manifest. *)
Theorem verify_components_sound {A : Allocator} (garbage : nat -> Z) (dir : bytes) (m : YAP_V2_MANIFEST) (w : world) :
  readable w ->
  match YAP_V2_manifest_verify_components garbage (Some dir) (Some m) w with
  | Done (Ok _) w' => Forall (segment_intact w dir (manifest_generation m)) (segments m) /\ frames w w'
  | Done (Err _) w' => frames w w'
  | Done Fault _ => False
  | Crashed w' => frames w w'
  end.
Proof.
  intros Hr. unfold YAP_V2_manifest_verify_components. pose proof (manifest_validate_safe m) as HS.
  destruct (YAP_V2_manifest_validate (Some m)) as [u|e|]; [|apply frames_refl|done].
  pose proof (verify_segments_reads garbage dir (manifest_generation m) (segments m) w Hr w (frames_refl w)) as H.
  unfold reads, wp in H. destruct (verify_segments _ _ _ _ w) as [[]|]; cbn in H; tauto.
Qed.

(** When no call and no allocation fails, the components of a valid manifest are accepted
    exactly when every component file is intact. *)
Theorem verify_components_exact (garbage : nat -> Z) (dir : bytes) (m : YAP_V2_MANIFEST) (w : world) :
  script w = [] -> readable w -> YAP_V2_manifest_validate (A:=alloc_total) (Some m) = Ok tt ->
  YAP_V2_manifest_verify_components (A:=alloc_total) garbage (Some dir) (Some m) w = Done (Ok tt) w <->
  Forall (segment_intact w dir (manifest_generation m)) (segments m).
Proof.
  intros Hn Hr Hv. unfold YAP_V2_manifest_verify_components. rewrite Hv. split.
  - intros E. pose proof (verify_segments_reads (A:=alloc_total) garbage dir (manifest_generation m) (segments m) w Hr w (frames_refl w)) as H.
    unfold reads, wp in H. rewrite E in H. apply H.
  - apply verify_segments_nil; [done..|]. intros E. unfold YAP_V2_manifest_validate in Hv. rewrite E in Hv.
    by rewrite orb_true_r in Hv.
Qed.

(** Worlds with finitely many inodes can be checked. *)
Definition readable_check (w : world) : bool :=
  forallb (fun p => forallb (fun b => (0 <=? b) && (b <? 256)) (content p.2) && (zlen (content p.2) <? 2 ^ 63)) (map_to_list (inodes w)).

Lemma readable_checked w : readable_check w = true -> readable w.
Proof.
  unfold readable_check. rewrite forallb_forall. intros H p bs. unfold file_at. destruct (current w p) as [i|]; [|done]. cbn.
  destruct (inodes w !! i) as [nd|] eqn:E; [|done]. cbn. intros [= <-].
  specialize (H (i, nd)). rewrite <- list_elem_of_In, elem_of_map_to_list in H. specialize (H E). cbn in H.
  apply andb_true_iff in H as [H1 H2%Z.ltb_lt]. split; [by apply demo_bytes|done].
Qed.

Definition intact_header : YAP_V2_FILE_HEADER := FileHeader YAP_V2_FORMAT_VERSION 32 YAP_V2_FILE_DOCUMENTS 3 2 9.
Definition intact_file : bytes := header_image intact_header ++ [1; 2].
Definition intact_component : YAP_V2_COMPONENT_DESCRIPTOR :=
  ComponentDescriptor [100] YAP_V2_FILE_DOCUMENTS 2 34 (sha256_spec intact_file).
Definition intact_segment : YAP_V2_SEGMENT_DESCRIPTOR := SegmentDescriptor [115] 2 1 0 [intact_component].
Definition intact_manifest : YAP_V2_MANIFEST := Manifest YAP_V2_FORMAT_VERSION 7 (replicate 32 5) [intact_segment] 4 None 0.
Definition intact_world (s : list event) : world :=
  World {[0%nat := Inode intact_file true]} {[ component_file [97] [115] [100] := [Some 0%nat] ]} 1 s.

Lemma intact_world_files s p bs : file_at (intact_world s) p = Some bs -> p = component_file [97] [115] [100] /\ bs = intact_file.
Proof.
  destruct (decide (p = component_file [97] [115] [100])) as [->|N]; unfold file_at, current, history, intact_world; cbn [names].
  - intros H. split; [done|]. rewrite lookup_singleton_eq in H. cbn in H. by injection H.
  - by rewrite lookup_singleton_ne.
Qed.

Lemma intact_world_readable s : readable (intact_world s).
Proof. intros p bs [_ ->]%intact_world_files. split; [|done]. apply demo_bytes. by vm_compute. Qed.

Lemma intact_segments s : Forall (segment_intact (intact_world s) [97] 7) (segments intact_manifest).
Proof.
  apply (Forall_singleton (segment_intact _ _ _) intact_segment).
  apply (Forall_singleton (component_intact _ _ _ _) intact_component). exists intact_file.
  split_and!; [by vm_compute|reflexivity|exact eq_refl|]. intros _. exists intact_header.
  split_and!; [|reflexivity..|discriminate|reflexivity]. split; [|by vm_compute].
  repeat split; (discriminate || reflexivity).
Qed.

Lemma intact_accepted : YAP_V2_manifest_verify_components (A:=alloc_total) (fun _ => 7) (Some [97]) (Some intact_manifest)
  (intact_world []) = Done (Ok tt) (intact_world []).
Proof.
  unfold YAP_V2_manifest_verify_components.
  assert (YAP_V2_manifest_validate (A:=alloc_total) (Some intact_manifest) = Ok tt) as -> by (by vm_compute).
  apply verify_segments_nil; [done|apply intact_world_readable|done|apply intact_segments].
Qed.

Lemma verify_components_sound_witness :
  exists w', YAP_V2_manifest_verify_components (A:=alloc_total) (fun _ => 7) (Some [97]) (Some intact_manifest)
      (intact_world []) = Done (Ok tt) w' /\
    Forall (segment_intact (intact_world []) [97] 7) [intact_segment] /\ frames (intact_world []) w'.
Proof.
  pose proof (verify_components_sound (A:=alloc_total) (fun _ => 7) [97] intact_manifest (intact_world [])
    (intact_world_readable _)) as H.
  rewrite intact_accepted in H |- *. eexists. split; [reflexivity|]. exact H.
Defined.

Lemma verify_components_exact_witness :
  YAP_V2_manifest_verify_components (A:=alloc_total) (fun _ => 7) (Some [97]) (Some intact_manifest) (intact_world []) =
  Done (Ok tt) (intact_world []).
Proof.
  apply verify_components_exact; [reflexivity|apply intact_world_readable|vm_compute; reflexivity|].
  apply intact_segments.
Defined.
