(* ===== verification/EntryTable.v ===== *)
(** The open-addressing hash table of document identifiers that two parts of the program build:
    the visibility table of a snapshot (src/src/storage/yappo_snapshot_v2.c) and the event map
    of a compaction (src/src/indexing/yappo_compact_v2.c).

    Both probe linearly from the FNV-1a hash of an identifier in a table whose capacity is a
    power of two and at least twice the number of records, and overwrite the entry of an
    identifier that is already there.  The file states what such a table represents, the last
    entry written for every identifier, once for any type of entries. *)
From S2P Require Import Prelude Words Types SlotTable.

(** Entries of such a table: the identifier, whether the entry is in use, and the entry [calloc]
    leaves. *)
Class HashEntry (E : Type) := {
  hash_id : E -> YAP_V2_BYTES_VIEW;
  hash_occupied : E -> bool;
  hash_zero : E;
  hash_zero_free : hash_occupied hash_zero = false }.

Definition same_bytes (l r : YAP_V2_BYTES_VIEW) : result bool :=
  if len l =? len r then
    match data l, data r with
    | Some a, Some b => x ← load_bytes a 0 (len l); y ← load_bytes b 0 (len l); Ok (bool_decide (x = y))
    | _, _ => Ok false
    end
  else Ok false.

Definition bytes_hash (v : YAP_V2_BYTES_VIEW) : result Z :=
  if len v =? 0 then Ok FNV_OFFSET
  else match data v with
       | Some d => bs ← load_bytes d 0 (len v); Ok (manifest_segment_hash bs)
       | None => Fault
       end.

Section probes.
Context {T : Type} `{HE : HashEntry T}.

(** The entry of [id], or the free one where it belongs; [None] after [capacity] probes. *)
Fixpoint probe_entry (probes : nat) (table : list T) (capacity : Z) (id : YAP_V2_BYTES_VIEW)
    (index : Z) : result (option Z) :=
  match probes with
  | O => Ok None
  | S probes =>
      entry ← elem_at table index;
      if negb (hash_occupied entry) then Ok (Some index)
      else
      same ← same_bytes (hash_id entry) id;
      if (same : bool) then Ok (Some index)
      else probe_entry probes table capacity id (Z.land (index + 1) (capacity - 1))
  end.

Fixpoint probe_lookup (probes : nat) (table : list T) (capacity : Z) (id : YAP_V2_BYTES_VIEW)
    (index : Z) : result (option T) :=
  match probes with
  | O => Ok None
  | S probes =>
      entry ← elem_at table index;
      if negb (hash_occupied entry) then Ok None
      else
      same ← same_bytes (hash_id entry) id;
      if (same : bool) then Ok (Some entry)
      else probe_lookup probes table capacity id (Z.land (index + 1) (capacity - 1))
  end.

(** ** Specification: the last writer wins *)
Definition entry_key (e : T) : bytes := view_bytes (hash_id e).

(** The last entry written for a key. *)
Definition last_writer (key : bytes) (entries : list T) : option T :=
  last (filter (fun e => entry_key e = key) entries).

End probes.

(** An identifier: a view on readable, non-empty bytes. *)
Definition id_view (v : YAP_V2_BYTES_VIEW) : Prop := view_wf v /\ data v <> None /\ len v <> 0.

(** ** Keys *)
Lemma id_view_len v : id_view v -> zlen (view_bytes v) = len v.
Proof. intros (Hw&Hd&_). by apply zlen_view. Qed.

Lemma same_bytes_spec l r : id_view l -> id_view r -> same_bytes l r = Ok (bool_decide (view_bytes l = view_bytes r)).
Proof.
  intros Hl Hr. pose proof (id_view_len l Hl) as El. pose proof (id_view_len r Hr) as Er.
  destruct Hl as ([? Hlw]&Hld&_), Hr as ([? Hrw]&Hrd&_). unfold same_bytes.
  destruct (Z.eqb_spec (len l) (len r)) as [E|N].
  - unfold view_bytes in *. destruct (data l) as [a|]; [|done]. destruct (data r) as [b|]; [|done].
    unfold load_bytes. rewrite !(proj2 (in_range_true _ _ _)), !outcome_bind_ok by lia. by rewrite E.
  - rewrite bool_decide_false; [done|]. congruence.
Qed.

Lemma bytes_hash_spec v : id_view v -> bytes_hash v = Ok (manifest_segment_hash (view_bytes v)).
Proof.
  intros ([? Hw]&Hd&Hn). unfold bytes_hash, view_bytes. rewrite (proj2 (Z.eqb_neq _ _)) by done.
  destruct (data v) as [d|]; [|done]. unfold load_bytes. by rewrite (proj2 (in_range_true _ _ _)) by lia.
Qed.

(** ** The table invariant *)
Section table.
Context {T : Type} `{HE : HashEntry T}.
Context (cap k : Z) (Hk : 0 <= k) (Hcap : cap = 2 ^ k).

(** A slot a probe for [key] passes, and one where it stops. *)
Definition busy (t : list T) (key : bytes) (j : nat) : Prop :=
  exists e, t !! j = Some e /\ hash_occupied e = true /\ entry_key e <> key.
Definition stops (t : list T) (key : bytes) (j : nat) : Prop :=
  exists e, t !! j = Some e /\ (hash_occupied e = false \/ entry_key e = key).

#[global] Instance stops_dec t key j : Decision (stops t key j).
Proof.
  unfold stops. destruct (t !! j) as [e|] eqn:E; [|right; intros (?&[=]&_)].
  destruct (decide (hash_occupied e = false \/ entry_key e = key)) as [D|N].
  - left. eauto.
  - right. intros (e'&[= <-]&?). done.
Defined.

Lemma stops_or_busy (t : list T) key j : is_Some (t !! j) -> ~ stops t key j -> busy t key j.
Proof.
  intros [e He] Hs. exists e. split; [done|].
  destruct (hash_occupied e) eqn:O; [|destruct Hs; exists e; auto].
  split; [done|]. intros Hkey. destruct Hs. exists e. auto.
Qed.

Record table_ok (t : list T) : Prop := {
  to_len : zlen t = cap;
  to_ids : forall j e, t !! j = Some e -> hash_occupied e = true -> id_view (hash_id e);
  to_reach : forall j e, t !! j = Some e -> hash_occupied e = true ->
  exists d : nat, Z.of_nat d < cap /\ nth_probe cap (home cap (entry_key e)) d = j /\
  forall d', (d' < d)%nat -> busy t (entry_key e) (nth_probe cap (home cap (entry_key e)) d') }.

Definition used (t : list T) : nat := length (filter (fun e => hash_occupied e = true) t).

Definition holds (t : list T) (key : bytes) (e : T) : Prop :=
  exists j, t !! j = Some e /\ hash_occupied e = true /\ entry_key e = key.

Lemma slot_in (t : list T) slot d : zlen t = cap -> is_Some (t !! nth_probe cap slot d).
Proof using Hk Hcap HE.
  intros Hl. apply lookup_lt_is_Some. pose proof (nth_probe_lt cap k Hk Hcap slot d). unfold zlen in Hl. lia.
Qed.

Lemma free_exists t : (used t < length t)%nat -> exists j e, t !! j = Some e /\ hash_occupied e = false.
Proof.
  unfold used. induction t as [|a t IH]; intros H; [cbn in H; lia|]. rewrite filter_cons in H.
  case_decide as O; cbn in H.
  - destruct IH as (j&e&?&?); [lia|]. by exists (S j), e.
  - exists 0%nat, a. split; [done|]. by destruct (hash_occupied a).
Qed.

(** Where a probe for [key] stops. *)
Lemma stop_exists t key slot : table_ok t -> (used t < length t)%nat -> 0 <= slot < cap ->
  exists d, Z.of_nat d < cap /\ stops t key (nth_probe cap slot d) /\
  forall d', (d' < d)%nat -> busy t key (nth_probe cap slot d').
Proof using Hk Hcap HE.
  intros Ht Hu Hs. destruct (free_exists t Hu) as (j&e&Hj&He).
  pose proof (lookup_lt_Some _ _ _ Hj). pose proof (to_len t Ht) as Hlen. unfold zlen in Hlen.
  destruct (nth_probe_surj cap k Hk Hcap slot j Hs) as (d&Hd&Hp); [lia|].
  destruct (least_nat (fun d => stops t key (nth_probe cap slot d)) d) as (m&?&?&Hm).
  { exists e. rewrite Hp. auto. }
  exists m. split_and!; [lia|done|]. intros d' Hd'. apply stops_or_busy; [by apply slot_in, Ht|by apply Hm].
Qed.

Lemma elem_at_probe (t : list T) slot e : 0 <= slot < cap -> t !! nth_probe cap slot 0 = Some e ->
  elem_at (E := YAP_V2_STATUS) t slot = Ok e.
Proof using Hk Hcap HE.
  intros Hs He. rewrite (nth_probe_0 cap k Hk Hcap slot Hs) in He.
  rewrite <- (Z2Nat.id slot) by lia. by apply elem_at_lookup.
Qed.

(** A busy slot is passed. *)
Lemma busy_step t id slot : table_ok t -> id_view id -> 0 <= slot < cap -> busy t (view_bytes id) (nth_probe cap slot 0) ->
  exists e, elem_at (E := YAP_V2_STATUS) t slot = Ok e /\ hash_occupied e = true /\ same_bytes (hash_id e) id = Ok false.
Proof using Hk Hcap HE.
  intros Ht Hid Hs (e&He&Ho&Hkey). exists e. split_and!; [by apply elem_at_probe|done|].
  rewrite same_bytes_spec by (done || by eapply to_ids). rewrite bool_decide_false; done.
Qed.

Lemma probe_entry_spec t id : table_ok t -> id_view id -> forall fuel slot d, 0 <= slot < cap -> (d < fuel)%nat ->
  stops t (view_bytes id) (nth_probe cap slot d) ->
  (forall d', (d' < d)%nat -> busy t (view_bytes id) (nth_probe cap slot d')) ->
  probe_entry fuel t cap id slot = Ok (Some (Z.of_nat (nth_probe cap slot d))).
Proof using Hk Hcap HE.
  intros Ht Hid. induction fuel as [|fuel IH]; intros slot d Hs Hd Hst Hb; [lia|]. cbn [probe_entry].
  destruct d as [|d].
  - destruct Hst as (e&He&Hor). rewrite (elem_at_probe t slot e Hs He), outcome_bind_ok.
  assert (Z.of_nat (nth_probe cap slot 0) = slot) as -> by (rewrite (nth_probe_0 cap k Hk Hcap slot Hs); lia).
  destruct (hash_occupied e) eqn:O; cbn [negb]; [|done].
  rewrite same_bytes_spec by (done || by eapply to_ids). rewrite bool_decide_true; [done|]. by destruct Hor.
  - destruct (busy_step t id slot Ht Hid Hs) as (e&->&Ho&Hsame); [apply Hb; lia|].
  rewrite outcome_bind_ok, Ho. cbn [negb]. rewrite Hsame, outcome_bind_ok.
  rewrite <- (nth_probe_next cap k Hk Hcap slot d) in *. apply IH; [by apply (land_next_range cap k)|lia|done|].
  intros d' Hd'. rewrite (nth_probe_next cap k Hk Hcap). apply Hb. lia.
Qed.

Lemma probe_lookup_spec t id : table_ok t -> id_view id -> forall fuel slot d e, 0 <= slot < cap -> (d < fuel)%nat ->
  t !! nth_probe cap slot d = Some e -> (hash_occupied e = false \/ entry_key e = view_bytes id) ->
  (forall d', (d' < d)%nat -> busy t (view_bytes id) (nth_probe cap slot d')) ->
  probe_lookup fuel t cap id slot = Ok (if hash_occupied e then Some e else None).
Proof using Hk Hcap HE.
  intros Ht Hid. induction fuel as [|fuel IH]; intros slot d e Hs Hd He Hor Hb; [lia|]. cbn [probe_lookup].
  destruct d as [|d].
  - rewrite (elem_at_probe t slot e Hs He), outcome_bind_ok. destruct (hash_occupied e) eqn:O; cbn [negb]; [|done].
  rewrite same_bytes_spec by (done || by eapply to_ids). rewrite bool_decide_true; [done|]. by destruct Hor.
  - destruct (busy_step t id slot Ht Hid Hs) as (e'&->&Ho&Hsame); [apply Hb; lia|].
  rewrite outcome_bind_ok, Ho. cbn [negb]. rewrite Hsame, outcome_bind_ok.
  rewrite <- (nth_probe_next cap k Hk Hcap slot d) in He. apply (IH _ d); [by apply (land_next_range cap k)|lia|done|done|].
  intros d' Hd'. rewrite (nth_probe_next cap k Hk Hcap). apply Hb. lia.
Qed.

(** A key is held by one slot. *)
Lemma holds_at (t : list T) key e d j : table_ok t -> t !! j = Some e -> hash_occupied e = true -> entry_key e = key ->
  stops t key (nth_probe cap (home cap key) d) ->
  (forall d', (d' < d)%nat -> busy t key (nth_probe cap (home cap key) d')) ->
  nth_probe cap (home cap key) d = j.
Proof using Hk Hcap HE.
  intros Ht Hj Ho <- (e'&He'&Hst) Hb. destruct (to_reach t Ht j e Hj Ho) as (d0&_&Hp&Hb0).
  destruct (lt_eq_lt_dec d d0) as [[Hlt| ->]|Hgt]; [|done|].
  - destruct (Hb0 d Hlt) as (e''&He''&Ho''&Hk''). rewrite He' in He''. injection He'' as <-.
  destruct Hst; congruence.
  - destruct (Hb d0 Hgt) as (e''&He''&Ho''&Hk''). rewrite Hp, Hj in He''. injection He'' as <-. done.
Qed.

(** Overwriting a slot where a probe for the new key stops. *)
Lemma insert_busy t e j key j' : hash_occupied e = true -> stops t (entry_key e) j -> busy t key j' ->
  (entry_key e = key -> j' <> j) -> busy (<[j := e]> t) key j'.
Proof.
  intros Ho (e0&He0&Hst) (e'&He'&Ho'&Hk') Hne. destruct (decide (j' = j)) as [->|Hd].
  - exists e. rewrite list_lookup_insert_eq by (by eapply lookup_lt_Some).
  split_and!; [done|done|]. intros E. by apply Hne.
  - exists e'. rewrite list_lookup_insert_ne by done. done.
Qed.

Lemma insert_table_ok t e d : table_ok t -> id_view (hash_id e) -> hash_occupied e = true -> Z.of_nat d < cap ->
  stops t (entry_key e) (nth_probe cap (home cap (entry_key e)) d) ->
  (forall d', (d' < d)%nat -> busy t (entry_key e) (nth_probe cap (home cap (entry_key e)) d')) ->
  table_ok (<[nth_probe cap (home cap (entry_key e)) d := e]> t).
Proof.
  intros Ht Hid Ho Hd Hst Hb. set (j := nth_probe cap (home cap (entry_key e)) d) in *.
  pose proof Hst as (e0&He0&Hor). pose proof (lookup_lt_Some _ _ _ He0) as Hj.
  split.
  - unfold zlen. rewrite length_insert. apply Ht.
  - intros i e1 H1 O1. destruct (decide (i = j)) as [->|Hne].
  + rewrite list_lookup_insert_eq in H1 by done. by injection H1 as <-.
  + rewrite list_lookup_insert_ne in H1 by done. by eapply to_ids.
  - intros i e1 H1 O1. destruct (decide (i = j)) as [->|Hne].
  + rewrite list_lookup_insert_eq in H1 by done. injection H1 as <-. exists d. split_and!; [done|done|].
  intros d' Hd'. apply insert_busy; [done|done|by apply Hb|]. intros _ E.
  destruct (Hb d' Hd') as (e2&He2&O2&K2). rewrite E, He0 in He2. injection He2 as <-.
  destruct Hor; congruence.
  + rewrite list_lookup_insert_ne in H1 by done. destruct (to_reach t Ht i e1 H1 O1) as (d1&Hd1&Hp1&Hb1).
  exists d1. split_and!; [done|done|]. intros d' Hd'. apply insert_busy; [done|done|by apply Hb1|].
  intros E Ej. destruct (Hb1 d' Hd') as (e2&He2&O2&K2). rewrite Ej, He0 in He2. injection He2 as <-.
  destruct Hor; congruence.
Qed.

Lemma insert_holds t e d key e' : table_ok t -> hash_occupied e = true ->
  stops t (entry_key e) (nth_probe cap (home cap (entry_key e)) d) ->
  (forall d', (d' < d)%nat -> busy t (entry_key e) (nth_probe cap (home cap (entry_key e)) d')) ->
  holds (<[nth_probe cap (home cap (entry_key e)) d := e]> t) key e' <->
  if decide (entry_key e = key) then e' = e else holds t key e'.
Proof using Hk Hcap HE.
  intros Ht Ho Hst Hb. set (j := nth_probe cap (home cap (entry_key e)) d) in *.
  pose proof Hst as (e0&He0&Hor). pose proof (lookup_lt_Some _ _ _ He0) as Hj. split.
  - intros (i&Hi&Oi&Ki). destruct (decide (i = j)) as [->|Hne].
  + rewrite list_lookup_insert_eq in Hi by done. injection Hi as <-. by rewrite decide_True.
  + rewrite list_lookup_insert_ne in Hi by done. destruct (decide (entry_key e = key)) as [<-|]; [|by exists i].
  destruct Hne. symmetry. by apply (holds_at t (entry_key e) e' d i).
  - destruct (decide (entry_key e = key)) as [<-|Hne].
  + intros ->. exists j. by rewrite list_lookup_insert_eq.
  + intros (i&Hi&Oi&Ki). exists i. rewrite list_lookup_insert_ne; [done|]. intros <-.
  rewrite He0 in Hi. injection Hi as ->. destruct Hor; congruence.
Qed.

Lemma used_insert t j e : (used (<[j := e]> t) <= S (used t))%nat.
Proof.
  unfold used. revert j; induction t as [|a t IH]; intros j; [by destruct j; apply Nat.le_0_l|]. destruct j as [|j].
  - change (<[0%nat := e]> (a :: t)) with (e :: t). rewrite !filter_cons. do 2 case_decide; cbn; lia.
  - change (<[S j := e]> (a :: t)) with (a :: <[j := e]> t). rewrite !filter_cons. specialize (IH j).
  case_decide; cbn; lia.
Qed.

(** [t] is what writing [entries] leaves. *)
Definition represents (t : list T) (entries : list T) : Prop :=
  table_ok t /\ (used t <= length entries)%nat /\
  forall key e, holds t key e <-> last_writer key entries = Some e.

Lemma last_writer_snoc key entries e :
  last_writer key (entries ++ [e]) = if decide (entry_key e = key) then Some e else last_writer key entries.
Proof.
  unfold last_writer. rewrite filter_app, filter_cons, filter_nil. case_decide; [by rewrite last_snoc|].
  by rewrite app_nil_r.
Qed.

(** Looking a key up. *)
Lemma lookup_correct t entries id : represents t entries -> id_view id -> (length entries < length t)%nat ->
  probe_lookup (Z.to_nat cap) t cap id (home cap (view_bytes id)) = Ok (last_writer (view_bytes id) entries).
Proof using Hk Hcap HE.
  intros (Ht&Hu&Hh) Hid Hl. pose proof (cap_pos cap k Hk Hcap).
  destruct (stop_exists t (view_bytes id) (home cap (view_bytes id)) Ht ltac:(lia)) as (d&Hd&(e&He&Hst)&Hb);
  [by apply (home_range cap k)|].
  rewrite (probe_lookup_spec t id Ht Hid _ _ d e); [|by apply (home_range cap k)|lia|done|done|done].
  f_equal. apply option_eq. intros e'. rewrite <- Hh. split.
  - intros E. destruct (hash_occupied e) eqn:O; [|done]. injection E as <-.
  exists (nth_probe cap (home cap (view_bytes id)) d). split_and!; [done|done|]. by destruct Hst.
  - intros (j&Hj&Ho&Hkey). assert (nth_probe cap (home cap (view_bytes id)) d = j) as <-.
  { eapply holds_at; eauto. exists e. auto. }
  rewrite He in Hj. injection Hj as ->. by rewrite Ho.
Qed.

(** The slot of a key: what it holds, and the table after it has been overwritten. *)
Record slot_of (t entries : list T) (key : bytes) (j : nat) : Prop := {
  so_content : exists e, t !! j = Some e /\ (if hash_occupied e then Some e else None) = last_writer key entries;
  so_write : forall e, id_view (hash_id e) -> entry_key e = key -> hash_occupied e = true ->
  represents (<[j := e]> t) (entries ++ [e]) }.

Lemma find_slot t entries id : represents t entries -> id_view id -> (length entries < length t)%nat ->
  exists j, probe_entry (Z.to_nat cap) t cap id (home cap (view_bytes id)) = Ok (Some (Z.of_nat j)) /\
  slot_of t entries (view_bytes id) j.
Proof using Hk Hcap HE.
  intros (Ht&Hu&Hh) Hid Hlt. pose proof (cap_pos cap k Hk Hcap).
  destruct (stop_exists t (view_bytes id) (home cap (view_bytes id)) Ht ltac:(lia)) as (d&Hd&Hst&Hb);
  [by apply (home_range cap k)|].
  exists (nth_probe cap (home cap (view_bytes id)) d).
  rewrite (probe_entry_spec t id Ht Hid _ _ d); [|by apply (home_range cap k)|lia|done|done].
  split; [done|]. split.
  - pose proof Hst as (e&He&Hor). exists e. split; [done|]. apply option_eq. intros e'. rewrite <- Hh. split.
  + intros E. destruct (hash_occupied e) eqn:O; [|done]. injection E as <-. eexists. split_and!; [done|done|].
  by destruct Hor.
  + intros (j&Hj&Ho&Hkey). rewrite <- (holds_at t (view_bytes id) e' d j) in Hj by done.
  rewrite He in Hj. injection Hj as ->. by rewrite Ho.
  - intros e Hide Ek Ho. rewrite <- Ek in Hst, Hb |- *. split_and!.
  + by apply insert_table_ok.
  + rewrite length_app. cbn. pose proof (used_insert t (nth_probe cap (home cap (entry_key e)) d) e). lia.
  + intros key e'. rewrite insert_holds by done. rewrite last_writer_snoc.
  destruct (decide (entry_key e = key)); [|apply Hh]. split; congruence.
Qed.
(** Two slots in use have different keys. *)
Lemma slots_distinct t i j e e' : table_ok t -> t !! i = Some e -> hash_occupied e = true -> t !! j = Some e' ->
  hash_occupied e' = true -> entry_key e = entry_key e' -> i = j.
Proof using Hk Hcap HE.
  intros Ht Hi Oi Hj Oj E. destruct (to_reach t Ht i e Hi Oi) as (d&_&Hp&Hb). rewrite <- Hp.
  apply (holds_at t (entry_key e) e' d j); [done|done|done|done| |done]. exists e. rewrite Hp. auto.
Qed.

(** The entries in use are the last writers. *)
Lemma in_use_last_writers `{!EqDecision T} t entries : represents t entries -> NoDup entries ->
  filter (fun e => hash_occupied e = true) t ≡ₚ filter (fun e => last_writer (entry_key e) entries = Some e) entries.
Proof using Hk Hcap HE.
  intros (Ht&_&Hh) Hd. apply NoDup_Permutation.
  - assert (forall i j e, t !! i = Some e -> hash_occupied e = true -> t !! j = Some e -> i = j) as Hij.
  { intros i j e Hi O Hj. by apply (slots_distinct t i j e e). }
  clear -Hij. induction t as [|a t IH]; [constructor|]. rewrite filter_cons.
  assert (NoDup (filter (fun e => hash_occupied e = true) t)) as HN.
  { apply IH. intros i j e Hi O Hj. by injection (Hij (S i) (S j) e Hi O Hj). }
  case_decide as O; [|done]. constructor; [|done]. intros [_ Ha]%list_elem_of_filter.
  apply list_elem_of_lookup in Ha as [i Hi]. by specialize (Hij 0%nat (S i) a eq_refl O Hi).
  - by apply NoDup_filter.
  - intros e. rewrite !list_elem_of_filter. split.
  + intros [O [j Hj]%list_elem_of_lookup]. assert (last_writer (entry_key e) entries = Some e) as Hl.
  { apply Hh. exists j. done. }
  split; [done|]. unfold last_writer in Hl. by apply last_Some_elem_of, list_elem_of_filter in Hl as [_ ?].
  + intros [Hl _]. apply Hh in Hl as (j&Hj&O&_). split; [done|]. by eapply list_elem_of_lookup_2.
Qed.

Lemma represents_empty : represents (replicate (Z.to_nat cap) hash_zero) [].
Proof using Hk Hcap HE.
  pose proof (cap_pos cap k Hk Hcap).
  assert (forall j e, replicate (Z.to_nat cap) hash_zero !! j = Some e -> hash_occupied e = true -> False) as HN.
  { intros j e He. apply lookup_replicate in He as [-> _]. by rewrite hash_zero_free. }
  split_and!.
  - split; [rewrite zlen_replicate; lia|intros j e He O; by destruct (HN j e He)..].
  - unfold used. clear. generalize (Z.to_nat cap) as n. intros n. induction n as [|n IH]; [done|].
  change (replicate (S n) hash_zero) with (hash_zero :: replicate n hash_zero). rewrite filter_cons_False; [done|]. by rewrite hash_zero_free.
  - intros key e. split; [|done]. intros (j&Hj&O&_). by destruct (HN j e Hj).
Qed.
End table.

(** ** The last writer *)
Section last_writer.
Context {T : Type} `{HE : HashEntry T}.

Lemma last_writer_app key (a b : list T) :
  last_writer key (a ++ b) = match last_writer key b with Some e => Some e | None => last_writer key a end.
Proof. unfold last_writer. rewrite filter_app. apply last_app. Qed.

Lemma last_writer_elem key (l : list T) e : last_writer key l = Some e -> e ∈ l /\ entry_key e = key.
Proof. unfold last_writer. intros [? ?]%last_Some_elem_of%list_elem_of_filter. done. Qed.

Lemma last_writer_none key (l : list T) : last_writer key l = None <-> key ∉ (entry_key <$> l).
Proof.
  unfold last_writer. rewrite last_None. split.
  - intros H (e&->&He)%list_elem_of_fmap. assert (e ∈ filter (fun e' => entry_key e' = entry_key e) l) as Hin.
    { by apply list_elem_of_filter. }
    rewrite H in Hin. by apply not_elem_of_nil in Hin.
  - intros H. destruct (filter _ l) as [|e l'] eqn:E; [done|]. exfalso. apply H.
    assert (e ∈ filter (fun e' => entry_key e' = key) l) as [Hk Hin]%list_elem_of_filter by (rewrite E; by left).
    apply list_elem_of_fmap. by exists e.
Qed.
End last_writer.
