(* ===== verification/Visibility.v ===== *)
(** The visibility table of a search snapshot (src/src/storage/yappo_snapshot_v2.c): which
    segment holds the current version of a document.

    The table is an open-addressing hash table keyed by the bytes of a document identifier
    (EntryTable.v).
    Segments are entered in manifest order, in each segment first its tombstones and then its
    documents, and a later entry overwrites an earlier one: the table implements "the last
    writer wins". *)
From S2P Require Import Prelude Words Types Manifest SlotTable EntryTable Segment.

(** [references] counts the snapshots that share the segment. *)
Record SNAPSHOT_SEGMENT := SnapshotSegment {
  seg_references : Z;
  seg_documents : YAP_V2_SEGMENT;
  seg_tombstones : list YAP_V2_BYTES_VIEW }.

Record VISIBILITY_ENTRY := VisibilityEntry {
  entry_id : YAP_V2_BYTES_VIEW;
  entry_segment : Z;
  entry_ordinal : Z;
  entry_document : option YAP_V2_DOCUMENT_VIEW;
  entry_occupied : bool }.

Definition zero_entry : VISIBILITY_ENTRY := VisibilityEntry (BytesView None 0) 0 0 None false.
#[export] Instance visibility_hash_entry : HashEntry VISIBILITY_ENTRY :=
  { hash_id := entry_id; hash_occupied := entry_occupied; hash_zero := zero_entry; hash_zero_free := eq_refl }.

Definition sizeof_visibility_entry : Z := 48.

Record visibility_table := VisibilityTable {
  visibility : list VISIBILITY_ENTRY;
  visibility_capacity : Z }.

Record YAP_V2_DOCUMENT_HIT := DocumentHit {
  hit_segment : Z;
  hit_ordinal : Z;
  hit_document : YAP_V2_DOCUMENT_VIEW }.

Definition visibility_entry (t : visibility_table) (id : YAP_V2_BYTES_VIEW) : result (option Z) :=
  if visibility_capacity t =? 0 then Ok None
  else
  hash ← bytes_hash id;
  probe_entry (Z.to_nat (visibility_capacity t)) (visibility t) (visibility_capacity t) id
    (Z.land hash (visibility_capacity t - 1)).

Definition visibility_lookup (t : visibility_table) (id : YAP_V2_BYTES_VIEW) : result (option VISIBILITY_ENTRY) :=
  if visibility_capacity t =? 0 then Ok None
  else
  hash ← bytes_hash id;
  probe_lookup (Z.to_nat (visibility_capacity t)) (visibility t) (visibility_capacity t) id
    (Z.land hash (visibility_capacity t - 1)).

(** ** Building *)
Definition add_count (record_count count : Z) : result Z :=
  if SIZE_MAX - record_count <? count then Err YAP_V2_OUT_OF_RANGE else Ok (record_count + count).

Fixpoint count_records (segments : list SNAPSHOT_SEGMENT) (record_count : Z) : result Z :=
  match segments with
  | [] => Ok record_count
  | s :: segments =>
      n ← add_count record_count (zlen (documents (seg_documents s)));
      n ← add_count n (zlen (seg_tombstones s));
      count_records segments n
  end.

(** Write the fields of [entry] into the slot of its identifier. *)
Definition put_entry (entry : VISIBILITY_ENTRY) (t : visibility_table) : result visibility_table :=
  slot ← visibility_entry t (entry_id entry);
  match slot with
  | None => Err YAP_V2_CONFLICT
  | Some i => Ok (VisibilityTable (<[Z.to_nat i := entry]> (visibility t)) (visibility_capacity t))
  end.

Fixpoint put_tombstones (s : Z) (ids : list YAP_V2_BYTES_VIEW) (t : visibility_table) : result visibility_table :=
  match ids with
  | [] => Ok t
  | id :: ids => t ← put_entry (VisibilityEntry id s SIZE_MAX None true) t; put_tombstones s ids t
  end.

Fixpoint put_documents (s i : Z) (docs : list YAP_V2_DOCUMENT_VIEW) (t : visibility_table) : result visibility_table :=
  match docs with
  | [] => Ok t
  | d :: docs => t ← put_entry (VisibilityEntry (doc_id d) s i (Some d) true) t; put_documents s (i + 1) docs t
  end.

Fixpoint put_segments (s : Z) (segments : list SNAPSHOT_SEGMENT) (t : visibility_table) : result visibility_table :=
  match segments with
  | [] => Ok t
  | segment :: segments =>
      t ← put_tombstones s (seg_tombstones segment) t;
      t ← put_documents s 0 (documents (seg_documents segment)) t;
      put_segments (s + 1) segments t
  end.

Definition snapshot_build_visibility {A : Allocator} (segments : list SNAPSHOT_SEGMENT) : result visibility_table :=
  record_count ← count_records segments 0;
  if record_count =? 0 then Ok (VisibilityTable [] 0)
  else if SIZE_MAX / 2 <? record_count then Err YAP_V2_OUT_OF_RANGE
  else
  capacity ← grow_capacity 64 true 1 (record_count * 2);
  if alloc_ok (capacity * sizeof_visibility_entry) then
    put_segments 0 segments (VisibilityTable (replicate (Z.to_nat capacity) zero_entry) capacity)
  else Err YAP_V2_ALLOCATION_FAILED.

(** ** Queries *)
Definition YAP_V2_snapshot_lookup_document (t : visibility_table) (id : YAP_V2_BYTES_VIEW) : result YAP_V2_DOCUMENT_HIT :=
  if bool_decide (data id = None) || (len id =? 0) then Err YAP_V2_INVALID_ARGUMENT
  else
  entry ← visibility_lookup t id;
  match entry with
  | None => Err YAP_V2_NOT_FOUND
  | Some e =>
      match entry_document e with
      | None => Err YAP_V2_NOT_FOUND
      | Some d => Ok (DocumentHit (entry_segment e) (entry_ordinal e) d)
      end
  end.

Definition YAP_V2_snapshot_document_visible (t : visibility_table) (segment_count segment_ordinal : Z)
    (id : YAP_V2_BYTES_VIEW) : result bool :=
  if (segment_count <=? segment_ordinal) || bool_decide (data id = None) || (len id =? 0) then Ok false
  else
  entry ← visibility_lookup t id;
  Ok match entry with
     | None => false
     | Some e => bool_decide (is_Some (entry_document e)) && (entry_segment e =? segment_ordinal)
     end.

(** ** Specification: the last writer wins *)
Definition tombstone_entry (s : Z) (id : YAP_V2_BYTES_VIEW) : VISIBILITY_ENTRY := VisibilityEntry id s SIZE_MAX None true.

Fixpoint document_entries (s i : Z) (docs : list YAP_V2_DOCUMENT_VIEW) : list VISIBILITY_ENTRY :=
  match docs with
  | [] => []
  | d :: docs => VisibilityEntry (doc_id d) s i (Some d) true :: document_entries s (i + 1) docs
  end.

(** What is written, in order. *)
Fixpoint segment_entries (s : Z) (segments : list SNAPSHOT_SEGMENT) : list VISIBILITY_ENTRY :=
  match segments with
  | [] => []
  | segment :: segments =>
      (tombstone_entry s <$> seg_tombstones segment) ++ document_entries s 0 (documents (seg_documents segment)) ++
      segment_entries (s + 1) segments
  end.

Definition snapshot_segment_ok (s : SNAPSHOT_SEGMENT) : Prop :=
  Forall id_view (seg_tombstones s) /\ Forall (fun d => id_view (doc_id d)) (documents (seg_documents s)).

(** ** Writing entries *)
Section table.
Context (cap k : Z) (Hk : 0 <= k) (Hcap : cap = 2 ^ k).

Lemma put_entry_spec t entries e : represents cap t entries -> id_view (entry_id e) -> entry_occupied e = true ->
  Z.of_nat (length entries) < cap ->
  exists t', put_entry e (VisibilityTable t cap) = Ok (VisibilityTable t' cap) /\ represents cap t' (entries ++ [e]).
Proof using Hk Hcap.
  intros Ht Hid Ho Hlt. unfold put_entry, visibility_entry. cbn [visibility visibility_capacity].
  pose proof (cap_pos cap k Hk Hcap). rewrite (proj2 (Z.eqb_neq cap 0)), bytes_hash_spec, outcome_bind_ok by (done || lia).
  fold (home cap (view_bytes (entry_id e))). pose proof (to_len cap t (proj1 Ht)) as Hlen. unfold zlen in Hlen.
  destruct (find_slot cap k Hk Hcap t entries (entry_id e) Ht Hid) as (j&->&Hj); [lia|].
  rewrite outcome_bind_ok, Nat2Z.id. eexists. split; [done|]. by apply (so_write _ _ _ _ _ Hj).
Qed.

(** Writing a list of entries one after the other. *)
Definition written (f : visibility_table -> result visibility_table) (es : list VISIBILITY_ENTRY) : Prop :=
  forall t entries, represents cap t entries -> Z.of_nat (length entries + length es) <= cap ->
  exists t', f (VisibilityTable t cap) = Ok (VisibilityTable t' cap) /\ represents cap t' (entries ++ es).

Lemma written_nil : written Ok [].
Proof. intros t entries Ht _. exists t. by rewrite app_nil_r. Qed.

Lemma written_app f g es es' : written f es -> written g es' -> written (fun t => t ← f t; g t) (es ++ es').
Proof.
  intros Hf Hg t entries Ht Hl. rewrite length_app in Hl. destruct (Hf t entries Ht) as (t1&->&H1); [lia|].
  rewrite outcome_bind_ok. destruct (Hg t1 _ H1) as (t2&->&H2); [rewrite length_app; lia|].
  exists t2. by rewrite (assoc_L (++)).
Qed.

Lemma written_put e : id_view (entry_id e) -> entry_occupied e = true -> written (put_entry e) [e].
Proof using Hk Hcap. intros Hid Ho t entries Ht Hl. apply put_entry_spec; try done. cbn in Hl. lia. Qed.

Lemma put_tombstones_written s ids : Forall id_view ids -> written (put_tombstones s ids) (tombstone_entry s <$> ids).
Proof using Hk Hcap.
  induction 1 as [|id ids Hid _ IH]; [apply written_nil|]. rewrite fmap_cons.
  apply (written_app (put_entry _) _ [_]); [by apply written_put|exact IH].
Qed.

Lemma put_documents_written s docs : Forall (fun d => id_view (doc_id d)) docs ->
  forall i, written (put_documents s i docs) (document_entries s i docs).
Proof using Hk Hcap.
  induction 1 as [|d docs Hid _ IH]; intros i; [apply written_nil|].
  apply (written_app (put_entry _) _ [_]); [by apply written_put|apply IH].
Qed.

Lemma put_segments_written segments : Forall snapshot_segment_ok segments ->
  forall s, written (put_segments s segments) (segment_entries s segments).
Proof using Hk Hcap.
  induction 1 as [|segment segments [Ht Hd] _ IH]; intros s; [apply written_nil|]. cbn [put_segments segment_entries].
  apply (written_app (put_tombstones s (seg_tombstones segment))); [by apply put_tombstones_written|].
  apply (written_app (put_documents s 0 _)); [by apply put_documents_written|apply IH].
Qed.

End table.

(** ** Building *)
Lemma grow_capacity_fuel fuel extra g c need x : grow_capacity fuel g c need = Ok x -> grow_capacity (fuel + extra) g c need = Ok x.
Proof.
  revert c; induction fuel as [|fuel IH]; intros c.
  - cbn [grow_capacity]. destruct (c <? need) eqn:T; [done|]. intros E. destruct (0 + extra)%nat; cbn [grow_capacity]; by rewrite T.
  - cbn [grow_capacity Nat.add]. destruct (c <? need); [|done]. destruct (g && _); [done|]. apply IH.
Qed.

Lemma length_document_entries s i docs : length (document_entries s i docs) = length docs.
Proof. revert i; induction docs as [|d docs IH]; intros i; [done|]. cbn. by rewrite IH. Qed.

Lemma count_records_spec segments s n : 0 <= n -> n + zlen (segment_entries s segments) <= SIZE_MAX ->
  count_records segments n = Ok (n + zlen (segment_entries s segments)).
Proof.
  revert s n; induction segments as [|seg segments IH]; intros s n Hn Hl; cbn [count_records segment_entries] in *.
  - by rewrite zlen_nil, Z.add_0_r.
  - rewrite !zlen_app, zlen_fmap in *. assert (zlen (document_entries s 0 (documents (seg_documents seg))) =
      zlen (documents (seg_documents seg))) as E by (unfold zlen; by rewrite length_document_entries). rewrite E in *.
    pose_zlen. unfold add_count. rewrite (proj2 (Z.ltb_ge _ _)), outcome_bind_ok by lia.
    rewrite (proj2 (Z.ltb_ge _ _)), outcome_bind_ok by lia. rewrite (IH (s + 1)) by lia. f_equal. lia.
Qed.

(** A table that answers for the entries written to it. *)
Definition answers (t : visibility_table) (entries : list VISIBILITY_ENTRY) : Prop :=
  forall id, id_view id -> visibility_lookup t id = Ok (last_writer (view_bytes id) entries).

Lemma represents_answers cap k t entries : 0 <= k -> cap = 2 ^ k -> represents cap t entries ->
  Z.of_nat (length entries) < cap -> answers (VisibilityTable t cap) entries.
Proof.
  intros Hk Hcap Ht Hl id Hid. pose proof (to_len cap t (proj1 Ht)) as Hlen. unfold zlen in Hlen.
  pose proof (cap_pos cap k Hk Hcap). unfold visibility_lookup. cbn [visibility visibility_capacity].
  rewrite (proj2 (Z.eqb_neq cap 0)), bytes_hash_spec, outcome_bind_ok by (done || lia).
  apply (lookup_correct cap k Hk Hcap); [done|done|lia].
Qed.

Lemma build_visibility_spec {A : Allocator} segments : Forall snapshot_segment_ok segments ->
  zlen (segment_entries 0 segments) <= 2 ^ 40 ->
  match snapshot_build_visibility segments with
  | Ok t => answers t (segment_entries 0 segments)
  | Err e => e = YAP_V2_ALLOCATION_FAILED /\ exists n, alloc_ok n = false
  | Fault => False
  end.
Proof.
  intros Hok Hl. unfold snapshot_build_visibility. pose proof (zlen_nonneg (segment_entries 0 segments)) as Hz.
  rewrite (count_records_spec _ 0), outcome_bind_ok by (unfold SIZE_MAX; lia). rewrite Z.add_0_l.
  set (n := zlen (segment_entries 0 segments)) in *.
  destruct (Z.eqb_spec n 0) as [E|N].
  { intros id Hid. assert (segment_entries 0 segments = []) as -> by (unfold n, zlen in E; by apply length_zero_iff_nil; lia).
    done. }
  change (SIZE_MAX / 2) with (2 ^ 63 - 1). rewrite (proj2 (Z.ltb_ge _ _)) by lia.
  destruct (grow_capacity_table true n) as (k&Hk&E&Hn&_); [lia|].
  apply (grow_capacity_fuel 60 4) in E. change (60 + 4)%nat with 64%nat in E. rewrite E, outcome_bind_ok.
  destruct (alloc_ok _) eqn:HA; [|split; [done|by eexists]].
  change zero_entry with (hash_zero (E:=VISIBILITY_ENTRY)).
  destruct (put_segments_written (2 ^ k) k Hk eq_refl segments Hok 0 _ [] (represents_empty (2 ^ k) k Hk eq_refl)) as (t&->&Ht).
  { unfold n, zlen in *. cbn. lia. }
  eapply represents_answers; [exact Hk|done|exact Ht|]. cbn. unfold n, zlen in *. lia.
Qed.

(** ** What the last writer means for segments *)
Definition document_keys (s : SNAPSHOT_SEGMENT) : list bytes := (fun d => view_bytes (doc_id d)) <$> documents (seg_documents s).
Definition tombstone_keys (s : SNAPSHOT_SEGMENT) : list bytes := view_bytes <$> seg_tombstones s.

(** Segment number [i] has a document [key] that no later segment replaces or deletes. *)
Definition current_in (key : bytes) (segments : list SNAPSHOT_SEGMENT) (i : nat) : Prop :=
  exists s, segments !! i = Some s /\ key ∈ document_keys s /\
    forall j s', (i < j)%nat -> segments !! j = Some s' -> (key ∉ document_keys s') /\ (key ∉ tombstone_keys s').

Lemma document_entries_elem s docs e : forall i, e ∈ document_entries s i docs ->
  entry_segment e = s /\ is_Some (entry_document e).
Proof.
  induction docs as [|d docs IH]; intros i; [by intros ?%not_elem_of_nil|].
  intros [->|He]%elem_of_cons; [done|by eapply IH].
Qed.

Lemma document_entries_keys s docs : forall i, entry_key <$> document_entries s i docs = (fun d => view_bytes (doc_id d)) <$> docs.
Proof. induction docs as [|d docs IH]; intros i; [done|]. cbn. by rewrite IH. Qed.

Lemma tombstone_entries_keys s (ids : list YAP_V2_BYTES_VIEW) : entry_key <$> (tombstone_entry s <$> ids) = view_bytes <$> ids.
Proof. rewrite <- list_fmap_compose. done. Qed.

(** A key is mentioned by a later segment or not. *)
Lemma segment_entries_keys key segments : forall s,
  key ∈ (entry_key <$> segment_entries s segments) <->
  exists j s', segments !! j = Some s' /\ (key ∈ document_keys s' \/ key ∈ tombstone_keys s').
Proof.
  induction segments as [|seg segments IH]; intros s; cbn [segment_entries].
  - split; [by intros ?%not_elem_of_nil|intros (j&s'&?&_); done].
  - rewrite !fmap_app, !elem_of_app, IH, tombstone_entries_keys, document_entries_keys. split.
    + intros [H|[H|(j&s'&Hj&H)]]; [exists 0%nat, seg; auto..|]. exists (S j), s'. auto.
    + intros ([|j]&s'&Hj&H); cbn in Hj; [injection Hj as <-; naive_solver|]. right; right. eauto.
Qed.

Lemma segment_entries_range segments e : forall s, e ∈ segment_entries s segments -> s <= entry_segment e.
Proof.
  induction segments as [|seg segments IH]; intros s; cbn [segment_entries]; [by intros ?%not_elem_of_nil|].
  rewrite !elem_of_app. intros [(id&->&_)%list_elem_of_fmap|[[-> _]%document_entries_elem|H%IH]]; cbn; lia.
Qed.

Lemma last_writer_current key segments : forall s i,
  (exists e, last_writer key (segment_entries s segments) = Some e /\ is_Some (entry_document e) /\
     entry_segment e = s + Z.of_nat i) <-> current_in key segments i.
Proof.
  induction segments as [|seg segments IH]; intros s i; cbn [segment_entries].
  { split; [by intros (e&?&_)|intros (s'&?&_); done]. }
  rewrite last_writer_app, last_writer_app.
  destruct (last_writer key (segment_entries (s + 1) segments)) as [e|] eqn:R.
  - destruct i as [|i].
    + split.
      * intros (e'&[= <-]&_&Hs). apply last_writer_elem in R as [Hin _]. apply segment_entries_range in Hin. lia.
      * intros (s'&_&_&HN). exfalso.
        assert (key ∈ (entry_key <$> segment_entries (s + 1) segments)) as (j&s''&Hj&Hor)%segment_entries_keys.
        { destruct (decide (key ∈ (entry_key <$> segment_entries (s + 1) segments))) as [|N]; [done|].
          apply last_writer_none in N. congruence. }
        destruct (HN (S j) s'') as [? ?]; [lia|done|]. by destruct Hor.
    + specialize (IH (s + 1) i). rewrite R in IH. split.
      * intros (e'&[= <-]&Hd&Hs). destruct (proj1 IH) as (s'&Hi&Hkey&HN); [exists e; split_and!; [done|done|lia]|].
        exists s'. split_and!; [done|done|]. intros [|j] s'' Hj Hl; [lia|]. apply (HN j); [lia|done].
      * intros (s'&Hi&Hkey&HN). destruct (proj2 IH) as (e'&[= <-]&Hd&Hs).
        { exists s'. split_and!; [done|done|]. intros j s'' Hj Hl. apply (HN (S j)); [lia|done]. }
        exists e. split_and!; [done|done|lia].
  - apply last_writer_none in R. rewrite segment_entries_keys in R.
    destruct (last_writer key (document_entries s 0 _)) as [e|] eqn:D.
    + apply last_writer_elem in D as [Hin Hkey]. destruct (document_entries_elem _ _ _ _ Hin) as [Hs Hd]. split.
      * intros (e'&[= <-]&_&Hi). assert (i = 0%nat) as -> by lia. exists seg. split_and!; [done| |].
        -- unfold document_keys. rewrite <- (document_entries_keys s _ 0). apply list_elem_of_fmap. by exists e.
        -- intros [|j] s' Hj Hl; [lia|]. split; intros Hin'; apply R; eauto.
      * intros (s'&Hi&Hk'&_). destruct i as [|i]; [exists e; split_and!; [done|done|lia]|].
        exfalso. apply R. eauto.
    + apply last_writer_none in D. rewrite document_entries_keys in D. split.
      * intros (e&He&Hd&_). apply last_writer_elem in He as [(id&->&_)%list_elem_of_fmap _]. by destruct Hd.
      * intros (s'&Hi&Hk'&_). exfalso. destruct i as [|i]; cbn in Hi; [injection Hi as <-; done|]. apply R. eauto.
Qed.

(** ** Main theorems *)

Definition demo_doc (key : Z) : YAP_V2_DOCUMENT_VIEW :=
  DocumentView (mk_view [key]) (mk_view []) (mk_view []) (mk_view [98]) (mk_view [123; 125]) 0.
Definition demo_segments : list SNAPSHOT_SEGMENT :=
  [SnapshotSegment 1 (Segment [115; 48] 1 [demo_doc 97; demo_doc 98] [] []) [];
   SnapshotSegment 1 (Segment [115; 49] 2 [demo_doc 99] [] []) [mk_view [97]]].

Lemma demo_id_view key : 0 <= key < 256 -> id_view (mk_view [key]).
Proof. intros Hk. split_and!; [apply mk_view_wf; [by apply Forall_singleton|by vm_compute]|done|done]. Qed.

Lemma demo_segments_ok : Forall snapshot_segment_ok demo_segments.
Proof.
  unfold demo_segments, snapshot_segment_ok. rewrite !Forall_cons, Forall_nil. cbn [seg_tombstones seg_documents documents].
  rewrite !Forall_cons, !Forall_nil. split_and!; try done; apply demo_id_view; lia.
Qed.

Lemma lookup_document_answers t entries id : answers t entries -> id_view id ->
  YAP_V2_snapshot_lookup_document t id =
    match last_writer (view_bytes id) entries with
    | Some (VisibilityEntry _ s i (Some d) _) => Ok (DocumentHit s i d)
    | _ => Err YAP_V2_NOT_FOUND
    end.
Proof.
  intros H Hid. pose proof Hid as (_&Hd&Hn). unfold YAP_V2_snapshot_lookup_document.
  rewrite bool_decide_false, (proj2 (Z.eqb_neq _ _)), H, outcome_bind_ok by done. cbn [orb].
  by destruct (last_writer _ _) as [[? ? ? [] ?]|].
Qed.

(** C8: the visibility table implements "the last writer wins": whenever it is built, looking
    up an identifier returns the document that was entered last (segments in manifest order,
    in a segment tombstones before documents), and reports [YAP_V2_NOT_FOUND] when that entry
    is a tombstone or there is none.  Building fails only for lack of memory, and probing
    never leaves the table. *)
Theorem visibility_last_writer_wins {A : Allocator} (segments : list SNAPSHOT_SEGMENT) :
  Forall snapshot_segment_ok segments -> zlen (segment_entries 0 segments) <= 2 ^ 40 ->
  match snapshot_build_visibility segments with
  | Ok t => forall id, id_view id ->
      YAP_V2_snapshot_lookup_document t id =
        match last_writer (view_bytes id) (segment_entries 0 segments) with
        | Some (VisibilityEntry _ s i (Some d) _) => Ok (DocumentHit s i d)
        | _ => Err YAP_V2_NOT_FOUND
        end
  | Err e => e = YAP_V2_ALLOCATION_FAILED /\ exists n, alloc_ok n = false
  | Fault => False
  end.
Proof.
  intros Hok Hl. pose proof (build_visibility_spec segments Hok Hl) as H.
  destruct (snapshot_build_visibility segments) as [t| |]; [|done..]. intros id. by apply lookup_document_answers.
Qed.

Lemma visibility_last_writer_wins_witness :
  match snapshot_build_visibility (A:=alloc_total) demo_segments with
  | Ok t => YAP_V2_snapshot_lookup_document t (mk_view [97]) = Err YAP_V2_NOT_FOUND /\
      YAP_V2_snapshot_lookup_document t (mk_view [98]) = Ok (DocumentHit 0 1 (demo_doc 98))
  | _ => False
  end.
Proof.
  pose proof (visibility_last_writer_wins (A:=alloc_total) demo_segments demo_segments_ok ltac:(vm_compute; discriminate)) as H.
  destruct (snapshot_build_visibility (A:=alloc_total) demo_segments) as [t|e|].
  - split.
    + rewrite H by (apply demo_id_view; lia). vm_compute. reflexivity.
    + rewrite H by (apply demo_id_view; lia). vm_compute. reflexivity.
  - destruct H as [_ [n Hn]]. discriminate Hn.
  - exact H.
Defined.

(** A document is visible in a segment exactly when that segment has it and no later
    segment has a document or a tombstone with the same identifier. *)
Theorem document_visible_iff {A : Allocator} (segments : list SNAPSHOT_SEGMENT) (t : visibility_table) (i : nat)
    (id : YAP_V2_BYTES_VIEW) :
  Forall snapshot_segment_ok segments -> zlen (segment_entries 0 segments) <= 2 ^ 40 ->
  snapshot_build_visibility segments = Ok t -> (i < length segments)%nat -> id_view id ->
  exists b, YAP_V2_snapshot_document_visible t (zlen segments) (Z.of_nat i) id = Ok b /\
    (b = true <-> current_in (view_bytes id) segments i).
Proof.
  intros Hok Hl E Hi Hid. pose proof (build_visibility_spec segments Hok Hl) as H. rewrite E in H.
  pose proof Hid as (_&Hd&Hn). unfold YAP_V2_snapshot_document_visible.
  rewrite (proj2 (Z.leb_gt _ _)), bool_decide_false, (proj2 (Z.eqb_neq _ _)), H, outcome_bind_ok
    by (done || (unfold zlen; lia)).
  cbn [orb]. eexists. split; [done|]. rewrite <- (last_writer_current _ _ 0 i).
  destruct (last_writer _ _) as [e|]; [|split; [done|by intros (?&?&_)]].
  rewrite andb_true_iff, bool_decide_eq_true, Z.eqb_eq. split.
  - intros [? ?]. exists e. split_and!; [done|done|lia].
  - intros (e'&[= <-]&?&?). split; [done|lia].
Qed.

Lemma document_visible_iff_witness :
  match snapshot_build_visibility (A:=alloc_total) demo_segments with
  | Ok t => exists b, YAP_V2_snapshot_document_visible t 2 0 (mk_view [97]) = Ok b /\
      (b = true <-> current_in [97] demo_segments 0)
  | _ => False
  end.
Proof.
  destruct (snapshot_build_visibility (A:=alloc_total) demo_segments) as [t|e|] eqn:E;
    [|exfalso; vm_compute in E; discriminate ..].
  apply (document_visible_iff (A:=alloc_total) demo_segments t 0 (mk_view [97]));
    [apply demo_segments_ok|vm_compute; discriminate|exact E|cbn; lia|apply demo_id_view; lia].
Defined.
