(* ===== verification/CString.v ===== *)
(** C strings in arrays, and the text that [snprintf] renders: [strlen], [strcmp], decimal
    numbers, and the uniqueness of line-oriented text. *)
From Stdlib Require Import String Ascii.
From S2P Require Import Prelude Words Types Manifest Segment.

#[local] Open Scope Z_scope.

(** The bytes of a string literal. *)
Definition text (s : string) : bytes := (fun a => Z.of_N (N_of_ascii a)) <$> list_ascii_of_string s.
Definition NEWLINE : Z := 10.

(** ** Library functions on arrays *)

(** [strlen] from position [i] on; it reads up to the terminator. *)
Fixpoint strlen_from (fuel : nat) (a : bytes) (i : Z) : result Z :=
  match fuel with
  | O => Fault
  | S fuel => c ← load a i; if c =? 0 then Ok i else strlen_from fuel a (i + 1)
  end.
Definition strlen (a : bytes) : result Z := strlen_from (S (length a)) a 0.

(** [strcmp] from position [i] on, as the difference of the first bytes that differ. *)
Fixpoint strcmp_from (fuel : nat) (a b : bytes) (i : Z) : result Z :=
  match fuel with
  | O => Fault
  | S fuel =>
      x ← load a i; y ← load b i;
      if (x =? y) && negb (x =? 0) then strcmp_from fuel a b (i + 1) else Ok (x - y)
  end.
Definition strcmp (a b : bytes) : result Z := strcmp_from (S (length a)) a b 0.

(** What ["%s"] prints for the string in an array. *)
Definition c_text (a : bytes) : result bytes := n ← strlen a; load_bytes a 0 n.

(** What ["%u"] and ["%zu"] print. *)
Fixpoint decimal_digits (fuel : nat) (n : Z) : bytes :=
  match fuel with
  | O => []
  | S fuel => (if n <? 10 then [] else decimal_digits fuel (n / 10)) ++ [48 + n mod 10]
  end.
Definition decimal (n : Z) : bytes := decimal_digits 20 n.

(** A digit of ["%x"]. *)
Definition hex_digit (n : Z) : Z := if n <? 10 then 48 + n else 97 + (n - 10).

(** One [snprintf] behind [used] bytes of a buffer of [capacity] bytes. *)
Definition print_into (capacity : Z) (used piece : bytes) : result bytes :=
  if capacity - zlen used <=? zlen piece then Err YAP_V2_OUT_OF_RANGE else Ok (used ++ piece).

(** ** Strings held by arrays *)
Definition holds_string (a s : bytes) : Prop := exists tail, a = s ++ 0 :: tail /\ c_string s.

Lemma holds_c_str a : 0 ∈ a -> holds_string a (c_str a).
Proof.
  induction a as [|c a IH]; [by intros ?%not_elem_of_nil|]. intros H. cbn [c_str].
  destruct (Z.eqb_spec c 0) as [->|N]; [by exists a; split; [|apply not_elem_of_nil]|].
  apply elem_of_cons in H as [E|H]; [congruence|]. destruct (IH H) as (t&E&Hs). exists t. split; [by rewrite E at 1|].
  unfold c_string in *. rewrite not_elem_of_cons. split; [congruence|done].
Qed.

Lemma c_str_holds a s : holds_string a s -> c_str a = s.
Proof.
  intros (t&->&Hs). unfold c_string in Hs. induction s as [|c s IH]; [done|].
  apply not_elem_of_cons in Hs as [Hc Hs]. cbn [c_str app]. rewrite (proj2 (Z.eqb_neq _ _)) by congruence. by rewrite IH.
Qed.

Lemma load_at (a : bytes) (i : nat) c : a !! i = Some c -> load (E := YAP_V2_STATUS) a (Z.of_nat i) = Ok c.
Proof.
  intros H. unfold load. pose proof (lookup_lt_Some _ _ _ H).
  rewrite (proj2 (in_range_true _ _ _)) by (unfold zlen; lia). by rewrite Nat2Z.id, (list_lookup_total_correct _ _ _ H).
Qed.

Lemma holds_lookup a s (i : nat) c : holds_string a s -> s !! i = Some c -> a !! i = Some c /\ c <> 0.
Proof.
  intros (t&->&Hs) H. split; [by apply lookup_app_l_Some|]. intros ->. by apply Hs, (list_elem_of_lookup_2 _ i).
Qed.

Lemma holds_end a s : holds_string a s -> a !! length s = Some 0.
Proof. intros (t&->&_). by apply list_lookup_middle. Qed.

Lemma strlen_from_spec a s : holds_string a s -> forall fuel (i : nat), (i <= length s)%nat -> (length s - i < fuel)%nat ->
  strlen_from fuel a (Z.of_nat i) = Ok (zlen s).
Proof.
  intros H. induction fuel as [|fuel IH]; intros i Hi Hf; [lia|]. cbn [strlen_from].
  destruct (decide (i = length s)) as [->|N].
  - rewrite (load_at _ _ _ (holds_end _ _ H)). by rewrite outcome_bind_ok.
  - destruct (lookup_lt_is_Some_2 s i) as [c Hc]; [lia|]. destruct (holds_lookup _ _ _ _ H Hc) as [Ha Hn].
    rewrite (load_at _ _ _ Ha), outcome_bind_ok, (proj2 (Z.eqb_neq _ _)) by done.
    replace (Z.of_nat i + 1) with (Z.of_nat (S i)) by lia. apply IH; lia.
Qed.

Lemma holds_length a s : holds_string a s -> (length s < length a)%nat.
Proof. intros (t&->&_). rewrite length_app. cbn. lia. Qed.

Lemma strlen_spec a s : holds_string a s -> strlen a = Ok (zlen s).
Proof. intros H. pose proof (holds_length _ _ H). apply (strlen_from_spec a s H _ 0); lia. Qed.

Lemma c_text_spec a s : holds_string a s -> c_text a = Ok s.
Proof.
  intros H. unfold c_text. rewrite (strlen_spec _ _ H), outcome_bind_ok. destruct H as (t&->&_).
  by rewrite load_bytes_app0.
Qed.

Lemma load_mid (pre t : bytes) c : load (E := YAP_V2_STATUS) (pre ++ c :: t) (zlen pre) = Ok c.
Proof. apply load_at. by apply list_lookup_middle. Qed.

(** The order of [strcmp] on strings. *)
Fixpoint str_lt (a b : bytes) : bool :=
  match a, b with
  | _, [] => false
  | [], _ => true
  | x :: a, y :: b => (x <? y) || ((x =? y) && str_lt a b)
  end.

Lemma strcmp_from_spec s : forall s' (pre : bytes) t t' fuel, c_string s -> c_string s' -> bytes_ok s -> bytes_ok s' ->
  (length s < fuel)%nat ->
  exists d, strcmp_from fuel (pre ++ s ++ 0 :: t) (pre ++ s' ++ 0 :: t') (zlen pre) = Ok d /\ (d < 0 <-> str_lt s s' = true).
Proof.
  unfold c_string. induction s as [|x s IH]; intros s' pre t t' fuel Hs Hs' Hb Hb' Hf; (destruct fuel as [|fuel]; [lia|]);
    cbn [strcmp_from app].
  - rewrite load_mid, outcome_bind_ok.
    destruct s' as [|y s']; cbn [app str_lt].
    + rewrite load_mid, outcome_bind_ok. exists 0. split; [done|]. split; [lia|done].
    + rewrite load_mid, outcome_bind_ok.
      apply not_elem_of_cons in Hs' as [Hy _]. rewrite (proj2 (Z.eqb_neq _ _)) by done. exists (0 - y). split; [done|].
      apply Forall_cons in Hb' as [Hy' _]. unfold byte_ok in Hy'. split; [done|lia].
  - apply not_elem_of_cons in Hs as [Hx Hs]. apply Forall_cons in Hb as [Hx' Hb]. unfold byte_ok in Hx'.
    rewrite load_mid, outcome_bind_ok.
    destruct s' as [|y s']; cbn [app str_lt].
    + rewrite load_mid, outcome_bind_ok.
      rewrite (proj2 (Z.eqb_neq _ _)) by done. exists (x - 0). split; [done|]. split; [lia|done].
    + apply not_elem_of_cons in Hs' as [Hy Hs']. apply Forall_cons in Hb' as [Hy' Hb']. unfold byte_ok in Hy'.
      rewrite load_mid, outcome_bind_ok.
      destruct (Z.eqb_spec x y) as [->|N]; cbn [andb].
      * rewrite (proj2 (Z.eqb_neq y 0)) by done. cbn [negb].
        destruct (IH s' (pre ++ [y]) t t' fuel) as (d&E&Hd); [done..|cbn in Hf; lia|]. exists d.
        rewrite <- !(assoc_L (++)), zlen_app in E. cbn [app] in E. change (zlen [y]) with 1 in E. split; [exact E|].
        rewrite Hd, Z.ltb_irrefl. done.
      * exists (x - y). split; [done|]. rewrite orb_false_r, Z.ltb_lt. lia.
Qed.

Lemma strcmp_spec a b s s' : holds_string a s -> holds_string b s' -> bytes_ok a -> bytes_ok b ->
  exists d, strcmp a b = Ok d /\ (d < 0 <-> str_lt s s' = true).
Proof.
  intros H H' Hb Hb'. pose proof (holds_length _ _ H). destruct H as (t&->&Hs), H' as (t'&->&Hs').
  apply Forall_app in Hb as [Hb _]. apply Forall_app in Hb' as [Hb' _].
  apply (strcmp_from_spec s s' [] t t'); [done..|lia].
Qed.

(** ** Decimal numbers are unique *)
Definition of_decimal (l : bytes) : Z := foldl (fun acc c => 10 * acc + (c - 48)) 0 l.

Lemma decimal_digits_value fuel n : 0 <= n < 10 ^ Z.of_nat fuel -> (0 < fuel)%nat -> of_decimal (decimal_digits fuel n) = n.
Proof.
  revert n. induction fuel as [|fuel IH]; intros n Hn Hf; [lia|]. cbn [decimal_digits]. unfold of_decimal in *.
  rewrite foldl_app. cbn [foldl]. pose proof (Z.div_mod n 10 ltac:(lia)).
  destruct (Z.ltb_spec n 10); [rewrite Z.mod_small by lia; cbn; lia|].
  rewrite Nat2Z.inj_succ, Z.pow_succ_r in Hn by lia.
  rewrite IH; [lia| |].
  - split; [apply Z.div_pos; lia|]. apply Z.div_lt_upper_bound; lia.
  - destruct fuel; [|lia]. cbn in Hn. lia.
Qed.

Lemma decimal_inj n m : 0 <= n < 2 ^ 64 -> 0 <= m < 2 ^ 64 -> decimal n = decimal m -> n = m.
Proof.
  intros Hn Hm E. rewrite <- (decimal_digits_value 20 n), <- (decimal_digits_value 20 m) by (cbn; lia).
  unfold decimal in E. by rewrite E.
Qed.

Lemma decimal_digits_range fuel n c : c ∈ decimal_digits fuel n -> 48 <= c <= 57.
Proof.
  revert n. induction fuel as [|fuel IH]; intros n; cbn [decimal_digits]; [by intros ?%not_elem_of_nil|].
  intros [H|H%list_elem_of_singleton]%elem_of_app.
  - destruct (n <? 10); [by apply not_elem_of_nil in H|by eapply IH].
  - pose proof (Z.mod_pos_bound n 10). lia.
Qed.

Lemma decimal_digits_length fuel n : (length (decimal_digits fuel n) <= fuel)%nat.
Proof. revert n. induction fuel as [|fuel IH]; intros n; cbn [decimal_digits]; [done|].
  rewrite length_app. cbn. destruct (n <? 10); cbn; [lia|]. specialize (IH (n / 10)). lia. Qed.

Lemma decimal_no_newline n : NEWLINE ∉ decimal n.
Proof. intros H%decimal_digits_range. unfold NEWLINE in H. lia. Qed.
Lemma decimal_length n : zlen (decimal n) <= 20.
Proof. pose proof (decimal_digits_length 20 n). unfold zlen, decimal. lia. Qed.

(** ** Lines are unique *)
Lemma split_inj (c : Z) (x y r r' : bytes) : c ∉ x -> c ∉ y -> x ++ c :: r = y ++ c :: r' -> x = y /\ r = r'.
Proof.
  revert y. induction x as [|d x IH]; intros [|e y] Hx Hy E; cbn [app] in E; simplify_list_eq; try done.
  - by destruct Hy; left.
  - by destruct Hx; left.
  - rewrite not_elem_of_cons in Hx, Hy. destruct (IH y (proj2 Hx) (proj2 Hy)) as [-> ->]; done.
Qed.

Lemma line_inj (x y r r' : bytes) : NEWLINE ∉ x -> NEWLINE ∉ y -> x ++ NEWLINE :: r = y ++ NEWLINE :: r' -> x = y /\ r = r'.
Proof. apply split_inj. Qed.
