(* ===== verification/Config.v ===== *)
(** The index configuration (src/src/config/yappo_config_v2.c): validation, the second
    SHA-256 of the code base, and the fingerprint that ties a manifest to a configuration.

    Strings are fixed arrays that end at the first NUL, as in the struct.  Reading and writing
    the configuration as TOML is not modelled: the parser is a library. *)
From Stdlib Require Import String.
From S2P Require Import Prelude Words Types Sha256 Manifest SlotTable Segment CString.

#[local] Open Scope string_scope.
#[local] Open Scope list_scope.
#[local] Open Scope Z_scope.

Definition YAP_V2_MAX_MODEL_ID_BYTES : Z := 255.
Definition YAP_V2_MAX_VECTOR_DIMENSIONS : Z := 65536.
Definition YAP_V2_MAX_FILTER_FIELDS : Z := 64.
Definition YAP_V2_MAX_FILTER_FIELD_BYTES : Z := 127.

Definition YAP_V2_VECTOR_DISABLED : Z := 0.
Definition YAP_V2_VECTOR_COSINE : Z := 1.
Definition YAP_V2_VECTOR_DOT : Z := 2.
Definition YAP_V2_VECTOR_L2 : Z := 3.

Record YAP_V2_CONFIG := Config {
  config_version : Z;
  tokenizer_id : bytes;
  chunk_max_chars : Z;
  chunk_overlap_chars : Z;
  vector_model_id : bytes;
  vector_dimensions : Z;
  vector_metric : Z;
  filterable_fields : list bytes;
  filterable_field_count : Z }.

(** ** Validation *)

(** [while (len <= max_bytes && value[len] != '\0') len++]. *)
Fixpoint scan_string (fuel : nat) (value : bytes) (max_bytes len : Z) : result Z :=
  if len <=? max_bytes then
    c ← load value len;
    if c =? 0 then Ok len
    else match fuel with O => Fault | S fuel => scan_string fuel value max_bytes (len + 1) end
  else Ok len.

Definition string_validate (value : bytes) (max_bytes : Z) (required : bool) : result unit :=
  len ← scan_string (Z.to_nat (max_bytes + 1)) value max_bytes 0;
  if max_bytes <? len then Err YAP_V2_INVALID_FORMAT
  else if required && (len =? 0) then Err YAP_V2_INVALID_FORMAT else Ok tt.

Definition FULL_STOP : Z := 46.

(** The characters of a field name from position [j] on. *)
Fixpoint field_chars (fuel : nat) (field : bytes) (j : Z) : result unit :=
  c ← load field j;
  if c =? 0 then Ok tt
  else
  match fuel with
  | O => Fault
  | S fuel =>
      empty_part ← (if c =? FULL_STOP then
                      if j =? 0 then Ok true else p ← load field (j - 1); Ok (p =? FULL_STOP)
                    else Ok false);
      if (empty_part : bool) then Err YAP_V2_INVALID_FORMAT
      else if (c <? 32) || (c =? 47) || (c =? 92) then Err YAP_V2_INVALID_FORMAT
      else field_chars fuel field (j + 1)
  end.

Definition field_validate (field : bytes) : result unit :=
  _ ← string_validate field YAP_V2_MAX_FILTER_FIELD_BYTES true;
  first ← load field 0;
  len ← strlen field;
  final ← load field (len - 1);
  if (first =? FULL_STOP) || (final =? FULL_STOP) then Err YAP_V2_INVALID_FORMAT
  else field_chars (length field) field 0.

(** The fields from index [i] on, [count] of them. *)
Fixpoint fields_validate (count : nat) (fields : list bytes) (i : Z) : result unit :=
  match count with
  | O => Ok tt
  | S count =>
      field ← elem_at fields i;
      _ ← field_validate field;
      unsorted ← (if 0 <? i then previous ← elem_at fields (i - 1); d ← strcmp previous field; Ok (0 <=? d)
                  else Ok false);
      if (unsorted : bool) then Err YAP_V2_INVALID_FORMAT else fields_validate count fields (i + 1)
  end.

Definition YAP_V2_config_validate (config : option YAP_V2_CONFIG) : result unit :=
  match config with
  | None => Err YAP_V2_INVALID_ARGUMENT
  | Some c =>
      if negb (config_version c =? YAP_V2_FORMAT_VERSION) then Err YAP_V2_INVALID_FORMAT
      else
      _ ← string_validate (tokenizer_id c) YAP_V2_MAX_IDENTIFIER_BYTES true;
      if (chunk_max_chars c =? 0) || (YAP_V2_MAX_CHUNK_CHARS <? chunk_max_chars c) ||
         (chunk_max_chars c <=? chunk_overlap_chars c) then Err YAP_V2_OUT_OF_RANGE
      else
      _ ← string_validate (vector_model_id c) YAP_V2_MAX_MODEL_ID_BYTES (negb (vector_metric c =? YAP_V2_VECTOR_DISABLED));
      _ ← (if vector_metric c =? YAP_V2_VECTOR_DISABLED then
             nonempty ← (if negb (vector_dimensions c =? 0) then Ok true
                         else first ← load (vector_model_id c) 0; Ok (negb (first =? 0)));
             if (nonempty : bool) then Err YAP_V2_INVALID_FORMAT else Ok tt
           else if (vector_dimensions c =? 0) || (YAP_V2_MAX_VECTOR_DIMENSIONS <? vector_dimensions c) ||
                   (vector_metric c <? YAP_V2_VECTOR_COSINE) || (YAP_V2_VECTOR_L2 <? vector_metric c)
           then Err YAP_V2_OUT_OF_RANGE else Ok tt);
      if YAP_V2_MAX_FILTER_FIELDS <? filterable_field_count c then Err YAP_V2_OUT_OF_RANGE
      else fields_validate (Z.to_nat (filterable_field_count c)) (filterable_fields c) 0
  end.

(** [memset] to zero, then the defaults. *)
Definition zero_string (n : Z) : bytes := replicate (Z.to_nat n) 0.
Definition YAP_V2_config_init : YAP_V2_CONFIG :=
  let id := text "unicode_nfkc_casefold_v2" in
  Config YAP_V2_FORMAT_VERSION (id ++ zero_string (256 - zlen id)) 1200 200 (zero_string 256) 0 YAP_V2_VECTOR_DISABLED
    (replicate 64 (zero_string 128)) 0.

(** ** The second SHA-256

    The context has the fields of [YAP_V2_SHA256]. *)
Definition SHA256_CTX : Type := YAP_V2_SHA256.

Definition rotate_right (value count : Z) : Z := Z.lor (Z.shiftr value count) (u32 (Z.shiftl value (32 - count))).

Definition sha_schedule (blk : bytes) : list Z :=
  foldl (fun w i =>
      let s0 := Z.lxor (Z.lxor (rotate_right (w !!! (i - 15)%nat) 7) (rotate_right (w !!! (i - 15)%nat) 18))
                  (Z.shiftr (w !!! (i - 15)%nat) 3) in
      let s1 := Z.lxor (Z.lxor (rotate_right (w !!! (i - 2)%nat) 17) (rotate_right (w !!! (i - 2)%nat) 19))
                  (Z.shiftr (w !!! (i - 2)%nat) 10) in
      w ++ [u32 (w !!! (i - 16)%nat + s0 + w !!! (i - 7)%nat + s1)])
    ((fun i : nat => Z.lor (Z.lor (Z.lor (u32 (Z.shiftl (blk !!! (i * 4)%nat) 24)) (u32 (Z.shiftl (blk !!! (i * 4 + 1)%nat) 16)))
                       (u32 (Z.shiftl (blk !!! (i * 4 + 2)%nat) 8))) (blk !!! (i * 4 + 3)%nat)) <$> seq 0 16)
    (seq 16 48).

Definition sha_round (w v : list Z) (i : nat) : list Z :=
  match v with
  | [a; b; c; d; e; f; g; h] =>
      let s1 := Z.lxor (Z.lxor (rotate_right e 6) (rotate_right e 11)) (rotate_right e 25) in
      let ch := Z.lxor (Z.land e f) (Z.land (u32 (Z.lnot e)) g) in
      let t1 := u32 (h + s1 + ch + sha256_constants !!! i + w !!! i) in
      let s0 := Z.lxor (Z.lxor (rotate_right a 2) (rotate_right a 13)) (rotate_right a 22) in
      let maj := Z.lxor (Z.lxor (Z.land a b) (Z.land a c)) (Z.land b c) in
      let t2 := u32 (s0 + maj) in
      [u32 (t1 + t2); a; b; c; u32 (d + t1); e; f; g]
  | _ => v
  end.

Definition sha_transform (state : list Z) (blk : bytes) : list Z :=
  zip_with (fun s v => u32 (s + v)) state (foldl (sha_round (sha_schedule blk)) state (seq 0 64)).

Definition sha_init : SHA256_CTX := Sha256Ctx sha256_initial_state 0 (replicate 64 0) 0.

Fixpoint sha_update_loop (fuel : nat) (ctx : SHA256_CTX) (data : bytes) : result SHA256_CTX :=
  match data with
  | [] => Ok ctx
  | _ =>
      match fuel with
      | O => Fault
      | S fuel =>
          let taken := u64 (64 - block_length ctx) in
          let taken := if zlen data <? taken then zlen data else taken in
          blk ← store_bytes (block ctx) (block_length ctx) (slice data 0 taken);
          let size := block_length ctx + taken in
          let rest := drop (Z.to_nat taken) data in
          if size =? 64 then sha_update_loop fuel (Sha256Ctx (sha_transform (sha_state ctx) blk) (bit_length ctx) blk 0) rest
          else sha_update_loop fuel (Sha256Ctx (sha_state ctx) (bit_length ctx) blk size) rest
      end
  end.

(** The bit count is advanced once, before the loop. *)
Definition sha_update (ctx : SHA256_CTX) (data : bytes) : result SHA256_CTX :=
  sha_update_loop (length data)
    (Sha256Ctx (sha_state ctx) (u64 (bit_length ctx + u64 (zlen data * 8))) (block ctx) (block_length ctx)) data.

(** [for (i = 0; i < 8; i++) block[63 - i] = bits >> (i * 8)]. *)
Definition length_bytes (bits : Z) : bytes := reverse ((fun i => u8 (Z.shiftr bits (i * 8))) <$> seqZ 0 8).

Definition sha_final (ctx : SHA256_CTX) : result bytes :=
  blk ← store_bytes (block ctx) (block_length ctx) [0x80];
  let size := block_length ctx + 1 in
  '(state, blk, size) ←
    (if 56 <? size then
       blk ← store_bytes blk size (replicate (Z.to_nat (64 - size)) 0);
       Ok (sha_transform (sha_state ctx) blk, blk, 0)
     else Ok (sha_state ctx, blk, size));
  blk ← store_bytes blk size (replicate (Z.to_nat (56 - size)) 0);
  blk ← store_bytes blk 56 (length_bytes (bit_length ctx));
  Ok (digest_bytes (sha_transform state blk)).

(** [None]: the routine returns without writing the digest. *)
Definition YAP_V2_sha256_bytes (data : option bytes) (length_ : Z) : result (option bytes) :=
  match data with
  | None => if negb (length_ =? 0) then Ok None else digest ← sha_final sha_init; Ok (Some digest)
  | Some d =>
      input ← load_bytes d 0 length_;
      ctx ← (if negb (length_ =? 0) then sha_update sha_init input else Ok sha_init);
      digest ← sha_final ctx; Ok (Some digest)
  end.

(** ** The fingerprint *)
Definition CANONICAL_BYTES : Z := 32768.

Definition metric_name (metric : Z) : bytes :=
  if metric =? YAP_V2_VECTOR_DISABLED then text "disabled"
  else if metric =? YAP_V2_VECTOR_COSINE then text "cosine"
  else if metric =? YAP_V2_VECTOR_DOT then text "dot" else text "l2".

Fixpoint print_fields (count : nat) (fields : list bytes) (i : Z) (canonical : bytes) : result bytes :=
  match count with
  | O => Ok canonical
  | S count =>
      field ← elem_at fields i;
      name ← c_text field;
      canonical ← print_into CANONICAL_BYTES canonical
        (text "metadata.filterable_fields[" ++ decimal i ++ text "]=" ++ name ++ [NEWLINE]);
      print_fields count fields (i + 1) canonical
  end.

Definition YAP_V2_config_fingerprint (config : option YAP_V2_CONFIG) : result bytes :=
  match config with
  | None => Err YAP_V2_INVALID_ARGUMENT
  | Some c =>
      match YAP_V2_config_validate (Some c) with
      | Err _ => Err YAP_V2_INVALID_FORMAT
      | Fault => Fault
      | Ok _ =>
          id ← c_text (tokenizer_id c);
          model ← c_text (vector_model_id c);
          canonical ← print_into CANONICAL_BYTES []
            (text "format_version=" ++ decimal (config_version c) ++ NEWLINE ::
             text "tokenizer.id=" ++ id ++ NEWLINE ::
             text "chunking.max_chars=" ++ decimal (chunk_max_chars c) ++ NEWLINE ::
             text "chunking.overlap_chars=" ++ decimal (chunk_overlap_chars c) ++ NEWLINE ::
             text "vector.model_id=" ++ model ++ NEWLINE ::
             text "vector.dimensions=" ++ decimal (vector_dimensions c) ++ NEWLINE ::
             text "vector.metric=" ++ metric_name (vector_metric c) ++ [NEWLINE]);
          canonical ← print_fields (Z.to_nat (filterable_field_count c)) (filterable_fields c) 0 canonical;
          ctx ← sha_update sha_init canonical;
          sha_final ctx
      end
  end.

(** The 64 characters; the terminator follows. *)
Definition YAP_V2_config_fingerprint_hex (fingerprint : bytes) : bytes :=
  (fingerprint ≫= fun b => [hex_digit (Z.shiftr b 4); hex_digit (Z.land b 15)]) ++ [0].

(** ** Specification *)

(** What the type of the struct guarantees. *)
Definition string_array (n : Z) (a : bytes) : Prop := zlen a = n /\ bytes_ok a.
Record config_wf (c : YAP_V2_CONFIG) : Prop := {
  wf_tokenizer : string_array 256 (tokenizer_id c);
  wf_model : string_array 256 (vector_model_id c);
  wf_fields : zlen (filterable_fields c) = 64 /\ Forall (string_array 128) (filterable_fields c);
  wf_numbers : is_u32 (config_version c) /\ is_u32 (chunk_max_chars c) /\ is_u32 (chunk_overlap_chars c) /\
    is_u32 (vector_dimensions c) /\ is_u32 (vector_metric c) /\ is_u64 (filterable_field_count c) }.

(** A dotted path of non-empty parts without control characters and slashes. *)
Definition name_char (c : Z) : Prop := 32 <= c /\ c <> 47 /\ c <> 92.
Definition field_name (s : bytes) : Prop :=
  s <> [] /\ Forall name_char s /\ head s <> Some FULL_STOP /\ last s <> Some FULL_STOP /\
  forall i, s !! i = Some FULL_STOP -> s !! S i <> Some FULL_STOP.

Definition field_names (c : YAP_V2_CONFIG) : list bytes :=
  c_str <$> take (Z.to_nat (filterable_field_count c)) (filterable_fields c).

Definition increasing (l : list bytes) : Prop :=
  forall i a b, l !! i = Some a -> l !! S i = Some b -> str_lt a b = true.

Definition config_valid (c : YAP_V2_CONFIG) : Prop :=
  config_version c = YAP_V2_FORMAT_VERSION /\
  (0 ∈ tokenizer_id c /\ c_str (tokenizer_id c) <> []) /\
  (0 < chunk_max_chars c <= YAP_V2_MAX_CHUNK_CHARS /\ chunk_overlap_chars c < chunk_max_chars c) /\
  0 ∈ vector_model_id c /\
  (vector_metric c = YAP_V2_VECTOR_DISABLED /\ vector_dimensions c = 0 /\ c_str (vector_model_id c) = [] \/
   YAP_V2_VECTOR_COSINE <= vector_metric c <= YAP_V2_VECTOR_L2 /\
   0 < vector_dimensions c <= YAP_V2_MAX_VECTOR_DIMENSIONS /\ c_str (vector_model_id c) <> []) /\
  filterable_field_count c <= YAP_V2_MAX_FILTER_FIELDS /\
  Forall (fun f => 0 ∈ f) (take (Z.to_nat (filterable_field_count c)) (filterable_fields c)) /\
  Forall field_name (field_names c) /\ increasing (field_names c).

(** ** Validation decides the specification *)
Lemma scan_string_found a s max fuel : holds_string a s -> zlen s <= max -> forall i : nat, (i <= length s)%nat ->
  (length s - i <= fuel)%nat -> scan_string fuel a max (Z.of_nat i) = Ok (zlen s).
Proof.
  intros H Hm. induction fuel as [|fuel IH]; intros i Hi Hf; cbn [scan_string]; unfold zlen in Hm;
    rewrite (proj2 (Z.leb_le _ _)) by lia.
  - assert (i = length s) as -> by lia. by rewrite (load_at _ _ _ (holds_end _ _ H)), outcome_bind_ok.
  - destruct (decide (i = length s)) as [->|N].
    + by rewrite (load_at _ _ _ (holds_end _ _ H)), outcome_bind_ok.
    + destruct (lookup_lt_is_Some_2 s i) as [c Hc]; [lia|]. destruct (holds_lookup _ _ _ _ H Hc) as [Ha Hn].
      rewrite (load_at _ _ _ Ha), outcome_bind_ok, (proj2 (Z.eqb_neq _ _)) by done.
      replace (Z.of_nat i + 1) with (Z.of_nat (S i)) by lia. apply IH; lia.
Qed.

Lemma scan_string_full a max fuel : 0 ∉ a -> zlen a = max + 1 -> forall i : nat, (i <= length a)%nat ->
  (length a - i <= fuel)%nat -> scan_string fuel a max (Z.of_nat i) = Ok (max + 1).
Proof.
  intros H Hm. unfold zlen in Hm. induction fuel as [|fuel IH]; intros i Hi Hf; cbn [scan_string].
  - rewrite (proj2 (Z.leb_gt _ _)) by lia. f_equal. lia.
  - destruct (Z.leb_spec (Z.of_nat i) max) as [Hle|Hgt]; [|f_equal; lia].
    destruct (lookup_lt_is_Some_2 a i) as [c Hc]; [lia|].
    rewrite (load_at _ _ _ Hc), outcome_bind_ok, (proj2 (Z.eqb_neq _ _)).
    + replace (Z.of_nat i + 1) with (Z.of_nat (S i)) by lia. apply IH; lia.
    + intros ->. by apply H, (list_elem_of_lookup_2 _ i).
Qed.

Lemma string_validate_spec a max required : zlen a = max + 1 ->
  string_validate a max required =
    if bool_decide (0 ∈ a) && negb (required && bool_decide (c_str a = [])) then Ok tt else Err YAP_V2_INVALID_FORMAT.
Proof.
  intros Hm. unfold string_validate. pose proof (zlen_nonneg a) as Hnn. destruct (bool_decide_reflect (0 ∈ a)) as [H|H]; cbn [andb].
  - apply holds_c_str in H as H'. pose proof (holds_length _ _ H'). unfold zlen in *.
    rewrite (scan_string_found a (c_str a) max _ H' ltac:(unfold zlen; lia) 0), outcome_bind_ok by lia.
    rewrite (proj2 (Z.ltb_ge _ _)) by (unfold zlen; lia).
    destruct (c_str a); cbn; by destruct required.
  - rewrite (scan_string_full a max _ H Hm 0), outcome_bind_ok by (unfold zlen in Hm; lia).
    by rewrite (proj2 (Z.ltb_lt _ _)) by lia.
Qed.

(** What the loop over a name accepts behind [prev]. *)
Fixpoint chars_ok (prev : option Z) (s : bytes) : bool :=
  match s with
  | [] => true
  | c :: s =>
      negb ((c =? FULL_STOP) && (bool_decide (prev = None) || bool_decide (prev = Some FULL_STOP))) &&
      negb ((c <? 32) || (c =? 47) || (c =? 92)) && chars_ok (Some c) s
  end.

Lemma field_chars_spec s : forall pre t fuel, c_string s -> (length s <= fuel)%nat ->
  field_chars fuel (pre ++ s ++ 0 :: t) (zlen pre) = if chars_ok (last pre) s then Ok tt else Err YAP_V2_INVALID_FORMAT.
Proof.
  unfold c_string. induction s as [|c s IH]; intros pre t fuel Hs Hf; cbn [app chars_ok].
  - destruct fuel; cbn [field_chars]; by rewrite load_mid, outcome_bind_ok.
  - destruct fuel as [|fuel]; [cbn in Hf; lia|]. cbn [field_chars]. rewrite load_mid, outcome_bind_ok.
    apply not_elem_of_cons in Hs as [Hc Hs]. rewrite (proj2 (Z.eqb_neq c 0)) by congruence.
    assert ((if c =? FULL_STOP
             then if zlen pre =? 0 then Ok true else p ← load (pre ++ c :: s ++ 0 :: t) (zlen pre - 1); Ok (p =? FULL_STOP)
             else Ok false) =
            (Ok ((c =? FULL_STOP) && (bool_decide (last pre = None) || bool_decide (last pre = Some FULL_STOP))) : result bool)) as ->.
    { destruct (c =? FULL_STOP); [|done]. destruct pre as [|p pre _] using rev_ind; [done|].
      rewrite last_snoc, zlen_app. change (zlen [p]) with 1. pose proof (zlen_nonneg pre).
      rewrite (proj2 (Z.eqb_neq _ _)) by lia. replace (zlen pre + 1 - 1) with (zlen pre) by lia.
      rewrite <- (assoc_L (++)). cbn [app]. rewrite load_mid, outcome_bind_ok. cbn [orb andb].
      rewrite bool_decide_false by done. cbn. f_equal. destruct (Z.eqb_spec p FULL_STOP) as [->|N];
        [by rewrite bool_decide_true|rewrite bool_decide_false; congruence]. }
    rewrite outcome_bind_ok. destruct (_ && (_ || _)); cbn [negb andb]; [done|].
    destruct ((c <? 32) || _ || _); cbn [negb andb]; [done|].
    specialize (IH (pre ++ [c]) t fuel Hs ltac:(cbn in Hf; lia)). rewrite last_snoc in IH.
    rewrite <- IH, <- (assoc_L (++)), zlen_app. done.
Qed.

Lemma chars_ok_spec s : forall prev, chars_ok prev s = true <->
  Forall name_char s /\ (head s = Some FULL_STOP -> prev <> None /\ prev <> Some FULL_STOP) /\
  (forall i, s !! i = Some FULL_STOP -> s !! S i <> Some FULL_STOP).
Proof.
  induction s as [|c s IH]; intros prev; cbn [chars_ok].
  - split; [|done]. intros _. split_and!; [constructor|done|done].
  - rewrite !andb_true_iff, !negb_true_iff, andb_false_iff, orb_false_iff, !orb_false_iff, Z.ltb_ge, !Z.eqb_neq,
      !bool_decide_eq_false, IH, Forall_cons. cbn [head]. split.
    + intros [[Hd [[? ?] ?]] (HF&Hh&Hi)]. split_and!; [done|done|..|].
      * intros [= ->]. destruct Hd as [Hd|[? ?]]; done.
      * intros [|i] Hl; cbn in Hl |- *; [|by apply Hi]. injection Hl as ->. intros Hs. destruct s; [done|]. by apply Hh in Hs as [_ ?].
    + intros ([(?&?&?) HF]&Hh&Hi). split_and!; [|done..| |].
      * destruct (decide (c = FULL_STOP)) as [->|]; [right; by apply Hh|by left].
      * intros Hs. split; [done|]. intros [= ->]. apply (Hi 0%nat eq_refl). by destruct s.
      * intros i. apply (Hi (S i)).
Qed.

Lemma last_load a s : holds_string a s -> s <> [] -> load (E := YAP_V2_STATUS) a (zlen s - 1) = Ok (default 0 (last s)).
Proof.
  intros (t&->&_) Hs. destruct s as [|c s _] using rev_ind; [done|]. rewrite last_snoc, zlen_app, <- (assoc_L (++)). cbn.
  change (zlen [c]) with 1. replace (zlen s + 1 - 1) with (zlen s) by lia. apply load_mid.
Qed.

Lemma field_validate_spec f : string_array 128 f ->
  (field_validate f = Ok tt <-> 0 ∈ f /\ field_name (c_str f)) /\ field_validate f <> Fault.
Proof.
  intros [Hz Hb]. unfold field_validate. rewrite string_validate_spec by done. rewrite andb_true_l.
  destruct (bool_decide_reflect (0 ∈ f)) as [H|H]; cbn [andb]; [|by split; [split; [|intros [? _]]|]].
  apply holds_c_str in H as HH. destruct (bool_decide_reflect (c_str f = [])) as [En|Nn]; cbn [negb].
  { split; [|done]. split; [done|]. by intros [_ [? _]]. }
  destruct (c_str f) as [|c s] eqn:Es; [done|].
  assert (load (E := YAP_V2_STATUS) f 0 = Ok c) as E0 by (destruct HH as (t&->&_); apply (load_mid [])).
  rewrite !outcome_bind_ok, E0, !outcome_bind_ok, (strlen_spec _ _ HH), !outcome_bind_ok, (last_load _ _ HH Nn), !outcome_bind_ok.
  assert (field_chars (length f) f 0 = if chars_ok None (c :: s) then Ok tt else Err YAP_V2_INVALID_FORMAT) as HF.
  { pose proof (holds_length _ _ HH). destruct HH as (t&->&Hc). apply (field_chars_spec (c :: s) []); [done|lia]. }
  destruct (last (c :: s)) as [z|] eqn:El; [|by apply last_None in El]. cbn [default from_option id].
  assert (field_name (c :: s) <-> z <> FULL_STOP /\ chars_ok None (c :: s) = true) as ->.
  { rewrite chars_ok_spec. unfold field_name. rewrite El. cbn [head]. naive_solver. }
  destruct (_ || _) eqn:T.
  - split; [|done]. split; [done|]. intros (_&Hz'&Hk). btests. destruct T; btests; [subst c; cbn in Hk; done|done].
  - btests. rewrite HF. destruct (chars_ok None (c :: s)); naive_solver.
Qed.

(** [fields_validate] from index [i] on accepts the fields it visits. *)
Definition field_at (fields : list bytes) (k : nat) : Prop :=
  exists f, fields !! k = Some f /\ 0 ∈ f /\ field_name (c_str f) /\
    forall k' p, k = S k' -> fields !! k' = Some p -> str_lt (c_str p) (c_str f) = true.

Lemma fields_validate_spec fields : Forall (string_array 128) fields -> forall count i, (i + count <= length fields)%nat ->
  (forall k' p, i = S k' -> fields !! k' = Some p -> 0 ∈ p) ->
  (fields_validate count fields (Z.of_nat i) = Ok tt <-> forall k, (i <= k < i + count)%nat -> field_at fields k) /\
  fields_validate count fields (Z.of_nat i) <> Fault.
Proof.
  intros HF. induction count as [|count IH]; intros i Hi Hp; cbn [fields_validate].
  { split; [|done]. split; [|done]. intros _ k. lia. }
  destruct (lookup_lt_is_Some_2 fields i) as [f Hf]; [lia|]. rewrite (elem_at_lookup _ _ _ Hf), outcome_bind_ok.
  pose proof (Forall_lookup_1 _ _ _ _ HF Hf) as Hsa. destruct (field_validate_spec f Hsa) as [HV HS].
  assert (forall P : Prop, (field_validate f <> Ok tt -> ~ P) -> field_validate f <> Ok tt ->
     ((field_validate f ≫= fun _ => Ok tt) = Ok tt <-> P)) as Hno.
  { intros P HP Hv. split; [|intros HP'; by destruct (HP Hv)]. by destruct (field_validate f) as [[]| |]. }
  clear Hno. destruct (field_validate f) as [[]|e|] eqn:Ev; [|split; [|done]; split; [done|]|done].
  2: { intros H. destruct (H i ltac:(lia)) as (f'&Hf'&?&?&_). rewrite Hf in Hf'. injection Hf' as <-. by destruct (proj2 HV). }
  destruct (proj1 HV eq_refl) as [H0 Hname]. rewrite outcome_bind_ok.
  assert (exists b : bool, (if 0 <? Z.of_nat i then previous ← elem_at fields (Z.of_nat i - 1); d ← strcmp previous f; Ok (0 <=? d)
      else Ok false) = (Ok b : result bool) /\ (b = false <-> forall k' p, i = S k' -> fields !! k' = Some p -> str_lt (c_str p) (c_str f) = true))
    as (b&->&Hb).
  { destruct i as [|i]; [by exists false|]. rewrite (proj2 (Z.ltb_lt _ _)) by lia.
    destruct (lookup_lt_is_Some_2 fields i) as [p Hpi]; [lia|].
    replace (Z.of_nat (S i) - 1) with (Z.of_nat i) by lia. rewrite (elem_at_lookup _ _ _ Hpi), outcome_bind_ok.
    pose proof (Forall_lookup_1 _ _ _ _ HF Hpi) as [_ Hbp]. specialize (Hp i p eq_refl Hpi).
    destruct (strcmp_spec p f (c_str p) (c_str f)) as (d&->&Hd); [by apply holds_c_str|by apply holds_c_str|done|apply Hsa|].
    exists (0 <=? d). split; [done|]. rewrite Z.leb_gt, Hd. naive_solver. }
  rewrite outcome_bind_ok. destruct b.
  - split; [|done]. split; [done|]. intros H. destruct (H i ltac:(lia)) as (f'&Hf'&_&_&Hl).
    rewrite Hf in Hf'. injection Hf' as <-. by apply Hb in Hl.
  - replace (Z.of_nat i + 1) with (Z.of_nat (S i)) by lia.
    destruct (IH (S i)) as [IH1 IH2]; [lia|intros k' p [= <-] E; rewrite Hf in E; by injection E as <-|].
    split; [|done]. rewrite IH1. split.
    + intros H k Hk. destruct (decide (k = i)) as [->|]; [|apply H; lia]. exists f. split_and!; [done..|by apply Hb].
    + intros H k Hk. apply H. lia.
Qed.

Lemma fields_spec_names c : config_wf c -> filterable_field_count c <= 64 ->
  (forall k, (0 <= k < 0 + Z.to_nat (filterable_field_count c))%nat -> field_at (filterable_fields c) k) <->
  Forall (fun f => 0 ∈ f) (take (Z.to_nat (filterable_field_count c)) (filterable_fields c)) /\
  Forall field_name (field_names c) /\ increasing (field_names c).
Proof.
  intros Hw Hc. destruct (wf_fields c Hw) as [Hl _]. unfold zlen in Hl.
  set (n := Z.to_nat (filterable_field_count c)). assert (n <= length (filterable_fields c))%nat by lia.
  unfold field_names. fold n. rewrite Forall_fmap, !Forall_lookup. unfold compose, increasing. split.
  - intros H'. split_and!.
    + intros k f [Hk Hlt]%lookup_take_Some. destruct (H' k ltac:(lia)) as (f'&E&?&_). by simplify_eq.
    + intros k f [Hk Hlt]%lookup_take_Some. destruct (H' k ltac:(lia)) as (f'&E&_&?&_). by simplify_eq.
    + intros k a b. rewrite !list_lookup_fmap. intros (p&Hp&->)%fmap_Some (f&Hf&->)%fmap_Some.
      apply lookup_take_Some in Hp as [Hp _]. apply lookup_take_Some in Hf as [Hf ?].
      destruct (H' (S k) ltac:(lia)) as (f'&E&_&_&Hlt). simplify_eq. by apply (Hlt k).
  - intros (H1&H2&H3) k Hk. destruct (lookup_lt_is_Some_2 (filterable_fields c) k) as [f Hf]; [lia|].
    assert (take n (filterable_fields c) !! k = Some f) as Ht by (apply lookup_take_Some; split; [done|lia]).
    exists f. split_and!; [done|by eapply H1|by eapply H2|]. intros k' p -> Hp.
    apply (H3 k'); rewrite list_lookup_fmap, lookup_take_lt by lia; by rewrite ?Hp, ?Hf.
Qed.

Lemma load_first a s : holds_string a s -> load (E := YAP_V2_STATUS) a 0 = Ok (default 0 (head s)).
Proof. intros (t&->&_). destruct s; apply (load_mid []). Qed.

(** A check that accepts exactly what satisfies [P] and stays in bounds. *)
Definition decides (r : result unit) (P : Prop) : Prop := (r = Ok tt <-> P) /\ r <> Fault.

Lemma decides_iff r P Q : (P <-> Q) -> decides r P -> decides r Q.
Proof. unfold decides. tauto. Qed.

Lemma decides_seq r k P Q : decides r P -> (P -> decides k Q) -> decides (r ≫= fun _ => k) (P /\ Q).
Proof.
  intros [HP HF] HQ. unfold decides. destruct r as [[]|e|]; [|split; [split; [done|]|done]|done].
  - rewrite outcome_bind_ok. destruct (HQ (proj1 HP eq_refl)) as [HQ' HF']. split; [|done]. tauto.
  - intros [HP' _]. by apply HP in HP'.
Qed.

Lemma decides_test (b : bool) e k P Q : (b = false <-> P) -> (P -> decides k Q) -> decides (if b then Err e else k) (P /\ Q).
Proof.
  intros HP HQ. unfold decides. destruct b.
  - split; [|done]. split; [done|]. intros [HP' _]. by apply HP in HP'.
  - destruct (HQ (proj1 HP eq_refl)) as [HQ' HF]. split; [|done]. tauto.
Qed.

Lemma decides_string a max required : zlen a = max + 1 ->
  decides (string_validate a max required) (0 ∈ a /\ (required = true -> c_str a <> [])).
Proof.
  intros Ha. unfold decides. rewrite string_validate_spec by done.
  destruct (bool_decide_reflect (0 ∈ a)), required, (bool_decide_reflect (c_str a = [])); cbn; naive_solver.
Qed.

Lemma decides_vector c : 0 ∈ vector_model_id c -> 0 <= vector_dimensions c -> 0 <= vector_metric c ->
  decides (if vector_metric c =? YAP_V2_VECTOR_DISABLED then
             nonempty ← (if negb (vector_dimensions c =? 0) then Ok true
                         else first ← load (vector_model_id c) 0; Ok (negb (first =? 0)));
             if (nonempty : bool) then Err YAP_V2_INVALID_FORMAT else Ok tt
           else if (vector_dimensions c =? 0) || (YAP_V2_MAX_VECTOR_DIMENSIONS <? vector_dimensions c) ||
                   (vector_metric c <? YAP_V2_VECTOR_COSINE) || (YAP_V2_VECTOR_L2 <? vector_metric c)
           then Err YAP_V2_OUT_OF_RANGE else Ok tt)
    (vector_metric c = 0 /\ vector_dimensions c = 0 /\ c_str (vector_model_id c) = [] \/
     1 <= vector_metric c <= 3 /\ 0 < vector_dimensions c <= YAP_V2_MAX_VECTOR_DIMENSIONS).
Proof.
  intros H0 Hd Hm. pose proof (load_first _ _ (holds_c_str _ H0)) as HL. unfold decides.
  unfold YAP_V2_VECTOR_DISABLED, YAP_V2_VECTOR_COSINE, YAP_V2_VECTOR_L2.
  destruct (Z.eqb_spec (vector_metric c) 0) as [Em|Nm].
  - destruct (Z.eqb_spec (vector_dimensions c) 0); cbn [negb]; rewrite ?HL, ?outcome_bind_ok.
    + destruct (c_str (vector_model_id c)) as [|x s] eqn:Es; cbn [default from_option head]; [split; [|done]; naive_solver|].
      destruct (holds_lookup _ _ 0 x (holds_c_str _ H0)) as [_ Hx]; [by rewrite Es|]. cbn.
      rewrite (proj2 (Z.eqb_neq _ _)) by done. cbn. split; [|done]. split; [done|]. intros [(_&_&[=])|[? _]]; lia.
    + split; [|done]. split; [done|]. intros [(_&?&_)|[? _]]; lia.
  - destruct (_ || _) eqn:T; (split; [|done]); btests.
    + split; [done|]. intros [[? _]|[? ?]]; [lia|]. destruct T as [T|T]; btests; [|lia]. destruct T as [T|T]; btests; [|lia].
      destruct T; btests; lia.
    + split; [|done]. intros _. right. lia.
Qed.

Lemma config_validate_spec c : config_wf c -> decides (YAP_V2_config_validate (Some c)) (config_valid c).
Proof.
  intros Hw. destruct (wf_numbers c Hw) as (?&?&?&?&?&?). unfold is_u32, is_u64 in *. unfold YAP_V2_config_validate.
  eapply decides_iff; [|
    eapply (decides_test _ _ _ (config_version c = YAP_V2_FORMAT_VERSION)); [rewrite negb_false_iff; apply Z.eqb_eq|intros _];
    eapply decides_seq; [apply decides_string, (wf_tokenizer c Hw)|intros _];
    eapply (decides_test _ _ _ (0 < chunk_max_chars c <= YAP_V2_MAX_CHUNK_CHARS /\ chunk_overlap_chars c < chunk_max_chars c));
      [rewrite !orb_false_iff, Z.eqb_neq, Z.ltb_ge, Z.leb_gt; lia|intros _];
    eapply decides_seq; [apply decides_string, (wf_model c Hw)|intros [Hm _]];
    eapply decides_seq; [apply decides_vector; [done|lia..]|intros _];
    eapply (decides_test _ _ _ (filterable_field_count c <= YAP_V2_MAX_FILTER_FIELDS)); [apply Z.ltb_ge|intros Hf];
    apply (fields_validate_spec _ (proj2 (wf_fields c Hw)) _ 0); [|done]].
  2: { destruct (wf_fields c Hw) as [Hl _]. unfold zlen, YAP_V2_MAX_FILTER_FIELDS in *. lia. }
  unfold config_valid, YAP_V2_VECTOR_DISABLED, YAP_V2_VECTOR_COSINE, YAP_V2_VECTOR_L2. rewrite negb_true_iff, Z.eqb_neq.
  split.
  - intros (?&[? ?]&?&[? ?]&?&?&HF). apply fields_spec_names in HF; [|done..]. naive_solver lia.
  - intros (?&[? ?]&?&?&Hv&Hc&HF). pose proof (proj2 (fields_spec_names c Hw Hc) HF).
    split_and!; try done; destruct Hv as [(?&?&?)|(?&?&?)]; auto; lia.
Qed.

(** ** The two SHA-256 implementations agree *)
Lemma foldl_pointwise {A B} (f g : A -> B -> A) l : (forall a b, f a b = g a b) -> forall a, foldl f a l = foldl g a l.
Proof. intros H. induction l as [|b l IH]; intros a; cbn [foldl]; [done|]. by rewrite H, IH. Qed.

Lemma sha_schedule_eq blk : sha_schedule blk = sha256_words blk.
Proof. unfold sha_schedule, sha256_words. by apply foldl_pointwise. Qed.

Lemma sha_round_eq w v i : sha_round w v i = sha256_round w v i.
Proof. unfold sha_round, sha256_round. by do 9 (destruct v as [|? v]; [done|]). Qed.

Lemma sha_transform_eq state blk : sha_transform state blk = sha256_transform state blk.
Proof.
  unfold sha_transform, sha256_transform. rewrite sha_schedule_eq.
  by rewrite (foldl_pointwise (sha_round (sha256_words blk)) (sha256_round (sha256_words blk)) _ (sha_round_eq _)).
Qed.
#[local] Opaque sha_transform sha256_transform sha256_initial_state.

Lemma sha_update_loop_rep fuel : forall ctx msg data, sha_rep ctx msg -> block_length ctx < 64 -> (length data <= fuel)%nat ->
  exists ctx', sha_update_loop fuel ctx data = Ok ctx' /\ sha_rep ctx' (msg ++ data) /\ block_length ctx' < 64 /\
    bit_length ctx' = bit_length ctx.
Proof.
  induction fuel as [|fuel IH]; intros ctx msg data HR Hlt Hf.
  { destruct data; [|cbn in Hf; lia]. exists ctx. by rewrite app_nil_r. }
  destruct data as [|b p]; [exists ctx; by rewrite app_nil_r|]. cbn [sha_update_loop].
  remember (b :: p) as data eqn:Hp. assert (1 <= zlen data) by (subst; unfold zlen; cbn; lia). pose proof (sha_rep_len _ _ HR).
  rewrite u64_small by lia. set (taken := if zlen data <? 64 - block_length ctx then _ else _).
  assert (1 <= taken /\ taken <= zlen data /\ block_length ctx + taken <= 64) as (?&?&?)
    by (subst taken; destruct (Z.ltb_spec (zlen data) (64 - block_length ctx)); lia).
  clearbody taken. assert (zlen (slice data 0 taken) = taken) as Hbs by (apply zlen_slice; lia).
  destruct (sha_rep_push (E := YAP_V2_STATUS) ctx msg (slice data 0 taken) HR ltac:(lia)) as (blk&->&HR').
  rewrite outcome_bind_ok. rewrite Hbs in HR'.
  assert (msg ++ data = (msg ++ slice data 0 taken) ++ drop (Z.to_nat taken) data) as ->.
  { unfold slice. by rewrite <- (assoc_L (++)), drop_0, take_drop. }
  assert ((length (drop (Z.to_nat taken) data) <= fuel)%nat) by (rewrite length_drop; unfold zlen in *; lia).
  specialize (HR' (bit_length ctx)). destruct (Z.eqb_spec (block_length ctx + taken) 64) as [E|N].
  - apply (sha_rep_flush _ _ (bit_length ctx)) in HR'; [|done]. cbn [sha_state block] in HR'. rewrite sha_transform_eq.
    destruct (IH _ _ (drop (Z.to_nat taken) data) HR') as (c&?&?&?&?); [done|done|]. by exists c.
  - destruct (IH _ _ (drop (Z.to_nat taken) data) HR') as (c&?&?&?&?); [cbn; lia|done|]. by exists c.
Qed.

Lemma sha_update_inv ctx msg data : sha_inv ctx msg ->
  exists ctx', sha_update ctx data = Ok ctx' /\ sha_inv ctx' (msg ++ data).
Proof.
  intros (HR&Hlt&Hb). unfold sha_update.
  destruct (sha_update_loop_rep (length data) (Sha256Ctx (sha_state ctx) (u64 (bit_length ctx + u64 (zlen data * 8))) (block ctx)
    (block_length ctx)) msg data) as (c&->&HR'&Hlt'&Hb'); [done..|]. exists c. split; [done|]. split_and!; [done..|].
  rewrite Hb'. cbn. rewrite Hb, u64_add_l, Z.add_comm, u64_add_l. f_equal. zl.
Qed.

Lemma length_bytes_be64 bits : length_bytes bits = be64 bits.
Proof.
  unfold length_bytes, be64. change (seqZ 0 8) with [0; 1; 2; 3; 4; 5; 6; 7].
  unfold reverse. cbn [fmap list_fmap map rev_append]. by rewrite !u8_ff, !land_ff.
Qed.

Lemma sha_rep_zeros ctx msg (n : nat) : sha_rep ctx msg -> block_length ctx + Z.of_nat n <= 64 ->
  exists blk, store_bytes (E := YAP_V2_STATUS) (block ctx) (block_length ctx) (replicate n 0) = Ok blk /\
    forall bits, sha_rep (Sha256Ctx (sha_state ctx) bits blk (block_length ctx + Z.of_nat n)) (msg ++ replicate n 0).
Proof.
  intros HR Hn. destruct (sha_rep_push (E := YAP_V2_STATUS) ctx msg (replicate n 0) HR) as (blk&E&H).
  - by rewrite zlen_replicate.
  - rewrite zlen_replicate in H. by exists blk.
Qed.

Lemma sha_final_spec ctx msg : sha_inv ctx msg -> sha_final ctx = Ok (sha256_spec msg).
Proof.
  intros (HR&Hlt&Hbits). unfold sha_final. pose proof (sha_rep_len _ _ HR) as Hnn.
  assert (pad_zeros (zlen msg) = if 56 <? block_length ctx + 1 then Z.to_nat (119 - block_length ctx)
          else Z.to_nat (55 - block_length ctx)) as HP.
  { unfold pad_zeros. rewrite <- Zminus_mod_idemp_r, <- (sha_rep_mod ctx msg HR) by lia. rewrite (Z.mod_small (block_length ctx)) by lia.
    destruct (Z.ltb_spec 56 (block_length ctx + 1)); [|by rewrite Z.mod_small by lia].
    rewrite <- (Z_mod_plus_full _ 1), Z.mod_small by lia. f_equal. lia. }
  destruct (sha_rep_push (E := YAP_V2_STATUS) ctx msg [0x80] HR) as (blk&->&HR1); [unfold zlen; cbn; lia|].
  rewrite outcome_bind_ok. change (zlen [0x80]) with 1 in HR1. specialize (HR1 0).
  set (pre := if 56 <? block_length ctx + 1 then _ else Ok _).
  assert (exists st blk1 size k, pre = Ok (st, blk1, size) /\ 0 <= size <= 56 /\
    sha_rep (Sha256Ctx st 0 blk1 size) ((msg ++ [0x80]) ++ replicate k 0) /\
    (k + Z.to_nat (56 - size) = pad_zeros (zlen msg))%nat) as (st&blk1&size&k&->&Hsz&HR2&Hk).
  { subst pre. rewrite HP. destruct (Z.ltb_spec 56 (block_length ctx + 1)).
    - destruct (sha_rep_zeros _ _ (Z.to_nat (64 - (block_length ctx + 1))) HR1) as (blk1&E&HR2); [cbn; lia|].
      cbn [block block_length] in E. rewrite E, outcome_bind_ok. specialize (HR2 0). apply (sha_rep_flush _ _ 0) in HR2; [|cbn; lia].
      cbn [sha_state block] in HR2. do 4 eexists. split; [done|]. rewrite sha_transform_eq. split; [lia|]. split; [exact HR2|]. lia.
    - exists (sha_state ctx), blk, (block_length ctx + 1), 0%nat. rewrite app_nil_r. split_and!; [done|lia|lia|done|lia]. }
  rewrite outcome_bind_ok.
  destruct (sha_rep_zeros _ _ (Z.to_nat (56 - size)) HR2) as (blk2&E2&HR3); [cbn; lia|].
  cbn [block block_length] in E2. rewrite E2, outcome_bind_ok. specialize (HR3 0). cbn [block_length sha_state] in HR3.
  destruct (sha_rep_push (E := YAP_V2_STATUS) _ _ (length_bytes (bit_length ctx)) HR3) as (blk3&E3&HR4);
    [rewrite length_bytes_be64, zlen_be64; cbn; lia|].
  cbn [block block_length] in E3. replace (size + Z.of_nat (Z.to_nat (56 - size))) with 56 in E3 by lia.
  rewrite E3, outcome_bind_ok. specialize (HR4 0). apply sha_rep_absorb in HR4;
    [|cbn; rewrite length_bytes_be64, zlen_be64; lia].
  cbn [sha_state block] in HR4. rewrite sha_transform_eq, HR4, length_bytes_be64, Hbits. f_equal. unfold sha256_spec.
  assert (sha256_pad msg = (((msg ++ [0x80]) ++ replicate k 0) ++ replicate (Z.to_nat (56 - size)) 0) ++ be64 (u64 (8 * zlen msg))) as ->;
    [|done].
  unfold sha256_pad. rewrite <- Hk, replicate_add, <- !(assoc_L (++)). done.
Qed.

Lemma sha_init_inv : sha_inv sha_init [].
Proof. split_and!; [|done|done]. by exists 0%nat, [], [], (replicate 64 0). Qed.

(** ** The canonical text *)
Fixpoint field_lines (i : Z) (names : list bytes) : bytes :=
  match names with
  | [] => []
  | name :: names =>
      text "metadata.filterable_fields[" ++ decimal i ++ text "]=" ++ name ++ NEWLINE :: field_lines (i + 1) names
  end.

Definition canonical_text (c : YAP_V2_CONFIG) : bytes :=
  text "format_version=" ++ decimal (config_version c) ++ NEWLINE ::
  text "tokenizer.id=" ++ c_str (tokenizer_id c) ++ NEWLINE ::
  text "chunking.max_chars=" ++ decimal (chunk_max_chars c) ++ NEWLINE ::
  text "chunking.overlap_chars=" ++ decimal (chunk_overlap_chars c) ++ NEWLINE ::
  text "vector.model_id=" ++ c_str (vector_model_id c) ++ NEWLINE ::
  text "vector.dimensions=" ++ decimal (vector_dimensions c) ++ NEWLINE ::
  text "vector.metric=" ++ metric_name (vector_metric c) ++ NEWLINE :: field_lines 0 (field_names c).

(** What a configuration says, without the bytes behind the terminators. *)
Definition settings (c : YAP_V2_CONFIG) :=
  (config_version c, c_str (tokenizer_id c), chunk_max_chars c, chunk_overlap_chars c,
   (c_str (vector_model_id c), vector_dimensions c, vector_metric c), field_names c).

(** Lengths of literals. *)
Ltac text_lengths :=
  repeat match goal with
  | |- context [zlen (text ?s)] => let n := eval vm_compute in (zlen (text s)) in change (zlen (text s)) with n
  end.

Lemma print_fields_spec fields : forall count i canonical, (i + count <= length fields)%nat ->
  (forall k f, (i <= k < i + count)%nat -> fields !! k = Some f -> 0 ∈ f /\ zlen f = 128) ->
  zlen canonical + 178 * Z.of_nat count < CANONICAL_BYTES ->
  print_fields count fields (Z.of_nat i) canonical =
    Ok (canonical ++ field_lines (Z.of_nat i) (c_str <$> take count (drop i fields))).
Proof.
  induction count as [|count IH]; intros i canonical Hi Hf Hl; cbn [print_fields].
  { by rewrite app_nil_r. }
  destruct (lookup_lt_is_Some_2 fields i) as [f Hfi]; [lia|]. destruct (Hf i f ltac:(lia) Hfi) as [H0 Hz].
  rewrite (elem_at_lookup _ _ _ Hfi), outcome_bind_ok. pose proof (holds_c_str _ H0) as HH.
  rewrite (c_text_spec _ _ HH), outcome_bind_ok. pose proof (holds_length _ _ HH). pose proof (decimal_length (Z.of_nat i)).
  pose proof (zlen_nonneg (decimal (Z.of_nat i))).
  assert (zlen (c_str f) <= 127) by (unfold zlen in *; lia).
  unfold print_into. rewrite (proj2 (Z.leb_gt _ _)).
  2: { rewrite !zlen_app. text_lengths. change (zlen [NEWLINE]) with 1. lia. }
  rewrite outcome_bind_ok. replace (Z.of_nat i + 1) with (Z.of_nat (S i)) by lia. rewrite IH; [|lia| |].
  - rewrite (drop_S fields f i Hfi). cbn [take fmap list_fmap field_lines map].
    replace (Z.of_nat i + 1) with (Z.of_nat (S i)) by lia. f_equal. rewrite <- !(assoc_L (++)). done.
  - intros k f' Hk. apply Hf. lia.
  - rewrite !zlen_app. text_lengths. change (zlen [NEWLINE]) with 1. lia.
Qed.

Lemma metric_name_length m : zlen (metric_name m) <= 8.
Proof. unfold metric_name. repeat case_match; vm_compute; discriminate. Qed.

Lemma config_fingerprint_spec c : config_wf c -> config_valid c ->
  YAP_V2_config_fingerprint (Some c) = Ok (sha256_spec (canonical_text c)).
Proof.
  intros Hw Hv. unfold YAP_V2_config_fingerprint. rewrite (proj2 (proj1 (config_validate_spec c Hw)) Hv).
  destruct Hv as (_&[Ht _]&_&Hm&_&Hc&HF&_&_). apply holds_c_str in Ht as HH, Hm as HM.
  rewrite (c_text_spec _ _ HH), outcome_bind_ok, (c_text_spec _ _ HM), outcome_bind_ok.
  pose proof (holds_length _ _ HH). pose proof (holds_length _ _ HM).
  destruct (wf_tokenizer c Hw) as [Hzt _], (wf_model c Hw) as [Hzm _], (wf_fields c Hw) as [Hzf Hsa].
  unfold zlen in Hzt, Hzm, Hzf.
  assert (zlen (c_str (tokenizer_id c)) <= 255) by (unfold zlen; lia).
  assert (zlen (c_str (vector_model_id c)) <= 255) by (unfold zlen; lia).
  match goal with |- context [print_into CANONICAL_BYTES [] ?p] => set (piece := p) end.
  assert (zlen piece <= 800) as Hp.
  { subst piece. rewrite !zlen_app, !zlen_cons. repeat rewrite ?zlen_app, ?zlen_cons. text_lengths.
    pose proof (decimal_length (config_version c)). pose proof (decimal_length (chunk_max_chars c)).
    pose proof (decimal_length (chunk_overlap_chars c)). pose proof (decimal_length (vector_dimensions c)).
    pose proof (metric_name_length (vector_metric c)). rewrite zlen_nil. lia. }
  unfold print_into at 1. change (zlen []) with 0. unfold CANONICAL_BYTES at 1.
  rewrite (proj2 (Z.leb_gt _ _)), outcome_bind_ok by lia. cbn [app].
  destruct (wf_numbers c Hw) as (_&_&_&_&_&[Hn _]). unfold YAP_V2_MAX_FILTER_FIELDS in Hc.
  rewrite (print_fields_spec (filterable_fields c) _ 0 piece), outcome_bind_ok.
  - rewrite drop_0. destruct (sha_update_inv sha_init [] (piece ++ field_lines (Z.of_nat 0) (field_names c)) sha_init_inv) as (ctx&E&HI).
    change (c_str <$> take _ (filterable_fields c)) with (field_names c). rewrite E, outcome_bind_ok.
    rewrite (sha_final_spec _ _ HI). do 2 f_equal. subst piece. unfold canonical_text. cbn [app].
    rewrite <- !(assoc_L (++)). cbn [app]. repeat (f_equal; rewrite <- ?(assoc_L (++)); cbn [app]).
  - lia.
  - intros k f Hk Hf. split; [|by apply (Forall_lookup_1 _ _ _ _ Hsa Hf)].
    apply (Forall_lookup_1 _ _ k _ HF). apply lookup_take_Some. split; [done|lia].
  - unfold CANONICAL_BYTES. lia.
Qed.

(** ** The text determines the settings *)
Lemma field_lines_inj l : forall l' i, Forall (fun n => NEWLINE ∉ n) l -> Forall (fun n => NEWLINE ∉ n) l' ->
  field_lines i l = field_lines i l' -> l = l'.
Proof.
  induction l as [|n l IH]; intros [|n' l'] i Hl Hl' E; cbn [field_lines] in E; [done|discriminate..|].
  apply Forall_cons in Hl as [Hn Hl], Hl' as [Hn' Hl'].
  do 3 apply app_inv_head in E. apply line_inj in E as [-> E]; [|done..]. f_equal. by eapply IH.
Qed.

Lemma field_name_no_newline s : field_name s -> NEWLINE ∉ s.
Proof. intros (_&HF&_) H. rewrite Forall_forall in HF. apply HF in H. unfold NEWLINE, name_char in H. lia. Qed.

Lemma metric_name_inj m m' : 0 <= m <= 3 -> 0 <= m' <= 3 -> metric_name m = metric_name m' -> m = m'.
Proof.
  intros Hm Hm'. assert (m = 0 \/ m = 1 \/ m = 2 \/ m = 3) as [->|[->|[->| ->]]] by lia;
    assert (m' = 0 \/ m' = 1 \/ m' = 2 \/ m' = 3) as [->|[->|[->| ->]]] by lia; vm_compute; congruence.
Qed.

Lemma metric_no_newline m : NEWLINE ∉ metric_name m.
Proof. unfold metric_name. repeat case_match; apply (bool_decide_unpack _); by vm_compute. Qed.

Definition plain_ids (c : YAP_V2_CONFIG) : Prop :=
  (NEWLINE ∉ c_str (tokenizer_id c)) /\ (NEWLINE ∉ c_str (vector_model_id c)).

(** Cancel the next literal and line of two equal texts. *)
Ltac next_line E :=
  apply app_inv_head in E; apply line_inj in E as [? E];
  [|first [done|apply decimal_no_newline|apply metric_no_newline]..].

Lemma canonical_text_settings c c' : config_wf c -> config_wf c' -> config_valid c -> config_valid c' ->
  plain_ids c -> plain_ids c' -> canonical_text c = canonical_text c' -> settings c = settings c'.
Proof.
  intros Hw Hw' Hv Hv' [Ht Hm] [Ht' Hm'] E. unfold canonical_text in E.
  destruct (wf_numbers c Hw) as (?&?&?&?&?&?), (wf_numbers c' Hw') as (?&?&?&?&?&?). unfold is_u32 in *.
  do 7 next_line E. destruct Hv as (?&?&?&?&Hvec&?&?&HF&?), Hv' as (?&?&?&?&Hvec'&?&?&HF'&?).
  apply field_lines_inj in E; [|by eapply Forall_impl; [|apply field_name_no_newline]..].
  unfold YAP_V2_VECTOR_DISABLED, YAP_V2_VECTOR_COSINE, YAP_V2_VECTOR_L2 in *. unfold settings.
  repeat match goal with H : decimal _ = decimal _ |- _ => apply decimal_inj in H; [|lia..] end.
  match goal with H : metric_name _ = metric_name _ |- _ => apply metric_name_inj in H; [|lia..] end. congruence.
Qed.

Lemma settings_canonical_text c c' : settings c = settings c' -> canonical_text c = canonical_text c'.
Proof. unfold settings, canonical_text. intros [=]. congruence. Qed.

(** ** Hexadecimal form *)
Lemma hex_digit_inj a b : 0 <= a < 16 -> 0 <= b < 16 -> hex_digit a = hex_digit b -> a = b.
Proof. unfold hex_digit. intros. destruct (Z.ltb_spec a 10), (Z.ltb_spec b 10); lia. Qed.

Lemma hex_inj l : forall l', bytes_ok l -> bytes_ok l' ->
  YAP_V2_config_fingerprint_hex l = YAP_V2_config_fingerprint_hex l' -> l = l'.
Proof.
  unfold YAP_V2_config_fingerprint_hex. intros l' Hl Hl' E. apply app_inv_tail in E.
  revert l' Hl' E. induction l as [|a l IH]; intros [|b l'] Hl' E; [done|discriminate..|].
  apply Forall_cons in Hl as [Ha Hl], Hl' as [Hb Hl']. unfold byte_ok in *. injection E as E1 E2 E.
  rewrite !(Z.shiftr_div_pow2 _ 4) in E1 by lia. change 15 with (Z.ones 4) in E2. rewrite !Z.land_ones in E2 by lia.
  apply hex_digit_inj in E1, E2; try (split; [apply Z.div_pos; lia|apply Z.div_lt_upper_bound; lia]);
    try (apply Z.mod_pos_bound; lia).
  f_equal; [|by apply IH]. rewrite (Z.div_mod a (2 ^ 4)), (Z.div_mod b (2 ^ 4)) by lia. congruence.
Qed.

(** ** Main theorems *)

(** Validation accepts a configuration exactly when it follows the schema: format version
    2, a tokenizer, a chunk size between 1 and 1 MiB above the overlap, either no vectors or a
    model with 1 to 65536 dimensions and a known metric, and at most 64 strictly increasing
    dotted field names; it never reads outside the arrays of the struct. *)
Theorem config_validate_exact (c : YAP_V2_CONFIG) : config_wf c ->
  (YAP_V2_config_validate (Some c) = Ok tt <-> config_valid c) /\ YAP_V2_config_validate (Some c) <> Fault.
Proof. apply config_validate_spec. Qed.

Definition padded (n : Z) (s : bytes) : bytes := s ++ zero_string (n - zlen s).
Definition demo_config (id model : bytes) (fields : list bytes) : YAP_V2_CONFIG :=
  Config YAP_V2_FORMAT_VERSION (padded 256 id) 5 1 (padded 256 model) 3 YAP_V2_VECTOR_DOT
    ((padded 128 <$> fields) ++ replicate (64 - length fields) (zero_string 128)) (zlen fields).

Lemma demo_config_wf : config_wf (demo_config (text "t") (text "m") [text "author"; text "tags.name"]).
Proof.
  split; (split; [by vm_compute|]) || idtac; try (apply demo_bytes; by vm_compute).
  - apply Forall_lookup_2. intros i a Hi. apply list_elem_of_lookup_2 in Hi.
    apply elem_of_app in Hi as [Hi|Hi%elem_of_replicate_inv]; [|subst; split; [by vm_compute|apply demo_bytes; by vm_compute]].
    apply elem_of_cons in Hi as [->|Hi]; [split; [by vm_compute|apply demo_bytes; by vm_compute]|].
    apply list_elem_of_singleton in Hi as ->. split; [by vm_compute|apply demo_bytes; by vm_compute].
  - by vm_compute.
Qed.

Lemma config_validate_exact_witness :
  config_valid (demo_config (text "t") (text "m") [text "author"; text "tags.name"]).
Proof.
  apply (config_validate_exact (demo_config (text "t") (text "m") [text "author"; text "tags.name"])).
  - exact demo_config_wf.
  - vm_compute. reflexivity.
Defined.

(** The fingerprint of a valid configuration is the SHA-256 of its canonical text, which
    always fits the buffer; every other configuration is refused.  Configurations whose
    identifiers are single lines have the same canonical text exactly when they have the same
    settings, so a fingerprint identifies the settings as far as SHA-256 does. *)
Theorem config_fingerprint_correct (c c' : YAP_V2_CONFIG) : config_wf c -> config_wf c' ->
  (config_valid c -> YAP_V2_config_fingerprint (Some c) = Ok (sha256_spec (canonical_text c))) /\
  (~ config_valid c -> YAP_V2_config_fingerprint (Some c) = Err YAP_V2_INVALID_FORMAT) /\
  (config_valid c -> config_valid c' -> plain_ids c -> plain_ids c' ->
   (canonical_text c = canonical_text c' <-> settings c = settings c')).
Proof.
  intros Hw Hw'. split_and!.
  - by apply config_fingerprint_spec.
  - intros Hv. unfold YAP_V2_config_fingerprint. destruct (config_validate_spec c Hw) as [HI HF].
    destruct (YAP_V2_config_validate (Some c)) as [[]| |]; [by destruct Hv; apply HI|done..].
  - intros. split; [by apply canonical_text_settings|apply settings_canonical_text].
Qed.

Lemma config_fingerprint_correct_witness :
  YAP_V2_config_fingerprint (Some (demo_config (text "t") (text "m") [text "author"; text "tags.name"])) =
  Ok (sha256_spec (canonical_text (demo_config (text "t") (text "m") [text "author"; text "tags.name"]))).
Proof.
  apply (config_fingerprint_correct _ _ demo_config_wf demo_config_wf), (proj1 (config_validate_spec _ demo_config_wf)).
  vm_compute. reflexivity.
Defined.

(** Identifiers may contain line breaks, and then two valid configurations with different
    settings can share a fingerprint. *)
Theorem config_fingerprint_collision :
  let inner := text "chunking.max_chars=5" ++ NEWLINE :: text "chunking.overlap_chars=1" ++ NEWLINE :: text "vector.model_id=" in
  let c := demo_config (text "a") (text "q" ++ NEWLINE :: inner ++ text "m") [] in
  let c' := demo_config (text "a" ++ NEWLINE :: inner ++ text "q") (text "m") [] in
  settings c <> settings c' /\ YAP_V2_config_validate (Some c) = Ok tt /\ YAP_V2_config_validate (Some c') = Ok tt /\
  YAP_V2_config_fingerprint (Some c) = YAP_V2_config_fingerprint (Some c').
Proof. cbv zeta. split_and!; [by vm_compute|vm_compute; reflexivity..]. Qed.
