(* ===== verification/Snapshot.v ===== *)
(** Search snapshots and their manager (src/src/storage/yappo_snapshot_v2.c).

    A snapshot is an immutable view of one manifest: its segments, read into memory, and the
    table of visible documents.  Snapshots and segments are shared and counted: a reload
    reuses the segments of the previous snapshot whose descriptors did not change.  The heap
    is explicit, so that using a released object is a [Fault] and an object that is never
    released stays in the heap. *)
From S2P Require Import Prelude Words Types Sha256 Header SlotTable Manifest FileSystem Reader ManifestCodec ManifestFile Segment Verify EntryTable Visibility Config.
#[local] Open Scope io_scope.

Abbreviation addr := nat.

(** [snap_segments] is [None] until the array is allocated. *)
Record YAP_V2_SEARCH_SNAPSHOT := SearchSnapshot {
  references : Z;
  snap_manifest : YAP_V2_MANIFEST;
  snap_segments : option (list (option addr));
  snap_segment_count : Z;
  snap_visibility : visibility_table }.

Record heap := Heap {
  segment_objects : gmap addr SNAPSHOT_SEGMENT;
  snapshot_objects : gmap addr YAP_V2_SEARCH_SNAPSHOT;
  next_address : addr }.

Record MANAGER_STATE := ManagerState {
  index_dir : bytes;
  manifest_path : bytes;
  manager_config : YAP_V2_CONFIG;
  manager_current : option addr }.

Definition sizeof_snapshot : Z := 168.
Definition sizeof_snapshot_segment : Z := 392.
Definition sizeof_manager_state : Z := 8800.

Definition set_segments (h : heap) (m : gmap addr SNAPSHOT_SEGMENT) : heap := Heap m (snapshot_objects h) (next_address h).
Definition set_snapshots (h : heap) (m : gmap addr YAP_V2_SEARCH_SNAPSHOT) : heap := Heap (segment_objects h) m (next_address h).

Definition with_seg_references (s : SNAPSHOT_SEGMENT) (n : Z) : SNAPSHOT_SEGMENT :=
  SnapshotSegment n (seg_documents s) (seg_tombstones s).
Definition with_references (s : YAP_V2_SEARCH_SNAPSHOT) (n : Z) : YAP_V2_SEARCH_SNAPSHOT :=
  SearchSnapshot n (snap_manifest s) (snap_segments s) (snap_segment_count s) (snap_visibility s).

(** ** Releasing *)

(** One turn of the loop of [snapshot_destroy]. *)
Definition release_segment (m : gmap addr SNAPSHOT_SEGMENT) (slot : option addr) : result (gmap addr SNAPSHOT_SEGMENT) :=
  match slot with
  | None => Ok m
  | Some a =>
      match m !! a with
      | None => Fault
      | Some s =>
          if 0 <? seg_references s then
            let n := u64 (seg_references s - 1) in
            if n =? 0 then Ok (delete a m) else Ok (<[a := with_seg_references s n]> m)
          else Ok m
      end
  end.

Fixpoint release_segments (m : gmap addr SNAPSHOT_SEGMENT) (slots : list (option addr)) : result (gmap addr SNAPSHOT_SEGMENT) :=
  match slots with
  | [] => Ok m
  | slot :: slots => m ← release_segment m slot; release_segments m slots
  end.

Definition snapshot_destroy (h : heap) (s : YAP_V2_SEARCH_SNAPSHOT) : result heap :=
  if snap_segment_count s =? 0 then Ok h
  else
  match snap_segments s with
  | None => Fault
  | Some slots =>
      if zlen slots <? snap_segment_count s then Fault
      else m ← release_segments (segment_objects h) (take (Z.to_nat (snap_segment_count s)) slots); Ok (set_segments h m)
  end.

Definition snapshot_retain (h : heap) (a : addr) : result heap :=
  match snapshot_objects h !! a with
  | None => Fault
  | Some s => Ok (set_snapshots h (<[a := with_references s (u64 (references s + 1))]> (snapshot_objects h)))
  end.

Definition YAP_V2_snapshot_release (h : heap) (snapshot : option addr) : result heap :=
  match snapshot with
  | None => Ok h
  | Some a =>
      match snapshot_objects h !! a with
      | None => Fault
      | Some s =>
          if 0 <? references s then
            let n := u64 (references s - 1) in
            if n =? 0 then snapshot_destroy (set_snapshots h (delete a (snapshot_objects h))) (with_references s n)
            else Ok (set_snapshots h (<[a := with_references s n]> (snapshot_objects h)))
          else Ok h
      end
  end.

(** ** Loading *)
Definition component (segment : YAP_V2_SEGMENT_DESCRIPTOR) (file_type : Z) : option YAP_V2_COMPONENT_DESCRIPTOR :=
  List.find (fun c => component_type c =? file_type) (components segment).

Definition empty_segment : YAP_V2_SEGMENT := Segment [] 0 [] [] [].

Section load.
Context {A : Allocator} (garbage : nat -> Z) (mutex_ok : addr -> bool).

Definition component_path (dir segment_id_ name_ : bytes) : result path :=
  if u64 (SIZE_MAX - zlen segment_id_ - zlen name_ - 12) <? zlen dir then Err YAP_V2_OUT_OF_RANGE
  else if negb (alloc_ok (zlen dir + zlen segment_id_ + zlen name_ + 12)) then Err YAP_V2_ALLOCATION_FAILED
  else Ok (component_file dir segment_id_ name_).

(** Read the documents of [descriptor]. *)
Definition read_documents (dir : bytes) (descriptor : YAP_V2_SEGMENT_DESCRIPTOR) : io (result YAP_V2_SEGMENT) :=
  match component descriptor YAP_V2_FILE_DOCUMENTS with
  | None => io_ret (Err YAP_V2_INVALID_FORMAT)
  | Some c =>
  match component_path dir (id descriptor) (name c) with
  | Err e => io_ret (Err e)
  | Fault => io_ret Fault
  | Ok p =>
      let* r := YAP_V2_segment_read garbage (Some p) 0 false in
      io_ret ('(s, _) ← r;
              if negb (bool_decide (segment_id s = id descriptor)) ||
                 negb (zlen (documents s) =? document_count descriptor) ||
                 negb (zlen (passages s) =? passage_count descriptor) then Err YAP_V2_CONFLICT else Ok s)
  end
  end.

(** Read the tombstones of [descriptor], if it has any. *)
Definition read_tombstone_ids (dir : bytes) (descriptor : YAP_V2_SEGMENT_DESCRIPTOR) : io (result (list YAP_V2_BYTES_VIEW)) :=
  let* r := match component descriptor YAP_V2_FILE_TOMBSTONES with
        | None => io_ret (Ok [])
        | Some c =>
            match component_path dir (id descriptor) (name c) with
            | Err e => io_ret (Err e)
            | Fault => io_ret Fault
            | Ok p => YAP_V2_tombstones_read (Some p) 0
            end
        end in
  io_ret (ids ← r; if negb (zlen ids =? tombstone_count descriptor) then Err YAP_V2_CONFLICT else Ok ids).

(** A segment that the previous snapshot does not have: the slot, and the status. *)
Definition load_fresh (dir : bytes) (generation_ : Z) (descriptor : YAP_V2_SEGMENT_DESCRIPTOR) (h : heap)
  : io (heap * option addr * result unit) :=
  let* verified := YAP_V2_manifest_verify_segment_components garbage (Some dir) generation_ (Some descriptor) in
  match verified with
  | Err e => io_ret (h, None, Err e)
  | Fault => io_ret (h, None, Fault)
  | Ok _ =>
  let a := next_address h in
  if negb (alloc_ok sizeof_snapshot_segment) then io_ret (h, None, Err YAP_V2_ALLOCATION_FAILED)
  else if negb (mutex_ok a) then io_ret (h, None, Err YAP_V2_IO_ERROR)
  else
  let object d t := Heap (<[a := SnapshotSegment 1 d t]> (segment_objects h)) (snapshot_objects h) (S a) in
  let* docs := read_documents dir descriptor in
  match docs with
  | Err e => io_ret (object empty_segment [], Some a, Err e)
  | Fault => io_ret (object empty_segment [], Some a, Fault)
  | Ok d =>
      let* ids := read_tombstone_ids dir descriptor in
      match ids with
      | Err e => io_ret (object d [], Some a, Err e)
      | Fault => io_ret (object d [], Some a, Fault)
      | Ok t => io_ret (object d t, Some a, Ok tt)
      end
  end
  end.

(** Share the segment at position [index] of the previous snapshot. *)
Definition share_segment (h : heap) (previous : YAP_V2_SEARCH_SNAPSHOT) (index : Z) : heap * option addr * result unit :=
  match snap_segments previous with
  | Some slots =>
  match slots !! Z.to_nat index with
  | Some (Some a) =>
      match segment_objects h !! a with
      | Some s => (set_segments h (<[a := with_seg_references s (u64 (seg_references s + 1))]> (segment_objects h)), Some a, Ok tt)
      | None => (h, None, Fault)
      end
  | _ => (h, None, Fault)
  end
  | None => (h, None, Fault)
  end.

Definition load_segment (dir : bytes) (generation_ : Z) (previous : option (YAP_V2_SEARCH_SNAPSHOT * YAP_V2_MANIFEST_SEGMENT_MAP))
  (descriptor : YAP_V2_SEGMENT_DESCRIPTOR) (h : heap) : io (heap * option addr * result unit) :=
  match previous with
  | None => load_fresh dir generation_ descriptor h
  | Some (prev, map) =>
  match YAP_V2_manifest_segment_map_find map (Some (id descriptor)) with
  | Ok index =>
      if YAP_V2_segment_descriptor_equal (segments (snap_manifest prev) !! Z.to_nat index) (Some descriptor)
      then io_ret (share_segment h prev index)
      else load_fresh dir generation_ descriptor h
  | Err YAP_V2_NOT_FOUND => load_fresh dir generation_ descriptor h
  | Err e => io_ret (h, None, Err e)
  | Fault => io_ret (h, None, Fault)
  end
  end.

(** The slots stay NULL from the first failure on. *)
Fixpoint load_segments (dir : bytes) (generation_ : Z) (previous : option (YAP_V2_SEARCH_SNAPSHOT * YAP_V2_MANIFEST_SEGMENT_MAP))
  (descriptors : list YAP_V2_SEGMENT_DESCRIPTOR) (h : heap) : io (heap * list (option addr) * result unit) :=
  match descriptors with
  | [] => io_ret (h, [], Ok tt)
  | d :: descriptors =>
  let* r := load_segment dir generation_ previous d h in
  match r with
  | (h, slot, Ok _) =>
      let* r := load_segments dir generation_ previous descriptors h in
      let '(h, slots, status) := r in io_ret (h, slot :: slots, status)
  | (h, slot, status) => io_ret (h, slot :: replicate (length descriptors) None, status)
  end
  end.

Fixpoint segment_values (m : gmap addr SNAPSHOT_SEGMENT) (slots : list (option addr)) : result (list SNAPSHOT_SEGMENT) :=
  match slots with
  | [] => Ok []
  | Some a :: slots =>
  match m !! a with
  | None => Fault
  | Some s => l ← segment_values m slots; Ok (s :: l)
  end
  | None :: _ => Fault
  end.

Definition no_visibility : visibility_table := VisibilityTable [] 0.

(** Everything after the manifest was loaded; [snapshot_destroy] undoes a failed load. *)
Definition load_manifest_segments (dir : bytes) (previous : option YAP_V2_SEARCH_SNAPSHOT) (m : YAP_V2_MANIFEST) (h : heap)
  : io (heap * YAP_V2_SEARCH_SNAPSHOT * result unit) :=
  let count := segment_count m in
  let partial slots := SearchSnapshot 1 m slots count no_visibility in
  if (0 <? count) && negb (alloc_ok (count * 8)) then io_ret (h, partial None, Err YAP_V2_ALLOCATION_FAILED)
  else
  let empty := if 0 <? count then Some (replicate (Z.to_nat count) None) else None in
  let map := match previous with
         | None => Ok None
         | Some prev =>
             match YAP_V2_manifest_segment_map_build (Some (snap_manifest prev)) with
             | (map, Ok _) => Ok (Some (prev, map))
             | (_, Err e) => Err e
             | (_, Fault) => Fault
             end
         end in
  match map with
  | Err e => io_ret (h, partial empty, Err e)
  | Fault => io_ret (h, partial empty, Fault)
  | Ok map =>
  let* r := load_segments dir (manifest_generation m) map (segments m) h in
  let '(h, slots, status) := r in
  let array := if 0 <? count then Some slots else None in
  io_ret match status with
         | Ok _ =>
             match (values ← segment_values (segment_objects h) slots; snapshot_build_visibility values) with
             | Ok table => (h, SearchSnapshot 1 m array count table, Ok tt)
             | Err e => (h, partial array, Err e)
             | Fault => (h, partial array, Fault)
             end
         | Err e => (h, partial array, Err e)
         | Fault => (h, partial array, Fault)
         end
  end.

Definition snapshot_load (state : MANAGER_STATE) (previous : option addr) (h : heap) : io (heap * result addr) :=
  let a := next_address h in
  if negb (alloc_ok sizeof_snapshot) then io_ret (h, Err YAP_V2_ALLOCATION_FAILED)
  else if negb (mutex_ok a) then io_ret (h, Err YAP_V2_IO_ERROR)
  else
  let h := Heap (segment_objects h) (snapshot_objects h) (S a) in
  match (match previous with
     | None => Ok None
     | Some p => match snapshot_objects h !! p with Some s => Ok (Some s) | None => Fault end
     end) with
  | Err e => io_ret (h, Err e)
  | Fault => io_ret (h, Fault)
  | Ok previous =>
  let* loaded := YAP_V2_manifest_load_for_config (Some (manifest_path state))
                   (YAP_V2_config_fingerprint (Some (manager_config state))) YAP_V2_manifest_init in
  let* r := match loaded with
            | (m, Ok _) => load_manifest_segments (index_dir state) previous m h
            | (m, Err e) => io_ret (h, SearchSnapshot 1 m None 0 no_visibility, Err e)
            | (m, Fault) => io_ret (h, SearchSnapshot 1 m None 0 no_visibility, Fault)
            end in
  io_ret match r with
         | (h, s, Ok _) => (set_snapshots h (<[a := s]> (snapshot_objects h)), Ok a)
         | (h, s, Err e) => match snapshot_destroy h s with Ok h => (h, Err e) | _ => (h, Fault) end
         | (h, s, Fault) => (h, Fault)
         end
  end.
End load.

(** ** The manager *)
Fixpoint descriptors_equal (ls rs : list YAP_V2_SEGMENT_DESCRIPTOR) : bool :=
  match ls, rs with
  | l :: ls, r :: rs => YAP_V2_segment_descriptor_equal (Some l) (Some r) && descriptors_equal ls rs
  | _, _ => true
  end.

Definition YAP_V2_snapshot_matches_manifest (snapshot : option YAP_V2_SEARCH_SNAPSHOT) (manifest : option YAP_V2_MANIFEST) : bool :=
  match snapshot, manifest with
  | Some s, Some m =>
      if negb (manifest_generation (snap_manifest s) =? manifest_generation m) || negb (snap_segment_count s =? segment_count m)
      then false else descriptors_equal (segments (snap_manifest s)) (segments m)
  | _, _ => false
  end.

Definition YAP_V2_snapshot_generation (snapshot : option YAP_V2_SEARCH_SNAPSHOT) : Z :=
  match snapshot with None => 0 | Some s => manifest_generation (snap_manifest s) end.
Definition YAP_V2_snapshot_segment_count (snapshot : option YAP_V2_SEARCH_SNAPSHOT) : Z :=
  match snapshot with None => 0 | Some s => snap_segment_count s end.

Definition YAP_V2_snapshot_segment_documents (h : heap) (snapshot : option YAP_V2_SEARCH_SNAPSHOT) (segment_ordinal : Z)
  : result (option YAP_V2_SEGMENT) :=
  match snapshot with
  | None => Ok None
  | Some s =>
      if snap_segment_count s <=? segment_ordinal then Ok None
      else match snap_segments s with
           | None => Fault
           | Some slots =>
               slot ← elem_at slots segment_ordinal;
               match slot ≫= (segment_objects h !!.) with Some o => Ok (Some (seg_documents o)) | None => Fault end
           end
  end.

(** The critical section of [YAP_V2_snapshot_acquire], and the first one of a reload. *)
Definition YAP_V2_snapshot_acquire (state : option MANAGER_STATE) (h : heap) : result (heap * option addr) :=
  match state with
  | None => Ok (h, None)
  | Some st =>
      match manager_current st with
      | None => Ok (h, None)
      | Some a => h ← snapshot_retain h a; Ok (h, Some a)
      end
  end.

Definition set_current (st : MANAGER_STATE) (c : option addr) : MANAGER_STATE :=
  ManagerState (index_dir st) (manifest_path st) (manager_config st) c.

(** The second critical section of a reload: the new state, the snapshot to release, and the
    status with the value of [*changed]. *)
Definition install_candidate (h : heap) (st : MANAGER_STATE) (candidate : addr) : result (MANAGER_STATE * option addr * result bool) :=
  match snapshot_objects h !! candidate with
  | None => Fault
  | Some c =>
      match manager_current st with
      | None => Ok (set_current st (Some candidate), None, Ok true)
      | Some p =>
          match snapshot_objects h !! p with
          | None => Fault
          | Some previous =>
              let new := manifest_generation (snap_manifest c) in
              let old := manifest_generation (snap_manifest previous) in
              if new <? old then Ok (st, Some candidate, Err YAP_V2_CONFLICT)
              else if new =? old then
                Ok (st, Some candidate,
                    if YAP_V2_snapshot_matches_manifest (Some previous) (Some (snap_manifest c)) then Ok false else Err YAP_V2_CONFLICT)
              else Ok (set_current st (Some candidate), Some p, Ok true)
          end
      end
  end.

Section manager.
Context {A : Allocator} (garbage : nat -> Z) (mutex_ok : addr -> bool).

Definition copy_string (value : bytes) : option bytes :=
  if (zlen value =? SIZE_MAX) || negb (alloc_ok (zlen value + 1)) then None else Some value.

(** [manager] is the content of [manager->state] before the call, and [lock_ok] whether the
mutex of the manager could be initialised. *)
Definition YAP_V2_snapshot_manager_open (manager : option MANAGER_STATE) (index_dir_ manifest_path_ : option bytes)
  (config : option YAP_V2_CONFIG) (lock_ok : bool) (h : heap) : io (heap * result MANAGER_STATE) :=
  match manager, index_dir_, manifest_path_, config with
  | None, Some dir, Some mp, Some c =>
  match YAP_V2_config_validate (Some c) with
  | Ok _ =>
      if negb (alloc_ok sizeof_manager_state) then io_ret (h, Err YAP_V2_ALLOCATION_FAILED)
      else if negb lock_ok then io_ret (h, Err YAP_V2_IO_ERROR)
      else
      match copy_string dir, copy_string mp with
      | Some dir, Some mp =>
          let state := ManagerState dir mp c None in
          let* r := snapshot_load garbage mutex_ok state None h in
          io_ret match r with
                 | (h, Ok a) => (h, Ok (set_current state (Some a)))
                 | (h, Err e) => (h, Err e)
                 | (h, Fault) => (h, Fault)
                 end
      | _, _ => io_ret (h, Err YAP_V2_ALLOCATION_FAILED)
      end
  | Err _ => io_ret (h, Err YAP_V2_INVALID_ARGUMENT)
  | Fault => io_ret (h, Fault)
  end
  | _, _, _, _ => io_ret (h, Err YAP_V2_INVALID_ARGUMENT)
  end.

(** A reload without interference by other threads: the new state, and [*changed].  The
argument is [manager->state]; neither [manager] nor [changed] is NULL. *)
Definition YAP_V2_snapshot_manager_reload (manager : option MANAGER_STATE) (h : heap)
  : io (heap * option MANAGER_STATE * result bool) :=
  match manager with
  | None => io_ret (h, None, Err YAP_V2_INVALID_ARGUMENT)
  | Some st =>
  match YAP_V2_snapshot_acquire (Some st) h with
  | Ok (h, base) =>
      let* r := snapshot_load garbage mutex_ok st base h in
      let '(h, loaded) := r in
      io_ret match YAP_V2_snapshot_release h base with
             | Ok h =>
                 match loaded with
                 | Ok candidate =>
                     match install_candidate h st candidate with
                     | Ok (st, dropped, status) =>
                         match YAP_V2_snapshot_release h dropped with
                         | Ok h => (h, Some st, status)
                         | _ => (h, Some st, Fault)
                         end
                     | _ => (h, Some st, Fault)
                     end
                 | Err e => (h, Some st, Err e)
                 | Fault => (h, Some st, Fault)
                 end
             | _ => (h, Some st, Fault)
             end
  | _ => io_ret (h, Some st, Fault)
  end
  end.

Definition YAP_V2_snapshot_manager_close (manager : option MANAGER_STATE) (h : heap) : result heap :=
  match manager with
  | None => Ok h
  | Some st => YAP_V2_snapshot_release h (manager_current st)
  end.
End manager.

(** ** Counting references *)

(** How often [b] occurs in an array of slots, and in all snapshots of a heap. *)
Definition occurrences (b : addr) (slots : list (option addr)) : nat := length (filter (fun x => x = Some b) slots).
Definition slots_of (s : YAP_V2_SEARCH_SNAPSHOT) : list (option addr) := default [] (snap_segments s).
Definition uses (snapshots : gmap addr YAP_V2_SEARCH_SNAPSHOT) (b : addr) : nat :=
  sum_list_with (fun p => occurrences b (slots_of p.2)) (map_to_list snapshots).

Definition same_content (s s' : SNAPSHOT_SEGMENT) : Prop :=
  seg_documents s = seg_documents s' /\ seg_tombstones s = seg_tombstones s'.

(** Every segment object is counted by [n], and every address that [n] counts is alive. *)
Record counted (m : gmap addr SNAPSHOT_SEGMENT) (n : addr -> nat) : Prop := {
  counted_object : forall b s, m !! b = Some s -> seg_references s = Z.of_nat (n b) /\ (0 < n b)%nat;
  counted_alive : forall b, (0 < n b)%nat -> is_Some (m !! b);
  counted_bound : forall b, Z.of_nat (n b) < 2 ^ 64 }.

(** [m'] has no object that [m] does not have with the same content. *)
Definition shrinks (m m' : gmap addr SNAPSHOT_SEGMENT) : Prop :=
  forall b s', m' !! b = Some s' -> exists s, m !! b = Some s /\ same_content s s'.

Lemma shrinks_refl m : shrinks m m.
Proof. intros b s H. exists s. by repeat split. Qed.
Lemma shrinks_trans m1 m2 m3 : shrinks m1 m2 -> shrinks m2 m3 -> shrinks m1 m3.
Proof.
  intros H1 H2 b s H. destruct (H2 b s H) as (s2&E2&[? ?]). destruct (H1 b s2 E2) as (s1&E1&[? ?]).
  exists s1. split; [done|]. split; congruence.
Qed.

Lemma occurrences_cons b x l : occurrences b (x :: l) = ((if decide (x = Some b) then 1 else 0) + occurrences b l)%nat.
Proof. unfold occurrences. rewrite filter_cons. by destruct (decide (x = Some b)). Qed.
Lemma occurrences_app b l k : occurrences b (l ++ k) = (occurrences b l + occurrences b k)%nat.
Proof. unfold occurrences. by rewrite filter_app, length_app. Qed.
Lemma occurrences_none b n : occurrences b (replicate n None) = 0%nat.
Proof. induction n as [|n IH]; [done|]. cbn [replicate]. rewrite occurrences_cons, IH. by destruct (decide _). Qed.
Lemma occurrences_length b l : (occurrences b l <= length l)%nat.
Proof. apply length_filter. Qed.

Lemma release_segment_counted m slot n : counted m (fun b => occurrences b [slot] + n b)%nat ->
  exists m', release_segment m slot = Ok m' /\ counted m' n /\ shrinks m m'.
Proof.
  intros [HO HL HB]. unfold release_segment. destruct slot as [a|].
  2: { exists m. split; [done|]. split; [|apply shrinks_refl]. split; done. }
  assert (forall b, occurrences b [Some a] = if decide (a = b) then 1%nat else 0%nat) as Ho.
  { intros b. rewrite occurrences_cons. change (occurrences b []) with 0%nat. destruct (decide (Some a = Some b)), (decide (a = b)); congruence || lia. }
  destruct (HL a) as [s Hs]; [rewrite Ho, decide_True by done; lia|]. rewrite Hs.
  destruct (HO a s Hs) as [Hr _]. rewrite Ho, decide_True in Hr by done. pose proof (HB a) as Ha. rewrite Ho, decide_True in Ha by done.
  rewrite (proj2 (Z.ltb_lt _ _)) by lia. rewrite u64_small by lia.
  destruct (Z.eqb_spec (seg_references s - 1) 0) as [E|N].
  - exists (delete a m). split; [done|]. split.
    + split.
      * intros b s' [Hb Hs']%lookup_delete_Some. destruct (HO b s' Hs') as [? ?]. rewrite Ho, decide_False in * by done. done.
      * intros b Hb. destruct (decide (b = a)) as [->|Nb]; [lia|]. rewrite lookup_delete_ne by done. apply HL. lia.
      * intros b. specialize (HB b). lia.
    + intros b s' [_ Hs']%lookup_delete_Some. by exists s'.
  - exists (<[a := with_seg_references s (seg_references s - 1)]> m). split; [done|]. split.
    + split.
      * intros b s' [[<- <-]|[Hb Hs']]%lookup_insert_Some; [cbn; lia|].
        destruct (HO b s' Hs') as [? ?]. rewrite Ho, decide_False in * by done. done.
      * intros b Hb. destruct (decide (a = b)) as [->|Nb]; [rewrite lookup_insert_eq; eauto|]. rewrite lookup_insert_ne by done.
        apply HL. lia.
      * intros b. specialize (HB b). lia.
    + intros b s' [[<- <-]|[_ Hs']]%lookup_insert_Some; [by exists s|by exists s'].
Qed.

Lemma counted_ext m n n' : (forall b, n b = n' b) -> counted m n -> counted m n'.
Proof. intros E [HO HL HB]. split; intros b; rewrite <- E; auto. Qed.

Lemma release_segments_counted slots : forall m n, counted m (fun b => occurrences b slots + n b)%nat ->
  exists m', release_segments m slots = Ok m' /\ counted m' n /\ shrinks m m'.
Proof.
  induction slots as [|slot slots IH]; intros m n HC; cbn [release_segments].
  { exists m. split_and!; [done|by eapply counted_ext; [|exact HC]|apply shrinks_refl]. }
  destruct (release_segment_counted m slot (fun b => occurrences b slots + n b)%nat) as (m1&->&HC1&Hs1).
  { eapply counted_ext; [|exact HC]. intros b. cbv beta. rewrite !occurrences_cons. change (occurrences b []) with 0%nat. lia. }
  rewrite outcome_bind_ok. destruct (IH m1 n HC1) as (m2&->&HC2&Hs2). exists m2. split_and!; [done..|by eapply shrinks_trans].
Qed.

(** *** The uses of a segment in all snapshots *)
Lemma uses_insert snapshots a s b : snapshots !! a = None ->
  uses (<[a := s]> snapshots) b = (occurrences b (slots_of s) + uses snapshots b)%nat.
Proof. intros H. unfold uses. by rewrite map_to_list_insert. Qed.

Lemma uses_delete snapshots a s b : snapshots !! a = Some s ->
  uses snapshots b = (occurrences b (slots_of s) + uses (delete a snapshots) b)%nat.
Proof.
  intros H. rewrite <- (uses_insert (delete a snapshots) a s b) by apply lookup_delete_eq. by rewrite insert_delete_id.
Qed.

Lemma uses_replace snapshots a s s' b : snapshots !! a = Some s -> slots_of s' = slots_of s ->
  uses (<[a := s']> snapshots) b = uses snapshots b.
Proof.
  intros H E. rewrite (uses_delete snapshots a s b H), <- E, <- (insert_delete_eq snapshots).
  by rewrite uses_insert by apply lookup_delete_eq.
Qed.

Lemma uses_positive snapshots a s b : snapshots !! a = Some s -> Some b ∈ slots_of s -> (0 < uses snapshots b)%nat.
Proof.
  intros H Hb. rewrite (uses_delete _ _ _ _ H). assert (0 < occurrences b (slots_of s))%nat; [|lia].
  unfold occurrences. apply list_elem_of_split in Hb as (l1&l2&->). rewrite filter_app, filter_cons, decide_True by done.
  rewrite length_app. cbn. lia.
Qed.

Lemma uses_bound snapshots b k : (forall a s, snapshots !! a = Some s -> (length (slots_of s) <= k)%nat) ->
  (uses snapshots b <= size snapshots * k)%nat.
Proof.
  induction snapshots as [|a s m Ha IH] using map_ind; intros H.
  - unfold uses. rewrite map_to_list_empty. cbn. lia.
  - rewrite uses_insert, map_size_insert_None by done. pose proof (occurrences_length b (slots_of s)).
    pose proof (H a s (lookup_insert_eq _ _ _)). rewrite Nat.mul_succ_l.
    assert (uses m b <= size m * k)%nat; [|lia]. apply IH. intros a' s' Hs'. apply (H a').
    rewrite lookup_insert_ne; [done|]. intros ->. congruence.
Qed.

(** ** The heap invariant *)
Definition count (a : addr) (owners : list addr) : nat := length (filter (fun x => x = a) owners).

Lemma count_cons a b l : count a (b :: l) = ((if decide (b = a) then 1 else 0) + count a l)%nat.
Proof. unfold count. rewrite filter_cons. by destruct (decide (b = a)). Qed.
Lemma count_permutation a l k : l ≡ₚ k -> count a l = count a k.
Proof. intros H. unfold count. by rewrite H. Qed.
Lemma count_elem a l : a ∈ l -> (0 < count a l)%nat.
Proof. intros [k Hk]%elem_of_Permutation. rewrite (count_permutation a _ _ Hk), count_cons, decide_True by done. lia. Qed.

Lemma count_not_elem a l : a ∉ l -> count a l = 0%nat.
Proof.
  induction l as [|b l IH]; [done|]. intros [Hb Hl]%not_elem_of_cons. rewrite count_cons, decide_False by congruence. by apply IH.
Qed.

(** The slots of a snapshot name live objects with the contents [values]. *)
Definition slot_content (m : gmap addr SNAPSHOT_SEGMENT) (slot : option addr) (v : SNAPSHOT_SEGMENT) : Prop :=
  exists a s, slot = Some a /\ m !! a = Some s /\ same_content s v.

(** A segment in memory: readable identifiers, within the limits of its files. *)
Definition value_ok (v : SNAPSHOT_SEGMENT) : Prop :=
  snapshot_segment_ok v /\ zlen (documents (seg_documents v)) <= YAP_V2_MAX_SEGMENT_DOCUMENTS /\
  zlen (seg_tombstones v) <= YAP_V2_MAX_SEGMENT_DOCUMENTS.

(** A loaded snapshot: one slot per segment of its manifest, and a table that answers for the
    contents of the slots. *)
Record snapshot_ok (m : gmap addr SNAPSHOT_SEGMENT) (s : YAP_V2_SEARCH_SNAPSHOT) : Prop := {
  ok_count : snap_segment_count s = zlen (slots_of s);
  ok_manifest : segment_count (snap_manifest s) = snap_segment_count s;
  ok_limit : segment_count (snap_manifest s) <= YAP_V2_MAX_SEGMENTS;
  ok_contents : exists values, Forall2 (slot_content m) (slots_of s) values /\ Forall value_ok values /\
    answers (snap_visibility s) (segment_entries 0 values) }.

(** [owners] lists the references to snapshots that the threads and the manager hold. *)
Record heap_ok (h : heap) (owners : list addr) : Prop := {
  ok_snapshot : forall a s, snapshot_objects h !! a = Some s ->
    references s = Z.of_nat (count a owners) /\ (0 < count a owners)%nat /\ snapshot_ok (segment_objects h) s;
  ok_alive : forall a, a ∈ owners -> is_Some (snapshot_objects h !! a);
  ok_segments : counted (segment_objects h) (uses (snapshot_objects h));
  ok_fresh : forall b, is_Some (segment_objects h !! b) \/ is_Some (snapshot_objects h !! b) -> (b < next_address h)%nat;
  ok_owners : Z.of_nat (length owners) < 2 ^ 32 }.

Lemma count_bound a l : (count a l <= length l)%nat.
Proof. apply length_filter. Qed.

(** Objects may only change their reference counts while a snapshot uses them. *)
Lemma snapshot_ok_keeps m m' s : (forall b o, Some b ∈ slots_of s -> m !! b = Some o -> exists o', m' !! b = Some o' /\ same_content o o') ->
  snapshot_ok m s -> snapshot_ok m' s.
Proof.
  intros HK [H1 H2 H3 (values&HF&Hok&Ha)]. split; [done..|]. exists values. split; [|done].
  clear - HK HF. induction HF as [|slot v slots values (b&o&->&Ho&Hc) HF IH]; constructor.
  - destruct (HK b o) as (o'&Ho'&Hc'); [by left|done|]. exists b, o'. split_and!; [done..|]. destruct Hc, Hc'. split; congruence.
  - apply IH. intros b' o' Hb'. apply HK. by right.
Qed.

Lemma snapshot_ok_slots m s : snapshot_ok m s -> forall slot, slot ∈ slots_of s -> exists b o, slot = Some b /\ m !! b = Some o.
Proof.
  intros [_ _ _ (values&HF&_)] slot [i Hi]%list_elem_of_lookup_1. destruct (Forall2_lookup_l _ _ _ _ _ HF Hi) as (v&_&b&o&->&Ho&_).
  eauto.
Qed.

Lemma snapshot_destroy_ok h s n : snap_segment_count s = zlen (slots_of s) ->
  counted (segment_objects h) (fun b => occurrences b (slots_of s) + n b)%nat ->
  exists m', snapshot_destroy h s = Ok (set_segments h m') /\ counted m' n /\ shrinks (segment_objects h) m'.
Proof.
  intros Hc HC. unfold snapshot_destroy. unfold slots_of in *. destruct (snap_segments s) as [slots|] eqn:E.
  - change (default [] (Some slots)) with slots in *. destruct (Z.eqb_spec (snap_segment_count s) 0) as [E0|N].
    + rewrite E0 in Hc. destruct slots; [|unfold zlen in Hc; cbn in Hc; lia]. exists (segment_objects h).
      split_and!; [by destruct h|by eapply counted_ext; [|exact HC]|apply shrinks_refl].
    + rewrite (proj2 (Z.ltb_ge _ _)) by lia. rewrite take_ge by (rewrite Hc; unfold zlen; lia).
      destruct (release_segments_counted slots (segment_objects h) n HC) as (m'&->&?&?). rewrite outcome_bind_ok. eauto.
  - rewrite (proj2 (Z.eqb_eq _ _)) by done. exists (segment_objects h).
    split_and!; [by destruct h|by eapply counted_ext; [|exact HC]|apply shrinks_refl].
Qed.

(** The fields of a snapshot that never change. *)
Definition same_snapshot (s s' : YAP_V2_SEARCH_SNAPSHOT) : Prop :=
  snap_manifest s = snap_manifest s' /\ snap_segments s = snap_segments s' /\
  snap_segment_count s = snap_segment_count s' /\ snap_visibility s = snap_visibility s'.

Lemma snapshot_ok_same m s s' : same_snapshot s s' -> snapshot_ok m s -> snapshot_ok m s'.
Proof. intros (E1&E2&E3&E4) [H1 H2 H3 H4]. unfold slots_of in *. split; unfold slots_of; rewrite <- ?E1, <- ?E2, <- ?E3, <- ?E4; done. Qed.

(** The snapshots that [owners] refer to are in both heaps with the same contents. *)
Definition preserved (h h' : heap) (owners : list addr) : Prop :=
  forall a s, a ∈ owners -> snapshot_objects h !! a = Some s ->
    exists s', snapshot_objects h' !! a = Some s' /\ same_snapshot s s' /\
      forall slot o, slot ∈ slots_of s -> (exists b, slot = Some b /\ segment_objects h !! b = Some o) ->
        exists b o', slot = Some b /\ segment_objects h' !! b = Some o' /\ same_content o o'.

Lemma snapshot_retain_ok h owners a : heap_ok h owners -> is_Some (snapshot_objects h !! a) -> Z.of_nat (length owners) + 1 < 2 ^ 32 ->
  exists h', snapshot_retain h a = Ok h' /\ heap_ok h' (a :: owners) /\ preserved h h' owners /\
    segment_objects h' = segment_objects h.
Proof.
  intros HH [s Hs] Hb. destruct HH as [HS HA HC HF HO]. unfold snapshot_retain. rewrite Hs.
  destruct (HS a s Hs) as (Hr&Hp&Hk). pose proof (count_bound a owners).
  rewrite u64_small by lia. eexists. split; [done|]. split; [|split; [|done]].
  - split; cbn [snapshot_objects segment_objects set_snapshots next_address].
    + intros a' s' [[<- <-]|[Na Hs']]%lookup_insert_Some; rewrite count_cons.
      * rewrite decide_True by done. cbn [references with_references]. split_and!; [lia..|].
        by apply (snapshot_ok_same _ s), Hk.
      * rewrite decide_False by done. by apply HS.
    + intros a' [->|Ha']%elem_of_cons; [by rewrite lookup_insert_eq|].
      destruct (decide (a' = a)) as [->|]; [by rewrite lookup_insert_eq|rewrite lookup_insert_ne by done; by apply HA].
    + eapply counted_ext; [|exact HC]. intros b. symmetry. by eapply uses_replace.
    + intros b Hb'. apply HF. destruct (decide (b = a)) as [->|]; [right; by exists s|]. rewrite lookup_insert_ne in Hb' by done. done.
    + cbn. lia.
  - intros a' s' Ha' Hs'. cbn [snapshot_objects set_snapshots segment_objects].
    destruct (decide (a' = a)) as [->|]; [rewrite lookup_insert_eq|rewrite lookup_insert_ne by done].
    + simplify_eq. eexists. split; [done|]. split; [done|]. intros slot o _ (b&->&Hb'). by exists b, o.
    + exists s'. split; [done|]. split; [done|]. intros slot o _ (b&->&Hb'). by exists b, o.
Qed.

(** What a used object becomes when references are released. *)
Lemma shrinks_used m m' n b o : shrinks m m' -> counted m' n -> (0 < n b)%nat -> m !! b = Some o ->
  exists o', m' !! b = Some o' /\ same_content o o'.
Proof.
  intros HS HC Hn Ho. destruct (counted_alive _ _ HC b Hn) as [o' Ho']. exists o'. split; [done|].
  destruct (HS b o' Ho') as (o2&Ho2&?). by simplify_eq.
Qed.

Lemma count_zero_elem a a' l : count a l = 0%nat -> a' ∈ l -> a' <> a.
Proof. intros H Ha' ->. apply count_elem in Ha'. lia. Qed.

Lemma snapshot_release_ok h a l : heap_ok h (a :: l) ->
  exists h', YAP_V2_snapshot_release h (Some a) = Ok h' /\ heap_ok h' l /\ preserved h h' l /\
    (a ∉ l -> snapshot_objects h' = delete a (snapshot_objects h)).
Proof.
  intros [HS HA HC HF HO]. destruct (HA a) as [s Hs]; [by left|]. unfold YAP_V2_snapshot_release. rewrite Hs.
  destruct (HS a s Hs) as (Hr&_&Hk). rewrite count_cons, decide_True in Hr by done. pose proof (count_bound a l).
  cbn [length] in HO. rewrite (proj2 (Z.ltb_lt _ _)) by lia. rewrite u64_small by lia.
  assert (forall a', a' <> a -> count a' (a :: l) = count a' l) as Hne by (intros; by rewrite count_cons, decide_False).
  destruct (Z.eqb_spec (references s - 1) 0) as [E|N].
  - assert (count a l = 0%nat) as Hz by lia.
    destruct (snapshot_destroy_ok (set_snapshots h (delete a (snapshot_objects h))) (with_references s (references s - 1))
      (uses (delete a (snapshot_objects h)))) as (m'&->&HC'&Hsh).
    { exact (ok_count _ _ Hk). }
    { eapply counted_ext; [|exact HC]. intros b. by apply (uses_delete _ _ s). }
    cbn [segment_objects set_snapshots] in Hsh.
    assert (forall a' s', delete a (snapshot_objects h) !! a' = Some s' -> forall b o, Some b ∈ slots_of s' ->
      segment_objects h !! b = Some o -> exists o', m' !! b = Some o' /\ same_content o o') as HK.
    { intros a' s' Hs' b o Hb Ho. eapply shrinks_used; [done|done| |done]. by eapply uses_positive. }
    eexists. split; [done|]. split; [|split].
    + split; cbn [set_segments set_snapshots snapshot_objects segment_objects next_address].
      * intros a' s' Hs'. pose proof Hs' as [Na Hs'']%lookup_delete_Some. destruct (HS a' s' Hs'') as (?&?&?).
        rewrite Hne in * by done. split_and!; [done..|]. eapply snapshot_ok_keeps; [|done]. by eapply HK.
      * intros a' Ha'. rewrite lookup_delete_ne by (intros <-; by apply count_elem in Ha'; lia). apply HA. by right.
      * done.
      * intros b Hb. apply HF. destruct Hb as [[o Ho]|[s' Hs']].
        -- left. destruct (Hsh b o Ho) as (o'&?&_). eauto.
        -- right. apply lookup_delete_Some in Hs' as [_ ?]. eauto.
      * lia.
    + intros a' s' Ha' Hs'. pose proof (count_zero_elem _ _ _ Hz Ha'). cbn [set_segments set_snapshots snapshot_objects segment_objects].
      exists s'. rewrite lookup_delete_ne by done. split; [done|]. split; [done|].
      intros slot o Hslot (b&->&Ho). destruct (HK a' s' ltac:(by rewrite lookup_delete_ne) b o Hslot Ho) as (o'&?&?). eauto.
    + done.
  - eexists. split; [done|]. split; [|split].
    + split; cbn [set_snapshots snapshot_objects segment_objects next_address].
      * intros a' s' [[<- <-]|[Na Hs']]%lookup_insert_Some.
        -- cbn [references with_references]. split_and!; [lia..|]. by apply (snapshot_ok_same _ s), Hk.
        -- rewrite <- Hne by done. by apply HS.
      * intros a' Ha'. destruct (decide (a' = a)) as [->|]; [by rewrite lookup_insert_eq|rewrite lookup_insert_ne by done].
        apply HA. by right.
      * eapply counted_ext; [|exact HC]. intros b. symmetry. by eapply uses_replace.
      * intros b Hb'. apply HF. destruct (decide (b = a)) as [->|]; [right; by exists s|]. rewrite lookup_insert_ne in Hb' by done. done.
      * lia.
    + intros a' s' Ha' Hs'. cbn [set_snapshots snapshot_objects segment_objects].
      destruct (decide (a' = a)) as [->|]; [rewrite lookup_insert_eq|rewrite lookup_insert_ne by done].
      * simplify_eq. eexists. split; [done|]. split; [done|]. intros slot o _ (b&->&Hb'). by exists b, o.
      * exists s'. split; [done|]. split; [done|]. intros slot o _ (b&->&Hb'). by exists b, o.
    + intros Hnin. destruct N. rewrite (count_not_elem a l Hnin) in Hr. lia.
Qed.

(** ** What loading a segment reads *)
Section load_spec.
Context {A : Allocator} (garbage : nat -> Z) (w0 : world) (dir : bytes) (g : Z).

(** The documents and tombstones in the files of [d] agree with its counts and identifier. *)
Definition documents_loaded (d : YAP_V2_SEGMENT_DESCRIPTOR) (s : YAP_V2_SEGMENT) : Prop :=
  exists c bs o, component d YAP_V2_FILE_DOCUMENTS = Some c /\ file_at w0 (component_file dir (id d) (name c)) = Some bs /\
  segment_parse garbage 0 false bs = Ok (s, o) /\ segment_id s = id d /\
  zlen (documents s) = document_count d /\ zlen (passages s) = passage_count d.
Definition tombstones_loaded (d : YAP_V2_SEGMENT_DESCRIPTOR) (ids : list YAP_V2_BYTES_VIEW) : Prop :=
  zlen ids = tombstone_count d /\
  match component d YAP_V2_FILE_TOMBSTONES with
  | None => ids = []
  | Some c => exists bs, file_at w0 (component_file dir (id d) (name c)) = Some bs /\ tombstones_parse 0 bs = Ok ids
  end.
Definition value_loaded (d : YAP_V2_SEGMENT_DESCRIPTOR) (v : SNAPSHOT_SEGMENT) : Prop :=
  segment_intact w0 dir g d /\ documents_loaded d (seg_documents v) /\ tombstones_loaded d (seg_tombstones v).

Context (Hreadable : readable w0).

Lemma named_id_view v : named_view v -> id_view v.
Proof.
  intros [[Hw Hl] Hn]. split_and!; [done| |done]. intros E. unfold view_bytes in Hl. rewrite E in Hl. by rewrite Hl in Hn.
Qed.

Lemma value_loaded_ok d v : value_loaded d v -> value_ok v.
Proof.
  intros (_&(c&bs&o&_&Hf&Hp&_)&(_&Ht)). destruct (Hreadable _ _ Hf) as [Hb Hl].
  pose proof (segment_parse_sound garbage 0 false bs Hb ltac:(lia)) as HS. rewrite Hp in HS.
  destruct HS as ((Hd&_&Hv&_)&_&Hdw&_).
  assert (Forall named_view (seg_tombstones v) /\ zlen (seg_tombstones v) <= YAP_V2_MAX_SEGMENT_DOCUMENTS) as [Ht1 Ht2].
  { destruct (component d YAP_V2_FILE_TOMBSTONES) as [c'|].
  - destruct Ht as (bs'&Hf'&Hp'). destruct (Hreadable _ _ Hf') as [Hb' Hl'].
  pose proof (tombstones_parse_sound 0 bs' Hb' ltac:(lia)) as HT. by rewrite Hp' in HT.
  - rewrite Ht. by split; [constructor|]. }
  split; [|done]. split; [eapply Forall_impl; [exact Ht1|apply named_id_view]|].
  apply Forall_lookup_2. intros i doc Hi. apply named_id_view. split.
  - apply doc_ok_id. split; by eapply Forall_lookup_1.
  - destruct (Forall_lookup_1 _ _ _ _ Hv Hi) as ((Hne&_&Hz&_)&_). specialize (Hne eq_refl). intros E.
  rewrite E in Hz. apply Hne, length_zero_iff_nil. unfold zlen in Hz. lia.
Qed.

Lemma read_file_reads p w : frames w0 w ->
  reads (read_file p) (fun r => match r with Ok bs => file_at w0 p = Some bs | Err _ => True | Fault => False end) w.
Proof.
  intros Hf. unfold read_file. apply (reads_bind _ _ (fun o => forall bs, o = Some bs -> file_at w0 p = Some bs)).
  { apply reads_fopen; [done|]. by rewrite (frames_file _ _ p Hf). }
  intros [bs|] w1 Hbs _; [|by apply reads_ret]. specialize (Hbs bs eq_refl). cbv zeta.
  assert (forall (e : YAP_V2_STATUS) w', reads (do* fclose_rb in io_ret (Err e : result bytes))
  (fun r => match r with Ok bs => file_at w0 p = Some bs | Err _ => True | Fault => False end) w') as Hclose.
  { intros e w'. apply (reads_bind _ _ (fun _ => True)); [by apply reads_noop|]. intros. by apply reads_ret. }
  apply (reads_bind _ _ (fun _ => True)); [by apply reads_noop|]. intros [|] w2 _ _; cbn [negb]; [|apply Hclose].
  apply (reads_bind _ _ (fun _ => True)); [by apply reads_noop|]. intros [|] w3 _ _; cbn [negb]; [|apply Hclose].
  destruct (_ <? _); [apply Hclose|].
  apply (reads_bind _ _ (fun _ => True)); [by apply reads_noop|]. intros [|] w4 _ _; cbn [negb]; [|apply Hclose].
  destruct (_ && _); [apply Hclose|].
  apply (reads_bind _ _ (fun _ => True)). { destruct (_ <? _); [by apply reads_noop|by apply reads_ret]. }
  intros [|] w5 _ _; cbn [negb]; [|apply Hclose].
  apply (reads_bind _ _ (fun _ => True)); [by apply reads_noop|]. intros [|] w6 _ _; by apply reads_ret.
Qed.

(** Results of a computation that are right or errors. *)
Definition returns {B} (P : B -> Prop) (r : result B) : Prop := match r with Ok b => P b | Err _ => True | Fault => False end.

Lemma read_documents_reads d w : frames w0 w -> reads (read_documents garbage dir d) (returns (documents_loaded d)) w.
Proof.
  intros Hf. unfold read_documents. destruct (component d YAP_V2_FILE_DOCUMENTS) as [c|] eqn:Ec; [|by apply reads_ret].
  unfold component_path. destruct (_ <? _); [by apply reads_ret|]. destruct (negb _); [by apply reads_ret|].
  unfold YAP_V2_segment_read. apply (reads_bind _ _ (fun r => match r with
  | Ok (s, o) => exists bs, file_at w0 (component_file dir (id d) (name c)) = Some bs /\ segment_parse garbage 0 false bs = Ok (s, o)
  | Err _ => True | Fault => False end)).
  - eapply reads_bind; [by apply read_file_reads|]. intros r w1 Hr _. apply reads_ret. destruct r as [bs| |]; [|done..].
  rewrite outcome_bind_ok. destruct (Hreadable _ _ Hr) as [Hb Hl].
  pose proof (segment_parse_sound garbage 0 false bs Hb ltac:(lia)) as HS.
  destruct (segment_parse garbage 0 false bs) as [[s o]| |] eqn:E; [|done..]. by exists bs.
  - intros r w1 Hr _. apply reads_ret. destruct r as [[s o]| |]; [|done..]. rewrite outcome_bind_ok.
  destruct (_ || _) eqn:T; [done|]. btests. destruct Hr as (bs&?&?). by exists c, bs, o.
Qed.

Lemma read_tombstone_ids_reads d w : frames w0 w -> reads (read_tombstone_ids dir d) (returns (tombstones_loaded d)) w.
Proof.
  intros Hf. unfold read_tombstone_ids, tombstones_loaded. apply (reads_bind _ _ (returns (fun ids =>
  match component d YAP_V2_FILE_TOMBSTONES with
  | None => ids = []
  | Some c => exists bs, file_at w0 (component_file dir (id d) (name c)) = Some bs /\ tombstones_parse 0 bs = Ok ids
  end))).
  - destruct (component d YAP_V2_FILE_TOMBSTONES) as [c|]; [|by apply reads_ret].
  unfold component_path. destruct (_ <? _); [by apply reads_ret|]. destruct (negb _); [by apply reads_ret|].
  unfold YAP_V2_tombstones_read. eapply reads_bind; [by apply read_file_reads|]. intros r w1 Hr _. apply reads_ret.
  destruct r as [bs| |]; [|done..]. rewrite outcome_bind_ok. destruct (Hreadable _ _ Hr) as [Hb Hl].
  pose proof (tombstones_parse_sound 0 bs Hb ltac:(lia)) as HS. destruct (tombstones_parse 0 bs) eqn:E; [|done..]. by exists bs.
  - intros r w1 Hr _. apply reads_ret. destruct r as [ids| |]; [|done..]. rewrite outcome_bind_ok.
  destruct (Z.eqb_spec (zlen ids) (tombstone_count d)); cbn [negb]; done.
Qed.
End load_spec.

(** ** Loading keeps the counts *)

(** [h'] has one more reference per slot of [slots], and every object of [h]. *)
Record grown (h h' : heap) (n : addr -> nat) (slots : list (option addr)) : Prop := {
  grown_snapshots : snapshot_objects h' = snapshot_objects h;
  grown_counted : counted (segment_objects h') (fun b => occurrences b slots + n b)%nat;
  grown_next : (next_address h <= next_address h')%nat;
  grown_fresh : forall b, is_Some (segment_objects h' !! b) -> (b < next_address h')%nat;
  grown_objects : forall b o, segment_objects h !! b = Some o -> exists o', segment_objects h' !! b = Some o' /\ same_content o o' }.

Lemma grown_refl h n : counted (segment_objects h) n -> (forall b, is_Some (segment_objects h !! b) -> (b < next_address h)%nat) ->
  grown h h n [].
Proof. intros HC HF. split; [done|by eapply counted_ext; [|exact HC]|lia|done|]. intros b o Ho. by exists o. Qed.

Lemma grown_none h n k : counted (segment_objects h) n -> (forall b, is_Some (segment_objects h !! b) -> (b < next_address h)%nat) ->
  grown h h n (replicate k None).
Proof.
  intros HC HF. split; [done| |lia|done|].
  - eapply counted_ext; [|exact HC]. intros b. cbv beta. by rewrite occurrences_none.
  - intros b o Ho. by exists o.
Qed.

Lemma grown_trans h1 h2 h3 n s1 s2 : grown h1 h2 n s1 -> grown h2 h3 (fun b => occurrences b s1 + n b)%nat s2 -> grown h1 h3 n (s1 ++ s2).
Proof.
  intros [E1 _ Hn1 _ HO1] [E2 HC Hn2 HF HO2]. split; [congruence| |lia|done|].
  - eapply counted_ext; [|exact HC]. intros b. cbv beta. rewrite occurrences_app. lia.
  - intros b o Ho. destruct (HO1 b o Ho) as (o1&Ho1&[? ?]), (HO2 b o1 Ho1) as (o2&Ho2&[? ?]). exists o2.
    split; [done|]. split; congruence.
Qed.

Lemma occurrences_single b a : occurrences b [Some a] = if decide (a = b) then 1%nat else 0%nat.
Proof. rewrite occurrences_cons. change (occurrences b []) with 0%nat. destruct (decide (Some a = Some b)), (decide (a = b)); congruence || lia. Qed.

(** A new object with one reference. *)
Lemma grown_new h n d t : counted (segment_objects h) n -> (forall b, is_Some (segment_objects h !! b) -> (b < next_address h)%nat) ->
  grown h (Heap (<[next_address h := SnapshotSegment 1 d t]> (segment_objects h)) (snapshot_objects h) (S (next_address h))) n
    [Some (next_address h)].
Proof.
  intros [HO HL HB] HF. set (a := next_address h) in *.
  assert (segment_objects h !! a = None) as Ha.
  { destruct (segment_objects h !! a) eqn:E; [|done]. pose proof (HF a ltac:(eauto)). lia. }
  assert (n a = 0%nat) as Hna. { destruct (n a) eqn:E; [done|]. destruct (HL a) as [? ?]; [lia|congruence]. }
  split; cbn [snapshot_objects segment_objects next_address]; [done| |lia| |].
  - split.
    + intros b s [[<- <-]|[Nb Hs]]%lookup_insert_Some; rewrite occurrences_single.
      * rewrite decide_True, Hna by done. cbn. lia.
      * rewrite decide_False by done. by apply HO.
    + intros b. rewrite occurrences_single. destruct (decide (a = b)) as [->|]; [by rewrite lookup_insert_eq|].
      rewrite lookup_insert_ne by done. apply HL.
    + intros b. rewrite occurrences_single. destruct (decide (a = b)) as [<-|]; [rewrite Hna; cbn; lia|apply HB].
  - intros b. destruct (decide (b = a)) as [->|]; [lia|]. rewrite lookup_insert_ne by done. intros Hb%HF. lia.
  - intros b o Ho. exists o. rewrite lookup_insert_ne by congruence. done.
Qed.

(** One more reference to an object. *)
Lemma grown_share h n a s : counted (segment_objects h) n -> (forall b, is_Some (segment_objects h !! b) -> (b < next_address h)%nat) ->
  segment_objects h !! a = Some s -> Z.of_nat (n a) + 1 < 2 ^ 64 ->
  grown h (set_segments h (<[a := with_seg_references s (u64 (seg_references s + 1))]> (segment_objects h))) n [Some a].
Proof.
  intros [HO HL HB] HF Hs Hb. destruct (HO a s Hs) as [Hr Hp]. rewrite u64_small by lia.
  split; cbn [set_segments snapshot_objects segment_objects next_address]; [done| |lia| |].
  - split.
    + intros b s' [[<- <-]|[Nb Hs']]%lookup_insert_Some; rewrite occurrences_single.
      * rewrite decide_True by done. cbn. lia.
      * rewrite decide_False by done. by apply HO.
    + intros b. rewrite occurrences_single. destruct (decide (a = b)) as [->|]; [by rewrite lookup_insert_eq|].
      rewrite lookup_insert_ne by done. apply HL.
    + intros b. rewrite occurrences_single. destruct (decide (a = b)) as [<-|]; [lia|apply HB].
  - intros b Hb'. apply HF. destruct (decide (b = a)) as [->|]; [eauto|]. by rewrite lookup_insert_ne in Hb'.
  - intros b o Ho. destruct (decide (b = a)) as [->|]; [|exists o; by rewrite lookup_insert_ne].
    rewrite lookup_insert_eq. simplify_eq. eexists. split; [done|]. done.
Qed.

Section load_heap.
Context {A : Allocator} (garbage : nat -> Z) (mutex_ok : addr -> bool) (w0 : world) (dir : bytes) (g : Z) (Hreadable : readable w0).

(** The segments of [h] are counted by [n] and lie below the next address. *)
Definition accounted (h : heap) (n : addr -> nat) : Prop :=
  counted (segment_objects h) n /\ forall b, is_Some (segment_objects h !! b) -> (b < next_address h)%nat.

Lemma grown_accounted h h' n slots : grown h h' n slots -> accounted h' (fun b => occurrences b slots + n b)%nat.
Proof. intros []. by split. Qed.

Lemma load_fresh_reads d h n w : frames w0 w -> accounted h n ->
  reads (load_fresh garbage mutex_ok dir g d h) (fun r => grown h r.1.1 n [r.1.2] /\
  returns (fun _ => exists a v, r.1.2 = Some a /\ segment_objects r.1.1 !! a = Some v /\ value_loaded garbage w0 dir g d v) r.2) w.
Proof.
  intros Hf [HC HF]. unfold load_fresh. pose proof (grown_none h n 1 HC HF) as HN. cbn [replicate] in HN.
  eapply reads_bind; [by apply (verify_segment_reads garbage dir g d w0)|].
  intros [[]|e|] w1 Hv Hf1; [|by apply reads_ret|done]. cbn in Hv.
  destruct (negb _); [by apply reads_ret|]. destruct (negb _); [by apply reads_ret|]. cbv zeta.
  assert (frames w0 w1) as Hfw1 by (by eapply frames_trans).
  eapply reads_bind; [by apply (read_documents_reads garbage w0 dir Hreadable)|].
  intros [docs|e|] w2 Hd Hf2; [|by apply reads_ret; split; [apply grown_new|]|done]. cbn in Hd.
  eapply reads_bind; [apply (read_tombstone_ids_reads w0 dir Hreadable); by eapply frames_trans|].
  intros [ids|e|] w3 Ht Hf3; [|by apply reads_ret; split; [apply grown_new|]|done]. cbn in Ht.
  apply reads_ret. split; [by apply grown_new|]. cbn [fst snd returns]. eexists _, _. split; [done|].
  cbn [segment_objects]. rewrite lookup_insert_eq. split; [done|]. by split.
Qed.

(** The previous snapshot and its segment map. *)
Definition previous_ok (previous : option (YAP_V2_SEARCH_SNAPSHOT * YAP_V2_MANIFEST_SEGMENT_MAP)) (n : addr -> nat) : Prop :=
  match previous with
  | None => True
  | Some (p, map) =>
  map_ok (snap_manifest p) map /\ length (slots_of p) = length (segments (snap_manifest p)) /\
  forall slot, slot ∈ slots_of p -> exists b, slot = Some b /\ (0 < n b)%nat
  end.

(** A slot is freshly read from intact files, or shared with the previous snapshot, where it
belongs to an equal descriptor. *)
Definition slot_loaded (previous : option (YAP_V2_SEARCH_SNAPSHOT * YAP_V2_MANIFEST_SEGMENT_MAP)) (m : gmap addr SNAPSHOT_SEGMENT)
  (d : YAP_V2_SEGMENT_DESCRIPTOR) (slot : option addr) : Prop :=
  exists a v, slot = Some a /\ m !! a = Some v /\
  (value_loaded garbage w0 dir g d v \/
 exists p map i, previous = Some (p, map) /\ segments (snap_manifest p) !! i = Some d /\ slots_of p !! i = Some (Some a)).

Lemma slot_loaded_grown previous h h' n slots d slot : grown h h' n slots ->
  slot_loaded previous (segment_objects h) d slot -> slot_loaded previous (segment_objects h') d slot.
Proof.
  intros HG (a&v&->&Hv&HL). destruct (grown_objects _ _ _ _ HG a v Hv) as (v'&Hv'&[E1 E2]). exists a, v'. split_and!; [done..|].
  destruct HL as [HL|HL]; [left|by right]. unfold value_loaded in *. by rewrite <- E1, <- E2.
Qed.

Lemma load_segment_reads previous d h n w : frames w0 w -> accounted h n -> previous_ok previous n ->
  (forall b, Z.of_nat (n b) + 1 < 2 ^ 64) ->
  reads (load_segment garbage mutex_ok dir g previous d h) (fun r => grown h r.1.1 n [r.1.2] /\
  returns (fun _ => slot_loaded previous (segment_objects r.1.1) d r.1.2) r.2) w.
Proof.
  intros Hf Ha Hp Hb. assert (reads (load_fresh garbage mutex_ok dir g d h) (fun r => grown h r.1.1 n [r.1.2] /\
  returns (fun _ => slot_loaded previous (segment_objects r.1.1) d r.1.2) r.2) w) as Hfresh.
  { eapply reads_mono; [by apply load_fresh_reads|]. intros [[h' slot] st] [HG HR]. split; [done|].
  destruct st as [u| |]; [|done..]. destruct HR as (a&v&?&?&?). exists a, v. split_and!; [done..|by left]. }
  unfold load_segment. destruct previous as [[p map]|]; [|done]. destruct Hp as ((Hin&Hout)&Hlen&Hslots).
  destruct (decide (id d ∈ segment_ids (snap_manifest p))) as [Hi|Hi]; [|by rewrite (Hout _ Hi)].
  unfold segment_ids in Hi. apply list_elem_of_fmap in Hi as (s&Es&[i Hs]%list_elem_of_lookup_1).
  rewrite Es, (Hin i s Hs), Nat2Z.id, Hs. destruct (YAP_V2_segment_descriptor_equal (Some s) (Some d)) eqn:Eq; [|done].
  apply segment_descriptor_equal_spec in Eq as ->. apply reads_ret. unfold share_segment.
  destruct (lookup_lt_is_Some_2 (slots_of p) i) as [slot Hslot]; [rewrite Hlen; by eapply lookup_lt_Some|].
  destruct (Hslots slot) as (a&->&Hna); [by eapply list_elem_of_lookup_2|].
  assert (exists slots, snap_segments p = Some slots /\ slots = slots_of p) as (slots&->&->).
  { unfold slots_of in *. destruct (snap_segments p) as [l|]; [by exists l|done]. }
  rewrite Nat2Z.id, Hslot. destruct Ha as [HC HF]. destruct (counted_alive _ _ HC a Hna) as [v Hv]. rewrite Hv.
  split; [by apply grown_share|]. cbn [fst snd returns]. eexists a, _. split; [done|]. cbn [set_segments segment_objects].
  rewrite lookup_insert_eq. split; [done|]. right. by exists p, map, i.
Qed.

Lemma previous_ok_more previous n n' : (forall b, (n b <= n' b)%nat) -> previous_ok previous n -> previous_ok previous n'.
Proof.
  intros Hle. destruct previous as [[p map]|]; [|done]. intros (?&?&HS). split_and!; [done..|].
  intros slot Hs. destruct (HS slot Hs) as (b&?&?). exists b. split; [done|]. specialize (Hle b). lia.
Qed.

Lemma load_segments_reads previous ds : forall h n w, frames w0 w -> accounted h n -> previous_ok previous n ->
  (forall b, Z.of_nat (n b) + zlen ds < 2 ^ 64) ->
  reads (load_segments garbage mutex_ok dir g previous ds h) (fun r => length r.1.2 = length ds /\ grown h r.1.1 n r.1.2 /\
  returns (fun _ => Forall2 (slot_loaded previous (segment_objects r.1.1)) ds r.1.2) r.2) w.
Proof.
  induction ds as [|d ds IH]; intros h n w Hf Ha Hp Hb; cbn [load_segments].
  { apply reads_ret. split_and!; [done|by apply grown_refl; apply Ha|constructor]. }
  assert (forall b, Z.of_nat (n b) + 1 + zlen ds < 2 ^ 64) as Hb' by (intros b; specialize (Hb b); rewrite zlen_cons in Hb; lia).
  pose proof (zlen_nonneg ds). eapply reads_bind.
  { apply load_segment_reads; [done..|]. intros b. specialize (Hb' b). lia. }
  intros [[h1 slot] st] w1 [HG HR] Hf1. cbn [fst snd] in *. destruct st as [u|e|]; [|apply reads_ret|done].
  - assert (accounted h1 (fun b => occurrences b [slot] + n b)%nat) as Ha1 by (by eapply grown_accounted).
  assert (forall b, (occurrences b [slot] <= 1)%nat) as Ho by (intros b; apply occurrences_length).
  eapply reads_bind.
  { eapply (IH h1 _ w1); [by eapply frames_trans|exact Ha1| |].
  - eapply previous_ok_more; [|exact Hp]. intros b. cbv beta. lia.
  - intros b. specialize (Hb' b). specialize (Ho b). cbv beta. lia. }
  intros [[h2 slots] st2] w2 (HL&HG2&HR2) _. cbn [fst snd] in *. apply reads_ret. cbn [fst snd]. split_and!.
  + cbn. by rewrite HL.
  + exact (grown_trans _ _ _ _ [slot] slots HG HG2).
  + destruct st2; [|done..]. cbn in HR, HR2 |- *. constructor; [|done]. by eapply slot_loaded_grown.
  - cbn [fst snd]. split_and!; [cbn; by rewrite length_replicate| |done].
  assert (accounted h1 (fun b => occurrences b [slot] + n b)%nat) as [HC1 HF1] by (by eapply grown_accounted).
  exact (grown_trans _ _ _ _ [slot] _ HG (grown_none h1 _ (length ds) HC1 HF1)).
Qed.
End load_heap.

(** ** Loading a snapshot *)
Lemma segment_values_spec m slots : (forall slot, slot ∈ slots -> exists b o, slot = Some b /\ m !! b = Some o) ->
  exists values, segment_values m slots = Ok values /\ Forall2 (fun slot v => exists b, slot = Some b /\ m !! b = Some v) slots values.
Proof.
  induction slots as [|slot slots IH]; intros H; cbn [segment_values]; [by exists []|].
  destruct (H slot) as (b&o&->&Ho); [by left|]. rewrite Ho. destruct IH as (values&->&HF).
  { intros slot' Hs. apply H. by right. }
  rewrite outcome_bind_ok. exists (o :: values). split; [done|]. constructor; [by exists b|done].
Qed.

Lemma document_entries_length docs : forall s i, zlen (document_entries s i docs) = zlen docs.
Proof. induction docs as [|d docs IH]; intros s i; cbn [document_entries]; [done|]. by rewrite !zlen_cons, IH. Qed.

Lemma segment_entries_bound values : Forall value_ok values -> forall s,
  zlen (segment_entries s values) <= zlen values * (2 * YAP_V2_MAX_SEGMENT_DOCUMENTS).
Proof.
  induction 1 as [|v values (_&Hd&Ht) _ IH]; intros s; cbn [segment_entries]; [done|].
  rewrite !zlen_app, zlen_fmap, document_entries_length, zlen_cons. specialize (IH (s + 1)). lia.
Qed.

Section snapshot_load.
Context {A : Allocator} (garbage : nat -> Z) (mutex_ok : addr -> bool) (w0 : world) (Hreadable : readable w0).
Context (arrays_ok : forall n, 0 < n <= YAP_V2_MAX_SEGMENTS -> alloc_ok (n * 8) = true).

Lemma manifest_load_reads p fp m0 w : frames w0 w -> fp <> Fault ->
  reads (YAP_V2_manifest_load_for_config (Some p) fp m0)
  (fun r => returns (fun _ => file_at w0 p = Some (manifest_image r.1) /\ manifest_valid r.1 /\ fp = Ok (config_fingerprint r.1)) r.2) w.
Proof.
  intros Hf Hfp. unfold YAP_V2_manifest_load_for_config. destruct fp as [fp|e|]; [|by apply reads_ret|done].
  assert (file_bytes_ok w p) as Hb.
  { intros data Hd. rewrite (frames_file _ _ p Hf) in Hd. by apply (Hreadable p data). }
  apply (reads_bind _ _ (load_outcome w p m0)).
  - apply wp_load; [done|intros s r HL; split; [done|by exists s]|intros s; by exists s].
  - intros [m r] w1 HL _. apply reads_ret. destruct r as [[]| |]; [|done..].
  destruct (load_outcome_file w p m0 m Hb HL) as (HF&_&Hv&_). rewrite (frames_file _ _ p Hf) in HF.
  destruct (bool_decide_reflect (fp = config_fingerprint m)) as [->|]; cbn; done.
Qed.

(** The snapshot that a load starts from. *)
Definition base_ok (h : heap) (n : addr -> nat) (previous : option YAP_V2_SEARCH_SNAPSHOT) : Prop :=
  match previous with
  | None => True
  | Some p => snapshot_ok (segment_objects h) p /\ forall b, Some b ∈ slots_of p -> (0 < n b)%nat
  end.

(** Every segment of the new snapshot was read from intact files or is shared with [previous]. *)
Definition segments_loaded (dir : bytes) (previous : option YAP_V2_SEARCH_SNAPSHOT) (m : gmap addr SNAPSHOT_SEGMENT)
  (s : YAP_V2_SEARCH_SNAPSHOT) : Prop :=
  exists p, fst <$> p = previous /\
  Forall2 (slot_loaded garbage w0 dir (manifest_generation (snap_manifest s)) p m) (segments (snap_manifest s)) (slots_of s).

Lemma map_build_previous h n p : base_ok h n (Some p) ->
  match YAP_V2_manifest_segment_map_build (Some (snap_manifest p)) with
  | (map, Ok _) => previous_ok (Some (p, map)) n
  | (_, Err _) => True
  | (_, Fault) => False
  end.
Proof.
  intros [Hk Hn]. pose proof (segment_map_build_spec (snap_manifest p) (ok_limit _ _ Hk)) as HB.
  destruct (YAP_V2_manifest_segment_map_build _) as [map r]. destruct HB as [[-> _]|HB]; [done|].
  destruct (decide _); destruct HB as [-> HB]; [|done]. split; [done|]. split.
  - pose proof (ok_count _ _ Hk) as E. rewrite <- (ok_manifest _ _ Hk) in E. unfold segment_count, zlen in E. lia.
  - intros slot Hs. destruct (snapshot_ok_slots _ _ Hk slot Hs) as (b&o&->&_). exists b. split; [done|]. by apply Hn.
Qed.

(** The objects in the slots of a loaded snapshot are well formed. *)
Lemma slot_loaded_value dir g h h' n slots previous map d slot : base_ok h n previous -> grown h h' n slots ->
  fst <$> map = previous -> slot_loaded garbage w0 dir g map (segment_objects h') d slot ->
  exists a v, slot = Some a /\ segment_objects h' !! a = Some v /\ value_ok v.
Proof.
  intros Hb HG Hm (a&v&->&Hv&HL). exists a, v. split_and!; [done..|].
  destruct HL as [HL|(p&mp&i&->&_&Hs)]; [by eapply value_loaded_ok|]. cbn in Hm. subst previous. destruct Hb as [Hk _].
  destruct (ok_contents _ _ Hk) as (values&HF&Hok&_). destruct (Forall2_lookup_l _ _ _ _ _ HF Hs) as (v0&Hv0&a'&o&[= <-]&Ho&[E1 E2]).
  destruct (grown_objects _ _ _ _ HG a o Ho) as (v'&Hv'&[E3 E4]). simplify_eq.
  pose proof (Forall_lookup_1 _ _ _ _ Hok Hv0) as HV. unfold value_ok, snapshot_segment_ok in *. by rewrite <- E3, <- E4, E1, E2.
Qed.

(** Building the table of a snapshot whose segments are loaded. *)
Lemma visibility_loaded h n slots previous map dir g h' (ds : list YAP_V2_SEGMENT_DESCRIPTOR) : base_ok h n previous -> grown h h' n slots ->
  fst <$> map = previous -> Forall2 (slot_loaded garbage w0 dir g map (segment_objects h')) ds slots -> zlen ds <= YAP_V2_MAX_SEGMENTS ->
  match (values ← segment_values (segment_objects h') slots; snapshot_build_visibility values) with
  | Ok t => exists values, Forall2 (slot_content (segment_objects h')) slots values /\ Forall value_ok values /\ answers t (segment_entries 0 values)
  | Err _ => True
  | Fault => False
  end.
Proof.
  intros Hb HG Hm HF Hl.
  assert (forall slot, slot ∈ slots -> exists a v, slot = Some a /\ segment_objects h' !! a = Some v /\ value_ok v) as HV.
  { intros slot [i Hi]%list_elem_of_lookup_1. destruct (Forall2_lookup_r _ _ _ _ _ HF Hi) as (d&_&Hd). by eapply slot_loaded_value. }
  destruct (segment_values_spec (segment_objects h') slots) as (values&->&HFv).
  { intros slot Hs. destruct (HV slot Hs) as (a&v&?&?&_). eauto. }
  rewrite outcome_bind_ok.
  assert (Forall value_ok values) as Hok.
  { apply Forall_lookup_2. intros i v Hv. destruct (Forall2_lookup_r _ _ _ _ _ HFv Hv) as (slot&Hs&b&->&Hbv).
  destruct (HV (Some b)) as (a&v'&[= <-]&?&?); [by eapply list_elem_of_lookup_2|]. by simplify_eq. }
  assert (zlen values = zlen ds) as Hz by (unfold zlen; rewrite <- (Forall2_length _ _ _ HFv), (Forall2_length _ _ _ HF); done).
  pose proof (segment_entries_bound values Hok 0). unfold YAP_V2_MAX_SEGMENTS, YAP_V2_MAX_SEGMENT_DOCUMENTS in *.
  pose proof (build_visibility_spec values) as HB. destruct (snapshot_build_visibility values) as [t| |]; [|done|].
  - exists values. split_and!; [|done|apply HB; [|lia]].
  + eapply Forall2_impl; [exact HFv|]. intros slot v (b&->&Hbv). by exists b, v.
  + eapply Forall_impl; [exact Hok|]. by intros v [? _].
  - apply HB; [|lia]. eapply Forall_impl; [exact Hok|]. by intros v [? _].
Qed.

Lemma load_manifest_segments_reads dir previous m h n w : frames w0 w -> accounted h n -> base_ok h n previous ->
  segment_count m <= YAP_V2_MAX_SEGMENTS -> (forall b, Z.of_nat (n b) + YAP_V2_MAX_SEGMENTS < 2 ^ 64) ->
  reads (load_manifest_segments garbage mutex_ok dir previous m h)
  (fun r => grown h r.1.1 n (slots_of r.1.2) /\ snap_segment_count r.1.2 = zlen (slots_of r.1.2) /\
  returns (fun _ => references r.1.2 = 1 /\ snap_manifest r.1.2 = m /\ snapshot_ok (segment_objects r.1.1) r.1.2 /\
    segments_loaded dir previous (segment_objects r.1.1) r.1.2) r.2) w.
Proof.
  intros Hf Ha Hp Hm Hn. unfold load_manifest_segments. cbv zeta. pose proof (zlen_nonneg (segments m)) as Hz. fold (segment_count m) in Hz.
  assert ((0 <? segment_count m) && negb (alloc_ok (segment_count m * 8)) = false) as ->.
  { destruct (Z.ltb_spec 0 (segment_count m)); [|done]. by rewrite arrays_ok. }
  set (empty := if 0 <? segment_count m then _ else _).
  assert (default [] empty = replicate (Z.to_nat (segment_count m)) None) as He.
  { subst empty. destruct (Z.ltb_spec 0 (segment_count m)); [done|]. by replace (segment_count m) with 0 by lia. }
  match goal with |- reads (match ?x with _ => _ end) _ _ => set (mapr := x) end.
  assert (returns (fun mp => fst <$> mp = previous /\ previous_ok mp n) mapr) as HM.
  { subst mapr. destruct previous as [p|]; [|done]. pose proof (map_build_previous h n p Hp) as HB.
  destruct (YAP_V2_manifest_segment_map_build _) as [map [u| |]]; [|done..]. by split. }
  clearbody mapr. destruct mapr as [mp|e|]; [|apply reads_ret; cbn [fst snd returns]|done].
  2: { unfold slots_of. cbn [snap_segments snap_segment_count]. rewrite He, zlen_replicate. split_and!; [by apply grown_none; apply Ha|lia|done]. }
  destruct HM as [HM1 HM2]. eapply reads_bind.
  { eapply (load_segments_reads garbage mutex_ok w0 dir (manifest_generation m) Hreadable mp (segments m) h n w); [done..|].
  intros b. specialize (Hn b). unfold segment_count in Hm. lia. }
  intros [[h' slots] st] w1 (HL&HG&HR) _. cbn [fst snd] in *. apply reads_ret.
  set (array := if 0 <? segment_count m then Some slots else None).
  assert (default [] array = slots) as Har.
  { subst array. destruct (Z.ltb_spec 0 (segment_count m)); [done|]. cbn. symmetry. apply length_zero_iff_nil.
  unfold segment_count, zlen in *. lia. }
  assert (segment_count m = zlen slots) as Hc by (unfold segment_count, zlen; by rewrite HL).
  assert (forall t, slots_of (SearchSnapshot 1 m array (segment_count m) t) = slots) as Hslots by (intros; done).
  destruct st as [u|e|]; cbn [returns] in HR; [|cbn [fst snd returns]; rewrite Hslots; by split_and!|done].
  pose proof (visibility_loaded h n slots previous mp dir (manifest_generation m) h' (segments m) Hp HG HM1 HR Hm) as HV.
  destruct (segment_values _ _ ≫= _) as [t| |]; cbn [fst snd returns]; [|rewrite Hslots; by split_and!|done].
  rewrite Hslots. split_and!; try done.
  - split; rewrite ?Hslots; done.
  - exists mp. split; [done|]. cbn [snap_manifest]. by rewrite Hslots.
Qed.

Lemma heap_size h owners : heap_ok h owners -> (size (snapshot_objects h) <= length owners)%nat.
Proof.
  intros HH. rewrite <- length_map_to_list, <- (length_fmap fst). apply submseteq_length, NoDup_submseteq.
  - apply NoDup_fst_map_to_list.
  - intros a ([a' s]&->&Hs%elem_of_map_to_list)%list_elem_of_fmap. cbn. destruct (ok_snapshot _ _ HH a' s Hs) as (_&Hc&_).
  destruct (decide (a' ∈ owners)) as [|N]; [done|]. rewrite (count_not_elem _ _ N) in Hc. lia.
Qed.

Lemma heap_uses_bound h owners b : heap_ok h owners -> Z.of_nat (uses (snapshot_objects h) b) + YAP_V2_MAX_SEGMENTS < 2 ^ 64.
Proof.
  intros HH. pose proof (heap_size h owners HH). pose proof (ok_owners _ _ HH).
  assert (uses (snapshot_objects h) b <= size (snapshot_objects h) * Z.to_nat YAP_V2_MAX_SEGMENTS)%nat.
  { apply uses_bound. intros a s Hs. destruct (ok_snapshot _ _ HH a s Hs) as (_&_&Hk).
  pose proof (ok_count _ _ Hk). pose proof (ok_manifest _ _ Hk). pose proof (ok_limit _ _ Hk). unfold zlen in *. lia. }
  unfold YAP_V2_MAX_SEGMENTS in *. nia.
Qed.

(** Objects that grew and were released again keep the snapshots that use them. *)
Lemma preserved_objects h h' owners : heap_ok h owners ->
  (forall a s, snapshot_objects h !! a = Some s -> snapshot_objects h' !! a = Some s) ->
  (forall b o, (0 < uses (snapshot_objects h) b)%nat -> segment_objects h !! b = Some o ->
 exists o', segment_objects h' !! b = Some o' /\ same_content o o') -> preserved h h' owners.
Proof.
  intros HH HS HO a s Ha Hs. exists s. split; [by apply HS|]. split; [done|]. intros slot o Hslot (b&->&Ho).
  destruct (HO b o) as (o'&?&?); [by eapply uses_positive|done|]. eauto.
Qed.

Lemma heap_ok_load h h' owners : heap_ok h owners -> snapshot_objects h' = snapshot_objects h ->
  counted (segment_objects h') (uses (snapshot_objects h)) -> (next_address h <= next_address h')%nat ->
  (forall b, is_Some (segment_objects h' !! b) -> (b < next_address h')%nat) ->
  (forall b o, (0 < uses (snapshot_objects h) b)%nat -> segment_objects h !! b = Some o ->
 exists o', segment_objects h' !! b = Some o' /\ same_content o o') -> heap_ok h' owners.
Proof.
  intros [HS HA _ HF HO] E HC Hn HF' HK. split; rewrite ?E; [|done|done| |done].
  - intros a s Hs. destruct (HS a s Hs) as (?&?&Hk). split_and!; [done..|]. eapply snapshot_ok_keeps; [|done].
  intros b o Hb. apply HK. by eapply uses_positive.
  - intros b [Hb|Hb]; [by apply HF'|]. pose proof (HF b (or_intror Hb)). lia.
Qed.

Lemma heap_ok_add h h' owners c s : heap_ok h owners -> (c < next_address h')%nat -> snapshot_objects h !! c = None ->
  Z.of_nat (length owners) + 1 < 2 ^ 32 -> references s = 1 -> snapshot_ok (segment_objects h') s ->
  grown h h' (uses (snapshot_objects h)) (slots_of s) ->
  heap_ok (set_snapshots h' (<[c := s]> (snapshot_objects h'))) (c :: owners).
Proof.
  intros HH Hc Hn Ho Hr Hk HG. pose proof HH as [HS HA HC HF _]. destruct HG as [E HC' Hnext HF' HK].
  assert (c ∉ owners) as Hno by (intros Hin; destruct (HA c Hin); congruence).
  assert (forall a s', snapshot_objects h !! a = Some s' -> a <> c) as Hne by congruence.
  split; cbn [set_snapshots snapshot_objects segment_objects next_address]; rewrite ?E.
  - intros a s' [[<- <-]|[Na Hs']]%lookup_insert_Some; rewrite count_cons.
  + rewrite decide_True, (count_not_elem _ _ Hno) by done. split_and!; [done|lia|done].
  + rewrite decide_False by done. destruct (HS a s' Hs') as (?&?&Hk'). split_and!; [done..|].
  eapply snapshot_ok_keeps; [|done]. intros b o _. apply HK.
  - intros a [->|Ha]%elem_of_cons; [by rewrite lookup_insert_eq|].
  rewrite lookup_insert_ne by (intros ->; done). by apply HA.
  - eapply counted_ext; [|exact HC']. intros b. cbv beta. by rewrite uses_insert.
  - intros b [Hb|Hb]; [by apply HF'|]. destruct (decide (b = c)) as [->|Nb]; [done|]. rewrite lookup_insert_ne in Hb by done.
  pose proof (HF b (or_intror Hb)). lia.
  - cbn. lia.
Qed.

(** What a successful load established: the manifest in the file belongs to the configuration,
and its segments are loaded. *)
Definition snapshot_loaded (st : MANAGER_STATE) (h h' : heap) (previous : option addr) (c : addr) : Prop :=
  exists s, snapshot_objects h' !! c = Some s /\ references s = 1 /\
  file_at w0 (manifest_path st) = Some (manifest_image (snap_manifest s)) /\ manifest_valid (snap_manifest s) /\
  YAP_V2_config_fingerprint (Some (manager_config st)) = Ok (config_fingerprint (snap_manifest s)) /\
  segments_loaded (index_dir st) (p ← previous; snapshot_objects h !! p) (segment_objects h') s.

Lemma snapshot_load_reads st previous h owners w : frames w0 w -> heap_ok h owners -> config_wf (manager_config st) ->
  (forall p, previous = Some p -> p ∈ owners) -> Z.of_nat (length owners) + 1 < 2 ^ 32 ->
  reads (snapshot_load garbage mutex_ok st previous h) (fun r => preserved h r.1 owners /\
  match r.2 with
  | Ok c => heap_ok r.1 (c :: owners) /\ (c ∉ owners) /\ snapshot_loaded st h r.1 previous c
  | Err _ => heap_ok r.1 owners
  | Fault => False
  end) w.
Proof.
  intros Hf HH Hw Hp Ho. unfold snapshot_load. cbv zeta.
  assert (preserved h h owners) as Hrefl.
  { apply preserved_objects; [done|done|]. intros b o _ Hb. by exists o. }
  destruct (negb _); [by apply reads_ret|]. destruct (negb _); [by apply reads_ret|].
  set (h0 := Heap (segment_objects h) (snapshot_objects h) (S (next_address h))). cbn [snapshot_objects].
  assert (accounted h0 (uses (snapshot_objects h))) as Ha.
  { split; [exact (ok_segments _ _ HH)|]. intros b Hb. pose proof (ok_fresh _ _ HH b (or_introl Hb)). cbn. lia. }
  assert (snapshot_objects h !! next_address h = None) as Hnew.
  { destruct (snapshot_objects h !! next_address h) eqn:E; [|done]. pose proof (ok_fresh _ _ HH (next_address h) ltac:(right; eauto)). lia. }
  set (prev := p ← previous; snapshot_objects h !! p).
  change (snapshot_objects h0) with (snapshot_objects h).
  assert ((match previous with None => Ok None | Some p => match snapshot_objects h !! p with Some s => Ok (Some s) | None => Fault end end)
  = (Ok prev : result _)) as ->.
  { subst prev. destruct previous as [p|]; [|done]. cbn. destruct (ok_alive _ _ HH p (Hp p eq_refl)) as [s ->]. done. }
  assert (base_ok h0 (uses (snapshot_objects h)) prev) as Hbase.
  { subst prev. destruct previous as [p|]; [|done]. cbn. destruct (snapshot_objects h !! p) as [s|] eqn:Es; [|done].
  split; [by apply (ok_snapshot _ _ HH p s)|]. intros b. by apply uses_positive with p. }
  assert (YAP_V2_config_fingerprint (Some (manager_config st)) <> Fault) as Hfp.
  { unfold YAP_V2_config_fingerprint. destruct (config_validate_spec _ Hw) as [HV HF].
  destruct (YAP_V2_config_validate _) as [[]| |] eqn:E; [|done..]. pose proof (config_fingerprint_spec _ Hw (proj1 HV eq_refl)) as HF'.
  unfold YAP_V2_config_fingerprint in HF'. rewrite E in HF'. by rewrite HF'. }
  eapply reads_bind; [by apply manifest_load_reads|]. intros [m r] w1 HL Hf1. cbn [fst snd] in HL.
  assert (frames w0 w1) as Hfw by (by eapply frames_trans).
  eapply (reads_bind _ _ (fun r => grown h0 r.1.1 (uses (snapshot_objects h)) (slots_of r.1.2) /\
  snap_segment_count r.1.2 = zlen (slots_of r.1.2) /\
  returns (fun _ => file_at w0 (manifest_path st) = Some (manifest_image m) /\ manifest_valid m /\
    YAP_V2_config_fingerprint (Some (manager_config st)) = Ok (config_fingerprint m) /\
    references r.1.2 = 1 /\ snap_manifest r.1.2 = m /\ snapshot_ok (segment_objects r.1.1) r.1.2 /\
    segments_loaded (index_dir st) prev (segment_objects r.1.1) r.1.2) r.2)).
  - destruct r as [u|e|]; [|apply reads_ret|done].
  + destruct HL as (HF&Hv&Hfpv). eapply reads_mono; [apply load_manifest_segments_reads; [done..| |]|].
  * apply Hv.
  * intros b. by eapply heap_uses_bound.
  * intros [[h' s] stt] (?&?&HR). split_and!; [done..|]. destruct stt; [|done..]. cbn in HR |- *. tauto.
  + split_and!; [|done|done]. apply (grown_refl h0); apply Ha.
  - intros [[h' s] stt] w2 (HG&Hcount&HR) _. cbn [fst snd] in *. apply reads_ret. destruct stt as [u|e|]; [| |done].
  + cbn [returns fst snd] in HR |- *. destruct HR as (HF&Hv&Hfpv&Hr&Hm&Hk&HS). pose proof HG as [E _ Hnx _ HK]. cbn in E.
  split; [|split; [|split]].
  * apply preserved_objects; [done| |by intros b o _; apply HK]. intros a s' Hs'. cbn [set_snapshots snapshot_objects].
    rewrite E, lookup_insert_ne; [done|]. intros <-. congruence.
  * apply (heap_ok_add h); [done|cbn in Hnx; lia|done|done|done|done|].
    destruct HG. split; [done..|cbn in *; lia|done|done].
  * intros Hin. destruct (ok_alive _ _ HH _ Hin). congruence.
  * exists s. cbn [set_snapshots snapshot_objects segment_objects]. rewrite lookup_insert_eq, Hm. by split_and!.
  + destruct (snapshot_destroy_ok h' s (uses (snapshot_objects h)) Hcount) as (m'&->&HC&Hsh); [apply HG|].
  pose proof HG as [E _ Hnx HFr HK]. cbn in E, Hnx, HK. cbn [fst snd].
  assert (forall b o, (0 < uses (snapshot_objects h) b)%nat -> segment_objects h !! b = Some o ->
    exists o', m' !! b = Some o' /\ same_content o o') as HK'.
  { intros b o Hb Hbo. destruct (HK b o Hbo) as (o1&Ho1&[? ?]). destruct (shrinks_used _ _ _ b o1 Hsh HC Hb Ho1) as (o2&Ho2&[? ?]).
    exists o2. split; [done|]. split; congruence. }
  split.
  * apply preserved_objects; [done| |exact HK']. intros a s' Hs'. cbn [set_segments snapshot_objects]. by rewrite E.
  * apply (heap_ok_load h); [done|done|done|cbn; lia| |done]. cbn [set_segments segment_objects next_address].
    intros b [o Hbo]. destruct (Hsh b o Hbo) as (o'&?&_). apply HFr. eauto.
Qed.
End snapshot_load.
