(* ===== verification/Manager.v ===== *)
(** Concurrent use of the snapshot manager (src/src/storage/yappo_snapshot_v2.c).

    The state of a process: the heap of snapshots and segments, the manager, the references
    that its threads hold, and the file system, which other processes change.  Threads take
    the steps of the manager in any order; a reload is the sequence of steps [Acquire],
    [Load], [Release], [Install] and [Release] of one thread.  A step is a critical section
    of the manager or of a reference count, except that [Load] runs [snapshot_load] as a
    whole: it reads only the fields of its base snapshot that never change. *)
From S2P Require Import Prelude Words Types Sha256 Header SlotTable Manifest FileSystem Reader ManifestCodec ManifestFile Segment Verify EntryTable Visibility CString Config Snapshot.
From stdpp Require Import relations.
#[local] Open Scope Z_scope.

Record process := Process {
  proc_heap : heap;
  proc_manager : option MANAGER_STATE;
  proc_held : list addr;
  proc_world : world }.

Inductive operation :=
  | Acquire
  | Release (a : addr)
  | Load (base : option addr)
  | Install (candidate : addr)
  | Close
  | Disk (w : world).

Definition manager_reference (m : option MANAGER_STATE) : list addr := option_list (m ≫= manager_current).
Definition owners (p : process) : list addr := manager_reference (proc_manager p) ++ proc_held p.

(** The heap before any snapshot was loaded. *)
Definition empty_heap : heap := Heap ∅ ∅ 0.

(** [held] without one reference to [a]. *)
Fixpoint drop_reference (a : addr) (held : list addr) : list addr :=
  match held with
  | [] => []
  | b :: held => if decide (b = a) then held else b :: drop_reference a held
  end.

(** What a snapshot shows: its manifest, the contents of its segments, and its table. *)
Abbreviation shown := (YAP_V2_MANIFEST * list (YAP_V2_SEGMENT * list YAP_V2_BYTES_VIEW) * visibility_table)%type.

Section process.
Context {A : Allocator} (garbage : nat -> Z) (mutex_ok : addr -> bool).

(** A thread passes on only references it holds, and 2^32 of them do not exist at once. *)
Definition enabled (op : operation) (p : process) : Prop :=
  match op with
  | Acquire => Z.of_nat (length (owners p)) + 1 < 2 ^ 32
  | Release a => a ∈ proc_held p
  | Load base => is_Some (proc_manager p) /\ (forall a, base = Some a -> a ∈ proc_held p) /\ Z.of_nat (length (owners p)) + 1 < 2 ^ 32
  | Install c => is_Some (proc_manager p) /\ c ∈ proc_held p
  | Close => is_Some (proc_manager p)
  | Disk w => readable w
  end.

(** The process after the step; [None] when it was killed during a file operation. *)
Definition perform (op : operation) (p : process) : result (option process) :=
  let '(Process h m held w) := p in
  match op with
  | Acquire => '(h, a) ← YAP_V2_snapshot_acquire m h; Ok (Some (Process h m (option_list a ++ held) w))
  | Release a => h ← YAP_V2_snapshot_release h (Some a); Ok (Some (Process h m (drop_reference a held) w))
  | Load base =>
  match m with
  | None => Fault
  | Some st =>
      match snapshot_load garbage mutex_ok st base h w with
      | Done (h, Ok c) w => Ok (Some (Process h m (c :: held) w))
      | Done (h, Err _) w => Ok (Some (Process h m held w))
      | Done (_, Fault) _ => Fault
      | Crashed _ => Ok None
      end
  end
  | Install c =>
  match m with
  | None => Fault
  | Some st =>
      '(st, dropped, _) ← install_candidate h st c;
      Ok (Some (Process h (Some st) (option_list dropped ++ drop_reference c held) w))
  end
  | Close =>
  match m with
  | None => Fault
  | Some st => Ok (Some (Process h None (option_list (manager_current st) ++ held) w))
  end
  | Disk w => Ok (Some (Process h m held w))
  end.

Definition takes (p p' : process) : Prop := exists op, enabled op p /\ perform op p = Ok (Some p').

(** A process begins by opening the manager. *)
Definition opens (dir mp : bytes) (c : YAP_V2_CONFIG) (w0 : world) (p : process) : Prop :=
  exists h st w, YAP_V2_snapshot_manager_open garbage mutex_ok None (Some dir) (Some mp) (Some c) true empty_heap w0 = Done (h, Ok st) w /\
  p = Process h (Some st) [] w.

Definition reachable (p : process) : Prop :=
  exists dir mp c w0 p0, config_wf c /\ readable w0 /\ opens dir mp c w0 p0 /\ rtc takes p0 p.

(** What a thread that holds [a] sees of it: its manifest, its segments and its table. *)
Definition snapshot_view (h : heap) (a : addr) : option shown :=
  s ← snapshot_objects h !! a;
  contents ← mapM (fun slot => b ← slot; o ← segment_objects h !! b; Some (seg_documents o, seg_tombstones o)) (slots_of s);
  Some (snap_manifest s, contents, snap_visibility s).

Definition current_generation (p : process) : option Z :=
  st ← proc_manager p; a ← manager_current st; s ← snapshot_objects (proc_heap p) !! a; Some (manifest_generation (snap_manifest s)).
End process.

(** ** Every step keeps the references balanced *)
Lemma drop_reference_permutation a held : a ∈ held -> held ≡ₚ a :: drop_reference a held.
Proof.
  induction held as [|b held IH]; [by intros ?%elem_of_nil|]. cbn. destruct (decide (b = a)) as [->|N]; [done|].
  intros [->|Ha]%elem_of_cons; [done|]. by rewrite (IH Ha) at 1; rewrite Permutation_swap.
Qed.

Lemma heap_ok_permutation h l k : l ≡ₚ k -> heap_ok h l -> heap_ok h k.
Proof.
  intros E [HS HA HC HF HO]. split; [|by intros a Ha; apply HA; rewrite E|done..|by rewrite <- E].
  intros a s Hs. rewrite <- (count_permutation a _ _ E). by apply HS.
Qed.

Lemma preserved_view h h' l owners a : heap_ok h owners -> preserved h h' l -> a ∈ l ->
  is_Some (snapshot_objects h !! a) -> snapshot_view h' a = snapshot_view h a /\ is_Some (snapshot_view h a).
Proof.
  intros HH HP Ha [s Hs]. destruct (HP a s Ha Hs) as (s'&Hs'&(E1&E2&E3&E4)&HC). unfold snapshot_view. rewrite Hs, Hs'. cbn.
  assert (slots_of s' = slots_of s) as -> by (unfold slots_of; by rewrite E2). rewrite <- E1, <- E4.
  destruct (ok_snapshot _ _ HH a s Hs) as (_&_&Hk). pose proof (snapshot_ok_slots _ _ Hk) as HL. clear - HC HL.
  assert (forall slots, (forall slot, slot ∈ slots -> slot ∈ slots_of s) -> exists vs,
    mapM (fun slot => b ← slot; o ← segment_objects h !! b; Some (seg_documents o, seg_tombstones o)) slots = Some vs /\
    mapM (fun slot => b ← slot; o ← segment_objects h' !! b; Some (seg_documents o, seg_tombstones o)) slots = Some vs) as H.
  { induction slots as [|slot slots IH]; intros Hin; [by exists []|].
    destruct IH as (vs&Evs&Evs'); [intros; apply Hin; by right|].
    assert (slot ∈ slots_of s) as Hslot by (apply Hin; by left). destruct (HL slot Hslot) as (b&o&->&Ho).
    destruct (HC (Some b) o Hslot) as (b'&o'&[= <-]&Ho'&[E1 E2]); [by exists b|].
    cbn. rewrite Ho, Ho'. cbn. rewrite Evs, Evs'. cbn. rewrite E1, E2. eauto. }
  destruct (H (slots_of s)) as (vs&->&->); [done|]. cbn. eauto.
Qed.

(** An open manager has a current snapshot. *)
Definition manager_ok (m : option MANAGER_STATE) : Prop :=
  forall st, m = Some st -> config_wf (manager_config st) /\ is_Some (manager_current st).

Record process_ok (p : process) : Prop := {
  process_heap : heap_ok (proc_heap p) (owners p);
  process_manager : manager_ok (proc_manager p);
  process_world : readable (proc_world p) }.

(** The generation of the current snapshot grows whenever it is replaced. *)
Definition advances (p p' : process) : Prop :=
  forall g', current_generation p' = Some g' -> exists g, current_generation p = Some g /\
    (g < g' \/ g = g' /\ manager_reference (proc_manager p) = manager_reference (proc_manager p')).

Lemma advances_trans p1 p2 p3 : advances p1 p2 -> advances p2 p3 -> advances p1 p3.
Proof.
  intros H1 H2 g3 E3. destruct (H2 g3 E3) as (g2&E2&Hg2). destruct (H1 g2 E2) as (g1&E1&Hg1). exists g1. split; [done|].
  destruct Hg1 as [?|[-> ?]], Hg2 as [?|[-> ?]]; [left; lia..|]. right. split; [done|congruence].
Qed.

(** The snapshots in use before and after a step look the same, and the generation advances. *)
Definition isolated (p p' : process) : Prop :=
  (forall a, a ∈ owners p -> a ∈ owners p' -> snapshot_view (proc_heap p') a = snapshot_view (proc_heap p) a) /\ advances p p'.

(** Steps that leave the manager as it is. *)
Lemma isolated_preserved p p' l : heap_ok (proc_heap p) (owners p) -> (forall a, a ∈ owners p -> a ∈ owners p' -> a ∈ l) ->
  (forall a, a ∈ manager_reference (proc_manager p) -> a ∈ l) -> preserved (proc_heap p) (proc_heap p') l ->
  proc_manager p' = proc_manager p -> isolated p p'.
Proof.
  intros HH Hl Hm HP E. split.
  - intros a Ha Ha'. eapply preserved_view; [done|exact HP|by apply Hl|by apply (ok_alive _ _ HH)].
  - intros g'. unfold current_generation. rewrite E. unfold manager_reference in *.
    destruct (proc_manager p) as [st|] eqn:Ep; [|done]. cbn in *. destruct (manager_current st) as [a|] eqn:Ea; [|done]. cbn in *.
    destruct (snapshot_objects (proc_heap p) !! a) as [s|] eqn:Es.
    + destruct (HP a s) as (s'&->&(Em&_)&_); [apply Hm; by left|done|]. cbn. rewrite <- Em. intros [= <-]. eauto.
    + destruct (ok_alive _ _ HH a) as [? ?]; [|congruence]. unfold owners, manager_reference. rewrite Ep. cbn.
      rewrite Ea. by left.
Qed.

Lemma readable_frames w w' : frames w w' -> readable w -> readable w'.
Proof. intros Hf Hr q bs. rewrite (frames_file _ _ _ Hf). apply Hr. Qed.

Section steps.
Context {A : Allocator} (garbage : nat -> Z) (mutex_ok : addr -> bool).
Context (arrays_ok : forall n, 0 < n <= YAP_V2_MAX_SEGMENTS -> alloc_ok (n * 8) = true).

(** A step that is safe and keeps the invariant. *)
Definition step_ok (p : process) (r : result (option process)) : Prop :=
  match r with
  | Ok (Some p') => process_ok p' /\ isolated p p'
  | Ok None => True
  | _ => False
  end.

Lemma acquire_ok p : process_ok p -> enabled Acquire p -> step_ok p (perform garbage mutex_ok Acquire p).
Proof.
  destruct p as [h m held w]. intros [HH HM Hw] He. cbn in HH, HM, Hw, He |- *. unfold YAP_V2_snapshot_acquire.
  assert (isolated (Process h m held w) (Process h m held w)) as Hrefl.
  { eapply isolated_preserved; [done|by intros a Ha _; exact Ha|by intros a Ha; apply elem_of_app; left| |done].
  apply preserved_objects; [done|done|]. intros b o _ Hb. by exists o. }
  destruct m as [st|]; [|by split].
  destruct (manager_current st) as [a|] eqn:Ea; [|by split].
  destruct (snapshot_retain_ok h (owners (Process h (Some st) held w)) a) as (h'&->&HH'&HP&_); [done| |done|].
  { apply (ok_alive _ _ HH). unfold owners, manager_reference. cbn. rewrite Ea. by left. }
  cbn. split; [split; [|done..]|].
  - eapply heap_ok_permutation; [|exact HH']. unfold owners. cbn. by rewrite Permutation_middle.
  - eapply isolated_preserved; [done|by intros b Hb _; exact Hb|by intros b Hb; apply elem_of_app; left|exact HP|done].
Qed.

Lemma release_ok p a : process_ok p -> enabled (Release a) p -> step_ok p (perform garbage mutex_ok (Release a) p).
Proof.
  destruct p as [h m held w]. intros [HH HM Hw] He. cbn in HH, HM, Hw, He. unfold perform.
  assert (owners (Process h m held w) ≡ₚ a :: owners (Process h m (drop_reference a held) w)) as HO.
  { unfold owners. cbn. by rewrite (drop_reference_permutation a held He) at 1; rewrite Permutation_middle. }
  destruct (snapshot_release_ok h a (owners (Process h m (drop_reference a held) w))) as (h'&->&HH'&HP&_).
  { by eapply heap_ok_permutation. }
  rewrite outcome_bind_ok. split; [by split|].
  eapply isolated_preserved; [done|by intros b _ Hb; exact Hb|by intros b Hb; apply elem_of_app; left|exact HP|done].
Qed.

Lemma load_ok p base : process_ok p -> enabled (Load base) p -> step_ok p (perform garbage mutex_ok (Load base) p).
Proof.
  destruct p as [h m held w]. intros [HH HM Hw] ((st&E)&Hb&Hl). cbn in E. subst m. cbn in HH, HM, Hw, Hb. unfold perform.
  pose proof (snapshot_load_reads garbage mutex_ok w Hw arrays_ok st base h _ w (frames_refl w) HH (proj1 (HM st eq_refl))) as HL.
  specialize (HL ltac:(intros q Hq; apply elem_of_app; right; by apply Hb) Hl). unfold reads, wp in HL.
  destruct (snapshot_load _ _ st base h w) as [[h' [c|e|]] w'|w']; cbn in HL |- *; [| |by destruct HL as [[_ []] _]|done].
  - destruct HL as ((HP&HH'&_)&Hf). split; [split; [|done|by eapply readable_frames]|].
  + eapply heap_ok_permutation; [|exact HH']. unfold owners. cbn. by rewrite Permutation_middle.
  + eapply isolated_preserved; [done|by intros b Hb' _; exact Hb'|by intros b Hb'; apply elem_of_app; left|exact HP|done].
  - destruct HL as ((HP&HH')&Hf). split; [split; [done..|by eapply readable_frames]|].
  eapply isolated_preserved; [done|by intros b Hb' _; exact Hb'|by intros b Hb'; apply elem_of_app; left|exact HP|done].
Qed.

(** Steps that move references without touching the heap. *)
Lemma isolated_heap h m m' held held' w w' : heap_ok h (owners (Process h m held w)) ->
  advances (Process h m held w) (Process h m' held' w') -> isolated (Process h m held w) (Process h m' held' w').
Proof. intros HH HA. split; [done|exact HA]. Qed.

Lemma install_ok p c : process_ok p -> enabled (Install c) p -> step_ok p (perform garbage mutex_ok (Install c) p).
Proof.
  destruct p as [h m held w]. intros [HH HM Hw] ((st&E)&Hc). cbn in E. subst m. cbn in HH, HM, Hw, Hc. unfold perform.
  destruct (HM st eq_refl) as [Hwf [a Ha]]. pose proof (drop_reference_permutation c held Hc) as HD.
  assert (owners (Process h (Some st) held w) = a :: held) as Eo by (unfold owners, manager_reference; cbn; by rewrite Ha).
  rewrite Eo in HH. destruct (ok_alive _ _ HH a ltac:(by left)) as [old Hold]. destruct (ok_alive _ _ HH c ltac:(by right)) as [new Hnew].
  unfold install_candidate. rewrite Hnew, Ha, Hold.
  assert (step_ok (Process h (Some st) held w) (Ok (Some (Process h (Some st) (c :: drop_reference c held) w)))) as Hkeep.
  { split.
  - split; [|done..]. eapply heap_ok_permutation; [|exact HH]. unfold owners, manager_reference. cbn. rewrite Ha. cbn. by rewrite HD at 1.
  - apply isolated_heap; [by rewrite Eo|]. intros g E. exists g. split; [exact E|]. by right. }
  destruct (Z.ltb_spec (manifest_generation (snap_manifest new)) (manifest_generation (snap_manifest old))); [exact Hkeep|].
  destruct (Z.eqb_spec (manifest_generation (snap_manifest new)) (manifest_generation (snap_manifest old))); [exact Hkeep|].
  rewrite outcome_bind_ok. split.
  - split; [|by intros ? [= <-]|done]. eapply heap_ok_permutation; [|exact HH]. unfold owners, manager_reference. cbn.
  rewrite HD at 1. by rewrite Permutation_swap.
  - apply isolated_heap; [by rewrite Eo|]. unfold advances, current_generation. cbn. rewrite Ha. cbn. rewrite Hnew, Hold. cbn.
  intros g' [= <-]. eexists. split; [done|]. left. lia.
Qed.

Lemma manager_close_ok p : process_ok p -> enabled Close p -> step_ok p (perform garbage mutex_ok Close p).
Proof.
  destruct p as [h m held w]. intros [HH HM Hw] (st&E). cbn in E. subst m. split; [split; [|done..]|].
  - exact HH.
  - by apply isolated_heap.
Qed.

Lemma perform_ok op p : process_ok p -> enabled op p -> step_ok p (perform garbage mutex_ok op p).
Proof.
  intros Hp. destruct op; [by apply acquire_ok|by apply release_ok|by apply load_ok|by apply install_ok|by apply manager_close_ok|].
  destruct p as [h m held v], Hp as [HH HM _]. intros Hw. split; [by split|]. apply isolated_heap; [done|].
  intros g E. exists g. split; [exact E|]. by right.
Qed.

Lemma takes_ok p p' : process_ok p -> takes garbage mutex_ok p p' -> process_ok p' /\ isolated p p'.
Proof. intros Hp (op&He&E). pose proof (perform_ok op p Hp He) as H. by rewrite E in H. Qed.

Lemma run_ok p p' : process_ok p -> rtc (takes garbage mutex_ok) p p' -> process_ok p' /\ advances p p'.
Proof.
  intros Hp HR. induction HR as [p|p p1 p' HT HR IH].
  - split; [done|]. intros g E. exists g. split; [exact E|]. by right.
  - destruct (takes_ok _ _ Hp HT) as [Hp1 [_ HA]]. destruct (IH Hp1) as [? ?]. split; [done|]. by eapply advances_trans.
Qed.

Lemma empty_heap_ok : heap_ok empty_heap [].
Proof.
  split; cbn; [done|by intros a ?%elem_of_nil| |by intros b [[]|[]]|lia]. split; [done| |].
  - intros b Hb. unfold uses in Hb. rewrite map_to_list_empty in Hb. cbn in Hb. lia.
  - intros b. unfold uses. rewrite map_to_list_empty. cbn. lia.
Qed.

(** Without references the heap is empty: nothing leaks. *)
Lemma heap_ok_empty h : heap_ok h [] -> snapshot_objects h = ∅ /\ segment_objects h = ∅.
Proof.
  intros HH. assert (snapshot_objects h = ∅) as E0.
  { apply map_eq. intros a. rewrite lookup_empty. destruct (_ !! a) as [s|] eqn:Es; [|done].
  destruct (ok_snapshot _ _ HH a s Es) as (_&H&_). cbn in H. lia. }
  split; [done|]. apply map_eq. intros b. rewrite lookup_empty. destruct (segment_objects _ !! b) as [o|] eqn:Eo; [|done].
  destruct (counted_object _ _ (ok_segments _ _ HH) b o Eo) as [_ H]. rewrite E0 in H. unfold uses in H.
  rewrite map_to_list_empty in H. cbn in H. lia.
Qed.

Lemma copy_string_same s s' : copy_string s = Some s' -> s' = s.
Proof. unfold copy_string. destruct (_ || _); [done|]. by intros [= ->]. Qed.

(** What opening a manager does to a heap without snapshots. *)
Lemma manager_open_reads dir mp c w : config_wf c -> readable w ->
  reads (YAP_V2_snapshot_manager_open garbage mutex_ok None (Some dir) (Some mp) (Some c) true empty_heap) (fun r =>
  match r.2 with
  | Ok st => exists a, st = ManagerState dir mp c (Some a) /\ heap_ok r.1 [a] /\
    snapshot_loaded garbage w (ManagerState dir mp c None) empty_heap r.1 None a
  | Err _ => heap_ok r.1 []
  | Fault => False
  end) w.
Proof.
  intros Hc Hw. pose proof empty_heap_ok as H0. unfold YAP_V2_snapshot_manager_open. destruct (config_validate_spec c Hc) as [_ HV].
  destruct (YAP_V2_config_validate (Some c)) as [u| |]; [|by apply reads_ret|done].
  destruct (negb _); [by apply reads_ret|]. cbn [negb].
  destruct (copy_string dir) as [dir'|] eqn:E1; [|by apply reads_ret]. destruct (copy_string mp) as [mp'|] eqn:E2; [|by apply reads_ret].
  apply copy_string_same in E1 as ->, E2 as ->. cbv zeta. eapply reads_bind.
  { apply (snapshot_load_reads garbage mutex_ok w Hw arrays_ok (ManagerState dir mp c None) None empty_heap [] w); [apply frames_refl|done..]. }
  intros [h [a|e|]] w' HL Hf; cbn [fst snd] in HL; [| |by destruct HL]; apply reads_ret; cbn; [|by destruct HL].
  destruct HL as (_&HH&_&HL). by exists a.
Qed.

Lemma opens_ok dir mp c w p : config_wf c -> readable w -> opens garbage mutex_ok dir mp c w p -> process_ok p.
Proof.
  intros Hc Hw (h&st&w'&E&->). pose proof (manager_open_reads dir mp c w Hc Hw) as H. unfold reads, wp in H. rewrite E in H. cbn in H.
  destruct H as [(a&->&HH&_) Hf]. split; [exact HH| |by eapply readable_frames]. intros ? [= <-]. done.
Qed.

(** ** What a snapshot in use shows *)
Lemma segment_entries_content values : forall k,
  segment_entries k ((fun v => SnapshotSegment 0 (seg_documents v) (seg_tombstones v)) <$> values) = segment_entries k values.
Proof. induction values as [|v values IH]; intros k; [done|]. cbn. by rewrite IH. Qed.

Lemma snapshot_view_ok h owners a : heap_ok h owners -> a ∈ owners -> exists m contents t,
  snapshot_view h a = Some (m, contents, t) /\ zlen contents = segment_count m /\
  answers t (segment_entries 0 ((fun p => SnapshotSegment 0 p.1 p.2) <$> contents)).
Proof.
  intros HH Ha. destruct (ok_alive _ _ HH a Ha) as [s Hs]. destruct (ok_snapshot _ _ HH a s Hs) as (_&_&Hk).
  destruct (ok_contents _ _ Hk) as (values&HF&_&HA). unfold snapshot_view. rewrite Hs. cbn.
  assert (mapM (fun slot => b ← slot; o ← segment_objects h !! b; Some (seg_documents o, seg_tombstones o)) (slots_of s)
  = Some ((fun v => (seg_documents v, seg_tombstones v)) <$> values)) as ->.
  { clear - HF. induction HF as [|slot v slots values (b&o&->&Ho&[E1 E2]) HF IH]; [done|]. cbn. rewrite Ho. cbn.
  rewrite IH. cbn. by rewrite E1, E2. }
  eexists _, _, _. split; [done|]. split.
  - rewrite (ok_manifest _ _ Hk), (ok_count _ _ Hk). unfold zlen. by rewrite length_fmap, (Forall2_length _ _ _ HF).
  - rewrite <- list_fmap_compose. unfold compose. cbn. intros i Hi. rewrite (HA i Hi). by rewrite segment_entries_content.
Qed.

(** A segment of a loaded snapshot was read from intact files, or the base snapshot shows it for
an equal descriptor. *)
Definition segment_shown (w : world) (dir : bytes) (g : Z) (base : option shown)
  (d : YAP_V2_SEGMENT_DESCRIPTOR) (content : YAP_V2_SEGMENT * list YAP_V2_BYTES_VIEW) : Prop :=
  value_loaded garbage w dir g d (SnapshotSegment 0 content.1 content.2) \/
  exists m contents t i, base = Some (m, contents, t) /\ segments m !! i = Some d /\ contents !! i = Some content.

(** A snapshot that shows the manifest file of the manager and its segments. *)
Definition shows_files (w : world) (st : MANAGER_STATE) (base : option shown)
  (m : YAP_V2_MANIFEST) (contents : list (YAP_V2_SEGMENT * list YAP_V2_BYTES_VIEW)) : Prop :=
  file_at w (manifest_path st) = Some (manifest_image m) /\ manifest_valid m /\
  YAP_V2_config_fingerprint (Some (manager_config st)) = Ok (config_fingerprint m) /\
  Forall2 (segment_shown w (index_dir st) (manifest_generation m) base) (segments m) contents.

Lemma view_slot h a m contents t i slot s : snapshot_view h a = Some (m, contents, t) -> snapshot_objects h !! a = Some s ->
  slots_of s !! i = Some slot -> exists b o, slot = Some b /\ segment_objects h !! b = Some o /\
  contents !! i = Some (seg_documents o, seg_tombstones o).
Proof.
  unfold snapshot_view. intros Hv Hs Hi. rewrite Hs in Hv. cbn in Hv. destruct (mapM _ (slots_of s)) as [cs|] eqn:E; [|done].
  cbn in Hv. simplify_eq. apply mapM_Some_1 in E. destruct (Forall2_lookup_l _ _ _ _ _ E Hi) as (c&Hc&Hb).
  destruct slot as [b|]; [|done]. cbn in Hb. destruct (segment_objects h !! b) as [o|] eqn:Eo; [|done]. cbn in Hb. simplify_eq. eauto.
Qed.

Lemma loaded_shows w st h h' owners base c : heap_ok h owners -> heap_ok h' (c :: owners) -> preserved h h' owners ->
  (forall a, base = Some a -> a ∈ owners) -> snapshot_loaded garbage w st h h' base c ->
  exists m contents t, snapshot_view h' c = Some (m, contents, t) /\ shows_files w st (base ≫= snapshot_view h) m contents.
Proof.
  intros HH HH' HP Hb (s&Hs&_&Hf&Hv&Hfp&(mp&Ep&HF)). destruct (snapshot_view_ok h' (c :: owners) c HH' ltac:(by left)) as (m&contents&t&E&_&_).
  exists m, contents, t. split; [done|]. assert (m = snap_manifest s) as ->.
  { unfold snapshot_view in E. rewrite Hs in E. cbn in E. destruct (mapM _ _); [|done]. cbn in E. congruence. }
  split_and!; [done..|]. assert (length contents = length (slots_of s)) as Hlen.
  { unfold snapshot_view in E. rewrite Hs in E. cbn in E. destruct (mapM _ (slots_of s)) eqn:EM; [|done]. cbn in E. simplify_eq.
  symmetry. by eapply Forall2_length, mapM_Some_1. }
  apply Forall2_same_length_lookup_2; [by rewrite Hlen, (Forall2_length _ _ _ HF)|].
  intros i d content Hd Hc. destruct (Forall2_lookup_l _ _ _ _ _ HF Hd) as (slot&Hslot&b&v&->&Hbv&HL).
  destruct (view_slot _ _ _ _ _ _ _ _ E Hs Hslot) as (b'&o&[= <-]&Ho&Hc'). simplify_eq.
  destruct HL as [HL|(p&map&j&->&Hj&Hsj)]; [by left|right]. destruct base as [a|]; [|done]. cbn in Ep |- *.
  destruct (preserved_view h h' owners owners a HH HP (Hb a eq_refl) (ok_alive _ _ HH a (Hb a eq_refl))) as [_ [[[pm pc] pt] Epv]].
  destruct (view_slot _ _ _ _ _ _ _ _ Epv (eq_sym Ep) Hsj) as (b2&o2&[= <-]&Ho2&Hc2). exists pm, pc, pt, j.
  assert (pm = snap_manifest p) as ->.
  { unfold snapshot_view in Epv. rewrite <- Ep in Epv. cbn in Epv. destruct (mapM _ _); [|done]. cbn in Epv. congruence. }
  split_and!; [done..|]. destruct (HP a p (Hb a eq_refl) (eq_sym Ep)) as (p'&_&_&HC).
  destruct (HC (Some b) o2) as (b3&o3&[= <-]&Ho3&[E1 E2]); [by eapply list_elem_of_lookup_2|by exists b|]. simplify_eq. by rewrite Hc2, E1, E2.
Qed.

Lemma process_reachable_ok p : reachable garbage mutex_ok p -> process_ok p.
Proof. intros (dir&mp&c&w0&p0&Hc&Hw&Ho&HR). by apply (run_ok p0 p (opens_ok _ _ _ _ _ Hc Hw Ho)). Qed.

Lemma preserved_trans h1 h2 h3 l k : preserved h1 h2 l -> preserved h2 h3 k -> (forall a, a ∈ k -> a ∈ l) -> preserved h1 h3 k.
Proof.
  intros H1 H2 Hk a s Ha Hs. destruct (H1 a s (Hk a Ha) Hs) as (s2&Hs2&(E1&E2&E3&E4)&HC2). destruct (H2 a s2 Ha Hs2) as (s3&Hs3&(F1&F2&F3&F4)&HC3).
  exists s3. split; [done|]. split; [split_and!; congruence|]. intros slot o Hslot Ho.
  destruct (HC2 slot o Hslot Ho) as (b&o2&->&Ho2&[? ?]). destruct (HC3 (Some b) o2) as (b'&o3&[= <-]&Ho3&[? ?]).
  - unfold slots_of in *. by rewrite <- E2.
  - by exists b.
  - exists b, o3. split_and!; [done..|]. split; congruence.
Qed.

Lemma preserved_sub h h' l k : preserved h h' l -> (forall a, a ∈ k -> a ∈ l) -> preserved h h' k.
Proof. intros H Hk a s Ha. by apply H, Hk. Qed.

(** How a reload ends: the new reference of the manager, and the status. *)
Definition reloaded (w : world) (st : MANAGER_STATE) (h : heap) (a : addr) (held : list addr) (h' : heap) (m' : option MANAGER_STATE) (r : result bool) : Prop :=
  exists a' m contents t, m' = Some (set_current st (Some a')) /\ heap_ok h' (a' :: held) /\
  snapshot_view h a = Some (m, contents, t) /\ (forall b, b ∈ held -> snapshot_view h' b = snapshot_view h b) /\
  match r with
  | Ok true => exists new shown_new t', snapshot_view h' a' = Some (new, shown_new, t') /\
    manifest_generation m < manifest_generation new /\ shows_files w st (Some (m, contents, t)) new shown_new
  | Ok false => a' = a /\ snapshot_view h' a = snapshot_view h a /\ exists disk,
    file_at w (manifest_path st) = Some (manifest_image disk) /\ manifest_valid disk /\
    manifest_generation disk = manifest_generation m /\ segments disk = segments m
  | Err _ => a' = a /\ snapshot_view h' a = snapshot_view h a
  | Fault => False
  end.

Lemma descriptors_equal_spec ls : forall rs, length ls = length rs -> descriptors_equal ls rs = true -> ls = rs.
Proof.
  induction ls as [|l ls IH]; intros [|r rs] Hl; try done. cbn [descriptors_equal]. intros [E1 E2]%andb_true_iff.
  apply segment_descriptor_equal_spec in E1 as ->. f_equal. apply IH; [by injection Hl|done].
Qed.

Lemma view_manifest h a s v : snapshot_objects h !! a = Some s -> snapshot_view h a = Some v -> v.1.1 = snap_manifest s.
Proof. unfold snapshot_view. intros ->. cbn. destruct (mapM _ _); [|done]. cbn. by intros [= <-]. Qed.

Lemma install_release_ok st h a c held old new : heap_ok h (c :: a :: held) -> manager_current st = Some a ->
  snapshot_objects h !! a = Some old -> snapshot_objects h !! c = Some new ->
  exists a' dropped status h', install_candidate h st c = Ok (set_current st (Some a'), Some dropped, status) /\
  YAP_V2_snapshot_release h (Some dropped) = Ok h' /\ heap_ok h' (a' :: held) /\ preserved h h' (a' :: held) /\
  match status with
  | Ok true => a' = c /\ manifest_generation (snap_manifest old) < manifest_generation (snap_manifest new)
  | Ok false => a' = a /\ manifest_generation (snap_manifest new) = manifest_generation (snap_manifest old) /\
    segments (snap_manifest new) = segments (snap_manifest old)
  | Err _ => a' = a
  | Fault => False
  end.
Proof.
  intros HH Ha Hold Hnew. unfold install_candidate. rewrite Hnew, Ha, Hold.
  assert (st = set_current st (Some a)) as Est by (destruct st; cbn in *; by subst).
  destruct (snapshot_release_ok h c (a :: held) HH) as (hc&Ec&HHc&HPc&_).
  assert (heap_ok h (a :: c :: held)) as HHa by (eapply heap_ok_permutation; [apply Permutation_swap|done]).
  destruct (snapshot_release_ok h a (c :: held) HHa) as (ha&Ea&HHa'&HPa&_).
  destruct (Z.ltb_spec (manifest_generation (snap_manifest new)) (manifest_generation (snap_manifest old))).
  { exists a, c. rewrite <- Est. by eexists _, hc. }
  destruct (Z.eqb_spec (manifest_generation (snap_manifest new)) (manifest_generation (snap_manifest old))) as [E|N].
  - exists a, c. rewrite <- Est. eexists _, hc. split_and!; [done..|]. destruct (YAP_V2_snapshot_matches_manifest _ _) eqn:EM; [|done].
  split_and!; [done..|]. unfold YAP_V2_snapshot_matches_manifest in EM. destruct (_ || _) eqn:EB; [done|].
  apply orb_false_iff in EB as [_ EC%negb_false_iff%Z.eqb_eq]. symmetry. apply descriptors_equal_spec; [|done].
  destruct (ok_snapshot _ _ HH a old Hold) as (_&_&Hk). rewrite <- (ok_manifest _ _ Hk) in EC. unfold segment_count, zlen in EC. lia.
  - exists c, a. eexists _, ha. split_and!; [done..|]. split; [done|lia].
Qed.

Lemma manager_reload_reads st h a held w : heap_ok h (a :: held) -> manager_current st = Some a -> config_wf (manager_config st) ->
  readable w -> Z.of_nat (length held) + 3 < 2 ^ 32 ->
  reads (YAP_V2_snapshot_manager_reload garbage mutex_ok (Some st) h) (fun r => reloaded w st h a held r.1.1 r.1.2 r.2) w.
Proof.
  intros HH Ha Hc Hw Hl. unfold YAP_V2_snapshot_manager_reload, YAP_V2_snapshot_acquire. rewrite Ha.
  destruct (snapshot_retain_ok h (a :: held) a HH (ok_alive _ _ HH a ltac:(by left))) as (h1&->&HH1&HP1&_); [cbn; lia|].
  rewrite outcome_bind_ok. eapply reads_bind.
  { apply (snapshot_load_reads garbage mutex_ok w Hw arrays_ok st (Some a) h1 (a :: a :: held) w);
  [apply frames_refl|done|done|by intros ? [= <-]; left|cbn; lia]. }
  intros [h2 loaded] w' [HP2 HL] Hf. cbn [fst snd] in HP2, HL. apply reads_ret. cbn [fst snd].
  assert (st = set_current st (Some a)) as Est by (destruct st; cbn in *; by subst).
  destruct (snapshot_view_ok h (a :: held) a HH ltac:(by left)) as (m&contents&t&Ev&_&_).
  assert (preserved h h2 (a :: held)) as HP02.
  { eapply preserved_trans; [exact HP1| |done]. eapply preserved_sub; [exact HP2|]. intros x Hx. by right. }
  destruct loaded as [c|e|]; [| |done].
  - destruct HL as (HH2&_&HL). destruct (snapshot_release_ok h2 a (c :: a :: held)) as (h3&->&HH3&HP3&_).
  { eapply heap_ok_permutation; [|exact HH2]. apply Permutation_swap. }
  assert (preserved h h3 (a :: held)) as HP03.
  { eapply preserved_trans; [exact HP02| |done]. eapply preserved_sub; [exact HP3|]. intros x Hx. by right. }
  destruct (ok_alive _ _ HH3 a ltac:(by right; left)) as [old Hold]. destruct (ok_alive _ _ HH3 c ltac:(by left)) as [new Hnew].
  destruct (loaded_shows w st h1 h2 (a :: a :: held) (Some a) c HH1 HH2 HP2 ltac:(by intros ? [= <-]; left) HL) as (mn&cn&tn&Evn&Hshow).
  pose proof (preserved_view h2 h3 _ _ c HH2 HP3 ltac:(by left) (ok_alive _ _ HH2 c ltac:(by left))) as [Evn3 _]. rewrite Evn in Evn3.
  pose proof (preserved_view h h1 _ _ a HH HP1 ltac:(by left) (ok_alive _ _ HH a ltac:(by left))) as [Ev1 _]. rewrite Ev in Ev1. cbn in Hshow. rewrite Ev1 in Hshow.
  pose proof (preserved_view h h3 _ _ a HH HP03 ltac:(by left) (ok_alive _ _ HH a ltac:(by left))) as [Ev3 _]. rewrite Ev in Ev3.
  pose proof (view_manifest _ _ _ _ Hold Ev3) as Em. pose proof (view_manifest _ _ _ _ Hnew Evn3) as Emn. cbn in Em, Emn. subst m mn.
  destruct (install_release_ok st h3 a c held old new HH3 Ha Hold Hnew) as (a'&dropped&status&h4&->&->&HH4&HP4&HS). cbn [fst snd].
  exists a', (snap_manifest old), contents, t. split_and!; [done..| |].
  { intros b Hb. eapply (preserved_view h h4 held); [done| |done|by apply (ok_alive _ _ HH); right].
  eapply preserved_trans; [exact HP03|eapply preserved_sub; [exact HP4|]|]; intros x Hx; by right. }
  destruct status as [[]|e|]; [| | |done].
  + destruct HS as [-> Hg]. exists (snap_manifest new), cn, tn. split_and!; [|done..].
  rewrite <- Evn3. by eapply (preserved_view h3 h4); [exact HH3|exact HP4|left|apply (ok_alive _ _ HH3); left].
  + destruct HS as (->&Hg&Hs). split; [done|]. split.
  * rewrite Ev, <- Ev3. by eapply (preserved_view h3 h4); [exact HH3|exact HP4|left|apply (ok_alive _ _ HH3); right; left].
  * exists (snap_manifest new). by destruct Hshow as (?&?&_&_).
  + subst a'. split; [done|]. rewrite Ev, <- Ev3. by eapply (preserved_view h3 h4); [exact HH3|exact HP4|left|apply (ok_alive _ _ HH3); right; left].
  - destruct (snapshot_release_ok h2 a (a :: held) HL) as (h3&->&HH3&HP3&_). cbn [fst snd].
  assert (preserved h h3 (a :: held)) as HP03 by (eapply preserved_trans; [exact HP02|exact HP3|done]).
  exists a, m, contents, t. rewrite <- Est. split_and!; [done..| | |].
  + intros b Hb. eapply (preserved_view h h3); [exact HH|exact HP03|by right|by apply (ok_alive _ _ HH); right].
  + done.
  + by eapply (preserved_view h h3); [exact HH|exact HP03|left|apply (ok_alive _ _ HH); left].
Qed.
End steps.

(** ** Main theorems *)


(** ** A run of a process

    An index of generation 1 with one segment, and of generation 2 with one more. *)
Definition process_config : YAP_V2_CONFIG := demo_config [116] [109] [].
Definition process_fingerprint : bytes :=
  Eval vm_compute in match YAP_V2_config_fingerprint (Some process_config) with Ok f => f | _ => [] end.
Definition process_document : YAP_V2_DOCUMENT_VIEW :=
  DocumentView (mk_view [100]) (mk_view [117]) (BytesView None 0) (mk_view [104]) (mk_view [123; 125]) 5.
Definition process_file (newer : bool) : bytes :=
  match segment_file_data (A:=alloc_total) (fun _ => 0) (if newer then [50] else [49]) (if newer then 2 else 1) [process_document] [] with
  | Ok f => f
  | _ => []
  end.
Definition process_descriptor (newer : bool) : YAP_V2_SEGMENT_DESCRIPTOR :=
  SegmentDescriptor (if newer then [50] else [49]) 1 0 0
    [ComponentDescriptor [100] YAP_V2_FILE_DOCUMENTS 1 (zlen (process_file newer)) (sha256_spec (process_file newer))].
Definition process_manifest (newer : bool) : YAP_V2_MANIFEST :=
  Manifest YAP_V2_FORMAT_VERSION (if newer then 2 else 1) process_fingerprint
    (process_descriptor false :: if newer then [process_descriptor true] else []) 4 None 0.
Definition disk_of (m : YAP_V2_MANIFEST) : world :=
  World {[0%nat := Inode (manifest_image m) true; 1%nat := Inode (process_file false) true; 2%nat := Inode (process_file true) true]}
    {[ [109] := [Some 0%nat]; component_file [105] [49] [100] := [Some 1%nat];
       component_file [105] [50] [100] := [Some 2%nat] ]} 3 [].
Definition old_disk : world := Eval vm_compute in disk_of (process_manifest false).
Definition new_disk : world := Eval vm_compute in disk_of (process_manifest true).

Lemma process_config_wf : config_wf process_config.
Proof.
  split; (split; [by vm_compute|]) || idtac; try (apply demo_bytes; by vm_compute).
  - apply Forall_replicate. split; [by vm_compute|]. apply demo_bytes. by vm_compute.
  - by vm_compute.
Qed.

Lemma old_disk_readable : readable old_disk.
Proof. apply readable_checked. vm_compute. reflexivity. Qed.

(** [enabled], decided. *)
Definition enabled_check (op : operation) (p : process) : bool :=
  match op with
  | Acquire => Z.of_nat (length (owners p)) + 1 <? 2 ^ 32
  | Release a => bool_decide (a ∈ proc_held p)
  | Load base => bool_decide (is_Some (proc_manager p)) && match base with Some a => bool_decide (a ∈ proc_held p) | None => true end &&
      (Z.of_nat (length (owners p)) + 1 <? 2 ^ 32)
  | Install c => bool_decide (is_Some (proc_manager p)) && bool_decide (c ∈ proc_held p)
  | Close => bool_decide (is_Some (proc_manager p))
  | Disk w => readable_check w
  end.

Lemma enabled_checked op p : enabled_check op p = true -> enabled op p.
Proof.
  destruct op as [|a|[a|]| | |]; cbn [enabled_check enabled]; intros H; btests; try done.
  - split_and!; [done|by intros ? [= <-]|done].
  - by apply readable_checked.
Qed.

(** The step that [op] takes from [p]. *)
Definition process_next (op : operation) (p : process) : process :=
  match perform (A:=alloc_total) (fun _ => 0) (fun _ => true) op p with Ok (Some p) => p | _ => p end.

Lemma process_takes op p p' : enabled_check op p = true -> perform (A:=alloc_total) (fun _ => 0) (fun _ => true) op p = Ok (Some p') ->
  takes (A:=alloc_total) (fun _ => 0) (fun _ => true) p p'.
Proof. intros He E. exists op. split; [by apply enabled_checked|done]. Qed.

(** The manager is opened; a reader acquires the first snapshot; the index grows; a reload
    shares the first segment and installs the second snapshot. *)
Definition process_start : process :=
  Eval vm_compute in
  match YAP_V2_snapshot_manager_open (A:=alloc_total) (fun _ => 0) (fun _ => true) None (Some [105]) (Some [109]) (Some process_config)
    true empty_heap old_disk with
  | Done (h, Ok st) w => Process h (Some st) [] w
  | _ => Process empty_heap None [] old_disk
  end.
Definition process_reading : process := Eval vm_compute in process_next (Disk new_disk) (process_next Acquire process_start).
Definition process_based : process := Eval vm_compute in process_next Acquire process_reading.
Definition process_loaded : process := Eval vm_compute in process_next (Load (Some 0%nat)) process_based.
Definition process_installed : process :=
  Eval vm_compute in process_next (Release 0%nat) (process_next (Install 2%nat) (process_next (Release 0%nat) process_loaded)).

Lemma process_start_opens : opens (A:=alloc_total) (fun _ => 0) (fun _ => true) [105] [109] process_config old_disk process_start.
Proof.
  destruct (proc_manager process_start) as [st|] eqn:E; [|discriminate].
  exists (proc_heap process_start), st, (proc_world process_start). split.
  - injection E as <-. vm_compute. reflexivity.
  - rewrite <- E. reflexivity.
Qed.

Lemma process_loads : exists st, proc_manager process_based = Some st /\
  snapshot_load (A:=alloc_total) (fun _ => 0) (fun _ => true) st (Some 0%nat) (proc_heap process_based) (proc_world process_based)
    = Done (proc_heap process_loaded, Ok 2%nat) (proc_world process_loaded).
Proof. eexists. split; [reflexivity|]. vm_compute. reflexivity. Qed.

(** The run that leads to [process_installed], in which the reader keeps its reference. *)
Lemma perform_load {A : Allocator} garbage mutex_ok base p st h c w : proc_manager p = Some st ->
  snapshot_load garbage mutex_ok st base (proc_heap p) (proc_world p) = Done (h, Ok c) w ->
  perform garbage mutex_ok (Load base) p = Ok (Some (Process h (proc_manager p) (c :: proc_held p) w)).
Proof. destruct p as [h0 m held w0]. cbn. intros -> ->. done. Qed.

Lemma process_run_loads : takes (A:=alloc_total) (fun _ => 0) (fun _ => true) process_based process_loaded.
Proof.
  apply (process_takes (Load (Some 0%nat))); [vm_compute; reflexivity|]. destruct process_loads as (st&Em&E).
  rewrite (perform_load _ _ _ _ _ _ _ _ Em E). vm_compute. reflexivity.
Qed.

Lemma process_run_reading : rtc (takes (A:=alloc_total) (fun _ => 0) (fun _ => true)) process_start process_reading.
Proof.
  eapply rtc_l; [by apply (process_takes Acquire); vm_compute|]. eapply rtc_once. by apply (process_takes (Disk new_disk)); vm_compute.
Qed.

Lemma process_run_installed :
  rtc (fun q q' => takes (A:=alloc_total) (fun _ => 0) (fun _ => true) q q' /\ 0%nat ∈ proc_held q') process_reading process_installed.
Proof.
  eapply rtc_l; [split; [apply (process_takes Acquire process_reading process_based); by vm_compute|by left]|].
  eapply rtc_l; [split; [exact process_run_loads|right; by left]|].
  eapply rtc_l; [split; [by apply (process_takes (Release 0%nat)); vm_compute|right; by left]|].
  eapply rtc_l; [split; [by apply (process_takes (Install 2%nat)); vm_compute|by left]|].
  eapply rtc_l; [split; [by apply (process_takes (Release 0%nat)); vm_compute|by left]|]. constructor.
Qed.

Lemma process_reading_reachable : reachable (A:=alloc_total) (fun _ => 0) (fun _ => true) process_reading.
Proof.
  eexists _, _, _, _, _. split; [exact process_config_wf|]. split; [exact old_disk_readable|]. split; [exact process_start_opens|].
  exact process_run_reading.
Qed.

Lemma process_installed_reachable : reachable (A:=alloc_total) (fun _ => 0) (fun _ => true) process_installed.
Proof.
  eexists _, _, _, _, _. split; [exact process_config_wf|]. split; [exact old_disk_readable|]. split; [exact process_start_opens|].
  etrans; [exact process_run_reading|]. eapply rtc_subrel; [|exact process_run_installed]. by intros ? ? [].
Qed.




(** Reloads never go back.  Over any run of the process, as long as its manager is open,
    the generation of the current snapshot only grows, and it grows strictly whenever the
    current snapshot is replaced. *)
Theorem current_generation_monotone {A : Allocator} (garbage : nat -> Z) (mutex_ok : addr -> bool) (p p' : process) (g' : Z) :
  (forall n, 0 < n <= YAP_V2_MAX_SEGMENTS -> alloc_ok (n * 8) = true) -> reachable garbage mutex_ok p ->
  rtc (takes garbage mutex_ok) p p' -> current_generation p' = Some g' ->
  exists g, current_generation p = Some g /\
    (g < g' \/ g = g' /\ manager_reference (proc_manager p) = manager_reference (proc_manager p')).
Proof.
  intros HA Hr HR. by apply (run_ok garbage mutex_ok HA p p' (process_reachable_ok garbage mutex_ok HA p Hr) HR).
Qed.

Lemma current_generation_monotone_witness :
  exists g, current_generation process_reading = Some g /\
    (g < 2 \/ g = 2 /\ manager_reference (proc_manager process_reading) = manager_reference (proc_manager process_installed)).
Proof.
  apply (current_generation_monotone (A:=alloc_total) (fun _ => 0) (fun _ => true) process_reading process_installed 2
    (fun _ _ => eq_refl) process_reading_reachable).
  - eapply rtc_subrel; [|exact process_run_installed]. intros q q' H. exact (proj1 H).
  - vm_compute. reflexivity.
Defined.

(** Opening a manager.  It succeeds only with a snapshot of the manifest in the manifest
    file: that manifest is valid and carries the fingerprint of the configuration, and every
    segment it names was read from files whose size, digest and header are those of its
    descriptor.  A failure releases everything that was loaded. *)
Theorem manager_open_correct {A : Allocator} (garbage : nat -> Z) (mutex_ok : addr -> bool) (dir mp : bytes) (c : YAP_V2_CONFIG) (w : world) :
  (forall n, 0 < n <= YAP_V2_MAX_SEGMENTS -> alloc_ok (n * 8) = true) -> config_wf c -> readable w ->
  match YAP_V2_snapshot_manager_open garbage mutex_ok None (Some dir) (Some mp) (Some c) true empty_heap w with
  | Done (h, Ok st) w' => frames w w' /\ exists a m contents t, st = ManagerState dir mp c (Some a) /\
      snapshot_view h a = Some (m, contents, t) /\ shows_files garbage w st None m contents
  | Done (h, Err _) w' => frames w w' /\ snapshot_objects h = ∅ /\ segment_objects h = ∅
  | Done (_, Fault) _ => False
  | Crashed w' => frames w w'
  end.
Proof.
  intros HA Hc Hw. pose proof (manager_open_reads garbage mutex_ok HA dir mp c w Hc Hw) as H. unfold reads, wp in H.
  destruct (YAP_V2_snapshot_manager_open _ _ _ _ _ _ _ _ _) as [[h [st|e|]] w'|w']; cbn in H; [| |by destruct H|done].
  - destruct H as [(a&->&HH&HL) Hf]. split; [done|].
    destruct (loaded_shows garbage w (ManagerState dir mp c None) empty_heap h [] None a empty_heap_ok HH) as (m&contents&t&?&?);
      [by intros ? ? ?%elem_of_nil|done|done|]. by exists a, m, contents, t.
  - destruct H as [HH Hf]. split; [done|]. by apply heap_ok_empty.
Qed.

Lemma manager_open_correct_witness : exists h st w a m contents t,
  YAP_V2_snapshot_manager_open (A:=alloc_total) (fun _ => 0) (fun _ => true) None (Some [105]) (Some [109]) (Some process_config) true
    empty_heap old_disk = Done (h, Ok st) w /\ frames old_disk w /\
  snapshot_view h a = Some (m, contents, t) /\ shows_files (A:=alloc_total) (fun _ => 0) old_disk st None m contents.
Proof.
  pose proof (manager_open_correct (A:=alloc_total) (fun _ => 0) (fun _ => true) [105] [109] process_config old_disk
    (fun _ _ => eq_refl) process_config_wf (old_disk_readable)) as H.
  destruct process_start_opens as (h&st&w&E&_). rewrite E in H. destruct H as (Hf&a&m&contents&t&_&Hv&Hs).
  exists h, st, w, a, m, contents, t. exact (conj E (conj Hf (conj Hv Hs))).
Defined.


(** The same reload as one call. *)
Lemma process_reloads : exists st, proc_manager process_reading = Some st /\
  YAP_V2_snapshot_manager_reload (A:=alloc_total) (fun _ => 0) (fun _ => true) (Some st) (proc_heap process_reading) (proc_world process_reading)
    = Done (proc_heap process_installed, proc_manager process_installed, Ok true) new_disk.
Proof.
  destruct process_loads as (st&Em&E). exists st. split; [exact Em|]. unfold YAP_V2_snapshot_manager_reload.
  assert (YAP_V2_snapshot_acquire (Some st) (proc_heap process_reading) = Ok (proc_heap process_based, Some 0%nat)) as ->.
  { injection Em as <-. vm_compute. reflexivity. }
  unfold io_bind. change (proc_world process_reading) with (proc_world process_based). rewrite E. injection Em as <-. vm_compute. reflexivity.
Qed.


(** When the array of segments cannot be allocated, [snapshot_load] does not report the
    failure: the clean-up runs over [segment_count] elements of the NULL array. *)
Theorem snapshot_array_failure_faults {A : Allocator} (garbage : nat -> Z) (mutex_ok : addr -> bool) (st : MANAGER_STATE) (h : heap)
    (held : list addr) (m : YAP_V2_MANIFEST) (w w' : world) :
  alloc_ok sizeof_snapshot = true -> mutex_ok (next_address h) = true ->
  YAP_V2_manifest_load_for_config (Some (manifest_path st)) (YAP_V2_config_fingerprint (Some (manager_config st))) YAP_V2_manifest_init w
    = Done (m, Ok tt) w' ->
  segments m <> [] -> alloc_ok (segment_count m * 8) = false ->
  perform garbage mutex_ok (Load None) (Process h (Some st) held w) = Fault.
Proof.
  intros H1 H2 HL Hs Ha. unfold perform, snapshot_load. rewrite H1, H2. cbn [negb]. unfold io_bind at 1. rewrite HL. cbv beta iota.
  assert (0 < segment_count m) as Hc by (unfold segment_count, zlen; destruct (segments m); [done|cbn; lia]).
  unfold load_manifest_segments. cbv zeta. rewrite (proj2 (Z.ltb_lt 0 _) Hc), Ha. cbn [andb negb].
  unfold io_bind, io_ret, snapshot_destroy. cbn [snap_segment_count snap_segments].
  by rewrite (proj2 (Z.eqb_neq _ _)) by lia.
Qed.

Definition small_allocator : Allocator := fun n => negb (n =? 8).

Lemma snapshot_array_failure_faults_witness : exists m w',
  YAP_V2_manifest_load_for_config (A:=small_allocator) (Some [109]) (YAP_V2_config_fingerprint (Some process_config)) YAP_V2_manifest_init
    old_disk = Done (m, Ok tt) w' /\ segments m <> [] /\
  perform (A:=small_allocator) (fun _ => 0) (fun _ => true) (Load None)
    (Process empty_heap (Some (ManagerState [105] [109] process_config None)) [] old_disk) = Fault.
Proof.
  assert (match YAP_V2_manifest_load_for_config (A:=small_allocator) (Some [109]) (YAP_V2_config_fingerprint (Some process_config))
    YAP_V2_manifest_init old_disk with Done (m, Ok _) _ => segment_count m =? 1 | _ => false end = true) as ER
    by (vm_compute; reflexivity).
  destruct (YAP_V2_manifest_load_for_config (A:=small_allocator) _ _ _ _) as [[m [[]|e|]] w'|w'] eqn:E; try discriminate ER.
  apply Z.eqb_eq in ER. assert (segments m <> []) as Hs by (intros H; unfold segment_count in ER; rewrite H in ER; discriminate ER).
  exists m, w'. refine (conj eq_refl (conj Hs _)).
  apply (snapshot_array_failure_faults (A:=small_allocator) (fun _ => 0) (fun _ => true) (ManagerState [105] [109] process_config None)
    empty_heap [] m old_disk w' eq_refl eq_refl E Hs).
  rewrite ER. reflexivity.
Defined.
