(* ===== verification/Lexical.v ===== *)
(** The reader of lexical indexes (src/src/components/yappo_lexical_reader_v2.c).

    Three files hold the inverted index of a segment: the sorted terms, per term the postings
    (one record of 48 bytes per document or passage, and the maxima of blocks of 128 of them),
    and per posting the positions of the term.  The files are mapped into memory; a mapping is
    the content of its file.  Opening an index validates all three files; searching then reads
    the mappings without further checks. *)
From Stdlib Require Import Sorted.
From S2P Require Import Prelude Words Types Crc Header SlotTable FileSystem Buffer Segment Verify.
#[local] Open Scope io_scope.
#[local] Open Scope Z_scope.

Definition YAP_V2_LEXICAL_PAYLOAD_VERSION : Z := 1.
Definition YAP_V2_POSTINGS_BLOCK_SIZE : Z := 128.
Definition YAP_V2_LEXICAL_DOCUMENT : Z := 1.
Definition YAP_V2_LEXICAL_PASSAGE : Z := 2.
Definition YAP_V2_FIELD_TITLE : Z := 1.
Definition YAP_V2_FIELD_BODY : Z := 2.
Definition YAP_V2_FIELD_PASSAGE : Z := 3.
Definition POSTING_BYTES : Z := 48.
Definition BLOCK_BYTES : Z := 16.

Record YAP_V2_TERM_ENTRY := TermEntry {
  term : YAP_V2_BYTES_VIEW;
  document_frequency : Z;
  postings_offset : Z;
  postings_bytes : Z;
  positions_offset : Z;
  positions_bytes : Z }.

(** The arrays of three counters are indexed by field - 1. *)
Record YAP_V2_POSTING := Posting {
  object_type : Z;
  object_ordinal : Z;
  term_frequency : list Z;
  field_length : list Z;
  position_offset : Z;
  position_count : Z }.

Record YAP_V2_POSTINGS_BLOCK := PostingsBlock {
  first_posting : Z;
  posting_count : Z;
  max_term_frequency : Z;
  min_field_length : Z }.

Record YAP_V2_POSITION := Position { field : Z; position : Z }.

Record YAP_V2_LEXICAL_SEGMENT := LexicalSegment {
  terms_map : bytes;
  postings_map : bytes;
  positions_map : bytes;
  lex_generation : Z;
  lex_document_count : Z;
  lex_passage_count : Z;
  lex_posting_count : Z;
  lex_position_count : Z;
  field_token_count : list Z;
  lex_terms : list YAP_V2_TERM_ENTRY }.

(** The counters that [validate_payloads] reads from the files. *)
Record lexical_counts := LexicalCounts {
  count_documents : Z;
  count_passages : Z;
  count_postings : Z;
  count_positions : Z;
  count_tokens : list Z }.

Definition sizeof_term_entry : Z := 56.

Definition range_valid (offset bytes_ size : Z) : bool := (offset <=? size) && (bytes_ <=? size - offset).

(** [memcmp] of two regions of the same length. *)
Fixpoint memcmp (l r : bytes) : comparison :=
  match l, r with
  | a :: l, b :: r => match Z.compare a b with Eq => memcmp l r | c => c end
  | _, _ => Eq
  end.

Definition term_compare (left right : YAP_V2_BYTES_VIEW) : comparison :=
  let common := Z.to_nat (Z.min (len left) (len right)) in
  match memcmp (take common (view_bytes left)) (take common (view_bytes right)) with
  | Eq => Z.compare (len left) (len right)
  | c => c
  end.

(** ** Mapping a file *)

(** The mapping and the generation in its header. *)
Definition map_component (p : path) (type expected_generation : Z) : io (result (bytes * Z)) :=
  let* file := fopen_rb p in
  match file with
  | None => io_ret (Err YAP_V2_IO_ERROR)
  | Some bs =>
      let* stat := fstat in
      if negb stat || (zlen bs <? YAP_V2_FILE_HEADER_BYTES) ||
         (YAP_V2_FILE_HEADER_BYTES + YAP_V2_MAX_SEGMENT_PAYLOAD_BYTES <? zlen bs)
      then do* fclose_rb in io_ret (Err YAP_V2_INVALID_FORMAT)
      else
      let* mapped := mmap in
      let* closed := fclose_rb in
      if negb closed || negb mapped then io_ret (Err YAP_V2_IO_ERROR)
      else io_ret (
        header ← YAP_V2_file_header_decode (Some bs);
        if negb (file_type header =? type) ||
           negb (payload_bytes header =? zlen bs - YAP_V2_FILE_HEADER_BYTES) ||
           (negb (expected_generation =? 0) && negb (generation header =? expected_generation))
        then Err YAP_V2_INVALID_FORMAT
        else
        payload ← load_bytes bs YAP_V2_FILE_HEADER_BYTES (payload_bytes header);
        if negb (crc32c payload =? payload_crc32c header) then Err YAP_V2_CHECKSUM_MISMATCH
        else Ok (bs, generation header))
  end.

(** ** Validation *)
Definition parse_posting (m : bytes) (p : Z) : result YAP_V2_POSTING :=
  type ← get_u32_le m p;
  ordinal ← get_u64_le m (p + 4);
  tf0 ← get_u32_le m (p + 12);
  tf1 ← get_u32_le m (p + 16);
  tf2 ← get_u32_le m (p + 20);
  fl0 ← get_u32_le m (p + 24);
  fl1 ← get_u32_le m (p + 28);
  fl2 ← get_u32_le m (p + 32);
  offset ← get_u64_le m (p + 36);
  count ← get_u32_le m (p + 44);
  Ok (Posting type ordinal [tf0; tf1; tf2] [fl0; fl1; fl2] offset count).

(** The loop of [validate_term_stream]: [n] entries from [offset], after [previous]; the
    entries and the offset behind them. *)
Fixpoint read_terms (data : bytes) (n : nat) (previous : option YAP_V2_TERM_ENTRY) (offset : Z)
  : result (list YAP_V2_TERM_ENTRY * Z) :=
  match n with
  | O => Ok ([], offset)
  | S n =>
      if negb (range_valid offset 4 (zlen data)) then Err YAP_V2_INVALID_FORMAT
      else
      length ← get_u32_le data offset;
      let offset := u64 (offset + 4) in
      if (length =? 0) || negb (range_valid offset (length + 40) (zlen data)) then Err YAP_V2_INVALID_FORMAT
      else
      bs ← load_bytes data offset length;
      let view := BytesView (Some bs) length in
      let offset := u64 (offset + length) in
      df ← get_u64_le data offset;
      po ← get_u64_le data (offset + 8);
      pb ← get_u64_le data (offset + 16);
      so ← get_u64_le data (offset + 24);
      sb ← get_u64_le data (offset + 32);
      let offset := u64 (offset + 40) in
      let entry := TermEntry view df po pb so sb in
      if (df =? 0) || match previous with
                      | Some p => match term_compare (term p) view with Lt => false | _ => true end
                      | None => false
                      end
      then Err YAP_V2_INVALID_FORMAT
      else
      '(entries, offset) ← read_terms data n (Some entry) offset;
      Ok (entry :: entries, offset)
  end.

Section reader.
Context {A : Allocator}.

Definition validate_term_stream (data : bytes) : result (list YAP_V2_TERM_ENTRY) :=
  let offset := YAP_V2_FILE_HEADER_BYTES in
  if negb (range_valid offset 12 (zlen data)) then Err YAP_V2_INVALID_FORMAT
  else
  version ← get_u32_le data offset;
  if negb (version =? YAP_V2_LEXICAL_PAYLOAD_VERSION) then Err YAP_V2_INVALID_FORMAT
  else
  count ← get_u64_le data (offset + 4);
  if (SIZE_MAX <? count) || (YAP_V2_MAX_SEGMENT_PAYLOAD_BYTES / sizeof_term_entry <? count) then Err YAP_V2_OUT_OF_RANGE
  else if (0 <? count) && negb (alloc_ok (count * sizeof_term_entry)) then Err YAP_V2_ALLOCATION_FAILED
  else
  '(entries, offset) ← read_terms data (Z.to_nat count) None (offset + 12);
  if offset =? zlen data then Ok entries else Err YAP_V2_INVALID_FORMAT.
End reader.

(** The loop over the positions of one posting: [n] of them from [p], the counts of the fields
    and the last position of each. *)
Fixpoint check_positions (positions : bytes) (position_cursor : Z) (posting : YAP_V2_POSTING) (n : nat) (p : Z)
    (field_counts previous_position : list Z) : result (list Z) :=
  match n with
  | O => Ok field_counts
  | S n =>
      let at_ := u64 (position_cursor + 16 + (position_offset posting + p) * 8) in
      field ← get_u32_le positions at_;
      position ← get_u32_le positions (u64 (at_ + 4));
      if (field <? YAP_V2_FIELD_TITLE) || (YAP_V2_FIELD_PASSAGE <? field) then Err YAP_V2_INVALID_FORMAT
      else
      let f := Z.to_nat (field - 1) in
      if (field_length posting !!! f <=? position) ||
         ((0 <? field_counts !!! f) && (position <=? previous_position !!! f))
      then Err YAP_V2_INVALID_FORMAT
      else check_positions positions position_cursor posting n (p + 1)
             (<[f := u32 (field_counts !!! f + 1)]> field_counts) (<[f := position]> previous_position)
  end.

Definition tf_total (posting : YAP_V2_POSTING) : Z := foldr Z.add 0 (term_frequency posting).

(** The tests on one posting before its positions are read. *)
Definition posting_invalid (counts : lexical_counts) (position_records i : Z) (posting previous : YAP_V2_POSTING) : bool :=
  let tf := tf_total posting in
  (negb (object_type posting =? YAP_V2_LEXICAL_DOCUMENT) && negb (object_type posting =? YAP_V2_LEXICAL_PASSAGE)) ||
  ((object_type posting =? YAP_V2_LEXICAL_DOCUMENT) && (count_documents counts <=? object_ordinal posting)) ||
  ((object_type posting =? YAP_V2_LEXICAL_PASSAGE) && (count_passages counts <=? object_ordinal posting)) ||
  (tf =? 0) || negb (tf =? position_count posting) ||
  (position_records <? u64 (position_offset posting + position_count posting)) ||
  ((0 <? i) && ((object_type posting <? object_type previous) ||
                ((object_type posting =? object_type previous) && (object_ordinal posting <=? object_ordinal previous)))).

(** The loop over the postings of one term. *)
Fixpoint check_postings (counts : lexical_counts) (postings positions : bytes) (posting_data position_cursor position_records : Z)
    (n : nat) (i : Z) (previous : YAP_V2_POSTING) : result unit :=
  match n with
  | O => Ok tt
  | S n =>
      posting ← parse_posting postings (u64 (posting_data + i * POSTING_BYTES));
      if posting_invalid counts position_records i posting previous then Err YAP_V2_INVALID_FORMAT
      else
      field_counts ← check_positions positions position_cursor posting (Z.to_nat (position_count posting)) 0 [0; 0; 0] [0; 0; 0];
      if negb (bool_decide (field_counts = term_frequency posting)) then Err YAP_V2_INVALID_FORMAT
      else check_postings counts postings positions posting_data position_cursor position_records n (i + 1) posting
  end.

(** The shortest field of a posting that has the term. *)
Definition shortest_field (posting : YAP_V2_POSTING) : Z :=
  foldl (fun length f => if (0 <? term_frequency posting !!! f) && (field_length posting !!! f <? length)
                         then field_length posting !!! f else length) UINT32_MAX [0%nat; 1%nat; 2%nat].

(** The maxima of [n] postings from [posting_index]. *)
Fixpoint block_maxima (postings : bytes) (posting_data : Z) (n : nat) (posting_index max_tf min_length : Z) : result (Z * Z) :=
  match n with
  | O => Ok (max_tf, min_length)
  | S n =>
      posting ← parse_posting postings (u64 (posting_data + posting_index * POSTING_BYTES));
      let tf := u32 (tf_total posting) in
      let length := shortest_field posting in
      block_maxima postings posting_data n (posting_index + 1)
        (if max_tf <? tf then tf else max_tf) (if length <? min_length then length else min_length)
  end.

Definition parse_block (m : bytes) (p : Z) : result YAP_V2_POSTINGS_BLOCK :=
  first ← get_u32_le m p;
  count ← get_u32_le m (p + 4);
  max_tf ← get_u32_le m (p + 8);
  min_length ← get_u32_le m (p + 12);
  Ok (PostingsBlock first count max_tf min_length).

(** The loop over the blocks of one term. *)
Fixpoint check_blocks (postings : bytes) (posting_data block_data document_frequency_ : Z) (n : nat) (i : Z) : result unit :=
  match n with
  | O => Ok tt
  | S n =>
      block ← parse_block postings (u64 (block_data + i * BLOCK_BYTES));
      if negb (first_posting block =? i * YAP_V2_POSTINGS_BLOCK_SIZE) || (posting_count block =? 0) ||
         (YAP_V2_POSTINGS_BLOCK_SIZE <? posting_count block) ||
         (document_frequency_ <? u32 (first_posting block + posting_count block))
      then Err YAP_V2_INVALID_FORMAT
      else
      '(max_tf, min_length) ← block_maxima postings posting_data (Z.to_nat (posting_count block)) (first_posting block) 0 UINT32_MAX;
      if negb (max_term_frequency block =? max_tf) || negb (min_field_length block =? min_length) then Err YAP_V2_INVALID_FORMAT
      else check_blocks postings posting_data block_data document_frequency_ n (i + 1)
  end.

Definition no_posting : YAP_V2_POSTING := Posting 0 0 [0; 0; 0] [0; 0; 0] 0 0.

(** One turn of the loop over the terms: the number of position records. *)
Definition check_term (counts : lexical_counts) (postings positions : bytes) (term_index posting_cursor position_cursor : Z)
    (t : YAP_V2_TERM_ENTRY) : result Z :=
  let df := document_frequency t in
  if (SIZE_MAX <? postings_offset t) || (SIZE_MAX <? postings_bytes t) || (SIZE_MAX <? positions_offset t) ||
     (SIZE_MAX <? positions_bytes t) ||
     negb (postings_offset t =? u64 (posting_cursor - YAP_V2_FILE_HEADER_BYTES)) ||
     negb (positions_offset t =? u64 (position_cursor - YAP_V2_FILE_HEADER_BYTES)) || (SIZE_MAX <? df) ||
     negb (range_valid posting_cursor (postings_bytes t) (zlen postings)) ||
     negb (range_valid position_cursor (positions_bytes t) (zlen positions)) ||
     negb (range_valid posting_cursor 20 (zlen postings))
  then Err YAP_V2_INVALID_FORMAT
  else
  stored_index ← get_u64_le postings posting_cursor;
  stored_df ← get_u64_le postings (u64 (posting_cursor + 8));
  if negb (stored_index =? term_index) || negb (stored_df =? df) || negb (range_valid position_cursor 16 (zlen positions))
  then Err YAP_V2_INVALID_FORMAT
  else
  position_index ← get_u64_le positions position_cursor;
  if negb (position_index =? term_index) then Err YAP_V2_INVALID_FORMAT
  else
  block_count ← get_u32_le postings (u64 (posting_cursor + 16));
  position_records ← get_u64_le positions (u64 (position_cursor + 8));
  if negb (block_count =? u64 (df + YAP_V2_POSTINGS_BLOCK_SIZE - 1) / YAP_V2_POSTINGS_BLOCK_SIZE) ||
     ((SIZE_MAX - 20) / POSTING_BYTES <? df)
  then Err YAP_V2_INVALID_FORMAT
  else
  let posting_data := u64 (posting_cursor + 20) in
  let block_data := u64 (posting_data + df * POSTING_BYTES) in
  if negb (u64 (20 + df * POSTING_BYTES + block_count * BLOCK_BYTES) =? postings_bytes t) ||
     ((SIZE_MAX - 16) / 8 <? position_records) || negb (positions_bytes t =? u64 (16 + position_records * 8))
  then Err YAP_V2_INVALID_FORMAT
  else
  _ ← check_postings counts postings positions posting_data position_cursor position_records (Z.to_nat df) 0 no_posting;
  _ ← check_blocks postings posting_data block_data df (Z.to_nat block_count) 0;
  Ok position_records.

(** The loop over the terms: the cursors and the counted postings and positions. *)
Fixpoint check_terms (counts : lexical_counts) (postings positions : bytes) (terms : list YAP_V2_TERM_ENTRY)
    (term_index posting_cursor position_cursor counted_postings counted_positions : Z) : result (Z * Z * Z * Z) :=
  match terms with
  | [] => Ok (posting_cursor, position_cursor, counted_postings, counted_positions)
  | t :: terms =>
      position_records ← check_term counts postings positions term_index posting_cursor position_cursor t;
      check_terms counts postings positions terms (term_index + 1)
        (u64 (posting_cursor + postings_bytes t)) (u64 (position_cursor + positions_bytes t))
        (u64 (counted_postings + document_frequency t)) (u64 (counted_positions + position_records))
  end.

Definition validate_payloads (postings positions : bytes) (terms : list YAP_V2_TERM_ENTRY) : result lexical_counts :=
  let h := YAP_V2_FILE_HEADER_BYTES in
  if negb (range_valid h 56 (zlen postings)) then Err YAP_V2_INVALID_FORMAT
  else
  version ← get_u32_le postings h;
  if negb (version =? YAP_V2_LEXICAL_PAYLOAD_VERSION) then Err YAP_V2_INVALID_FORMAT
  else
  block_size ← get_u32_le postings (h + 4);
  if negb (block_size =? YAP_V2_POSTINGS_BLOCK_SIZE) || negb (range_valid h 12 (zlen positions)) then Err YAP_V2_INVALID_FORMAT
  else
  version ← get_u32_le positions h;
  if negb (version =? YAP_V2_LEXICAL_PAYLOAD_VERSION) then Err YAP_V2_INVALID_FORMAT
  else
  documents ← get_u64_le postings (h + 8);
  passages ← get_u64_le postings (h + 16);
  posting_count ← get_u64_le postings (h + 24);
  tokens0 ← get_u64_le postings (h + 32);
  tokens1 ← get_u64_le postings (h + 40);
  tokens2 ← get_u64_le postings (h + 48);
  position_count ← get_u64_le positions (h + 4);
  let counts := LexicalCounts documents passages posting_count position_count [tokens0; tokens1; tokens2] in
  '(posting_cursor, position_cursor, counted_postings, counted_positions) ←
    check_terms counts postings positions terms 0 (h + 56) (h + 12) 0 0;
  if (posting_cursor =? zlen postings) && (position_cursor =? zlen positions) &&
     (counted_postings =? posting_count) && (counted_positions =? position_count)
  then Ok counts else Err YAP_V2_INVALID_FORMAT.

(** ** Opening *)
Definition TERMS_NAME : bytes := [116; 101; 114; 109; 115; 46; 121; 97; 112; 50].  (* "terms.yap2" *)
Definition POSTINGS_NAME : bytes := [112; 111; 115; 116; 105; 110; 103; 115; 46; 121; 97; 112; 50].  (* "postings.yap2" *)
Definition POSITIONS_NAME : bytes := [112; 111; 115; 105; 116; 105; 111; 110; 115; 46; 121; 97; 112; 50].  (* "positions.yap2" *)

Section open.
Context {A : Allocator}.

(** One turn of the loop that maps the files; [generation_] is that of the file before. *)
Definition map_file (segment_dir name type : _) (expected_generation : Z) (generation_ : option Z) : io (result (bytes * Z)) :=
  if negb (alloc_ok (zlen segment_dir + zlen name + 2)) then io_ret (Err YAP_V2_ALLOCATION_FAILED)
  else
  let* r := map_component (segment_dir ++ [SLASH] ++ name) type expected_generation in
  io_ret ('(bs, g) ← r;
        if match generation_ with Some g0 => negb (g =? g0) | None => false end then Err YAP_V2_INVALID_FORMAT else Ok (bs, g)).

Definition YAP_V2_lexical_segment_open (segment_dir : option bytes) (expected_generation : Z) : io (result YAP_V2_LEXICAL_SEGMENT) :=
  match segment_dir with
  | None => io_ret (Err YAP_V2_INVALID_ARGUMENT)
  | Some dir =>
    let* r := map_file dir TERMS_NAME YAP_V2_FILE_TERMS expected_generation None in
    match r with
    | Err e => io_ret (Err e)
    | Fault => io_ret Fault
    | Ok (terms, g0) =>
        let* r := map_file dir POSTINGS_NAME YAP_V2_FILE_POSTINGS expected_generation (Some g0) in
        match r with
        | Err e => io_ret (Err e)
        | Fault => io_ret Fault
        | Ok (postings, g1) =>
            let* r := map_file dir POSITIONS_NAME YAP_V2_FILE_POSITIONS expected_generation (Some g1) in
            io_ret ('(positions, g2) ← r;
                    entries ← validate_term_stream terms;
                    counts ← validate_payloads postings positions entries;
                    Ok (LexicalSegment terms postings positions g2 (count_documents counts) (count_passages counts)
                          (count_postings counts) (count_positions counts) (count_tokens counts) entries))
        end
    end
  end.
End open.

(** ** Searching *)

(** The loop of the binary search in [low, high). *)
Fixpoint search_terms (fuel : nat) (terms : list YAP_V2_TERM_ENTRY) (target : YAP_V2_BYTES_VIEW) (low high : Z)
  : result (option YAP_V2_TERM_ENTRY) :=
  match fuel with
  | O => Fault
  | S fuel =>
      if low <? high then
        let middle := low + (high - low) / 2 in
        entry ← elem_at terms middle;
        let common := Z.to_nat (Z.min (len (term entry)) (len target)) in
        let order := memcmp (take common (view_bytes (term entry))) (take common (view_bytes target)) in
        match order with
        | Eq => if len (term entry) =? len target then Ok (Some entry)
                else if len (term entry) <? len target then search_terms fuel terms target (middle + 1) high
                else search_terms fuel terms target low middle
        | Lt => search_terms fuel terms target (middle + 1) high
        | Gt => search_terms fuel terms target low middle
        end
      else Ok None
  end.

(** The range halves in every turn. *)
Definition YAP_V2_lexical_term_find (segment : option YAP_V2_LEXICAL_SEGMENT) (target : YAP_V2_BYTES_VIEW)
  : result (option YAP_V2_TERM_ENTRY) :=
  match segment with
  | None => Ok None
  | Some s =>
      if (0 <? len target) && bool_decide (data target = None) then Ok None
      else search_terms 64 (lex_terms s) target 0 (zlen (lex_terms s))
  end.

(** The first posting of type passage or later. *)
Fixpoint search_passages (fuel : nat) (postings : bytes) (base low high : Z) : result Z :=
  match fuel with
  | O => Fault
  | S fuel =>
      if low <? high then
        let middle := low + (high - low) / 2 in
        posting ← parse_posting postings (u64 (base + middle * POSTING_BYTES));
        if object_type posting <? YAP_V2_LEXICAL_PASSAGE then search_passages fuel postings base (middle + 1) high
        else search_passages fuel postings base low middle
      else Ok low
  end.

Definition YAP_V2_lexical_term_type_frequency (segment : option YAP_V2_LEXICAL_SEGMENT) (t : option YAP_V2_TERM_ENTRY)
    (type : Z) : result Z :=
  match segment, t with
  | Some s, Some t =>
      if (negb (type =? YAP_V2_LEXICAL_DOCUMENT) && negb (type =? YAP_V2_LEXICAL_PASSAGE)) || (SIZE_MAX <? document_frequency t)
      then Err YAP_V2_INVALID_ARGUMENT
      else
      low ← search_passages 65 (postings_map s) (u64 (YAP_V2_FILE_HEADER_BYTES + postings_offset t + 20)) 0 (document_frequency t);
      Ok (if type =? YAP_V2_LEXICAL_DOCUMENT then low else u64 (document_frequency t - low))
  | _, _ => Err YAP_V2_INVALID_ARGUMENT
  end.

(** ** Iterators; the segment and the term they refer to are not copied. *)
Record YAP_V2_POSTING_ITERATOR := PostingIterator {
  it_segment : YAP_V2_LEXICAL_SEGMENT;
  it_term : YAP_V2_TERM_ENTRY;
  it_offset : Z;
  it_index : Z;
  it_blocks_offset : Z }.

Definition YAP_V2_posting_iterator_init (segment : option YAP_V2_LEXICAL_SEGMENT) (t : option YAP_V2_TERM_ENTRY)
  : result YAP_V2_POSTING_ITERATOR :=
  match segment, t with
  | Some s, Some t =>
      let offset := u64 (YAP_V2_FILE_HEADER_BYTES + postings_offset t + 20) in
      Ok (PostingIterator s t offset 0 (u64 (offset + document_frequency t * POSTING_BYTES)))
  | _, _ => Err YAP_V2_INVALID_ARGUMENT
  end.

Definition YAP_V2_posting_iterator_next (it : YAP_V2_POSTING_ITERATOR) : result (YAP_V2_POSTING_ITERATOR * YAP_V2_POSTING) :=
  if document_frequency (it_term it) <=? it_index it then Err YAP_V2_OUT_OF_RANGE
  else
  posting ← parse_posting (postings_map (it_segment it)) (it_offset it);
  Ok (PostingIterator (it_segment it) (it_term it) (u64 (it_offset it + POSTING_BYTES)) (u64 (it_index it + 1))
        (it_blocks_offset it), posting).

Definition YAP_V2_posting_iterator_block (it : YAP_V2_POSTING_ITERATOR) (block_index : Z) : result YAP_V2_POSTINGS_BLOCK :=
  let count := u64 (document_frequency (it_term it) + YAP_V2_POSTINGS_BLOCK_SIZE - 1) / YAP_V2_POSTINGS_BLOCK_SIZE in
  if count <=? block_index then Err YAP_V2_OUT_OF_RANGE
  else parse_block (postings_map (it_segment it)) (u64 (it_blocks_offset it + block_index * BLOCK_BYTES)).

Record YAP_V2_POSITION_ITERATOR := PositionIterator {
  pos_segment : YAP_V2_LEXICAL_SEGMENT;
  pos_term : YAP_V2_TERM_ENTRY;
  pos_offset : Z;
  pos_index : Z }.

Definition YAP_V2_position_iterator_init (segment : option YAP_V2_LEXICAL_SEGMENT) (t : option YAP_V2_TERM_ENTRY)
  : result YAP_V2_POSITION_ITERATOR :=
  match segment, t with
  | Some s, Some t => Ok (PositionIterator s t (u64 (YAP_V2_FILE_HEADER_BYTES + positions_offset t + 16)) 0)
  | _, _ => Err YAP_V2_INVALID_ARGUMENT
  end.

Definition YAP_V2_position_iterator_next (it : YAP_V2_POSITION_ITERATOR) : result (YAP_V2_POSITION_ITERATOR * YAP_V2_POSITION) :=
  let count := u64 (positions_bytes (pos_term it) - 16) / 8 in
  if count <=? pos_index it then Err YAP_V2_OUT_OF_RANGE
  else
  f ← get_u32_le (positions_map (pos_segment it)) (pos_offset it);
  p ← get_u32_le (positions_map (pos_segment it)) (u64 (pos_offset it + 4));
  Ok (PositionIterator (pos_segment it) (pos_term it) (u64 (pos_offset it + 8)) (u64 (pos_index it + 1)), Position f p).

Definition YAP_V2_posting_position_at (segment : option YAP_V2_LEXICAL_SEGMENT) (t : option YAP_V2_TERM_ENTRY)
    (posting : option YAP_V2_POSTING) (index : Z) : result YAP_V2_POSITION :=
  match segment, t, posting with
  | Some s, Some t, Some p =>
      if (position_count p <=? index) || (SIZE_MAX <? positions_offset t) || (SIZE_MAX - index <? position_offset p)
      then Err YAP_V2_OUT_OF_RANGE
      else
      let offset := u64 (YAP_V2_FILE_HEADER_BYTES + positions_offset t + 16 + (position_offset p + index) * 8) in
      if negb (range_valid offset 8 (zlen (positions_map s))) then Err YAP_V2_INVALID_FORMAT
      else
      f ← get_u32_le (positions_map s) offset;
      q ← get_u32_le (positions_map s) (offset + 4);
      Ok (Position f q)
  | _, _, _ => Err YAP_V2_INVALID_ARGUMENT
  end.

(** ** Specification: what the files say *)
Definition u32_at (m : bytes) (p : Z) : Z := le_dec (slice m p 4).
Definition u64_at (m : bytes) (p : Z) : Z := le_dec (slice m p 8).
Definition posting_at (m : bytes) (p : Z) : YAP_V2_POSTING :=
  Posting (u32_at m p) (u64_at m (p + 4)) [u32_at m (p + 12); u32_at m (p + 16); u32_at m (p + 20)]
    [u32_at m (p + 24); u32_at m (p + 28); u32_at m (p + 32)] (u64_at m (p + 36)) (u32_at m (p + 44)).
Definition block_at (m : bytes) (p : Z) : YAP_V2_POSTINGS_BLOCK :=
  PostingsBlock (u32_at m p) (u32_at m (p + 4)) (u32_at m (p + 8)) (u32_at m (p + 12)).
Definition position_at (m : bytes) (p : Z) : YAP_V2_POSITION := Position (u32_at m p) (u32_at m (p + 4)).

(** The records of a term. *)
Definition term_postings (postings : bytes) (posting_cursor df : Z) : list YAP_V2_POSTING :=
  (fun i => posting_at postings (posting_cursor + 20 + i * POSTING_BYTES)) <$> seqZ 0 df.
Definition posting_positions (positions : bytes) (position_cursor : Z) (p : YAP_V2_POSTING) : list YAP_V2_POSITION :=
  (fun i => position_at positions (position_cursor + 16 + (position_offset p + i) * 8)) <$> seqZ 0 (position_count p).

(** The positions of one field. *)
Definition field_positions (f : Z) (l : list YAP_V2_POSITION) : list Z := position <$> filter (fun q => field q = f) l.

(** The positions of a posting agree with its counters. *)
Record positions_ok (p : YAP_V2_POSTING) (l : list YAP_V2_POSITION) : Prop := {
  pos_fields : Forall (fun q => 1 <= field q <= 3 /\ position q < field_length p !!! Z.to_nat (field q - 1)) l;
  pos_sorted : forall f, 1 <= f <= 3 -> StronglySorted Z.lt (field_positions f l);
  pos_counts : forall f, 1 <= f <= 3 -> term_frequency p !!! Z.to_nat (f - 1) = zlen (field_positions f l) }.

(** The order of postings: documents before passages, by ordinal. *)
Definition posting_lt (p q : YAP_V2_POSTING) : Prop :=
  object_type p < object_type q \/ object_type p = object_type q /\ object_ordinal p < object_ordinal q.

(** The sum in the bounds check of a posting is computed in 64 bits. *)
Definition wraps (p : YAP_V2_POSTING) : Prop := 2 ^ 64 <= position_offset p + position_count p.

(** The counters of a posting, checked for every one. *)
Record posting_shape (counts : lexical_counts) (p : YAP_V2_POSTING) : Prop := {
  post_type : object_type p = YAP_V2_LEXICAL_DOCUMENT /\ object_ordinal p < count_documents counts \/
              object_type p = YAP_V2_LEXICAL_PASSAGE /\ object_ordinal p < count_passages counts;
  post_count : 0 < position_count p /\ tf_total p = position_count p }.

Record posting_ok (records : Z) (positions : bytes) (position_cursor : Z) (p : YAP_V2_POSTING) : Prop := {
  post_range : position_offset p + position_count p <= records;
  post_positions : positions_ok p (posting_positions positions position_cursor p) }.

(** Reading inside a block. *)
Section at_offsets.
Context {E : Type} (m : bytes) (Hm : bytes_ok m).

Lemma get_u32_at p : 0 <= p -> p + 4 <= zlen m -> get_u32_le (E:=E) m p = Ok (u32_at m p) /\ is_u32 (u32_at m p).
Proof using Hm. intros. split; [by apply get_u32_le_dec|by apply le_dec_u32]. Qed.
Lemma get_u64_at p : 0 <= p -> p + 8 <= zlen m -> get_u64_le (E:=E) m p = Ok (u64_at m p) /\ is_u64 (u64_at m p).
Proof using Hm. intros. split; [by apply get_u64_le_dec|by apply le_dec_u64]. Qed.
End at_offsets.

(** Splits on the first test of the goal. *)
Ltac test T := match goal with |- context [if ?b then _ else _] => destruct b eqn:T end.

(** Evaluates the reads of the goal that [lia] proves to be in range. *)
Ltac read_at Hm :=
  match goal with
  | |- context [get_u32_le ?m ?p] => rewrite (proj1 (get_u32_at m Hm p ltac:(lia) ltac:(lia))), outcome_bind_ok
  | |- context [get_u64_le ?m ?p] => rewrite (proj1 (get_u64_at m Hm p ltac:(lia) ltac:(lia))), outcome_bind_ok
  end.

Lemma parse_posting_at m p : bytes_ok m -> 0 <= p -> p + 48 <= zlen m -> parse_posting m p = Ok (posting_at m p).
Proof.
  intros Hm H0 H1. unfold parse_posting.
  repeat read_at Hm. done.
Qed.

Lemma parse_block_at m p : bytes_ok m -> 0 <= p -> p + 16 <= zlen m -> parse_block m p = Ok (block_at m p).
Proof.
  intros Hm H0 H1. unfold parse_block.
  repeat read_at Hm. done.
Qed.

(** The ranges of the fields of a record. *)
Lemma posting_at_range m p : bytes_ok m -> 0 <= p -> p + 48 <= zlen m ->
  let q := posting_at m p in is_u32 (object_type q) /\ is_u64 (object_ordinal q) /\ is_u64 (position_offset q) /\ is_u32 (position_count q) /\
    Forall is_u32 (term_frequency q) /\ Forall is_u32 (field_length q).
Proof.
  intros Hm H0 H1 q. cbn. rewrite !Forall_cons, !Forall_nil. unfold u32_at, u64_at. split_and!; try done;
    (apply le_dec_u32 || apply le_dec_u64); done || lia.
Qed.

(** ** What validation establishes *)

(** The accumulators of [check_positions] after [done_]. *)
Record scanned (p : YAP_V2_POSTING) (done_ : list YAP_V2_POSITION) (counts previous : list Z) : Prop := {
  scan_fields : Forall (fun q => 1 <= field q <= 3 /\ position q < field_length p !!! Z.to_nat (field q - 1)) done_;
  scan_counts : length counts = 3%nat /\ forall f, 1 <= f <= 3 -> counts !!! Z.to_nat (f - 1) = zlen (field_positions f done_);
  scan_previous : length previous = 3%nat /\ forall f, 1 <= f <= 3 -> field_positions f done_ <> [] ->
    last (field_positions f done_) = Some (previous !!! Z.to_nat (f - 1));
  scan_sorted : forall f, 1 <= f <= 3 -> StronglySorted Z.lt (field_positions f done_) }.

Lemma field_positions_app f l k : field_positions f (l ++ k) = field_positions f l ++ field_positions f k.
Proof. unfold field_positions. by rewrite filter_app, fmap_app. Qed.
Lemma field_positions_single f q : field_positions f [q] = if decide (field q = f) then [position q] else [].
Proof. unfold field_positions. rewrite filter_cons. by destruct (decide (field q = f)). Qed.
Lemma field_positions_length f l : zlen (field_positions f l) <= zlen l.
Proof. unfold field_positions. rewrite zlen_fmap. unfold zlen. pose proof (length_filter (fun q => field q = f) l). lia. Qed.

(** A sorted list may be extended by anything larger than its last element. *)
Lemma sorted_snoc (l : list Z) x : StronglySorted Z.lt l -> (forall y, last l = Some y -> y < x) -> StronglySorted Z.lt (l ++ [x]).
Proof.
  induction 1 as [|a l HS IH HF]; intros Hx; cbn; [repeat constructor|].
  assert (StronglySorted Z.lt (l ++ [x])) as HS'.
  { apply IH. intros y Hy. apply Hx. by rewrite last_cons, Hy. }
  constructor; [done|]. apply Forall_app_2; [done|]. apply Forall_singleton.
  destruct (last l) as [y|] eqn:El.
  - apply last_Some in El as [l' ->]. specialize (Hx y ltac:(by rewrite last_cons, last_snoc)).
    rewrite Forall_app, Forall_singleton in HF. destruct HF as [_ HF]. eapply Z.lt_trans; eassumption.
  - apply last_None in El as ->. by apply Hx.
Qed.

Lemma lookup_total_set (l : list Z) (i j : nat) x : length l = 3%nat -> (i < 3)%nat -> <[i := x]> l !!! j = if decide (i = j) then x else l !!! j.
Proof.
  intros Hl Hi. destruct (decide (i = j)) as [->|N]; [apply list_lookup_total_insert_eq; lia|by apply list_lookup_total_insert_ne].
Qed.

Lemma scanned_snoc p done_ counts previous q : scanned p done_ counts previous -> 1 <= field q <= 3 ->
  position q < field_length p !!! Z.to_nat (field q - 1) -> zlen done_ + 1 < 2 ^ 32 ->
  (0 < counts !!! Z.to_nat (field q - 1) -> previous !!! Z.to_nat (field q - 1) < position q) ->
  scanned p (done_ ++ [q]) (<[Z.to_nat (field q - 1) := u32 (counts !!! Z.to_nat (field q - 1) + 1)]> counts)
    (<[Z.to_nat (field q - 1) := position q]> previous).
Proof.
  intros [HF [Hc3 HC] [Hp3 HP] HS] Hq Hpos Hlen Hprev. split.
  - by apply Forall_app_2, Forall_singleton.
  - split; [by rewrite length_insert|]. intros f Hf. rewrite lookup_total_set, field_positions_app, field_positions_single by (done || lia).
    destruct (decide (field q = f)) as [<-|N].
    + rewrite decide_True by done. rewrite HC by done. pose proof (field_positions_length (field q) done_). pose proof (zlen_nonneg (field_positions (field q) done_)).
      unfold u32. rewrite Z.mod_small by lia. zl.
    + rewrite decide_False by lia. rewrite app_nil_r. by apply HC.
  - split; [by rewrite length_insert|]. intros f Hf. rewrite lookup_total_set, field_positions_app, field_positions_single by (done || lia).
    destruct (decide (field q = f)) as [<-|N].
    + rewrite decide_True by done. intros _. apply last_snoc.
    + rewrite decide_False by lia. rewrite app_nil_r. by apply HP.
  - intros f Hf. rewrite field_positions_app, field_positions_single. destruct (decide (field q = f)) as [<-|N]; [|rewrite app_nil_r; by apply HS].
    apply sorted_snoc; [by apply HS|]. intros y Hy. assert (field_positions (field q) done_ <> []) as Hne by (by intros E; rewrite E in Hy).
    rewrite HP in Hy by done. injection Hy as <-. apply Hprev. rewrite HC by done. destruct (field_positions (field q) done_); [done|]. zl.
Qed.

Lemma check_positions_spec positions cursor p records : bytes_ok positions -> 0 <= cursor -> cursor + 16 + records * 8 <= zlen positions ->
  zlen positions < 2 ^ 63 -> 0 <= position_offset p -> is_u32 (position_count p) -> position_offset p + position_count p <= records ->
  forall n k done_ counts previous, 0 <= k -> k + Z.of_nat n = position_count p -> zlen done_ = k -> scanned p done_ counts previous ->
  match check_positions positions cursor p n k counts previous with
  | Ok counts' => exists previous', scanned p (done_ ++ ((fun i => position_at positions (cursor + 16 + (position_offset p + i) * 8)) <$> seqZ k (Z.of_nat n))) counts' previous'
  | Err _ => True
  | Fault => False
  end.
Proof.
  intros Hok H0 Hr Hsz Hpo Hpc Hpr n. induction n as [|n IH]; intros k done_ counts previous Hk Hn Hd HS; cbn [check_positions].
  - exists previous. change (Z.of_nat 0) with 0. rewrite seqZ_nil by lia. cbn. by rewrite app_nil_r.
  - rewrite Nat2Z.inj_succ in Hn. cbv zeta. unfold is_u32 in Hpc.
    rewrite (u64_small (cursor + 16 + (position_offset p + k) * 8)) by lia. rewrite (u64_small (_ + 4)) by lia. do 2 read_at Hok.
    set (q := position_at positions (cursor + 16 + (position_offset p + k) * 8)).
    change (u32_at positions (cursor + 16 + (position_offset p + k) * 8)) with (field q).
    change (u32_at positions (cursor + 16 + (position_offset p + k) * 8 + 4)) with (position q).
    test T1; [done|]. test T2; [done|]. apply orb_false_iff in T1 as [T1 T1'], T2 as [T2 T2'].
    unfold YAP_V2_FIELD_TITLE, YAP_V2_FIELD_PASSAGE in *. btests.
    specialize (IH (k + 1) (done_ ++ [q]) (<[Z.to_nat (field q - 1) := u32 (counts !!! Z.to_nat (field q - 1) + 1)]> counts)
      (<[Z.to_nat (field q - 1) := position q]> previous)).
    rewrite (seqZ_cons k) by lia. replace (Z.succ k) with (k + 1) by lia. replace (Z.pred (Z.of_nat (S n))) with (Z.of_nat n) by lia.
    rewrite fmap_cons, cons_middle, (assoc_L (++)). cbv beta. fold q. apply IH; [lia|lia|zl|].
    apply scanned_snoc; [done|lia|done| |].
    + lia.
    + intros Hc. destruct T2' as [T|T]; lia.
Qed.

Lemma posting_invalid_false counts records i p prev : posting_invalid counts records i p prev = false ->
  (object_type p = YAP_V2_LEXICAL_DOCUMENT /\ object_ordinal p < count_documents counts \/
   object_type p = YAP_V2_LEXICAL_PASSAGE /\ object_ordinal p < count_passages counts) /\
  tf_total p <> 0 /\ tf_total p = position_count p /\ u64 (position_offset p + position_count p) <= records /\
  (0 < i -> posting_lt prev p).
Proof.
  unfold posting_invalid. cbv zeta. rewrite !orb_false_iff, !andb_false_iff, !negb_false_iff, !orb_false_iff, !andb_false_iff.
  rewrite !Z.eqb_eq, !Z.eqb_neq, !Z.leb_gt, !Z.ltb_ge. intros ((((((HT&HD)&HP)&H1)&H2)&H3)&H4). split_and!; [|done..|].
  - destruct HT as [E|E]; [left|right]; (split; [done|]).
    + destruct HD; [congruence|done].
    + destruct HP; [congruence|done].
  - intros Hi. unfold posting_lt. destruct H4 as [?|[? ?]]; lia.
Qed.

Lemma scanned_nil p : scanned p [] [0; 0; 0] [0; 0; 0].
Proof.
  split; [done| |by split|intros; constructor]. split; [done|]. intros f Hf.
  assert (f = 1 \/ f = 2 \/ f = 3) as [->|[->| ->]] by lia; done.
Qed.

Section term_records.
Context (counts : lexical_counts) (postings positions : bytes) (pc sc df records : Z).
Context (Hpo : bytes_ok postings) (Hso : bytes_ok positions) (Hpc : 0 <= pc) (Hsc : 0 <= sc).
Context (Hpr : pc + 20 + df * POSTING_BYTES <= zlen postings) (Hsr : sc + 16 + records * 8 <= zlen positions).
Context (Hpz : zlen postings < 2 ^ 32) (Hsz : zlen positions < 2 ^ 32).

Definition post (i : Z) : YAP_V2_POSTING := posting_at postings (pc + 20 + i * POSTING_BYTES).

Lemma parse_post i : 0 <= i < df -> parse_posting postings (u64 (pc + 20 + i * POSTING_BYTES)) = Ok (post i).
Proof using Hpo Hpc Hpr Hpz.
  unfold POSTING_BYTES in *. intros Hi. rewrite u64_small by lia. apply parse_posting_at; [done|lia..].
Qed.

Lemma post_range_ i : 0 <= i < df -> is_u64 (object_ordinal (post i)) /\ is_u64 (position_offset (post i)) /\ is_u32 (position_count (post i)).
Proof using Hpo Hpc Hpr.
  unfold POSTING_BYTES in *. intros Hi. destruct (posting_at_range postings (pc + 20 + i * 48)) as (_&?&?&?&_); [done|lia..|]. done.
Qed.

Lemma check_postings_spec n : forall i prev, 0 <= i -> i + Z.of_nat n = df -> (0 < i -> prev = post (i - 1)) ->
  match check_postings counts postings positions (pc + 20) sc records n i prev with
  | Ok _ => forall j, i <= j < df -> posting_shape counts (post j) /\ (~ wraps (post j) -> posting_ok records positions sc (post j)) /\
    (0 < j -> posting_lt (post (j - 1)) (post j))
  | Err _ => True
  | Fault => exists j, 0 <= j < df /\ wraps (post j)
  end.
Proof using Hpo Hso Hpc Hsc Hpr Hsr Hpz Hsz.
  induction n as [|n IH]; intros i prev Hi Hn Hprev; cbn [check_postings]; [intros; lia|].
  rewrite parse_post by lia. rewrite outcome_bind_ok. test T; [done|]. apply posting_invalid_false in T as (HT&Htf0&Htf&Hu&Hlt).
  destruct (post_range_ i) as (_&Hpoff&Hpcnt); [lia|].
  assert (posting_shape counts (post i)) as HSh by (split; [done|unfold is_u32 in *; lia]).
  destruct (decide (wraps (post i))) as [W|W].
  { destruct (check_positions _ _ _ _ _ _ _) as [fc| |]; cbn [mbind outcome_bind]; [|done|exists i; by split; [lia|]].
  test T; [done|]. specialize (IH (i + 1) (post i) ltac:(lia) ltac:(lia)). rewrite Z.add_simpl_r in IH.
  specialize (IH ltac:(done)). destruct (check_postings _ _ _ _ _ _ _ _ _) as [u| |]; [|done|done].
  intros j Hj. destruct (decide (j = i)) as [->|]; [|apply IH; lia]. split; [done|].
  split; [done|]. intros H. rewrite <- Hprev by done. by apply Hlt. }
  assert (position_offset (post i) + position_count (post i) <= records) as Hle.
  { unfold wraps, is_u64, is_u32 in *. rewrite u64_small in Hu by lia. done. }
  pose proof (check_positions_spec positions sc (post i) records Hso Hsc Hsr ltac:(lia) ltac:(unfold is_u64 in *; lia) Hpcnt Hle
  (Z.to_nat (position_count (post i))) 0 [] [0; 0; 0] [0; 0; 0] ltac:(lia) ltac:(unfold is_u32 in *; lia) eq_refl (scanned_nil _)) as HC.
  destruct (check_positions _ _ _ _ _ _ _) as [fc| |]; cbn [mbind outcome_bind]; [|done|done]. destruct HC as [pr HC].
  test T; [done|]. apply negb_false_iff, bool_decide_eq_true in T. subst fc.
  specialize (IH (i + 1) (post i) ltac:(lia) ltac:(lia)). rewrite Z.add_simpl_r in IH. specialize (IH ltac:(done)).
  destruct (check_postings _ _ _ _ _ _ _ _ _) as [u| |]; [|done|done].
  intros j Hj. destruct (decide (j = i)) as [->|]; [|apply IH; lia]. split; [done|].
  split; [|intros H; rewrite <- Hprev by done; by apply Hlt]. intros _. rewrite Z2Nat.id in HC by (unfold is_u32 in *; lia). destruct HC as [H1 [_ H2] _ H4].
  split; [done|by split].
Qed.

(** The blocks of a term. *)
Definition block_summary (ps : list YAP_V2_POSTING) : Z * Z :=
  (foldl (fun m p => Z.max m (u32 (tf_total p))) 0 ps, foldl (fun m p => Z.min m (shortest_field p)) UINT32_MAX ps).
Definition blk (b : Z) : YAP_V2_POSTINGS_BLOCK := block_at postings (pc + 20 + df * POSTING_BYTES + b * BLOCK_BYTES).

Record block_ok (b : Z) : Prop := {
  block_first : first_posting (blk b) = b * YAP_V2_POSTINGS_BLOCK_SIZE;
  block_count : 1 <= posting_count (blk b) <= YAP_V2_POSTINGS_BLOCK_SIZE;
  block_end : first_posting (blk b) + posting_count (blk b) <= df;
  block_values : (max_term_frequency (blk b), min_field_length (blk b)) =
  block_summary (post <$> seqZ (first_posting (blk b)) (posting_count (blk b))) }.

Lemma block_maxima_spec n : forall i mt ml, 0 <= i -> i + Z.of_nat n <= df ->
  block_maxima postings (pc + 20) n i mt ml =
  Ok (foldl (fun m p => Z.max m (u32 (tf_total p))) mt (post <$> seqZ i (Z.of_nat n)),
      foldl (fun m p => Z.min m (shortest_field p)) ml (post <$> seqZ i (Z.of_nat n))).
Proof using Hpo Hpc Hpr Hpz.
  induction n as [|n IH]; intros i mt ml Hi Hn; cbn [block_maxima]; [change (Z.of_nat 0) with 0; by rewrite seqZ_nil by lia|].
  rewrite parse_post by lia. rewrite outcome_bind_ok, (seqZ_cons i) by lia.
  replace (Z.succ i) with (i + 1) by lia. replace (Z.pred (Z.of_nat (S n))) with (Z.of_nat n) by lia.
  rewrite fmap_cons. cbn [foldl]. rewrite IH by lia. cbv zeta.
  destruct (Z.ltb_spec mt (u32 (tf_total (post i)))), (Z.ltb_spec (shortest_field (post i)) ml);
  rewrite ?(Z.max_r mt), ?(Z.max_l mt), ?(Z.min_r ml), ?(Z.min_l ml) by lia; done.
Qed.

Lemma check_blocks_spec bc : pc + 20 + df * POSTING_BYTES + bc * BLOCK_BYTES <= zlen postings ->
  (bc - 1) * YAP_V2_POSTINGS_BLOCK_SIZE < df -> 0 <= df ->
  forall n i, 0 <= i -> i + Z.of_nat n = bc ->
  match check_blocks postings (pc + 20) (pc + 20 + df * POSTING_BYTES) df n i with
  | Ok _ => forall b, i <= b < bc -> block_ok b
  | Err _ => True
  | Fault => False
  end.
Proof using Hpo Hpc Hpr Hpz.
  unfold POSTING_BYTES, BLOCK_BYTES, YAP_V2_POSTINGS_BLOCK_SIZE in *. intros Hb Hbc Hdf n.
  induction n as [|n IH]; intros i Hi Hn; cbn [check_blocks]; [intros; lia|].
  change BLOCK_BYTES with 16. rewrite u64_small by lia. rewrite parse_block_at by (done || lia). rewrite outcome_bind_ok.
  change (block_at postings (pc + 20 + df * 48 + i * 16)) with (blk i).
  assert (is_u32 (first_posting (blk i)) /\ is_u32 (posting_count (blk i))) as [Hf Hc].
  { unfold blk, POSTING_BYTES, BLOCK_BYTES. cbn. split; apply le_dec_u32; done || lia. }
  test T; [done|]. unfold YAP_V2_POSTINGS_BLOCK_SIZE in *. btests.
  assert (u32 (first_posting (blk i) + posting_count (blk i)) = first_posting (blk i) + posting_count (blk i)) as Eu
  by (unfold u32; apply Z.mod_small; unfold is_u32 in *; lia).
  rewrite Eu in *.
  rewrite block_maxima_spec by (unfold is_u32 in *; lia). rewrite outcome_bind_ok, Z2Nat.id by (unfold is_u32 in *; lia).
  test T; [done|]. btests. specialize (IH (i + 1) ltac:(lia) ltac:(lia)).
  destruct (check_blocks _ _ _ _ _ _) as [u| |]; [|done|done]. intros b Hb'. destruct (decide (b = i)) as [->|]; [|apply IH; lia].
  split; unfold YAP_V2_POSTINGS_BLOCK_SIZE; [lia|unfold is_u32 in *; lia|lia|]. unfold block_summary. congruence.
Qed.
End term_records.

(** What the term stream guarantees of an entry. *)
Record entry_wf (t : YAP_V2_TERM_ENTRY) : Prop := {
  entry_term : exists bs, term t = mk_view bs /\ bs <> [] /\ bytes_ok bs /\ is_u32 (zlen bs);
  entry_df : 0 < document_frequency t < 2 ^ 64;
  entry_fields : is_u64 (postings_offset t) /\ is_u64 (postings_bytes t) /\ is_u64 (positions_offset t) /\ is_u64 (positions_bytes t) }.

Definition posting_cursor_of (t : YAP_V2_TERM_ENTRY) : Z := YAP_V2_FILE_HEADER_BYTES + postings_offset t.
Definition position_cursor_of (t : YAP_V2_TERM_ENTRY) : Z := YAP_V2_FILE_HEADER_BYTES + positions_offset t.
Definition block_count_of (t : YAP_V2_TERM_ENTRY) : Z := (document_frequency t + YAP_V2_POSTINGS_BLOCK_SIZE - 1) / YAP_V2_POSTINGS_BLOCK_SIZE.
Definition record_count_of (t : YAP_V2_TERM_ENTRY) : Z := (positions_bytes t - 16) / 8.
Definition posting_of (postings : bytes) (t : YAP_V2_TERM_ENTRY) (i : Z) : YAP_V2_POSTING := post postings (posting_cursor_of t) i.

(** The records of a term, as validated; the positions of a posting whose bound check wraps
    around are not validated. *)
Record term_ok (counts : lexical_counts) (postings positions : bytes) (t : YAP_V2_TERM_ENTRY) : Prop := {
  ok_bytes : postings_bytes t = 20 + document_frequency t * POSTING_BYTES + block_count_of t * BLOCK_BYTES /\
    positions_bytes t = 16 + record_count_of t * 8;
  ok_postings : posting_cursor_of t + 20 + document_frequency t * POSTING_BYTES + block_count_of t * BLOCK_BYTES <= zlen postings;
  ok_positions : 0 <= record_count_of t /\ position_cursor_of t + 16 + record_count_of t * 8 <= zlen positions;
  ok_shape : forall i, 0 <= i < document_frequency t -> posting_shape counts (posting_of postings t i);
  ok_posting : forall i, 0 <= i < document_frequency t -> ~ wraps (posting_of postings t i) ->
    posting_ok (record_count_of t) positions (position_cursor_of t) (posting_of postings t i);
  ok_order : forall i, 0 < i < document_frequency t -> posting_lt (posting_of postings t (i - 1)) (posting_of postings t i);
  ok_blocks : forall b, 0 <= b < block_count_of t -> block_ok postings (posting_cursor_of t) (document_frequency t) b }.

Definition some_wrap (postings : bytes) (t : YAP_V2_TERM_ENTRY) : Prop :=
  exists i, 0 <= i < document_frequency t /\ posting_cursor_of t + 20 + (i + 1) * POSTING_BYTES <= zlen postings /\
    wraps (posting_of postings t i).

Section payloads.
Context (counts : lexical_counts) (postings positions : bytes).
Context (Hpo : bytes_ok postings) (Hso : bytes_ok positions) (Hpz : zlen postings < 2 ^ 32) (Hsz : zlen positions < 2 ^ 32).

Lemma check_term_spec index pc sc t : 32 <= pc <= zlen postings -> 32 <= sc <= zlen positions -> entry_wf t ->
  match check_term counts postings positions index pc sc t with
  | Ok records => term_ok counts postings positions t /\ 20 <= postings_bytes t /\ pc + postings_bytes t <= zlen postings /\
    16 <= positions_bytes t /\ sc + positions_bytes t <= zlen positions /\ postings_offset t = pc - 32 /\ records = record_count_of t
  | Err _ => True
  | Fault => some_wrap postings t
  end.
Proof using Hpo Hso Hpz Hsz.
  intros Hpc Hsc [_ Hdf (H1&H2&H3&H4)]. unfold check_term, YAP_V2_FILE_HEADER_BYTES, range_valid, is_u64, SIZE_MAX in *. cbv zeta.
  test T; [done|]. rewrite !orb_false_iff, !negb_false_iff, !andb_true_iff in T. rewrite !Z.leb_le, !Z.ltb_ge, !Z.eqb_eq in T.
  rewrite (u64_small (pc - 32)), (u64_small (sc - 32)) in T by lia.
  destruct T as ((((((_&Epo)&Eso)&_)&_&Hpb)&_&Hsb)&_&H20).
  rewrite (u64_small (pc + 8)), (u64_small (pc + 16)), (u64_small (pc + 20)) by lia. do 3 read_at Hpo.
  test T; [done|]. rewrite !orb_false_iff, !negb_false_iff, !andb_true_iff in T. rewrite !Z.eqb_eq, !Z.leb_le in T. destruct T as ((_&_)&_&H16).
  rewrite (u64_small (sc + 8)) by lia. do 2 read_at Hso. test T; [done|]. clear T.
  set (bc := u32_at postings (pc + 16)). set (records := u64_at positions (sc + 8)).
  assert (is_u32 bc) as Hbc by (apply le_dec_u32; [done|lia..]). assert (is_u64 records) as Hre by (apply le_dec_u64; [done|lia..]).
  clearbody bc records. test T; [done|]. rewrite !orb_false_iff, !negb_false_iff, Z.eqb_eq, Z.ltb_ge in T. unfold POSTING_BYTES, YAP_V2_POSTINGS_BLOCK_SIZE in T.
  destruct T as [Ebc Hd]. change ((2 ^ 64 - 1 - 20) / 48) with 384307168202282324 in Hd. rewrite u64_small in Ebc by lia.
  test T; [done|]. rewrite !orb_false_iff, !negb_false_iff, !Z.eqb_eq, Z.ltb_ge in T. unfold POSTING_BYTES, BLOCK_BYTES, is_u32, is_u64 in *.
  assert (128 * bc <= document_frequency t + 127 < 128 * bc + 128) as Hbc2 by (clear T; Z.to_euclidean_division_equations; lia).
  destruct T as ((Epb&Hrec)&Esb). change ((2 ^ 64 - 1 - 16) / 8) with 2305843009213693949 in Hrec. rewrite u64_small in Epb by lia. rewrite u64_small in Esb by lia.
  rewrite (u64_small (pc + 20 + _)) by lia. change (pc + 20 + document_frequency t * 48) with (pc + 20 + document_frequency t * POSTING_BYTES).
  assert (posting_cursor_of t = pc) as Ep by (unfold posting_cursor_of, YAP_V2_FILE_HEADER_BYTES; lia).
  assert (position_cursor_of t = sc) as Es by (unfold position_cursor_of, YAP_V2_FILE_HEADER_BYTES; lia).
  assert (record_count_of t = records) as Er.
  { unfold record_count_of. rewrite Esb, Z.add_simpl_l. by apply Z.div_mul. }
  pose proof (check_postings_spec counts postings positions pc sc (document_frequency t) records Hpo Hso ltac:(lia) ltac:(lia)
  ltac:(unfold POSTING_BYTES; lia) ltac:(lia) Hpz Hsz (Z.to_nat (document_frequency t)) 0 no_posting ltac:(lia) ltac:(lia) ltac:(lia)) as HP.
  destruct (check_postings _ _ _ _ _ _ _ _ _) as [u| |]; cbn [mbind outcome_bind]; [|done|].
  2: { destruct HP as (j&Hj&HW). exists j. rewrite Ep. split; [done|]. split; [unfold POSTING_BYTES; lia|]. unfold posting_of. by rewrite Ep. }
  pose proof (check_blocks_spec postings pc (document_frequency t) Hpo ltac:(lia) ltac:(unfold POSTING_BYTES; lia) Hpz bc
  ltac:(unfold POSTING_BYTES, BLOCK_BYTES; lia) ltac:(unfold YAP_V2_POSTINGS_BLOCK_SIZE; lia) ltac:(lia) (Z.to_nat bc) 0 ltac:(lia) ltac:(lia)) as HB.
  destruct (check_blocks _ _ _ _ _ _) as [u'| |]; cbn [mbind outcome_bind]; [|done|done].
  split_and!; try lia. assert (block_count_of t = bc) as Eb by done.
  split; rewrite ?Ep, ?Es, ?Er, ?Eb; unfold POSTING_BYTES, BLOCK_BYTES, posting_of; rewrite ?Ep.
  - lia.
  - lia.
  - lia.
  - intros i Hi. by apply HP.
  - intros i Hi. by apply HP.
  - intros i Hi. apply HP; lia.
  - done.
Qed.
End payloads.

(** ** The order of terms *)
Fixpoint bytes_compare (a b : bytes) : comparison :=
  match a, b with
  | [], [] => Eq
  | [], _ :: _ => Lt
  | _ :: _, [] => Gt
  | x :: a, y :: b => match Z.compare x y with Eq => bytes_compare a b | c => c end
  end.

Lemma memcmp_common a : forall b, 
  match memcmp (take (Nat.min (length a) (length b)) a) (take (Nat.min (length a) (length b)) b) with
  | Eq => Nat.compare (length a) (length b)
  | c => c
  end = bytes_compare a b.
Proof.
  induction a as [|x a IH]; intros [|y b]; [done..|]. cbn [length Nat.min take memcmp bytes_compare Nat.compare].
  destruct (Z.compare x y); [apply IH|done..].
Qed.

Lemma bytes_compare_eq a : forall b, bytes_compare a b = Eq <-> a = b.
Proof.
  induction a as [|x a IH]; intros [|y b]; cbn; try done. destruct (Z.compare_spec x y) as [->|?|?].
  - rewrite IH. split; congruence.
  - split; [done|]. intros [= -> _]. lia.
  - split; [done|]. intros [= -> _]. lia.
Qed.

Lemma bytes_compare_flip a : forall b, bytes_compare b a = CompOpp (bytes_compare a b).
Proof.
  induction a as [|x a IH]; intros [|y b]; cbn; try done. rewrite (Z.compare_antisym x y). destruct (Z.compare x y); cbn; [apply IH|done..].
Qed.

Lemma bytes_compare_trans a : forall b c, bytes_compare a b = Lt -> bytes_compare b c = Lt -> bytes_compare a c = Lt.
Proof.
  induction a as [|x a IH]; intros [|y b] [|z c]; cbn; try done.
  destruct (Z.compare_spec x y) as [->|?|?], (Z.compare_spec y z) as [->|?|?]; try done.
  - apply IH.
  - by rewrite (proj2 (Z.compare_lt_iff _ _)).
  - by rewrite (proj2 (Z.compare_lt_iff _ _)) by lia.
Qed.

Definition term_bytes (t : YAP_V2_TERM_ENTRY) : bytes := view_bytes (term t).
Definition term_lt (t u : YAP_V2_TERM_ENTRY) : Prop := bytes_compare (term_bytes t) (term_bytes u) = Lt.

Lemma common_compare (l r : YAP_V2_BYTES_VIEW) : zlen (view_bytes l) = len l -> zlen (view_bytes r) = len r ->
  match memcmp (take (Z.to_nat (Z.min (len l) (len r))) (view_bytes l)) (take (Z.to_nat (Z.min (len l) (len r))) (view_bytes r)) with
  | Eq => Z.compare (len l) (len r)
  | c => c
  end = bytes_compare (view_bytes l) (view_bytes r).
Proof.
  intros Hl Hr. rewrite <- memcmp_common. rewrite <- Hl, <- Hr. unfold zlen. rewrite <- Nat2Z.inj_min, Nat2Z.id, <- Nat2Z.inj_compare. done.
Qed.

Lemma term_compare_spec l r : zlen (view_bytes l) = len l -> zlen (view_bytes r) = len r ->
  term_compare l r = bytes_compare (view_bytes l) (view_bytes r).
Proof. intros. unfold term_compare. by apply common_compare. Qed.

Lemma entry_view t : entry_wf t -> zlen (term_bytes t) = len (term t).
Proof. intros [(bs&E&_) _ _]. unfold term_bytes. rewrite E, view_bytes_mk. done. Qed.

(** ** The term stream *)
Lemma read_terms_spec data : bytes_ok data -> zlen data < 2 ^ 32 -> forall n prev off, 0 <= off <= zlen data ->
  (forall p, prev = Some p -> entry_wf p) ->
  match read_terms data n prev off with
  | Ok (es, off') => off <= off' <= zlen data /\ length es = n /\ Forall entry_wf es /\ Sorted term_lt es /\
      forall p, prev = Some p -> HdRel term_lt p es
  | Err _ => True
  | Fault => False
  end.
Proof.
  intros Hok Hz n. induction n as [|n IH]; intros prev off Hoff Hprev; cbn [read_terms].
  { split_and!; [lia..|done|done|constructor|]. intros; constructor. }
  unfold range_valid. test T; [done|]. btests. read_at Hok. cbv zeta.
  assert (is_u32 (u32_at data off)) as Hlen by (apply le_dec_u32; [done|lia..]). set (n0 := u32_at data off) in *. clearbody n0. unfold is_u32 in Hlen.
  rewrite (u64_small (off + 4)) by lia. test T; [done|]. btests. unfold load_bytes. rewrite (proj2 (in_range_true _ _ _)) by lia. rewrite outcome_bind_ok.
  rewrite (u64_small (off + 4 + n0)) by lia. do 5 read_at Hok. rewrite (u64_small (off + 4 + n0 + 40)) by lia.
  set (bs := slice data (off + 4) n0). assert (zlen bs = n0) as Hbs by (apply zlen_slice; lia).
  match goal with |- context [Some (TermEntry ?v ?a ?b ?c ?d ?e)] => set (entry := TermEntry v a b c d e) end.
  test T; [done|]. apply orb_false_iff in T as [Td Tp]. btests.
  assert (entry_wf entry) as Hwf.
  { split; cbn.
    - exists bs. unfold mk_view. rewrite Hbs. split_and!; [done| |by apply Forall_slice|done]. intros E. rewrite E in Hbs. unfold zlen in Hbs. cbn in Hbs. lia.
    - assert (is_u64 (u64_at data (off + 4 + n0))) by (apply le_dec_u64; [done|lia..]). unfold is_u64 in *. lia.
    - split_and!; apply le_dec_u64; done || lia. }
  specialize (IH (Some entry) (off + 4 + n0 + 40) ltac:(lia) ltac:(by intros ? [= <-])).
  destruct (read_terms data n (Some entry) _) as [[es off']| |]; cbn [mbind outcome_bind]; [|done|done].
  destruct IH as (?&Hl&HF&HS&HH). split_and!; [lia..|cbn; lia|by constructor|constructor; [done|by apply HH]|].
  intros p ->. constructor. unfold term_lt. specialize (Hprev p eq_refl).
  rewrite term_compare_spec in Tp; [|by apply (entry_view p)|by apply (entry_view entry)].
  change (view_bytes (BytesView (Some bs) n0)) with (term_bytes entry) in Tp. change (view_bytes (term p)) with (term_bytes p) in Tp.
  by destruct (bytes_compare (term_bytes p) (term_bytes entry)).
Qed.

(** ** The whole index *)
Definition total (f : YAP_V2_TERM_ENTRY -> Z) (ts : list YAP_V2_TERM_ENTRY) : Z := foldr (fun t n => f t + n) 0 ts.

Section all_terms.
Context (counts : lexical_counts) (postings positions : bytes).
Context (Hpo : bytes_ok postings) (Hso : bytes_ok positions) (Hpz : zlen postings < 2 ^ 32) (Hsz : zlen positions < 2 ^ 32).

Lemma check_terms_spec ts : Forall entry_wf ts -> forall index pc sc cp cs, 32 <= pc <= zlen postings -> 32 <= sc <= zlen positions ->
  0 <= cp <= pc -> 0 <= cs <= sc ->
  match check_terms counts postings positions ts index pc sc cp cs with
  | Ok (pc', sc', cp', cs') => Forall (term_ok counts postings positions) ts /\ cp' = cp + total document_frequency ts /\
    cs' = cs + total record_count_of ts
  | Err _ => True
  | Fault => exists t, t ∈ ts /\ some_wrap postings t
  end.
Proof using Hpo Hso Hpz Hsz.
  induction 1 as [|t ts Ht HF IH]; intros index pc sc cp cs Hpc Hsc Hcp Hcs; cbn [check_terms].
  { split_and!; [constructor|unfold total; cbn; lia..]. }
  pose proof (check_term_spec counts postings positions Hpo Hso Hpz Hsz index pc sc t Hpc Hsc Ht) as HT.
  destruct (check_term _ _ _ _ _ _ _) as [records| |]; cbn [mbind outcome_bind]; [|done|exists t; split; [by left|done]].
  destruct HT as (Hok&H1&H2&H3&H4&E&->). destruct Ht as [_ Hdf _]. pose proof (ok_positions _ _ _ _ Hok) as [Hr0 Hr].
  destruct (ok_bytes _ _ _ _ Hok) as [Ep Es]. unfold POSTING_BYTES, BLOCK_BYTES in Ep.
  assert (0 <= block_count_of t) as Hb by (unfold block_count_of; apply Z.div_pos; unfold YAP_V2_POSTINGS_BLOCK_SIZE; lia).
  rewrite !u64_small by lia. specialize (IH (index + 1) (pc + postings_bytes t) (sc + positions_bytes t) (cp + document_frequency t)
  (cs + record_count_of t) ltac:(lia) ltac:(lia) ltac:(lia) ltac:(lia)).
  destruct (check_terms _ _ _ _ _ _ _ _ _) as [[[[pc' sc'] cp'] cs']| |]; [|done|].
  - destruct IH as (?&->&->). split_and!; [by constructor|unfold total; cbn; lia..].
  - destruct IH as (t'&?&?). exists t'. split; [by right|done].
Qed.
End all_terms.

Lemma range_valid_true offset n size : range_valid offset n size = true -> offset <= size /\ n <= size - offset.
Proof. unfold range_valid. intros. by btests. Qed.

Lemma validate_payloads_spec postings positions ts : bytes_ok postings -> bytes_ok positions -> zlen postings < 2 ^ 32 ->
  zlen positions < 2 ^ 32 -> Forall entry_wf ts ->
  match validate_payloads postings positions ts with
  | Ok c => Forall (term_ok c postings positions) ts /\ count_postings c = total document_frequency ts /\
      count_positions c = total record_count_of ts
  | Err _ => True
  | Fault => exists t, t ∈ ts /\ some_wrap postings t
  end.
Proof.
  intros Hpo Hso Hpz Hsz HF. unfold validate_payloads, YAP_V2_FILE_HEADER_BYTES. cbv zeta.
  test T; [done|]. apply negb_false_iff, range_valid_true in T as [_ Hp]. do 2 read_at Hpo.
  test T; [done|]. test T'; [done|]. apply orb_false_iff in T' as [_ Hs%negb_false_iff%range_valid_true]. clear T.
  read_at Hso. test T; [done|]. clear T. do 6 read_at Hpo. read_at Hso.
  match goal with |- context [check_terms ?c _ _ _ _ _ _ _ _] => set (counts := c) end.
  pose proof (check_terms_spec counts postings positions Hpo Hso Hpz Hsz ts HF 0 (32 + 56) (32 + 12) 0 0 ltac:(lia) ltac:(lia) ltac:(lia) ltac:(lia)) as HC.
  destruct (check_terms _ _ _ _ _ _ _ _ _) as [[[[pc sc] cp] cs]| |]; cbn [mbind outcome_bind]; [|done|done].
  destruct HC as (?&->&->). test T; [|done]. btests. split_and!; [done|cbn; lia..].
Qed.

Lemma validate_term_stream_spec {A : Allocator} data : bytes_ok data -> zlen data < 2 ^ 32 ->
  match validate_term_stream data with
  | Ok ts => Forall entry_wf ts /\ StronglySorted term_lt ts /\ zlen ts < 2 ^ 32
  | Err _ => True
  | Fault => False
  end.
Proof.
  intros Hok Hz. unfold validate_term_stream, YAP_V2_FILE_HEADER_BYTES. cbv zeta.
  test T; [done|]. apply negb_false_iff, range_valid_true in T as [_ Hp]. do 2 read_at Hok. test T; [done|]. clear T.
  assert (is_u64 (u64_at data (32 + 4))) as Hc by (apply le_dec_u64; [done|lia..]).
  test T; [done|]. apply orb_false_iff in T as [_ Hcount%Z.ltb_ge]. test T; [done|]. clear T.
  pose proof (read_terms_spec data Hok Hz (Z.to_nat (u64_at data (32 + 4))) None (32 + 12) ltac:(lia) ltac:(done)) as HR.
  destruct (read_terms _ _ _ _) as [[ts off]| |]; cbn [mbind outcome_bind]; [|done|done]. destruct HR as (_&Hl&HF&HS&_).
  test T; [|done]. split_and!; [done| |].
  - apply Sorted_StronglySorted; [|done]. intros x y z. apply bytes_compare_trans.
  - unfold zlen. rewrite Hl. change (YAP_V2_MAX_SEGMENT_PAYLOAD_BYTES / sizeof_term_entry) with 4793490 in Hcount. lia.
Qed.

(** An open index: the files are mapped, and their records are as the validation requires. *)
Definition counts_of (s : YAP_V2_LEXICAL_SEGMENT) : lexical_counts :=
  LexicalCounts (lex_document_count s) (lex_passage_count s) (lex_posting_count s) (lex_position_count s) (field_token_count s).

Record lexical_ok (s : YAP_V2_LEXICAL_SEGMENT) : Prop := {
  lex_postings : bytes_ok (postings_map s) /\ zlen (postings_map s) < 2 ^ 32;
  lex_positions : bytes_ok (positions_map s) /\ zlen (positions_map s) < 2 ^ 32;
  lex_sorted : StronglySorted term_lt (lex_terms s);
  lex_length : zlen (lex_terms s) < 2 ^ 32;
  lex_entries : Forall entry_wf (lex_terms s);
  lex_records : Forall (term_ok (counts_of s) (postings_map s) (positions_map s)) (lex_terms s);
  lex_totals : lex_posting_count s = total document_frequency (lex_terms s) /\
    lex_position_count s = total record_count_of (lex_terms s) }.

Section open_spec.
Context {A : Allocator} (w0 : world) (Hw : readable w0).

(** A mapped file: its content, inside the limits. *)
Definition mapped (p : path) (r : result (bytes * Z)) : Prop :=
  match r with
  | Ok (bs, g) => file_at w0 p = Some bs /\ bytes_ok bs /\ zlen bs < 2 ^ 32
  | Err _ => True
  | Fault => False
  end.

Lemma map_component_reads p type eg w : frames w0 w -> reads (map_component p type eg) (mapped p) w.
Proof using Hw.
  intros Hf. unfold map_component. apply (reads_bind _ _ (fun o => forall bs, o = Some bs -> file_at w0 p = Some bs)).
  { apply reads_fopen; [done|]. by rewrite (frames_file _ _ _ Hf). }
  intros [bs|] w1 Hbs Hf1; [|by apply reads_ret]. specialize (Hbs bs eq_refl). destruct (Hw p bs Hbs) as [Hb _].
  apply (reads_bind _ _ (fun _ => True)); [by apply reads_noop|]. intros st w2 _ _. test T.
  { apply (reads_bind _ _ (fun _ => True)); [by apply reads_noop|]. intros b w3 _ _. by apply reads_ret. }
  apply orb_false_iff in T as [T T2%Z.ltb_ge]. apply orb_false_iff in T as [_ T1%Z.ltb_ge].
  unfold YAP_V2_FILE_HEADER_BYTES, YAP_V2_MAX_SEGMENT_PAYLOAD_BYTES in *.
  apply (reads_bind _ _ (fun _ => True)); [by apply reads_noop|]. intros b w3 _ _.
  apply (reads_bind _ _ (fun _ => True)); [by apply reads_noop|]. intros b' w4 _ _.
  test T; [by apply reads_ret|]. apply reads_ret. unfold mapped. pose proof (file_header_decode_safe bs Hb T1) as HD.
  destruct (YAP_V2_file_header_decode (Some bs)) as [h| |] eqn:Eh; cbn [mbind outcome_bind]; [|done|done].
  test Tt; [done|]. apply orb_false_iff in Tt as [Tt _]. apply orb_false_iff in Tt as [_ Tp%negb_false_iff%Z.eqb_eq].
  unfold load_bytes. rewrite (proj2 (in_range_true _ _ _)) by lia. rewrite outcome_bind_ok. test Tc; [done|]. split_and!; [done..|lia].
Qed.

Lemma map_file_reads dir name_ type eg g w : frames w0 w ->
  reads (map_file dir name_ type eg g) (mapped (dir ++ [SLASH] ++ name_)) w.
Proof using Hw.
  intros Hf. unfold map_file. test T; [by apply reads_ret|]. eapply reads_bind; [by apply map_component_reads|].
  intros [[bs g']| |] w1 HM _; [|by apply reads_ret|done]. apply reads_ret. cbn [mbind outcome_bind].
  match goal with |- mapped _ (if ?b then _ else _) => by destruct b end.
Qed.

(** What opening an index yields. *)
Definition opened_index (dir : bytes) (r : result YAP_V2_LEXICAL_SEGMENT) : Prop :=
  match r with
  | Ok s => lexical_ok s /\ file_at w0 (dir ++ [SLASH] ++ POSTINGS_NAME) = Some (postings_map s) /\
    file_at w0 (dir ++ [SLASH] ++ POSITIONS_NAME) = Some (positions_map s) /\ file_at w0 (dir ++ [SLASH] ++ TERMS_NAME) = Some (terms_map s)
  | Err _ => True
  | Fault => exists bs q, file_at w0 (dir ++ [SLASH] ++ POSTINGS_NAME) = Some bs /\ 0 <= q /\ q + POSTING_BYTES <= zlen bs /\
    wraps (posting_at bs q)
  end.

Lemma segment_open_reads dir eg w : frames w0 w -> reads (YAP_V2_lexical_segment_open (Some dir) eg) (opened_index dir) w.
Proof using Hw.
  intros Hf. unfold YAP_V2_lexical_segment_open. eapply reads_bind; [by apply map_file_reads|].
  intros [[ts g0]| |] w1 HM1 Hf1; [|by apply reads_ret|done]. destruct HM1 as (Ht&Hto&Htz). assert (frames w0 w1) as Hfa by (by eapply frames_trans).
  eapply reads_bind; [by apply map_file_reads|]. intros [[ps g1]| |] w2 HM2 Hf2; [|by apply reads_ret|done]. destruct HM2 as (Hp&Hpo&Hpz).
  assert (frames w0 w2) as Hfb by (by eapply frames_trans).
  eapply reads_bind; [by apply map_file_reads|]. intros [[ss g2]| |] w3 HM _; [|by apply reads_ret|done]. destruct HM as (Hs&Hso&Hsz).
  apply reads_ret. cbn [mbind outcome_bind]. pose proof (validate_term_stream_spec ts Hto Htz) as HT.
  destruct (validate_term_stream ts) as [es| |]; cbn [mbind outcome_bind]; [|done|done]. destruct HT as (HE&HS&HL).
  pose proof (validate_payloads_spec ps ss es Hpo Hso Hpz Hsz HE) as HP.
  destruct (validate_payloads ps ss es) as [[cd cp cpo cpi ct]| |]; cbn [mbind outcome_bind]; [|done|].
  - destruct HP as (HT&?&?). split; [|done]. by split.
  - destruct HP as (t&Ht'&i&Hi&Hr&HW). exists ps, (posting_cursor_of t + 20 + i * POSTING_BYTES). split; [done|].
  pose proof (proj1 (Forall_forall _ _) HE t Ht') as [_ _ (Hpof&_)]. unfold posting_cursor_of, YAP_V2_FILE_HEADER_BYTES, POSTING_BYTES, is_u64 in *.
  split_and!; [lia|lia|]. exact HW.
Qed.
End open_spec.

(** ** Searching an open index *)
Lemma sorted_lookup ts i j t u : StronglySorted term_lt ts -> ts !! i = Some t -> ts !! j = Some u -> (i < j)%nat -> term_lt t u.
Proof.
  intros HS. revert i j. induction HS as [|x ts HS IH HF]; intros i j Hi Hj Hij; [done|].
  destruct j as [|j]; [lia|]. destruct i as [|i]; [|cbn in *; eapply IH; [done..|lia]].
  cbn in Hi, Hj. simplify_eq. by apply (Forall_lookup_1 _ _ _ _ HF Hj).
Qed.

Definition is_term (target : bytes) (t : YAP_V2_TERM_ENTRY) : bool := bool_decide (term_bytes t = target).

Lemma find_sorted ts i t : StronglySorted term_lt ts -> ts !! i = Some t -> List.find (is_term (term_bytes t)) ts = Some t.
Proof.
  intros HS Hi. destruct (List.find (is_term (term_bytes t)) ts) as [u|] eqn:E.
  - apply List.find_some in E as [Hu E]. apply bool_decide_eq_true in E. apply list_elem_of_In, list_elem_of_lookup_1 in Hu as [j Hj].
    destruct (decide (i = j)) as [->|N]; [congruence|]. assert (term_lt t u \/ term_lt u t) as HL.
    { destruct (decide (i < j)%nat); [left; by eapply (sorted_lookup ts i j)|right; eapply (sorted_lookup ts j i); [done..|lia]]. }
    unfold term_lt in HL. rewrite E in HL. rewrite (proj2 (bytes_compare_eq _ _) eq_refl) in HL. by destruct HL.
  - exfalso. assert (is_term (term_bytes t) t = false) as Hf.
    { apply (List.find_none _ _ E). apply list_elem_of_In. by eapply list_elem_of_lookup_2. }
    unfold is_term in Hf. by apply bool_decide_eq_false in Hf.
Qed.

Section find.
Context (ts : list YAP_V2_TERM_ENTRY) (target : YAP_V2_BYTES_VIEW).
Context (HS : StronglySorted term_lt ts) (HW : Forall entry_wf ts) (Ht : zlen (view_bytes target) = len target).

Lemma search_terms_spec k : forall low high, 0 <= low <= high -> high <= zlen ts -> high - low < 2 ^ Z.of_nat k ->
  (forall i t, ts !! i = Some t -> Z.of_nat i < low -> bytes_compare (term_bytes t) (view_bytes target) = Lt) ->
  (forall i t, ts !! i = Some t -> high <= Z.of_nat i -> bytes_compare (term_bytes t) (view_bytes target) = Gt) ->
  search_terms (S k) ts target low high = Ok (List.find (is_term (view_bytes target)) ts).
Proof using HS HW Ht.
  induction k as [|k IH]; intros low high Hl Hh Hk HL HG; cbn [search_terms];
  (destruct (Z.ltb_spec low high); [|
    replace high with low in HG by lia; destruct (List.find (is_term (view_bytes target)) ts) as [u|] eqn:E; [|done];
    apply List.find_some in E as [Hu E]; apply bool_decide_eq_true in E; apply list_elem_of_In, list_elem_of_lookup_1 in Hu as [j Hj];
    exfalso; pose proof (proj2 (bytes_compare_eq _ _) E) as EQ;
    destruct (Z.ltb_spec (Z.of_nat j) low); [rewrite (HL j u Hj) in EQ by lia|rewrite (HG j u Hj) in EQ by lia]; done]).
  { change (2 ^ Z.of_nat 0) with 1 in Hk. lia. }
  cbv zeta. set (middle := low + (high - low) / 2).
  assert (low <= middle < high /\ middle - low < 2 ^ Z.of_nat k /\ high - (middle + 1) < 2 ^ Z.of_nat k) as (Hm&Hm1&Hm2).
  { subst middle. rewrite Nat2Z.inj_succ, Z.pow_succ_r in Hk by lia. set (e := 2 ^ Z.of_nat k) in *. clearbody e. Z.to_euclidean_division_equations. lia. }
  clearbody middle. destruct (lookup_lt_is_Some_2 ts (Z.to_nat middle)) as [t Hi]; [unfold zlen in *; lia|].
  unfold elem_at. rewrite (proj2 (Z.leb_le 0 middle)), Hi by lia. rewrite outcome_bind_ok.
  pose proof (entry_view t (Forall_lookup_1 _ _ _ _ HW Hi)) as Hv. pose proof (common_compare (term t) target Hv Ht) as HC.
  fold (term_bytes t) in HC |- *. assert (forall j u, ts !! j = Some u -> bytes_compare (term_bytes t) (view_bytes target) = Lt -> Z.of_nat j < middle + 1 ->
  bytes_compare (term_bytes u) (view_bytes target) = Lt) as HLt.
  { intros j u Hj Hc Hjm. destruct (decide (j = Z.to_nat middle)) as [->|N]; [congruence|].
  eapply bytes_compare_trans; [|exact Hc]. eapply sorted_lookup; [done..|lia]. }
  assert (forall j u, ts !! j = Some u -> bytes_compare (term_bytes t) (view_bytes target) = Gt -> middle <= Z.of_nat j ->
  bytes_compare (term_bytes u) (view_bytes target) = Gt) as HGt.
  { intros j u Hj Hc Hjm. destruct (decide (j = Z.to_nat middle)) as [->|N]; [congruence|].
  rewrite (bytes_compare_flip (view_bytes target) (term_bytes u)), (bytes_compare_trans (view_bytes target) (term_bytes t) (term_bytes u)); [done| |].
  - by rewrite (bytes_compare_flip (term_bytes t)), Hc.
  - eapply sorted_lookup; [done..|lia]. }
  destruct (memcmp _ _) eqn:Ec.
  - destruct (Z.compare_spec (len (term t)) (len target)) as [El|El|El]; symmetry in HC.
  + rewrite (proj2 (Z.eqb_eq _ _) El). apply bytes_compare_eq in HC. rewrite <- HC. by erewrite find_sorted.
  + rewrite (proj2 (Z.eqb_neq _ _)), (proj2 (Z.ltb_lt _ _)) by lia. apply IH; [lia|lia|lia| |done]. intros j u Hj Hjm. by eapply HLt.
  + rewrite (proj2 (Z.eqb_neq _ _)), (proj2 (Z.ltb_ge _ _)) by lia. apply IH; [lia|lia|lia|done|]. intros j u Hj Hjm. by eapply HGt.
  - symmetry in HC. apply IH; [lia|lia|lia| |done]. intros j u Hj Hjm. by eapply HLt.
  - symmetry in HC. apply IH; [lia|lia|lia|done|]. intros j u Hj Hjm. by eapply HGt.
Qed.
End find.

(** The postings and positions of a term of an open index. *)
Definition postings_of (s : YAP_V2_LEXICAL_SEGMENT) (t : YAP_V2_TERM_ENTRY) : list YAP_V2_POSTING :=
  posting_of (postings_map s) t <$> seqZ 0 (document_frequency t).
Definition positions_of (s : YAP_V2_LEXICAL_SEGMENT) (t : YAP_V2_TERM_ENTRY) (p : YAP_V2_POSTING) : list YAP_V2_POSITION :=
  posting_positions (positions_map s) (position_cursor_of t) p.

Section term.
Context (s : YAP_V2_LEXICAL_SEGMENT) (t : YAP_V2_TERM_ENTRY) (Hs : lexical_ok s) (Hin : t ∈ lex_terms s).

Lemma term_facts : entry_wf t /\ term_ok (counts_of s) (postings_map s) (positions_map s) t.
Proof using Hs Hin.
  split; [exact (proj1 (Forall_forall _ _) (lex_entries s Hs) t Hin)|exact (proj1 (Forall_forall _ _) (lex_records s Hs) t Hin)].
Qed.

Lemma term_bounds : 0 < document_frequency t /\ 32 <= posting_cursor_of t /\ 0 <= block_count_of t /\
  posting_cursor_of t + 20 + document_frequency t * 48 + block_count_of t * 16 <= zlen (postings_map s) /\ zlen (postings_map s) < 2 ^ 32.
Proof using Hs Hin.
  destruct term_facts as [[_ Hdf (H1&_)] HT]. pose proof (ok_postings _ _ _ _ HT) as Hp. destruct (lex_postings s Hs) as [_ Hz].
  unfold POSTING_BYTES, BLOCK_BYTES, posting_cursor_of, YAP_V2_FILE_HEADER_BYTES, is_u64 in *.
  assert (0 <= block_count_of t) by (unfold block_count_of; apply Z.div_pos; unfold YAP_V2_POSTINGS_BLOCK_SIZE; lia). lia.
Qed.

Lemma parse_posting_of i : 0 <= i < document_frequency t ->
  parse_posting (postings_map s) (u64 (posting_cursor_of t + 20 + i * POSTING_BYTES)) = Ok (posting_of (postings_map s) t i).
Proof using Hs Hin.
  intros Hi. destruct term_bounds as (?&?&?&?&?). unfold POSTING_BYTES. rewrite u64_small by lia.
  apply parse_posting_at; [apply (lex_postings s Hs)|lia..].
Qed.

Lemma posting_types i j : 0 <= i < j -> j < document_frequency t ->
  object_type (posting_of (postings_map s) t i) <= object_type (posting_of (postings_map s) t j).
Proof using Hs Hin.
  destruct term_facts as [_ HT]. intros Hi Hj. assert (forall n : nat, Z.of_nat n + i < document_frequency t ->
  object_type (posting_of (postings_map s) t i) <= object_type (posting_of (postings_map s) t (Z.of_nat n + i))) as H.
  { induction n as [|n IH]; intros Hn; [done|]. rewrite Nat2Z.inj_succ in *. pose proof (ok_order _ _ _ _ HT (Z.succ (Z.of_nat n) + i) ltac:(lia)) as HO.
  replace (Z.succ (Z.of_nat n) + i - 1) with (Z.of_nat n + i) in HO by lia. specialize (IH ltac:(lia)). unfold posting_lt in HO. lia. }
  specialize (H (Z.to_nat (j - i))). replace (Z.of_nat (Z.to_nat (j - i)) + i) with j in H by lia. by apply H.
Qed.

Lemma postings_sorted : StronglySorted posting_lt (postings_of s t).
Proof using Hs Hin.
  destruct term_facts as [[_ Hdf _] HT]. apply Sorted_StronglySorted.
  { intros p q r. unfold posting_lt. lia. }
  unfold postings_of. assert (forall n i, 0 <= i -> i + Z.of_nat n <= document_frequency t ->
  Sorted posting_lt (posting_of (postings_map s) t <$> seqZ i (Z.of_nat n))) as H.
  { induction n as [|n IH]; intros i Hi Hn; [change (Z.of_nat 0) with 0; rewrite seqZ_nil by lia; constructor|].
  rewrite seqZ_cons by lia. replace (Z.succ i) with (i + 1) by lia. replace (Z.pred (Z.of_nat (S n))) with (Z.of_nat n) by lia.
  rewrite fmap_cons. constructor; [apply IH; lia|]. destruct n as [|n]; [change (Z.of_nat 0) with 0; rewrite seqZ_nil by lia; constructor|].
  rewrite seqZ_cons by lia. constructor. pose proof (ok_order _ _ _ _ HT (i + 1) ltac:(lia)) as HO. by rewrite Z.add_simpl_r in HO. }
  specialize (H (Z.to_nat (document_frequency t)) 0 ltac:(lia) ltac:(lia)). by rewrite Z2Nat.id in H by lia.
Qed.

(** The lower bound that the search for passages finds. *)
Lemma search_passages_spec k : forall low high, 0 <= low <= high -> high <= document_frequency t -> high - low < 2 ^ Z.of_nat k ->
  (forall i, 0 <= i < low -> object_type (posting_of (postings_map s) t i) < YAP_V2_LEXICAL_PASSAGE) ->
  (forall i, high <= i < document_frequency t -> YAP_V2_LEXICAL_PASSAGE <= object_type (posting_of (postings_map s) t i)) ->
  exists r, search_passages (S k) (postings_map s) (posting_cursor_of t + 20) low high = Ok r /\ 0 <= r <= document_frequency t /\
  (forall i, 0 <= i < r -> object_type (posting_of (postings_map s) t i) < YAP_V2_LEXICAL_PASSAGE) /\
  (forall i, r <= i < document_frequency t -> YAP_V2_LEXICAL_PASSAGE <= object_type (posting_of (postings_map s) t i)).
Proof using Hs Hin.
  induction k as [|k IH]; intros low high Hl Hh Hk HL HG; cbn [search_passages];
  (destruct (Z.ltb_spec low high); [|exists low; replace high with low in HG by lia; by split_and!; try lia]).
  { change (2 ^ Z.of_nat 0) with 1 in Hk. lia. }
  cbv zeta. set (middle := low + (high - low) / 2).
  assert (low <= middle < high /\ middle - low < 2 ^ Z.of_nat k /\ high - (middle + 1) < 2 ^ Z.of_nat k) as (Hm&Hm1&Hm2).
  { subst middle. rewrite Nat2Z.inj_succ, Z.pow_succ_r in Hk by lia. set (e := 2 ^ Z.of_nat k) in *. clearbody e. Z.to_euclidean_division_equations. lia. }
  clearbody middle. rewrite (parse_posting_of middle) by lia. rewrite outcome_bind_ok.
  destruct (Z.ltb_spec (object_type (posting_of (postings_map s) t middle)) YAP_V2_LEXICAL_PASSAGE) as [E|E].
  - apply IH; [lia|lia|lia| |done]. intros i Hi. destruct (decide (i = middle)) as [->|]; [done|]. pose proof (posting_types i middle ltac:(lia) ltac:(lia)). lia.
  - apply IH; [lia|lia|lia|done|]. intros i Hi. destruct (decide (i = middle)) as [->|]; [done|]. pose proof (posting_types middle i ltac:(lia) ltac:(lia)). lia.
Qed.

(** The postings of one type. *)
Definition typed (type : Z) : list YAP_V2_POSTING := filter (fun p => object_type p = type) (postings_of s t).

Lemma typed_split r : 0 <= r <= document_frequency t ->
  (forall i, 0 <= i < r -> object_type (posting_of (postings_map s) t i) < YAP_V2_LEXICAL_PASSAGE) ->
  (forall i, r <= i < document_frequency t -> YAP_V2_LEXICAL_PASSAGE <= object_type (posting_of (postings_map s) t i)) ->
  zlen (typed YAP_V2_LEXICAL_DOCUMENT) = r /\ zlen (typed YAP_V2_LEXICAL_PASSAGE) = document_frequency t - r.
Proof using Hs Hin.
  intros Hr HL HG. destruct term_facts as [_ HT]. unfold typed, postings_of.
  assert (forall i, 0 <= i < document_frequency t -> let o := object_type (posting_of (postings_map s) t i) in
  o = YAP_V2_LEXICAL_DOCUMENT \/ o = YAP_V2_LEXICAL_PASSAGE) as Hty.
  { intros i Hi. destruct (post_type _ _ (ok_shape _ _ _ _ HT i Hi)) as [[? _]|[? _]]; auto. }
  assert (seqZ 0 (document_frequency t) = seqZ 0 r ++ seqZ r (document_frequency t - r)) as ->.
  { replace (document_frequency t) with (r + (document_frequency t - r)) at 1 by lia. by rewrite seqZ_app by lia. }
  rewrite fmap_app, !filter_app. unfold YAP_V2_LEXICAL_DOCUMENT, YAP_V2_LEXICAL_PASSAGE in *.
  assert (Forall (fun p => object_type p = 1) (posting_of (postings_map s) t <$> seqZ 0 r)) as H1.
  { apply Forall_forall. intros p (i&->&Hi%elem_of_seqZ)%list_elem_of_fmap. specialize (HL i ltac:(lia)). specialize (Hty i ltac:(lia)). lia. }
  assert (Forall (fun p => object_type p = 2) (posting_of (postings_map s) t <$> seqZ r (document_frequency t - r))) as H2.
  { apply Forall_forall. intros p (i&->&Hi%elem_of_seqZ)%list_elem_of_fmap. specialize (HG i ltac:(lia)). specialize (Hty i ltac:(lia)). lia. }
  rewrite (filter_all (fun p => object_type p = 1) _ H1), (filter_all (fun p => object_type p = 2) _ H2).
  rewrite (filter_none (fun p => object_type p = 1)) by (eapply Forall_impl; [exact H2|]; cbn; lia).
  rewrite (filter_none (fun p => object_type p = 2)) by (eapply Forall_impl; [exact H1|]; cbn; lia).
  rewrite app_nil_r, app_nil_l, !zlen_fmap. unfold zlen. rewrite !length_seqZ. lia.
Qed.

Lemma type_frequency_spec type : type = YAP_V2_LEXICAL_DOCUMENT \/ type = YAP_V2_LEXICAL_PASSAGE ->
  YAP_V2_lexical_term_type_frequency (Some s) (Some t) type = Ok (zlen (typed type)).
Proof using Hs Hin.
  intros Hty. destruct term_bounds as (?&Hc&?&?&?). unfold YAP_V2_lexical_term_type_frequency.
  assert ((negb (type =? YAP_V2_LEXICAL_DOCUMENT) && negb (type =? YAP_V2_LEXICAL_PASSAGE)) || (SIZE_MAX <? document_frequency t) = false) as ->.
  { rewrite (proj2 (Z.ltb_ge SIZE_MAX _)) by (unfold SIZE_MAX; lia). by destruct Hty as [-> | ->]. }
  change (YAP_V2_FILE_HEADER_BYTES + postings_offset t) with (posting_cursor_of t). rewrite u64_small by lia.
  destruct (search_passages_spec 64 0 (document_frequency t)) as (r&->&Hr&HL&HG); [lia|lia|change (2 ^ Z.of_nat 64) with (2 ^ 64); lia|lia|lia|].
  rewrite outcome_bind_ok. destruct (typed_split r Hr HL HG) as [E1 E2]. destruct Hty as [-> | ->].
  - change (YAP_V2_LEXICAL_DOCUMENT =? YAP_V2_LEXICAL_DOCUMENT) with true. by rewrite E1.
  - change (YAP_V2_LEXICAL_PASSAGE =? YAP_V2_LEXICAL_DOCUMENT) with false. rewrite E2, u64_small by lia. done.
Qed.

(** Iterating: [next] until it reports the end. *)
Fixpoint drain (fuel : nat) (it : YAP_V2_POSTING_ITERATOR) : result (list YAP_V2_POSTING) :=
  match fuel with
  | O => Fault
  | S fuel =>
    match YAP_V2_posting_iterator_next it with
    | Ok (it, p) => l ← drain fuel it; Ok (p :: l)
    | Err YAP_V2_OUT_OF_RANGE => Ok []
    | Err e => Err e
    | Fault => Fault
    end
  end.

Definition iterator_at (i : Z) : YAP_V2_POSTING_ITERATOR :=
  PostingIterator s t (posting_cursor_of t + 20 + i * POSTING_BYTES) i (posting_cursor_of t + 20 + document_frequency t * POSTING_BYTES).

Lemma iterator_init : YAP_V2_posting_iterator_init (Some s) (Some t) = Ok (iterator_at 0).
Proof using Hs Hin.
  destruct term_bounds as (?&?&?&?&?). unfold YAP_V2_posting_iterator_init, iterator_at, POSTING_BYTES. cbv zeta.
  change (YAP_V2_FILE_HEADER_BYTES + postings_offset t) with (posting_cursor_of t).
  rewrite (u64_small (posting_cursor_of t + 20)), (u64_small (_ + _ * 48)) by lia. by rewrite Z.mul_0_l, Z.add_0_r.
Qed.

Lemma iterator_next i : 0 <= i < document_frequency t ->
  YAP_V2_posting_iterator_next (iterator_at i) = Ok (iterator_at (i + 1), posting_of (postings_map s) t i).
Proof using Hs Hin.
  intros Hi. destruct term_bounds as (?&?&?&?&?). unfold YAP_V2_posting_iterator_next, iterator_at. cbn [it_term it_index it_segment it_offset it_blocks_offset].
  rewrite (proj2 (Z.leb_gt _ _)) by lia. pose proof (parse_posting_of i Hi) as HP. unfold POSTING_BYTES in *. rewrite u64_small in HP by lia. rewrite HP, outcome_bind_ok.
  rewrite !u64_small by lia. do 3 f_equal. lia.
Qed.

Lemma drain_spec n : forall i, 0 <= i -> i + Z.of_nat n = document_frequency t ->
  drain (S n) (iterator_at i) = Ok (posting_of (postings_map s) t <$> seqZ i (Z.of_nat n)).
Proof using Hs Hin.
  induction n as [|n IH]; intros i Hi Hn; cbn [drain].
  - change (Z.of_nat 0) with 0 in *. rewrite seqZ_nil by lia. unfold YAP_V2_posting_iterator_next, iterator_at. cbn [it_term it_index].
  by rewrite (proj2 (Z.leb_le _ _)) by lia.
  - rewrite iterator_next by lia. rewrite (seqZ_cons i) by lia. replace (Z.succ i) with (i + 1) by lia. replace (Z.pred (Z.of_nat (S n))) with (Z.of_nat n) by lia.
  rewrite fmap_cons. specialize (IH (i + 1) ltac:(lia) ltac:(lia)). cbn [drain] in IH. rewrite IH. done.
Qed.

Lemma iterator_block b : 0 <= b < block_count_of t ->
  YAP_V2_posting_iterator_block (iterator_at 0) b = Ok (blk (postings_map s) (posting_cursor_of t) (document_frequency t) b).
Proof using Hs Hin.
  intros Hb. destruct term_bounds as (?&?&?&?&?). unfold YAP_V2_posting_iterator_block. cbn [iterator_at it_term it_segment it_blocks_offset]. cbv zeta.
  rewrite (u64_small (document_frequency t + _ - 1)) by (unfold YAP_V2_POSTINGS_BLOCK_SIZE; lia). fold (block_count_of t).
  rewrite (proj2 (Z.leb_gt _ _)) by lia. unfold POSTING_BYTES, BLOCK_BYTES. rewrite u64_small by lia.
  apply parse_block_at; [apply (lex_postings s Hs)|lia..].
Qed.

Lemma position_at_spec p i : p ∈ postings_of s t -> ~ wraps p -> 0 <= i < position_count p ->
  exists q, positions_of s t p !! Z.to_nat i = Some q /\ YAP_V2_posting_position_at (Some s) (Some t) (Some p) i = Ok q.
Proof using Hs Hin.
  intros (j&->&Hj%elem_of_seqZ)%list_elem_of_fmap HW Hi. destruct term_facts as [[_ _ (_&_&H3&_)] HT].
  pose proof (ok_posting _ _ _ _ HT j ltac:(lia) HW) as [Hrange _]. destruct (ok_positions _ _ _ _ HT) as [_ Hpr].
  destruct (lex_positions s Hs) as [Hso Hsz]. destruct term_bounds as (?&?&?&?&?).
  destruct (posting_at_range (postings_map s) (posting_cursor_of t + 20 + j * POSTING_BYTES)) as (_&_&Hpo&_); [apply (lex_postings s Hs)|unfold POSTING_BYTES; lia..|].
  change (posting_at (postings_map s) (posting_cursor_of t + 20 + j * POSTING_BYTES)) with (posting_of (postings_map s) t j) in Hpo.
  set (p := posting_of (postings_map s) t j) in *. clearbody p.
  exists (position_at (positions_map s) (position_cursor_of t + 16 + (position_offset p + i) * 8)). split.
  - unfold positions_of, posting_positions. rewrite list_lookup_fmap, lookup_seqZ_lt by lia. cbn. do 5 f_equal. lia.
  - unfold YAP_V2_posting_position_at. unfold position_cursor_of, YAP_V2_FILE_HEADER_BYTES, is_u64, SIZE_MAX in *.
  rewrite (proj2 (Z.leb_gt _ _)), !(proj2 (Z.ltb_ge _ _)) by lia. cbn [orb]. cbv zeta. rewrite u64_small by lia.
  unfold range_valid. rewrite !(proj2 (Z.leb_le _ _)) by lia. cbn [andb negb]. do 2 read_at Hso. done.
Qed.
End term.

(** ** Main theorems *)


(** An index with one document whose title is the term "a", [tf] times from [offset]. *)
Definition lexical_file (type : Z) (payload : bytes) : bytes :=
  header_image (FileHeader YAP_V2_FORMAT_VERSION YAP_V2_FILE_HEADER_BYTES type 1 (zlen payload) (crc32c payload)) ++ payload.
Definition terms_payload : bytes :=
  put_u32 1 ++ put_u64 1 ++ put_u32 1 ++ [97] ++ put_u64 1 ++ put_u64 56 ++ put_u64 84 ++ put_u64 12 ++ put_u64 24.
Definition postings_payload (tf offset : Z) : bytes :=
  put_u32 1 ++ put_u32 128 ++ put_u64 1 ++ put_u64 0 ++ put_u64 1 ++ put_u64 1 ++ put_u64 0 ++ put_u64 0 ++
  put_u64 0 ++ put_u64 1 ++ put_u32 1 ++
  put_u32 1 ++ put_u64 0 ++ put_u32 tf ++ put_u32 0 ++ put_u32 0 ++ put_u32 1 ++ put_u32 0 ++ put_u32 0 ++ put_u64 offset ++ put_u32 tf ++
  put_u32 0 ++ put_u32 1 ++ put_u32 tf ++ put_u32 1.
Definition positions_payload : bytes := put_u32 1 ++ put_u64 1 ++ put_u64 0 ++ put_u64 1 ++ put_u32 1 ++ put_u32 0.
Definition lexical_world (tf offset : Z) : world :=
  World {[0%nat := Inode (lexical_file YAP_V2_FILE_TERMS terms_payload) true;
          1%nat := Inode (lexical_file YAP_V2_FILE_POSTINGS (postings_payload tf offset)) true;
          2%nat := Inode (lexical_file YAP_V2_FILE_POSITIONS positions_payload) true]}
    {[ [115] ++ [SLASH] ++ TERMS_NAME := [Some 0%nat]; [115] ++ [SLASH] ++ POSTINGS_NAME := [Some 1%nat];
       [115] ++ [SLASH] ++ POSITIONS_NAME := [Some 2%nat] ]} 3 [].

Definition demo_index : YAP_V2_LEXICAL_SEGMENT :=
  Eval vm_compute in
  match YAP_V2_lexical_segment_open (A:=alloc_total) (Some [115]) 1 (lexical_world 1 0) with
  | Done (Ok s) _ => s
  | _ => LexicalSegment [] [] [] 0 0 0 0 0 [] []
  end.

Lemma demo_index_opens : YAP_V2_lexical_segment_open (A:=alloc_total) (Some [115]) 1 (lexical_world 1 0) =
  Done (Ok demo_index) (lexical_world 1 0).
Proof. vm_compute. reflexivity. Qed.

Lemma demo_index_readable : readable (lexical_world 1 0).
Proof. apply readable_checked. vm_compute. reflexivity. Qed.

Lemma demo_index_ok : lexical_ok demo_index.
Proof.
  pose proof (segment_open_reads (A:=alloc_total) _ demo_index_readable [115] 1 _ (frames_refl _)) as H. unfold reads, wp in H.
  rewrite demo_index_opens in H. by destruct H as [[? _] _].
Qed.


(** The sum that bounds the positions of a posting wraps around.  Here is an index whose
    files have valid headers and checksums, on which opening it reads before the start of the
    position file. *)
Theorem lexical_open_overflow : exists w,
  readable (lexical_world 10 (2 ^ 64 - 10)) /\
  YAP_V2_lexical_segment_open (A:=alloc_total) (Some [115]) 1 (lexical_world 10 (2 ^ 64 - 10)) = Done Fault w.
Proof. eexists. split; [apply readable_checked|]; vm_compute; reflexivity. Qed.

(** C32: looking up a term.  In an accepted index the binary search terminates, stays inside the
    array and finds exactly the entry whose bytes are the target, if there is one. *)
Theorem lexical_term_find_correct (s : YAP_V2_LEXICAL_SEGMENT) (target : YAP_V2_BYTES_VIEW) :
  lexical_ok s -> view_wf target ->
  YAP_V2_lexical_term_find (Some s) target =
    Ok (if (0 <? len target) && bool_decide (data target = None) then None
        else List.find (fun t => bool_decide (view_bytes (term t) = view_bytes target)) (lex_terms s)).
Proof.
  intros Hs [Hl Hd]. unfold YAP_V2_lexical_term_find. test T; [done|].
  apply (search_terms_spec (lex_terms s) target (lex_sorted s Hs) (lex_entries s Hs)) with (k := 63%nat).
  - unfold view_bytes. destruct (data target) as [m|] eqn:E; [apply zlen_slice; lia|].
    rewrite bool_decide_true, andb_true_r in T by done. apply Z.ltb_ge in T. rewrite zlen_nil. lia.
  - pose proof (zlen_nonneg (lex_terms s)). lia.
  - lia.
  - pose proof (lex_length s Hs). change (2 ^ Z.of_nat 63) with (2 ^ 63). lia.
  - intros. lia.
  - intros i t Hi. apply lookup_lt_Some in Hi. unfold zlen. lia.
Qed.

Lemma lexical_term_find_correct_witness :
  YAP_V2_lexical_term_find (Some demo_index) (mk_view [97]) = Ok (head (lex_terms demo_index)) /\
  YAP_V2_lexical_term_find (Some demo_index) (mk_view [98]) = Ok None.
Proof.
  split.
  - rewrite (lexical_term_find_correct demo_index (mk_view [97]) demo_index_ok); [vm_compute; reflexivity|].
    apply demo_view_wf; [reflexivity|vm_compute; discriminate].
  - rewrite (lexical_term_find_correct demo_index (mk_view [98]) demo_index_ok); [vm_compute; reflexivity|].
    apply demo_view_wf; [reflexivity|vm_compute; discriminate].
Defined.

(** C30: the postings of a term.  Iterating over a term of an accepted index delivers exactly its
    [document_frequency] records and then the end; they are strictly ordered, the frequencies
    per object type are the numbers of records of that type, and for a record whose bounds do
    not wrap around every position can be read and agrees with the record's counters. *)
Theorem lexical_postings_correct (s : YAP_V2_LEXICAL_SEGMENT) (t : YAP_V2_TERM_ENTRY) : lexical_ok s -> t ∈ lex_terms s ->
  (exists it, YAP_V2_posting_iterator_init (Some s) (Some t) = Ok it /\
     drain (S (Z.to_nat (document_frequency t))) it = Ok (postings_of s t)) /\
  StronglySorted posting_lt (postings_of s t) /\
  (forall type, type = YAP_V2_LEXICAL_DOCUMENT \/ type = YAP_V2_LEXICAL_PASSAGE ->
     YAP_V2_lexical_term_type_frequency (Some s) (Some t) type = Ok (zlen (filter (fun p => object_type p = type) (postings_of s t)))) /\
  (forall p, p ∈ postings_of s t -> ~ wraps p -> positions_ok p (positions_of s t p) /\
     forall i, 0 <= i < position_count p ->
       exists q, positions_of s t p !! Z.to_nat i = Some q /\ YAP_V2_posting_position_at (Some s) (Some t) (Some p) i = Ok q).
Proof.
  intros Hs Hin. destruct (term_facts s t Hs Hin) as [[_ Hdf _] HT]. split_and!.
  - exists (iterator_at s t 0). split; [by apply iterator_init|]. unfold postings_of.
    rewrite (drain_spec s t Hs Hin (Z.to_nat (document_frequency t)) 0) by lia. by rewrite Z2Nat.id by lia.
  - by apply postings_sorted.
  - intros type Hty. by apply type_frequency_spec.
  - intros p Hp HW. split; [|intros i Hi; by apply position_at_spec].
    pose proof Hp as (j&->&Hj%elem_of_seqZ)%list_elem_of_fmap. apply (ok_posting _ _ _ _ HT j); [lia|done].
Qed.

Lemma lexical_postings_correct_witness : exists t p q,
  t ∈ lex_terms demo_index /\ postings_of demo_index t = [p] /\
  YAP_V2_posting_position_at (Some demo_index) (Some t) (Some p) 0 = Ok q /\ positions_ok p (positions_of demo_index t p).
Proof.
  destruct (lex_terms demo_index) as [|t ts] eqn:Et; [discriminate|]. injection Et as Et Ets.
  assert (t ∈ lex_terms demo_index) as Hin by (rewrite <- Et; left).
  destruct (lexical_postings_correct demo_index t demo_index_ok Hin) as (_&_&_&HP).
  assert (exists p, postings_of demo_index t = [p] /\ position_count p = 1 /\ position_offset p = 0) as (p&Ep&Ec&Eo).
  { rewrite <- Et. eexists. split; [vm_compute; reflexivity|]. split; reflexivity. }
  rewrite Ep in HP. destruct (HP p ltac:(left) ltac:(unfold wraps; rewrite Ec, Eo; intros H; apply H; reflexivity)) as [H1 H2].
  destruct (H2 0 ltac:(rewrite Ec; split; [discriminate|reflexivity])) as (q&_&Hq).
  exists t, p, q. split; [left|]. exact (conj Ep (conj Hq H1)).
Defined.

Lemma foldl_max_bound (f : YAP_V2_POSTING -> Z) l : forall m,
  m <= foldl (fun m p => Z.max m (f p)) m l /\ forall p, p ∈ l -> f p <= foldl (fun m p => Z.max m (f p)) m l.
Proof.
  induction l as [|x l IH]; intros m; cbn; [split; [lia|by intros p ?%elem_of_nil]|].
  destruct (IH (Z.max m (f x))) as [H1 H2]. split; [lia|]. intros p [->|Hp]%elem_of_cons; [lia|by apply H2].
Qed.
Lemma foldl_min_bound (f : YAP_V2_POSTING -> Z) l : forall m,
  foldl (fun m p => Z.min m (f p)) m l <= m /\ forall p, p ∈ l -> foldl (fun m p => Z.min m (f p)) m l <= f p.
Proof.
  induction l as [|x l IH]; intros m; cbn; [split; [lia|by intros p ?%elem_of_nil]|].
  destruct (IH (Z.min m (f x))) as [H1 H2]. split; [lia|]. intros p [->|Hp]%elem_of_cons; [lia|by apply H2].
Qed.

(** The stored maxima of a block are bounds.  Every block of a term can be read; it starts
    at its multiple of 128, has between 1 and 128 postings of the term, and no posting in it has
    a higher term frequency than its maximum or a shorter field with the term than its
    minimum: a search that skips a block by these values skips no better posting of it. *)
Theorem lexical_block_bounds (s : YAP_V2_LEXICAL_SEGMENT) (t : YAP_V2_TERM_ENTRY) (it : YAP_V2_POSTING_ITERATOR) (b : Z) :
  lexical_ok s -> t ∈ lex_terms s -> YAP_V2_posting_iterator_init (Some s) (Some t) = Ok it -> 0 <= b < block_count_of t ->
  exists block, YAP_V2_posting_iterator_block it b = Ok block /\ first_posting block = b * YAP_V2_POSTINGS_BLOCK_SIZE /\
    1 <= posting_count block <= YAP_V2_POSTINGS_BLOCK_SIZE /\
    forall i, first_posting block <= i < first_posting block + posting_count block -> exists p, postings_of s t !! Z.to_nat i = Some p /\
      u32 (tf_total p) <= max_term_frequency block /\ min_field_length block <= shortest_field p.
Proof.
  intros Hs Hin Hit Hb. rewrite (iterator_init s t Hs Hin) in Hit. injection Hit as <-. destruct (term_facts s t Hs Hin) as [_ HT].
  destruct (ok_blocks _ _ _ _ HT b Hb) as [H1 H2 H3 H4]. pose proof (iterator_block s t Hs Hin b Hb) as HI.
  set (block := blk (postings_map s) (posting_cursor_of t) (document_frequency t) b) in *. clearbody block.
  exists block. split_and!; [done..|apply H2|apply H2|]. intros i Hi. unfold YAP_V2_POSTINGS_BLOCK_SIZE in *.
  exists (posting_of (postings_map s) t i). split.
  - unfold postings_of. rewrite list_lookup_fmap, lookup_seqZ_lt by lia. cbn. f_equal. f_equal. lia.
  - unfold block_summary in H4. injection H4 as Em En.
    assert (posting_of (postings_map s) t i ∈ post (postings_map s) (posting_cursor_of t) <$> seqZ (first_posting block) (posting_count block)) as He.
    { apply list_elem_of_fmap. exists i. split; [done|]. apply elem_of_seqZ. lia. }
    rewrite Em, En. split; [by apply (proj2 (foldl_max_bound (fun p => u32 (tf_total p)) _ 0))|by apply (proj2 (foldl_min_bound shortest_field _ UINT32_MAX))].
Qed.

Lemma lexical_block_bounds_witness : exists t it block,
  t ∈ lex_terms demo_index /\ YAP_V2_posting_iterator_init (Some demo_index) (Some t) = Ok it /\
  YAP_V2_posting_iterator_block it 0 = Ok block /\ first_posting block = 0.
Proof.
  destruct (lex_terms demo_index) as [|t ts] eqn:Et; [discriminate|]. injection Et as Et Ets.
  assert (t ∈ lex_terms demo_index) as Hin by (rewrite <- Et; left).
  assert (block_count_of t = 1) as Ec by (rewrite <- Et; reflexivity).
  destruct (lexical_block_bounds demo_index t (iterator_at demo_index t 0) 0 demo_index_ok Hin (iterator_init demo_index t demo_index_ok Hin)
    ltac:(rewrite Ec; split; [discriminate|reflexivity])) as (block&Hb&Hf&_).
  exists t, (iterator_at demo_index t 0), block. split; [left|].
  exact (conj (iterator_init demo_index t demo_index_ok Hin) (conj Hb Hf)).
Defined.
