(* ===== verification/Selection.v ===== *)
(** Which segments a compaction merges (src/src/indexing/yappo_compact_v2.c and
    src/src/config/yappo_compaction_policy_v2.c).

    Segments are put into size tiers that grow by a factor of four.  A compaction takes a run of
    adjacent segments of one tier, at most eight of them and at most 512 MiB, preferring the
    longest run and, among these, the one with the fewest bytes. *)
From S2P Require Import Prelude Words Types Header SlotTable Manifest.

Definition YAP_V2_DEFAULT_AUTO_COMPACT_CHECK_INTERVAL_MS : Z := 30000.
Definition YAP_V2_MIN_AUTO_COMPACT_CHECK_INTERVAL_MS : Z := 1000.
Definition YAP_V2_MAX_AUTO_COMPACT_CHECK_INTERVAL_MS : Z := 3600000.
Definition YAP_V2_DEFAULT_AUTO_COMPACT_SMALL_SEGMENT_BYTES : Z := 64 * 1024 * 1024.
Definition YAP_V2_MAX_AUTO_COMPACT_SMALL_SEGMENT_BYTES : Z := 256 * 1024 * 1024.
Definition YAP_V2_DEFAULT_AUTO_COMPACT_MIN_SMALL_SEGMENTS : Z := 4.
Definition YAP_V2_MIN_AUTO_COMPACT_SMALL_SEGMENTS : Z := 2.
Definition YAP_V2_MAX_AUTO_COMPACT_SMALL_SEGMENTS : Z := 8.

Definition YAP_V2_COMPACTION_MAX_SOURCE_SEGMENTS : Z := 8.
Definition YAP_V2_COMPACTION_MAX_SOURCE_BYTES : Z := 512 * 1024 * 1024.
Definition YAP_V2_COMPACTION_TIER_WIDTH : Z := 4.
Definition YAP_V2_COMPACTION_FLOOR_DIVISOR : Z := 64.

(** [enabled] is a C [int]. *)
Record YAP_V2_COMPACTION_POLICY := CompactionPolicy {
  enabled : Z;
  check_interval_ms : Z;
  small_segment_bytes : Z;
  min_small_segments : Z }.

Definition YAP_V2_compaction_policy_init : YAP_V2_COMPACTION_POLICY :=
  CompactionPolicy 1 YAP_V2_DEFAULT_AUTO_COMPACT_CHECK_INTERVAL_MS
    YAP_V2_DEFAULT_AUTO_COMPACT_SMALL_SEGMENT_BYTES YAP_V2_DEFAULT_AUTO_COMPACT_MIN_SMALL_SEGMENTS.

Definition YAP_V2_compaction_policy_validate (policy : option YAP_V2_COMPACTION_POLICY) : result unit :=
  match policy with
  | None => Err YAP_V2_INVALID_ARGUMENT
  | Some p =>
      if (negb (enabled p =? 0) && negb (enabled p =? 1)) ||
         (check_interval_ms p <? YAP_V2_MIN_AUTO_COMPACT_CHECK_INTERVAL_MS) ||
         (YAP_V2_MAX_AUTO_COMPACT_CHECK_INTERVAL_MS <? check_interval_ms p) ||
         (small_segment_bytes p =? 0) ||
         (YAP_V2_MAX_AUTO_COMPACT_SMALL_SEGMENT_BYTES <? small_segment_bytes p) ||
         (min_small_segments p <? YAP_V2_MIN_AUTO_COMPACT_SMALL_SEGMENTS) ||
         (YAP_V2_MAX_AUTO_COMPACT_SMALL_SEGMENTS <? min_small_segments p)
      then Err YAP_V2_OUT_OF_RANGE else Ok tt
  end.

(** ** Sizes and tiers *)

(** The loop over the components; [SIZE_MAX] when the sum does not fit. *)
Fixpoint storage_total (components : list YAP_V2_COMPONENT_DESCRIPTOR) (total : Z) : Z :=
  match components with
  | [] => total
  | c :: components =>
      if SIZE_MAX <? file_bytes c then SIZE_MAX
      else if SIZE_MAX - total <? file_bytes c then SIZE_MAX
      else storage_total components (total + file_bytes c)
  end.

Definition segment_storage_bytes (segment : YAP_V2_SEGMENT_DESCRIPTOR) : Z := storage_total (components segment) 0.

(** The loop that multiplies [upper] by the tier width.  [upper] grows by a factor of four in
    every turn and stays below [SIZE_MAX], so 32 turns are enough. *)
Fixpoint tier_loop (fuel : nat) (bytes_ upper tier : Z) : Z :=
  match fuel with
  | O => tier
  | S fuel =>
      if (upper <=? SIZE_MAX / YAP_V2_COMPACTION_TIER_WIDTH) && (upper * YAP_V2_COMPACTION_TIER_WIDTH <=? bytes_)
      then tier_loop fuel bytes_ (upper * YAP_V2_COMPACTION_TIER_WIDTH) (tier + 1)
      else tier
  end.

Definition tier_floor (policy : option YAP_V2_COMPACTION_POLICY) : Z :=
  let floor := match policy with
               | None => 1024 * 1024
               | Some p => small_segment_bytes p / YAP_V2_COMPACTION_FLOOR_DIVISOR
               end in
  if floor =? 0 then 1 else floor.

Definition segment_size_tier (policy : option YAP_V2_COMPACTION_POLICY) (bytes_ : Z) : Z :=
  let floor := tier_floor policy in
  tier_loop 32 (if bytes_ <? floor then floor else bytes_) floor 0.

(** ** Selection *)

(** The inner loop: how many of [segments] can be taken, and their bytes. *)
Fixpoint extend_run (policy : option YAP_V2_COMPACTION_POLICY) (tier : Z) (segments : list YAP_V2_SEGMENT_DESCRIPTOR)
    (selected total : Z) : Z * Z :=
  match segments with
  | [] => (selected, total)
  | s :: segments =>
      if negb (selected <? YAP_V2_COMPACTION_MAX_SOURCE_SEGMENTS) then (selected, total)
      else
      let bytes_ := segment_storage_bytes s in
      if negb (segment_size_tier policy bytes_ =? tier) then (selected, total)
      else if (0 <? selected) && ((YAP_V2_COMPACTION_MAX_SOURCE_BYTES <=? total) ||
                                  (YAP_V2_COMPACTION_MAX_SOURCE_BYTES - total <? bytes_)) then (selected, total)
      else if SIZE_MAX - total <? bytes_ then (selected, total)
      else extend_run policy tier segments (selected + 1) (total + bytes_)
  end.

(** [best_first], [best_count] and [best_bytes]. *)
Record best_run := BestRun { best_first : Z; best_count : Z; best_bytes : Z }.

(** One turn of the outer loop: the run that starts at the head of [segments]. *)
Definition try_start (policy : option YAP_V2_COMPACTION_POLICY) (minimum start : Z) (s : YAP_V2_SEGMENT_DESCRIPTOR)
    (segments : list YAP_V2_SEGMENT_DESCRIPTOR) (best : best_run) : best_run :=
  let tier := segment_size_tier policy (segment_storage_bytes s) in
  let '(selected, total) := extend_run policy tier (s :: segments) 0 0 in
  if (minimum <=? selected) &&
     ((best_count best <? selected) || ((selected =? best_count best) && (total <? best_bytes best)))
  then BestRun start selected total else best.

Fixpoint scan_starts (policy : option YAP_V2_COMPACTION_POLICY) (minimum start : Z)
    (segments : list YAP_V2_SEGMENT_DESCRIPTOR) (best : best_run) : best_run :=
  match segments with
  | [] => best
  | s :: segments => scan_starts policy minimum (start + 1) segments (try_start policy minimum start s segments best)
  end.

Definition run_minimum (policy : option YAP_V2_COMPACTION_POLICY) : Z :=
  match policy with None => 2 | Some p => min_small_segments p end.

(** The first segment of the selected range and how many there are. *)
Definition select_range (manifest : YAP_V2_MANIFEST) (policy : option YAP_V2_COMPACTION_POLICY) : result (Z * Z) :=
  if segment_count manifest =? 0 then Err YAP_V2_NOT_FOUND
  else
  let best := scan_starts policy (run_minimum policy) 0 (segments manifest) (BestRun 0 0 SIZE_MAX) in
  let best := if (best_count best =? 0) && bool_decide (policy = None) then BestRun 0 1 (best_bytes best) else best in
  if best_count best =? 0 then Err YAP_V2_NOT_FOUND else Ok (best_first best, best_count best).

(** ** Is a compaction needed? *)

(** The loop that counts adjacent small segments: the longest run. *)
Fixpoint longest_small (limit : Z) (segments : list YAP_V2_SEGMENT_DESCRIPTOR) (count longest : Z) : Z :=
  match segments with
  | [] => longest
  | s :: segments =>
      if segment_storage_bytes s <? limit then
        let count := count + 1 in longest_small limit segments count (if longest <? count then count else longest)
      else longest_small limit segments 0 longest
  end.

(** Whether one is needed, and [small_segment_count]. *)
Definition YAP_V2_manifest_needs_compaction (manifest : option YAP_V2_MANIFEST) (policy : option YAP_V2_COMPACTION_POLICY)
  : result (bool * Z) :=
  match manifest, policy with
  | Some m, Some p =>
      match YAP_V2_compaction_policy_validate policy with
      | Ok _ =>
          let longest := longest_small (small_segment_bytes p) (segments m) 0 0 in
          match select_range m policy with
          | Ok _ => Ok (negb (enabled p =? 0), longest)
          | Err YAP_V2_NOT_FOUND => Ok (false, longest)
          | Err e => Err e
          | Fault => Fault
          end
      | _ => Err YAP_V2_INVALID_ARGUMENT
      end
  | _, _ => Err YAP_V2_INVALID_ARGUMENT
  end.

(** ** Specification *)
Definition total_bytes (run : list YAP_V2_SEGMENT_DESCRIPTOR) : Z := foldr (fun s n => segment_storage_bytes s + n) 0 run.

Definition tier_of (policy : option YAP_V2_COMPACTION_POLICY) (s : YAP_V2_SEGMENT_DESCRIPTOR) : Z :=
  segment_size_tier policy (segment_storage_bytes s).

(** A run that may be merged: at most eight segments of one tier; when there are several, at
    most 512 MiB, and the last one is not added to a run that has reached the limit. *)
Record mergeable (policy : option YAP_V2_COMPACTION_POLICY) (run : list YAP_V2_SEGMENT_DESCRIPTOR) : Prop := {
  mg_nonempty : run <> [];
  mg_count : zlen run <= YAP_V2_COMPACTION_MAX_SOURCE_SEGMENTS;
  mg_tier : forall s t, s ∈ run -> t ∈ run -> tier_of policy s = tier_of policy t;
  mg_bytes : length run = 1%nat \/
    total_bytes run <= YAP_V2_COMPACTION_MAX_SOURCE_BYTES /\
    total_bytes (removelast run) < YAP_V2_COMPACTION_MAX_SOURCE_BYTES }.

(** The segments [start, start + n) of a manifest. *)
Definition range_of (m : YAP_V2_MANIFEST) (start n : Z) : list YAP_V2_SEGMENT_DESCRIPTOR := slice (segments m) start n.

(** The sizes in a manifest are unsigned. *)
Definition sizes_ok (segs : list YAP_V2_SEGMENT_DESCRIPTOR) : Prop :=
  Forall (fun s => Forall (fun c => 0 <= file_bytes c) (components s)) segs.

(** ** Sizes and tiers *)
Lemma storage_total_range cs total : Forall (fun c => 0 <= file_bytes c) cs -> 0 <= total <= SIZE_MAX ->
  total <= storage_total cs total <= SIZE_MAX.
Proof.
  intros H; revert total; induction H as [|c cs Hc _ IH]; intros total Ht; cbn [storage_total]; [lia|].
  destruct (Z.ltb_spec SIZE_MAX (file_bytes c)); [lia|]. destruct (Z.ltb_spec (SIZE_MAX - total) (file_bytes c)); [lia|].
  specialize (IH (total + file_bytes c)). lia.
Qed.

Lemma segment_storage_range s : Forall (fun c => 0 <= file_bytes c) (components s) -> 0 <= segment_storage_bytes s <= SIZE_MAX.
Proof. intros H. unfold segment_storage_bytes. pose proof (storage_total_range _ 0 H). unfold SIZE_MAX in *. lia. Qed.

Lemma storage_total_exact cs total : Forall (fun c => 0 <= file_bytes c) cs -> 0 <= total ->
  total + foldr (fun c n => file_bytes c + n) 0 cs <= SIZE_MAX ->
  storage_total cs total = total + foldr (fun c n => file_bytes c + n) 0 cs.
Proof.
  intros H; revert total; induction H as [|c cs Hc Hcs IH]; intros total Ht; cbn [storage_total foldr]; [lia|]. intros Hs.
  assert (0 <= foldr (fun c n => file_bytes c + n) 0 cs) by (clear -Hcs; induction Hcs; cbn; lia).
  rewrite !(proj2 (Z.ltb_ge _ _)) by lia. rewrite IH; lia.
Qed.

(** The loop leaves with the largest power of four that fits. *)
Lemma tier_loop_spec fuel b : forall upper tier, 0 < upper -> upper <= b -> b <= SIZE_MAX ->
  SIZE_MAX < upper * 4 ^ Z.of_nat fuel ->
  exists j, 0 <= j /\ tier_loop fuel b upper tier = tier + j /\ upper * 4 ^ j <= b < upper * 4 ^ (j + 1).
Proof.
  induction fuel as [|fuel IH]; intros upper tier Hu Hb Hm Hf; [change (4 ^ Z.of_nat 0) with 1 in Hf; lia|].
  cbn [tier_loop]. unfold YAP_V2_COMPACTION_TIER_WIDTH.
  destruct (Z.leb_spec upper (SIZE_MAX / 4)) as [H1|H1]; cbn [andb].
  - destruct (Z.leb_spec (upper * 4) b) as [H2|H2].
    + destruct (IH (upper * 4) (tier + 1)) as (j&Hj&->&Hr); [lia|lia|lia| |].
      { rewrite Nat2Z.inj_succ, Z.pow_succ_r in Hf by lia. lia. }
      exists (j + 1). split_and!; [lia|lia|..]; rewrite !Z.pow_add_r in * by lia; lia.
    + exists 0. split_and!; [lia|lia|lia|]. change (4 ^ (0 + 1)) with 4. lia.
  - change (SIZE_MAX / 4) with (2 ^ 62 - 1) in H1. exists 0. split_and!; [lia..|]. change (4 ^ (0 + 1)) with 4. unfold SIZE_MAX in *. lia.
Qed.

Lemma tier_floor_range policy : (forall p, policy = Some p -> 0 <= small_segment_bytes p <= YAP_V2_MAX_AUTO_COMPACT_SMALL_SEGMENT_BYTES) ->
  1 <= tier_floor policy <= 2 ^ 22.
Proof.
  intros H. unfold tier_floor. destruct policy as [p|]; [|vm_compute; split; discriminate].
  specialize (H p eq_refl). unfold YAP_V2_COMPACTION_FLOOR_DIVISOR, YAP_V2_MAX_AUTO_COMPACT_SMALL_SEGMENT_BYTES in *.
  assert (0 <= small_segment_bytes p / 64 <= 2 ^ 22) by (split; [apply Z.div_pos|apply Z.div_le_upper_bound]; lia).
  destruct (Z.eqb_spec (small_segment_bytes p / 64) 0); lia.
Qed.

(** ** Runs *)
Lemma total_bytes_app a b : total_bytes (a ++ b) = total_bytes a + total_bytes b.
Proof. induction a as [|s a IH]; [done|]. cbn. unfold total_bytes in *. lia. Qed.

Lemma total_bytes_nonneg run : sizes_ok run -> 0 <= total_bytes run.
Proof. induction 1 as [|s run Hs _ IH]; [done|]. cbn. pose proof (segment_storage_range s Hs). unfold total_bytes in *. lia. Qed.

Section run.
Context (policy : option YAP_V2_COMPACTION_POLICY).

(** The conditions under which the loop adds [s] to what it has. *)
Definition step_ok (tier : Z) (pre : list YAP_V2_SEGMENT_DESCRIPTOR) (s : YAP_V2_SEGMENT_DESCRIPTOR) : Prop :=
  zlen pre < YAP_V2_COMPACTION_MAX_SOURCE_SEGMENTS /\ tier_of policy s = tier /\
  (pre = [] \/ total_bytes pre < YAP_V2_COMPACTION_MAX_SOURCE_BYTES /\
             total_bytes pre + segment_storage_bytes s <= YAP_V2_COMPACTION_MAX_SOURCE_BYTES).

Definition grows (tier : Z) (run : list YAP_V2_SEGMENT_DESCRIPTOR) : Prop :=
  forall a s b, run = a ++ s :: b -> step_ok tier a s.

Lemma grows_snoc tier run s : grows tier run -> step_ok tier run s -> grows tier (run ++ [s]).
Proof.
  intros Hg Hs a t b E. destruct b as [|u b _] using rev_ind.
  - apply app_inj_tail in E as [<- <-]. done.
  - rewrite app_comm_cons, (assoc_L (++)) in E. apply app_inj_tail in E as [-> _]. by eapply Hg.
Qed.

Lemma grows_tier tier run s : grows tier run -> s ∈ run -> tier_of policy s = tier.
Proof. intros Hg (a&b&->)%list_elem_of_split. by destruct (Hg a s b eq_refl) as (_&?&_). Qed.

Lemma mergeable_grows run : sizes_ok run -> mergeable policy run <-> exists s rest, run = s :: rest /\ grows (tier_of policy s) run.
Proof.
  intros Hz. split.
  - intros [Hne Hc Ht Hb]. destruct run as [|s rest]; [done|]. exists s, rest. split; [done|]. intros a t b E.
  assert (t ∈ s :: rest) as Hin by (rewrite E; apply elem_of_app; right; by left).
  rewrite E in Hc. unfold step_ok. autorewrite with zlen in Hc. pose_zlen. split_and!.
  + unfold YAP_V2_COMPACTION_MAX_SOURCE_SEGMENTS in *. lia.
  + apply Ht; [done|by left].
  + destruct Hb as [H1|[H1 H2]].
  * left. rewrite E in H1. rewrite length_app in H1. cbn in H1. destruct a; [done|cbn in H1; lia].
  * right. rewrite E in H1, H2, Hz. rewrite removelast_app in H2 by done. rewrite total_bytes_app in H1, H2. cbn in H1.
    apply Forall_app in Hz as [Ha Hz]. apply Forall_cons in Hz as [Ht1 Hb1].
    assert (0 <= total_bytes b) by (by apply total_bytes_nonneg).
    assert (0 <= total_bytes (removelast (t :: b))).
    { apply total_bytes_nonneg. destruct b as [|u b _] using rev_ind; [by constructor|].
      rewrite app_comm_cons, removelast_last. apply Forall_app in Hb1 as [? _]. by constructor. }
    unfold total_bytes in *. lia.
  - intros (s&rest&->&Hg). assert (exists a t, s :: rest = a ++ [t]) as (a&t&E).
  { destruct (exists_last (l := s :: rest)) as (a&t&E); [done|]. eauto. }
  destruct (Hg a t [] E) as (H1&H2&H3). split; [done| | |].
  + rewrite E. zl.
  + intros u v Hu Hv. etrans; [exact (grows_tier _ _ _ Hg Hu)|symmetry; exact (grows_tier _ _ _ Hg Hv)].
  + destruct H3 as [->|[H3 H4]]; [left; by rewrite E|right]. rewrite E, removelast_last, total_bytes_app.
  cbn [total_bytes foldr] in *. lia.
Qed.

(** The inner loop takes the longest prefix that grows. *)
Lemma extend_run_spec tier segs : sizes_ok segs -> forall pre, grows tier pre -> sizes_ok pre ->
  exists n : nat, (n <= length segs)%nat /\
  extend_run policy tier segs (zlen pre) (total_bytes pre) = (zlen pre + Z.of_nat n, total_bytes (pre ++ take n segs)) /\
  grows tier (pre ++ take n segs) /\
  (forall n', (n < n' <= length segs)%nat -> ~ grows tier (pre ++ take n' segs)).
Proof.
  induction segs as [|s segs IH]; intros Hz pre Hg Hp.
  { exists 0%nat. cbn. rewrite app_nil_r, Z.add_0_r. split_and!; [lia|done|done|]. intros; lia. }
  apply Forall_cons in Hz as [Hs Hz]. pose proof (segment_storage_range s Hs) as Hr.
  pose proof (total_bytes_nonneg pre Hp) as Ht. cbn [extend_run].
  assert (~ step_ok tier pre s -> exists n : nat, (n <= length (s :: segs))%nat /\
  (zlen pre, total_bytes pre) = (zlen pre + Z.of_nat n, total_bytes (pre ++ take n (s :: segs))) /\
  grows tier (pre ++ take n (s :: segs)) /\
  (forall n', (n < n' <= length (s :: segs))%nat -> ~ grows tier (pre ++ take n' (s :: segs)))) as Hstop.
  { intros HN. exists 0%nat. cbn [take]. rewrite app_nil_r, Z.add_0_r. split_and!; [lia|done|done|].
  intros n' Hn' Hg'. destruct n' as [|n']; [lia|]. apply HN. by eapply Hg'. }
  destruct (Z.ltb_spec (zlen pre) YAP_V2_COMPACTION_MAX_SOURCE_SEGMENTS) as [H1|H1]; cbn [negb];
  [|apply Hstop; intros (?&_); lia].
  destruct (Z.eqb_spec (segment_size_tier policy (segment_storage_bytes s)) tier) as [H2|H2]; cbn [negb];
  [|apply Hstop; intros (_&?&_); done].
  destruct (_ && _) eqn:H3.
  { apply Hstop. intros (_&_&HN). apply andb_true_iff in H3 as [H3 H4]. apply Z.ltb_lt in H3.
  apply orb_true_iff in H4. rewrite Z.leb_le, Z.ltb_lt in H4. destruct HN as [->|[? ?]]; [done|]. lia. }
  assert (step_ok tier pre s) as Hst.
  { split_and!; [done|done|]. apply andb_false_iff in H3 as [H3|H3].
  - left. apply Z.ltb_ge in H3. destruct pre; [done|]. rewrite zlen_cons in H3. pose_zlen. lia.
  - right. apply orb_false_iff in H3 as [H3 H4]. apply Z.leb_gt in H3. apply Z.ltb_ge in H4. lia. }
  rewrite (proj2 (Z.ltb_ge _ _)).
  2: { destruct Hst as (_&_&[->|[? ?]]); [cbn; lia|]. unfold YAP_V2_COMPACTION_MAX_SOURCE_BYTES, SIZE_MAX in *. lia. }
  destruct (IH Hz (pre ++ [s])) as (n&Hn&E&Hgn&Hmax); [by apply grows_snoc|by apply Forall_app; split; [|constructor]|].
  exists (S n). cbn [take length]. rewrite total_bytes_app, zlen_app in E. cbn [total_bytes foldr] in E.
  change (zlen [s]) with 1 in E. rewrite Z.add_0_r in E. rewrite <- (assoc_L (++)) in E, Hgn.
  split_and!; [lia|rewrite E; f_equal; lia|done|]. intros n' Hn'. destruct n' as [|n']; [lia|]. cbn [take].
  rewrite (cons_middle s). rewrite (assoc_L (++)). apply Hmax. lia.
Qed.
End run.

Section scan.
Context (policy : option YAP_V2_COMPACTION_POLICY) (all : list YAP_V2_SEGMENT_DESCRIPTOR) (minimum : Z).
Context (Hall : sizes_ok all) (Hmin : 1 <= minimum).

Definition run_at (i n : nat) : list YAP_V2_SEGMENT_DESCRIPTOR := take n (drop i all).

(** A run the policy accepts. *)
Definition candidate (i n : nat) : Prop := (i + n <= length all)%nat /\ minimum <= Z.of_nat n /\ mergeable policy (run_at i n).

Definition preferred (i n i' n' : nat) : Prop :=
  (n' < n)%nat \/ n' = n /\ (total_bytes (run_at i n) < total_bytes (run_at i' n') \/
                          total_bytes (run_at i n) = total_bytes (run_at i' n') /\ (i <= i')%nat).

(** [best] is the best run that starts before [start]. *)
Definition best_before (best : best_run) (start : nat) : Prop :=
  best = BestRun 0 0 SIZE_MAX /\ (forall i n, (i < start)%nat -> ~ candidate i n) \/
  exists i n : nat, best = BestRun (Z.of_nat i) (Z.of_nat n) (total_bytes (run_at i n)) /\ (i < start)%nat /\ candidate i n /\
  forall i' n', (i' < start)%nat -> candidate i' n' -> preferred i n i' n'.

Lemma sizes_run_at i n : sizes_ok (run_at i n).
Proof using Hall. by apply Forall_take, Forall_drop. Qed.

(** The longest run at [start]. *)
Lemma longest_at start s rest : drop start all = s :: rest ->
  exists n : nat, extend_run policy (tier_of policy s) (s :: rest) 0 0 = (Z.of_nat n, total_bytes (run_at start n)) /\
  (1 <= n)%nat /\ (start + n <= length all)%nat /\ mergeable policy (run_at start n) /\
  forall n', (start + n' <= length all)%nat -> mergeable policy (run_at start n') -> (n' <= n)%nat.
Proof using Hall.
  intros Hd. assert (length all = start + S (length rest))%nat as Hlen.
  { pose proof (f_equal length Hd) as E. rewrite length_drop in E. cbn in E. lia. }
  assert (sizes_ok (s :: rest)) as Hz by (rewrite <- Hd; by apply Forall_drop).
  destruct (extend_run_spec policy (tier_of policy s) (s :: rest) Hz []) as (n&Hn&E&Hg&Hmax).
  { intros a t b Ha. by destruct a. }
  { constructor. }
  exists n. assert (1 <= n)%nat as H1.
  { destruct n as [|n]; [|lia]. exfalso. apply (Hmax 1%nat); [cbn; lia|]. intros a t b Ha. cbn in Ha.
  destruct a as [|? [|? ?]]; [|done..]. injection Ha as -> _. split_and!; [done|done|by left]. }
  cbn [length] in *. unfold run_at. rewrite Hd. split_and!; [exact E|done|lia| |].
  - apply mergeable_grows; [rewrite <- Hd; apply sizes_run_at|]. destruct n as [|n]; [lia|]. by exists s, (take n rest).
  - intros n' Hn' Hm. apply mergeable_grows in Hm as (s'&r'&Es&Hg'); [|rewrite <- Hd; apply sizes_run_at].
  destruct n' as [|n']; [lia|]. cbn in Es. injection Es as <- _. destruct (decide (S n' <= n)%nat); [done|].
  exfalso. apply (Hmax (S n')); [lia|done].
Qed.

Lemma try_start_best start s rest best : drop start all = s :: rest -> best_before best start ->
  best_before (try_start policy minimum (Z.of_nat start) s rest best) (S start).
Proof using Hall Hmin.
  intros Hd Hb. unfold try_start. fold (tier_of policy s). destruct (longest_at start s rest Hd) as (n&->&H1&Hl&Hm&Hmax).
  assert (forall n', candidate start n' -> (n' <= n)%nat) as Hle by (intros n' (?&_&?); by apply Hmax).
  destruct (_ && _) eqn:T.
  - right. exists start, n. apply andb_true_iff in T as [T1 T2]. apply Z.leb_le in T1.
  assert (candidate start n) as Hc by done. split_and!; [done|lia|done|]. intros i' n' Hi' Hc'.
  destruct (decide (i' = start)) as [->|Hne].
  { pose proof (Hle n' Hc'). destruct (decide (n' = n)) as [->|]; [right; split; [done|by right]|left; lia]. }
  destruct Hb as [[_ HN]|(i&n0&->&Hi&Hc0&Hp)]; [destruct (HN i' n'); [lia|done]|].
  cbn [best_count best_bytes] in T2. specialize (Hp i' n' ltac:(lia) Hc'). unfold preferred in *.
  apply orb_true_iff in T2. rewrite Z.ltb_lt, andb_true_iff, Z.eqb_eq, Z.ltb_lt in T2.
  destruct T2 as [T2|[T2 T3]]; [lia|]. assert (n0 = n) as -> by lia. lia.
  - assert (forall n', candidate start n' -> exists i n0, best = BestRun (Z.of_nat i) (Z.of_nat n0) (total_bytes (run_at i n0)) /\
    (i < start)%nat /\ preferred i n0 start n') as Hno.
  { intros n' Hc'. pose proof (Hle n' Hc') as Hn'. pose proof (proj1 (proj2 Hc')) as Hm'.
  apply andb_false_iff in T as [T|T]; [apply Z.leb_gt in T; lia|]. apply orb_false_iff in T as [T1 T2]. apply Z.ltb_ge in T1.
  destruct Hb as [[-> HN]|(i&n0&->&Hi&Hc0&Hp)]; cbn [best_count best_bytes] in *; [lia|].
  exists i, n0. split_and!; [done|lia|]. unfold preferred. destruct (decide (n' < n0)%nat); [by left|]. right.
  assert (n' = n0 /\ n = n0) as [-> ->] by lia. split; [done|]. rewrite Z.eqb_refl in T2. cbn [andb] in T2.
  apply Z.ltb_ge in T2. lia. }
  destruct Hb as [[-> HN]|(i&n0&->&Hi&Hc0&Hp)].
  + left. split; [done|]. intros i n' Hi Hc'. destruct (decide (i = start)) as [->|]; [|apply (HN i n'); [lia|done]].
  destruct (Hno n' Hc') as (i&n0&E&_&Hp). injection E as E1 E2 _. assert (n0 = 0)%nat as -> by lia.
  destruct Hc' as (_&?&_). unfold preferred in Hp. lia.
  + right. exists i, n0. split_and!; [done|lia|done|]. intros i' n' Hi' Hc'.
  destruct (decide (i' = start)) as [->|]; [|apply Hp; [lia|done]].
  destruct (Hno n' Hc') as (i1&n1&E&_&Hp1). injection E as E1 E2 _. apply Nat2Z.inj in E1, E2. by subst.
Qed.

Lemma scan_starts_best rest : forall start best, drop start all = rest -> best_before best start ->
  best_before (scan_starts policy minimum (Z.of_nat start) rest best) (length all).
Proof using Hall Hmin.
  induction rest as [|s rest IH]; intros start best Hd Hb; cbn [scan_starts].
  - assert (length all <= start)%nat as Hlen.
  { pose proof (f_equal length Hd) as E. rewrite length_drop in E. cbn in E. lia. }
  assert (forall i n, candidate i n -> (i < length all)%nat) as Hci.
  { intros i n (H1&H2&_). lia. }
  destruct Hb as [[-> HN]|(i&n&->&Hi&Hc&Hp)].
  + left. split; [done|]. intros i n Hi. apply HN. lia.
  + right. exists i, n. split_and!; [done|by eapply Hci|done|]. intros. apply Hp; [lia|done].
  - replace (Z.of_nat start + 1) with (Z.of_nat (S start)) by lia. apply IH.
  + replace (S start) with (start + 1)%nat by lia. by rewrite <- drop_drop, Hd.
  + by apply try_start_best.
Qed.
End scan.

(** ** Small segments *)
Section small.
Context (limit : Z).

Definition small (s : YAP_V2_SEGMENT_DESCRIPTOR) : Prop := segment_storage_bytes s < limit.

(** The length of the longest run of small segments in [segs], and of the longest at its end. *)
Definition longest_run (segs : list YAP_V2_SEGMENT_DESCRIPTOR) (n : Z) : Prop :=
  (exists a b c, segs = a ++ b ++ c /\ Forall small b /\ zlen b = n) /\
  (forall a b c, segs = a ++ b ++ c -> Forall small b -> zlen b <= n).
Definition longest_tail (segs : list YAP_V2_SEGMENT_DESCRIPTOR) (n : Z) : Prop :=
  (exists a b, segs = a ++ b /\ Forall small b /\ zlen b = n) /\ (forall a b, segs = a ++ b -> Forall small b -> zlen b <= n).

Lemma longest_tail_snoc pre s n : longest_tail pre n -> longest_tail (pre ++ [s]) (if segment_storage_bytes s <? limit then n + 1 else 0).
Proof.
  intros [(a&b&->&Hb&<-) Hmax]. destruct (Z.ltb_spec (segment_storage_bytes s) limit) as [Hs|Hs].
  - split.
  + exists a, (b ++ [s]). rewrite <- (assoc_L (++)). split_and!; [done|by apply Forall_app; split; [|constructor]|zl].
  + intros a' b' E Hb'. destruct b' as [|t b' _] using rev_ind; [zl|]. rewrite (assoc_L (++)) in E.
  apply app_inj_tail in E as [E ->]. apply Forall_app in Hb' as [Hb' _]. specialize (Hmax _ _ E Hb'). zl.
  - split.
  + exists ((a ++ b) ++ [s]), []. by rewrite app_nil_r.
  + intros a' b' E Hb'. destruct b' as [|t b' _] using rev_ind; [done|]. rewrite (assoc_L (++)) in E.
  apply app_inj_tail in E as [_ ->]. apply Forall_app in Hb' as [_ Hb']. apply Forall_cons in Hb' as [Hb' _]. unfold small in Hb'. lia.
Qed.

Lemma longest_run_snoc pre s count longest : longest_tail (pre ++ [s]) count -> longest_run pre longest ->
  longest_run (pre ++ [s]) (if longest <? count then count else longest).
Proof.
  intros [(a0&b0&E0&Hb0&<-) Htail] [(a&b&c&->&Hb&<-) Hmax]. split.
  - destruct (Z.ltb_spec (zlen b) (zlen b0)); [exists a0, b0, []; by rewrite app_nil_r|].
  exists a, b, (c ++ [s]). by rewrite <- !(assoc_L (++)).
  - intros a' b' c' E Hb'. destruct c' as [|t c' _] using rev_ind.
  + rewrite app_nil_r in E. specialize (Htail _ _ E Hb'). destruct (Z.ltb_spec (zlen b) (zlen b0)); lia.
  + rewrite !(assoc_L (++)) in E. apply app_inj_tail in E as [E _]. rewrite <- !(assoc_L (++)) in E. specialize (Hmax _ _ _ E Hb').
  destruct (Z.ltb_spec (zlen b) (zlen b0)); lia.
Qed.

Lemma longest_small_spec segs : forall pre count longest, longest_tail pre count -> longest_run pre longest ->
  longest_run (pre ++ segs) (longest_small limit segs count longest).
Proof.
  induction segs as [|s segs IH]; intros pre count longest Ht Hr; cbn [longest_small]; [by rewrite app_nil_r|].
  rewrite (cons_middle s), (assoc_L (++)). pose proof (longest_tail_snoc pre s count Ht) as Ht'.
  pose proof (longest_run_snoc pre s _ longest Ht' Hr) as Hr'.
  destruct (segment_storage_bytes s <? limit); [by apply IH|]. apply IH; [done|].
  assert (0 <= longest) as H0 by (destruct Hr as [(?&b&?&_&_&<-) _]; apply zlen_nonneg).
  by rewrite (proj2 (Z.ltb_ge longest 0)) in Hr' by done.
Qed.
End small.

Lemma select_range_spec (m : YAP_V2_MANIFEST) (policy : option YAP_V2_COMPACTION_POLICY) :
  sizes_ok (segments m) -> 1 <= run_minimum policy ->
  match select_range m policy with
  | Ok (first, count) => exists i n : nat, first = Z.of_nat i /\ count = Z.of_nat n /\ (i + n <= length (segments m))%nat /\
      (candidate policy (segments m) (run_minimum policy) i n /\
       (forall i' n', candidate policy (segments m) (run_minimum policy) i' n' -> preferred (segments m) i n i' n') \/
       policy = None /\ i = 0%nat /\ n = 1%nat /\ (forall i' n', ~ candidate policy (segments m) (run_minimum policy) i' n'))
  | Err e => e = YAP_V2_NOT_FOUND /\ (segments m = [] \/ policy <> None) /\
      (forall i n, ~ candidate policy (segments m) (run_minimum policy) i n)
  | Fault => False
  end.
Proof.
  intros Hz Hmin. unfold select_range, segment_count.
  assert (forall i n, candidate policy (segments m) (run_minimum policy) i n -> (i < length (segments m))%nat) as Hci
    by (intros i n (?&?&_); lia).
  destruct (Z.eqb_spec (zlen (segments m)) 0) as [E|N].
  { assert (segments m = []) as Es by (unfold zlen in E; by apply length_zero_iff_nil; lia).
    split_and!; [done|by left|]. intros i n Hc. apply Hci in Hc. rewrite Es in Hc. cbn in Hc. lia. }
  destruct (scan_starts_best policy (segments m) (run_minimum policy) Hz Hmin (segments m) 0 (BestRun 0 0 SIZE_MAX))
    as [[E HN]|(i&n&E&Hi&Hc&Hp)]; [done|left; split; [done|intros; lia]|..]; change (Z.of_nat 0) with 0 in E; rewrite E;
    cbn [best_count best_first best_bytes].
  - assert (forall i n, ~ candidate policy (segments m) (run_minimum policy) i n) as HN'.
    { intros i n Hc. apply (HN i n); [by eapply Hci|done]. }
    destruct (decide (policy = None)) as [->|Hpn].
    + rewrite bool_decide_true by done. cbn. exists 0%nat, 1%nat. split_and!; [done|done|unfold zlen in N; lia|by right].
    + rewrite bool_decide_false by done. cbn. split_and!; [done|by right|done].
  - pose proof Hc as (H1&H2&_). rewrite (proj2 (Z.eqb_neq (Z.of_nat n) 0)) by lia. cbn [andb best_count best_first].
    rewrite (proj2 (Z.eqb_neq _ _)) by lia. exists i, n. split_and!; [done|done|done|]. left. split; [done|].
    intros i' n' Hc'. apply Hp; [by eapply Hci|done].
Qed.

(** ** Main theorems *)

(** The size tier of a segment is exact: tier [t] holds the segments with at least
    floor * 4^t and fewer than floor * 4^(t+1) bytes, where smaller segments count as floor
    bytes; the 32 turns of the loop are enough for every size. *)
Theorem size_tier_exact (policy : option YAP_V2_COMPACTION_POLICY) (size t : Z) :
  0 <= size <= SIZE_MAX -> 0 <= t ->
  (forall p, policy = Some p -> 0 <= small_segment_bytes p <= YAP_V2_MAX_AUTO_COMPACT_SMALL_SEGMENT_BYTES) ->
  segment_size_tier policy size = t <->
  tier_floor policy * 4 ^ t <= Z.max size (tier_floor policy) < tier_floor policy * 4 ^ (t + 1).
Proof.
  intros Hs Ht Hp. pose proof (tier_floor_range policy Hp) as Hf. unfold segment_size_tier.
  replace (if size <? tier_floor policy then tier_floor policy else size) with (Z.max size (tier_floor policy))
    by (destruct (Z.ltb_spec size (tier_floor policy)); lia).
  destruct (tier_loop_spec 32 (Z.max size (tier_floor policy)) (tier_floor policy) 0) as (j&Hj&->&Hr).
  { lia. }
  { lia. }
  { unfold SIZE_MAX in *. lia. }
  { change (4 ^ Z.of_nat 32) with (2 ^ 64). unfold SIZE_MAX. lia. }
  rewrite Z.add_0_l. split; [by intros <-|]. intros Ht'.
  destruct (Z.lt_trichotomy j t) as [Hlt|[->|Hlt]]; [|done|].
  - assert (4 ^ (j + 1) <= 4 ^ t) by (apply Z.pow_le_mono_r; lia). nia.
  - assert (4 ^ (t + 1) <= 4 ^ j) by (apply Z.pow_le_mono_r; lia). nia.
Qed.

Lemma size_tier_exact_witness : segment_size_tier None (5 * 1024 * 1024) = 1.
Proof.
  apply (proj2 (size_tier_exact None (5 * 1024 * 1024) 1 ltac:(vm_compute; split; discriminate) ltac:(lia) ltac:(discriminate))).
  vm_compute. split; [discriminate|reflexivity].
Defined.


(** C15: a compaction selects the best range: when [select_range] returns one, it is a run of
    adjacent segments of one size tier within the limits on their number and bytes and at least
    as long as the policy asks for; every other run that qualifies is shorter, or as long with
    more bytes, or as long with as many bytes and further right.  Without a policy the first
    segment is taken when no run of two qualifies.  [YAP_V2_NOT_FOUND] means that nothing
    qualifies. *)
Theorem select_range_correct (m : YAP_V2_MANIFEST) (policy : option YAP_V2_COMPACTION_POLICY) :
  sizes_ok (segments m) -> 1 <= run_minimum policy ->
  match select_range m policy with
  | Ok (first, count) => exists i n : nat, first = Z.of_nat i /\ count = Z.of_nat n /\ (i + n <= length (segments m))%nat /\
      (candidate policy (segments m) (run_minimum policy) i n /\
       (forall i' n', candidate policy (segments m) (run_minimum policy) i' n' -> preferred (segments m) i n i' n') \/
       policy = None /\ i = 0%nat /\ n = 1%nat /\ (forall i' n', ~ candidate policy (segments m) (run_minimum policy) i' n'))
  | Err e => e = YAP_V2_NOT_FOUND /\ (segments m = [] \/ policy <> None) /\
      (forall i n, ~ candidate policy (segments m) (run_minimum policy) i n)
  | Fault => False
  end.
Proof. apply select_range_spec. Qed.

Definition sized_segment (key size : Z) : YAP_V2_SEGMENT_DESCRIPTOR :=
  SegmentDescriptor [key] 1 0 0 [ComponentDescriptor [100] YAP_V2_FILE_DOCUMENTS 1 size []].
Definition sized_manifest : YAP_V2_MANIFEST :=
  Manifest 1 1 [] [sized_segment 97 (40 * 1048576); sized_segment 98 1000; sized_segment 99 3000; sized_segment 100 2000000] 4 None 0.

Lemma sized_manifest_ok : sizes_ok (segments sized_manifest).
Proof. unfold sizes_ok, sized_manifest. cbn [segments]. repeat constructor; cbn [file_bytes]; lia. Qed.

Lemma select_range_correct_witness : exists i n : nat, (i + n <= 4)%nat /\
  candidate None (segments sized_manifest) 2 i n /\
  (forall i' n', candidate None (segments sized_manifest) 2 i' n' -> preferred (segments sized_manifest) i n i' n').
Proof.
  pose proof (select_range_correct sized_manifest None sized_manifest_ok ltac:(vm_compute; discriminate)) as H.
  replace (select_range sized_manifest None) with (Ok (E := YAP_V2_STATUS) (1, 3)) in H by (vm_compute; reflexivity).
  destruct H as (i&n&E1&E2&Hl&[[Hc Hp]|(_&_&->&_)]); [|lia]. exists i, n. split_and!; [exact Hl|exact Hc|exact Hp].
Defined.

(** [YAP_V2_manifest_needs_compaction] answers exactly: a valid policy asks for a
    compaction when it is enabled and some run of segments qualifies, and the reported number
    is the length of the longest run of adjacent segments below [small_segment_bytes]. *)
Theorem needs_compaction_correct (m : YAP_V2_MANIFEST) (p : YAP_V2_COMPACTION_POLICY) :
  sizes_ok (segments m) -> YAP_V2_compaction_policy_validate (Some p) = Ok tt ->
  exists needed k, YAP_V2_manifest_needs_compaction (Some m) (Some p) = Ok (needed, k) /\
    (needed = true <-> enabled p = 1 /\ exists i n, candidate (Some p) (segments m) (min_small_segments p) i n) /\
    longest_run (small_segment_bytes p) (segments m) k.
Proof.
  intros Hz Hv. unfold YAP_V2_manifest_needs_compaction. rewrite Hv.
  unfold YAP_V2_compaction_policy_validate in Hv. destruct (_ || _) eqn:T in Hv; [done|]. btests.
  pose proof (select_range_spec m (Some p) Hz) as HS. cbn [run_minimum] in HS.
  unfold YAP_V2_MIN_AUTO_COMPACT_SMALL_SEGMENTS in *. specialize (HS ltac:(lia)).
  assert (longest_run (small_segment_bytes p) (segments m) (longest_small (small_segment_bytes p) (segments m) 0 0)) as HL.
  { apply (longest_small_spec _ (segments m) []).
    - split; [by exists [], []|]. intros a b [-> ->]%eq_sym%app_nil _. done.
    - split; [by exists [], [], []|]. intros a b c [_ [-> ->]%app_nil]%eq_sym%app_nil _. done. }
  destruct (select_range m (Some p)) as [[first count]|e|]; [| |done].
  - eexists _, _. split_and!; [done| |exact HL]. destruct HS as (i&n&_&_&_&[[Hc _]|(?&_)]); [|done].
    rewrite negb_true_iff, Z.eqb_neq. split; [|intros [-> _]; done]. intros He. split; [|eauto].
    match goal with H : _ \/ _ |- _ => destruct H as [H|H] end; btests; lia.
  - destruct HS as (->&_&HN). eexists _, _. split_and!; [done| |exact HL]. split; [done|]. intros (_&i&n&Hc). by destruct (HN i n).
Qed.

Lemma needs_compaction_correct_witness : exists needed k,
  YAP_V2_manifest_needs_compaction (Some sized_manifest) (Some YAP_V2_compaction_policy_init) = Ok (needed, k) /\
  longest_run (small_segment_bytes YAP_V2_compaction_policy_init) (segments sized_manifest) k.
Proof.
  destruct (needs_compaction_correct sized_manifest YAP_V2_compaction_policy_init sized_manifest_ok ltac:(vm_compute; reflexivity))
    as (needed&k&H&_&HL). exists needed, k. split; [exact H|exact HL].
Defined.
