(* ===== verification/Vectors.v ===== *)
(** The vectors file of a segment (src/src/components/yappo_vector_v2.c): the embedding of every
    passage, written by [YAP_V2_vectors_write] and mapped by [YAP_V2_vector_segment_open].

    A [float] is its 32-bit pattern.  Whether bytes are valid UTF-8 is decided by a macro of ICU
    and is a parameter.  The payload has a fixed header of 40 bytes, the model identifier, a
    record of 16 bytes per passage, the identifiers of the passages, zero padding to a multiple
    of four bytes, and the vectors. *)
From Stdlib Require Import String.
From S2P Require Import Prelude Words Types Crc Header SlotTable Manifest FileSystem Reader Buffer Segment Verify CString Config.
#[local] Open Scope io_scope.
#[local] Open Scope Z_scope.

Definition VECTOR_PAYLOAD_VERSION : Z := 1.
Definition VECTOR_FIXED_HEADER_BYTES : Z := 40.
Definition VECTOR_RECORD_BYTES : Z := 16.
Definition sizeof_float : Z := 4.
Definition sizeof_vector_entry : Z := 32.

Record YAP_VECTOR_ENTRY := VectorEntry {
  vec_id : YAP_V2_BYTES_VIEW;
  vec_values : list Z;
  vec_dimensions : Z }.

Record YAP_EMBEDDING_RESULT := EmbeddingResult {
  emb_values : option (list Z);
  emb_input_count : Z;
  emb_dimensions : Z }.

(** [vs_map] is the mapping, [None] for the null pointer. *)
Record YAP_V2_VECTOR_SEGMENT := VectorSegment {
  vs_map : option bytes;
  vs_generation : Z;
  vs_metric : Z;
  vs_dimensions : Z;
  vs_model_id : bytes;
  vs_entries : list YAP_VECTOR_ENTRY }.

Definition YAP_V2_vector_segment_init : YAP_V2_VECTOR_SEGMENT := VectorSegment None 0 0 0 (zero_string 256) [].

(** [isfinite] of a [float]: the exponent is not all ones. *)
Definition float_finite (bits : Z) : bool := negb (Z.land (Z.shiftr bits 23) 255 =? 255).

(** [strcpy] of the string in [a] into a zeroed array of [n] bytes. *)
Definition strcpy_zeroed (n : Z) (a : bytes) : bytes := c_str a ++ zero_string (n - zlen (c_str a)).

Section vectors.
Context {A : Allocator} (garbage : nat -> Z) (utf8_valid : bytes -> bool).

(** ** Writing *)
Definition append (buffer : YAP_V2_BUFFER) (data : option bytes) (len_ : Z) : result YAP_V2_BUFFER :=
  if SIZE_MAX - buffer_len buffer <? len_ then Err YAP_V2_OUT_OF_RANGE
  else
  let needed := buffer_len buffer + len_ in
  if YAP_V2_MAX_SEGMENT_PAYLOAD_BYTES <? needed then Err YAP_V2_SEGMENT_CAPACITY_EXCEEDED
  else
  let capacity := zlen (buffer_data buffer) in
  buffer ← (if capacity <? needed then
            next ← next_buffer_capacity 32 (if capacity =? 0 then 256 else capacity) needed;
            if alloc_ok next then Ok (Buffer (realloc_block garbage (buffer_data buffer) next) (buffer_len buffer))
            else Err YAP_V2_ALLOCATION_FAILED
          else Ok buffer);
  if 0 <? len_ then
  match data with
  | None => Fault
  | Some m =>
      bs ← load_bytes m 0 len_;
      block ← store_bytes (buffer_data buffer) (buffer_len buffer) bs;
      Ok (Buffer block needed)
  end
  else Ok (Buffer (buffer_data buffer) needed).

Definition append_u32 (v : Z) (b : YAP_V2_BUFFER) : result YAP_V2_BUFFER := append b (Some (put_u32_le v)) 4.
Definition append_u64 (v : Z) (b : YAP_V2_BUFFER) : result YAP_V2_BUFFER := append b (Some (put_u64_le v)) 8.
Definition append_float (bits : Z) (b : YAP_V2_BUFFER) : result YAP_V2_BUFFER := append b (Some (put_u32_le bits)) 4.

(** Whether one of the passages before has the same identifier. *)
Fixpoint id_taken (seen : list YAP_V2_PASSAGE_VIEW) (id_ : YAP_V2_BYTES_VIEW) : result bool :=
  match seen with
  | [] => Ok false
  | p :: seen =>
    if len (passage_id p) =? len id_ then
      match data (passage_id p), data id_ with
      | Some a, Some b =>
          x ← load_bytes a 0 (len id_); y ← load_bytes b 0 (len id_);
          if bool_decide (x = y) then Ok true else id_taken seen id_
      | _, _ => Fault
      end
    else id_taken seen id_
  end.

(** The values of one vector: [n] of them from index [i]. *)
Fixpoint append_values (values : list Z) (i : Z) (n : nat) (vectors : YAP_V2_BUFFER) : result YAP_V2_BUFFER :=
  match n with
  | O => Ok vectors
  | S n =>
    value ← elem_at values i;
    if negb (float_finite value) then Err YAP_V2_INVALID_FORMAT
    else vectors ← append_float value vectors; append_values values (i + 1) n vectors
  end.

(** One turn of the loop over the passages. *)
Definition append_passage (values : list Z) (dimensions : Z) (seen : list YAP_V2_PASSAGE_VIEW) (p : YAP_V2_PASSAGE_VIEW)
  (records ids vectors : YAP_V2_BUFFER) : result (YAP_V2_BUFFER * YAP_V2_BUFFER * YAP_V2_BUFFER) :=
  match YAP_V2_passage_validate (Some p) with
  | Fault => Fault
  | Err _ => Err YAP_V2_INVALID_FORMAT
  | Ok _ =>
    if UINT32_MAX <? len (passage_id p) then Err YAP_V2_INVALID_FORMAT
    else
    taken ← id_taken seen (passage_id p);
    if (taken : bool) then Err YAP_V2_DUPLICATE
    else
    records ← append_u64 (buffer_len ids) records;
    records ← append_u32 (len (passage_id p)) records;
    records ← append_u32 0 records;
    ids ← append ids (data (passage_id p)) (len (passage_id p));
    vectors ← append_values values (zlen seen * dimensions) (Z.to_nat dimensions) vectors;
    Ok (records, ids, vectors)
  end.

Fixpoint append_passages (values : list Z) (dimensions : Z) (seen passages : list YAP_V2_PASSAGE_VIEW)
  (records ids vectors : YAP_V2_BUFFER) : result (YAP_V2_BUFFER * YAP_V2_BUFFER * YAP_V2_BUFFER) :=
  match passages with
  | [] => Ok (records, ids, vectors)
  | p :: passages =>
    '(records, ids, vectors) ← append_passage values dimensions seen p records ids vectors;
    append_passages values dimensions (seen ++ [p]) passages records ids vectors
  end.

(** [while (payload.len % sizeof(float) != 0) append(&payload, "\0", 1)]: at most three turns. *)
Fixpoint append_padding (fuel : nat) (payload : YAP_V2_BUFFER) : result YAP_V2_BUFFER :=
  if buffer_len payload mod sizeof_float =? 0 then Ok payload
  else match fuel with
     | O => Fault
     | S fuel => payload ← append payload (Some [0]) 1; append_padding fuel payload
     end.

(** The payload that [YAP_V2_vectors_write] assembles. *)
Definition vectors_payload (config : YAP_V2_CONFIG) (passages : list YAP_V2_PASSAGE_VIEW) (values : list Z)
  : result YAP_V2_BUFFER :=
  model_len ← strlen (vector_model_id config);
  payload ← append_u32 VECTOR_PAYLOAD_VERSION buffer_zero;
  payload ← append_u32 (vector_metric config) payload;
  payload ← append_u32 (vector_dimensions config) payload;
  payload ← append_u32 (u32 model_len) payload;
  payload ← append_u64 (zlen passages) payload;
  payload ← append_u64 0 payload;
  payload ← append_u64 0 payload;
  payload ← append payload (Some (vector_model_id config)) model_len;
  '(records, ids, vectors) ← append_passages values (vector_dimensions config) [] passages buffer_zero buffer_zero buffer_zero;
  payload ← append payload (Some (buffer_data records)) (buffer_len records);
  payload ← append payload (Some (buffer_data ids)) (buffer_len ids);
  payload ← append_padding 3 payload;
  let vector_offset := buffer_len payload in
  payload ← append payload (Some (buffer_data vectors)) (buffer_len vectors);
  block ← store_bytes (buffer_data payload) 24 (put_u64_le (buffer_len ids));
  block ← store_bytes block 32 (put_u64_le vector_offset);
  Ok (Buffer block (buffer_len payload)).

(** The header of the file. *)
Definition vectors_header (generation : Z) (payload : YAP_V2_BUFFER) : result bytes :=
  bs ← load_bytes (buffer_data payload) 0 (buffer_len payload);
  YAP_V2_file_header_encode
  (Some (FileHeader YAP_V2_FORMAT_VERSION YAP_V2_FILE_HEADER_BYTES YAP_V2_FILE_VECTORS generation (buffer_len payload) (crc32c bs)))
  (Some (garbage <$> seq 0 32)).

Definition VECTORS_NAME : bytes := text "vectors.yap2"%string.

(** The calls between [fopen] and [fclose]. *)
Definition write_vectors_tmp (i : nat) (header payload : bytes) : io bool :=
  let* written := (let* ok := fwrite i header in
                 if negb ok then io_ret false
                 else let* ok := fwrite i payload in
                      if negb ok then io_ret false
                      else let* ok := fflush i in
                           if negb ok then io_ret false else fsync i) in
  let* closed := fclose i in
  io_ret (written && closed).

Definition vectors_write_atomic (p : path) (generation : Z) (payload : YAP_V2_BUFFER) (records : Z)
  : io (result YAP_V2_COMPONENT_DESCRIPTOR) :=
  match vectors_header generation payload with
  | Err e => io_ret (Err e)
  | Fault => io_ret Fault
  | Ok header =>
    if negb (alloc_ok (zlen p + 5)) then io_ret (Err YAP_V2_ALLOCATION_FAILED)
    else
    let* file := fopen_wb (tmp_path p) in
    match file with
    | None => io_ret (Err YAP_V2_IO_ERROR)
    | Some i =>
        let* written := write_vectors_tmp i header (take (Z.to_nat (buffer_len payload)) (buffer_data payload)) in
        let* installed := (if negb written then io_ret false
                           else let* renamed := rename (tmp_path p) p in
                                if negb renamed then io_ret false
                                else if negb (alloc_ok (zlen p + 1)) then io_ret false else fsync_parent p) in
        if negb installed then do* unlink (tmp_path p) in io_ret (Err YAP_V2_IO_ERROR)
        else
        let* digest := YAP_V2_file_sha256 garbage (Some p) in
        io_ret ('(checksum, bytes_) ← digest;
                Ok (ComponentDescriptor VECTORS_NAME YAP_V2_FILE_VECTORS records bytes_ checksum))
    end
  end.

Definition YAP_V2_vectors_write (p : option path) (generation : Z) (config : option YAP_V2_CONFIG)
  (passages : list YAP_V2_PASSAGE_VIEW) (embeddings : option YAP_EMBEDDING_RESULT)
  : io (result YAP_V2_COMPONENT_DESCRIPTOR) :=
  match p, config, embeddings with
  | Some p, Some c, Some e =>
    match YAP_V2_config_validate config with
    | Fault => io_ret Fault
    | Err _ => io_ret (Err YAP_V2_INVALID_ARGUMENT)
    | Ok _ =>
        if (vector_metric c =? YAP_V2_VECTOR_DISABLED) || negb (emb_input_count e =? zlen passages) ||
           negb (emb_dimensions e =? vector_dimensions c) || ((0 <? zlen passages) && bool_decide (emb_values e = None))
        then io_ret (Err YAP_V2_INVALID_ARGUMENT)
        else
        match vectors_payload c passages (default [] (emb_values e)) with
        | Ok payload => vectors_write_atomic p generation payload (zlen passages)
        | Err e => io_ret (Err e)
        | Fault => io_ret Fault
        end
    end
  | _, _, _ => io_ret (Err YAP_V2_INVALID_ARGUMENT)
  end.

(** ** Reading *)
Fixpoint read_floats (m : bytes) (p : Z) (n : nat) : result (list Z) :=
  match n with
  | O => Ok []
  | S n => x ← get_u32_le m p; xs ← read_floats m (p + sizeof_float) n; Ok (x :: xs)
  end.

Definition entry_taken (seen : list YAP_VECTOR_ENTRY) (bs : bytes) : bool :=
  existsb (fun e => bool_decide (view_bytes (vec_id e) = bs)) seen.

(** The loop over the records: the entries and the end of their identifiers; [None] when it
    leaves for [done] with [status] unchanged. *)
Fixpoint read_entries (payload : bytes) (records_offset ids_offset ids_bytes vector_offset dimensions : Z) (n : nat)
  (i expected_id_offset : Z) (seen : list YAP_VECTOR_ENTRY) : result (option (list YAP_VECTOR_ENTRY * Z)) :=
  match n with
  | O => Ok (Some (seen, expected_id_offset))
  | S n =>
    let record := records_offset + i * VECTOR_RECORD_BYTES in
    id_offset ← get_u64_le payload record;
    id_len ← get_u32_le payload (record + 8);
    reserved ← get_u32_le payload (record + 12);
    if negb (reserved =? 0) || (id_len =? 0) || (YAP_V2_MAX_IDENTIFIER_BYTES <? id_len) ||
       negb (id_offset =? expected_id_offset) || (ids_bytes <? id_offset) || (ids_bytes - id_offset <? id_len)
    then Ok None
    else
    bs ← load_bytes payload (ids_offset + id_offset) id_len;
    if bool_decide (0 ∈ bs) || negb (utf8_valid bs) then Ok None
    else
    values ← read_floats payload (vector_offset + i * dimensions * sizeof_float) (Z.to_nat dimensions);
    if negb (forallb float_finite values) || entry_taken seen bs then Ok None
    else read_entries payload records_offset ids_offset ids_bytes vector_offset dimensions n (i + 1)
           (expected_id_offset + id_len) (seen ++ [VectorEntry (BytesView (Some bs) id_len) values dimensions])
  end.

(** The checks on the payload.  [Ok None] stands for the jumps to [done] that leave [status]
    as it is, which is [YAP_V2_OK] since the header was decoded. *)
Definition parse_vectors (config : YAP_V2_CONFIG) (payload : bytes) : result (option (list YAP_VECTOR_ENTRY)) :=
  if zlen payload <? VECTOR_FIXED_HEADER_BYTES then Ok None
  else
  version ← get_u32_le payload 0;
  if negb (version =? VECTOR_PAYLOAD_VERSION) then Ok None
  else
  metric ← get_u32_le payload 4;
  dimensions ← get_u32_le payload 8;
  if negb (metric =? vector_metric config) || negb (dimensions =? vector_dimensions config) then Err YAP_V2_CONFLICT
  else
  model_len ← get_u32_le payload 12;
  count ← get_u64_le payload 16;
  ids_bytes ← get_u64_le payload 24;
  vector_offset ← get_u64_le payload 32;
  if (SIZE_MAX <? count) || (SIZE_MAX <? ids_bytes) || (SIZE_MAX <? vector_offset) then Ok None
  else
  expected_len ← strlen (vector_model_id config);
  if negb (model_len =? expected_len) || (zlen payload - VECTOR_FIXED_HEADER_BYTES <? model_len) then Err YAP_V2_CONFLICT
  else
  model ← load_bytes payload VECTOR_FIXED_HEADER_BYTES model_len;
  expected ← load_bytes (vector_model_id config) 0 model_len;
  if negb (bool_decide (model = expected)) then Err YAP_V2_CONFLICT
  else if (YAP_V2_MAX_SEGMENT_PASSAGES <? count) || (SIZE_MAX / VECTOR_RECORD_BYTES <? count) ||
        (SIZE_MAX / (dimensions * sizeof_float) <? count) then Ok None
  else
  let records_offset := VECTOR_FIXED_HEADER_BYTES + model_len in
  if (zlen payload <? records_offset) || (zlen payload - records_offset <? count * VECTOR_RECORD_BYTES) then Ok None
  else
  let ids_offset := records_offset + count * VECTOR_RECORD_BYTES in
  let vectors_bytes := u64 (count * dimensions * sizeof_float) in
  if (zlen payload - ids_offset <? ids_bytes) || (vector_offset <? ids_offset + ids_bytes) ||
   negb (vector_offset mod sizeof_float =? 0) || (zlen payload <? vector_offset) ||
   negb (vectors_bytes =? zlen payload - vector_offset) then Ok None
  else
  padding ← load_bytes payload (ids_offset + ids_bytes) (vector_offset - (ids_offset + ids_bytes));
  if negb (forallb (fun b => b =? 0) padding) then Ok None
  else if negb (alloc_ok (count * sizeof_vector_entry)) && (0 <? count) then Err YAP_V2_ALLOCATION_FAILED
  else
  r ← read_entries payload records_offset ids_offset ids_bytes vector_offset dimensions (Z.to_nat count) 0 0 [];
  match r with
  | None => Ok None
  | Some (entries, end_) => if end_ =? ids_bytes then Ok (Some entries) else Ok None
  end.

(** A mapped file: its generation and entries. *)
Definition parse_vectors_file (config : YAP_V2_CONFIG) (expected_generation : Z) (file : bytes)
  : result (option (Z * list YAP_VECTOR_ENTRY)) :=
  match YAP_V2_file_header_decode (Some file) with
  | Fault => Fault
  | Err _ => Err YAP_V2_INVALID_FORMAT
  | Ok header =>
    if negb (file_type header =? YAP_V2_FILE_VECTORS) ||
       (negb (expected_generation =? 0) && negb (generation header =? expected_generation)) ||
       negb (payload_bytes header =? zlen file - YAP_V2_FILE_HEADER_BYTES)
    then Err YAP_V2_INVALID_FORMAT
    else
    payload ← load_bytes file YAP_V2_FILE_HEADER_BYTES (payload_bytes header);
    if negb (crc32c payload =? payload_crc32c header) then Err YAP_V2_CHECKSUM_MISMATCH
    else
    r ← parse_vectors config payload;
    Ok (option_map (pair (generation header)) r)
  end.

(** The segment and the outcome for the mapped bytes. *)
Definition install_vectors (c : YAP_V2_CONFIG) (expected_generation : Z) (bs : bytes) (segment : YAP_V2_VECTOR_SEGMENT)
  : YAP_V2_VECTOR_SEGMENT * result unit :=
  match parse_vectors_file c expected_generation bs with
  | Fault => (segment, Fault)
  | Err e => (segment, Err e)
  | Ok None => (segment, Ok tt)
  | Ok (Some (g, entries)) =>
    (VectorSegment (Some bs) g (vector_metric c) (vector_dimensions c) (strcpy_zeroed 256 (vector_model_id c)) entries, Ok tt)
  end.

(** The segment it leaves, with the outcome; [component] is not asked for by any caller. *)
Definition YAP_V2_vector_segment_open (p : option path) (expected_generation : Z) (config : option YAP_V2_CONFIG)
  (segment : YAP_V2_VECTOR_SEGMENT) : io (YAP_V2_VECTOR_SEGMENT * result unit) :=
  match p, config with
  | Some p, Some c =>
    match YAP_V2_config_validate config with
    | Fault => io_ret (segment, Fault)
    | Err _ => io_ret (segment, Err YAP_V2_INVALID_ARGUMENT)
    | Ok _ =>
        if vector_metric c =? YAP_V2_VECTOR_DISABLED then io_ret (segment, Err YAP_V2_INVALID_ARGUMENT)
        else
        let* file := fopen_rb p in
        match file with
        | None => io_ret (segment, Err YAP_V2_INVALID_FORMAT)
        | Some bs =>
            let* stat := fstat in
            if negb stat || (zlen bs <? YAP_V2_FILE_HEADER_BYTES) || (SIZE_MAX <? zlen bs)
            then do* fclose_rb in io_ret (segment, Err YAP_V2_INVALID_FORMAT)
            else
            let* mapped := mmap in
            if negb mapped then do* fclose_rb in io_ret (segment, Err YAP_V2_IO_ERROR)
            else
            do* fclose_rb in
            io_ret (install_vectors c expected_generation bs segment)
        end
    end
  | _, _ => io_ret (segment, Err YAP_V2_INVALID_ARGUMENT)
  end.
End vectors.

(** ** Reading is safe *)
Section sound.
Context {A : Allocator} (utf8_valid : bytes -> bool).

(** What a reader may rely on. *)
Record entry_valid (dimensions : Z) (e : YAP_VECTOR_ENTRY) : Prop := {
  ev_id : view_wf (vec_id e) /\ (data (vec_id e) <> None) /\ (1 <= len (vec_id e) <= YAP_V2_MAX_IDENTIFIER_BYTES);
  ev_text : (0 ∉ view_bytes (vec_id e)) /\ utf8_valid (view_bytes (vec_id e)) = true;
  ev_dimensions : vec_dimensions e = dimensions /\ zlen (vec_values e) = dimensions;
  ev_finite : Forall (fun v => is_u32 v /\ float_finite v = true) (vec_values e) }.

Definition entry_ids (entries : list YAP_VECTOR_ENTRY) : list bytes := (fun e => view_bytes (vec_id e)) <$> entries.

Lemma read_floats_spec m : bytes_ok m -> forall n p, 0 <= p -> p + 4 * Z.of_nat n <= zlen m ->
  exists xs, read_floats m p n = Ok xs /\ length xs = n /\ Forall is_u32 xs.
Proof.
  intros Hm n. induction n as [|n IH]; intros p Hp Hl; cbn [read_floats]; [by exists []|].
  rewrite get_u32_le_dec, outcome_bind_ok by (done || lia).
  destruct (IH (p + sizeof_float)) as (xs&->&<-&Hxs); [unfold sizeof_float; lia..|].
  eexists. split; [done|]. split; [done|]. constructor; [apply le_dec_u32; (done || lia)|done].
Qed.

Lemma entry_taken_spec seen bs : entry_taken seen bs = bool_decide (bs ∈ entry_ids seen).
Proof.
  apply eq_bool_prop_intro. rewrite !Is_true_true, bool_decide_eq_true. unfold entry_taken, entry_ids.
  rewrite existsb_exists, list_elem_of_fmap. split.
  - intros (e&He&<-%bool_decide_eq_true). exists e. split; [done|by apply list_elem_of_In].
  - intros (e&->&He). exists e. split; [by apply list_elem_of_In|]. by rewrite bool_decide_true.
Qed.

Lemma read_entries_sound payload ro io_ ib vo dims : bytes_ok payload -> 0 <= ro -> 0 <= io_ -> 0 <= vo -> 1 <= dims ->
  io_ + ib <= zlen payload -> forall n i expected seen, 0 <= i -> 0 <= expected ->
  ro + (i + Z.of_nat n) * 16 <= zlen payload -> vo + (i + Z.of_nat n) * dims * 4 <= zlen payload ->
  Forall (entry_valid dims) seen -> NoDup (entry_ids seen) ->
  match read_entries utf8_valid payload ro io_ ib vo dims n i expected seen with
  | Ok None => True
  | Ok (Some (entries, _)) => Forall (entry_valid dims) entries /\ NoDup (entry_ids entries) /\ length entries = (length seen + n)%nat
  | _ => False
  end.
Proof.
  intros Hp Hro Hio Hvo Hd Hib. induction n as [|n IH]; intros i ex seen Hi He Hr Hv Hs Hn; cbn [read_entries].
  { split_and!; [done|done|lia]. }
  unfold VECTOR_RECORD_BYTES, sizeof_float. rewrite get_u64_le_dec, outcome_bind_ok by (done || lia).
  rewrite (get_u32_le_dec _ (_ + 8)), outcome_bind_ok by (done || lia).
  rewrite (get_u32_le_dec _ (_ + 12)), outcome_bind_ok by (done || lia).
  pose proof (le_dec_u64 payload (ro + i * 16) Hp ltac:(lia) ltac:(lia)) as H1.
  pose proof (le_dec_u32 payload (ro + i * 16 + 8) Hp ltac:(lia) ltac:(lia)) as H2. unfold is_u64, is_u32 in *.
  set (id_offset := le_dec _) in *. set (id_len := le_dec (slice payload (_ + 8) 4)) in *.
  destruct (_ || _) eqn:T; [done|]. btests.
  rewrite load_bytes_slice, outcome_bind_ok by lia. cbv zeta.
  assert (zlen (slice payload (io_ + id_offset) id_len) = id_len) as Hz by (apply zlen_slice; lia).
  set (bs := slice payload _ id_len) in *. destruct (_ || _) eqn:T; [done|]. btests.
  destruct (read_floats_spec payload Hp (Z.to_nat dims) (vo + i * dims * 4)) as (xs&->&Hxs&Hu); [lia|nia|]. rewrite outcome_bind_ok.
  destruct (_ || _) eqn:T'; [done|]. rewrite orb_false_iff, negb_false_iff, entry_taken_spec, bool_decide_eq_false in T'.
  destruct T' as [Hfin Hnew].
  assert (view_bytes (BytesView (Some bs) id_len) = bs) as Hvb.
  { unfold view_bytes; cbn. rewrite <- Hz. apply slice_all. }
  assert (entry_valid dims (VectorEntry (BytesView (Some bs) id_len) xs dims)) as Hev.
  { split; cbn [vec_id vec_values vec_dimensions]; rewrite ?Hvb; [|done|unfold zlen; lia|].
  - unfold view_wf, SIZE_MAX; cbn [data len]. split_and!; first [done|lia|by apply Forall_slice].
  - apply Forall_lookup_2. intros k x Hx. split; [by eapply Forall_lookup_1|].
    apply (proj1 (forallb_forall _ _) Hfin), list_elem_of_In. by eapply list_elem_of_lookup_2. }
  assert (Forall (entry_valid dims) (seen ++ [VectorEntry (BytesView (Some bs) id_len) xs dims])) as Hs' by (by apply Forall_app_2; [|constructor]).
  assert (NoDup (entry_ids (seen ++ [VectorEntry (BytesView (Some bs) id_len) xs dims]))) as Hn'.
  { unfold entry_ids in *. rewrite fmap_app. cbn [fmap list_fmap vec_id]. rewrite Hvb. apply NoDup_app. split_and!; [done| |apply NoDup_singleton].
  intros x Hx ->%list_elem_of_singleton. done. }
  specialize (IH (i + 1) (ex + id_len) _ ltac:(lia) ltac:(lia) ltac:(lia) ltac:(nia) Hs' Hn').
  rewrite length_app in IH. cbn [length] in IH. by rewrite <- Nat.add_assoc in IH.
Qed.

Lemma config_valid_vectors c : config_wf c -> config_valid c -> vector_metric c <> YAP_V2_VECTOR_DISABLED ->
  1 <= vector_dimensions c <= YAP_V2_MAX_VECTOR_DIMENSIONS /\ holds_string (vector_model_id c) (c_str (vector_model_id c)) /\
  zlen (c_str (vector_model_id c)) <= 255.
Proof.
  intros Hw (_&_&_&Hm&Hv&_) Hd. destruct Hv as [[? _]|(_&?&_)]; [done|]. pose proof (holds_c_str _ Hm) as Hh.
  pose proof (holds_length _ _ Hh). destruct (wf_model c Hw) as [Hl _]. unfold zlen in *. split_and!; try done; lia.
Qed.

Ltac case_test T := lazymatch goal with |- match (if ?b then _ else _) with _ => _ end => destruct b eqn:T end.

Lemma parse_vectors_sound c payload : config_wf c -> config_valid c -> vector_metric c <> YAP_V2_VECTOR_DISABLED ->
  bytes_ok payload -> zlen payload < 2 ^ 64 ->
  match parse_vectors utf8_valid c payload with
  | Ok (Some entries) => Forall (entry_valid (vector_dimensions c)) entries /\ NoDup (entry_ids entries)
  | Ok None => True
  | Err e => e = YAP_V2_CONFLICT \/ e = YAP_V2_ALLOCATION_FAILED /\ exists n, alloc_ok n = false
  | Fault => False
  end.
Proof.
  intros Hw Hc Hd Hp Hl. destruct (config_valid_vectors c Hw Hc Hd) as (Hdim&Hh&Hm255).
  unfold parse_vectors, VECTOR_FIXED_HEADER_BYTES. destruct (Z.ltb_spec (zlen payload) 40) as [|H40]; [done|].
  pose proof (fun q Hq Hq' => le_dec_u32 payload q Hp Hq Hq') as U32. pose proof (fun q Hq Hq' => le_dec_u64 payload q Hp Hq Hq') as U64.
  unfold is_u32, is_u64 in *.
  rewrite (get_u32_le_dec _ 0), outcome_bind_ok by (done || lia). case_test T0; [done|].
  rewrite (get_u32_le_dec _ 4), outcome_bind_ok by (done || lia). rewrite (get_u32_le_dec _ 8), outcome_bind_ok by (done || lia).
  set (dims := le_dec (slice payload 8 4)). case_test T; [by left|]. btests.
  rewrite (get_u32_le_dec _ 12), outcome_bind_ok by (done || lia). rewrite (get_u64_le_dec _ 16), outcome_bind_ok by (done || lia).
  rewrite (get_u64_le_dec _ 24), outcome_bind_ok by (done || lia). rewrite (get_u64_le_dec _ 32), outcome_bind_ok by (done || lia).
  pose proof (U32 12 ltac:(lia) ltac:(lia)). pose proof (U64 16 ltac:(lia) ltac:(lia)).
  pose proof (U64 24 ltac:(lia) ltac:(lia)). pose proof (U64 32 ltac:(lia) ltac:(lia)).
  set (ml := le_dec (slice payload 12 4)) in *. set (count := le_dec (slice payload 16 8)) in *.
  set (ib := le_dec (slice payload 24 8)) in *. set (vo := le_dec (slice payload 32 8)) in *.
  case_test T1; [done|]. rewrite (strlen_spec _ _ Hh), outcome_bind_ok.
  case_test T2; [by left|]. btests. 
  rewrite (load_bytes_slice payload 40), outcome_bind_ok by lia.
  rewrite (load_bytes_slice (vector_model_id c)), outcome_bind_ok by (pose proof (holds_length _ _ Hh); unfold zlen in *; lia).
  case_test T6; [by left|]. case_test T3; [done|]. cbv zeta. case_test T4; [done|].
  case_test T5; [done|]. btests.
  unfold VECTOR_RECORD_BYTES, sizeof_float in *.
  assert (YAP_V2_MAX_SEGMENT_PASSAGES <= 2 ^ 32) by done. assert (YAP_V2_MAX_VECTOR_DIMENSIONS <= 2 ^ 16) by done.
  rewrite u64_small in * by nia.
  rewrite load_bytes_slice, outcome_bind_ok by lia. case_test T7; [done|].
  case_test T8; [right; split; [done|]; eexists; apply andb_prop in T8 as [T8 _]; by apply negb_true_iff in T8|].
  pose proof (read_entries_sound payload (40 + ml) (40 + ml + count * 16) ib vo dims Hp ltac:(lia) ltac:(lia) ltac:(lia) ltac:(lia) ltac:(lia)
  (Z.to_nat count) 0 0 [] ltac:(lia) ltac:(lia) ltac:(lia) ltac:(nia) ltac:(constructor) ltac:(constructor)) as HR.
  destruct (read_entries _ _ _ _ _ _ _ _ _ _ _) as [[[entries e]|]| |]; [|done..]. rewrite outcome_bind_ok.
  destruct (e =? ib); [|done]. destruct HR as (HR&HN&_). split; [|done]. by replace (vector_dimensions c) with dims.
Qed.
End sound.

(** ** Writing *)
Section write_proofs.
Context {A : Allocator} (garbage : nat -> Z).

(** [append] does what the buffer of the segment writer does. *)
Lemma append_eq b data n : buffer_ok b -> 0 <= n <= 2 ^ 63 -> data <> None \/ n = 0 ->
  append garbage b data n = buffer_append garbage b data n.
Proof.
  intros Hb Hn Hd. pose proof Hb as (Hl&Hm&_). unfold append, buffer_append, buffer_reserve, SIZE_MAX.
  unfold YAP_V2_MAX_SEGMENT_PAYLOAD_BYTES in *. rewrite u64_small by lia.
  rewrite (proj2 (Z.ltb_ge _ n)) by lia. cbv zeta.
  assert ((0 <? n) && bool_decide (data = None) = false) as ->.
  { destruct Hd as [Hd| ->]; [by rewrite bool_decide_false, andb_false_r|done]. }
  destruct (Z.ltb_spec (256 * 1024 * 1024) (buffer_len b + n)), (Z.ltb_spec (256 * 1024 * 1024 - buffer_len b) n); [done|lia..|].
  destruct (Z.leb_spec (buffer_len b + n) (zlen (buffer_data b))), (Z.ltb_spec (zlen (buffer_data b)) (buffer_len b + n)); try lia.
  all: rewrite ?outcome_bind_ok.
  - destruct (Z.ltb_spec 0 n); [done|]. replace n with 0 by lia. rewrite Z.add_0_r. by destruct b.
  - destruct (next_buffer_capacity _ _ _) as [c| |]; [|done..]. rewrite !outcome_bind_ok. destruct (alloc_ok c); [|done].
  rewrite !outcome_bind_ok. cbn [buffer_data buffer_len]. destruct (Z.ltb_spec 0 n); [done|].
  replace n with 0 by lia. by rewrite Z.add_0_r.
Qed.

Lemma append_appends m n : 0 <= n <= 2 ^ 63 -> n <= zlen m -> appends (fun b => append garbage b (Some m) n) (slice m 0 n).
Proof.
  intros Hn Hm b Hb. rewrite append_eq by (done || by left).
  apply (buffer_append_appends garbage m n); [unfold SIZE_MAX; lia|done|done].
Qed.

Lemma append_whole_appends bs : zlen bs <= 2 ^ 63 -> appends (fun b => append garbage b (Some bs) (zlen bs)) bs.
Proof.
  intros H. pose proof (append_appends bs (zlen bs)) as HA. rewrite slice_all in HA. apply HA; [pose_zlen; lia|lia].
Qed.

Lemma append_word32 v : appends (append_u32 garbage v) (put_u32_le v).
Proof. by apply (append_whole_appends (put_u32_le v)). Qed.
Lemma append_word64 v : appends (append_u64 garbage v) (put_u64_le v).
Proof. by apply (append_whole_appends (put_u64_le v)). Qed.
Lemma append_float_word v : appends (append_float garbage v) (put_u32_le v).
Proof. by apply (append_whole_appends (put_u32_le v)). Qed.

Lemma append_view v : view_wf v -> view_bytes v <> [] -> len v <= 2 ^ 63 -> len v = zlen (view_bytes v) ->
  appends (fun b => append garbage b (data v) (len v)) (view_bytes v).
Proof.
  intros [Hw Hd] Hn Hl Hz. unfold view_bytes in *. destruct (data v) as [m|] eqn:D; [|done].
  apply append_appends; [lia|apply Hd].
Qed.

Definition floats_image (values : list Z) : bytes := concat (put_u32_le <$> values).

Lemma append_values_spec values n : forall i b, buffer_ok b -> 0 <= i -> i + Z.of_nat n <= zlen values ->
  match append_values garbage values i n b with
  | Ok b' => buffer_ok b' /\ content b' = content b ++ floats_image (slice values i (Z.of_nat n)) /\
    Forall (fun v => float_finite v = true) (slice values i (Z.of_nat n))
  | Err _ => True
  | Fault => False
  end.
Proof.
  induction n as [|n IH]; intros i b Hb Hi Hl; cbn [append_values].
  { unfold slice, floats_image; cbn. by rewrite app_nil_r. }
  destruct (lookup_lt_is_Some_2 values (Z.to_nat i)) as [v Hv]; [unfold zlen in *; lia|].
  assert (elem_at (E:=YAP_V2_STATUS) values i = Ok v) as -> by (rewrite <- (Z2Nat.id i) by lia; by apply elem_at_lookup).
  rewrite outcome_bind_ok.
  destruct (float_finite v) eqn:Hf; cbn [negb]; [|done].
  pose proof (appends_wrote _ _ b (append_float_word v) Hb) as HW. destruct (append_float garbage v b) as [b1| |]; [|done..].
  rewrite outcome_bind_ok. destruct HW as [Hb1 Hc1]. specialize (IH (i + 1) b1 Hb1 ltac:(lia) ltac:(lia)).
  destruct (append_values _ _ _ n _) as [b2| |]; [|done..]. destruct IH as (Hb2&Hc2&HF).
  assert (slice values i (Z.of_nat (S n)) = v :: slice values (i + 1) (Z.of_nat n)) as ->.
  { unfold slice. rewrite (drop_S _ _ _ Hv). replace (Z.to_nat (i + 1)) with (S (Z.to_nat i)) by lia.
  replace (Z.to_nat (Z.of_nat (S n))) with (S (Z.to_nat (Z.of_nat n))) by lia. done. }
  split_and!; [done| |by constructor]. rewrite Hc2, Hc1. unfold floats_image. cbn [fmap list_fmap concat]. by rewrite <- (assoc_L (++)).
Qed.

(** *** The image of a payload *)
Fixpoint records_image (off : Z) (ids : list bytes) : bytes :=
  match ids with
  | [] => []
  | id_ :: ids => put_u64_le off ++ put_u32_le (zlen id_) ++ put_u32_le 0 ++ records_image (off + zlen id_) ids
  end.

Definition padding_of (n : Z) : bytes := replicate (Z.to_nat ((- n) mod 4)) 0.

Definition vectors_image (c : YAP_V2_CONFIG) (ids : list bytes) (values : list Z) : bytes :=
  let model := c_str (vector_model_id c) in
  let head := zlen model + 16 * zlen ids + zlen (concat ids) in
  put_u32_le VECTOR_PAYLOAD_VERSION ++ put_u32_le (vector_metric c) ++ put_u32_le (vector_dimensions c) ++ put_u32_le (zlen model) ++
  put_u64_le (zlen ids) ++ put_u64_le (zlen (concat ids)) ++ put_u64_le (40 + head + zlen (padding_of head)) ++
  model ++ records_image 0 ids ++ concat ids ++ padding_of head ++ floats_image values.

Lemma id_taken_spec seen p : pass_ok p -> Forall pass_ok seen ->
  id_taken seen (passage_id p) = Ok (bool_decide (view_bytes (passage_id p) ∈ passage_ids seen)).
Proof.
  intros Hp. pose proof (pass_ok_id p Hp) as [Hw Hl].
  assert (forall q, pass_ok q -> data (passage_id q) <> None) as Hsome.
  { intros q [_ ((Hr&_)&_)] E. specialize (Hr eq_refl). unfold view_bytes in Hr. by rewrite E in Hr. }
  pose proof (Hsome p Hp) as Hdp.
  induction 1 as [|q seen Hq _ IH]; cbn [id_taken]; [done|]. pose proof (pass_ok_id q Hq) as [Hwq Hlq].
  assert (view_bytes (passage_id p) ∈ passage_ids (q :: seen) <->
  view_bytes (passage_id q) = view_bytes (passage_id p) \/ view_bytes (passage_id p) ∈ passage_ids seen) as Hiff.
  { unfold passage_ids. rewrite fmap_cons, elem_of_cons. naive_solver. }
  rewrite (bool_decide_ext _ _ Hiff). specialize (Hsome q Hq). destruct (Z.eqb_spec (len (passage_id q)) (len (passage_id p))) as [E|N].
  - unfold view_bytes in *. destruct (data (passage_id q)) as [a|] eqn:Da; [|done]. destruct (data (passage_id p)) as [b|] eqn:Db; [|done].
  destruct Hw as [? Hw], Hwq as [? Hwq]. rewrite Da in Hwq. rewrite Db in Hw.
  rewrite !load_bytes_slice, !outcome_bind_ok by lia. rewrite E.
  destruct (bool_decide_reflect (slice a 0 (len (passage_id p)) = slice b 0 (len (passage_id p)))); [by rewrite bool_decide_true by tauto|].
  rewrite IH. f_equal. apply bool_decide_ext. tauto.
  - rewrite IH. f_equal. apply bool_decide_ext. split; [tauto|]. intros [Heq|?]; [|done]. rewrite Hl, Hlq, Heq in N. done.
Qed.

Definition passages_written (values : list Z) (dims : Z) (seen passages : list YAP_V2_PASSAGE_VIEW)
  (records ids vectors records' ids' vectors' : YAP_V2_BUFFER) : Prop :=
  buffer_ok records' /\ buffer_ok ids' /\ buffer_ok vectors' /\
  content records' = content records ++ records_image (zlen (content ids)) (passage_ids passages) /\
  content ids' = content ids ++ concat (passage_ids passages) /\
  content vectors' = content vectors ++ floats_image (slice values (zlen seen * dims) (zlen passages * dims)) /\
  Forall (fun v => float_finite v = true) (slice values (zlen seen * dims) (zlen passages * dims)) /\
  Forall pass_ok passages /\ NoDup (passage_ids (seen ++ passages)).

Lemma append_passage_spec values dims seen p records ids vectors : 1 <= dims -> passage_wf p -> Forall pass_ok seen ->
  buffer_ok records -> buffer_ok ids -> buffer_ok vectors -> (zlen seen + 1) * dims <= zlen values -> NoDup (passage_ids seen) ->
  match append_passage garbage values dims seen p records ids vectors with
  | Ok (records', ids', vectors') => passages_written values dims seen [p] records ids vectors records' ids' vectors'
  | Err _ => True
  | Fault => False
  end.
Proof.
  intros Hdim Hp Hs Hbr Hbi Hbv Hvals HN. unfold append_passage. pose proof (passage_validate_safe p Hp) as HS.
  pose proof (passage_validate_iff p Hp) as HV. destruct (YAP_V2_passage_validate (Some p)) as [[]| |]; [|done..].
  assert (pass_ok p) as Hok by (split; [done|by apply HV]). destruct (Z.ltb_spec UINT32_MAX (len (passage_id p))) as [|Hu]; [done|].
  rewrite id_taken_spec, outcome_bind_ok by done. case_bool_decide as Hin; [done|].
  pose proof (pass_ok_id p Hok) as [Hw Hl]. pose proof Hok as [_ ((Hne&_)&_)]. specialize (Hne eq_refl).
  pose proof (appends_wrote _ _ _ (append_word64 (buffer_len ids)) Hbr) as W1. destruct (append_u64 _ _ records) as [r1| |]; [|done..].
  destruct W1 as [Hb1 Hc1]. rewrite outcome_bind_ok.
  pose proof (appends_wrote _ _ _ (append_word32 (len (passage_id p))) Hb1) as W2. destruct (append_u32 _ _ r1) as [r2| |]; [|done..].
  destruct W2 as [Hb2 Hc2]. rewrite outcome_bind_ok.
  pose proof (appends_wrote _ _ _ (append_word32 0) Hb2) as W3. destruct (append_u32 _ _ r2) as [r3| |]; [|done..].
  destruct W3 as [Hb3 Hc3]. rewrite outcome_bind_ok.
  pose proof (appends_wrote _ _ _ (append_view (passage_id p) Hw Hne ltac:(unfold UINT32_MAX in Hu; lia) Hl) Hbi) as W4. cbv beta in W4.
  destruct (append _ ids _ _) as [i1| |]; [|done..]. destruct W4 as [Hb4 Hc4]. rewrite outcome_bind_ok.
  pose proof (append_values_spec values (Z.to_nat dims) (zlen seen * dims) vectors Hbv ltac:(pose_zlen; nia) ltac:(lia)) as W5.
  destruct (append_values _ _ _ _ _) as [v1| |]; [|done..]. destruct W5 as (Hb5&Hc5&HF5). rewrite outcome_bind_ok.
  unfold passages_written. rewrite Z2Nat.id in * by lia. change (zlen [p]) with 1. rewrite Z.mul_1_l. split_and!; try done.
  - rewrite Hc3, Hc2, Hc1, zlen_content by done. unfold passage_ids; cbn [fmap list_fmap records_image]. rewrite Hl.
  by rewrite app_nil_r, <- !(assoc_L (++)).
  - unfold passage_ids; cbn. by rewrite app_nil_r.
  - by constructor.
  - unfold passage_ids in *. rewrite fmap_app. apply NoDup_app. split_and!; [done| |apply NoDup_singleton].
  intros x Hx ->%list_elem_of_singleton. done.
Qed.

Lemma zlen_records_image ids : forall off, zlen (records_image off ids) = 16 * zlen ids.
Proof. induction ids as [|x ids IH]; intros off; cbn [records_image]; [done|]. rewrite !zlen_app, IH, zlen_cons. zl. Qed.

Lemma zlen_passage_ids passages : zlen (passage_ids passages) = zlen passages.
Proof. unfold passage_ids. apply zlen_fmap. Qed.

(** The padding depends on the length modulo four. *)
Lemma padding_of_40 n : padding_of (40 + n) = padding_of n.
Proof. unfold padding_of. replace (- (40 + n)) with (- n + (-10) * 4) by lia. by rewrite Z.mod_add by lia. Qed.

Lemma records_image_app off a b : records_image off (a ++ b) = records_image off a ++ records_image (off + zlen (concat a)) b.
Proof.
  revert off; induction a as [|x a IH]; intros off; cbn [app records_image concat]; [by rewrite zlen_nil, Z.add_0_r|].
  rewrite IH, zlen_app, Z.add_assoc. by rewrite <- !(assoc_L (++)).
Qed.

Lemma slice_split_at {X} (l : list X) p n m : 0 <= p -> 0 <= n -> 0 <= m -> slice l p (n + m) = slice l p n ++ slice l (p + n) m.
Proof.
  intros. unfold slice. rewrite Z2Nat.inj_add, Z2Nat.inj_add, <- drop_drop by lia. by rewrite take_take_drop.
Qed.

Lemma append_passages_spec values dims passages : 1 <= dims -> Forall passage_wf passages ->
  forall seen records ids vectors, Forall pass_ok seen -> NoDup (passage_ids seen) ->
  buffer_ok records -> buffer_ok ids -> buffer_ok vectors -> (zlen seen + zlen passages) * dims <= zlen values ->
  match append_passages garbage values dims seen passages records ids vectors with
  | Ok (records', ids', vectors') => passages_written values dims seen passages records ids vectors records' ids' vectors'
  | Err _ => True
  | Fault => False
  end.
Proof.
  intros Hdim. induction 1 as [|p passages Hp Hps IH]; intros seen r i v Hs HN Hr Hi Hv Hl; cbn [append_passages].
  { unfold passages_written. change (zlen (@nil YAP_V2_PASSAGE_VIEW)) with 0. rewrite Z.mul_0_l. unfold slice, passage_ids, floats_image. cbn.
  rewrite !app_nil_r. split_and!; done. }
  rewrite zlen_cons in Hl. pose_zlen.
  pose proof (append_passage_spec values dims seen p r i v Hdim Hp Hs Hr Hi Hv ltac:(nia) HN) as HP.
  destruct (append_passage _ _ _ _ _ _ _ _) as [[[r1 i1] v1]| |]; [|done..]. rewrite outcome_bind_ok.
  destruct HP as (Hb1&Hb2&Hb3&E1&E2&E3&F1&Ok1&N1).
  assert (Forall pass_ok (seen ++ [p])) as Hs' by (by apply Forall_app_2).
  specialize (IH (seen ++ [p]) r1 i1 v1 Hs' N1 Hb1 Hb2 Hb3 ltac:(rewrite zlen_app; change (zlen [p]) with 1; lia)).
  destruct (append_passages _ _ _ _ _ _ _ _) as [[[r2 i2] v2]| |]; [|done..].
  destruct IH as (Hb1'&Hb2'&Hb3'&E1'&E2'&E3'&F1'&Ok1'&N1'). unfold passages_written.
  assert (slice values (zlen seen * dims) (zlen (p :: passages) * dims) =
  slice values (zlen seen * dims) (zlen [p] * dims) ++ slice values (zlen (seen ++ [p]) * dims) (zlen passages * dims)) as Hsl.
  { rewrite zlen_app, zlen_cons. change (zlen [p]) with 1. rewrite Z.mul_add_distr_r, slice_split_at by nia. do 2 f_equal. lia. }
  rewrite Hsl. assert (passage_ids (p :: passages) = passage_ids [p] ++ passage_ids passages) as -> by done. split_and!; try done.
  - rewrite E1', E1, E2, records_image_app, zlen_app. by rewrite <- (assoc_L (++)).
  - rewrite E2', E2, concat_app. by rewrite <- (assoc_L (++)).
  - rewrite E3', E3. unfold floats_image. by rewrite fmap_app, concat_app, <- (assoc_L (++)).
  - by apply Forall_app_2.
  - apply Forall_cons in Ok1 as [? _]. by constructor.
  - by rewrite <- (assoc_L (++)) in N1'.
Qed.

Lemma append_padding_spec fuel b : buffer_ok b -> (- buffer_len b) mod 4 <= Z.of_nat fuel ->
  wrote b (append_padding garbage fuel b) (padding_of (buffer_len b)).
Proof.
  revert b; induction fuel as [|fuel IH]; intros b Hb Hf; cbn [append_padding]; unfold sizeof_float, padding_of.
  all: pose proof (Z.mod_pos_bound (- buffer_len b) 4 ltac:(lia)) as HM; destruct (Z.eqb_spec (buffer_len b mod 4) 0) as [E|N].
  1, 3: rewrite (Z.mod_opp_l_z _ 4) by lia; cbn; by rewrite app_nil_r.
  { rewrite Z.mod_opp_l_nz in * by lia. pose proof (Z.mod_pos_bound (buffer_len b) 4 ltac:(lia)). lia. }
  pose proof (appends_wrote _ _ b (append_whole_appends [0] ltac:(done)) Hb) as HW. change (zlen [0]) with 1 in HW. cbv beta in HW.
  destruct (append garbage b (Some [0]) 1) as [b1| |]; [|done..]. rewrite outcome_bind_ok. destruct HW as [Hb1 Hc1].
  assert (buffer_len b1 = buffer_len b + 1) as Hl1 by (rewrite <- !zlen_content, Hc1, zlen_app by done; done).
  assert ((- buffer_len b) mod 4 = (- buffer_len b1) mod 4 + 1) as HE.
  { rewrite Hl1, Z.mod_opp_l_nz in * by lia. pose proof (Z.mod_pos_bound (buffer_len b) 4 ltac:(lia)).
  destruct (decide (buffer_len b mod 4 = 3)) as [E3|N3].
  - rewrite Z.mod_opp_l_z; [lia|lia|]. rewrite <- Z.add_mod_idemp_l, E3 by lia. done.
  - rewrite Z.mod_opp_l_nz; rewrite <- ?(Z.add_mod_idemp_l (buffer_len b)) by lia; [|lia|]; rewrite (Z.mod_small (buffer_len b mod 4 + 1)) by lia; lia. }
  specialize (IH b1 Hb1 ltac:(lia)). destruct (append_padding _ _ _) as [b2| |]; [|done..]. destruct IH as [Hb2 Hc2]. split; [done|].
  rewrite Hc2, Hc1, <- (assoc_L (++)). f_equal. unfold padding_of. rewrite HE.
  pose proof (Z.mod_pos_bound (- buffer_len b1) 4 ltac:(lia)). by rewrite Z.add_comm, Z2Nat.inj_add by lia.
Qed.

(** The payload that is written is the image of the identifiers and vectors, in the order of the
    passages. *)
Definition payload_written (c : YAP_V2_CONFIG) (passages : list YAP_V2_PASSAGE_VIEW) (values : list Z) (r : result YAP_V2_BUFFER) : Prop :=
  match r with
  | Ok b => buffer_ok b /\ content b = vectors_image c (passage_ids passages) values /\
    Forall pass_ok passages /\ NoDup (passage_ids passages) /\ Forall (fun v => float_finite v = true) values
  | Err _ => True
  | Fault => False
  end.

Lemma vectors_payload_spec c passages values : config_wf c -> config_valid c -> vector_metric c <> YAP_V2_VECTOR_DISABLED ->
  Forall passage_wf passages -> zlen values = zlen passages * vector_dimensions c ->
  payload_written c passages values (vectors_payload garbage c passages values).
Proof.
  intros Hw Hc Hd Hp Hv. destruct (config_valid_vectors c Hw Hc Hd) as (Hdim&Hh&Hm255). unfold vectors_payload.
  rewrite (strlen_spec _ _ Hh), outcome_bind_ok. set (model := c_str (vector_model_id c)) in *.
  pose proof (zlen_nonneg model). assert (u32 (zlen model) = zlen model) as -> by (apply Z.mod_small; lia).
  assert (slice (vector_model_id c) 0 (zlen model) = model) as Hsm.
  { destruct Hh as (tl&->&_). unfold slice, zlen. rewrite drop_0. by apply take_app_length'; lia. }
  pose proof (holds_length _ _ Hh) as Hml.
  pose proof (append_appends (vector_model_id c) (zlen model) ltac:(lia) ltac:(unfold zlen; lia)) as Hmodel. rewrite Hsm in Hmodel.
  eapply wrote_bind; [apply appends_wrote; [apply append_word32|apply buffer_zero_ok]|done|intros b1 Hb1 E1].
  eapply wrote_bind; [apply appends_wrote; [apply append_word32|done]|done|intros b2 Hb2 E2].
  eapply wrote_bind; [apply appends_wrote; [apply append_word32|done]|done|intros b3 Hb3 E3].
  eapply wrote_bind; [apply appends_wrote; [apply append_word32|done]|done|intros b4 Hb4 E4].
  eapply wrote_bind; [apply appends_wrote; [apply append_word64|done]|done|intros b5 Hb5 E5].
  eapply wrote_bind; [apply appends_wrote; [apply append_word64|done]|done|intros b6 Hb6 E6].
  eapply wrote_bind; [apply appends_wrote; [apply append_word64|done]|done|intros b7 Hb7 E7].
  eapply wrote_bind; [apply (appends_wrote _ _ _ Hmodel); done|done|intros b8 Hb8 E8].
  pose proof (append_passages_spec values (vector_dimensions c) passages ltac:(lia) Hp [] buffer_zero buffer_zero buffer_zero
  ltac:(constructor) ltac:(constructor) buffer_zero_ok buffer_zero_ok buffer_zero_ok ltac:(change (zlen (@nil YAP_V2_PASSAGE_VIEW)) with 0; lia)) as HP.
  destruct (append_passages _ _ _ _ _ _ _ _) as [[[r i] v]| |]; [|done..]. rewrite outcome_bind_ok.
  destruct HP as (Hbr&Hbi&Hbv&Er&Ei&Ev&Hfin&Hok&HN). cbn [app] in HN.
  change (zlen (@nil YAP_V2_PASSAGE_VIEW) * vector_dimensions c) with 0 in *. rewrite <- Hv, slice_all in Ev, Hfin.
  change (content buffer_zero) with (@nil Z) in *. cbn [app] in Er, Ei, Ev. change (zlen (@nil Z)) with 0 in Er.
  assert (forall b, buffer_ok b -> slice (buffer_data b) 0 (buffer_len b) = content b) as Hslice by (intros; unfold slice; by rewrite drop_0).
  assert (forall b, buffer_ok b -> appends (fun b' => append garbage b' (Some (buffer_data b)) (buffer_len b)) (content b)) as Hcopy.
  { intros b Hb. rewrite <- (Hslice b Hb). destruct Hb as (?&?&?). unfold YAP_V2_MAX_SEGMENT_PAYLOAD_BYTES in *. apply append_appends; lia. }
  eapply wrote_bind; [apply (appends_wrote _ _ _ (Hcopy r Hbr)); done|done|intros b9 Hb9 E9].
  eapply wrote_bind; [apply (appends_wrote _ _ _ (Hcopy i Hbi)); done|done|intros b10 Hb10 E10].
  eapply wrote_bind; [apply (append_padding_spec 3 b10); [done|]|done|intros b11 Hb11 E11].
  { pose proof (Z.mod_pos_bound (- buffer_len b10) 4 ltac:(lia)). lia. }
  cbv zeta. eapply wrote_bind; [apply (appends_wrote _ _ _ (Hcopy v Hbv)); done|done|intros b12 Hb12 E12].
  set (head := zlen model + 16 * zlen (passage_ids passages) + zlen (concat (passage_ids passages))).
  assert (zlen (content b10) = 40 + head) as Hhead.
  { rewrite E10, E9, E8, E7, E6, E5, E4, E3, E2, E1, Er, Ei, !zlen_app, zlen_records_image. zl. }
  assert (padding_of (buffer_len b10) = padding_of head) as Hpad by (by rewrite <- zlen_content, Hhead, padding_of_40 by done).
  assert (buffer_len b11 = 40 + head + zlen (padding_of head)) as H11 by (rewrite <- zlen_content, E11, zlen_app, Hhead, Hpad by done; lia).
  assert (buffer_len i = zlen (concat (passage_ids passages))) as Hi by (by rewrite <- zlen_content, Ei by done).
  rewrite Hpad in E11. rewrite Er in E9. rewrite Ei in E10. rewrite Ev in E12. rewrite H11, Hi. clear Hpad H11 Hi Hhead.
  assert (content b12 = (put_u32_le VECTOR_PAYLOAD_VERSION ++ put_u32_le (vector_metric c) ++ put_u32_le (vector_dimensions c) ++
  put_u32_le (zlen model) ++ put_u64_le (zlen passages)) ++ put_u64_le 0 ++ put_u64_le 0 ++ model ++
  records_image 0 (passage_ids passages) ++ concat (passage_ids passages) ++ padding_of head ++ floats_image values) as EA.
  { rewrite E12, E11, E10, E9, E8, E7, E6, E5, E4, E3, E2, E1. by rewrite <- !(assoc_L (++)). }
  destruct (store_content b12 _ _ _ (put_u64_le (zlen (concat (passage_ids passages)))) 24 Hb12 EA ltac:(done) ltac:(done)) as (bl1&->&Hk1&Ek1).
  rewrite outcome_bind_ok.
  rewrite (assoc_L (++) (put_u32_le _ ++ _)) in Ek1.
  destruct (store_content _ _ _ _ (put_u64_le (40 + head + zlen (padding_of head))) 32 Hk1 Ek1 ltac:(done) ltac:(done)) as (bl2&Es2&Hk2&Ek2).
  cbn [buffer_data buffer_len] in Es2, Hk2, Ek2. rewrite Es2, outcome_bind_ok. split_and!; try done.
  rewrite Ek2. unfold vectors_image. rewrite zlen_passage_ids. fold model. rewrite <- !(assoc_L (++)). unfold head. by rewrite zlen_passage_ids.
Qed.
End write_proofs.

(** ** Reading what was written *)
Section roundtrip.
Context {A : Allocator} (utf8_valid : bytes -> bool).

(** An identifier that the reader takes. *)
Definition id_readable (bs : bytes) : Prop :=
  bytes_ok bs /\ 1 <= zlen bs <= YAP_V2_MAX_IDENTIFIER_BYTES /\ (0 ∉ bs) /\ utf8_valid bs = true.

Fixpoint entries_of (dims : Z) (ids : list bytes) (values : list Z) : list YAP_VECTOR_ENTRY :=
  match ids with
  | [] => []
  | id_ :: ids => VectorEntry (mk_view id_) (take (Z.to_nat dims) values) dims :: entries_of dims ids (drop (Z.to_nat dims) values)
  end.

Lemma zlen_floats_image values : zlen (floats_image values) = 4 * zlen values.
Proof.
  unfold floats_image. induction values as [|v values IH]; cbn [fmap list_fmap concat]; [done|]. rewrite zlen_app, IH, zlen_cons. zl.
Qed.

Lemma floats_image_ok values : bytes_ok (floats_image values).
Proof.
  unfold floats_image. induction values as [|v values IH]; cbn [fmap list_fmap concat]; [done|]. apply Forall_app_2; [apply put_u32_le_ok|done].
Qed.

Lemma read_floats_image values : Forall is_u32 values -> forall pre post p, bytes_ok (pre ++ post) -> p = zlen pre ->
  read_floats (pre ++ floats_image values ++ post) p (length values) = Ok values.
Proof.
  unfold floats_image. induction 1 as [|v values Hv _ IH]; intros pre post p Hb ->; cbn [fmap list_fmap concat length read_floats]; [done|].
  apply Forall_app in Hb as [Hpre Hpost]. rewrite <- (assoc_L (++)).
  rewrite get_u32_le_app, outcome_bind_ok; [|apply Forall_app_2; [done|apply Forall_app_2; [apply floats_image_ok|done]]|done|done].
  unfold sizeof_float. rewrite (assoc_L (++)).
  rewrite (IH (pre ++ put_u32_le v) post), outcome_bind_ok; [done| |by rewrite zlen_app].
  repeat apply Forall_app_2; (done || apply put_u32_le_ok).
Qed.

Lemma entries_of_ids dims ids values : Forall id_readable ids -> entry_ids (entries_of dims ids values) = ids.
Proof.
  intros H. revert values. induction H as [|i ids Hi _ IH]; intros values; cbn; [done|]. unfold entry_ids in IH. rewrite IH. f_equal.
  unfold view_bytes, mk_view; cbn. apply slice_all.
Qed.

(** The three regions of the payload behind the [i] entries that were read. *)
Lemma read_entries_image payload ro io_ ib vo dims ids : 1 <= dims -> bytes_ok payload -> Forall id_readable ids ->
  forall values i off seen a1 c1 a2 c2 a3 c3,
  zlen values = zlen ids * dims -> Forall is_u32 values -> Forall (fun v => float_finite v = true) values ->
  0 <= off -> off + zlen (concat ids) <= ib -> ib < 2 ^ 64 -> NoDup (entry_ids seen ++ ids) ->
  payload = a1 ++ records_image off ids ++ c1 -> zlen a1 = ro + i * 16 ->
  payload = a2 ++ concat ids ++ c2 -> zlen a2 = io_ + off ->
  payload = a3 ++ floats_image values ++ c3 -> zlen a3 = vo + i * dims * 4 ->
  read_entries utf8_valid payload ro io_ ib vo dims (length ids) i off seen =
  Ok (Some (seen ++ entries_of dims ids values, off + zlen (concat ids))).
Proof.
  intros Hdim Hp. induction 1 as [|id_ ids (Hb&Hl&H0&Hu) Hids IH]; intros values i off seen a1 c1 a2 c2 a3 c3 Hv Hvu Hvf Hoff Hib Hib64 HN E1 Z1 E2 Z2 E3 Z3;
  cbn [length read_entries entries_of].
  { cbn. by rewrite zlen_nil, Z.add_0_r, app_nil_r. }
  cbn [records_image concat] in *. rewrite zlen_app in *. rewrite zlen_cons in Hv. pose_zlen.
  assert (length (take (Z.to_nat dims) values) = Z.to_nat dims) as Htake by (rewrite length_take; unfold zlen in *; nia).
  unfold VECTOR_RECORD_BYTES, sizeof_float. rewrite <- !(assoc_L (++)) in E1.
  assert (get_u64_le (E:=YAP_V2_STATUS) payload (ro + i * 16) = Ok off) as ->.
  { rewrite E1 in Hp |- *. apply get_u64_le_app; [|unfold is_u64; lia|lia]. apply Forall_app in Hp as [? Hp]. apply Forall_app in Hp as [_ Hp]. by apply Forall_app_2. }
  assert (get_u32_le (E:=YAP_V2_STATUS) payload (ro + i * 16 + 8) = Ok (zlen id_)) as ->.
  { rewrite E1 in Hp |- *. rewrite (assoc_L (++) a1) in Hp |- *. apply Forall_app in Hp as [? Hp]. apply Forall_app in Hp as [_ Hp].
  apply get_u32_le_app; [by apply Forall_app_2|unfold is_u32; unfold YAP_V2_MAX_IDENTIFIER_BYTES in *; lia|rewrite zlen_app, zlen_put_u64_le; lia]. }
  assert (get_u32_le (E:=YAP_V2_STATUS) payload (ro + i * 16 + 12) = Ok 0) as ->.
  { rewrite E1 in Hp |- *. rewrite (assoc_L (++) a1), (assoc_L (++) (a1 ++ _)) in Hp |- *. apply Forall_app in Hp as [? Hp]. apply Forall_app in Hp as [_ Hp].
  apply get_u32_le_app; [by apply Forall_app_2|done|rewrite !zlen_app, zlen_put_u64_le, zlen_put_u32_le; lia]. }
  rewrite !outcome_bind_ok.
  assert (negb (0 =? 0) || (zlen id_ =? 0) || (YAP_V2_MAX_IDENTIFIER_BYTES <? zlen id_) || negb (off =? off) || (ib <? off) || (ib - off <? zlen id_) = false) as ->.
  { rewrite Z.eqb_refl, !orb_false_iff, Z.eqb_neq, !Z.ltb_ge. split_and!; (done || lia). }
  assert (load_bytes (E:=YAP_V2_STATUS) payload (io_ + off) (zlen id_) = Ok id_) as ->.
  { rewrite E2, <- (assoc_L (++)). apply load_bytes_app; lia. }
  rewrite outcome_bind_ok, bool_decide_false, Hu by done. cbn [negb orb].
  rewrite <- (take_drop (Z.to_nat dims) values) in E3. unfold floats_image in E3. rewrite fmap_app, concat_app, <- (assoc_L (++)) in E3. fold (floats_image (take (Z.to_nat dims) values)) (floats_image (drop (Z.to_nat dims) values)) in E3.
  assert (read_floats payload (vo + i * dims * 4) (Z.to_nat dims) = Ok (take (Z.to_nat dims) values)) as ->.
  { rewrite <- Htake at 1. rewrite E3 in Hp |- *. apply read_floats_image; [by apply Forall_take| |lia].
  apply Forall_app in Hp as [? Hp]. apply Forall_app in Hp as [_ Hp]. by apply Forall_app_2. }
  rewrite outcome_bind_ok, entry_taken_spec.
  assert (forallb float_finite (take (Z.to_nat dims) values) = true) as ->.
  { apply forallb_forall. intros x Hx%list_elem_of_In. apply (proj1 (Forall_forall _ _) Hvf). by eapply subseteq_take. }
  apply NoDup_app in HN as (HN1&HN2&HN3). apply NoDup_cons in HN3 as [HN3 HN4].
  rewrite bool_decide_false by (intros Hin; apply (HN2 _ Hin); by left). cbn [negb orb].
  set (e := VectorEntry (BytesView (Some id_) (zlen id_)) (take (Z.to_nat dims) values) dims).
  rewrite (IH (drop (Z.to_nat dims) values) (i + 1) (off + zlen id_) (seen ++ [e])
  (a1 ++ put_u64_le off ++ put_u32_le (zlen id_) ++ put_u32_le 0) c1 (a2 ++ id_) c2 (a3 ++ floats_image (take (Z.to_nat dims) values)) c3).
  - rewrite <- (assoc_L (++)), Z.add_assoc. done.
  - rewrite zlen_drop. lia.
  - by apply Forall_drop.
  - by apply Forall_drop.
  - lia.
  - lia.
  - done.
  - assert (entry_ids (seen ++ [e]) = entry_ids seen ++ [id_]) as ->.
  { unfold entry_ids. rewrite fmap_app. f_equal. cbn. unfold view_bytes; cbn. by rewrite slice_all. }
  rewrite <- (assoc_L (++)). apply NoDup_app. split_and!; [done|exact HN2|]. by constructor.
  - rewrite E1. by rewrite <- !(assoc_L (++)).
  - rewrite !zlen_app, zlen_put_u64_le, !zlen_put_u32_le. lia.
  - rewrite E2. by rewrite <- !(assoc_L (++)).
  - rewrite zlen_app. lia.
  - rewrite E3. by rewrite <- !(assoc_L (++)).
  - rewrite zlen_app, zlen_floats_image. unfold zlen at 2. rewrite Htake. lia.
Qed.

Lemma records_image_ok ids : forall off, bytes_ok (records_image off ids).
Proof. induction ids as [|x ids IH]; intros off; cbn [records_image]; [done|]. repeat apply Forall_app_2; auto with bytes. Qed.

Lemma padding_of_ok n : bytes_ok (padding_of n).
Proof. unfold padding_of. by apply Forall_replicate. Qed.

Lemma padding_aligned n : 0 <= n -> (n + zlen (padding_of n)) mod 4 = 0.
Proof.
  intros H. unfold padding_of. rewrite zlen_replicate. pose proof (Z.mod_pos_bound (- n) 4 ltac:(lia)). rewrite Z2Nat.id by lia.
  rewrite Z.add_mod_idemp_r, Z.add_opp_diag_r by lia. done.
Qed.

Lemma config_model_ok c : config_wf c -> config_valid c -> bytes_ok (c_str (vector_model_id c)).
Proof.
  intros Hw (_&_&_&Hm&_). destruct (wf_model c Hw) as [_ Hb]. apply holds_c_str in Hm as (tl&E&_). rewrite E in Hb. by apply Forall_app in Hb as [? _].
Qed.

Lemma passage_ids_readable passages : Forall pass_ok passages -> Forall (fun p => utf8_valid (view_bytes (passage_id p)) = true) passages ->
  Forall id_readable (passage_ids passages).
Proof.
  intros Hok Hutf. unfold passage_ids. apply Forall_fmap, Forall_forall. intros p Hin. pose proof (proj1 (Forall_forall _ _) Hok p Hin) as Hpo.
  pose proof (proj1 (Forall_forall _ _) Hutf p Hin) as Hu. pose proof (pass_ok_id p Hpo) as [Hwv Hlv]. destruct Hpo as [_ ((Hne&Hle&_&H0)&_)].
  unfold compose. specialize (Hne eq_refl). unfold id_readable. split_and!; [by apply view_bytes_ok| |lia|done|done].
  destruct (view_bytes (passage_id p)); [done|zl].
Qed.

Lemma vectors_image_ok c ids values : config_wf c -> config_valid c -> Forall id_readable ids -> bytes_ok (vectors_image c ids values).
Proof.
  intros Hw Hc Hids. unfold vectors_image. cbv zeta. repeat apply Forall_app_2; auto using records_image_ok, padding_of_ok, floats_image_ok, config_model_ok with bytes.
  clear -Hids. induction Hids as [|i ids Hi _ IH]; cbn [concat]; [done|]. apply Forall_app_2; [apply Hi|done].
Qed.

Lemma parse_vectors_image c ids values : config_wf c -> config_valid c -> vector_metric c <> YAP_V2_VECTOR_DISABLED ->
  Forall id_readable ids -> NoDup ids -> zlen ids <= YAP_V2_MAX_SEGMENT_PASSAGES -> zlen values = zlen ids * vector_dimensions c ->
  Forall is_u32 values -> Forall (fun v => float_finite v = true) values -> zlen (vectors_image c ids values) < 2 ^ 63 ->
  parse_vectors utf8_valid c (vectors_image c ids values) = Ok (Some (entries_of (vector_dimensions c) ids values)) \/
  parse_vectors utf8_valid c (vectors_image c ids values) = Err YAP_V2_ALLOCATION_FAILED /\ exists n, alloc_ok n = false.
Proof.
  intros Hw Hc Hd Hids HN Hmax Hv Hvu Hvf Hz. destruct (config_valid_vectors c Hw Hc Hd) as (Hdim&Hh&Hm255).
  pose proof (vectors_image_ok c ids values Hw Hc Hids) as Hok. destruct (wf_numbers c Hw) as (_&_&_&Hdu&Hmu&_).
  revert Hok Hz. unfold vectors_image, parse_vectors, VECTOR_FIXED_HEADER_BYTES. cbv zeta. set (model := c_str (vector_model_id c)) in *.
  set (head := zlen model + 16 * zlen ids + zlen (concat ids)). set (pad := padding_of head). set (vo := 40 + head + zlen pad).
  intros Hok Hz. set (payload := put_u32_le VECTOR_PAYLOAD_VERSION ++ _) in *.
  assert (zlen payload = vo + 4 * zlen values) as Hlen.
  { unfold payload, vo, head. rewrite !zlen_app, zlen_records_image, zlen_floats_image. zl. }
  rewrite Hlen in *. pose_zlen. pose proof (zlen_nonneg (concat ids)). pose proof (zlen_nonneg pad).
  set (k32 := put_u32_le VECTOR_PAYLOAD_VERSION ++ put_u32_le (vector_metric c) ++ put_u32_le (vector_dimensions c) ++ put_u32_le (zlen model)).
  set (k40 := k32 ++ put_u64_le (zlen ids) ++ put_u64_le (zlen (concat ids)) ++ put_u64_le vo).
  assert (zlen k40 = 40) as Hk40 by done.
  rewrite (proj2 (Z.ltb_ge _ 40)) by lia.
  rewrite (word32_at payload [] _ _ 0 Hok eq_refl), outcome_bind_ok by done. cbn [negb Z.eqb].
  rewrite (word32_at payload (put_u32_le VECTOR_PAYLOAD_VERSION) _ _ 4 Hok eq_refl), outcome_bind_ok by done.
  rewrite (word32_at payload (put_u32_le VECTOR_PAYLOAD_VERSION ++ put_u32_le (vector_metric c)) _ _ 8 Hok eq_refl), outcome_bind_ok by done.
  rewrite !Z.eqb_refl. cbn [negb orb].
  rewrite (word32_at payload (put_u32_le VECTOR_PAYLOAD_VERSION ++ put_u32_le (vector_metric c) ++ put_u32_le (vector_dimensions c)) _ _ 12 Hok eq_refl),
  outcome_bind_ok by (done || (unfold is_u32; lia)).
  assert (head < 2 ^ 63 /\ zlen (concat ids) < 2 ^ 63 /\ vo < 2 ^ 63 /\ 0 <= vo /\ zlen ids < 2 ^ 63) as (?&?&?&?&?) by lia.
  rewrite (word64_at payload k32 _ _ 16 Hok eq_refl), outcome_bind_ok by (done || (unfold is_u64; lia)).
  rewrite (word64_at payload (k32 ++ put_u64_le (zlen ids)) _ _ 24 Hok eq_refl), outcome_bind_ok by (done || (unfold is_u64; lia)).
  rewrite (word64_at payload (k32 ++ put_u64_le (zlen ids) ++ put_u64_le (zlen (concat ids))) _ _ 32 Hok eq_refl), outcome_bind_ok by (done || (unfold is_u64; lia)).
  unfold SIZE_MAX. rewrite !(proj2 (Z.ltb_ge (2 ^ 64 - 1) _)) by lia. cbn [orb].
  rewrite (strlen_spec _ _ Hh), outcome_bind_ok, Z.eqb_refl, (proj2 (Z.ltb_ge _ (zlen model))) by lia. cbn [negb orb].
  assert (payload = k40 ++ model ++ records_image 0 ids ++ concat ids ++ pad ++ floats_image values) as Epay by done.
  assert (load_bytes (E:=YAP_V2_STATUS) payload 40 (zlen model) = Ok model) as -> by (rewrite Epay; by apply load_bytes_app).
  assert (load_bytes (E:=YAP_V2_STATUS) (vector_model_id c) 0 (zlen model) = Ok model) as -> by (destruct Hh as (tl&->&_); by apply load_bytes_app0).
  rewrite !outcome_bind_ok, bool_decide_true by done. cbn [negb]. unfold VECTOR_RECORD_BYTES, sizeof_float.
  unfold YAP_V2_MAX_SEGMENT_PASSAGES, YAP_V2_MAX_VECTOR_DIMENSIONS in *.
  assert (zlen ids <= (2 ^ 64 - 1) / (vector_dimensions c * 4)) by (apply Z.div_le_lower_bound; nia).
  assert (zlen ids <= (2 ^ 64 - 1) / 16) by (apply Z.div_le_lower_bound; lia).
  rewrite !(proj2 (Z.ltb_ge _ (zlen ids))) by lia. cbn [orb].
  rewrite (proj2 (Z.ltb_ge _ (40 + zlen model))), (proj2 (Z.ltb_ge _ (zlen ids * 16))) by lia. cbn [orb].
  rewrite (proj2 (Z.ltb_ge _ (zlen (concat ids)))), (proj2 (Z.ltb_ge vo _)), (proj2 (Z.ltb_ge _ vo)) by lia.
  assert (vo mod 4 = 0) as ->.
  { unfold vo. replace (40 + head + zlen pad) with (head + zlen pad + 10 * 4) by lia. rewrite Z.mod_add by lia. apply padding_aligned. lia. }
  rewrite u64_small, (proj2 (Z.eqb_eq (zlen ids * vector_dimensions c * 4) _)) by nia. cbn [negb orb Z.eqb].
  assert (load_bytes (E:=YAP_V2_STATUS) payload (40 + zlen model + zlen ids * 16 + zlen (concat ids))
  (vo - (40 + zlen model + zlen ids * 16 + zlen (concat ids))) = Ok pad) as ->.
  { replace payload with ((k40 ++ model ++ records_image 0 ids ++ concat ids) ++ pad ++ floats_image values)
    by (rewrite Epay; by rewrite <- !(assoc_L (++))).
  apply load_bytes_app; rewrite ?zlen_app, ?zlen_records_image, ?Hk40; unfold vo, head; lia. }
  rewrite outcome_bind_ok. assert (forallb (fun b => b =? 0) pad = true) as -> by (unfold pad, padding_of; by induction (Z.to_nat _)).
  change (negb true) with false. cbv iota.
  destruct (negb (alloc_ok (zlen ids * sizeof_vector_entry)) && (0 <? zlen ids)) eqn:HA.
  { right. apply andb_prop in HA as [HA%negb_true_iff _]. eauto. }
  left. replace (Z.to_nat (zlen ids)) with (length ids) by (unfold zlen; lia).
  rewrite (read_entries_image payload (40 + zlen model) (40 + zlen model + zlen ids * 16) (zlen (concat ids)) vo (vector_dimensions c) ids
  ltac:(lia) Hok Hids values 0 0 [] (k40 ++ model) (concat ids ++ pad ++ floats_image values)
  (k40 ++ model ++ records_image 0 ids) (pad ++ floats_image values) (k40 ++ model ++ records_image 0 ids ++ concat ids ++ pad) []).
  2-8: done || lia.
  - rewrite outcome_bind_ok, Z.add_0_l, Z.eqb_refl. done.
  - rewrite Epay. by rewrite <- !(assoc_L (++)).
  - rewrite !zlen_app, Hk40. lia.
  - rewrite Epay. by rewrite <- !(assoc_L (++)).
  - rewrite !zlen_app, Hk40, zlen_records_image. lia.
  - rewrite Epay, app_nil_r. by rewrite <- !(assoc_L (++)).
  - rewrite !zlen_app, Hk40, zlen_records_image. unfold vo, head. lia.
Qed.
End roundtrip.

(** ** Files *)
Lemma parse_file_image {A : Allocator} utf8_valid c g eg payload : is_u64 g -> g <> 0 -> eg = 0 \/ eg = g -> bytes_ok payload ->
  zlen payload < 2 ^ 63 ->
  parse_vectors_file utf8_valid c eg (file_image YAP_V2_FILE_VECTORS g payload) =
    (r ← parse_vectors utf8_valid c payload; Ok (option_map (pair g) r)).
Proof.
  intros Hg Hg0 Heg Hok Hz. unfold parse_vectors_file, file_image. pose proof (zlen_nonneg payload).
  rewrite zlen_app, zlen_header_image. unfold YAP_V2_FILE_HEADER_BYTES.
  rewrite file_header_decode_image by (done || (apply file_header_valid; (done || lia))).
  cbn [file_type payload_bytes generation payload_crc32c file_header].
  replace (32 + zlen payload - 32) with (zlen payload) by lia. rewrite !Z.eqb_refl, orb_false_r. cbn [negb orb].
  assert (negb (eg =? 0) && negb (g =? eg) = false) as ->.
  { destruct Heg as [->| ->]; [done|]. by rewrite Z.eqb_refl, andb_false_r. }
  rewrite load_bytes_app_end, outcome_bind_ok by done. by rewrite Z.eqb_refl.
Qed.

(** C16: the vectors of a segment survive the file: when [YAP_V2_vectors_write] assembles a
    payload for passages with UTF-8 identifiers, the file of its header and payload is read back
    as one entry per passage, in order, with its identifier and its vector, bit by bit; only
    the allocation of the entries can fail. *)
Theorem vectors_roundtrip {A : Allocator} garbage utf8_valid c passages values payload g eg :
  config_wf c -> config_valid c -> vector_metric c <> YAP_V2_VECTOR_DISABLED -> Forall passage_wf passages ->
  zlen passages <= YAP_V2_MAX_SEGMENT_PASSAGES -> zlen values = zlen passages * vector_dimensions c -> Forall is_u32 values ->
  Forall (fun p => utf8_valid (view_bytes (passage_id p)) = true) passages -> is_u64 g -> g <> 0 -> eg = 0 \/ eg = g ->
  vectors_payload garbage c passages values = Ok payload ->
  exists header, vectors_header garbage g payload = Ok header /\
  let read := parse_vectors_file utf8_valid c eg (header ++ content payload) in
  read = Ok (Some (g, entries_of (vector_dimensions c) (passage_ids passages) values)) \/
  read = Err YAP_V2_ALLOCATION_FAILED /\ exists n, alloc_ok n = false.
Proof.
  intros Hw Hc Hd Hp Hmax Hv Hvu Hutf Hg Hg0 Heg HP. pose proof (vectors_payload_spec garbage c passages values Hw Hc Hd Hp Hv) as HS.
  rewrite HP in HS. destruct HS as (Hb&Hcont&Hok&HN&Hfin). pose proof (zlen_content payload Hb) as Hz. pose proof Hb as (Hl&Hm&_).
  exists (header_image (file_header YAP_V2_FILE_VECTORS g (content payload))). split.
  { unfold vectors_header. rewrite load_bytes_slice, outcome_bind_ok by lia.
    assert (slice (buffer_data payload) 0 (buffer_len payload) = content payload) as -> by (unfold slice; by rewrite drop_0).
    rewrite <- Hz. change (FileHeader _ _ YAP_V2_FILE_VECTORS g _ _) with (file_header YAP_V2_FILE_VECTORS g (content payload)).
    rewrite <- (app_nil_r (garbage <$> seq 0 32)), file_header_encode_image; [by rewrite app_nil_r|by apply file_header_fields|apply zlen_garbage]. }
  change (header_image _ ++ content payload) with (file_image YAP_V2_FILE_VECTORS g (content payload)).
  assert (Forall (id_readable utf8_valid) (passage_ids passages)) as Hids.
  { by apply passage_ids_readable. }
  assert (zlen (vectors_image c (passage_ids passages) values) < 2 ^ 63) as Hsz
    by (rewrite <- Hcont, Hz; unfold YAP_V2_MAX_SEGMENT_PAYLOAD_BYTES in *; lia).
  cbv zeta. rewrite parse_file_image, Hcont; [|done..|rewrite Hcont; by eapply vectors_image_ok|by rewrite Hcont].
  rewrite <- zlen_passage_ids in Hmax, Hv.
  destruct (parse_vectors_image utf8_valid c (passage_ids passages) values Hw Hc Hd Hids HN Hmax Hv Hvu Hfin Hsz) as [->|[-> ?]]; [left|right]; done.
Qed.

Definition vectors_config : YAP_V2_CONFIG := demo_config (CString.text "t") (CString.text "m") [CString.text "author"; CString.text "tags.name"].
Definition demo_values : list Z := [1065353216; 0; 3212836864].

Lemma vectors_config_wf : config_wf vectors_config.
Proof. exact demo_config_wf. Qed.
Lemma vectors_config_valid : config_valid vectors_config.
Proof. apply (proj1 (config_validate_spec _ demo_config_wf)). vm_compute. reflexivity. Qed.

Lemma vectors_roundtrip_witness : exists payload header,
  vectors_payload (A := alloc_total) (fun _ => 9) vectors_config [demo_passage] demo_values = Ok payload /\
  vectors_header (fun _ => 9) 5 payload = Ok header /\
  let read := parse_vectors_file (A := alloc_total) (fun _ => true) vectors_config 0 (header ++ content payload) in
  read = Ok (Some (5, [VectorEntry (mk_view [112]) demo_values 3])) \/
  read = Err YAP_V2_ALLOCATION_FAILED /\ exists n, alloc_ok (Allocator := alloc_total) n = false.
Proof.
  assert (exists payload, vectors_payload (A := alloc_total) (fun _ => 9) vectors_config [demo_passage] demo_values = Ok payload) as [payload E]
    by (eexists; vm_compute; reflexivity).
  assert (Forall is_u32 demo_values) as Hu by (repeat constructor; vm_compute; congruence).
  exists payload. destruct (vectors_roundtrip (A := alloc_total) (fun _ => 9) (fun _ => true) vectors_config [demo_passage] demo_values payload 5 0
    vectors_config_wf vectors_config_valid ltac:(vm_compute; discriminate) demo_passages_wf ltac:(vm_compute; discriminate)
    ltac:(vm_compute; reflexivity) Hu ltac:(constructor; [reflexivity|constructor]) ltac:(vm_compute; split; congruence) ltac:(discriminate)
    ltac:(left; reflexivity) E) as (header&Hh&Hr).
  exists header. split; [exact E|]. split; [exact Hh|exact Hr].
Defined.

Lemma install_vectors_sound {A : Allocator} utf8_valid c eg file segment :
  config_wf c -> config_valid c -> vector_metric c <> YAP_V2_VECTOR_DISABLED -> bytes_ok file -> 32 <= zlen file < 2 ^ 64 ->
  match install_vectors utf8_valid c eg file segment with
  | (segment', Ok _) => segment' = segment \/
      Forall (entry_valid utf8_valid (vector_dimensions c)) (vs_entries segment') /\ NoDup (entry_ids (vs_entries segment')) /\
      vs_metric segment' = vector_metric c /\ vs_dimensions segment' = vector_dimensions c /\ (eg = 0 \/ vs_generation segment' = eg)
  | (segment', Err e) => segment' = segment /\
      (e ∈ [YAP_V2_INVALID_FORMAT; YAP_V2_CHECKSUM_MISMATCH; YAP_V2_CONFLICT] \/
       e = YAP_V2_ALLOCATION_FAILED /\ exists n, alloc_ok n = false)
  | (_, Fault) => False
  end.
Proof.
  intros Hw Hc Hd Hok Hz. unfold install_vectors, parse_vectors_file.
  pose proof (file_header_decode_safe file Hok ltac:(lia)) as HS. destruct (YAP_V2_file_header_decode (Some file)) as [h| |] eqn:HD; [|split; [done|left; set_solver]|done].
  destruct (file_header_decode_inv file h Hok ltac:(lia) HD) as [[Hhw _] _].
  destruct (_ || _) eqn:T; [split; [done|left; set_solver]|]. unfold YAP_V2_FILE_HEADER_BYTES in *. btests.
  rewrite load_bytes_slice, outcome_bind_ok by lia.
  destruct (crc32c _ =? _); cbn [negb]; [|split; [done|left; set_solver]].
  assert (bytes_ok (slice file 32 (payload_bytes h))) as Hokp by by apply Forall_slice.
  assert (zlen (slice file 32 (payload_bytes h)) < 2 ^ 64) as Hzp by (rewrite zlen_slice; lia).
  pose proof (parse_vectors_sound utf8_valid c _ Hw Hc Hd Hokp Hzp) as HP. destruct (parse_vectors _ _ _) as [[entries|]|e|]; cbn.
  - right. destruct HP. split_and!; try done. match goal with H : _ \/ _ |- _ => destruct H; btests; auto end.
  - by left.
  - split; [done|]. destruct HP as [->|HP]; [left; set_solver|by right].
  - done.
Qed.

(** Opening a vectors file never reads outside of it, whatever bytes it holds: an accepted
    file has distinct, non-empty UTF-8 identifiers of at most 255 bytes and finite vectors of the
    configured dimension, and the refusals it reports are those the code names. *)
Theorem vectors_open_sound {A : Allocator} utf8_valid c eg file segment :
  config_wf c -> config_valid c -> vector_metric c <> YAP_V2_VECTOR_DISABLED -> bytes_ok file -> 32 <= zlen file < 2 ^ 64 ->
  match install_vectors utf8_valid c eg file segment with
  | (segment', Ok _) => segment' = segment \/
      Forall (entry_valid utf8_valid (vector_dimensions c)) (vs_entries segment') /\ NoDup (entry_ids (vs_entries segment')) /\
      vs_metric segment' = vector_metric c /\ vs_dimensions segment' = vector_dimensions c /\ (eg = 0 \/ vs_generation segment' = eg)
  | (segment', Err e) => segment' = segment /\
      (e ∈ [YAP_V2_INVALID_FORMAT; YAP_V2_CHECKSUM_MISMATCH; YAP_V2_CONFLICT] \/
       e = YAP_V2_ALLOCATION_FAILED /\ exists n, alloc_ok n = false)
  | (_, Fault) => False
  end.
Proof. apply install_vectors_sound. Qed.

Lemma vectors_open_sound_witness :
  match install_vectors (A := alloc_total) (fun _ => true) vectors_config 0 (replicate 40 200) YAP_V2_vector_segment_init with
  | (_, Fault) => False | _ => True end.
Proof.
  pose proof (vectors_open_sound (A := alloc_total) (fun _ => true) vectors_config 0 (replicate 40 200) YAP_V2_vector_segment_init
    vectors_config_wf vectors_config_valid ltac:(done) ltac:(apply demo_bytes; vm_compute; reflexivity) ltac:(vm_compute; split; congruence)) as H.
  destruct (install_vectors _ _ _ _ _) as [? [| |]]; done.
Defined.

(** A vectors file with a valid header and checksum whose payload is too short, or of another
    payload version, is not refused: [YAP_V2_vector_segment_open] reports [YAP_V2_OK] and leaves
    the segment as it was, without a mapping and without vectors. *)
Theorem vectors_malformed_reported_ok {A : Allocator} utf8_valid c eg g payload segment :
  is_u64 g -> g <> 0 -> eg = 0 \/ eg = g -> bytes_ok payload -> zlen payload < 2 ^ 63 ->
  zlen payload < VECTOR_FIXED_HEADER_BYTES \/ get_u32_le (E := YAP_V2_STATUS) payload 0 <> Ok VECTOR_PAYLOAD_VERSION ->
  install_vectors utf8_valid c eg (file_image YAP_V2_FILE_VECTORS g payload) segment = (segment, Ok tt).
Proof.
  intros Hg Hg0 Heg Hok Hz Hbad. unfold install_vectors. rewrite parse_file_image by done. unfold parse_vectors.
  destruct (Z.ltb_spec (zlen payload) VECTOR_FIXED_HEADER_BYTES) as [|Hl]; [done|]. unfold VECTOR_FIXED_HEADER_BYTES in Hl.
  destruct Hbad as [?|Hbad]; [unfold VECTOR_FIXED_HEADER_BYTES in *; lia|].
  rewrite (get_u32_le_dec payload 0) in Hbad |- * by (done || lia). rewrite outcome_bind_ok.
  destruct (Z.eqb_spec (le_dec (slice payload 0 4)) VECTOR_PAYLOAD_VERSION) as [E|]; [by rewrite E in Hbad|done].
Qed.

Lemma vectors_malformed_reported_ok_witness :
  install_vectors (A := alloc_total) (fun _ => true) vectors_config 7
    (file_image YAP_V2_FILE_VECTORS 7 (put_u32_le 2 ++ replicate 60 0)) YAP_V2_vector_segment_init = (YAP_V2_vector_segment_init, Ok tt).
Proof.
  apply (vectors_malformed_reported_ok (A := alloc_total)); [done|done|by right| |done|].
  - apply demo_bytes. vm_compute. reflexivity.
  - right. vm_compute. discriminate.
Defined.
