(* ===== verification/Planner.v ===== *)
(** Segment units and plans (src/src/indexing/yappo_segment_planner_v2.c): a unit is one
    operation on the index, a document with its passages and vectors or a tombstone; a plan cuts
    the units of a batch into slices, each of which becomes a segment. *)
From S2P Require Import Prelude Words Types Header SlotTable Manifest Segment Config.

(** A null [document] marks a tombstone.  [unit_vectors] are the vectors the unit points to, one
    behind the other. *)
Record YAP_V2_SEGMENT_UNIT := SegmentUnit {
  unit_document : option YAP_V2_DOCUMENT_VIEW;
  unit_passages : list YAP_V2_PASSAGE_VIEW;
  unit_vectors : option (list Z);
  unit_tombstone : YAP_V2_BYTES_VIEW }.

Record YAP_V2_SEGMENT_SLICE := SegmentSlice {
  slice_first : Z;
  slice_count : Z;
  payload_sizes : list Z }.

Definition sizeof_slice : Z := 72.

(** [memset] to zero, then the range. *)
Definition bare_slice (first count : Z) : YAP_V2_SEGMENT_SLICE := SegmentSlice first count (replicate 7 0).

Definition YAP_V2_segment_count_validate (existing_count added_count : Z) : result unit :=
  if (YAP_V2_MAX_SEGMENTS <? existing_count) || (YAP_V2_MAX_SEGMENTS - existing_count <? added_count)
  then Err YAP_V2_OUT_OF_RANGE else Ok tt.

(** Halving the slice that turned out too large; the slices of the plan. *)
Definition YAP_V2_segment_plan_bisect {A : Allocator} (slices : list YAP_V2_SEGMENT_SLICE) (slice_index : Z)
  : result (list YAP_V2_SEGMENT_SLICE) :=
  if zlen slices <=? slice_index then Err YAP_V2_INVALID_ARGUMENT
  else
  original ← elem_at slices slice_index;
  if slice_count original <? 2 then Err YAP_V2_INVALID_ARGUMENT
  else if (YAP_V2_MAX_SEGMENTS <=? zlen slices) || (zlen slices =? SIZE_MAX / sizeof_slice) then Err YAP_V2_OUT_OF_RANGE
  else if negb (alloc_ok ((zlen slices + 1) * sizeof_slice)) then Err YAP_V2_ALLOCATION_FAILED
  else
  let left_count := slice_count original / 2 in
  let i := Z.to_nat slice_index in
  Ok (take i slices ++
      [bare_slice (slice_first original) left_count;
       bare_slice (slice_first original + left_count) (slice_count original - left_count)] ++
      drop (S i) slices).

(** ** The content of a slice

    What [YAP_V2_segment_slice_write] collects for the writers of the components. *)
Record slice_data := SliceData {
  slice_documents : list YAP_V2_DOCUMENT_VIEW;
  slice_passages : list YAP_V2_PASSAGE_VIEW;
  slice_tombstones : list YAP_V2_BYTES_VIEW;
  slice_vectors : list Z }.

Fixpoint collect_slice (units : list YAP_V2_SEGMENT_UNIT) : slice_data :=
  match units with
  | [] => SliceData [] [] [] []
  | u :: units =>
      let d := collect_slice units in
      match unit_document u with
      | None => SliceData (slice_documents d) (slice_passages d) (unit_tombstone u :: slice_tombstones d) (slice_vectors d)
      | Some doc =>
          SliceData (doc :: slice_documents d) (unit_passages u ++ slice_passages d) (slice_tombstones d)
            (default [] (unit_vectors u) ++ slice_vectors d)
      end
  end.

Definition slice_units (units : list YAP_V2_SEGMENT_UNIT) (s : YAP_V2_SEGMENT_SLICE) : list YAP_V2_SEGMENT_UNIT :=
  slice units (slice_first s) (slice_count s).

(** ** Slices that cover the units *)
Fixpoint covers (from to : Z) (slices : list YAP_V2_SEGMENT_SLICE) : Prop :=
  match slices with
  | [] => from = to
  | s :: slices => slice_first s = from /\ 0 <= slice_count s /\ covers (from + slice_count s) to slices
  end.

Lemma covers_app from to a b : covers from to (a ++ b) <-> exists mid, covers from mid a /\ covers mid to b.
Proof.
  revert from; induction a as [|s a IH]; intros from; cbn [covers app].
  - split; [intros H; by exists from|by intros (?&->&?)].
  - rewrite IH. split; [intros (?&?&mid&?&?); by exists mid|intros (mid&(?&?&?)&?); eauto].
Qed.

Lemma covers_le from to slices : covers from to slices -> from <= to.
Proof. revert from; induction slices as [|s slices IH]; intros from; cbn; [lia|]. intros (?&?&?%IH). lia. Qed.

(** The units of covering slices, one behind the other, are the units. *)
Lemma covers_units units from to slices : covers from to slices -> 0 <= from -> to <= zlen units ->
  concat (slice_units units <$> slices) = slice units from (to - from).
Proof.
  revert from; induction slices as [|s slices IH]; intros from; cbn [covers].
  - intros -> ? ?. unfold slice. by rewrite Z.sub_diag.
  - intros (<-&Hc&Hs) H0 Ht. pose proof (covers_le _ _ _ Hs). cbn. rewrite (IH _ Hs) by lia. unfold slice_units, slice.
    replace (Z.to_nat (slice_first s + slice_count s)) with (Z.to_nat (slice_first s) + Z.to_nat (slice_count s))%nat by lia.
    rewrite <- drop_drop. set (l := drop _ units).
    replace (Z.to_nat (to - slice_first s)) with (Z.to_nat (slice_count s) + Z.to_nat (to - (slice_first s + slice_count s)))%nat by lia.
    by rewrite take_take_drop.
Qed.

Lemma bisect_covers {A : Allocator} slices i slices' from to : covers from to slices -> 0 <= i ->
  YAP_V2_segment_plan_bisect slices i = Ok slices' -> covers from to slices'.
Proof.
  intros Hc Hi. unfold YAP_V2_segment_plan_bisect. destruct (Z.leb_spec (zlen slices) i) as [|Hl]; [done|].
  destruct (lookup_lt_is_Some_2 slices (Z.to_nat i)) as [s Hs]; [unfold zlen in Hl; lia|].
  rewrite <- (Z2Nat.id i) at 1 by lia. rewrite (elem_at_lookup _ _ _ Hs), outcome_bind_ok.
  destruct (Z.ltb_spec (slice_count s) 2) as [|H2]; [done|]. destruct (_ || _); [done|]. destruct (negb _); [done|].
  intros [= <-]. pose proof (take_drop_middle _ _ _ Hs) as E. rewrite <- E in Hc.
  apply covers_app in Hc as (mid&Ha&Hb). apply covers_app. exists mid. split; [done|]. cbn [covers app] in *.
  destruct Hb as (?&?&?). pose proof (Z.div_mod (slice_count s) 2 ltac:(lia)). pose proof (Z.mod_pos_bound (slice_count s) 2 ltac:(lia)).
  cbn [bare_slice slice_first slice_count]. split_and!; try lia.
  by replace (mid + slice_count s / 2 + (slice_count s - slice_count s / 2)) with (mid + slice_count s) by lia.
Qed.
