(* ===== verification/Compaction.v ===== *)
(** What a compaction writes (src/src/indexing/yappo_compact_v2.c): the latest version of every
    document of the selected segments and, unless the whole index is merged, the tombstones that
    still hide something; and the manifest that replaces the selected range.

    The main theorem composes this with the visibility table of a snapshot: replacing the
    selected segments by the compacted ones changes the answer to no lookup. *)
From Stdlib Require Import Permutation.
From S2P Require Import Prelude Words Types Header SlotTable EntryTable Manifest FileSystem Reader ManifestCodec Segment Verify Visibility Config Vectors Planner Selection.
#[local] Open Scope io_scope.
#[local] Open Scope Z_scope.

Record COMPACTION_SOURCE := CompactionSource {
  src_documents : YAP_V2_SEGMENT;
  src_tombstones : list YAP_V2_BYTES_VIEW;
  src_vectors : YAP_V2_VECTOR_SEGMENT }.

Record COMPACTION_EVENT := CompactionEvent {
  event_id : YAP_V2_BYTES_VIEW;
  event_source : Z;
  event_ordinal : Z;
  event_document : bool;
  event_occupied : bool }.

Definition zero_event : COMPACTION_EVENT := CompactionEvent (BytesView None 0) 0 0 false false.
Definition sizeof_event : Z := 40.
Definition sizeof_unit : Z := 48.
Definition sizeof_source : Z := 2048.

#[export] Instance event_hash_entry : HashEntry COMPACTION_EVENT :=
  { hash_id := event_id; hash_occupied := event_occupied; hash_zero := zero_event; hash_zero_free := eq_refl }.

#[export] Instance bytes_view_eq_dec : EqDecision YAP_V2_BYTES_VIEW.
Proof. solve_decision. Defined.
#[export] Instance event_eq_dec : EqDecision COMPACTION_EVENT.
Proof. solve_decision. Defined.

Record COMPACTION_EVENT_MAP := EventMap { event_slots : list COMPACTION_EVENT; event_capacity : Z }.

Record COMPACTION_INPUT := CompactionInput {
  in_units : list YAP_V2_SEGMENT_UNIT;
  in_document_count : Z;
  in_passage_count : Z }.

(** ** The event map *)
Section events.
Context {A : Allocator}.

Definition event_map_create (records : Z) : result COMPACTION_EVENT_MAP :=
  if records =? 0 then Ok (EventMap [] 0)
  else if SIZE_MAX / 2 <? records then Err YAP_V2_OUT_OF_RANGE
  else
  capacity ← grow_capacity 64 true 1 (records * 2);
  if alloc_ok (capacity * sizeof_event) then Ok (EventMap (replicate (Z.to_nat capacity) zero_event) capacity)
  else Err YAP_V2_ALLOCATION_FAILED.
End events.

(** The loop of [event_map_slot] has no bound of its own: it ends because the map is never
    full.  Running out of the [capacity] turns of the model is a [Fault]. *)
Fixpoint probe_event (fuel : nat) (slots : list COMPACTION_EVENT) (capacity : Z) (id_ : YAP_V2_BYTES_VIEW) (slot : Z) : result Z :=
  match fuel with
  | O => Fault
  | S fuel =>
      event ← elem_at slots slot;
      if negb (event_occupied event) then Ok slot
      else
      same ← same_bytes (event_id event) id_;
      if (same : bool) then Ok slot else probe_event fuel slots capacity id_ (Z.land (slot + 1) (capacity - 1))
  end.

Definition event_map_slot (map : COMPACTION_EVENT_MAP) (id_ : YAP_V2_BYTES_VIEW) : result (option Z) :=
  if event_capacity map =? 0 then Ok None
  else
  hash ← bytes_hash id_;
  slot ← probe_event (Z.to_nat (event_capacity map)) (event_slots map) (event_capacity map) id_
           (Z.land hash (event_capacity map - 1));
  Ok (Some slot).

Definition event_is_latest (map : COMPACTION_EVENT_MAP) (id_ : YAP_V2_BYTES_VIEW) (source ordinal : Z) (document : bool) : result bool :=
  slot ← event_map_slot map id_;
  match slot with
  | None => Ok false
  | Some i =>
      event ← elem_at (event_slots map) i;
      Ok (event_occupied event && (event_source event =? source) && (event_ordinal event =? ordinal) &&
          Bool.eqb (event_document event) document)
  end.

(** The assignments to the slot of an identifier. *)
Definition put_event (event : COMPACTION_EVENT) (map : COMPACTION_EVENT_MAP) : result COMPACTION_EVENT_MAP :=
  slot ← event_map_slot map (event_id event);
  match slot with
  | None => Err YAP_V2_CONFLICT
  | Some i => Ok (EventMap (<[Z.to_nat i := event]> (event_slots map)) (event_capacity map))
  end.

(** The events of identifiers in order, the first with ordinal [j]. *)
Fixpoint events_of (source j : Z) (document : bool) (ids : list YAP_V2_BYTES_VIEW) : list COMPACTION_EVENT :=
  match ids with
  | [] => []
  | id_ :: ids => CompactionEvent id_ source j document true :: events_of source (j + 1) document ids
  end.

Fixpoint put_events (events : list COMPACTION_EVENT) (map : COMPACTION_EVENT_MAP) : result COMPACTION_EVENT_MAP :=
  match events with
  | [] => Ok map
  | e :: events => map ← put_event e map; put_events events map
  end.

(** The loop that enters the tombstones and documents of every source. *)
Fixpoint record_sources (i : Z) (sources : list COMPACTION_SOURCE) (map : COMPACTION_EVENT_MAP) : result COMPACTION_EVENT_MAP :=
  match sources with
  | [] => Ok map
  | s :: sources =>
      map ← put_events (events_of i 0 false (src_tombstones s)) map;
      map ← put_events (events_of i 0 true (doc_id <$> documents (src_documents s))) map;
      record_sources (i + 1) sources map
  end.

(** Documents and tombstones that are left. *)
Definition count_documents_left (map : COMPACTION_EVENT_MAP) : Z :=
  zlen (filter (fun e => event_occupied e = true /\ event_document e = true) (event_slots map)).
Definition count_tombstones_left (map : COMPACTION_EVENT_MAP) : Z :=
  zlen (filter (fun e => event_occupied e = true /\ event_document e = false) (event_slots map)).

(** ** Passages *)

(** The loop that advances over the passages of one document: these and the rest. *)
Fixpoint split_passages (id_ : YAP_V2_BYTES_VIEW) (passages_ : list YAP_V2_PASSAGE_VIEW)
  : result (list YAP_V2_PASSAGE_VIEW * list YAP_V2_PASSAGE_VIEW) :=
  match passages_ with
  | [] => Ok ([], [])
  | p :: rest =>
      same ← same_bytes (parent_document_id p) id_;
      if (same : bool) then '(own, rest) ← split_passages id_ rest; Ok (p :: own, rest)
      else Ok ([], passages_)
  end.

(** The loop over the documents of one source that counts the passages to keep. *)
Fixpoint count_source (map : COMPACTION_EVENT_MAP) (i j : Z) (docs : list YAP_V2_DOCUMENT_VIEW)
    (passages_ : list YAP_V2_PASSAGE_VIEW) (count : Z) : result Z :=
  match docs with
  | [] => if bool_decide (passages_ = []) then Ok count else Err YAP_V2_CONFLICT
  | d :: docs =>
      '(own, rest) ← split_passages (doc_id d) passages_;
      latest ← event_is_latest map (doc_id d) i j true;
      if (latest : bool) then
        if SIZE_MAX - count <? zlen own then Err (if bool_decide (rest = []) then YAP_V2_OUT_OF_RANGE else YAP_V2_CONFLICT)
        else count_source map i (j + 1) docs rest (count + zlen own)
      else count_source map i (j + 1) docs rest count
  end.

Fixpoint count_passages (map : COMPACTION_EVENT_MAP) (i : Z) (sources : list COMPACTION_SOURCE) (count : Z) : result Z :=
  match sources with
  | [] => Ok count
  | s :: sources =>
      count ← count_source map i 0 (documents (src_documents s)) (passages (src_documents s)) count;
      count_passages map (i + 1) sources count
  end.

(** ** Units *)

(** The array of units is filled from the left; a write behind it is a [Fault]. *)
Definition push_unit (unit_count : Z) (u : YAP_V2_SEGMENT_UNIT) (units : list YAP_V2_SEGMENT_UNIT) : result (list YAP_V2_SEGMENT_UNIT) :=
  if zlen units <? unit_count then Ok (units ++ [u]) else Fault.

Fixpoint add_tombstones (map : COMPACTION_EVENT_MAP) (unit_count i j : Z) (ids : list YAP_V2_BYTES_VIEW)
    (units : list YAP_V2_SEGMENT_UNIT) : result (list YAP_V2_SEGMENT_UNIT) :=
  match ids with
  | [] => Ok units
  | id_ :: ids =>
      latest ← event_is_latest map id_ i j false;
      units ← (if (latest : bool) then push_unit unit_count (SegmentUnit None [] None id_) units else Ok units);
      add_tombstones map unit_count i (j + 1) ids units
  end.

(** The vectors of the passages [k], [k + 1], ... of a document, copied behind the [vector_index]
    vectors that are there; [capacity] is the size of the array in vectors. *)
Fixpoint copy_vectors (entries : list YAP_VECTOR_ENTRY) (dimensions capacity : Z) (k vector_index : Z)
    (own : list YAP_V2_PASSAGE_VIEW) : result (list Z * Z) :=
  match own with
  | [] => Ok ([], vector_index)
  | p :: own =>
      if zlen entries <=? k then Err YAP_V2_CONFLICT
      else
      entry ← elem_at entries k;
      same ← same_bytes (vec_id entry) (passage_id p);
      if negb same then Err YAP_V2_CONFLICT
      else if (capacity <=? vector_index) || (zlen (vec_values entry) <? dimensions) then Fault
      else
      '(values, vector_index) ← copy_vectors entries dimensions capacity (k + 1) (vector_index + 1) own;
      Ok (take (Z.to_nat dimensions) (vec_values entry) ++ values, vector_index)
  end.

(** [vectors_wanted] is [vector_values != NULL]. *)
Fixpoint add_documents (map : COMPACTION_EVENT_MAP) (unit_count dimensions passage_total : Z) (vectors_wanted : bool)
    (entries : list YAP_VECTOR_ENTRY) (i j start : Z) (docs : list YAP_V2_DOCUMENT_VIEW)
    (passages_ : list YAP_V2_PASSAGE_VIEW) (vector_index : Z) (units : list YAP_V2_SEGMENT_UNIT)
  : result (Z * list YAP_V2_SEGMENT_UNIT) :=
  match docs with
  | [] => Ok (vector_index, units)
  | d :: docs =>
      '(own, rest) ← split_passages (doc_id d) passages_;
      latest ← event_is_latest map (doc_id d) i j true;
      if (latest : bool) then
        '(values, vector_index) ←
          (if vectors_wanted then
             '(values, vector_index) ← copy_vectors entries dimensions passage_total start vector_index own;
             Ok (Some values, vector_index)
           else Ok (None, vector_index));
        units ← push_unit unit_count (SegmentUnit (Some d) own values (BytesView None 0)) units;
        add_documents map unit_count dimensions passage_total vectors_wanted entries i (j + 1) (start + zlen own) docs rest
          vector_index units
      else add_documents map unit_count dimensions passage_total vectors_wanted entries i (j + 1) (start + zlen own) docs rest
             vector_index units
  end.

Fixpoint add_sources (map : COMPACTION_EVENT_MAP) (unit_count dimensions passage_total : Z) (vectors_wanted drop_tombstones : bool)
    (i : Z) (sources : list COMPACTION_SOURCE) (vector_index : Z) (units : list YAP_V2_SEGMENT_UNIT)
  : result (Z * list YAP_V2_SEGMENT_UNIT) :=
  match sources with
  | [] => Ok (vector_index, units)
  | s :: sources =>
      units ← (if drop_tombstones then Ok units else add_tombstones map unit_count i 0 (src_tombstones s) units);
      '(vector_index, units) ← add_documents map unit_count dimensions passage_total vectors_wanted (vs_entries (src_vectors s))
                                 i 0 0 (documents (src_documents s)) (passages (src_documents s)) vector_index units;
      add_sources map unit_count dimensions passage_total vectors_wanted drop_tombstones (i + 1) sources vector_index units
  end.

(** Whether the vectors of the passages are copied. *)
Definition vectors_wanted (config : YAP_V2_CONFIG) (passage_total : Z) : bool :=
  negb (vector_metric config =? YAP_V2_VECTOR_DISABLED) && (0 <? passage_total).

(** The array for them. *)
Definition alloc_vectors {A : Allocator} (config : YAP_V2_CONFIG) (passage_total : Z) : result unit :=
  if vectors_wanted config passage_total then
    if vector_dimensions config =? 0 then Fault
    else if (SIZE_MAX / vector_dimensions config <? passage_total) ||
            (SIZE_MAX / sizeof_float <? passage_total * vector_dimensions config) then Err YAP_V2_OUT_OF_RANGE
    else if negb (alloc_ok (passage_total * vector_dimensions config * sizeof_float)) then Err YAP_V2_ALLOCATION_FAILED
    else Ok tt
  else Ok tt.

(** [collect_range] behind the loading of the sources; [records] is the number of documents and
    tombstones they have. *)
Definition collect_sources {A : Allocator} (config : YAP_V2_CONFIG) (sources : list COMPACTION_SOURCE) (records : Z)
    (drop_tombstones : bool) : result COMPACTION_INPUT :=
  events ← event_map_create records;
  events ← record_sources 0 sources events;
  let document_count_ := count_documents_left events in
  let tombstones_left := if drop_tombstones then 0 else count_tombstones_left events in
  if SIZE_MAX - tombstones_left <? document_count_ then Err YAP_V2_OUT_OF_RANGE
  else
  let unit_count := tombstones_left + document_count_ in
  passage_total ← count_passages events 0 sources 0;
  if (0 <? unit_count) && negb (alloc_ok (unit_count * sizeof_unit)) then Err YAP_V2_ALLOCATION_FAILED
  else
  let wanted := vectors_wanted config passage_total in
  _ ← alloc_vectors config passage_total;
  '(vector_index, units) ← add_sources events unit_count (vector_dimensions config) passage_total wanted drop_tombstones
                             0 sources 0 [];
  if negb (zlen units =? unit_count) || (wanted && negb (vector_index =? passage_total)) then Err YAP_V2_CONFLICT
  else Ok (CompactionInput units document_count_ passage_total).

(** ** Loading *)
Section load.
Context {A : Allocator} (garbage : nat -> Z) (utf8_valid : bytes -> bool).

Definition segment_component (segment : YAP_V2_SEGMENT_DESCRIPTOR) (type : Z) : option YAP_V2_COMPONENT_DESCRIPTOR :=
  list_find (fun c => component_type c = type) (components segment) ≫= fun '(_, c) => Some c.

Definition PATH_CAPACITY : Z := 4096.

(** [snprintf] into an array of 4096 bytes. *)
Definition join_path (left right : bytes) : option path :=
  let p := left ++ [SLASH] ++ right in
  if PATH_CAPACITY <=? zlen p then None else Some p.

(** The reads behind the verification, as far as one succeeds. *)
Definition load_documents (directory : path) (descriptor : YAP_V2_SEGMENT_DESCRIPTOR) : io (result YAP_V2_SEGMENT) :=
  match segment_component descriptor YAP_V2_FILE_DOCUMENTS with
  | None => io_ret (Err YAP_V2_INVALID_FORMAT)
  | Some c =>
    match join_path directory (name c) with
    | None => io_ret (Err YAP_V2_INVALID_FORMAT)
    | Some p =>
        let* r := YAP_V2_segment_read garbage (Some p) 0 false in
        io_ret ('(segment, _) ← r;
                if negb (bool_decide (segment_id segment = id descriptor)) ||
                   negb (zlen (documents segment) =? document_count descriptor) ||
                   negb (zlen (passages segment) =? passage_count descriptor)
                then Err YAP_V2_CONFLICT else Ok segment)
    end
  end.

Definition load_tombstones (directory : path) (descriptor : YAP_V2_SEGMENT_DESCRIPTOR) : io (result (list YAP_V2_BYTES_VIEW)) :=
  let* r := match segment_component descriptor YAP_V2_FILE_TOMBSTONES with
          | None => io_ret (Ok [])
          | Some c =>
              match join_path directory (name c) with
              | None => io_ret (Err YAP_V2_OUT_OF_RANGE)
              | Some p => YAP_V2_tombstones_read (Some p) 0
              end
          end in
  io_ret (tombstones ← r;
        if negb (zlen tombstones =? tombstone_count descriptor) then Err YAP_V2_CONFLICT else Ok tombstones).

Definition load_vectors (config : YAP_V2_CONFIG) (directory : path) (descriptor : YAP_V2_SEGMENT_DESCRIPTOR)
  : io (result YAP_V2_VECTOR_SEGMENT) :=
  if (vector_metric config =? YAP_V2_VECTOR_DISABLED) || negb (0 <? passage_count descriptor)
  then io_ret (Ok YAP_V2_vector_segment_init)
  else
  match segment_component descriptor YAP_V2_FILE_VECTORS with
  | None => io_ret (Err YAP_V2_INVALID_FORMAT)
  | Some c =>
    match join_path directory (name c) with
    | None => io_ret (Err YAP_V2_INVALID_FORMAT)
    | Some p =>
        let* r := YAP_V2_vector_segment_open utf8_valid (Some p) 0 (Some config) YAP_V2_vector_segment_init in
        io_ret (let '(segment, status) := r in _ ← status; Ok segment)
    end
  end.

Definition load_source (index_dir : bytes) (config : YAP_V2_CONFIG) (manifest_generation : Z)
  (descriptor : YAP_V2_SEGMENT_DESCRIPTOR) : io (result COMPACTION_SOURCE) :=
  let* verified := YAP_V2_manifest_verify_segment_components garbage (Some index_dir) manifest_generation (Some descriptor) in
  match verified with
  | Err e => io_ret (Err e)
  | Fault => io_ret Fault
  | Ok _ =>
    let directory := index_dir ++ SEGMENTS_DIR ++ id descriptor in
    if PATH_CAPACITY <=? zlen directory then io_ret (Err YAP_V2_OUT_OF_RANGE)
    else
    let* d := load_documents directory descriptor in
    match d with
    | Err e => io_ret (Err e)
    | Fault => io_ret Fault
    | Ok docs =>
        let* t := load_tombstones directory descriptor in
        match t with
        | Err e => io_ret (Err e)
        | Fault => io_ret Fault
        | Ok tombstones =>
            let* v := load_vectors config directory descriptor in
            io_ret (vectors ← v; Ok (CompactionSource docs tombstones vectors))
        end
    end
  end.

(** The loop that loads the sources and counts their records. *)
Fixpoint load_sources (index_dir : bytes) (config : YAP_V2_CONFIG) (manifest_generation : Z)
  (descriptors : list YAP_V2_SEGMENT_DESCRIPTOR) (records : Z) : io (result (list COMPACTION_SOURCE * Z)) :=
  match descriptors with
  | [] => io_ret (Ok ([], records))
  | d :: descriptors =>
    let* r := load_source index_dir config manifest_generation d in
    if (SIZE_MAX <? document_count d) || (SIZE_MAX <? tombstone_count d) || (SIZE_MAX - records <? document_count d) ||
       (SIZE_MAX - records - document_count d <? tombstone_count d)
    then io_ret (match r with Fault => Fault | _ => Err YAP_V2_OUT_OF_RANGE end)
    else
    match r with
    | Err e => io_ret (Err e)
    | Fault => io_ret Fault
    | Ok source =>
        let* rest := load_sources index_dir config manifest_generation descriptors (records + document_count d + tombstone_count d) in
        io_ret ('(sources, records) ← rest; Ok (source :: sources, records))
    end
  end.

Definition collect_range (index_dir : bytes) (config : YAP_V2_CONFIG) (manifest : YAP_V2_MANIFEST) (first count : Z)
  (drop_tombstones : bool) : io (result COMPACTION_INPUT) :=
  if negb (alloc_ok (count * sizeof_source)) then io_ret (Err YAP_V2_ALLOCATION_FAILED)
  else
  let* r := load_sources index_dir config (manifest_generation manifest) (slice (segments manifest) first count) 0 in
  io_ret ('(sources, records) ← r; collect_sources config sources records drop_tombstones).
End load.

(** ** Replacing the range *)
Fixpoint ranges_equal (base current : list YAP_V2_SEGMENT_DESCRIPTOR) : bool :=
  match base, current with
  | b :: base, c :: current => YAP_V2_segment_descriptor_equal (Some b) (Some c) && ranges_equal base current
  | _, _ => true
  end.

Definition selected_range_unchanged (base current : YAP_V2_MANIFEST) (first count : Z) : bool :=
  if (segment_count current <? first) || (segment_count current - first <? count) ||
     (segment_count base <? first) || (segment_count base - first <? count) then false
  else ranges_equal (slice (segments base) first count) (slice (segments current) first count).

Section candidate.
Context {A : Allocator}.

(** [YAP_V2_manifest_add_segment] for every descriptor, until one fails. *)
Fixpoint add_segments (m : YAP_V2_MANIFEST) (segs : list YAP_V2_SEGMENT_DESCRIPTOR) : result YAP_V2_MANIFEST :=
  match segs with
  | [] => Ok m
  | s :: segs =>
    let '(m, r) := YAP_V2_manifest_add_segment m (Some s) in
    _ ← r; add_segments m segs
  end.

(** The manifest [compact_internal] publishes: [current] with the range replaced. *)
Definition candidate_manifest (current : YAP_V2_MANIFEST) (first count : Z) (descriptors : list YAP_V2_SEGMENT_DESCRIPTOR)
  : result YAP_V2_MANIFEST :=
  if manifest_generation current =? UINT64_MAX then Err YAP_V2_OUT_OF_RANGE
  else if u64 (YAP_V2_MAX_SEGMENTS - zlen descriptors) <? segment_count current - count then Err YAP_V2_OUT_OF_RANGE
  else
  let candidate_ := Manifest (manifest_version current) (manifest_generation current + 1) (config_fingerprint current) []
                    (segment_capacity YAP_V2_manifest_init) (segment_slots YAP_V2_manifest_init)
                    (segment_slot_capacity YAP_V2_manifest_init) in
  m ← add_segments candidate_ (take (Z.to_nat first) (segments current));
  m ← add_segments m descriptors;
  m ← add_segments m (drop (Z.to_nat (first + count)) (segments current));
  _ ← YAP_V2_manifest_validate (Some m);
  Ok m.
End candidate.

(** ** Specification: the events and the units that are left *)
Fixpoint all_events (i : Z) (sources : list COMPACTION_SOURCE) : list COMPACTION_EVENT :=
  match sources with
  | [] => []
  | s :: sources =>
      events_of i 0 false (src_tombstones s) ++ events_of i 0 true (doc_id <$> documents (src_documents s)) ++
      all_events (i + 1) sources
  end.

(** An event that no later event on the same document replaces. *)
Definition latest (all : list COMPACTION_EVENT) (e : COMPACTION_EVENT) : Prop := last_writer (entry_key e) all = Some e.
#[export] Instance latest_dec all e : Decision (latest all e).
Proof. unfold latest. apply _. Defined.

(** ** Events *)
Lemma events_of_elem i b ids e : forall j, e ∈ events_of i j b ids ->
  event_source e = i /\ event_document e = b /\ j <= event_ordinal e /\ event_occupied e = true /\ event_id e ∈ ids /\
  ids !! Z.to_nat (event_ordinal e - j) = Some (event_id e).
Proof.
  induction ids as [|id_ ids IH]; intros j; cbn [events_of]; [by intros ?%not_elem_of_nil|].
  intros [->|He]%elem_of_cons; [cbn; rewrite Z.sub_diag; split_and!; [done..|lia|done|by left|done]|].
  destruct (IH _ He) as (?&?&?&?&?&Hl). split_and!; [done|done|lia|done|by right|].
  replace (Z.to_nat (event_ordinal e - j)) with (S (Z.to_nat (event_ordinal e - (j + 1)))) by lia. done.
Qed.

Lemma all_events_elem sources e : forall i, e ∈ all_events i sources -> i <= event_source e /\ event_occupied e = true.
Proof.
  induction sources as [|s sources IH]; intros i; cbn [all_events]; [by intros ?%not_elem_of_nil|].
  rewrite !elem_of_app. intros [H|[H|H]].
  - destruct (events_of_elem _ _ _ _ _ H) as (?&?&?&?&?&?). split; [lia|done].
  - destruct (events_of_elem _ _ _ _ _ H) as (?&?&?&?&?&?). split; [lia|done].
  - destruct (IH _ H). split; [lia|done].
Qed.

Lemma event_eta (e e' : COMPACTION_EVENT) : event_id e = event_id e' -> event_source e = event_source e' ->
  event_ordinal e = event_ordinal e' -> event_document e = event_document e' -> event_occupied e = event_occupied e' -> e = e'.
Proof. destruct e, e'; cbn; congruence. Qed.

(** Source, ordinal and kind identify an event. *)
Lemma events_identified sources e e' : forall i, e ∈ all_events i sources -> e' ∈ all_events i sources ->
  event_source e = event_source e' -> event_ordinal e = event_ordinal e' -> event_document e = event_document e' -> e = e'.
Proof.
  induction sources as [|s sources IH]; intros i; cbn [all_events]; [by intros ?%not_elem_of_nil|].
  rewrite !elem_of_app. intros H H' E1 E2 E3.
  assert (forall f, f ∈ all_events (i + 1) sources -> event_source f <> i) as Hlt.
  { intros f Hf Ef. destruct (all_events_elem _ _ _ Hf). lia. }
  assert (forall b ids j f f', f ∈ events_of i j b ids -> f' ∈ events_of i j b ids -> event_ordinal f = event_ordinal f' -> f = f') as Hsame.
  { intros b ids j f f' Hf Hf' Eo. destruct (events_of_elem _ _ _ _ _ Hf) as (?&?&?&?&_&Hl).
    destruct (events_of_elem _ _ _ _ _ Hf') as (?&?&?&?&_&Hl'). rewrite Eo in Hl. rewrite Hl in Hl'. injection Hl' as El.
    apply event_eta; congruence. }
  assert (forall b ids f, f ∈ events_of i 0 b ids -> event_source f = i /\ event_document f = b) as Hof.
  { intros b ids f Hf. by destruct (events_of_elem _ _ _ _ _ Hf) as (?&?&_). }
  destruct H as [H|[H|H]], H' as [H'|[H'|H']]; try (by eapply Hsame); try (by eapply IH);
    try (apply Hof in H as [? ?]); try (apply Hof in H' as [? ?]); try congruence; exfalso.
  all: try (by eapply Hlt; [exact H|congruence]); try (by eapply Hlt; [exact H'|congruence]).
Qed.

Lemma length_events_of i b ids : forall j, length (events_of i j b ids) = length ids.
Proof. induction ids as [|x ids IH]; intros j; cbn; [done|]. by rewrite IH. Qed.

Lemma events_of_NoDup i b ids : forall j, NoDup (events_of i j b ids).
Proof.
  induction ids as [|x ids IH]; intros j; cbn [events_of]; constructor; [|apply IH].
  intros H. destruct (events_of_elem _ _ _ _ _ H) as (_&_&?&_). cbn in *. lia.
Qed.

Lemma all_events_NoDup sources : forall i, NoDup (all_events i sources).
Proof.
  induction sources as [|s sources IH]; intros i; cbn [all_events]; [constructor|].
  apply NoDup_app. split_and!; [apply events_of_NoDup| |apply NoDup_app; split_and!; [apply events_of_NoDup| |apply IH]].
  - intros e He%events_of_elem [He'%events_of_elem|He'%all_events_elem]%elem_of_app;
      destruct He as (?&?&_); [destruct He' as (?&?&_); congruence|destruct He'; lia].
  - intros e He%events_of_elem He'%all_events_elem. destruct He as (?&?&_), He'. lia.
Qed.

(** ** The event map *)
Lemma probe_event_entry slots cap id_ : forall fuel slot j,
  probe_entry fuel slots cap id_ slot = Ok (Some j) -> probe_event fuel slots cap id_ slot = Ok j.
Proof.
  induction fuel as [|fuel IH]; intros slot j; cbn [probe_entry probe_event]; [done|]. cbn [hash_occupied hash_id event_hash_entry].
  destruct (elem_at slots slot) as [e| |]; [rewrite !outcome_bind_ok|done..]. destruct (negb (event_occupied e)); [by intros [= ->]|].
  destruct (same_bytes (event_id e) id_) as [b| |]; [rewrite !outcome_bind_ok|done..]. destruct b; [by intros [= ->]|apply IH].
Qed.

Section map.
Context (cap k : Z) (Hk : 0 <= k) (Hcap : cap = 2 ^ k).

Lemma event_slot_spec t entries id_ : represents cap t entries -> id_view id_ -> Z.of_nat (length entries) < cap ->
  exists j : nat, event_map_slot (EventMap t cap) id_ = Ok (Some (Z.of_nat j)) /\ slot_of cap t entries (view_bytes id_) j.
Proof using Hk Hcap.
  intros Ht Hid Hl. pose proof (cap_pos cap k Hk Hcap). pose proof (to_len cap t (proj1 Ht)) as Hlen. unfold zlen in Hlen.
  destruct (find_slot cap k Hk Hcap t entries id_ Ht Hid) as (j&Hj&Hs); [lia|]. exists j. split; [|done].
  unfold event_map_slot. cbn [event_capacity event_slots]. rewrite (proj2 (Z.eqb_neq cap 0)), bytes_hash_spec, outcome_bind_ok by (done || lia).
  fold (home cap (view_bytes id_)). by rewrite (probe_event_entry _ _ _ _ _ _ Hj), outcome_bind_ok.
Qed.

Lemma put_events_spec es : forall t entries, represents cap t entries -> Forall (fun e => id_view (event_id e) /\ event_occupied e = true) es ->
  Z.of_nat (length entries + length es) <= cap ->
  exists t', put_events es (EventMap t cap) = Ok (EventMap t' cap) /\ represents cap t' (entries ++ es).
Proof using Hk Hcap.
  induction es as [|e es IH]; intros t entries Ht Hes Hl; cbn [put_events].
  { exists t. by rewrite app_nil_r. }
  apply Forall_cons in Hes as [[Hid Ho] Hes]. cbn [length] in Hl. unfold put_event.
  destruct (event_slot_spec t entries (event_id e) Ht Hid) as (j&->&Hj); [lia|]. rewrite !outcome_bind_ok, Nat2Z.id.
  destruct (IH (<[j := e]> t) (entries ++ [e])) as (t'&E&Ht').
  { by apply (so_write _ _ _ _ _ Hj). }
  { done. }
  { rewrite length_app. cbn. lia. }
  exists t'. split; [exact E|]. by rewrite (cons_middle e), (assoc_L (++)).
Qed.
End map.

Definition source_ids_ok (s : COMPACTION_SOURCE) : Prop :=
  Forall id_view (src_tombstones s) /\ Forall (fun d => id_view (doc_id d)) (documents (src_documents s)).

Lemma events_of_ok i b ids : Forall id_view ids -> forall j, Forall (fun e => id_view (event_id e) /\ event_occupied e = true) (events_of i j b ids).
Proof. induction 1; intros j; cbn [events_of]; constructor; auto. Qed.

Lemma record_sources_spec cap k sources : 0 <= k -> cap = 2 ^ k -> Forall source_ids_ok sources ->
  forall i t entries, represents cap t entries -> Z.of_nat (length entries + length (all_events i sources)) <= cap ->
  exists t', record_sources i sources (EventMap t cap) = Ok (EventMap t' cap) /\ represents cap t' (entries ++ all_events i sources).
Proof.
  intros Hk Hcap. induction 1 as [|s sources [Ht1 Hd1] _ IH]; intros i t entries Ht Hl; cbn [record_sources all_events] in *.
  { exists t. by rewrite app_nil_r. }
  rewrite !length_app in Hl.
  destruct (put_events_spec cap k Hk Hcap _ t entries Ht (events_of_ok i false _ Ht1 0)) as (t1&->&H1); [lia|].
  rewrite outcome_bind_ok.
  destruct (put_events_spec cap k Hk Hcap (events_of i 0 true (doc_id <$> documents (src_documents s))) t1 _ H1) as (t2&->&H2).
  { apply events_of_ok. by apply Forall_fmap. }
  { rewrite length_app. lia. }
  rewrite outcome_bind_ok. destruct (IH (i + 1) t2 _ H2) as (t3&->&H3); [rewrite !length_app; lia|].
  exists t3. split; [done|]. by rewrite !(assoc_L (++)) in *.
Qed.

(** What the map answers once the events [all] are entered. *)
Record map_ok (map : COMPACTION_EVENT_MAP) (all : list COMPACTION_EVENT) : Prop := {
  mo_latest : forall e, e ∈ all ->
    event_is_latest map (event_id e) (event_source e) (event_ordinal e) (event_document e) = Ok (bool_decide (latest all e));
  mo_documents : count_documents_left map = zlen (filter (fun e => event_document e = true /\ latest all e) all);
  mo_tombstones : count_tombstones_left map = zlen (filter (fun e => event_document e = false /\ latest all e) all) }.

Lemma count_left cap k t all (b : bool) : 0 <= k -> cap = 2 ^ k -> represents cap t all -> NoDup all ->
  zlen (filter (fun e => event_occupied e = true /\ event_document e = b) t) =
  zlen (filter (fun e => event_document e = b /\ latest all e) all).
Proof.
  intros Hk Hcap Ht Hd. pose proof (in_use_last_writers cap k Hk Hcap t all Ht Hd) as HP. cbn [hash_occupied event_hash_entry] in HP.
  unfold zlen. f_equal. transitivity (length (filter (fun e => event_document e = b) (filter (fun e => event_occupied e = true) t))).
  - rewrite list_filter_filter. f_equal. apply list_filter_iff. intros e. tauto.
  - rewrite HP, list_filter_filter. done.
Qed.

Lemma represents_map_ok cap k t sources : 0 <= k -> cap = 2 ^ k -> Forall source_ids_ok sources ->
  represents cap t (all_events 0 sources) -> Z.of_nat (length (all_events 0 sources)) < cap ->
  Forall (fun e => id_view (event_id e)) (all_events 0 sources) -> map_ok (EventMap t cap) (all_events 0 sources).
Proof.
  intros Hk Hcap Hs Ht Hl Hids. set (all := all_events 0 sources) in *. pose proof (all_events_NoDup sources 0) as Hd. fold all in Hd.
  split; [|by apply (count_left cap k)|by apply (count_left cap k)].
  intros e He. unfold event_is_latest.
  destruct (event_slot_spec cap k Hk Hcap t all (event_id e) Ht) as (j&->&[(e'&Hj&Hlw) _]); [by eapply Forall_forall in Hids|done|].
  rewrite outcome_bind_ok, (elem_at_lookup _ _ _ Hj), outcome_bind_ok. f_equal. symmetry.
  change (hash_occupied e') with (event_occupied e') in Hlw.
  assert (latest all e <-> event_occupied e' = true /\ e' = e) as Hlat.
  { unfold latest, entry_key. cbn [hash_id event_hash_entry]. rewrite <- Hlw. destruct (event_occupied e'); naive_solver. }
  destruct (event_occupied e') eqn:O; cbn [andb]; [|rewrite bool_decide_false; [done|]; intros [? _]%Hlat; done].
  assert (e' ∈ all) as He' by (symmetry in Hlw; by apply last_writer_elem in Hlw as [? _]).
  destruct (decide (e' = e)) as [->|N].
  - rewrite bool_decide_true, !Z.eqb_refl by (by apply Hlat). symmetry. apply Bool.eqb_reflx.
  - rewrite bool_decide_false by (intros [_ ?]%Hlat; done). destruct (Z.eqb_spec (event_source e') (event_source e)) as [E1|]; [|done].
    destruct (Z.eqb_spec (event_ordinal e') (event_ordinal e)) as [E2|]; [|done]. cbn [andb].
    symmetry. apply Bool.eqb_false_iff. intros E3. apply N. by apply (events_identified sources e' e 0).
Qed.

Lemma all_events_ids sources : Forall source_ids_ok sources -> forall i, Forall (fun e => id_view (event_id e)) (all_events i sources).
Proof.
  induction 1 as [|s sources [Ht Hd] _ IH]; intros i; cbn [all_events]; [constructor|]. rewrite !Forall_app. split_and!; [| |apply IH].
  - eapply Forall_impl; [by apply events_of_ok|]. by intros e [? _].
  - eapply Forall_impl; [apply events_of_ok; by apply Forall_fmap|]. by intros e [? _].
Qed.

Lemma events_spec {A : Allocator} sources : Forall source_ids_ok sources -> zlen (all_events 0 sources) <= 2 ^ 40 ->
  match (map ← event_map_create (zlen (all_events 0 sources)); record_sources 0 sources map) with
  | Ok map => map_ok map (all_events 0 sources)
  | Err e => e = YAP_V2_ALLOCATION_FAILED /\ exists n, alloc_ok n = false
  | Fault => False
  end.
Proof.
  intros Hs Hl. unfold event_map_create. set (n := zlen (all_events 0 sources)) in *.
  destruct (Z.eqb_spec n 0) as [E|N].
  - rewrite outcome_bind_ok. assert (all_events 0 sources = []) as En by (unfold n, zlen in E; by apply length_zero_iff_nil; lia).
    clear n E Hl. assert (forall i map, all_events i sources = [] -> record_sources i sources map = Ok map) as HR.
    { clear. induction sources as [|s sources IH]; intros i map; cbn [all_events record_sources]; [done|].
      intros [-> [-> E]%app_nil]%app_nil. cbn [put_events]. rewrite !outcome_bind_ok. by apply IH. }
    rewrite (HR 0 _ En), En. split; [intros e ?%not_elem_of_nil; done|done|done].
  - pose proof (zlen_nonneg (all_events 0 sources)) as Hz. fold n in Hz. change (SIZE_MAX / 2) with (2 ^ 63 - 1).
    rewrite (proj2 (Z.ltb_ge _ _)) by lia. destruct (grow_capacity_table true n) as (k&Hk&E&Hn&_); [lia|].
    apply (grow_capacity_fuel 60 4) in E. change (60 + 4)%nat with 64%nat in E. rewrite E, outcome_bind_ok.
    destruct (alloc_ok _) eqn:HA; [|split; [done|by eexists]]. rewrite outcome_bind_ok.
    change zero_event with (hash_zero (E:=COMPACTION_EVENT)).
    destruct (record_sources_spec (2 ^ k) k sources Hk eq_refl Hs 0 _ [] (represents_empty (2 ^ k) k Hk eq_refl)) as (t&->&Ht).
    { unfold n, zlen in *. cbn. lia. }
    apply (represents_map_ok (2 ^ k) k); [done|done|done|exact Ht| |by apply all_events_ids]. unfold n, zlen in *. lia.
Qed.

(** ** Units *)

(** The passages at the front of [l] that belong to [key], and the rest. *)
Fixpoint span_own (key : bytes) (l : list YAP_V2_PASSAGE_VIEW) : list YAP_V2_PASSAGE_VIEW * list YAP_V2_PASSAGE_VIEW :=
  match l with
  | [] => ([], [])
  | p :: l' =>
      if decide (view_bytes (parent_document_id p) = key) then let '(own, rest) := span_own key l' in (p :: own, rest) else ([], l)
  end.

Abbreviation parents_ok := (Forall (fun p => id_view (parent_document_id p) /\ id_view (passage_id p))).

Lemma span_own_app key l : (span_own key l).1 ++ (span_own key l).2 = l.
Proof.
  induction l as [|p l IH]; [done|]. cbn [span_own]. destruct (decide _); [|done].
  destruct (span_own key l) as [own rest]. cbn in *. by rewrite IH.
Qed.

Lemma span_own_ok key l : parents_ok l -> parents_ok (span_own key l).1 /\ parents_ok (span_own key l).2.
Proof. intros H. rewrite <- (span_own_app key l) in H. by apply Forall_app. Qed.

Lemma split_passages_spec id_ l : id_view id_ -> parents_ok l -> split_passages id_ l = Ok (span_own (view_bytes id_) l).
Proof.
  intros Hid. induction 1 as [|p l [Hp _] _ IH]; [done|]. cbn [split_passages span_own].
  rewrite same_bytes_spec, outcome_bind_ok by done. case_decide as D.
  - rewrite bool_decide_true by done. rewrite IH, outcome_bind_ok. by destruct (span_own _ l).
  - by rewrite bool_decide_false.
Qed.

Section units.
Context (all : list COMPACTION_EVENT) (map : COMPACTION_EVENT_MAP) (Hmap : map_ok map all).

(** The passages behind those of [docs]. *)
Fixpoint leftover (docs : list YAP_V2_DOCUMENT_VIEW) (l : list YAP_V2_PASSAGE_VIEW) : list YAP_V2_PASSAGE_VIEW :=
  match docs with
  | [] => l
  | d :: docs => leftover docs (span_own (view_bytes (doc_id d)) l).2
  end.

Definition document_event (i j : Z) (d : YAP_V2_DOCUMENT_VIEW) : COMPACTION_EVENT := CompactionEvent (doc_id d) i j true true.
Definition tombstone_event (i j : Z) (id_ : YAP_V2_BYTES_VIEW) : COMPACTION_EVENT := CompactionEvent id_ i j false true.

(** The passages of the documents that are left. *)
Fixpoint kept_passages (i j : Z) (docs : list YAP_V2_DOCUMENT_VIEW) (l : list YAP_V2_PASSAGE_VIEW) : list YAP_V2_PASSAGE_VIEW :=
  match docs with
  | [] => []
  | d :: docs =>
    let '(own, rest) := span_own (view_bytes (doc_id d)) l in
    (if decide (latest all (document_event i j d)) then own else []) ++ kept_passages i (j + 1) docs rest
  end.

(** The vectors of the passages [start], [start + 1], ... *)
Definition vectors_of (wanted : bool) (dimensions : Z) (entries : list YAP_VECTOR_ENTRY) (start : Z) (own : list YAP_V2_PASSAGE_VIEW)
  : option (list Z) :=
  if wanted then Some (concat ((fun e => take (Z.to_nat dimensions) (vec_values e)) <$> slice entries start (zlen own))) else None.

Fixpoint document_units (wanted : bool) (dimensions : Z) (entries : list YAP_VECTOR_ENTRY) (i j start : Z)
  (docs : list YAP_V2_DOCUMENT_VIEW) (l : list YAP_V2_PASSAGE_VIEW) : list YAP_V2_SEGMENT_UNIT :=
  match docs with
  | [] => []
  | d :: docs =>
    let '(own, rest) := span_own (view_bytes (doc_id d)) l in
    (if decide (latest all (document_event i j d))
     then [SegmentUnit (Some d) own (vectors_of wanted dimensions entries start own) (BytesView None 0)] else []) ++
    document_units wanted dimensions entries i (j + 1) (start + zlen own) docs rest
  end.

Fixpoint tombstone_units (i j : Z) (ids : list YAP_V2_BYTES_VIEW) : list YAP_V2_SEGMENT_UNIT :=
  match ids with
  | [] => []
  | id_ :: ids =>
    (if decide (latest all (tombstone_event i j id_)) then [SegmentUnit None [] None id_] else []) ++ tombstone_units i (j + 1) ids
  end.

Lemma is_latest_document i j d : document_event i j d ∈ all ->
  event_is_latest map (doc_id d) i j true = Ok (bool_decide (latest all (document_event i j d))).
Proof using Hmap. apply (mo_latest map all Hmap (document_event i j d)). Qed.
Lemma is_latest_tombstone i j id_ : tombstone_event i j id_ ∈ all ->
  event_is_latest map id_ i j false = Ok (bool_decide (latest all (tombstone_event i j id_))).
Proof using Hmap. apply (mo_latest map all Hmap (tombstone_event i j id_)). Qed.

Lemma count_source_spec i docs : forall j l count, events_of i j true (doc_id <$> docs) ⊆ all ->
  Forall (fun d => id_view (doc_id d)) docs -> parents_ok l -> 0 <= count -> count + zlen l <= SIZE_MAX ->
  count_source map i j docs l count =
  if decide (leftover docs l = []) then Ok (count + zlen (kept_passages i j docs l)) else Err YAP_V2_CONFLICT.
Proof using Hmap.
  induction docs as [|d docs IH]; intros j l count Hall Hids Hl H0 Hc; cbn [count_source leftover kept_passages].
  { case_decide as D; [rewrite bool_decide_true by done; by rewrite Z.add_0_r|by rewrite bool_decide_false]. }
  apply Forall_cons in Hids as [Hid Hids]. rewrite split_passages_spec, outcome_bind_ok by done.
  pose proof (span_own_ok (view_bytes (doc_id d)) l Hl) as [Hown Hrest]. pose proof (span_own_app (view_bytes (doc_id d)) l) as Happ.
  destruct (span_own (view_bytes (doc_id d)) l) as [own rest]. cbn [fst snd] in *. rewrite <- Happ, zlen_app in Hc.
  cbn [fmap list_fmap events_of] in Hall.
  rewrite is_latest_document, outcome_bind_ok by (apply Hall; by left). pose_zlen.
  assert (events_of i (j + 1) true (doc_id <$> docs) ⊆ all) as Hall' by (intros e He; apply Hall; by right).
  case_decide as D.
  - rewrite bool_decide_true by done. rewrite (proj2 (Z.ltb_ge _ _)) by lia. rewrite IH by (done || lia).
  case_decide; [|done]. f_equal. zl.
  - rewrite bool_decide_false by done. rewrite IH by (done || lia). done.
Qed.

Lemma add_tombstones_spec i unit_count ids : forall j units, events_of i j false ids ⊆ all ->
  zlen units + zlen (tombstone_units i j ids) <= unit_count ->
  add_tombstones map unit_count i j ids units = Ok (units ++ tombstone_units i j ids).
Proof using Hmap.
  induction ids as [|id_ ids IH]; intros j units Hall Hc; cbn [add_tombstones tombstone_units] in *; [by rewrite app_nil_r|].
  rewrite is_latest_tombstone, outcome_bind_ok by (apply Hall; by left). rewrite zlen_app in Hc. pose_zlen.
  assert (events_of i (j + 1) false ids ⊆ all) as Hall' by (intros e He; apply Hall; by right).
  case_decide as D.
  - rewrite bool_decide_true by done. unfold push_unit. rewrite (proj2 (Z.ltb_lt _ _)) by zl. rewrite outcome_bind_ok.
  rewrite IH; [by rewrite <- (assoc_L (++))|done|zl].
  - rewrite bool_decide_false, outcome_bind_ok by done. apply IH; [done|zl].
Qed.

(** The vectors of a source, one of the right length per passage or not. *)
Definition entries_ok (dimensions : Z) (entries : list YAP_VECTOR_ENTRY) : Prop :=
  Forall (fun e => id_view (vec_id e) /\ dimensions <= zlen (vec_values e)) entries.

Lemma copy_vectors_spec entries dimensions capacity own : forall k vector_index, entries_ok dimensions entries -> parents_ok own ->
  0 <= k -> vector_index + zlen own <= capacity ->
  match copy_vectors entries dimensions capacity k vector_index own with
  | Ok (values, vi) => Some values = vectors_of true dimensions entries k own /\ vi = vector_index + zlen own /\
    view_bytes <$> (vec_id <$> slice entries k (zlen own)) = view_bytes <$> (passage_id <$> own)
  | Err e => e = YAP_V2_CONFLICT
  | Fault => False
  end.
Proof.
  induction own as [|p own IH]; intros k vi He Ho Hk Hc; cbn [copy_vectors].
  { unfold vectors_of, slice. split_and!; [done|change (zlen (@nil YAP_V2_PASSAGE_VIEW)) with 0; lia|done]. }
  apply Forall_cons in Ho as [[_ Hp] Ho]. rewrite zlen_cons in *. pose_zlen.
  destruct (Z.leb_spec (zlen entries) k) as [|Hlt]; [done|].
  destruct (lookup_lt_is_Some_2 entries (Z.to_nat k)) as [e E]; [unfold zlen in Hlt; lia|].
  assert (elem_at (E := YAP_V2_STATUS) entries k = Ok e) as -> by (rewrite <- (Z2Nat.id k) by lia; by apply elem_at_lookup).
  rewrite outcome_bind_ok. pose proof (Forall_lookup_1 _ _ _ _ He E) as [Hid Hlen].
  rewrite same_bytes_spec, outcome_bind_ok by done. destruct (decide (view_bytes (vec_id e) = view_bytes (passage_id p))) as [Ek|];
  [rewrite bool_decide_true by done|by rewrite bool_decide_false]. cbn [negb].
  rewrite (proj2 (Z.leb_gt _ _)), (proj2 (Z.ltb_ge _ _)) by lia. cbn [orb].
  specialize (IH (k + 1) (vi + 1) He Ho ltac:(lia) ltac:(lia)).
  destruct (copy_vectors _ _ _ _ _ own) as [[values vi']| |]; [rewrite outcome_bind_ok|done..].
  destruct IH as (Hv&->&Hids). unfold vectors_of in *. injection Hv as ->.
  assert (slice entries k (1 + zlen own) = e :: slice entries (k + 1) (zlen own)) as Es.
  { unfold slice. rewrite (drop_S _ _ _ E). replace (Z.to_nat (1 + zlen own)) with (S (Z.to_nat (zlen own))) by lia.
  by replace (Z.to_nat (k + 1)) with (S (Z.to_nat k)) by lia. }
  rewrite (zlen_cons p own), Es. cbn. split_and!; [done|lia|by rewrite Ek, Hids].
Qed.

Lemma add_documents_spec unit_count dimensions total wanted entries i docs : forall j start l vector_index units,
  events_of i j true (doc_id <$> docs) ⊆ all -> Forall (fun d => id_view (doc_id d)) docs -> parents_ok l ->
  entries_ok dimensions entries -> 0 <= start ->
  zlen units + zlen (document_units wanted dimensions entries i j start docs l) <= unit_count ->
  vector_index + zlen (kept_passages i j docs l) <= total ->
  match add_documents map unit_count dimensions total wanted entries i j start docs l vector_index units with
  | Ok (vi, units') => units' = units ++ document_units wanted dimensions entries i j start docs l /\
    vi = (if wanted then vector_index + zlen (kept_passages i j docs l) else vector_index)
  | Err e => e = YAP_V2_CONFLICT /\ wanted = true
  | Fault => False
  end.
Proof using Hmap.
  induction docs as [|d docs IH]; intros j start l vi units Hall Hids Hl He Hs Hu Ht; cbn [add_documents document_units kept_passages] in *.
  { rewrite app_nil_r. split; [done|]. destruct wanted; [|done]. change (zlen (@nil YAP_V2_PASSAGE_VIEW)) with 0. lia. }
  apply Forall_cons in Hids as [Hid Hids]. rewrite split_passages_spec, outcome_bind_ok by done.
  pose proof (span_own_ok (view_bytes (doc_id d)) l Hl) as [Hown Hrest].
  destruct (span_own (view_bytes (doc_id d)) l) as [own rest]. cbn [fst snd] in *. cbn [fmap list_fmap events_of] in Hall.
  rewrite is_latest_document, outcome_bind_ok by (apply Hall; by left).
  assert (events_of i (j + 1) true (doc_id <$> docs) ⊆ all) as Hall' by (intros e He'; apply Hall; by right).
  rewrite !zlen_app in *. pose_zlen. case_decide as D.
  - rewrite bool_decide_true by done. change (zlen [?u]) with 1 in Hu.
  assert (exists r, (if wanted then '(values, vi) ← copy_vectors entries dimensions total start vi own; Ok (Some values, vi)
                   else Ok (None, vi)) = r /\
  match r with
  | Ok (v, vi') => v = vectors_of wanted dimensions entries start own /\ vi' = (if wanted then vi + zlen own else vi)
  | Err e => e = YAP_V2_CONFLICT /\ wanted = true
  | Fault => False
  end) as (r&->&Hr).
  { eexists. split; [done|]. destruct wanted; [|done].
  pose proof (copy_vectors_spec entries dimensions total own start vi He Hown Hs ltac:(lia)) as HC.
  destruct (copy_vectors _ _ _ _ _ own) as [[values vi']| |]; [rewrite outcome_bind_ok|done..].
  destruct HC as (?&?&_). done. }
  destruct r as [[v vi']|e|]; [rewrite outcome_bind_ok|done..]. destruct Hr as [-> ->].
  unfold push_unit. rewrite (proj2 (Z.ltb_lt _ _)), outcome_bind_ok by lia.
  specialize (IH (j + 1) (start + zlen own) rest (if wanted then vi + zlen own else vi)
  (units ++ [SegmentUnit (Some d) own (vectors_of wanted dimensions entries start own) (BytesView None 0)])
  Hall' Hids Hrest He ltac:(lia) ltac:(zl) ltac:(destruct wanted; lia)).
  destruct (add_documents _ _ _ _ _ _ _ _ _ docs _ _ _) as [[vi' units']|e|]; [|done..].
  destruct IH as [-> ->]. split; [by rewrite <- (assoc_L (++))|]. destruct wanted; [lia|done].
  - rewrite bool_decide_false by done. cbn [app]. change (zlen (@nil YAP_V2_PASSAGE_VIEW)) with 0 in *.
  change (zlen (@nil YAP_V2_SEGMENT_UNIT)) with 0 in *.
  specialize (IH (j + 1) (start + zlen own) rest vi units Hall' Hids Hrest He ltac:(lia) ltac:(lia) ltac:(lia)).
  destruct (add_documents _ _ _ _ _ _ _ _ _ docs _ _ _) as [[vi' units']|e|]; [|done..].
  destruct IH as [-> ->]. split; [done|]. destruct wanted; [lia|done].
Qed.
End units.

(** ** All sources *)
Definition grouped (s : COMPACTION_SOURCE) : Prop := leftover (documents (src_documents s)) (passages (src_documents s)) = [].
#[export] Instance grouped_dec s : Decision (grouped s).
Proof. unfold grouped. destruct (leftover _ _); [by left|by right]. Defined.

Definition source_ok (dimensions : Z) (s : COMPACTION_SOURCE) : Prop :=
  source_ids_ok s /\ parents_ok (passages (src_documents s)) /\ entries_ok dimensions (vs_entries (src_vectors s)).

Fixpoint passages_left (all : list COMPACTION_EVENT) (i : Z) (sources : list COMPACTION_SOURCE) : list YAP_V2_PASSAGE_VIEW :=
  match sources with
  | [] => []
  | s :: sources => kept_passages all i 0 (documents (src_documents s)) (passages (src_documents s)) ++ passages_left all (i + 1) sources
  end.

(** The units, source by source: in each its tombstones, unless they are dropped, and its
    documents. *)
Fixpoint units_left (all : list COMPACTION_EVENT) (dropping wanted : bool) (dimensions i : Z) (sources : list COMPACTION_SOURCE)
  : list YAP_V2_SEGMENT_UNIT :=
  match sources with
  | [] => []
  | s :: sources =>
      ((if dropping then [] else tombstone_units all i 0 (src_tombstones s)) ++
       document_units all wanted dimensions (vs_entries (src_vectors s)) i 0 0 (documents (src_documents s)) (passages (src_documents s))) ++
      units_left all dropping wanted dimensions (i + 1) sources
  end.

Definition passage_sum (sources : list COMPACTION_SOURCE) : Z := foldr (fun s n => zlen (passages (src_documents s)) + n) 0 sources.

Lemma zlen_kept_passages all i docs : forall j l, zlen (kept_passages all i j docs l) <= zlen l.
Proof.
  induction docs as [|d docs IH]; intros j l; cbn [kept_passages]; [zl|]. pose proof (span_own_app (view_bytes (doc_id d)) l) as E.
  destruct (span_own _ l) as [own rest]. cbn in E. rewrite <- E, !zlen_app. specialize (IH (j + 1) rest). pose_zlen.
  case_decide; [lia|]. change (zlen (@nil YAP_V2_PASSAGE_VIEW)) with 0. lia.
Qed.

Lemma zlen_document_units all wanted dims entries i docs : forall j start l,
  zlen (document_units all wanted dims entries i j start docs l) = zlen (filter (fun e => event_document e = true /\ latest all e) (events_of i j true (doc_id <$> docs))).
Proof.
  induction docs as [|d docs IH]; intros j start l; cbn [document_units fmap list_fmap events_of]; [done|].
  destruct (span_own _ l) as [own rest]. rewrite zlen_app, IH, filter_cons. unfold document_event.
  do 2 case_decide; try tauto; zl.
Qed.

Lemma zlen_tombstone_units all i ids : forall j,
  zlen (tombstone_units all i j ids) = zlen (filter (fun e => event_document e = false /\ latest all e) (events_of i j false ids)).
Proof.
  induction ids as [|id_ ids IH]; intros j; cbn [tombstone_units events_of]; [done|].
  rewrite zlen_app, IH, filter_cons. unfold tombstone_event. do 2 case_decide; try tauto; zl.
Qed.

Lemma filter_other_kind all i (b b' : bool) ids : b <> b' -> forall j,
  filter (fun e => event_document e = b /\ latest all e) (events_of i j b' ids) = [].
Proof.
  intros Hb. induction ids as [|id_ ids IH]; intros j; cbn [events_of]; [done|].
  rewrite filter_cons_False; [apply IH|]. cbn. intros [E _]. congruence.
Qed.

Lemma zlen_units_left all dropping wanted dims sources : forall i,
  zlen (units_left all dropping wanted dims i sources) =
  (if dropping then 0 else zlen (filter (fun e => event_document e = false /\ latest all e) (all_events i sources))) +
  zlen (filter (fun e => event_document e = true /\ latest all e) (all_events i sources)).
Proof.
  induction sources as [|s sources IH]; intros i; cbn [units_left all_events]; [by destruct dropping|].
  rewrite !filter_app, !zlen_app, IH, zlen_document_units, (filter_other_kind all i true false), (filter_other_kind all i false true) by done.
  destruct dropping; rewrite ?zlen_tombstone_units; zl.
Qed.

Section sources.
Context (all : list COMPACTION_EVENT) (map : COMPACTION_EVENT_MAP) (Hmap : map_ok map all).

Lemma count_passages_spec dims sources : Forall (source_ok dims) sources -> forall i count, all_events i sources ⊆ all -> 0 <= count ->
  count + passage_sum sources <= SIZE_MAX ->
  count_passages map i sources count =
  if decide (Forall grouped sources) then Ok (count + zlen (passages_left all i sources)) else Err YAP_V2_CONFLICT.
Proof using Hmap.
  induction 1 as [|s sources ([Ht Hd]&Hp&He) _ IH]; intros i count Hall H0 Hc; cbn [count_passages passages_left passage_sum foldr] in *.
  { rewrite decide_True by constructor. by rewrite Z.add_0_r. }
  fold (passage_sum sources) in Hc. cbn [all_events] in Hall.
  assert (0 <= passage_sum sources) as Hps by (clear; induction sources as [|s sources IH]; cbn; [lia|]; unfold passage_sum in *; pose_zlen; lia).
  rewrite (count_source_spec all map Hmap); [|set_solver|done|done|done|lia].
  pose proof (zlen_kept_passages all i (documents (src_documents s)) 0 (passages (src_documents s))). pose_zlen.
  destruct (decide (leftover _ _ = [])) as [G|G].
  - rewrite outcome_bind_ok, IH; [|set_solver|lia|lia]. rewrite zlen_app, Z.add_assoc.
  destruct (decide (Forall grouped sources)) as [F|F]; [rewrite decide_True by (by constructor); done|].
  rewrite decide_False; [done|]. by intros [_ ?]%Forall_cons.
  - rewrite decide_False; [done|]. by intros [? _]%Forall_cons.
Qed.

Lemma add_sources_spec unit_count dims total wanted dropping sources : Forall (source_ok dims) sources ->
  forall i vector_index units, all_events i sources ⊆ all ->
  zlen units + zlen (units_left all dropping wanted dims i sources) <= unit_count ->
  vector_index + zlen (passages_left all i sources) <= total ->
  match add_sources map unit_count dims total wanted dropping i sources vector_index units with
  | Ok (vi, units') => units' = units ++ units_left all dropping wanted dims i sources /\
    vi = (if wanted then vector_index + zlen (passages_left all i sources) else vector_index)
  | Err e => e = YAP_V2_CONFLICT /\ wanted = true
  | Fault => False
  end.
Proof using Hmap.
  induction 1 as [|s sources ([Ht Hd]&Hp&He) _ IH]; intros i vi units Hall Hu Hv; cbn [add_sources units_left passages_left all_events] in *.
  { rewrite app_nil_r. split; [done|]. destruct wanted; [|done]. change (zlen (@nil YAP_V2_PASSAGE_VIEW)) with 0. lia. }
  rewrite !zlen_app in *. pose_zlen.
  assert ((if dropping then Ok units else add_tombstones map unit_count i 0 (src_tombstones s) units) =
        Ok (units ++ (if dropping then [] else tombstone_units all i 0 (src_tombstones s)))) as ->.
  { destruct dropping; [by rewrite app_nil_r|]. apply (add_tombstones_spec all map Hmap); [set_solver|lia]. }
  rewrite outcome_bind_ok. set (units1 := units ++ _).
  assert (zlen units1 = zlen units + zlen (if dropping then [] else tombstone_units all i 0 (src_tombstones s))) as Hz1 by (unfold units1; zl).
  pose proof (add_documents_spec all map Hmap unit_count dims total wanted (vs_entries (src_vectors s)) i (documents (src_documents s)) 0 0
  (passages (src_documents s)) vi units1 ltac:(set_solver) Hd Hp He ltac:(lia) ltac:(lia) ltac:(lia)) as HA.
  destruct (add_documents _ _ _ _ _ _ _ _ _ _ _ _ _) as [[vi1 units2]|e|]; [rewrite outcome_bind_ok|done..].
  destruct HA as [-> ->].
  specialize (IH (i + 1) (if wanted then vi + zlen (kept_passages all i 0 (documents (src_documents s)) (passages (src_documents s))) else vi)
  (units1 ++ document_units all wanted dims (vs_entries (src_vectors s)) i 0 0 (documents (src_documents s)) (passages (src_documents s)))
  ltac:(set_solver) ltac:(rewrite zlen_app; lia) ltac:(destruct wanted; lia)).
  destruct (add_sources _ _ _ _ _ _ _ sources _ _) as [[vi2 units3]|e|]; [|done..]. destruct IH as [-> ->].
  split; [unfold units1; by rewrite !(assoc_L (++))|]. destruct wanted; [lia|done].
Qed.
End sources.

Lemma zlen_passages_left all sources : forall i, zlen (passages_left all i sources) <= passage_sum sources.
Proof.
  induction sources as [|s sources IH]; intros i; cbn [passages_left passage_sum foldr]; [done|]. rewrite zlen_app.
  pose proof (zlen_kept_passages all i (documents (src_documents s)) 0 (passages (src_documents s))).
  specialize (IH (i + 1)). unfold passage_sum in *. lia.
Qed.

Lemma wanted_enabled config total : vectors_wanted config total = true -> vector_metric config <> YAP_V2_VECTOR_DISABLED.
Proof. unfold vectors_wanted. intros [H1 _]%andb_true_iff. by apply negb_true_iff, Z.eqb_neq in H1. Qed.

Lemma alloc_vectors_spec {A : Allocator} config total : 0 <= total <= 2 ^ 40 ->
  1 <= vector_dimensions config <= YAP_V2_MAX_VECTOR_DIMENSIONS \/ vector_metric config = YAP_V2_VECTOR_DISABLED ->
  alloc_vectors config total = Ok tt \/ alloc_vectors config total = Err YAP_V2_ALLOCATION_FAILED /\ exists n, alloc_ok n = false.
Proof.
  intros Htot Hdim. unfold alloc_vectors. destruct (vectors_wanted config total) eqn:W; [|by left].
  apply wanted_enabled in W. destruct Hdim as [Hd|]; [|done]. unfold YAP_V2_MAX_VECTOR_DIMENSIONS in Hd.
  rewrite (proj2 (Z.eqb_neq _ _)) by lia.
  assert (total <= SIZE_MAX / vector_dimensions config) as H1 by (apply Z.div_le_lower_bound; [lia|]; unfold SIZE_MAX; nia).
  rewrite (proj2 (Z.ltb_ge _ _)), (proj2 (Z.ltb_ge _ _)); [| |exact H1].
  2: { change (SIZE_MAX / sizeof_float) with (2 ^ 62 - 1). nia. }
  cbn [orb]. destruct (negb _) eqn:T; [|by left]. right. split; [done|]. apply negb_true_iff in T. by eexists.
Qed.

Lemma collect_sources_spec {A : Allocator} config sources dropping : let all := all_events 0 sources in
  Forall (source_ok (vector_dimensions config)) sources -> zlen all <= 2 ^ 40 -> passage_sum sources <= 2 ^ 40 ->
  1 <= vector_dimensions config <= YAP_V2_MAX_VECTOR_DIMENSIONS \/ vector_metric config = YAP_V2_VECTOR_DISABLED ->
  match collect_sources config sources (zlen all) dropping with
  | Ok input => Forall grouped sources /\
      in_units input = units_left all dropping (vectors_wanted config (zlen (passages_left all 0 sources))) (vector_dimensions config) 0 sources /\
      in_document_count input = zlen (filter (fun e => event_document e = true /\ latest all e) all) /\
      in_passage_count input = zlen (passages_left all 0 sources)
  | Err e => e = YAP_V2_ALLOCATION_FAILED /\ (exists n, alloc_ok n = false) \/
      e = YAP_V2_CONFLICT /\ (~ Forall grouped sources \/ vector_metric config <> YAP_V2_VECTOR_DISABLED)
  | Fault => False
  end.
Proof.
  intros all Hs Hn Hp Hdim. pose proof (events_spec sources) as HE. fold all in HE. unfold collect_sources.
  assert (Forall source_ids_ok sources) as Hids by (eapply Forall_impl; [exact Hs|]; by intros s (?&_)).
  specialize (HE Hids Hn).
  destruct (event_map_create (zlen all)) as [m0|e|]; [|left; exact HE|exact HE]. rewrite outcome_bind_ok.
  change (match record_sources 0 sources m0 with
          | Ok map => map_ok map all | Err e => e = YAP_V2_ALLOCATION_FAILED /\ (exists n, alloc_ok n = false) | Fault => False end) in HE.
  destruct (record_sources 0 sources m0) as [map|e|]; [rewrite outcome_bind_ok|left; exact HE|exact HE].
  rewrite (mo_documents map all HE), (mo_tombstones map all HE).
  assert (forall (P : COMPACTION_EVENT -> Prop) `{forall e, Decision (P e)}, zlen (filter P all) <= zlen all) as Hf.
  { intros P HP. unfold zlen. pose proof (length_filter P all). lia. }
  set (dc := zlen (filter (fun e => event_document e = true /\ latest all e) all)).
  set (tc := zlen (filter (fun e => event_document e = false /\ latest all e) all)).
  assert (0 <= dc <= 2 ^ 40 /\ 0 <= tc <= 2 ^ 40) as [Hdc Htc].
  { unfold dc, tc. pose proof (Hf (fun e => event_document e = true /\ latest all e) _).
    pose proof (Hf (fun e => event_document e = false /\ latest all e) _). pose_zlen. lia. }
  rewrite (proj2 (Z.ltb_ge _ _)) by (unfold SIZE_MAX; destruct dropping; lia).
  rewrite (count_passages_spec all map HE (vector_dimensions config) sources Hs) by (done || (unfold SIZE_MAX; lia)). rewrite Z.add_0_l.
  destruct (decide (Forall grouped sources)) as [G|G]; [rewrite outcome_bind_ok|right; split; [done|by left]].
  destruct (_ && _) eqn:T1; [left; split; [done|]; apply andb_true_iff in T1 as [_ T1%negb_true_iff]; by eexists|].
  set (total := zlen (passages_left all 0 sources)).
  assert (0 <= total <= 2 ^ 40) as Htot.
  { unfold total. split; [apply zlen_nonneg|]. pose proof (zlen_passages_left all sources 0). lia. }
  destruct (alloc_vectors_spec config total Htot Hdim) as [->|[-> HA]]; [rewrite outcome_bind_ok|left; done].
  pose proof (zlen_units_left all dropping (vectors_wanted config total) (vector_dimensions config) sources 0) as HU.
  fold all in HU. fold dc tc in HU.
  pose proof (add_sources_spec all map HE ((if dropping then 0 else tc) + dc) (vector_dimensions config) total (vectors_wanted config total)
    dropping sources Hs 0 0 [] ltac:(done) ltac:(rewrite HU; destruct dropping; change (zlen (@nil YAP_V2_SEGMENT_UNIT)) with 0; lia)
    ltac:(unfold total; lia)) as HA.
  destruct (add_sources _ _ _ _ _ _ _ _ _ _) as [[vi units]|e|]; [rewrite outcome_bind_ok|right; split; [apply HA|right; by apply (wanted_enabled config total), HA]|done].
  destruct HA as [-> ->]. cbn [app]. rewrite HU, Z.eqb_refl. cbn [negb orb]. fold total. rewrite Z.add_0_l.
  destruct (vectors_wanted config total) eqn:W; [rewrite Z.eqb_refl|]; cbn [andb negb]; split_and!; done.
Qed.

(** ** Effects on the documents

    What a segment says about documents, in the order in which a snapshot enters it: a tombstone
    hides a document, a document replaces it. *)
Abbreviation effect := (bytes * option YAP_V2_DOCUMENT_VIEW)%type.

Definition segment_effects (s : SNAPSHOT_SEGMENT) : list effect :=
  ((fun v => (view_bytes v, None)) <$> seg_tombstones s) ++ ((fun d => (view_bytes (doc_id d), Some d)) <$> documents (seg_documents s)).
Definition effects (segs : list SNAPSHOT_SEGMENT) : list effect := concat (segment_effects <$> segs).

(** The last effect on a document. *)
Definition last_effect (key : bytes) (l : list effect) : option (option YAP_V2_DOCUMENT_VIEW) :=
  snd <$> last (filter (fun p => p.1 = key) l).

Lemma filter_fmap_key {X} (f : X -> effect) key (l : list X) :
  filter (fun p => p.1 = key) (f <$> l) = f <$> filter (fun x => (f x).1 = key) l.
Proof.
  induction l as [|x l IH]; [done|]. rewrite fmap_cons, !filter_cons. case_decide; [cbn; by rewrite IH|exact IH].
Qed.

Lemma last_effect_app key a b :
  last_effect key (a ++ b) = match last_effect key b with Some x => Some x | None => last_effect key a end.
Proof. unfold last_effect. rewrite filter_app, last_app. by destruct (last (filter _ b)). Qed.

Lemma last_effect_fmap {X} (f : X -> effect) key l : last_effect key (f <$> l) = (fun x => (f x).2) <$> last (filter (fun x => (f x).1 = key) l).
Proof. unfold last_effect. rewrite filter_fmap_key, fmap_last, <- option_fmap_compose. done. Qed.

Lemma last_effect_elem key l x : NoDup l.*1 -> last_effect key l = Some x <-> (key, x) ∈ l.
Proof.
  intros Hd. unfold last_effect. split.
  - intros ([k y]&Hl&E)%fmap_Some. cbn in E. subst. apply last_Some_elem_of, list_elem_of_filter in Hl as [Hk Hl]. cbn in Hk. by subst.
  - intros Hin. assert (filter (fun p => p.1 = key) l = [(key, x)]) as ->; [|done].
    induction l as [|[k y] l IH]; [by apply not_elem_of_nil in Hin|]. cbn in Hd. apply NoDup_cons in Hd as [Hk Hd].
    apply elem_of_cons in Hin as [[= <- <-]|Hin].
    + rewrite filter_cons_True by done. f_equal. destruct (filter _ l) as [|q r] eqn:E; [done|].
      assert (q ∈ filter (fun p : effect => p.1 = key) l) as [Hq Hql]%list_elem_of_filter by (rewrite E; by left).
      destruct Hk. apply list_elem_of_fmap. by exists q.
    + rewrite filter_cons_False; [by apply IH|]. cbn. intros ->. apply Hk, list_elem_of_fmap. by exists (key, x).
Qed.

Lemma last_effect_perm key l l' : l ≡ₚ l' -> NoDup l.*1 -> last_effect key l = last_effect key l'.
Proof.
  intros HP Hd. apply option_eq. intros x. rewrite !last_effect_elem; [|by rewrite <- HP|done]. by rewrite HP.
Qed.

(** The entries of the visibility table are the effects. *)
Lemma segment_entries_effects segs : forall s, (fun e => (entry_key e, entry_document e)) <$> segment_entries s segs = effects segs.
Proof.
  assert (forall s docs i, (fun e => (entry_key e, entry_document e)) <$> document_entries s i docs =
    (fun d => (view_bytes (doc_id d), Some d)) <$> docs) as HD.
  { intros s docs. induction docs as [|d docs IH]; intros i; [done|]. cbn. by rewrite IH. }
  induction segs as [|seg segs IH]; intros s; [done|]. cbn [segment_entries]. rewrite !fmap_app, IH, HD. unfold effects.
  cbn. unfold segment_effects. rewrite <- (assoc_L (++)). f_equal. by rewrite <- list_fmap_compose.
Qed.

Definition visible_document (key : bytes) (segs : list SNAPSHOT_SEGMENT) : option YAP_V2_DOCUMENT_VIEW :=
  default None (last_effect key (effects segs)).

Lemma last_writer_effect key segs : entry_document <$> last_writer key (segment_entries 0 segs) = last_effect key (effects segs).
Proof. rewrite <- (segment_entries_effects segs 0), last_effect_fmap. done. Qed.

(** ** What the units say *)
Definition as_segment (s : COMPACTION_SOURCE) : SNAPSHOT_SEGMENT := SnapshotSegment 0 (src_documents s) (src_tombstones s).

Definition unit_effect (u : YAP_V2_SEGMENT_UNIT) : effect :=
  match unit_document u with
  | Some d => (view_bytes (doc_id d), Some d)
  | None => (view_bytes (unit_tombstone u), None)
  end.

(** Events with their effects. *)
Fixpoint document_pairs (i j : Z) (docs : list YAP_V2_DOCUMENT_VIEW) : list (COMPACTION_EVENT * option YAP_V2_DOCUMENT_VIEW) :=
  match docs with
  | [] => []
  | d :: docs => (document_event i j d, Some d) :: document_pairs i (j + 1) docs
  end.
Fixpoint tombstone_pairs (i j : Z) (ids : list YAP_V2_BYTES_VIEW) : list (COMPACTION_EVENT * option YAP_V2_DOCUMENT_VIEW) :=
  match ids with
  | [] => []
  | id_ :: ids => (tombstone_event i j id_, None) :: tombstone_pairs i (j + 1) ids
  end.
Fixpoint source_pairs (i : Z) (sources : list COMPACTION_SOURCE) : list (COMPACTION_EVENT * option YAP_V2_DOCUMENT_VIEW) :=
  match sources with
  | [] => []
  | s :: sources => tombstone_pairs i 0 (src_tombstones s) ++ document_pairs i 0 (documents (src_documents s)) ++ source_pairs (i + 1) sources
  end.

Definition pair_effect (p : COMPACTION_EVENT * option YAP_V2_DOCUMENT_VIEW) : effect := (entry_key p.1, p.2).

Lemma document_pairs_fst i docs : forall j, (document_pairs i j docs).*1 = events_of i j true (doc_id <$> docs).
Proof. induction docs as [|d docs IH]; intros j; [done|]. cbn. by rewrite IH. Qed.
Lemma tombstone_pairs_fst i ids : forall j, (tombstone_pairs i j ids).*1 = events_of i j false ids.
Proof. induction ids as [|d ids IH]; intros j; [done|]. cbn. by rewrite IH. Qed.
Lemma source_pairs_fst sources : forall i, (source_pairs i sources).*1 = all_events i sources.
Proof.
  induction sources as [|s sources IH]; intros i; [done|]. cbn [source_pairs all_events].
  by rewrite !fmap_app, tombstone_pairs_fst, document_pairs_fst, IH.
Qed.

Lemma source_pairs_effects sources : forall i, pair_effect <$> source_pairs i sources = effects (as_segment <$> sources).
Proof.
  assert (forall i docs j, pair_effect <$> document_pairs i j docs = (fun d => (view_bytes (doc_id d), Some d)) <$> docs) as HD.
  { intros i docs. induction docs as [|d docs IH]; intros j; [done|]. cbn. by rewrite IH. }
  assert (forall i ids j, pair_effect <$> tombstone_pairs i j ids = (fun v => (view_bytes v, None)) <$> ids) as HT.
  { intros i ids. induction ids as [|d ids IH]; intros j; [done|]. cbn. by rewrite IH. }
  induction sources as [|s sources IH]; intros i; [done|]. cbn [source_pairs]. rewrite !fmap_app, HT, HD, IH.
  unfold effects. cbn. unfold segment_effects. by rewrite <- (assoc_L (++)).
Qed.

(** An event is a document exactly when its effect is one. *)
Lemma source_pairs_kind sources p : forall i, p ∈ source_pairs i sources -> event_document p.1 = bool_decide (is_Some p.2).
Proof.
  assert (forall i docs j, p ∈ document_pairs i j docs -> event_document p.1 = bool_decide (is_Some p.2)) as HD.
  { intros i docs. induction docs as [|d docs IH]; intros j; cbn; [by intros ?%not_elem_of_nil|]. intros [->|H]%elem_of_cons; [done|by eapply IH]. }
  assert (forall i ids j, p ∈ tombstone_pairs i j ids -> event_document p.1 = bool_decide (is_Some p.2)) as HT.
  { intros i ids. induction ids as [|d ids IH]; intros j; cbn; [by intros ?%not_elem_of_nil|]. intros [->|H]%elem_of_cons; [done|by eapply IH]. }
  induction sources as [|s sources IH]; intros i; cbn [source_pairs]; [by intros ?%not_elem_of_nil|].
  rewrite !elem_of_app. intros [H|[H|H]]; eauto.
Qed.

(** The units are the latest events. *)
Definition left (all : list COMPACTION_EVENT) (dropping : bool) (p : COMPACTION_EVENT * option YAP_V2_DOCUMENT_VIEW) : Prop :=
  latest all p.1 /\ (dropping = true -> event_document p.1 = true).
#[export] Instance left_dec all dropping p : Decision (left all dropping p).
Proof. unfold left. apply _. Defined.

Lemma units_left_effects all dropping wanted dims sources : forall i,
  unit_effect <$> units_left all dropping wanted dims i sources = pair_effect <$> filter (left all dropping) (source_pairs i sources).
Proof.
  assert (forall entries i docs j start l, unit_effect <$> document_units all wanted dims entries i j start docs l =
    pair_effect <$> filter (left all dropping) (document_pairs i j docs)) as HD.
  { intros entries i docs. induction docs as [|d docs IH]; intros j start l; [done|]. cbn [document_units document_pairs].
    destruct (span_own _ l) as [own rest]. rewrite fmap_app, IH, filter_cons. unfold left. cbn [fst event_document document_event].
    do 2 case_decide; try tauto; done. }
  assert (forall i ids j, unit_effect <$> (if dropping then [] else tombstone_units all i j ids) =
    pair_effect <$> filter (left all dropping) (tombstone_pairs i j ids)) as HT.
  { intros i ids. induction ids as [|id_ ids IH]; intros j; [by destruct dropping|]. cbn [tombstone_units tombstone_pairs].
    rewrite filter_cons. unfold left at 1. cbn [fst event_document tombstone_event]. specialize (IH (j + 1)). destruct dropping.
    - rewrite decide_False by (intros [_ H]; by specialize (H eq_refl)). exact IH.
    - rewrite fmap_app, IH. do 2 case_decide; try tauto; done. }
  induction sources as [|s sources IH]; intros i; [done|]. cbn [units_left source_pairs].
  by rewrite !fmap_app, HT, HD, IH, !filter_app, !fmap_app, (assoc_L (++)).
Qed.

(** Every document has one unit at most. *)
Lemma left_keys_NoDup all dropping sources : NoDup (pair_effect <$> filter (left all dropping) (source_pairs 0 sources)).*1.
Proof.
  rewrite <- list_fmap_compose. assert (NoDup (source_pairs 0 sources).*1) as Hd by (rewrite source_pairs_fst; apply all_events_NoDup).
  revert Hd. generalize (source_pairs 0 sources) as l. induction l as [|p l IH]; cbn [fmap list_fmap]; [constructor|].
  intros [Hp Hd]%NoDup_cons. rewrite filter_cons. case_decide as D; [|by apply IH]. cbn. constructor; [|by apply IH].
  intros (q&E&[Hq Hin]%list_elem_of_filter)%list_elem_of_fmap. apply Hp. cbn in E.
  destruct D as [D _], Hq as [Hq _]. unfold latest in *. cbn in E. rewrite E in D. rewrite D in Hq. injection Hq as ->.
  apply list_elem_of_fmap. by exists q.
Qed.

(** The units say the same as the sources; dropped tombstones say nothing. *)
Lemma units_last_effect dropping wanted dims sources key : let all := all_events 0 sources in
  last_effect key (unit_effect <$> units_left all dropping wanted dims 0 sources) =
  match last_effect key (effects (as_segment <$> sources)) with
  | Some None => if dropping then None else Some None
  | r => r
  end.
Proof.
  intros all. rewrite units_left_effects, <- (source_pairs_effects sources 0).
  assert (last_writer key all = fst <$> last (filter (fun p => (pair_effect p).1 = key) (source_pairs 0 sources))) as HL.
  { unfold last_writer, all. rewrite <- source_pairs_fst. generalize (source_pairs 0 sources) as l. intros l. rewrite <- fmap_last. f_equal.
    induction l as [|p l IH]; [done|]. rewrite fmap_cons, !filter_cons. cbn [pair_effect fst]. case_decide; cbn; by rewrite IH. }
  rewrite (last_effect_fmap pair_effect key (source_pairs 0 sources)). cbn [pair_effect fst snd].
  destruct (last (filter _ (source_pairs 0 sources))) as [p|] eqn:E; cbn [fmap option_fmap option_map] in *.
  - apply last_Some_elem_of, list_elem_of_filter in E as [Hk Hin]. cbn in Hk. pose proof (source_pairs_kind _ _ _ Hin) as Hkind.
    assert (latest all p.1) as Hlat by (unfold latest; by rewrite Hk).
    assert (left all dropping p -> last_effect key (pair_effect <$> filter (left all dropping) (source_pairs 0 sources)) = Some p.2) as Hin'.
    { intros Hleft. apply last_effect_elem; [apply left_keys_NoDup|]. apply list_elem_of_fmap. exists p. split; [by rewrite <- Hk|].
      by apply list_elem_of_filter. }
    destruct p as [e [d|]]; cbn [fst snd] in *; [apply Hin'; split; [done|]; intros _; exact Hkind|].
    destruct dropping; [|by apply Hin'; split].
    apply eq_None_ne_Some. intros x Hx. apply last_effect_elem in Hx; [|apply left_keys_NoDup].
    apply list_elem_of_fmap in Hx as (q&Eq&[[Hq Hqd] Hqin]%list_elem_of_filter). injection Eq as Eq1 Eq2.
    unfold latest in Hq, Hlat. rewrite <- Eq1, <- Hk in Hq. rewrite Hlat in Hq. injection Hq as Hq. cbn [fst] in Hqd.
    specialize (Hqd eq_refl). rewrite <- Hq, Hkind in Hqd. done.
  - apply eq_None_ne_Some. intros x Hx. apply last_effect_elem in Hx; [|apply left_keys_NoDup].
    apply list_elem_of_fmap in Hx as (q&Eq&[[Hq Hqd] Hqin]%list_elem_of_filter). injection Eq as Eq1 Eq2.
    unfold latest in Hq. rewrite <- Eq1, HL in Hq. done.
Qed.

(** ** The compacted segments *)

(** [seg] holds what the slice writer collects from [units]. *)
Definition holds_units (seg : SNAPSHOT_SEGMENT) (units : list YAP_V2_SEGMENT_UNIT) : Prop :=
  documents (seg_documents seg) = slice_documents (collect_slice units) /\ seg_tombstones seg = slice_tombstones (collect_slice units).

Lemma holds_units_effects seg units : holds_units seg units -> segment_effects seg ≡ₚ unit_effect <$> units.
Proof.
  unfold holds_units, segment_effects. intros [-> ->].
  induction units as [|u units IH]; [done|]. cbn [collect_slice fmap list_fmap]. unfold unit_effect at 1.
  destruct (unit_document u) as [d|]; cbn [slice_documents slice_tombstones fmap list_fmap app]; [|by rewrite IH].
  by rewrite <- Permutation_middle, IH.
Qed.

Definition unit_ok (u : YAP_V2_SEGMENT_UNIT) : Prop :=
  match unit_document u with Some d => id_view (doc_id d) | None => id_view (unit_tombstone u) end.

Lemma holds_units_ok seg units : holds_units seg units -> Forall unit_ok units -> snapshot_segment_ok seg.
Proof.
  unfold holds_units, snapshot_segment_ok. intros [-> ->]. induction 1 as [|u units Hu _ IH]; [done|].
  cbn [collect_slice]. unfold unit_ok in Hu. destruct IH, (unit_document u); cbn; split; auto.
Qed.

Lemma units_left_ok all dropping wanted dims sources : Forall source_ids_ok sources ->
  forall i, Forall unit_ok (units_left all dropping wanted dims i sources).
Proof.
  assert (forall i ids, Forall id_view ids -> forall j, Forall unit_ok (tombstone_units all i j ids)) as HT.
  { intros i ids. induction 1; intros j; cbn [tombstone_units]; [done|]. apply Forall_app. split; [case_decide; auto|auto]. }
  assert (forall entries i docs, Forall (fun d => id_view (doc_id d)) docs -> forall j start l,
    Forall unit_ok (document_units all wanted dims entries i j start docs l)) as HD.
  { intros entries i docs. induction 1; intros j start ps; cbn [document_units]; [done|]. destruct (span_own _ ps).
    apply Forall_app. split; [case_decide; auto|auto]. }
  induction 1 as [|s sources [Ht Hd] _ IH]; intros i; cbn [units_left]; [done|]. rewrite !Forall_app. split_and!; auto.
  destruct dropping; auto.
Qed.

Section compacted.
Context (units : list YAP_V2_SEGMENT_UNIT) (slices : list YAP_V2_SEGMENT_SLICE) (compacted : list SNAPSHOT_SEGMENT).
Context (Hcover : covers 0 (zlen units) slices).
Context (Hheld : Forall2 (fun seg s => holds_units seg (slice_units units s)) compacted slices).

Lemma slices_units : concat (slice_units units <$> slices) = units.
Proof using Hcover.
  rewrite (covers_units units 0 (zlen units)) by (done || lia). unfold slice. cbn. rewrite Z.sub_0_r.
  apply take_ge. unfold zlen. lia.
Qed.

Lemma compacted_effects : effects compacted ≡ₚ unit_effect <$> units.
Proof using Hcover Hheld.
  rewrite <- slices_units. unfold effects. clear Hcover. revert Hheld. induction 1 as [|seg s segs ss H _ IH]; [done|].
  cbn [fmap list_fmap concat]. rewrite fmap_app. by rewrite (holds_units_effects _ _ H), IH.
Qed.

Lemma compacted_ok : Forall unit_ok units -> Forall snapshot_segment_ok compacted.
Proof using Hcover Hheld.
  rewrite <- slices_units at 1. clear Hcover. revert Hheld. induction 1 as [|seg s segs ss H _ IH]; [done|].
  cbn [fmap list_fmap concat]. rewrite Forall_app. intros [? ?]. constructor; [by eapply holds_units_ok|by apply IH].
Qed.
End compacted.

Lemma zlen_segment_entries segs : zlen (segment_entries 0 segs) = zlen (effects segs).
Proof. rewrite <- (segment_entries_effects segs 0). by rewrite zlen_fmap. Qed.

Lemma effects_app a b : effects (a ++ b) = effects a ++ effects b.
Proof. unfold effects. by rewrite fmap_app, concat_app. Qed.

(** What a lookup answers depends on the last effect only. *)
Lemma lookup_effect {A : Allocator} segs t id : Forall snapshot_segment_ok segs -> zlen (segment_entries 0 segs) <= 2 ^ 40 ->
  snapshot_build_visibility segs = Ok t -> id_view id ->
  (hit ← YAP_V2_snapshot_lookup_document t id; Ok (hit_document hit)) =
    match visible_document (view_bytes id) segs with Some d => Ok d | None => Err YAP_V2_NOT_FOUND end.
Proof.
  intros Hok Hl E Hid. pose proof (build_visibility_spec segs Hok Hl) as H. rewrite E in H.
  rewrite (lookup_document_answers _ _ _ H Hid). unfold visible_document. rewrite <- last_writer_effect.
  by destruct (last_writer _ _) as [[? ? ? [d|] ?]|].
Qed.

Lemma units_left_shorter dropping wanted dims sources :
  zlen (units_left (all_events 0 sources) dropping wanted dims 0 sources) <= zlen (all_events 0 sources).
Proof.
  generalize (all_events 0 sources) at 1 as all. intros all.
  rewrite <- (zlen_fmap unit_effect), units_left_effects, zlen_fmap, <- source_pairs_fst, zlen_fmap. unfold zlen.
  pose proof (length_filter (left all dropping) (source_pairs 0 sources)). lia.
Qed.

Lemma all_events_effects sources : zlen (all_events 0 sources) = zlen (effects (as_segment <$> sources)).
Proof. by rewrite <- source_pairs_fst, <- (source_pairs_effects sources 0), !zlen_fmap. Qed.

(** A document is visible after the replacement exactly when it was before. *)
Lemma replaced_visible before after compacted dropping wanted dims sources key :
  effects compacted ≡ₚ unit_effect <$> units_left (all_events 0 sources) dropping wanted dims 0 sources ->
  (dropping = true -> before = []) ->
  visible_document key (before ++ compacted ++ after) = visible_document key (before ++ (as_segment <$> sources) ++ after).
Proof.
  intros HP Hb. unfold visible_document. rewrite !effects_app, !last_effect_app.
  destruct (last_effect key (effects after)) as [x|]; [done|].
  assert (last_effect key (effects compacted) =
    last_effect key (unit_effect <$> units_left (all_events 0 sources) dropping wanted dims 0 sources)) as ->.
  { apply last_effect_perm; [done|]. rewrite HP, units_left_effects. apply left_keys_NoDup. }
  rewrite units_last_effect. destruct (last_effect key (effects (as_segment <$> sources))) as [[d|]|]; [done| |done].
  destruct dropping; [|done]. by rewrite Hb.
Qed.

(** C9: replacing the selected segments by what a compaction writes changes the answer to no
    lookup: for segments read from the index, whatever the collection returns and however its
    units are cut into slices that cover them, the snapshot over the segments before, the
    compacted segments and those after finds for every identifier the document that the
    snapshot over the original segments finds, or nothing where that finds nothing.  Tombstones
    may be dropped when nothing precedes the range. *)
Theorem compaction_preserves_lookups {A : Allocator} config sources dropping input slices before after compacted t t' :
  Forall (source_ok (vector_dimensions config)) sources -> passage_sum sources <= 2 ^ 40 ->
  1 <= vector_dimensions config <= YAP_V2_MAX_VECTOR_DIMENSIONS \/ vector_metric config = YAP_V2_VECTOR_DISABLED ->
  Forall snapshot_segment_ok before -> Forall snapshot_segment_ok after ->
  zlen (segment_entries 0 (before ++ (as_segment <$> sources) ++ after)) <= 2 ^ 40 ->
  collect_sources config sources (zlen (all_events 0 sources)) dropping = Ok input ->
  (dropping = true -> before = []) ->
  covers 0 (zlen (in_units input)) slices ->
  Forall2 (fun seg s => holds_units seg (slice_units (in_units input) s)) compacted slices ->
  snapshot_build_visibility (before ++ (as_segment <$> sources) ++ after) = Ok t ->
  snapshot_build_visibility (before ++ compacted ++ after) = Ok t' ->
  forall id, id_view id ->
    (hit ← YAP_V2_snapshot_lookup_document t' id; Ok (hit_document hit)) =
    (hit ← YAP_V2_snapshot_lookup_document t id; Ok (hit_document hit)).
Proof.
  intros Hs Hp Hdim Hb Ha Hl HC Hdrop Hcov Hheld Ht Ht' id Hid.
  assert (Forall source_ids_ok sources) as Hids by (eapply Forall_impl; [exact Hs|]; by intros s (?&_)).
  rewrite zlen_segment_entries, !effects_app, !zlen_app in Hl. pose proof (all_events_effects sources) as HE. pose_zlen.
  pose proof (collect_sources_spec config sources dropping Hs ltac:(lia) Hp Hdim) as HU. rewrite HC in HU. destruct HU as (_&HU&_).
  pose proof (compacted_effects _ _ _ Hcov Hheld) as HP. pose proof (compacted_ok _ _ _ Hcov Hheld) as Hok.
  rewrite HU in HP, Hok. specialize (Hok (units_left_ok _ _ _ _ _ Hids 0)).
  assert (zlen (effects compacted) <= zlen (all_events 0 sources)) as Hc.
  { unfold zlen at 1. rewrite (Permutation_length HP), length_fmap. apply units_left_shorter. }
  assert (Forall snapshot_segment_ok (before ++ compacted ++ after)) as Hok1 by by rewrite !Forall_app.
  assert (Forall snapshot_segment_ok (before ++ (as_segment <$> sources) ++ after)) as Hok2
    by (rewrite !Forall_app; split_and!; [done| |done]; apply Forall_fmap; exact Hids).
  assert (zlen (segment_entries 0 (before ++ compacted ++ after)) <= 2 ^ 40) as Hl1
    by (rewrite zlen_segment_entries, !effects_app, !zlen_app; lia).
  assert (zlen (segment_entries 0 (before ++ (as_segment <$> sources) ++ after)) <= 2 ^ 40) as Hl2
    by (rewrite zlen_segment_entries, !effects_app, !zlen_app; lia).
  rewrite (lookup_effect _ _ _ Hok1 Hl1 Ht' Hid), (lookup_effect _ _ _ Hok2 Hl2 Ht Hid).
  by rewrite (replaced_visible _ _ _ _ _ _ _ _ HP Hdrop).
Qed.

(** ** Replacing the range *)
Section candidate_proofs.
Context {A : Allocator}.

(** Segments a manifest can hold. *)
Definition addable (segs : list YAP_V2_SEGMENT_DESCRIPTOR) : Prop :=
  Forall (fun s => id_ok (id s)) segs /\ NoDup (id <$> segs) /\ zlen segs <= YAP_V2_MAX_SEGMENTS.

Lemma addable_app_inv a b : addable (a ++ b) -> addable a.
Proof.
  unfold addable. rewrite Forall_app, fmap_app, NoDup_app, zlen_app. pose_zlen. intros ([? ?]&(?&_)&?). split_and!; (done || lia).
Qed.

Lemma add_segments_spec segs : Forall (fun s => c_string (id s)) segs -> forall m, manifest_inv m ->
  match add_segments m segs with
  | Ok m' => manifest_inv m' /\ same_content m m' /\ segments m' = segments m ++ segs
  | Err e => e = YAP_V2_ALLOCATION_FAILED /\ (exists n, alloc_ok n = false) \/ ~ addable (segments m ++ segs)
  | Fault => False
  end.
Proof.
  induction 1 as [|s segs Hs _ IH]; intros m HI; cbn [add_segments]; [by rewrite app_nil_r|].
  destruct (YAP_V2_manifest_add_segment m (Some s)) as [m1 r] eqn:E.
  destruct (add_segment_refines m s m1 r HI Hs E) as (HI1&(Hv&Hg&Hf)&Hr).
  assert (forall e, r = Err e -> e = YAP_V2_ALLOCATION_FAILED /\ (exists n, alloc_ok n = false) \/ ~ addable (segments m ++ s :: segs)) as Herr.
  { intros e ->. destruct Hr as [([= ->]&_&?)|Hr]; [by left|right]. intros Hadd. rewrite cons_middle, (assoc_L (++)) in Hadd.
  apply addable_app_inv in Hadd as (Hid&HN&Hl). unfold abs_add in Hr. rewrite zlen_app in Hl. change (zlen [s]) with 1 in Hl.
  apply Forall_app in Hid as [_ Hid]. apply Forall_cons in Hid as [Hid _]. rewrite decide_True in Hr by done.
  rewrite (proj2 (Z.leb_gt _ _)) in Hr by lia. rewrite fmap_app, NoDup_app in HN. destruct HN as (_&HN&_).
  rewrite decide_False in Hr; [by destruct Hr as [[=] _]|]. intros Hin. apply (HN _ Hin). by left. }
  destruct r as [[]|e|].
  - rewrite outcome_bind_ok. destruct Hr as [([=]&_)|Hr]. unfold abs_add in Hr.
  destruct (decide (id_ok (id s))); [|by destruct Hr]. destruct (_ <=? _); [by destruct Hr|]. destruct (decide _); [by destruct Hr|].
  destruct Hr as [_ Hseg]. specialize (IH m1 HI1). rewrite Hseg, <- (assoc_L (++)) in IH. cbn [app] in IH.
  destruct (add_segments m1 segs) as [m2|e2|]; [|done..]. destruct IH as (?&(?&?&?)&?). split_and!; try done. unfold same_content. split_and!; congruence.
  - by apply Herr.
  - destruct Hr as [([=]&_)|Hr]. destruct (abs_add _ _); [by destruct Hr|by destruct Hr|done].
Qed.

Lemma add_segments_app a b : forall m, add_segments m (a ++ b) = (m ← add_segments m a; add_segments m b).
Proof.
  induction a as [|s a IH]; intros m; cbn [app add_segments]; [done|]. destruct (YAP_V2_manifest_add_segment m (Some s)) as [m1 r].
  destruct r as [[]| |]; cbn; [apply IH|done..].
Qed.

(** The manifest with the range replaced. *)
Definition replaced (current : YAP_V2_MANIFEST) (first count : Z) (descriptors : list YAP_V2_SEGMENT_DESCRIPTOR)
  : list YAP_V2_SEGMENT_DESCRIPTOR :=
  take (Z.to_nat first) (segments current) ++ descriptors ++ drop (Z.to_nat (first + count)) (segments current).
End candidate_proofs.

Lemma ranges_equal_spec l : forall l', length l = length l' -> ranges_equal l l' = true <-> l = l'.
Proof.
  induction l as [|x l IH]; intros [|y l'] Hl; try done. cbn [ranges_equal]. injection Hl as Hl.
  rewrite andb_true_iff, segment_descriptor_equal_spec, IH by done. naive_solver.
Qed.

Lemma selected_range_spec base current first count : 0 <= first -> 0 <= count ->
  selected_range_unchanged base current first count = true <->
  first + count <= segment_count base /\ first + count <= segment_count current /\
  slice (segments current) first count = slice (segments base) first count.
Proof.
  intros Hf Hc. unfold selected_range_unchanged. pose_zlen. destruct (_ || _) eqn:T.
  - split; [done|]. rewrite !orb_true_iff, !Z.ltb_lt in T. unfold segment_count in *. lia.
  - btests. unfold segment_count in *. rewrite ranges_equal_spec.
    + split; [intros ->; split_and!; (done || lia)|naive_solver].
    + pose proof (zlen_slice (segments base) first count). pose proof (zlen_slice (segments current) first count). unfold zlen in *. lia.
Qed.

(** C14: the manifest a compaction publishes: when the selected range is the same in the manifest
    the compaction started from and in the current one, the candidate holds the segments of the
    current manifest with exactly that range replaced by the compacted segments, segments
    published meanwhile included, under the next generation and the same configuration, and it
    is valid.  It is refused only when no memory is left, the generation is exhausted, or the
    replaced list is no valid manifest. *)
Theorem candidate_manifest_correct {A : Allocator} base current first count descriptors :
  0 <= first -> 0 <= count -> selected_range_unchanged base current first count = true ->
  Forall (fun s => c_string (id s)) (segments current) -> Forall (fun s => c_string (id s)) descriptors ->
  zlen descriptors <= YAP_V2_MAX_SEGMENTS ->
  segments current = take (Z.to_nat first) (segments current) ++ slice (segments base) first count ++
                     drop (Z.to_nat (first + count)) (segments current) /\
  match candidate_manifest current first count descriptors with
  | Ok m => segments m = take (Z.to_nat first) (segments current) ++ descriptors ++ drop (Z.to_nat (first + count)) (segments current) /\
      manifest_generation m = manifest_generation current + 1 /\ config_fingerprint m = config_fingerprint current /\
      manifest_inv m /\ manifest_valid m
  | Err e => e = YAP_V2_ALLOCATION_FAILED /\ (exists n, alloc_ok n = false) \/ manifest_generation current = UINT64_MAX \/
      forall m, segments m = take (Z.to_nat first) (segments current) ++ descriptors ++ drop (Z.to_nat (first + count)) (segments current) ->
        manifest_version m = manifest_version current -> manifest_generation m = manifest_generation current + 1 ->
        config_fingerprint m = config_fingerprint current -> ~ manifest_valid m
  | Fault => False
  end.
Proof.
  intros Hf Hc Hsel Hcur Hdes Hlen. apply selected_range_spec in Hsel as (Hb&Hcu&Hsl); [|done..]. split.
  { rewrite <- Hsl. unfold slice. rewrite <- (take_drop (Z.to_nat first) (segments current)) at 1. f_equal.
    rewrite <- (take_drop (Z.to_nat count) (drop (Z.to_nat first) (segments current))) at 1. f_equal.
    rewrite drop_drop. f_equal. lia. }
  fold (replaced current first count descriptors). unfold candidate_manifest.
  assert (forall m, manifest_valid m -> addable (segments m)) as Hvalid.
  { intros m (_&_&Hl&_&Hs&HN). split_and!; [|exact HN|exact Hl]. eapply Forall_impl; [exact Hs|]. by intros s (?&_). }
  destruct (Z.eqb_spec (manifest_generation current) UINT64_MAX) as [|Hg]; [auto|].
  assert (zlen (replaced current first count descriptors) = segment_count current - count + zlen descriptors) as Hz.
  { unfold replaced, segment_count in *. rewrite !zlen_app, zlen_drop. unfold zlen at 1. rewrite length_take. unfold zlen in *. lia. }
  pose proof (zlen_nonneg descriptors).
  rewrite u64_small by (unfold YAP_V2_MAX_SEGMENTS in *; lia).
  destruct (Z.ltb_spec (YAP_V2_MAX_SEGMENTS - zlen descriptors) (segment_count current - count)) as [Hmax|Hmax].
  { right; right. intros m Hm _ _ _ (_&_&Hl&_). unfold segment_count in Hl. rewrite Hm in Hl. lia. }
  cbv zeta. set (m0 := Manifest _ _ _ _ _ _ _). assert (manifest_inv m0) as HI0 by (split; [by vm_compute|constructor|by left]).
  assert (Forall (fun s => c_string (id s)) (replaced current first count descriptors)) as Hrep.
  { unfold replaced. repeat apply Forall_app_2; [by apply Forall_take|done|by apply Forall_drop]. }
  pose proof (add_segments_spec _ Hrep m0 HI0) as HA. unfold replaced in HA at 1. rewrite add_segments_app in HA.
  destruct (add_segments m0 _) as [m1|e1|]; [rewrite outcome_bind_ok in *| |done].
  2: { destruct HA as [?|HA]; [by left|]. do 2 right. intros m Hm _ _ _ Hv%Hvalid. rewrite Hm in Hv. done. }
  rewrite add_segments_app in HA. destruct (add_segments m1 descriptors) as [m2|e2|]; [rewrite outcome_bind_ok in *| |done].
  2: { destruct HA as [?|HA]; [by left|]. do 2 right. intros m Hm _ _ _ Hv%Hvalid. rewrite Hm in Hv. done. }
  destruct (add_segments m2 _) as [m3|e3|]; [rewrite outcome_bind_ok in *| |done].
  2: { destruct HA as [?|HA]; [by left|]. do 2 right. intros m Hm _ _ _ Hv%Hvalid. rewrite Hm in Hv. done. }
  destruct HA as (HI&(V&G&F)&S). cbn [segments m0 app manifest_version manifest_generation config_fingerprint] in *. 
  destruct (manifest_validate_spec m3 ltac:(by rewrite S)) as [[-> ?]|HV]; [by left|].
  pose proof (manifest_validate_safe m3) as HS.
  destruct (YAP_V2_manifest_validate (Some m3)) as [[]|e|]; [| |done].
  - rewrite outcome_bind_ok. split_and!; try done. by apply HV.
  - do 2 right. intros m Hm Hv Hg' Hf' Hval. enough (manifest_valid m3) as Hv3 by (by apply HV in Hv3).
    unfold manifest_valid, segment_count, segment_ids in *. by rewrite V, G, F, S, <- Hm, <- Hv, <- Hg', <- Hf'.
Qed.

Lemma candidate_manifest_correct_witness :
  match candidate_manifest (A := alloc_total) demo_manifest 0 1 [SegmentDescriptor [99] 1 1 0 (components demo_segment)] with
  | Ok m => segments m = [SegmentDescriptor [99] 1 1 0 (components demo_segment)] /\ manifest_generation m = 8 /\ manifest_valid m
  | _ => False
  end.
Proof.
  destruct (candidate_manifest_correct (A := alloc_total) demo_manifest demo_manifest 0 1 [SegmentDescriptor [99] 1 1 0 (components demo_segment)]) as [_ H].
  1-2: lia.
  - vm_compute. reflexivity.
  - constructor; [apply demo_segment_id|constructor].
  - constructor; [|constructor]. apply (bool_decide_unpack _). vm_compute. reflexivity.
  - vm_compute. discriminate.
  - destruct (candidate_manifest (A := alloc_total) _ _ _ _) as [m|e|] eqn:E.
    + destruct H as (H1&H2&_&_&H5). split; [exact H1|]. split; [exact H2|exact H5].
    + vm_compute in E. discriminate E.
    + exact H.
Defined.

(** Two segments: the second replaces a document of the first and deletes another. *)
Definition demo_source (docs : list Z) (tombstones : list Z) : COMPACTION_SOURCE :=
  CompactionSource (Segment [115] 1 (demo_doc <$> docs) [] []) ((fun k => mk_view [k]) <$> tombstones) YAP_V2_vector_segment_init.
Definition demo_sources : list COMPACTION_SOURCE := [demo_source [97; 98; 99] []; demo_source [99] [98]].
Definition demo_compacted : list SNAPSHOT_SEGMENT := [SnapshotSegment 1 (Segment [115] 2 [demo_doc 97; demo_doc 99] [] []) []].

Lemma demo_source_ok dims docs tombstones : Forall (fun k => 0 <= k < 256) docs -> Forall (fun k => 0 <= k < 256) tombstones ->
  source_ok dims (demo_source docs tombstones).
Proof.
  intros Hd Ht. split_and!; [split|constructor|constructor]; apply Forall_fmap.
  - eapply Forall_impl; [exact Ht|apply demo_id_view].
  - eapply Forall_impl; [exact Hd|apply demo_id_view].
Qed.

Lemma compaction_preserves_lookups_witness : exists t,
  snapshot_build_visibility (A := alloc_total) demo_compacted = Ok t /\
  (hit ← YAP_V2_snapshot_lookup_document t (mk_view [98]); Ok (hit_document hit)) = Err YAP_V2_NOT_FOUND /\
  (hit ← YAP_V2_snapshot_lookup_document t (mk_view [99]); Ok (hit_document hit)) = Ok (demo_doc 99).
Proof.
  destruct (snapshot_build_visibility (A := alloc_total) demo_compacted) as [t'| |] eqn:Et'; [|vm_compute in Et'; discriminate Et'..].
  destruct (snapshot_build_visibility (A := alloc_total) (as_segment <$> demo_sources)) as [t| |] eqn:Et; [|vm_compute in Et; discriminate Et..].
  destruct (collect_sources (A := alloc_total) vectors_config demo_sources (zlen (all_events 0 demo_sources)) true) as [input| |] eqn:Ei;
    [|vm_compute in Ei; discriminate Ei..].
  exists t'. split; [reflexivity|].
  assert (Forall (source_ok (vector_dimensions vectors_config)) demo_sources) as Hs
    by (constructor; [|constructor; [|constructor]]; apply demo_source_ok; repeat constructor; lia).
  assert (in_units input = [SegmentUnit (Some (demo_doc 97)) [] None (BytesView None 0); SegmentUnit (Some (demo_doc 99)) [] None (BytesView None 0)]) as Hu
    by (vm_compute in Ei; injection Ei as <-; reflexivity).
  pose proof (fun id => compaction_preserves_lookups (A := alloc_total) vectors_config demo_sources true input [bare_slice 0 2] [] [] demo_compacted t t'
    Hs ltac:(vm_compute; discriminate) ltac:(left; vm_compute; split; discriminate) ltac:(constructor) ltac:(constructor)
    ltac:(vm_compute; discriminate) Ei ltac:(reflexivity) ltac:(rewrite Hu; vm_compute; split_and!; (reflexivity || discriminate))
    ltac:(constructor; [|constructor]; rewrite Hu; split; reflexivity) Et Et' id) as H.
  split; (rewrite H by (apply demo_id_view; lia); vm_compute in Et; injection Et as <-; vm_compute; reflexivity).
Defined.
