(* ===== verification/Collect.v ===== *)
(** Collecting the segments of a compaction from their files (src/src/indexing/yappo_compact_v2.c,
    [load_source] and [collect_range]): whatever the files hold, the collection reads inside of
    them, leaves them alone, and returns what the specification of Compaction.v says of the
    sources it read. *)
From S2P Require Import Snapshot Prelude Words Types Header SlotTable EntryTable Manifest FileSystem Reader ManifestCodec Segment Verify Visibility CString Config Vectors Planner Selection Compaction.
#[local] Open Scope io_scope.
#[local] Open Scope Z_scope.

Section collect.
Context {A : Allocator} (garbage : nat -> Z) (utf8_valid : bytes -> bool) (w0 : world) (Hreadable : readable w0).
Context (index_dir : bytes) (config : YAP_V2_CONFIG) (Hwf : config_wf config) (Hvalid : config_valid config).

Definition segment_directory (descriptor : YAP_V2_SEGMENT_DESCRIPTOR) : path := index_dir ++ SEGMENTS_DIR ++ id descriptor.

(** What the files of a segment hold, as the sources have it. *)
Definition documents_of (d : YAP_V2_SEGMENT_DESCRIPTOR) (s : YAP_V2_SEGMENT) : Prop :=
  exists c bs o, segment_component d YAP_V2_FILE_DOCUMENTS = Some c /\
  file_at w0 (segment_directory d ++ [SLASH] ++ name c) = Some bs /\ segment_parse garbage 0 false bs = Ok (s, o) /\
  segment_id s = id d /\ zlen (documents s) = document_count d /\ zlen (passages s) = passage_count d.
Definition tombstones_of (d : YAP_V2_SEGMENT_DESCRIPTOR) (ids : list YAP_V2_BYTES_VIEW) : Prop :=
  zlen ids = tombstone_count d /\
  match segment_component d YAP_V2_FILE_TOMBSTONES with
  | None => ids = []
  | Some c => exists bs, file_at w0 (segment_directory d ++ [SLASH] ++ name c) = Some bs /\ tombstones_parse 0 bs = Ok ids
  end.
Definition vectors_of (s : YAP_V2_VECTOR_SEGMENT) : Prop := entries_ok (vector_dimensions config) (vs_entries s).

Definition source_of (g : Z) (d : YAP_V2_SEGMENT_DESCRIPTOR) (s : COMPACTION_SOURCE) : Prop :=
  segment_intact w0 index_dir g d /\ documents_of d (src_documents s) /\ tombstones_of d (src_tombstones s) /\ vectors_of (src_vectors s).

Lemma join_path_spec left right p : join_path left right = Some p -> p = left ++ [SLASH] ++ right.
Proof. unfold join_path. destruct (_ <=? _); congruence. Qed.

Lemma load_documents_reads d w : frames w0 w -> reads (load_documents garbage (segment_directory d) d) (returns (documents_of d)) w.
Proof using Hreadable.
  intros Hf. unfold load_documents. destruct (segment_component d YAP_V2_FILE_DOCUMENTS) as [c|] eqn:Ec; [|by apply reads_ret].
  destruct (join_path _ _) as [p|] eqn:Ep; [|by apply reads_ret]. apply join_path_spec in Ep as ->.
  unfold YAP_V2_segment_read. apply (reads_bind _ _ (returns (fun '(s, o) => exists bs, file_at w0 (segment_directory d ++ [SLASH] ++ name c) = Some bs /\
  segment_parse garbage 0 false bs = Ok (s, o)))).
  - eapply reads_bind; [by apply read_file_reads|]. intros r w1 Hr _. apply reads_ret. destruct r as [bs| |]; [|done..].
  rewrite outcome_bind_ok. destruct (Hreadable _ _ Hr) as [Hb Hl].
  pose proof (segment_parse_sound garbage 0 false bs Hb ltac:(lia)) as HS.
  destruct (segment_parse garbage 0 false bs) as [[s o]| |] eqn:E; [|done..]. by exists bs.
  - intros r w1 Hr _. apply reads_ret. destruct r as [[s o]| |]; [|done..]. rewrite outcome_bind_ok.
  destruct (_ || _) eqn:T; [done|]. btests. destruct Hr as (bs&?&?). by exists c, bs, o.
Qed.

Lemma load_tombstones_reads d w : frames w0 w -> reads (load_tombstones (segment_directory d) d) (returns (tombstones_of d)) w.
Proof using Hreadable.
  intros Hf. unfold load_tombstones, tombstones_of. apply (reads_bind _ _ (returns (fun ids =>
  match segment_component d YAP_V2_FILE_TOMBSTONES with
  | None => ids = []
  | Some c => exists bs, file_at w0 (segment_directory d ++ [SLASH] ++ name c) = Some bs /\ tombstones_parse 0 bs = Ok ids
  end))).
  - destruct (segment_component d YAP_V2_FILE_TOMBSTONES) as [c|]; [|by apply reads_ret].
  destruct (join_path _ _) as [p|] eqn:Ep; [|by apply reads_ret]. apply join_path_spec in Ep as ->.
  unfold YAP_V2_tombstones_read. eapply reads_bind; [by apply read_file_reads|]. intros r w1 Hr _. apply reads_ret.
  destruct r as [bs| |]; [|done..]. rewrite outcome_bind_ok. destruct (Hreadable _ _ Hr) as [Hb Hl].
  pose proof (tombstones_parse_sound 0 bs Hb ltac:(lia)) as HS. destruct (tombstones_parse 0 bs) eqn:E; [|done..]. by exists bs.
  - intros r w1 Hr _. apply reads_ret. destruct r as [ids| |]; [|done..]. rewrite outcome_bind_ok.
  destruct (Z.eqb_spec (zlen ids) (tombstone_count d)); cbn [negb]; done.
Qed.

Lemma entry_valid_ok dims e : entry_valid utf8_valid dims e -> id_view (vec_id e) /\ dims <= zlen (vec_values e).
Proof. intros [(Hw&Hd&Hl) _ [_ Hz] _]. split; [|lia]. split_and!; [done|done|lia]. Qed.

Lemma vector_open_reads p w : frames w0 w -> vector_metric config <> YAP_V2_VECTOR_DISABLED ->
  reads (YAP_V2_vector_segment_open utf8_valid (Some p) 0 (Some config) YAP_V2_vector_segment_init)
  (fun '(s, r) => match r with Ok _ => vectors_of s | Err _ => True | Fault => False end) w.
Proof using Hreadable Hwf Hvalid.
  intros Hf Hm. unfold YAP_V2_vector_segment_open.
  destruct (config_validate_spec config Hwf) as [HV HS]. destruct (YAP_V2_config_validate (Some config)) as [[]| |]; [|by apply reads_ret|done].
  rewrite (proj2 (Z.eqb_neq _ _)) by done.
  apply (reads_bind _ _ (fun o => forall bs, o = Some bs -> file_at w0 p = Some bs)).
  { apply reads_fopen; [done|]. by rewrite (frames_file _ _ p Hf). }
  intros [bs|] w1 Hbs _; [|by apply reads_ret]. destruct (Hreadable _ _ (Hbs bs eq_refl)) as [Hb Hl].
  apply (reads_bind _ _ (fun _ => True)); [by apply reads_noop|]. intros stat w2 _ _.
  destruct (_ || _) eqn:T; [apply (reads_bind _ _ (fun _ => True)); [by apply reads_noop|]; intros; by apply reads_ret|].
  rewrite !orb_false_iff, !Z.ltb_ge in T. unfold YAP_V2_FILE_HEADER_BYTES in T.
  apply (reads_bind _ _ (fun _ => True)); [by apply reads_noop|]. intros mapped w3 _ _.
  destruct (negb mapped); [apply (reads_bind _ _ (fun _ => True)); [by apply reads_noop|]; intros; by apply reads_ret|].
  apply (reads_bind _ _ (fun _ => True)); [by apply reads_noop|]. intros ? w4 _ _. apply reads_ret.
  pose proof (install_vectors_sound utf8_valid config 0 bs YAP_V2_vector_segment_init Hwf Hvalid Hm Hb ltac:(lia)) as HI.
  destruct (install_vectors _ _ _ _ _) as [s [u|e|]]; [|done..]. destruct HI as [->|(HI&_)]; [constructor|].
  eapply Forall_impl; [exact HI|]. intros e. apply entry_valid_ok.
Qed.

Lemma load_vectors_reads d w : frames w0 w -> reads (load_vectors utf8_valid config (segment_directory d) d) (returns vectors_of) w.
Proof using Hreadable Hwf Hvalid.
  intros Hf. unfold load_vectors. destruct (_ || _) eqn:T; [apply reads_ret; constructor|].
  apply orb_false_iff in T as [Hm%Z.eqb_neq _].
  destruct (segment_component _ _) as [c|]; [|by apply reads_ret]. destruct (join_path _ _) as [p|]; [|by apply reads_ret].
  eapply reads_bind; [by apply vector_open_reads|]. intros [s r] w1 Hr _. apply reads_ret. by destruct r.
Qed.

Lemma load_source_reads g d w : frames w0 w -> reads (load_source garbage utf8_valid index_dir config g d) (returns (source_of g d)) w.
Proof using Hreadable Hwf Hvalid.
  intros Hf. unfold load_source. eapply reads_bind; [by apply verify_segment_reads|]. intros [u|e|] w1 H1 Hf1; [|by apply reads_ret|done].
  fold (segment_directory d). destruct (_ <=? _); [by apply reads_ret|].
  eapply reads_bind; [apply load_documents_reads; by eapply frames_trans|]. intros [docs|e|] w2 H2 Hf2; [|by apply reads_ret|done].
  eapply reads_bind; [apply load_tombstones_reads; eapply frames_trans; [|done]; by eapply frames_trans|].
  intros [ids|e|] w3 H3 Hf3; [|by apply reads_ret|done].
  eapply reads_bind; [apply load_vectors_reads; eapply frames_trans; [|done]; eapply frames_trans; [|done]; by eapply frames_trans|].
  intros [v|e|] w4 H4 _; apply reads_ret; [|done..]. rewrite outcome_bind_ok. by split_and!.
Qed.

Definition record_count (s : COMPACTION_SOURCE) : Z := zlen (documents (src_documents s)) + zlen (src_tombstones s).
Definition record_sum (sources : list COMPACTION_SOURCE) : Z := foldr (fun s n => record_count s + n) 0 sources.

Lemma load_sources_reads g ds : forall records w, frames w0 w ->
  reads (load_sources garbage utf8_valid index_dir config g ds records)
  (returns (fun '(sources, n) => Forall2 (source_of g) ds sources /\ n = records + record_sum sources)) w.
Proof using Hreadable Hwf Hvalid.
  induction ds as [|d ds IH]; intros records w Hf; cbn [load_sources].
  { apply reads_ret. split; [done|]. cbn. lia. }
  eapply reads_bind; [by apply load_source_reads|]. intros r w1 Hr Hf1. destruct (_ || _); [apply reads_ret; by destruct r|].
  destruct r as [s|e|]; [|by apply reads_ret|done].
  eapply reads_bind; [apply IH; by eapply frames_trans|]. intros [[sources n]|e|] w2 H2 _; apply reads_ret; [|done..].
  rewrite outcome_bind_ok. destruct H2 as [HF ->]. split; [by constructor|]. change (record_sum (s :: sources)) with (record_count s + record_sum sources).
  unfold record_count. destruct Hr as (_&(?&?&?&_&_&_&_&->&_)&(->&_)&_). lia.
Qed.

(** What was read satisfies what the collection relies on. *)
Lemma source_of_ok g d s : source_of g d s -> source_ok (vector_dimensions config) s /\
  record_count s <= 2 * YAP_V2_MAX_SEGMENT_DOCUMENTS /\ zlen (passages (src_documents s)) <= YAP_V2_MAX_SEGMENT_PASSAGES.
Proof using Hreadable.
  intros (_&(c&bs&o&_&Hf&Hp&_)&(_&Ht)&Hv). destruct (Hreadable _ _ Hf) as [Hb Hl].
  pose proof (segment_parse_sound garbage 0 false bs Hb ltac:(lia)) as HS. rewrite Hp in HS. destruct HS as (HSV&_&Hdw&Hpw&_).
  destruct HSV as (Hd&Hpm&Hdv&_&Hpv&_).
  assert (Forall named_view (src_tombstones s) /\ zlen (src_tombstones s) <= YAP_V2_MAX_SEGMENT_DOCUMENTS) as [Ht1 Ht2].
  { destruct (segment_component d YAP_V2_FILE_TOMBSTONES) as [c'|].
  - destruct Ht as (bs'&Hf'&Hp'). destruct (Hreadable _ _ Hf') as [Hb' Hl'].
    pose proof (tombstones_parse_sound 0 bs' Hb' ltac:(lia)) as HT. by rewrite Hp' in HT.
  - rewrite Ht. by split; [constructor|]. }
  assert (forall v, view_wf v -> text_ok YAP_V2_MAX_IDENTIFIER_BYTES true v -> id_view v) as Hid.
  { intros v Hw (Hne&_&Hz&_). specialize (Hne eq_refl). split_and!; [done| |].
  - intros E. unfold view_bytes in Hne. by rewrite E in Hne.
  - intros E. rewrite E in Hz. apply Hne, length_zero_iff_nil. unfold zlen in Hz. lia. }
  split_and!; [split_and!; [split| |exact Hv]|unfold record_count; lia|done].
  - eapply Forall_impl; [exact Ht1|apply named_id_view].
  - apply Forall_lookup_2. intros i doc Hi. apply Hid; [apply (Forall_lookup_1 _ _ _ _ Hdw Hi)|apply (Forall_lookup_1 _ _ _ _ Hdv Hi)].
  - apply Forall_lookup_2. intros i q Hi. pose proof (Forall_lookup_1 _ _ _ _ Hpw Hi) as (?&?&_).
  pose proof (Forall_lookup_1 _ _ _ _ Hpv Hi) as (?&?&_). split; by apply Hid.
Qed.

Lemma sources_of_ok g ds sources : Forall2 (source_of g) ds sources -> Forall (source_ok (vector_dimensions config)) sources /\
  0 <= record_sum sources <= zlen ds * (2 * YAP_V2_MAX_SEGMENT_DOCUMENTS) /\ passage_sum sources <= zlen ds * YAP_V2_MAX_SEGMENT_PASSAGES.
Proof using Hreadable.
  induction 1 as [|d s ds sources Hs _ (IH1&IH2&IH3)]; [split_and!; [constructor|done..]|].
  destruct (source_of_ok g d s Hs) as (H1&H2&H3). rewrite zlen_cons. unfold YAP_V2_MAX_SEGMENT_DOCUMENTS, YAP_V2_MAX_SEGMENT_PASSAGES in *.
  change (record_sum (s :: sources)) with (record_count s + record_sum sources).
  change (passage_sum (s :: sources)) with (zlen (passages (src_documents s)) + passage_sum sources).
  assert (0 <= record_count s) by (unfold record_count; pose_zlen; pose proof (zlen_nonneg (documents (src_documents s))); lia).
  split_and!; [by constructor|lia..].
Qed.

Lemma record_sum_events sources : forall i, zlen (all_events i sources) = record_sum sources.
Proof.
  induction sources as [|s sources IH]; intros i; [done|]. change (record_sum (s :: sources)) with (record_count s + record_sum sources).
  cbn [all_events]. rewrite !zlen_app, IH. unfold zlen, record_count. rewrite !length_events_of, length_fmap. unfold zlen. lia.
Qed.
End collect.


