(* ===== verification/TermMap.v ===== *)
(** The hash table of terms of the segment planner
    (src/src/indexing/yappo_segment_planner_v2.c, TERM_MAP).

    Open addressing with linear probing over a power of two of slots, like the tables of
    EntryTable.v, but growing: the table doubles before it is seven tenths full.  The probes have
    no bound of their own; they are modelled with as many turns as there are slots, and
    exhausting them, an endless loop, is a [Fault].  The file shows that the table refines a
    finite map from terms to their counts and that its loops end. *)
From S2P Require Import Prelude Words Types SlotTable EntryTable.

(** [slot_term] is the block that the slot owns; [term_bytes] is its size. *)
Record TERM_SLOT := TermSlot {
  slot_term : bytes;
  slot_occurrences : Z;
  slot_postings : Z;
  last_object : Z;
  slot_used : bool }.

(** [capacity] is the number of slots. *)
Record TERM_MAP := TermMap { tm_slots : list TERM_SLOT; tm_count : Z }.

Definition zero_slot : TERM_SLOT := TermSlot [] 0 0 0 false.
Definition term_map_zero : TERM_MAP := TermMap [] 0.
Definition sizeof_term_slot : Z := 48.

Section map.
Context {A : Allocator}.

(** FNV-1a, like [manifest_segment_hash]. *)
Definition hash_bytes (data : bytes) : Z := foldl (fun hash c => u64 (Z.lxor hash c * FNV_PRIME)) FNV_OFFSET data.

(** [while (slots[index].used) index = (index + 1) & (capacity - 1)]. *)
Fixpoint free_slot (fuel : nat) (slots : list TERM_SLOT) (capacity index : Z) : result Z :=
  match fuel with
  | O => Fault
  | S fuel =>
      slot ← elem_at slots index;
      if slot_used slot then free_slot fuel slots capacity (Z.land (index + 1) (capacity - 1)) else Ok index
  end.

(** The loop over the old slots. *)
Fixpoint rehash (old slots : list TERM_SLOT) (capacity count : Z) : result (list TERM_SLOT * Z) :=
  match old with
  | [] => Ok (slots, count)
  | slot :: old =>
      if slot_used slot then
        index ← free_slot (Z.to_nat capacity) slots capacity (Z.land (hash_bytes (slot_term slot)) (capacity - 1));
        rehash old (<[Z.to_nat index := slot]> slots) capacity (count + 1)
      else rehash old slots capacity count
  end.

Definition term_map_grow (map : TERM_MAP) : result TERM_MAP :=
  let old_capacity := zlen (tm_slots map) in
  let capacity := if old_capacity =? 0 then 256 else u64 (old_capacity * 2) in
  if (capacity <? old_capacity) || (SIZE_MAX / sizeof_term_slot <? capacity) then Err YAP_V2_OUT_OF_RANGE
  else if negb (alloc_ok (capacity * sizeof_term_slot)) then Err YAP_V2_ALLOCATION_FAILED
  else
  '(slots, count) ← rehash (tm_slots map) (replicate (Z.to_nat capacity) zero_slot) capacity 0;
  Ok (TermMap slots count).

(** The slot of a term, or the free slot where the probe for it ends. *)
Fixpoint probe_term (fuel : nat) (slots : list TERM_SLOT) (capacity : Z) (term_ : bytes) (index : Z) : result Z :=
  match fuel with
  | O => Fault
  | S fuel =>
      slot ← elem_at slots index;
      if negb (slot_used slot) then Ok index
      else if (zlen (slot_term slot) =? zlen term_) && bool_decide (slot_term slot = term_) then Ok index
      else probe_term fuel slots capacity term_ (Z.land (index + 1) (capacity - 1))
  end.

(** The table and the index of the slot; every caller creates the slot when it is missing. *)
Definition term_map_slot (map : TERM_MAP) (term_ : bytes) : result (TERM_MAP * Z) :=
  map ← (if (zlen (tm_slots map) =? 0) || (u64 (zlen (tm_slots map) * 7) <=? u64 ((tm_count map + 1) * 10)) then term_map_grow map else Ok map);
  let capacity := zlen (tm_slots map) in
  index ← probe_term (Z.to_nat capacity) (tm_slots map) capacity term_ (Z.land (hash_bytes term_) (capacity - 1));
  slot ← elem_at (tm_slots map) index;
  if slot_used slot then Ok (map, index)
  else if negb (alloc_ok (zlen term_)) then Err YAP_V2_ALLOCATION_FAILED
  else
  let slot := TermSlot term_ (slot_occurrences slot) (slot_postings slot) UINT64_MAX true in
  Ok (TermMap (<[Z.to_nat index := slot]> (tm_slots map)) (tm_count map + 1), index).

Definition term_map_find (map : TERM_MAP) (term_ : bytes) : result (option TERM_SLOT) :=
  let capacity := zlen (tm_slots map) in
  if capacity =? 0 then Ok None
  else
  index ← probe_term (Z.to_nat capacity) (tm_slots map) capacity term_ (Z.land (hash_bytes term_) (capacity - 1));
  slot ← elem_at (tm_slots map) index;
  Ok (if slot_used slot then Some slot else None).
End map.

(** ** Specification *)
#[export] Instance term_slot_entry : HashEntry TERM_SLOT := {
  hash_id s := mk_view (slot_term s);
  hash_occupied := slot_used;
  hash_zero := zero_slot;
  hash_zero_free := eq_refl }.

(** The counts of a term. *)
Record term_stats := TermStats { ts_occurrences : Z; ts_postings : Z; ts_last : Z }.
Definition stats_of_slot (s : TERM_SLOT) : term_stats := TermStats (slot_occurrences s) (slot_postings s) (last_object s).

Definition term_ok (t : bytes) : Prop := bytes_ok t /\ 1 <= zlen t <= SIZE_MAX.

(** The table holds the map [m]. *)
Record table_holds (slots : list TERM_SLOT) (count : Z) (m : gmap bytes term_stats) : Prop := {
  th_capacity : exists k, 8 <= k /\ zlen slots = 2 ^ k;
  th_table : table_ok (zlen slots) slots;
  th_zero : Forall (fun s => slot_used s = false -> s = zero_slot) slots;
  th_count : count = Z.of_nat (used slots);
  th_bytes : zlen slots <= SIZE_MAX / sizeof_term_slot;
  th_content : forall t st, m !! t = Some st <-> exists s, holds slots t s /\ stats_of_slot s = st }.

Definition map_rep (map : TERM_MAP) (m : gmap bytes term_stats) : Prop :=
  map = term_map_zero /\ m = ∅ \/ table_holds (tm_slots map) (tm_count map) m /\ tm_count map * 10 < zlen (tm_slots map) * 7.

Definition fresh_stats : term_stats := TermStats 0 0 UINT64_MAX.

(** ** Probes *)
Lemma term_id_view t : term_ok t -> id_view (mk_view t).
Proof.
  intros [Hb Hz]. split_and!; [apply mk_view_wf; [done|lia]|done|]. cbn [len mk_view]. lia.
Qed.

Lemma entry_key_term (s : TERM_SLOT) : entry_key s = slot_term s.
Proof. unfold entry_key. apply view_bytes_mk. Qed.

Lemma hash_home cap t : Z.land (hash_bytes t) (cap - 1) = home cap t.
Proof. done. Qed.

Section probes.
Context (slots : list TERM_SLOT) (k : Z) (Hk : 0 <= k) (Hcap : zlen slots = 2 ^ k).
Abbreviation cap := (zlen slots).

Lemma probe_term_at t : forall fuel slot d, 0 <= slot < cap -> (d < fuel)%nat -> stops slots t (nth_probe cap slot d) ->
  (forall d', (d' < d)%nat -> busy slots t (nth_probe cap slot d')) -> probe_term fuel slots cap t slot = Ok (Z.of_nat (nth_probe cap slot d)).
Proof using Hk Hcap.
  induction fuel as [|fuel IH]; intros slot d Hs Hd Hst Hb; [lia|]. cbn [probe_term]. destruct d as [|d].
  - destruct Hst as (e&He&Hor). rewrite (elem_at_probe cap k Hk Hcap slots slot e Hs He), outcome_bind_ok.
    assert (Z.of_nat (nth_probe cap slot 0) = slot) as -> by (rewrite (nth_probe_0 cap k Hk Hcap slot Hs); lia).
    destruct Hor as [O|E]; [cbn in O; by rewrite O|]. rewrite entry_key_term in E. destruct (slot_used e); [|done]. cbn [negb]. by rewrite E, Z.eqb_refl, bool_decide_true.
  - destruct (Hb 0%nat ltac:(lia)) as (e&He&Ho&Hne). rewrite (elem_at_probe cap k Hk Hcap slots slot e Hs He), outcome_bind_ok. cbn in Ho. rewrite Ho. cbn [negb].
    rewrite entry_key_term in Hne. rewrite bool_decide_false, andb_false_r by done. rewrite <- (nth_probe_next cap k Hk Hcap slot d) in *.
    apply IH; [by apply (land_next_range cap k)|lia|done|]. intros d' Hd'. rewrite (nth_probe_next cap k Hk Hcap). apply Hb. lia.
Qed.

Lemma free_slot_at t : forall fuel slot d, 0 <= slot < cap -> (d < fuel)%nat -> (exists e, slots !! nth_probe cap slot d = Some e /\ slot_used e = false) ->
  (forall d', (d' < d)%nat -> busy slots t (nth_probe cap slot d')) -> free_slot fuel slots cap slot = Ok (Z.of_nat (nth_probe cap slot d)).
Proof using Hk Hcap.
  induction fuel as [|fuel IH]; intros slot d Hs Hd Hst Hb; [lia|]. cbn [free_slot]. destruct d as [|d].
  - destruct Hst as (e&He&Hf). rewrite (elem_at_probe cap k Hk Hcap slots slot e Hs He), outcome_bind_ok, Hf. rewrite (nth_probe_0 cap k Hk Hcap slot Hs), Z2Nat.id by lia. done.
  - destruct (Hb 0%nat ltac:(lia)) as (e&He&Ho&_). rewrite (elem_at_probe cap k Hk Hcap slots slot e Hs He), outcome_bind_ok. cbn in Ho. rewrite Ho.
    rewrite <- (nth_probe_next cap k Hk Hcap slot d) in *. apply IH; [by apply (land_next_range cap k)|lia|done|]. intros d' Hd'. rewrite (nth_probe_next cap k Hk Hcap). apply Hb. lia.
Qed.
End probes.

(** Where a probe for [t] ends. *)
Definition probe_end (slots : list TERM_SLOT) (t : bytes) (j : nat) : Prop :=
  exists d, Z.of_nat d < zlen slots /\ j = nth_probe (zlen slots) (home (zlen slots) t) d /\ stops slots t j /\
    forall d', (d' < d)%nat -> busy slots t (nth_probe (zlen slots) (home (zlen slots) t) d').

Lemma used_insert_eq (slots : list TERM_SLOT) j s e : slots !! j = Some s -> slot_used e = true ->
  used (<[j := e]> slots) = if slot_used s then used slots else S (used slots).
Proof.
  intros Hj He. unfold used. revert j Hj. induction slots as [|a l IH]; intros [|j] Hj; try done.
  - injection Hj as ->. change (<[0%nat := e]> (s :: l)) with (e :: l). rewrite !filter_cons. change (hash_occupied e) with (slot_used e). change (hash_occupied s) with (slot_used s).
    rewrite He, decide_True by done. destruct (slot_used s); [by rewrite decide_True|by rewrite decide_False].
  - change (<[S j := e]> (a :: l)) with (a :: <[j := e]> l). rewrite !filter_cons. specialize (IH j Hj). case_decide; cbn [length]; rewrite IH; by destruct (slot_used s).
Qed.

Section holding.
Context (slots : list TERM_SLOT) (count : Z) (m : gmap bytes term_stats) (H : table_holds slots count m).

Lemma capacity_pow : exists k, 0 <= k /\ zlen slots = 2 ^ k.
Proof using H. destruct (th_capacity _ _ _ H) as (k&?&?). exists k. split; [lia|done]. Qed.

Lemma probe_end_exists t : count < zlen slots -> exists j, probe_end slots t j /\
  probe_term (Z.to_nat (zlen slots)) slots (zlen slots) t (Z.land (hash_bytes t) (zlen slots - 1)) = Ok (Z.of_nat j).
Proof using H.
  intros Hlt. destruct capacity_pow as (k&Hk&Hcap). rewrite (th_count _ _ _ H) in Hlt. pose proof (home_range (zlen slots) k Hk Hcap t) as Hh.
  destruct (stop_exists (zlen slots) k Hk Hcap slots t (home (zlen slots) t) (th_table _ _ _ H) ltac:(unfold zlen in Hlt; lia) Hh) as (d&Hd&Hst&Hb).
  eexists. split; [exists d; split_and!; [done|reflexivity|done|done]|]. rewrite hash_home. apply (probe_term_at slots k Hk Hcap t _ _ d); [done|lia|done|done].
Qed.

(** The slot where the probe ends says what the map says. *)
Lemma probe_end_content t j : probe_end slots t j -> exists s, slots !! j = Some s /\
  (slot_used s = true /\ slot_term s = t /\ m !! t = Some (stats_of_slot s) \/ s = zero_slot /\ m !! t = None).
Proof using H.
  intros (d&Hd&->&Hst&Hb). pose proof Hst as (s&Hs&Hor). exists s. split; [done|]. destruct capacity_pow as (k&Hk&Hcap). destruct (slot_used s) eqn:U.
  - left. assert (slot_term s = t) as Et by (destruct Hor as [O|E]; [by cbn in O; congruence|by rewrite entry_key_term in E]). split_and!; [done|done|].
    apply (th_content _ _ _ H). exists s. split; [|done]. eexists. split_and!; [exact Hs|done|by rewrite entry_key_term].
  - right. split; [by apply (proj1 (Forall_lookup _ _) (th_zero _ _ _ H) _ _ Hs)|]. destruct (m !! t) as [st|] eqn:Em; [|done]. exfalso.
    apply (th_content _ _ _ H) in Em as (s'&(j&Hj&Ho&Hkey)&_). rewrite entry_key_term in Hkey.
    assert (nth_probe (zlen slots) (home (zlen slots) t) d = j) as E.
    { apply (holds_at (zlen slots) k Hk Hcap slots t s' d j (th_table _ _ _ H) Hj Ho); [by rewrite entry_key_term|done|done]. }
    rewrite E, Hj in Hs. injection Hs as ->. cbn in Ho. congruence.
Qed.

(** Writing the slot where the probe ends. *)
Lemma write_slot t j s e : probe_end slots t j -> slots !! j = Some s -> slot_used e = true -> slot_term e = t -> term_ok t ->
  table_holds (<[j := e]> slots) (if slot_used s then count else count + 1) (<[t := stats_of_slot e]> m).
Proof using H.
  intros (d&Hd&->&Hst&Hb) Hs Hu Et Ht. destruct capacity_pow as (k&Hk&Hcap). set (j := nth_probe _ _ d) in *.
  assert (entry_key e = t) as Ek by by rewrite entry_key_term.
  assert (zlen (<[j := e]> slots) = zlen slots) as Hz by (unfold zlen; by rewrite length_insert).
  assert (id_view (hash_id e)) as Hid by (cbn; rewrite Et; by apply term_id_view). subst j. rewrite <- Ek in Hst, Hb, Hs, Hz |- *. split; rewrite ?Hz.
  - apply (th_capacity _ _ _ H).
  - apply (insert_table_ok (zlen slots)); [apply (th_table _ _ _ H)|done|done|done|done|done].
  - apply Forall_insert; [apply (th_zero _ _ _ H)|congruence].
  - rewrite (used_insert_eq _ _ s) by done. rewrite (th_count _ _ _ H). destruct (slot_used s); lia.
  - apply (th_bytes _ _ _ H).
  - intros t' st. setoid_rewrite (fun s' => insert_holds (zlen slots) k Hk Hcap slots e d t' s' (th_table _ _ _ H) Hu Hst Hb).
    destruct (decide (entry_key e = t')) as [<-|N].
    + rewrite lookup_insert_eq. split; [intros [= <-]; eauto|]. intros (s'&->&<-). done.
    + rewrite lookup_insert_ne by done. apply (th_content _ _ _ H).
Qed.

(** A slot in use is where the probe for its term ends. *)
Lemma used_probe_end j s : slots !! j = Some s -> slot_used s = true -> probe_end slots (slot_term s) j /\ term_ok (slot_term s).
Proof using H.
  intros Hj Hu. destruct (to_reach _ _ (th_table _ _ _ H) j s Hj Hu) as (d&Hd&Hp&Hb). rewrite entry_key_term in *. split.
  - exists d. split_and!; [done|done| |done]. exists s. rewrite entry_key_term. auto.
  - destruct (to_ids _ _ (th_table _ _ _ H) j s Hj Hu) as ([Hw1 Hw2]&_&Hn). cbn [hash_id term_slot_entry mk_view data len] in *. destruct Hw2 as [Hb1 Hb2]. split; [done|].
    pose_zlen. unfold SIZE_MAX in *. lia.
Qed.
End holding.

(** ** Growing *)
Lemma empty_table k : 8 <= k -> 2 ^ k <= SIZE_MAX / sizeof_term_slot -> table_holds (replicate (Z.to_nat (2 ^ k)) zero_slot) 0 ∅.
Proof.
  intros Hk Hb. assert (0 < 2 ^ k) by (apply Z.pow_pos_nonneg; lia). assert (zlen (replicate (Z.to_nat (2 ^ k)) zero_slot) = 2 ^ k) as Hz by (rewrite zlen_replicate; lia).
  destruct (represents_empty (T := TERM_SLOT) (2 ^ k) k ltac:(lia) eq_refl) as (Ht&Hu&Hh). change (hash_zero (E := TERM_SLOT)) with zero_slot in *.
  split; rewrite ?Hz; [by exists k|done|by apply Forall_replicate| |done|].
  - cbn [length] in Hu. lia.
  - intros t st. split; [done|]. intros (s&Hs%Hh&_). done.
Qed.

Definition used_slots (slots : list TERM_SLOT) : list TERM_SLOT := filter (fun s => slot_used s = true) slots.

Lemma length_used_slots slots : length (used_slots slots) = used slots.
Proof. done. Qed.

(** The used slots carry the map. *)
Lemma used_slots_content slots count m : table_holds slots count m ->
  NoDup (slot_term <$> used_slots slots) /\ forall t st, m !! t = Some st <-> exists s, s ∈ used_slots slots /\ slot_term s = t /\ stats_of_slot s = st.
Proof.
  intros H. destruct (capacity_pow _ _ _ H) as (k&Hk&Hcap). split.
  - assert (forall i j s s', slots !! i = Some s -> slot_used s = true -> slots !! j = Some s' -> slot_used s' = true -> slot_term s = slot_term s' -> i = j) as Hd.
    { intros i j s s' Hi Hu Hj Hu' E. apply (slots_distinct (zlen slots) k Hk Hcap slots i j s s' (th_table _ _ _ H)); try done. by rewrite !entry_key_term. }
    clear -Hd. unfold used_slots. induction slots as [|a l IH]; [constructor|]. rewrite filter_cons.
    assert (NoDup (slot_term <$> filter (fun s => slot_used s = true) l)) as HN.
    { apply IH. intros i j s s' Hi Hu Hj Hu' E. by injection (Hd (S i) (S j) s s' Hi Hu Hj Hu' E). }
    case_decide as U; [|done]. rewrite fmap_cons. constructor; [|done]. intros (s&E&[Hu Hs]%list_elem_of_filter)%list_elem_of_fmap.
    apply list_elem_of_lookup in Hs as [i Hi]. by specialize (Hd 0%nat (S i) a s eq_refl U Hi Hu E).
  - intros t st. rewrite (th_content _ _ _ H). unfold used_slots. split.
    + intros (s&(j&Hj&Hu&Hkey)&<-). exists s. rewrite entry_key_term in Hkey. split_and!; [|done|done]. apply list_elem_of_filter. split; [done|by eapply list_elem_of_lookup_2].
    + intros (s&[Hu [j Hj]%list_elem_of_lookup]%list_elem_of_filter&<-&<-). exists s. split; [|done]. exists j. by rewrite entry_key_term.
Qed.

Lemma rehash_spec old : forall slots count m, table_holds slots count m -> count + Z.of_nat (length (used_slots old)) < zlen slots ->
  NoDup (slot_term <$> used_slots old) -> (forall s, s ∈ used_slots old -> term_ok (slot_term s) /\ m !! slot_term s = None) ->
  exists slots' m', rehash old slots (zlen slots) count = Ok (slots', count + Z.of_nat (length (used_slots old))) /\ zlen slots' = zlen slots /\
    table_holds slots' (count + Z.of_nat (length (used_slots old))) m' /\
    forall t st, m' !! t = Some st <-> m !! t = Some st \/ exists s, s ∈ used_slots old /\ slot_term s = t /\ stats_of_slot s = st.
Proof.
  induction old as [|s old IH]; intros slots count m H Hlt HN Hok; cbn [rehash].
  { exists slots, m. rewrite Z.add_0_r. split_and!; [done|done|done|]. intros t st. split; [by left|]. intros [?|(?&?%elem_of_nil&_)]; done. }
  unfold used_slots in *. rewrite filter_cons in *. destruct (slot_used s) eqn:U.
  2: { rewrite decide_False in * by congruence. by apply IH. }
  rewrite decide_True in * by done. rewrite fmap_cons in HN. apply NoDup_cons in HN as [Hn HN]. cbn [length] in Hlt |- *.
  destruct (Hok s ltac:(by left)) as [Ht Hm]. destruct (capacity_pow _ _ _ H) as (k&Hk&Hcap).
  destruct (probe_end_exists _ _ _ H (slot_term s) ltac:(lia)) as (j&Hj&_). destruct (probe_end_content _ _ _ H _ j Hj) as (s0&Hs0&[(_&_&?)|[-> _]]); [congruence|].
  pose proof Hj as (d&Hd&Ej&_&Hb). rewrite hash_home.
  rewrite (free_slot_at slots k Hk Hcap (slot_term s) _ _ d); [|by apply (home_range (zlen slots) k)|lia|exists zero_slot; by rewrite <- Ej|done]. rewrite outcome_bind_ok, Nat2Z.id, <- Ej.
  pose proof (write_slot _ _ _ H (slot_term s) j zero_slot s Hj Hs0 U eq_refl Ht) as HW. cbn [slot_used zero_slot] in HW.
  assert (zlen (<[j := s]> slots) = zlen slots) as Hz by (unfold zlen; by rewrite length_insert). rewrite <- Hz.
  destruct (IH _ _ _ HW) as (slots'&m'&E&Hz'&HT&Hc); [rewrite Hz; lia|done| |].
  - intros s' Hs'. destruct (Hok s' ltac:(by right)) as [Ht' Hm']. split; [done|]. rewrite lookup_insert_ne; [done|]. intros E. apply Hn. rewrite E. by apply list_elem_of_fmap_2.
  - exists slots', m'. replace (count + Z.of_nat (S (length (filter (fun s => slot_used s = true) old)))) with (count + 1 + Z.of_nat (length (filter (fun s => slot_used s = true) old))) by lia.
    split_and!; [done|done|done|]. intros t st. rewrite Hc. destruct (decide (slot_term s = t)) as [<-|N].
    + rewrite lookup_insert_eq. split.
      * intros [[= <-]|(s'&Hs'&?&?)]; right; [exists s; split; [by left|done]|exists s'; split; [by right|done]].
      * intros [?|(s'&[->|Hs']%elem_of_cons&?&?)]; [congruence|left; by f_equal|right; eauto].
    + rewrite lookup_insert_ne by done. split; [intros [?|(s'&Hs'&?&?)]; [by left|right; exists s'; split; [by right|done]]|].
      intros [?|(s'&[->|Hs']%elem_of_cons&?&?)]; [by left|done|right; eauto].
Qed.

(** The used slots of a table and the map that it holds. *)
Lemma map_rep_used map m : map_rep map m ->
  Z.of_nat (length (used_slots (tm_slots map))) = tm_count map /\ NoDup (slot_term <$> used_slots (tm_slots map)) /\
  (forall s, s ∈ used_slots (tm_slots map) -> term_ok (slot_term s)) /\
  forall t st, m !! t = Some st <-> exists s, s ∈ used_slots (tm_slots map) /\ slot_term s = t /\ stats_of_slot s = st.
Proof.
  intros [[-> ->]|[HT _]].
  - split_and!; [done|constructor|by intros s ?%elem_of_nil|]. intros t st. split; [done|]. by intros (?&?%elem_of_nil&_).
  - destruct (used_slots_content _ _ _ HT) as [HN Hc]. split_and!; [rewrite length_used_slots; by rewrite (th_count _ _ _ HT)|done| |done].
    intros s [Hu [j Hj]%list_elem_of_lookup]%list_elem_of_filter. by apply (used_probe_end _ _ _ HT j s).
Qed.

Section operations.
Context {A : Allocator}.

Lemma doubled_pow k : 8 <= k -> 2 ^ k <= SIZE_MAX / sizeof_term_slot -> u64 (2 ^ k * 2) = 2 ^ (k + 1) /\ 2 ^ k < 2 ^ (k + 1).
Proof.
  intros Hk Hb. rewrite Z.pow_add_r by lia. change (2 ^ 1) with 2. assert (0 < 2 ^ k) by (apply Z.pow_pos_nonneg; lia).
  change (SIZE_MAX / sizeof_term_slot) with 384307168202282325 in Hb. rewrite u64_small; lia.
Qed.

Lemma term_map_grow_spec map m : map_rep map m ->
  match term_map_grow map with
  | Ok map' => table_holds (tm_slots map') (tm_count map') m /\ tm_count map' * 10 + 10 < zlen (tm_slots map') * 7
  | Err _ => True
  | Fault => False
  end.
Proof.
  intros HR. unfold term_map_grow. cbv zeta.
  assert (forall cap k, 8 <= k -> cap = 2 ^ k -> cap <= SIZE_MAX / sizeof_term_slot -> tm_count map * 10 + 10 < cap * 7 -> 
    match ('(slots, count) ← rehash (tm_slots map) (replicate (Z.to_nat cap) zero_slot) cap 0; Ok (TermMap slots count) : result TERM_MAP) with
    | Ok map' => table_holds (tm_slots map') (tm_count map') m /\ tm_count map' * 10 + 10 < zlen (tm_slots map') * 7 | Err _ => True | Fault => False end) as Hgo.
  { intros cap k Hk -> Hb Hcnt. pose proof (empty_table k Hk Hb) as H0. assert (0 < 2 ^ k) by (apply Z.pow_pos_nonneg; lia).
    assert (zlen (replicate (Z.to_nat (2 ^ k)) zero_slot) = 2 ^ k) as Hz by (rewrite zlen_replicate; lia).
    destruct (map_rep_used map m HR) as (Hl&HN&Hto&Hc).
    destruct (rehash_spec (tm_slots map) _ _ _ H0) as (slots'&m'&E&Hz'&HT&Hc'); [lia|done|intros s Hs; split; [by apply Hto|done]|].
    rewrite Hz in E, Hz'. rewrite E, outcome_bind_ok. cbn [tm_slots tm_count]. rewrite Hl, Z.add_0_l in *. rewrite Hz'. split; [|lia].
    replace m with m'; [done|]. apply map_eq. intros t. apply option_eq. intros st. rewrite Hc', Hc. split; [intros [?|?]; done|by right]. }
  destruct HR as [[-> ->]|[HT Hcnt]].
  - cbn [tm_slots term_map_zero zlen length]. change (zlen [] =? 0) with true. cbn [Z.eqb]. destruct (_ || _) eqn:T; [done|]. btests. destruct (negb _); [done|].
    apply (Hgo 256 8); [lia|done|done|]. cbn. lia.
  - destruct (th_capacity _ _ _ HT) as (k&Hk&Hcap). pose proof (th_bytes _ _ _ HT) as Hb. assert (0 < 2 ^ k) by (apply Z.pow_pos_nonneg; lia).
    rewrite (proj2 (Z.eqb_neq _ _)) by lia. rewrite Hcap in *. destruct (doubled_pow k Hk Hb) as [-> Hlt]. destruct (_ || _) eqn:T; [done|]. btests. destruct (negb _); [done|].
    apply (Hgo _ (k + 1)); [lia|done|done|]. rewrite Z.pow_add_r by lia. change (2 ^ 1) with 2. pose proof (Z.pow_le_mono_r 2 8 k ltac:(lia) Hk). change (2 ^ 8) with 256 in *. lia.
Qed.

(** The slot that [term_map_slot] returns. *)
Definition slot_at (map : TERM_MAP) (i : Z) (t : bytes) (st : term_stats) : Prop :=
  0 <= i /\ exists s, tm_slots map !! Z.to_nat i = Some s /\ slot_used s = true /\ slot_term s = t /\ stats_of_slot s = st.

Lemma term_map_slot_spec map m t : map_rep map m -> term_ok t ->
  match term_map_slot map t with
  | Ok (map', i) => map_rep map' (<[t := default fresh_stats (m !! t)]> m) /\ slot_at map' i t (default fresh_stats (m !! t))
  | Err _ => True
  | Fault => False
  end.
Proof.
  intros HR Ht. unfold term_map_slot.
  assert (match (if (zlen (tm_slots map) =? 0) || (u64 (zlen (tm_slots map) * 7) <=? u64 ((tm_count map + 1) * 10)) then term_map_grow map else Ok map) with
    | Ok map' => table_holds (tm_slots map') (tm_count map') m /\ tm_count map' * 10 + 10 < zlen (tm_slots map') * 7 | Err _ => True | Fault => False end) as HG.
  { destruct (_ || _) eqn:T; [by apply term_map_grow_spec|]. destruct HR as [[-> ->]|[HT Hc]]; [done|]. split; [done|]. pose proof (th_bytes _ _ _ HT) as Hb.
    rewrite (th_count _ _ _ HT) in *. change (SIZE_MAX / sizeof_term_slot) with 384307168202282325 in Hb. apply orb_false_iff in T as [_ T%Z.leb_gt]. pose_zlen. rewrite !u64_small in T by lia. lia. }
  destruct (if _ || _ then _ else _) as [map1|e|]; [|done|done]. rewrite outcome_bind_ok. destruct HG as [HT Hc]. cbv zeta.
  pose proof (zlen_nonneg (tm_slots map1)). destruct (probe_end_exists _ _ _ HT t) as (j&Hj&->); [pose proof (th_count _ _ _ HT); lia|]. rewrite outcome_bind_ok.
  destruct (probe_end_content _ _ _ HT t j Hj) as (s&Hs&Hcase). rewrite (elem_at_lookup _ _ _ Hs), outcome_bind_ok. destruct Hcase as [(Hu&Et&Em)|[-> Em]]; rewrite Em; cbn [default from_option id].
  - rewrite Hu. split.
    + right. rewrite insert_id by done. split; [done|lia].
    + split; [lia|]. exists s. rewrite Nat2Z.id. done.
  - cbn [slot_used zero_slot]. destruct (negb _); [done|]. rewrite Nat2Z.id. cbn [slot_occurrences slot_postings]. set (e := TermSlot t 0 0 UINT64_MAX true).
    pose proof (write_slot _ _ _ HT t j zero_slot e Hj Hs eq_refl eq_refl Ht) as HW. cbn [slot_used zero_slot] in HW. split.
    + right. cbn [tm_slots tm_count]. split; [done|]. unfold zlen in *. rewrite length_insert. lia.
    + split; [lia|]. exists e. cbn [tm_slots]. rewrite Nat2Z.id, list_lookup_insert_eq by (by eapply lookup_lt_Some). done.
Qed.

(** Writing through the pointer to a slot. *)
Lemma update_slot_spec map m t i st e : map_rep map m -> slot_at map i t st -> slot_used e = true -> slot_term e = t ->
  map_rep (TermMap (<[Z.to_nat i := e]> (tm_slots map)) (tm_count map)) (<[t := stats_of_slot e]> m).
Proof.
  intros HR (Hi&s&Hs&Hu&Et&_) Hue Ete. destruct HR as [[-> _]|[HT Hc]]; [done|]. right. cbn [tm_slots tm_count].
  destruct (used_probe_end _ _ _ HT _ s Hs Hu) as [Hp Ht]. rewrite Et in *. pose proof (write_slot _ _ _ HT t _ s e Hp Hs Hue Ete Ht) as HW. rewrite Hu in HW.
  split; [done|]. unfold zlen in *. by rewrite length_insert.
Qed.

Lemma term_map_find_spec map m t : map_rep map m ->
  exists o, term_map_find map t = Ok o /\ stats_of_slot <$> o = m !! t.
Proof.
  intros HR. unfold term_map_find. cbv zeta. destruct HR as [[-> ->]|[HT Hc]]; [by exists None|].
  destruct (th_capacity _ _ _ HT) as (k&Hk&Hcap). assert (0 < 2 ^ k) by (apply Z.pow_pos_nonneg; lia). rewrite (proj2 (Z.eqb_neq _ _)) by lia.
  destruct (probe_end_exists _ _ _ HT t) as (j&Hj&->); [pose proof (th_count _ _ _ HT); lia|]. rewrite outcome_bind_ok.
  destruct (probe_end_content _ _ _ HT t j Hj) as (s&Hs&Hcase). rewrite (elem_at_lookup _ _ _ Hs), outcome_bind_ok. eexists. split; [done|].
  destruct Hcase as [(Hu&Et&Em)|[-> Em]]; rewrite Em; [by rewrite Hu|done].
Qed.
End operations.
