(* ===== verification/Tokens.v ===== *)
(** Token sequences (src/src/common/yappo_unicode.h) and what their users rely on. *)
From S2P Require Import Prelude Words Types.

Record YAP_V2_TOKEN := Token { byte_start : Z; byte_end : Z; char_start : Z; char_end : Z }.

(** The normalised text is the block that [normalized_utf8] points to. *)
Record YAP_V2_TOKEN_SEQUENCE := TokenSequence { normalized_utf8 : bytes; tokens : list YAP_V2_TOKEN }.

(** A token is a range of the normalised text. *)
Definition token_wf (normalized : bytes) (t : YAP_V2_TOKEN) : Prop := 0 <= byte_start t <= byte_end t /\ byte_end t <= zlen normalized.

Record sequence_wf (s : YAP_V2_TOKEN_SEQUENCE) : Prop := {
  seq_bytes : bytes_ok (normalized_utf8 s) /\ zlen (normalized_utf8 s) <= SIZE_MAX;
  seq_tokens : Forall (token_wf (normalized_utf8 s)) (tokens s) }.

(** The tokeniser as its callers see it: it takes a pointer and a length, and the tokens of a
    text it accepts lie inside of the normalised text it returns. *)
Class Tokenizer := {
  YAP_V2_unicode_tokenize : option bytes -> Z -> result YAP_V2_TOKEN_SEQUENCE;
  tokenize_wf v : view_wf v ->
    match YAP_V2_unicode_tokenize (data v) (len v) with
    | Ok s => sequence_wf s
    | Err _ => True
    | Fault => False
    end }.

(** The text of a token. *)
Definition token_bytes (s : YAP_V2_TOKEN_SEQUENCE) (t : YAP_V2_TOKEN) : bytes :=
  slice (normalized_utf8 s) (byte_start t) (byte_end t - byte_start t).
