(* ===== verification/Unicode.v ===== *)
(** Normalisation, tokens and chunks of text (src/src/common/yappo_unicode.c).

    The functions of ICU are the fields of the class [Icu], with what its documentation promises
    as laws.  A text in UTF-16 is the list of its code units.  A break iterator is its position:
    [ubrk_first] goes to 0 and [ubrk_next] to the boundary that follows the position.  Loops over
    boundaries have as fuel the length of the text: every turn moves the position, and running out
    of fuel is a [Fault]. *)
From Stdlib Require Import Sorted.
From S2P Require Import Prelude Words Types SlotTable CString Tokens.
#[local] Open Scope Z_scope.

Definition INT32_MAX : Z := 2 ^ 31 - 1.
Definition UBRK_DONE : Z := -1.
Definition UBRK_WORD_NONE : Z := 0.
Inductive UBreakIteratorType := UBRK_CHARACTER | UBRK_WORD | UBRK_SENTENCE.

(** The offsets at which a code point starts, and the end: what repeated calls of [next] reach. *)
Inductive boundary (next : list Z -> Z -> Z -> Z * Z) (t : list Z) : Z -> Prop :=
  | boundary_start : boundary next t 0
  | boundary_next i : boundary next t i -> i < zlen t -> boundary next t (next t i (zlen t)).1.

(** The code points from offset [i] on. *)
Fixpoint code_points (next : list Z -> Z -> Z -> Z * Z) (fuel : nat) (t : list Z) (i : Z) : list Z :=
  match fuel with
  | O => []
  | S fuel => if zlen t <=? i then [] else let '(i', c) := next t i (zlen t) in c :: code_points next fuel t i'
  end.

Class Icu := {
  (** [None] is a failure. *)
  u_strFromUTF8 : bytes -> option (list Z);
  unorm2_getNFKCCasefoldInstance : bool;
  unorm2_normalize : list Z -> option (list Z);
  u_strToUTF8 : list Z -> option bytes;
  (** The next offset and the code point. *)
  U16_NEXT : list Z -> Z -> Z -> Z * Z;
  U8_LENGTH : Z -> Z;
  u_isUWhiteSpace : Z -> bool;
  ubrk_open : UBreakIteratorType -> list Z -> bool;
  ubrk_following : UBreakIteratorType -> list Z -> Z -> Z;
  ubrk_preceding : UBreakIteratorType -> list Z -> Z -> Z;
  ubrk_getRuleStatus : list Z -> Z -> Z;

  (** Lengths are of type [int32_t]; the UTF-8 text has as many bytes as its code points need. *)
  normalize_length s t : unorm2_normalize s = Some t -> zlen t <= INT32_MAX;
  to_utf8_bytes t bs : u_strToUTF8 t = Some bs -> bytes_ok bs /\ zlen bs <= INT32_MAX;
  to_utf8_length t bs : u_strToUTF8 t = Some bs -> zlen bs = foldr (fun c n => U8_LENGTH c + n) 0 (code_points U16_NEXT (length t) t 0);
  U8_LENGTH_range c : 0 <= U8_LENGTH c <= 4;
  (** A code point has one or two units; the limit matters only when it cuts a pair. *)
  U16_NEXT_range t i limit : 0 <= i -> i < limit -> limit <= zlen t -> let '(j, _) := U16_NEXT t i limit in i < j /\ j <= i + 2 /\ j <= limit;
  U16_NEXT_limit t i limit : 0 <= i -> i < limit -> limit <= zlen t -> (U16_NEXT t i (zlen t)).1 <= limit -> U16_NEXT t i limit = U16_NEXT t i (zlen t);
  (** Boundaries lie between code points, and the end of the text is one. *)
  ubrk_following_range k t i : 0 <= i -> i < zlen t -> i < ubrk_following k t i /\ ubrk_following k t i <= zlen t;
  ubrk_following_boundary k t i : 0 <= i -> i < zlen t -> boundary U16_NEXT t (ubrk_following k t i);
  ubrk_following_end k t : ubrk_following k t (zlen t) = UBRK_DONE;
  ubrk_preceding_range k t i : 0 <= i -> i <= zlen t -> ubrk_preceding k t i = UBRK_DONE \/ 0 <= ubrk_preceding k t i < i /\ boundary U16_NEXT t (ubrk_preceding k t i) }.

(** A store to an array. *)
Definition store_at {E A} (l : list A) (i : Z) (x : A) : outcome E (list A) :=
  if (0 <=? i) && (i <? zlen l) then Ok (<[Z.to_nat i := x]> l) else Fault.

Record NORMALIZED_TEXT := NormalizedText {
  utext : list Z;
  byte_offsets : list Z;
  char_offsets : list Z;
  utf8 : bytes }.

Record YAP_V2_CHUNK := Chunk {
  chunk_id : bytes;
  chunk_text : bytes;
  chunk_ordinal : Z;
  chunk_start_char : Z;
  chunk_end_char : Z }.
Definition sizeof_chunk : Z := 56.
Definition sizeof_token : Z := 24.

Section unicode.
Context {A : Allocator} {I : Icu}.

(** ** Normalisation *)

(** The loop that fills the offsets; [int32_t] overflow is a [Fault]. *)
Fixpoint fill_offsets (fuel : nat) (t : list Z) (i byte_offset char_offset : Z) (byte_offsets_ char_offsets_ : list Z) : result (list Z * list Z) :=
  if zlen t <=? i then Ok (byte_offsets_, char_offsets_)
  else
  match fuel with
  | O => Fault
  | S fuel =>
      let start := i in
      let '(i, cp) := U16_NEXT t i (zlen t) in
      byte_offsets_ ← store_at byte_offsets_ start byte_offset;
      char_offsets_ ← store_at char_offsets_ start char_offset;
      '(byte_offsets_, char_offsets_) ←
        (if i - start =? 2 then
           byte_offsets_ ← store_at byte_offsets_ (start + 1) byte_offset;
           char_offsets_ ← store_at char_offsets_ (start + 1) char_offset;
           Ok (byte_offsets_, char_offsets_)
         else Ok (byte_offsets_, char_offsets_));
      let byte_offset := byte_offset + U8_LENGTH cp in
      if INT32_MAX <? byte_offset then Fault
      else
      let char_offset := u32 (char_offset + 1) in
      byte_offsets_ ← store_at byte_offsets_ i byte_offset;
      char_offsets_ ← store_at char_offsets_ i char_offset;
      fill_offsets fuel t i byte_offset char_offset byte_offsets_ char_offsets_
  end.

Definition normalize_text (utf8_ : option bytes) (bytes_ : Z) : result NORMALIZED_TEXT :=
  match utf8_ with
  | None => Err YAP_V2_INVALID_ARGUMENT
  | Some m =>
      if INT32_MAX <? bytes_ then Err YAP_V2_INVALID_ARGUMENT
      else
      bs ← load_bytes m 0 bytes_;
      match u_strFromUTF8 bs with
      | None => Err YAP_V2_INVALID_FORMAT
      | Some source =>
          if negb (alloc_ok ((zlen source + 1) * 2)) then Err YAP_V2_ALLOCATION_FAILED
          else if negb unorm2_getNFKCCasefoldInstance then Err YAP_V2_INVALID_FORMAT
          else
          match unorm2_normalize source with
          | None => Err YAP_V2_INVALID_FORMAT
          | Some t =>
              if negb (alloc_ok ((zlen t + 1) * 2)) then Err YAP_V2_ALLOCATION_FAILED
              else
              match u_strToUTF8 t with
              | None => Err YAP_V2_INVALID_FORMAT
              | Some utf8_ =>
                  if negb (alloc_ok (zlen utf8_ + 1) && alloc_ok ((zlen t + 1) * 4)) then Err YAP_V2_ALLOCATION_FAILED
                  else
                  '(byte_offsets_, char_offsets_) ←
                    fill_offsets (length t) t 0 0 0 (replicate (S (length t)) 0) (replicate (S (length t)) 0);
                  Ok (NormalizedText t byte_offsets_ char_offsets_ utf8_)
              end
          end
      end
  end.

(** ** Tokens *)

(** The loop over the words; both passes make it. *)
Fixpoint scan_words (fuel : nat) (t : list Z) (start end_ : Z) : result (list (Z * Z)) :=
  if end_ =? UBRK_DONE then Ok []
  else
  match fuel with
  | O => Fault
  | S fuel =>
      rest ← scan_words fuel t end_ (ubrk_following UBRK_WORD t end_);
      Ok (if ubrk_getRuleStatus t end_ =? UBRK_WORD_NONE then rest else (start, end_) :: rest)
  end.

Fixpoint fill_tokens (t : NORMALIZED_TEXT) (words : list (Z * Z)) : result (list YAP_V2_TOKEN) :=
  match words with
  | [] => Ok []
  | (start, end_) :: words =>
      bs ← elem_at (byte_offsets t) start;
      be ← elem_at (byte_offsets t) end_;
      cs ← elem_at (char_offsets t) start;
      ce ← elem_at (char_offsets t) end_;
      rest ← fill_tokens t words;
      Ok (Token bs be cs ce :: rest)
  end.

Definition unicode_tokenize (utf8_ : option bytes) (utf8_bytes : Z) : result YAP_V2_TOKEN_SEQUENCE :=
  t ← normalize_text utf8_ utf8_bytes;
  if negb (ubrk_open UBRK_WORD (utext t)) then Err YAP_V2_INVALID_FORMAT
  else
  words ← scan_words (S (length (utext t))) (utext t) 0 (ubrk_following UBRK_WORD (utext t) 0);
  if (0 <? zlen words) && negb (alloc_ok (zlen words * sizeof_token)) then Err YAP_V2_ALLOCATION_FAILED
  else
  tokens_ ← fill_tokens t words;
  Ok (TokenSequence (utf8 t) tokens_).

(** ** Chunks *)
Definition FNV_OFFSET : Z := 1469598103934665603.
Definition FNV_PRIME : Z := 1099511628211.
Definition fnv (hash c : Z) : Z := u64 (Z.lxor hash c * FNV_PRIME).

(** The loop over a NUL-terminated string. *)
Fixpoint hash_string (fuel : nat) (s : bytes) (i hash : Z) : result Z :=
  match fuel with
  | O => Fault
  | S fuel => c ← load s i; if c =? 0 then Ok hash else hash_string fuel s (i + 1) (fnv hash c)
  end.

Definition passage_hash (document_id : bytes) (ordinal_ : Z) (text_ : bytes) : result Z :=
  hash ← hash_string (S (length document_id)) document_id 0 FNV_OFFSET;
  Ok (foldl fnv (fnv hash ordinal_) text_).

(** ["%016llx"]. *)
Fixpoint hexadecimal (digits : nat) (n : Z) : bytes :=
  match digits with
  | O => []
  | S digits => hexadecimal digits (n / 16) ++ [hex_digit (n mod 16)]
  end.

Fixpoint range_has_non_whitespace (fuel : nat) (t : list Z) (start end_ : Z) : result bool :=
  if end_ <=? start then Ok false
  else
  match fuel with
  | O => Fault
  | S fuel =>
      let '(start, codepoint) := U16_NEXT t start end_ in
      if negb (u_isUWhiteSpace codepoint) then Ok true else range_has_non_whitespace fuel t start end_
  end.

(** The last boundary of a grapheme that is at most [max_chars] behind the start. *)
Fixpoint extend_limit (fuel : nat) (t : NORMALIZED_TEXT) (max_chars start_char_ limit candidate : Z) : result Z :=
  if candidate =? UBRK_DONE then Ok limit
  else
  c ← elem_at (char_offsets t) candidate;
  if u32 (c - start_char_) <=? max_chars then
    match fuel with
    | O => Fault
    | S fuel => extend_limit fuel t max_chars start_char_ candidate (ubrk_following UBRK_CHARACTER (utext t) candidate)
    end
  else Ok limit.

(** The last boundary of a sentence up to [limit]. *)
Fixpoint last_sentence (fuel : nat) (t : list Z) (limit end_ candidate : Z) : result Z :=
  if negb (candidate =? UBRK_DONE) && (candidate <=? limit) then
    match fuel with
    | O => Fault
    | S fuel => last_sentence fuel t limit candidate (ubrk_following UBRK_SENTENCE t candidate)
    end
  else Ok end_.

(** Steps back over graphemes until [overlap_chars] are repeated. *)
Fixpoint step_back (fuel : nat) (t : NORMALIZED_TEXT) (start end_ overlap_chars next_start : Z) : result Z :=
  if next_start <=? start then Ok next_start
  else
  ce ← elem_at (char_offsets t) end_;
  cn ← elem_at (char_offsets t) next_start;
  if overlap_chars <=? u32 (ce - cn) then Ok next_start
  else
  let previous := ubrk_preceding UBRK_CHARACTER (utext t) next_start in
  if (previous =? UBRK_DONE) || (previous <=? start) then Ok next_start
  else
  match fuel with
  | O => Fault
  | S fuel => step_back fuel t start end_ overlap_chars previous
  end.

(** Where the chunk that starts at [start] ends. *)
Definition chunk_end (t : NORMALIZED_TEXT) (max_chars start start_char_ : Z) : result Z :=
  let fuel := S (length (utext t)) in
  limit ← extend_limit fuel t max_chars start_char_ start (ubrk_following UBRK_CHARACTER (utext t) start);
  let limit := if limit <=? start then ubrk_following UBRK_CHARACTER (utext t) start else limit in
  end_ ← last_sentence fuel (utext t) limit limit (ubrk_following UBRK_SENTENCE (utext t) start);
  Ok (if end_ <=? start then limit else end_).

Definition next_chunk_start (t : NORMALIZED_TEXT) (start end_ overlap_chars : Z) : result Z :=
  next_start ← step_back (S (length (utext t))) t start end_ overlap_chars end_;
  Ok (if next_start <=? start then end_ else next_start).

Definition make_chunk (document_id : bytes) (t : NORMALIZED_TEXT) (ordinal_ start end_ start_char_ : Z) : result YAP_V2_CHUNK :=
  begin_byte ← elem_at (byte_offsets t) start;
  end_byte ← elem_at (byte_offsets t) end_;
  let text_bytes := u64 (end_byte - begin_byte) in
  if negb (alloc_ok (u64 (text_bytes + 1))) then Err YAP_V2_ALLOCATION_FAILED
  else
  text_ ← load_bytes (utf8 t) begin_byte text_bytes;
  end_char_ ← elem_at (char_offsets t) end_;
  hash ← passage_hash document_id ordinal_ text_;
  Ok (Chunk ([112; 45] ++ hexadecimal 16 hash) text_ ordinal_ start_char_ end_char_).

(** The loop over the text, with the capacity of the array of chunks.  A size that wraps around
    would make the array too small: a [Fault]. *)
Fixpoint chunk_loop (fuel : nat) (document_id : bytes) (t : NORMALIZED_TEXT) (max_chars overlap_chars start capacity : Z)
    (chunks : list YAP_V2_CHUNK) : result (list YAP_V2_CHUNK) :=
  let length_ := zlen (utext t) in
  if length_ <=? start then Ok chunks
  else
  match fuel with
  | O => Fault
  | S fuel =>
      start_char_ ← elem_at (char_offsets t) start;
      end_ ← chunk_end t max_chars start start_char_;
      visible ← range_has_non_whitespace (S (length (utext t))) (utext t) start end_;
      if negb visible then
        if end_ =? length_ then Ok chunks else chunk_loop fuel document_id t max_chars overlap_chars end_ capacity chunks
      else
      capacity ← (if zlen chunks =? capacity then
                    let new_capacity := if capacity =? 0 then 4 else u64 (capacity * 2) in
                    if SIZE_MAX <? new_capacity * sizeof_chunk then Fault
                    else if alloc_ok (new_capacity * sizeof_chunk) then Ok new_capacity
                    else Err YAP_V2_ALLOCATION_FAILED
                  else Ok capacity);
      if capacity <=? zlen chunks then Fault
      else
      chunk ← make_chunk document_id t (u32 (zlen chunks)) start end_ start_char_;
      if end_ =? length_ then Ok (chunks ++ [chunk])
      else
      next_start ← next_chunk_start t start end_ overlap_chars;
      chunk_loop fuel document_id t max_chars overlap_chars next_start capacity (chunks ++ [chunk])
  end.

Definition YAP_V2_unicode_chunk (document_id : option bytes) (utf8_ : option bytes) (utf8_bytes max_chars overlap_chars : Z) : result (list YAP_V2_CHUNK) :=
  match document_id with
  | None => Err YAP_V2_INVALID_ARGUMENT
  | Some document_id =>
      c ← load document_id 0;
      if (c =? 0) || (max_chars =? 0) || (max_chars <=? overlap_chars) then Err YAP_V2_INVALID_ARGUMENT
      else
      t ← normalize_text utf8_ utf8_bytes;
      if negb (ubrk_open UBRK_CHARACTER (utext t) && ubrk_open UBRK_SENTENCE (utext t)) then Err YAP_V2_INVALID_FORMAT
      else chunk_loop (length (utext t)) document_id t max_chars overlap_chars 0 0 []
  end.
End unicode.

(** ** Boundaries of code points *)
Section boundaries.
Context {I : Icu}.
Abbreviation bnd := (boundary (@U16_NEXT I)).
Abbreviation next t i := (@U16_NEXT I t i (zlen t)).1.

Lemma next_range t i : 0 <= i < zlen t -> i < next t i /\ next t i <= i + 2 /\ next t i <= zlen t.
Proof. intros [H1 H2]. pose proof (U16_NEXT_range t i (zlen t) H1 H2 ltac:(lia)) as H. by destruct (U16_NEXT t i (zlen t)). Qed.

Lemma boundary_range t i : bnd t i -> 0 <= i <= zlen t.
Proof. induction 1 as [|i Hi IH Hn]; [pose_zlen; lia|]. pose proof (next_range t i ltac:(lia)). lia. Qed.

(** No boundary lies inside of a code point. *)
Lemma boundary_step t i j : bnd t i -> bnd t j -> i < j -> next t i <= j.
Proof.
  remember (Z.to_nat (i + j)) as n eqn:E. revert i j E. induction (lt_wf n) as [n _ IH]. intros i j E Hi Hj Hlt.
  pose proof (boundary_range t i Hi). destruct Hj as [|k Hk Hn]; [lia|]. pose proof (boundary_range t k Hk). pose proof (next_range t k ltac:(lia)).
  destruct (Z.lt_trichotomy i k) as [L|[->|G]]; [|lia|].
  - pose proof (IH (Z.to_nat (i + k)) ltac:(lia) i k eq_refl Hi Hk L). lia.
  - pose proof (IH (Z.to_nat (k + i)) ltac:(lia) k i eq_refl Hk Hi ltac:(lia)). lia.
Qed.

Lemma code_points_fuel t : forall fuel fuel' i, 0 <= i -> (Z.to_nat (zlen t - i) <= fuel)%nat -> (Z.to_nat (zlen t - i) <= fuel')%nat ->
  code_points U16_NEXT fuel t i = code_points U16_NEXT fuel' t i.
Proof.
  induction fuel as [|fuel IH]; intros [|fuel'] i Hi H1 H2; cbn [code_points]; try done; destruct (Z.leb_spec (zlen t) i); try done; try lia.
  pose proof (next_range t i ltac:(lia)) as HN. destruct (U16_NEXT t i (zlen t)) as [j c]. cbn [fst] in HN. f_equal. apply IH; lia.
Qed.

(** The points from [i] on, and how many bytes they need. *)
Definition bytes_from (t : list Z) (i : Z) : Z := foldr (fun c n => U8_LENGTH c + n) 0 (code_points U16_NEXT (length t) t i).

Lemma bytes_from_step t i : 0 <= i < zlen t -> bytes_from t i = U8_LENGTH (U16_NEXT t i (zlen t)).2 + bytes_from t (next t i).
Proof.
  intros Hi. unfold bytes_from. pose proof (next_range t i Hi) as HN.
  rewrite (code_points_fuel t (length t) (S (Z.to_nat (zlen t - i - 1))) i) by (unfold zlen in *; lia). cbn [code_points].
  rewrite (proj2 (Z.leb_gt _ _)) by lia. destruct (U16_NEXT t i (zlen t)) as [j c] eqn:E. cbn [fst snd] in *. cbn [foldr].
  f_equal. f_equal. apply code_points_fuel; unfold zlen in *; lia.
Qed.

Lemma bytes_from_end t i : zlen t <= i -> bytes_from t i = 0.
Proof. intros H. unfold bytes_from. destruct (length t); [done|]. cbn [code_points]. by rewrite (proj2 (Z.leb_le _ _) H). Qed.

Lemma bytes_from_nonneg t i : 0 <= bytes_from t i.
Proof.
  unfold bytes_from. induction (code_points _ _ _ _) as [|c cs IH]; [done|]. cbn [foldr]. pose proof (U8_LENGTH_range c). lia.
Qed.
End boundaries.

(** ** Arrays of offsets *)
Definition at_ (l : list Z) (i : Z) : Z := l !!! Z.to_nat i.

Lemma elem_at_at {E} l i : 0 <= i < zlen l -> elem_at (E := E) l i = Ok (at_ l i).
Proof.
  intros H. unfold elem_at, at_, zlen in *. rewrite (proj2 (Z.leb_le _ _)) by lia.
  destruct (lookup_lt_is_Some_2 l (Z.to_nat i)) as [x Hx]; [lia|]. by rewrite Hx, (list_lookup_total_correct _ _ _ Hx).
Qed.

Lemma store_at_ok {E} (l : list Z) i x : 0 <= i < zlen l -> store_at (E := E) l i x = Ok (<[Z.to_nat i := x]> l).
Proof. intros H. unfold store_at. by rewrite (proj2 (Z.leb_le _ _)), (proj2 (Z.ltb_lt _ _)) by lia. Qed.

Lemma zlen_store (l : list Z) i x : zlen (<[Z.to_nat i := x]> l) = zlen l.
Proof. unfold zlen. by rewrite length_insert. Qed.

Lemma at_store (l : list Z) i j x : 0 <= i < zlen l -> 0 <= j -> at_ (<[Z.to_nat i := x]> l) j = if j =? i then x else at_ l j.
Proof.
  intros H Hj. unfold at_, zlen in *. destruct (Z.eqb_spec j i) as [->|N].
  - apply list_lookup_total_insert_eq. lia.
  - apply list_lookup_total_insert_ne. lia.
Qed.

Section offsets.
Context {A : Allocator} {I : Icu} (t : list Z).
Abbreviation bnd := (boundary (@U16_NEXT I) t).
Abbreviation next i := (@U16_NEXT I t i (zlen t)).1.

(** The offsets are right up to [i]. *)
Record filled (i : Z) (bo co : list Z) : Prop := {
  fl_size : zlen bo = zlen t + 1 /\ zlen co = zlen t + 1;
  fl_mono : forall a b, 0 <= a <= b -> b <= i -> at_ bo a <= at_ bo b /\ at_ co a <= at_ co b;
  fl_bytes : 0 <= at_ bo 0 /\ at_ bo i + bytes_from t i = bytes_from t 0;
  fl_chars : at_ co 0 = 0 /\ at_ co i <= i;
  fl_next : forall a, bnd a -> a < i -> at_ co (next a) = at_ co a + 1 }.

Lemma filled_start : filled 0 (replicate (S (length t)) 0) (replicate (S (length t)) 0).
Proof.
  assert (at_ (replicate (S (length t)) 0) 0 = 0) as H0 by done.
  split; rewrite ?H0; [rewrite !zlen_replicate; unfold zlen; lia|intros a b Ha Hb; replace a with 0 by lia; replace b with 0 by lia; lia|lia|lia|].
  intros a Ha H. apply boundary_range in Ha. lia.
Qed.

(** One turn writes the same value for both units of a pair, then the offset behind it. *)
Lemma filled_step i bo co bo' co' : bnd i -> i < zlen t -> filled i bo co ->
  zlen bo' = zlen t + 1 -> zlen co' = zlen t + 1 ->
  (forall j, 0 <= j <= i -> at_ bo' j = at_ bo j /\ at_ co' j = at_ co j) ->
  (forall j, i < j < next i -> at_ bo' j = at_ bo i /\ at_ co' j = at_ co i) ->
  at_ bo' (next i) = at_ bo i + U8_LENGTH (U16_NEXT t i (zlen t)).2 -> at_ co' (next i) = at_ co i + 1 ->
  filled (next i) bo' co'.
Proof.
  intros Hb Hi [_ Hm [Hb0 Hbi] [Hc0 Hci] Hn] Z1 Z2 Hlo Hmid Eb Ec. pose proof (boundary_range t i Hb) as Hr. pose proof (next_range t i ltac:(lia)) as HN.
  pose proof (U8_LENGTH_range (U16_NEXT t i (zlen t)).2) as HU. pose proof (bytes_from_step t i ltac:(lia)) as HB.
  assert (forall j, 0 <= j < next i -> at_ bo' j = at_ bo (Z.min j i) /\ at_ co' j = at_ co (Z.min j i)) as Hlt.
  { intros j Hj. destruct (Z.le_gt_cases j i); [rewrite Z.min_l by lia; apply Hlo; lia|rewrite Z.min_r by lia; apply Hmid; lia]. }
  split; [done| | | |].
  - intros a b Ha Hb'. destruct (decide (b = next i)) as [->|Nb].
    + destruct (decide (a = next i)) as [->|Na]; [lia|]. destruct (Hlt a ltac:(lia)) as [-> ->]. rewrite Eb, Ec. destruct (Hm (Z.min a i) i ltac:(lia) ltac:(lia)). lia.
    + destruct (Hlt a ltac:(lia)) as [-> ->]. destruct (Hlt b ltac:(lia)) as [-> ->]. apply Hm; lia.
  - destruct (Hlt 0 ltac:(lia)) as [-> _]. rewrite Z.min_l, Eb by lia. lia.
  - destruct (Hlt 0 ltac:(lia)) as [_ ->]. rewrite Z.min_l, Ec by lia. lia.
  - intros a Ha Hlt'. pose proof (boundary_range t a Ha). destruct (Z.lt_trichotomy a i) as [L|[->|G]].
    + pose proof (boundary_step t a i Ha Hb L). pose proof (next_range t a ltac:(lia)) as Hna.
      destruct (Hlo (next a)) as [_ ->]; [lia|]. destruct (Hlo a) as [_ ->]; [lia|]. by apply Hn.
    + rewrite Ec, (proj2 (Hlo i ltac:(lia))). done.
    + pose proof (boundary_step t i a Hb Ha ltac:(lia)). lia.
Qed.

Lemma fill_offsets_spec : bytes_from t 0 <= INT32_MAX -> zlen t <= INT32_MAX -> forall fuel i bo co, bnd i -> (Z.to_nat (zlen t - i) <= fuel)%nat ->
  filled i bo co -> exists bo' co', fill_offsets fuel t i (at_ bo i) (at_ co i) bo co = Ok (bo', co') /\ filled (zlen t) bo' co'.
Proof.
  intros Hmax Hlen. induction fuel as [|fuel IH]; intros i bo co Hb Hf HF; pose proof (boundary_range t i Hb) as Hr; cbn [fill_offsets].
  { rewrite (proj2 (Z.leb_le _ _)) by lia. replace i with (zlen t) in HF by lia. eauto. }
  destruct (Z.leb_spec (zlen t) i) as [|Hi]; [replace i with (zlen t) in HF by lia; eauto|]. cbv zeta.
  pose proof (next_range t i ltac:(lia)) as HN. pose proof (boundary_next U16_NEXT t i Hb Hi) as Hb'. pose proof HF as [[Z1 Z2] _ [Hb0 Hbi] [_ Hci] _].
  pose proof (bytes_from_step t i ltac:(lia)) as HB. pose proof (bytes_from_nonneg t (next i)) as HB'.
  pose proof (fun bo' co' => filled_step i bo co bo' co' Hb Hi HF) as HS.
  destruct (U16_NEXT t i (zlen t)) as [j c] eqn:EU. cbn [fst snd] in *.
  assert (0 <= at_ co i) as Hc by (destruct (fl_mono _ _ _ HF 0 i ltac:(lia) ltac:(lia)); rewrite (proj1 (fl_chars _ _ _ HF)) in *; lia).
  assert (u32 (at_ co i + 1) = at_ co i + 1) as -> by (apply Z.mod_small; unfold INT32_MAX in *; lia).
  rewrite !store_at_ok, !outcome_bind_ok by lia.
  destruct (Z.eqb_spec (j - i) 2) as [E2|N2]; [rewrite !store_at_ok, !outcome_bind_ok by (rewrite ?zlen_store; lia)|rewrite outcome_bind_ok];
    (rewrite (proj2 (Z.ltb_ge _ _)) by (unfold INT32_MAX in *; lia)); rewrite !store_at_ok, !outcome_bind_ok by (rewrite ?zlen_store; lia);
    match goal with |- context [fill_offsets _ _ _ _ _ ?b ?c] =>
      specialize (HS b c ltac:(rewrite !zlen_store; lia) ltac:(rewrite !zlen_store; lia)); specialize (IH j b c Hb' ltac:(lia)) end.
  all: rewrite !(at_store _ j j), Z.eqb_refl in IH by (rewrite ?zlen_store; lia); apply IH, HS; intros.
  all: rewrite ?at_store by (rewrite ?zlen_store; lia); clear IH HS;
    repeat match goal with |- context [?a =? ?b] => destruct (Z.eqb_spec a b) end; subst; (try split); done || lia.
Qed.
End offsets.

(** ** Normalised texts *)
Record normalized {I : Icu} (t : NORMALIZED_TEXT) : Prop := {
  nt_length : zlen (utext t) <= INT32_MAX;
  nt_utf8 : bytes_ok (utf8 t) /\ zlen (utf8 t) <= INT32_MAX;
  nt_sizes : zlen (byte_offsets t) = zlen (utext t) + 1 /\ zlen (char_offsets t) = zlen (utext t) + 1;
  nt_bytes : forall a b, 0 <= a <= b -> b <= zlen (utext t) ->
    0 <= at_ (byte_offsets t) a <= at_ (byte_offsets t) b /\ at_ (byte_offsets t) b <= zlen (utf8 t);
  nt_chars : forall a b, 0 <= a <= b -> b <= zlen (utext t) ->
    0 <= at_ (char_offsets t) a <= at_ (char_offsets t) b /\ at_ (char_offsets t) b <= zlen (utext t);
  nt_next : forall a, boundary U16_NEXT (utext t) a -> a < zlen (utext t) ->
    at_ (char_offsets t) (U16_NEXT (utext t) a (zlen (utext t))).1 = at_ (char_offsets t) a + 1 }.

(** Every field of the model is a function of the memory, so running out of it is the only
    failure besides the ones the code reports. *)
Lemma normalize_text_spec {A : Allocator} {I : Icu} v : view_wf v ->
  match normalize_text (data v) (len v) with Ok t => normalized t | Err _ => True | Fault => False end.
Proof.
  intros [H1 H2]. unfold normalize_text. destruct (data v) as [m|]; [|done]. destruct H2 as [H2 H3]. destruct (INT32_MAX <? len v); [done|].
  rewrite load_bytes_slice, outcome_bind_ok by lia. destruct (u_strFromUTF8 _) as [source|]; [|done]. destruct (negb (alloc_ok _)); [done|].
  destruct (negb unorm2_getNFKCCasefoldInstance); [done|]. destruct (unorm2_normalize source) as [t|] eqn:Et; [|done]. destruct (negb (alloc_ok _)); [done|].
  destruct (u_strToUTF8 t) as [bs|] eqn:Eb; [|done]. destruct (negb (_ && _)); [done|]. apply normalize_length in Et. pose proof (to_utf8_bytes t bs Eb) as [Hb1 Hb2].
  pose proof (to_utf8_length t bs Eb) as Hl. fold (bytes_from t 0) in Hl. rewrite Hl in Hb2. pose_zlen.
  destruct (fill_offsets_spec t Hb2 Et (length t) 0 _ _ (boundary_start _ _) ltac:(unfold zlen; lia) (filled_start t)) as (bo&co&E&[Z1 HM HB HC HN]).
  change (at_ (replicate (S (length t)) 0) 0) with 0 in E. rewrite E, outcome_bind_ok. rewrite bytes_from_end in HB by lia.
  split; cbn [utext byte_offsets char_offsets utf8]; try done; [split; [done|lia]| |].
  - intros a b Ha Hb. pose proof (HM 0 a ltac:(lia) ltac:(lia)). pose proof (HM a b Ha Hb). pose proof (HM b (zlen t) ltac:(lia) ltac:(lia)). lia.
  - intros a b Ha Hb. pose proof (HM 0 a ltac:(lia) ltac:(lia)). pose proof (HM a b Ha Hb). pose proof (HM b (zlen t) ltac:(lia) ltac:(lia)). lia.
Qed.

(** ** Tokens are words in order *)
Section tokenize.
Context {A : Allocator} {I : Icu} (t : NORMALIZED_TEXT) (Ht : normalized t).
Abbreviation u := (utext t).

Inductive words_from : Z -> list (Z * Z) -> Prop :=
  | words_nil i : words_from i []
  | words_cons i s e ws : i <= s -> s < e -> e <= zlen u -> words_from e ws -> words_from i ((s, e) :: ws).

Lemma words_from_le i j ws : j <= i -> words_from i ws -> words_from j ws.
Proof. intros H. inversion 1; constructor; lia || done. Qed.

Lemma scan_words_spec : forall fuel start, 0 <= start <= zlen u -> (Z.to_nat (zlen u - start) <= fuel)%nat ->
  exists ws, scan_words fuel u start (ubrk_following UBRK_WORD u start) = Ok ws /\ words_from start ws.
Proof.
  induction fuel as [|fuel IH]; intros start Hs Hf; cbn [scan_words].
  { replace start with (zlen u) by lia. rewrite ubrk_following_end. exists []. split; [done|constructor]. }
  destruct (decide (start = zlen u)) as [->|N]; [rewrite ubrk_following_end; exists []; split; [done|constructor]|].
  pose proof (ubrk_following_range UBRK_WORD u start ltac:(lia) ltac:(lia)) as HR. set (e := ubrk_following UBRK_WORD u start) in *.
  unfold UBRK_DONE. rewrite (proj2 (Z.eqb_neq _ _)) by lia. destruct (IH e ltac:(lia) ltac:(lia)) as (ws&->&HW). rewrite outcome_bind_ok.
  eexists. split; [done|]. destruct (_ =? _); [by apply (words_from_le e); [lia|]|]. constructor; lia || done.
Qed.

(** A token lies in both texts; tokens do not overlap. *)
Inductive tokens_from : Z -> Z -> list YAP_V2_TOKEN -> Prop :=
  | tokens_nil b c : tokens_from b c []
  | tokens_cons b c k ks : b <= byte_start k <= byte_end k -> byte_end k <= zlen (utf8 t) -> c <= char_start k <= char_end k -> char_end k <= zlen u ->
      tokens_from (byte_end k) (char_end k) ks -> tokens_from b c (k :: ks).

Lemma fill_tokens_spec ws : forall i, 0 <= i <= zlen u -> words_from i ws ->
  exists ks, fill_tokens t ws = Ok ks /\ tokens_from (at_ (byte_offsets t) i) (at_ (char_offsets t) i) ks.
Proof.
  induction ws as [|[s e] ws IH]; intros i Hi HW; cbn [fill_tokens]; [exists []; split; [done|constructor]|].
  inversion HW as [|? ? ? ? H1 H2 H3 HW']; subst. destruct (nt_sizes t Ht) as [Z1 Z2]. rewrite !elem_at_at, !outcome_bind_ok by lia.
  destruct (IH e ltac:(lia) HW') as (ks&->&HK). rewrite outcome_bind_ok. eexists. split; [done|].
  pose proof (nt_bytes t Ht i s ltac:(lia) ltac:(lia)). pose proof (nt_bytes t Ht s e ltac:(lia) ltac:(lia)).
  pose proof (nt_chars t Ht i s ltac:(lia) ltac:(lia)). pose proof (nt_chars t Ht s e ltac:(lia) ltac:(lia)). constructor; cbn; lia || done.
Qed.

Lemma tokens_from_wf b c ks : 0 <= b -> tokens_from b c ks -> Forall (token_wf (utf8 t)) ks.
Proof. intros Hb HK. induction HK as [|b c k ks H1 H2 _ _ _ IH]; constructor; [split; lia|]. apply IH. lia. Qed.
End tokenize.

(** What the tokeniser returns for any text. *)
Lemma unicode_tokenize_spec {A : Allocator} {I : Icu} v : view_wf v ->
  match unicode_tokenize (data v) (len v) with
  | Ok s => exists t, normalize_text (data v) (len v) = Ok t /\ normalized t /\ normalized_utf8 s = utf8 t /\ tokens_from t 0 0 (tokens s)
  | Err _ => True
  | Fault => False
  end.
Proof.
  intros Hv. unfold unicode_tokenize. pose proof (normalize_text_spec v Hv) as Ht. destruct (normalize_text _ _) as [t| |]; cbn [mbind outcome_bind]; [|done|done].
  destruct (negb (ubrk_open _ _)); [done|]. destruct (scan_words_spec t (S (length (utext t))) 0) as (ws&->&HW); [pose_zlen; lia|unfold zlen; lia|].
  rewrite outcome_bind_ok. destruct (_ && _); [done|]. destruct (fill_tokens_spec t Ht ws 0) as (ks&->&HK); [pose_zlen; lia|done|]. rewrite outcome_bind_ok.
  exists t. split_and!; [done|done|done|]. cbn [tokens].
  assert (forall b c b' c', b' <= b -> c' <= c -> tokens_from t b c ks -> tokens_from t b' c' ks) as Hle by (intros b c b' c' ? ? HT; inversion HT; constructor; lia || done).
  pose proof (zlen_nonneg (utext t)). pose proof (nt_bytes t Ht 0 0 ltac:(lia) ltac:(lia)). pose proof (nt_chars t Ht 0 0 ltac:(lia) ltac:(lia)). eapply Hle; [| |exact HK]; lia.
Qed.

(** The tokeniser of the program over ICU discharges the interface of the indexes. *)
#[refine, export] Instance unicode_tokenizer {A : Allocator} {I : Icu} : Tokenizer := { YAP_V2_unicode_tokenize := unicode_tokenize }.
Proof.
  intros v Hv. pose proof (unicode_tokenize_spec v Hv) as H. destruct (unicode_tokenize _ _) as [s| |]; [|done|done].
  destruct H as (t&_&Ht&E&HK). destruct (nt_utf8 t Ht). split; rewrite E; [split; [done|]; unfold INT32_MAX, SIZE_MAX in *; lia|by apply (tokens_from_wf t 0 0)].
Defined.

(** ** Chunks cover the text *)
Section chunks.
Context {A : Allocator} {I : Icu} (t : NORMALIZED_TEXT) (Ht : normalized t).
Abbreviation u := (utext t).
Abbreviation co := (at_ (char_offsets t)).
Abbreviation bo := (at_ (byte_offsets t)).
Abbreviation bnd := (boundary (@U16_NEXT I) (utext t)).
Abbreviation next i := (@U16_NEXT I (utext t) i (zlen (utext t))).1.
Abbreviation white i := (u_isUWhiteSpace (U16_NEXT (utext t) i (zlen (utext t))).2).

Lemma char_at i : 0 <= i <= zlen u -> elem_at (E := YAP_V2_STATUS) (char_offsets t) i = Ok (co i).
Proof. intros H. destruct (nt_sizes t Ht). apply elem_at_at. lia. Qed.
Lemma byte_at i : 0 <= i <= zlen u -> elem_at (E := YAP_V2_STATUS) (byte_offsets t) i = Ok (bo i).
Proof. intros H. destruct (nt_sizes t Ht). apply elem_at_at. lia. Qed.

Lemma char_distance a b : 0 <= a <= b -> b <= zlen u -> u32 (co b - co a) = co b - co a.
Proof. intros H1 H2. pose proof (nt_chars t Ht a b H1 H2). pose proof (nt_length t Ht). unfold INT32_MAX in *. apply Z.mod_small. lia. Qed.

(** Characters grow strictly between boundaries. *)
Lemma char_strict a b : bnd a -> bnd b -> a < b -> co a < co b.
Proof.
  intros Ha Hb H. pose proof (boundary_range u a Ha). pose proof (boundary_range u b Hb). pose proof (boundary_step u a b Ha Hb H) as HN.
  pose proof (next_range u a ltac:(lia)). pose proof (nt_next t Ht a Ha ltac:(lia)). pose proof (nt_chars t Ht (next a) b ltac:(lia) ltac:(lia)). lia.
Qed.

Definition reaches (k : UBreakIteratorType) (i : Z) : Prop :=
  ubrk_following k u i = UBRK_DONE /\ i = zlen u \/ i < ubrk_following k u i <= zlen u /\ bnd (ubrk_following k u i).

Lemma following_reaches k i : 0 <= i <= zlen u -> reaches k i.
Proof.
  intros H. destruct (decide (i = zlen u)) as [->|N]; [left; split; [apply ubrk_following_end|done]|]. right.
  split; [apply ubrk_following_range; lia|apply ubrk_following_boundary; lia].
Qed.

Lemma extend_limit_spec max start : bnd start -> forall fuel limit, bnd limit -> start <= limit -> (Z.to_nat (zlen u - limit) <= fuel)%nat ->
  (limit = start \/ co limit - co start <= max) ->
  exists l, extend_limit fuel t max (co start) limit (ubrk_following UBRK_CHARACTER u limit) = Ok l /\ bnd l /\ start <= l /\ (l = start \/ co l - co start <= max).
Proof.
  intros Hs. pose proof (boundary_range u start Hs) as Hr. induction fuel as [|fuel IH]; intros limit Hl Hle Hf Hm; pose proof (boundary_range u limit Hl) as Hrl;
    destruct (following_reaches UBRK_CHARACTER limit Hrl) as [[E ->]|[HR HB]]; cbn [extend_limit]; try lia; try (rewrite E, Z.eqb_refl; by eauto).
  unfold UBRK_DONE. rewrite (proj2 (Z.eqb_neq _ _)) by lia. rewrite char_at, outcome_bind_ok, char_distance by lia.
  destruct (Z.leb_spec (co (ubrk_following UBRK_CHARACTER u limit) - co start) max) as [Hc|Hc]; [|eauto].
  apply IH; [done|lia|lia|by right].
Qed.

Lemma last_sentence_spec start limit : 0 <= start -> bnd limit -> forall fuel c e, start <= c <= zlen u -> (Z.to_nat (zlen u - c) <= fuel)%nat -> bnd e -> start < e <= limit ->
  exists e', last_sentence fuel u limit e (ubrk_following UBRK_SENTENCE u c) = Ok e' /\ bnd e' /\ start < e' <= limit.
Proof.
  intros H0 Hl. induction fuel as [|fuel IH]; intros c e Hc Hf He Hr;
    destruct (following_reaches UBRK_SENTENCE c ltac:(lia)) as [[E ->]|[HR HB]]; cbn [last_sentence]; try lia; try (rewrite E; by eauto).
  destruct (_ && (_ <=? _)) eqn:T; [|eauto]. btests. apply IH; lia || done.
Qed.

(** A chunk ends behind its start; it is longer than [max] only when it is one grapheme. *)
Lemma chunk_end_spec max start : bnd start -> start < zlen u ->
  exists e, chunk_end t max start (co start) = Ok e /\ bnd e /\ start < e <= zlen u /\
    (co e - co start <= max \/ e <= ubrk_following UBRK_CHARACTER u start).
Proof.
  intros Hs Hlt. pose proof (boundary_range u start Hs) as Hr. unfold chunk_end. cbv zeta.
  destruct (extend_limit_spec max start Hs (S (length u)) start Hs ltac:(lia) ltac:(unfold zlen in *; lia) ltac:(by left)) as (l&->&Hl&Hle&Hm). rewrite outcome_bind_ok.
  destruct (following_reaches UBRK_CHARACTER start ltac:(lia)) as [[_ E]|[HR HB]]; [lia|].
  set (limit := if l <=? start then ubrk_following UBRK_CHARACTER u start else l).
  assert (bnd limit /\ start < limit /\ (co limit - co start <= max \/ limit <= ubrk_following UBRK_CHARACTER u start)) as (Hb&Hgt&Hmax).
  { subst limit. destruct (Z.leb_spec l start); [split_and!; [done|lia|right; lia]|]. split_and!; [done|lia|left]. destruct Hm; [lia|done]. }
  clearbody limit. pose proof (boundary_range u limit Hb) as Hrl.
  destruct (last_sentence_spec start limit ltac:(lia) Hb (S (length u)) start limit ltac:(lia) ltac:(unfold zlen in *; lia) Hb ltac:(lia)) as (e&->&He&Hre).
  rewrite outcome_bind_ok, (proj2 (Z.leb_gt _ _)) by lia. exists e. split_and!; [done|done|lia|lia|].
  destruct Hmax as [Hmax|Hmax]; [left|right; lia]. pose proof (nt_chars t Ht e limit ltac:(lia) ltac:(lia)). lia.
Qed.

Lemma whitespace_spec fuel : forall start e, bnd start -> bnd e -> start <= e -> (Z.to_nat (e - start) <= fuel)%nat ->
  exists b, range_has_non_whitespace fuel u start e = Ok b /\ (b = false -> forall i, bnd i -> start <= i < e -> white i = true).
Proof.
  induction fuel as [|fuel IH]; intros start e Hs He Hle Hf; cbn [range_has_non_whitespace];
    (destruct (Z.leb_spec e start) as [H|H]; [exists false; split; [done|]; intros; lia|]); [lia|].
  pose proof (boundary_range u start Hs). pose proof (boundary_range u e He). pose proof (boundary_step u start e Hs He H) as HN. pose proof (next_range u start ltac:(lia)) as HR.
  rewrite (U16_NEXT_limit u start e) by lia. pose proof (boundary_next U16_NEXT u start Hs ltac:(lia)) as Hb.
  pose proof (IH (next start) e Hb He HN ltac:(lia)) as (b&E&HW). destruct (U16_NEXT u start (zlen u)) as [j c] eqn:EU. cbn [fst] in *.
  destruct (u_isUWhiteSpace c) eqn:EW; cbn [negb]; [|by exists true]. exists b. split; [done|]. intros Hf' i Hi Hr.
  destruct (decide (i = start)) as [->|N]; [by rewrite EU|]. apply HW; [done|done|]. pose proof (boundary_step u start i Hs Hi ltac:(lia)) as HS. rewrite EU in HS. cbn in HS. lia.
Qed.

(** The next chunk starts behind this one's start and not behind its end, and repeats [overlap]
    characters unless that would go back to the start. *)
Lemma step_back_spec start e overlap : bnd e -> 0 <= start < e -> forall fuel n, bnd n -> start < n <= e -> (Z.to_nat n <= fuel)%nat ->
  exists r, step_back fuel t start e overlap n = Ok r /\ bnd r /\ start < r <= e /\
    (overlap <= co e - co r \/ ubrk_preceding UBRK_CHARACTER u r <= start).
Proof.
  intros He Hs. pose proof (boundary_range u e He) as Hre. induction fuel as [|fuel IH]; intros n Hn Hr Hf; cbn [step_back]; [lia|].
  rewrite (proj2 (Z.leb_gt _ _)) by lia. rewrite !char_at, !outcome_bind_ok, char_distance by lia. destruct (Z.leb_spec overlap (co e - co n)); [by eauto 8|]. cbv zeta.
  destruct (ubrk_preceding_range UBRK_CHARACTER u n ltac:(lia) ltac:(lia)) as [E|[HP HB]].
  { rewrite E. exists n. split_and!; try done; try lia. right. rewrite E. unfold UBRK_DONE. lia. }
  destruct (_ || _) eqn:T; [|btests; apply IH; lia || done]. apply orb_true_iff in T. exists n. split_and!; try done; try lia. right.
  destruct T as [T|T]; btests; unfold UBRK_DONE in *; lia.
Qed.

(** ** The loop over the text *)
Lemma hash_string_ok s : forall fuel i h, (exists j, i <= j < zlen s /\ at_ s j = 0 /\ (Z.to_nat (j - i) < fuel)%nat) -> 0 <= i ->
  exists h', hash_string fuel s i h = Ok h'.
Proof.
  induction fuel as [|fuel IH]; intros i h (j&Hj&E&Hf) Hi; [lia|]. cbn [hash_string]. unfold load. rewrite (proj2 (in_range_true _ _ _)) by lia.
  rewrite outcome_bind_ok. fold (at_ s i). destruct (Z.eqb_spec (at_ s i) 0) as [|N]; [eauto|]. apply IH; [|lia]. exists j.
  assert (i <> j) by congruence. split_and!; [lia|lia|done|lia].
Qed.

Lemma passage_hash_ok id ord text_ : 0 ∈ id -> exists h, passage_hash id ord text_ = Ok h.
Proof.
  intros (k&Hk)%list_elem_of_lookup. unfold passage_hash. pose proof (lookup_lt_Some _ _ _ Hk) as Hlt.
  destruct (hash_string_ok id (S (length id)) 0 FNV_OFFSET) as [h ->]; [|lia|rewrite outcome_bind_ok; eauto].
  exists (Z.of_nat k). unfold at_, zlen. rewrite Nat2Z.id, (list_lookup_total_correct _ _ _ Hk). split_and!; lia || done.
Qed.

Context (id : bytes) (Hid : 0 ∈ id) (max overlap : Z).

(** [chunk] is the part of the text between two boundaries. *)
Record chunk_of (chunk : YAP_V2_CHUNK) (w : Z * Z) : Prop := {
  co_boundaries : bnd w.1 /\ bnd w.2 /\ w.1 < w.2;
  co_chars : chunk_start_char chunk = co w.1 /\ chunk_end_char chunk = co w.2;
  co_text : chunk_text chunk = slice (utf8 t) (bo w.1) (bo w.2 - bo w.1);
  co_length : chunk_end_char chunk - chunk_start_char chunk <= max \/ w.2 <= ubrk_following UBRK_CHARACTER u w.1;
  co_id : exists h, passage_hash id (chunk_ordinal chunk) (chunk_text chunk) = Ok h /\ chunk_id chunk = [112; 45] ++ hexadecimal 16 h }.

(** The chunks of the text up to [start]: numbered, in the order of their starts, and only white
    space lies outside of them. *)
Record chunked (start : Z) (chunks : list YAP_V2_CHUNK) (ws : list (Z * Z)) : Prop := {
  ck_each : Forall2 chunk_of chunks ws;
  ck_ordinals : chunk_ordinal <$> chunks = Z.of_nat <$> seq 0 (length chunks);
  ck_order : StronglySorted (fun a b => a.1 < b.1) ws /\ Forall (fun w => w.1 < start) ws;
  ck_cover : forall i, bnd i -> i < start -> white i = false -> exists w, w ∈ ws /\ w.1 <= i < w.2 }.

Lemma make_chunk_spec ord s e : bnd s -> bnd e -> s < e -> co e - co s <= max \/ e <= ubrk_following UBRK_CHARACTER u s ->
  match make_chunk id t ord s e (co s) with
  | Ok chunk => chunk_of chunk (s, e) /\ chunk_ordinal chunk = ord
  | Err x => x = YAP_V2_ALLOCATION_FAILED /\ exists n, alloc_ok n = false
  | Fault => False
  end.
Proof.
  intros Hs He Hlt Hm. pose proof (boundary_range u s Hs). pose proof (boundary_range u e He). unfold make_chunk.
  rewrite !byte_at, !outcome_bind_ok by lia. cbv zeta. pose proof (nt_bytes t Ht s e ltac:(lia) ltac:(lia)) as HB. destruct (nt_utf8 t Ht) as [_ HU]. unfold INT32_MAX in HU.
  rewrite (u64_small (bo e - bo s)) by (unfold is_u64; lia). destruct (alloc_ok _) eqn:EA; cbn [negb]; [|by eauto].
  rewrite load_bytes_slice, outcome_bind_ok, char_at, outcome_bind_ok by lia.
  destruct (passage_hash_ok id ord (slice (utf8 t) (bo s) (bo e - bo s)) Hid) as [h Eh]. rewrite Eh, outcome_bind_ok. split; [|done].
  split; cbn [fst snd chunk_start_char chunk_end_char chunk_text chunk_ordinal chunk_id]; eauto.
Qed.

Lemma chunked_white start e chunks ws : start < e -> bnd start -> chunked start chunks ws -> (forall i, bnd i -> start <= i < e -> white i = true) -> chunked e chunks ws.
Proof.
  intros Hlt Hs [H1 H2 [H3 H4] H5] HW. split; [done|done| |].
  - split; [done|]. eapply Forall_impl; [exact H4|]. cbn. lia.
  - intros i Hi Hie Hw. destruct (Z.lt_ge_cases i start); [by apply H5|]. rewrite HW in Hw by (done || lia). done.
Qed.

Lemma chunked_add start e start' chunks ws chunk : start < start' <= e -> chunked start chunks ws -> chunk_of chunk (start, e) -> chunk_ordinal chunk = zlen chunks ->
  chunked start' (chunks ++ [chunk]) (ws ++ [(start, e)]).
Proof.
  intros Hlt [H1 H2 [H3 H4] H5] Hc Ho. split.
  - by apply Forall2_app; [|constructor].
  - rewrite fmap_app, H2, length_app, seq_app, fmap_app. cbn [length seq fmap list_fmap Nat.add]. by rewrite Ho.
  - split; [|apply Forall_app; split; [eapply Forall_impl; [exact H4|]; cbn; lia|constructor; [cbn; lia|constructor]]].
    clear -H3 H4. induction H3 as [|w ws HS IH HF]; cbn [app]; [by repeat constructor|]. apply Forall_cons in H4 as [? ?]. constructor; [by apply IH|].
    apply Forall_app. split; [done|constructor; [done|constructor]].
  - intros i Hi Hie Hw. destruct (Z.lt_ge_cases i start) as [L|G].
    + destruct (H5 i Hi L Hw) as (w&?&?). exists w. split; [|done]. apply elem_of_app. by left.
    + exists (start, e). split; [apply elem_of_app; right; by left|]. cbn. lia.
Qed.

Lemma chunk_loop_spec : forall fuel start capacity chunks ws, bnd start -> (Z.to_nat (zlen u - start) <= fuel)%nat -> chunked start chunks ws ->
  zlen chunks <= start -> zlen chunks <= capacity <= 2 * zlen chunks + 4 ->
  match chunk_loop fuel id t max overlap start capacity chunks with
  | Ok chunks => exists ws, chunked (zlen u) chunks ws
  | Err x => x = YAP_V2_ALLOCATION_FAILED /\ exists n, alloc_ok n = false
  | Fault => False
  end.
Proof.
  pose proof (nt_length t Ht) as HL. unfold INT32_MAX in HL.
  induction fuel as [|fuel IH]; intros start capacity chunks ws Hs Hf HC Hn Hcap; pose proof (boundary_range u start Hs) as Hr; pose proof (zlen_nonneg chunks); cbn [chunk_loop]; cbv zeta.
  { rewrite (proj2 (Z.leb_le _ _)) by lia. exists ws. by replace (zlen u) with start by lia. }
  destruct (Z.leb_spec (zlen u) start) as [|Hlt]; [exists ws; by replace (zlen u) with start by lia|].
  rewrite char_at, outcome_bind_ok by lia. destruct (chunk_end_spec max start Hs Hlt) as (e&->&He&Hre&Hm). rewrite outcome_bind_ok.
  destruct (whitespace_spec (S (length u)) start e Hs He ltac:(lia) ltac:(unfold zlen in *; lia)) as (b&->&HW). rewrite outcome_bind_ok.
  destruct b; cbn [negb].
  2:{ pose proof (chunked_white start e chunks ws ltac:(lia) Hs HC (HW eq_refl)) as HC'. destruct (Z.eqb_spec e (zlen u)) as [->|N]; [by exists ws|]. apply (IH e capacity chunks ws); lia || done. }
  assert (match (if zlen chunks =? capacity then let new_capacity := if capacity =? 0 then 4 else u64 (capacity * 2) in
      if SIZE_MAX <? new_capacity * sizeof_chunk then Fault else if alloc_ok (new_capacity * sizeof_chunk) then Ok new_capacity else Err YAP_V2_ALLOCATION_FAILED
    else Ok capacity) with Ok c => zlen chunks < c <= 2 * (zlen chunks + 1) + 4 | Err x => x = YAP_V2_ALLOCATION_FAILED /\ exists n, alloc_ok n = false | Fault => False end) as HG.
  { destruct (Z.eqb_spec (zlen chunks) capacity) as [E|N]; [|lia]. cbv zeta. unfold SIZE_MAX, sizeof_chunk in *.
    destruct (Z.eqb_spec capacity 0); [|rewrite u64_small by (unfold is_u64; lia)]; (rewrite (proj2 (Z.ltb_ge _ _)) by lia); destruct (alloc_ok _) eqn:EA; [lia|eauto|lia|eauto]. }
  destruct (if _ =? capacity then _ else _) as [c| |]; cbn [mbind outcome_bind]; [|done|done]. rewrite (proj2 (Z.leb_gt _ _)) by lia.
  assert (u32 (zlen chunks) = zlen chunks) as -> by (apply Z.mod_small; lia).
  pose proof (make_chunk_spec (zlen chunks) start e Hs He ltac:(lia) Hm) as HK. destruct (make_chunk _ _ _ _ _ _) as [k| |]; cbn [mbind outcome_bind]; [|done|done]. destruct HK as [HK Ho].
  destruct (Z.eqb_spec e (zlen u)) as [->|N]; [exists (ws ++ [(start, zlen u)]); apply (chunked_add start (zlen u)); lia || done|].
  unfold next_chunk_start. destruct (step_back_spec start e overlap He ltac:(lia) (S (length u)) e He ltac:(lia) ltac:(unfold zlen in *; lia)) as (r&->&Hbr&Hrr&_).
  rewrite !outcome_bind_ok, (proj2 (Z.leb_gt _ _)) by lia.
  apply (IH r c (chunks ++ [k]) (ws ++ [(start, e)])); [done|lia|by apply (chunked_add start e)|rewrite zlen_app, zlen_cons, zlen_nil; lia..].
Qed.
End chunks.

(** ** The results *)

(** C24: the tokens of any text that the tokeniser accepts are well formed: they are ranges of the
    normalised UTF-8 text and of its characters, in the order of the text and without overlap.
    The loop over the words ends, and no offset is read or written outside of its array. *)
Theorem unicode_tokenize_correct {A : Allocator} {I : Icu} (v : YAP_V2_BYTES_VIEW) : view_wf v ->
  match unicode_tokenize (data v) (len v) with
  | Ok s => exists t, normalize_text (data v) (len v) = Ok t /\ normalized t /\ normalized_utf8 s = utf8 t /\ tokens_from t 0 0 (tokens s)
  | Err _ => True
  | Fault => False
  end.
Proof. apply unicode_tokenize_spec. Qed.


(** ** A concrete instance *)

(** ASCII text, in which every byte is a word and a grapheme. *)
Definition ascii (bs : bytes) : option bytes := if forallb (fun c => (0 <=? c) && (c <? 128)) bs then if zlen bs <=? INT32_MAX then Some bs else None else None.
Definition ascii_following (k : UBreakIteratorType) (t : list Z) (i : Z) : Z :=
  if i <? zlen t then match k with UBRK_SENTENCE => zlen t | _ => i + 1 end else UBRK_DONE.
Definition ascii_next (t : list Z) (i limit : Z) : Z * Z := (i + 1, t !!! Z.to_nat i).

Lemma ascii_some t bs : ascii t = Some bs -> bs = t /\ bytes_ok t /\ zlen t <= INT32_MAX.
Proof.
  unfold ascii. destruct (forallb _ t) eqn:E; [|done]. destruct (Z.leb_spec (zlen t) INT32_MAX); [|done]. intros [= ->]. split_and!; [done| |done].
  rewrite forallb_forall in E. apply Forall_forall. intros x Hx. apply list_elem_of_In, E in Hx. btests. unfold byte_ok. lia.
Qed.

Lemma ascii_boundary t i : 0 <= i <= zlen t -> boundary ascii_next t i.
Proof.
  intros [H0 H1]. revert H1. pattern i. apply natlike_ind; [intros _; constructor| |done]. intros j Hj IH Hl.
  exact (boundary_next ascii_next t j (IH ltac:(lia)) ltac:(lia)).
Qed.

Lemma ascii_points t : forall fuel i, 0 <= i -> zlen t - i <= Z.of_nat fuel -> foldr (fun _ n => 1 + n) 0 (code_points ascii_next fuel t i) = Z.max 0 (zlen t - i).
Proof.
  induction fuel as [|fuel IH]; intros i Hi Hf; cbn [code_points]; [cbn [foldr]; lia|]. destruct (Z.leb_spec (zlen t) i); [cbn [foldr]; lia|].
  unfold ascii_next at 1. cbn [foldr]. rewrite IH; lia.
Qed.

#[refine] Instance ascii_icu : Icu := {
  u_strFromUTF8 := ascii; unorm2_getNFKCCasefoldInstance := true; unorm2_normalize := ascii; u_strToUTF8 := ascii;
  U16_NEXT := ascii_next; U8_LENGTH c := 1; u_isUWhiteSpace c := c =? 32; ubrk_open k t := true; ubrk_following := ascii_following;
  ubrk_preceding k t i := if 0 <? i then i - 1 else UBRK_DONE; ubrk_getRuleStatus t i := if t !!! Z.to_nat (i - 1) =? 32 then UBRK_WORD_NONE else 100 }.
Proof.
  - by intros s t (->&_&?)%ascii_some.
  - by intros t bs (->&?&?)%ascii_some.
  - intros t bs (->&_&_)%ascii_some. rewrite ascii_points by (unfold zlen; lia). pose_zlen. lia.
  - intros. lia.
  - intros t i limit H0 H1 H2. cbn. lia.
  - done.
  - intros k t i H0 H1. unfold ascii_following. rewrite (proj2 (Z.ltb_lt _ _)) by lia. destruct k; lia.
  - intros k t i H0 H1. apply ascii_boundary. unfold ascii_following. rewrite (proj2 (Z.ltb_lt _ _)) by lia. destruct k; lia.
  - intros k t. unfold ascii_following. by rewrite (proj2 (Z.ltb_ge _ _)) by lia.
  - intros k t i H0 H1. destruct (Z.ltb_spec 0 i); [right|by left]. split; [lia|]. apply ascii_boundary. lia.
Defined.

(** "hi  all" in chunks of three with one character of overlap. *)
Definition demo_chunk_text : bytes := [104; 105; 32; 32; 97; 108; 108].


Lemma unicode_tokenize_correct_witness :
  (match unicode_tokenize (A := alloc_total) (I := ascii_icu) (Some demo_chunk_text) 7 with Ok s => byte_start <$> tokens s | _ => [] end) = [0; 1; 4; 5; 6] /\
  exists t, tokens_from t 0 0 (match unicode_tokenize (A := alloc_total) (I := ascii_icu) (Some demo_chunk_text) 7 with Ok s => tokens s | _ => [] end).
Proof.
  split; [vm_compute; reflexivity|].
  assert (view_wf (mk_view demo_chunk_text)) as Hv by (apply mk_view_wf; [repeat constructor; done|done]).
  pose proof (unicode_tokenize_correct (A := alloc_total) (I := ascii_icu) (mk_view demo_chunk_text) Hv) as H.
  change (data (mk_view demo_chunk_text)) with (Some demo_chunk_text) in H. change (len (mk_view demo_chunk_text)) with 7 in H.
  assert (match unicode_tokenize (A := alloc_total) (I := ascii_icu) (Some demo_chunk_text) 7 with Ok _ => true | _ => false end = true) as E by (vm_compute; reflexivity).
  destruct (unicode_tokenize _ _) as [s|e|]; [|discriminate E..]. destruct H as (t&_&_&_&H). eauto.
Defined.
