(* ===== verification/LexicalWriter.v ===== *)
(** The writer of lexical indexes (src/src/components/yappo_lexical_v2.c).

    The tokens of titles, bodies and passages are collected as occurrences, sorted, and written
    as three payloads: the terms, the postings of each term with the maxima of their blocks, and
    the positions of each posting.

    A loop of the source that starts at an item, advances to the first item that differs from it
    and continues there visits the [runs] of the array.  [qsort] returns some sorted permutation.
    Two loops go on after a failed [append] and keep only the last status; they are modelled with
    the buffer and the status of every turn. *)
From Stdlib Require Import Sorted Permutation.
From S2P Require Import Prelude Words Types Crc Header SlotTable Manifest FileSystem Reader Buffer Segment Verify Lexical Tokens.
#[local] Open Scope io_scope.
#[local] Open Scope Z_scope.

(** [occ_term] is the block that the occurrence owns; [term_len] is its size. *)
Record YAP_V2_LEXICAL_OCCURRENCE := Occurrence {
  occ_term : bytes;
  occ_object_type : Z;
  occ_object_ordinal : Z;
  occ_field : Z;
  occ_position : Z;
  occ_field_length : Z }.

(** [count] is the number of items. *)
Record YAP_V2_LEXICAL_PREPARED := Prepared {
  prep_items : list YAP_V2_LEXICAL_OCCURRENCE;
  prep_capacity : Z;
  prep_field_token_count : list Z;
  prep_document_count : Z;
  prep_passage_count : Z }.

Definition YAP_V2_lexical_prepared_init : YAP_V2_LEXICAL_PREPARED := Prepared [] 0 [0; 0; 0] 0 0.
Definition sizeof_occurrence : Z := 48.

(** ** Sorting *)

Definition occurrence_compare (a b : YAP_V2_LEXICAL_OCCURRENCE) : comparison :=
  let common := Z.to_nat (Z.min (zlen (occ_term a)) (zlen (occ_term b))) in
  match memcmp (take common (occ_term a)) (take common (occ_term b)) with
  | Eq =>
      if negb (zlen (occ_term a) =? zlen (occ_term b)) then if zlen (occ_term a) <? zlen (occ_term b) then Lt else Gt
      else if negb (occ_object_type a =? occ_object_type b) then if occ_object_type a <? occ_object_type b then Lt else Gt
      else if negb (occ_object_ordinal a =? occ_object_ordinal b) then
        if occ_object_ordinal a <? occ_object_ordinal b then Lt else Gt
      else if negb (occ_field a =? occ_field b) then if occ_field a <? occ_field b then Lt else Gt
      else if negb (occ_position a =? occ_position b) then if occ_position a <? occ_position b then Lt else Gt
      else Eq
  | order => order
  end.

Definition occurrence_le (a b : YAP_V2_LEXICAL_OCCURRENCE) : Prop := occurrence_compare a b <> Gt.

(** [qsort] with [occurrence_compare]: the C library leaves the order of equal items open. *)
Class Qsort := {
  qsort : list YAP_V2_LEXICAL_OCCURRENCE -> list YAP_V2_LEXICAL_OCCURRENCE;
  qsort_permutation l : Permutation (qsort l) l;
  qsort_sorted l : StronglySorted occurrence_le (qsort l) }.

Definition same_term (a b : YAP_V2_LEXICAL_OCCURRENCE) : bool :=
  (zlen (occ_term a) =? zlen (occ_term b)) && match memcmp (occ_term a) (occ_term b) with Eq => true | _ => false end.
Definition same_object (a b : YAP_V2_LEXICAL_OCCURRENCE) : bool :=
  (occ_object_type a =? occ_object_type b) && (occ_object_ordinal a =? occ_object_ordinal b).

(** [while (end < count && same(&items[start], &items[end])) end++]: the items that are passed
    and those that are left. *)
Fixpoint advance (same : YAP_V2_LEXICAL_OCCURRENCE -> bool) (items : list YAP_V2_LEXICAL_OCCURRENCE)
  : list YAP_V2_LEXICAL_OCCURRENCE * list YAP_V2_LEXICAL_OCCURRENCE :=
  match items with
  | [] => ([], [])
  | x :: rest => if same x then let '(passed, others) := advance same rest in (x :: passed, others) else ([], items)
  end.

(** [for (start = 0; start < count;) { end = start + 1; while ...; ...; start = end; }]: every
    turn consumes an item. *)
Fixpoint runs_from (fuel : nat) (same : YAP_V2_LEXICAL_OCCURRENCE -> YAP_V2_LEXICAL_OCCURRENCE -> bool)
    (items : list YAP_V2_LEXICAL_OCCURRENCE) : list (list YAP_V2_LEXICAL_OCCURRENCE) :=
  match fuel, items with
  | S fuel, x :: rest => let '(passed, others) := advance (same x) rest in (x :: passed) :: runs_from fuel same others
  | _, _ => []
  end.
Definition runs same items := runs_from (length items) same items.

Section writer.
Context {A : Allocator} (garbage : nat -> Z).

(** ** Buffers *)
Definition append (buffer : YAP_V2_BUFFER) (data : option bytes) (len_ : Z) : result YAP_V2_BUFFER :=
  if ((0 <? len_) && bool_decide (data = None)) || (SIZE_MAX - buffer_len buffer <? len_) then Err YAP_V2_INVALID_ARGUMENT
  else
  let required := buffer_len buffer + len_ in
  if YAP_V2_MAX_SEGMENT_PAYLOAD_BYTES <? required then Err YAP_V2_SEGMENT_CAPACITY_EXCEEDED
  else
  let capacity := zlen (buffer_data buffer) in
  buffer ← (if capacity <? required then
              next ← next_buffer_capacity 32 (if capacity =? 0 then 256 else capacity) required;
              if alloc_ok next then Ok (Buffer (realloc_block garbage (buffer_data buffer) next) (buffer_len buffer))
              else Err YAP_V2_ALLOCATION_FAILED
            else Ok buffer);
  if 0 <? len_ then
    match data with
    | None => Fault
    | Some m =>
        bs ← load_bytes m 0 len_;
        block ← store_bytes (buffer_data buffer) (buffer_len buffer) bs;
        Ok (Buffer block required)
    end
  else Ok (Buffer (buffer_data buffer) required).

Definition append_u32 (value : Z) (buffer : YAP_V2_BUFFER) : result YAP_V2_BUFFER := append buffer (Some (put_u32_le value)) 4.
Definition append_u64 (value : Z) (buffer : YAP_V2_BUFFER) : result YAP_V2_BUFFER := append buffer (Some (put_u64_le value)) 8.

(** A buffer with the status of the last [append] to it; a failed one leaves it as it is. *)
Definition keep (buffer : YAP_V2_BUFFER) (r : result YAP_V2_BUFFER) : result (YAP_V2_BUFFER * option YAP_V2_STATUS) :=
  match r with
  | Ok buffer => Ok (buffer, None)
  | Err e => Ok (buffer, Some e)
  | Fault => Fault
  end.

(** [if (status == YAP_V2_OK) status = f(...)]. *)
Definition and_then (f : YAP_V2_BUFFER -> result YAP_V2_BUFFER) (s : YAP_V2_BUFFER * option YAP_V2_STATUS)
  : result (YAP_V2_BUFFER * option YAP_V2_STATUS) :=
  match s with
  | (buffer, None) => keep buffer (f buffer)
  | (buffer, Some e) => Ok (buffer, Some e)
  end.

(** The status decides whether the rest of the function runs. *)
Definition checked (s : YAP_V2_BUFFER * option YAP_V2_STATUS) : result YAP_V2_BUFFER :=
  match s with (buffer, None) => Ok buffer | (_, Some e) => Err e end.

(** ** Payloads *)

(** The loop over the occurrences of one object: what it appends to the positions. *)
Fixpoint append_positions (items : list YAP_V2_LEXICAL_OCCURRENCE) (s : YAP_V2_BUFFER * option YAP_V2_STATUS)
  : result (YAP_V2_BUFFER * option YAP_V2_STATUS) :=
  match items with
  | [] => Ok s
  | item :: items =>
      s ← keep (fst s) (append_u32 (occ_field item) (fst s));
      s ← and_then (append_u32 (occ_position item)) s;
      append_positions items s
  end.

(** The counter that an occurrence belongs to. *)
Definition field_index (item : YAP_V2_LEXICAL_OCCURRENCE) : nat :=
  if occ_field item =? YAP_V2_FIELD_TITLE then 0
  else if occ_field item =? YAP_V2_FIELD_BODY then 1 else 2.

(** The same loop: [title_tf], [body_tf] and [passage_tf], and the lengths. *)
Definition count_item (c : list Z * list Z) (item : YAP_V2_LEXICAL_OCCURRENCE) : list Z * list Z :=
  let f := field_index item in
  (<[f := u32 (c.1 !!! f + 1)]> c.1, <[f := occ_field_length item]> c.2).

Definition append_posting (object : list YAP_V2_LEXICAL_OCCURRENCE) (first : YAP_V2_LEXICAL_OCCURRENCE) (term_positions : Z)
    (postings positions : YAP_V2_BUFFER) : result (YAP_V2_BUFFER * YAP_V2_BUFFER) :=
  let '(tf, length_) := foldl count_item ([0; 0; 0], [0; 0; 0]) object in
  s ← append_positions object (positions, None);
  positions ← checked s;
  postings ← append_u32 (occ_object_type first) postings;
  postings ← append_u64 (occ_object_ordinal first) postings;
  postings ← append_u32 (tf !!! 0%nat) postings;
  postings ← append_u32 (tf !!! 1%nat) postings;
  postings ← append_u32 (tf !!! 2%nat) postings;
  postings ← append_u32 (length_ !!! 0%nat) postings;
  postings ← append_u32 (length_ !!! 1%nat) postings;
  postings ← append_u32 (length_ !!! 2%nat) postings;
  postings ← append_u64 term_positions postings;
  postings ← append_u32 (u32 (zlen object)) postings;
  Ok (postings, positions).

(** The loop over the objects of one term. *)
Fixpoint append_postings (objects : list (list YAP_V2_LEXICAL_OCCURRENCE)) (term_positions : Z)
    (postings positions : YAP_V2_BUFFER) : result (YAP_V2_BUFFER * YAP_V2_BUFFER) :=
  match objects with
  | [] => Ok (postings, positions)
  | object :: objects =>
      first ← elem_at object 0;
      '(postings, positions) ← append_posting object first term_positions postings positions;
      append_postings objects (u64 (term_positions + zlen object)) postings positions
  end.

(** The inner loop over the objects of a block: the maxima and the objects that are left. *)
Definition min_occurrence_length (object : list YAP_V2_LEXICAL_OCCURRENCE) : Z :=
  foldl (fun length_ item => if occ_field_length item <? length_ then occ_field_length item else length_) UINT32_MAX object.

Fixpoint scan_block (n : nat) (objects : list (list YAP_V2_LEXICAL_OCCURRENCE)) (max_tf min_length block_objects : Z)
  : Z * Z * Z * list (list YAP_V2_LEXICAL_OCCURRENCE) :=
  match n, objects with
  | S n, object :: rest =>
      let tf := u32 (zlen object) in
      let length_ := min_occurrence_length object in
      scan_block n rest (if max_tf <? tf then tf else max_tf) (if length_ <? min_length then length_ else min_length)
        (block_objects + 1)
  | _, _ => (max_tf, min_length, block_objects, objects)
  end.

(** The loop over the blocks of one term; every turn consumes an object. *)
Fixpoint append_blocks (fuel : nat) (objects : list (list YAP_V2_LEXICAL_OCCURRENCE)) (posting_index : Z)
    (s : YAP_V2_BUFFER * option YAP_V2_STATUS) : result (YAP_V2_BUFFER * option YAP_V2_STATUS) :=
  match fuel, objects with
  | _, [] => Ok s
  | O, _ => Fault
  | S fuel, _ =>
      let '(max_tf, min_length, block_objects, rest) :=
        scan_block (Z.to_nat YAP_V2_POSTINGS_BLOCK_SIZE) objects 0 UINT32_MAX 0 in
      s ← keep (fst s) (append_u32 (u32 posting_index) (fst s));
      s ← and_then (append_u32 (u32 block_objects)) s;
      s ← and_then (append_u32 max_tf) s;
      s ← and_then (append_u32 (if min_length =? UINT32_MAX then 0 else min_length)) s;
      append_blocks fuel rest (posting_index + block_objects) s
  end.

Record payloads := Payloads { pay_terms : YAP_V2_BUFFER; pay_postings : YAP_V2_BUFFER; pay_positions : YAP_V2_BUFFER }.

(** One turn of the loop over the terms. *)
Definition append_term (items : list YAP_V2_LEXICAL_OCCURRENCE) (term_ordinal : Z) (p : payloads) : result payloads :=
  first ← elem_at items 0;
  let objects := runs same_object items in
  let document_frequency_ := zlen objects in
  let posting_offset := buffer_len (pay_postings p) in
  let position_offset_ := buffer_len (pay_positions p) in
  postings ← append_u64 term_ordinal (pay_postings p);
  postings ← append_u64 document_frequency_ postings;
  postings ← append_u32 (u32 (u64 (document_frequency_ + YAP_V2_POSTINGS_BLOCK_SIZE - 1) / YAP_V2_POSTINGS_BLOCK_SIZE)) postings;
  positions ← append_u64 term_ordinal (pay_positions p);
  positions ← append_u64 (zlen items) positions;
  '(postings, positions) ← append_postings objects 0 postings positions;
  s ← append_blocks (length objects) objects 0 (postings, None);
  postings ← checked s;
  terms ← append_u32 (u32 (zlen (occ_term first))) (pay_terms p);
  terms ← append terms (Some (occ_term first)) (zlen (occ_term first));
  terms ← append_u64 document_frequency_ terms;
  terms ← append_u64 posting_offset terms;
  terms ← append_u64 (u64 (buffer_len postings - posting_offset)) terms;
  terms ← append_u64 position_offset_ terms;
  terms ← append_u64 (u64 (buffer_len positions - position_offset_)) terms;
  Ok (Payloads terms postings positions).

(** The loop over the terms, with the number of terms and of postings. *)
Fixpoint append_terms (term_items : list (list YAP_V2_LEXICAL_OCCURRENCE)) (term_ordinal posting_total : Z) (p : payloads)
  : result (payloads * Z * Z) :=
  match term_items with
  | [] => Ok (p, term_ordinal, posting_total)
  | items :: term_items =>
      p ← append_term items term_ordinal p;
      append_terms term_items (term_ordinal + 1) (posting_total + zlen (runs same_object items)) p
  end.

Definition patch_u64 (buffer : YAP_V2_BUFFER) (at_ value : Z) : result YAP_V2_BUFFER :=
  block ← store_bytes (buffer_data buffer) at_ (put_u64_le value);
  Ok (Buffer block (buffer_len buffer)).

Definition append_headers (document_count passage_count : Z) (field_totals : list Z) (p : payloads) : result payloads :=
  terms ← append_u32 YAP_V2_LEXICAL_PAYLOAD_VERSION (pay_terms p);
  terms ← append_u64 0 terms;
  postings ← append_u32 YAP_V2_LEXICAL_PAYLOAD_VERSION (pay_postings p);
  postings ← append_u32 YAP_V2_POSTINGS_BLOCK_SIZE postings;
  postings ← append_u64 document_count postings;
  postings ← append_u64 passage_count postings;
  postings ← append_u64 0 postings;
  postings ← append_u64 (field_totals !!! 0%nat) postings;
  postings ← append_u64 (field_totals !!! 1%nat) postings;
  postings ← append_u64 (field_totals !!! 2%nat) postings;
  positions ← append_u32 YAP_V2_LEXICAL_PAYLOAD_VERSION (pay_positions p);
  positions ← append_u64 0 positions;
  Ok (Payloads terms postings positions).

(** The payloads and the numbers of terms and of postings. *)
Definition build_payloads {Q : Qsort} (occurrences : list YAP_V2_LEXICAL_OCCURRENCE) (document_count passage_count : Z)
    (field_totals : list Z) (p : payloads) : result (payloads * Z * Z) :=
  let items := if 1 <? zlen occurrences then qsort occurrences else occurrences in
  p ← append_headers document_count passage_count field_totals p;
  '(p, term_count, posting_count_) ← append_terms (runs same_term items) 0 0 p;
  terms ← patch_u64 (pay_terms p) 4 term_count;
  postings ← patch_u64 (pay_postings p) 24 posting_count_;
  positions ← patch_u64 (pay_positions p) 4 (zlen items);
  Ok (Payloads terms postings positions, term_count, posting_count_).

(** ** Collecting occurrences *)

(** Writing behind the capacity of the array is a [Fault]. *)
Definition occurrence_add (occurrences : YAP_V2_LEXICAL_PREPARED) (term_ : bytes) (start term_len object_type_ object_ordinal_ field_
    position_ field_length_ : Z) : result YAP_V2_LEXICAL_PREPARED :=
  if (term_len =? 0) || (UINT32_MAX <? term_len) then Err YAP_V2_INVALID_FORMAT
  else
  occurrences ←
    (if zlen (prep_items occurrences) =? prep_capacity occurrences then
       let capacity := if prep_capacity occurrences =? 0 then 256 else u64 (prep_capacity occurrences * 2) in
       if (capacity <? prep_capacity occurrences) || (SIZE_MAX / sizeof_occurrence <? capacity) then Err YAP_V2_OUT_OF_RANGE
       else if negb (alloc_ok (capacity * sizeof_occurrence)) then Err YAP_V2_ALLOCATION_FAILED
       else Ok (Prepared (prep_items occurrences) capacity (prep_field_token_count occurrences)
                  (prep_document_count occurrences) (prep_passage_count occurrences))
     else Ok occurrences);
  if prep_capacity occurrences <=? zlen (prep_items occurrences) then Fault
  else if negb (alloc_ok term_len) then Err YAP_V2_ALLOCATION_FAILED
  else
  copy ← load_bytes term_ start term_len;
  Ok (Prepared (prep_items occurrences ++ [Occurrence copy object_type_ object_ordinal_ field_ position_ field_length_])
        (prep_capacity occurrences) (prep_field_token_count occurrences) (prep_document_count occurrences)
        (prep_passage_count occurrences)).

(** The loop over the tokens, from index [i] on. *)
Fixpoint add_tokens (normalized : bytes) (ts : list YAP_V2_TOKEN) (i token_count object_type_ object_ordinal_ field_ : Z)
    (occurrences : YAP_V2_LEXICAL_PREPARED) : result YAP_V2_LEXICAL_PREPARED :=
  match ts with
  | [] => Ok occurrences
  | token :: ts =>
      occurrences ← occurrence_add occurrences normalized (byte_start token) (u64 (byte_end token - byte_start token)) object_type_
        object_ordinal_ field_ (u32 i) (u32 token_count);
      add_tokens normalized ts (i + 1) token_count object_type_ object_ordinal_ field_ occurrences
  end.

(** The occurrences and the total of the field. *)
Definition tokenize_field {T : Tokenizer} (text_ : YAP_V2_BYTES_VIEW) (object_type_ object_ordinal_ field_ : Z)
    (s : YAP_V2_LEXICAL_PREPARED * Z) : result (YAP_V2_LEXICAL_PREPARED * Z) :=
  let '(occurrences, field_total) := s in
  if len text_ =? 0 then Ok (occurrences, field_total)
  else
  sequence ← YAP_V2_unicode_tokenize (data text_) (len text_);
  let token_count := zlen (tokens sequence) in
  if UINT32_MAX <? token_count then Err YAP_V2_OUT_OF_RANGE
  else if 2 ^ 64 - 1 - field_total <? token_count then Err YAP_V2_OUT_OF_RANGE
  else
  occurrences ← add_tokens (normalized_utf8 sequence) (tokens sequence) 0 token_count object_type_ object_ordinal_ field_ occurrences;
  Ok (occurrences, field_total + token_count).

(** Tokenises into one of the three totals of [totals]. *)
Definition tokenize_into {T : Tokenizer} (f : nat) (text_ : YAP_V2_BYTES_VIEW) (object_type_ object_ordinal_ field_ : Z)
    (s : YAP_V2_LEXICAL_PREPARED * list Z) : result (YAP_V2_LEXICAL_PREPARED * list Z) :=
  let '(occurrences, totals) := s in
  '(occurrences, total) ← tokenize_field text_ object_type_ object_ordinal_ field_ (occurrences, totals !!! f);
  Ok (occurrences, <[f := total]> totals).

(** The loops over the documents and over the passages, from index [i] on. *)
Definition tokenize_document {T : Tokenizer} (d : YAP_V2_DOCUMENT_VIEW) (i : Z) (s : YAP_V2_LEXICAL_PREPARED * list Z)
  : result (YAP_V2_LEXICAL_PREPARED * list Z) :=
  _ ← YAP_V2_document_validate (Some d);
  s ← tokenize_into 0 (title d) YAP_V2_LEXICAL_DOCUMENT i YAP_V2_FIELD_TITLE s;
  tokenize_into 1 (body d) YAP_V2_LEXICAL_DOCUMENT i YAP_V2_FIELD_BODY s.

Fixpoint tokenize_documents {T : Tokenizer} (documents : list YAP_V2_DOCUMENT_VIEW) (i : Z) (s : YAP_V2_LEXICAL_PREPARED * list Z)
  : result (YAP_V2_LEXICAL_PREPARED * list Z) :=
  match documents with
  | [] => Ok s
  | d :: documents => s ← tokenize_document d i s; tokenize_documents documents (i + 1) s
  end.

Fixpoint tokenize_passages {T : Tokenizer} (passages : list YAP_V2_PASSAGE_VIEW) (i : Z) (s : YAP_V2_LEXICAL_PREPARED * list Z)
  : result (YAP_V2_LEXICAL_PREPARED * list Z) :=
  match passages with
  | [] => Ok s
  | p :: passages =>
      _ ← YAP_V2_passage_validate (Some p);
      s ← tokenize_into 2 (text p) YAP_V2_LEXICAL_PASSAGE i YAP_V2_FIELD_PASSAGE s;
      tokenize_passages passages (i + 1) s
  end.

(** A tokenised unit, kept until its segment is written.  The totals are counted in the structure
    itself. *)
Definition YAP_V2_lexical_prepare_unit {T : Tokenizer} (document : option YAP_V2_DOCUMENT_VIEW) (passages : list YAP_V2_PASSAGE_VIEW)
  : result YAP_V2_LEXICAL_PREPARED :=
  match document with
  | None => Err YAP_V2_INVALID_ARGUMENT
  | Some d =>
      s ← tokenize_document d 0 (YAP_V2_lexical_prepared_init, [0; 0; 0]);
      '(prepared, totals) ← tokenize_passages passages 0 s;
      Ok (Prepared (prep_items prepared) (prep_capacity prepared) totals 1 (zlen passages))
  end.

(** ** Files *)

Definition component_header (file_type_ generation_ : Z) (payload : YAP_V2_BUFFER) : result bytes :=
  bs ← load_bytes (buffer_data payload) 0 (buffer_len payload);
  YAP_V2_file_header_encode
    (Some (FileHeader YAP_V2_FORMAT_VERSION YAP_V2_FILE_HEADER_BYTES file_type_ generation_ (buffer_len payload) (crc32c bs)))
    (Some (garbage <$> seq 0 32)).

(** The calls between [fopen] and the end of [fclose]. *)
Definition write_component_tmp (i : nat) (header payload : bytes) : io bool :=
  let* written := (let* ok := fwrite i header in
                   if negb ok then io_ret false
                   else let* ok := (if 0 <? zlen payload then fwrite i payload else io_ret true) in
                        if negb ok then io_ret false
                        else let* ok := fflush i in
                             if negb ok then io_ret false else fsync i) in
  let* closed := fclose i in
  io_ret (written && closed).

(** [rename] and the synchronisation of the directory, which copies the path first. *)
Definition install_component (p : path) : io bool :=
  let* renamed := rename (tmp_path p) p in
  if negb renamed then io_ret false
  else if negb (alloc_ok (zlen p + 1)) then io_ret false else fsync_parent p.

Definition write_component (p : path) (name_ : bytes) (file_type_ generation_ : Z) (payload : YAP_V2_BUFFER) (records : Z)
  : io (result YAP_V2_COMPONENT_DESCRIPTOR) :=
  match component_header file_type_ generation_ payload with
  | Err e => io_ret (Err e)
  | Fault => io_ret Fault
  | Ok header =>
      if SIZE_MAX - 5 <? zlen p then io_ret (Err YAP_V2_OUT_OF_RANGE)
      else if negb (alloc_ok (zlen p + 5)) then io_ret (Err YAP_V2_ALLOCATION_FAILED)
      else
      let* file := fopen_wb (tmp_path p) in
      match file with
      | None => io_ret (Err YAP_V2_IO_ERROR)
      | Some i =>
          let* written := write_component_tmp i header (take (Z.to_nat (buffer_len payload)) (buffer_data payload)) in
          let* installed := (if negb written then io_ret false else install_component p) in
          if negb installed then do* unlink (tmp_path p) in io_ret (Err YAP_V2_IO_ERROR)
          else
          let* digest := YAP_V2_file_sha256 garbage (Some p) in
          io_ret ('(checksum, bytes_) ← digest;
                  Ok (ComponentDescriptor name_ file_type_ records bytes_ checksum))
      end
  end.

(** One turn of the loop over the three files. *)
Definition write_file (segment_dir name_ : bytes) (file_type_ generation_ : Z) (payload : YAP_V2_BUFFER) (records : Z)
  : io (result YAP_V2_COMPONENT_DESCRIPTOR) :=
  if negb (alloc_ok (zlen segment_dir + zlen name_ + 2)) then io_ret (Err YAP_V2_ALLOCATION_FAILED)
  else write_component (segment_dir ++ [SLASH] ++ name_) name_ file_type_ generation_ payload records.

Definition write_payloads (segment_dir : bytes) (generation_ : Z) (p : payloads) (term_count posting_count_ position_count_ : Z)
  : io (result (list YAP_V2_COMPONENT_DESCRIPTOR)) :=
  let* terms := write_file segment_dir TERMS_NAME YAP_V2_FILE_TERMS generation_ (pay_terms p) term_count in
  match terms with
  | Err e => io_ret (Err e)
  | Fault => io_ret Fault
  | Ok terms =>
      let* postings := write_file segment_dir POSTINGS_NAME YAP_V2_FILE_POSTINGS generation_ (pay_postings p) posting_count_ in
      match postings with
      | Err e => io_ret (Err e)
      | Fault => io_ret Fault
      | Ok postings =>
          let* positions := write_file segment_dir POSITIONS_NAME YAP_V2_FILE_POSITIONS generation_ (pay_positions p) position_count_ in
          io_ret (positions ← positions; Ok [terms; postings; positions])
      end
  end.

Definition payloads_zero : payloads := Payloads buffer_zero buffer_zero buffer_zero.

Definition write_occurrences {Q : Qsort} (segment_dir : bytes) (generation_ : Z) (occurrences : list YAP_V2_LEXICAL_OCCURRENCE)
    (document_count passage_count : Z) (field_totals : list Z) : io (result (list YAP_V2_COMPONENT_DESCRIPTOR)) :=
  match build_payloads occurrences document_count passage_count field_totals payloads_zero with
  | Err e => io_ret (Err e)
  | Fault => io_ret Fault
  | Ok (p, term_count, posting_count_) => write_payloads segment_dir generation_ p term_count posting_count_ (zlen occurrences)
  end.

(** The loop that sums the counts of the units. *)
Fixpoint combined_count (prepared : list (option YAP_V2_LEXICAL_PREPARED)) (count : Z) : result Z :=
  match prepared with
  | [] => Ok count
  | None :: _ => Err YAP_V2_INVALID_ARGUMENT
  | Some p :: prepared =>
      if SIZE_MAX - count <? zlen (prep_items p) then Err YAP_V2_INVALID_ARGUMENT
      else combined_count prepared (count + zlen (prep_items p))
  end.

(** The loop over the three totals. *)
Fixpoint add_totals (counts totals : list Z) : result (list Z) :=
  match counts, totals with
  | c :: counts, t :: totals =>
      if 2 ^ 64 - 1 - t <? c then Err YAP_V2_OUT_OF_RANGE
      else rest ← add_totals counts totals; Ok (t + c :: rest)
  | _, _ => Ok totals
  end.

(** An occurrence of a unit, in the numbering of the segment. *)
Definition rebase (document_base passage_base : Z) (o : YAP_V2_LEXICAL_OCCURRENCE) : YAP_V2_LEXICAL_OCCURRENCE :=
  Occurrence (occ_term o) (occ_object_type o)
    (u64 (occ_object_ordinal o + (if occ_object_type o =? YAP_V2_LEXICAL_DOCUMENT then document_base else passage_base)))
    (occ_field o) (occ_position o) (occ_field_length o).

(** The loop over the units: the occurrences, the totals and the numbers of documents and of
    passages. *)
Fixpoint combine (prepared : list YAP_V2_LEXICAL_PREPARED) (items : list YAP_V2_LEXICAL_OCCURRENCE) (field_totals : list Z)
    (document_base passage_base : Z) : result (list YAP_V2_LEXICAL_OCCURRENCE * list Z * Z * Z) :=
  match prepared with
  | [] => Ok (items, field_totals, document_base, passage_base)
  | p :: prepared =>
      field_totals ← add_totals (prep_field_token_count p) field_totals;
      combine prepared (items ++ (rebase document_base passage_base <$> prep_items p)) field_totals
        (u64 (document_base + prep_document_count p)) (u64 (passage_base + prep_passage_count p))
  end.

Definition YAP_V2_lexical_write_prepared {Q : Qsort} (segment_dir : option bytes) (generation_ : Z)
    (prepared : list (option YAP_V2_LEXICAL_PREPARED)) : io (result (list YAP_V2_COMPONENT_DESCRIPTOR)) :=
  match segment_dir with
  | None => io_ret (Err YAP_V2_INVALID_ARGUMENT)
  | Some dir =>
      if (generation_ =? 0) || (zlen prepared =? 0) then io_ret (Err YAP_V2_INVALID_ARGUMENT)
      else
      match (count ← combined_count prepared 0;
             if SIZE_MAX / sizeof_occurrence <? count then Err YAP_V2_OUT_OF_RANGE
             else if (0 <? count) && negb (alloc_ok (count * sizeof_occurrence)) then Err YAP_V2_ALLOCATION_FAILED
             else combine (omap (fun p => p) prepared) [] [0; 0; 0] 0 0) with
      | Err e => io_ret (Err e)
      | Fault => io_ret Fault
      | Ok (items, field_totals, documents, passages) =>
          write_occurrences dir generation_ items documents passages field_totals
      end
  end.

Definition YAP_V2_lexical_write {Q : Qsort} {T : Tokenizer} (segment_dir : option bytes) (generation_ : Z)
    (documents : list YAP_V2_DOCUMENT_VIEW) (passages : list YAP_V2_PASSAGE_VIEW) : io (result (list YAP_V2_COMPONENT_DESCRIPTOR)) :=
  match segment_dir with
  | None => io_ret (Err YAP_V2_INVALID_ARGUMENT)
  | Some dir =>
      if (generation_ =? 0) || (YAP_V2_MAX_SEGMENT_DOCUMENTS <? zlen documents) || (YAP_V2_MAX_SEGMENT_PASSAGES <? zlen passages)
      then io_ret (Err YAP_V2_INVALID_ARGUMENT)
      else
      match (s ← tokenize_documents documents 0 (YAP_V2_lexical_prepared_init, [0; 0; 0]);
             tokenize_passages passages 0 s) with
      | Err e => io_ret (Err e)
      | Fault => io_ret Fault
      | Ok (occurrences, field_totals) =>
          write_occurrences dir generation_ (prep_items occurrences) (zlen documents) (zlen passages) field_totals
      end
  end.
End writer.

(** ** The payloads as byte strings *)
Definition position_image (o : YAP_V2_LEXICAL_OCCURRENCE) : bytes := put_u32_le (occ_field o) ++ put_u32_le (occ_position o).

Definition posting_image (p : YAP_V2_POSTING) : bytes :=
  put_u32_le (object_type p) ++ put_u64_le (object_ordinal p) ++
  put_u32_le (term_frequency p !!! 0%nat) ++ put_u32_le (term_frequency p !!! 1%nat) ++ put_u32_le (term_frequency p !!! 2%nat) ++
  put_u32_le (field_length p !!! 0%nat) ++ put_u32_le (field_length p !!! 1%nat) ++ put_u32_le (field_length p !!! 2%nat) ++
  put_u64_le (position_offset p) ++ put_u32_le (position_count p).

Definition block_image (b : YAP_V2_POSTINGS_BLOCK) : bytes :=
  put_u32_le (first_posting b) ++ put_u32_le (posting_count b) ++ put_u32_le (max_term_frequency b) ++ put_u32_le (min_field_length b).

Definition no_occurrence : YAP_V2_LEXICAL_OCCURRENCE := Occurrence [] 0 0 0 0 0.
Definition first_of (items : list YAP_V2_LEXICAL_OCCURRENCE) : YAP_V2_LEXICAL_OCCURRENCE := default no_occurrence (head items).

(** The posting of an object, whose positions start at [offset]. *)
Definition object_posting (offset : Z) (object : list YAP_V2_LEXICAL_OCCURRENCE) : YAP_V2_POSTING :=
  let c := foldl count_item ([0; 0; 0], [0; 0; 0]) object in
  Posting (occ_object_type (first_of object)) (occ_object_ordinal (first_of object)) c.1 c.2 offset (zlen object).

Fixpoint object_postings (offset : Z) (objects : list (list YAP_V2_LEXICAL_OCCURRENCE)) : list YAP_V2_POSTING :=
  match objects with
  | [] => []
  | object :: objects => object_posting offset object :: object_postings (offset + zlen object) objects
  end.

(** Consecutive groups of 128 objects. *)
Fixpoint chunks (fuel : nat) (objects : list (list YAP_V2_LEXICAL_OCCURRENCE)) : list (list (list YAP_V2_LEXICAL_OCCURRENCE)) :=
  match fuel, objects with
  | S fuel, _ :: _ => take 128 objects :: chunks fuel (drop 128 objects)
  | _, _ => []
  end.

Definition chunk_block (index : Z) (chunk : list (list YAP_V2_LEXICAL_OCCURRENCE)) : YAP_V2_POSTINGS_BLOCK :=
  let min_length := foldl (fun m o => Z.min m (min_occurrence_length o)) UINT32_MAX chunk in
  PostingsBlock index (zlen chunk) (foldl (fun m o => Z.max m (zlen o)) 0 chunk) (if min_length =? UINT32_MAX then 0 else min_length).

Fixpoint chunk_blocks (index : Z) (cs : list (list (list YAP_V2_LEXICAL_OCCURRENCE))) : list YAP_V2_POSTINGS_BLOCK :=
  match cs with
  | [] => []
  | c :: cs => chunk_block index c :: chunk_blocks (index + zlen c) cs
  end.

Definition term_blocks (objects : list (list YAP_V2_LEXICAL_OCCURRENCE)) : list YAP_V2_POSTINGS_BLOCK :=
  chunk_blocks 0 (chunks (length objects) objects).

Definition term_postings_image (index : Z) (items : list YAP_V2_LEXICAL_OCCURRENCE) : bytes :=
  let objects := runs same_object items in
  put_u64_le index ++ put_u64_le (zlen objects) ++ put_u32_le ((zlen objects + 127) / 128) ++
  concat (posting_image <$> object_postings 0 objects) ++ concat (block_image <$> term_blocks objects).

Definition term_positions_image (index : Z) (items : list YAP_V2_LEXICAL_OCCURRENCE) : bytes :=
  put_u64_le index ++ put_u64_le (zlen items) ++ concat (position_image <$> items).

(** The entry of a term whose records start at [po] and [so] of the payloads. *)
Definition group_entry (index po so : Z) (items : list YAP_V2_LEXICAL_OCCURRENCE) : YAP_V2_TERM_ENTRY :=
  TermEntry (mk_view (occ_term (first_of items))) (zlen (runs same_object items)) po (zlen (term_postings_image index items))
    so (zlen (term_positions_image index items)).

Definition entry_image (t : YAP_V2_TERM_ENTRY) : bytes :=
  put_u32_le (len (term t)) ++ view_bytes (term t) ++ put_u64_le (document_frequency t) ++ put_u64_le (postings_offset t) ++
  put_u64_le (postings_bytes t) ++ put_u64_le (positions_offset t) ++ put_u64_le (positions_bytes t).

Fixpoint group_entries (index po so : Z) (groups : list (list YAP_V2_LEXICAL_OCCURRENCE)) : list YAP_V2_TERM_ENTRY :=
  match groups with
  | [] => []
  | g :: groups =>
      group_entry index po so g ::
      group_entries (index + 1) (po + zlen (term_postings_image index g)) (so + zlen (term_positions_image index g)) groups
  end.

Fixpoint images_from (image : Z -> list YAP_V2_LEXICAL_OCCURRENCE -> bytes) (index : Z) (groups : list (list YAP_V2_LEXICAL_OCCURRENCE)) : bytes :=
  match groups with
  | [] => []
  | g :: groups => image index g ++ images_from image (index + 1) groups
  end.

Definition posting_total (groups : list (list YAP_V2_LEXICAL_OCCURRENCE)) : Z :=
  foldr (fun g n => zlen (runs same_object g) + n) 0 groups.

Definition terms_image (groups : list (list YAP_V2_LEXICAL_OCCURRENCE)) : bytes :=
  put_u32_le YAP_V2_LEXICAL_PAYLOAD_VERSION ++ put_u64_le (zlen groups) ++ concat (entry_image <$> group_entries 0 56 12 groups).

Definition postings_image (documents passages : Z) (totals : list Z) (groups : list (list YAP_V2_LEXICAL_OCCURRENCE)) : bytes :=
  put_u32_le YAP_V2_LEXICAL_PAYLOAD_VERSION ++ put_u32_le YAP_V2_POSTINGS_BLOCK_SIZE ++ put_u64_le documents ++ put_u64_le passages ++
  put_u64_le (posting_total groups) ++ put_u64_le (totals !!! 0%nat) ++ put_u64_le (totals !!! 1%nat) ++ put_u64_le (totals !!! 2%nat) ++
  images_from term_postings_image 0 groups.

Definition positions_image (groups : list (list YAP_V2_LEXICAL_OCCURRENCE)) : bytes :=
  put_u32_le YAP_V2_LEXICAL_PAYLOAD_VERSION ++ put_u64_le (zlen (concat groups)) ++ images_from term_positions_image 0 groups.

(** ** Runs *)
Lemma advance_app same items : let '(passed, others) := advance same items in items = passed ++ others /\ Forall same passed.
Proof.
  induction items as [|x items IH]; [done|]. cbn [advance]. destruct (same x) eqn:E; [|done].
  destruct (advance same items) as [passed others]. destruct IH as [-> HF]. split; [done|]. constructor; [by rewrite E|done].
Qed.

Lemma runs_from_concat fuel same : forall items, (length items <= fuel)%nat -> concat (runs_from fuel same items) = items.
Proof.
  induction fuel as [|fuel IH]; intros [|x items] Hf; cbn [length] in Hf; try done; [lia|]. cbn [runs_from].
  pose proof (advance_app (same x) items) as HA. destruct (advance (same x) items) as [passed others]. destruct HA as [-> _].
  rewrite length_app in Hf. cbn [concat app]. by rewrite IH by lia.
Qed.
Lemma runs_concat same items : concat (runs same items) = items.
Proof. by apply runs_from_concat. Qed.

Lemma runs_from_nonempty fuel same : forall items, Forall (fun r => r <> []) (runs_from fuel same items).
Proof.
  induction fuel as [|fuel IH]; intros [|x items]; try constructor; cbn [runs_from]. destruct (advance (same x) items). by constructor.
Qed.
Lemma runs_nonempty same items : Forall (fun r => r <> []) (runs same items).
Proof. apply runs_from_nonempty. Qed.

Lemma zlen_concat_nonempty {X} (ls : list (list X)) : Forall (fun l => l <> []) ls -> zlen ls <= zlen (concat ls).
Proof.
  induction 1 as [|l ls Hl _ IH]; [done|]. cbn [concat]. rewrite zlen_cons, zlen_app. destruct l; [done|]. rewrite zlen_cons. pose proof (zlen_nonneg l). lia.
Qed.

(** ** What the writer appends *)
Section build.
Context {A : Allocator} (garbage : nat -> Z).

Lemma payload_append_eq b m n : buffer_ok b -> 0 <= n <= 2 ^ 63 -> append garbage b (Some m) n = buffer_append garbage b (Some m) n.
Proof.
  intros Hb Hn. pose proof Hb as (Hl&Hm&_). unfold append, buffer_append, buffer_reserve, SIZE_MAX.
  unfold YAP_V2_MAX_SEGMENT_PAYLOAD_BYTES in *. rewrite u64_small by lia.
  rewrite bool_decide_false, andb_false_r by done. rewrite (proj2 (Z.ltb_ge _ n)) by lia. cbn [orb]. cbv zeta.
  destruct (Z.ltb_spec (256 * 1024 * 1024) (buffer_len b + n)), (Z.ltb_spec (256 * 1024 * 1024 - buffer_len b) n); [done|lia..|].
  destruct (Z.leb_spec (buffer_len b + n) (zlen (buffer_data b))), (Z.ltb_spec (zlen (buffer_data b)) (buffer_len b + n)); try lia.
  all: rewrite ?outcome_bind_ok.
  - destruct (Z.ltb_spec 0 n); [done|]. replace n with 0 by lia. rewrite Z.add_0_r. by destruct b.
  - destruct (next_buffer_capacity _ _ _) as [c| |]; [|done..]. rewrite !outcome_bind_ok. destruct (alloc_ok c); [|done].
    rewrite !outcome_bind_ok. cbn [buffer_data buffer_len]. destruct (Z.ltb_spec 0 n); [done|].
    replace n with 0 by lia. by rewrite Z.add_0_r.
Qed.

Lemma append_block_appends bs : zlen bs <= 2 ^ 63 -> appends (fun b => append garbage b (Some bs) (zlen bs)) bs.
Proof.
  intros H b Hb. pose proof (zlen_nonneg bs). rewrite payload_append_eq by (done || lia).
  apply (append_whole garbage bs); [unfold SIZE_MAX; lia|done].
Qed.
Lemma payload_word32 v : appends (append_u32 garbage v) (put_u32_le v).
Proof. by apply (append_block_appends (put_u32_le v)). Qed.
Lemma payload_word64 v : appends (append_u64 garbage v) (put_u64_le v).
Proof. by apply (append_block_appends (put_u64_le v)). Qed.

(** Whether appending a word fails depends on the buffer only: a loop that goes on after a
    failure fails with the same status in every further turn. *)
Lemma append_u32_fails v v' b e : append_u32 garbage v b = Err e -> append_u32 garbage v' b = Err e.
Proof.
  unfold append_u32, append. rewrite !bool_decide_false, !andb_false_r by done. cbn [orb]. cbv zeta.
  destruct (_ <? 4); [done|]. destruct (_ <? _); [done|]. intros E.
  assert (forall b', (bs ← load_bytes (put_u32_le v) 0 4; block ← store_bytes (buffer_data b') (buffer_len b') bs;
    Ok (Buffer block (buffer_len b + 4))) <> (Err e : result YAP_V2_BUFFER)) as Hne.
  { intros b'. change (load_bytes _ 0 4) with (Ok (put_u32_le v) : result bytes). rewrite outcome_bind_ok. unfold store_bytes. by destruct (in_range _ _ _). }
  destruct (if _ <? _ then _ else _) as [b'|e'|] eqn:Eb; [|by injection E as ->|done].
  exfalso. rewrite outcome_bind_ok in E. by apply (Hne b').
Qed.

(** Words one after the other, up to the first failure. *)
Fixpoint append_words (ws : list Z) (b : YAP_V2_BUFFER) : result YAP_V2_BUFFER :=
  match ws with [] => Ok b | w :: ws => b ← append_u32 garbage w b; append_words ws b end.

Lemma append_words_appends ws : appends (append_words ws) (concat (put_u32_le <$> ws)).
Proof.
  induction ws as [|w ws IH]; [apply appends_nil|]. exact (appends_seq _ _ _ _ (payload_word32 w) IH).
Qed.

Lemma append_words_app ws vs b : append_words (ws ++ vs) b = (b ← append_words ws b; append_words vs b).
Proof.
  revert b. induction ws as [|w ws IH]; intros b; [done|]. cbn [append_words app].
  destruct (append_u32 garbage w b) as [b'| |]; [|done..]. cbn [mbind outcome_bind]. apply IH.
Qed.

(** One turn of a loop that keeps its status. *)
Fixpoint and_words (ws : list Z) (s : YAP_V2_BUFFER * option YAP_V2_STATUS) : result (YAP_V2_BUFFER * option YAP_V2_STATUS) :=
  match ws with [] => Ok s | w :: ws => s ← and_then (append_u32 garbage w) s; and_words ws s end.
Definition turn (w : Z) (ws : list Z) (b : YAP_V2_BUFFER) : result (YAP_V2_BUFFER * option YAP_V2_STATUS) :=
  s ← keep b (append_u32 garbage w b); and_words ws s.

Definition stuck (b : YAP_V2_BUFFER) (e : YAP_V2_STATUS) : Prop := forall w, append_u32 garbage w b = Err e.

Lemma and_words_err ws b e : and_words ws (b, Some e) = Ok (b, Some e).
Proof. induction ws as [|w ws IH]; [done|]. exact IH. Qed.

Lemma turn_stuck w ws b e : stuck b e -> turn w ws b = Ok (b, Some e).
Proof. intros H. unfold turn. rewrite H. apply and_words_err. Qed.

Definition turned (r : result (YAP_V2_BUFFER * option YAP_V2_STATUS)) (r' : result YAP_V2_BUFFER) : Prop :=
  match r with
  | Ok (b, None) => r' = Ok b
  | Ok (b, Some e) => r' = Err e /\ stuck b e
  | Err _ => False
  | Fault => r' = Fault
  end.

Lemma turned_words ws b : turned (and_words ws (b, None)) (append_words ws b).
Proof.
  revert b. induction ws as [|w ws IH]; intros b; [done|]. cbn [and_words append_words and_then].
  destruct (append_u32 garbage w b) as [b'|e|] eqn:E; cbn [keep mbind outcome_bind]; [apply IH| |done].
  rewrite and_words_err. split; [done|]. intros v. by eapply append_u32_fails.
Qed.

Lemma turn_spec w ws b : turned (turn w ws b) (append_words (w :: ws) b).
Proof.
  unfold turn. cbn [append_words]. destruct (append_u32 garbage w b) as [b'|e|] eqn:E; cbn [keep mbind outcome_bind]; [apply turned_words| |done].
  rewrite and_words_err. split; [done|]. intros v. by eapply append_u32_fails.
Qed.

(** A loop of such turns reports the first failure. *)
Fixpoint turns (ts : list (Z * list Z)) (s : YAP_V2_BUFFER * option YAP_V2_STATUS) : result (YAP_V2_BUFFER * option YAP_V2_STATUS) :=
  match ts with [] => Ok s | (w, ws) :: ts => s ← turn w ws (fst s); turns ts s end.

Lemma turns_stuck ts b e : stuck b e -> turns ts (b, Some e) = Ok (b, Some e).
Proof. intros H. induction ts as [|[w ws] ts IH]; [done|]. cbn [turns fst]. by rewrite (turn_stuck w ws b e H), outcome_bind_ok. Qed.

Lemma turns_eq ts b : (s ← turns ts (b, None); checked s) = append_words (concat ((fun t => t.1 :: t.2) <$> ts)) b.
Proof.
  revert b. induction ts as [|[w ws] ts IH]; intros b; [done|]. cbn [turns fst fmap list_fmap concat snd].
  rewrite append_words_app. pose proof (turn_spec w ws b) as HT.
  destruct (turn w ws b) as [[b' [e|]]|e|]; cbn [turned] in HT; [|rewrite HT, !outcome_bind_ok; apply IH|done|by rewrite HT].
  destruct HT as [-> HS]. by rewrite outcome_bind_ok, (turns_stuck ts b' e HS).
Qed.

(** The positions of an object. *)
Definition position_words (o : YAP_V2_LEXICAL_OCCURRENCE) : Z * list Z := (occ_field o, [occ_position o]).

Lemma append_positions_turns items s : append_positions garbage items s = turns (position_words <$> items) s.
Proof.
  revert s. induction items as [|o items IH]; intros s; [done|]. cbn [append_positions fmap list_fmap turns position_words].
  unfold turn. destruct (keep _ _) as [s1| |]; [|done..]. cbn [mbind outcome_bind and_words].
  destruct (and_then _ _) as [s2| |]; [|done..]. cbn [mbind outcome_bind]. apply IH.
Qed.

Lemma append_positions_appends items :
  appends (fun b => s ← append_positions garbage items (b, None); checked s) (concat (position_image <$> items)).
Proof.
  apply (appends_ext (append_words (concat ((fun t => t.1 :: t.2) <$> (position_words <$> items)))));
    [intros b; by rewrite append_positions_turns, turns_eq|].
  assert (concat (position_image <$> items) = concat (put_u32_le <$> concat ((fun t => t.1 :: t.2) <$> (position_words <$> items)))) as ->.
  { induction items as [|o items IH]; [done|]. cbn [fmap list_fmap concat position_words fst snd app]. rewrite IH. unfold position_image.
    by rewrite <- (assoc_L (++)). }
  apply append_words_appends.
Qed.

(** The blocks of a term. *)
Definition block_words (b : YAP_V2_POSTINGS_BLOCK) : Z * list Z :=
  (first_posting b, [posting_count b; max_term_frequency b; min_field_length b]).

Lemma scan_block_spec n : forall objects mt ml k, Forall (fun o => zlen o < 2 ^ 32) objects ->
  scan_block n objects mt ml k =
  (foldl (fun m o => Z.max m (zlen o)) mt (take n objects), foldl (fun m o => Z.min m (min_occurrence_length o)) ml (take n objects),
   k + zlen (take n objects), drop n objects).
Proof.
  induction n as [|n IH]; intros objects mt ml k Hl; [cbn; by rewrite Z.add_0_r|].
  destruct objects as [|o objects]; [cbn; by rewrite Z.add_0_r|]. inversion Hl; subst. cbn [scan_block take drop foldl].
  rewrite IH by done. cbn zeta. pose proof (zlen_nonneg o). unfold u32. rewrite Z.mod_small by lia. rewrite zlen_cons.
  replace (k + 1 + zlen (take n objects)) with (k + (1 + zlen (take n objects))) by lia.
  replace (if mt <? zlen o then zlen o else mt) with (Z.max mt (zlen o)) by (destruct (Z.ltb_spec mt (zlen o)); lia).
  by replace (if min_occurrence_length o <? ml then min_occurrence_length o else ml) with (Z.min ml (min_occurrence_length o))
    by (destruct (Z.ltb_spec (min_occurrence_length o) ml); lia).
Qed.

Lemma append_blocks_turns fuel : forall objects index s, (length objects <= fuel)%nat -> 0 <= index -> index + zlen objects < 2 ^ 32 ->
  Forall (fun o => zlen o < 2 ^ 32) objects ->
  append_blocks garbage fuel objects index s = turns (block_words <$> chunk_blocks index (chunks fuel objects)) s.
Proof.
  induction fuel as [|fuel IH]; intros objects index s Hf Hi Hl HS; (destruct objects as [|o objects]; [done|]); cbn [length] in Hf; [lia|].
  cbn [append_blocks chunks]. change (Z.to_nat YAP_V2_POSTINGS_BLOCK_SIZE) with 128%nat.
  rewrite scan_block_spec by done. rewrite Z.add_0_l.
  set (chunk := take 128 (o :: objects)). set (rest := drop 128 (o :: objects)).
  assert (zlen chunk + zlen rest = zlen (o :: objects)) as Hz by (rewrite <- zlen_app; unfold chunk, rest; by rewrite take_drop).
  assert (chunk = o :: take 127 objects) as Ec by done. pose proof (zlen_nonneg rest) as Hr.
  assert (0 < zlen chunk) as Hc by (rewrite Ec; zl).
  cbv zeta. unfold chunk_block. cbn [chunk_blocks fmap list_fmap turns block_words first_posting posting_count max_term_frequency min_field_length].
  fold chunk. unfold u32. rewrite !Z.mod_small by lia.
  unfold turn. destruct (keep _ _) as [s1| |]; [|done..]. cbn [mbind outcome_bind and_words].
  do 3 (destruct (and_then _ _) as [?s| |]; [|done..]; cbn [mbind outcome_bind]; clear dependent s1 || idtac).
  all: apply IH; [unfold rest; rewrite length_drop; cbn [length]; lia|lia|lia|by apply Forall_drop].
Qed.

Lemma append_blocks_appends objects : zlen objects < 2 ^ 32 -> Forall (fun o => zlen o < 2 ^ 32) objects ->
  appends (fun b => s ← append_blocks garbage (length objects) objects 0 (b, None); checked s) (concat (block_image <$> term_blocks objects)).
Proof.
  intros Hl HS. unfold term_blocks. set (bl := chunk_blocks 0 _).
  apply (appends_ext (append_words (concat ((fun t => t.1 :: t.2) <$> (block_words <$> bl)))));
    [intros b; by rewrite append_blocks_turns, turns_eq by (done || lia)|].
  assert (concat (block_image <$> bl) = concat (put_u32_le <$> concat ((fun t => t.1 :: t.2) <$> (block_words <$> bl)))) as ->.
  { clearbody bl. induction bl as [|b bl IH]; [done|]. cbn [fmap list_fmap concat block_words fst snd app]. rewrite IH. unfold block_image.
    by rewrite <- !(assoc_L (++)). }
  apply append_words_appends.
Qed.

(** The postings of a term: the positions are written first, so that an object that is too large
    for a counter is reported before its posting is written. *)
Definition wrote2 (b c : YAP_V2_BUFFER) (r : result (YAP_V2_BUFFER * YAP_V2_BUFFER)) (bs cs : bytes) (P : Prop) : Prop :=
  match r with
  | Ok (b', c') => buffer_ok b' /\ buffer_ok c' /\ content b' = content b ++ bs /\ content c' = content c ++ cs /\ P
  | Err _ => True
  | Fault => False
  end.

Lemma zlen_position_images items : zlen (concat (position_image <$> items)) = 8 * zlen items.
Proof.
  induction items as [|o items IH]; [done|]. cbn [fmap list_fmap concat]. rewrite zlen_app, zlen_cons, IH. unfold position_image. zl.
Qed.

Lemma word32_wrote v b : buffer_ok b -> wrote b (append_u32 garbage v b) (put_u32_le v).
Proof. apply appends_wrote, payload_word32. Qed.
Lemma word64_wrote v b : buffer_ok b -> wrote b (append_u64 garbage v b) (put_u64_le v).
Proof. apply appends_wrote, payload_word64. Qed.

(** One more word of a sequence of appends. *)
Ltac word :=
  let b := fresh "b" in let H := fresh "Hb" in let E := fresh "Ec" in
  lazymatch goal with
  | |- context [?f ≫= _] =>
      lazymatch f with
      | append_u32 garbage ?v ?b0 => pose proof (word32_wrote v b0 ltac:(assumption)) as H
      | append_u64 garbage ?v ?b0 => pose proof (word64_wrote v b0 ltac:(assumption)) as H
      end; destruct f as [b| |]
  end; [destruct H as [H E]; repeat rewrite outcome_bind_ok|exact I|destruct H].

(** Replaces the content of every buffer by what was appended. *)
Ltac contents := repeat match goal with H : content ?b = content _ ++ _ |- context [content ?b] => rewrite H end.

Lemma append_posting_spec object first off postings positions : head object = Some first -> buffer_ok postings -> buffer_ok positions ->
  wrote2 postings positions (append_posting garbage object first off postings positions)
    (posting_image (object_posting off object)) (concat (position_image <$> object)) (zlen object < 2 ^ 32).
Proof.
  intros Hfst Hb Hc. unfold append_posting, object_posting, first_of. rewrite Hfst. destruct (foldl count_item _ object) as [tf fl] eqn:EC.
  pose proof (appends_wrote _ _ _ (append_positions_appends object) Hc) as HP. cbv beta in HP.
  destruct (append_positions garbage object (positions, None)) as [s| |]; [|done..]. cbn [mbind outcome_bind] in HP |- *.
  destruct (checked s) as [positions'| |]; [|done..]. cbn [mbind outcome_bind]. destruct HP as [Hc' Ec].
  assert (zlen object < 2 ^ 32) as Hz.
  { pose proof (zlen_content positions' Hc') as Hzc. rewrite Ec, zlen_app, zlen_position_images in Hzc. destruct Hc' as (?&?&_).
    unfold YAP_V2_MAX_SEGMENT_PAYLOAD_BYTES in *. pose proof (zlen_nonneg (content positions)). lia. }
  pose proof (zlen_nonneg object). assert (u32 (zlen object) = zlen object) as -> by (apply Z.mod_small; lia).
  do 10 word. split_and!; [done|done| |done|done].
  contents. unfold posting_image. cbn. by rewrite <- !(assoc_L (++)).
Qed.

Lemma append_postings_spec objects : Forall (fun o => o <> []) objects -> forall off postings positions, 0 <= off ->
  off + zlen (concat objects) < 2 ^ 64 -> buffer_ok postings -> buffer_ok positions ->
  wrote2 postings positions (append_postings garbage objects off postings positions)
    (concat (posting_image <$> object_postings off objects)) (concat (position_image <$> concat objects)) (Forall (fun o => zlen o < 2 ^ 32) objects).
Proof.
  induction 1 as [|object objects Hne _ IH]; intros off postings positions H0 Hoff Hb Hc; cbn [append_postings].
  - cbn. by rewrite !app_nil_r.
  - destruct object as [|first rest]; [done|]. set (object := first :: rest) in *. change (elem_at object 0) with (Ok first : result _).
    rewrite outcome_bind_ok. cbn [concat] in Hoff. rewrite zlen_app in Hoff. pose proof (zlen_nonneg (concat objects)). pose proof (zlen_nonneg object).
    pose proof (append_posting_spec object first off postings positions eq_refl Hb Hc) as HP.
    destruct (append_posting _ _ _ _ _ _) as [[postings1 positions1]| |]; [|done..]. rewrite outcome_bind_ok. destruct HP as (Hb1&Hc1&Eb&Ec&Hz).
    rewrite u64_small by lia. specialize (IH (off + zlen object) postings1 positions1 ltac:(lia) ltac:(lia) Hb1 Hc1).
    destruct (append_postings _ _ _ _ _) as [[postings2 positions2]| |]; [|done..]. destruct IH as (Hb2&Hc2&Eb2&Ec2&HF).
    cbn [object_postings fmap list_fmap concat]. rewrite fmap_app, concat_app. split_and!; [done|done| | |by constructor].
    + by rewrite Eb2, Eb, <- (assoc_L (++)).
    + by rewrite Ec2, Ec, <- (assoc_L (++)).
Qed.

Record payloads_ok (p : payloads) : Prop := {
  payloads_terms : buffer_ok (pay_terms p);
  payloads_postings : buffer_ok (pay_postings p);
  payloads_positions : buffer_ok (pay_positions p) }.

(** The payloads grow by these bytes. *)
Definition grows (p : payloads) (r : result payloads) (terms postings positions : bytes) : Prop :=
  match r with
  | Ok p' => payloads_ok p' /\ content (pay_terms p') = content (pay_terms p) ++ terms /\
      content (pay_postings p') = content (pay_postings p) ++ postings /\ content (pay_positions p') = content (pay_positions p) ++ positions
  | Err _ => True
  | Fault => False
  end.

Definition item_small (o : YAP_V2_LEXICAL_OCCURRENCE) : Prop := zlen (occ_term o) <= 2 ^ 63.

Lemma elem_at_first items : items <> [] -> elem_at items 0 = (Ok (first_of items) : result _).
Proof. by destruct items. Qed.

(** What was appended is small; how far a buffer has grown. *)
Lemma small_content b b' bs : buffer_ok b' -> content b' = content b ++ bs -> zlen bs <= YAP_V2_MAX_SEGMENT_PAYLOAD_BYTES.
Proof.
  intros Hb E. pose proof (zlen_content b' Hb) as Hz. rewrite E, zlen_app in Hz. destruct Hb as (?&?&_). pose proof (zlen_nonneg (content b)). lia.
Qed.
Lemma grown_by b b' bs : buffer_ok b -> buffer_ok b' -> content b' = content b ++ bs -> u64 (buffer_len b' - buffer_len b) = zlen bs.
Proof.
  intros Hb Hb' E. pose proof (zlen_content b' Hb') as Hz. rewrite E, zlen_app, (zlen_content b Hb) in Hz. pose proof (zlen_nonneg bs).
  pose proof (small_content b b' bs Hb' E). unfold YAP_V2_MAX_SEGMENT_PAYLOAD_BYTES in *. rewrite u64_small by lia. lia.
Qed.

Lemma append_term_spec items index p : items <> [] -> Forall item_small items -> zlen items < 2 ^ 64 -> payloads_ok p ->
  grows p (append_term garbage items index p)
    (entry_image (group_entry index (buffer_len (pay_postings p)) (buffer_len (pay_positions p)) items))
    (term_postings_image index items) (term_positions_image index items).
Proof.
  intros Hne HS Hlen [Ht Hp Hs]. destruct p as [terms postings positions]. cbn [pay_terms pay_postings pay_positions] in *.
  unfold append_term. rewrite elem_at_first, outcome_bind_ok by done. cbv zeta. cbn [pay_terms pay_postings pay_positions].
  set (objects := runs same_object items). assert (concat objects = items) as Ecat by apply runs_concat.
  assert (Forall (fun o => o <> []) objects) as Hobj by apply runs_nonempty.
  do 5 word.
  pose proof (append_postings_spec objects Hobj 0 b1 b3 ltac:(lia) ltac:(rewrite Ecat; lia) Hb1 Hb3) as HP.
  destruct (append_postings _ _ _ _ _) as [[postings1 positions1]| |]; [|done..]. rewrite outcome_bind_ok.
  destruct HP as (Hq1&Hs1&Eq1&Es1&Hsmall). rewrite Ecat in Es1.
  assert (zlen items < 2 ^ 28) as Hz.
  { pose proof (small_content _ _ _ Hs1 Es1) as Hsc. rewrite zlen_position_images in Hsc. unfold YAP_V2_MAX_SEGMENT_PAYLOAD_BYTES in Hsc. lia. }
  assert (zlen objects <= zlen items) as Hdf by (rewrite <- Ecat; by apply zlen_concat_nonempty). pose proof (zlen_nonneg objects) as Hdf0.
  pose proof (appends_wrote _ _ _ (append_blocks_appends objects ltac:(lia) Hsmall) Hq1) as HB. cbv beta in HB.
  destruct (append_blocks _ _ _ _ _) as [s| |]; [|done..]. cbn [mbind outcome_bind] in HB. rewrite outcome_bind_ok.
  destruct (checked s) as [postings2| |]; [|done..]. rewrite outcome_bind_ok. destruct HB as [Hq2 Eq2].
  word. set (t := occ_term (first_of items)) in *.
  assert (item_small (first_of items)) as Htl by (destruct items; [done|by inversion HS]). unfold item_small in Htl. fold t in Htl.
  pose proof (appends_wrote _ _ _ (append_block_appends t Htl) Hb4) as HT. cbv beta in HT.
  destruct (append _ _ _ _) as [terms1| |]; [|done..]. rewrite outcome_bind_ok. destruct HT as [Ht1 Et1].
  do 5 word. pose proof (small_content _ _ _ Ht1 Et1) as Hts. pose proof (zlen_nonneg t) as Ht0.
  assert (u32 (zlen t) = zlen t) as Hu by (unfold YAP_V2_MAX_SEGMENT_PAYLOAD_BYTES in Hts; apply Z.mod_small; lia). rewrite Hu in Ec4.
  assert (u32 (u64 (zlen objects + YAP_V2_POSTINGS_BLOCK_SIZE - 1) / YAP_V2_POSTINGS_BLOCK_SIZE) = (zlen objects + 127) / 128) as Hbc.
  { unfold YAP_V2_POSTINGS_BLOCK_SIZE. rewrite u64_small by lia. unfold u32. rewrite Z.mod_small; [f_equal; lia|].
    split; [apply Z.div_pos; lia|apply Z.div_lt_upper_bound; lia]. }
  rewrite Hbc in Ec1.
  assert (content postings2 = content postings ++ term_postings_image index items) as EP.
  { rewrite Eq2, Eq1. contents. unfold term_postings_image. cbv zeta. fold objects. by rewrite <- !(assoc_L (++)). }
  assert (content positions1 = content positions ++ term_positions_image index items) as ES.
  { rewrite Es1. contents. unfold term_positions_image. by rewrite <- !(assoc_L (++)). }
  rewrite (grown_by _ _ _ Hp Hq2 EP), (grown_by _ _ _ Hs Hs1 ES) in *.
  split; [by split|]. cbn [pay_terms pay_postings pay_positions]. split_and!; [|done|done].
  clear EP ES Eq1 Eq2 Es1. contents. unfold entry_image, group_entry. cbn [term document_frequency postings_offset postings_bytes positions_offset positions_bytes].
  rewrite view_bytes_mk. cbn [len mk_view]. fold t objects. by rewrite <- !(assoc_L (++)).
Qed.

Lemma content_length b a bs : buffer_ok b -> content b = a ++ bs -> buffer_len b = zlen a + zlen bs.
Proof. intros Hb E. by rewrite <- zlen_content, E, zlen_app by done. Qed.

Lemma append_terms_spec groups : Forall (fun g => g <> []) groups -> Forall item_small (concat groups) -> zlen (concat groups) < 2 ^ 64 ->
  forall index total p, payloads_ok p ->
  match append_terms garbage groups index total p with
  | Ok (p', n, m) => n = index + zlen groups /\ m = total + posting_total groups /\
      grows p (Ok p') (concat (entry_image <$> group_entries index (buffer_len (pay_postings p)) (buffer_len (pay_positions p)) groups))
        (images_from term_postings_image index groups) (images_from term_positions_image index groups)
  | Err _ => True
  | Fault => False
  end.
Proof.
  induction 1 as [|g groups Hg _ IH]; intros HS Hlen index total p Hp; cbn [append_terms].
  - cbn. rewrite !app_nil_r. change (zlen []) with 0. by split_and!; [lia|lia|..].
  - cbn [concat] in HS, Hlen. apply Forall_app in HS as [HSg HS]. rewrite zlen_app in Hlen.
    pose proof (zlen_nonneg g). pose proof (zlen_nonneg (concat groups)).
    pose proof (append_term_spec g index p Hg HSg ltac:(lia) Hp) as HT. destruct (append_term garbage g index p) as [p1| |]; [|done..].
    rewrite outcome_bind_ok. destruct HT as (Hp1&E1&E2&E3).
    specialize (IH HS ltac:(lia) (index + 1) (total + zlen (runs same_object g)) p1 Hp1).
    destruct (append_terms _ _ _ _ _) as [[[p2 n] m]| |]; [|done..]. destruct IH as (->&->&Hp2&F1&F2&F3).
    rewrite (content_length _ _ _ (payloads_postings p1 Hp1) E2), (content_length _ _ _ (payloads_positions p1 Hp1) E3) in F1.
    rewrite !zlen_content in F1 by apply Hp. rewrite zlen_cons. cbn [posting_total foldr]. unfold grows. split_and!; [lia|unfold posting_total; lia|done|..].
    + rewrite F1, E1. cbn [group_entries fmap list_fmap concat]. by rewrite <- (assoc_L (++)).
    + rewrite F2, E2. cbn [images_from]. by rewrite <- (assoc_L (++)).
    + rewrite F3, E3. cbn [images_from]. by rewrite <- (assoc_L (++)).
Qed.

Lemma append_headers_spec documents passages totals :
  grows payloads_zero (append_headers garbage documents passages totals payloads_zero)
    (put_u32_le YAP_V2_LEXICAL_PAYLOAD_VERSION ++ put_u64_le 0)
    (put_u32_le YAP_V2_LEXICAL_PAYLOAD_VERSION ++ put_u32_le YAP_V2_POSTINGS_BLOCK_SIZE ++ put_u64_le documents ++ put_u64_le passages ++
     put_u64_le 0 ++ put_u64_le (totals !!! 0%nat) ++ put_u64_le (totals !!! 1%nat) ++ put_u64_le (totals !!! 2%nat))
    (put_u32_le YAP_V2_LEXICAL_PAYLOAD_VERSION ++ put_u64_le 0).
Proof.
  unfold append_headers. cbn [pay_terms pay_postings pay_positions payloads_zero]. pose proof buffer_zero_ok as H0.
  do 10 word.
  split; [by split|]. cbn [pay_terms pay_postings pay_positions]. contents. by rewrite <- !(assoc_L (++)).
Qed.

Lemma patch_u64_spec b a old c v p : buffer_ok b -> content b = a ++ put_u64_le old ++ c -> p = zlen a ->
  exists b', patch_u64 b p v = Ok b' /\ buffer_ok b' /\ content b' = a ++ put_u64_le v ++ c.
Proof.
  intros Hb Ec Hp. destruct (store_content b a _ c (put_u64_le v) p Hb Ec Hp eq_refl) as (block&Es&Hb'&Ec').
  eexists. unfold patch_u64. rewrite Es, outcome_bind_ok. by split.
Qed.

(** The items in the order in which they are written. *)
Definition sorted_items {Q : Qsort} (occurrences : list YAP_V2_LEXICAL_OCCURRENCE) : list YAP_V2_LEXICAL_OCCURRENCE :=
  if 1 <? zlen occurrences then qsort occurrences else occurrences.

Lemma sorted_items_permutation {Q : Qsort} occurrences : Permutation (sorted_items occurrences) occurrences.
Proof. unfold sorted_items. destruct (1 <? zlen occurrences); [apply qsort_permutation|done]. Qed.

Lemma sorted_items_sorted {Q : Qsort} occurrences : StronglySorted occurrence_le (sorted_items occurrences).
Proof.
  unfold sorted_items. destruct (Z.ltb_spec 1 (zlen occurrences)) as [|H]; [apply qsort_sorted|].
  destruct occurrences as [|o [|o' l]]; [constructor|repeat constructor|]. rewrite !zlen_cons in H. pose proof (zlen_nonneg l). lia.
Qed.

Definition built (groups : list (list YAP_V2_LEXICAL_OCCURRENCE)) (documents passages : Z) (totals : list Z) (p : payloads) : Prop :=
  payloads_ok p /\ content (pay_terms p) = terms_image groups /\
  content (pay_postings p) = postings_image documents passages totals groups /\ content (pay_positions p) = positions_image groups.

(** [build_payloads] writes the images of the groups of the sorted occurrences, or fails. *)
Lemma build_payloads_spec {Q : Qsort} occurrences documents passages totals :
  Forall item_small occurrences -> zlen occurrences < 2 ^ 64 ->
  let groups := runs same_term (sorted_items occurrences) in
  match build_payloads garbage occurrences documents passages totals payloads_zero with
  | Ok (p, n, m) => n = zlen groups /\ m = posting_total groups /\ built groups documents passages totals p
  | Err _ => True
  | Fault => False
  end.
Proof.
  intros HS Hlen groups. unfold build_payloads. fold (sorted_items occurrences). pose proof (sorted_items_permutation occurrences) as HP.
  set (items := sorted_items occurrences) in *. cbv zeta. fold groups.
  assert (concat groups = items) as Ecat by apply runs_concat.
  assert (zlen items = zlen occurrences) as Hz by (unfold zlen; by rewrite HP).
  pose proof (append_headers_spec documents passages totals) as HH.
  destruct (append_headers _ _ _ _ _) as [p0| |]; [|done..]. rewrite outcome_bind_ok. destruct HH as (Hp0&E1&E2&E3).
  change (content (pay_terms payloads_zero)) with (@nil Z) in E1. change (content (pay_postings payloads_zero)) with (@nil Z) in E2.
  change (content (pay_positions payloads_zero)) with (@nil Z) in E3. cbn [app] in E1, E2, E3.
  pose proof (append_terms_spec groups (runs_nonempty _ _) ltac:(rewrite Ecat, HP; done) ltac:(rewrite Ecat; lia) 0 0 p0 Hp0) as HT.
  destruct (append_terms _ _ _ _ _) as [[[p1 n] m]| |]; [|done..]. rewrite outcome_bind_ok. destruct HT as (->&->&Hp1&F1&F2&F3).
  assert (buffer_len (pay_postings p0) = 56) as L2 by (rewrite <- zlen_content, E2 by apply Hp0; done).
  assert (buffer_len (pay_positions p0) = 12) as L3 by (rewrite <- zlen_content, E3 by apply Hp0; done).
  rewrite L2, L3, E1, <- (assoc_L (++)) in F1. rewrite E2 in F2. rewrite E3, <- (assoc_L (++)) in F3. rewrite !Z.add_0_l.
  set (head := put_u32_le YAP_V2_LEXICAL_PAYLOAD_VERSION ++ put_u32_le YAP_V2_POSTINGS_BLOCK_SIZE ++ put_u64_le documents ++ put_u64_le passages).
  assert (content (pay_postings p1) = head ++ put_u64_le 0 ++ put_u64_le (totals !!! 0%nat) ++ put_u64_le (totals !!! 1%nat) ++
    put_u64_le (totals !!! 2%nat) ++ images_from term_postings_image 0 groups) as F2' by (rewrite F2; unfold head; by rewrite <- !(assoc_L (++))).
  destruct (patch_u64_spec _ _ _ _ (zlen groups) 4 (payloads_terms _ Hp1) F1 eq_refl) as (t&->&Ht&Et). rewrite outcome_bind_ok.
  destruct (patch_u64_spec _ _ _ _ (posting_total groups) 24 (payloads_postings _ Hp1) F2' eq_refl) as (q&->&Hq&Eq). rewrite outcome_bind_ok.
  destruct (patch_u64_spec _ _ _ _ (zlen items) 4 (payloads_positions _ Hp1) F3 eq_refl) as (s&->&Hs&Es). rewrite outcome_bind_ok.
  unfold built, terms_image, postings_image, positions_image. cbn [pay_terms pay_postings pay_positions]. split_and!; [done|done|by split|done| |].
  - rewrite Eq. unfold head. by rewrite <- !(assoc_L (++)).
  - by rewrite Ecat.
Qed.
End build.
