(* ===== verification/LexicalIndex.v ===== *)
(** The index that the writer of LexicalWriter.v builds is the one that the reader of Lexical.v
    sees: opening the three files succeeds, and the terms, postings and positions read from them
    are the occurrences that were collected. *)
From Stdlib Require Import Sorted Permutation.
From stdpp Require Import sorting.
From S2P Require Import Prelude Words Types Crc Header SlotTable Manifest FileSystem Reader Buffer Segment Verify Lexical Tokens LexicalWriter.
#[local] Open Scope io_scope.
#[local] Open Scope Z_scope.

(** ** What an index says *)

(** Every position of every posting of every term, as an occurrence. *)
Definition read_posting (s : YAP_V2_LEXICAL_SEGMENT) (t : YAP_V2_TERM_ENTRY) (p : YAP_V2_POSTING) : list YAP_V2_LEXICAL_OCCURRENCE :=
  (fun q => Occurrence (term_bytes t) (object_type p) (object_ordinal p) (field q) (position q) (field_length p !!! Z.to_nat (field q - 1)))
    <$> positions_of s t p.
Definition read_occurrences (s : YAP_V2_LEXICAL_SEGMENT) : list YAP_V2_LEXICAL_OCCURRENCE :=
  concat ((fun t => concat (read_posting s t <$> postings_of s t)) <$> lex_terms s).

(** Occurrences that can be indexed: terms that are not empty, objects and positions inside of
    their bounds, no place twice, and one length per field. *)
Record occurrence_wf (documents passages count : Z) (o : YAP_V2_LEXICAL_OCCURRENCE) : Prop := {
  ow_term : bytes_ok (occ_term o) /\ 1 <= zlen (occ_term o) <= UINT32_MAX;
  ow_object : occ_object_type o = YAP_V2_LEXICAL_DOCUMENT /\ 0 <= occ_object_ordinal o < documents \/
              occ_object_type o = YAP_V2_LEXICAL_PASSAGE /\ 0 <= occ_object_ordinal o < passages;
  ow_field : 1 <= occ_field o <= 3;
  ow_position : 0 <= occ_position o < occ_field_length o /\ occ_field_length o <= count }.

Definition place (o : YAP_V2_LEXICAL_OCCURRENCE) : Z * Z * Z * Z :=
  (occ_object_type o, occ_object_ordinal o, occ_field o, occ_position o).
Definition field_of (o : YAP_V2_LEXICAL_OCCURRENCE) : Z * Z * Z := (occ_object_type o, occ_object_ordinal o, occ_field o).

Record occurrences_wf (documents passages : Z) (os : list YAP_V2_LEXICAL_OCCURRENCE) : Prop := {
  owf_each : Forall (occurrence_wf documents passages (zlen os)) os;
  owf_places : NoDup (place <$> os);
  owf_lengths : forall o o', o ∈ os -> o' ∈ os -> field_of o = field_of o' -> occ_field_length o = occ_field_length o' }.

(** ** The order *)
Definition lex (c d : comparison) : comparison := match c with Eq => d | _ => c end.

Lemma compare_if (a b : Z) d : (if negb (a =? b) then if a <? b then Lt else Gt else d) = lex (a ?= b) d.
Proof.
  destruct (Z.eqb_spec a b) as [->|N]; cbn [negb]; [by rewrite Z.compare_refl|].
  destruct (Z.ltb_spec a b) as [H|H]; [by rewrite (proj2 (Z.compare_lt_iff a b))|]. by rewrite (proj2 (Z.compare_gt_iff a b)) by lia.
Qed.

Definition place_compare (a b : YAP_V2_LEXICAL_OCCURRENCE) : comparison := lex (occ_field a ?= occ_field b) (occ_position a ?= occ_position b).
Definition object_compare (a b : Z * Z) : comparison := lex (a.1 ?= b.1) (a.2 ?= b.2).
Definition object_of (o : YAP_V2_LEXICAL_OCCURRENCE) : Z * Z := (occ_object_type o, occ_object_ordinal o).

Lemma occurrence_compare_spec a b :
  occurrence_compare a b = lex (bytes_compare (occ_term a) (occ_term b)) (lex (object_compare (object_of a) (object_of b)) (place_compare a b)).
Proof.
  unfold occurrence_compare. cbv zeta. rewrite !compare_if.
  pose proof (common_compare (mk_view (occ_term a)) (mk_view (occ_term b))) as HC. rewrite !view_bytes_mk in HC. cbn [len mk_view] in HC.
  rewrite <- HC by done. destruct (memcmp _ _); [|done..]. unfold object_compare, place_compare, lex; cbn [fst snd object_of].
  destruct (zlen (occ_term a) ?= zlen (occ_term b)); [|done..]. destruct (occ_object_type a ?= occ_object_type b); [|done..].
  destruct (occ_object_ordinal a ?= occ_object_ordinal b); [|done..]. destruct (occ_field a ?= occ_field b); [|done..].
  by destruct (occ_position a ?= occ_position b).
Qed.

Lemma lex_le c d : lex c d <> Gt <-> c = Lt \/ c = Eq /\ d <> Gt.
Proof. destruct c; cbn; naive_solver. Qed.

Lemma object_compare_eq a b : object_compare a b = Eq <-> a = b.
Proof.
  destruct a as [a1 a2], b as [b1 b2]. unfold object_compare, lex; cbn. destruct (Z.compare_spec a1 b1) as [->|?|?]; [|naive_solver lia..].
  rewrite Z.compare_eq_iff. naive_solver.
Qed.
Lemma object_compare_trans a b c : object_compare a b = Lt -> object_compare b c = Lt -> object_compare a c = Lt.
Proof.
  destruct a as [a1 a2], b as [b1 b2], c as [c1 c2]. unfold object_compare, lex; cbn.
  destruct (Z.compare_spec a1 b1), (Z.compare_spec b1 c1), (Z.compare_spec a1 c1); try done; subst; try lia;
    rewrite !Z.compare_lt_iff; lia.
Qed.

Lemma memcmp_same a : forall b, length a = length b -> memcmp a b = bytes_compare a b.
Proof.
  induction a as [|x a IH]; intros [|y b] H; try done. cbn [memcmp bytes_compare]. injection H as H. by destruct (x ?= y); [apply IH|..].
Qed.

Lemma same_term_spec a b : same_term a b <-> occ_term a = occ_term b.
Proof.
  unfold same_term. rewrite andb_True, Is_true_true, Z.eqb_eq. split.
  - intros [Hz Hm]. rewrite memcmp_same in Hm by (unfold zlen in *; lia). apply bytes_compare_eq. by destruct (bytes_compare _ _).
  - intros E. rewrite E. split; [done|]. rewrite memcmp_same by done. by rewrite (proj2 (bytes_compare_eq (occ_term b) (occ_term b))).
Qed.
Lemma same_object_spec a b : same_object a b <-> object_of a = object_of b.
Proof. unfold same_object, object_of. rewrite andb_True, !Is_true_true, !Z.eqb_eq. split; [by intros [-> ->]|]. by intros [= -> ->]. Qed.

(** ** Runs of a sorted list *)
Section keyed.
Context {K : Type} (key : YAP_V2_LEXICAL_OCCURRENCE -> K) (lt : K -> K -> Prop) (same : YAP_V2_LEXICAL_OCCURRENCE -> YAP_V2_LEXICAL_OCCURRENCE -> bool).
Context (Hsame : forall a b, same a b <-> key a = key b) (Htrans : forall a b c, lt a b -> lt b c -> lt a c).

Definition key_le (a b : YAP_V2_LEXICAL_OCCURRENCE) : Prop := key a = key b \/ lt (key a) (key b).

Lemma advance_stops x items : let '(passed, others) := advance (same x) items in
  Forall (fun y => key y = key x) passed /\ match others with [] => True | y :: _ => key x <> key y end.
Proof using Hsame.
  induction items as [|y items IH]; [done|]. cbn [advance]. destruct (same x y) eqn:E.
  - destruct (advance (same x) items) as [passed others]. destruct IH as [HF Ho]. split; [|done]. constructor; [|done]. symmetry. apply Hsame. by rewrite E.
  - split; [done|]. intros Hk%Hsame. by rewrite E in Hk.
Qed.

(** Every run has one key, and the keys of the runs increase. *)
Lemma runs_sorted items : StronglySorted key_le items ->
  Forall (fun r => Forall (fun y => key y = key (first_of r)) r) (runs same items) /\
  StronglySorted (fun r q => lt (key (first_of r)) (key (first_of q))) (runs same items).
Proof using Hsame Htrans.
  unfold runs. assert (length items <= length items)%nat as Hf by done. revert Hf. generalize (length items) at 2 3 4. intros fuel. revert items.
  induction fuel as [|fuel IH]; intros [|x items] Hf HS; cbn [length] in Hf; try (repeat constructor; lia).
  cbn [runs_from]. pose proof (advance_app (same x) items) as HA. pose proof (advance_stops x items) as HB.
  destruct (advance (same x) items) as [passed others]. destruct HA as [-> _]. destruct HB as [Hp Ho].
  apply StronglySorted_inv in HS as [HS HF]. apply Forall_app in HF as [_ HFo]. apply StronglySorted_app_1_r in HS.
  rewrite length_app in Hf. destruct (IH others ltac:(lia) HS) as [H1 H2]. split; [by repeat constructor|]. constructor; [done|].
  assert (Forall (fun y => lt (key x) (key y)) others) as Hlt.
  { destruct others as [|y others]; [done|]. apply StronglySorted_inv in HS as [_ Hy].
    assert (lt (key x) (key y)) as Hxy by (inversion HFo as [|? ? [?|?]]; subst; [done|done]).
    constructor; [done|]. eapply Forall_impl; [exact Hy|]. intros z [<-|Hz]; [done|]. by eapply Htrans. }
  pose proof (runs_from_nonempty fuel same others) as Hne. assert (concat (runs_from fuel same others) = others) as Hcat by (apply runs_from_concat; lia).
  rewrite <- Hcat in Hlt. clear -Hlt Hne. induction Hne as [|r rs Hr _ IH]; [done|]. cbn [concat] in Hlt. apply Forall_app in Hlt as [Hl1 Hl2].
  constructor; [|by apply IH]. destruct r as [|y r]; [done|]. by inversion Hl1.
Qed.
End keyed.

(** ** The groups of sorted occurrences *)
Record object_ok (documents passages count : Z) (o : list YAP_V2_LEXICAL_OCCURRENCE) : Prop := {
  ob_nonempty : o <> [];
  ob_same : Forall (fun x => object_of x = object_of (first_of o)) o;
  ob_each : Forall (occurrence_wf documents passages count) o;
  ob_sorted : StronglySorted (fun a b => place_compare a b = Lt) o;
  ob_lengths : forall x y, x ∈ o -> y ∈ o -> occ_field x = occ_field y -> occ_field_length x = occ_field_length y }.

Definition object_lt (o o' : list YAP_V2_LEXICAL_OCCURRENCE) : Prop :=
  object_compare (object_of (first_of o)) (object_of (first_of o')) = Lt.
Definition group_lt (g g' : list YAP_V2_LEXICAL_OCCURRENCE) : Prop :=
  bytes_compare (occ_term (first_of g)) (occ_term (first_of g')) = Lt.

Record group_ok (documents passages count : Z) (g : list YAP_V2_LEXICAL_OCCURRENCE) : Prop := {
  gr_nonempty : g <> [];
  gr_term : Forall (fun x => occ_term x = occ_term (first_of g)) g;
  gr_objects : Forall (object_ok documents passages count) (runs same_object g);
  gr_sorted : StronglySorted object_lt (runs same_object g) }.

Lemma sorted_concat {X} (R : X -> X -> Prop) (ls : list (list X)) : StronglySorted R (concat ls) -> Forall (StronglySorted R) ls.
Proof.
  induction ls as [|l ls IH]; intros H; [done|]. cbn [concat] in H. constructor; [by eapply StronglySorted_app_1_l|].
  by apply IH; eapply StronglySorted_app_1_r.
Qed.

Lemma sorted_impl {X} (R S : X -> X -> Prop) l : StronglySorted R l -> (forall x y, x ∈ l -> y ∈ l -> R x y -> S x y) -> StronglySorted S l.
Proof.
  induction 1 as [|x l HS IH HF]; intros H; constructor.
  - apply IH. intros. apply H; [by apply elem_of_cons; right..|done].
  - apply Forall_forall. intros y Hy. apply H; [by left|by right|]. by apply (proj1 (Forall_forall _ _) HF).
Qed.

Lemma first_of_in g : g <> [] -> first_of g ∈ g.
Proof. destruct g; [done|]. intros _. by left. Qed.

Lemma in_concat {X} (ls : list (list X)) l x : l ∈ ls -> x ∈ l -> x ∈ concat ls.
Proof. intros Hl Hx. apply list_elem_of_In, in_concat. exists l. by rewrite <- !list_elem_of_In. Qed.

Lemma compare_same_term a b : occ_term a = occ_term b -> occurrence_le a b ->
  object_compare (object_of a) (object_of b) = Lt \/ object_of a = object_of b /\ place_compare a b <> Gt.
Proof.
  intros E H. unfold occurrence_le in H. rewrite occurrence_compare_spec, E, (proj2 (bytes_compare_eq _ _) eq_refl) in H. cbn [lex] in H.
  apply lex_le in H. by rewrite object_compare_eq in H.
Qed.

Lemma place_eq a b : object_of a = object_of b -> place_compare a b = Eq -> place a = place b.
Proof.
  unfold object_of, place_compare, place, lex. intros [= -> ->]. destruct (Z.compare_spec (occ_field a) (occ_field b)) as [->|?|?]; [|done..].
  by intros ->%Z.compare_eq.
Qed.

Lemma places_sorted t k o : StronglySorted occurrence_le o -> NoDup (place <$> o) -> Forall (fun x => occ_term x = t /\ object_of x = k) o ->
  StronglySorted (fun a b => place_compare a b = Lt) o.
Proof.
  induction 1 as [|x o HS IH HF]; intros HN HA; [constructor|]. rewrite fmap_cons in HN. apply NoDup_cons in HN as [Hx HN].
  inversion HA as [|? ? [Ht Hk] HA']; subst. constructor; [by apply IH|]. apply Forall_forall. intros y Hy.
  destruct (proj1 (Forall_forall _ _) HA' y Hy) as [Ht' Hk'].
  destruct (compare_same_term x y (eq_sym Ht') (proj1 (Forall_forall _ _) HF y Hy)) as [HL|[_ HL]].
  - rewrite (proj2 (object_compare_eq _ _)) in HL by done. done.
  - destruct (place_compare x y) eqn:E; [|done..]. exfalso. apply Hx. rewrite (place_eq x y) by done. by apply list_elem_of_fmap_2.
Qed.

Lemma nodup_part {X Y} (f : X -> Y) (ls : list (list X)) l : NoDup (f <$> concat ls) -> l ∈ ls -> NoDup (f <$> l).
Proof.
  intros HN (l1&l2&->)%list_elem_of_split. rewrite concat_app in HN. cbn [concat] in HN. rewrite !fmap_app in HN.
  apply NoDup_app in HN as (_&_&HN). by apply NoDup_app in HN as (HN&_).
Qed.

Section groups.
Context (documents passages : Z) (items : list YAP_V2_LEXICAL_OCCURRENCE).
Context (Hwf : occurrences_wf documents passages items) (HS : StronglySorted occurrence_le items).

Definition item_groups : list (list YAP_V2_LEXICAL_OCCURRENCE) := runs same_term items.

Lemma terms_sorted : StronglySorted (key_le occ_term (fun a b => bytes_compare a b = Lt)) items.
Proof using HS.
  apply (sorted_impl _ _ _ HS). intros x y _ _ H. unfold occurrence_le in H. rewrite occurrence_compare_spec in H. apply lex_le in H as [H|[H _]]; [by right|].
  left. by apply bytes_compare_eq.
Qed.

Lemma groups_sorted : StronglySorted group_lt item_groups.
Proof using HS. apply (runs_sorted occ_term (fun a b => bytes_compare a b = Lt) same_term same_term_spec (fun a b c => bytes_compare_trans a b c) items terms_sorted). Qed.

Lemma group_in g x : g ∈ item_groups -> x ∈ g -> x ∈ items.
Proof. intros Hg Hx. rewrite <- (runs_concat same_term items). by eapply in_concat. Qed.

Lemma groups_ok : Forall (group_ok documents passages (zlen items)) item_groups.
Proof using Hwf HS.
  apply Forall_forall. intros g Hg. pose proof (runs_concat same_term items) as Hcat.
  pose proof (proj1 (Forall_forall _ _) (runs_nonempty same_term items) g Hg) as Hne.
  assert (Forall (fun x => occ_term x = occ_term (first_of g)) g) as HT.
  { destruct (runs_sorted occ_term _ same_term same_term_spec (fun a b c => bytes_compare_trans a b c) items terms_sorted) as [HF _].
    exact (proj1 (Forall_forall _ _) HF g Hg). }
  assert (StronglySorted occurrence_le g) as HSg.
  { pose proof HS as HS'. rewrite <- Hcat in HS'. exact (proj1 (Forall_forall _ _) (sorted_concat _ _ HS') g Hg). }
  assert (NoDup (place <$> g)) as HNg by (apply (nodup_part place (runs same_term items)); [rewrite Hcat; apply Hwf|done]).
  assert (StronglySorted (key_le object_of (fun a b => object_compare a b = Lt)) g) as HK.
  { apply (sorted_impl _ _ _ HSg). intros x y Hx Hy HL. rewrite Forall_forall in HT.
    destruct (compare_same_term x y) as [H|[H _]]; [by rewrite (HT x), (HT y)|done|by right|by left]. }
  destruct (runs_sorted object_of _ same_object same_object_spec object_compare_trans g HK) as [HO HSo]. pose proof (runs_concat same_object g) as Hcat'.
  split; [done|done| |done]. apply Forall_forall. intros o Ho. pose proof (proj1 (Forall_forall _ _) HO o Ho) as HOo.
  assert (forall x, x ∈ o -> x ∈ g) as Hin by (intros x Hx; rewrite <- Hcat'; by eapply in_concat).
  split; [exact (proj1 (Forall_forall _ _) (runs_nonempty same_object g) o Ho)|done|..].
  - apply Forall_forall. intros x Hx. apply (proj1 (Forall_forall _ _) (owf_each _ _ _ Hwf)). eauto using group_in.
  - apply (places_sorted (occ_term (first_of g)) (object_of (first_of o))).
    + rewrite <- Hcat' in HSg. exact (proj1 (Forall_forall _ _) (sorted_concat _ _ HSg) o Ho).
    + apply (nodup_part place (runs same_object g)); [by rewrite Hcat'|done].
    + apply Forall_forall. intros x Hx. split; [exact (proj1 (Forall_forall _ _) HT x (Hin x Hx))|exact (proj1 (Forall_forall _ _) HOo x Hx)].
  - intros x y Hx Hy Hf. apply (owf_lengths _ _ _ Hwf); [eauto using group_in..|]. unfold field_of. rewrite Hf. rewrite Forall_forall in HOo.
    pose proof (HOo x Hx) as E1. pose proof (HOo y Hy) as E2. unfold object_of in E1, E2. congruence.
Qed.
End groups.

(** ** The posting of an object *)
Definition position_of (x : YAP_V2_LEXICAL_OCCURRENCE) : YAP_V2_POSITION := Position (occ_field x) (occ_position x).

(** The counters after the occurrences [o]. *)
Record counted (o : list YAP_V2_LEXICAL_OCCURRENCE) (c : list Z * list Z) : Prop := {
  cnt_three : length c.1 = 3%nat /\ length c.2 = 3%nat;
  cnt_tf : forall f, 1 <= f <= 3 -> c.1 !!! Z.to_nat (f - 1) = zlen (field_positions f (position_of <$> o));
  cnt_total : foldr Z.add 0 c.1 = zlen o;
  cnt_length : forall x, x ∈ o -> c.2 !!! Z.to_nat (occ_field x - 1) = occ_field_length x;
  cnt_u32 : Forall is_u32 c.1 /\ Forall is_u32 c.2 }.

Lemma counted_nil : counted [] ([0; 0; 0], [0; 0; 0]).
Proof.
  split; cbn; [done| |done|by intros x Hx%elem_of_nil|].
  - intros f Hf. assert (f = 1 \/ f = 2 \/ f = 3) as [->|[->| ->]] by lia; done.
  - split; repeat constructor; lia.
Qed.

Lemma sum_set (l : list Z) i : length l = 3%nat -> (i < 3)%nat -> foldr Z.add 0 (<[i := l !!! i + 1]> l) = foldr Z.add 0 l + 1.
Proof.
  intros Hl Hi. destruct l as [|a [|b [|c [|]]]]; try done. destruct i as [|[|[|]]]; cbn; lia.
Qed.

Lemma counted_snoc o x c : counted o c -> 1 <= occ_field x <= 3 -> is_u32 (occ_field_length x) -> zlen o + 1 < 2 ^ 32 ->
  (forall y, y ∈ o -> occ_field y = occ_field x -> occ_field_length y = occ_field_length x) ->
  Forall (fun y => 1 <= occ_field y <= 3) o -> counted (o ++ [x]) (count_item c x).
Proof.
  intros [[H1 H2] HT HTot HL [HU1 HU2]] Hf Hlx Hz Hcons Hfo. unfold count_item.
  assert (field_index x = Z.to_nat (occ_field x - 1)) as ->.
  { unfold field_index, YAP_V2_FIELD_TITLE, YAP_V2_FIELD_BODY. destruct (Z.eqb_spec (occ_field x) 1) as [->|]; [done|].
    destruct (Z.eqb_spec (occ_field x) 2) as [->|]; [done|]. by replace (occ_field x) with 3 by lia. }
  set (i := Z.to_nat (occ_field x - 1)). assert (i < 3)%nat as Hi by lia. cbv zeta. cbn [fst snd].
  assert (c.1 !!! i = zlen (field_positions (occ_field x) (position_of <$> o))) as Hci by (by apply HT).
  pose proof (field_positions_length (occ_field x) (position_of <$> o)) as Hle. rewrite zlen_fmap in Hle.
  pose proof (zlen_nonneg (field_positions (occ_field x) (position_of <$> o))) as Hge.
  assert (u32 (c.1 !!! i + 1) = c.1 !!! i + 1) as -> by (apply Z.mod_small; lia).
  split; cbn [fst snd].
  - by rewrite !length_insert.
  - intros f Hf'. rewrite lookup_total_set by done. rewrite fmap_app, field_positions_app. cbn [fmap list_fmap]. rewrite field_positions_single.
    cbn [position_of field]. destruct (decide (i = Z.to_nat (f - 1))) as [E|N].
    + assert (occ_field x = f) as Ef by lia. rewrite decide_True by done. rewrite Hci, Ef, zlen_app. done.
    + rewrite decide_False by lia. rewrite app_nil_r. by apply HT.
  - rewrite sum_set by done. rewrite HTot, zlen_app. done.
  - intros y Hy. rewrite lookup_total_set by done. apply elem_of_app in Hy as [Hy| ->%list_elem_of_singleton].
    + destruct (decide (i = Z.to_nat (occ_field y - 1))) as [E|N]; [|by apply HL]. symmetry. apply Hcons; [done|].
      pose proof (proj1 (Forall_forall _ _) Hfo y Hy). cbn in *. lia.
    + by rewrite decide_True.
  - split; apply Forall_insert; [done|unfold is_u32; lia|done|done].
Qed.

Lemma counted_all documents passages count o : object_ok documents passages count o -> zlen o < 2 ^ 32 -> count < 2 ^ 32 ->
  counted o (foldl count_item ([0; 0; 0], [0; 0; 0]) o).
Proof.
  intros [_ _ HE _ HL] Hz Hc. clear -HE HL Hz Hc. induction o as [|x o IH] using rev_ind; [apply counted_nil|].
  rewrite foldl_app. cbn [foldl]. apply Forall_app in HE as [HE Hx]. apply Forall_singleton in Hx as [_ _ Hf [Hp1 Hp2]]. rewrite zlen_app in Hz. change (zlen [x]) with 1 in Hz.
  apply counted_snoc; [apply IH; [done| |lia]|done|unfold is_u32; lia|done| |].
  - intros a b Ha Hb. apply HL; by apply elem_of_app; left.
  - intros y Hy E. apply HL; [by apply elem_of_app; left|by apply elem_of_app; right; left|done].
  - eapply Forall_impl; [exact HE|]. by intros y [_ _ ? _].
Qed.

(** Both minima are characterised by their lower bounds. *)
Lemma foldl_min_iff {X} (f : X -> Z) l : forall m y, y <= foldl (fun m x => Z.min m (f x)) m l <-> y <= m /\ forall x, x ∈ l -> y <= f x.
Proof.
  induction l as [|x l IH]; intros m y; cbn [foldl].
  - split; [|tauto]. intros H. split; [done|]. by intros x Hx%elem_of_nil.
  - rewrite IH, Z.min_glb_iff. split.
    + intros [[H1 H2] H3]. split; [done|]. by intros z [->|Hz]%elem_of_cons; [|apply H3].
    + intros [H1 H2]. split_and!; [done|apply H2; by left|]. intros z Hz. apply H2. by right.
Qed.

Lemma min_occurrence_eq o : min_occurrence_length o = foldl (fun m x => Z.min m (occ_field_length x)) UINT32_MAX o.
Proof.
  unfold min_occurrence_length. generalize UINT32_MAX. induction o as [|x o IH]; intros m; [done|]. cbn [foldl]. rewrite IH. f_equal.
  destruct (Z.ltb_spec (occ_field_length x) m); lia.
Qed.

Lemma field_positions_nonempty f o : 0 < zlen (field_positions f (position_of <$> o)) <-> exists x, x ∈ o /\ occ_field x = f.
Proof.
  unfold field_positions. rewrite zlen_fmap. split.
  - intros H. destruct (filter (fun q => field q = f) (position_of <$> o)) as [|q l] eqn:E; [done|].
    assert (q ∈ filter (fun q => field q = f) (position_of <$> o)) as Hq by (rewrite E; by left).
    apply list_elem_of_filter in Hq as [<- (x&->&Hx)%list_elem_of_fmap]. by exists x.
  - intros (x&Hx&Hf). assert (position_of x ∈ filter (fun q => field q = f) (position_of <$> o)) as Hq.
    { apply list_elem_of_filter. split; [done|]. by apply list_elem_of_fmap_2. }
    destruct (filter _ _); [by apply elem_of_nil in Hq|]. zl.
Qed.

Lemma field_positions_sorted f o : StronglySorted (fun a b => place_compare a b = Lt) o -> StronglySorted Z.lt (field_positions f (position_of <$> o)).
Proof.
  induction 1 as [|x l HS IH HF]; [constructor|]. unfold field_positions in *. cbn [fmap list_fmap]. rewrite filter_cons. cbn [field position_of].
  destruct (decide (occ_field x = f)) as [Ef|]; [|done]. cbn [fmap list_fmap position position_of].
  constructor; [done|]. apply Forall_fmap, Forall_forall. intros q [Hq (y&->&Hy)%list_elem_of_fmap]%list_elem_of_filter.
  unfold compose. cbn [position position_of field] in *. pose proof (proj1 (Forall_forall _ _) HF y Hy) as HL.
  unfold place_compare, lex in HL. rewrite Hq, Ef, Z.compare_refl in HL. by apply Z.compare_lt_iff.
Qed.

Section object.
Context (documents passages count off : Z) (o : list YAP_V2_LEXICAL_OCCURRENCE).
Context (Hok : object_ok documents passages count o) (Hz : zlen o < 2 ^ 28) (Hc : count < 2 ^ 28).

Definition object_counters : list Z * list Z := foldl count_item ([0; 0; 0], [0; 0; 0]) o.

Lemma object_counted : counted o object_counters.
Proof using Hok Hz Hc. apply (counted_all documents passages count); [done|lia..]. Qed.

Lemma object_posting_shape : posting_shape (LexicalCounts documents passages 0 0 []) (object_posting off o).
Proof using Hok Hz Hc.
  pose proof (first_of_in o (ob_nonempty _ _ _ _ Hok)) as Hin. pose proof (proj1 (Forall_forall _ _) (ob_each _ _ _ _ Hok) _ Hin) as [_ Ho _ _].
  split; cbn.
  - naive_solver lia.
  - split; [|apply object_counted]. apply list_elem_of_lookup in Hin as [i Hi%lookup_lt_Some]. unfold zlen. lia.
Qed.

Lemma object_positions_ok : positions_ok (object_posting off o) (position_of <$> o).
Proof using Hok Hz Hc.
  pose proof object_counted as [_ HT _ HL _]. split.
  - apply Forall_fmap, Forall_forall. intros x Hx. unfold compose. pose proof (proj1 (Forall_forall _ _) (ob_each _ _ _ _ Hok) _ Hx) as [_ _ Hf [Hp _]].
    split; [done|]. cbn [position position_of field field_length object_posting]. fold object_counters. rewrite HL by done. lia.
  - intros f Hf. apply field_positions_sorted, Hok.
  - intros f Hf. cbn [term_frequency object_posting]. fold object_counters. by apply HT.
Qed.

Lemma object_shortest : shortest_field (object_posting off o) = min_occurrence_length o.
Proof using Hok Hz Hc.
  pose proof object_counted as [[Hl1 Hl2] HT _ HL _]. rewrite min_occurrence_eq. unfold shortest_field. cbn [term_frequency field_length object_posting].
  fold object_counters. set (c := object_counters) in *.
  assert (forall y, y <= foldl (fun length f => if (0 <? c.1 !!! f) && (c.2 !!! f <? length) then c.2 !!! f else length) UINT32_MAX [0%nat; 1%nat; 2%nat] <->
    y <= UINT32_MAX /\ forall f, 1 <= f <= 3 -> 0 < c.1 !!! Z.to_nat (f - 1) -> y <= c.2 !!! Z.to_nat (f - 1)) as HM.
  { intros y. assert (forall m i, (if (0 <? c.1 !!! i) && (c.2 !!! i <? m) then c.2 !!! i else m) =
      (if 0 <? c.1 !!! i then Z.min m (c.2 !!! i) else m)) as Hmin.
    { intros m i. destruct (Z.ltb_spec 0 (c.1 !!! i)); [|done]. cbn [andb]. destruct (Z.ltb_spec (c.2 !!! i) m); lia. }
    cbn [foldl]. rewrite !Hmin. split.
    - intros H. split; [|intros f Hf]; [|assert (f = 1 \/ f = 2 \/ f = 3) as [->|[->| ->]] by lia; cbn [Z.sub Z.add Z.opp Z.pos_sub Z.to_nat]; intros Hp];
        repeat match goal with _ : context [0 <? ?x] |- _ => destruct (Z.ltb_spec 0 x) end; change (Z.to_nat (1 - 1)) with 0%nat in *;
        change (Z.to_nat (2 - 1)) with 1%nat in *; change (Z.to_nat (3 - 1)) with 2%nat in *; lia.
    - intros [H HF]. pose proof (HF 1 ltac:(lia)) as H1. pose proof (HF 2 ltac:(lia)) as H2. pose proof (HF 3 ltac:(lia)) as H3.
      change (Z.to_nat (1 - 1)) with 0%nat in *. change (Z.to_nat (2 - 1)) with 1%nat in *. change (Z.to_nat (3 - 1)) with 2%nat in *.
      repeat match goal with |- context [0 <? ?x] => destruct (Z.ltb_spec 0 x) end; lia. }
  assert (forall a b : Z, (forall y, y <= a <-> y <= b) -> a = b) as Heq.
  { intros a b H. pose proof (proj1 (H a)). pose proof (proj2 (H b)). lia. }
  apply Heq. intros y. rewrite HM, foldl_min_iff. split; intros [H1 H2]; (split; [done|]).
  - intros x Hx. rewrite <- HL by done. pose proof (proj1 (Forall_forall _ _) (ob_each _ _ _ _ Hok) _ Hx) as [_ _ Hf _].
    apply H2; [done|]. rewrite HT by done. apply field_positions_nonempty. by exists x.
  - intros f Hf Hp. rewrite HT in Hp by done. apply field_positions_nonempty in Hp as (x&Hx&<-). rewrite HL by done. by apply H2.
Qed.
End object.

(** ** Reading the images *)
Lemma slice_skip (a m : bytes) p n : zlen a <= p -> slice (a ++ m) p n = slice m (p - zlen a) n.
Proof.
  intros H. unfold slice, zlen in *. rewrite drop_app_ge by lia. do 2 f_equal. lia.
Qed.

Lemma u32_at_app a m k : 0 <= k -> u32_at (a ++ m) (zlen a + k) = u32_at m k.
Proof. intros. unfold u32_at. rewrite slice_skip by lia. do 2 f_equal. lia. Qed.
Lemma u64_at_app a m k : 0 <= k -> u64_at (a ++ m) (zlen a + k) = u64_at m k.
Proof. intros. unfold u64_at. rewrite slice_skip by lia. do 2 f_equal. lia. Qed.

Lemma u32_at_word v m : is_u32 v -> u32_at (put_u32_le v ++ m) 0 = v.
Proof. intros. unfold u32_at. rewrite (slice_app_mid [] (put_u32_le v) m) by done. rewrite put_u32_le_enc. by apply le_dec_enc. Qed.
Lemma u64_at_word v m : is_u64 v -> u64_at (put_u64_le v ++ m) 0 = v.
Proof. intros. unfold u64_at. rewrite (slice_app_mid [] (put_u64_le v) m) by done. rewrite put_u64_le_enc. by apply le_dec_enc. Qed.

Lemma u32_at_skip32 v m p : 4 <= p -> u32_at (put_u32_le v ++ m) p = u32_at m (p - 4).
Proof. intros. unfold u32_at. by rewrite slice_skip by (rewrite zlen_put_u32_le; lia). Qed.
Lemma u32_at_skip64 v m p : 8 <= p -> u32_at (put_u64_le v ++ m) p = u32_at m (p - 8).
Proof. intros. unfold u32_at. by rewrite slice_skip by (rewrite zlen_put_u64_le; lia). Qed.
Lemma u64_at_skip32 v m p : 4 <= p -> u64_at (put_u32_le v ++ m) p = u64_at m (p - 4).
Proof. intros. unfold u64_at. by rewrite slice_skip by (rewrite zlen_put_u32_le; lia). Qed.
Lemma u64_at_skip64 v m p : 8 <= p -> u64_at (put_u64_le v ++ m) p = u64_at m (p - 8).
Proof. intros. unfold u64_at. by rewrite slice_skip by (rewrite zlen_put_u64_le; lia). Qed.

(** Finds a word of an image by its offset. *)
Ltac find_word :=
  repeat first [rewrite u32_at_word by assumption | rewrite u64_at_word by assumption
               | rewrite u32_at_skip32 by lia | rewrite u32_at_skip64 by lia
               | rewrite u64_at_skip32 by lia | rewrite u64_at_skip64 by lia
               | progress cbn [Z.sub Z.add Z.opp Z.pos_sub Pos.pred_double Z.succ_double Z.pred_double Z.double]].

Record posting_fields (p : YAP_V2_POSTING) : Prop := {
  pf_words : is_u32 (object_type p) /\ is_u64 (object_ordinal p) /\ is_u64 (position_offset p) /\ is_u32 (position_count p);
  pf_tf : length (term_frequency p) = 3%nat /\ Forall is_u32 (term_frequency p);
  pf_length : length (field_length p) = 3%nat /\ Forall is_u32 (field_length p) }.

Lemma posting_at_image p a c : posting_fields p -> posting_at (a ++ posting_image p ++ c) (zlen a) = p.
Proof.
  intros [(H1&H2&H3&H4) [Ht HT] [Hl HL]]. destruct p as [ty ord tf fl off cnt]; cbn [object_type object_ordinal term_frequency field_length position_offset position_count] in *.
  destruct tf as [|t0 [|t1 [|t2 [|]]]]; try done. destruct fl as [|l0 [|l1 [|l2 [|]]]]; try done.
  repeat match goal with H : Forall _ (_ :: _) |- _ => inversion H; clear H; subst end.
  unfold posting_at, posting_image. cbn [object_type object_ordinal term_frequency field_length position_offset position_count].
  change ([t0; t1; t2] !!! 0%nat) with t0. change ([t0; t1; t2] !!! 1%nat) with t1. change ([t0; t1; t2] !!! 2%nat) with t2.
  change ([l0; l1; l2] !!! 0%nat) with l0. change ([l0; l1; l2] !!! 1%nat) with l1. change ([l0; l1; l2] !!! 2%nat) with l2.
  rewrite <- (Z.add_0_r (zlen a)) at 1. rewrite !u32_at_app, !u64_at_app by lia. rewrite <- !(assoc_L (++)). find_word. done.
Qed.

Record block_fields (b : YAP_V2_POSTINGS_BLOCK) : Prop := {
  bf_words : is_u32 (first_posting b) /\ is_u32 (posting_count b) /\ is_u32 (max_term_frequency b) /\ is_u32 (min_field_length b) }.

Lemma block_at_image b a c : block_fields b -> block_at (a ++ block_image b ++ c) (zlen a) = b.
Proof.
  intros [(H1&H2&H3&H4)]. destruct b as [b0 b1 b2 b3]; cbn [first_posting posting_count max_term_frequency min_field_length] in *.
  unfold block_at, block_image. cbn [first_posting posting_count max_term_frequency min_field_length].
  rewrite <- (Z.add_0_r (zlen a)) at 1. rewrite !u32_at_app by lia. rewrite <- !(assoc_L (++)). find_word. done.
Qed.

Lemma position_at_image x a c : is_u32 (occ_field x) -> is_u32 (occ_position x) -> position_at (a ++ position_image x ++ c) (zlen a) = position_of x.
Proof.
  intros H1 H2. unfold position_at, position_image. rewrite <- (Z.add_0_r (zlen a)) at 1. rewrite !u32_at_app by lia.
  rewrite <- !(assoc_L (++)). find_word. done.
Qed.

(** An array of records of one size. *)
Lemma array_split {X} (image : X -> bytes) (size : Z) (l : list X) i x : (forall y, zlen (image y) = size) -> l !! i = Some x ->
  exists a c, concat (image <$> l) = a ++ image x ++ c /\ zlen a = Z.of_nat i * size.
Proof.
  intros Hs Hi. exists (concat (image <$> take i l)), (concat (image <$> drop (S i) l)). split.
  - rewrite <- (take_drop_middle l i x Hi) at 1. rewrite fmap_app, concat_app. done.
  - assert (i = length (take i l)) as E by (rewrite length_take; apply lookup_lt_Some in Hi; lia). rewrite E at 2.
    clear -Hs. induction (take i l) as [|y k IH]; [done|]. cbn [fmap list_fmap concat length]. rewrite zlen_app, Hs, IH. lia.
Qed.

Lemma zlen_array {X} (image : X -> bytes) (size : Z) (l : list X) : (forall y, zlen (image y) = size) -> zlen (concat (image <$> l)) = zlen l * size.
Proof.
  intros Hs. induction l as [|y l IH]; [done|]. cbn [fmap list_fmap concat]. rewrite zlen_app, zlen_cons, IH, Hs. lia.
Qed.

Lemma zlen_posting_image p : zlen (posting_image p) = 48.
Proof. unfold posting_image. zl. Qed.
Lemma zlen_block_image b : zlen (block_image b) = 16.
Proof. unfold block_image. zl. Qed.
Lemma zlen_position_image x : zlen (position_image x) = 8.
Proof. unfold position_image. zl. Qed.

Lemma object_postings_lookup objects : forall off i o, objects !! i = Some o ->
  object_postings off objects !! i = Some (object_posting (off + zlen (concat (take i objects))) o).
Proof.
  induction objects as [|o' objects IH]; intros off [|i] o H; try done.
  - injection H as ->. cbn. by rewrite Z.add_0_r.
  - cbn [object_postings lookup list_lookup take concat]. rewrite (IH _ _ _ H), zlen_app, Z.add_assoc. done.
Qed.
Lemma length_object_postings objects off : length (object_postings off objects) = length objects.
Proof. revert off. induction objects as [|o objects IH]; intros off; [done|]. cbn. by rewrite IH. Qed.

(** ** Validation accepts what it should *)
Lemma check_positions_complete positions cursor p records : bytes_ok positions -> 0 <= cursor -> cursor + 16 + records * 8 <= zlen positions ->
  zlen positions < 2 ^ 63 -> 0 <= position_offset p -> is_u32 (position_count p) -> position_offset p + position_count p <= records ->
  let l := posting_positions positions cursor p in positions_ok p l ->
  forall n k counts previous, 0 <= k -> k + Z.of_nat n = position_count p -> scanned p (take (Z.to_nat k) l) counts previous ->
  exists counts', check_positions positions cursor p n k counts previous = Ok counts' /\ exists previous', scanned p l counts' previous'.
Proof.
  intros Hok H0 Hr Hsz Hpo Hpc Hpr l Hl n. assert (zlen l = position_count p) as Hzl.
  { unfold l, posting_positions, zlen. unfold is_u32 in *. rewrite length_fmap, length_seqZ. lia. }
  induction n as [|n IH]; intros k counts previous Hk Hn HS; cbn [check_positions].
  - exists counts. split; [done|]. exists previous. rewrite take_ge in HS; [done|]. unfold zlen in Hzl. lia.
  - rewrite Nat2Z.inj_succ in Hn. cbv zeta. unfold is_u32 in Hpc.
    rewrite (u64_small (cursor + 16 + (position_offset p + k) * 8)) by lia. rewrite (u64_small (_ + 4)) by lia. do 2 read_at Hok.
    set (q := position_at positions (cursor + 16 + (position_offset p + k) * 8)).
    change (u32_at positions (cursor + 16 + (position_offset p + k) * 8)) with (field q).
    change (u32_at positions (cursor + 16 + (position_offset p + k) * 8 + 4)) with (position q).
    assert (l !! Z.to_nat k = Some q) as Hq.
    { unfold l, posting_positions. rewrite list_lookup_fmap, lookup_seqZ_lt by lia. cbn. unfold q. do 2 f_equal. lia. }
    assert (take (Z.to_nat (k + 1)) l = take (Z.to_nat k) l ++ [q]) as Htake.
    { rewrite Z2Nat.inj_add by lia. change (Z.to_nat 1) with 1%nat. rewrite Nat.add_1_r. by apply take_S_r. }
    destruct Hl as [HF HSo HC]. pose proof (Forall_lookup_1 _ _ _ _ HF Hq) as [Hf Hp]. cbn beta in Hf, Hp.
    assert (0 < counts !!! Z.to_nat (field q - 1) -> previous !!! Z.to_nat (field q - 1) < position q) as Hprev.
    { intros Hc. destruct HS as [_ [_ HSc] [_ HSp] _]. rewrite HSc in Hc by done.
      assert (field_positions (field q) (take (Z.to_nat k) l) <> []) as Hne by (by intros E; rewrite E in Hc).
      specialize (HSp (field q) Hf Hne). apply last_Some in HSp as [pre Epre].
      specialize (HSo (field q) Hf). rewrite <- (take_drop (Z.to_nat (k + 1)) l), Htake, !field_positions_app, field_positions_single in HSo.
      rewrite decide_True in HSo by done. rewrite Epre in HSo. apply StronglySorted_app_1_l in HSo.
      eapply (StronglySorted_app_1_elem_of _ (pre ++ [previous !!! Z.to_nat (field q - 1)]) [position q]); [done|apply elem_of_app; right; by left|by left]. }
    unfold YAP_V2_FIELD_TITLE, YAP_V2_FIELD_PASSAGE. rewrite (proj2 (Z.ltb_ge (field q) 1)), (proj2 (Z.ltb_ge 3 (field q))) by lia. cbn [orb].
    rewrite (proj2 (Z.leb_gt _ (position q))) by lia. cbn [orb].
    assert ((0 <? counts !!! Z.to_nat (field q - 1)) && (position q <=? previous !!! Z.to_nat (field q - 1)) = false) as ->.
    { destruct (Z.ltb_spec 0 (counts !!! Z.to_nat (field q - 1))) as [Hc|]; [|done]. specialize (Hprev Hc). cbn [andb]. by apply Z.leb_gt. }
    apply IH; [lia|lia|]. rewrite Htake. apply scanned_snoc; [done|lia|done| |done].
    assert (zlen (take (Z.to_nat k) l) <= k) by (unfold zlen; rewrite length_take; lia). lia.
Qed.

Lemma three_eq (a b : list Z) : length a = 3%nat -> length b = 3%nat -> (forall f, 1 <= f <= 3 -> a !!! Z.to_nat (f - 1) = b !!! Z.to_nat (f - 1)) -> a = b.
Proof.
  intros Ha Hb H. destruct a as [|a0 [|a1 [|a2 [|]]]]; try done. destruct b as [|b0 [|b1 [|b2 [|]]]]; try done.
  pose proof (H 1 ltac:(lia) : a0 = b0) as ->. pose proof (H 2 ltac:(lia) : a1 = b1) as ->. pose proof (H 3 ltac:(lia) : a2 = b2) as ->. done.
Qed.

Lemma posting_valid counts records i p prev : posting_shape counts p -> position_offset p + position_count p <= records -> records < 2 ^ 63 ->
  0 <= position_offset p -> (0 < i -> posting_lt prev p) -> posting_invalid counts records i p prev = false.
Proof.
  intros [HT [Hc Htf]] Hr Hr' Ho Hlt. unfold posting_invalid. cbv zeta. rewrite u64_small by lia.
  rewrite !orb_false_iff, !andb_false_iff, !negb_false_iff, !orb_false_iff, !andb_false_iff, !Z.eqb_eq, !Z.eqb_neq, !Z.leb_gt, !Z.ltb_ge.
  unfold posting_lt, YAP_V2_LEXICAL_DOCUMENT, YAP_V2_LEXICAL_PASSAGE in *. split_and!; [lia..|].
  destruct (Z.le_gt_cases i 0); [by left|right]. specialize (Hlt ltac:(lia)). lia.
Qed.

Section complete.
Context (counts : lexical_counts) (postings positions : bytes) (pc sc df records : Z).
Context (Hpo : bytes_ok postings) (Hso : bytes_ok positions) (Hpc : 0 <= pc) (Hsc : 0 <= sc).
Context (Hpr : pc + 20 + df * POSTING_BYTES <= zlen postings) (Hsr : sc + 16 + records * 8 <= zlen positions).
Context (Hpz : zlen postings < 2 ^ 32) (Hsz : zlen positions < 2 ^ 32).

Lemma check_postings_complete n : forall i prev, 0 <= i -> i + Z.of_nat n = df -> (0 < i -> prev = post postings pc (i - 1)) ->
  (forall j, i <= j < df -> posting_shape counts (post postings pc j) /\ posting_ok records positions sc (post postings pc j) /\
     length (term_frequency (post postings pc j)) = 3%nat /\ (0 < j -> posting_lt (post postings pc (j - 1)) (post postings pc j))) ->
  check_postings counts postings positions (pc + 20) sc records n i prev = Ok tt.
Proof using Hpo Hso Hpc Hsc Hpr Hsr Hpz Hsz.
  induction n as [|n IH]; intros i prev Hi Hn Hprev HA; cbn [check_postings]; [done|].
  rewrite (parse_post postings pc df) by (done || lia). rewrite outcome_bind_ok. set (p := post postings pc i).
  destruct (HA i ltac:(lia)) as (HS&[Hr HP]&H3&Hlt). fold p in HS, Hr, HP, H3, Hlt.
  destruct (post_range_ postings pc df Hpo Hpc Hpr i ltac:(lia)) as (_&Ho&Hc). fold p in Ho, Hc. unfold is_u64, is_u32 in *.
  rewrite posting_valid; [|done|done|lia|lia|intros H; rewrite Hprev by done; by apply Hlt].
  destruct (check_positions_complete positions sc p records Hso Hsc Hsr ltac:(lia) ltac:(lia) ltac:(done) Hr HP (Z.to_nat (position_count p)) 0
    [0; 0; 0] [0; 0; 0] ltac:(lia) ltac:(lia) (scanned_nil _)) as (fc&->&pr&HSc). rewrite outcome_bind_ok.
  assert (fc = term_frequency p) as ->.
  { destruct HSc as [_ [Hl HC] _ _]. apply three_eq; [done|done|]. intros f Hf. rewrite HC by done. symmetry. by apply HP. }
  rewrite bool_decide_true by done. cbn [negb]. apply IH; [lia|lia|by rewrite Z.add_simpl_r|]. intros j Hj. apply HA. lia.
Qed.

Lemma check_blocks_complete bc : pc + 20 + df * POSTING_BYTES + bc * BLOCK_BYTES <= zlen postings -> 0 <= df ->
  forall n i, 0 <= i -> i + Z.of_nat n = bc -> (forall b, i <= b < bc -> block_ok postings pc df b) ->
  check_blocks postings (pc + 20) (pc + 20 + df * POSTING_BYTES) df n i = Ok tt.
Proof using Hpo Hpc Hpr Hpz.
  unfold POSTING_BYTES, BLOCK_BYTES in *. intros Hb Hdf n. induction n as [|n IH]; intros i Hi Hn HA; cbn [check_blocks]; [done|].
  change BLOCK_BYTES with 16. rewrite u64_small by lia. rewrite parse_block_at by (done || lia). rewrite outcome_bind_ok.
  change (block_at postings (pc + 20 + df * 48 + i * 16)) with (blk postings pc df i).
  destruct (HA i ltac:(lia)) as [H1 H2 H3 H4]. unfold YAP_V2_POSTINGS_BLOCK_SIZE in *.
  assert (u32 (first_posting (blk postings pc df i) + posting_count (blk postings pc df i)) = first_posting (blk postings pc df i) + posting_count (blk postings pc df i))
    as -> by (apply Z.mod_small; lia).
  rewrite (proj2 (Z.eqb_eq _ _) H1), (proj2 (Z.eqb_neq _ 0)), (proj2 (Z.ltb_ge 128 _)), (proj2 (Z.ltb_ge df _)) by lia. cbn [negb orb].
  rewrite (block_maxima_spec postings pc df) by (done || unfold POSTING_BYTES; lia). rewrite outcome_bind_ok, Z2Nat.id by lia.
  unfold block_summary in H4. apply pair_equal_spec in H4 as [H5 H6]. rewrite <- H5, <- H6, !Z.eqb_refl. cbn [negb orb]. apply IH; [lia|lia|]. intros b Hb'. apply HA. lia.
Qed.
End complete.

(** The words in front of the records of a term. *)
Record term_words (postings positions : bytes) (index : Z) (t : YAP_V2_TERM_ENTRY) : Prop := {
  tw_index : u64_at postings (posting_cursor_of t) = index /\ u64_at positions (position_cursor_of t) = index;
  tw_df : u64_at postings (posting_cursor_of t + 8) = document_frequency t;
  tw_blocks : u32_at postings (posting_cursor_of t + 16) = block_count_of t;
  tw_records : u64_at positions (position_cursor_of t + 8) = record_count_of t }.

Definition term_readable (postings positions : bytes) (t : YAP_V2_TERM_ENTRY) : Prop :=
  forall i, 0 <= i < document_frequency t -> ~ wraps (posting_of postings t i) /\ length (term_frequency (posting_of postings t i)) = 3%nat.

Lemma check_term_complete counts postings positions index t : bytes_ok postings -> bytes_ok positions -> zlen postings < 2 ^ 32 -> zlen positions < 2 ^ 32 ->
  entry_wf t -> term_words postings positions index t -> term_ok counts postings positions t -> term_readable postings positions t ->
  check_term counts postings positions index (posting_cursor_of t) (position_cursor_of t) t = Ok (record_count_of t).
Proof.
  intros Hpo Hso Hpz Hsz [_ Hdf (H1&H2&H3&H4)] [[W1 W2] W3 W4 W5] [[Epb Esb] Hp [Hr0 Hs] HSh HOk HLt HB] HR.
  assert (0 <= block_count_of t) as Hbc0 by (unfold block_count_of, YAP_V2_POSTINGS_BLOCK_SIZE; apply Z.div_pos; lia).
  unfold check_term. cbv zeta. set (pc := posting_cursor_of t) in *. set (sc := position_cursor_of t) in *.
  assert (32 <= pc /\ postings_offset t = pc - 32) as [Hpc Ep] by (unfold pc, posting_cursor_of, YAP_V2_FILE_HEADER_BYTES, is_u64 in *; lia).
  assert (32 <= sc /\ positions_offset t = sc - 32) as [Hsc Es] by (unfold sc, position_cursor_of, YAP_V2_FILE_HEADER_BYTES, is_u64 in *; lia).
  unfold POSTING_BYTES, BLOCK_BYTES, YAP_V2_FILE_HEADER_BYTES, range_valid, SIZE_MAX, is_u64 in *.
  rewrite !(u64_small (_ - 32)) by lia.
  rewrite !(proj2 (Z.ltb_ge _ _)) by lia. rewrite !(proj2 (Z.leb_le _ _)) by lia. rewrite (proj2 (Z.eqb_eq _ _) Ep), (proj2 (Z.eqb_eq _ _) Es).
  cbn [negb orb andb]. rewrite (u64_small (pc + 8)), (u64_small (pc + 16)), (u64_small (pc + 20)), (u64_small (sc + 8)) by lia. do 3 read_at Hpo. do 2 read_at Hso.
  rewrite W1, W2, W3, W4, W5, !Z.eqb_refl. cbn [negb orb].
  change ((2 ^ 64 - 1 - 20) / 48) with 384307168202282324. change ((2 ^ 64 - 1 - 16) / 8) with 2305843009213693949.
  rewrite (u64_small (document_frequency t + _ - 1)) by (unfold YAP_V2_POSTINGS_BLOCK_SIZE; lia). fold (block_count_of t). rewrite Z.eqb_refl.
  rewrite (proj2 (Z.ltb_ge _ (document_frequency t))) by lia. cbn [negb orb].
  rewrite (u64_small (20 + _ + _)), (u64_small (16 + _)), (u64_small (pc + 20 + _)) by lia.
  rewrite (proj2 (Z.eqb_eq _ (postings_bytes t))), (proj2 (Z.ltb_ge _ (record_count_of t))), (proj2 (Z.eqb_eq (positions_bytes t) _)) by lia. cbn [negb orb].
  rewrite (check_postings_complete counts postings positions pc sc (document_frequency t) (record_count_of t)); try (done || unfold POSTING_BYTES; lia).
  2: { intros j Hj. destruct (HR j ltac:(lia)) as [Hw H3t]. split_and!; [by apply HSh|by apply HOk|done|]. intros Hj0. apply (HLt j ltac:(lia)). }
  rewrite outcome_bind_ok. change (pc + 20 + document_frequency t * 48) with (pc + 20 + document_frequency t * POSTING_BYTES).
  rewrite (check_blocks_complete postings pc (document_frequency t) Hpo ltac:(lia) ltac:(unfold POSTING_BYTES; lia) Hpz (block_count_of t));
    try (done || unfold POSTING_BYTES, BLOCK_BYTES; lia).
Qed.

(** ** The blocks of a term *)
Lemma chunk_blocks_lookup fuel : forall objects index (b : nat), (length objects <= fuel)%nat -> (128 * b < length objects)%nat ->
  chunk_blocks index (chunks fuel objects) !! b =
    Some (chunk_block (index + 128 * Z.of_nat b) (take 128 (drop (128 * b) objects))).
Proof.
  induction fuel as [|fuel IH]; intros objects index b Hf Hb; (destruct objects as [|o objects]; [cbn in Hb; lia|]); cbn [length] in *; [lia|].
  cbn [chunks chunk_blocks]. destruct b as [|b].
  - cbn [lookup list_lookup]. change (128 * 0)%nat with 0%nat. rewrite drop_0. do 2 f_equal. lia.
  - cbn [lookup list_lookup]. rewrite IH by (rewrite length_drop; cbn [length]; lia).
    rewrite drop_drop. replace (128 + 128 * b)%nat with (128 * S b)%nat by lia.
    assert (zlen (take 128 (o :: objects)) = 128) as -> by (unfold zlen; rewrite length_take; cbn [length]; lia).
    by replace (index + 128 + 128 * Z.of_nat b) with (index + 128 * Z.of_nat (S b)) by lia.
Qed.

Lemma length_chunk_blocks cs : forall index, length (chunk_blocks index cs) = length cs.
Proof. induction cs as [|c cs IH]; intros index; [done|]. cbn. by rewrite IH. Qed.

Lemma chunks_count fuel : forall objects, (length objects <= fuel)%nat -> zlen (chunks fuel objects) = (zlen objects + 127) / 128.
Proof.
  induction fuel as [|fuel IH]; intros objects Hf; (destruct objects as [|o objects]; [done|]); cbn [length] in *; [lia|].
  cbn [chunks]. rewrite zlen_cons, IH by (rewrite length_drop; cbn [length]; lia). rewrite zlen_drop. set (n := zlen (o :: objects)).
  assert (0 < n) as Hn by (unfold n; zl). change (Z.of_nat 128) with 128.
  destruct (Z.le_gt_cases n 128).
  - rewrite Z.max_l by lia. change ((0 + 127) / 128) with 0. apply (Z.div_unique _ _ _ (n - 1)); lia.
  - rewrite Z.max_r by lia. replace (n + 127) with (n - 128 + 127 + 1 * 128) by lia. rewrite Z.div_add by lia. lia.
Qed.

Lemma term_blocks_count objects : zlen (term_blocks objects) = (zlen objects + 127) / 128.
Proof.
  unfold term_blocks. rewrite <- (chunks_count (length objects) objects) by done. unfold zlen. by rewrite length_chunk_blocks.
Qed.

Lemma foldl_fmap {X Y B} (f : B -> Y -> B) (g : X -> Y) l : forall b, foldl f b (g <$> l) = foldl (fun b x => f b (g x)) b l.
Proof. induction l as [|x l IH]; intros b; [done|]. cbn. apply IH. Qed.

Lemma foldl_max_le {X} (f : X -> Z) l m u : m <= u -> Forall (fun x => f x <= u) l -> m <= foldl (fun m x => Z.max m (f x)) m l <= u.
Proof.
  intros Hm HF. revert m Hm. induction HF as [|x l Hx _ IH]; intros m Hm; cbn; [lia|]. specialize (IH (Z.max m (f x)) ltac:(lia)). lia.
Qed.

(** ** The records of a written term *)
(** The lengths of the records of a term. *)
Lemma zlen_positions_record index g : zlen (term_positions_image index g) = 16 + zlen g * 8.
Proof. unfold term_positions_image. rewrite !zlen_app, (zlen_array position_image 8), !zlen_put_u64_le by apply zlen_position_image. lia. Qed.

Lemma zlen_postings_record index g : let n := zlen (runs same_object g) in zlen (term_postings_image index g) = 20 + n * 48 + (n + 127) / 128 * 16.
Proof.
  unfold term_postings_image. cbv zeta. rewrite !zlen_app, (zlen_array posting_image 48), (zlen_array block_image 16), !zlen_put_u64_le, zlen_put_u32_le
    by (apply zlen_posting_image || apply zlen_block_image).
  rewrite term_blocks_count. assert (zlen (object_postings 0 (runs same_object g)) = zlen (runs same_object g)) as -> by (unfold zlen; by rewrite length_object_postings). lia.
Qed.

Section written.
Context (documents passages count index : Z) (counts : lexical_counts) (g : list YAP_V2_LEXICAL_OCCURRENCE) (pa pz sa sz : bytes).
Context (Hg : group_ok documents passages count g) (Hzg : zlen g < 2 ^ 28) (Hcount : count < 2 ^ 28) (Hindex : is_u64 index).
Context (Hdocs : count_documents counts = documents) (Hpass : count_passages counts = passages) (Hdu : documents < 2 ^ 63) (Hpu : passages < 2 ^ 63).
Context (Hpa : 32 <= zlen pa) (Hsa : 32 <= zlen sa).

Definition w_postings : bytes := pa ++ term_postings_image index g ++ pz.
Definition w_positions : bytes := sa ++ term_positions_image index g ++ sz.
Definition w_entry : YAP_V2_TERM_ENTRY := group_entry index (zlen pa - 32) (zlen sa - 32) g.
Context (Hpz : zlen w_postings < 2 ^ 32) (Hsz : zlen w_positions < 2 ^ 32).

Definition objects : list (list YAP_V2_LEXICAL_OCCURRENCE) := runs same_object g.

Lemma objects_concat : concat objects = g.
Proof. apply runs_concat. Qed.

Lemma objects_count : 0 < zlen objects <= zlen g.
Proof using All.
  split; [|rewrite <- objects_concat; apply zlen_concat_nonempty, runs_nonempty].
  destruct (Z.le_gt_cases (zlen objects) 0); [|done]. pose proof (gr_nonempty _ _ _ _ Hg) as Hne. rewrite <- objects_concat in Hne.
  destruct objects; [done|]. rewrite zlen_cons in *. pose_zlen. lia.
Qed.

Lemma object_in i o : objects !! i = Some o -> object_ok documents passages count o /\ zlen o < 2 ^ 28.
Proof using All.
  intros Hi. split; [by eapply (Forall_lookup_1 _ _ _ _ (gr_objects _ _ _ _ Hg))|].
  assert (zlen o <= zlen g); [|lia]. rewrite <- objects_concat. apply list_elem_of_lookup_2, list_elem_of_split in Hi as (l1&l2&->).
  rewrite concat_app, zlen_app. cbn [concat]. rewrite zlen_app. pose_zlen. lia.
Qed.

(** The offset of the positions of an object. *)
Definition object_offset (i : nat) : Z := zlen (concat (take i objects)).

Lemma object_offset_le i o : objects !! i = Some o -> 0 <= object_offset i /\ object_offset i + zlen o <= zlen g.
Proof.
  intros Hi. unfold object_offset. split; [apply zlen_nonneg|]. pose proof objects_concat as Hc. rewrite <- (take_drop_middle _ _ _ Hi), concat_app in Hc.
  cbn [concat] in Hc. rewrite <- Hc. clear. rewrite !zlen_app. pose_zlen. lia.
Qed.

Lemma object_posting_fields i o : objects !! i = Some o -> posting_fields (object_posting (object_offset i) o).
Proof using All.
  intros Hi. destruct (object_in i o Hi) as [Hok Hz]. destruct (object_counted documents passages count o Hok Hz Hcount) as [[H1 H2] _ _ _ [U1 U2]].
  pose proof (object_offset_le i o Hi) as [Ho Ho']. pose proof (first_of_in o (ob_nonempty _ _ _ _ Hok)) as Hin.
  pose proof (proj1 (Forall_forall _ _) (ob_each _ _ _ _ Hok) _ Hin) as [_ Hob _ _].
  unfold YAP_V2_LEXICAL_DOCUMENT, YAP_V2_LEXICAL_PASSAGE in *. pose proof (zlen_nonneg o).
  split; [|done|done]. cbn. unfold is_u32, is_u64. lia.
Qed.

Definition w_head : bytes := put_u64_le index ++ put_u64_le (zlen objects) ++ put_u32_le ((zlen objects + 127) / 128).

Lemma postings_split : w_postings =
  (pa ++ w_head) ++ concat (posting_image <$> object_postings 0 objects) ++ (concat (block_image <$> term_blocks objects) ++ pz).
Proof using All. unfold w_postings, term_postings_image, w_head. cbv zeta. fold objects. by rewrite <- !(assoc_L (++)). Qed.

Lemma posting_written i o : objects !! i = Some o -> post w_postings (zlen pa) (Z.of_nat i) = object_posting (object_offset i) o.
Proof using All.
  intros Hi. pose proof (object_postings_lookup objects 0 i o Hi) as Hp. rewrite Z.add_0_l in Hp. fold (object_offset i) in Hp.
  destruct (array_split posting_image 48 _ i _ zlen_posting_image Hp) as (a&c&E&Ha). unfold post. rewrite postings_split, E.
  replace (zlen pa + 20 + Z.of_nat i * POSTING_BYTES) with (zlen ((pa ++ w_head) ++ a)).
  - rewrite <- (assoc_L (++) a), (assoc_L (++) (pa ++ w_head)), <- (assoc_L (++) (posting_image _)). apply posting_at_image. by apply object_posting_fields.
  - rewrite !zlen_app, Ha. unfold POSTING_BYTES. change (zlen w_head) with 20. lia.
Qed.

Lemma posting_index i : 0 <= i < zlen objects -> exists o, objects !! Z.to_nat i = Some o /\
  post w_postings (zlen pa) i = object_posting (object_offset (Z.to_nat i)) o.
Proof using All.
  intros Hi. destruct (lookup_lt_is_Some_2 objects (Z.to_nat i)) as [o Ho]; [unfold zlen in *; lia|]. exists o. split; [done|].
  rewrite <- (Z2Nat.id i) at 1 by lia. by apply posting_written.
Qed.

(** The positions of an object. *)
Lemma positions_written i o : objects !! i = Some o ->
  posting_positions w_positions (zlen sa) (object_posting (object_offset i) o) = position_of <$> o.
Proof using All.
  intros Hi. unfold posting_positions. cbn [position_offset position_count object_posting]. apply list_eq. intros k.
  destruct (decide (k < length o)%nat) as [Hk|Hk].
  - destruct (lookup_lt_is_Some_2 o k Hk) as [x Hx]. rewrite !list_lookup_fmap, Hx, lookup_seqZ_lt by (unfold zlen; lia). cbn [fmap option_fmap option_map]. f_equal.
    assert (g !! (Z.to_nat (object_offset i) + k)%nat = Some x) as Hgx.
    { rewrite <- objects_concat. rewrite <- (take_drop_middle _ _ _ Hi), concat_app. unfold object_offset, zlen. rewrite Nat2Z.id.
      rewrite lookup_app_r by lia. cbn [concat]. replace (_ + k - _)%nat with k by lia. by rewrite lookup_app_l. }
    destruct (array_split position_image 8 g _ x zlen_position_image Hgx) as (a&c&E&Ha).
    assert (w_positions = (sa ++ put_u64_le index ++ put_u64_le (zlen g) ++ a) ++ position_image x ++ (c ++ sz)) as ->.
    { unfold w_positions, term_positions_image. rewrite E. by rewrite <- !(assoc_L (++)). }
    pose proof (object_offset_le i o Hi) as [Ho _].
    replace (zlen sa + 16 + _) with (zlen (sa ++ put_u64_le index ++ put_u64_le (zlen g) ++ a)) by (rewrite !zlen_app, Ha, !zlen_put_u64_le; lia).
    destruct (object_in i o Hi) as [Hok _]. pose proof (Forall_lookup_1 _ _ _ _ (ob_each _ _ _ _ Hok) Hx) as [_ _ Hf [Hp Hc]].
    apply position_at_image; unfold is_u32; lia.
  - rewrite !list_lookup_fmap, (lookup_ge_None_2 o) by lia. by rewrite lookup_seqZ_ge by (unfold zlen; lia).
Qed.

Lemma posting_written_ok i : 0 <= i < zlen objects -> posting_ok (zlen g) w_positions (zlen sa) (post w_postings (zlen pa) i) /\
  ~ wraps (post w_postings (zlen pa) i) /\ posting_shape counts (post w_postings (zlen pa) i) /\
  length (term_frequency (post w_postings (zlen pa) i)) = 3%nat.
Proof using All.
  intros Hi. destruct (posting_index i Hi) as (o&Ho&->). destruct (object_in _ o Ho) as [Hok Hz]. pose proof (object_offset_le _ o Ho) as [H0 H1].
  split_and!.
  - split; [done|]. rewrite positions_written by done. by apply (object_positions_ok documents passages count).
  - unfold wraps. cbn [position_offset position_count object_posting]. lia.
  - destruct (object_posting_shape documents passages count (object_offset (Z.to_nat i)) o Hok Hz Hcount) as [HS HC].
    cbn [count_documents count_passages] in HS. rewrite <- Hdocs, <- Hpass in HS. by split.
  - apply (object_counted documents passages count o Hok Hz Hcount).
Qed.

Lemma posting_written_lt i : 0 < i < zlen objects -> posting_lt (post w_postings (zlen pa) (i - 1)) (post w_postings (zlen pa) i).
Proof using All.
  intros Hi. destruct (posting_index (i - 1)) as (o&Ho&->); [lia|]. destruct (posting_index i) as (o'&Ho'&->); [lia|].
  assert (object_lt o o') as HL.
  { pose proof (gr_sorted _ _ _ _ Hg) as HS. fold objects in HS. rewrite <- (take_drop_middle _ _ _ Ho') in HS.
    eapply StronglySorted_app_1_elem_of; [exact HS| |by left]. apply (list_elem_of_lookup_2 _ (Z.to_nat (i - 1))). rewrite lookup_take_lt by lia. done. }
  unfold object_lt, object_compare, lex, object_of in HL. unfold posting_lt. cbn [fst snd object_type object_ordinal object_posting] in *.
  destruct (Z.compare_spec (occ_object_type (first_of o)) (occ_object_type (first_of o'))); [|lia|done].
  right. split; [done|]. by apply Z.compare_lt_iff.
Qed.

Lemma group_each : Forall (occurrence_wf documents passages count) g.
Proof using All.
  rewrite <- objects_concat. apply Forall_concat. eapply Forall_impl; [exact (gr_objects _ _ _ _ Hg)|]. by intros o [].
Qed.

(** The blocks. *)
Definition block_objects (b : nat) : list (list YAP_V2_LEXICAL_OCCURRENCE) := take 128 (drop (128 * b) objects).

Lemma block_objects_in b o : o ∈ block_objects b -> object_ok documents passages count o /\ zlen o < 2 ^ 28.
Proof using All.
  intros [i Hi]%list_elem_of_lookup. unfold block_objects in Hi. apply lookup_take_Some in Hi as [Hi _]. rewrite lookup_drop in Hi. by eapply object_in.
Qed.

Lemma object_minimum o : object_ok documents passages count o -> 0 <= min_occurrence_length o < 2 ^ 28.
Proof using All.
  intros Hok. rewrite min_occurrence_eq. split.
  - apply foldl_min_iff. split; [done|]. intros x Hx. destruct (proj1 (Forall_forall _ _) (ob_each _ _ _ _ Hok) x Hx) as [_ _ _ [? _]]. lia.
  - destruct (Z.lt_ge_cases (foldl (fun m x => Z.min m (occ_field_length x)) UINT32_MAX o) (2 ^ 28)) as [|H]; [done|]. exfalso.
    apply foldl_min_iff in H as [_ H]. pose proof (first_of_in o (ob_nonempty _ _ _ _ Hok)) as Hin. specialize (H _ Hin).
    destruct (proj1 (Forall_forall _ _) (ob_each _ _ _ _ Hok) _ Hin) as [_ _ _ [_ ?]]. lia.
Qed.

Lemma block_minimum b : block_objects b <> [] ->
  0 <= foldl (fun m o => Z.min m (min_occurrence_length o)) UINT32_MAX (block_objects b) < 2 ^ 28.
Proof using All.
  intros Hne. split.
  - apply foldl_min_iff. split; [done|]. intros o [Hok _]%block_objects_in. by apply object_minimum.
  - destruct (Z.lt_ge_cases (foldl (fun m o => Z.min m (min_occurrence_length o)) UINT32_MAX (block_objects b)) (2 ^ 28)) as [|H]; [done|]. exfalso.
    apply foldl_min_iff in H as [_ H]. destruct (block_objects b) as [|o l] eqn:E; [done|].
    assert (o ∈ block_objects b) as Ho by (rewrite E; by left). specialize (H o ltac:(by left)). apply block_objects_in in Ho as [Hok _].
    pose proof (object_minimum o Hok). lia.
Qed.

Definition block_written (b : nat) : YAP_V2_POSTINGS_BLOCK :=
  PostingsBlock (128 * Z.of_nat b) (zlen (block_objects b)) (foldl (fun m o => Z.max m (zlen o)) 0 (block_objects b))
    (foldl (fun m o => Z.min m (min_occurrence_length o)) UINT32_MAX (block_objects b)).

Lemma block_objects_count b : (128 * b < length objects)%nat -> 1 <= zlen (block_objects b) <= 128 /\ 128 * Z.of_nat b + zlen (block_objects b) <= zlen objects.
Proof using All. intros Hb. unfold block_objects, zlen. rewrite length_take, length_drop. lia. Qed.

Lemma block_written_at b : (128 * b < length objects)%nat -> blk w_postings (zlen pa) (zlen objects) (Z.of_nat b) = block_written b.
Proof using All.
  intros Hb. pose proof (block_objects_count b Hb) as [Hc He]. pose proof objects_count as Hdf.
  assert (block_objects b <> []) as Hne by (intros E; rewrite E in Hc; change (zlen []) with 0 in Hc; lia).
  assert (term_blocks objects !! b = Some (block_written b)) as HB.
  { unfold term_blocks. rewrite chunk_blocks_lookup by done. rewrite Z.add_0_l. fold (block_objects b). unfold chunk_block, block_written. cbv zeta.
    pose proof (block_minimum b Hne) as Hm. set (m := foldl _ UINT32_MAX (block_objects b)) in *. clearbody m.
    rewrite (proj2 (Z.eqb_neq m UINT32_MAX)) by (unfold UINT32_MAX; lia). done. }
  destruct (array_split block_image 16 _ b _ zlen_block_image HB) as (a&c&E&Ha). unfold blk. rewrite postings_split, E.
  assert (zlen (object_postings 0 objects) = zlen objects) as Hl by (unfold zlen; by rewrite length_object_postings).
  replace (zlen pa + 20 + zlen objects * POSTING_BYTES + Z.of_nat b * BLOCK_BYTES) with
    (zlen ((pa ++ w_head) ++ concat (posting_image <$> object_postings 0 objects) ++ a)).
  - assert (forall p q x y z : bytes, p ++ q ++ (x ++ y ++ z) ++ pz = (p ++ q ++ x) ++ y ++ (z ++ pz)) as Eq by (intros; by rewrite <- !(assoc_L (++))).
    rewrite Eq. apply block_at_image. split. cbn [first_posting posting_count max_term_frequency min_field_length block_written]. unfold is_u32. pose proof (block_minimum b Hne).
    pose proof (foldl_max_le (fun o : list YAP_V2_LEXICAL_OCCURRENCE => zlen o) (block_objects b) 0 (2 ^ 28) ltac:(lia)) as Hm.
    assert (Forall (fun o => zlen o <= 2 ^ 28) (block_objects b)) as HF by (apply Forall_forall; intros o [_ ?]%block_objects_in; lia).
    specialize (Hm HF). cbv beta in Hm. lia.
  - rewrite !zlen_app, Ha, (zlen_array posting_image 48), Hl by apply zlen_posting_image. unfold POSTING_BYTES, BLOCK_BYTES. change (zlen w_head) with 20. lia.
Qed.

Lemma block_postings b : (128 * b < length objects)%nat ->
  let ps := post w_postings (zlen pa) <$> seqZ (128 * Z.of_nat b) (zlen (block_objects b)) in
  ((fun p => u32 (tf_total p)) <$> ps) = ((fun o => zlen o) <$> block_objects b) /\ (shortest_field <$> ps) = (min_occurrence_length <$> block_objects b).
Proof using All.
  intros Hb ps. assert (forall k o, block_objects b !! k = Some o -> ps !! k = Some (object_posting (object_offset (128 * b + k)) o)) as HL.
  { intros k o Hk. pose proof (lookup_lt_Some _ _ _ Hk) as Hlt. unfold ps. rewrite list_lookup_fmap, lookup_seqZ_lt by (unfold zlen; lia). cbn [fmap option_fmap option_map]. f_equal.
    unfold block_objects in Hk. apply lookup_take_Some in Hk as [Hk _]. rewrite lookup_drop in Hk. rewrite <- (posting_written _ _ Hk). f_equal. lia. }
  assert (length ps = length (block_objects b)) as Hlen.
  { unfold ps. rewrite length_fmap, length_seqZ. unfold zlen. lia. }
  assert (forall {X} (f : YAP_V2_POSTING -> X) (h : list YAP_V2_LEXICAL_OCCURRENCE -> X),
    (forall k o, block_objects b !! k = Some o -> f (object_posting (object_offset (128 * b + k)) o) = h o) -> f <$> ps = h <$> block_objects b) as HG.
  { intros X f h Hfh. apply list_eq. intros k. rewrite !list_lookup_fmap. destruct (block_objects b !! k) as [o|] eqn:Ek.
    - rewrite (HL k o Ek). cbn [fmap option_fmap option_map]. f_equal. by apply Hfh.
    - rewrite lookup_ge_None_2; [done|]. rewrite Hlen. by apply lookup_ge_None_1. }
  split; apply HG; intros k o Hk; apply list_elem_of_lookup_2, block_objects_in in Hk as [Hok Hz].
  - pose proof (object_counted documents passages count o Hok Hz Hcount) as [_ _ HT _ _]. unfold tf_total. cbn [term_frequency object_posting].
    fold (object_counters o). rewrite HT. pose proof (zlen_nonneg o). apply Z.mod_small. lia.
  - by apply (object_shortest documents passages count).
Qed.

Lemma block_written_ok b : 0 <= b < (zlen objects + 127) / 128 -> block_ok w_postings (zlen pa) (zlen objects) b.
Proof using All.
  intros Hb. assert (128 * Z.to_nat b < length objects)%nat as Hb'.
  { pose proof objects_count. unfold zlen in *. pose proof (Z.mul_div_le (Z.of_nat (length objects) + 127) 128 ltac:(lia)). lia. }
  pose proof (block_objects_count _ Hb') as [Hc He]. pose proof (block_written_at _ Hb') as EB. rewrite Z2Nat.id in EB by lia.
  destruct (block_postings _ Hb') as [E1 E2]. rewrite Z2Nat.id in E1, E2, He by lia.
  split; rewrite EB; unfold YAP_V2_POSTINGS_BLOCK_SIZE; cbn [first_posting posting_count max_term_frequency min_field_length block_written];
    rewrite ?Z2Nat.id by lia; [lia|done|done|].
  unfold block_summary. f_equal.
  - rewrite <- (foldl_fmap Z.max (fun p => u32 (tf_total p))), E1, foldl_fmap. done.
  - rewrite <- (foldl_fmap Z.min shortest_field), E2, foldl_fmap. done.
Qed.

Lemma zlen_term_positions : zlen (term_positions_image index g) = 16 + zlen g * 8.
Proof using All. apply zlen_positions_record. Qed.

Lemma zlen_term_postings : zlen (term_postings_image index g) = 20 + zlen objects * 48 + (zlen objects + 127) / 128 * 16.
Proof using All. apply zlen_postings_record. Qed.

Lemma term_written : entry_wf w_entry /\ term_words w_postings w_positions index w_entry /\ term_ok counts w_postings w_positions w_entry /\
  term_readable w_postings w_positions w_entry.
Proof using All.
  assert (posting_cursor_of w_entry = zlen pa) as Ep by (unfold posting_cursor_of, YAP_V2_FILE_HEADER_BYTES; cbn [postings_offset w_entry group_entry]; lia).
  assert (position_cursor_of w_entry = zlen sa) as Es by (unfold position_cursor_of, YAP_V2_FILE_HEADER_BYTES; cbn [positions_offset w_entry group_entry]; lia).
  assert (document_frequency w_entry = zlen objects) as Ed by done. pose proof objects_count as Hdf.
  assert (block_count_of w_entry = (zlen objects + 127) / 128) as Eb by (unfold block_count_of, YAP_V2_POSTINGS_BLOCK_SIZE; rewrite Ed; f_equal; lia).
  pose proof zlen_term_positions as Zs. pose proof zlen_term_postings as Zp.
  assert (record_count_of w_entry = zlen g) as Er.
  { unfold record_count_of. cbn [positions_bytes w_entry group_entry]. rewrite Zs, Z.add_simpl_l. by apply Z.div_mul. }
  assert (zlen w_postings = zlen pa + zlen (term_postings_image index g) + zlen pz) as Lp by (unfold w_postings; rewrite !zlen_app; lia).
  assert (zlen w_positions = zlen sa + zlen (term_positions_image index g) + zlen sz) as Ls by (unfold w_positions; rewrite !zlen_app; lia).
  assert (0 <= (zlen objects + 127) / 128 < 2 ^ 28) as Hbc by (split; [apply Z.div_pos; lia|apply Z.div_lt_upper_bound; lia]).
  pose proof (zlen_nonneg pz). pose proof (zlen_nonneg sz).
  split_and!.
  - split.
    + cbn [term w_entry group_entry]. eexists. split; [done|]. pose proof (first_of_in g (gr_nonempty _ _ _ _ Hg)) as Hin.
      destruct (proj1 (Forall_forall _ _) group_each _ Hin) as [[Hb Hl] _ _ _]. split_and!; [|done|unfold is_u32, UINT32_MAX in *; lia].
      intros E. rewrite E in Hl. change (zlen []) with 0 in Hl. lia.
    + rewrite Ed. lia.
    + cbn [postings_offset postings_bytes positions_offset positions_bytes w_entry group_entry]. unfold is_u64. lia.
  - split; rewrite ?Ep, ?Es, ?Ed, ?Eb, ?Er.
    + unfold w_postings, w_positions, term_postings_image, term_positions_image. cbv zeta. rewrite <- (Z.add_0_r (zlen pa)), <- (Z.add_0_r (zlen sa)).
      rewrite !u64_at_app by lia. rewrite <- !(assoc_L (++)). find_word. done.
    + unfold w_postings, term_postings_image. cbv zeta. fold objects. assert (is_u64 (zlen objects)) by (unfold is_u64; lia).
      rewrite !u64_at_app by lia. rewrite <- !(assoc_L (++)). find_word. done.
    + unfold w_postings, term_postings_image. cbv zeta. fold objects. assert (is_u32 ((zlen objects + 127) / 128)) by (unfold is_u32; lia).
      rewrite !u32_at_app by lia. rewrite <- !(assoc_L (++)). find_word. done.
    + unfold w_positions, term_positions_image. assert (is_u64 (zlen g)) by (unfold is_u64; lia).
      rewrite !u64_at_app by lia. rewrite <- !(assoc_L (++)). find_word. done.
  - split; rewrite ?Ep, ?Es, ?Ed, ?Eb, ?Er; unfold posting_of; rewrite ?Ep.
    + cbn [postings_bytes positions_bytes w_entry group_entry]. unfold POSTING_BYTES, BLOCK_BYTES. lia.
    + unfold POSTING_BYTES, BLOCK_BYTES. lia.
    + lia.
    + intros i Hi. by apply posting_written_ok.
    + intros i Hi _. by apply posting_written_ok.
    + intros i Hi. by apply posting_written_lt.
    + intros b Hb. by apply block_written_ok.
  - intros i Hi. unfold posting_of. rewrite Ep. rewrite Ed in Hi. by destruct (posting_written_ok i Hi) as (_&?&_&?).
Qed.

(** Reading the term gives back its occurrences. *)
Lemma object_read s i o : positions_map s = w_positions -> objects !! i = Some o ->
  read_posting s w_entry (object_posting (object_offset i) o) = o.
Proof using All.
  intros Es Hi. destruct (object_in i o Hi) as [Hok Hz]. pose proof (object_counted documents passages count o Hok Hz Hcount) as [_ _ _ HL _].
  unfold read_posting, positions_of. rewrite Es.
  assert (position_cursor_of w_entry = zlen sa) as -> by (unfold position_cursor_of, YAP_V2_FILE_HEADER_BYTES; cbn [positions_offset w_entry group_entry]; lia).
  rewrite positions_written, <- list_fmap_compose by done. apply list_eq. intros k. rewrite list_lookup_fmap. destruct (o !! k) as [x|] eqn:Ex; [|done].
  cbn [fmap option_fmap option_map]. f_equal. apply list_elem_of_lookup_2 in Ex as Hx.
  unfold compose. cbn [field position position_of object_type object_ordinal field_length object_posting]. fold (object_counters o). rewrite HL by done.
  pose proof (proj1 (Forall_forall _ _) (ob_same _ _ _ _ Hok) x Hx) as Eo. unfold object_of in Eo. injection Eo as <- <-.
  assert (x ∈ g) as Hxg by (rewrite <- objects_concat; eapply in_concat; [by eapply list_elem_of_lookup_2|done]).
  unfold term_bytes. cbn [term w_entry group_entry]. rewrite view_bytes_mk, <- (proj1 (Forall_forall _ _) (gr_term _ _ _ _ Hg) x Hxg). by destruct x.
Qed.

Lemma term_read s : postings_map s = w_postings -> positions_map s = w_positions -> concat (read_posting s w_entry <$> postings_of s w_entry) = g.
Proof using All.
  intros Ep Es. transitivity (concat objects); [f_equal|apply objects_concat]. unfold postings_of. rewrite Ep. change (document_frequency w_entry) with (zlen objects).
  rewrite <- list_fmap_compose. apply list_eq. intros k. rewrite list_lookup_fmap. destruct (objects !! k) as [o|] eqn:Ek.
  - pose proof (lookup_lt_Some _ _ _ Ek). rewrite lookup_seqZ_lt by (unfold zlen; lia). cbn [fmap option_fmap option_map]. f_equal.
    unfold compose, posting_of.
    assert (posting_cursor_of w_entry = zlen pa) as -> by (unfold posting_cursor_of, YAP_V2_FILE_HEADER_BYTES; cbn [postings_offset w_entry group_entry]; lia).
    rewrite Z.add_0_l, (posting_written k o Ek). by apply object_read.
  - apply lookup_ge_None_1 in Ek. by rewrite lookup_seqZ_ge by (unfold zlen; lia).
Qed.
End written.

(** ** All terms *)
Section all.
Context (documents passages count : Z) (counts : lexical_counts) (postings positions : bytes).
Context (Hcount : count < 2 ^ 28) (Hdocs : count_documents counts = documents) (Hpass : count_passages counts = passages).
Context (Hdu : documents < 2 ^ 63) (Hpu : passages < 2 ^ 63).
Context (Hpo : bytes_ok postings) (Hso : bytes_ok positions) (Hpz : zlen postings < 2 ^ 32) (Hsz : zlen positions < 2 ^ 32).

Definition all_read (entries : list YAP_V2_TERM_ENTRY) (groups : list (list YAP_V2_LEXICAL_OCCURRENCE)) : Prop :=
  forall s, postings_map s = postings -> positions_map s = positions ->
  (fun t => concat (read_posting s t <$> postings_of s t)) <$> entries = groups.

Lemma check_terms_written groups : Forall (group_ok documents passages count) groups -> zlen (concat groups) < 2 ^ 28 ->
  forall index pa sa cp cs, 0 <= index -> index + zlen groups < 2 ^ 64 -> 32 <= zlen pa -> 32 <= zlen sa ->
  0 <= cp -> cp + zlen (concat groups) < 2 ^ 63 -> 0 <= cs -> cs + zlen (concat groups) < 2 ^ 63 ->
  postings = pa ++ images_from term_postings_image index groups -> positions = sa ++ images_from term_positions_image index groups ->
  let entries := group_entries index (zlen pa - 32) (zlen sa - 32) groups in
  check_terms counts postings positions entries index (zlen pa) (zlen sa) cp cs =
    Ok (zlen postings, zlen positions, cp + posting_total groups, cs + zlen (concat groups)) /\
  Forall entry_wf entries /\ Forall (term_ok counts postings positions) entries /\ all_read entries groups /\
  Forall (term_readable postings positions) entries.
Proof using All.
  induction 1 as [|g groups Hg HF IH]; intros Hz index pa sa cp cs Hi Hi' Hpa Hsa Hcp Hcp' Hcs Hcs' Ep Es entries.
  - cbn [images_from] in Ep, Es. rewrite app_nil_r in Ep, Es. rewrite Ep, Es. cbn. change (zlen []) with 0. rewrite !Z.add_0_r. split_and!; done.
  - cbn [concat images_from] in *. rewrite zlen_app in *. rewrite zlen_cons in Hi'. pose proof (zlen_nonneg groups). pose proof (zlen_nonneg g). pose proof (zlen_nonneg (concat groups)).
    set (pz := images_from term_postings_image (index + 1) groups) in *. set (sz := images_from term_positions_image (index + 1) groups) in *.
    assert (is_u64 index) as Hiu by (unfold is_u64; lia).
    destruct (term_written documents passages count index counts g pa pz sa sz Hg ltac:(lia) Hcount Hiu Hdocs Hpass Hdu Hpu Hpa Hsa
      ltac:(unfold w_postings; by rewrite <- Ep) ltac:(unfold w_positions; by rewrite <- Es)) as (HE&HW&HO&HR).
    unfold w_postings, w_positions in *. rewrite <- Ep, <- Es in HW, HO, HR. set (t := w_entry index g pa sa) in *.
    change entries with (t :: group_entries (index + 1) (zlen pa - 32 + zlen (term_postings_image index g)) (zlen sa - 32 + zlen (term_positions_image index g)) groups).
    clear entries.
    assert (posting_cursor_of t = zlen pa) as Cp by (unfold posting_cursor_of, YAP_V2_FILE_HEADER_BYTES; cbn [postings_offset t w_entry group_entry]; lia).
    assert (position_cursor_of t = zlen sa) as Cs by (unfold position_cursor_of, YAP_V2_FILE_HEADER_BYTES; cbn [positions_offset t w_entry group_entry]; lia).
    pose proof (check_term_complete counts postings positions index t Hpo Hso Hpz Hsz HE HW HO HR) as HT. rewrite Cp, Cs in HT.
    cbn [check_terms]. rewrite HT, outcome_bind_ok.
    assert (record_count_of t = zlen g) as ->.
    { unfold record_count_of. cbn [positions_bytes t w_entry group_entry].
      unfold term_positions_image. rewrite !zlen_app, (zlen_array position_image 8), !zlen_put_u64_le by apply zlen_position_image.
      replace (8 + (8 + zlen g * 8) - 16) with (zlen g * 8) by lia. by apply Z.div_mul. }
    change (postings_bytes t) with (zlen (term_postings_image index g)). change (positions_bytes t) with (zlen (term_positions_image index g)).
    change (document_frequency t) with (zlen (runs same_object g)).
    assert (0 <= zlen (runs same_object g) <= zlen g) as Hdf.
    { split; [apply zlen_nonneg|]. rewrite <- (runs_concat same_object g) at 2. apply zlen_concat_nonempty, runs_nonempty. }
    assert (zlen postings = zlen pa + zlen (term_postings_image index g) + zlen pz) as Lp by (rewrite Ep at 1; rewrite !zlen_app; lia).
    assert (zlen positions = zlen sa + zlen (term_positions_image index g) + zlen sz) as Ls by (rewrite Es at 1; rewrite !zlen_app; lia).
    pose proof (zlen_nonneg pz). pose proof (zlen_nonneg sz). pose proof (zlen_nonneg (term_postings_image index g)). pose proof (zlen_nonneg (term_positions_image index g)).
    rewrite !u64_small by lia.
    destruct (IH ltac:(lia) (index + 1) (pa ++ term_postings_image index g) (sa ++ term_positions_image index g) (cp + zlen (runs same_object g)) (cs + zlen g))
      as (HC&HEs&HOs&HRs&HRb); try lia; rewrite ?zlen_app; try lia; [by rewrite <- (assoc_L (++))|by rewrite <- (assoc_L (++))|].
    rewrite !zlen_app in HC, HEs, HOs, HRs, HRb.
    replace (zlen pa + zlen (term_postings_image index g) - 32) with (zlen pa - 32 + zlen (term_postings_image index g)) in HC, HEs, HOs, HRs, HRb by lia.
    replace (zlen sa + zlen (term_positions_image index g) - 32) with (zlen sa - 32 + zlen (term_positions_image index g)) in HC, HEs, HOs, HRs, HRb by lia.
    split_and!; [|by constructor|by constructor| |by constructor].
    + rewrite HC. cbn [posting_total foldr]. fold (posting_total groups). by rewrite !Z.add_assoc.
    + intros s E1 E2. cbn [fmap list_fmap]. f_equal; [|by apply HRs].
      apply (term_read documents passages count index counts g pa pz sa sz); try done; try lia; unfold w_postings, w_positions; congruence.
Qed.
End all.

(** ** The files *)
Lemma zlen_entry_image t : entry_wf t -> zlen (entry_image t) = 44 + zlen (term_bytes t).
Proof. intros Ht. unfold entry_image, term_bytes. rewrite !zlen_app, !zlen_put_u64_le, zlen_put_u32_le. lia. Qed.

Lemma entry_read t a c data : entry_wf t -> data = a ++ entry_image t ++ c ->
  u32_at data (zlen a) = zlen (term_bytes t) /\ slice data (zlen a + 4) (zlen (term_bytes t)) = term_bytes t /\
  let p := zlen a + 4 + zlen (term_bytes t) in
  u64_at data p = document_frequency t /\ u64_at data (p + 8) = postings_offset t /\ u64_at data (p + 16) = postings_bytes t /\
  u64_at data (p + 24) = positions_offset t /\ u64_at data (p + 32) = positions_bytes t.
Proof.
  intros [(bs&Et&Hne&Hok&Hl) Hdf (H1&H2&H3&H4)] ->. unfold term_bytes, entry_image. rewrite Et, view_bytes_mk. cbn [len mk_view].
  assert (is_u64 (document_frequency t)) as Hd by (unfold is_u64; lia). split; [|split].
  - rewrite <- (Z.add_0_r (zlen a)), u32_at_app by lia. rewrite <- !(assoc_L (++)). by rewrite u32_at_word.
  - rewrite <- !(assoc_L (++)), (assoc_L (++) a). apply slice_app_mid; [rewrite zlen_app, zlen_put_u32_le; lia|done].
  - cbv zeta. rewrite <- !(assoc_L (++)), (assoc_L (++) (put_u32_le _)), (assoc_L (++) a).
    replace (zlen a + 4 + zlen bs) with (zlen (a ++ put_u32_le (zlen bs) ++ bs)) by (rewrite !zlen_app, zlen_put_u32_le; lia).
    set (b := a ++ put_u32_le (zlen bs) ++ bs). rewrite <- (Z.add_0_r (zlen b)) at 1. rewrite !u64_at_app by lia. find_word. done.
Qed.

Lemma read_terms_written data : bytes_ok data -> zlen data < 2 ^ 32 -> forall entries prev a, Forall entry_wf entries ->
  StronglySorted term_lt (option_list prev ++ entries) -> (forall p, prev = Some p -> entry_wf p) ->
  data = a ++ concat (entry_image <$> entries) -> read_terms data (length entries) prev (zlen a) = Ok (entries, zlen data).
Proof.
  intros Hok Hz entries. induction entries as [|t entries IH]; intros prev a HE HS Hprev Ed; cbn [length read_terms].
  { cbn in Ed. rewrite app_nil_r in Ed. by rewrite Ed. }
  cbn [fmap list_fmap concat] in Ed. inversion HE as [|? ? Ht HE']; subst x l. destruct (entry_read t a _ data Ht Ed) as (R1&R2&R3&R4&R5&R6&R7).
  pose proof (zlen_entry_image t Ht) as Hzt. pose proof (entry_view t Ht) as Hv.
  assert (zlen data = zlen a + zlen (entry_image t) + zlen (concat (entry_image <$> entries))) as Hzd by (rewrite Ed at 1; rewrite !zlen_app; lia).
  pose proof (zlen_nonneg a). pose proof (zlen_nonneg (concat (entry_image <$> entries))).
  assert (0 < zlen (term_bytes t) /\ zlen (term_bytes t) < 2 ^ 32) as [Ht0 Ht1].
  { destruct Ht as [(bs&Et&Hne&_&Hl) _ _]. unfold term_bytes. rewrite Et, view_bytes_mk. unfold is_u32 in Hl. destruct bs; [done|]. rewrite zlen_cons in *. pose_zlen. lia. }
  set (n := zlen (term_bytes t)) in *. unfold range_valid.
  rewrite !(proj2 (Z.leb_le (zlen a) _)), (proj2 (Z.leb_le 4 _)) by lia. cbn [andb negb]. read_at Hok. rewrite R1. cbv zeta.
  rewrite (u64_small (zlen a + 4)) by lia. rewrite (proj2 (Z.eqb_neq n 0)), (proj2 (Z.leb_le (zlen a + 4) _)), (proj2 (Z.leb_le (n + 40) _)) by lia. cbn [orb andb negb].
  rewrite load_bytes_slice, outcome_bind_ok, R2 by lia. rewrite (u64_small (zlen a + 4 + n)) by lia. do 5 read_at Hok. rewrite R3, R4, R5, R6, R7.
  rewrite (u64_small (zlen a + 4 + n + 40)) by lia.
  assert (BytesView (Some (term_bytes t)) n = term t) as Evt.
  { destruct Ht as [(bs&Et&_) _ _]. unfold n, term_bytes. rewrite Et, view_bytes_mk. done. }
  rewrite Evt. replace (TermEntry (term t) _ _ _ _ _) with t by (by destruct t).
  rewrite (proj2 (Z.eqb_neq (document_frequency t) 0)) by (destruct Ht; lia). cbn [orb].
  assert (match prev with Some p => match term_compare (term p) (term t) with Lt => false | _ => true end | None => false end = false) as ->.
  { destruct prev as [p|]; [|done]. rewrite term_compare_spec; [|by apply (entry_view p), Hprev|by apply (entry_view t)].
    cbn [option_list app] in HS. apply StronglySorted_inv in HS as [_ HF]. inversion HF as [|? ? HL _]; subst. unfold term_lt, term_bytes in HL. by rewrite HL. }
  replace (zlen a + 4 + n + 40) with (zlen (a ++ entry_image t)) by (rewrite zlen_app; lia).
  rewrite (IH (Some t) (a ++ entry_image t)); [done|done| |by intros ? [= <-]|by rewrite <- (assoc_L (++))].
  cbn [option_list app]. destruct prev; [by apply StronglySorted_inv in HS as [? _]|done].
Qed.

Lemma group_entries_length groups : forall index po so, length (group_entries index po so groups) = length groups.
Proof. induction groups as [|g groups IH]; intros; [done|]. cbn. by rewrite IH. Qed.

Lemma group_entries_terms groups : forall index po so, (fun t => term_bytes t) <$> group_entries index po so groups = (fun g => occ_term (first_of g)) <$> groups.
Proof.
  induction groups as [|g groups IH]; intros index po so; [done|]. cbn [group_entries fmap list_fmap]. rewrite IH. f_equal.
  unfold term_bytes. cbn [term group_entry]. apply view_bytes_mk.
Qed.

Lemma sorted_fmap_iff {X Y} (R : Y -> Y -> Prop) (f : X -> Y) l : StronglySorted (fun a b => R (f a) (f b)) l <-> StronglySorted R (f <$> l).
Proof.
  induction l as [|x l IH]; [split; constructor|]. rewrite fmap_cons, !StronglySorted_cons, IH, Forall_fmap. done.
Qed.

Lemma group_entries_sorted groups index po so : StronglySorted group_lt groups -> StronglySorted term_lt (group_entries index po so groups).
Proof.
  intros HS. apply (sorted_fmap_iff (fun a b => bytes_compare a b = Lt) term_bytes). rewrite group_entries_terms.
  apply (sorted_fmap_iff (fun a b => bytes_compare a b = Lt) (fun g => occ_term (first_of g))). exact HS.
Qed.

Lemma three_list (l : list Z) : length l = 3%nat -> [l !!! 0%nat; l !!! 1%nat; l !!! 2%nat] = l.
Proof. destruct l as [|a [|b [|c [|]]]]; done. Qed.
Lemma three_u64 (l : list Z) : length l = 3%nat -> Forall is_u64 l -> is_u64 (l !!! 0%nat) /\ is_u64 (l !!! 1%nat) /\ is_u64 (l !!! 2%nat).
Proof. destruct l as [|a [|b [|c [|]]]]; try done. intros _ H. rewrite !Forall_cons in H. cbn. tauto. Qed.

(** A payload behind a header of 32 bytes. *)
Section index_files.
Context (documents passages : Z) (totals : list Z) (items : list YAP_V2_LEXICAL_OCCURRENCE) (ht hp hs : bytes).
Context (Hwf : occurrences_wf documents passages items) (HS : StronglySorted occurrence_le items) (Hz : zlen items < 2 ^ 28).
Context (Hd : 0 <= documents < 2 ^ 63) (Hp : 0 <= passages < 2 ^ 63) (Ht3 : length totals = 3%nat) (Htu : Forall is_u64 totals).
Context (Eht : zlen ht = 32) (Ehp : zlen hp = 32) (Ehs : zlen hs = 32).

Definition f_groups : list (list YAP_V2_LEXICAL_OCCURRENCE) := runs same_term items.
Definition f_terms : bytes := ht ++ terms_image f_groups.
Definition f_postings : bytes := hp ++ postings_image documents passages totals f_groups.
Definition f_positions : bytes := hs ++ positions_image f_groups.
Definition f_entries : list YAP_V2_TERM_ENTRY := group_entries 0 56 12 f_groups.
Definition f_counts : lexical_counts := LexicalCounts documents passages (posting_total f_groups) (zlen items) totals.
Context (Hto : bytes_ok f_terms) (Hpo : bytes_ok f_postings) (Hso : bytes_ok f_positions).
Context (Htz : zlen f_terms < 2 ^ 32) (Hpz : zlen f_postings < 2 ^ 32) (Hsz : zlen f_positions < 2 ^ 32).

Lemma f_concat : concat f_groups = items.
Proof. apply runs_concat. Qed.

Lemma f_count : zlen f_groups <= zlen items.
Proof. rewrite <- f_concat. apply zlen_concat_nonempty, runs_nonempty. Qed.

Lemma posting_total_le groups : 0 <= posting_total groups <= zlen (concat groups).
Proof.
  induction groups as [|g groups IH]; [done|]. cbn [posting_total foldr concat]. fold (posting_total groups). rewrite zlen_app.
  assert (0 <= zlen (runs same_object g) <= zlen g); [|lia]. split; [apply zlen_nonneg|].
  rewrite <- (runs_concat same_object g) at 2. apply zlen_concat_nonempty, runs_nonempty.
Qed.

Lemma f_terms_read : check_terms f_counts f_postings f_positions f_entries 0 88 44 0 0 =
    Ok (zlen f_postings, zlen f_positions, posting_total f_groups, zlen items) /\
  Forall entry_wf f_entries /\ Forall (term_ok f_counts f_postings f_positions) f_entries /\ all_read f_postings f_positions f_entries f_groups /\
  Forall (term_readable f_postings f_positions) f_entries.
Proof using All.
  pose proof f_concat as Ec. pose proof f_count. pose proof (zlen_nonneg f_groups).
  set (hp' := hp ++ put_u32_le YAP_V2_LEXICAL_PAYLOAD_VERSION ++ put_u32_le YAP_V2_POSTINGS_BLOCK_SIZE ++ put_u64_le documents ++ put_u64_le passages ++
    put_u64_le (posting_total f_groups) ++ put_u64_le (totals !!! 0%nat) ++ put_u64_le (totals !!! 1%nat) ++ put_u64_le (totals !!! 2%nat)).
  set (hs' := hs ++ put_u32_le YAP_V2_LEXICAL_PAYLOAD_VERSION ++ put_u64_le (zlen (concat f_groups))).
  assert (zlen hp' = 88) as Lp by (unfold hp'; rewrite zlen_app, Ehp; done). assert (zlen hs' = 44) as Ls by (unfold hs'; rewrite zlen_app, Ehs; done).
  pose proof (check_terms_written documents passages (zlen items) f_counts f_postings f_positions Hz eq_refl eq_refl ltac:(lia) ltac:(lia) Hpo Hso Hpz Hsz
    f_groups (groups_ok documents passages items Hwf HS) ltac:(rewrite Ec; lia) 0 hp' hs' 0 0 ltac:(lia) ltac:(lia) ltac:(lia) ltac:(lia)
    ltac:(lia) ltac:(rewrite Ec; lia) ltac:(lia) ltac:(rewrite Ec; lia)) as HC.
  rewrite Lp, Ls, Ec in HC. apply HC.
  - unfold f_postings, postings_image, hp'. by rewrite <- !(assoc_L (++)).
  - unfold f_positions, positions_image, hs'. by rewrite <- !(assoc_L (++)).
Qed.

Lemma f_postings_words : let h := YAP_V2_FILE_HEADER_BYTES in 88 <= zlen f_postings /\
  u32_at f_postings h = 1 /\ u32_at f_postings (h + 4) = 128 /\ u64_at f_postings (h + 8) = documents /\ u64_at f_postings (h + 16) = passages /\
  u64_at f_postings (h + 24) = posting_total f_groups /\ u64_at f_postings (h + 32) = totals !!! 0%nat /\
  u64_at f_postings (h + 40) = totals !!! 1%nat /\ u64_at f_postings (h + 48) = totals !!! 2%nat.
Proof using All.
  cbv zeta. unfold YAP_V2_FILE_HEADER_BYTES. pose proof (posting_total_le f_groups) as Hpt. rewrite f_concat in Hpt.
  destruct (three_u64 totals Ht3 Htu) as (U0&U1&U2). assert (is_u64 (posting_total f_groups)) as Up by (unfold is_u64; lia).
  assert (is_u64 documents) as Ud by (unfold is_u64; lia). assert (is_u64 passages) as Uq by (unfold is_u64; lia).
  assert (is_u32 YAP_V2_LEXICAL_PAYLOAD_VERSION) as Uv by done. assert (is_u32 YAP_V2_POSTINGS_BLOCK_SIZE) as Ub by done.
  unfold f_postings, postings_image. split.
  - rewrite !zlen_app, !zlen_put_u32_le, !zlen_put_u64_le, Ehp. pose_zlen. lia.
  - pose proof (u32_at_app hp) as A32. pose proof (u64_at_app hp) as A64. rewrite Ehp in A32, A64. rewrite <- (Z.add_0_r 32) at 1.
    rewrite !A32, !A64 by lia. find_word. done.
Qed.

Lemma f_positions_words : let h := YAP_V2_FILE_HEADER_BYTES in 44 <= zlen f_positions /\ u32_at f_positions h = 1 /\ u64_at f_positions (h + 4) = zlen items.
Proof using All.
  cbv zeta. unfold YAP_V2_FILE_HEADER_BYTES. pose proof (zlen_nonneg items). assert (is_u64 (zlen items)) as U by (unfold is_u64; lia).
  assert (is_u32 YAP_V2_LEXICAL_PAYLOAD_VERSION) as Uv by done. unfold f_positions, positions_image. rewrite f_concat. split.
  - rewrite !zlen_app, zlen_put_u32_le, zlen_put_u64_le, Ehs. pose_zlen. lia.
  - pose proof (u32_at_app hs) as A32. pose proof (u64_at_app hs) as A64. rewrite Ehs in A32, A64. rewrite <- (Z.add_0_r 32) at 1.
    rewrite !A32, !A64 by lia. find_word. done.
Qed.

Lemma validate_payloads_written : validate_payloads f_postings f_positions f_entries = Ok f_counts.
Proof using All.
  destruct f_terms_read as (HC&_). destruct f_postings_words as (L1&W1&W2&W3&W4&W5&W6&W7&W8). destruct f_positions_words as (L2&V1&V2).
  unfold validate_payloads. cbv zeta. unfold YAP_V2_FILE_HEADER_BYTES in *. unfold range_valid.
  rewrite !(proj2 (Z.leb_le 32 _)), (proj2 (Z.leb_le 56 _)), (proj2 (Z.leb_le 12 _)) by lia. cbn [andb negb].
  repeat read_at Hpo. repeat read_at Hso. rewrite W1, W2, W3, W4, W5, W6, W7, W8, V1, V2.
  unfold YAP_V2_LEXICAL_PAYLOAD_VERSION, YAP_V2_POSTINGS_BLOCK_SIZE. rewrite !Z.eqb_refl. cbn [negb orb]. rewrite (three_list totals Ht3).
  change (LexicalCounts documents passages (posting_total f_groups) (zlen items) totals) with f_counts. change (32 + 56) with 88. change (32 + 12) with 44.
  rewrite HC, outcome_bind_ok, !Z.eqb_refl. done.
Qed.

Lemma f_terms_words : 44 <= zlen f_terms /\ u32_at f_terms 32 = 1 /\ u64_at f_terms (32 + 4) = zlen f_groups.
Proof using All.
  pose proof f_count. pose proof (zlen_nonneg f_groups). assert (is_u64 (zlen f_groups)) as U by (unfold is_u64; lia).
  assert (is_u32 YAP_V2_LEXICAL_PAYLOAD_VERSION) as Uv by done. unfold f_terms, terms_image. split.
  - rewrite !zlen_app, zlen_put_u32_le, zlen_put_u64_le, Eht. pose_zlen. lia.
  - pose proof (u32_at_app ht) as A32. pose proof (u64_at_app ht) as A64. rewrite Eht in A32, A64. rewrite <- (Z.add_0_r 32) at 1.
    rewrite !A32, !A64 by lia. find_word. done.
Qed.

(** A term takes at least 84 bytes of postings, so there are fewer terms than the reader allows. *)
Lemma postings_per_term groups : Forall (fun g => g <> []) groups -> forall index, 84 * zlen groups <= zlen (images_from term_postings_image index groups).
Proof.
  induction 1 as [|g groups Hg _ IH]; intros index; [done|]. cbn [images_from]. rewrite zlen_cons, zlen_app. specialize (IH (index + 1)).
  assert (84 <= zlen (term_postings_image index g)); [|lia]. unfold term_postings_image. cbv zeta.
  rewrite !zlen_app, (zlen_array posting_image 48), (zlen_array block_image 16), !zlen_put_u64_le, zlen_put_u32_le by (apply zlen_posting_image || apply zlen_block_image).
  rewrite term_blocks_count. set (objs := runs same_object g).
  assert (zlen (object_postings 0 objs) = zlen objs) as -> by (unfold zlen; by rewrite length_object_postings).
  assert (1 <= zlen objs) as H1.
  { destruct objs as [|o objs'] eqn:E; [|zl]. pose proof (runs_concat same_object g) as Hc. fold objs in Hc. by rewrite E in Hc. }
  pose proof (Z.div_le_mono 128 (zlen objs + 127) 128 ltac:(lia) ltac:(lia)) as Hd1. change (128 / 128) with 1 in Hd1. lia.
Qed.

Lemma validate_terms_written : zlen f_postings <= 32 + YAP_V2_MAX_SEGMENT_PAYLOAD_BYTES ->
  validate_term_stream (A := alloc_total) f_terms = Ok f_entries.
Proof using All.
  intros Hmax. destruct f_terms_read as (_&HE&_). pose proof (zlen_nonneg f_groups). destruct f_terms_words as (L&W1&W2).
  assert (zlen f_groups <= 3195660) as Hn.
  { pose proof (postings_per_term f_groups (runs_nonempty _ _) 0) as H84. unfold f_postings, postings_image, YAP_V2_MAX_SEGMENT_PAYLOAD_BYTES in Hmax.
    rewrite !zlen_app, !zlen_put_u32_le, !zlen_put_u64_le, Ehp in Hmax. lia. }
  unfold validate_term_stream, range_valid, YAP_V2_FILE_HEADER_BYTES, SIZE_MAX. cbv zeta.
  rewrite (proj2 (Z.leb_le 32 _)), (proj2 (Z.leb_le 12 _)) by lia. cbn [andb negb]. do 2 read_at Hto. rewrite W1, W2.
  unfold YAP_V2_LEXICAL_PAYLOAD_VERSION. rewrite Z.eqb_refl. cbn [negb].
  change (YAP_V2_MAX_SEGMENT_PAYLOAD_BYTES / sizeof_term_entry) with 4793490. rewrite !(proj2 (Z.ltb_ge _ (zlen f_groups))) by lia. cbn [orb].
  rewrite andb_false_r.
  set (a := ht ++ put_u32_le YAP_V2_LEXICAL_PAYLOAD_VERSION ++ put_u64_le (zlen f_groups)).
  assert (zlen a = 44) as Ha by (unfold a; rewrite zlen_app, Eht; done). change (32 + 12) with 44. rewrite <- Ha.
  assert (Z.to_nat (zlen f_groups) = length f_entries) as -> by (unfold f_entries, zlen; rewrite group_entries_length; lia).
  rewrite (read_terms_written f_terms Hto Htz f_entries None a HE).
  - by rewrite outcome_bind_ok, Z.eqb_refl.
  - cbn [option_list app]. by apply group_entries_sorted, groups_sorted.
  - done.
  - unfold f_terms, terms_image, a. fold f_entries. by rewrite <- !(assoc_L (++)).
Qed.
End index_files.

(** ** Opening written files *)
Lemma map_component_written p type g eg payload w : file_header_type_valid type = true -> is_u32 type -> is_u64 g -> g <> 0 -> eg = 0 \/ eg = g ->
  bytes_ok payload -> zlen payload <= YAP_V2_MAX_SEGMENT_PAYLOAD_BYTES -> script w = [] -> file_at w p = Some (file_image type g payload) ->
  map_component p type eg w = Done (Ok (file_image type g payload, g)) w.
Proof.
  intros Ht Htu Hg Hg0 Heg Hok Hz Hs Hf. unfold map_component, fopen_rb.
  erewrite bind_done by (rewrite bind_nil by done; rewrite Hf; reflexivity). unfold fstat, mmap, fclose_rb.
  rewrite bind_nil by done. cbn [negb orb]. pose proof (zlen_nonneg payload). rewrite zlen_file_image. unfold YAP_V2_FILE_HEADER_BYTES.
  rewrite (proj2 (Z.ltb_ge _ 32)), (proj2 (Z.ltb_ge _ (32 + zlen payload))) by lia. cbn [orb]. rewrite !bind_nil by done. cbn [negb orb].
  unfold io_ret. f_equal. unfold file_image. unfold YAP_V2_MAX_SEGMENT_PAYLOAD_BYTES in Hz.
  rewrite file_header_decode_image by (done || (apply file_header_valid; done || lia)). rewrite outcome_bind_ok.
  cbn [file_type payload_bytes generation payload_crc32c file_header]. replace (32 + zlen payload - 32) with (zlen payload) by lia.
  rewrite !Z.eqb_refl. cbn [negb orb]. assert (negb (eg =? 0) && negb (g =? eg) = false) as ->.
  { destruct Heg as [->| ->]; [done|]. by rewrite Z.eqb_refl, andb_false_r. }
  rewrite load_bytes_app_end, outcome_bind_ok by done. by rewrite Z.eqb_refl.
Qed.

Definition index_files (dir : bytes) (g : Z) (terms postings positions : bytes) (w : world) : Prop :=
  file_at w (dir ++ [SLASH] ++ TERMS_NAME) = Some (file_image YAP_V2_FILE_TERMS g terms) /\
  file_at w (dir ++ [SLASH] ++ POSTINGS_NAME) = Some (file_image YAP_V2_FILE_POSTINGS g postings) /\
  file_at w (dir ++ [SLASH] ++ POSITIONS_NAME) = Some (file_image YAP_V2_FILE_POSITIONS g positions).

Lemma images_ok image groups : (forall index g, bytes_ok (image index g)) -> forall index, bytes_ok (images_from image index groups).
Proof. intros H. induction groups as [|g groups IH]; intros index; [constructor|]. cbn [images_from]. by apply Forall_app_2. Qed.

Lemma concat_ok {X} (image : X -> bytes) (l : list X) : (forall x, bytes_ok (image x)) -> bytes_ok (concat (image <$> l)).
Proof. intros H. induction l as [|x l IH]; [constructor|]. cbn. by apply Forall_app_2. Qed.

Lemma postings_image_ok documents passages totals groups : bytes_ok (postings_image documents passages totals groups).
Proof.
  unfold postings_image. do 8 (apply Forall_app_2; [auto with bytes|]). apply images_ok. intros index g. unfold term_postings_image. cbv zeta.
  do 3 (apply Forall_app_2; [auto with bytes|]). apply Forall_app_2; apply concat_ok; intros x; unfold posting_image, block_image; auto 20 with bytes.
Qed.
Lemma positions_image_ok groups : bytes_ok (positions_image groups).
Proof.
  unfold positions_image. do 2 (apply Forall_app_2; [auto with bytes|]). apply images_ok. intros index g. unfold term_positions_image.
  do 2 (apply Forall_app_2; [auto with bytes|]). apply concat_ok. intros x. unfold position_image. auto with bytes.
Qed.
Lemma terms_image_ok groups : Forall (fun g => bytes_ok (occ_term (first_of g))) groups -> bytes_ok (terms_image groups).
Proof.
  intros HF. unfold terms_image. do 2 (apply Forall_app_2; [auto with bytes|]). generalize 0, 56, 12. induction HF as [|g groups Hg _ IH]; intros i p q; [constructor|].
  cbn [group_entries fmap list_fmap concat]. apply Forall_app_2; [|apply IH]. unfold entry_image. cbn [term group_entry]. rewrite view_bytes_mk.
  apply Forall_app_2; [auto with bytes|]. apply Forall_app_2; [done|]. auto 20 with bytes.
Qed.

Lemma file_image_ok type g payload : bytes_ok payload -> bytes_ok (file_image type g payload).
Proof. intros. unfold file_image. apply Forall_app_2; [auto with bytes|done]. Qed.

Lemma map_file_written dir name_ type g eg g0 payload w : file_header_type_valid type = true -> is_u32 type -> is_u64 g -> g <> 0 -> eg = 0 \/ eg = g ->
  g0 = None \/ g0 = Some g -> bytes_ok payload -> zlen payload <= YAP_V2_MAX_SEGMENT_PAYLOAD_BYTES -> script w = [] ->
  file_at w (dir ++ [SLASH] ++ name_) = Some (file_image type g payload) ->
  map_file (A := alloc_total) dir name_ type eg g0 w = Done (Ok (file_image type g payload, g)) w.
Proof.
  intros Ht Htu Hg Hg0 Heg Hgen Hok Hz Hs Hf. unfold map_file. cbn [alloc_ok alloc_total negb].
  erewrite bind_done by (apply (map_component_written _ type g eg payload); done). unfold io_ret. rewrite outcome_bind_ok.
  destruct Hgen as [->| ->]; [done|]. by rewrite Z.eqb_refl.
Qed.

(** Opening the files of sorted occurrences gives an index that says exactly these occurrences. *)
Lemma open_written dir g eg documents passages totals items w : occurrences_wf documents passages items -> StronglySorted occurrence_le items ->
  zlen items < 2 ^ 28 -> 0 <= documents < 2 ^ 63 -> 0 <= passages < 2 ^ 63 -> length totals = 3%nat -> Forall is_u64 totals ->
  is_u64 g -> g <> 0 -> eg = 0 \/ eg = g -> script w = [] ->
  let groups := runs same_term items in
  index_files dir g (terms_image groups) (postings_image documents passages totals groups) (positions_image groups) w ->
  zlen (terms_image groups) <= YAP_V2_MAX_SEGMENT_PAYLOAD_BYTES ->
  zlen (postings_image documents passages totals groups) <= YAP_V2_MAX_SEGMENT_PAYLOAD_BYTES ->
  zlen (positions_image groups) <= YAP_V2_MAX_SEGMENT_PAYLOAD_BYTES ->
  exists s, YAP_V2_lexical_segment_open (A := alloc_total) (Some dir) eg w = Done (Ok s) w /\ lexical_ok s /\ read_occurrences s = items /\
    lex_document_count s = documents /\ lex_passage_count s = passages /\ field_token_count s = totals.
Proof.
  intros Hwf HS Hz Hd Hp Ht3 Htu Hg Hg0 Heg Hs groups (F1&F2&F3) Z1 Z2 Z3.
  assert (bytes_ok (terms_image groups)) as O1.
  { apply terms_image_ok, Forall_forall. intros x Hx. pose proof (proj1 (Forall_forall _ _) (runs_nonempty same_term items) x Hx) as Hne.
    pose proof (group_in items x (first_of x) Hx (first_of_in x Hne)) as Hin. by destruct (proj1 (Forall_forall _ _) (owf_each _ _ _ Hwf) _ Hin) as [[? _] _ _ _]. }
  pose proof (postings_image_ok documents passages totals groups) as O2. pose proof (positions_image_ok groups) as O3.
  unfold YAP_V2_lexical_segment_open.
  rewrite (bind_done _ _ _ _ _ (map_file_written dir TERMS_NAME YAP_V2_FILE_TERMS g eg None _ w eq_refl ltac:(done) Hg Hg0 Heg ltac:(by left) O1 Z1 Hs F1)).
  rewrite (bind_done _ _ _ _ _ (map_file_written dir POSTINGS_NAME YAP_V2_FILE_POSTINGS g eg (Some g) _ w eq_refl ltac:(done) Hg Hg0 Heg ltac:(by right) O2 Z2 Hs F2)).
  rewrite (bind_done _ _ _ _ _ (map_file_written dir POSITIONS_NAME YAP_V2_FILE_POSITIONS g eg (Some g) _ w eq_refl ltac:(done) Hg Hg0 Heg ltac:(by right) O3 Z3 Hs F3)).
  rewrite outcome_bind_ok. unfold io_ret.
  set (ht := header_image (file_header YAP_V2_FILE_TERMS g (terms_image groups))).
  set (hp := header_image (file_header YAP_V2_FILE_POSTINGS g (postings_image documents passages totals groups))).
  set (hs := header_image (file_header YAP_V2_FILE_POSITIONS g (positions_image groups))).
  pose proof (file_image_ok YAP_V2_FILE_TERMS g _ O1) as B1. pose proof (file_image_ok YAP_V2_FILE_POSTINGS g _ O2) as B2.
  pose proof (file_image_ok YAP_V2_FILE_POSITIONS g _ O3) as B3.
  pose proof (zlen_file_image YAP_V2_FILE_TERMS g (terms_image groups)) as L1.
  pose proof (zlen_file_image YAP_V2_FILE_POSTINGS g (postings_image documents passages totals groups)) as L2.
  pose proof (zlen_file_image YAP_V2_FILE_POSITIONS g (positions_image groups)) as L3.
  change (file_image YAP_V2_FILE_TERMS g (terms_image groups)) with (f_terms items ht) in *.
  change (file_image YAP_V2_FILE_POSTINGS g (postings_image documents passages totals groups)) with (f_postings documents passages totals items hp) in *.
  change (file_image YAP_V2_FILE_POSITIONS g (positions_image groups)) with (f_positions items hs) in *.
  unfold YAP_V2_MAX_SEGMENT_PAYLOAD_BYTES in *.
  pose proof (validate_terms_written documents passages totals items ht hp hs Hwf HS Hz Hd Hp Ht3 Htu eq_refl eq_refl eq_refl B1 B2 B3
    ltac:(lia) ltac:(lia) ltac:(lia) ltac:(unfold YAP_V2_MAX_SEGMENT_PAYLOAD_BYTES; lia)) as V1.
  pose proof (validate_payloads_written documents passages totals items ht hp hs Hwf HS Hz Hd Hp Ht3 Htu eq_refl eq_refl eq_refl B1 B2 B3
    ltac:(lia) ltac:(lia) ltac:(lia)) as V2.
  destruct (f_terms_read documents passages totals items ht hp hs Hwf HS Hz Hd Hp Ht3 Htu eq_refl eq_refl eq_refl B1 B2 B3
    ltac:(lia) ltac:(lia) ltac:(lia)) as (_&_&_&HR&_).
  pose proof (validate_term_stream_spec (A := alloc_total) _ B1 ltac:(lia)) as S1. rewrite V1 in S1 |- *. rewrite outcome_bind_ok.
  destruct S1 as (HE&HSt&Hlen). pose proof (validate_payloads_spec _ _ _ B2 B3 ltac:(lia) ltac:(lia) HE) as S2. rewrite V2 in S2 |- *. rewrite outcome_bind_ok.
  destruct S2 as (HO&HT1&HT2). eexists. split; [reflexivity|]. split_and!; try done.
  - split; cbn [postings_map positions_map lex_terms lex_posting_count lex_position_count counts_of]; [split; [done|lia]|split; [done|lia]|done|done|done|exact HO|by split].
  - unfold read_occurrences. cbn [lex_terms]. rewrite HR by done. apply runs_concat.
Qed.
