(* ===== verification/Frame.v ===== *)
(** What writing one file through a temporary name leaves alone: every other name and every inode
    but that of the temporary file.  Files that are written one after the other keep their
    content. *)
From S2P Require Import Prelude Words Types FileSystem Verify.
#[local] Open Scope io_scope.

(** No two of the names share an inode, now or in what a crash may bring back, and new inodes are
    new. *)
Definition apart_names (xs : list path) (w : world) : Prop :=
  (forall x i, x ∈ xs -> Some i ∈ history w x -> (i < next_inode w)%nat) /\
  (forall x y i, x ∈ xs -> y ∈ xs -> x <> y -> Some i ∈ history w x -> ~ (Some i ∈ history w y)).

Lemma current_history w x i : current w x = Some i -> Some i ∈ history w x.
Proof. unfold current. destruct (history w x) as [|e h]; [done|]. cbn. intros ->. by left. Qed.

(** The name [x] has the inode [nd]. *)
Definition shows (x : path) (nd : inode) (w : world) : Prop := exists i, current w x = Some i /\ inodes w !! i = Some nd.

Lemma shows_file x nd w : shows x nd w -> file_at w x = Some (content nd).
Proof. intros (i&Hc&Hn). unfold file_at. rewrite Hc. cbn. by rewrite Hn. Qed.

Lemma durable_shows x bs w : durable x bs w -> shows x (Inode bs true) w.
Proof. intros (i&Hh&Hn). exists i. unfold current. by rewrite Hh. Qed.

Section frame.
Context (p t : path) (w0 : world) (Hfresh : forall i, current w0 t = Some i -> (i < next_inode w0)%nat).

(** The inode of the temporary file: the one it had, or a new one. *)
Definition temporary (i : nat) : Prop := current w0 t = Some i \/ (next_inode w0 <= i)%nat.

Record changes (w : world) : Prop := {
  ch_names : forall x, x <> p -> x <> t -> current w x = current w0 x;
  ch_history : forall x, x <> p -> x <> t -> forall e, e ∈ history w x -> e ∈ history w0 x;
  ch_inodes : forall k, (k < next_inode w0)%nat -> current w0 t <> Some k -> inodes w !! k = inodes w0 !! k;
  ch_next : (next_inode w0 <= next_inode w)%nat;
  ch_temporary : forall i, current w t = Some i -> temporary i /\ (i < next_inode w)%nat;
  ch_target : forall i, Some i ∈ history w p -> Some i ∈ history w0 p \/ temporary i /\ (i < next_inode w)%nat }.

Lemma changes_refl : changes w0.
Proof using Hfresh. split; try done; [|by left]. intros i Hi. split; [by left|by apply Hfresh]. Qed.

Lemma changes_script w s : changes w -> changes (set_script w s).
Proof. by intros []. Qed.

Lemma changes_set w i nd : temporary i -> changes w -> changes (set_inode w i nd).
Proof.
  intros Hi [Hn Hh Hk Hx H1 H2]. split; [done|done| |done|done|done]. intros k Hlt Ht. cbn. rewrite lookup_insert_ne; [by apply Hk|].
  intros ->. destruct Hi as [Hi|Hi]; [done|lia].
Qed.

Lemma changes_append w i bs : temporary i -> changes w -> changes (append_effect i bs w).
Proof. intros Hi H. unfold append_effect. destruct (inodes w !! i); [by apply changes_set|done]. Qed.
Lemma changes_fsync w i : temporary i -> changes w -> changes (fsync_effect i w).
Proof. intros Hi H. unfold fsync_effect. destruct (inodes w !! i); [by apply changes_set|done]. Qed.

Lemma changes_rename w : t <> p -> changes w -> changes (rename_effect t p w).
Proof.
  intros Hne [Hn Hh Hk Hx H1 H2]. unfold rename_effect. split; [| |done|done| |].
  - intros x Hp Ht. rewrite !current_other by congruence. by apply Hn.
  - intros x Hp Ht. rewrite !history_other by congruence. by apply Hh.
  - intros i. by rewrite current_same.
  - intros i. rewrite (history_other p), history_same by congruence. intros [Hi|Hi]%elem_of_cons; [|by apply H2]. right. by apply H1.
Qed.
Lemma changes_unlink w : t <> p -> changes w -> changes (unlink_effect t w).
Proof.
  intros Hne HC. pose proof HC as [Hn Hh Hk Hx H1 H2]. unfold unlink_effect. destruct (current w t); [|exact HC]. split; [| |done|done| |].
  - intros x Hp Ht. rewrite !current_other by congruence. by apply Hn.
  - intros x Hp Ht. rewrite !history_other by congruence. by apply Hh.
  - intros i. by rewrite current_same.
  - intros i. rewrite (history_other p) by congruence. by apply H2.
Qed.

Lemma current_sync d w x : current (fsync_dir_effect d w) x = current w x.
Proof. unfold current. rewrite history_sync. destruct (bool_decide _); [|done]. by destruct (history w x). Qed.
Lemma history_sync_in d w x e : e ∈ history (fsync_dir_effect d w) x -> e ∈ history w x.
Proof. rewrite history_sync. destruct (bool_decide _); [|done]. intros (i&Hi&_)%elem_of_take. by eapply list_elem_of_lookup_2. Qed.

Lemma changes_sync w d : changes w -> changes (fsync_dir_effect d w).
Proof.
  intros [Hn Hh Hk Hx H1 H2]. split; [| |done|done| |].
  - intros x Hp Ht. rewrite current_sync. by apply Hn.
  - intros x Hp Ht e He%history_sync_in. by apply Hh.
  - intros i. rewrite current_sync. apply H1.
  - intros i Hi%history_sync_in. by apply H2.
Qed.

Lemma changes_create : t <> p -> changes (create_effect t w0) /\ forall i, current (create_effect t w0) t = Some i -> temporary i.
Proof using Hfresh.
  intros Hne. pose proof changes_refl as HR. unfold create_effect. destruct (current w0 t) as [j|] eqn:C.
  - split; [apply changes_set; [by left|exact HR]|]. intros i. change (current (set_inode w0 j (Inode [] false)) t) with (current w0 t). by left.
  - split.
    + split; cbn [inodes names next_inode]; [| | |lia| |].
      * intros x Hp Ht. unfold current, history; cbn. by rewrite lookup_insert_ne by congruence.
      * intros x Hp Ht e. unfold history; cbn. by rewrite lookup_insert_ne by congruence.
      * intros k Hlt _. cbn. rewrite lookup_insert_ne by lia. done.
      * intros i. unfold current, history; cbn. rewrite lookup_insert_eq. cbn. intros [= <-]. split; [by right|lia].
      * intros i. unfold history; cbn. rewrite lookup_insert_ne by congruence. by left.
    + intros i. unfold current, history; cbn. rewrite lookup_insert_eq. cbn. intros [= <-]. by right.
Qed.

(** Computations that stay inside of the frame. *)
Abbreviation within c := (forall w, changes w -> wp c (fun _ => changes) changes w).

Lemma within_call f : (forall w, changes w -> changes (f w)) -> within (call f).
Proof. intros Hf w Hw. apply wp_call. intros s. split_and!; [apply Hf|..]; by apply changes_script. Qed.
Lemma within_noop : within (call (fun w => w)).
Proof. by apply within_call. Qed.
Lemma within_ret {B} (b : B) : within (io_ret b).
Proof. by intros w Hw. Qed.
Lemma within_bind {B C} (c : io B) (f : B -> io C) : within c -> (forall b, within (f b)) -> within (io_bind c f).
Proof. intros Hc Hf w Hw. apply wp_bind. eapply wp_mono; [by apply Hc|]. intros b w'. apply Hf. Qed.
Lemma within_fwrite i bs : temporary i -> within (fwrite i bs).
Proof. intros Hi w Hw. apply wp_fwrite. intros s n. split_and!; apply changes_append; done || by apply changes_script. Qed.
Lemma within_fsync i : temporary i -> within (fsync i).
Proof. intros Hi. apply within_call. intros w. by apply changes_fsync. Qed.
Lemma within_rename : t <> p -> within (rename t p).
Proof.
  intros Hne w Hw. unfold wp, rename. destruct (current w t); [|done]. apply (within_call (rename_effect t p)); [|done]. intros w'. by apply changes_rename.
Qed.
Lemma within_unlink : t <> p -> within (unlink t).
Proof. intros Hne. apply within_call. intros w. by apply changes_unlink. Qed.
Lemma within_fsync_parent q : within (fsync_parent q).
Proof.
  unfold fsync_parent, fsync_dir. apply within_bind; [apply within_noop|]. intros [|]; [|apply within_ret].
  apply within_bind; [apply within_call; intros w; apply changes_sync|]. intros b. apply within_bind; [apply within_noop|]. intros b'. apply within_ret.
Qed.

Lemma within_fopen (Q : option nat -> world -> Prop) (R : world -> Prop) : t <> p ->
  (forall i w, temporary i -> changes w -> Q (Some i) w) -> (forall w, changes w -> Q None w) -> (forall w, changes w -> R w) ->
  wp (fopen_wb t) Q R w0.
Proof using Hfresh.
  intros Hne HS HN HR. apply wp_bind, wp_call. intros s. split_and!.
  - unfold wp. cbn. assert (create_effect t (set_script w0 s) = set_script (create_effect t w0) s) as ->.
    { unfold create_effect. change (current (set_script w0 s) t) with (current w0 t). by destruct (current w0 t). }
    change (current (set_script (create_effect t w0) s) t) with (current (create_effect t w0) t). destruct (changes_create Hne) as [HC HT].
    destruct (current (create_effect t w0) t) as [i|] eqn:E; [apply HS; [by apply HT|]|apply HN]; by apply changes_script.
  - apply HN, changes_script, changes_refl.
  - apply HR, changes_script, changes_refl.
Qed.

(** Reading changes nothing. *)
Lemma within_reads {B} (c : io B) (P : B -> Prop) w : changes w -> reads c P w -> wp c (fun _ => changes) changes w.
Proof.
  intros Hw H. eapply wp_weaken; [exact H| |].
  - intros b w' [_ [s ->]]. by apply changes_script.
  - intros w' [s ->]. by apply changes_script.
Qed.


(** What is kept of other names. *)
Section kept.
Context (xs : list path) (Hp : p ∈ xs) (Ht : t ∈ xs) (Hapart : apart_names xs w0) (w : world) (Hw : changes w).

Lemma kept_shows x nd : x ∈ xs -> x <> p -> x <> t -> shows x nd w0 -> shows x nd w.
Proof using Ht Hapart Hw.
  intros Hx Hxp Hxt (i&C&Hi). destruct Hw as [Hn _ Hk _ _ _]. exists i. rewrite Hn by done. split; [done|]. rewrite Hk; [done| |].
  - apply (proj1 Hapart x); [done|by apply current_history].
  - intros Ct. apply (proj2 Hapart x t i); [done|done|done|by apply current_history|by apply current_history].
Qed.

(** The names stay apart, except for the temporary one, which has been given up. *)
Lemma kept_apart ys : (forall y, y ∈ ys -> y ∈ xs /\ y <> t) -> apart_names ys w.
Proof using Hp Ht Hapart Hw.
  intros Hys. destruct Hw as [_ Hh _ Hx _ H2]. destruct Hapart as [Hb Hd].
  assert (forall y i, y ∈ ys -> Some i ∈ history w y -> Some i ∈ history w0 y \/ y = p /\ temporary i /\ (i < next_inode w)%nat) as Hcase.
  { intros y i Hy Hi. destruct (Hys y Hy) as [Hyx Hyt]. destruct (decide (y = p)) as [->|N]; [|left; by apply Hh]. destruct (H2 i Hi); [by left|by right]. }
  assert (forall y i, y ∈ ys -> y <> p -> Some i ∈ history w0 y -> temporary i -> False) as Hno.
  { intros y i Hy Hyp Hi Hti. destruct (Hys y Hy) as [Hyx Hyt]. destruct Hti as [Hti|Hti].
    - apply (Hd y t i); [done|done|done|done|by apply current_history].
    - specialize (Hb y i Hyx Hi). lia. }
  split.
  - intros y i Hy Hi. destruct (Hcase y i Hy Hi) as [Hi0|(_&_&?)]; [|done]. destruct (Hys y Hy) as [Hyx _]. specialize (Hb y i Hyx Hi0). lia.
  - intros y z i Hy Hz Hyz Hi Hi'. destruct (Hys y Hy) as [Hyx _], (Hys z Hz) as [Hzx _].
    destruct (Hcase y i Hy Hi) as [H|(->&H&_)], (Hcase z i Hz Hi') as [H'|(->&H'&_)].
    + by apply (Hd y z i).
    + by apply (Hno y i).
    + apply (Hno z i); done.
    + done.
Qed.
End kept.
End frame.

Lemma apart_tmp p xs w : apart_names xs w -> p ∈ xs -> tmp_path p ∈ xs -> tmp_apart p w.
Proof.
  intros [Hb Hd] Hp Ht. split.
  - intros j [Hj|Hj]; [by apply (Hb p)|]. apply (Hb (tmp_path p)); [done|by apply current_history].
  - intros i Hi Hin. apply (Hd p (tmp_path p) i); [done|done|by intros E; apply (tmp_path_ne p)|done|by apply current_history].
Qed.

(** ** Replacing a file *)
Section replace.
Context {A : Allocator} (p : path) (w0 : world) (Hfresh : forall i, current w0 (tmp_path p) = Some i -> (i < next_inode w0)%nat).
Abbreviation t := (tmp_path p).
Abbreviation within c := (forall w, changes p t w0 w -> wp c (fun _ => changes p t w0) (changes p t w0) w).

Lemma within_discard : within (discard p).
Proof. apply within_bind; [apply within_unlink, tmp_path_ne|]. intros b. apply within_ret. Qed.

Lemma within_commit : within (commit_tmp p).
Proof.
  unfold commit_tmp. apply within_bind; [apply within_rename, tmp_path_ne|]. intros [|]; cbn [negb]; [|apply within_discard].
  destruct (negb (alloc_ok _)); [apply within_ret|]. apply within_bind; [apply within_fsync_parent|]. intros b. apply within_ret.
Qed.

Lemma write_atomic_within bs : wp (write_atomic p bs) (fun _ => changes p t w0) (changes p t w0) w0.
Proof using Hfresh.
  pose proof (changes_refl p t w0 Hfresh) as HR. unfold write_atomic. destruct (_ <? _); [by apply wp_ret|]. destruct (negb (alloc_ok _)); [by apply wp_ret|]. destruct (_ <? _); [by apply wp_ret|].
  apply wp_bind, (within_fopen p t w0 Hfresh); [apply tmp_path_ne| |by intros; apply wp_ret|done].
  intros i w1 Hi. revert w1. apply within_bind; [destruct (0 <? _); [by apply within_fwrite|apply within_ret]|]. intros [|]; cbn [negb].
  - unfold finish_tmp. apply within_bind; [apply within_bind; [apply within_noop|intros [|]; [by apply within_fsync|apply within_ret]]|]. intros [|]; cbn [negb].
    + apply within_bind; [apply within_noop|]. intros [|]; cbn [negb]; [apply within_commit|apply within_discard].
    + apply within_bind; [apply within_noop|]. intros b. apply within_discard.
  - apply within_bind; [apply within_noop|]. intros b. apply within_discard.
Qed.
End replace.

(** ** Several files

    A part of the program has the files [ps] and the temporary names [ts].  It may change the
    inodes that these names have and new ones. *)
Section groups.
Context (ps ts : list path) (Hdisj : forall x, x ∈ ps -> x ∈ ts -> False).

Definition owned (w : world) (i : nat) : Prop :=
  (next_inode w <= i)%nat \/ (exists p, p ∈ ps /\ Some i ∈ history w p) \/ (exists t, t ∈ ts /\ current w t = Some i).

Definition bounded (w : world) : Prop :=
  (forall p i, p ∈ ps -> Some i ∈ history w p -> (i < next_inode w)%nat) /\ (forall t i, t ∈ ts -> current w t = Some i -> (i < next_inode w)%nat).

Record touches (w0 w : world) : Prop := {
  to_names : forall x, ~ (x ∈ ps) -> ~ (x ∈ ts) -> current w x = current w0 x;
  to_history : forall x, ~ (x ∈ ps) -> ~ (x ∈ ts) -> forall e, e ∈ history w x -> e ∈ history w0 x;
  to_inodes : forall k, ~ owned w0 k -> inodes w !! k = inodes w0 !! k;
  to_next : (next_inode w0 <= next_inode w)%nat;
  to_files : forall p i, p ∈ ps -> Some i ∈ history w p -> owned w0 i;
  to_temporary : forall t i, t ∈ ts -> current w t = Some i -> owned w0 i;
  to_bounded : bounded w }.

Lemma touches_refl w : bounded w -> touches w w.
Proof. intros H. split; try done; unfold owned; eauto 6. Qed.

Lemma owned_touched w0 w i : touches w0 w -> owned w i -> owned w0 i.
Proof. intros H [Hi|[(p&Hp&Hi)|(t&Ht&Hi)]]; [left; pose proof (to_next _ _ H); lia|by apply (to_files _ _ H p)|by apply (to_temporary _ _ H t)]. Qed.

Lemma touches_trans w0 w1 w2 : touches w0 w1 -> touches w1 w2 -> touches w0 w2.
Proof.
  intros H1 H2. split.
  - intros x Hp Ht. rewrite (to_names _ _ H2), (to_names _ _ H1) by done. done.
  - intros x Hp Ht e He. apply (to_history _ _ H1), (to_history _ _ H2); done.
  - intros k Hk. rewrite (to_inodes _ _ H2), (to_inodes _ _ H1); [done|done|]. intros Hk'. by apply Hk, (owned_touched w0 w1).
  - pose proof (to_next _ _ H1). pose proof (to_next _ _ H2). lia.
  - intros p i Hp Hi. apply (owned_touched w0 w1); [done|]. by apply (to_files _ _ H2 p).
  - intros t i Ht Hi. apply (owned_touched w0 w1); [done|]. by apply (to_temporary _ _ H2 t).
  - apply (to_bounded _ _ H2).
Qed.

Lemma touches_script w0 w s : touches w0 w -> touches w0 (set_script w s).
Proof. by intros []. Qed.

(** Replacing one of the files touches the group. *)
Lemma touches_changes p t w0 w : p ∈ ps -> t ∈ ts -> bounded w0 -> changes p t w0 w -> touches w0 w.
Proof using Hdisj.
  intros Hp Ht [B1 B2] [Hn Hh Hk Hx H1 H2]. pose proof (fun x H1 H2 => Hdisj x H1 H2) as D.
  assert (forall i, temporary t w0 i -> owned w0 i) as HT by (intros i [Hi|Hi]; [right; right; eauto|by left]).
  assert (forall q i, q ∈ ps -> Some i ∈ history w q -> owned w0 i /\ (i < next_inode w)%nat) as HF.
  { intros q i Hq Hi. assert (forall i, Some i ∈ history w0 q -> owned w0 i /\ (i < next_inode w)%nat) as H0.
    { intros j Hj. split; [right; left; eauto|]. specialize (B1 q j Hq Hj). lia. }
    destruct (decide (q = p)) as [->|N]; [destruct (H2 i Hi) as [Hi'|[Hi' Hb]]; [by apply H0|split; [by apply HT|done]]|].
    apply H0, Hh; [done|intros ->; by apply (D t)|done]. }
  assert (forall s i, s ∈ ts -> current w s = Some i -> owned w0 i /\ (i < next_inode w)%nat) as HC.
  { intros s i Hs Hi. destruct (decide (s = t)) as [->|N]; [destruct (H1 i Hi); split; [by apply HT|done]|].
    rewrite Hn in Hi by (done || (intros ->; by apply (D p))). split; [right; right; eauto|]. specialize (B2 s i Hs Hi). lia. }
  split; [| | |done| | |].
  - intros x Hxp Hxt. apply Hn; intros ->; done.
  - intros x Hxp Hxt. apply Hh; intros ->; done.
  - intros k Ho. apply Hk; [unfold owned in Ho; apply Nat.nle_gt; tauto|]. intros Hc. apply Ho. right; right. eauto.
  - intros q i Hq Hi. by apply (HF q).
  - intros s i Hs Hi. by apply (HC s).
  - split; [intros q i Hq Hi; by apply (HF q)|intros s i Hs Hi; by apply (HC s)].
Qed.

Lemma bounded_apart xs w : apart_names xs w -> (forall x, x ∈ ps \/ x ∈ ts -> x ∈ xs) -> bounded w.
Proof. intros [Hb _] Hin. split; [intros p i Hp; apply Hb; auto|intros t i Ht Hc; apply (Hb t); [auto|by apply current_history]]. Qed.
End groups.

Lemma touches_mono ps ts ps' ts' w0 w : (forall x, x ∈ ps -> x ∈ ps') -> (forall x, x ∈ ts -> x ∈ ts') -> (forall x, x ∈ ps' -> x ∈ ts' -> False) -> bounded ps' ts' w0 ->
  touches ps ts w0 w -> touches ps' ts' w0 w.
Proof.
  intros Sp St D [B1 B2] H. assert (forall i, owned ps ts w0 i -> owned ps' ts' w0 i) as HO.
  { intros i [Hi|[(p&Hp&Hi)|(t&Ht&Hi)]]; [by left|right; left; eauto|right; right; eauto]. }
  assert (forall p i, p ∈ ps' -> Some i ∈ history w p -> owned ps' ts' w0 i /\ (i < next_inode w)%nat) as HF.
  { intros p i Hp Hi. destruct (decide (p ∈ ps)) as [Y|N]; [split; [apply HO; by apply (to_files _ _ _ _ H p)|by apply (proj1 (to_bounded _ _ _ _ H) p)]|].
    apply (to_history _ _ _ _ H) in Hi; [|done|intros Ht; by apply (D p), St]. split; [right; left; eauto|]. specialize (B1 p i Hp Hi). pose proof (to_next _ _ _ _ H). lia. }
  assert (forall t i, t ∈ ts' -> current w t = Some i -> owned ps' ts' w0 i /\ (i < next_inode w)%nat) as HC.
  { intros t i Ht Hi. destruct (decide (t ∈ ts)) as [Y|N]; [split; [apply HO; by apply (to_temporary _ _ _ _ H t)|by apply (proj2 (to_bounded _ _ _ _ H) t)]|].
    rewrite (to_names _ _ _ _ H) in Hi; [|intros Hp; by apply (D t); [apply Sp|]|done]. split; [right; right; eauto|]. specialize (B2 t i Ht Hi). pose proof (to_next _ _ _ _ H). lia. }
  split.
  - intros x Hp Ht. apply (to_names _ _ _ _ H); intros Hx; [by apply Hp, Sp|by apply Ht, St].
  - intros x Hp Ht. apply (to_history _ _ _ _ H); intros Hx; [by apply Hp, Sp|by apply Ht, St].
  - intros k Hk. apply (to_inodes _ _ _ _ H). intros Ho. by apply Hk, HO.
  - apply (to_next _ _ _ _ H).
  - intros p i Hp Hi. by apply (HF p).
  - intros t i Ht Hi. by apply (HC t).
  - split; [intros p i Hp Hi; by apply (HF p)|intros t i Ht Hi; by apply (HC t)].
Qed.

(** ** Files that are finished

    [x] has the inode [nd], which none of the names [rest] that are still to be written has. *)
Definition stored (rest : list path) (x : path) (nd : inode) (w : world) : Prop :=
  exists i, current w x = Some i /\ inodes w !! i = Some nd /\ (i < next_inode w)%nat /\ forall y, y ∈ rest -> ~ (Some i ∈ history w y).

Lemma stored_shows rest x nd w : stored rest x nd w -> shows x nd w.
Proof. intros (i&Hc&Hn&_). by exists i. Qed.

Section finished.
Context (ps ts rest : list path) (w0 w : world) (Hap : apart_names rest w0) (Hsub : forall x, x ∈ ps \/ x ∈ ts -> x ∈ rest) (Hw : touches ps ts w0 w).
Context (rest' : list path) (Hrest : forall y, y ∈ rest' -> y ∈ rest /\ ~ (y ∈ ps) /\ ~ (y ∈ ts)).

Lemma owned_rest i y : owned ps ts w0 i -> y ∈ rest' -> ~ (Some i ∈ history w y).
Proof using Hap Hsub Hw Hrest.
  intros Ho Hy Hi. destruct (Hrest y Hy) as (Hyr&Hyp&Hyt). apply (to_history _ _ _ _ Hw) in Hi; [|done|done]. destruct Hap as [Hb Hd].
  destruct Ho as [Hge|[(p&Hp&Hi')|(t&Ht&Hi')]].
  - specialize (Hb y i Hyr Hi). lia.
  - apply (Hd p y i); [apply Hsub; by left|done|by intros ->|done|done].
  - apply current_history in Hi'. apply (Hd t y i); [apply Hsub; by right|done|by intros ->|done|done].
Qed.

Lemma touched_apart : apart_names rest' w.
Proof using Hap Hsub Hw Hrest.
  destruct Hap as [Hb Hd]. split.
  - intros x i Hx Hi. destruct (Hrest x Hx) as (Hxr&Hxp&Hxt). apply (to_history _ _ _ _ Hw) in Hi; [|done|done]. specialize (Hb x i Hxr Hi). pose proof (to_next _ _ _ _ Hw). lia.
  - intros x y i Hx Hy N Hi Hi'. destruct (Hrest x Hx) as (Hxr&Hxp&Hxt), (Hrest y Hy) as (Hyr&Hyp&Hyt).
    apply (to_history _ _ _ _ Hw) in Hi, Hi'; try done. by apply (Hd x y i).
Qed.

(** A finished file stays. *)
Lemma touched_stored x nd : ~ (x ∈ ps) -> ~ (x ∈ ts) -> stored rest x nd w0 -> stored rest' x nd w.
Proof using Hsub Hw Hrest.
  intros Hp Ht (i&Hc&Hn&Hlt&Hy). exists i. rewrite (to_names _ _ _ _ Hw), (to_inodes _ _ _ _ Hw); try done.
  - split_and!; [done|done|pose proof (to_next _ _ _ _ Hw); lia|]. intros y Hyr Hi. destruct (Hrest y Hyr) as (Hyr'&Hyp&Hyt). apply (Hy y); [done|]. by apply (to_history _ _ _ _ Hw).
  - intros [Hge|[(p&Hp'&Hi)|(t&Ht'&Hi)]]; [lia|apply (Hy p); [apply Hsub; by left|done]|]. apply (Hy t); [apply Hsub; by right|by apply current_history].
Qed.

(** A file of the group is finished. *)
Lemma touched_new x nd : x ∈ ps -> shows x nd w -> stored rest' x nd w.
Proof using Hap Hsub Hw Hrest.
  intros Hx (i&Hc&Hn). apply current_history in Hc as Hi. exists i. split_and!; [done|done|by apply (proj1 (to_bounded _ _ _ _ Hw) x)|].
  intros y Hy. apply owned_rest; [|done]. by apply (to_files _ _ _ _ Hw x).
Qed.
End finished.
