(* ===== verification/LexicalFiles.v ===== *)
(** Writing the three files of a lexical index (src/src/components/yappo_lexical_v2.c): whatever the
    file system does, when the writer reports success the files hold the payloads. *)
From Stdlib Require Import Sorted Permutation.
From stdpp Require Import sorting.
From S2P Require Import Prelude Words Types Crc Sha256 Header SlotTable Manifest FileSystem Reader Buffer Segment Verify Lexical Tokens LexicalWriter LexicalIndex Frame.
#[local] Open Scope io_scope.
#[local] Open Scope Z_scope.

(** ** One file *)
Section component.
Context {A : Allocator} (garbage : nat -> Z).

Lemma component_header_spec type g payload : file_header_type_valid type = true -> g <> 0 -> buffer_ok payload ->
  component_header garbage type g payload = Ok (header_image (file_header type g (content payload))).
Proof.
  intros Ht Hg Hb. pose proof (zlen_content payload Hb) as Hz. pose proof Hb as (Hl&_&_). unfold component_header.
  rewrite load_bytes_slice, outcome_bind_ok by lia.
  assert (slice (buffer_data payload) 0 (buffer_len payload) = content payload) as -> by (unfold slice; by rewrite drop_0).
  rewrite <- Hz. change (FileHeader _ _ type g _ _) with (file_header type g (content payload)).
  rewrite <- (app_nil_r (garbage <$> seq 0 32)), file_header_encode_image; [by rewrite app_nil_r|by apply file_header_fields|apply zlen_garbage].
Qed.

Section one_file.
Context (p : path) (w0 : world) (header payload : bytes).
Abbreviation t := (tmp_path p).
Definition trivial : world -> Prop := fun _ => True.

Lemma write_tmp_staged i w : staged p t w0 i (Inode [] false) w ->
  wp (write_component_tmp i header payload) (fun ok w => ok = true -> staged p t w0 i (Inode (header ++ payload) true) w) trivial w.
Proof.
  intros H1. unfold write_component_tmp. apply wp_bind.
  assert (forall w, staged p t w0 i (Inode (header ++ payload) false) w ->
    wp (let* ok := fflush i in if negb ok then io_ret false else fsync i)
      (fun written w => wp (let* closed := fclose i in io_ret (written && closed))
         (fun ok w => ok = true -> staged p t w0 i (Inode (header ++ payload) true) w) trivial w) trivial w) as Hrest.
  { intros w' H2. apply wp_bind, wp_noop; [|done]. intros s [|]; cbn [negb].
    - apply wp_call. intros s'. split_and!; [| |done].
      + apply wp_bind, wp_noop; [|done]. intros s'' b. apply wp_ret. intros _.
        exact (staged_fsync p t w0 i (header ++ payload) false (set_script (set_script w' s) s') H2).
      + apply wp_bind, wp_noop; [|done]. intros s'' b. by apply wp_ret.
    - apply wp_ret, wp_bind, wp_noop; [|done]. intros s' b. by apply wp_ret. }
  apply wp_bind, wp_fwrite. intros s n. split_and!; cbn [negb]; [| |done].
  - pose proof (staged_append p t w0 i [] false (set_script w s) header H1) as H2. cbn [app] in H2. apply wp_bind.
    destruct (Z.ltb_spec 0 (zlen payload)) as [Hpos|Hz].
    + apply wp_fwrite. intros s' n'. split_and!; cbn [negb]; [| |done].
      * apply Hrest. exact (staged_append p t w0 i header false (set_script (append_effect i header (set_script w s)) s') payload H2).
      * apply wp_ret, wp_bind, wp_noop; [|done]. intros s'' b. by apply wp_ret.
    + apply wp_ret. cbn [negb]. apply Hrest. assert (payload = []) as -> by (destruct payload; [done|unfold zlen in Hz; cbn in Hz; lia]). by rewrite app_nil_r.
  - apply wp_ret, wp_bind, wp_noop; [|done]. intros s' b. by apply wp_ret.
Qed.

Lemma install_durable i w : staged p t w0 i (Inode (header ++ payload) true) w ->
  wp (install_component p) (fun ok w => ok = true -> durable p (header ++ payload) w) trivial w.
Proof.
  intros Hs. apply wp_bind, (wp_rename_staged p w0 (header ++ payload) t _ _ _ i); [apply tmp_path_ne|done| |by intros|done].
  intros w' Hr. cbn [negb]. destruct (negb (alloc_ok _)); [by apply wp_ret|].
  apply (wp_fsync_parent p w0 (header ++ payload)); [done|done|done|done].
Qed.
End one_file.

Lemma durable_frames q bs w w' : frames w w' -> durable q bs w -> durable q bs w'.
Proof. by intros [s ->]. Qed.

Lemma wp_conj {B} (c : io B) (Q Q' : B -> world -> Prop) (R R' : world -> Prop) w :
  wp c Q R w -> wp c Q' R' w -> wp c (fun b w => Q b w /\ Q' b w) (fun w => R w /\ R' w) w.
Proof. unfold wp. by destruct (c w). Qed.

(** The descriptor of a component with this file. *)
Definition describe (name_ : bytes) (type records : Z) (file : bytes) : YAP_V2_COMPONENT_DESCRIPTOR :=
  ComponentDescriptor name_ type records (zlen file) (sha256_spec file).

(** The file of a component has been written at [p], and nothing else changed. *)
Definition component_written (p : path) (file : bytes) (d : YAP_V2_COMPONENT_DESCRIPTOR) (w0 : world) (r : result YAP_V2_COMPONENT_DESCRIPTOR) (w : world) : Prop :=
  changes p (tmp_path p) w0 w /\ match r with Ok d' => durable p file w /\ d' = d | Err _ => True | Fault => False end.

Lemma write_tmp_within p w0 i header payload w : temporary (tmp_path p) w0 i -> changes p (tmp_path p) w0 w ->
  wp (write_component_tmp i header payload) (fun _ => changes p (tmp_path p) w0) (changes p (tmp_path p) w0) w.
Proof.
  intros Hi. revert w. unfold write_component_tmp. apply within_bind; [|intros b; apply within_bind; [apply within_noop|intros b'; apply within_ret]].
  apply within_bind; [by apply within_fwrite|]. intros [|]; [|apply within_ret]. cbn [negb].
  apply within_bind; [destruct (0 <? _); [by apply within_fwrite|apply within_ret]|]. intros [|]; [|apply within_ret]. cbn [negb].
  apply within_bind; [apply within_noop|]. intros [|]; [by apply within_fsync|apply within_ret].
Qed.

Lemma install_within p w0 w : changes p (tmp_path p) w0 w -> wp (install_component p) (fun _ => changes p (tmp_path p) w0) (changes p (tmp_path p) w0) w.
Proof.
  revert w. unfold install_component. apply within_bind; [apply within_rename, tmp_path_ne|]. intros [|]; [|apply within_ret]. cbn [negb].
  destruct (negb (alloc_ok _)); [apply within_ret|apply within_fsync_parent].
Qed.

Lemma write_component_wp p name_ type g payload records w0 : file_header_type_valid type = true -> g <> 0 -> buffer_ok payload -> tmp_apart p w0 ->
  let file := file_image type g (content payload) in
  wp (write_component garbage p name_ type g payload records) (component_written p file (describe name_ type records file) w0) (changes p (tmp_path p) w0) w0.
Proof.
  intros Ht Hg Hb Hap file0. subst file0. set (file := file_image type g (content payload)). pose proof (tmp_path_ne p) as Hne.
  assert (forall i, current w0 (tmp_path p) = Some i -> (i < next_inode w0)%nat) as Hfresh by (intros i Hi; apply (proj1 Hap); by right).
  pose proof (changes_refl p (tmp_path p) w0 Hfresh) as HR.
  unfold write_component. rewrite component_header_spec by done.
  set (header := header_image (file_header type g (content payload))). fold (content payload).
  destruct (_ <? _); [by apply wp_ret|]. destruct (negb (alloc_ok _)); [by apply wp_ret|].
  assert (forall w, changes p (tmp_path p) w0 w -> wp (do* unlink (tmp_path p) in io_ret (Err YAP_V2_IO_ERROR))
    (component_written p file (describe name_ type records file) w0) (changes p (tmp_path p) w0) w) as Hfail.
  { intros w Hw. apply wp_bind. eapply wp_mono; [by apply within_unlink|]. intros b w' Hw'. by apply wp_ret. }
  apply wp_bind. eapply wp_weaken; [apply wp_conj; [apply (wp_fopen_tmp p w0 (fun o w => forall i, o = Some i -> staged p (tmp_path p) w0 i (Inode [] false) w) trivial)|
    apply (within_fopen p (tmp_path p) w0 Hfresh (fun o w => changes p (tmp_path p) w0 w /\ forall i, o = Some i -> temporary (tmp_path p) w0 i) (changes p (tmp_path p) w0))]| |];
    try done; try (by intros ? ? ? ? [= <-]); try (by intros w' []).
  { by intros i w' Hi; split; [|intros ? [= <-]]. }
  intros [i|] w1 (H1&HC1&HT); [|by apply wp_ret]. specialize (H1 i eq_refl). specialize (HT i eq_refl).
  apply wp_bind. eapply wp_weaken; [apply wp_conj; [by apply (write_tmp_staged p w0 header (content payload))|by apply write_tmp_within]| |by intros w' []].
  intros [|] w2 [H2 HC2]; cbn [negb]; [|by apply wp_bind, wp_ret, Hfail]. specialize (H2 eq_refl).
  apply wp_bind. eapply wp_weaken; [apply wp_conj; [by apply (install_durable p w0 header (content payload) i)|by apply install_within]| |by intros w' []].
  intros [|] w3 [H3 HC3]; cbn [negb]; [|by apply Hfail]. specialize (H3 eq_refl). change (header ++ content payload) with file in H3.
  apply wp_bind. eapply wp_weaken; [apply (file_sha256_reads_at garbage p w3)| |].
  - intros bs Hf. rewrite (durable_file p file w3 H3) in Hf. injection Hf as <-. unfold file. rewrite zlen_file_image, zlen_content by done.
    destruct Hb as (?&?&_). unfold YAP_V2_MAX_SEGMENT_PAYLOAD_BYTES in *. lia.
  - intros r w4 [Hd Hf]. apply wp_ret. assert (changes p (tmp_path p) w0 w4) as HC4 by (destruct Hf as [s ->]; by apply changes_script).
    split; [done|]. destruct r as [[sum n]|e|]; [|done|done]. destruct Hd as (bs&Hbs&->&->). rewrite (durable_file p file w3 H3) in Hbs. injection Hbs as <-.
    split; [by apply (durable_frames p file w3)|done].
  - intros w4 [s ->]. by apply changes_script.
Qed.

(** ** Three files *)
Definition index_path (dir name_ : bytes) : path := dir ++ [SLASH] ++ name_.
Definition index_names (dir : bytes) : list path :=
  [index_path dir TERMS_NAME; tmp_path (index_path dir TERMS_NAME); index_path dir POSTINGS_NAME; tmp_path (index_path dir POSTINGS_NAME);
   index_path dir POSITIONS_NAME; tmp_path (index_path dir POSITIONS_NAME)].

Lemma index_names_eq dir : index_names dir = (fun n => dir ++ n) <$>
  [[SLASH] ++ TERMS_NAME; [SLASH] ++ TERMS_NAME ++ TMP_SUFFIX; [SLASH] ++ POSTINGS_NAME; [SLASH] ++ POSTINGS_NAME ++ TMP_SUFFIX;
   [SLASH] ++ POSITIONS_NAME; [SLASH] ++ POSITIONS_NAME ++ TMP_SUFFIX].
Proof. unfold index_names, index_path, tmp_path. cbn [fmap list_fmap]. by rewrite <- !(assoc_L (++)). Qed.

Lemma index_names_nodup dir : NoDup (index_names dir).
Proof.
  rewrite index_names_eq. apply (NoDup_fmap_2 (fun n => dir ++ n)). apply (bool_decide_unpack (NoDup _)). vm_compute. done.
Qed.

Lemma write_file_wp dir name_ type g payload records w0 : file_header_type_valid type = true -> g <> 0 -> buffer_ok payload -> tmp_apart (index_path dir name_) w0 ->
  let file := file_image type g (content payload) in
  wp (write_file garbage dir name_ type g payload records) (component_written (index_path dir name_) file (describe name_ type records file) w0) trivial w0.
Proof.
  intros Ht Hg Hb Hap file. unfold write_file. destruct (negb (alloc_ok _)).
  - apply wp_ret. split; [|done]. apply changes_refl. intros i Hi. apply (proj1 Hap). by right.
  - eapply wp_weaken; [by apply write_component_wp|done|done].
Qed.

Definition index_finals (dir : bytes) : list path := [index_path dir TERMS_NAME; index_path dir POSTINGS_NAME; index_path dir POSITIONS_NAME].

Lemma index_groups dir x : x ∈ index_names dir <-> x ∈ index_finals dir \/ x ∈ tmp_path <$> index_finals dir.
Proof. unfold index_names, index_finals. cbn [fmap list_fmap]. set_solver. Qed.

Lemma index_groups_disjoint dir x : x ∈ index_finals dir -> x ∈ tmp_path <$> index_finals dir -> False.
Proof.
  pose proof (index_names_nodup dir) as HN. unfold index_names in HN. rewrite !NoDup_cons, !not_elem_of_cons in HN. destruct HN as ((?&?&?&?&?&_)&(?&?&?&?&_)&(?&?&?&_)&(?&?&_)&(?&_)&_).
  unfold index_finals. cbn [fmap list_fmap]. rewrite !elem_of_cons, !elem_of_nil. intuition congruence.
Qed.

(** The three files are there, synchronised. *)
Definition index_shown (dir : bytes) (g : Z) (terms postings positions : bytes) (w : world) : Prop :=
  shows (index_path dir TERMS_NAME) (Inode (file_image YAP_V2_FILE_TERMS g terms) true) w /\
  shows (index_path dir POSTINGS_NAME) (Inode (file_image YAP_V2_FILE_POSTINGS g postings) true) w /\
  shows (index_path dir POSITIONS_NAME) (Inode (file_image YAP_V2_FILE_POSITIONS g positions) true) w.

Lemma index_shown_files dir g terms postings positions w : index_shown dir g terms postings positions w -> index_files dir g terms postings positions w.
Proof. by intros (H1%shows_file&H2%shows_file&H3%shows_file). Qed.

(** The three files have been written and described. *)
Definition index_stored (dir : bytes) (g n m k : Z) (terms postings positions : bytes) (w0 : world) (cs : list YAP_V2_COMPONENT_DESCRIPTOR) (w : world) : Prop :=
  index_shown dir g terms postings positions w /\ touches (index_finals dir) (tmp_path <$> index_finals dir) w0 w /\
  cs = [describe TERMS_NAME YAP_V2_FILE_TERMS n (file_image YAP_V2_FILE_TERMS g terms); describe POSTINGS_NAME YAP_V2_FILE_POSTINGS m (file_image YAP_V2_FILE_POSTINGS g postings);
        describe POSITIONS_NAME YAP_V2_FILE_POSITIONS k (file_image YAP_V2_FILE_POSITIONS g positions)].

Lemma write_payloads_wp dir g p n m k w0 : g <> 0 -> payloads_ok p -> apart_names (index_names dir) w0 ->
  wp (write_payloads garbage dir g p n m k)
    (fun r w => match r with Ok cs => index_stored dir g n m k (content (pay_terms p)) (content (pay_postings p)) (content (pay_positions p)) w0 cs w
                | Err _ => True | Fault => False end) trivial w0.
Proof.
  intros Hg [Ht Hp Hs] Q0. pose proof (index_names_nodup dir) as HN. pose proof (index_groups_disjoint dir) as HD.
  pose proof (bounded_apart _ (tmp_path <$> index_finals dir) _ w0 Q0 (fun x => proj2 (index_groups dir x))) as HB. unfold index_stored. unfold index_names, index_finals in *.
  set (p1 := index_path dir TERMS_NAME) in *. set (p2 := index_path dir POSTINGS_NAME) in *. set (p3 := index_path dir POSITIONS_NAME) in *.
  rewrite !NoDup_cons, !not_elem_of_cons in HN. destruct HN as ((?&?&?&?&?&_)&(?&?&?&?&_)&(?&?&?&_)&(?&?&_)&(?&_)&_). cbn [fmap list_fmap] in *.
  unfold write_payloads. apply wp_bind. eapply wp_mono; [apply write_file_wp; [done|done|done|]|].
  { fold p1. apply (apart_tmp p1 _ w0 Q0); set_solver. }
  fold p1. intros [d1|e|] w1 [C1 D1]; [|by apply wp_ret|done]. destruct D1 as [D1 ->].
  assert (apart_names [p1; p2; tmp_path p2; p3; tmp_path p3] w1) as Q1.
  { apply (kept_apart p1 (tmp_path p1) w0 [p1; tmp_path p1; p2; tmp_path p2; p3; tmp_path p3]); [set_solver|set_solver|done|done|]. set_solver. }
  assert (touches [p1; p2; p3] [tmp_path p1; tmp_path p2; tmp_path p3] w0 w1) as T1 by (apply (touches_changes _ _ HD p1 (tmp_path p1)); done || set_solver).
  apply wp_bind. eapply wp_mono; [apply write_file_wp; [done|done|done|]|].
  { fold p2. apply (apart_tmp p2 _ w1 Q1); set_solver. }
  fold p2. intros [d2|e|] w2 [C2 D2]; [|by apply wp_ret|done]. destruct D2 as [D2 ->].
  assert (apart_names [p1; p2; p3; tmp_path p3] w2) as Q2.
  { apply (kept_apart p2 (tmp_path p2) w1 [p1; p2; tmp_path p2; p3; tmp_path p3]); [set_solver|set_solver|done|done|]. set_solver. }
  assert (touches [p1; p2; p3] [tmp_path p1; tmp_path p2; tmp_path p3] w0 w2) as T2.
  { apply (touches_trans _ _ w0 w1); [done|]. apply (touches_changes _ _ HD p2 (tmp_path p2)); [set_solver|set_solver|apply (to_bounded _ _ _ _ T1)|done]. }
  apply wp_bind. eapply wp_mono; [apply write_file_wp; [done|done|done|]|].
  { fold p3. apply (apart_tmp p3 _ w2 Q2); set_solver. }
  fold p3. intros [d3|e|] w3 [C3 D3]; apply wp_ret; cbn [mbind outcome_bind]; [|done|done]. destruct D3 as [D3 ->].
  unfold index_shown. fold p1 p2 p3. apply durable_shows in D1, D2, D3. split; [split_and!; [| |done]|split; [|done]].
  - apply (kept_shows p3 (tmp_path p3) w2 [p1; p2; p3; tmp_path p3] ltac:(set_solver) Q2 w3 C3); [set_solver|done|done|].
    apply (kept_shows p2 (tmp_path p2) w1 [p1; p2; tmp_path p2; p3; tmp_path p3] ltac:(set_solver) Q1 w2 C2); [set_solver|done|done|done].
  - apply (kept_shows p3 (tmp_path p3) w2 [p1; p2; p3; tmp_path p3] ltac:(set_solver) Q2 w3 C3); [set_solver|done|done|done].
  - apply (touches_trans _ _ w0 w2); [done|]. apply (touches_changes _ _ HD p3 (tmp_path p3)); [set_solver|set_solver|apply (to_bounded _ _ _ _ T2)|done].
Qed.
End component.
