(* ===== verification/LexicalRoundtrip.v ===== *)
(** Writing a lexical index and opening it (src/src/components/yappo_lexical_v2.c): whatever the
    file system does while the three files are written, when the writer reports success the reader
    finds the occurrences of the tokens of the documents and passages. *)
From Stdlib Require Import Sorted Permutation.
From stdpp Require Import sorting.
From S2P Require Import Prelude Words Types Crc Header SlotTable Manifest FileSystem Reader Buffer Segment Verify Lexical Tokens LexicalWriter LexicalIndex Frame LexicalFiles.
#[local] Open Scope io_scope.
#[local] Open Scope Z_scope.

(** ** The occurrences of a segment *)
Section occurrences.
Context {T : Tokenizer}.

(** The tokens of a text, numbered. *)
Fixpoint token_occurrences (s : YAP_V2_TOKEN_SEQUENCE) (ts : list YAP_V2_TOKEN) (i count type ordinal_ field_ : Z) : list YAP_V2_LEXICAL_OCCURRENCE :=
  match ts with
  | [] => []
  | t :: ts => Occurrence (token_bytes s t) type ordinal_ field_ i count :: token_occurrences s ts (i + 1) count type ordinal_ field_
  end.

Definition text_tokens (v : YAP_V2_BYTES_VIEW) : YAP_V2_TOKEN_SEQUENCE :=
  if len v =? 0 then TokenSequence [] []
  else match YAP_V2_unicode_tokenize (data v) (len v) with Ok s => s | _ => TokenSequence [] [] end.

Definition text_occurrences (v : YAP_V2_BYTES_VIEW) (type ordinal_ field_ : Z) : list YAP_V2_LEXICAL_OCCURRENCE :=
  let s := text_tokens v in token_occurrences s (tokens s) 0 (zlen (tokens s)) type ordinal_ field_.

Definition document_occurrences (i : Z) (d : YAP_V2_DOCUMENT_VIEW) : list YAP_V2_LEXICAL_OCCURRENCE :=
  text_occurrences (title d) YAP_V2_LEXICAL_DOCUMENT i YAP_V2_FIELD_TITLE ++ text_occurrences (body d) YAP_V2_LEXICAL_DOCUMENT i YAP_V2_FIELD_BODY.
Definition passage_occurrences (i : Z) (p : YAP_V2_PASSAGE_VIEW) : list YAP_V2_LEXICAL_OCCURRENCE :=
  text_occurrences (text p) YAP_V2_LEXICAL_PASSAGE i YAP_V2_FIELD_PASSAGE.

(** Numbered from [i]. *)
Fixpoint each_from {X} (f : Z -> X -> list YAP_V2_LEXICAL_OCCURRENCE) (i : Z) (xs : list X) : list YAP_V2_LEXICAL_OCCURRENCE :=
  match xs with [] => [] | x :: xs => f i x ++ each_from f (i + 1) xs end.

Definition segment_occurrences (documents : list YAP_V2_DOCUMENT_VIEW) (passages : list YAP_V2_PASSAGE_VIEW) : list YAP_V2_LEXICAL_OCCURRENCE :=
  each_from document_occurrences 0 documents ++ each_from passage_occurrences 0 passages.

(** The number of tokens of each field. *)
Definition token_totals (documents : list YAP_V2_DOCUMENT_VIEW) (passages : list YAP_V2_PASSAGE_VIEW) : list Z :=
  [foldr (fun d n => zlen (tokens (text_tokens (title d))) + n) 0 documents;
   foldr (fun d n => zlen (tokens (text_tokens (body d))) + n) 0 documents;
   foldr (fun p n => zlen (tokens (text_tokens (text p))) + n) 0 passages].
End occurrences.

(** ** Collecting the occurrences *)
Section tokens.
Context {A : Allocator} {T : Tokenizer}.

Definition prepared_ok (o : YAP_V2_LEXICAL_PREPARED) : Prop := zlen (prep_items o) <= prep_capacity o < 2 ^ 64.
Definition term_fits (x : YAP_V2_LEXICAL_OCCURRENCE) : Prop := bytes_ok (occ_term x) /\ 1 <= zlen (occ_term x) <= UINT32_MAX.

(** [o'] has [xs] more. *)
Definition extended (o o' : YAP_V2_LEXICAL_PREPARED) (xs : list YAP_V2_LEXICAL_OCCURRENCE) : Prop :=
  prepared_ok o' /\ prep_items o' = prep_items o ++ xs /\ Forall term_fits xs.

Lemma occurrence_add_spec o block start n type ord f pos fl : prepared_ok o -> bytes_ok block -> 0 <= start -> 0 <= n -> start + n <= zlen block ->
  match occurrence_add o block start n type ord f pos fl with
  | Ok o' => extended o o' [Occurrence (slice block start n) type ord f pos fl]
  | Err _ => True
  | Fault => False
  end.
Proof.
  intros [Hl Hc] Hb H0 Hn Hr. unfold occurrence_add. pose proof (zlen_nonneg (prep_items o)) as Hp.
  destruct (Z.eqb_spec n 0); [done|]. destruct (Z.ltb_spec UINT32_MAX n); [done|]. cbn [orb].
  assert (match (if zlen (prep_items o) =? prep_capacity o then
      let capacity := if prep_capacity o =? 0 then 256 else u64 (prep_capacity o * 2) in
      if (capacity <? prep_capacity o) || (SIZE_MAX / sizeof_occurrence <? capacity) then Err YAP_V2_OUT_OF_RANGE
      else if negb (alloc_ok (capacity * sizeof_occurrence)) then Err YAP_V2_ALLOCATION_FAILED
      else Ok (Prepared (prep_items o) capacity (prep_field_token_count o) (prep_document_count o) (prep_passage_count o))
    else Ok o) with Ok o1 => prep_items o1 = prep_items o /\ zlen (prep_items o) < prep_capacity o1 < 2 ^ 64 | Err _ => True | Fault => False end) as HG.
  { destruct (Z.eqb_spec (zlen (prep_items o)) (prep_capacity o)) as [E|N]; [|split; [done|lia]]. cbv zeta.
    destruct (_ || _) eqn:T1; [done|]. destruct (negb (alloc_ok _)); [done|]. cbn [prep_items prep_capacity]. split; [done|]. btests.
    change (SIZE_MAX / sizeof_occurrence) with 384307168202282325 in *. destruct (Z.eqb_spec (prep_capacity o) 0) as [E0|N0]; [lia|].
    unfold u64 in *. destruct (Z.lt_ge_cases (prep_capacity o) (2 ^ 63)).
    - rewrite Z.mod_small in * by lia. lia.
    - exfalso. assert (prep_capacity o * 2 mod 2 ^ 64 = prep_capacity o * 2 - 2 ^ 64) as E2; [|lia].
      symmetry. apply (Z.mod_unique _ _ 1); lia. }
  destruct (if _ =? _ then _ else _) as [o1| |]; cbn [mbind outcome_bind]; [|done|done]. destruct HG as [Ei Hcap]. rewrite Ei.
  rewrite (proj2 (Z.leb_gt _ _)) by lia. destruct (negb (alloc_ok n)); [done|]. rewrite load_bytes_slice, outcome_bind_ok by lia.
  split; [unfold prepared_ok; cbn [prep_items prep_capacity]; rewrite zlen_app, zlen_cons, zlen_nil; lia|]. split; [done|].
  constructor; [|done]. split; cbn [occ_term]; [by apply Forall_slice|]. rewrite zlen_slice by lia. lia.
Qed.

Lemma add_tokens_spec s type ord f count : sequence_wf s -> count <= UINT32_MAX -> forall ts i o, Forall (token_wf (normalized_utf8 s)) ts -> prepared_ok o ->
  0 <= i -> i + zlen ts <= count ->
  match add_tokens (normalized_utf8 s) ts i count type ord f o with
  | Ok o' => extended o o' (token_occurrences s ts i count type ord f)
  | Err _ => True
  | Fault => False
  end.
Proof.
  intros [[Hb Hsz] _] Hcount ts. induction ts as [|t ts IH]; intros i o HF Ho Hi Hl; cbn [add_tokens token_occurrences].
  { split; [done|]. by rewrite app_nil_r. }
  inversion HF as [|? ? [[H1 H2] H3] HF']; subst. rewrite zlen_cons in Hl. pose proof (zlen_nonneg ts). unfold UINT32_MAX, SIZE_MAX in *.
  rewrite u64_small by lia. assert (u32 i = i) as -> by (apply Z.mod_small; lia). assert (u32 count = count) as -> by (apply Z.mod_small; lia).
  pose proof (occurrence_add_spec o (normalized_utf8 s) (byte_start t) (byte_end t - byte_start t) type ord f i count Ho Hb H1 ltac:(lia) ltac:(lia)) as HA.
  destruct (occurrence_add _ _ _ _ _ _ _ _ _) as [o1| |]; cbn [mbind outcome_bind]; [|done|done]. destruct HA as (Ho1&E1&F1).
  specialize (IH (i + 1) o1 HF' Ho1 ltac:(lia) ltac:(lia)). destruct (add_tokens _ _ _ _ _ _ _ _) as [o2| |]; [|done|done]. destruct IH as (Ho2&E2&F2).
  split; [done|]. split; [by rewrite E2, E1, <- (assoc_L (++))|]. by apply Forall_cons in F1 as [? _]; constructor.
Qed.

Lemma tokenize_field_spec v type ord f o total : view_wf v -> prepared_ok o -> is_u64 total ->
  match tokenize_field v type ord f (o, total) with
  | Ok (o', total') => extended o o' (text_occurrences v type ord f) /\ total' = total + zlen (tokens (text_tokens v)) /\ is_u64 total'
  | Err _ => True
  | Fault => False
  end.
Proof.
  intros Hv Ho Ht. unfold tokenize_field, text_occurrences, text_tokens. destruct (Z.eqb_spec (len v) 0) as [E|N].
  { cbn [tokens token_occurrences]. change (zlen []) with 0. split; [split; [done|by rewrite app_nil_r]|split; [lia|done]]. }
  pose proof (tokenize_wf v Hv) as HT. destruct (YAP_V2_unicode_tokenize (data v) (len v)) as [s| |]; [|done|done]. rewrite outcome_bind_ok. cbv zeta.
  destruct (Z.ltb_spec UINT32_MAX (zlen (tokens s))); [done|]. destruct (Z.ltb_spec (2 ^ 64 - 1 - total) (zlen (tokens s))); [done|].
  pose proof (add_tokens_spec s type ord f (zlen (tokens s)) HT ltac:(lia) (tokens s) 0 o (seq_tokens s HT) Ho ltac:(lia) ltac:(lia)) as HA.
  destruct (add_tokens _ _ _ _ _ _ _ _) as [o1| |]; cbn [mbind outcome_bind]; [|done|done]. unfold is_u64 in *. pose proof (zlen_nonneg (tokens s)). split_and!; try done; lia.
Qed.

Lemma extended_trans o o1 o2 xs ys : extended o o1 xs -> extended o1 o2 ys -> extended o o2 (xs ++ ys).
Proof.
  intros (_&E1&F1) (H2&E2&F2). split; [done|]. split; [by rewrite E2, E1, <- (assoc_L (++))|by apply Forall_app_2].
Qed.
Lemma extended_refl o : prepared_ok o -> extended o o [].
Proof. intros H. split; [done|]. by rewrite app_nil_r. Qed.

Definition totals_ok (l : list Z) : Prop := length l = 3%nat /\ Forall is_u64 l.

Definition tokenized (o : YAP_V2_LEXICAL_PREPARED) (totals : list Z) (xs : list YAP_V2_LEXICAL_OCCURRENCE) (counts : nat -> Z)
    (r : result (YAP_V2_LEXICAL_PREPARED * list Z)) : Prop :=
  match r with
  | Ok (o', totals') => extended o o' xs /\ totals_ok totals' /\ forall f, (f < 3)%nat -> totals' !!! f = totals !!! f + counts f
  | Err _ => True
  | Fault => False
  end.

Lemma tokenize_into_spec (k : nat) v type ord f o totals : (k < 3)%nat -> view_wf v -> prepared_ok o -> totals_ok totals ->
  tokenized o totals (text_occurrences v type ord f) (fun i => if (i =? k)%nat then zlen (tokens (text_tokens v)) else 0) (tokenize_into k v type ord f (o, totals)).
Proof.
  intros Hk Hv Ho [H3 Hu]. unfold tokenize_into.
  assert (is_u64 (totals !!! k)) as Hk' by (apply Forall_lookup_total_1; [done|lia]).
  pose proof (tokenize_field_spec v type ord f o (totals !!! k) Hv Ho Hk') as HF.
  destruct (tokenize_field _ _ _ _ _) as [[o1 t]| |]; cbn [mbind outcome_bind]; [|done|done]. destruct HF as (HE&->&Ht). split_and!; [done| |].
  - split; [by rewrite length_insert|]. by apply Forall_insert.
  - intros i Hi. rewrite lookup_total_set by done. destruct (Nat.eqb_spec i k) as [->|N]; [by rewrite decide_True|]. rewrite decide_False by congruence. lia.
Qed.

(** One step after the other. *)
Lemma tokenized_bind o totals xs ys counts counts' r (k : YAP_V2_LEXICAL_PREPARED * list Z -> result (YAP_V2_LEXICAL_PREPARED * list Z)) :
  tokenized o totals xs counts r -> (forall o1 totals1, prepared_ok o1 -> totals_ok totals1 -> tokenized o1 totals1 ys counts' (k (o1, totals1))) ->
  tokenized o totals (xs ++ ys) (fun f => counts f + counts' f) (r ≫= k).
Proof.
  intros Hr Hk. destruct r as [[o1 totals1]| |]; cbn [mbind outcome_bind]; [|done|done]. destruct Hr as (HE&HT&HC). pose proof HE as (Hok&_).
  specialize (Hk o1 totals1 Hok HT). destruct (k (o1, totals1)) as [[o2 totals2]| |]; [|done|done]. destruct Hk as (HE2&HT2&HC2).
  split_and!; [by eapply extended_trans|done|]. intros f Hf. rewrite HC2, HC by done. lia.
Qed.

Lemma tokenized_ext o totals xs counts counts' r : (forall f, (f < 3)%nat -> counts f = counts' f) -> tokenized o totals xs counts r -> tokenized o totals xs counts' r.
Proof.
  intros HE. destruct r as [[o1 t1]| |]; [|done|done]. intros (?&?&HC). split_and!; [done|done|]. intros f Hf. rewrite <- HE by done. by apply HC.
Qed.

Definition document_counts (documents : list YAP_V2_DOCUMENT_VIEW) (f : nat) : Z :=
  match f with
  | 0%nat => foldr (fun d n => zlen (tokens (text_tokens (title d))) + n) 0 documents
  | 1%nat => foldr (fun d n => zlen (tokens (text_tokens (body d))) + n) 0 documents
  | _ => 0
  end.
Definition passage_counts (passages : list YAP_V2_PASSAGE_VIEW) (f : nat) : Z :=
  match f with 2%nat => foldr (fun p n => zlen (tokens (text_tokens (text p))) + n) 0 passages | _ => 0 end.

Lemma tokenize_document_spec d i o totals : document_wf d -> prepared_ok o -> totals_ok totals ->
  tokenized o totals (document_occurrences i d) (document_counts [d]) (tokenize_document d i (o, totals)).
Proof.
  intros Hd Ho HT. unfold tokenize_document. pose proof (document_validate_safe d Hd) as HV. destruct Hd as (_&_&Ht&Hb&_).
  destruct (YAP_V2_document_validate (Some d)) as [[]| |]; cbn [mbind outcome_bind]; [|done|done].
  eapply tokenized_ext; [|eapply tokenized_bind; [apply tokenize_into_spec; (done || lia)|intros; apply tokenize_into_spec; (done || lia)]].
  intros [|[|[|]]] Hf; cbn; lia.
Qed.

Lemma tokenize_documents_spec documents : Forall document_wf documents -> forall i o totals, prepared_ok o -> totals_ok totals ->
  tokenized o totals (each_from document_occurrences i documents) (document_counts documents) (tokenize_documents documents i (o, totals)).
Proof.
  induction 1 as [|d documents Hd _ IH]; intros i o totals Ho HT; cbn [tokenize_documents each_from].
  { split_and!; [by apply extended_refl|done|]. intros [|[|[|]]] Hf; cbn; lia. }
  eapply tokenized_ext; [|eapply tokenized_bind; [by apply tokenize_document_spec|intros; by apply IH]].
  intros [|[|[|]]] Hf; cbn; lia.
Qed.

Lemma tokenize_passages_spec passages : Forall passage_wf passages -> forall i o totals, prepared_ok o -> totals_ok totals ->
  tokenized o totals (each_from passage_occurrences i passages) (passage_counts passages) (tokenize_passages passages i (o, totals)).
Proof.
  induction 1 as [|p passages Hp _ IH]; intros i o totals Ho HT; cbn [tokenize_passages each_from].
  { split_and!; [by apply extended_refl|done|]. intros [|[|[|]]] Hf; cbn; lia. }
  pose proof (passage_validate_safe p Hp) as HV. destruct (YAP_V2_passage_validate (Some p)) as [[]| |]; cbn [mbind outcome_bind]; [|done|done].
  destruct Hp as (_&_&Hv&_).
  eapply tokenized_ext; [|eapply tokenized_bind; [apply tokenize_into_spec; (done || lia)|intros; by apply IH]].
  intros [|[|[|]]] Hf; cbn; lia.
Qed.

(** ** The occurrences are well formed *)
Lemma zlen_token_occurrences s ts i count type ord f : zlen (token_occurrences s ts i count type ord f) = zlen ts.
Proof. revert i. induction ts as [|t ts IH]; intros i; [done|]. cbn [token_occurrences]. by rewrite !zlen_cons, IH. Qed.

Lemma token_occurrences_in s ts count type ord f x : forall i, x ∈ token_occurrences s ts i count type ord f ->
  occ_object_type x = type /\ occ_object_ordinal x = ord /\ occ_field x = f /\ i <= occ_position x < i + zlen ts /\ occ_field_length x = count.
Proof.
  induction ts as [|t ts IH]; intros i Hx; cbn [token_occurrences] in Hx; [by apply elem_of_nil in Hx|].
  rewrite zlen_cons. pose proof (zlen_nonneg ts). apply elem_of_cons in Hx as [->|Hx]; [cbn; lia|]. specialize (IH (i + 1) Hx). lia.
Qed.

Lemma token_places s ts count type ord f : forall i, NoDup (place <$> token_occurrences s ts i count type ord f).
Proof.
  induction ts as [|t ts IH]; intros i; cbn [token_occurrences]; [constructor|]. rewrite fmap_cons. apply NoDup_cons. split; [|apply IH].
  intros (x&E&Hx)%list_elem_of_fmap. apply token_occurrences_in in Hx as (_&_&_&Hp&_). unfold place in E. cbn in E. injection E as ? ? ? ?. lia.
Qed.

(** An occurrence of a text. *)
Definition of_text (v : YAP_V2_BYTES_VIEW) (type ord f : Z) (x : YAP_V2_LEXICAL_OCCURRENCE) : Prop :=
  occ_object_type x = type /\ occ_object_ordinal x = ord /\ occ_field x = f /\
  0 <= occ_position x < zlen (tokens (text_tokens v)) /\ occ_field_length x = zlen (tokens (text_tokens v)).

Lemma text_occurrences_in v type ord f x : x ∈ text_occurrences v type ord f -> of_text v type ord f x.
Proof. intros (?&?&?&?&?)%token_occurrences_in. unfold of_text. split_and!; done || lia. Qed.

Lemma document_occurrences_in i d x : x ∈ document_occurrences i d ->
  of_text (title d) YAP_V2_LEXICAL_DOCUMENT i YAP_V2_FIELD_TITLE x \/ of_text (body d) YAP_V2_LEXICAL_DOCUMENT i YAP_V2_FIELD_BODY x.
Proof. intros [Hx|Hx]%elem_of_app; [left|right]; by apply text_occurrences_in. Qed.

Lemma each_from_in {X} (g : Z -> X -> list YAP_V2_LEXICAL_OCCURRENCE) xs x : forall i, x ∈ each_from g i xs ->
  exists (k : nat) y, xs !! k = Some y /\ x ∈ g (i + Z.of_nat k) y.
Proof.
  induction xs as [|y xs IH]; intros i Hx; cbn [each_from] in Hx; [by apply elem_of_nil in Hx|]. apply elem_of_app in Hx as [Hx|Hx].
  - exists 0%nat, y. split; [done|]. by rewrite Z.add_0_r.
  - destruct (IH (i + 1) Hx) as (k&z&Hk&Hz). exists (S k), z. split; [done|]. by replace (i + Z.of_nat (S k)) with (i + 1 + Z.of_nat k) by lia.
Qed.

Lemma each_from_part {X} (g : Z -> X -> list YAP_V2_LEXICAL_OCCURRENCE) xs : forall i (k : nat) y, xs !! k = Some y ->
  zlen (g (i + Z.of_nat k) y) <= zlen (each_from g i xs).
Proof.
  induction xs as [|x xs IH]; intros i [|k] y Hk; try done; cbn [each_from]; rewrite zlen_app.
  - injection Hk as ->. rewrite Z.add_0_r. pose_zlen. lia.
  - specialize (IH (i + 1) k y Hk). replace (i + Z.of_nat (S k)) with (i + 1 + Z.of_nat k) by lia. pose_zlen. lia.
Qed.

Lemma each_from_places {X} (g : Z -> X -> list YAP_V2_LEXICAL_OCCURRENCE) xs :
  (forall i x, NoDup (place <$> g i x)) -> (forall i x o, o ∈ g i x -> occ_object_ordinal o = i) -> forall i, NoDup (place <$> each_from g i xs).
Proof.
  intros HN HO. induction xs as [|x xs IH]; intros i; cbn [each_from]; [constructor|]. rewrite fmap_app. apply NoDup_app. split_and!; [apply HN| |apply IH].
  intros q (o&->&Ho)%list_elem_of_fmap (o'&E&Ho')%list_elem_of_fmap. destruct (each_from_in g xs o' (i + 1) Ho') as (k&y&_&Hy).
  apply HO in Ho, Hy. unfold place in E. injection E as ? ? ? ?. lia.
Qed.

(** The texts of a segment, by object and field. *)
Definition segment_text (documents : list YAP_V2_DOCUMENT_VIEW) (passages : list YAP_V2_PASSAGE_VIEW) (type ord f : Z) (v : YAP_V2_BYTES_VIEW) : Prop :=
  0 <= ord /\
  (type = YAP_V2_LEXICAL_DOCUMENT /\ (exists d, documents !! Z.to_nat ord = Some d /\ (f = YAP_V2_FIELD_TITLE /\ v = title d \/ f = YAP_V2_FIELD_BODY /\ v = body d)) \/
   type = YAP_V2_LEXICAL_PASSAGE /\ (exists p, passages !! Z.to_nat ord = Some p /\ f = YAP_V2_FIELD_PASSAGE /\ v = text p)).

Lemma segment_text_unique documents passages type ord f v v' :
  segment_text documents passages type ord f v -> segment_text documents passages type ord f v' -> v = v'.
Proof.
  unfold segment_text, YAP_V2_LEXICAL_DOCUMENT, YAP_V2_LEXICAL_PASSAGE, YAP_V2_FIELD_TITLE, YAP_V2_FIELD_BODY, YAP_V2_FIELD_PASSAGE.
  intros (_&[[E (d&Hd&H)]|[E (p&Hp&F&->)]]) (_&[[E' (d'&Hd'&H')]|[E' (p'&Hp'&F'&->)]]); simplify_eq; try lia; [|done].
  destruct H as [[F ->]|[F ->]], H' as [[F' ->]|[F' ->]]; done || lia.
Qed.

Lemma segment_occurrences_in documents passages x : x ∈ segment_occurrences documents passages ->
  exists v, segment_text documents passages (occ_object_type x) (occ_object_ordinal x) (occ_field x) v /\
    of_text v (occ_object_type x) (occ_object_ordinal x) (occ_field x) x /\
    zlen (tokens (text_tokens v)) <= zlen (segment_occurrences documents passages).
Proof.
  unfold segment_occurrences. rewrite zlen_app. pose proof (zlen_nonneg (each_from document_occurrences 0 documents)) as HD.
  pose proof (zlen_nonneg (each_from passage_occurrences 0 passages)) as HP. intros [Hx|Hx]%elem_of_app.
  - apply each_from_in in Hx as (k&d&Hk&Hx). pose proof (each_from_part document_occurrences documents 0 k d Hk) as Hz.
    rewrite Z.add_0_l in *. unfold document_occurrences in Hz at 1. rewrite zlen_app in Hz. unfold text_occurrences in Hz. rewrite !zlen_token_occurrences in Hz.
    pose proof (zlen_nonneg (tokens (text_tokens (title d)))). pose proof (zlen_nonneg (tokens (text_tokens (body d)))).
    apply document_occurrences_in in Hx as [Hx|Hx]; pose proof Hx as (->&->&->&_);
      [exists (title d)|exists (body d)]; (split; [split; [lia|]; left; split; [done|]; exists d; rewrite Nat2Z.id; split; [done|]; by (left + right)|split; [done|lia]]).
  - apply each_from_in in Hx as (k&p&Hk&Hx). pose proof (each_from_part passage_occurrences passages 0 k p Hk) as Hz.
    rewrite Z.add_0_l in *. unfold passage_occurrences in Hz at 1. unfold text_occurrences in Hz. rewrite !zlen_token_occurrences in Hz.
    apply text_occurrences_in in Hx. pose proof Hx as (->&->&->&_). exists (text p).
    split; [split; [lia|]; right; split; [done|]; exists p; by rewrite Nat2Z.id|split; [done|lia]].
Qed.

Lemma segment_text_object documents passages type ord f v : segment_text documents passages type ord f v ->
  (type = YAP_V2_LEXICAL_DOCUMENT /\ 0 <= ord < zlen documents \/ type = YAP_V2_LEXICAL_PASSAGE /\ 0 <= ord < zlen passages) /\ 1 <= f <= 3.
Proof.
  unfold zlen. intros (H0&[[E (d&Hd&H)]|[E (p&Hp&F&->)]]).
  - apply lookup_lt_Some in Hd. split; [left; split; [done|lia]|]. unfold YAP_V2_FIELD_TITLE, YAP_V2_FIELD_BODY in H. lia.
  - apply lookup_lt_Some in Hp. split; [right; split; [done|lia]|]. unfold YAP_V2_FIELD_PASSAGE in F. lia.
Qed.

Lemma document_places i d : NoDup (place <$> document_occurrences i d).
Proof.
  unfold document_occurrences. rewrite fmap_app. apply NoDup_app. split_and!; [apply token_places| |apply token_places].
  intros q (o&->&(_&_&F&_)%text_occurrences_in)%list_elem_of_fmap (o'&E&(_&_&F'&_)%text_occurrences_in)%list_elem_of_fmap.
  unfold place in E. injection E as ? ? E ?. rewrite F, F' in E. done.
Qed.

Lemma segment_places documents passages : NoDup (place <$> segment_occurrences documents passages).
Proof.
  unfold segment_occurrences. rewrite fmap_app. apply NoDup_app. split_and!.
  - apply each_from_places; [apply document_places|]. by intros i d o [(_&?&_)|(_&?&_)]%document_occurrences_in.
  - intros q (o&->&(k&d&_&Ho)%each_from_in)%list_elem_of_fmap (o'&E&(k'&p&_&Ho')%each_from_in)%list_elem_of_fmap.
    apply text_occurrences_in in Ho' as (T'&_). apply document_occurrences_in in Ho as [(T1&_)|(T1&_)]; unfold place in E; injection E as E ? ? ?; rewrite T1, T' in E; done.
  - apply each_from_places; [intros; apply token_places|]. by intros i p o (_&?&_)%text_occurrences_in.
Qed.

Lemma segment_occurrences_wf documents passages : Forall term_fits (segment_occurrences documents passages) ->
  occurrences_wf (zlen documents) (zlen passages) (segment_occurrences documents passages).
Proof.
  intros HT. split; [|apply segment_places|].
  - apply Forall_forall. intros x Hx. rewrite Forall_forall in HT. destruct (segment_occurrences_in _ _ _ Hx) as (v&Hv&(_&_&_&Hp&Hl)&Hz).
    apply segment_text_object in Hv as [? ?]. split; [by apply HT|done|done|lia].
  - intros o o' (v&Hv&(_&_&_&_&->)&_)%segment_occurrences_in (v'&Hv'&(_&_&_&_&->)&_)%segment_occurrences_in E.
    unfold field_of in E. injection E as E1 E2 E3. rewrite E1, E2, E3 in Hv. by rewrite (segment_text_unique _ _ _ _ _ _ _ Hv Hv').
Qed.
End tokens.

Lemma occurrences_wf_perm documents passages os os' : Permutation os os' -> occurrences_wf documents passages os -> occurrences_wf documents passages os'.
Proof.
  intros HP [H1 H2 H3]. assert (zlen os = zlen os') as Hz by (unfold zlen; by rewrite HP). split.
  - rewrite <- Hz. by rewrite <- HP.
  - by rewrite <- HP.
  - intros o o'. rewrite <- HP. apply H3.
Qed.

(** ** Writing and opening *)
Lemma zlen_positions_images groups : forall index, 8 * zlen (concat groups) <= zlen (images_from term_positions_image index groups).
Proof.
  induction groups as [|g groups IH]; intros index; cbn [concat images_from]; [done|]. unfold term_positions_image at 1.
  rewrite !zlen_app, (zlen_array position_image 8), !zlen_put_u64_le by apply zlen_position_image. specialize (IH (index + 1)). lia.
Qed.

(** Opening the index in [dir], when the file system does not fail, shows [items]. *)
Definition opens (dir : bytes) (g : Z) (items : list YAP_V2_LEXICAL_OCCURRENCE) (documents passages : Z) (totals : list Z) (w : world) : Prop :=
  exists s, YAP_V2_lexical_segment_open (A := alloc_total) (Some dir) g (set_script w []) = Done (Ok s) (set_script w []) /\
    lexical_ok s /\ Permutation (read_occurrences s) items /\
    lex_document_count s = documents /\ lex_passage_count s = passages /\ field_token_count s = totals.

Section roundtrip.
Context {A : Allocator} {Q : Qsort} (garbage : nat -> Z) (dir : bytes) (g : Z) (w0 : world).
Context (Hg : is_u64 g) (Hg0 : g <> 0) (Hap : apart_names (index_names dir) w0).

(** The files are the images of the occurrences in their order. *)
Definition index_image (items : list YAP_V2_LEXICAL_OCCURRENCE) (documents passages : Z) (totals : list Z) (cs : list YAP_V2_COMPONENT_DESCRIPTOR) (w : world) : Prop :=
  exists sorted_, Permutation sorted_ items /\ StronglySorted occurrence_le sorted_ /\
  let groups := runs same_term sorted_ in
  index_stored dir g (zlen groups) (posting_total groups) (zlen items) (terms_image groups) (postings_image documents passages totals groups) (positions_image groups) w0 cs w /\
  zlen (terms_image groups) <= YAP_V2_MAX_SEGMENT_PAYLOAD_BYTES /\ zlen (postings_image documents passages totals groups) <= YAP_V2_MAX_SEGMENT_PAYLOAD_BYTES /\
  zlen (positions_image groups) <= YAP_V2_MAX_SEGMENT_PAYLOAD_BYTES.

Lemma index_image_permutation items items' documents passages totals cs w : Permutation items items' ->
  index_image items documents passages totals cs w -> index_image items' documents passages totals cs w.
Proof.
  intros HP (s&Hp&Hs&Hw). exists s. assert (zlen items = zlen items') as Ez by (unfold zlen; by rewrite HP). rewrite <- Ez. split; [by rewrite Hp|done].
Qed.

Lemma built_sizes groups documents passages totals p : built groups documents passages totals p ->
  zlen (terms_image groups) <= YAP_V2_MAX_SEGMENT_PAYLOAD_BYTES /\ zlen (postings_image documents passages totals groups) <= YAP_V2_MAX_SEGMENT_PAYLOAD_BYTES /\
  zlen (positions_image groups) <= YAP_V2_MAX_SEGMENT_PAYLOAD_BYTES.
Proof.
  intros ([B1 B2 B3]&E1&E2&E3). rewrite <- E1, <- E2, <- E3. rewrite !zlen_content by done. destruct B1 as (?&?&_), B2 as (?&?&_), B3 as (?&?&_). lia.
Qed.

Definition index_written (items : list YAP_V2_LEXICAL_OCCURRENCE) (documents passages : Z) (totals : list Z)
    (r : result (list YAP_V2_COMPONENT_DESCRIPTOR)) (w : world) : Prop :=
  match r with Ok cs => opens dir g items documents passages totals w /\ index_image items documents passages totals cs w | Err _ => True | Fault => False end.

Lemma built_opens items documents passages totals p w : occurrences_wf documents passages items ->
  0 <= documents < 2 ^ 63 -> 0 <= passages < 2 ^ 63 -> totals_ok totals -> built (runs same_term (sorted_items items)) documents passages totals p ->
  index_files dir g (content (pay_terms p)) (content (pay_postings p)) (content (pay_positions p)) w -> opens dir g items documents passages totals w.
Proof.
  intros Hwf Hd Hp [H3 Hu] ([B1 B2 B3]&E1&E2&E3) HF. pose proof (sorted_items_permutation items) as HP. pose proof (sorted_items_sorted items) as HS.
  apply zlen_content in B1 as Z1. apply zlen_content in B2 as Z2. apply zlen_content in B3 as Z3. destruct B1 as (L1&B1&_), B2 as (L2&B2&_), B3 as (L3&B3&_).
  rewrite E1 in Z1. rewrite E2 in Z2. rewrite E3 in Z3. rewrite E1, E2, E3 in HF.
  assert (zlen (sorted_items items) < 2 ^ 28) as Hz.
  { pose proof (zlen_positions_images (runs same_term (sorted_items items)) 0) as Hi. rewrite runs_concat in Hi.
    unfold positions_image in Z3. rewrite !zlen_app in Z3. pose_zlen. unfold YAP_V2_MAX_SEGMENT_PAYLOAD_BYTES in *. lia. }
  destruct (open_written dir g g documents passages totals (sorted_items items) (set_script w [])) as (s&HO&Hok&Hr&Hc); try done; try lia.
  - by apply (occurrences_wf_perm _ _ items).
  - exists s. split_and!; try done; [|apply Hc..]. by rewrite Hr.
Qed.

Lemma write_occurrences_wp items documents passages totals : occurrences_wf documents passages items -> zlen items < 2 ^ 64 ->
  0 <= documents < 2 ^ 63 -> 0 <= passages < 2 ^ 63 -> totals_ok totals ->
  wp (write_occurrences garbage dir g items documents passages totals) (index_written items documents passages totals) trivial w0.
Proof.
  intros Hwf Hz Hd Hp Ht. unfold write_occurrences.
  assert (Forall item_small items) as HS.
  { apply Forall_forall. intros o Ho. apply (proj1 (Forall_forall _ _) (owf_each _ _ _ Hwf)) in Ho. destruct (ow_term _ _ _ _ Ho). unfold item_small, UINT32_MAX in *. lia. }
  pose proof (build_payloads_spec garbage items documents passages totals HS Hz) as HB. cbv zeta in HB.
  destruct (build_payloads _ _ _ _ _ _) as [[[p n] m]|e|]; [|by apply wp_ret|done]. destruct HB as (->&->&HB).
  eapply wp_mono; [apply write_payloads_wp; [done|apply HB|done]|]. intros [cs|e|] w HF; [|done|done]. split.
  - apply (built_opens items documents passages totals p); try done. by apply index_shown_files, HF.
  - exists (sorted_items items). split; [apply sorted_items_permutation|]. split; [apply sorted_items_sorted|]. cbv zeta.
    pose proof (built_sizes _ _ _ _ _ HB) as Hsz. destruct HB as (_&E1&E2&E3). by rewrite E1, E2, E3 in HF.
Qed.

Lemma tokenize_segment_spec {T : Tokenizer} documents passages : Forall document_wf documents -> Forall passage_wf passages ->
  match (s ← tokenize_documents documents 0 (YAP_V2_lexical_prepared_init, [0; 0; 0]); tokenize_passages passages 0 s) with
  | Ok (o, totals) => zlen (prep_items o) < 2 ^ 64 /\ prep_items o = segment_occurrences documents passages /\ totals = token_totals documents passages /\
      totals_ok totals /\ Forall term_fits (prep_items o)
  | Err _ => True
  | Fault => False
  end.
Proof.
  intros Hd Hp. assert (prepared_ok YAP_V2_lexical_prepared_init) as H0 by done. assert (totals_ok [0; 0; 0]) as T0 by (split; [done|repeat constructor; lia]).
  pose proof (tokenized_bind _ _ _ _ _ _ _ (tokenize_passages passages 0) (tokenize_documents_spec documents Hd 0 _ _ H0 T0)
    (fun o t Ho Ht => tokenize_passages_spec passages Hp 0 o t Ho Ht)) as HT.
  destruct (tokenize_documents documents 0 _ ≫= _) as [[o totals]|e|]; [|done|done]. destruct HT as (([Ho1 Ho2]&E&HF)&[Hl Hu]&HC).
  cbn [prep_items YAP_V2_lexical_prepared_init app] in E. rewrite E. split_and!; [rewrite <- E; lia|done| |done|done].
  destruct totals as [|a [|b [|c []]]]; try done. pose proof (HC 0%nat ltac:(lia)) as C0. pose proof (HC 1%nat ltac:(lia)) as C1. pose proof (HC 2%nat ltac:(lia)) as C2.
  cbn in C0, C1, C2. unfold token_totals. f_equal; [|f_equal; [|f_equal]]; lia.
Qed.

Lemma lexical_write_wp {T : Tokenizer} documents passages : Forall document_wf documents -> Forall passage_wf passages ->
  wp (YAP_V2_lexical_write garbage (Some dir) g documents passages)
    (index_written (segment_occurrences documents passages) (zlen documents) (zlen passages) (token_totals documents passages)) trivial w0.
Proof.
  intros Hd Hp. unfold YAP_V2_lexical_write. destruct (_ || _) eqn:E; [by apply wp_ret|]. btests.
  unfold YAP_V2_MAX_SEGMENT_DOCUMENTS, YAP_V2_MAX_SEGMENT_PASSAGES in *. pose proof (zlen_nonneg documents). pose proof (zlen_nonneg passages).
  pose proof (tokenize_segment_spec documents passages Hd Hp) as HT. destruct (tokenize_documents _ _ _ ≫= _) as [[o totals]|e|]; [|by apply wp_ret|done].
  destruct HT as (Hz&E1&->&Ht&HF). rewrite E1 in *. apply write_occurrences_wp; [by apply segment_occurrences_wf|done|lia|lia|done].
Qed.
End roundtrip.

(** ** Units that are tokenised first *)
Section units.
Context {A : Allocator} {T : Tokenizer}.

Record unit_prepared (d : YAP_V2_DOCUMENT_VIEW) (ps : list YAP_V2_PASSAGE_VIEW) (p : YAP_V2_LEXICAL_PREPARED) : Prop := {
  up_items : prep_items p = segment_occurrences [d] ps;
  up_totals : prep_field_token_count p = token_totals [d] ps;
  up_totals_ok : totals_ok (prep_field_token_count p);
  up_documents : prep_document_count p = 1;
  up_passages : prep_passage_count p = zlen ps;
  up_fits : Forall term_fits (prep_items p);
  up_count : zlen (prep_items p) < 2 ^ 64 }.

Lemma prepare_unit_spec d ps : document_wf d -> Forall passage_wf ps ->
  match YAP_V2_lexical_prepare_unit (Some d) ps with Ok p => unit_prepared d ps p | Err _ => True | Fault => False end.
Proof.
  intros Hd Hp. pose proof (tokenize_segment_spec [d] ps ltac:(by constructor) Hp) as HT. unfold YAP_V2_lexical_prepare_unit.
  cbn [tokenize_documents] in HT. destruct (tokenize_document d 0 _) as [s|e|]; cbn [mbind outcome_bind] in *; [|done|done].
  destruct (tokenize_passages ps 0 s) as [[o totals]|e|]; cbn [mbind outcome_bind] in *; [|done|done].
  destruct HT as (Hz&E&Et&Ht&HF). by split.
Qed.

Lemma rebase_text db pb v type ord f ord' : u64 (ord + (if type =? YAP_V2_LEXICAL_DOCUMENT then db else pb)) = ord' ->
  rebase db pb <$> text_occurrences v type ord f = text_occurrences v type ord' f.
Proof.
  intros E. assert (forall s ts count i, rebase db pb <$> token_occurrences s ts i count type ord f = token_occurrences s ts i count type ord' f) as H; [|apply H].
  intros s ts count. induction ts as [|t ts IH]; intros i; [done|]. cbn [token_occurrences]. rewrite fmap_cons, IH. f_equal. unfold rebase. cbn. by rewrite E.
Qed.

Lemma rebase_document db pb d : is_u64 db -> rebase db pb <$> document_occurrences 0 d = document_occurrences db d.
Proof. intros Hd. unfold document_occurrences. rewrite fmap_app. f_equal; apply rebase_text; by apply u64_small. Qed.

Lemma rebase_passages db pb ps : forall i, 0 <= i -> 0 <= pb -> i + pb + zlen ps < 2 ^ 64 ->
  rebase db pb <$> each_from passage_occurrences i ps = each_from passage_occurrences (i + pb) ps.
Proof.
  induction ps as [|p ps IH]; intros i H1 H2 H3; [done|]. rewrite zlen_cons in H3. pose proof (zlen_nonneg ps). cbn [each_from].
  rewrite fmap_app, IH by lia. f_equal; [|f_equal; lia]. apply rebase_text. cbn. apply u64_small. lia.
Qed.

Lemma each_from_app {X} (f : Z -> X -> list YAP_V2_LEXICAL_OCCURRENCE) xs ys : forall i, each_from f i (xs ++ ys) = each_from f i xs ++ each_from f (i + zlen xs) ys.
Proof.
  induction xs as [|x xs IH]; intros i; cbn [each_from app]; [by rewrite zlen_nil, Z.add_0_r|].
  rewrite IH, zlen_cons, <- (assoc_L (++)). do 3 f_equal. lia.
Qed.

Lemma add_totals_spec counts : forall totals, length counts = length totals -> Forall is_u64 counts -> Forall is_u64 totals ->
  match add_totals counts totals with
  | Ok t => t = zip_with Z.add totals counts /\ Forall is_u64 t
  | Err _ => True
  | Fault => False
  end.
Proof.
  induction counts as [|c counts IH]; intros [|t totals] Hl Hc Ht; try done. apply Forall_cons in Hc as [Hc Hcs], Ht as [Ht Hts].
  cbn [add_totals zip_with]. destruct (Z.ltb_spec (2 ^ 64 - 1 - t) c); [done|]. injection Hl as Hl. specialize (IH totals Hl Hcs Hts).
  destruct (add_totals counts totals) as [r|e|]; cbn [mbind outcome_bind]; [|done|done]. destruct IH as [-> HF].
  split; [done|]. constructor; [unfold is_u64 in *; lia|done].
Qed.

Lemma token_totals_app ds d ps qs : token_totals (ds ++ [d]) (ps ++ qs) = zip_with Z.add (token_totals ds ps) (token_totals [d] qs).
Proof.
  unfold token_totals. cbn [zip_with foldr]. f_equal; [|f_equal; [|f_equal]]; clear.
  - induction ds as [|x ds IH]; cbn [foldr app]; lia.
  - induction ds as [|x ds IH]; cbn [foldr app]; lia.
  - induction ps as [|x ps IH]; cbn [foldr app]; lia.
Qed.

(** The state of the loop over the units, after [ds] and [ps]. *)
Record combined (ds : list YAP_V2_DOCUMENT_VIEW) (ps : list YAP_V2_PASSAGE_VIEW) (items : list YAP_V2_LEXICAL_OCCURRENCE) (totals : list Z) (db pb : Z) : Prop := {
  cb_items : Permutation items (segment_occurrences ds ps);
  cb_totals : totals = token_totals ds ps /\ totals_ok totals;
  cb_documents : db = zlen ds;
  cb_passages : pb = zlen ps;
  cb_fits : Forall term_fits items }.

Lemma combine_step ds ps items totals db pb d qs p : combined ds ps items totals db pb -> unit_prepared d qs p ->
  zlen ds + 1 < 2 ^ 63 -> zlen ps + zlen qs < 2 ^ 63 ->
  match add_totals (prep_field_token_count p) totals with
  | Ok t => combined (ds ++ [d]) (ps ++ qs) (items ++ (rebase db pb <$> prep_items p)) t
              (u64 (db + prep_document_count p)) (u64 (pb + prep_passage_count p))
  | Err _ => True
  | Fault => False
  end.
Proof.
  intros [H1 [H2 [H3 H3']] -> -> H4] [U1 U2 [U3 U3'] U4 U5 U6 _] Hd Hp. pose_zlen.
  pose proof (add_totals_spec (prep_field_token_count p) totals ltac:(congruence) U3' H3') as HA.
  destruct (add_totals _ _) as [t|e|]; [|done|done]. destruct HA as [-> Ht].
  assert (rebase (zlen ds) (zlen ps) <$> prep_items p = document_occurrences (zlen ds) d ++ each_from passage_occurrences (zlen ps) qs) as ER.
  { rewrite U1. unfold segment_occurrences. cbn [each_from]. rewrite app_nil_r, fmap_app, rebase_document, rebase_passages, Z.add_0_l by (unfold is_u64; lia). done. }
  split.
  - rewrite ER, H1. unfold segment_occurrences. rewrite !each_from_app, !Z.add_0_l. cbn [each_from]. rewrite app_nil_r. solve_Permutation.
  - rewrite H2, U2, token_totals_app. split; [done|]. rewrite <- token_totals_app. split; [done|]. by rewrite token_totals_app, <- H2, <- U2.
  - rewrite U4, zlen_app, zlen_cons, zlen_nil, u64_small by lia. done.
  - rewrite U5, zlen_app, u64_small by lia. done.
  - apply Forall_app_2; [done|]. apply Forall_fmap. eapply Forall_impl; [exact U6|]. by intros o.
Qed.

Lemma combine_spec : forall units prepared ds ps items totals db pb, Forall2 (fun u p => unit_prepared u.1 u.2 p) units prepared ->
  combined ds ps items totals db pb -> zlen ds + zlen units < 2 ^ 63 -> zlen ps + zlen (concat (snd <$> units)) < 2 ^ 63 ->
  match combine prepared items totals db pb with
  | Ok (items', totals', d', p') => combined (ds ++ (fst <$> units)) (ps ++ concat (snd <$> units)) items' totals' d' p'
  | Err _ => True
  | Fault => False
  end.
Proof.
  intros units prepared ds ps items totals db pb HF. revert ds ps items totals db pb.
  induction HF as [|[d qs] p units prepared Hu HF IH]; intros ds ps items totals db pb HC Hd Hp; cbn [combine fmap list_fmap concat fst snd] in *.
  { by rewrite !app_nil_r. }
  rewrite zlen_cons in Hd. rewrite zlen_app in Hp. pose proof (zlen_nonneg units). pose proof (zlen_nonneg (concat (snd <$> units))).
  pose proof (combine_step ds ps items totals db pb d qs p HC Hu ltac:(lia) ltac:(unfold fmap in *; lia)) as HS.
  destruct (add_totals _ _) as [t|e|]; cbn [mbind outcome_bind]; [|done|done].
  specialize (IH _ _ _ _ _ _ HS). rewrite !zlen_app, zlen_cons, zlen_nil in IH. specialize (IH ltac:(lia) ltac:(unfold fmap in *; lia)).
  destruct (combine _ _ _ _ _) as [[[[items' totals'] d'] p']|e|]; [|done|done]. by rewrite <- !(assoc_L (++)) in IH.
Qed.

Lemma combined_count_sum prepared : forall n m, combined_count (Some <$> prepared) n = Ok m -> m = n + zlen (concat (prep_items <$> prepared)).
Proof.
  induction prepared as [|p prepared IH]; intros n m; cbn [combined_count fmap list_fmap concat]; [intros [= ->]; rewrite zlen_nil; lia|].
  destruct (_ <? _); [done|]. intros H. apply IH in H as ->. rewrite zlen_app. unfold fmap. lia.
Qed.

Lemma combined_count_safe prepared : forall n, combined_count (Some <$> prepared) n <> Fault.
Proof. induction prepared as [|p prepared IH]; intros n; cbn [combined_count fmap list_fmap]; [done|]. destruct (_ <? _); [done|]. apply IH. Qed.

Lemma combine_zlen prepared : forall items totals db pb items' totals' d' p', combine prepared items totals db pb = Ok (items', totals', d', p') ->
  zlen items' = zlen items + zlen (concat (prep_items <$> prepared)).
Proof.
  induction prepared as [|p prepared IH]; intros items totals db pb items' totals' d' p'; cbn [combine fmap list_fmap concat].
  - intros [= <- _ _ _]. rewrite zlen_nil. lia.
  - destruct (add_totals _ _) as [t|e|]; cbn [mbind outcome_bind]; [|done|done]. intros H. apply IH in H as ->. rewrite !zlen_app, zlen_fmap. unfold fmap. lia.
Qed.

Lemma write_prepared_wp {Q : Qsort} garbage dir g w0 units prepared : is_u64 g -> g <> 0 -> apart_names (index_names dir) w0 ->
  Forall2 (fun u p => unit_prepared u.1 u.2 p) units prepared -> zlen units < 2 ^ 63 -> zlen (concat (snd <$> units)) < 2 ^ 63 ->
  wp (YAP_V2_lexical_write_prepared garbage (Some dir) g (Some <$> prepared))
    (index_written dir g w0 (segment_occurrences (fst <$> units) (concat (snd <$> units))) (zlen units) (zlen (concat (snd <$> units)))
       (token_totals (fst <$> units) (concat (snd <$> units)))) trivial w0.
Proof.
  intros Hg Hg0 Hap HF Hu Hp. unfold YAP_V2_lexical_write_prepared. destruct (_ || _); [by apply wp_ret|].
  pose proof (combined_count_sum prepared 0) as Hc. pose proof (combined_count_safe prepared 0) as Hc'.
  destruct (combined_count _ 0) as [m|e|]; cbn [mbind outcome_bind]; [|by apply wp_ret|done]. specialize (Hc m eq_refl). rewrite Z.add_0_l in Hc.
  destruct (Z.ltb_spec (SIZE_MAX / sizeof_occurrence) m) as [|Hm]; [by apply wp_ret|]. destruct (_ && _); [by apply wp_ret|].
  assert (omap (fun p => p) (Some <$> prepared) = prepared) as -> by (clear; induction prepared as [|p ps IH]; [done|]; cbn; f_equal; exact IH).
  assert (combined [] [] [] [0; 0; 0] 0 0) as H0 by (split; [done|split; [done|]; split; [done|]; repeat constructor; lia|done|done|done]).
  pose proof (combine_spec units prepared [] [] [] [0; 0; 0] 0 0 HF H0 ltac:(rewrite zlen_nil; lia) ltac:(rewrite zlen_nil; lia)) as HC.
  pose proof (combine_zlen prepared [] [0; 0; 0] 0 0) as HZ.
  destruct (combine _ _ _ _ _) as [[[[items totals] d'] p']|e|]; [|by apply wp_ret|done]. destruct HC as [HP [E Ht] -> -> Hfit]. cbn [app] in HP, E.
  specialize (HZ _ _ _ _ eq_refl). rewrite zlen_nil, Z.add_0_l, <- Hc in HZ. change (SIZE_MAX / sizeof_occurrence) with 384307168202282325 in Hm.
  cbn [app]. rewrite zlen_fmap. subst totals. eapply wp_mono; [apply (write_occurrences_wp garbage dir g w0 Hg Hg0 Hap items)|].
  - apply (occurrences_wf_perm _ _ (segment_occurrences (fst <$> units) (concat (snd <$> units)))); [by symmetry|].
    rewrite <- (zlen_fmap fst units). apply segment_occurrences_wf. by rewrite <- HP.
  - lia.
  - pose proof (zlen_nonneg units). lia.
  - pose proof (zlen_nonneg (concat (snd <$> units))). lia.
  - done.
  - intros [cs|e|] w Hw; [|done|done]. destruct Hw as [(s&?&?&HP'&Hc'') Hi]. split; [|by eapply index_image_permutation].
    exists s. split_and!; [done|done|by rewrite HP', HP|apply Hc''..].
Qed.
End units.

(** ** Sorting is possible *)
Record comparator {X} (f : X -> X -> comparison) : Prop := {
  cmp_flip a b : f b a = CompOpp (f a b);
  cmp_trans a b c : f a b <> Gt -> f b c <> Gt -> f a c <> Gt }.

Lemma comparator_on {X Y} (k : Y -> X) f : comparator f -> comparator (fun a b => f (k a) (k b)).
Proof. intros [H1 H2]. split; [intros; apply H1|intros a b c; apply H2]. Qed.

Lemma Z_comparator : comparator Z.compare.
Proof. split; [intros a b; apply Z.compare_antisym|intros a b c; rewrite !Z.compare_le_iff; lia]. Qed.

Lemma bytes_comparator : comparator bytes_compare.
Proof.
  split; [intros a b; apply bytes_compare_flip|]. intros a b c H1 H2. destruct (bytes_compare a b) eqn:E1; [|destruct (bytes_compare b c) eqn:E2|done].
  - by apply bytes_compare_eq in E1 as ->.
  - apply bytes_compare_eq in E2 as ->. by rewrite E1.
  - by rewrite (bytes_compare_trans a b c).
  - done.
Qed.

Lemma lex_comparator {X} (f g : X -> X -> comparison) : comparator f -> comparator g -> comparator (fun a b => lex (f a b) (g a b)).
Proof.
  intros [F1 F2] [G1 G2]. split; [intros a b; rewrite F1, G1; by destruct (f a b)|].
  intros a b c. rewrite !lex_le. intros H1 H2. pose proof (F2 a b c) as H3. pose proof (F2 b c a) as H4. pose proof (F2 c a b) as H5.
  rewrite (F1 a c) in H4, H5. rewrite (F1 a b) in H4. rewrite (F1 b c) in H5.
  destruct H1 as [E1|[E1 L1]], H2 as [E2|[E2 L2]]; rewrite E1, E2 in *; destruct (f a c); cbn in *; try (by left);
    try (by right; split; [|apply (G2 a b c)]); exfalso; (by apply H3) || (by apply H4) || (by apply H5).
Qed.

Lemma occurrence_comparator : comparator occurrence_compare.
Proof.
  assert (comparator (fun a b => lex (bytes_compare (occ_term a) (occ_term b)) (lex (lex (occ_object_type a ?= occ_object_type b)
    (occ_object_ordinal a ?= occ_object_ordinal b)) (lex (occ_field a ?= occ_field b) (occ_position a ?= occ_position b))))) as [H1 H2].
  { repeat apply lex_comparator; apply comparator_on; (apply bytes_comparator || apply Z_comparator). }
  split; [intros a b|intros a b c]; rewrite !occurrence_compare_spec; [apply H1|apply H2].
Qed.

#[export] Instance occurrence_le_dec : RelDecision occurrence_le.
Proof. intros a b. unfold occurrence_le. apply _. Defined.
#[export] Instance occurrence_le_trans : Transitive occurrence_le.
Proof. intros a b c. apply (cmp_trans _ occurrence_comparator). Qed.
#[export] Instance occurrence_le_total : Total occurrence_le.
Proof. intros a b. unfold occurrence_le. rewrite (cmp_flip _ occurrence_comparator a b). destruct (occurrence_compare a b); cbn; naive_solver. Qed.

(** Occurrences at different places have one order. *)
Lemma occurrence_le_antisymm a b : occurrence_le a b -> occurrence_le b a -> place a = place b.
Proof.
  unfold occurrence_le. rewrite (cmp_flip _ occurrence_comparator a b). intros H1 H2. assert (occurrence_compare a b = Eq) as E by (destruct (occurrence_compare a b); done).
  rewrite occurrence_compare_spec in E. unfold object_compare, place_compare, object_of in E. cbn [fst snd] in E. unfold place.
  destruct (bytes_compare _ _); [|done..]. cbn [lex] in E. destruct (occ_object_type a ?= occ_object_type b) eqn:E1; [|done..]. destruct (occ_object_ordinal a ?= occ_object_ordinal b) eqn:E2; [|done..].
  cbn [lex] in E. destruct (occ_field a ?= occ_field b) eqn:E3; [|done..]. cbn [lex] in E. apply Z.compare_eq in E1, E2, E3, E. by rewrite E1, E2, E3, E.
Qed.

Lemma sorted_occurrences_unique os s s' : NoDup (place <$> os) -> Permutation s os -> Permutation s' os ->
  StronglySorted occurrence_le s -> StronglySorted occurrence_le s' -> s = s'.
Proof.
  intros HN P1 P2 S1 S2. apply (StronglySorted_unique_strong occurrence_le); [|done|done|by rewrite P1, P2].
  intros a b Ha Hb H1 H2. rewrite P1 in Ha. rewrite P2 in Hb. apply list_elem_of_lookup in Ha as [i Ha], Hb as [j Hb].
  assert (i = j) as <-; [|congruence]. apply (NoDup_lookup _ _ _ (place a) HN); rewrite list_lookup_fmap; [by rewrite Ha|]. rewrite Hb. cbn. by rewrite (occurrence_le_antisymm a b).
Qed.

(** Merge sort is a [qsort]. *)
#[export] Instance merge_qsort : Qsort := {
  qsort := merge_sort occurrence_le;
  qsort_permutation l := merge_sort_Permutation occurrence_le l;
  qsort_sorted l := StronglySorted_merge_sort occurrence_le l }.

(** ** The results *)

(** C17: the round trip of a lexical index, under any failure of the file system: when
    [YAP_V2_lexical_write] reports success, [YAP_V2_lexical_segment_open] opens the three files,
    the index satisfies the reader's invariant, and the terms, postings and positions read from it
    are exactly the tokens of the titles, bodies and passages, each at its object, field and
    position and with the length of its field; the counts of documents, passages and tokens are
    those of the input.  The writer never reads or writes outside of its memory. *)
Theorem lexical_write_then_open {A : Allocator} {Q : Qsort} {T : Tokenizer} (garbage : nat -> Z) (dir : bytes) (g : Z)
    (documents : list YAP_V2_DOCUMENT_VIEW) (passages : list YAP_V2_PASSAGE_VIEW) (w0 : world) :
  is_u64 g -> Forall document_wf documents -> Forall passage_wf passages -> apart_names (index_names dir) w0 ->
  match YAP_V2_lexical_write garbage (Some dir) g documents passages w0 with
  | Done (Ok _) w => opens dir g (segment_occurrences documents passages) (zlen documents) (zlen passages) (token_totals documents passages) w
  | Done Fault _ => False
  | _ => True
  end.
Proof.
  intros Hg Hd Hp Hap. destruct (decide (g = 0)) as [->|N]; [done|].
  pose proof (lexical_write_wp garbage dir g w0 Hg N Hap documents passages Hd Hp) as H. unfold wp in H.
  destruct (YAP_V2_lexical_write _ _ _ _ _ w0) as [[cs|e|] w|w]; [apply H|done..].
Qed.

(** C18: tokenising unit by unit is equivalent to tokenising the segment: when every document is
    prepared with its passages by [YAP_V2_lexical_prepare_unit] and the units are written by
    [YAP_V2_lexical_write_prepared], which moves the ordinals of each unit behind those of the
    units before it, the index that opens is the one of all documents and all passages, with the
    sums of their token counts. *)
Theorem write_prepared_then_open {A : Allocator} {Q : Qsort} {T : Tokenizer} (garbage : nat -> Z) (dir : bytes) (g : Z)
    (units : list (YAP_V2_DOCUMENT_VIEW * list YAP_V2_PASSAGE_VIEW)) (prepared : list YAP_V2_LEXICAL_PREPARED) (w0 : world) :
  let documents := fst <$> units in let passages := concat (snd <$> units) in
  is_u64 g -> Forall document_wf documents -> Forall passage_wf passages -> zlen documents < 2 ^ 63 -> zlen passages < 2 ^ 63 ->
  Forall2 (fun u p => YAP_V2_lexical_prepare_unit (Some u.1) u.2 = Ok p) units prepared -> apart_names (index_names dir) w0 ->
  match YAP_V2_lexical_write_prepared garbage (Some dir) g (Some <$> prepared) w0 with
  | Done (Ok _) w => opens dir g (segment_occurrences documents passages) (zlen documents) (zlen passages) (token_totals documents passages) w
  | Done Fault _ => False
  | _ => True
  end.
Proof.
  intros documents passages Hg Hd Hp Nd Np HF Hap. destruct (decide (g = 0)) as [->|N]; [done|].
  assert (Forall2 (fun u p => unit_prepared u.1 u.2 p) units prepared) as HU.
  { subst documents passages. clear -Hd Hp HF. induction HF as [|[d ps] p units prepared E HF IH]; [constructor|]. cbn [fmap list_fmap fst snd concat] in *.
    apply Forall_cons in Hd as [Hd Hds]. apply Forall_app in Hp as [Hp Hps]. constructor; [|by apply IH].
    pose proof (prepare_unit_spec d ps Hd Hp) as H. by rewrite E in H. }
  unfold documents in *. rewrite zlen_fmap in Nd |- *.
  pose proof (write_prepared_wp garbage dir g w0 units prepared Hg N Hap HU Nd Np) as H. unfold wp in H. fold passages in H.
  destruct (YAP_V2_lexical_write_prepared _ _ _ _ w0) as [[cs|e|] w|w]; [apply H|done..].
Qed.

(** ** A concrete index *)

(** Every byte is a token. *)
Definition byte_tokenize (m : option bytes) (n : Z) : result YAP_V2_TOKEN_SEQUENCE :=
  match m with
  | None => Err YAP_V2_INVALID_ARGUMENT
  | Some m =>
      bs ← load_bytes m 0 n;
      Ok (TokenSequence bs (imap (fun i _ => Token (Z.of_nat i) (Z.of_nat i + 1) (Z.of_nat i) (Z.of_nat i + 1)) bs))
  end.

#[refine, export] Instance byte_tokenizer : Tokenizer := { YAP_V2_unicode_tokenize := byte_tokenize }.
Proof.
  intros v [H1 H2]. unfold byte_tokenize. destruct (data v) as [m|]; [|done]. destruct H2 as [H2 H3].
  rewrite load_bytes_slice, outcome_bind_ok by lia. split; cbn [normalized_utf8 tokens].
  - split; [by apply Forall_slice|]. rewrite zlen_slice; lia.
  - apply Forall_lookup_2. intros i t (x&Hx&->)%list_lookup_imap_Some. apply lookup_lt_Some in Hx. unfold token_wf, zlen. cbn. lia.
Defined.

Definition demo_text (d : Z) (title_ body_ : bytes) : YAP_V2_DOCUMENT_VIEW :=
  DocumentView (mk_view [d]) (mk_view []) (mk_view title_) (mk_view body_) (mk_view []) 1.
Definition demo_index_documents : list YAP_V2_DOCUMENT_VIEW := [demo_text 97 [120] [121; 120]; demo_text 98 [] [120]].
Definition demo_index_passage : YAP_V2_PASSAGE_VIEW := PassageView (mk_view [112]) (mk_view [97]) (mk_view [121; 120]) 0 0 2.

Lemma demo_index_documents_wf : Forall document_wf demo_index_documents.
Proof. repeat constructor; cbn; lia || done. Qed.
Lemma demo_index_passage_wf : Forall passage_wf [demo_index_passage].
Proof. repeat constructor; cbn; lia || done. Qed.

Definition empty_world (s : list event) : world := World ∅ ∅ 0 s.
Lemma empty_world_apart xs s : apart_names xs (empty_world s).
Proof. split; intros x; [intros i _ H|intros y i _ _ _ H]; apply list_elem_of_singleton in H; done. Qed.

Definition succeeds {B} (r : run (result B)) : bool := match r with Done (Ok _) _ => true | _ => false end.

Lemma lexical_write_then_open_witness : exists cs w,
  YAP_V2_lexical_write (A := alloc_total) (fun _ => 7) (Some [115]) 3 demo_index_documents [demo_index_passage] (empty_world []) = Done (Ok cs) w /\
  opens [115] 3 (segment_occurrences demo_index_documents [demo_index_passage]) 2 1 [1; 3; 2] w.
Proof.
  pose proof (lexical_write_then_open (A := alloc_total) (fun _ => 7) [115] 3 demo_index_documents [demo_index_passage] (empty_world []) ltac:(done)
    demo_index_documents_wf demo_index_passage_wf (empty_world_apart _ _)) as H.
  assert (succeeds (YAP_V2_lexical_write (A := alloc_total) (fun _ => 7) (Some [115]) 3 demo_index_documents [demo_index_passage] (empty_world [])) = true) as E
    by (vm_compute; reflexivity).
  destruct (YAP_V2_lexical_write _ _ _ _ _ _) as [[cs|e|] w|w]; [|discriminate E..].
  exists cs, w. split; [reflexivity|exact H].
Defined.

Definition demo_units : list (YAP_V2_DOCUMENT_VIEW * list YAP_V2_PASSAGE_VIEW) := [(demo_text 98 [] [120], []); (demo_text 97 [120] [121; 120], [demo_index_passage])].
Definition demo_prepared : list YAP_V2_LEXICAL_PREPARED :=
  omap (fun u => match YAP_V2_lexical_prepare_unit (A := alloc_total) (Some u.1) u.2 with Ok p => Some p | _ => None end) demo_units.

Lemma write_prepared_then_open_witness : exists cs w,
  YAP_V2_lexical_write_prepared (A := alloc_total) (fun _ => 7) (Some [115]) 3 (Some <$> demo_prepared) (empty_world []) = Done (Ok cs) w /\
  opens [115] 3 (segment_occurrences [demo_text 98 [] [120]; demo_text 97 [120] [121; 120]] [demo_index_passage]) 2 1 [1; 3; 2] w.
Proof.
  pose proof (write_prepared_then_open (A := alloc_total) (fun _ => 7) [115] 3 demo_units demo_prepared (empty_world []) ltac:(done)
    ltac:(repeat constructor; cbn; lia || done) demo_index_passage_wf ltac:(done) ltac:(done) ltac:(repeat constructor) (empty_world_apart _ _)) as H.
  assert (succeeds (YAP_V2_lexical_write_prepared (A := alloc_total) (fun _ => 7) (Some [115]) 3 (Some <$> demo_prepared) (empty_world [])) = true) as E
    by (vm_compute; reflexivity).
  destruct (YAP_V2_lexical_write_prepared _ _ _ _ _) as [[cs|e|] w|w]; [|discriminate E..].
  exists cs, w. split; [reflexivity|exact H].
Defined.
