(* ===== verification/Json.v ===== *)
(** JSON values as the program sees them through yyjson, and the helpers that several of its
    files share: the dotted path of a field and the text of a number
    (src/src/components/yappo_metadata_v2.c, src/src/indexing/yappo_segment_planner_v2.c).

    yyjson is a library outside of the repository: the class [Yyjson] is its interface, with the
    laws that its documentation gives. *)
From Stdlib Require Import String.
From S2P Require Import Prelude Words Types Manifest Segment CString Config.
#[local] Open Scope Z_scope.

(** [yyjson_read] is the root of the document that is read, [None] when there is none.
    [yyjson_obj_items] are the keys and values that [yyjson_obj_iter] visits, and their number is
    [yyjson_obj_size]; [yyjson_arr_items] likewise.  A string and its length are one list of
    bytes.  [print_real] is what ["%.17g"] prints for [yyjson_get_real]. *)
Class Yyjson := {
  yyjson_val : Type;
  yyjson_read : option bytes -> Z -> option yyjson_val;
  yyjson_is_obj : yyjson_val -> bool;
  yyjson_is_arr : yyjson_val -> bool;
  yyjson_is_null : yyjson_val -> bool;
  yyjson_is_bool : yyjson_val -> bool;
  yyjson_is_true : yyjson_val -> bool;
  yyjson_is_num : yyjson_val -> bool;
  yyjson_is_sint : yyjson_val -> bool;
  yyjson_is_uint : yyjson_val -> bool;
  yyjson_is_real : yyjson_val -> bool;
  yyjson_is_str : yyjson_val -> bool;
  yyjson_get_sint : yyjson_val -> Z;
  yyjson_get_uint : yyjson_val -> Z;
  yyjson_get_str : yyjson_val -> bytes;
  print_real : yyjson_val -> bytes;
  yyjson_obj_items : yyjson_val -> list (bytes * yyjson_val);
  yyjson_arr_items : yyjson_val -> list yyjson_val;
  yyjson_obj_getn : yyjson_val -> bytes -> option yyjson_val;
  is_num_kinds v : yyjson_is_num v = yyjson_is_sint v || yyjson_is_uint v || yyjson_is_real v;
  get_sint_range v : is_i64 (yyjson_get_sint v);
  get_uint_range v : is_u64 (yyjson_get_uint v);
  get_str_bytes v : bytes_ok (yyjson_get_str v) /\ zlen (yyjson_get_str v) < 2 ^ 63;
  print_real_bytes v : bytes_ok (print_real v) /\ zlen (print_real v) < 2 ^ 31 }.

(** The tests of yyjson answer false for the null pointer. *)
Definition holds_of {J : Yyjson} (test : yyjson_val -> bool) (v : option yyjson_val) : bool :=
  match v with Some v => test v | None => false end.

(** What ["%lld"] prints. *)
Definition decimal_signed (n : Z) : bytes := if n <? 0 then 45 :: decimal (- n) else decimal n.

(** The part of a string before its first dot, and what follows the dot: [strchr]. *)
Fixpoint split_dot (s : bytes) : bytes * option bytes :=
  match s with
  | [] => ([], None)
  | c :: s => if c =? FULL_STOP then ([], Some s) else let '(part, rest) := split_dot s in (c :: part, rest)
  end.

(** Every turn of the loop consumes a part of the string. *)
Fixpoint path_value_from {J : Yyjson} (fuel : nat) (value : yyjson_val) (start : bytes) : option yyjson_val :=
  match start, fuel with
  | [], _ | _, O => None
  | _, S fuel =>
      let '(part, rest) := split_dot start in
      if negb (yyjson_is_obj value) then None
      else match yyjson_obj_getn value part, rest with
           | None, _ => None
           | Some value, None => Some value
           | Some value, Some start => path_value_from fuel value start
           end
  end.

(** The value at a dotted path of keys. *)
Definition path_value {J : Yyjson} (root : yyjson_val) (path_ : bytes) : result (option yyjson_val) :=
  start ← c_text path_;
  Ok (path_value_from (length start) root start).

(** What [snprintf] prints for a number. *)
Definition number_text {J : Yyjson} (value : yyjson_val) : bytes :=
  if yyjson_is_sint value then decimal_signed (yyjson_get_sint value)
  else if yyjson_is_uint value then decimal (yyjson_get_uint value)
  else print_real value.

(** ** Lemmas *)
Lemma decimal_digits_ok fuel n : 0 <= n -> bytes_ok (decimal_digits fuel n) /\ zlen (decimal_digits fuel n) <= Z.of_nat fuel.
Proof.
  revert n; induction fuel as [|fuel IH]; intros n Hn; cbn [decimal_digits]; [by split|].
  assert (0 <= n mod 10 < 10) by (apply Z.mod_pos_bound; lia).
  assert (bytes_ok [48 + n mod 10]) as H1 by (repeat constructor; unfold byte_ok; lia).
  destruct (n <? 10); [by split; [|zl]|]. destruct (IH (n / 10)) as [H2 H3]; [by apply Z.div_pos|].
  split; [by apply Forall_app|zl].
Qed.

Lemma decimal_ok n : 0 <= n -> bytes_ok (decimal n) /\ zlen (decimal n) <= 20.
Proof. apply (decimal_digits_ok 20). Qed.

Lemma decimal_signed_ok n : bytes_ok (decimal_signed n) /\ zlen (decimal_signed n) <= 21.
Proof.
  unfold decimal_signed. destruct (Z.ltb_spec n 0).
  - destruct (decimal_ok (- n)) as [H1 H2]; [lia|]. split; [constructor; [unfold byte_ok; lia|done]|zl].
  - destruct (decimal_ok n) as [H1 H2]; [lia|]. by split; [|lia].
Qed.

Lemma number_text_ok {J : Yyjson} v : bytes_ok (number_text v) /\ zlen (number_text v) < 2 ^ 31.
Proof.
  unfold number_text. destruct (yyjson_is_sint v); [|destruct (yyjson_is_uint v); [|apply print_real_bytes]].
  - destruct (decimal_signed_ok (yyjson_get_sint v)). split; [done|lia].
  - destruct (decimal_ok (yyjson_get_uint v)); [apply get_uint_range|]. split; [done|lia].
Qed.

Lemma path_value_spec {J : Yyjson} root path_ : 0 ∈ path_ ->
  path_value root path_ = Ok (path_value_from (length (c_str path_)) root (c_str path_)).
Proof. intros H. unfold path_value. by rewrite (c_text_spec _ _ (holds_c_str _ H)). Qed.

(** The loop ends before its fuel does. *)
Lemma split_dot_shorter s part rest : split_dot s = (part, Some rest) -> (length rest < length s)%nat.
Proof.
  revert part rest; induction s as [|c s IH]; intros part rest; cbn [split_dot]; [done|].
  destruct (c =? FULL_STOP); [intros [= _ <-]; cbn; lia|]. destruct (split_dot s) as [p [r|]]; [|done].
  intros [= _ <-]. specialize (IH p r eq_refl). cbn. lia.
Qed.

Lemma path_value_fuel {J : Yyjson} fuel fuel' v s : (length s <= fuel)%nat -> (length s <= fuel')%nat ->
  path_value_from fuel v s = path_value_from fuel' v s.
Proof.
  revert fuel' v s; induction fuel as [|fuel IH]; intros [|fuel'] v [|c s] H H'; cbn [length] in *; try lia; try done.
  cbn [path_value_from]. destruct (split_dot (c :: s)) as [part [rest|]] eqn:E; [|done].
  destruct (negb _); [done|]. destruct (yyjson_obj_getn v part); [|done]. apply split_dot_shorter in E. cbn [length] in E. apply IH; lia.
Qed.

(** ** A concrete library

    JSON trees, with any function that reads documents. *)
Inductive json :=
  | JNull
  | JBool (b : bool)
  | JInt (n : Z)
  | JStr (s : bytes)
  | JArr (items : list json)
  | JObj (items : list (bytes * json)).

Definition json_str (v : json) : bytes := match v with JStr s => take 255 ((fun c => c mod 256) <$> s) | _ => [] end.
Definition json_sint (v : json) : bool := match v with JInt n => n <? 0 | _ => false end.
Definition json_uint (v : json) : bool := match v with JInt n => 0 <=? n | _ => false end.

Fixpoint json_getn (items : list (bytes * json)) (key : bytes) : option json :=
  match items with
  | [] => None
  | (k, v) :: items => if bool_decide (k = key) then Some v else json_getn items key
  end.

#[local, refine] Instance json_library (read : option bytes -> Z -> option json) : Yyjson := {
  yyjson_val := json;
  yyjson_read := read;
  yyjson_is_obj v := match v with JObj _ => true | _ => false end;
  yyjson_is_arr v := match v with JArr _ => true | _ => false end;
  yyjson_is_null v := match v with JNull => true | _ => false end;
  yyjson_is_bool v := match v with JBool _ => true | _ => false end;
  yyjson_is_true v := match v with JBool b => b | _ => false end;
  yyjson_is_num v := json_sint v || json_uint v;
  yyjson_is_sint := json_sint;
  yyjson_is_uint := json_uint;
  yyjson_is_real _ := false;
  yyjson_is_str v := match v with JStr _ => true | _ => false end;
  yyjson_get_sint v := match v with JInt n => - ((- n) mod 2 ^ 63) | _ => 0 end;
  yyjson_get_uint v := match v with JInt n => u64 n | _ => 0 end;
  yyjson_get_str := json_str;
  print_real _ := [];
  yyjson_obj_items v := match v with JObj items => items | _ => [] end;
  yyjson_arr_items v := match v with JArr items => items | _ => [] end;
  yyjson_obj_getn v key := match v with JObj items => json_getn items key | _ => None end }.
Proof.
  - intros v. by rewrite orb_false_r.
  - intros v. unfold is_i64. destruct v as [| |n| | |]; try lia. pose proof (Z.mod_pos_bound (- n) (2 ^ 63) ltac:(lia)). lia.
  - intros v. destruct v; try done. apply u64_is_u64.
  - intros v. unfold json_str. destruct v as [| | |s| |]; try (by split). split.
    + apply Forall_take, Forall_fmap, Forall_forall. intros c _. cbn. apply Z.mod_pos_bound. lia.
    + unfold zlen. rewrite length_take. lia.
  - by split.
Defined.
