(* ===== verification/Metadata.v ===== *)
(** The metadata file of a segment (src/src/components/yappo_metadata_v2.c): the scalar values of
    the filterable fields of every document, written from the documents' JSON and read back as an
    index of entries.

    The static helpers [append], [append_u32], [append_u64] and the calls between [fopen] and
    [fclose] are the same text as in yappo_vector_v2.c and are shared with Vectors.v. *)
From Stdlib Require Import String.
From S2P Require Import Prelude Words Types Crc Sha256 Header SlotTable Manifest FileSystem Reader Buffer Segment Verify CString Config Json Vectors.
#[local] Open Scope io_scope.
#[local] Open Scope Z_scope.

Definition YAP_V2_METADATA_NULL : Z := 1.
Definition YAP_V2_METADATA_BOOL : Z := 2.
Definition YAP_V2_METADATA_NUMBER : Z := 3.
Definition YAP_V2_METADATA_STRING : Z := 4.

Record YAP_V2_METADATA_ENTRY := MetadataEntry {
  field_ordinal : Z;
  document_ordinal : Z;
  entry_type : Z;
  entry_value : YAP_V2_BYTES_VIEW }.

(** [md_fields] are the rows of the array of field names; [entry_count] is the number of
    entries. *)
Record YAP_V2_METADATA_INDEX := MetadataIndex {
  md_fields : list bytes;
  md_field_count : Z;
  md_document_count : Z;
  md_entries : list YAP_V2_METADATA_ENTRY;
  md_storage : bytes }.

Definition YAP_V2_metadata_index_init : YAP_V2_METADATA_INDEX := MetadataIndex (replicate 64 (zero_string 128)) 0 0 [] [].
Definition sizeof_metadata_entry : Z := 40.
Definition METADATA_NAME : bytes := CString.text "metadata.yap2"%string.
Definition sizeof_number : Z := 64.

Section metadata.
Context {A : Allocator} {J : Yyjson} (garbage : nat -> Z).

(** ** Writing *)

Definition append (buffer : YAP_V2_BUFFER) (data : option bytes) (len_ : Z) : result YAP_V2_BUFFER := Vectors.append garbage buffer data len_.
Definition append_u32 (value : Z) (buffer : YAP_V2_BUFFER) : result YAP_V2_BUFFER := append buffer (Some (put_u32_le value)) 4.
Definition append_u64 (value : Z) (buffer : YAP_V2_BUFFER) : result YAP_V2_BUFFER := append buffer (Some (put_u64_le value)) 8.

(** The type of a scalar with the text that is stored for it; [Ok None] for an array or an
    object, which is skipped. *)
Definition scalar_text (value : yyjson_val) : result (option (Z * option bytes * Z)) :=
  if yyjson_is_null value then Ok (Some (YAP_V2_METADATA_NULL, None, 0))
  else if yyjson_is_bool value then Ok (Some (YAP_V2_METADATA_BOOL, Some [if yyjson_is_true value then 1 else 0], 1))
  else if yyjson_is_num value then
    if sizeof_number <=? zlen (number_text value) then Err YAP_V2_OUT_OF_RANGE
    else Ok (Some (YAP_V2_METADATA_NUMBER, Some (number_text value), zlen (number_text value)))
  else if yyjson_is_str value then Ok (Some (YAP_V2_METADATA_STRING, Some (yyjson_get_str value), zlen (yyjson_get_str value)))
  else Ok None.

(** The payload and the number of records. *)
Definition append_scalar (field document : Z) (value : yyjson_val) (s : YAP_V2_BUFFER * Z) : result (YAP_V2_BUFFER * Z) :=
  let '(payload, records) := s in
  scalar ← scalar_text value;
  match scalar with
  | None => Ok (payload, records)
  | Some (type, text_, len_) =>
      if UINT32_MAX <? len_ then Err YAP_V2_OUT_OF_RANGE
      else
      payload ← append_u32 field payload;
      payload ← append_u64 document payload;
      payload ← append_u32 type payload;
      payload ← append_u32 len_ payload;
      payload ← append payload text_ len_;
      Ok (payload, u64 (records + 1))
  end.

Fixpoint append_scalars (field document : Z) (items : list yyjson_val) (s : YAP_V2_BUFFER * Z) : result (YAP_V2_BUFFER * Z) :=
  match items with
  | [] => Ok s
  | item :: items => s ← append_scalar field document item s; append_scalars field document items s
  end.

Definition append_value (field document : Z) (value : yyjson_val) (s : YAP_V2_BUFFER * Z) : result (YAP_V2_BUFFER * Z) :=
  if negb (yyjson_is_arr value) then append_scalar field document value s
  else append_scalars field document (yyjson_arr_items value) s.

(** The loop over the names of the fields: [n] of them from index [i]. *)
Fixpoint append_names (n : nat) (fields : list bytes) (i : Z) (payload : YAP_V2_BUFFER) : result YAP_V2_BUFFER :=
  match n with
  | O => Ok payload
  | S n =>
      field ← elem_at fields i;
      len_ ← strlen field;
      payload ← append_u32 (u32 len_) payload;
      payload ← append payload (Some field) len_;
      append_names n fields (i + 1) payload
  end.

(** The loop over the fields of one document. *)
Fixpoint append_fields (n : nat) (fields : list bytes) (i document : Z) (root : yyjson_val) (s : YAP_V2_BUFFER * Z)
  : result (YAP_V2_BUFFER * Z) :=
  match n with
  | O => Ok s
  | S n =>
      field ← elem_at fields i;
      value ← path_value root field;
      s ← (match value with Some value => append_value (u32 i) document value s | None => Ok s end);
      append_fields n fields (i + 1) document root s
  end.

(** The loop over the documents, from index [i] on; a null root is not an object. *)
Fixpoint append_documents (config : YAP_V2_CONFIG) (documents : list YAP_V2_DOCUMENT_VIEW) (roots : list (option yyjson_val)) (i : Z)
    (s : YAP_V2_BUFFER * Z) : result (YAP_V2_BUFFER * Z) :=
  match documents with
  | [] => Ok s
  | d :: documents =>
      root ← elem_at roots i;
      match YAP_V2_document_validate (Some d) with
      | Fault => Fault
      | Err _ => Err YAP_V2_INVALID_FORMAT
      | Ok _ =>
          match root with
          | Some root =>
              if negb (yyjson_is_obj root) then Err YAP_V2_INVALID_FORMAT
              else
              s ← append_fields (Z.to_nat (filterable_field_count config)) (filterable_fields config) 0 i root s;
              append_documents config documents roots (i + 1) s
          | None => Err YAP_V2_INVALID_FORMAT
          end
      end
  end.

Definition metadata_payload (config : YAP_V2_CONFIG) (documents : list YAP_V2_DOCUMENT_VIEW) (roots : list (option yyjson_val))
  : result (YAP_V2_BUFFER * Z) :=
  payload ← append_u32 1 buffer_zero;
  payload ← append_u32 (u32 (filterable_field_count config)) payload;
  payload ← append_u64 (zlen documents) payload;
  payload ← append_u64 0 payload;
  payload ← append_names (Z.to_nat (filterable_field_count config)) (filterable_fields config) 0 payload;
  '(payload, records) ← append_documents config documents roots 0 (payload, 0);
  block ← store_bytes (buffer_data payload) 16 (put_u64_le records);
  Ok (Buffer block (buffer_len payload), records).

Definition metadata_header (generation : Z) (payload : YAP_V2_BUFFER) : result bytes :=
  bs ← load_bytes (buffer_data payload) 0 (buffer_len payload);
  YAP_V2_file_header_encode
    (Some (FileHeader YAP_V2_FORMAT_VERSION YAP_V2_FILE_HEADER_BYTES YAP_V2_FILE_METADATA generation (buffer_len payload) (crc32c bs)))
    (Some (garbage <$> seq 0 32)).

Definition metadata_write_atomic (p : path) (generation : Z) (payload : YAP_V2_BUFFER) (records : Z)
  : io (result YAP_V2_COMPONENT_DESCRIPTOR) :=
  match metadata_header generation payload with
  | Err _ => io_ret (Err YAP_V2_INVALID_FORMAT)
  | Fault => io_ret Fault
  | Ok header =>
      if negb (alloc_ok (zlen p + 5)) then io_ret (Err YAP_V2_ALLOCATION_FAILED)
      else
      let* file := fopen_wb (tmp_path p) in
      match file with
      | None => io_ret (Err YAP_V2_IO_ERROR)
      | Some i =>
          let* written := write_vectors_tmp i header (take (Z.to_nat (buffer_len payload)) (buffer_data payload)) in
          let* renamed := (if negb written then io_ret false else rename (tmp_path p) p) in
          if negb renamed then do* unlink (tmp_path p) in io_ret (Err YAP_V2_IO_ERROR)
          else if negb (alloc_ok (zlen p + 1)) then io_ret (Err YAP_V2_ALLOCATION_FAILED)
          else
          let* synced_ := fsync_parent p in
          if negb synced_ then io_ret (Err YAP_V2_IO_ERROR)
          else
          let* digest := YAP_V2_file_sha256 garbage (Some p) in
          io_ret (match digest with
                  | Ok (checksum, bytes_) => Ok (ComponentDescriptor METADATA_NAME YAP_V2_FILE_METADATA records bytes_ checksum)
                  | Err _ => Err YAP_V2_IO_ERROR
                  | Fault => Fault
                  end)
      end
  end.

Definition YAP_V2_metadata_write_preparsed (p : option path) (generation : Z) (config : option YAP_V2_CONFIG)
    (documents : list YAP_V2_DOCUMENT_VIEW) (metadata_roots : list (option yyjson_val)) : io (result YAP_V2_COMPONENT_DESCRIPTOR) :=
  match p, config with
  | Some p, Some c =>
      match YAP_V2_config_validate config with
      | Fault => io_ret Fault
      | Err _ => io_ret (Err YAP_V2_INVALID_ARGUMENT)
      | Ok _ =>
          if YAP_V2_MAX_SEGMENT_DOCUMENTS <? zlen documents then io_ret (Err YAP_V2_OUT_OF_RANGE)
          else match metadata_payload c documents metadata_roots with
               | Ok (payload, records) => metadata_write_atomic p generation payload records
               | Err e => io_ret (Err e)
               | Fault => io_ret Fault
               end
      end
  | _, _ => io_ret (Err YAP_V2_INVALID_ARGUMENT)
  end.

(** The roots of the documents' metadata; the loop stops at the first that is not an object. *)
Fixpoint read_roots (documents : list YAP_V2_DOCUMENT_VIEW) : result (list (option yyjson_val)) :=
  match documents with
  | [] => Ok []
  | d :: documents =>
      let root := yyjson_read (data (metadata_json d)) (len (metadata_json d)) in
      if negb (holds_of yyjson_is_obj root) then Err YAP_V2_INVALID_FORMAT
      else roots ← read_roots documents; Ok (root :: roots)
  end.

(** Two arrays of pointers are allocated. *)
Definition YAP_V2_metadata_write (p : option path) (generation : Z) (config : option YAP_V2_CONFIG) (documents : list YAP_V2_DOCUMENT_VIEW)
  : io (result YAP_V2_COMPONENT_DESCRIPTOR) :=
  match p, config with
  | Some _, Some _ =>
      if (0 <? zlen documents) && negb (alloc_ok (zlen documents * 8)) then io_ret (Err YAP_V2_ALLOCATION_FAILED)
      else match read_roots documents with
           | Ok roots => YAP_V2_metadata_write_preparsed p generation config documents roots
           | Err e => io_ret (Err e)
           | Fault => io_ret Fault
           end
  | _, _ => io_ret (Err YAP_V2_INVALID_ARGUMENT)
  end.

(** ** Reading *)

(** The loop over the names: the rows of the index and the offset behind the names. *)
Fixpoint read_names (n : nat) (payload : bytes) (fields rows : list bytes) (i offset : Z) : result (list bytes * Z) :=
  match n with
  | O => Ok (rows, offset)
  | S n =>
      if (zlen payload <? offset) || (zlen payload - offset <? 4) then Err YAP_V2_INVALID_FORMAT
      else
      len_ ← get_u32_le payload offset;
      let offset := offset + 4 in
      if (YAP_V2_MAX_FILTER_FIELD_BYTES <? len_) || (zlen payload <? offset) || (zlen payload - offset <? len_)
      then Err YAP_V2_INVALID_FORMAT
      else
      field ← elem_at fields i;
      expected ← strlen field;
      if negb (len_ =? expected) then Err YAP_V2_INVALID_FORMAT
      else
      name ← load_bytes payload offset len_;
      wanted ← load_bytes field 0 len_;
      if negb (bool_decide (name = wanted)) then Err YAP_V2_INVALID_FORMAT
      else
      row ← elem_at rows i;
      row ← store_bytes row 0 name;
      row ← store_bytes row len_ [0];
      read_names n payload fields (<[Z.to_nat i := row]> rows) (i + 1) (offset + len_)
  end.

(** The loop over the entries, which are stored in the order in which they are read. *)
Fixpoint read_entries (n : nat) (payload : bytes) (field_count document_count offset : Z) : result (list YAP_V2_METADATA_ENTRY * Z) :=
  match n with
  | O => Ok ([], offset)
  | S n =>
      if (zlen payload <? offset) || (zlen payload - offset <? 20) then Err YAP_V2_INVALID_FORMAT
      else
      field ← get_u32_le payload offset;
      document ← get_u64_le payload (offset + 4);
      type ← get_u32_le payload (offset + 12);
      len_ ← get_u32_le payload (offset + 16);
      let offset := offset + 20 in
      if (field_count <=? field) || (document_count <=? document) || (type <? YAP_V2_METADATA_NULL) || (YAP_V2_METADATA_STRING <? type) ||
         (zlen payload <? offset) || (zlen payload - offset <? len_)
      then Err YAP_V2_INVALID_FORMAT
      else
      value ← load_bytes payload offset len_;
      '(entries, offset) ← read_entries n payload field_count document_count (offset + len_);
      Ok (MetadataEntry field document type (BytesView (Some value) len_) :: entries, offset)
  end.

(** The index of a payload. *)
Definition metadata_parse (config : YAP_V2_CONFIG) (payload : bytes) : result YAP_V2_METADATA_INDEX :=
  if zlen payload <? 24 then Err YAP_V2_INVALID_FORMAT
  else
  version ← get_u32_le payload 0;
  if negb (version =? 1) then Err YAP_V2_INVALID_FORMAT
  else
  count ← get_u32_le payload 4;
  if negb (count =? filterable_field_count config) then Err YAP_V2_INVALID_FORMAT
  else
  document_count ← get_u64_le payload 8;
  entry_count ← get_u64_le payload 16;
  if SIZE_MAX / sizeof_metadata_entry <? entry_count then Err YAP_V2_OUT_OF_RANGE
  else
  '(rows, offset) ← read_names (Z.to_nat (filterable_field_count config)) payload (filterable_fields config)
    (md_fields YAP_V2_metadata_index_init) 0 24;
  if negb (alloc_ok (entry_count * sizeof_metadata_entry)) && (0 <? entry_count) then Err YAP_V2_ALLOCATION_FAILED
  else
  '(entries, offset) ← read_entries (Z.to_nat entry_count) payload (filterable_field_count config) document_count offset;
  if negb (offset =? zlen payload) then Err YAP_V2_INVALID_FORMAT
  else Ok (MetadataIndex rows (filterable_field_count config) document_count entries payload).

(** The header of a file of [size] bytes. *)
Definition metadata_check_header (expected_generation size : Z) (header_data : bytes) : result YAP_V2_FILE_HEADER :=
  match YAP_V2_file_header_decode (Some header_data) with
  | Fault => Fault
  | Err _ => Err YAP_V2_INVALID_FORMAT
  | Ok header =>
      if negb (file_type header =? YAP_V2_FILE_METADATA) ||
         (negb (expected_generation =? 0) && negb (generation header =? expected_generation)) ||
         negb (payload_bytes header =? size - YAP_V2_FILE_HEADER_BYTES) || (SIZE_MAX <? payload_bytes header)
      then Err YAP_V2_INVALID_FORMAT else Ok header
  end.

(** What follows the second [fread]. *)
Definition metadata_check_payload (config : YAP_V2_CONFIG) (header : YAP_V2_FILE_HEADER) (payload : bytes) : result YAP_V2_METADATA_INDEX :=
  if negb (crc32c payload =? payload_crc32c header) then Err YAP_V2_CHECKSUM_MISMATCH else metadata_parse config payload.

(** The descriptor, when the caller asks for it. *)
Definition metadata_component (p : path) (want_component : bool) (index : YAP_V2_METADATA_INDEX)
  : io (result (YAP_V2_METADATA_INDEX * option YAP_V2_COMPONENT_DESCRIPTOR)) :=
  if want_component then
    let* digest := YAP_V2_file_sha256 garbage (Some p) in
    io_ret (match digest with
            | Ok (checksum, bytes_) =>
                Ok (index, Some (ComponentDescriptor METADATA_NAME YAP_V2_FILE_METADATA (zlen (md_entries index)) bytes_ checksum))
            | Err _ => Err YAP_V2_IO_ERROR
            | Fault => Fault
            end)
  else io_ret (Ok (index, None)).

(** The calls between [fopen] and [fclose]; [bs] is the content of the file. *)
Definition metadata_read_open (p : path) (expected_generation : Z) (config : YAP_V2_CONFIG) (want_component : bool) (bs : bytes)
  : io (result (YAP_V2_METADATA_INDEX * option YAP_V2_COMPONENT_DESCRIPTOR)) :=
  let* at_end := fstat in
  if negb at_end then io_ret (Err YAP_V2_INVALID_FORMAT)
  else
  let* told := fstat in
  if negb told || (zlen bs <? YAP_V2_FILE_HEADER_BYTES) then io_ret (Err YAP_V2_INVALID_FORMAT)
  else
  let* rewound := fstat in
  if negb rewound then io_ret (Err YAP_V2_INVALID_FORMAT)
  else
  let* read_header := fread_all in
  if negb read_header then io_ret (Err YAP_V2_INVALID_FORMAT)
  else
  match metadata_check_header expected_generation (zlen bs) (take 32 bs) with
  | Fault => io_ret Fault
  | Err e => io_ret (Err e)
  | Ok header =>
      if negb (alloc_ok (payload_bytes header)) && (0 <? payload_bytes header) then io_ret (Err YAP_V2_ALLOCATION_FAILED)
      else
      let* read_payload := (if 0 <? payload_bytes header then fread_all else io_ret true) in
      if negb read_payload then io_ret (Err YAP_V2_CHECKSUM_MISMATCH)
      else
      match metadata_check_payload config header (drop 32 bs) with
      | Fault => io_ret Fault
      | Err e => io_ret (Err e)
      | Ok index => metadata_component p want_component index
      end
  end.

Definition YAP_V2_metadata_read (p : option path) (expected_generation : Z) (config : option YAP_V2_CONFIG) (want_component : bool)
  : io (result (YAP_V2_METADATA_INDEX * option YAP_V2_COMPONENT_DESCRIPTOR)) :=
  match p, config with
  | Some p, Some c =>
      match YAP_V2_config_validate config with
      | Fault => io_ret Fault
      | Err _ => io_ret (Err YAP_V2_INVALID_ARGUMENT)
      | Ok _ =>
          let* file := fopen_rb p in
          match file with
          | None => io_ret (Err YAP_V2_IO_ERROR)
          | Some bs =>
              let* r := metadata_read_open p expected_generation c want_component bs in
              do* fclose_rb in io_ret r
          end
      end
  | _, _ => io_ret (Err YAP_V2_INVALID_ARGUMENT)
  end.
End metadata.

(** [n] rows from index [i]: the first that holds the string. *)
Fixpoint find_field (n : nat) (rows : list bytes) (i : Z) (field : bytes) : result Z :=
  match n with
  | O => Err YAP_V2_INVALID_FORMAT
  | S n =>
      row ← elem_at rows i;
      d ← strcmp row field;
      if d =? 0 then Ok (u32 i) else find_field n rows (i + 1) field
  end.

Definition YAP_V2_metadata_field_ordinal (index : YAP_V2_METADATA_INDEX) (field : option bytes) : result Z :=
  match field with
  | None => Err YAP_V2_INVALID_ARGUMENT
  | Some field => find_field (Z.to_nat (md_field_count index)) (md_fields index) 0 field
  end.

(** ** Specification *)
Section spec.
Context {J : Yyjson}.

(** The entry of a scalar. *)
Definition scalar_entry (field document : Z) (value : yyjson_val) : option YAP_V2_METADATA_ENTRY :=
  match scalar_text value with
  | Ok (Some (type, text_, _)) => Some (MetadataEntry field document type (mk_view (default [] text_)))
  | _ => None
  end.

(** The values of an array, or the value itself. *)
Definition values_of (value : yyjson_val) : list yyjson_val := if yyjson_is_arr value then yyjson_arr_items value else [value].

Definition value_at (root : yyjson_val) (name : bytes) : option yyjson_val := path_value_from (length name) root name.

Definition field_entries (field document : Z) (root : yyjson_val) (name : bytes) : list YAP_V2_METADATA_ENTRY :=
  match value_at root name with Some value => omap (scalar_entry field document) (values_of value) | None => [] end.

Fixpoint names_entries (names : list bytes) (i document : Z) (root : yyjson_val) : list YAP_V2_METADATA_ENTRY :=
  match names with
  | [] => []
  | name :: names => field_entries i document root name ++ names_entries names (i + 1) document root
  end.

(** The entries of documents from ordinal [i] on. *)
Fixpoint roots_entries (names : list bytes) (i : Z) (roots : list yyjson_val) : list YAP_V2_METADATA_ENTRY :=
  match roots with
  | [] => []
  | root :: roots => names_entries names 0 i root ++ roots_entries names (i + 1) roots
  end.
End spec.

Definition entry_image (e : YAP_V2_METADATA_ENTRY) : bytes :=
  put_u32_le (field_ordinal e) ++ put_u64_le (document_ordinal e) ++ put_u32_le (entry_type e) ++ view_image (view_bytes (entry_value e)).
Definition entries_image (es : list YAP_V2_METADATA_ENTRY) : bytes := concat (entry_image <$> es).
Definition names_image (names : list bytes) : bytes := concat (view_image <$> names).

Definition metadata_image (names : list bytes) (documents : Z) (es : list YAP_V2_METADATA_ENTRY) : bytes :=
  put_u32_le 1 ++ put_u32_le (zlen names) ++ put_u64_le documents ++ put_u64_le (zlen es) ++ names_image names ++ entries_image es.

(** The rows of an index that holds the names. *)
Definition name_row (name : bytes) : bytes := name ++ zero_string (128 - zlen name).
Definition name_rows (names : list bytes) : list bytes := (name_row <$> names) ++ replicate (64 - length names) (zero_string 128).

(** ** Writing *)
Section write_proofs.
Context {A : Allocator} {J : Yyjson} (garbage : nat -> Z).

Definition value_fits (e : YAP_V2_METADATA_ENTRY) : Prop := zlen (view_bytes (entry_value e)) <= UINT32_MAX.

(** [es] is behind what was in the buffer, and counted. *)
Definition wrote_entries (s : YAP_V2_BUFFER * Z) (es : list YAP_V2_METADATA_ENTRY) (r : result (YAP_V2_BUFFER * Z)) : Prop :=
  match r with
  | Ok (payload, records) => buffer_ok payload /\ content payload = content s.1 ++ entries_image es /\ records = u64 (s.2 + zlen es) /\ Forall value_fits es
  | Err _ => True
  | Fault => False
  end.

Lemma entries_image_app es es' : entries_image (es ++ es') = entries_image es ++ entries_image es'.
Proof. unfold entries_image. by rewrite fmap_app, concat_app. Qed.

Lemma wrote_nil s : buffer_ok s.1 -> is_u64 s.2 -> wrote_entries s [] (Ok s).
Proof.
  destruct s as [b n]. cbn. intros Hb Hn. split_and!; [done|by rewrite app_nil_r| |done]. rewrite zlen_nil, Z.add_0_r. by rewrite u64_small.
Qed.

Lemma wrote_trans s es s' es' r : wrote_entries s es (Ok s') -> wrote_entries s' es' r -> wrote_entries s (es ++ es') r.
Proof.
  destruct s' as [b n]. intros (Hb&Hc&->&HF). destruct r as [[b' n']|e|]; [|done|done]. intros (Hb'&Hc'&->&HF'). cbn [fst snd] in *.
  split_and!; [done|by rewrite Hc', Hc, entries_image_app, (assoc_L (++))| |by apply Forall_app]. rewrite u64_add_l, zlen_app. f_equal. lia.
Qed.

Lemma wrote_state s es s' : wrote_entries s es (Ok s') -> buffer_ok s'.1 /\ is_u64 s'.2.
Proof. destruct s'. intros (?&_&->&_). split; [done|apply u64_is_u64]. Qed.

Lemma wrote_seq s es es' r (k : YAP_V2_BUFFER * Z -> result (YAP_V2_BUFFER * Z)) : wrote_entries s es r ->
  (forall s', buffer_ok s'.1 -> is_u64 s'.2 -> wrote_entries s' es' (k s')) -> wrote_entries s (es ++ es') (r ≫= k).
Proof.
  intros Hr Hk. destruct r as [s'|e|]; [|done|done]. destruct (wrote_state _ _ _ Hr). rewrite outcome_bind_ok. eapply wrote_trans; [exact Hr|by apply Hk].
Qed.

Lemma append_text bs : zlen bs <= 2 ^ 63 -> appends (fun b => append garbage b (Some bs) (zlen bs)) bs.
Proof. apply append_whole_appends. Qed.
Lemma append_u32_word v : appends (append_u32 garbage v) (put_u32_le v).
Proof. by apply (append_text (put_u32_le v)). Qed.
Lemma append_u64_word v : appends (append_u64 garbage v) (put_u64_le v).
Proof. by apply (append_text (put_u64_le v)). Qed.

(** The text of a scalar is as long as it says. *)
Lemma scalar_text_spec v :
  match scalar_text v with
  | Ok (Some (type, text_, n)) => YAP_V2_METADATA_NULL <= type <= YAP_V2_METADATA_STRING /\ n = zlen (default [] text_) /\
      bytes_ok (default [] text_) /\ n < 2 ^ 63 /\ (text_ = None -> n = 0)
  | Ok None | Err _ => True
  | Fault => False
  end.
Proof.
  unfold scalar_text, YAP_V2_METADATA_NULL, YAP_V2_METADATA_STRING, YAP_V2_METADATA_BOOL, YAP_V2_METADATA_NUMBER.
  destruct (yyjson_is_null v); [split_and!; done || lia|]. destruct (yyjson_is_bool v).
  { split_and!; try done. cbn. by destruct (yyjson_is_true v); repeat constructor. }
  destruct (number_text_ok v) as [? ?]. destruct (get_str_bytes v). destruct (yyjson_is_num v); [destruct (_ <=? _); [done|]|destruct (yyjson_is_str v); [|done]];
    cbn [default from_option id]; split_and!; done || lia.
Qed.

Lemma append_scalar_spec f d v s : buffer_ok s.1 -> is_u64 s.2 ->
  wrote_entries s (option_list (scalar_entry f d v)) (append_scalar garbage f d v s).
Proof.
  intros Hb Hn. destruct s as [b n]. unfold append_scalar, scalar_entry. pose proof (scalar_text_spec v) as HT.
  destruct (scalar_text v) as [[[[type text_] m]|]|e|]; [|by apply (wrote_nil (b, n))|done|done]. rewrite outcome_bind_ok.
  destruct HT as (_&Hm&Hok&Hlt&Hnone). destruct (Z.ltb_spec UINT32_MAX m) as [|Hfit]; [done|]. cbn [fst] in Hb.
  assert (forall b2, buffer_ok b2 -> wrote b2 (append garbage b2 text_ m) (default [] text_)) as Htext.
  { intros b2 Hb2. destruct text_ as [t|]; subst m; [change (default [] (Some t)) with t in *|change (default [] None) with (@nil Z) in *].
    - apply (appends_wrote (fun b => append garbage b (Some t) (zlen t)) t b2); [|done]. apply append_text. lia.
    - change (wrote b2 (append garbage b2 (Some []) (@zlen Z [])) []).
      apply (appends_wrote (fun b => append garbage b (Some []) (@zlen Z [])) [] b2); [|done]. by apply append_text. }
  set (image := entry_image (MetadataEntry f d type (mk_view (default [] text_)))).
  assert (image = put_u32_le f ++ put_u64_le d ++ put_u32_le type ++ put_u32_le m ++ default [] text_) as Ei.
  { unfold image, entry_image, view_image. cbn [field_ordinal document_ordinal entry_type entry_value]. rewrite view_bytes_mk. by subst m. }
  assert (forall r : result (YAP_V2_BUFFER * Z), (match r with Ok (b', n') => buffer_ok b' /\ content b' = content b ++ image /\ n' = u64 (n + 1) | Err _ => True | Fault => False end) ->
    wrote_entries (b, n) [MetadataEntry f d type (mk_view (default [] text_))] r) as Hfin.
  { intros [[b' n']|e|]; [|done|done]. intros (?&Hc&->). split_and!; [done| |done|].
    - rewrite Hc. unfold entries_image. cbn. by rewrite app_nil_r.
    - repeat constructor. unfold value_fits. cbn [entry_value]. rewrite view_bytes_mk. lia. }
  cbn [option_list]. apply Hfin. rewrite Ei. clear Hfin Ei.
  apply (wrote_bind b _ (put_u32_le f)); [by apply appends_wrote; [apply append_u32_word|]|done|]. intros b1 Hb1 E1.
  apply (wrote_bind b1 _ (put_u64_le d)); [by apply appends_wrote; [apply append_u64_word|]|done|]. intros b2 Hb2 E2.
  apply (wrote_bind b2 _ (put_u32_le type)); [by apply appends_wrote; [apply append_u32_word|]|done|]. intros b3 Hb3 E3.
  apply (wrote_bind b3 _ (put_u32_le m)); [by apply appends_wrote; [apply append_u32_word|]|done|]. intros b4 Hb4 E4.
  apply (wrote_bind b4 _ (default [] text_)); [exact (Htext b4 Hb4)|done|]. intros b5 Hb5 E5.
  split_and!; [done| |done]. rewrite E5, E4, E3, E2, E1. by rewrite <- !(assoc_L (++)).
Qed.

Lemma append_scalars_spec f d vs : forall s, buffer_ok s.1 -> is_u64 s.2 ->
  wrote_entries s (omap (scalar_entry f d) vs) (append_scalars garbage f d vs s).
Proof.
  induction vs as [|v vs IH]; intros s Hb Hn; cbn [append_scalars]; [by apply wrote_nil|].
  assert (omap (scalar_entry f d) (v :: vs) = option_list (scalar_entry f d v) ++ omap (scalar_entry f d) vs) as -> by (cbn; by destruct (scalar_entry f d v)).
  apply wrote_seq; [by apply append_scalar_spec|done].
Qed.

Lemma append_value_spec f d v s : buffer_ok s.1 -> is_u64 s.2 ->
  wrote_entries s (omap (scalar_entry f d) (values_of v)) (append_value garbage f d v s).
Proof.
  intros Hb Hn. unfold append_value, values_of. destruct (yyjson_is_arr v); cbn [negb]; [by apply append_scalars_spec|].
  pose proof (append_scalar_spec f d v s Hb Hn) as H. cbn. by destruct (scalar_entry f d v).
Qed.

Section fields.
Context (c : YAP_V2_CONFIG) (Hw : config_wf c) (Hv : config_valid c).
Abbreviation count := (filterable_field_count c).

Lemma field_count_range : 0 <= count <= 64.
Proof using Hw Hv. destruct Hv as (_&_&_&_&_&H&_). destruct (wf_numbers c Hw) as (_&_&_&_&_&[? _]). unfold YAP_V2_MAX_FILTER_FIELDS in H. lia. Qed.

Lemma zlen_field_names : zlen (field_names c) = count.
Proof using Hw Hv.
  pose proof field_count_range. destruct (wf_fields c Hw) as [Hl _]. unfold field_names. rewrite zlen_fmap. unfold zlen in *. rewrite length_take. lia.
Qed.

(** Field [i] and its name. *)
Lemma field_at_index (i : nat) name : field_names c !! i = Some name ->
  exists field, elem_at (E := YAP_V2_STATUS) (filterable_fields c) (Z.of_nat i) = Ok field /\ 0 ∈ field /\ c_str field = name /\ holds_string field name /\
    zlen name <= 127 /\ bytes_ok name.
Proof using Hw Hv.
  unfold field_names. rewrite list_lookup_fmap. intros (field&Hf&->)%fmap_Some. pose proof Hf as [Hf' _]%lookup_take_Some.
  destruct Hv as (_&_&_&_&_&_&H0&_). rewrite Forall_lookup in H0. specialize (H0 i field Hf).
  exists field. pose proof (holds_c_str _ H0) as Hh. pose proof (holds_length _ _ Hh) as Hlt. destruct (wf_fields c Hw) as [_ HF].
  rewrite Forall_lookup in HF. destruct (HF i field Hf') as [Hz Hb].
  split_and!; [by apply elem_at_lookup|done|done|done|unfold zlen in *; lia|]. destruct Hh as (t&E&_). rewrite E in Hb. by apply Forall_app in Hb as [? _].
Qed.

Lemma names_step (i n : nat) : (i + S n)%nat = length (field_names c) ->
  exists name, field_names c !! i = Some name /\ drop i (field_names c) = name :: drop (S i) (field_names c).
Proof. intros H. destruct (lookup_lt_is_Some_2 (field_names c) i) as [name Hn]; [lia|]. exists name. split; [done|by apply drop_S]. Qed.

Lemma append_names_spec n : forall (i : nat) b, (i + n)%nat = length (field_names c) -> buffer_ok b ->
  wrote b (append_names garbage n (filterable_fields c) (Z.of_nat i) b) (names_image (drop i (field_names c))).
Proof using Hw Hv.
  induction n as [|n IH]; intros i b Hi Hb; cbn [append_names].
  { rewrite drop_ge by lia. unfold wrote, names_image. cbn. by rewrite app_nil_r. }
  destruct (names_step i n Hi) as (name&Hn&->). destruct (field_at_index i name Hn) as (field&->&_&_&Hh&Hz&_).
  rewrite outcome_bind_ok, (strlen_spec _ _ Hh), outcome_bind_ok. pose proof (zlen_nonneg name).
  assert (u32 (zlen name) = zlen name) as -> by (unfold u32; apply Z.mod_small; lia).
  unfold names_image. cbn [fmap list_fmap concat]. fold (names_image (drop (S i) (field_names c))). unfold view_image. rewrite <- (assoc_L (++)).
  unfold wrote. apply (wrote_bind b _ (put_u32_le (zlen name))); [by apply appends_wrote; [apply append_u32_word|]|done|]. intros b1 Hb1 E1.
  apply (wrote_bind b1 _ name); [apply (appends_wrote (fun b => append garbage b (Some field) (zlen name)) name b1); [|done]|done|].
  { pose proof (append_appends garbage field (zlen name)) as HA. destruct Hh as (t&->&_).
    assert (slice (name ++ 0 :: t) 0 (zlen name) = name) as Es by exact (slice_app_mid [] name (0 :: t) 0 (zlen name) eq_refl eq_refl).
    rewrite Es in HA. apply HA; [lia|]. rewrite zlen_app. pose_zlen. lia. }
  intros b2 Hb2 E2. specialize (IH (S i) b2 ltac:(lia) Hb2). replace (Z.of_nat i + 1) with (Z.of_nat (S i)) by lia.
  unfold wrote in IH. destruct (append_names _ _ _ _ _) as [b3|e|]; [|done|done]. destruct IH as [? E3]. split; [done|].
  rewrite E3, E2, E1. by rewrite <- !(assoc_L (++)).
Qed.

Lemma append_fields_spec d root n : forall (i : nat) s, (i + n)%nat = length (field_names c) -> buffer_ok s.1 -> is_u64 s.2 ->
  wrote_entries s (names_entries (drop i (field_names c)) (Z.of_nat i) d root) (append_fields garbage n (filterable_fields c) (Z.of_nat i) d root s).
Proof using Hw Hv.
  induction n as [|n IH]; intros i s Hi Hb Hs; cbn [append_fields].
  { rewrite drop_ge by lia. by apply wrote_nil. }
  destruct (names_step i n Hi) as (name&Hn&->). destruct (field_at_index i name Hn) as (field&->&H0&E&_).
  rewrite outcome_bind_ok, path_value_spec, outcome_bind_ok, E by done. cbn [names_entries].
  pose proof field_count_range. pose proof zlen_field_names as Hz. unfold zlen in Hz.
  assert (u32 (Z.of_nat i) = Z.of_nat i) as -> by (unfold u32; apply Z.mod_small; lia).
  apply wrote_seq.
  - unfold field_entries, value_at. destruct (path_value_from _ _ _); [by apply append_value_spec|by apply wrote_nil].
  - intros s' Hb' Hs'. replace (Z.of_nat i + 1) with (Z.of_nat (S i)) by lia. apply IH; [lia|done|done].
Qed.

(** The loop over the documents ends well only when every root is an object. *)
Lemma append_documents_spec docs roots : Forall document_wf docs -> forall (i : nat) s, (i + length docs <= length roots)%nat -> buffer_ok s.1 -> is_u64 s.2 ->
  match append_documents garbage c docs roots (Z.of_nat i) s with
  | Ok s' => exists vals, take (length docs) (drop i roots) = Some <$> vals /\
      wrote_entries s (roots_entries (field_names c) (Z.of_nat i) vals) (Ok s')
  | Err _ => True
  | Fault => False
  end.
Proof using Hw Hv.
  intros HD. induction HD as [|d docs Hd HD IH]; intros i s Hi Hb Hs; cbn [append_documents length take] in *.
  { exists []. split; [done|]. by apply wrote_nil. }
  destruct (lookup_lt_is_Some_2 roots i) as [root Hr]; [lia|]. rewrite (elem_at_lookup _ _ _ Hr), outcome_bind_ok, (drop_S _ _ _ Hr).
  pose proof (document_validate_safe d Hd) as HV. destruct (YAP_V2_document_validate (Some d)); [|done|done].
  destruct root as [root|]; [|done]. destruct (yyjson_is_obj root); cbn [negb]; [|done].
  pose proof zlen_field_names as Hz. pose proof field_count_range.
  pose proof (append_fields_spec (Z.of_nat i) root (Z.to_nat count) 0 s ltac:(unfold zlen in Hz; lia) Hb Hs) as HF. change (Z.of_nat 0) with 0 in HF. cbn [drop] in HF.
  destruct (append_fields _ _ _ _ _ _ _) as [s'|e|]; [|done|done]. rewrite outcome_bind_ok.
  destruct (wrote_state _ _ _ HF) as [Hb' Hs'].
  specialize (IH (S i) s' ltac:(lia) Hb' Hs'). replace (Z.of_nat i + 1) with (Z.of_nat (S i)) by lia.
  destruct (append_documents _ _ _ _ _ _) as [s''|e|]; [|done|done]. destruct IH as (vals&Ev&HW).
  exists (root :: vals). split; [cbn [take fmap list_fmap]; by rewrite Ev|]. cbn [roots_entries].
  replace (Z.of_nat i + 1) with (Z.of_nat (S i)) by lia.
  by eapply wrote_trans.
Qed.

Lemma zlen_entries_image es : 20 * zlen es <= zlen (entries_image es).
Proof.
  induction es as [|e es IH]; [done|]. unfold entries_image in *. cbn [fmap list_fmap concat]. rewrite zlen_app, zlen_cons. unfold entry_image at 1, view_image. zl.
Qed.

(** The payload that is assembled is the image of the entries of the documents. *)
Lemma metadata_payload_spec docs roots : Forall document_wf docs -> length roots = length docs ->
  match metadata_payload garbage c docs roots with
  | Ok (payload, records) => exists vals, roots = Some <$> vals /\
      let es := roots_entries (field_names c) 0 vals in
      buffer_ok payload /\ content payload = metadata_image (field_names c) (zlen docs) es /\ records = zlen es /\ Forall value_fits es
  | Err _ => True
  | Fault => False
  end.
Proof using Hw Hv.
  intros HD Hlen. pose proof field_count_range as Hc. pose proof zlen_field_names as Hz. unfold metadata_payload.
  assert (u32 count = count) as -> by (unfold u32; apply Z.mod_small; lia).
  apply (wrote_bind buffer_zero _ (put_u32_le 1)); [apply appends_wrote; [apply append_u32_word|apply buffer_zero_ok]|done|]. intros b1 Hb1 E1.
  apply (wrote_bind b1 _ (put_u32_le count)); [by apply appends_wrote; [apply append_u32_word|]|done|]. intros b2 Hb2 E2.
  apply (wrote_bind b2 _ (put_u64_le (zlen docs))); [by apply appends_wrote; [apply append_u64_word|]|done|]. intros b3 Hb3 E3.
  apply (wrote_bind b3 _ (put_u64_le 0)); [by apply appends_wrote; [apply append_u64_word|]|done|]. intros b4 Hb4 E4.
  apply (wrote_bind b4 _ (names_image (field_names c))); [|done|].
  { apply (append_names_spec (Z.to_nat count) 0 b4); [unfold zlen in Hz; lia|done]. }
  intros b5 Hb5 E5. pose proof (append_documents_spec docs roots HD 0 (b5, 0) ltac:(lia) Hb5 ltac:(done)) as HA. change (Z.of_nat 0) with 0 in HA.
  destruct (append_documents _ _ _ _ _ _) as [[b6 n]|e|]; [|done|done]. destruct HA as (vals&Ev&Hb6&E6&->&HF). rewrite outcome_bind_ok. cbn [fst snd] in *.
  set (es := roots_entries (field_names c) 0 vals) in *. rewrite drop_0, take_ge in Ev by lia.
  pose proof (zlen_entries_image es) as Hze. pose proof (zlen_content _ Hb6) as Hz6. pose proof Hb6 as (?&?&_). unfold YAP_V2_MAX_SEGMENT_PAYLOAD_BYTES in *.
  assert (u64 (0 + zlen es) = zlen es) as ->.
  { apply u64_small. pose proof (zlen_nonneg es). rewrite E6, zlen_app in Hz6. pose_zlen. lia. }
  assert (content b6 = (put_u32_le 1 ++ put_u32_le count ++ put_u64_le (zlen docs)) ++ put_u64_le 0 ++ names_image (field_names c) ++ entries_image es) as EC.
  { rewrite E6, E5, E4, E3, E2, E1. by rewrite <- !(assoc_L (++)). }
  destruct (store_content b6 _ (put_u64_le 0) (names_image (field_names c) ++ entries_image es) (put_u64_le (zlen es)) 16 Hb6 EC) as (block&->&Hbk&Ek); [done|done|].
  rewrite outcome_bind_ok. exists vals. split; [done|]. cbv zeta. fold es. split_and!; [done| |done|done]. rewrite Ek. unfold metadata_image.
  rewrite Hz. by rewrite <- !(assoc_L (++)).
Qed.
End fields.
End write_proofs.

(** ** Reading *)
Record entry_ok (fields documents : Z) (e : YAP_V2_METADATA_ENTRY) : Prop := {
  eo_field : 0 <= field_ordinal e < fields;
  eo_document : 0 <= document_ordinal e < documents;
  eo_type : YAP_V2_METADATA_NULL <= entry_type e <= YAP_V2_METADATA_STRING;
  eo_value : entry_value e = mk_view (view_bytes (entry_value e)) /\ bytes_ok (view_bytes (entry_value e)) /\ zlen (view_bytes (entry_value e)) <= UINT32_MAX }.

(** An index over payload bytes: its entries are inside of their bounds and their values are
    bytes of the payload. *)
Record index_ok (c : YAP_V2_CONFIG) (index : YAP_V2_METADATA_INDEX) : Prop := {
  io_fields : md_fields index = name_rows (field_names c) /\ md_field_count index = filterable_field_count c;
  io_documents : is_u64 (md_document_count index);
  io_entries : Forall (entry_ok (md_field_count index) (md_document_count index)) (md_entries index);
  io_storage : md_storage index = metadata_image (field_names c) (md_document_count index) (md_entries index) }.

Section read_proofs.
Context {A : Allocator} (c : YAP_V2_CONFIG) (Hw : config_wf c) (Hv : config_valid c).
Abbreviation count := (filterable_field_count c).
Abbreviation names := (field_names c).

(** The rows after [i] names. *)
Definition rows_upto (i : nat) : list bytes := (name_row <$> take i names) ++ replicate (64 - i) (zero_string 128).

Lemma rows_upto_step (i : nat) name : names !! i = Some name -> (i < 64)%nat -> zlen name <= 127 ->
  exists row row', elem_at (E := YAP_V2_STATUS) (rows_upto i) (Z.of_nat i) = Ok row /\ store_bytes (E := YAP_V2_STATUS) row 0 name = Ok row' /\
    store_bytes (E := YAP_V2_STATUS) row' (zlen name) [0] = Ok (name_row name) /\ <[i := name_row name]> (rows_upto i) = rows_upto (S i).
Proof.
  intros Hn Hi Hz. pose proof (lookup_lt_Some _ _ _ Hn) as Hlt. pose proof (zlen_nonneg name).
  assert (length (name_row <$> take i names) = i) as Hl by (rewrite length_fmap, length_take; lia).
  assert (replicate (64 - i) (zero_string 128) = zero_string 128 :: replicate (64 - S i) (zero_string 128)) as Er
    by (replace (64 - i)%nat with (S (64 - S i)) by lia; done).
  assert (zero_string 128 = [] ++ zero_string (zlen name) ++ zero_string (128 - zlen name)) as Ez.
  { unfold zero_string. cbn [app]. rewrite <- replicate_add. f_equal. lia. }
  assert (zero_string (128 - zlen name) = [0] ++ zero_string (127 - zlen name)) as E1.
  { unfold zero_string. replace (Z.to_nat (128 - zlen name)) with (S (Z.to_nat (127 - zlen name))) by lia. done. }
  exists (zero_string 128), (name ++ zero_string (128 - zlen name)). split_and!.
  - apply elem_at_lookup. unfold rows_upto. rewrite lookup_app_r, Hl, Nat.sub_diag, Er by lia. done.
  - rewrite Ez, (store_bytes_app [] _ _ name 0); [done|done|]. unfold zero_string. rewrite zlen_replicate. lia.
  - rewrite E1, (store_bytes_app name [0] _ [0] (zlen name)); [|done|done]. unfold name_row. by rewrite E1.
  - unfold rows_upto. rewrite (take_S_r _ _ _ Hn), fmap_app, Er, <- (assoc_L (++)). rewrite insert_app_r_alt by lia. by rewrite Hl, Nat.sub_diag.
Qed.

Lemma view_image_read pre bs post payload off : payload = pre ++ view_image bs ++ post -> off = zlen pre -> bytes_ok payload -> zlen bs <= UINT32_MAX ->
  get_u32_le (E := YAP_V2_STATUS) payload off = Ok (zlen bs) /\ load_bytes (E := YAP_V2_STATUS) payload (off + 4) (zlen bs) = Ok bs /\
  off + 4 + zlen bs <= zlen payload.
Proof.
  intros Hp -> Hok Hz. pose proof (zlen_nonneg bs). assert (payload = pre ++ put_u32_le (zlen bs) ++ bs ++ post) as E by (rewrite Hp; unfold view_image; by rewrite <- (assoc_L (++))).
  split_and!.
  - eapply word32_at; [done|exact E|done|]. unfold is_u32, UINT32_MAX in *. lia.
  - rewrite E, (assoc_L (++)). apply load_bytes_app; [zl|done].
  - rewrite E. zl.
Qed.

Lemma read_names_image payload post n : forall (i : nat) pre, (i + n)%nat = length names -> payload = pre ++ names_image (drop i names) ++ post -> bytes_ok payload ->
  read_names n payload (filterable_fields c) (rows_upto i) (Z.of_nat i) (zlen pre) =
    Ok (rows_upto (length names), zlen pre + zlen (names_image (drop i names))).
Proof using Hw Hv.
  pose proof (field_count_range c Hw Hv) as Hc. pose proof (zlen_field_names c Hw Hv) as Hzn. unfold zlen in Hzn.
  induction n as [|n IH]; intros i pre Hi Hp Hok; cbn [read_names].
  { rewrite drop_ge by lia. replace i with (length names) by lia. unfold names_image. cbn. f_equal. f_equal. rewrite zlen_nil. lia. }
  destruct (names_step c i n Hi) as (name&Hn&Ed). rewrite Ed in Hp |- *. destruct (field_at_index c Hw Hv i name Hn) as (field&->&_&_&Hh&Hz&_).
  unfold names_image in Hp |- *. cbn [fmap list_fmap concat] in Hp |- *. fold (names_image (drop (S i) names)) in *. rewrite <- (assoc_L (++)) in Hp.
  destruct (view_image_read pre name _ payload (zlen pre) Hp eq_refl Hok) as (Hg&Hl&Hle); [unfold UINT32_MAX; lia|]. pose proof (zlen_nonneg name). pose proof (zlen_nonneg pre).
  rewrite (proj2 (Z.ltb_ge _ _)) by lia. rewrite (proj2 (Z.ltb_ge _ 4)) by lia. cbn [orb]. rewrite Hg, outcome_bind_ok. cbv zeta.
  unfold YAP_V2_MAX_FILTER_FIELD_BYTES. rewrite (proj2 (Z.ltb_ge 127 _)) by lia. rewrite (proj2 (Z.ltb_ge (zlen payload) _)) by lia. rewrite (proj2 (Z.ltb_ge _ (zlen name))) by lia.
  cbn [orb]. rewrite outcome_bind_ok, (strlen_spec _ _ Hh), outcome_bind_ok, Z.eqb_refl. cbn [negb]. rewrite Hl, outcome_bind_ok.
  assert (load_bytes (E := YAP_V2_STATUS) field 0 (zlen name) = Ok name) as -> by (destruct Hh as (t&->&_); by apply load_bytes_app0).
  rewrite outcome_bind_ok, bool_decide_true by done. cbn [negb].
  destruct (rows_upto_step i name Hn ltac:(lia) Hz) as (row&row'&->&E1&E2&E3). rewrite outcome_bind_ok, E1, outcome_bind_ok, E2, outcome_bind_ok, Nat2Z.id, E3.
  replace (Z.of_nat i + 1) with (Z.of_nat (S i)) by lia.
  assert (zlen pre + 4 + zlen name = zlen (pre ++ view_image name)) as -> by (rewrite zlen_app, zlen_view_image; lia).
  rewrite (IH (S i)) by (lia || done || by rewrite <- (assoc_L (++))). f_equal. f_equal. rewrite !zlen_app. lia.
Qed.

Lemma read_records_image documents payload es : Forall (entry_ok count documents) es -> documents < 2 ^ 64 -> forall pre post,
  payload = pre ++ entries_image es ++ post -> bytes_ok payload ->
  read_entries (length es) payload count documents (zlen pre) = Ok (es, zlen pre + zlen (entries_image es)).
Proof using Hw Hv.
  pose proof (field_count_range c Hw Hv) as Hc. intros HF Hd. induction HF as [|e es [Hf Ho Ht (Hv1&Hv2&Hv3)] HF IH]; intros pre post Hp Hok; cbn [read_entries length].
  { unfold entries_image. cbn. f_equal. f_equal. rewrite zlen_nil. lia. }
  unfold entries_image in Hp |- *. cbn [fmap list_fmap concat] in Hp |- *. fold (entries_image es) in *. rewrite <- (assoc_L (++)) in Hp.
  set (value := view_bytes (entry_value e)) in *. pose proof (zlen_nonneg value). pose proof (zlen_nonneg pre).
  assert (entry_image e = (put_u32_le (field_ordinal e) ++ put_u64_le (document_ordinal e) ++ put_u32_le (entry_type e)) ++ view_image value) as Ei
    by (unfold entry_image; by rewrite <- !(assoc_L (++))).
  set (head_ := put_u32_le (field_ordinal e) ++ put_u64_le (document_ordinal e) ++ put_u32_le (entry_type e)) in *.
  assert (zlen head_ = 16) as Hh16 by done.
  assert (payload = (pre ++ head_) ++ view_image value ++ (entries_image es ++ post)) as Hp' by (rewrite Hp, Ei; by rewrite <- !(assoc_L (++))).
  destruct (view_image_read _ value _ payload (zlen pre + 16) Hp' ltac:(rewrite zlen_app; lia) Hok Hv3) as (Hg&Hl&Hle).
  unfold YAP_V2_METADATA_NULL, YAP_V2_METADATA_STRING, UINT32_MAX in *.
  rewrite (proj2 (Z.ltb_ge _ _)) by lia. rewrite (proj2 (Z.ltb_ge _ 20)) by lia. cbn [orb].
  rewrite (word32_at payload pre (field_ordinal e) (put_u64_le (document_ordinal e) ++ put_u32_le (entry_type e) ++ view_image value ++ entries_image es ++ post) (zlen pre)), outcome_bind_ok;
    [|done|by rewrite Hp'; unfold head_; rewrite <- !(assoc_L (++))|done|unfold is_u32; lia].
  rewrite (word64_at payload (pre ++ put_u32_le (field_ordinal e)) (document_ordinal e) (put_u32_le (entry_type e) ++ view_image value ++ entries_image es ++ post) (zlen pre + 4)), outcome_bind_ok;
    [|done|by rewrite Hp'; unfold head_; rewrite <- !(assoc_L (++))|rewrite zlen_app; done|unfold is_u64; lia].
  rewrite (word32_at payload (pre ++ put_u32_le (field_ordinal e) ++ put_u64_le (document_ordinal e)) (entry_type e) (view_image value ++ entries_image es ++ post) (zlen pre + 12)), outcome_bind_ok;
    [|done|by rewrite Hp'; unfold head_; rewrite <- !(assoc_L (++))|rewrite !zlen_app; done|unfold is_u32; lia].
  rewrite Hg, outcome_bind_ok. cbv zeta.
  rewrite (proj2 (Z.leb_gt count _)), (proj2 (Z.leb_gt documents _)), (proj2 (Z.ltb_ge (entry_type e) _)), (proj2 (Z.ltb_ge 4 (entry_type e))) by lia.
  rewrite (proj2 (Z.ltb_ge (zlen payload) _)), (proj2 (Z.ltb_ge _ (zlen value))) by lia. cbn [orb].
  replace (zlen pre + 20) with (zlen pre + 16 + 4) by lia. rewrite Hl, outcome_bind_ok.
  assert (zlen pre + 16 + 4 + zlen value = zlen (pre ++ entry_image e)) as -> by (rewrite Ei, !zlen_app, zlen_view_image; lia).
  rewrite (IH (pre ++ entry_image e) post) by (done || by rewrite <- (assoc_L (++))). rewrite outcome_bind_ok. f_equal. f_equal.
  - f_equal. destruct e; cbn [field_ordinal document_ordinal entry_type entry_value] in *. f_equal. by rewrite Hv1.
  - rewrite !zlen_app. lia.
Qed.
End read_proofs.

(** The converse: what is accepted is the image of what is read. *)
Section sound_proofs.
Context {A : Allocator} (c : YAP_V2_CONFIG) (Hw : config_wf c) (Hv : config_valid c).
Context (payload : bytes) (Hok : bytes_ok payload) (Hmax : zlen payload < 2 ^ 63).
Abbreviation count := (filterable_field_count c).
Abbreviation names := (field_names c).

Definition consumed (off off' : Z) (bs : bytes) : Prop := off <= off' <= zlen payload /\ slice payload off (off' - off) = bs.

Lemma consumed_nil off : off <= zlen payload -> consumed off off [].
Proof. intros. split; [lia|]. by rewrite Z.sub_diag. Qed.

Lemma consumed_app off mid off' bs bs' : 0 <= off -> consumed off mid bs -> consumed mid off' bs' -> consumed off off' (bs ++ bs').
Proof.
  intros H0 [H1 <-] [H2 <-]. split; [lia|]. replace (off' - off) with ((mid - off) + (off' - mid)) by lia.
  rewrite slice_split by lia. by replace (off + (mid - off)) with mid by lia.
Qed.

Lemma consumed_u32 off : 0 <= off -> off + 4 <= zlen payload ->
  exists v, get_u32_le (E := YAP_V2_STATUS) payload off = Ok v /\ is_u32 v /\ consumed off (off + 4) (put_u32_le v).
Proof using Hok.
  intros. destruct (field_u32 payload off Hok) as [E [Hr Hf]]; [lia|lia|]. eexists. split; [exact E|]. split; [done|]. split; [lia|].
  by replace (off + 4 - off) with 4 by lia.
Qed.
Lemma consumed_u64 off : 0 <= off -> off + 8 <= zlen payload ->
  exists v, get_u64_le (E := YAP_V2_STATUS) payload off = Ok v /\ is_u64 v /\ consumed off (off + 8) (put_u64_le v).
Proof using Hok.
  intros. destruct (field_u64 payload off Hok) as [E [Hr Hf]]; [lia|lia|]. eexists. split; [exact E|]. split; [done|]. split; [lia|].
  by replace (off + 8 - off) with 8 by lia.
Qed.
Lemma consumed_bytes off n : 0 <= off -> 0 <= n -> off + n <= zlen payload ->
  exists bs, load_bytes (E := YAP_V2_STATUS) payload off n = Ok bs /\ bytes_ok bs /\ zlen bs = n /\ consumed off (off + n) bs.
Proof using Hok.
  intros. exists (slice payload off n). rewrite load_bytes_slice by lia. split_and!; [done|by apply Forall_slice|apply zlen_slice; lia|]. split; [lia|].
  by replace (off + n - off) with n by lia.
Qed.

Lemma read_names_sound n : forall (i : nat) off, (i + n)%nat = length names -> 0 <= off <= zlen payload ->
  match read_names n payload (filterable_fields c) (rows_upto c i) (Z.of_nat i) off with
  | Ok (rows, off') => rows = rows_upto c (length names) /\ consumed off off' (names_image (drop i names))
  | Err _ => True
  | Fault => False
  end.
Proof using Hw Hv Hok.
  pose proof (field_count_range c Hw Hv) as Hc. pose proof (zlen_field_names c Hw Hv) as Hzn. unfold zlen in Hzn.
  induction n as [|n IH]; intros i off Hi Hoff; cbn [read_names].
  { rewrite drop_ge by lia. replace i with (length names) by lia. split; [done|]. apply consumed_nil. lia. }
  destruct (_ || _) eqn:T; [done|]. btests. destruct (names_step c i n Hi) as (name&Hn&->). destruct (field_at_index c Hw Hv i name Hn) as (field&->&_&_&Hh&Hz&_).
  destruct (consumed_u32 off) as (m&->&Hm&C1); [lia|lia|]. rewrite outcome_bind_ok. cbv zeta. destruct (_ || _) eqn:T2; [done|]. btests.
  rewrite outcome_bind_ok, (strlen_spec _ _ Hh), outcome_bind_ok. destruct (Z.eqb_spec m (zlen name)) as [->|]; cbn [negb]; [|done].
  destruct (consumed_bytes (off + 4) (zlen name)) as (bs&->&_&Hzb&C2); [lia|apply zlen_nonneg|lia|]. rewrite outcome_bind_ok.
  assert (load_bytes (E := YAP_V2_STATUS) field 0 (zlen name) = Ok name) as -> by (destruct Hh as (t&->&_); by apply load_bytes_app0).
  rewrite outcome_bind_ok. destruct (bool_decide_reflect (bs = name)) as [->|]; cbn [negb]; [|done].
  destruct (rows_upto_step c i name Hn ltac:(lia) Hz) as (row&row'&->&E1&E2&E3). rewrite outcome_bind_ok, E1, outcome_bind_ok, E2, outcome_bind_ok, Nat2Z.id, E3.
  replace (Z.of_nat i + 1) with (Z.of_nat (S i)) by lia. pose proof (zlen_nonneg name). specialize (IH (S i) (off + 4 + zlen name) ltac:(lia) ltac:(lia)).
  destruct (read_names _ _ _ _ _ _) as [[rows off']|e|]; [|done|done]. destruct IH as [-> C3]. split; [done|].
  unfold names_image. cbn [fmap list_fmap concat]. eapply consumed_app; [lia| |exact C3]. unfold view_image. by eapply consumed_app; [lia| |].
Qed.

Lemma read_records_sound documents n : forall off, 0 <= off <= zlen payload ->
  match read_entries n payload count documents off with
  | Ok (es, off') => Forall (entry_ok count documents) es /\ length es = n /\ consumed off off' (entries_image es)
  | Err _ => True
  | Fault => False
  end.
Proof using Hok.
  induction n as [|n IH]; intros off Hoff; cbn [read_entries].
  { split_and!; [done|done|]. apply consumed_nil. lia. }
  destruct (_ || _) eqn:T; [done|]. btests.
  destruct (consumed_u32 off) as (f&->&Hf&C1); [lia|lia|]. destruct (consumed_u64 (off + 4)) as (d&->&Hd&C2); [lia|lia|].
  destruct (consumed_u32 (off + 12)) as (t&->&Ht&C3); [lia|lia|]. destruct (consumed_u32 (off + 16)) as (m&->&Hm&C4); [lia|lia|].
  rewrite !outcome_bind_ok. cbv zeta. destruct (_ || _) eqn:T2; [done|]. btests. unfold is_u32, is_u64 in *.
  destruct (consumed_bytes (off + 20) m) as (bs&->&Hbs&Hz&C5); [lia|lia|lia|]. rewrite outcome_bind_ok. specialize (IH (off + 20 + m) ltac:(lia)).
  destruct (read_entries _ _ _ _ _) as [[es off']|e|]; [|done|done]. destruct IH as (HF&Hl&C6). rewrite outcome_bind_ok.
  assert (BytesView (Some bs) m = mk_view bs) as -> by (unfold mk_view; by rewrite Hz).
  split_and!; [|cbn; lia|].
  - constructor; [|done]. split; cbn [field_ordinal document_ordinal entry_type entry_value]; [lia|lia|lia|].
    rewrite view_bytes_mk. split_and!; [done|done|unfold UINT32_MAX; lia].
  - unfold entries_image. cbn [fmap list_fmap concat]. eapply consumed_app; [lia| |exact C6].
    unfold entry_image, view_image. cbn [field_ordinal document_ordinal entry_type entry_value]. rewrite view_bytes_mk, Hz.
    replace (off + 12) with (off + 4 + 8) in * by lia. replace (off + 16) with (off + 4 + 8 + 4) in * by lia. replace (off + 20) with (off + 4 + 8 + 4 + 4) in * by lia.
    repeat (eapply consumed_app; [lia|eassumption|]). done.
Qed.

Lemma metadata_parse_sound :
  match metadata_parse c payload with
  | Ok index => index_ok c index /\ md_storage index = payload
  | Err _ => True
  | Fault => False
  end.
Proof using Hw Hv Hok.
  pose proof (field_count_range c Hw Hv) as Hc. pose proof (zlen_field_names c Hw Hv) as Hzn. pose proof Hzn as Hln. unfold zlen in Hln.
  unfold metadata_parse. destruct (Z.ltb_spec (zlen payload) 24) as [|H24]; [done|].
  destruct (consumed_u32 0) as (v&->&_&C1); [lia|lia|]. rewrite outcome_bind_ok. destruct (Z.eqb_spec v 1) as [->|]; cbn [negb]; [|done].
  destruct (consumed_u32 4) as (n&->&_&C2); [lia|lia|]. rewrite outcome_bind_ok. destruct (Z.eqb_spec n count) as [->|]; cbn [negb]; [|done].
  destruct (consumed_u64 8) as (d&->&Hd&C3); [lia|lia|]. destruct (consumed_u64 16) as (m&->&Hm&C4); [lia|lia|]. rewrite !outcome_bind_ok.
  destruct (_ <? m); [done|].
  pose proof (read_names_sound (Z.to_nat count) 0 24 ltac:(lia) ltac:(lia)) as HR. change (Z.of_nat 0) with 0 in HR. change (rows_upto c 0) with (md_fields YAP_V2_metadata_index_init) in HR.
  destruct (read_names _ _ _ _ _ _) as [[rows off]|e|]; [|done|done]. destruct HR as [-> C5]. rewrite outcome_bind_ok. destruct (negb (alloc_ok _) && _); [done|].
  pose proof (read_records_sound d (Z.to_nat m) off ltac:(destruct C5; lia)) as HE. destruct (read_entries _ _ _ _ _) as [[es off']|e|]; [|done|done].
  destruct HE as (HF&Hl&C6). rewrite outcome_bind_ok. destruct (Z.eqb_spec off' (zlen payload)) as [->|]; cbn [negb]; [|done]. split; [|done].
  split; cbn [md_fields md_field_count md_document_count md_entries md_storage]; [|done|done|].
  - split; [|done]. unfold rows_upto, name_rows. by rewrite take_ge.
  - assert (zlen es = m) as Hze by (unfold is_u64, zlen in *; lia). unfold metadata_image. rewrite Hzn, Hze.
    assert (consumed 0 (zlen payload) (put_u32_le 1 ++ put_u32_le count ++ put_u64_le d ++ put_u64_le m ++ names_image names ++ entries_image es)) as [_ HC].
    { repeat (eapply consumed_app; [lia|eassumption|]). exact C6. }
    rewrite Z.sub_0_r, slice_all in HC. done.
Qed.
End sound_proofs.

(** Reading the image of valid entries. *)
Lemma metadata_image_ok names documents es : Forall bytes_ok names -> Forall (fun e => bytes_ok (view_bytes (entry_value e))) es ->
  bytes_ok (metadata_image names documents es).
Proof.
  intros Hn He. assert (forall l, Forall bytes_ok l -> bytes_ok (names_image l)) as H1.
  { intros l Hl. unfold names_image. induction Hl as [|x l Hx Hl IH]; [constructor|]. cbn [fmap list_fmap concat]. apply Forall_app. split; [by apply view_image_ok|done]. }
  assert (forall l, Forall (fun e => bytes_ok (view_bytes (entry_value e))) l -> bytes_ok (entries_image l)) as H2.
  { intros l Hl. unfold entries_image. induction Hl as [|x l Hx Hl IH]; [constructor|]. cbn [fmap list_fmap concat]. apply Forall_app. split; [|done]. unfold entry_image.
    pose proof (view_image_ok _ Hx). bok. }
  specialize (H1 _ Hn). specialize (H2 _ He). unfold metadata_image. bok.
Qed.

Lemma metadata_parse_image {A : Allocator} c documents es : config_wf c -> config_valid c -> is_u64 documents ->
  Forall (entry_ok (filterable_field_count c) documents) es -> zlen (metadata_image (field_names c) documents es) < 2 ^ 63 ->
  metadata_parse c (metadata_image (field_names c) documents es) =
    Ok (MetadataIndex (name_rows (field_names c)) (filterable_field_count c) documents es (metadata_image (field_names c) documents es)) \/
  metadata_parse c (metadata_image (field_names c) documents es) = Err YAP_V2_ALLOCATION_FAILED /\ exists n, alloc_ok n = false.
Proof.
  intros Hw Hv Hd HF Hz. pose proof (field_count_range c Hw Hv) as Hc. pose proof (zlen_field_names c Hw Hv) as Hzn. pose proof Hzn as Hln. unfold zlen in Hln.
  set (names := field_names c) in *. set (payload := metadata_image names documents es) in *.
  assert (bytes_ok payload) as Hok.
  { apply metadata_image_ok.
    - apply Forall_lookup_2. intros i name Hi. by destruct (field_at_index c Hw Hv i name Hi) as (?&_&_&_&_&_&?).
    - eapply Forall_impl; [exact HF|]. by intros e [_ _ _ (_&?&_)]. }
  set (h1 := put_u32_le 1). set (h2 := put_u32_le (zlen names)). set (h3 := put_u64_le documents). set (h4 := put_u64_le (zlen es)).
  assert (payload = (h1 ++ h2 ++ h3 ++ h4) ++ names_image names ++ entries_image es) as Ep by (unfold payload, metadata_image; by rewrite <- !(assoc_L (++))).
  pose proof (zlen_entries_image es) as Hze. pose proof (zlen_nonneg es). assert (zlen payload = 24 + zlen (names_image names) + zlen (entries_image es)) as Hzp.
  { rewrite Ep, !zlen_app. unfold h1, h2, h3, h4. rewrite !zlen_put_u32_le, !zlen_put_u64_le. lia. }
  pose proof (zlen_nonneg (names_image names)). unfold metadata_parse. rewrite (proj2 (Z.ltb_ge _ 24)) by lia.
  rewrite (word32_at payload [] 1 (h2 ++ h3 ++ h4 ++ names_image names ++ entries_image es) 0) by (done || (rewrite Ep; by rewrite <- !(assoc_L (++)))). rewrite outcome_bind_ok. cbn [Z.eqb negb Pos.eqb].
  rewrite (word32_at payload h1 (zlen names) (h3 ++ h4 ++ names_image names ++ entries_image es) 4); [|done|by rewrite Ep, <- !(assoc_L (++))|done|unfold is_u32; lia].
  rewrite outcome_bind_ok, Hzn, Z.eqb_refl. cbn [negb].
  rewrite (word64_at payload (h1 ++ h2) documents (h4 ++ names_image names ++ entries_image es) 8); [|done|by rewrite Ep, <- !(assoc_L (++))|done|done].
  rewrite (word64_at payload (h1 ++ h2 ++ h3) (zlen es) (names_image names ++ entries_image es) 16); [|done|by rewrite Ep, <- !(assoc_L (++))|done|unfold is_u64; lia].
  rewrite !outcome_bind_ok. unfold SIZE_MAX, sizeof_metadata_entry. rewrite (proj2 (Z.ltb_ge _ (zlen es))).
  2: { change ((2 ^ 64 - 1) / 40) with 461168601842738790. lia. }
  pose proof (read_names_image c Hw Hv payload (entries_image es) (Z.to_nat (filterable_field_count c)) 0 (h1 ++ h2 ++ h3 ++ h4) ltac:(fold names; lia) Ep Hok) as HR.
  change (Z.of_nat 0) with 0 in HR. change (zlen (h1 ++ h2 ++ h3 ++ h4)) with 24 in HR. change (rows_upto c 0) with (md_fields YAP_V2_metadata_index_init) in HR. rewrite HR, outcome_bind_ok. cbn [drop].
  destruct (negb _ && _) eqn:HA; [right; split; [done|]; apply andb_true_iff in HA as [HA _]; exists (zlen es * 40); by destruct (alloc_ok _)|]. left.
  pose proof (read_records_image c Hw Hv documents payload es HF (proj2 Hd) ((h1 ++ h2 ++ h3 ++ h4) ++ names_image names) []) as HE.
  rewrite app_nil_r, <- (assoc_L (++)) in HE. specialize (HE Ep Hok). rewrite zlen_app in HE. change (zlen (h1 ++ h2 ++ h3 ++ h4)) with 24 in HE.
  replace (Z.to_nat (zlen es)) with (length es) by (unfold zlen; lia). fold names in HE. rewrite drop_0. fold names. rewrite HE, outcome_bind_ok.
  rewrite (proj2 (Z.eqb_eq _ _)) by lia. cbn [negb]. do 2 f_equal. unfold rows_upto, name_rows. by rewrite take_ge.
Qed.
