(* ===== verification/MetadataFiles.v ===== *)
(** The metadata file on disk (src/src/components/yappo_metadata_v2.c): what is written is read
    back, and reading any file is safe. *)
From Stdlib Require Import String.
From S2P Require Import Prelude Words Types Crc Sha256 Header SlotTable Manifest FileSystem Reader Buffer Segment Verify CString Config Json Vectors Metadata LexicalWriter Frame LexicalFiles.
#[local] Open Scope io_scope.
#[local] Open Scope Z_scope.

Section files.
Context {A : Allocator} {J : Yyjson} (garbage : nat -> Z).

Lemma metadata_header_spec g payload : g <> 0 -> buffer_ok payload ->
  metadata_header garbage g payload = Ok (header_image (file_header YAP_V2_FILE_METADATA g (content payload))).
Proof. intros Hg Hb. by apply (component_header_spec garbage YAP_V2_FILE_METADATA g payload). Qed.

Lemma write_tmp_eq i header payload : payload <> [] -> write_vectors_tmp i header payload = write_component_tmp i header payload.
Proof.
  intros H. unfold write_vectors_tmp, write_component_tmp. rewrite (proj2 (Z.ltb_lt 0 (zlen payload))); [done|].
  destruct payload; [done|]. rewrite zlen_cons. pose_zlen. lia.
Qed.

Definition metadata_descriptor (records : Z) (file : bytes) : YAP_V2_COMPONENT_DESCRIPTOR :=
  ComponentDescriptor METADATA_NAME YAP_V2_FILE_METADATA records (zlen file) (sha256_spec file).

Lemma metadata_write_atomic_wp p g payload records w0 : g <> 0 -> buffer_ok payload -> content payload <> [] -> tmp_apart p w0 ->
  let file := file_image YAP_V2_FILE_METADATA g (content payload) in
  wp (metadata_write_atomic garbage p g payload records)
    (fun r w => match r with Ok d => durable p file w /\ d = metadata_descriptor records file | Err _ => True | Fault => False end) trivial w0.
Proof.
  intros Hg Hb Hne Hap file. pose proof (tmp_path_ne p) as Hpt. unfold metadata_write_atomic. rewrite metadata_header_spec by done.
  set (header := header_image (file_header YAP_V2_FILE_METADATA g (content payload))). fold (content payload).
  destruct (negb (alloc_ok _)); [by apply wp_ret|].
  assert (forall w, wp (do* unlink (tmp_path p) in io_ret (Err YAP_V2_IO_ERROR))
    (fun (r : result YAP_V2_COMPONENT_DESCRIPTOR) w => match r with Ok d => durable p file w /\ d = metadata_descriptor records file | Err _ => True | Fault => False end) trivial w) as Hfail.
  { intros w. apply wp_bind, wp_call. intros s. split_and!; [by apply wp_ret|by apply wp_ret|done]. }
  apply wp_bind. apply (wp_fopen_tmp p w0); [done| |by intros; apply wp_ret|done].
  intros i w1 H1. rewrite write_tmp_eq by done. apply wp_bind. eapply wp_mono; [by apply (write_tmp_staged p w0 header (content payload))|].
  intros [|] w2 H2; cbn [negb]; [|by apply wp_bind, wp_ret, Hfail]. specialize (H2 eq_refl).
  apply wp_bind, (wp_rename_staged p w0 (header ++ content payload) (tmp_path p) _ _ _ i); [done|done| |by intros; apply Hfail|done].
  intros w3 H3. cbn [negb]. destruct (negb (alloc_ok _)); [by apply wp_ret|].
  apply wp_bind, (wp_fsync_parent p w0 (header ++ content payload)); [done| |by intros; apply wp_ret|done].
  intros w4 H4. cbn [negb]. change (header ++ content payload) with file in H4.
  apply wp_bind. eapply wp_weaken; [apply (file_sha256_reads_at garbage p w4)| |done].
  - intros bs Hf. rewrite (durable_file p file w4 H4) in Hf. injection Hf as <-. unfold file. rewrite zlen_file_image, zlen_content by done.
    destruct Hb as (?&?&_). unfold YAP_V2_MAX_SEGMENT_PAYLOAD_BYTES in *. lia.
  - intros r w5 [Hd Hf]. apply wp_ret. destruct r as [[sum n]|e|]; [|done|done]. destruct Hd as (bs&Hbs&->&->).
    rewrite (durable_file p file w4 H4) in Hbs. injection Hbs as <-. split; [by apply (durable_frames p file w4)|done].
Qed.

(** *** Writing *)

(** The roots of documents whose metadata are objects. *)
Lemma read_roots_spec docs :
  match read_roots docs with
  | Ok roots => length roots = length docs /\ roots = (fun d => yyjson_read (data (metadata_json d)) (len (metadata_json d))) <$> docs
  | Err _ => True
  | Fault => False
  end.
Proof.
  induction docs as [|d docs IH]; cbn [read_roots]; [done|]. destruct (negb _); [done|].
  destruct (read_roots docs) as [roots|e|]; [|done|done]. destruct IH as [Hl ->]. rewrite outcome_bind_ok. cbn. by rewrite Hl.
Qed.

Definition metadata_file (c : YAP_V2_CONFIG) (g : Z) (documents : Z) (es : list YAP_V2_METADATA_ENTRY) : bytes :=
  file_image YAP_V2_FILE_METADATA g (metadata_image (field_names c) documents es).

(** The file of the entries of [vals] has been written. *)
Definition metadata_written (c : YAP_V2_CONFIG) (p : path) (g documents : Z) (vals : list yyjson_val) (d : YAP_V2_COMPONENT_DESCRIPTOR) (w : world) : Prop :=
  let es := roots_entries (field_names c) 0 vals in
  durable p (metadata_file c g documents es) w /\ d = metadata_descriptor (zlen es) (metadata_file c g documents es) /\ Forall value_fits es /\
  zlen (metadata_image (field_names c) documents es) <= YAP_V2_MAX_SEGMENT_PAYLOAD_BYTES.

Lemma metadata_write_preparsed_wp p g c docs roots w0 : config_wf c -> g <> 0 -> Forall document_wf docs -> length roots = length docs -> tmp_apart p w0 ->
  wp (YAP_V2_metadata_write_preparsed garbage (Some p) g (Some c) docs roots)
    (fun r w => match r with
                | Ok d => config_valid c /\ zlen docs <= YAP_V2_MAX_SEGMENT_DOCUMENTS /\ exists vals, roots = Some <$> vals /\ metadata_written c p g (zlen docs) vals d w
                | Err _ => True | Fault => False end) trivial w0.
Proof.
  intros Hw Hg HD Hl Hap. unfold YAP_V2_metadata_write_preparsed. destruct (config_validate_spec c Hw) as [HI HF].
  destruct (YAP_V2_config_validate (Some c)) as [[]|e|]; [|by apply wp_ret|done]. assert (config_valid c) as Hv by by apply HI.
  destruct (Z.ltb_spec YAP_V2_MAX_SEGMENT_DOCUMENTS (zlen docs)) as [|Hmax]; [by apply wp_ret|].
  pose proof (metadata_payload_spec garbage c Hw Hv docs roots HD Hl) as HP.
  destruct (metadata_payload garbage c docs roots) as [[payload n]|e|]; [|by apply wp_ret|done]. destruct HP as (vals&Er&Hb&Hc&->&Hfit).
  assert (content payload <> []) as Hne by (rewrite Hc; unfold metadata_image; by destruct (put_u32_le 1) eqn:E).
  eapply wp_mono; [by apply metadata_write_atomic_wp|]. intros [d|e|] w; [|done|done]. rewrite Hc. intros [HD' ->]. split; [done|]. split; [done|].
  exists vals. split; [done|]. pose proof (zlen_content _ Hb) as Hz. rewrite Hc in Hz. destruct Hb as (?&?&_). split_and!; [done|done|done|lia].
Qed.

Lemma metadata_write_wp p g c docs w0 : config_wf c -> g <> 0 -> Forall document_wf docs -> tmp_apart p w0 ->
  wp (YAP_V2_metadata_write garbage (Some p) g (Some c) docs)
    (fun r w => match r with
                | Ok d => config_valid c /\ zlen docs <= YAP_V2_MAX_SEGMENT_DOCUMENTS /\ exists vals,
                    (fun d => yyjson_read (data (metadata_json d)) (len (metadata_json d))) <$> docs = Some <$> vals /\ metadata_written c p g (zlen docs) vals d w
                | Err _ => True | Fault => False end) trivial w0.
Proof.
  intros Hw Hg HD Hap. unfold YAP_V2_metadata_write. destruct (_ && _); [by apply wp_ret|]. pose proof (read_roots_spec docs) as HR.
  destruct (read_roots docs) as [roots|e|]; [|by apply wp_ret|done]. destruct HR as [Hl <-]. by apply metadata_write_preparsed_wp.
Qed.

(** *** The entries of the documents are valid *)
Lemma scalar_entry_ok fields documents f d v e : scalar_entry f d v = Some e -> 0 <= f < fields -> 0 <= d < documents -> value_fits e -> entry_ok fields documents e.
Proof.
  unfold scalar_entry. pose proof (scalar_text_spec v) as HT. destruct (scalar_text v) as [[[[type text_] n]|]|?|]; [|done..].
  intros [= <-] Hf Hd Hfit. destruct HT as (Ht&Hn&Hok&_&_). split; cbn [field_ordinal document_ordinal entry_type entry_value]; [done|done|done|].
  rewrite view_bytes_mk. unfold value_fits in Hfit. cbn [entry_value] in Hfit. by rewrite view_bytes_mk in Hfit.
Qed.

Lemma field_entries_origin f d root name e : e ∈ field_entries f d root name -> exists v, scalar_entry f d v = Some e.
Proof. unfold field_entries. destruct (value_at root name) as [v|]; [|by intros ?%elem_of_nil]. intros (x&_&Hx)%list_elem_of_omap. eauto. Qed.

Lemma names_entries_origin names d root e : forall i, e ∈ names_entries names i d root -> exists f v, i <= f < i + zlen names /\ scalar_entry f d v = Some e.
Proof.
  induction names as [|name names IH]; intros i; cbn [names_entries]; [by intros ?%elem_of_nil|]. rewrite zlen_cons. pose proof (zlen_nonneg names).
  intros [[v Hv]%field_entries_origin|(f&v&Hf&Hv)%IH]%elem_of_app; [exists i, v|exists f, v]; split; [lia|done|lia|done].
Qed.

Lemma roots_entries_ok names roots : forall i, 0 <= i -> Forall value_fits (roots_entries names i roots) ->
  Forall (entry_ok (zlen names) (i + zlen roots)) (roots_entries names i roots).
Proof.
  intros i Hi HF. rewrite Forall_forall in HF |- *. intros e He. specialize (HF e He).
  assert (exists f d v, 0 <= f < zlen names /\ i <= d < i + zlen roots /\ scalar_entry f d v = Some e) as (f&d&v&Hf&Hd&Hv).
  { clear HF. revert i Hi He. induction roots as [|root roots IH]; intros i Hi; cbn [roots_entries]; [by intros ?%elem_of_nil|]. rewrite zlen_cons. pose proof (zlen_nonneg roots).
    intros [(f&v&Hf&Hv)%names_entries_origin|(f&d&v&Hf&Hd&Hv)%IH]%elem_of_app; [exists f, i, v|exists f, d, v|lia]; split_and!; done || lia. }
  by apply (scalar_entry_ok _ _ f d v); [|lia|lia|].
Qed.

(** *** Reading *)
Lemma check_header_metadata g eg payload : is_u64 g -> g <> 0 -> eg = 0 \/ eg = g -> zlen payload < 2 ^ 63 ->
  metadata_check_header eg (32 + zlen payload) (header_image (file_header YAP_V2_FILE_METADATA g payload)) = Ok (file_header YAP_V2_FILE_METADATA g payload).
Proof.
  intros Hg Hg0 Heg Hz. unfold metadata_check_header. pose proof (zlen_nonneg payload). rewrite <- (app_nil_r (header_image _)).
  rewrite file_header_decode_image by (done || (apply file_header_valid; (done || lia))). cbn [file_type payload_bytes generation file_header].
  unfold YAP_V2_FILE_HEADER_BYTES, SIZE_MAX. replace (32 + zlen payload - 32) with (zlen payload) by lia. rewrite !Z.eqb_refl. cbn [negb orb].
  assert (negb (eg =? 0) && negb (g =? eg) = false) as ->.
  { destruct Heg as [->| ->]; [done|]. by rewrite Z.eqb_refl, andb_false_r. }
  by rewrite (proj2 (Z.ltb_ge _ (zlen payload))) by lia.
Qed.

Lemma header_valid_fields h : header_valid h ->
  h = FileHeader YAP_V2_FORMAT_VERSION YAP_V2_FILE_HEADER_BYTES (file_type h) (generation h) (payload_bytes h) (payload_crc32c h) /\ 0 < generation h.
Proof.
  intros [(_&_&_&Hg&_&_) H]. unfold header_fields_invalid in H. btests. unfold is_u64 in Hg. destruct h; cbn in *. split; [congruence|lia].
Qed.

Lemma take_header type g payload : take 32 (file_image type g payload) = header_image (file_header type g payload).
Proof. unfold file_image. apply take_app_length'. pose proof (zlen_header_image (file_header type g payload)) as H. unfold zlen in H. lia. Qed.
Lemma drop_header type g payload : drop 32 (file_image type g payload) = payload.
Proof. unfold file_image. apply drop_app_length'. pose proof (zlen_header_image (file_header type g payload)) as H. unfold zlen in H. lia. Qed.

(** Reading the file of an image, when nothing fails. *)
Lemma metadata_read_nil p g eg c documents es w : (forall n, alloc_ok n = true) -> config_wf c -> config_valid c -> is_u64 g -> g <> 0 -> eg = 0 \/ eg = g ->
  is_u64 documents -> Forall (entry_ok (filterable_field_count c) documents) es ->
  zlen (metadata_image (field_names c) documents es) <= YAP_V2_MAX_SEGMENT_PAYLOAD_BYTES ->
  script w = [] -> file_at w p = Some (metadata_file c g documents es) ->
  YAP_V2_metadata_read garbage (Some p) eg (Some c) true w =
    Done (Ok (MetadataIndex (name_rows (field_names c)) (filterable_field_count c) documents es (metadata_image (field_names c) documents es),
              Some (metadata_descriptor (zlen es) (metadata_file c g documents es)))) w.
Proof.
  intros Hal Hw Hv Hg Hg0 Heg Hd HF Hmax Hs Hf. set (image := metadata_image (field_names c) documents es) in *. unfold YAP_V2_MAX_SEGMENT_PAYLOAD_BYTES in Hmax.
  unfold YAP_V2_metadata_read. rewrite (proj2 (proj1 (config_validate_spec c Hw)) Hv). erewrite bind_done by (rewrite fopen_rb_nil by done; rewrite Hf; done).
  cbv beta iota. set (file := metadata_file c g documents es) in *.
  assert (zlen file = 32 + zlen image) as Hz by apply zlen_file_image. pose proof (zlen_nonneg image).
  assert (metadata_read_open garbage p eg c true file w = Done (Ok (MetadataIndex (name_rows (field_names c)) (filterable_field_count c) documents es image,
              Some (metadata_descriptor (zlen es) file))) w) as E.
  { unfold metadata_read_open, fstat, fread_all. rewrite bind_nil by done. cbn [negb]. rewrite bind_nil by done. cbn [negb orb]. rewrite Hz. unfold YAP_V2_FILE_HEADER_BYTES.
    rewrite (proj2 (Z.ltb_ge _ 32)) by lia. rewrite bind_nil by done. cbn [negb]. rewrite bind_nil by done. cbn [negb].
    unfold file, metadata_file. rewrite take_header, drop_header. fold image. rewrite check_header_metadata by (done || lia). cbn [payload_bytes file_header].
    rewrite Hal. cbn [negb andb]. erewrite bind_done with (a := true).
    2: { destruct (0 <? zlen image); [by apply call_nil|done]. }
    cbn [negb]. unfold metadata_check_payload. cbn [payload_crc32c file_header]. rewrite Z.eqb_refl. cbn [negb].
    destruct (metadata_parse_image c documents es Hw Hv Hd HF) as [HP|[_ [n Hn]]]; [fold image; lia| |by rewrite Hal in Hn].
    fold image in HP. rewrite HP.
    unfold metadata_component. erewrite bind_done by (apply (file_sha256_nil garbage p w file); [done|done|lia]). done. }
  erewrite bind_done by exact E. unfold fclose_rb. rewrite bind_nil by done. done.
Qed.

(** What reading can return, whatever the file and whatever fails. *)
Definition read_safe (c : YAP_V2_CONFIG) (p : path) (w : world) (r : result (YAP_V2_METADATA_INDEX * option YAP_V2_COMPONENT_DESCRIPTOR)) : Prop :=
  match r with
  | Ok (index, d) => config_valid c /\ index_ok c index /\ exists g, 0 < g /\
      file_at w p = Some (metadata_file c g (md_document_count index) (md_entries index)) /\
      forall d', d = Some d' -> d' = metadata_descriptor (zlen (md_entries index)) (metadata_file c g (md_document_count index) (md_entries index))
  | Err _ => True
  | Fault => False
  end.

Lemma metadata_read_reads p eg c want w : config_wf c -> readable w -> reads (YAP_V2_metadata_read garbage (Some p) eg (Some c) want) (read_safe c p w) w.
Proof.
  intros Hw Hrd. unfold YAP_V2_metadata_read. destruct (config_validate_spec c Hw) as [HI HF].
  destruct (YAP_V2_config_validate (Some c)) as [[]|e|]; [|by apply reads_ret|done]. assert (config_valid c) as Hv by by apply HI.
  apply (reads_bind _ _ (fun o => forall bs, o = Some bs -> file_at w p = Some bs)); [by apply reads_fopen|].
  intros [bs|] w1 Hbs Hf1; [|by apply reads_ret]. specialize (Hbs bs eq_refl). destruct (Hrd p bs Hbs) as [Hok Hl].
  apply (reads_bind _ _ (read_safe c p w)).
  2: { intros r w2 Hr _. apply (reads_bind _ _ (fun _ => True)); [by apply reads_noop|]. intros b w3 _ _. by apply reads_ret. }
  unfold metadata_read_open. apply (reads_bind _ _ (fun _ => True)); [by apply reads_noop|]. intros [|] w2 _ Hf2; cbn [negb]; [|by apply reads_ret].
  apply (reads_bind _ _ (fun _ => True)); [by apply reads_noop|]. intros [|] w3 _ Hf3; cbn [negb orb]; [|by apply reads_ret].
  unfold YAP_V2_FILE_HEADER_BYTES. destruct (Z.ltb_spec (zlen bs) 32) as [|H32]; [by apply reads_ret|].
  apply (reads_bind _ _ (fun _ => True)); [by apply reads_noop|]. intros [|] w4 _ Hf4; cbn [negb]; [|by apply reads_ret].
  apply (reads_bind _ _ (fun _ => True)); [by apply reads_noop|]. intros [|] w5 _ Hf5; cbn [negb]; [|by apply reads_ret].
  assert (zlen (take 32 bs) = 32) as Ht32 by (unfold zlen in *; rewrite length_take; lia).
  assert (bytes_ok (take 32 bs)) as Htok by by apply Forall_take.
  unfold metadata_check_header. pose proof (file_header_decode_safe (take 32 bs) Htok ltac:(lia)) as HS.
  destruct (YAP_V2_file_header_decode (Some (take 32 bs))) as [h|e|] eqn:Eh; [|by apply reads_ret|done].
  destruct (file_header_decode_inv _ _ Htok ltac:(lia) Eh) as [Hhv Hhi]. destruct (_ || _) eqn:T; [by apply reads_ret|]. btests.
  destruct (negb (alloc_ok _) && _); [by apply reads_ret|].
  apply (reads_bind _ _ (fun _ => True)); [destruct (0 <? _); [by apply reads_noop|by apply reads_ret]|]. intros [|] w6 _ Hf6; cbn [negb]; [|by apply reads_ret].
  unfold metadata_check_payload. destruct (Z.eqb_spec (crc32c (drop 32 bs)) (payload_crc32c h)) as [Hcrc|]; cbn [negb]; [|by apply reads_ret].
  assert (bytes_ok (drop 32 bs)) as Hdok by by apply Forall_drop. assert (zlen (drop 32 bs) = zlen bs - 32) as Hdz by (rewrite zlen_drop; lia).
  pose proof (metadata_parse_sound c Hw Hv (drop 32 bs) Hdok) as HP. destruct (metadata_parse c (drop 32 bs)) as [index|e|]; [|by apply reads_ret|done].
  destruct HP as [Hix Hst]. assert (bs = metadata_file c (generation h) (md_document_count index) (md_entries index)) as Ebs.
  { rewrite <- (take_drop 32 bs) at 1. unfold metadata_file, file_image. rewrite <- (io_storage _ _ Hix), Hst. f_equal.
    rewrite take_take in Hhi. change (32 `min` 32)%nat with 32%nat in Hhi. rewrite Hhi. f_equal. rewrite (proj1 (header_valid_fields h Hhv)). unfold file_header.
    rewrite Hcrc, Hdz. f_equal; done. }
  pose proof (proj2 (header_valid_fields h Hhv)) as Hgen.
  assert (file_at w6 p = file_at w p) as E.
  { by rewrite (frames_file _ _ p Hf6), (frames_file _ _ p Hf5), (frames_file _ _ p Hf4), (frames_file _ _ p Hf3), (frames_file _ _ p Hf2), (frames_file _ _ p Hf1). }
  unfold metadata_component. destruct want.
  - eapply reads_bind; [apply (file_sha256_reads_at garbage p w6)|].
    + intros bs' Hb'. rewrite E, Hbs in Hb'. by injection Hb' as <-.
    + intros [[sum n]|e|] w7 Hdig Hf7; [|by apply reads_ret|done]. apply reads_ret. split_and!; [done|done|]. exists (generation h). split_and!; [done|by rewrite Hbs, Ebs|].
      intros d' [= <-]. destruct Hdig as (bs'&Hb'&->&->). 
      rewrite E, Hbs in Hb'. injection Hb' as <-. by rewrite Ebs.
  - apply reads_ret. split_and!; [done|done|]. exists (generation h). split_and!; [done|by rewrite Hbs, Ebs|done].
Qed.
End files.

(** ** The results *)

(** The metadata of a document, read as JSON. *)
Definition document_root {J : Yyjson} (d : YAP_V2_DOCUMENT_VIEW) : option yyjson_val :=
  yyjson_read (data (metadata_json d)) (len (metadata_json d)).

(** C19: the metadata of documents survive their file, under any failure of the file system while
    it is written: when [YAP_V2_metadata_write] reports success, the metadata of every document is
    a JSON object, and [YAP_V2_metadata_read] returns one entry for every scalar, and for every
    scalar of an array, at the dotted path of a filterable field, in the order of documents and
    fields, with its field, document, type and text, and the descriptor that the writer
    returned. *)
Theorem metadata_write_then_read {A : Allocator} {J : Yyjson} (garbage garbage' : nat -> Z) (p : path) (g eg : Z) (c : YAP_V2_CONFIG)
    (docs : list YAP_V2_DOCUMENT_VIEW) (d : YAP_V2_COMPONENT_DESCRIPTOR) (w0 w : world) :
  is_u64 g -> g <> 0 -> eg = 0 \/ eg = g -> config_wf c -> Forall document_wf docs -> tmp_apart p w0 ->
  YAP_V2_metadata_write garbage (Some p) g (Some c) docs w0 = Done (Ok d) w ->
  exists roots : list yyjson_val, document_root <$> docs = Some <$> roots /\
    let entries := roots_entries (field_names c) 0 roots in
    YAP_V2_metadata_read (A := alloc_total) garbage' (Some p) eg (Some c) true (set_script w []) =
      Done (Ok (MetadataIndex (name_rows (field_names c)) (filterable_field_count c) (zlen docs) entries
                  (metadata_image (field_names c) (zlen docs) entries), Some d)) (set_script w []).
Proof.
  intros Hg Hg0 Heg Hw HD Hap E. pose proof (metadata_write_wp garbage p g c docs w0 Hw Hg0 HD Hap) as H. unfold wp in H. rewrite E in H.
  destruct H as (Hv&Hmax&roots&Hr&Hdu&->&Hfit&Hz). exists roots. split; [done|]. cbv zeta.
  assert (zlen roots = zlen docs) as Hl by (rewrite <- (zlen_fmap Some roots), <- Hr; by rewrite zlen_fmap).
  unfold YAP_V2_MAX_SEGMENT_DOCUMENTS in Hmax. apply (metadata_read_nil (A := alloc_total)); try done; [unfold is_u64; pose_zlen; lia| |].
  - pose proof (roots_entries_ok (field_names c) roots 0 ltac:(lia) Hfit) as HF. by rewrite zlen_field_names, Z.add_0_l, Hl in HF.
  - by apply (durable_file p).
Qed.


(** ** A concrete file *)

(** The author "ab", and the tag names 5, true and an array, which is skipped. *)
Definition demo_root : json :=
  JObj [(CString.text "author", JStr [97; 98]); (CString.text "tags", JObj [(CString.text "name", JArr [JInt 5; JBool true; JArr []])])].
Definition demo_json : Yyjson := json_library (fun d _ => if bool_decide (d = Some [49]) then Some demo_root else None).
Definition demo_metadata_document : YAP_V2_DOCUMENT_VIEW := DocumentView (mk_view [97]) (mk_view []) (mk_view []) (mk_view []) (mk_view [49]) 1.
Definition demo_entries : list YAP_V2_METADATA_ENTRY :=
  [MetadataEntry 0 0 YAP_V2_METADATA_STRING (mk_view [97; 98]); MetadataEntry 1 0 YAP_V2_METADATA_NUMBER (mk_view [53]);
   MetadataEntry 1 0 YAP_V2_METADATA_BOOL (mk_view [1])].

Lemma metadata_write_then_read_witness : exists d w,
  YAP_V2_metadata_write (A := alloc_total) (J := demo_json) (fun _ => 7) (Some [109]) 3 (Some vectors_config) [demo_metadata_document] empty_world = Done (Ok d) w /\
  exists rows storage, YAP_V2_metadata_read (A := alloc_total) (fun _ => 0) (Some [109]) 3 (Some vectors_config) true (set_script w []) =
    Done (Ok (MetadataIndex rows 2 1 demo_entries storage, Some d)) (set_script w []).
Proof.
  assert (match YAP_V2_metadata_write (A := alloc_total) (J := demo_json) (fun _ => 7) (Some [109]) 3 (Some vectors_config) [demo_metadata_document] empty_world with
    Done (Ok _) _ => true | _ => false end = true) as E by (vm_compute; reflexivity).
  destruct (YAP_V2_metadata_write _ _ _ _ _ _) as [[d|e|] w|w] eqn:EW; [|discriminate E..]. exists d, w. split; [reflexivity|].
  destruct (metadata_write_then_read (A := alloc_total) (J := demo_json) (fun _ => 7) (fun _ => 0) [109] 3 3 vectors_config [demo_metadata_document] d empty_world w) as (roots&Hr&HR).
  - split; [discriminate|reflexivity].
  - discriminate.
  - right. reflexivity.
  - exact vectors_config_wf.
  - repeat constructor; discriminate.
  - split; intros j.
    + intros [H|H]; [apply list_elem_of_singleton in H|]; discriminate H.
    + discriminate.
  - exact EW.
  - destruct roots as [|r [|r' rs]]; [discriminate Hr| |discriminate Hr]. injection Hr as <-.
    eexists _, _. exact HR.
Defined.

