(* ===== verification/Filter.v ===== *)
(** Metadata filters (src/src/query/yappo_filter_v2.c): a filter is a JSON tree of comparisons,
    [not], [and] and [or]; it is checked against the field names of a metadata index and then
    evaluated on the entries of one document.

    Comparing numbers is floating point: [Doubles] is its interface.  Names are compared by
    [strcmp], so that a name counts up to its first NUL.  Uninitialised reads and calls with a null
    pointer are a [Fault]. *)
From Stdlib Require Import String.
From S2P Require Import Prelude Words Types SlotTable Manifest Segment FileSystem CString Config Lexical Json Vectors Metadata MetadataFiles.
#[local] Open Scope string_scope.
#[local] Open Scope list_scope.
#[local] Open Scope Z_scope.

Definition MAX_FILTER_DEPTH : Z := 32.
Definition MAX_FILTER_NODES : Z := 1024.
Definition sizeof_number_buffer : Z := 65.

(** [strtod], the numbers of yyjson, and [==], [<] and [<=] of doubles. *)
Class Doubles {J : Yyjson} := {
  double : Type;
  strtod : bytes -> double;
  yyjson_get_num : yyjson_val -> double;
  double_eq : double -> double -> bool;
  double_lt : double -> double -> bool;
  double_le : double -> double -> bool }.

Definition str (s : string) : bytes := CString.text s.

(** [strcmp(name, literal) == 0] for the string of a JSON name. *)
Definition named (name : bytes) (literal : string) : bool := bool_decide (c_str name = str literal).

Section filter.
Context {J : Yyjson} {D : Doubles}.

(** ** Validation *)
Definition only_keys (object : yyjson_val) (keys : list string) : bool :=
  yyjson_is_obj object && forallb (fun item : bytes * yyjson_val => existsb (named item.1) keys) (yyjson_obj_items object).

(** [yyjson_obj_get]. *)
Definition obj_get (object : yyjson_val) (key : string) : option yyjson_val := yyjson_obj_getn object (str key).

(** The string of a value and its terminator. *)
Definition c_string_of (v : yyjson_val) : bytes := yyjson_get_str v ++ [0].

Definition field_valid (object : yyjson_val) (metadata : YAP_V2_METADATA_INDEX) : result bool :=
  match obj_get object "field" with
  | Some field =>
      if yyjson_is_str field && (zlen (yyjson_get_str field) <=? YAP_V2_MAX_FILTER_FIELD_BYTES) then
        match YAP_V2_metadata_field_ordinal metadata (Some (c_string_of field)) with
        | Ok _ => Ok true
        | Err _ => Ok false
        | Fault => Fault
        end
      else Ok false
  | None => Ok false
  end.

Definition scalar (value : yyjson_val) : bool :=
  yyjson_is_null value || yyjson_is_bool value || yyjson_is_num value || yyjson_is_str value.

(** Evaluated from left to right, like [&&]. *)
Definition and_also (a : bool) (b : result bool) : result bool := if a then b else Ok false.

Definition validate_eq (body : yyjson_val) (metadata : YAP_V2_METADATA_INDEX) : result bool :=
  and_also (only_keys body ["field"; "value"] && (zlen (yyjson_obj_items body) =? 2))
    (valid ← field_valid body metadata; Ok (valid && holds_of scalar (obj_get body "value"))).

Definition validate_exists (body : yyjson_val) (metadata : YAP_V2_METADATA_INDEX) : result bool :=
  and_also (only_keys body ["field"] && (zlen (yyjson_obj_items body) =? 1)) (field_valid body metadata).

Definition validate_in (body : yyjson_val) (metadata : YAP_V2_METADATA_INDEX) : result bool :=
  and_also (only_keys body ["field"; "values"] && (zlen (yyjson_obj_items body) =? 2))
    (valid ← field_valid body metadata;
     Ok (valid && match obj_get body "values" with
                  | Some values => yyjson_is_arr values && negb (zlen (yyjson_arr_items values) =? 0) && forallb scalar (yyjson_arr_items values)
                  | None => false
                  end)).

Definition bound_names : list string := ["gt"; "gte"; "lt"; "lte"].
Definition bounds_of (body : yyjson_val) : list (option yyjson_val) := obj_get body <$> bound_names.

Definition validate_range (body : yyjson_val) (metadata : YAP_V2_METADATA_INDEX) : result bool :=
  and_also (only_keys body ("field" :: bound_names))
    (valid ← field_valid body metadata;
     Ok (valid && forallb (fun bound => match bound with Some v => yyjson_is_num v | None => true end) (bounds_of body) &&
         existsb (holds_of yyjson_is_num) (bounds_of body))).

(** The loop over the items of [and] and [or]; the counter of nodes is threaded. *)
Fixpoint validate_items (validate : yyjson_val -> Z -> result (bool * Z)) (items : list yyjson_val) (nodes : Z) : result (bool * Z) :=
  match items with
  | [] => Ok (true, nodes)
  | item :: items =>
      '(valid, nodes) ← validate item nodes;
      if (valid : bool) then validate_items validate items nodes else Ok (false, nodes)
  end.

(** The verdict and the counter of nodes; the depth is checked first, so that 33 levels of
    recursion are enough. *)
Fixpoint validate_node (fuel : nat) (metadata : YAP_V2_METADATA_INDEX) (node : yyjson_val) (depth nodes : Z) : result (bool * Z) :=
  match fuel with
  | O => Fault
  | S fuel =>
      if MAX_FILTER_DEPTH <? depth then Ok (false, nodes)
      else
      let nodes := nodes + 1 in
      if (MAX_FILTER_NODES <? nodes) || negb (yyjson_is_obj node) || negb (zlen (yyjson_obj_items node) =? 1) then Ok (false, nodes)
      else
      '(op, body) ← elem_at (yyjson_obj_items node) 0;
      if named op "eq" then valid ← validate_eq body metadata; Ok (valid, nodes)
      else if named op "exists" then valid ← validate_exists body metadata; Ok (valid, nodes)
      else if named op "in" then valid ← validate_in body metadata; Ok (valid, nodes)
      else if named op "range" then valid ← validate_range body metadata; Ok (valid, nodes)
      else if named op "not" then validate_node fuel metadata body (depth + 1) nodes
      else if named op "and" || named op "or" then
        if negb (yyjson_is_arr body) || (zlen (yyjson_arr_items body) =? 0) then Ok (false, nodes)
        else validate_items (fun item nodes => validate_node fuel metadata item (depth + 1) nodes) (yyjson_arr_items body) nodes
      else Ok (false, nodes)
  end.

(** ** Evaluation *)
Definition entry_number (entry : YAP_V2_METADATA_ENTRY) : result double :=
  match data (entry_value entry) with
  | Some m => bs ← load_bytes m 0 (len (entry_value entry)); Ok (strtod (c_str (bs ++ [0])))
  | None => Fault
  end.

Definition literal_equal (entry : YAP_V2_METADATA_ENTRY) (literal : option yyjson_val) : result bool :=
  let value := entry_value entry in
  match literal with
  | None => Ok false
  | Some literal =>
      if yyjson_is_null literal then Ok (entry_type entry =? YAP_V2_METADATA_NULL)
      else if yyjson_is_bool literal then
        if (entry_type entry =? YAP_V2_METADATA_BOOL) && (len value =? 1) then
          match data value with
          | Some m => b ← load m 0; Ok (b =? (if yyjson_is_true literal then 1 else 0))
          | None => Fault
          end
        else Ok false
      else if yyjson_is_str literal then
        if (entry_type entry =? YAP_V2_METADATA_STRING) && (len value =? zlen (yyjson_get_str literal)) then
          match data value with
          | Some m => bs ← load_bytes m 0 (len value); Ok (bool_decide (bs = yyjson_get_str literal))
          | None => Fault
          end
        else Ok false
      else if yyjson_is_num literal && (entry_type entry =? YAP_V2_METADATA_NUMBER) then
        if sizeof_number_buffer <=? len value then Ok false
        else stored ← entry_number entry; Ok (double_eq stored (yyjson_get_num literal))
      else Ok false
  end.

Fixpoint any_literal (entry : YAP_V2_METADATA_ENTRY) (literals : list yyjson_val) : result bool :=
  match literals with
  | [] => Ok false
  | literal :: literals => b ← literal_equal entry (Some literal); if (b : bool) then Ok true else any_literal entry literals
  end.

(** The loop over the four bounds. *)
Definition in_bounds (number : double) (bounds : list (option yyjson_val)) : bool :=
  forallb (fun '(test, bound) => match bound with Some v => (test : double -> double -> bool) number (yyjson_get_num v) | None => true end)
    (zip [(fun x y => double_lt y x); (fun x y => double_le y x); double_lt; double_le] bounds).

(** The body of the loop over the entries of a field. *)
Definition entry_matches (op : bytes) (body : yyjson_val) (entry : YAP_V2_METADATA_ENTRY) : result bool :=
  equal ← (if named op "eq" then literal_equal entry (obj_get body "value") else Ok false);
  if (equal : bool) then Ok true
  else
  among ← (if named op "in" then any_literal entry (match obj_get body "values" with Some values => yyjson_arr_items values | None => [] end) else Ok false);
  if (among : bool) then Ok true
  else if named op "range" && (entry_type entry =? YAP_V2_METADATA_NUMBER) then
    if sizeof_number_buffer <=? len (entry_value entry) then Ok false
    else number ← entry_number entry; Ok (in_bounds number (bounds_of body))
  else Ok false.

(** [field_entry]: the first entry of a field of a document, and the entries behind it. *)
Fixpoint field_entry (entries : list YAP_V2_METADATA_ENTRY) (field document : Z) : option (YAP_V2_METADATA_ENTRY * list YAP_V2_METADATA_ENTRY) :=
  match entries with
  | [] => None
  | entry :: entries =>
      if (field_ordinal entry =? field) && (document_ordinal entry =? document) then Some (entry, entries) else field_entry entries field document
  end.

(** [while (field_entry(...))]: every turn moves the cursor. *)
Fixpoint eval_entries (fuel : nat) (op : bytes) (body : yyjson_val) (entries : list YAP_V2_METADATA_ENTRY) (field document : Z) : result bool :=
  match field_entry entries field document, fuel with
  | None, _ => Ok false
  | Some _, O => Fault
  | Some (entry, entries), S fuel =>
      b ← entry_matches op body entry;
      if (b : bool) then Ok true else eval_entries fuel op body entries field document
  end.

(** A comparison of one field; an unknown field leaves its ordinal uninitialised. *)
Definition eval_field (op : bytes) (body : yyjson_val) (metadata : YAP_V2_METADATA_INDEX) (document : Z) : result bool :=
  match obj_get body "field" with
  | Some field_value =>
      if yyjson_is_str field_value then
        match YAP_V2_metadata_field_ordinal metadata (Some (c_string_of field_value)) with
        | Ok field =>
            if named op "exists" then Ok (bool_decide (is_Some (field_entry (md_entries metadata) field document)))
            else eval_entries (length (md_entries metadata)) op body (md_entries metadata) field document
        | _ => Fault
        end
      else Fault
  | None => Fault
  end.

(** The loop over the items of [and] and [or]. *)
Fixpoint eval_items (eval : yyjson_val -> result bool) (is_and : bool) (items : list yyjson_val) : result bool :=
  match items with
  | [] => Ok is_and
  | item :: items =>
      value ← eval item;
      if (is_and && negb value) || (negb is_and && value) then Ok (negb is_and) else eval_items eval is_and items
  end.

Fixpoint eval_node (fuel : nat) (metadata : YAP_V2_METADATA_INDEX) (document : Z) (node : yyjson_val) : result bool :=
  match fuel, yyjson_obj_items node with
  | O, _ | _, [] => Fault
  | S fuel, (op, body) :: _ =>
      if named op "not" then value ← eval_node fuel metadata document body; Ok (negb value)
      else if named op "and" || named op "or" then eval_items (eval_node fuel metadata document) (named op "and") (yyjson_arr_items body)
      else eval_field op body metadata document
  end.

(** ** Filters *)
Record YAP_V2_FILTER := Filter { filter_document : option yyjson_val; filter_metadata : option YAP_V2_METADATA_INDEX }.
Definition YAP_V2_filter_init : YAP_V2_FILTER := Filter None None.

Definition YAP_V2_filter_compile (json : YAP_V2_BYTES_VIEW) (metadata : option YAP_V2_METADATA_INDEX) : result YAP_V2_FILTER :=
  match metadata with
  | Some m =>
      if bool_decide (data json = None) || (len json =? 0) then Err YAP_V2_INVALID_ARGUMENT
      else match yyjson_read (data json) (len json) with
           | None => Err YAP_V2_INVALID_FORMAT
           | Some root =>
               '(valid, _) ← validate_node 33 m root 1 0;
               if (valid : bool) then Ok (Filter (Some root) (Some m)) else Err YAP_V2_INVALID_FORMAT
           end
  | None => Err YAP_V2_INVALID_ARGUMENT
  end.

Definition YAP_V2_filter_matches (filter : YAP_V2_FILTER) (document : Z) : result bool :=
  match filter_document filter, filter_metadata filter with
  | Some root, Some metadata =>
      if md_document_count metadata <=? document then Err YAP_V2_INVALID_ARGUMENT else eval_node 32 metadata document root
  | _, _ => Err YAP_V2_INVALID_ARGUMENT
  end.

Definition YAP_V2_filter_accept (filter : YAP_V2_FILTER) (object_type_ object_ordinal_ : Z) : result bool :=
  if negb (object_type_ =? YAP_V2_LEXICAL_DOCUMENT) then Ok false
  else match YAP_V2_filter_matches filter object_ordinal_ with
       | Ok matches => Ok matches
       | Err _ => Ok false
       | Fault => Fault
       end.
End filter.

(** ** Specification *)
Section spec.
Context {J : Yyjson} {D : Doubles}.

(** What a JSON filter says. *)
Inductive filter_tree :=
  | FEq (field : bytes) (literal : yyjson_val)
  | FIn (field : bytes) (literals : list yyjson_val)
  | FRange (field : bytes) (bounds : list (option yyjson_val))
  | FExists (field : bytes)
  | FNot (f : filter_tree)
  | FAnd (fs : list filter_tree)
  | FOr (fs : list filter_tree).

Fixpoint tree_depth (f : filter_tree) : nat :=
  match f with
  | FNot f => S (tree_depth f)
  | FAnd fs | FOr fs => S (max_list (map tree_depth fs))
  | _ => 1
  end.
Fixpoint tree_size (f : filter_tree) : nat :=
  match f with
  | FNot f => S (tree_size f)
  | FAnd fs | FOr fs => S (sum_list (map tree_size fs))
  | _ => 1
  end.

(** A node is an object with one member, the operation. *)
Definition node_op (node : yyjson_val) (op : string) (body : yyjson_val) : Prop :=
  yyjson_is_obj node = true /\ exists key, yyjson_obj_items node = [(key, body)] /\ c_str key = str op.

Section represents.
Context (names : list bytes).

(** The field of a comparison is one of [names]. *)
Definition body_field (body : yyjson_val) (name : bytes) : Prop :=
  exists field, obj_get body "field" = Some field /\ yyjson_is_str field = true /\ zlen (yyjson_get_str field) <= YAP_V2_MAX_FILTER_FIELD_BYTES /\
    c_str (yyjson_get_str field) = name /\ name ∈ names.

Inductive represents : yyjson_val -> filter_tree -> Prop :=
  | represents_eq node body name literal : node_op node "eq" body -> only_keys body ["field"; "value"] = true -> zlen (yyjson_obj_items body) = 2 ->
      body_field body name -> obj_get body "value" = Some literal -> scalar literal = true -> represents node (FEq name literal)
  | represents_exists node body name : node_op node "exists" body -> only_keys body ["field"] = true -> zlen (yyjson_obj_items body) = 1 ->
      body_field body name -> represents node (FExists name)
  | represents_in node body name values : node_op node "in" body -> only_keys body ["field"; "values"] = true -> zlen (yyjson_obj_items body) = 2 ->
      body_field body name -> obj_get body "values" = Some values -> yyjson_is_arr values = true -> yyjson_arr_items values <> [] ->
      Forall (fun v => scalar v = true) (yyjson_arr_items values) -> represents node (FIn name (yyjson_arr_items values))
  | represents_range node body name : node_op node "range" body -> only_keys body ("field" :: bound_names) = true -> body_field body name ->
      Forall (fun b => forall v, b = Some v -> yyjson_is_num v = true) (bounds_of body) -> Exists is_Some (bounds_of body) ->
      represents node (FRange name (bounds_of body))
  | represents_not node body f : node_op node "not" body -> represents body f -> represents node (FNot f)
  | represents_and node body fs : node_op node "and" body -> yyjson_is_arr body = true -> fs <> [] -> Forall2 represents (yyjson_arr_items body) fs ->
      represents node (FAnd fs)
  | represents_or node body fs : node_op node "or" body -> yyjson_is_arr body = true -> fs <> [] -> Forall2 represents (yyjson_arr_items body) fs ->
      represents node (FOr fs).
End represents.

(** What a filter says of a document whose fields have the typed values [values]. *)
Definition value_equal (literal : yyjson_val) (value : Z * bytes) : bool :=
  if yyjson_is_null literal then value.1 =? YAP_V2_METADATA_NULL
  else if yyjson_is_bool literal then (value.1 =? YAP_V2_METADATA_BOOL) && bool_decide (value.2 = [if yyjson_is_true literal then 1 else 0])
  else if yyjson_is_str literal then (value.1 =? YAP_V2_METADATA_STRING) && bool_decide (value.2 = yyjson_get_str literal)
  else yyjson_is_num literal && (value.1 =? YAP_V2_METADATA_NUMBER) && (zlen value.2 <? sizeof_number_buffer) &&
       double_eq (strtod (c_str value.2)) (yyjson_get_num literal).

Definition value_in_bounds (bounds : list (option yyjson_val)) (value : Z * bytes) : bool :=
  (value.1 =? YAP_V2_METADATA_NUMBER) && (zlen value.2 <? sizeof_number_buffer) && in_bounds (strtod (c_str value.2)) bounds.

Fixpoint denote (values : bytes -> list (Z * bytes)) (f : filter_tree) : bool :=
  match f with
  | FEq name literal => existsb (value_equal literal) (values name)
  | FIn name literals => existsb (fun v => existsb (fun literal => value_equal literal v) literals) (values name)
  | FRange name bounds => existsb (value_in_bounds bounds) (values name)
  | FExists name => negb (bool_decide (values name = []))
  | FNot f => negb (denote values f)
  | FAnd fs => forallb (denote values) fs
  | FOr fs => existsb (denote values) fs
  end.

(** The typed values that an index has for a field of a document. *)
Definition typed (e : YAP_V2_METADATA_ENTRY) : Z * bytes := (entry_type e, view_bytes (entry_value e)).
Definition entry_of (field document : Z) (e : YAP_V2_METADATA_ENTRY) : Prop := field_ordinal e = field /\ document_ordinal e = document.
#[global] Instance entry_of_dec field document e : Decision (entry_of field document e).
Proof. unfold entry_of. apply _. Defined.

Definition index_values (names : list bytes) (index : YAP_V2_METADATA_INDEX) (document : Z) (name : bytes) : list (Z * bytes) :=
  match list_find (fun n => n = name) names with
  | Some (i, _) => typed <$> filter (entry_of (Z.of_nat i) document) (md_entries index)
  | None => []
  end.

(** The typed values of the scalars at a path of a JSON object. *)
Definition typed_scalar (v : yyjson_val) : option (Z * bytes) :=
  match scalar_text v with Ok (Some (type, text_, _)) => Some (type, default [] text_) | _ => None end.
Definition json_values (names : list bytes) (root : yyjson_val) (name : bytes) : list (Z * bytes) :=
  if bool_decide (name ∈ names) then match value_at root name with Some v => omap typed_scalar (values_of v) | None => [] end else [].
End spec.

(** ** Names *)
Lemma strcmp_from_eq s : forall s' (pre : bytes) t t' fuel, c_string s -> c_string s' -> (length s < fuel)%nat ->
  exists d, strcmp_from fuel (pre ++ s ++ 0 :: t) (pre ++ s' ++ 0 :: t') (zlen pre) = Ok d /\ (d = 0 <-> s = s').
Proof.
  unfold c_string. induction s as [|x s IH]; intros s' pre t t' fuel Hs Hs' Hf; (destruct fuel as [|fuel]; [lia|]); cbn [strcmp_from app]; rewrite load_mid, outcome_bind_ok.
  - destruct s' as [|y s']; cbn [app]; rewrite load_mid, outcome_bind_ok; [by exists 0|].
    apply not_elem_of_cons in Hs' as [Hy _]. rewrite (proj2 (Z.eqb_neq _ _)) by done. exists (0 - y). split; [done|]. split; [lia|done].
  - apply not_elem_of_cons in Hs as [Hx Hs]. destruct s' as [|y s']; cbn [app]; rewrite load_mid, outcome_bind_ok.
    + rewrite (proj2 (Z.eqb_neq _ _)) by done. exists (x - 0). split; [done|]. split; [lia|done].
    + apply not_elem_of_cons in Hs' as [Hy Hs']. destruct (Z.eqb_spec x y) as [->|N]; cbn [andb].
      * rewrite (proj2 (Z.eqb_neq y 0)) by done. cbn [negb]. destruct (IH s' (pre ++ [y]) t t' fuel) as (d&E&Hd); [done..|cbn in Hf; lia|]. exists d.
        rewrite <- !(assoc_L (++)), zlen_app in E. cbn [app] in E. change (zlen [y]) with 1 in E. split; [exact E|]. rewrite Hd. naive_solver.
      * exists (x - y). split; [done|]. split; [lia|]. congruence.
Qed.

Lemma strcmp_eq a b s s' : holds_string a s -> holds_string b s' -> exists d, strcmp a b = Ok d /\ (d = 0 <-> s = s').
Proof. intros H H'. pose proof (holds_length _ _ H). destruct H as (t&->&Hs), H' as (t'&->&Hs'). apply (strcmp_from_eq s s' [] t t'); [done..|lia]. Qed.

Lemma c_str_terminated s : holds_string (s ++ [0]) (c_str s) /\ c_str (s ++ [0]) = c_str s.
Proof.
  assert (holds_string (s ++ [0]) (c_str s)) as H; [|split; [done|by apply c_str_holds]].
  induction s as [|c s IH]; cbn [c_str app]; [by exists []; split; [|apply not_elem_of_nil]|]. destruct (Z.eqb_spec c 0) as [->|N]; [by exists (s ++ [0]); split; [|apply not_elem_of_nil]|].
  destruct IH as (t&E&Hs). exists t. split; [by rewrite E|]. unfold c_string in *. rewrite not_elem_of_cons. split; [congruence|done].
Qed.

Lemma c_str_string s : c_string (c_str s).
Proof. destruct (proj1 (c_str_terminated s)) as (t&_&H). done. Qed.

Section ordinals.
Context (c : YAP_V2_CONFIG) (Hw : config_wf c) (Hv : config_valid c) (index : YAP_V2_METADATA_INDEX) (Hi : index_ok c index).
Abbreviation names := (field_names c).

Lemma row_holds (i : nat) name : names !! i = Some name -> exists row, elem_at (E := YAP_V2_STATUS) (md_fields index) (Z.of_nat i) = Ok row /\ holds_string row name.
Proof using Hw Hv Hi.
  intros Hn. destruct (field_at_index c Hw Hv i name Hn) as (field&_&_&_&Hh&Hz&_). exists (name_row name). split.
  - apply elem_at_lookup. rewrite (proj1 (io_fields _ _ Hi)). unfold name_rows. apply lookup_app_l_Some. by rewrite list_lookup_fmap, Hn.
  - destruct Hh as (_&_&Hs). exists (zero_string (127 - zlen name)). split; [|done]. unfold name_row, zero_string.
    replace (Z.to_nat (128 - zlen name)) with (S (Z.to_nat (127 - zlen name))) by lia. done.
Qed.

Lemma find_field_spec field s n : holds_string field s -> forall i : nat, (i + n)%nat = length names ->
  find_field n (md_fields index) (Z.of_nat i) field =
    match list_find (fun m => m = s) (drop i names) with Some (j, _) => Ok (Z.of_nat (i + j)) | None => Err YAP_V2_INVALID_FORMAT end.
Proof using Hw Hv Hi.
  pose proof (field_count_range c Hw Hv). pose proof (zlen_field_names c Hw Hv) as Hz. unfold zlen in Hz.
  intros Hf. induction n as [|n IH]; intros i Hn; cbn [find_field]; [by rewrite drop_ge by lia|].
  destruct (names_step c i n Hn) as (name&Hl&->). destruct (row_holds i name Hl) as (row&->&Hh). rewrite outcome_bind_ok.
  destruct (strcmp_eq row field name s Hh Hf) as (d&->&Hd). rewrite outcome_bind_ok. cbn [list_find].
  destruct (decide (name = s)) as [E|N].
  - rewrite (proj2 (Z.eqb_eq _ _)) by by apply Hd. rewrite Nat.add_0_r. f_equal. unfold u32. apply Z.mod_small. lia.
  - rewrite (proj2 (Z.eqb_neq _ _)) by (by intros E; apply N, Hd). replace (Z.of_nat i + 1) with (Z.of_nat (S i)) by lia. rewrite IH by lia.
    destruct (list_find _ (drop (S i) names)) as [[j m]|]; [|done]. cbn. f_equal. lia.
Qed.

(** The ordinal of a name. *)
Lemma field_ordinal_spec field s : holds_string field s ->
  YAP_V2_metadata_field_ordinal index (Some field) =
    match list_find (fun m => m = s) names with Some (j, _) => Ok (Z.of_nat j) | None => Err YAP_V2_INVALID_FORMAT end.
Proof using Hw Hv Hi.
  intros Hf. unfold YAP_V2_metadata_field_ordinal. pose proof (field_count_range c Hw Hv). pose proof (zlen_field_names c Hw Hv) as Hz. unfold zlen in Hz.
  rewrite (proj2 (io_fields _ _ Hi)). apply (find_field_spec field s _ Hf 0). lia.
Qed.
End ordinals.

(** ** Validation is exact *)
Lemma named_spec name literal : named name literal = true <-> c_str name = str literal.
Proof. unfold named. apply bool_decide_eq_true. Qed.

Lemma max_list_le l n : (max_list l <= n)%nat <-> Forall (fun x => x <= n)%nat l.
Proof. induction l as [|x l IH]; cbn [max_list foldr]; [split; [constructor|lia]|]. rewrite Forall_cons, <- IH. unfold max_list. cbn. lia. Qed.

Section validation.
Context {J : Yyjson} (c : YAP_V2_CONFIG) (Hw : config_wf c) (Hv : config_valid c) (index : YAP_V2_METADATA_INDEX) (Hi : index_ok c index).
Abbreviation names := (field_names c).

(** The ordinal of a known name. *)
Lemma known_ordinal name : name ∈ names <-> exists j m, list_find (fun n => n = name) names = Some (j, m).
Proof.
  split.
  - intros H. destruct (list_find_elem_of (fun n => n = name) names name H eq_refl) as [[j m] E]. eauto.
  - intros (j&m&E). apply list_find_Some in E as (Hj&->&_). by eapply list_elem_of_lookup_2.
Qed.

Lemma field_valid_spec body : exists b, field_valid body index = Ok b /\ (b = true <-> exists name, body_field names body name).
Proof using Hw Hv Hi.
  unfold field_valid. destruct (obj_get body "field") as [field|] eqn:Ef.
  2: { exists false. split; [done|]. split; [done|]. intros (name&f&E&_). congruence. }
  destruct (yyjson_is_str field && _) eqn:T.
  - apply andb_true_iff in T as [Hs Hl%Z.leb_le]. unfold c_string_of. destruct (c_str_terminated (yyjson_get_str field)) as [Hh _].
    rewrite (field_ordinal_spec c Hw Hv index Hi _ _ Hh). destruct (list_find _ names) as [[j m]|] eqn:Lf.
    + exists true. split; [done|]. split; [|done]. intros _. exists (c_str (yyjson_get_str field)), field. split_and!; [done|done|done|done|]. apply known_ordinal. eauto.
    + exists false. split; [done|]. split; [done|]. intros (name&f&E&_&_&<-&Hin). rewrite Ef in E. injection E as <-. apply known_ordinal in Hin as (?&?&?). congruence.
  - exists false. split; [done|]. split; [done|]. intros (name&f&E&Hs&Hl&_). rewrite Ef in E. injection E as <-. rewrite Hs in T. apply Z.leb_gt in T. lia.
Qed.

(** A check that decides a property and never faults. *)
Definition checks (r : result bool) (P : Prop) : Prop := exists b, r = Ok b /\ (b = true <-> P).

Lemma checks_and a r P Q : checks r P -> ((a = true /\ P) <-> Q) -> checks (and_also a r) Q.
Proof. intros (b&->&Hb) HQ. destruct a; [exists b|exists false]; (split; [done|]); rewrite <- HQ; naive_solver. Qed.

Lemma checks_field body (test : bool) P : ((exists name, body_field names body name) /\ test = true <-> P) -> checks (valid ← field_valid body index; Ok (valid && test)) P.
Proof using Hw Hv Hi.
  intros HP. destruct (field_valid_spec body) as (b&->&Hb). exists (b && test). split; [done|]. by rewrite andb_true_iff, Hb.
Qed.

Lemma validate_eq_spec body : checks (validate_eq body index)
  (only_keys body ["field"; "value"] = true /\ zlen (yyjson_obj_items body) = 2 /\ exists name literal, body_field names body name /\ obj_get body "value" = Some literal /\ scalar literal = true).
Proof using Hw Hv Hi.
  eapply checks_and; [by apply checks_field|]. rewrite andb_true_iff, Z.eqb_eq. unfold holds_of. split.
  - intros ((?&?)&(name&?)&Hs). split_and!; [done|done|]. destruct (obj_get body "value") as [l|]; [|done]. eauto 10.
  - intros (?&?&name&l&?&->&?). eauto.
Qed.

Lemma validate_exists_spec body : checks (validate_exists body index)
  (only_keys body ["field"] = true /\ zlen (yyjson_obj_items body) = 1 /\ exists name, body_field names body name).
Proof using Hw Hv Hi.
  eapply checks_and; [apply field_valid_spec|]. rewrite andb_true_iff, Z.eqb_eq. tauto.
Qed.

Lemma validate_in_spec body : checks (validate_in body index)
  (only_keys body ["field"; "values"] = true /\ zlen (yyjson_obj_items body) = 2 /\ exists name values, body_field names body name /\ obj_get body "values" = Some values /\
     yyjson_is_arr values = true /\ yyjson_arr_items values <> [] /\ Forall (fun v => scalar v = true) (yyjson_arr_items values)).
Proof using Hw Hv Hi.
  eapply checks_and; [by apply checks_field|]. rewrite andb_true_iff, Z.eqb_eq. split.
  - intros ((?&?)&(name&?)&Hs). split_and!; [done|done|]. destruct (obj_get body "values") as [l|]; [|done]. apply andb_true_iff in Hs as [[Ha Hn]%andb_true_iff Hf].
    exists name, l. split_and!; [done|done|done| |].
    + intros E. by rewrite E in Hn.
    + apply Forall_forall. intros x Hx. rewrite forallb_forall in Hf. apply Hf. by apply list_elem_of_In.
  - intros (?&?&name&l&?&->&Ha&Hn&HF). split_and!; [done|done|eauto|]. rewrite Ha. apply andb_true_iff. split.
    + destruct (yyjson_arr_items l); [done|]. rewrite zlen_cons. cbn [andb]. rewrite (proj2 (Z.eqb_neq _ _)); [done|]. pose_zlen. lia.
    + apply forallb_forall. intros x Hx%list_elem_of_In. by apply (proj1 (Forall_forall _ _) HF).
Qed.

Lemma validate_range_spec body : checks (validate_range body index)
  (only_keys body ("field" :: bound_names) = true /\ (exists name, body_field names body name) /\
     Forall (fun b => forall v, b = Some v -> yyjson_is_num v = true) (bounds_of body) /\ Exists is_Some (bounds_of body)).
Proof using Hw Hv Hi.
  unfold validate_range. destruct (field_valid_spec body) as (b&->&Hb). rewrite outcome_bind_ok.
  eapply checks_and; [eexists; split; [done|reflexivity]|]. rewrite !andb_true_iff, Hb. generalize (bounds_of body) as bs. intros bs.
  assert (forallb (fun bound => match bound with Some v => yyjson_is_num v | None => true end) bs = true <-> Forall (fun b => forall v, b = Some v -> yyjson_is_num v = true) bs) as ->.
  { rewrite forallb_forall, Forall_forall. split; intros H x Hx; apply list_elem_of_In in Hx || (apply list_elem_of_In in Hx); specialize (H x Hx); destruct x; naive_solver. }
  split; [intros (?&(?&HF)&HE)|intros (?&?&HF&HE)]; (split_and!; try done).
  - apply existsb_exists in HE as (x&Hx%list_elem_of_In&Ht). apply Exists_exists. exists x. split; [done|]. by destruct x.
  - apply Exists_exists in HE as (x&Hx&[v ->]). apply existsb_exists. exists (Some v). split; [by apply list_elem_of_In|]. cbn. by apply (proj1 (Forall_forall _ _) HF (Some v)).
Qed.

(** The verdict on a node, with the budget of depth and nodes. *)
Definition verdict (node : yyjson_val) (depth nodes : Z) (r : result (bool * Z)) : Prop :=
  exists b n, r = Ok (b, n) /\
    (b = true -> exists f, represents names node f /\ depth + Z.of_nat (tree_depth f) <= MAX_FILTER_DEPTH + 1 /\ n = nodes + Z.of_nat (tree_size f) /\ n <= MAX_FILTER_NODES) /\
    (forall f, represents names node f -> depth + Z.of_nat (tree_depth f) <= MAX_FILTER_DEPTH + 1 -> nodes + Z.of_nat (tree_size f) <= MAX_FILTER_NODES ->
       b = true /\ n = nodes + Z.of_nat (tree_size f)).

(** The verdict on the items of a node. *)
Definition items_verdict (items : list yyjson_val) (depth nodes : Z) (r : result (bool * Z)) : Prop :=
  exists b n, r = Ok (b, n) /\
    (b = true -> exists fs, Forall2 (represents names) items fs /\ Forall (fun f => depth + Z.of_nat (tree_depth f) <= MAX_FILTER_DEPTH + 1) fs /\
       n = nodes + Z.of_nat (sum_list (map tree_size fs)) /\ n <= MAX_FILTER_NODES) /\
    (forall fs, Forall2 (represents names) items fs -> Forall (fun f => depth + Z.of_nat (tree_depth f) <= MAX_FILTER_DEPTH + 1) fs ->
       nodes + Z.of_nat (sum_list (map tree_size fs)) <= MAX_FILTER_NODES -> b = true /\ n = nodes + Z.of_nat (sum_list (map tree_size fs))).

Lemma validate_items_spec (validate : yyjson_val -> Z -> result (bool * Z)) depth items :
  (forall item nodes, verdict item depth nodes (validate item nodes)) -> forall nodes, nodes <= MAX_FILTER_NODES ->
  items_verdict items depth nodes (validate_items validate items nodes).
Proof.
  intros HV. induction items as [|item items IH]; intros nodes Hn; cbn [validate_items].
  - exists true, nodes. split; [done|]. split; [intros _; exists []; split_and!; [constructor|constructor|cbn; lia|done]|].
    intros fs HF _ _. inversion HF; subst. split; [done|cbn; lia].
  - destruct (HV item nodes) as (b&n&->&H1&H2). rewrite outcome_bind_ok. destruct b.
    + destruct (H1 eq_refl) as (f&Hf&Hd&->&Hm). destruct (IH _ Hm) as (b&n&->&H3&H4). exists b, n. split; [done|]. split.
      * intros ->. destruct (H3 eq_refl) as (fs&HF&HD&->&?). exists (f :: fs). split_and!; [by constructor|by constructor| |done]. cbn. lia.
      * intros fs HF HD Hs. inversion HF as [|? f' ? fs' Hf' HF']; subst. apply Forall_cons in HD as [Hd' HD']. cbn in Hs.
        destruct (H2 f' Hf' Hd' ltac:(lia)) as [_ E]. destruct (H4 fs' HF' HD' ltac:(lia)) as [-> ->]. split; [done|]. cbn. lia.
    + exists false, n. split; [done|]. split; [done|]. intros fs HF HD Hs. inversion HF as [|? f' ? fs' Hf' HF']; subst. apply Forall_cons in HD as [Hd' HD']. cbn in Hs.
      destruct (H2 f' Hf' Hd' ltac:(lia)) as [[=] _].
Qed.

(** A check that stands for a leaf of the tree. *)
Lemma verdict_leaf node op body depth nodes (r : result bool) P : node_op node op body -> depth <= MAX_FILTER_DEPTH -> nodes + 1 <= MAX_FILTER_NODES ->
  checks r P -> (P -> exists f, represents names node f /\ tree_depth f = 1%nat /\ tree_size f = 1%nat) -> (forall f, represents names node f -> P /\ tree_size f = 1%nat) ->
  verdict node depth nodes (valid ← r; Ok (valid, nodes + 1)).
Proof.
  intros Hop Hd Hn (b&->&Hb) HP HR. exists b, (nodes + 1). split; [done|]. split.
  - intros E%Hb. destruct (HP E) as (f&Hf&Hdf&Hsf). exists f. rewrite Hdf, Hsf. split_and!; [done|lia|lia|done].
  - intros f Hf _ _. destruct (HR f Hf) as [E%Hb Hs]. rewrite Hs. split; [done|lia].
Qed.

Lemma node_op_unique node op op' body body' : node_op node op body -> node_op node op' body' -> str op = str op' /\ body = body'.
Proof. intros (_&k&E&<-) (_&k'&E'&<-). rewrite E in E'. by injection E' as -> ->. Qed.

Lemma represents_op node f : represents names node f -> exists op body, node_op node op body.
Proof. inversion 1; eauto. Qed.

Lemma tree_positive {J' : Yyjson} (f : filter_tree) : (1 <= tree_depth f)%nat /\ (1 <= tree_size f)%nat.
Proof. destruct f; cbn; lia. Qed.

(** The tree of a node whose operation is known. *)
Ltac inv_represents Hop H :=
  inversion H; subst;
  match goal with H' : node_op _ _ _ |- _ =>
    let Hs := fresh in first [constr_eq H' Hop; fail 1|destruct (node_op_unique _ _ _ _ _ Hop H') as [Hs <-]; try discriminate Hs] end.

Lemma verdict_false node depth nodes n :
  (forall f, represents names node f -> depth + Z.of_nat (tree_depth f) <= MAX_FILTER_DEPTH + 1 -> nodes + Z.of_nat (tree_size f) <= MAX_FILTER_NODES -> False) ->
  verdict node depth nodes (Ok (false, n)).
Proof. intros H. exists false, n. split; [done|]. split; [done|]. intros f H1 H2 H3. by destruct (H f). Qed.

Lemma named_node node key body op : yyjson_is_obj node = true -> yyjson_obj_items node = [(key, body)] -> named key op = true -> node_op node op body.
Proof. intros Ho Hk Hn%named_spec. split; [done|]. by exists key. Qed.

(** A node of items: the verdict on the items makes the verdict. *)
Lemma verdict_items node op body depth nodes (join : list filter_tree -> filter_tree) r : node_op node op body -> nodes + 1 <= MAX_FILTER_NODES ->
  depth <= MAX_FILTER_DEPTH -> (forall fs, tree_depth (join fs) = S (max_list (map tree_depth fs)) /\ tree_size (join fs) = S (sum_list (map tree_size fs))) ->
  (forall f, represents names node f -> exists fs, f = join fs /\ Forall2 (represents names) (yyjson_arr_items body) fs) ->
  (forall fs, fs <> [] -> Forall2 (represents names) (yyjson_arr_items body) fs -> represents names node (join fs)) -> yyjson_arr_items body <> [] ->
  items_verdict (yyjson_arr_items body) (depth + 1) (nodes + 1) r -> verdict node depth nodes r.
Proof.
  intros Hop Hn Hd Hj Hr1 Hr2 Hne (b&n&->&H1&H2). exists b, n. split; [done|].
  assert (forall fs, Forall (fun f => depth + 1 + Z.of_nat (tree_depth f) <= MAX_FILTER_DEPTH + 1) fs <-> depth + Z.of_nat (tree_depth (join fs)) <= MAX_FILTER_DEPTH + 1) as HD.
  { intros fs. rewrite (proj1 (Hj fs)). assert (depth + Z.of_nat (S (max_list (map tree_depth fs))) <= MAX_FILTER_DEPTH + 1 <-> (max_list (map tree_depth fs) <= Z.to_nat (MAX_FILTER_DEPTH - depth))%nat) as -> by lia.
    rewrite max_list_le. change (map tree_depth fs) with (tree_depth <$> fs). rewrite Forall_fmap. apply Forall_proper; [|done]. intros f. unfold compose. lia. }
  split.
  - intros ->. destruct (H1 eq_refl) as (fs&HF&HFd&->&?). assert (fs <> []) as Hfs by (intros ->; inversion HF; congruence).
    exists (join fs). rewrite (proj2 (Hj fs)). split_and!; [by apply Hr2|by apply HD|lia|done].
  - intros f Hf Hfd Hfn. destruct (Hr1 f Hf) as (fs&->&HF). rewrite (proj2 (Hj fs)) in Hfn |- *. destruct (H2 fs HF) as [-> ->]; [by apply HD|lia|]. split; [done|lia].
Qed.

(** The items of [and] and [or]: an array that is not empty. *)
Lemma validate_join op node body depth nodes (join : list filter_tree -> filter_tree) r : op = "and" /\ join = FAnd \/ op = "or" /\ join = FOr ->
  node_op node op body -> nodes + 1 <= MAX_FILTER_NODES -> depth <= MAX_FILTER_DEPTH -> items_verdict (yyjson_arr_items body) (depth + 1) (nodes + 1) r ->
  verdict node depth nodes (if negb (yyjson_is_arr body) || (zlen (yyjson_arr_items body) =? 0) then Ok (false, nodes + 1) else r).
Proof.
  intros Hjoin Hop Hn Hd Hr.
  assert (forall f, represents names node f -> yyjson_is_arr body = true /\ exists fs, f = join fs /\ fs <> [] /\ Forall2 (represents names) (yyjson_arr_items body) fs) as Hinv.
  { intros f Hf. destruct Hjoin as [[-> ->]|[-> ->]]; inv_represents Hop Hf; eauto. }
  destruct (yyjson_is_arr body) eqn:Ha; cbn [negb orb].
  - destruct (Z.eqb_spec (zlen (yyjson_arr_items body)) 0) as [Hz|Hz].
    + apply verdict_false. intros f Hf _ _. destruct (Hinv f Hf) as (_&fs&_&Hne&HF). destruct (yyjson_arr_items body); [by inversion HF; subst|]. rewrite zlen_cons in Hz. pose_zlen. lia.
    + apply (verdict_items node op body depth nodes join); try done.
      * intros fs. by destruct Hjoin as [[_ ->]|[_ ->]].
      * intros f Hf. destruct (Hinv f Hf) as (_&fs&->&_&?). eauto.
      * intros fs Hne HF. destruct Hjoin as [[-> ->]|[-> ->]]; by econstructor.
      * by intros E; rewrite E in Hz.
  - apply verdict_false. intros f Hf _ _. by destruct (Hinv f Hf).
Qed.

(** The four comparisons. *)
Lemma validate_leaf node op body depth nodes (r : result bool) : node_op node op body -> depth <= MAX_FILTER_DEPTH -> nodes + 1 <= MAX_FILTER_NODES ->
  op = "eq" /\ r = validate_eq body index \/ op = "exists" /\ r = validate_exists body index \/
  op = "in" /\ r = validate_in body index \/ op = "range" /\ r = validate_range body index ->
  verdict node depth nodes (valid ← r; Ok (valid, nodes + 1)).
Proof using Hw Hv Hi.
  intros Hop Hd Hn [[-> ->]|[[-> ->]|[[-> ->]|[-> ->]]]];
    [apply (verdict_leaf node "eq" body _ _ _ _ Hop Hd Hn (validate_eq_spec body))|apply (verdict_leaf node "exists" body _ _ _ _ Hop Hd Hn (validate_exists_spec body))|
     apply (verdict_leaf node "in" body _ _ _ _ Hop Hd Hn (validate_in_spec body))|apply (verdict_leaf node "range" body _ _ _ _ Hop Hd Hn (validate_range_spec body))];
    [intros (?&?&name&l&?&?&?)| |intros (?&?&name&?)| |intros (?&?&name&l&?&?&?&?&?)| |intros (?&(name&?)&?&?)|];
    (by eexists; split; [by econstructor|done]) || (intros f Hf; inv_represents Hop Hf; eauto 12).
Qed.

Lemma validate_node_spec fuel : forall node depth nodes, depth <= MAX_FILTER_DEPTH + 1 -> MAX_FILTER_DEPTH + 1 - depth < Z.of_nat fuel ->
  verdict node depth nodes (validate_node fuel index node depth nodes).
Proof using Hw Hv Hi.
  induction fuel as [|fuel IH]; intros node depth nodes Hle Hfuel; cbn [validate_node]; [lia|].
  destruct (Z.ltb_spec MAX_FILTER_DEPTH depth) as [Hd|Hd].
  { apply verdict_false. intros f _ Hf _. destruct (tree_positive f). lia. }
  cbv zeta. destruct (_ || _) eqn:T.
  { apply verdict_false. intros f Hf _ Hn. destruct (represents_op _ _ Hf) as (op&body&Ho&key&Hk&_). rewrite Ho, Hk in T. destruct (tree_positive f).
    rewrite !orb_false_r in T. apply Z.ltb_lt in T. lia. }
  apply orb_false_iff in T as [[Hn%Z.ltb_ge Ho%negb_false_iff]%orb_false_iff Hs%negb_false_iff%Z.eqb_eq].
  assert (exists key body, yyjson_obj_items node = [(key, body)]) as (key&body&Hk).
  { destruct (yyjson_obj_items node) as [|[key body] [|]]; [done|eauto|]. rewrite !zlen_cons in Hs. pose_zlen. lia. }
  rewrite Hk. change (elem_at [(key, body)] 0) with (Ok (E := YAP_V2_STATUS) (key, body)). rewrite outcome_bind_ok.
  pose proof (fun op => named_node node key body op Ho Hk) as Hop.
  destruct (named key "eq") eqn:N1; [apply (validate_leaf node "eq" body); auto|].
  destruct (named key "exists") eqn:N2; [apply (validate_leaf node "exists" body); auto|].
  destruct (named key "in") eqn:N3; [apply (validate_leaf node "in" body); auto|].
  destruct (named key "range") eqn:N4; [apply (validate_leaf node "range" body); auto 6|].
  destruct (named key "not") eqn:N5; [specialize (Hop _ N5)|].
  { destruct (IH body (depth + 1) (nodes + 1)) as (b&n&->&H1&H2); [lia|lia|]. exists b, n. split; [done|]. split.
    - intros ->. destruct (H1 eq_refl) as (f&Hf&Hfd&->&?). exists (FNot f). cbn [tree_depth tree_size]. split_and!; [by econstructor|lia|lia|done].
    - intros f Hf Hfd Hfn. inv_represents Hop Hf. cbn [tree_depth tree_size] in *. edestruct H2 as [-> ->]; [done|lia|lia|]. split; [done|lia]. }
  assert (items_verdict (yyjson_arr_items body) (depth + 1) (nodes + 1)
    (validate_items (fun item nodes => validate_node fuel index item (depth + 1) nodes) (yyjson_arr_items body) (nodes + 1))) as Hitems.
  { apply (validate_items_spec _ (depth + 1)); [|done]. intros item nodes'. apply IH; lia. }
  destruct (named key "and") eqn:N6; [|destruct (named key "or") eqn:N7]; cbn [orb].
  - apply (validate_join "and" _ _ _ _ FAnd); auto.
  - apply (validate_join "or" _ _ _ _ FOr); auto.
  - apply verdict_false. intros f Hf _ _. unfold named in *. repeat match goal with H : bool_decide _ = false |- _ => apply bool_decide_eq_false in H end.
    inversion Hf; subst; match goal with H : node_op _ _ _ |- _ => destruct H as (_&key'&E&?); rewrite Hk in E; injection E as <- <- end; congruence.
Qed.
End validation.

(** ** Evaluation refines the meaning of the tree *)
Section evaluation.
Context {J : Yyjson} {D : Doubles} (c : YAP_V2_CONFIG) (Hw : config_wf c) (Hv : config_valid c) (index : YAP_V2_METADATA_INDEX) (Hi : index_ok c index).
Abbreviation names := (field_names c).

(** What a view in the index looks like. *)
Definition entry_readable (e : YAP_V2_METADATA_ENTRY) : Prop := entry_value e = mk_view (view_bytes (entry_value e)).

Lemma entry_number_spec e : entry_readable e -> entry_number e = Ok (strtod (c_str (typed e).2)).
Proof.
  intros E. unfold entry_number, typed, entry_readable in *. cbn [snd]. set (bs := view_bytes (entry_value e)) in *. rewrite E. cbn [data len mk_view]. rewrite load_bytes_slice, slice_all, outcome_bind_ok by (pose_zlen; lia).
  by rewrite (proj2 (c_str_terminated _)).
Qed.

Lemma literal_equal_spec e literal : entry_readable e -> literal_equal e (Some literal) = Ok (value_equal literal (typed e)).
Proof.
  intros E. pose proof (entry_number_spec e E) as HN. unfold literal_equal, value_equal, typed, entry_readable in *. cbn [fst snd] in *. set (bs := view_bytes (entry_value e)) in *. rewrite E. cbn [data len mk_view].
  pose proof (zlen_nonneg bs). destruct (yyjson_is_null literal); [done|]. destruct (yyjson_is_bool literal); [|destruct (yyjson_is_str literal)].
  - destruct (entry_type e =? _); cbn [andb]; [|done]. destruct (Z.eqb_spec (zlen bs) 1) as [Hz|Hz].
    + destruct bs as [|b [|]]; [done| |rewrite !zlen_cons in Hz; pose_zlen; lia]. change (load [b] 0) with (Ok (E := YAP_V2_STATUS) b). rewrite outcome_bind_ok.
      f_equal. destruct (Z.eqb_spec b (if yyjson_is_true literal then 1 else 0)) as [->|N]; [by rewrite bool_decide_true|rewrite bool_decide_false; congruence].
    + rewrite bool_decide_false; [done|]. by intros E'; rewrite E' in Hz.
  - destruct (entry_type e =? _); cbn [andb]; [|done]. destruct (Z.eqb_spec (zlen bs) (zlen (yyjson_get_str literal))) as [Hz|Hz].
    + by rewrite load_bytes_slice, slice_all by lia.
    + rewrite bool_decide_false; congruence.
  - destruct (yyjson_is_num literal && _); cbn [andb]; [|done]. rewrite Z.ltb_antisym. destruct (sizeof_number_buffer <=? zlen bs); cbn [negb andb]; [done|]. by rewrite HN.
Qed.

Lemma any_literal_spec e literals : entry_readable e -> any_literal e literals = Ok (existsb (fun literal => value_equal literal (typed e)) literals).
Proof.
  intros E. induction literals as [|l literals IH]; cbn [any_literal existsb]; [done|]. rewrite literal_equal_spec, outcome_bind_ok by done.
  destruct (value_equal l (typed e)); [done|]. by rewrite IH.
Qed.

(** The test of a comparison on one value. *)
Definition leaf_test (f : filter_tree) (value : Z * bytes) : bool :=
  match f with
  | FEq _ literal => value_equal literal value
  | FIn _ literals => existsb (fun literal => value_equal literal value) literals
  | FRange _ bounds => value_in_bounds bounds value
  | _ => true
  end.

Lemma range_spec op body e : entry_readable e -> named op "eq" = false -> named op "in" = false -> named op "range" = true ->
  entry_matches op body e = Ok (value_in_bounds (bounds_of body) (typed e)).
Proof.
  intros E N1 N2 N3. unfold entry_matches. rewrite N1, N2, N3. cbn [mbind outcome_bind andb]. unfold value_in_bounds, typed. cbn [fst snd].
  destruct (entry_type e =? _); cbn [andb]; [|done]. rewrite Z.ltb_antisym.
  assert (len (entry_value e) = zlen (view_bytes (entry_value e))) as -> by (unfold entry_readable in E; by rewrite E at 1).
  destruct (sizeof_number_buffer <=? _); cbn [negb andb]; [done|]. by rewrite entry_number_spec.
Qed.

(** The cursor visits the entries of a field of a document. *)
Lemma field_entry_spec es field document :
  match field_entry es field document with
  | Some (e, rest) => filter (entry_of field document) es = e :: filter (entry_of field document) rest /\ (length rest < length es)%nat /\ exists skipped, es = skipped ++ e :: rest
  | None => filter (entry_of field document) es = []
  end.
Proof.
  induction es as [|e es IH]; cbn [field_entry]; [done|]. rewrite filter_cons. destruct ((field_ordinal e =? field) && (document_ordinal e =? document)) eqn:T.
  - btests. rewrite decide_True by done. split_and!; [done|cbn; lia|by exists []].
  - rewrite decide_False.
    2: { intros [<- <-]. by rewrite !Z.eqb_refl in T. }
    destruct (field_entry es field document) as [[e' rest]|]; [|done]. destruct IH as (?&?&sk&->). split_and!; [done|cbn in *; lia|by exists (e :: sk)].
Qed.

Lemma eval_entries_spec op body (test : Z * bytes -> bool) field document : forall fuel es, (length es <= fuel)%nat ->
  Forall (fun e => entry_matches op body e = Ok (test (typed e))) es ->
  eval_entries fuel op body es field document = Ok (existsb test (typed <$> filter (entry_of field document) es)).
Proof.
  induction fuel as [|fuel IH]; intros es Hf HF; cbn [eval_entries]; pose proof (field_entry_spec es field document) as HE; (destruct (field_entry es field document) as [[e rest]|]; [|by rewrite HE]);
    destruct HE as (->&Hl&sk&Es); [lia|]. rewrite Es in HF. apply Forall_app in HF as [_ [He HF]%Forall_cons]. rewrite He, outcome_bind_ok. cbn [fmap list_fmap existsb].
  destruct (test (typed e)); [done|]. cbn [orb]. apply IH; [lia|done].
Qed.

Lemma entries_readable : Forall entry_readable (md_entries index).
Proof using Hi. eapply Forall_impl; [apply (io_entries _ _ Hi)|]. by intros e [_ _ _ (?&_)]. Qed.

Lemma body_field_ordinal body name : body_field names body name ->
  exists field j m, obj_get body "field" = Some field /\ yyjson_is_str field = true /\ list_find (fun n => n = name) names = Some (j, m) /\
    YAP_V2_metadata_field_ordinal index (Some (c_string_of field)) = Ok (Z.of_nat j).
Proof using Hw Hv Hi.
  intros (field&Hf&Hs&_&Hn&Hin). apply known_ordinal in Hin as (j&m&E). exists field, j, m. split_and!; [done|done|done|].
  unfold c_string_of. rewrite (field_ordinal_spec c Hw Hv index Hi _ name); [by rewrite E|]. rewrite <- Hn. apply c_str_terminated.
Qed.

(** A comparison, given its test on an entry. *)
Lemma eval_field_spec op body name (test : Z * bytes -> bool) document : body_field names body name -> named op "exists" = false ->
  (forall e, entry_readable e -> entry_matches op body e = Ok (test (typed e))) ->
  eval_field op body index document = Ok (existsb test (index_values names index document name)).
Proof using Hw Hv Hi.
  intros Hb Hn HT. destruct (body_field_ordinal body name Hb) as (field&j&m&Hf&Hs&Hl&Ho). unfold eval_field, index_values. rewrite Hf, Hs, Ho, Hn, Hl.
  apply eval_entries_spec; [done|]. eapply Forall_impl; [apply entries_readable|done].
Qed.

Lemma eval_exists_spec op body name document : body_field names body name -> named op "exists" = true ->
  eval_field op body index document = Ok (negb (bool_decide (index_values names index document name = []))).
Proof using Hw Hv Hi.
  intros Hb Hn. destruct (body_field_ordinal body name Hb) as (field&j&m&Hf&Hs&Hl&Ho). unfold eval_field, index_values. rewrite Hf, Hs, Ho, Hn, Hl. f_equal.
  pose proof (field_entry_spec (md_entries index) (Z.of_nat j) document) as HE. destruct (field_entry _ _ _) as [[e rest]|].
  - by destruct HE as (->&_).
  - by rewrite HE.
Qed.

Lemma eval_items_spec (eval : yyjson_val -> result bool) is_and items (bs : list bool) : Forall2 (fun item b => eval item = Ok b) items bs ->
  eval_items eval is_and items = Ok (if is_and then forallb (fun b => b) bs else existsb (fun b => b) bs).
Proof.
  induction 1 as [|item b items bs Hb _ IH]; cbn [eval_items forallb existsb]; [by destruct is_and|]. rewrite Hb, outcome_bind_ok, IH. by destruct is_and, b.
Qed.

Lemma named_other key op op' : c_str key = str op -> bool_decide (str op = str op') = false -> named key op' = false.
Proof. intros E N%bool_decide_eq_false. unfold named. rewrite bool_decide_false; congruence. Qed.

Lemma eval_node_spec document fuel : forall node f, represents names node f -> (tree_depth f <= fuel)%nat ->
  eval_node fuel index document node = Ok (denote (index_values names index document) f).
Proof using Hw Hv Hi.
  induction fuel as [|fuel IH]; intros node f Hr Hf; [destruct (tree_positive f); lia|].
  assert (forall fs body, (S (max_list (map tree_depth fs)) <= S fuel)%nat -> Forall2 (represents names) (yyjson_arr_items body) fs ->
    Forall2 (fun item b => eval_node fuel index document item = Ok b) (yyjson_arr_items body) (denote (index_values names index document) <$> fs)) as Hitems.
  { intros fs body Hm HF. apply Nat.succ_le_mono in Hm. rewrite max_list_le in Hm. induction HF as [|item g items fs Hg HF IHF]; [constructor|]. cbn [map] in Hm. apply Forall_cons in Hm as [Hm1 Hm2].
    constructor; [by apply IH|by apply IHF]. }
  inversion Hr as [? body name l (_&key&Hk&En)|? body name (_&key&Hk&En)|? body name vs (_&key&Hk&En)|? body name (_&key&Hk&En)|? body g (_&key&Hk&En)|? body fs (_&key&Hk&En)|? body fs (_&key&Hk&En)]; subst;
    cbn [eval_node denote tree_depth] in *; rewrite Hk; pose proof (fun op' => named_other key _ op' En) as Hno; pose proof (proj2 (named_spec key _) En) as Hyes; rewrite ?Hyes, ?Hno by done; cbn [orb].
  - apply (eval_field_spec key body name); [done|by apply Hno|]. intros e He. unfold entry_matches. rewrite Hyes, !Hno by done.
    match goal with H : obj_get body "value" = _ |- _ => rewrite H end. rewrite literal_equal_spec, outcome_bind_ok by done. by destruct (value_equal l (typed e)).
  - by apply eval_exists_spec.
  - apply (eval_field_spec key body name (fun v => existsb (fun literal => value_equal literal v) (yyjson_arr_items vs))); [done|by apply Hno|]. intros e He. unfold entry_matches. rewrite Hyes, !Hno by done.
    match goal with H : obj_get body "values" = _ |- _ => rewrite H end. rewrite outcome_bind_ok, any_literal_spec, outcome_bind_ok by done. by destruct (existsb _ _).
  - apply (eval_field_spec key body name); [done|by apply Hno|]. intros e He. apply range_spec; [done|by apply Hno|by apply Hno|done].
  - rewrite (IH body g) by (done || lia). done.
  - rewrite (eval_items_spec _ _ _ _ (Hitems fs body Hf ltac:(done))). f_equal. clear. induction fs as [|g fs IHf]; [done|]. cbn. by rewrite IHf.
  - rewrite (eval_items_spec _ _ _ _ (Hitems fs body Hf ltac:(done))). f_equal. clear. induction fs as [|g fs IHf]; [done|]. cbn. by rewrite IHf.
Qed.
End evaluation.

(** The meaning depends on the values only. *)
Lemma denote_ext {J : Yyjson} {D : Doubles} (values values' : bytes -> list (Z * bytes)) : (forall name, values name = values' name) ->
  forall f, denote values f = denote values' f.
Proof.
  intros H. fix IH 1. intros [name l|name ls|name bs|name|f|fs|fs]; cbn [denote]; rewrite ?H; [done|done|done|done|by rewrite IH|..].
  - induction fs as [|f fs IHfs]; [done|]. cbn [forallb]. by rewrite IH, IHfs.
  - induction fs as [|f fs IHfs]; [done|]. cbn [existsb]. by rewrite IH, IHfs.
Qed.

(** ** The index of written documents *)
Section documents.
Context {J : Yyjson}.

Lemma scalar_entry_of f d v e : scalar_entry f d v = Some e -> entry_of f d e.
Proof. unfold scalar_entry. destruct (scalar_text v) as [[[[? ?] ?]|]|?|]; [|done..]. by intros [= <-]. Qed.

Lemma field_entries_of f d root name : Forall (entry_of f d) (field_entries f d root name).
Proof.
  unfold field_entries. destruct (value_at root name) as [v|]; [|done]. apply Forall_forall. intros e (x&_&Hx)%list_elem_of_omap. by eapply scalar_entry_of.
Qed.

Lemma field_entries_filter f d f' d' root name : filter (entry_of f d) (field_entries f' d' root name) = if decide (f = f' /\ d = d') then field_entries f' d' root name else [].
Proof.
  pose proof (field_entries_of f' d' root name) as HF. case_decide as E; [destruct E as [-> ->]; by apply filter_all|].
  apply filter_none. eapply Forall_impl; [exact HF|]. intros e [? ?] [? ?]. naive_solver congruence.
Qed.

(** The entries of field [j] are those of the name with that ordinal. *)
Lemma names_entries_filter names d root : forall (j : nat) k, filter (entry_of (k + Z.of_nat j) d) (names_entries names k d root) =
  match names !! j with Some name => field_entries (k + Z.of_nat j) d root name | None => [] end.
Proof.
  induction names as [|name names IH]; intros j k; cbn [names_entries]; [done|]. rewrite filter_app, field_entries_filter. destruct j as [|j].
  - change (Z.of_nat 0) with 0. rewrite Z.add_0_r, decide_True by done. cbn [lookup list_lookup]. rewrite filter_none, app_nil_r; [done|]. apply Forall_forall.
    intros e (f&v&Hf&He%scalar_entry_of)%names_entries_origin [Hk _]. destruct He. lia.
  - rewrite decide_False by lia. cbn [app lookup list_lookup]. specialize (IH j (k + 1)). by replace (k + 1 + Z.of_nat j) with (k + Z.of_nat (S j)) in IH by lia.
Qed.

Lemma roots_entries_document names roots e : forall i, e ∈ roots_entries names i roots -> i <= document_ordinal e.
Proof.
  induction roots as [|root roots IH]; intros i; cbn [roots_entries]; [by intros ?%elem_of_nil|].
  intros [(f&v&_&[_ <-]%scalar_entry_of)%names_entries_origin|H%IH]%elem_of_app; lia.
Qed.

Lemma roots_entries_filter names roots field : forall (d : nat) i, filter (entry_of field (i + Z.of_nat d)) (roots_entries names i roots) =
  match roots !! d with Some root => filter (entry_of field (i + Z.of_nat d)) (names_entries names 0 (i + Z.of_nat d) root) | None => [] end.
Proof.
  induction roots as [|root roots IH]; intros d i; cbn [roots_entries]; [done|]. rewrite filter_app. destruct d as [|d].
  - change (Z.of_nat 0) with 0. rewrite Z.add_0_r. cbn [lookup list_lookup]. rewrite (filter_none _ (roots_entries _ _ _)), app_nil_r; [done|].
    apply Forall_forall. intros e He%roots_entries_document [_ Hd]. lia.
  - rewrite filter_none.
    + cbn [app lookup list_lookup]. specialize (IH d (i + 1)). by replace (i + 1 + Z.of_nat d) with (i + Z.of_nat (S d)) in IH by lia.
    + apply Forall_forall. intros e (f&v&_&[_ He]%scalar_entry_of)%names_entries_origin [_ Hd]. lia.
Qed.

Lemma typed_entries f d (vs : list yyjson_val) : typed <$> omap (scalar_entry f d) vs = omap typed_scalar vs.
Proof.
  induction vs as [|v vs IH]; [done|]. cbn [omap list_omap]. unfold scalar_entry at 1, typed_scalar at 1. destruct (scalar_text v) as [[[[type text_] n]|]|?|]; [|done..].
  cbn [fmap list_fmap]. rewrite IH. unfold typed at 1. cbn [entry_type entry_value]. by rewrite view_bytes_mk.
Qed.

(** The values that the index of written documents has are those of the documents. *)
Lemma index_values_json names index roots root (d : nat) name : md_entries index = roots_entries names 0 roots -> roots !! d = Some root ->
  index_values names index (Z.of_nat d) name = json_values names root name.
Proof.
  intros He Hd. unfold index_values, json_values. rewrite He. destruct (list_find _ names) as [[j m]|] eqn:E.
  - apply list_find_Some in E as (Hj&->&_). rewrite bool_decide_true by (by eapply list_elem_of_lookup_2).
    pose proof (roots_entries_filter names roots (Z.of_nat j) d 0) as HR. rewrite Z.add_0_l, Hd in HR. rewrite HR.
    pose proof (names_entries_filter names (Z.of_nat d) root j 0) as HN. rewrite Z.add_0_l, Hj in HN. rewrite HN. unfold field_entries.
    destruct (value_at root name); [apply typed_entries|done].
  - rewrite bool_decide_false; [done|]. intros Hin. destruct (list_find_elem_of (fun n => n = name) names name Hin eq_refl) as [x Hx]. congruence.
Qed.
End documents.

(** ** The results *)



(** ** A concrete filter

    Doubles are integers here, and [strtod] reads decimal digits. *)
Definition demo_filter : json :=
  JObj [(str "and", JArr [JObj [(str "eq", JObj [(str "field", JStr (str "author")); (str "value", JStr [97; 98])])];
                          JObj [(str "not", JObj [(str "range", JObj [(str "field", JStr (str "tags.name")); (str "gt", JInt 7)])])]])].
Definition filter_json : Yyjson := json_library (fun d _ => if bool_decide (d = Some [50]) then Some demo_filter else None).
#[local] Instance integer_doubles : @Doubles filter_json :=
  @Build_Doubles filter_json Z (foldl (fun n c => 10 * n + (c - 48)) 0) (fun v : json => match v with JInt n => n | _ => 0 end) Z.eqb Z.ltb Z.leb.

Definition demo_index : YAP_V2_METADATA_INDEX :=
  MetadataIndex (name_rows (field_names vectors_config)) 2 1 demo_entries (metadata_image (field_names vectors_config) 1 demo_entries).

Lemma filter_index_ok : index_ok vectors_config demo_index.
Proof. split; [done|done| |done]. repeat constructor; done. Qed.


