(* ===== verification/Sizer.v ===== *)
(** The sizes of the components of a segment before it is written
    (src/src/indexing/yappo_segment_planner_v2.c): [prepare_unit] tokenises a unit and counts its
    bytes, terms, postings and positions, and a SIZER sums these counts over the units of a
    slice, so that the planner knows how long every file of the segment will be.

    The sums are unsigned 64-bit and wrap around; [checked_add] refuses to.  Freed memory is not
    modelled. *)
From Stdlib Require Import String.
From S2P Require Import Prelude Words Types SlotTable EntryTable Manifest Segment CString Config Lexical Planner TermMap Tokens LexicalWriter Json Metadata.
#[local] Open Scope Z_scope.

Record UNIT_SIZE := UnitSize {
  us_terms : TERM_MAP;
  us_document_bytes : Z;
  us_passage_bytes : Z;
  us_metadata_bytes : Z;
  us_passage_count : Z;
  us_vector_id_bytes : Z }.

Definition unit_size_zero : UNIT_SIZE := UnitSize term_map_zero 0 0 0 0 0.

(** The counters of a SIZER; its table of terms is kept beside them. *)
Record SIZER_COUNTS := SizerCounts {
  sz_documents : Z;
  sz_passages : Z;
  sz_tombstones : Z;
  sz_document_payload : Z;
  sz_metadata_payload : Z;
  sz_vector_id_bytes : Z;
  sz_term_payload : Z;
  sz_posting_payload : Z;
  sz_position_payload : Z;
  sz_tombstone_payload : Z }.

Record SIZER := Sizer { sz_counts : SIZER_COUNTS; sz_terms : TERM_MAP }.

Definition sizer_zero : SIZER := Sizer (SizerCounts 0 0 0 0 0 0 0 0 0 0) term_map_zero.

Definition checked_add (value additional : Z) : result Z :=
  if SIZE_MAX - value <? additional then Err YAP_V2_OUT_OF_RANGE else Ok (value + additional).

Definition bytes_view_size (value : YAP_V2_BYTES_VIEW) (bytes_ : Z) : result Z :=
  if SIZE_MAX - 4 <? len value then Err YAP_V2_OUT_OF_RANGE else checked_add bytes_ (4 + len value).

Section sizer.
Context {A : Allocator} {T : Tokenizer} {J : Yyjson}.

Record PREPARED_UNIT := PreparedUnit {
  pu_lexical : YAP_V2_LEXICAL_PREPARED;
  pu_metadata_document : option yyjson_val }.

Definition prepared_unit_zero : PREPARED_UNIT := PreparedUnit YAP_V2_lexical_prepared_init None.

(** An array or an object has no record. *)
Definition scalar_size (value : yyjson_val) (bytes_ : Z) : result Z :=
  let sized length_ :=
    if (sizeof_number <=? length_) && yyjson_is_num value then Err YAP_V2_OUT_OF_RANGE
    else checked_add bytes_ (20 + length_) in
  if yyjson_is_null value then sized 0
  else if yyjson_is_bool value then sized 1
  else if yyjson_is_sint value then sized (zlen (decimal_signed (yyjson_get_sint value)))
  else if yyjson_is_uint value then sized (zlen (decimal (yyjson_get_uint value)))
  else if yyjson_is_real value then sized (zlen (print_real value))
  else if yyjson_is_str value then sized (zlen (yyjson_get_str value))
  else Ok bytes_.

Fixpoint scalars_size (items : list yyjson_val) (bytes_ : Z) : result Z :=
  match items with
  | [] => Ok bytes_
  | item :: items => bytes_ ← scalar_size item bytes_; scalars_size items bytes_
  end.

Definition value_size (value : yyjson_val) (bytes_ : Z) : result Z :=
  if negb (yyjson_is_arr value) then scalar_size value bytes_ else scalars_size (yyjson_arr_items value) bytes_.

(** The body of the loop over the occurrences: [slot] is a pointer into the table. *)
Definition count_occurrence (terms : TERM_MAP) (o : YAP_V2_LEXICAL_OCCURRENCE) : result TERM_MAP :=
  let object_key := if occ_object_type o =? YAP_V2_LEXICAL_DOCUMENT then 0 else u64 (occ_object_ordinal o + 1) in
  '(terms, i) ← term_map_slot terms (occ_term o);
  slot ← elem_at (tm_slots terms) i;
  let slot := TermSlot (slot_term slot) (u64 (slot_occurrences slot + 1)) (slot_postings slot) (last_object slot) (slot_used slot) in
  let slot := if last_object slot =? object_key then slot
              else TermSlot (slot_term slot) (slot_occurrences slot) (u64 (slot_postings slot + 1)) object_key (slot_used slot) in
  Ok (TermMap (<[Z.to_nat i := slot]> (tm_slots terms)) (tm_count terms)).

Fixpoint count_occurrences (items : list YAP_V2_LEXICAL_OCCURRENCE) (terms : TERM_MAP) : result TERM_MAP :=
  match items with
  | [] => Ok terms
  | o :: items => terms ← count_occurrence terms o; count_occurrences items terms
  end.

(** The loop over the passages: their bytes, and the bytes of their identifiers. *)
Fixpoint passages_size (passages : list YAP_V2_PASSAGE_VIEW) (s : Z * Z) : result (Z * Z) :=
  match passages with
  | [] => Ok s
  | p :: passages =>
      let '(passage_bytes, vector_id_bytes) := s in
      record ← bytes_view_size (passage_id p) (8 + 12);
      record ← bytes_view_size (parent_document_id p) record;
      record ← bytes_view_size (Types.text p) record;
      passage_bytes ← checked_add passage_bytes record;
      vector_id_bytes ← checked_add vector_id_bytes (len (passage_id p));
      passages_size passages (passage_bytes, vector_id_bytes)
  end.

(** The loop over the filterable fields: [n] of them from index [i]. *)
Fixpoint fields_size (n : nat) (fields : list bytes) (i : Z) (root : yyjson_val) (bytes_ : Z) : result Z :=
  match n with
  | O => Ok bytes_
  | S n =>
      field ← elem_at fields i;
      value ← path_value root field;
      bytes_ ← (match value with Some value => value_size value bytes_ | None => Ok bytes_ end);
      fields_size n fields (i + 1) root bytes_
  end.

Definition prepare_unit (config : YAP_V2_CONFIG) (unit_ : YAP_V2_SEGMENT_UNIT) : result (UNIT_SIZE * PREPARED_UNIT) :=
  match unit_document unit_ with
  | None => Ok (unit_size_zero, prepared_unit_zero)
  | Some document =>
      document_bytes ← bytes_view_size (doc_id document) (8 + 8);
      document_bytes ← bytes_view_size (url document) document_bytes;
      document_bytes ← bytes_view_size (title document) document_bytes;
      document_bytes ← bytes_view_size (body document) document_bytes;
      document_bytes ← bytes_view_size (metadata_json document) document_bytes;
      lexical ← YAP_V2_lexical_prepare_unit (Some document) (unit_passages unit_);
      terms ← count_occurrences (prep_items lexical) term_map_zero;
      '(passage_bytes, vector_id_bytes) ← passages_size (unit_passages unit_) (0, 0);
      match yyjson_read (data (metadata_json document)) (len (metadata_json document)) with
      | None => Err YAP_V2_INVALID_FORMAT
      | Some root =>
          if negb (yyjson_is_obj root) then Err YAP_V2_INVALID_FORMAT
          else
          metadata_bytes ← fields_size (Z.to_nat (filterable_field_count config)) (filterable_fields config) 0 root 0;
          Ok (UnitSize terms document_bytes passage_bytes metadata_bytes (zlen (unit_passages unit_)) vector_id_bytes,
              PreparedUnit lexical (Some root))
      end
  end.

(** ** The components of a slice *)
Fixpoint names_size (n : nat) (fields : list bytes) (i bytes_ : Z) : result Z :=
  match n with
  | O => Ok bytes_
  | S n => field ← elem_at fields i; len_ ← strlen field; names_size n fields (i + 1) (u64 (bytes_ + (4 + len_)))
  end.

Definition metadata_base (config : YAP_V2_CONFIG) : result Z :=
  names_size (Z.to_nat (filterable_field_count config)) (filterable_fields config) 0 24.

Definition sizeof_float : Z := 4.

(** [(vector_bytes + sizeof(float) - 1U) & ~(sizeof(float) - 1U)]. *)
Definition align_float (bytes_ : Z) : Z := Z.land (u64 (bytes_ + sizeof_float - 1)) (u64 (Z.lnot (sizeof_float - 1))).

Definition component_sizes (config : YAP_V2_CONFIG) (c : SIZER_COUNTS) (segment_id_bytes : Z) : result (list Z) :=
  base ← (if 0 <? sz_documents c then metadata_base config else Ok 0);
  model ← (if negb (vector_metric config =? YAP_V2_VECTOR_DISABLED) && (0 <? sz_passages c) then len_ ← strlen (vector_model_id config); Ok (Some len_) else Ok None);
  let documents_ n := if 0 <? sz_documents c then n else 0 in
  Ok [u64 (24 + segment_id_bytes + sz_document_payload c);
      documents_ (sz_term_payload c);
      documents_ (sz_posting_payload c);
      documents_ (sz_position_payload c);
      documents_ (u64 (base + sz_metadata_payload c));
      match model with
      | Some len_ =>
          let vector_bytes := u64 (40 + len_ + sz_passages c * 16 + sz_vector_id_bytes c) in
          u64 (align_float vector_bytes + sz_passages c * vector_dimensions config * sizeof_float)
      | None => 0
      end;
      if 0 <? sz_tombstones c then sz_tombstone_payload c else 0].

(** What [projected_fits] and [sizer_add] begin with: the counters after one more unit, without its
    terms. *)
Definition add_document (s : UNIT_SIZE) (c : SIZER_COUNTS) : SIZER_COUNTS :=
  let first_ := sz_documents c =? 0 in
  SizerCounts (u64 (sz_documents c + 1)) (u64 (sz_passages c + us_passage_count s)) (sz_tombstones c)
    (u64 (sz_document_payload c + (us_document_bytes s + us_passage_bytes s)))
    (u64 (sz_metadata_payload c + us_metadata_bytes s))
    (u64 (sz_vector_id_bytes c + us_vector_id_bytes s))
    (if first_ then 12 else sz_term_payload c) (if first_ then 56 else sz_posting_payload c) (if first_ then 12 else sz_position_payload c)
    (sz_tombstone_payload c).

Definition add_tombstone (tombstone : YAP_V2_BYTES_VIEW) (c : SIZER_COUNTS) : SIZER_COUNTS :=
  let tombstones_ := u64 (sz_tombstones c + 1) in
  SizerCounts (sz_documents c) (sz_passages c) tombstones_ (sz_document_payload c) (sz_metadata_payload c) (sz_vector_id_bytes c)
    (sz_term_payload c) (sz_posting_payload c) (sz_position_payload c)
    (u64 ((if tombstones_ =? 1 then 12 else sz_tombstone_payload c) + (4 + len tombstone))).

Definition blocks (postings_ : Z) : Z := u64 (postings_ + YAP_V2_POSTINGS_BLOCK_SIZE - 1) / YAP_V2_POSTINGS_BLOCK_SIZE.

(** The counters after the term of [source], which the slice has already ([Some] of its postings)
    or not. *)
Definition add_term (source : TERM_SLOT) (old : option Z) (c : SIZER_COUNTS) : SIZER_COUNTS :=
  let is_new := match old with None => true | Some _ => false end in
  let old_postings := default 0 old in
  let old_blocks := match old with None => 0 | Some _ => blocks old_postings end in
  let new_blocks := blocks (u64 (old_postings + slot_postings source)) in
  let posting_payload := u64 (sz_posting_payload c + (if is_new then 20 else 0)) in
  let position_payload := u64 (sz_position_payload c + (if is_new then 16 else 0)) in
  SizerCounts (sz_documents c) (sz_passages c) (sz_tombstones c) (sz_document_payload c) (sz_metadata_payload c) (sz_vector_id_bytes c)
    (u64 (sz_term_payload c + (if is_new then 44 + zlen (slot_term source) else 0)))
    (u64 (posting_payload + (slot_postings source * 48 + u64 (new_blocks - old_blocks) * 16)))
    (u64 (position_payload + slot_occurrences source * 8))
    (sz_tombstone_payload c).

(** The loop of [projected_fits] over the slots of the unit's table. *)
Fixpoint project_terms (sources : list TERM_SLOT) (terms : TERM_MAP) (c : SIZER_COUNTS) : result SIZER_COUNTS :=
  match sources with
  | [] => Ok c
  | source :: sources =>
      if negb (slot_used source) then project_terms sources terms c
      else
      target ← term_map_find terms (slot_term source);
      project_terms sources terms (add_term source (slot_postings <$> target) c)
  end.

Definition project (sizer : SIZER) (unit_ : YAP_V2_SEGMENT_UNIT) (unit_size : UNIT_SIZE) : result SIZER_COUNTS :=
  match unit_document unit_ with
  | Some _ => project_terms (tm_slots (us_terms unit_size)) (sz_terms sizer) (add_document unit_size (sz_counts sizer))
  | None => Ok (add_tombstone (unit_tombstone unit_) (sz_counts sizer))
  end.

Definition COMPONENT_NAMES : list bytes :=
  [CString.text "documents.yap2"; CString.text "terms.yap2"; CString.text "postings.yap2"; CString.text "positions.yap2";
   CString.text "metadata.yap2"; CString.text "vectors.yap2"; CString.text "tombstones.yap2"].

(** The loop over the components: whether all fit, the largest size and its component. *)
Fixpoint largest_size (sizes : list Z) (names : list bytes) (limit : Z) (s : bool * Z * option bytes) : bool * Z * option bytes :=
  match sizes, names with
  | size :: sizes, name_ :: names =>
      let '(fits, required, component) := s in
      let '(required, component) := if required <? size then (size, Some name_) else (required, component) in
      largest_size sizes names limit (if limit <? size then false else fits, required, component)
  | _, _ => s
  end.

(** Whether the unit fits, that is whether [projected_fits] returns YAP_V2_OK and not
    YAP_V2_SEGMENT_CAPACITY_EXCEEDED, with [largest_required] and [largest_component]. *)
Definition projected_fits (config : YAP_V2_CONFIG) (sizer : SIZER) (unit_ : YAP_V2_SEGMENT_UNIT) (unit_size : UNIT_SIZE)
    (segment_id_bytes limit : Z) : result (bool * Z * option bytes) :=
  projected ← project sizer unit_ unit_size;
  sizes ← component_sizes config projected segment_id_bytes;
  let is_document := match unit_document unit_ with Some _ => true | None => false end in
  if (YAP_V2_MAX_SEGMENT_DOCUMENTS <? u64 (sz_documents (sz_counts sizer) + (if is_document then 1 else 0))) ||
     (YAP_V2_MAX_SEGMENT_PASSAGES <? u64 (sz_passages (sz_counts sizer) + us_passage_count unit_size))
  then Ok (false, u64 (limit + 1), Some (if is_document then CString.text "documents.yap2" else CString.text "tombstones.yap2"))
  else Ok (largest_size sizes COMPONENT_NAMES limit (true, 0, None)).

(** The loop of [sizer_add]: the counters and the table of the slice. *)
Fixpoint add_terms (sources : list TERM_SLOT) (sizer : SIZER) : result SIZER :=
  match sources with
  | [] => Ok sizer
  | source :: sources =>
      if negb (slot_used source) then add_terms sources sizer
      else
      '(terms, i) ← term_map_slot (sz_terms sizer) (slot_term source);
      target ← elem_at (tm_slots terms) i;
      let old := if (slot_occurrences target =? 0) && (slot_postings target =? 0) then None else Some (slot_postings target) in
      let target := TermSlot (slot_term target) (u64 (slot_occurrences target + slot_occurrences source))
                      (u64 (slot_postings target + slot_postings source)) (last_object target) (slot_used target) in
      add_terms sources (Sizer (add_term source old (sz_counts sizer)) (TermMap (<[Z.to_nat i := target]> (tm_slots terms)) (tm_count terms)))
  end.

Definition sizer_add (sizer : SIZER) (unit_ : YAP_V2_SEGMENT_UNIT) (unit_size : UNIT_SIZE) : result SIZER :=
  match unit_document unit_ with
  | None => Ok (Sizer (add_tombstone (unit_tombstone unit_) (sz_counts sizer)) (sz_terms sizer))
  | Some _ => add_terms (tm_slots (us_terms unit_size)) (Sizer (add_document unit_size (sz_counts sizer)) (sz_terms sizer))
  end.
End sizer.
