(* ===== verification/TermStats.v ===== *)
(** What the tables of terms of the segment planner count
    (src/src/indexing/yappo_segment_planner_v2.c): the loops of [prepare_unit], [projected_fits]
    and [sizer_add] over occurrences and terms compute the number of occurrences and of postings
    of every term, and the sizes of the three lexical files from them. *)
From S2P Require Import Prelude Words Types SlotTable EntryTable Manifest Segment CString Config Lexical Planner TermMap Tokens LexicalWriter Json Metadata Sizer.
#[local] Open Scope Z_scope.

(** ** Sums over maps *)
Definition sum (l : list Z) : Z := foldr Z.add 0 l.

Lemma sum_cons x l : sum (x :: l) = x + sum l.
Proof. done. Qed.
Lemma sum_app a b : sum (a ++ b) = sum a + sum b.
Proof. unfold sum. induction a as [|x a IH]; cbn [app foldr]; lia. Qed.
#[export] Instance sum_permutation : Proper ((≡ₚ) ==> (=)) sum.
Proof. intros a b H. unfold sum. induction H; cbn [foldr]; lia. Qed.
Lemma sum_nonneg l : Forall (fun x => 0 <= x) l -> 0 <= sum l.
Proof. unfold sum. induction 1; cbn [foldr]; lia. Qed.
Lemma sum_fmap_add {X} (f g : X -> Z) l : sum ((fun x => f x + g x) <$> l) = sum (f <$> l) + sum (g <$> l).
Proof. unfold sum. induction l as [|x l IH]; cbn [fmap list_fmap foldr] in *; lia. Qed.

Definition msum (f : bytes -> term_stats -> Z) (m : gmap bytes term_stats) : Z := sum ((fun e => f e.1 e.2) <$> map_to_list m).

Lemma msum_empty f : msum f ∅ = 0.
Proof. unfold msum. by rewrite map_to_list_empty. Qed.

Lemma msum_fresh f m t st : m !! t = None -> msum f (<[t := st]> m) = f t st + msum f m.
Proof. intros H. unfold msum. rewrite map_to_list_insert by done. done. Qed.

Lemma msum_insert f m t st : msum f (<[t := st]> m) = msum f m - from_option (f t) 0 (m !! t) + f t st.
Proof.
  destruct (m !! t) as [old|] eqn:E; cbn [from_option]; [|rewrite msum_fresh by done; lia].
  rewrite <- (insert_delete_id m t old E) at 2. rewrite (msum_fresh f (delete t m)) by apply lookup_delete_eq.
  rewrite <- insert_delete_eq, (msum_fresh f (delete t m)) by apply lookup_delete_eq. lia.
Qed.

Lemma msum_lookup_le f m t st : (forall t st, m !! t = Some st -> 0 <= f t st) -> m !! t = Some st -> f t st <= msum f m.
Proof.
  intros H E. rewrite <- (insert_delete_id m t st E), msum_fresh by apply lookup_delete_eq. unfold msum.
  assert (0 <= sum ((fun e => f e.1 e.2) <$> map_to_list (delete t m))); [|lia].
  apply sum_nonneg, Forall_fmap, Forall_forall. intros [t' st'] Hin%elem_of_map_to_list. apply lookup_delete_Some in Hin as [_ Hin]. by apply H.
Qed.

(** ** Occurrences and postings

    A segment, as far as its lexical index is concerned, is the list of the terms of each of its
    objects: documents and passages. *)
Definition occurrences_in (t : bytes) (objects : list (list bytes)) : Z := zlen (filter (fun u => u = t) (concat objects)).
Definition postings_in (t : bytes) (objects : list (list bytes)) : Z := zlen (filter (fun o => t ∈ o) objects).

Definition stats (objects : list (list bytes)) : gmap bytes term_stats :=
  list_to_map ((fun t => (t, TermStats (occurrences_in t objects) (postings_in t objects) UINT64_MAX)) <$> remove_dups (concat objects)).

Lemma stats_lookup objects t :
  stats objects !! t = if decide (t ∈ concat objects) then Some (TermStats (occurrences_in t objects) (postings_in t objects) UINT64_MAX) else None.
Proof.
  unfold stats. case_decide as H.
  - apply elem_of_list_to_map.
    + rewrite <- list_fmap_compose. cbn. rewrite list_fmap_id. apply NoDup_remove_dups.
    + apply list_elem_of_fmap. exists t. by rewrite elem_of_remove_dups.
  - apply not_elem_of_list_to_map_1. rewrite <- list_fmap_compose. cbn. by rewrite list_fmap_id, elem_of_remove_dups.
Qed.

Lemma occurrences_in_app t a b : occurrences_in t (a ++ b) = occurrences_in t a + occurrences_in t b.
Proof. unfold occurrences_in. by rewrite concat_app, filter_app, zlen_app. Qed.
Lemma postings_in_app t a b : postings_in t (a ++ b) = postings_in t a + postings_in t b.
Proof. unfold postings_in. by rewrite filter_app, zlen_app. Qed.

Lemma occurrences_in_pos t objects : t ∈ concat objects <-> 1 <= occurrences_in t objects.
Proof.
  unfold occurrences_in. split.
  - intros H. assert (t ∈ filter (fun u => u = t) (concat objects)) as Hin by by apply list_elem_of_filter.
    destruct (filter _ _) as [|u l]; [by apply elem_of_nil in Hin|]. zl.
  - intros H. destruct (filter _ _) as [|u l] eqn:E; [done|]. assert (u ∈ filter (fun u => u = t) (concat objects)) as Hin by (rewrite E; by left).
    apply list_elem_of_filter in Hin as [-> Hin]. done.
Qed.

Lemma occurrences_in_zero t objects : t ∉ concat objects -> occurrences_in t objects = 0 /\ postings_in t objects = 0.
Proof.
  intros H. assert (~ 1 <= occurrences_in t objects) by by rewrite <- occurrences_in_pos. pose proof (zlen_nonneg (filter (fun u => u = t) (concat objects))).
  split; [unfold occurrences_in in *; lia|]. unfold postings_in. rewrite filter_none; [done|]. apply Forall_forall. intros o Ho Ht. apply H. apply list_elem_of_In, in_concat. exists o. by rewrite <- !list_elem_of_In.
Qed.

Lemma postings_in_bounds t objects : 0 <= postings_in t objects <= occurrences_in t objects.
Proof.
  split; [apply zlen_nonneg|]. unfold postings_in, occurrences_in. induction objects as [|o objects IH]; [done|]. cbn [concat]. rewrite filter_app, zlen_app, filter_cons.
  case_decide as H; [|pose proof (zlen_nonneg (filter (fun u => u = t) o)); lia]. assert (t ∈ filter (fun u => u = t) o) as Hin by by apply list_elem_of_filter.
  destruct (filter (fun u => u = t) o) as [|u l]; [by apply elem_of_nil in Hin|]. zl.
Qed.

(** ** Sizes *)
Definition term_cost (t : bytes) (_ : term_stats) : Z := 44 + zlen t.
Definition posting_cost (_ : bytes) (st : term_stats) : Z := 20 + 48 * ts_postings st + 16 * ((ts_postings st + 127) / 128).
Definition position_cost (_ : bytes) (st : term_stats) : Z := 16 + 8 * ts_occurrences st.

Definition stats_ok (bound : Z) (st : term_stats) : Prop := 1 <= ts_occurrences st < bound /\ 0 <= ts_postings st < bound.
Definition slot_ok (bound : Z) (s : TERM_SLOT) : Prop := term_ok (slot_term s) /\ stats_ok bound (stats_of_slot s).

(** One more term, and the counters after it. *)
Definition add_slot (m : gmap bytes term_stats) (s : TERM_SLOT) : gmap bytes term_stats :=
  let o := default fresh_stats (m !! slot_term s) in
  <[slot_term s := TermStats (ts_occurrences o + slot_occurrences s) (ts_postings o + slot_postings s) (ts_last o)]> m.

Fixpoint add_slots (l : list TERM_SLOT) (m : gmap bytes term_stats) (c : SIZER_COUNTS) : gmap bytes term_stats * SIZER_COUNTS :=
  match l with
  | [] => (m, c)
  | s :: l => add_slots l (add_slot m s) (add_term s (ts_postings <$> m !! slot_term s) c)
  end.

Lemma blocks_exact n : 0 <= n < 2 ^ 63 -> blocks n = (n + 127) / 128.
Proof. intros H. unfold blocks. change YAP_V2_POSTINGS_BLOCK_SIZE with 128. rewrite u64_small by lia. f_equal. lia. Qed.

(** The three payloads, modulo the width of a word. *)
Definition payloads_rep (m : gmap bytes term_stats) (c : SIZER_COUNTS) : Prop :=
  sz_term_payload c = u64 (12 + msum term_cost m) /\
  sz_posting_payload c = u64 (56 + msum posting_cost m) /\
  sz_position_payload c = u64 (12 + msum position_cost m).

Lemma u64_add_r a b : u64 (a + u64 b) = u64 (a + b).
Proof. unfold u64. by rewrite Zplus_mod_idemp_r. Qed.

Lemma add_term_rep m c s bound : bound <= 2 ^ 62 -> payloads_rep m c -> slot_ok bound s -> (forall st, m !! slot_term s = Some st -> stats_ok bound st) ->
  payloads_rep (add_slot m s) (add_term s (ts_postings <$> m !! slot_term s) c).
Proof.
  intros Hb (H1&H2&H3) [_ [Ho Hp]] Hm. cbn [stats_of_slot ts_occurrences ts_postings] in Ho, Hp. unfold payloads_rep, add_slot. rewrite !msum_insert.
  unfold add_term. rewrite H1, H2, H3. cbn [sz_term_payload sz_posting_payload sz_position_payload].
  rewrite (u64_add_l (u64 _ + _)), (u64_add_l (u64 _ + _)), <- !Z.add_assoc, !u64_add_l. unfold term_cost, posting_cost, position_cost.
  destruct (m !! slot_term s) as [old|] eqn:E; cbn [fmap option_fmap option_map default from_option Datatypes.id fresh_stats ts_occurrences ts_postings].
  - destruct (Hm old eq_refl) as [Ho' Hp']. rewrite (u64_small (ts_postings old + slot_postings s)), !blocks_exact by lia.
    assert ((ts_postings old + 127) / 128 <= (ts_postings old + slot_postings s + 127) / 128) by (apply Z.div_le_mono; lia).
    assert ((ts_postings old + slot_postings s + 127) / 128 < 2 ^ 63) by (apply Z.div_lt_upper_bound; lia). assert (0 <= (ts_postings old + 127) / 128) by (apply Z.div_pos; lia).
    rewrite (u64_small ((_ + _) / _ - _)) by lia. split_and!; f_equal; lia.
  - rewrite !Z.add_0_l. rewrite (u64_small (slot_postings s)), blocks_exact by lia.
    assert ((slot_postings s + 127) / 128 < 2 ^ 63) by (apply Z.div_lt_upper_bound; lia). assert (0 <= (slot_postings s + 127) / 128) by (apply Z.div_pos; lia).
    rewrite (u64_small ((_ + _) / _ - 0)) by lia. split_and!; f_equal; lia.
Qed.

Lemma add_slot_ne m s t : slot_term s <> t -> add_slot m s !! t = m !! t.
Proof. intros H. unfold add_slot. by rewrite lookup_insert_ne. Qed.

Lemma not_in_terms (s : TERM_SLOT) (l : list TERM_SLOT) t : slot_term s ∉ slot_term <$> l -> t ∈ slot_term <$> l -> slot_term s <> t.
Proof. by intros Hn Ht <-. Qed.

(** The counters depend only on what the map says about the terms of the list. *)
Lemma add_slots_counts l : forall m m' c, NoDup (slot_term <$> l) -> (forall t, t ∈ slot_term <$> l -> m !! t = m' !! t) ->
  (add_slots l m c).2 = (add_slots l m' c).2.
Proof.
  induction l as [|s l IH]; intros m m' c HN Hm; [done|]. rewrite fmap_cons in *. apply NoDup_cons in HN as [Hn HN]. cbn [add_slots].
  rewrite (Hm (slot_term s)) by by left. apply IH; [done|]. intros t Ht. rewrite !add_slot_ne by (by apply (not_in_terms s l)). apply Hm. by right.
Qed.

Lemma add_slots_rep bound l : bound <= 2 ^ 62 -> forall m c, NoDup (slot_term <$> l) -> Forall (slot_ok bound) l ->
  (forall t st, t ∈ slot_term <$> l -> m !! t = Some st -> stats_ok bound st) -> payloads_rep m c ->
  payloads_rep (add_slots l m c).1 (add_slots l m c).2.
Proof.
  intros Hb. induction l as [|s l IH]; intros m c HN HF Hm HR; [done|]. rewrite fmap_cons in *. apply NoDup_cons in HN as [Hn HN]. apply Forall_cons in HF as [Hs HF]. cbn [add_slots].
  apply IH; [done|done| |].
  - intros t st Ht. rewrite add_slot_ne by (by apply (not_in_terms s l)). apply Hm. by right.
  - apply (add_term_rep m c s bound); [done|done|done|]. intros st. apply Hm. by left.
Qed.

(** The map after the terms of a list. *)
Lemma add_slots_lookup l : forall m c t, NoDup (slot_term <$> l) ->
  (add_slots l m c).1 !! t = match list_find (fun s => slot_term s = t) l with
                            | Some (_, s) => let o := default fresh_stats (m !! t) in
                                Some (TermStats (ts_occurrences o + slot_occurrences s) (ts_postings o + slot_postings s) (ts_last o))
                            | None => m !! t
                            end.
Proof.
  induction l as [|s l IH]; intros m c t HN; [done|]. rewrite fmap_cons in HN. apply NoDup_cons in HN as [Hn HN]. cbn [add_slots list_find]. rewrite IH by done. case_decide as E.
  - subst t. destruct (list_find _ l) as [[i s']|] eqn:F.
    + apply list_find_Some in F as (Hi&Et&_). exfalso. apply Hn. rewrite <- Et. apply list_elem_of_fmap_2. by eapply list_elem_of_lookup_2.
    + unfold add_slot. by rewrite lookup_insert_eq.
  - rewrite !add_slot_ne by done. by destruct (list_find _ l) as [[i s']|].
Qed.

(** The rest of the counters is left alone. *)
Definition same_rest (c c' : SIZER_COUNTS) : Prop :=
  sz_documents c' = sz_documents c /\ sz_passages c' = sz_passages c /\ sz_tombstones c' = sz_tombstones c /\
  sz_document_payload c' = sz_document_payload c /\ sz_metadata_payload c' = sz_metadata_payload c /\
  sz_vector_id_bytes c' = sz_vector_id_bytes c /\ sz_tombstone_payload c' = sz_tombstone_payload c.

Lemma add_slots_rest l : forall m c, same_rest c (add_slots l m c).2.
Proof.
  induction l as [|s l IH]; intros m c; [done|]. cbn [add_slots]. destruct (IH (add_slot m s) (add_term s (ts_postings <$> m !! slot_term s) c)) as (?&?&?&?&?&?&?). by split_and!.
Qed.

(** ** The loops over a table *)
Section loops.
Context {A : Allocator}.

Lemma elem_at_index {X} (l : list X) i x : 0 <= i -> l !! Z.to_nat i = Some x -> elem_at l i = (Ok x : result X).
Proof. intros Hi Hl. by rewrite <- (Z2Nat.id i), (elem_at_lookup _ _ _ Hl). Qed.

Lemma used_slots_cons s l : used_slots (s :: l) = if slot_used s then s :: used_slots l else used_slots l.
Proof. unfold used_slots. rewrite filter_cons. destruct (slot_used s); [by rewrite decide_True|by rewrite decide_False]. Qed.

Lemma project_terms_spec sources : forall terms m c, map_rep terms m -> NoDup (slot_term <$> used_slots sources) ->
  project_terms sources terms c = Ok (add_slots (used_slots sources) m c).2.
Proof.
  induction sources as [|s sources IH]; intros terms m c HR HN; [done|]. cbn [project_terms]. rewrite used_slots_cons in *. destruct (slot_used s); [|by apply IH]. cbn [negb].
  destruct (term_map_find_spec terms m (slot_term s) HR) as (o&->&Ho). rewrite outcome_bind_ok. rewrite fmap_cons in HN. apply NoDup_cons in HN as [Hn HN]. cbn [add_slots].
  rewrite (IH _ m) by done. f_equal. rewrite (add_slots_counts _ m (add_slot m s)); [|done|intros t Ht; by rewrite add_slot_ne by (by apply (not_in_terms s (used_slots sources)))].
  f_equal. f_equal. f_equal. rewrite <- Ho. by destruct o.
Qed.

(** What the slot of a term says about it. *)
Lemma found_slot (m : gmap bytes term_stats) t target bound : stats_of_slot target = default fresh_stats (m !! t) -> (forall st, m !! t = Some st -> stats_ok bound st) -> 0 < bound ->
  (0 <= slot_occurrences target < bound /\ 0 <= slot_postings target < bound) /\
  (if (slot_occurrences target =? 0) && (slot_postings target =? 0) then None else Some (slot_postings target)) = ts_postings <$> m !! t.
Proof.
  intros E Hm Hb. destruct (m !! t) as [st|] eqn:F; cbn in E.
  - destruct (Hm st eq_refl) as [H1 H2]. rewrite <- E in *. cbn in H1, H2 |- *. rewrite (proj2 (Z.eqb_neq (slot_occurrences target) 0)) by lia. split; [lia|done].
  - destruct target. unfold stats_of_slot in E. cbn in E. injection E as -> -> _. cbn. split; [lia|done].
Qed.

Lemma add_terms_spec bound sources : bound <= 2 ^ 62 -> forall sizer m, map_rep (sz_terms sizer) m -> NoDup (slot_term <$> used_slots sources) -> Forall (slot_ok bound) (used_slots sources) ->
  (forall t st, t ∈ slot_term <$> used_slots sources -> m !! t = Some st -> stats_ok bound st) ->
  match add_terms sources sizer with
  | Ok sizer' => map_rep (sz_terms sizer') (add_slots (used_slots sources) m (sz_counts sizer)).1 /\
      sz_counts sizer' = (add_slots (used_slots sources) m (sz_counts sizer)).2
  | Err _ => True
  | Fault => False
  end.
Proof.
  intros Hb. induction sources as [|s sources IH]; intros sizer m HR HN HF Hm; [done|]. cbn [add_terms]. rewrite used_slots_cons in *. destruct (slot_used s); [|by apply IH]. cbn [negb].
  rewrite fmap_cons in *. apply NoDup_cons in HN as [Hn HN]. apply Forall_cons in HF as [[Ht Hs] HF]. cbn [add_slots].
  pose proof (term_map_slot_spec (sz_terms sizer) m (slot_term s) HR Ht) as HS. destruct (term_map_slot _ _) as [[terms i]|e|]; cbn [mbind outcome_bind]; [|done|done].
  destruct HS as [HR' Hat]. pose proof Hat as (Hi&target&Hl&Hu&Et&Est). rewrite (elem_at_index _ i target Hi Hl), outcome_bind_ok.
  destruct (found_slot m (slot_term s) target bound Est (fun st => Hm _ st ltac:(by left)) ltac:(destruct Hs; lia)) as ([Hto Htp]&Hold).
  set (target' := TermSlot _ _ _ _ _). pose proof (update_slot_spec terms _ _ i _ target' HR' Hat Hu Et) as HU. rewrite insert_insert_eq in HU.
  assert (stats_of_slot target' = TermStats (ts_occurrences (default fresh_stats (m !! slot_term s)) + slot_occurrences s)
    (ts_postings (default fresh_stats (m !! slot_term s)) + slot_postings s) (ts_last (default fresh_stats (m !! slot_term s)))) as E'.
  { rewrite <- Est. unfold stats_of_slot, target'. cbn. destruct Hs as [Ho Hp]. cbn in Ho, Hp.
    rewrite !u64_small by lia. done. }
  rewrite E' in HU. change (<[slot_term s := _]> m) with (add_slot m s) in HU.
  rewrite Hold. apply (IH (Sizer _ _)); [done|done|done|]. intros t st Hin. rewrite add_slot_ne by (by apply (not_in_terms s (used_slots sources))). apply Hm. by right.
Qed.

(** ** Counting the occurrences of a unit *)
Definition object_key (o : YAP_V2_LEXICAL_OCCURRENCE) : Z :=
  if occ_object_type o =? YAP_V2_LEXICAL_DOCUMENT then 0 else u64 (occ_object_ordinal o + 1).

Definition tally (m : gmap bytes term_stats) (o : YAP_V2_LEXICAL_OCCURRENCE) : gmap bytes term_stats :=
  let st := default fresh_stats (m !! occ_term o) in
  <[occ_term o := TermStats (ts_occurrences st + 1) (if ts_last st =? object_key o then ts_postings st else ts_postings st + 1) (object_key o)]> m.

Definition tallied (n : Z) (m : gmap bytes term_stats) : Prop :=
  forall t st, m !! t = Some st -> 0 <= ts_occurrences st <= n /\ 0 <= ts_postings st <= n.

Lemma tally_tallied n m o : 0 <= n -> tallied n m -> tallied (n + 1) (tally m o).
Proof.
  intros Hn H t st. unfold tally. destruct (decide (occ_term o = t)) as [<-|N].
  - rewrite lookup_insert_eq. intros [= <-]. cbn [ts_occurrences ts_postings]. destruct (m !! occ_term o) as [st|] eqn:E; cbn [default from_option Datatypes.id].
    + destruct (H _ st E). destruct (_ =? _); lia.
    + cbn. destruct (_ =? _); lia.
  - rewrite lookup_insert_ne by done. intros E. destruct (H t st E). lia.
Qed.

Lemma count_occurrence_spec terms m o n : map_rep terms m -> term_ok (occ_term o) -> tallied n m -> 0 <= n -> n + 1 < 2 ^ 64 ->
  match count_occurrence terms o with Ok terms' => map_rep terms' (tally m o) | Err _ => True | Fault => False end.
Proof.
  intros HR Ht Hn H0 Hb. unfold count_occurrence. cbv zeta. fold (object_key o).
  pose proof (term_map_slot_spec terms m (occ_term o) HR Ht) as HS. destruct (term_map_slot _ _) as [[terms' i]|e|]; cbn [mbind outcome_bind]; [|done|done].
  destruct HS as [HR' Hat]. pose proof Hat as (Hi&target&Hl&Hu&Et&Est). rewrite (elem_at_index _ i target Hi Hl), outcome_bind_ok.
  match goal with |- context [<[_ := ?x]> _] => set (target' := x) end. assert (slot_used target' = true /\ slot_term target' = occ_term o) as [Hu' Et'] by (unfold target'; destruct (_ =? _); done).
  pose proof (update_slot_spec terms' _ _ i _ target' HR' Hat Hu' Et') as HU. rewrite insert_insert_eq in HU.
  assert (stats_of_slot target' = TermStats (ts_occurrences (default fresh_stats (m !! occ_term o)) + 1)
    (if ts_last (default fresh_stats (m !! occ_term o)) =? object_key o then ts_postings (default fresh_stats (m !! occ_term o)) else ts_postings (default fresh_stats (m !! occ_term o)) + 1) (object_key o)) as E.
  { assert (0 <= ts_occurrences (stats_of_slot target) <= n /\ 0 <= ts_postings (stats_of_slot target) <= n) as [Ho Hp].
    { rewrite Est. destruct (m !! occ_term o) as [st|] eqn:F; [by apply (Hn _ st F)|cbn; lia]. }
    rewrite <- Est. unfold target'. cbn [stats_of_slot last_object slot_occurrences slot_postings ts_occurrences ts_postings ts_last] in *.
    destruct (Z.eqb_spec (last_object target) (object_key o)) as [<-|]; unfold stats_of_slot; cbn; rewrite !u64_small by lia; done. }
  by rewrite E in HU.
Qed.

Lemma count_occurrences_spec items : forall terms m n, map_rep terms m -> Forall (fun o => term_ok (occ_term o)) items -> tallied n m -> 0 <= n -> n + zlen items < 2 ^ 64 ->
  match count_occurrences items terms with Ok terms' => map_rep terms' (foldl tally m items) | Err _ => True | Fault => False end.
Proof.
  induction items as [|o items IH]; intros terms m n HR HF Hn H0 Hb; [done|]. rewrite zlen_cons in Hb. pose proof (zlen_nonneg items). apply Forall_cons in HF as [Ho HF].
  cbn [count_occurrences foldl]. pose proof (count_occurrence_spec terms m o n HR Ho Hn H0 ltac:(lia)) as HS. destruct (count_occurrence terms o) as [terms'|e|]; cbn [mbind outcome_bind]; [|done|done].
  apply (IH _ _ (n + 1)); [done|done|by apply tally_tallied|lia|lia].
Qed.
End loops.

Definition occurrences_of (t : bytes) (items : list YAP_V2_LEXICAL_OCCURRENCE) : Z := zlen (filter (fun u => u = t) (occ_term <$> items)).

(** The occurrences of one object. *)
Lemma tally_object k items : Forall (fun o => object_key o = k) items -> forall m t,
  foldl tally m items !! t =
    if decide (t ∈ occ_term <$> items) then
      let st := default fresh_stats (m !! t) in
      Some (TermStats (ts_occurrences st + occurrences_of t items) (if ts_last st =? k then ts_postings st else ts_postings st + 1) k)
    else m !! t.
Proof.
  induction 1 as [|o items Hk _ IH]; intros m t; [done|]. cbn [foldl]. rewrite IH. rewrite fmap_cons. unfold occurrences_of. rewrite fmap_cons, filter_cons.
  unfold tally. rewrite Hk. destruct (decide (occ_term o = t)) as [<-|N].
  - rewrite lookup_insert_eq, zlen_cons. cbn [default from_option Datatypes.id ts_last ts_occurrences ts_postings]. rewrite Z.eqb_refl.
    rewrite (decide_True (P := occ_term o ∈ occ_term o :: _)) by by left. case_decide as D; [f_equal; f_equal; lia|].
    rewrite filter_none; [cbn; f_equal; f_equal; lia|]. apply Forall_forall. intros u Hu ->. done.
  - rewrite lookup_insert_ne by done. case_decide as D.
    + by rewrite decide_True by by right.
    + rewrite decide_False; [done|]. intros [E|?]%elem_of_cons; [by symmetry in E|done].
Qed.

(** The table counts [objects], the last of which has one of the keys. *)
Definition counts (m : gmap bytes term_stats) (objects : list (list bytes)) (keys : list Z) : Prop :=
  forall t, match m !! t with
            | Some st => t ∈ concat objects /\ ts_occurrences st = occurrences_in t objects /\ ts_postings st = postings_in t objects /\ ts_last st ∈ keys
            | None => t ∉ concat objects
            end.

Lemma counts_object m objects keys k items : counts m objects keys -> Forall (fun o => object_key o = k) items -> k ∉ keys -> k <> UINT64_MAX ->
  counts (foldl tally m items) (objects ++ [occ_term <$> items]) (k :: keys).
Proof.
  intros HC Hk Hn Hmax t. specialize (HC t). rewrite (tally_object k items Hk). rewrite concat_app. cbn [concat]. rewrite app_nil_r, occurrences_in_app, postings_in_app.
  assert (occurrences_in t [occ_term <$> items] = occurrences_of t items) as -> by (unfold occurrences_in, occurrences_of; cbn [concat]; by rewrite app_nil_r).
  unfold postings_in at 2. rewrite filter_cons. case_decide as D.
  - cbn [ts_occurrences ts_postings ts_last]. rewrite filter_nil. split_and!; [apply elem_of_app; by right| | |by left].
    + destruct (m !! t) as [st|]; cbn; [lia|]. destruct (occurrences_in_zero t objects HC). lia.
    + destruct (m !! t) as [st|]; cbn [default from_option Datatypes.id].
      * destruct HC as (_&_&Hp&Hl). rewrite (proj2 (Z.eqb_neq _ k)) by (intros <-; done). rewrite Hp. zl.
      * destruct (occurrences_in_zero t objects HC) as [_ ->]. cbn. rewrite (proj2 (Z.eqb_neq UINT64_MAX k)) by done. done.
  - rewrite filter_nil. destruct (m !! t) as [st|].
    + destruct HC as (H1&H2&H3&H4). split_and!; [apply elem_of_app; by left| |rewrite zlen_nil; lia|by right].
      assert (occurrences_of t items = 0) as ->; [|lia]. unfold occurrences_of. rewrite filter_none; [done|]. apply Forall_forall. intros u Hu ->. done.
    + rewrite elem_of_app. tauto.
Qed.

(** A table of terms that counts [objects]. *)
Definition table_counts (map : TERM_MAP) (objects : list (list bytes)) : Prop := exists m keys, map_rep map m /\ counts m objects keys.

Section merged.
Context (map : TERM_MAP) (objects' : list (list bytes)) (H : table_counts map objects').
Abbreviation sources := (used_slots (tm_slots map)).

Lemma sources_distinct : NoDup (slot_term <$> sources).
Proof using H. destruct H as (m&keys&HR&_). apply (map_rep_used map m HR). Qed.

(** The slots are the terms with their counts. *)
Lemma sources_counts s : s ∈ sources -> term_ok (slot_term s) /\ slot_term s ∈ concat objects' /\
  slot_occurrences s = occurrences_in (slot_term s) objects' /\ slot_postings s = postings_in (slot_term s) objects'.
Proof using H.
  intros Hs. destruct H as (m&keys&HR&HC). destruct (map_rep_used map m HR) as (_&_&Ht&Hc). split; [by apply Ht|].
  specialize (HC (slot_term s)). rewrite (proj2 (Hc (slot_term s) (stats_of_slot s))) in HC by eauto. by destruct HC as (?&?&?&_).
Qed.

Lemma sources_complete t : t ∈ concat objects' -> exists s, s ∈ sources /\ slot_term s = t.
Proof using H.
  intros Ht. destruct H as (m&keys&HR&HC). destruct (map_rep_used map m HR) as (_&_&_&Hc). specialize (HC t). destruct (m !! t) as [st|] eqn:E; [|done].
  apply Hc in E as (s&?&?&_). eauto.
Qed.

(** Adding them to the counts of a slice gives the counts of the longer slice. *)
Lemma add_slots_stats objects c : (add_slots sources (stats objects) c).1 = stats (objects ++ objects').
Proof using H.
  apply map_eq. intros t. rewrite add_slots_lookup by apply sources_distinct. rewrite !stats_lookup, concat_app, occurrences_in_app, postings_in_app.
  destruct (list_find _ sources) as [[i s]|] eqn:F.
  - apply list_find_Some in F as (Hi&<-&_). apply list_elem_of_lookup_2 in Hi. destruct (sources_counts s Hi) as (_&Hin&->&->).
    rewrite (decide_True (P := _ ∈ _ ++ _)) by (apply elem_of_app; by right). case_decide as D; [done|]. destruct (occurrences_in_zero _ _ D) as [-> ->]. done.
  - assert (t ∉ concat objects') as Hn.
    { intros Ht. destruct (sources_complete t Ht) as (s&Hs&Et). apply list_find_None in F. by apply (proj1 (Forall_forall _ _) F s Hs). }
    destruct (occurrences_in_zero _ _ Hn) as [-> ->]. rewrite !Z.add_0_r. case_decide as D.
    + by rewrite decide_True by (apply elem_of_app; by left).
    + rewrite decide_False; [done|]. rewrite elem_of_app. tauto.
Qed.
End merged.

(** ** The cost of a longer slice *)
Record cost (f : bytes -> term_stats -> Z) : Prop := {
  cost_nonneg t st : 1 <= ts_occurrences st -> 0 <= ts_postings st -> 0 <= f t st;
  cost_last t a b x y : f t (TermStats a b x) = f t (TermStats a b y);
  cost_add t a b a' b' x : 0 <= b -> 0 <= b' -> f t (TermStats (a + a') (b + b') x) <= f t (TermStats a b x) + f t (TermStats a' b' x) }.

Lemma term_cost_ok : cost term_cost.
Proof. split; [|done|]; intros; unfold term_cost; pose proof (zlen_nonneg t); lia. Qed.
Lemma position_cost_ok : cost position_cost.
Proof. split; [|done|]; intros; unfold position_cost; cbn; lia. Qed.
Lemma posting_cost_ok : cost posting_cost.
Proof.
  split; [|done|]; intros; unfold posting_cost; cbn.
  - pose proof (Z.div_pos (ts_postings st + 127) 128 ltac:(lia) ltac:(lia)). lia.
  - assert ((b + b' + 127) / 128 <= (b + 127) / 128 + (b' + 127) / 128); [|lia].
    pose proof (Z.div_mod (b + 127) 128 ltac:(lia)). pose proof (Z.mod_pos_bound (b + 127) 128 ltac:(lia)). pose proof (Z.div_mod (b' + 127) 128 ltac:(lia)). pose proof (Z.mod_pos_bound (b' + 127) 128 ltac:(lia)).
    pose proof (Z.div_mod (b + b' + 127) 128 ltac:(lia)). pose proof (Z.mod_pos_bound (b + b' + 127) 128 ltac:(lia)). lia.
Qed.

Section costs.
Context (f : bytes -> term_stats -> Z) (Hf : cost f).

Definition slots_cost (l : list TERM_SLOT) : Z := sum ((fun s => f (slot_term s) (stats_of_slot s)) <$> l).

Lemma cost_slot t s x : slot_term s = t -> f t (TermStats (slot_occurrences s) (slot_postings s) x) = f (slot_term s) (stats_of_slot s).
Proof using Hf. intros <-. apply (cost_last f Hf). Qed.

Lemma add_slots_fresh l : forall m c, NoDup (slot_term <$> l) -> (forall t, t ∈ slot_term <$> l -> m !! t = None) ->
  msum f (add_slots l m c).1 = msum f m + slots_cost l.
Proof using Hf.
  unfold slots_cost. induction l as [|s l IH]; intros m c HN Hm; [cbn; lia|]. rewrite fmap_cons in *. apply NoDup_cons in HN as [Hn HN]. cbn [add_slots]. rewrite IH, sum_cons; [|done|].
  - unfold add_slot. rewrite (Hm (slot_term s)) by by left. cbn [default from_option fresh_stats ts_occurrences ts_postings ts_last]. rewrite msum_fresh by (apply Hm; by left). rewrite !Z.add_0_l, cost_slot by done. lia.
  - intros t Ht. rewrite add_slot_ne by (by apply (not_in_terms s l)). apply Hm. by right.
Qed.

Lemma add_slots_le l : forall m c, NoDup (slot_term <$> l) -> Forall (fun s => 0 <= slot_postings s) l -> (forall t st, m !! t = Some st -> 0 <= ts_postings st) ->
  msum f (add_slots l m c).1 <= msum f m + slots_cost l.
Proof using Hf.
  unfold slots_cost. induction l as [|s l IH]; intros m c HN HF Hm; [cbn; lia|]. rewrite fmap_cons in *. apply NoDup_cons in HN as [Hn HN]. apply Forall_cons in HF as [Hs HF]. cbn [add_slots]. rewrite sum_cons.
  etransitivity; [apply IH; [done|done|]|].
  - intros t st. unfold add_slot. destruct (decide (slot_term s = t)) as [<-|N]; [|rewrite lookup_insert_ne by done; apply Hm].
    rewrite lookup_insert_eq. intros [= <-]. cbn. destruct (m !! slot_term s) as [o|] eqn:E; cbn; [specialize (Hm _ _ E)|]; lia.
  - unfold add_slot. rewrite msum_insert. destruct (m !! slot_term s) as [o|] eqn:E; cbn [default from_option fresh_stats Datatypes.id ts_occurrences ts_postings ts_last].
    + specialize (Hm _ _ E). pose proof (cost_add f Hf (slot_term s) (ts_occurrences o) (ts_postings o) (slot_occurrences s) (slot_postings s) (ts_last o) Hm Hs) as HA.
      rewrite cost_slot in HA by done. replace (TermStats (ts_occurrences o) (ts_postings o) (ts_last o)) with o in HA by by destruct o. lia.
    + rewrite !Z.add_0_l, cost_slot by done. lia.
Qed.
End costs.

Lemma stats_nil : stats [] = ∅.
Proof. done. Qed.

Lemma stats_lookup_ok objects t st : stats objects !! t = Some st -> 1 <= ts_occurrences st /\ 0 <= ts_postings st <= ts_occurrences st.
Proof.
  rewrite stats_lookup. case_decide as D; [|done]. intros [= <-]. cbn. apply occurrences_in_pos in D. pose proof (postings_in_bounds t objects). lia.
Qed.

(** The terms of [objects'] cost at most as much in a longer slice as on their own. *)
Lemma msum_stats_app f map objects objects' : cost f -> table_counts map objects' ->
  msum f (stats (objects ++ objects')) <= msum f (stats objects) + msum f (stats objects').
Proof.
  intros Hf HT. pose proof (add_slots_stats map objects' HT objects (SizerCounts 0 0 0 0 0 0 0 0 0 0)) as E1. pose proof (add_slots_stats map objects' HT [] (SizerCounts 0 0 0 0 0 0 0 0 0 0)) as E2.
  pose proof (sources_distinct map objects' HT) as HN. cbn [app] in E2. rewrite <- E1, <- E2, stats_nil. rewrite (add_slots_fresh f Hf _ ∅) by done.
  rewrite msum_empty, Z.add_0_l. apply (add_slots_le f Hf); [done| |].
  - apply Forall_forall. intros s Hs. destruct (sources_counts map objects' HT s Hs) as (_&_&_&->). apply postings_in_bounds.
  - intros t st Hst%stats_lookup_ok. lia.
Qed.
