(* ===== verification/SizerSpec.v ===== *)
(** The sizes that the segment planner computes are the lengths of the files that the writers
    produce (src/src/indexing/yappo_segment_planner_v2.c against yappo_segment_v2.c,
    yappo_lexical_v2.c, yappo_metadata_v2.c and yappo_vector_v2.c). *)
From Stdlib Require Import String.
From S2P Require Import Prelude Words Types SlotTable EntryTable Manifest FileSystem Reader Buffer Segment CString Config Lexical Planner TermMap Tokens LexicalWriter LexicalIndex LexicalRoundtrip Json Vectors Metadata MetadataFiles Sizer TermStats.
#[local] Open Scope Z_scope.

(** ** Units *)
Section units.
Context {T : Tokenizer} {J : Yyjson}.

(** The terms of every document and passage. *)
Definition document_terms (d : YAP_V2_DOCUMENT_VIEW) : list bytes := occ_term <$> document_occurrences 0 d.
Definition passage_terms (p : YAP_V2_PASSAGE_VIEW) : list bytes := occ_term <$> passage_occurrences 0 p.

Definition unit_objects (u : YAP_V2_SEGMENT_UNIT) : list (list bytes) :=
  match unit_document u with Some d => document_terms d :: (passage_terms <$> unit_passages u) | None => [] end.
Definition objects_of (us : list YAP_V2_SEGMENT_UNIT) : list (list bytes) := concat (unit_objects <$> us).

(** What a unit adds to the files. *)
Definition document_part (u : YAP_V2_SEGMENT_UNIT) : Z :=
  match unit_document u with
  | Some d => zlen (document_record d) + sum ((fun p => zlen (passage_record p)) <$> unit_passages u)
  | None => 0
  end.
Definition metadata_part (c : YAP_V2_CONFIG) (u : YAP_V2_SEGMENT_UNIT) : Z :=
  match unit_document u ≫= document_root with Some root => zlen (entries_image (names_entries (field_names c) 0 0 root)) | None => 0 end.
Definition tombstone_part (u : YAP_V2_SEGMENT_UNIT) : Z :=
  match unit_document u with Some _ => 0 | None => zlen (view_image (view_bytes (unit_tombstone u))) end.
Definition ids_part (u : YAP_V2_SEGMENT_UNIT) : Z :=
  match unit_document u with Some _ => sum ((fun p => zlen (view_bytes (passage_id p))) <$> unit_passages u) | None => 0 end.
Definition documents_part (u : YAP_V2_SEGMENT_UNIT) : Z := match unit_document u with Some _ => 1 | None => 0 end.
Definition passages_part (u : YAP_V2_SEGMENT_UNIT) : Z := match unit_document u with Some _ => zlen (unit_passages u) | None => 0 end.
Definition tombstones_part (u : YAP_V2_SEGMENT_UNIT) : Z := match unit_document u with Some _ => 0 | None => 1 end.

Definition total_of (f : YAP_V2_SEGMENT_UNIT -> Z) (us : list YAP_V2_SEGMENT_UNIT) : Z := sum (f <$> us).

Lemma total_snoc f us u : total_of f (us ++ [u]) = total_of f us + f u.
Proof. unfold total_of. rewrite fmap_app, sum_app. cbn. lia. Qed.

(** Valid documents, passages and tombstones, with as many vectors as the configuration asks for. *)
Definition unit_ok (c : YAP_V2_CONFIG) (u : YAP_V2_SEGMENT_UNIT) : Prop :=
  match unit_document u with
  | Some d => doc_ok d /\ Forall pass_ok (unit_passages u) /\
      (vector_metric c <> YAP_V2_VECTOR_DISABLED -> zlen (default [] (unit_vectors u)) = zlen (unit_passages u) * vector_dimensions c)
  | None => view_ok (unit_tombstone u)
  end.

(** What [prepare_unit] computes. *)
Definition unit_rep (c : YAP_V2_CONFIG) (u : YAP_V2_SEGMENT_UNIT) (s : UNIT_SIZE) : Prop :=
  match unit_document u with
  | None => s = unit_size_zero
  | Some d => table_counts (us_terms s) (unit_objects u) /\ us_document_bytes s + us_passage_bytes s = document_part u /\
      us_metadata_bytes s = metadata_part c u /\ us_passage_count s = zlen (unit_passages u) /\ us_vector_id_bytes s = ids_part u
  end.

Definition prepared_rep (u : YAP_V2_SEGMENT_UNIT) (p : PREPARED_UNIT) : Prop :=
  match unit_document u with
  | None => p = prepared_unit_zero
  | Some d => unit_prepared d (unit_passages u) (pu_lexical p) /\
      exists root, document_root d = Some root /\ yyjson_is_obj root = true /\ pu_metadata_document p = Some root
  end.

(** ** Checked sums *)
Definition adds (n k : Z) (r : result Z) : Prop := match r with Ok m => m = n + k | Err _ => True | Fault => False end.

Lemma checked_add_adds n k : adds n k (checked_add n k).
Proof. unfold checked_add. by destruct (_ <? _). Qed.

Lemma view_size_adds v n : view_ok v -> adds n (zlen (view_image (view_bytes v))) (bytes_view_size v n).
Proof.
  intros [_ E]. unfold bytes_view_size. destruct (_ <? _); [done|]. rewrite zlen_view_image, <- E. apply checked_add_adds.
Qed.

Lemma adds_bind {B} n k r (f : Z -> result B) (P : B -> Prop) : adds n k r ->
  match f (n + k) with Ok b => P b | Err _ => True | Fault => False end ->
  match r ≫= f with Ok b => P b | Err _ => True | Fault => False end.
Proof. destruct r as [m|e|]; cbn; [by intros ->|done|done]. Qed.

Lemma adds_seq n k k' r (f : Z -> result Z) : adds n k r -> adds (n + k) k' (f (n + k)) -> adds n (k + k') (r ≫= f).
Proof. intros H H'. apply (adds_bind n k r f (fun m => m = n + (k + k')) H). unfold adds in H'. destruct (f (n + k)); [lia|done|done]. Qed.

Lemma zlen_one_entry e : zlen (entries_image [e]) = 20 + zlen (view_bytes (entry_value e)).
Proof.
  unfold entries_image. cbn [fmap list_fmap concat]. rewrite app_nil_r. unfold entry_image. rewrite !zlen_app, zlen_view_image, !zlen_put_u32_le, zlen_put_u64_le. lia.
Qed.

Lemma scalar_size_adds f d v n : adds n (zlen (entries_image (option_list (scalar_entry f d v)))) (scalar_size v n).
Proof.
  unfold scalar_entry. pose proof (scalar_text_spec v) as HS.
  assert (scalar_size v n = match scalar_text v with Ok (Some (_, _, m)) => checked_add n (20 + m) | Ok None => Ok n | Err e => Err e | Fault => Fault end) as ->.
  { unfold scalar_size, scalar_text, number_text. rewrite is_num_kinds. cbv zeta. destruct (yyjson_is_null v); [done|]. destruct (yyjson_is_bool v); [done|].
    destruct (yyjson_is_sint v); cbn [orb]; [rewrite andb_true_r; by destruct (_ <=? _)|]. destruct (yyjson_is_uint v); cbn [orb]; [rewrite andb_true_r; by destruct (_ <=? _)|].
    destruct (yyjson_is_real v); cbn [orb]; [rewrite andb_true_r; by destruct (_ <=? _)|]. rewrite andb_false_r. by destruct (yyjson_is_str v). }
  destruct (scalar_text v) as [[[[type t] m]|]|e|]; [|change (n = n + 0); lia|done|done]. destruct HS as (_&->&_). pose proof (checked_add_adds n (20 + zlen (default [] t))) as HA.
  pose proof (zlen_one_entry (MetadataEntry f d type (mk_view (default [] t)))) as E. cbn [entry_value] in E. rewrite view_bytes_mk in E. rewrite <- E in HA at 1. exact HA.
Qed.

Lemma scalars_size_adds f d vs : forall n, adds n (zlen (entries_image (omap (scalar_entry f d) vs))) (scalars_size vs n).
Proof.
  induction vs as [|v vs IH]; intros n; cbn [scalars_size]; [change (n = n + 0); lia|].
  assert (omap (scalar_entry f d) (v :: vs) = option_list (scalar_entry f d v) ++ omap (scalar_entry f d) vs) as -> by (cbn; by destruct (scalar_entry f d v)).
  rewrite entries_image_app, zlen_app. by apply adds_seq; [apply scalar_size_adds|].
Qed.

Lemma value_size_adds f d v n : adds n (zlen (entries_image (omap (scalar_entry f d) (values_of v)))) (value_size v n).
Proof.
  unfold value_size, values_of. destruct (yyjson_is_arr v); cbn [negb]; [apply scalars_size_adds|]. pose proof (scalar_size_adds f d v n) as H. cbn. by destruct (scalar_entry f d v).
Qed.

Lemma zlen_record type bs : zlen (record_image type bs) = 8 + zlen bs.
Proof. unfold record_image. rewrite !zlen_app, !zlen_put_u32_le. lia. Qed.

Lemma zlen_document_record d : zlen (document_record d) = 8 + 8 + zlen (view_image (view_bytes (doc_id d))) + zlen (view_image (view_bytes (url d))) +
  zlen (view_image (view_bytes (title d))) + zlen (view_image (view_bytes (body d))) + zlen (view_image (view_bytes (metadata_json d))).
Proof. unfold document_record. rewrite zlen_record. unfold document_image. rewrite !zlen_app, zlen_put_u64_le. lia. Qed.

Lemma zlen_passage_record p : zlen (passage_record p) = 8 + 12 + zlen (view_image (view_bytes (passage_id p))) +
  zlen (view_image (view_bytes (parent_document_id p))) + zlen (view_image (view_bytes (Types.text p))).
Proof. unfold passage_record. rewrite zlen_record. unfold passage_image. rewrite !zlen_app, !zlen_put_u32_le. lia. Qed.

Section prepare.
Context (c : YAP_V2_CONFIG) (Hw : config_wf c) (Hv : config_valid c).

Lemma fields_size_adds d root n : forall (i : nat) k, (i + n)%nat = length (field_names c) ->
  adds k (zlen (entries_image (names_entries (drop i (field_names c)) (Z.of_nat i) d root))) (fields_size n (filterable_fields c) (Z.of_nat i) root k).
Proof using Hw Hv.
  induction n as [|n IH]; intros i k Hi; cbn [fields_size].
  { rewrite drop_ge by lia. change (k = k + 0). lia. }
  destruct (names_step c i n Hi) as (name&Hn&->). destruct (field_at_index c Hw Hv i name Hn) as (field&->&H0&E&_).
  rewrite outcome_bind_ok, path_value_spec, outcome_bind_ok, E by done. cbn [names_entries]. rewrite entries_image_app, zlen_app. replace (Z.of_nat i + 1) with (Z.of_nat (S i)) by lia.
  apply adds_seq; [|apply IH; lia]. unfold field_entries, value_at. destruct (path_value_from _ _ _); [by apply value_size_adds|change (k = k + 0); lia].
Qed.

Lemma names_size_spec n : forall (i : nat) k, (i + n)%nat = length (field_names c) -> k + zlen (names_image (drop i (field_names c))) < 2 ^ 64 -> 0 <= k ->
  names_size n (filterable_fields c) (Z.of_nat i) k = Ok (k + zlen (names_image (drop i (field_names c)))).
Proof using Hw Hv.
  induction n as [|n IH]; intros i k Hi Hb Hk; cbn [names_size].
  { rewrite drop_ge by lia. f_equal. change (k = k + 0). lia. }
  destruct (names_step c i n Hi) as (name&Hn&E). rewrite E in *. destruct (field_at_index c Hw Hv i name Hn) as (field&->&_&_&Hh&Hz&_).
  rewrite outcome_bind_ok, (strlen_spec _ _ Hh), outcome_bind_ok. unfold names_image in *. cbn [fmap list_fmap concat] in *. rewrite zlen_app, zlen_view_image in *. pose proof (zlen_nonneg name).
  replace (Z.of_nat i + 1) with (Z.of_nat (S i)) by lia. pose proof (zlen_nonneg (concat (view_image <$> drop (S i) (field_names c)))). unfold fmap in *.
  rewrite u64_small by lia. rewrite IH by lia. f_equal. lia.
Qed.

Lemma names_image_small l : Forall (fun name => zlen name <= 127) l -> zlen (names_image l) <= 131 * zlen l.
Proof.
  unfold names_image. induction 1 as [|name l Hn _ IH]; [done|]. cbn [fmap list_fmap concat]. rewrite zlen_app, zlen_view_image, zlen_cons. unfold fmap in *. lia.
Qed.

Lemma metadata_base_spec : metadata_base c = Ok (24 + zlen (names_image (field_names c))) /\ zlen (names_image (field_names c)) <= 2 ^ 14.
Proof using Hw Hv.
  pose proof (zlen_field_names c Hw Hv) as Hz. pose proof (field_count_range c Hw Hv).
  assert (Forall (fun name => zlen name <= 127) (field_names c)) as HF.
  { apply Forall_lookup. intros i name Hn. by destruct (field_at_index c Hw Hv i name Hn) as (_&_&_&_&_&?&_). }
  apply names_image_small in HF. split; [|lia]. unfold metadata_base.
  pose proof (names_size_spec (Z.to_nat (filterable_field_count c)) 0 24) as HS. rewrite drop_0 in HS. apply HS; [unfold zlen in Hz; lia|lia|lia].
Qed.

Lemma passages_size_spec ps : Forall pass_ok ps -> forall n k,
  match passages_size ps (n, k) with
  | Ok s => s = (n + sum ((fun p => zlen (passage_record p)) <$> ps), k + sum ((fun p => zlen (view_bytes (passage_id p))) <$> ps))
  | Err _ => True
  | Fault => False
  end.
Proof.
  induction 1 as [|p ps Hp _ IH]; intros n k; cbn [passages_size]; [cbn; f_equal; lia|].
  assert (view_ok (Types.text p)) as Ht by (destruct Hp as [(_&_&?&_) (_&_&?&_)]; by eapply text_ok_view).
  eapply adds_bind; [apply view_size_adds, pass_ok_id; done|]. eapply adds_bind; [apply view_size_adds, pass_ok_parent; done|]. eapply adds_bind; [by apply view_size_adds|].
  eapply adds_bind; [apply checked_add_adds|]. eapply adds_bind; [apply checked_add_adds|]. cbv beta.
  match goal with |- match passages_size ps (?a, ?b) with _ => _ end => specialize (IH a b); destruct (passages_size ps (a, b)) as [s|e|]; [|done|done] end. rewrite IH.
  rewrite !fmap_cons, !sum_cons, zlen_passage_record. destruct (pass_ok_id p Hp) as [_ ->]. f_equal; lia.
Qed.

(** The terms of a text do not depend on the object. *)
Lemma text_terms v type ord f : occ_term <$> text_occurrences v type ord f = token_bytes (text_tokens v) <$> tokens (text_tokens v).
Proof.
  unfold text_occurrences. cbv zeta. generalize 0. generalize (zlen (tokens (text_tokens v))). generalize (tokens (text_tokens v)). intros ts n. induction ts as [|t ts IH]; intros k; [done|].
  cbn [token_occurrences]. rewrite !fmap_cons, IH. done.
Qed.
Lemma document_terms_eq i d : occ_term <$> document_occurrences i d = document_terms d.
Proof. unfold document_terms, document_occurrences. by rewrite !fmap_app, !text_terms. Qed.
Lemma passage_terms_eq i p : occ_term <$> passage_occurrences i p = passage_terms p.
Proof. unfold passage_terms, passage_occurrences. by rewrite !text_terms. Qed.

(** The table of a unit. *)
Lemma passages_counts ps : forall i m objects keys, counts m objects keys -> 0 <= i -> i + zlen ps < 2 ^ 63 -> Forall (fun k => k <= i) keys ->
  exists keys', counts (foldl tally m (each_from passage_occurrences i ps)) (objects ++ (passage_terms <$> ps)) keys'.
Proof.
  induction ps as [|p ps IH]; intros i m objects keys HC Hi Hb HK; [exists keys; by rewrite app_nil_r|]. rewrite zlen_cons in Hb. pose proof (zlen_nonneg ps).
  cbn [each_from]. rewrite foldl_app, fmap_cons.
  assert (Forall (fun o => object_key o = i + 1) (passage_occurrences i p)) as HF.
  { apply Forall_forall. intros o (Ht&Ho&_)%text_occurrences_in. unfold object_key. rewrite Ht, Ho. cbn. apply u64_small. lia. }
  assert (i + 1 ∉ keys) as Hn by (intros Hin; rewrite Forall_forall in HK; specialize (HK _ Hin); lia).
  pose proof (counts_object m objects keys (i + 1) _ HC HF Hn ltac:(unfold UINT64_MAX; lia)) as HC'. rewrite passage_terms_eq in HC'.
  destruct (IH (i + 1) _ _ _ HC') as (keys'&H'); [lia|lia|constructor; [lia|eapply Forall_impl; [exact HK|cbn; lia]]|].
  exists keys'. by rewrite <- (assoc_L (++)) in H'.
Qed.

Lemma unit_counts d ps : zlen ps < 2 ^ 63 ->
  exists keys, counts (foldl tally ∅ (segment_occurrences [d] ps)) (document_terms d :: (passage_terms <$> ps)) keys.
Proof.
  intros Hb. unfold segment_occurrences. cbn [each_from]. rewrite app_nil_r, foldl_app.
  assert (counts ∅ [] []) as H0 by (intros t; rewrite lookup_empty; apply not_elem_of_nil).
  assert (Forall (fun o => object_key o = 0) (document_occurrences 0 d)) as HF.
  { apply Forall_forall. intros o [(Ht&_)|(Ht&_)]%document_occurrences_in; unfold object_key; by rewrite Ht. }
  pose proof (counts_object ∅ [] [] 0 _ H0 HF ltac:(apply not_elem_of_nil) ltac:(done)) as HC. rewrite document_terms_eq in HC.
  apply (passages_counts ps 0 _ _ _ HC); [lia|lia|repeat constructor; lia].
Qed.

Lemma term_fits_ok o : term_fits o -> term_ok (occ_term o).
Proof. intros [? ?]. split; [done|]. unfold SIZE_MAX, UINT32_MAX in *. lia. Qed.

(** What [prepare_unit] computes: the sizes of the unit's parts of every file. *)
Lemma prepare_unit_correct {A : Allocator} u : unit_ok c u -> passages_part u < 2 ^ 63 ->
  match prepare_unit c u with Ok (s, p) => unit_rep c u s /\ prepared_rep u p | Err _ => True | Fault => False end.
Proof using Hw Hv.
  intros Hok Hz. unfold prepare_unit, unit_rep, prepared_rep, passages_part, document_part, metadata_part, ids_part, unit_objects, unit_ok in *.
  destruct (unit_document u) as [d|]; [|done]. destruct Hok as (Hd&HP&_). pose proof Hd as [(W1&W2&W3&W4&W5&_) (T1&T2&T3&T4&T5&_)].
  eapply adds_bind; [by eapply view_size_adds, text_ok_view|]. eapply adds_bind; [by eapply view_size_adds, text_ok_view|]. eapply adds_bind; [by eapply view_size_adds, text_ok_view|].
  eapply adds_bind; [by eapply view_size_adds, text_ok_view|]. eapply adds_bind; [by eapply view_size_adds, text_ok_view|].
  assert (Forall passage_wf (unit_passages u)) as HPw by (eapply Forall_impl; [exact HP|by intros p [? _]]).
  pose proof (prepare_unit_spec d (unit_passages u) (proj1 Hd) HPw) as HL. destruct (YAP_V2_lexical_prepare_unit _ _) as [lexical|e|] eqn:EL; cbn [mbind outcome_bind]; [|done|done].
  pose proof (up_count _ _ _ HL) as Hzi.
  pose proof (count_occurrences_spec (prep_items lexical) term_map_zero ∅ 0 ltac:(by left) ltac:(eapply Forall_impl; [apply (up_fits _ _ _ HL)|apply term_fits_ok]) ltac:(done) ltac:(lia) ltac:(lia)) as HC.
  destruct (count_occurrences _ _) as [terms|e|]; cbn [mbind outcome_bind]; [|done|done]. rewrite (up_items _ _ _ HL) in HC.
  pose proof (passages_size_spec (unit_passages u) HP 0 0) as HS. destruct (passages_size _ _) as [[pb vb]|e|]; cbn [mbind outcome_bind]; [|done|done]. injection HS as -> ->.
  fold (document_root d). cbn [mbind option_bind]. destruct (document_root d) as [root|]; [|done]. destruct (yyjson_is_obj root) eqn:Eo; cbn [negb]; [|done].
  pose proof (fields_size_adds 0 root (Z.to_nat (filterable_field_count c)) 0 0) as HM. rewrite drop_0 in HM. change (Z.of_nat 0) with 0 in HM.
  pose proof (zlen_field_names c Hw Hv) as Hzf. specialize (HM ltac:(unfold zlen in Hzf; lia)). eapply adds_bind; [exact HM|]. split; [|split; [done|by exists root]].
  cbn [us_terms us_document_bytes us_passage_bytes us_metadata_bytes us_passage_count us_vector_id_bytes]. split_and!; [|rewrite zlen_document_record; lia|lia|done|lia].
  destruct (unit_counts d (unit_passages u) Hz) as (keys&HK). by exists (foldl tally ∅ (segment_occurrences [d] (unit_passages u))), keys.
Qed.
End prepare.
End units.

(** ** The sizes of a slice *)
Section slices.
Context {T : Tokenizer} {J : Yyjson} (c : YAP_V2_CONFIG) (id_bytes : Z).

Definition metadata_head : Z := 24 + zlen (names_image (field_names c)).

Definition vectors_size (passages ids : Z) : Z :=
  let head := 40 + zlen (c_str (vector_model_id c)) + 16 * passages + ids in
  head + zlen (padding_of head) + 4 * (passages * vector_dimensions c).

Definition has_vectors (us : list YAP_V2_SEGMENT_UNIT) : bool := negb (vector_metric c =? YAP_V2_VECTOR_DISABLED) && (0 <? total_of passages_part us).

(** The lengths of the seven payloads. *)
Definition slice_sizes (us : list YAP_V2_SEGMENT_UNIT) : list Z :=
  let lexical n := if 0 <? total_of documents_part us then n else 0 in
  let m := stats (objects_of us) in
  [24 + id_bytes + total_of document_part us;
   lexical (12 + msum term_cost m);
   lexical (56 + msum posting_cost m);
   lexical (12 + msum position_cost m);
   lexical (metadata_head + total_of (metadata_part c) us);
   if has_vectors us then vectors_size (total_of passages_part us) (total_of ids_part us) else 0;
   if 0 <? total_of tombstones_part us then 12 + total_of tombstone_part us else 0].

(** The units make a segment of at most the allowed numbers of documents and passages, whose files
    have payloads of at most [limit] bytes. *)
Definition fits (limit : Z) (us : list YAP_V2_SEGMENT_UNIT) : bool :=
  (total_of documents_part us <=? YAP_V2_MAX_SEGMENT_DOCUMENTS) && (total_of passages_part us <=? YAP_V2_MAX_SEGMENT_PASSAGES) &&
  forallb (fun size => size <=? limit) (slice_sizes us).

(** Bounds that keep the sums from wrapping around. *)
Record small (bound : Z) (us : list YAP_V2_SEGMENT_UNIT) : Prop := {
  sm_documents : 24 + id_bytes + total_of document_part us < bound;
  sm_terms : 12 + msum term_cost (stats (objects_of us)) < bound;
  sm_postings : 56 + msum posting_cost (stats (objects_of us)) < bound;
  sm_positions : 12 + msum position_cost (stats (objects_of us)) < bound;
  sm_metadata : metadata_head + total_of (metadata_part c) us < bound;
  sm_tombstones : 12 + total_of tombstone_part us < bound }.

Lemma objects_snoc us u : objects_of (us ++ [u]) = objects_of us ++ unit_objects u.
Proof. unfold objects_of. rewrite fmap_app, concat_app. cbn. by rewrite app_nil_r. Qed.

Lemma total_nonneg f us : (forall u, 0 <= f u) -> 0 <= total_of f us.
Proof. intros H. apply sum_nonneg, Forall_fmap, Forall_forall. intros u _. apply H. Qed.

Lemma sum_zlen {X} (f : X -> bytes) l : 0 <= sum ((fun x => zlen (f x)) <$> l).
Proof. apply sum_nonneg, Forall_fmap, Forall_forall. intros x _. apply zlen_nonneg. Qed.

Lemma parts_nonneg u : 0 <= document_part u /\ 0 <= metadata_part c u /\ 0 <= tombstone_part u /\ 0 <= ids_part u /\ 0 <= documents_part u /\ 0 <= passages_part u /\ 0 <= tombstones_part u.
Proof.
  unfold document_part, metadata_part, tombstone_part, ids_part, documents_part, passages_part, tombstones_part. destruct (unit_document u) as [d|]; cbn [mbind option_bind].
  - pose proof (sum_zlen passage_record (unit_passages u)). pose proof (sum_zlen (fun p => view_bytes (passage_id p)) (unit_passages u)).
    split_and!; try done; [pose_zlen; lia|destruct (document_root d); [apply zlen_nonneg|done]|apply zlen_nonneg].
  - split_and!; done || apply zlen_nonneg.
Qed.

(** A slice without documents has no passages, no metadata and no terms. *)
Lemma no_documents us : total_of documents_part us = 0 -> Forall (fun u => unit_document u = None) us.
Proof.
  induction us as [|u us IH]; [constructor|]. unfold total_of in *. rewrite fmap_cons, sum_cons. intros H. pose proof (parts_nonneg u). pose proof (total_nonneg documents_part us) as HN.
  specialize (HN ltac:(intros u'; apply parts_nonneg)). unfold total_of in HN. assert (documents_part u = 0) as E by lia.
  constructor; [|apply IH; lia]. unfold documents_part in E. by destruct (unit_document u).
Qed.

Lemma no_documents_objects us : total_of documents_part us = 0 -> objects_of us = [].
Proof. intros H%no_documents. unfold objects_of. induction H as [|u us Hu _ IH]; [done|]. cbn [fmap list_fmap concat]. unfold unit_objects at 1. rewrite Hu. exact IH. Qed.

Lemma no_documents_parts us : total_of documents_part us = 0 -> total_of (metadata_part c) us = 0 /\ total_of passages_part us = 0.
Proof.
  intros H%no_documents. unfold total_of. induction H as [|u us Hu _ [IH1 IH2]]; [done|]. rewrite !fmap_cons, !sum_cons, IH1, IH2. unfold metadata_part, passages_part. by rewrite Hu.
Qed.

Lemma no_tombstones us : total_of tombstones_part us = 0 -> total_of tombstone_part us = 0.
Proof.
  induction us as [|u us IH]; [done|]. unfold total_of in *. rewrite !fmap_cons, !sum_cons. intros H. pose proof (parts_nonneg u) as (_&_&_&_&_&_&Hn).
  pose proof (total_nonneg tombstones_part us ltac:(intros u'; apply parts_nonneg)) as HN. unfold total_of in HN. rewrite IH by lia. assert (tombstones_part u = 0) as E by lia.
  unfold tombstones_part, tombstone_part in *. by destruct (unit_document u).
Qed.

(** The identifiers and the passages are part of the documents. *)
Lemma ids_part_le u : ids_part u <= document_part u /\ 20 * passages_part u <= document_part u.
Proof.
  unfold ids_part, document_part, passages_part. destruct (unit_document u) as [d|]; [|done]. pose proof (zlen_nonneg (document_record d)).
  assert (sum ((fun p => zlen (view_bytes (passage_id p))) <$> unit_passages u) <= sum ((fun p => zlen (passage_record p)) <$> unit_passages u) /\
    20 * zlen (unit_passages u) <= sum ((fun p => zlen (passage_record p)) <$> unit_passages u)); [|lia].
  induction (unit_passages u) as [|p ps IH]; [done|]. rewrite !fmap_cons, !sum_cons, zlen_passage_record, !zlen_view_image, zlen_cons. pose_zlen. lia.
Qed.

Lemma ids_total_le us : total_of ids_part us <= total_of document_part us /\ 20 * total_of passages_part us <= total_of document_part us.
Proof. unfold total_of. induction us as [|u us IH]; [done|]. rewrite !fmap_cons, !sum_cons. pose proof (ids_part_le u). lia. Qed.

Lemma tombstones_total_le us : total_of tombstones_part us <= total_of tombstone_part us.
Proof.
  unfold total_of. induction us as [|u us IH]; [done|]. rewrite !fmap_cons, !sum_cons. assert (tombstones_part u <= tombstone_part u); [|lia].
  unfold tombstones_part, tombstone_part. destruct (unit_document u); [done|]. rewrite zlen_view_image. pose_zlen. lia.
Qed.

Lemma documents_total_le us : total_of documents_part us <= total_of document_part us.
Proof.
  unfold total_of. induction us as [|u us IH]; [done|]. rewrite !fmap_cons, !sum_cons. assert (documents_part u <= document_part u); [|lia].
  unfold documents_part, document_part. destruct (unit_document u) as [d|]; [|done]. pose proof (sum_zlen passage_record (unit_passages u)). rewrite zlen_document_record, !zlen_view_image. pose_zlen. lia.
Qed.
End slices.

(** ** The sizer *)
Section sizer.
Context {A : Allocator} {T : Tokenizer} {J : Yyjson} (c : YAP_V2_CONFIG) (id_bytes : Z).
Context (Hw : config_wf c) (Hv : config_valid c) (Hid : 0 <= id_bytes).

Definition counts_rep (us : list YAP_V2_SEGMENT_UNIT) (k : SIZER_COUNTS) : Prop :=
  (sz_documents k = total_of documents_part us /\ sz_passages k = total_of passages_part us /\ sz_tombstones k = total_of tombstones_part us /\
   sz_document_payload k = total_of document_part us /\ sz_metadata_payload k = total_of (metadata_part c) us /\ sz_vector_id_bytes k = total_of ids_part us) /\
  (0 < total_of documents_part us -> payloads_rep (stats (objects_of us)) k) /\
  (0 < total_of tombstones_part us -> sz_tombstone_payload k = 12 + total_of tombstone_part us).

Definition sizer_rep (us : list YAP_V2_SEGMENT_UNIT) (s : SIZER) : Prop := counts_rep us (sz_counts s) /\ map_rep (sz_terms s) (stats (objects_of us)).

Lemma sizer_zero_rep : sizer_rep [] sizer_zero.
Proof. split; [split_and!; done|by left]. Qed.

(** Small slices have small counts. *)
Lemma stats_small bound us t st : small c id_bytes bound us -> stats (objects_of us) !! t = Some st -> stats_ok bound st.
Proof.
  intros [_ _ _ H _ _] E. pose proof (stats_lookup_ok _ _ _ E) as [H1 H2].
  pose proof (msum_lookup_le position_cost (stats (objects_of us)) t st) as HL. specialize (HL ltac:(intros t' st' E'; apply stats_lookup_ok in E'; unfold position_cost; lia) E).
  unfold position_cost at 1 in HL. unfold stats_ok. lia.
Qed.

Lemma unit_stats_small bound u s : small c id_bytes bound [u] -> unit_document u <> None -> unit_rep c u s -> Forall (slot_ok bound) (used_slots (tm_slots (us_terms s))).
Proof.
  intros HS Hd HR. unfold unit_rep in HR. destruct (unit_document u) as [d|] eqn:Ed; [|done]. destruct HR as [HT _]. apply Forall_forall. intros x Hx.
  destruct (sources_counts _ _ HT x Hx) as (Hok&Hin&Ho&Hp). split; [done|]. assert (objects_of [u] = unit_objects u) as Eo by (unfold objects_of; cbn; by rewrite app_nil_r).
  pose proof (stats_small bound [u] (slot_term x) (TermStats (occurrences_in (slot_term x) (unit_objects u)) (postings_in (slot_term x) (unit_objects u)) UINT64_MAX) HS) as H.
  rewrite Eo, stats_lookup, decide_True in H by done. specialize (H eq_refl). unfold stats_ok in *. cbn in *. by rewrite Ho, Hp.
Qed.

(** Adding a unit to small slices. *)
Lemma small_snoc bound bound' us u s : small c id_bytes bound us -> small c id_bytes bound' [u] -> unit_rep c u s -> small c id_bytes (bound + bound') (us ++ [u]).
Proof using Hid.
  intros [H1 H2 H3 H4 H5 H6] [U1 U2 U3 U4 U5 U6] HR. unfold total_of in U1, U5, U6. cbn [fmap list_fmap sum foldr] in U1, U5, U6.
  assert (objects_of [u] = unit_objects u) as Eo by (unfold objects_of; cbn; by rewrite app_nil_r). rewrite Eo in *. pose proof (zlen_nonneg (names_image (field_names c))).
  assert (forall f, cost f -> msum f (stats (objects_of (us ++ [u]))) <= msum f (stats (objects_of us)) + msum f (stats (unit_objects u))) as HC.
  { intros f Hf. rewrite objects_snoc. unfold unit_rep in HR. destruct (unit_document u) as [d|] eqn:Ed.
    - destruct HR as [HT _]. by apply (msum_stats_app f (us_terms s)).
    - unfold unit_objects. rewrite Ed, app_nil_r, stats_nil, msum_empty. lia. }
  pose proof (HC _ term_cost_ok). pose proof (HC _ posting_cost_ok). pose proof (HC _ position_cost_ok). unfold metadata_head in *.
  split; rewrite ?total_snoc; unfold metadata_head; lia.
Qed.

Lemma counts_small bound us k : small c id_bytes bound us -> counts_rep us k -> 
  0 <= sz_documents k < bound /\ 0 <= sz_passages k < bound /\ 0 <= sz_tombstones k < bound /\ 0 <= sz_document_payload k < bound /\ 0 <= sz_metadata_payload k < bound /\ 0 <= sz_vector_id_bytes k < bound.
Proof using Hid.
  intros [H1 H2 H3 H4 H5 H6] [(->&->&->&->&->&->) _]. pose proof (ids_total_le us). pose proof (tombstones_total_le us). pose proof (documents_total_le us). pose proof (zlen_nonneg (names_image (field_names c))). unfold metadata_head in *.
  assert (forall f, (forall u, 0 <= f u) -> 0 <= total_of f us) as HN by (intros f; apply total_nonneg).
  pose proof (HN documents_part (fun u => proj1 (proj2 (proj2 (proj2 (proj2 (parts_nonneg c u))))))). pose proof (HN (metadata_part c) (fun u => proj1 (proj2 (parts_nonneg c u)))).
  pose proof (HN document_part (fun u => proj1 (parts_nonneg c u))). pose proof (HN passages_part (fun u => proj1 (proj2 (proj2 (proj2 (proj2 (proj2 (parts_nonneg c u)))))))).
  pose proof (HN tombstones_part (fun u => proj2 (proj2 (proj2 (proj2 (proj2 (proj2 (parts_nonneg c u)))))))). pose proof (HN ids_part (fun u => proj1 (proj2 (proj2 (proj2 (parts_nonneg c u)))))). lia.
Qed.

Section add.
Context (us : list YAP_V2_SEGMENT_UNIT) (u : YAP_V2_SEGMENT_UNIT) (s : UNIT_SIZE) (sizer : SIZER).
Context (HR : sizer_rep us sizer) (HU : unit_rep c u s) (Hok : unit_ok c u) (HS : small c id_bytes (2 ^ 60) us) (HSu : small c id_bytes (2 ^ 60) [u]).

Lemma unit_parts_small : document_part u < 2 ^ 60 /\ metadata_part c u < 2 ^ 60 /\ tombstone_part u < 2 ^ 60.
Proof using HSu Hid.
  destruct HSu as [H1 _ _ _ H5 H6]. unfold total_of in *. cbn [fmap list_fmap sum foldr] in *. pose proof (zlen_nonneg (names_image (field_names c))). unfold metadata_head in *. pose proof (parts_nonneg c u). lia.
Qed.

(** A document, before its terms. *)
Lemma add_document_rep d : unit_document u = Some d -> let k := add_document s (sz_counts sizer) in
  (sz_documents k = total_of documents_part (us ++ [u]) /\ sz_passages k = total_of passages_part (us ++ [u]) /\ sz_tombstones k = total_of tombstones_part (us ++ [u]) /\
   sz_document_payload k = total_of document_part (us ++ [u]) /\ sz_metadata_payload k = total_of (metadata_part c) (us ++ [u]) /\ sz_vector_id_bytes k = total_of ids_part (us ++ [u])) /\
  payloads_rep (stats (objects_of us)) k /\ (0 < total_of tombstones_part (us ++ [u]) -> sz_tombstone_payload k = 12 + total_of tombstone_part (us ++ [u])).
Proof using HR HU HS HSu Hid.
  intros Ed. destruct HR as [HC HM]. pose proof (counts_small _ _ _ HS HC) as HB. destruct HC as [(E1&E2&E3&E4&E5&E6) [HL HT]]. unfold unit_rep in HU. rewrite Ed in HU.
  destruct HU as (_&U1&U2&U3&U4). pose proof unit_parts_small as (P1&P2&P3). pose proof (ids_part_le u) as [P4 P5]. pose proof (parts_nonneg c u) as (N1&N2&N3&N4&N5&N6&N7).
  cbv zeta. cbn [add_document sz_documents sz_passages sz_tombstones sz_document_payload sz_metadata_payload sz_vector_id_bytes sz_tombstone_payload].
  assert (documents_part u = 1) as D1 by (unfold documents_part; by rewrite Ed). assert (passages_part u = us_passage_count s) as D2 by (unfold passages_part; by rewrite Ed).
  assert (tombstones_part u = 0) as D3 by (unfold tombstones_part; by rewrite Ed). assert (tombstone_part u = 0) as D4 by (unfold tombstone_part; by rewrite Ed).
  rewrite !total_snoc, D1, D2, D3, D4, U1, U2, U4, !Z.add_0_r, !u64_small by lia. split; [split_and!; congruence|]. split; [|done].
  unfold payloads_rep, add_document. cbv zeta. cbn [sz_term_payload sz_posting_payload sz_position_payload]. destruct (Z.eqb_spec (sz_documents (sz_counts sizer)) 0) as [E0|E0].
  - rewrite no_documents_objects by congruence. rewrite stats_nil, !msum_empty. done.
  - apply HL. lia.
Qed.

Lemma add_tombstone_rep : unit_document u = None -> counts_rep (us ++ [u]) (add_tombstone (unit_tombstone u) (sz_counts sizer)) /\ objects_of (us ++ [u]) = objects_of us.
Proof using HR HS HSu Hid Hok.
  intros Ed. destruct HR as [HC _]. pose proof (counts_small _ _ _ HS HC) as HB. destruct HC as [(E1&E2&E3&E4&E5&E6) [HL HT]]. pose proof unit_parts_small as (P1&P2&P3).
  unfold unit_ok in Hok. rewrite Ed in Hok. destruct Hok as [_ Hlen].
  assert (objects_of (us ++ [u]) = objects_of us) as Eo by (rewrite objects_snoc; unfold unit_objects; by rewrite Ed, app_nil_r). split; [|done].
  assert (tombstones_part u = 1) as D1 by (unfold tombstones_part; by rewrite Ed). assert (tombstone_part u = 4 + len (unit_tombstone u)) as D2 by (unfold tombstone_part; by rewrite Ed, zlen_view_image, Hlen).
  assert (documents_part u = 0) as D3 by (unfold documents_part; by rewrite Ed). assert (passages_part u = 0) as D4 by (unfold passages_part; by rewrite Ed).
  assert (document_part u = 0) as D5 by (unfold document_part; by rewrite Ed). assert (metadata_part c u = 0) as D6 by (unfold metadata_part; by rewrite Ed). assert (ids_part u = 0) as D7 by (unfold ids_part; by rewrite Ed).
  pose proof (parts_nonneg c u) as (_&_&N3&_). unfold counts_rep. rewrite Eo, !total_snoc, D1, D2, D3, D4, D5, D6, D7, !Z.add_0_r.
  cbn [add_tombstone sz_documents sz_passages sz_tombstones sz_document_payload sz_metadata_payload sz_vector_id_bytes sz_tombstone_payload].
  split_and!; try done; [rewrite u64_small; lia|]. intros _. rewrite (u64_small (_ + 1)) by lia. destruct HS as [_ _ _ _ _ H6]. pose proof (tombstones_total_le us).
  destruct (Z.eqb_spec (sz_tombstones (sz_counts sizer) + 1) 1) as [E|E].
  - rewrite (no_tombstones c us) by lia. rewrite u64_small; lia.
  - rewrite HT by lia. rewrite u64_small; lia.
Qed.

Lemma unit_stats_ok t st : t ∈ slot_term <$> used_slots (tm_slots (us_terms s)) -> stats (objects_of us) !! t = Some st -> stats_ok (2 ^ 60) st.
Proof using HS. intros _. by apply stats_small. Qed.

(** The projected counters are those of the longer slice. *)
Lemma project_rep : exists k, project sizer u s = Ok k /\ counts_rep (us ++ [u]) k.
Proof using HR HU Hok HS HSu Hid.
  unfold project. destruct (unit_document u) as [d|] eqn:Ed; [|by eexists; split; [done|apply add_tombstone_rep]].
  pose proof HR as [_ HM]. pose proof (add_document_rep d Ed) as (HC&HP&HT). pose proof (unit_stats_small _ u s HSu ltac:(by rewrite Ed) HU) as HF.
  pose proof HU as HU'. unfold unit_rep in HU'. rewrite Ed in HU'. destruct HU' as [HTC _]. pose proof (sources_distinct _ _ HTC) as HN.
  eexists. split; [by apply (project_terms_spec _ _ (stats (objects_of us)))|].
  pose proof (add_slots_rep (2 ^ 60) (used_slots (tm_slots (us_terms s))) ltac:(lia) (stats (objects_of us)) (add_document s (sz_counts sizer)) HN HF unit_stats_ok HP) as HA.
  rewrite (add_slots_stats _ _ HTC), <- objects_snoc in HA. destruct (add_slots_rest (used_slots (tm_slots (us_terms s))) (stats (objects_of us)) (add_document s (sz_counts sizer))) as (R1&R2&R3&R4&R5&R6&R7).
  unfold counts_rep. rewrite R1, R2, R3, R4, R5, R6, R7. by split_and!; try apply HC.
Qed.

Lemma sizer_add_rep : match sizer_add sizer u s with Ok sizer' => sizer_rep (us ++ [u]) sizer' | Err _ => True | Fault => False end.
Proof using HR HU Hok HS HSu Hid.
  unfold sizer_add. destruct (unit_document u) as [d|] eqn:Ed.
  2: { destruct (add_tombstone_rep Ed) as [HC Eo]. split; [done|]. rewrite Eo. apply HR. }
  pose proof HR as [_ HM]. pose proof (add_document_rep d Ed) as (HC&HP&HT). pose proof (unit_stats_small _ u s HSu ltac:(by rewrite Ed) HU) as HF.
  pose proof HU as HU'. unfold unit_rep in HU'. rewrite Ed in HU'. destruct HU' as [HTC _]. pose proof (sources_distinct _ _ HTC) as HN.
  pose proof (add_terms_spec (2 ^ 60) (tm_slots (us_terms s)) ltac:(lia) (Sizer (add_document s (sz_counts sizer)) (sz_terms sizer)) (stats (objects_of us)) HM HN HF unit_stats_ok) as HA.
  destruct (add_terms _ _) as [sizer'|e|]; [|done|done]. cbn [sz_counts] in HA. destruct HA as [HM' HC']. rewrite (add_slots_stats _ _ HTC), <- objects_snoc in HM'. split; [|done].
  pose proof (add_slots_rep (2 ^ 60) (used_slots (tm_slots (us_terms s))) ltac:(lia) (stats (objects_of us)) (add_document s (sz_counts sizer)) HN HF unit_stats_ok HP) as HA.
  rewrite (add_slots_stats _ _ HTC), <- objects_snoc, <- HC' in HA. destruct (add_slots_rest (used_slots (tm_slots (us_terms s))) (stats (objects_of us)) (add_document s (sz_counts sizer))) as (R1&R2&R3&R4&R5&R6&R7).
  rewrite <- HC' in *. unfold counts_rep. rewrite R1, R2, R3, R4, R5, R6, R7. by split_and!; try apply HC.
Qed.
End add.

(** ** The sizes of the components *)
Lemma align_float_spec n : 0 <= n -> n + 3 < 2 ^ 64 -> align_float n = n + (- n) mod 4.
Proof.
  intros H0 Hn. unfold align_float, sizeof_float. replace (n + 4 - 1) with (n + 3) by lia. rewrite u64_small by lia.
  unfold u64. rewrite <- (Z.land_ones (Z.lnot (4 - 1)) 64) by lia. rewrite (Z.land_comm (Z.lnot _)), Z.land_assoc, Z.land_ones by lia. rewrite Z.mod_small by lia.
  rewrite <- Z.ldiff_land. change (4 - 1) with (Z.ones 2). rewrite Z.ldiff_ones_r by lia. rewrite Z.shiftl_mul_pow2, Z.shiftr_div_pow2 by lia. change (2 ^ 2) with 4.
  pose proof (Z.div_mod (n + 3) 4 ltac:(lia)). pose proof (Z.mod_pos_bound (n + 3) 4 ltac:(lia)). pose proof (Z.div_mod (- n) 4 ltac:(lia)). pose proof (Z.mod_pos_bound (- n) 4 ltac:(lia)). lia.
Qed.

Lemma model_length : strlen (vector_model_id c) = (Ok (zlen (c_str (vector_model_id c))) : result Z) /\ zlen (c_str (vector_model_id c)) < 256.
Proof using Hw Hv.
  destruct Hv as (_&_&_&H0&_). pose proof (holds_c_str _ H0) as Hh. split; [by apply strlen_spec|]. pose proof (holds_length _ _ Hh) as Hl. destruct (wf_model c Hw) as [Hz _]. unfold zlen in *. lia.
Qed.

Lemma dimensions_range : 0 <= vector_dimensions c < 2 ^ 32.
Proof using Hw. destruct (wf_numbers c Hw) as (_&_&_&H&_). exact H. Qed.

Lemma component_sizes_total k : exists sizes, component_sizes c k id_bytes = Ok sizes.
Proof using Hw Hv.
  unfold component_sizes. rewrite (proj1 (metadata_base_spec c Hw Hv)). rewrite (proj1 model_length). destruct (0 <? sz_documents k), (negb _ && _); rewrite !outcome_bind_ok; eauto.
Qed.

Lemma vectors_size_rep passages ids : 0 <= passages <= YAP_V2_MAX_SEGMENT_PASSAGES -> 0 <= ids < 2 ^ 61 ->
  u64 (align_float (u64 (40 + zlen (c_str (vector_model_id c)) + passages * 16 + ids)) + passages * vector_dimensions c * sizeof_float) = vectors_size c passages ids.
Proof using Hw Hv.
  intros Hp Hi. unfold YAP_V2_MAX_SEGMENT_PASSAGES in Hp. pose proof (proj2 model_length) as Hm. pose proof (zlen_nonneg (c_str (vector_model_id c))). pose proof dimensions_range as Hd.
  rewrite (u64_small (40 + _ + _ + _)) by lia. rewrite align_float_spec by lia. unfold vectors_size. cbv zeta. unfold padding_of. rewrite zlen_replicate.
  replace (16 * passages) with (passages * 16) by lia. set (head := 40 + _ + _ + _). pose proof (Z.mod_pos_bound (- head) 4 ltac:(lia)). unfold sizeof_float.
  assert (0 <= passages * vector_dimensions c) by lia. assert (passages * vector_dimensions c <= 4000000 * 2 ^ 32) by (apply Z.mul_le_mono_nonneg; lia).
  assert (0 <= head < 2 ^ 62) by (unfold head; lia). clearbody head. rewrite u64_small by lia. lia.
Qed.

Lemma component_sizes_rep us k : counts_rep us k -> small c id_bytes (2 ^ 61) us -> total_of passages_part us <= YAP_V2_MAX_SEGMENT_PASSAGES ->
  component_sizes c k id_bytes = Ok (slice_sizes c id_bytes us).
Proof using Hw Hv Hid.
  intros HC HS Hp. pose proof (counts_small _ _ _ HS HC) as HB. destruct HC as [(E1&E2&E3&E4&E5&E6) [HL HT]]. destruct HS as [S1 S2 S3 S4 S5 S6].
  pose proof (zlen_nonneg (names_image (field_names c))) as Hn. unfold component_sizes, slice_sizes, has_vectors. rewrite (proj1 (metadata_base_spec c Hw Hv)), (proj1 model_length). rewrite E1, E2, E3, E4, E5, E6 in *.
  set (v := negb _ && _). assert ((if v then Ok (Some (zlen (c_str (vector_model_id c)))) else Ok None) = (Ok (if v then Some (zlen (c_str (vector_model_id c))) else None) : result _)) as Ev by by destruct v.
  rewrite outcome_bind_ok. rewrite Ev. rewrite (u64_small (24 + _ + _)) by lia.
  assert (match (if v then Some (zlen (c_str (vector_model_id c))) else None) with
    | Some len_ => u64 (align_float (u64 (40 + len_ + total_of passages_part us * 16 + total_of ids_part us)) + total_of passages_part us * vector_dimensions c * sizeof_float) | None => 0 end =
    if v then vectors_size c (total_of passages_part us) (total_of ids_part us) else 0) as E7.
  { destruct v; [|done]. apply vectors_size_rep; lia. }
  assert ((if 0 <? total_of tombstones_part us then sz_tombstone_payload k else 0) = if 0 <? total_of tombstones_part us then 12 + total_of tombstone_part us else 0) as E8.
  { destruct (Z.ltb_spec 0 (total_of tombstones_part us)); [by rewrite HT|done]. }
  destruct (Z.ltb_spec 0 (total_of documents_part us)) as [Hd|Hd].
  - rewrite !outcome_bind_ok, E7, E8. destruct (HL Hd) as (->&->&->). unfold metadata_head in *.
    assert (forall f, cost f -> 0 <= msum f (stats (objects_of us))) as HN.
    { intros f Hf. apply sum_nonneg, Forall_fmap, Forall_forall. intros [t st] Hin%elem_of_map_to_list. apply stats_lookup_ok in Hin. cbn. apply (cost_nonneg f Hf); lia. }
    pose proof (HN _ term_cost_ok). pose proof (HN _ posting_cost_ok). pose proof (HN _ position_cost_ok). rewrite !u64_small by lia. done.
  - rewrite !outcome_bind_ok, E7, E8. done.
Qed.

(** ** Measuring a unit *)
Lemma largest_size_spec sizes : forall names limit b r n, length sizes = length names -> let '(b', r', n') := largest_size sizes names limit (b, r, n) in
  b' = b && forallb (fun size => size <=? limit) sizes /\ r <= r' /\ (b' = false -> b = false \/ limit < r').
Proof.
  induction sizes as [|size sizes IH]; intros [|name_ names] limit b r n Hl; try done; cbn [largest_size forallb].
  { rewrite andb_true_r. split_and!; [done|lia|by left]. }
  injection Hl as Hl. destruct (if r <? size then (size, Some name_) else (r, n)) as [r1 n1] eqn:E1.
  assert (r <= r1 /\ size <= r1) as [H1 H2] by (destruct (Z.ltb_spec r size); injection E1 as <- <-; lia).
  specialize (IH names limit (if limit <? size then false else b) r1 n1 Hl). destruct (largest_size sizes names limit _) as [[b' r'] n']. destruct IH as (->&Hr&Hf).
  split_and!; [|lia|].
  - destruct (Z.ltb_spec limit size), (Z.leb_spec size limit); [lia|cbn; by rewrite andb_false_r|done|lia].
  - intros Hb. destruct (Z.ltb_spec limit size); [right; lia|]. destruct (Hf Hb); [by left|right; lia].
Qed.

Lemma projected_fits_rep us u s sizer limit : sizer_rep us sizer -> unit_rep c u s -> unit_ok c u -> small c id_bytes (2 ^ 60) us -> small c id_bytes (2 ^ 60) [u] -> 0 <= limit < 2 ^ 60 ->
  exists required component, projected_fits c sizer u s id_bytes limit = Ok (fits c id_bytes limit (us ++ [u]), required, component) /\
    (fits c id_bytes limit (us ++ [u]) = false -> limit < required).
Proof using Hw Hv Hid.
  intros HR HU Hok HS HSu Hlim. unfold projected_fits. destruct (project_rep us u s sizer HR HU Hok HS HSu) as (k&->&HC). rewrite outcome_bind_ok.
  pose proof (small_snoc _ _ us u s HS HSu HU) as HS'. change (2 ^ 60 + 2 ^ 60) with (2 ^ 61) in HS'. pose proof HR as [HC0 _]. pose proof (counts_small _ _ _ HS HC0) as HB.
  destruct (component_sizes_total k) as [sizes Hsz]. rewrite Hsz, outcome_bind_ok. cbv zeta. pose proof (parts_nonneg c u) as (_&_&_&_&N5&N6&_). destruct (ids_part_le u) as [_ Hpu]. pose proof (proj1 (unit_parts_small u HSu)) as Hdu.
  assert (u64 (sz_documents (sz_counts sizer) + (if match unit_document u with Some _ => true | None => false end then 1 else 0)) = total_of documents_part (us ++ [u])) as ->.
  { destruct HC0 as [(E&_) _]. rewrite total_snoc, <- E. unfold documents_part. destruct (unit_document u); rewrite u64_small by lia; done. }
  assert (u64 (sz_passages (sz_counts sizer) + us_passage_count s) = total_of passages_part (us ++ [u])) as ->.
  { destruct HC0 as [(_&E&_) _]. rewrite total_snoc, <- E. unfold unit_rep in HU. unfold passages_part in *. destruct (unit_document u); [destruct HU as (_&_&_&->&_)|subst s; cbn]; rewrite u64_small by lia; done. }
  unfold fits. destruct (Z.leb_spec (total_of documents_part (us ++ [u])) YAP_V2_MAX_SEGMENT_DOCUMENTS) as [H1|H1].
  2: { rewrite (proj2 (Z.ltb_lt _ _)) by lia. cbn [orb andb]. do 2 eexists. split; [done|]. intros _. rewrite u64_small; lia. }
  destruct (Z.leb_spec (total_of passages_part (us ++ [u])) YAP_V2_MAX_SEGMENT_PASSAGES) as [H2|H2].
  2: { rewrite (proj2 (Z.ltb_lt YAP_V2_MAX_SEGMENT_PASSAGES _)), orb_true_r by lia. cbn [andb]. do 2 eexists. split; [done|]. intros _. rewrite u64_small; lia. }
  rewrite !(proj2 (Z.ltb_ge _ _)) by lia. cbn [orb andb]. rewrite (component_sizes_rep (us ++ [u]) k HC HS' H2) in Hsz. injection Hsz as <-.
  pose proof (largest_size_spec (slice_sizes c id_bytes (us ++ [u])) COMPONENT_NAMES limit true 0 None eq_refl) as HL.
  destruct (largest_size _ _ _ _) as [[b r] n]. destruct HL as (->&_&Hf). do 2 eexists. split; [done|]. intros Hb. destruct (Hf Hb); [done|lia].
Qed.
End sizer.
