(* ===== verification/SegmentPlan.v ===== *)
(** Cutting the units of a batch into segments
    (src/src/indexing/yappo_segment_planner_v2.c): the planner adds unit after unit to a slice
    until a component of its segment would exceed the target size, lets a single unit grow up to
    the hard limit, and merges a small last slice into the one before it.

    The file shows that the slices cover the units, that the sizes the planner records are the
    lengths of the files that the writers produce, and what the limits guarantee. *)
From Stdlib Require Import String.
From S2P Require Import Prelude Words Types SlotTable EntryTable Manifest FileSystem Reader Buffer Segment CString Config Lexical Planner TermMap Tokens LexicalWriter LexicalIndex LexicalRoundtrip Json Vectors Metadata MetadataFiles Sizer TermStats SizerSpec.
#[local] Open Scope Z_scope.

Record YAP_V2_SEGMENT_CAPACITY_ERROR := CapacityError {
  ce_component : option bytes;
  ce_required_bytes : Z;
  ce_limit_bytes : Z;
  ce_document_id : YAP_V2_BYTES_VIEW }.

Definition capacity_error_zero : YAP_V2_SEGMENT_CAPACITY_ERROR := CapacityError None 0 0 (BytesView None 0).

Record YAP_V2_SEGMENT_SIZE_POLICY := SizePolicy {
  target_payload_bytes : Z;
  soft_max_payload_bytes : Z;
  hard_max_payload_bytes : Z }.

(** [test_payload_limit] is the static variable that tests set; it is 0 otherwise. *)
Definition YAP_V2_segment_planner_payload_limit (test_payload_limit : Z) : Z :=
  if test_payload_limit =? 0 then YAP_V2_MAX_SEGMENT_PAYLOAD_BYTES else test_payload_limit.

Definition YAP_V2_segment_planner_size_policy (test_payload_limit : Z) : YAP_V2_SEGMENT_SIZE_POLICY :=
  if negb (test_payload_limit =? 0) then SizePolicy test_payload_limit test_payload_limit test_payload_limit
  else SizePolicy (128 * 1024 * 1024) (192 * 1024 * 1024) YAP_V2_MAX_SEGMENT_PAYLOAD_BYTES.

Definition sizeof_prepared_unit : Z := 72.
Definition sizeof_unit_size : Z := 64.

(** What a call leaves behind when it fails: the status, and the content of [capacity_error]. *)
Abbreviation planned := (outcome (YAP_V2_STATUS * YAP_V2_SEGMENT_CAPACITY_ERROR)).

(** A failure that does not fill [capacity_error]. *)
Definition plain {B} (r : result B) : planned B :=
  match r with Ok b => Ok b | Err e => Err (e, capacity_error_zero) | Fault => Fault end.

Section plan.
Context {A : Allocator} {T : Tokenizer} {J : Yyjson}.

Record YAP_V2_SEGMENT_PLAN := SegmentPlan { plan_slices : list YAP_V2_SEGMENT_SLICE; plan_prepared_units : list PREPARED_UNIT }.

Definition plan_add (slices : list YAP_V2_SEGMENT_SLICE) (first count : Z) (config : YAP_V2_CONFIG) (sizer : SIZER) (segment_id_bytes : Z)
  : result (list YAP_V2_SEGMENT_SLICE) :=
  if YAP_V2_MAX_SEGMENTS <=? zlen slices then Err YAP_V2_OUT_OF_RANGE
  else if negb (alloc_ok ((zlen slices + 1) * sizeof_slice)) then Err YAP_V2_ALLOCATION_FAILED
  else
  sizes ← component_sizes config (sz_counts sizer) segment_id_bytes;
  Ok (slices ++ [SegmentSlice first count sizes]).

Definition slice_largest_payload (s : YAP_V2_SEGMENT_SLICE) : Z :=
  foldl (fun largest size => if largest <? size then size else largest) 0 (payload_sizes s).

(** The loop of [range_slice], [n] units from index [i]: [None] when one does not fit. *)
Fixpoint range_sizer (n : nat) (config : YAP_V2_CONFIG) (units : list YAP_V2_SEGMENT_UNIT) (unit_sizes : list UNIT_SIZE) (i : Z)
    (segment_id_bytes payload_limit : Z) (sizer : SIZER) : result (option SIZER) :=
  match n with
  | O => Ok (Some sizer)
  | S n =>
      unit_ ← elem_at units i;
      unit_size ← elem_at unit_sizes i;
      '(fits, _, _) ← projected_fits config sizer unit_ unit_size segment_id_bytes payload_limit;
      if negb fits then Ok None
      else
      sizer ← sizer_add sizer unit_ unit_size;
      range_sizer n config units unit_sizes (i + 1) segment_id_bytes payload_limit sizer
  end.

(** [None] is YAP_V2_SEGMENT_CAPACITY_EXCEEDED. *)
Definition range_slice (config : YAP_V2_CONFIG) (units : list YAP_V2_SEGMENT_UNIT) (unit_sizes : list UNIT_SIZE) (first count : Z)
    (segment_id_bytes payload_limit : Z) : result (option YAP_V2_SEGMENT_SLICE) :=
  sizer ← range_sizer (Z.to_nat count) config units unit_sizes first segment_id_bytes payload_limit sizer_zero;
  match sizer with
  | None => Ok None
  | Some sizer => sizes ← component_sizes config (sz_counts sizer) segment_id_bytes; Ok (Some (SegmentSlice first count sizes))
  end.

Definition merge_small_tail (config : YAP_V2_CONFIG) (units : list YAP_V2_SEGMENT_UNIT) (unit_sizes : list UNIT_SIZE)
    (segment_id_bytes : Z) (policy : YAP_V2_SEGMENT_SIZE_POLICY) (slices : list YAP_V2_SEGMENT_SLICE) : result (list YAP_V2_SEGMENT_SLICE) :=
  if zlen slices <? 2 then Ok slices
  else
  previous ← elem_at slices (zlen slices - 2);
  tail_ ← elem_at slices (zlen slices - 1);
  if (target_payload_bytes policy / 2 <=? slice_largest_payload tail_) ||
     negb (u64 (slice_first previous + slice_count previous) =? slice_first tail_) then Ok slices
  else
  merged ← range_slice config units unit_sizes (slice_first previous) (u64 (slice_count previous + slice_count tail_)) segment_id_bytes
    (soft_max_payload_bytes policy);
  match merged with
  | None => Ok slices
  | Some merged => Ok (take (Z.to_nat (zlen slices - 2)) slices ++ [merged])
  end.

(** The loop that prepares the units. *)
Fixpoint prepare_units (config : YAP_V2_CONFIG) (units : list YAP_V2_SEGMENT_UNIT) : result (list UNIT_SIZE * list PREPARED_UNIT) :=
  match units with
  | [] => Ok ([], [])
  | unit_ :: units =>
      '(size, prepared) ← prepare_unit config unit_;
      '(sizes, prepared_units) ← prepare_units config units;
      Ok (size :: sizes, prepared :: prepared_units)
  end.

Definition unit_id (unit_ : YAP_V2_SEGMENT_UNIT) : YAP_V2_BYTES_VIEW :=
  match unit_document unit_ with Some d => doc_id d | None => unit_tombstone unit_ end.

(** The state of the loop over the units: the slices, the sizer and the first unit of the slice
    that is being filled. *)
Record planning := Planning { pl_slices : list YAP_V2_SEGMENT_SLICE; pl_sizer : SIZER; pl_first : Z }.

(** One turn.  The slice is closed when the unit does not fit the target; a unit that does not fit
    an empty slice is measured against the hard limit. *)
Definition plan_unit (config : YAP_V2_CONFIG) (segment_id_bytes : Z) (policy : YAP_V2_SEGMENT_SIZE_POLICY)
    (i : Z) (unit_ : YAP_V2_SEGMENT_UNIT) (unit_size : UNIT_SIZE) (st : planning) : planned planning :=
  let target := target_payload_bytes policy in
  '(fits, required, component) ← plain (projected_fits config (pl_sizer st) unit_ unit_size segment_id_bytes target);
  '(st, fits) ←
    plain (if negb fits && (pl_first st <? i) then
             slices ← plan_add (pl_slices st) (pl_first st) (i - pl_first st) config (pl_sizer st) segment_id_bytes;
             '(fits, _, _) ← projected_fits config sizer_zero unit_ unit_size segment_id_bytes target;
             Ok (Planning slices sizer_zero i, fits)
           else Ok (st, fits));
  '(fits, required, component) ←
    plain (if fits : bool then Ok (true, required, component)
           else projected_fits config (pl_sizer st) unit_ unit_size segment_id_bytes (hard_max_payload_bytes policy));
  if negb fits then Err (YAP_V2_SEGMENT_CAPACITY_EXCEEDED, CapacityError component required (hard_max_payload_bytes policy) (unit_id unit_))
  else
  sizer ← plain (sizer_add (pl_sizer st) unit_ unit_size);
  Ok (Planning (pl_slices st) sizer (pl_first st)).

Fixpoint plan_units (config : YAP_V2_CONFIG) (segment_id_bytes : Z) (policy : YAP_V2_SEGMENT_SIZE_POLICY)
    (units : list YAP_V2_SEGMENT_UNIT) (unit_sizes : list UNIT_SIZE) (i : Z) (st : planning) : planned planning :=
  match units with
  | [] => Ok st
  | unit_ :: units =>
      match unit_sizes with
      | [] => Fault
      | unit_size :: unit_sizes =>
          st ← plan_unit config segment_id_bytes policy i unit_ unit_size st;
          plan_units config segment_id_bytes policy units unit_sizes (i + 1) st
      end
  end.

Definition YAP_V2_segment_plan_with_policy (config : option YAP_V2_CONFIG) (units : list YAP_V2_SEGMENT_UNIT) (segment_id_bytes : Z)
    (policy : YAP_V2_SEGMENT_SIZE_POLICY) : planned YAP_V2_SEGMENT_PLAN :=
  match config with
  | None => Err (YAP_V2_INVALID_ARGUMENT, capacity_error_zero)
  | Some config =>
      if (segment_id_bytes =? 0) || (target_payload_bytes policy =? 0) ||
         (soft_max_payload_bytes policy <? target_payload_bytes policy) ||
         (hard_max_payload_bytes policy <? soft_max_payload_bytes policy) ||
         (YAP_V2_MAX_SEGMENT_PAYLOAD_BYTES <? hard_max_payload_bytes policy)
      then Err (YAP_V2_INVALID_ARGUMENT, capacity_error_zero)
      else if negb (zlen units =? 0) && (negb (alloc_ok (zlen units * sizeof_prepared_unit)) || negb (alloc_ok (zlen units * sizeof_unit_size)))
      then Err (YAP_V2_ALLOCATION_FAILED, capacity_error_zero)
      else
      '(unit_sizes, prepared_units) ← plain (prepare_units config units);
      st ← plan_units config segment_id_bytes policy units unit_sizes 0 (Planning [] sizer_zero 0);
      slices ← plain (plan_add (pl_slices st) (pl_first st) (zlen units - pl_first st) config (pl_sizer st) segment_id_bytes);
      slices ← plain (merge_small_tail config units unit_sizes segment_id_bytes policy slices);
      Ok (SegmentPlan slices prepared_units)
  end.

Definition YAP_V2_segment_plan (config : option YAP_V2_CONFIG) (units : list YAP_V2_SEGMENT_UNIT) (segment_id_bytes payload_limit : Z)
  : planned YAP_V2_SEGMENT_PLAN :=
  YAP_V2_segment_plan_with_policy config units segment_id_bytes (SizePolicy payload_limit payload_limit payload_limit).
End plan.

(** ** Slices and limits *)
Section correct.
Context {A : Allocator} {T : Tokenizer} {J : Yyjson} (c : YAP_V2_CONFIG) (id_bytes : Z).
Context (Hw : config_wf c) (Hv : config_valid c) (Hid : 0 <= id_bytes <= YAP_V2_MAX_IDENTIFIER_BYTES).
Context (units : list YAP_V2_SEGMENT_UNIT) (Hok : Forall (unit_ok c) units) (Hsmall : Forall (fun u => small c id_bytes (2 ^ 60) [u]) units).
Context (policy : YAP_V2_SEGMENT_SIZE_POLICY).
Abbreviation target := (target_payload_bytes policy).
Abbreviation soft := (soft_max_payload_bytes policy).
Abbreviation hard := (hard_max_payload_bytes policy).
Context (Hpolicy : 0 < target <= soft /\ soft <= hard /\ hard <= YAP_V2_MAX_SEGMENT_PAYLOAD_BYTES).

Lemma fits_le limit limit' us : limit <= limit' -> fits c id_bytes limit us = true -> fits c id_bytes limit' us = true.
Proof.
  intros Hl. unfold fits. rewrite !andb_true_iff, !forallb_forall. intros [? H]. split; [done|]. intros n Hn. specialize (H n Hn). lia.
Qed.

Lemma empty_small : small c id_bytes (2 ^ 60) [].
Proof using Hw Hv Hid.
  destruct (metadata_base_spec c Hw Hv) as [_ Hm]. unfold YAP_V2_MAX_IDENTIFIER_BYTES in Hid. split; unfold metadata_head; change (objects_of []) with (@nil (list bytes)); rewrite ?stats_nil, ?msum_empty; cbn; lia.
Qed.

Lemma sizes_small us : Forall (fun size => size < 2 ^ 60) (slice_sizes c id_bytes us) -> small c id_bytes (2 ^ 60) us.
Proof using Hw Hv Hid.
  unfold slice_sizes. cbv zeta. rewrite !Forall_cons. intros (H1&H2&H3&H4&H5&_&H7&_).
  destruct (metadata_base_spec c Hw Hv) as [_ Hm]. assert (12 + total_of tombstone_part us < 2 ^ 60) as HT.
  { destruct (Z.ltb_spec 0 (total_of tombstones_part us)); [lia|]. pose proof (total_nonneg tombstones_part us ltac:(intros u; apply (parts_nonneg c))). rewrite (no_tombstones c us) by lia. lia. }
  destruct (Z.ltb_spec 0 (total_of documents_part us)) as [Hd|Hd]; [split; lia|]. pose proof (total_nonneg documents_part us ltac:(intros u; apply (parts_nonneg c))).
  destruct (no_documents_parts c us ltac:(lia)) as [E1 E2]. split; unfold metadata_head; rewrite ?(no_documents_objects c us), ?stats_nil, ?msum_empty by lia; lia.
Qed.

Lemma fits_small limit us : limit <= YAP_V2_MAX_SEGMENT_PAYLOAD_BYTES -> fits c id_bytes limit us = true -> small c id_bytes (2 ^ 60) us.
Proof using Hw Hv Hid.
  intros Hl. unfold fits. rewrite !andb_true_iff, forallb_forall. intros [_ H]. apply sizes_small, Forall_forall. intros size Hs%list_elem_of_In%H. unfold YAP_V2_MAX_SEGMENT_PAYLOAD_BYTES in Hl. lia.
Qed.

Lemma fits_passages limit us : fits c id_bytes limit us = true -> total_of passages_part us <= YAP_V2_MAX_SEGMENT_PASSAGES.
Proof. unfold fits. rewrite !andb_true_iff, !Z.leb_le. intros [[_ ?] _]. done. Qed.

(** Preparing the units. *)
Lemma prepare_units_rep us : Forall (unit_ok c) us -> Forall (fun u => passages_part u < 2 ^ 63) us ->
  match prepare_units c us with
  | Ok (sizes, prepared) => Forall2 (unit_rep c) us sizes /\ Forall2 prepared_rep us prepared
  | Err _ => True
  | Fault => False
  end.
Proof using Hw Hv.
  induction 1 as [|u us Hu _ IH]; intros HZ; cbn [prepare_units]; [done|]. apply Forall_cons in HZ as [Hz HZ].
  pose proof (prepare_unit_correct c Hw Hv u Hu Hz) as HP. destruct (prepare_unit c u) as [[s p]|e|]; cbn [mbind outcome_bind]; [|done|done].
  specialize (IH HZ). destruct (prepare_units c us) as [[sizes prepared]|e|]; cbn [mbind outcome_bind]; [|done|done]. destruct HP, IH. split; by constructor.
Qed.

(** A slice, the units of which are measured. *)
Definition slice_exact (s : YAP_V2_SEGMENT_SLICE) : Prop := payload_sizes s = slice_sizes c id_bytes (slice_units units s).
Definition slice_within (s : YAP_V2_SEGMENT_SLICE) : Prop :=
  0 < slice_count s /\ fits c id_bytes hard (slice_units units s) = true /\ (2 <= slice_count s -> fits c id_bytes soft (slice_units units s) = true).
(** The next unit does not fit the target. *)
Definition slice_full (s : YAP_V2_SEGMENT_SLICE) : Prop :=
  exists v, units !! Z.to_nat (slice_first s + slice_count s) = Some v /\ fits c id_bytes target (slice_units units s ++ [v]) = false.

Definition range (first i : Z) : list YAP_V2_SEGMENT_UNIT := slice units first (i - first).

Lemma range_snoc first (i : nat) u : 0 <= first <= Z.of_nat i -> units !! i = Some u -> range first (Z.of_nat i + 1) = range first (Z.of_nat i) ++ [u].
Proof.
  intros Hf Hu. unfold range, slice. replace (Z.to_nat (Z.of_nat i + 1 - first)) with (S (Z.to_nat (Z.of_nat i - first))) by lia.
  apply take_S_r. rewrite lookup_drop. by replace (Z.to_nat first + Z.to_nat (Z.of_nat i - first))%nat with i by lia.
Qed.

Lemma plan_add_rep slices first count sizer us : sizer_rep c us sizer -> small c id_bytes (2 ^ 60) us -> total_of passages_part us <= YAP_V2_MAX_SEGMENT_PASSAGES ->
  match plan_add slices first count c sizer id_bytes with
  | Ok slices' => slices' = slices ++ [SegmentSlice first count (slice_sizes c id_bytes us)]
  | Err _ => True
  | Fault => False
  end.
Proof using Hw Hv Hid.
  intros [HC _] HS Hp. unfold plan_add. destruct (_ <=? _); [done|]. destruct (negb _); [done|]. assert (small c id_bytes (2 ^ 61) us) as HS' by (destruct HS; split; lia).
  by rewrite (component_sizes_rep c id_bytes Hw Hv (proj1 Hid) us _ HC HS' Hp), outcome_bind_ok.
Qed.

(** The state of the loop before unit [i]. *)
Record plan_inv (i : nat) (st : planning) : Prop := {
  pi_range : 0 <= pl_first st <= Z.of_nat i;
  pi_covers : covers 0 (pl_first st) (pl_slices st);
  pi_slices : Forall (fun s => slice_exact s /\ slice_within s /\ slice_full s) (pl_slices st);
  pi_sizer : sizer_rep c (range (pl_first st) (Z.of_nat i)) (pl_sizer st);
  pi_hard : pl_first st < Z.of_nat i -> fits c id_bytes hard (range (pl_first st) (Z.of_nat i)) = true;
  pi_target : pl_first st + 2 <= Z.of_nat i -> fits c id_bytes target (range (pl_first st) (Z.of_nat i)) = true }.

Lemma range_empty i : range i i = [].
Proof. unfold range, slice. by rewrite Z.sub_diag. Qed.

Lemma inv_small i st : plan_inv i st -> small c id_bytes (2 ^ 60) (range (pl_first st) (Z.of_nat i)).
Proof using Hw Hv Hid Hpolicy.
  intros HI. destruct (Z.eq_dec (pl_first st) (Z.of_nat i)) as [->|N]; [rewrite range_empty; apply empty_small|]. apply (fits_small hard); [apply Hpolicy|]. apply (pi_hard i st HI). pose proof (pi_range i st HI). lia.
Qed.

Lemma inv_passages i st : plan_inv i st -> total_of passages_part (range (pl_first st) (Z.of_nat i)) <= YAP_V2_MAX_SEGMENT_PASSAGES.
Proof.
  intros HI. destruct (Z.eq_dec (pl_first st) (Z.of_nat i)) as [->|N]; [by rewrite range_empty|]. apply (fits_passages hard), (pi_hard i st HI). pose proof (pi_range i st HI). lia.
Qed.

(** What a failure reports: a unit that does not even fit a slice of its own, or nothing. *)
Definition capacity_report (e : YAP_V2_STATUS) (ce : YAP_V2_SEGMENT_CAPACITY_ERROR) : Prop :=
  ce = capacity_error_zero \/
  e = YAP_V2_SEGMENT_CAPACITY_EXCEEDED /\ ce_limit_bytes ce = hard /\ hard < ce_required_bytes ce /\
    exists u, u ∈ units /\ ce_document_id ce = unit_id u /\ fits c id_bytes hard [u] = false.

Section turn.
Context (i : nat) (u : YAP_V2_SEGMENT_UNIT) (s : UNIT_SIZE) (Hu : units !! i = Some u) (Hs : unit_rep c u s).

Lemma unit_is_ok : unit_ok c u /\ small c id_bytes (2 ^ 60) [u].
Proof using Hok Hsmall Hu. split; [by apply (proj1 (Forall_lookup _ _) Hok i)|by apply (proj1 (Forall_lookup _ _) Hsmall i)]. Qed.

(** The unit is added to the slice. *)
Lemma place_unit st : plan_inv i st -> fits c id_bytes hard (range (pl_first st) (Z.of_nat i) ++ [u]) = true ->
  (pl_first st < Z.of_nat i -> fits c id_bytes target (range (pl_first st) (Z.of_nat i) ++ [u]) = true) ->
  match sizer_add (pl_sizer st) u s with
  | Ok sizer => plan_inv (S i) (Planning (pl_slices st) sizer (pl_first st)) /\ pl_first st < Z.of_nat (S i)
  | Err _ => True
  | Fault => False
  end.
Proof using Hw Hv Hid Hok Hsmall Hpolicy Hu Hs.
  intros HI Hh Ht. destruct unit_is_ok as [Hou Hsu]. pose proof (pi_range i st HI) as Hr.
  pose proof (sizer_add_rep c id_bytes (proj1 Hid) _ u s _ (pi_sizer i st HI) Hs Hou (inv_small i st HI) Hsu) as HA. rewrite <- range_snoc in * by done.
  destruct (sizer_add _ _ _) as [sizer|e|]; [|done|done]. replace (Z.of_nat i + 1) with (Z.of_nat (S i)) in * by lia. split; [|lia]. destruct HI. split; cbn [pl_first pl_slices pl_sizer]; try done; [lia|].
  intros H. apply Ht. lia.
Qed.

(** The slice is closed. *)
Lemma close_slice st slices : plan_inv i st -> pl_first st < Z.of_nat i -> fits c id_bytes target (range (pl_first st) (Z.of_nat i) ++ [u]) = false ->
  plan_add (pl_slices st) (pl_first st) (Z.of_nat i - pl_first st) c (pl_sizer st) id_bytes = Ok slices -> plan_inv i (Planning slices sizer_zero (Z.of_nat i)).
Proof using Hw Hv Hid Hpolicy Hu.
  intros HI Hlt Hf HA. pose proof (plan_add_rep (pl_slices st) (pl_first st) (Z.of_nat i - pl_first st) _ _ (pi_sizer i st HI) (inv_small i st HI) (inv_passages i st HI)) as HP.
  rewrite HA in HP. subst slices. pose proof (pi_range i st HI) as Hr. set (new := SegmentSlice _ _ _).
  assert (slice_units units new = range (pl_first st) (Z.of_nat i)) as Eu by done. split; cbn [pl_first pl_slices pl_sizer]; try lia.
  - apply covers_app. exists (pl_first st). split; [apply HI|]. cbn. lia.
  - apply Forall_app. split; [apply HI|]. repeat constructor; unfold slice_exact, slice_full; rewrite ?Eu; cbn [slice_count slice_first new]; try done; [lia|by apply (pi_hard i st HI)| |].
    + intros H2. apply (fits_le target); [lia|]. apply (pi_target i st HI). lia.
    + exists u. split; [|done]. by replace (Z.to_nat (pl_first st + (Z.of_nat i - pl_first st))) with i by lia.
  - rewrite range_empty. apply sizer_zero_rep.
Qed.

(** Measuring the unit against the hard limit, when it is alone, and adding it. *)
Definition finish_unit (st : planning) (fits_ : bool) (required : Z) (component : option bytes) : planned planning :=
  '(fits, required, component) ←
    plain (if fits_ then Ok (true, required, component)
           else projected_fits c (pl_sizer st) u s id_bytes hard);
  if negb fits then Err (YAP_V2_SEGMENT_CAPACITY_EXCEEDED, CapacityError component required hard (unit_id u))
  else
  sizer ← plain (sizer_add (pl_sizer st) u s);
  Ok (Planning (pl_slices st) sizer (pl_first st)).

Definition planned_ok (r : planned planning) : Prop :=
  match r with Ok st => plan_inv (S i) st /\ pl_first st < Z.of_nat (S i) | Err (e, ce) => capacity_report e ce | Fault => False end.

Lemma policy_limits : 0 <= target < 2 ^ 60 /\ 0 <= hard < 2 ^ 60.
Proof using Hpolicy. unfold YAP_V2_MAX_SEGMENT_PAYLOAD_BYTES in *. lia. Qed.

Lemma finish_unit_ok st b required component : plan_inv i st -> (b = true -> fits c id_bytes target (range (pl_first st) (Z.of_nat i) ++ [u]) = true) ->
  (b = false -> pl_first st = Z.of_nat i) -> planned_ok (finish_unit st b required component).
Proof using Hw Hv Hid Hok Hsmall Hpolicy Hu Hs.
  intros HI Ht Hf. pose proof policy_limits as [_ Hl]. destruct unit_is_ok as [Hou Hsu]. unfold finish_unit.
  assert (forall st' : planning, plan_inv i st' -> fits c id_bytes hard (range (pl_first st') (Z.of_nat i) ++ [u]) = true ->
    (pl_first st' < Z.of_nat i -> fits c id_bytes target (range (pl_first st') (Z.of_nat i) ++ [u]) = true) ->
    planned_ok (sizer ← plain (sizer_add (pl_sizer st') u s); Ok (Planning (pl_slices st') sizer (pl_first st')))) as Hplace.
  { intros st' HI' Hh Ht'. pose proof (place_unit st' HI' Hh Ht') as HP. destruct (sizer_add _ _ _) as [sizer|e|]; cbn; [done|by left|done]. }
  destruct b; cbn [plain mbind outcome_bind].
  - cbn [negb]. apply Hplace; [done|by apply (fits_le target); [lia|apply Ht]|by intros _; apply Ht].
  - specialize (Hf eq_refl). pose proof (inv_small i st HI) as HS. pose proof (pi_sizer i st HI) as HR. rewrite Hf, range_empty in HS, HR.
    destruct (projected_fits_rep c id_bytes Hw Hv (proj1 Hid) [] u s (pl_sizer st) hard HR Hs Hou HS Hsu Hl) as (r&n&->&Hreq). cbn [plain mbind outcome_bind].
    destruct (fits c id_bytes hard ([] ++ [u])) eqn:E; cbn [negb].
    + apply Hplace; rewrite ?Hf, ?range_empty; [done|done|lia].
    + right. cbn [ce_limit_bytes ce_required_bytes ce_document_id]. split_and!; [done|done|by apply Hreq|]. exists u. split_and!; [by eapply list_elem_of_lookup_2|done|done].
Qed.

Lemma plan_unit_ok st : plan_inv i st -> planned_ok (plan_unit c id_bytes policy (Z.of_nat i) u s st).
Proof using Hw Hv Hid Hok Hsmall Hpolicy Hu Hs.
  intros HI. pose proof policy_limits as [Hl _]. destruct unit_is_ok as [Hou Hsu]. unfold plan_unit. cbv zeta.
  destruct (projected_fits_rep c id_bytes Hw Hv (proj1 Hid) _ u s (pl_sizer st) target (pi_sizer i st HI) Hs Hou (inv_small i st HI) Hsu Hl) as (r&n&->&_). cbn [plain mbind outcome_bind].
  destruct (fits c id_bytes target (range (pl_first st) (Z.of_nat i) ++ [u])) eqn:E; cbn [negb andb plain mbind outcome_bind].
  { by apply (finish_unit_ok st true r n). }
  destruct (Z.ltb_spec (pl_first st) (Z.of_nat i)) as [Hlt|Hge].
  2: { apply (finish_unit_ok st false r n); [done|done|]. pose proof (pi_range i st HI). lia. }
  pose proof (plan_add_rep (pl_slices st) (pl_first st) (Z.of_nat i - pl_first st) _ _ (pi_sizer i st HI) (inv_small i st HI) (inv_passages i st HI)) as HP.
  destruct (plan_add _ _ _ _ _ _) as [slices|e|] eqn:EA; cbn [plain mbind outcome_bind]; [|by left|done].
  pose proof (close_slice st slices HI Hlt E EA) as HC.
  destruct (projected_fits_rep c id_bytes Hw Hv (proj1 Hid) [] u s sizer_zero target (sizer_zero_rep c) Hs Hou empty_small Hsu Hl) as (r'&n'&->&_). cbn [plain mbind outcome_bind].
  apply (finish_unit_ok (Planning slices sizer_zero (Z.of_nat i)) _ r n); [done| |done]. cbn [pl_first]. by rewrite range_empty.
Qed.
End turn.

Lemma plan_units_ok : forall us sizes (i : nat) st, us = drop i units -> (i <= length units)%nat -> Forall2 (unit_rep c) us sizes -> plan_inv i st -> (pl_first st = Z.of_nat i -> i = 0%nat) ->
  match plan_units c id_bytes policy us sizes (Z.of_nat i) st with
  | Ok st' => plan_inv (length units) st' /\ (pl_first st' = zlen units -> units = [])
  | Err (e, ce) => capacity_report e ce
  | Fault => False
  end.
Proof using Hw Hv Hid Hok Hsmall Hpolicy.
  induction us as [|u us IH]; intros sizes i st Eus Hi HF HI H0; cbn [plan_units].
  - assert (length units <= i)%nat as Hle by (symmetry in Eus; apply length_zero_iff_nil in Eus; rewrite length_drop in Eus; lia).
    assert (i = length units) as -> by lia. split; [done|]. intros E. apply length_zero_iff_nil, H0. exact E.
  - apply Forall2_cons_inv_l in HF as (s&sizes'&Hs&HF&->). assert (units !! i = Some u) as Hu by (rewrite <- (Nat.add_0_r i), <- lookup_drop, <- Eus; done).
    pose proof (plan_unit_ok i u s Hu Hs st HI) as HP. destruct (plan_unit _ _ _ _ _ _ _) as [st'|[e ce]|]; cbn [mbind outcome_bind]; [|done|done].
    destruct HP as [HI' Hlt]. replace (Z.of_nat i + 1) with (Z.of_nat (S i)) by lia. apply IH; [|by apply lookup_lt_Some in Hu|done|done|lia].
    apply drop_S in Hu. rewrite <- Eus in Hu. by injection Hu.
Qed.

(** ** Merging the last slices *)
Section merge.
Context (sizes : list UNIT_SIZE) (HF : Forall2 (unit_rep c) units sizes).

Lemma range_sizer_ok limit first n : limit <= hard -> 0 <= limit -> forall (i : nat) sizer, 0 <= first <= Z.of_nat i -> (i + n <= length units)%nat ->
  sizer_rep c (range first (Z.of_nat i)) sizer -> (first < Z.of_nat i -> fits c id_bytes limit (range first (Z.of_nat i)) = true) ->
  match range_sizer n c units sizes (Z.of_nat i) id_bytes limit sizer with
  | Ok (Some sizer') => sizer_rep c (range first (Z.of_nat (i + n))) sizer' /\ (first < Z.of_nat (i + n) -> fits c id_bytes limit (range first (Z.of_nat (i + n))) = true)
  | Ok None | Err _ => True
  | Fault => False
  end.
Proof using Hw Hv Hid Hok Hsmall Hpolicy HF.
  intros Hlim Hlim0. pose proof policy_limits as [_ Hl]. induction n as [|n IH]; intros i sizer Hi Hn HR Hfit; cbn [range_sizer]; [by rewrite Nat.add_0_r|].
  destruct (lookup_lt_is_Some_2 units i) as [u Hu]; [lia|]. destruct (Forall2_lookup_l _ _ _ _ _ HF Hu) as (s&Hs&Hrep). rewrite (elem_at_lookup _ _ _ Hu), (elem_at_lookup _ _ _ Hs), !outcome_bind_ok.
  destruct (unit_is_ok i u Hu) as [Hou Hsu].
  assert (small c id_bytes (2 ^ 60) (range first (Z.of_nat i))) as HS.
  { destruct (Z.eq_dec first (Z.of_nat i)) as [->|N]; [rewrite range_empty; apply empty_small|]. apply (fits_small limit); [lia|]. apply Hfit. lia. }
  destruct (projected_fits_rep c id_bytes Hw Hv (proj1 Hid) _ u s sizer limit HR Hrep Hou HS Hsu ltac:(lia)) as (r&m&->&_). rewrite outcome_bind_ok. rewrite <- range_snoc in * by (done || lia).
  destruct (fits c id_bytes limit (range first (Z.of_nat i + 1))) eqn:Ef; cbn [negb]; [|done].
  pose proof (sizer_add_rep c id_bytes (proj1 Hid) _ u s _ HR Hrep Hou HS Hsu) as HA. destruct (sizer_add _ _ _) as [sizer'|e|]; cbn [mbind outcome_bind]; [|done|done].
  rewrite <- range_snoc in HA by (done || lia). replace (Z.of_nat i + 1) with (Z.of_nat (S i)) in * by lia. replace (i + S n)%nat with (S i + n)%nat by lia. apply IH; [lia|lia|done|done].
Qed.

Lemma range_slice_ok first count : 0 <= first -> 0 < count -> first + count <= zlen units ->
  match range_slice c units sizes first count id_bytes soft with
  | Ok (Some s) => slice_first s = first /\ slice_count s = count /\ slice_exact s /\ fits c id_bytes soft (slice_units units s) = true
  | Ok None | Err _ => True
  | Fault => False
  end.
Proof using Hw Hv Hid Hok Hsmall Hpolicy HF.
  intros H0 Hc Hn. unfold range_slice. pose proof (range_sizer_ok soft first (Z.to_nat count) ltac:(lia) ltac:(lia) (Z.to_nat first) sizer_zero) as HR. rewrite Z2Nat.id in HR by done.
  specialize (HR ltac:(lia) ltac:(unfold zlen in Hn; lia)). rewrite range_empty in HR. specialize (HR (sizer_zero_rep c) ltac:(lia)).
  destruct (range_sizer _ _ _ _ _ _ _ _) as [[sizer|]|e|]; cbn [mbind outcome_bind]; [|done|done|done]. replace (Z.of_nat (Z.to_nat first + Z.to_nat count)) with (first + count) in HR by lia.
  destruct HR as [HR Hfit]. specialize (Hfit ltac:(lia)). pose proof (fits_small soft _ ltac:(lia) Hfit) as HS. assert (small c id_bytes (2 ^ 61) (range first (first + count))) as HS' by (destruct HS; split; lia).
  rewrite (component_sizes_rep c id_bytes Hw Hv (proj1 Hid) _ _ (proj1 HR) HS' (fits_passages _ _ Hfit)), outcome_bind_ok. cbn [slice_first slice_count]. unfold slice_exact, slice_units. cbn [slice_first slice_count payload_sizes].
  unfold range in *. replace (first + count - first) with count in * by lia. done.
Qed.

(** A plan: slices that cover the units, each of them with its exact sizes, within the limits, and
    all but the last full. *)
Definition plan_ok (slices : list YAP_V2_SEGMENT_SLICE) : Prop :=
  covers 0 (zlen units) slices /\ Forall slice_exact slices /\ (units <> [] -> Forall slice_within slices) /\ Forall slice_full (removelast slices).

Lemma covers_prefix from to slices s : covers from to slices -> s ∈ slices -> from <= slice_first s /\ slice_first s + slice_count s <= to.
Proof.
  revert from; induction slices as [|x slices IH]; intros from H Hin; [by apply elem_of_nil in Hin|]. destruct H as (E&Hc&H). apply covers_le in H as Hle. apply elem_of_cons in Hin as [->|Hin]; [lia|].
  specialize (IH _ H Hin). lia.
Qed.

Lemma removelast_snoc {X} (l : list X) x : removelast (l ++ [x]) = l.
Proof. rewrite removelast_app by done. apply app_nil_r. Qed.

Lemma two_last {X} (l : list X) : 2 <= zlen l -> exists pre x y, l = pre ++ [x; y].
Proof.
  intros H. destruct (rev l) as [|y [|x pre]] eqn:E; [apply (f_equal length) in E|apply (f_equal length) in E|]; try (rewrite length_rev in E; unfold zlen in H; cbn in E; lia).
  exists (rev pre), x, y. rewrite <- (rev_involutive l), E. cbn. by rewrite <- (assoc_L (++)).
Qed.

Lemma merge_small_tail_ok slices : plan_ok slices -> (units = [] -> zlen slices < 2) -> zlen units < 2 ^ 63 ->
  match merge_small_tail c units sizes id_bytes policy slices with Ok slices' => plan_ok slices' | Err _ => True | Fault => False end.
Proof using Hw Hv Hid Hok Hsmall Hpolicy HF.
  intros HP Hne Hz. unfold merge_small_tail. destruct (Z.ltb_spec (zlen slices) 2) as [|H2]; [done|]. assert (units <> []) as Hu by (intros E; specialize (Hne E); lia).
  destruct (two_last slices H2) as (pre&previous&tail_&->). pose proof HP as (Hc&He&Hwi&Hfu). specialize (Hwi Hu).
  assert (zlen (pre ++ [previous; tail_]) - 2 = Z.of_nat (length pre) /\ zlen (pre ++ [previous; tail_]) - 1 = Z.of_nat (S (length pre))) as [-> ->] by (rewrite zlen_app; unfold zlen; cbn; lia).
  assert ((pre ++ [previous; tail_]) !! length pre = Some previous) as L1 by by apply list_lookup_middle.
  assert ((pre ++ [previous; tail_]) !! S (length pre) = Some tail_) as L2 by (change [previous; tail_] with ([previous] ++ [tail_]); rewrite (assoc_L (++)); apply list_lookup_middle; rewrite length_app; cbn; lia).
  rewrite (elem_at_lookup _ _ _ L1), (elem_at_lookup _ _ _ L2), !outcome_bind_ok.
  destruct (_ || _); [done|]. rewrite Nat2Z.id. apply covers_app in Hc as (mid&Hc1&Ef&Hp0&Et&Ht0&Eend). cbn [covers] in Eend. apply covers_le in Hc1 as Hmid.
  apply Forall_app in He as [He1 He2], Hwi as [Hw1 Hw2]. apply Forall_cons in Hw2 as [[Hp _] [[Ht _] _]%Forall_cons].
  rewrite u64_small by lia. pose proof (range_slice_ok (slice_first previous) (slice_count previous + slice_count tail_) ltac:(lia) ltac:(lia) ltac:(lia)) as HR.
  destruct (range_slice _ _ _ _ _ _ _) as [[merged|]|e|]; cbn [mbind outcome_bind]; [|done|done|done]. destruct HR as (E1&E2&He'&Hfit). rewrite take_app_length.
  assert (removelast (pre ++ [previous; tail_]) = pre ++ [previous]) as Er by (change [previous; tail_] with ([previous] ++ [tail_]); rewrite (assoc_L (++)); apply removelast_snoc).
  rewrite Er in Hfu. apply Forall_app in Hfu as [Hfu _]. split_and!.
  - apply covers_app. exists mid. split; [done|]. cbn. lia.
  - apply Forall_app. split; [done|by constructor].
  - intros _. apply Forall_app. split; [done|]. constructor; [|done]. split_and!; [lia|apply (fits_le soft); [lia|done]|done].
  - by rewrite removelast_snoc.
Qed.
End merge.

(** ** The plan *)
Lemma plan_rep : 0 < id_bytes -> zlen units < 2 ^ 63 ->
  match YAP_V2_segment_plan_with_policy (Some c) units id_bytes policy with
  | Ok plan => plan_ok (plan_slices plan) /\ Forall2 prepared_rep units (plan_prepared_units plan)
  | Err (e, ce) => capacity_report e ce
  | Fault => False
  end.
Proof using Hw Hv Hid Hok Hsmall Hpolicy.
  intros Hid0 Hz. unfold YAP_V2_segment_plan_with_policy. destruct (_ || _); [by left|]. destruct (_ && _); [by left|].
  assert (Forall (fun u => passages_part u < 2 ^ 63) units) as HZ.
  { eapply Forall_impl; [exact Hsmall|]. intros u Hs. cbn beta. pose proof (unit_parts_small c id_bytes (proj1 Hid) u Hs) as [? _]. destruct (ids_part_le u). lia. }
  pose proof (prepare_units_rep units Hok HZ) as HPU. destruct (prepare_units c units) as [[sizes prepared]|e|]; cbn [plain mbind outcome_bind]; [|by left|done]. destruct HPU as [HF HP].
  assert (plan_inv 0 (Planning [] sizer_zero 0)) as HI0.
  { split; cbn [pl_first pl_slices pl_sizer]; try done; [rewrite range_empty; apply sizer_zero_rep]. }
  pose proof (plan_units_ok units sizes 0 (Planning [] sizer_zero 0) eq_refl ltac:(lia) HF HI0 ltac:(done)) as HU. change (Z.of_nat 0) with 0 in HU.
  destruct (plan_units _ _ _ _ _ _ _) as [st|[e ce]|]; cbn [mbind outcome_bind]; [|done|done]. destruct HU as [HI Hlast].
  pose proof (plan_add_rep (pl_slices st) (pl_first st) (zlen units - pl_first st) _ _ (pi_sizer _ _ HI) (inv_small _ _ HI) (inv_passages _ _ HI)) as HA.
  destruct (plan_add _ _ _ _ _ _) as [slices|e|]; cbn [plain mbind outcome_bind]; [|by left|done].
  pose proof (pi_range _ _ HI) as Hr. change (Z.of_nat (length units)) with (zlen units) in *. set (last_ := SegmentSlice _ _ _) in HA.
  assert (plan_ok slices) as Hplan.
  { subst slices. pose proof (pi_slices _ _ HI) as HS. split_and!.
    - apply covers_app. exists (pl_first st). split; [apply HI|]. cbn. lia.
    - apply Forall_app. split; [eapply Forall_impl; [exact HS|by intros s (?&_)]|]. by constructor.
    - intros Hne. apply Forall_app. split; [eapply Forall_impl; [exact HS|by intros s (_&?&_)]|]. constructor; [|done].
      assert (pl_first st < zlen units) as Hlt by (destruct (Z.eq_dec (pl_first st) (zlen units)) as [E|]; [by apply Hlast in E|lia]).
      split_and!; [cbn; lia|by apply (pi_hard _ _ HI)|]. intros H2. apply (fits_le target); [lia|]. apply (pi_target _ _ HI). cbn in H2. unfold zlen in *. lia.
    - rewrite removelast_snoc. eapply Forall_impl; [exact HS|by intros s (_&_&?)]. }
  pose proof (merge_small_tail_ok sizes HF slices Hplan) as HM. 
  assert (units = [] -> zlen slices < 2) as Hone.
  { intros E. subst slices. destruct (pl_slices st) as [|x l] eqn:El; [done|]. pose proof (pi_slices _ _ HI) as HS. rewrite El in HS. apply Forall_cons in HS as [(_&[Hx _]&_) _].
    pose proof (pi_covers _ _ HI) as Hc. rewrite El in Hc. destruct Hc as (_&_&Hc%covers_le). rewrite E in Hr. change (zlen []) with 0 in Hr. lia. }
  specialize (HM Hone Hz).
  destruct (merge_small_tail _ _ _ _ _ _) as [slices'|e|]; cbn [plain mbind outcome_bind]; [|by left|done]. done.
Qed.
End correct.
