(* ===== verification/PlanImages.v ===== *)
(** The files of a planned slice: the payloads that the writers produce for its units
    (src/src/storage/yappo_segment_v2.c, src/src/components/yappo_lexical_v2.c,
    yappo_metadata_v2.c and yappo_vector_v2.c) are as long as the segment planner
    (src/src/indexing/yappo_segment_planner_v2.c) says. *)
From Stdlib Require Import String Sorted.
From S2P Require Import Prelude Words Types SlotTable EntryTable Manifest FileSystem Reader Buffer Segment CString Config Lexical Planner TermMap Tokens LexicalWriter LexicalIndex LexicalRoundtrip Json Vectors Metadata MetadataFiles Sizer TermStats SizerSpec SegmentPlan.
#[local] Open Scope Z_scope.

(** ** Partitions by a key *)
Section partitions.
Context {X K : Type} `{!EqDecision K} (key : X -> K).

Record partition (groups : list (list X)) (keys : list K) : Prop := {
  pt_keys : Forall2 (fun g k => g <> [] /\ Forall (fun x => key x = k) g) groups keys;
  pt_distinct : NoDup keys }.

Lemma partition_cons_inv g groups keys : partition (g :: groups) keys ->
  exists k keys', keys = k :: keys' /\ g <> [] /\ Forall (fun x => key x = k) g /\ (k ∉ keys') /\ partition groups keys'.
Proof.
  intros [HF HN]. apply Forall2_cons_inv_l in HF as (k&keys'&[Hg Hk]&HF&->). apply NoDup_cons in HN as [Hn HN]. exists k, keys'. split_and!; done || by split.
Qed.

Lemma partition_key groups keys k : partition groups keys -> (k ∈ keys <-> exists x, x ∈ concat groups /\ key x = k).
Proof.
  revert keys; induction groups as [|g groups IH]; intros keys HP.
  - destruct HP as [HF _]. apply Forall2_nil_inv_l in HF as ->. split; [by intros ?%elem_of_nil|by intros (?&?%elem_of_nil&_)].
  - apply partition_cons_inv in HP as (k'&keys'&->&Hg&Hk&Hn&HP). cbn [concat]. rewrite elem_of_cons, (IH _ HP). rewrite Forall_forall in Hk. split.
    + intros [->|(x&Hx&E)]; [|exists x; rewrite elem_of_app; auto]. destruct g as [|x g]; [done|]. exists x. split; [by left|]. apply Hk. by left.
    + intros (x&[Hx|Hx]%elem_of_app&<-); [left; by apply Hk|right; eauto].
Qed.

(** The group of a key has all the elements with that key. *)
Lemma partition_group groups keys g k : partition groups keys -> (g, k) ∈ zip groups keys -> filter (fun x => key x = k) (concat groups) = g.
Proof.
  revert keys; induction groups as [|h groups IH]; intros keys HP Hin; [by apply elem_of_nil in Hin|].
  pose proof HP as (k'&keys'&->&Hg&Hk&Hn&HP')%partition_cons_inv. cbn [concat]. rewrite filter_app. apply elem_of_cons in Hin as [[= -> ->]|Hin].
  - rewrite filter_all by done. rewrite filter_none; [by rewrite app_nil_r|]. apply Forall_forall. intros x Hx E. apply Hn. apply (partition_key groups); eauto.
  - rewrite (IH _ HP' Hin). apply elem_of_zip_r in Hin. rewrite filter_none; [done|]. eapply Forall_impl; [exact Hk|]. cbn. intros x -> ->. done.
Qed.

(** Two partitions of the same elements have as many groups. *)
Lemma partition_count groups keys groups' keys' : partition groups keys -> partition groups' keys' ->
  (forall x, x ∈ concat groups <-> x ∈ concat groups') -> zlen groups = zlen groups'.
Proof.
  intros HP HP' H. assert (keys ≡ₚ keys') as HK.
  { apply NoDup_Permutation; [apply HP|apply HP'|]. intros k. rewrite (partition_key groups), (partition_key groups') by done. split; intros (x&Hx&E); exists x; split; try done; by apply H. }
  unfold zlen. rewrite (Forall2_length _ _ _ (pt_keys _ _ HP)), (Forall2_length _ _ _ (pt_keys _ _ HP')). by rewrite HK.
Qed.
End partitions.

(** ** The runs of sorted occurrences *)
Lemma elem_zip_fmap {X Y} (f : X -> Y) (l : list X) x : x ∈ l -> (x, f x) ∈ zip l (f <$> l).
Proof. intros H. induction l as [|y l IH]; [by apply elem_of_nil in H|]. rewrite fmap_cons. cbn. apply elem_of_cons in H as [->|H]; [by left|right; by apply IH]. Qed.

Lemma sorted_distinct {X K} (k : X -> K) (lt : K -> K -> Prop) (l : list X) : (forall a, ~ lt a a) -> StronglySorted (fun x y => lt (k x) (k y)) l -> NoDup (k <$> l).
Proof.
  intros Hir. induction 1 as [|x l _ IH HF]; [constructor|]. rewrite fmap_cons. constructor; [|done]. intros (y&E&Hy)%list_elem_of_fmap.
  apply (proj1 (Forall_forall _ _) HF) in Hy. rewrite E in Hy. by apply (Hir (k y)).
Qed.

Lemma runs_partition {K} (key : YAP_V2_LEXICAL_OCCURRENCE -> K) (lt : K -> K -> Prop) (same : YAP_V2_LEXICAL_OCCURRENCE -> YAP_V2_LEXICAL_OCCURRENCE -> bool) items :
  (forall a b, same a b <-> key a = key b) -> (forall a b c, lt a b -> lt b c -> lt a c) -> (forall a, ~ lt a a) -> StronglySorted (key_le key lt) items ->
  partition key (runs same items) ((fun r => key (first_of r)) <$> runs same items).
Proof.
  intros Hs Ht Hir HS. destruct (runs_sorted key lt same Hs Ht items HS) as [HF HSr]. pose proof (runs_nonempty same items) as Hne. split; [|by apply (sorted_distinct _ lt)].
  apply Forall2_fmap_r, Forall_Forall2_diag. rewrite Forall_forall in HF, Hne. apply Forall_forall. intros g Hg. split; [by apply Hne|by apply HF].
Qed.

Lemma filter_fmap_length {X Y} (f : X -> Y) (P : Y -> Prop) `{!forall y, Decision (P y)} l : length (filter P (f <$> l)) = length (filter (fun x => P (f x)) l).
Proof. induction l as [|x l IH]; [done|]. rewrite fmap_cons, !filter_cons. case_decide; cbn [length]; by rewrite IH. Qed.

Section items.
Context (items : list YAP_V2_LEXICAL_OCCURRENCE) (HS : StronglySorted occurrence_le items).

Lemma bytes_lt_irrefl a : ~ bytes_compare a a = Lt.
Proof. by rewrite (proj2 (bytes_compare_eq a a) eq_refl). Qed.

Lemma term_groups : partition occ_term (runs same_term items) ((fun g => occ_term (first_of g)) <$> runs same_term items).
Proof using HS. apply (runs_partition occ_term (fun a b => bytes_compare a b = Lt)); [apply same_term_spec|apply bytes_compare_trans|apply bytes_lt_irrefl|by apply terms_sorted]. Qed.

(** The group of a term is the list of its occurrences. *)
Lemma term_group g : g ∈ runs same_term items -> filter (fun o => occ_term o = occ_term (first_of g)) items = g.
Proof using HS.
  intros Hg. pose proof (partition_group occ_term _ _ g (occ_term (first_of g)) term_groups) as H. rewrite runs_concat in H. apply H.
  by apply (elem_zip_fmap (fun g => occ_term (first_of g))).
Qed.

Lemma term_group_objects g : g ∈ runs same_term items -> partition object_of (runs same_object g) ((fun o => object_of (first_of o)) <$> runs same_object g).
Proof using HS.
  intros Hg. apply (runs_partition object_of (fun a b => object_compare a b = Lt)); [apply same_object_spec|apply object_compare_trans| |].
  - intros a. by rewrite (proj2 (object_compare_eq a a) eq_refl).
  - assert (StronglySorted occurrence_le g) as HSg.
    { pose proof HS as HS'. rewrite <- (runs_concat same_term items) in HS'. exact (proj1 (Forall_forall _ _) (sorted_concat _ _ HS') g Hg). }
    apply (sorted_impl _ _ _ HSg). intros x y Hx Hy HL. rewrite <- (term_group g Hg) in Hx, Hy. apply list_elem_of_filter in Hx as [Ex _], Hy as [Ey _].
    destruct (compare_same_term x y) as [H|[H _]]; [congruence|done|by right|by left].
Qed.

Lemma group_of_term t : t ∈ occ_term <$> items -> exists g, g ∈ runs same_term items /\ occ_term (first_of g) = t.
Proof using HS.
  intros (o&->&Ho)%list_elem_of_fmap. rewrite <- (runs_concat same_term items) in Ho. pose proof (proj2 (partition_key occ_term _ _ (occ_term o) term_groups)) as H.
  assert (occ_term o ∈ (fun g => occ_term (first_of g)) <$> runs same_term items) as (g&E&Hg)%list_elem_of_fmap by eauto. eauto.
Qed.

(** The statistics of the terms, group by group. *)
Context (objects : list (list bytes)) (Hterms : concat objects ≡ₚ occ_term <$> items).
Context (Hpost : forall g, g ∈ runs same_term items -> postings_in (occ_term (first_of g)) objects = zlen (runs same_object g)).

Definition group_stats (g : list YAP_V2_LEXICAL_OCCURRENCE) : term_stats := TermStats (zlen g) (zlen (runs same_object g)) UINT64_MAX.

Lemma group_occurrences g : g ∈ runs same_term items -> occurrences_in (occ_term (first_of g)) objects = zlen g.
Proof using HS Hterms.
  intros Hg. unfold occurrences_in. unfold zlen. rewrite Hterms, filter_fmap_length.
  change (zlen (filter (fun o => occ_term o = occ_term (first_of g)) items) = zlen g). by rewrite (term_group g Hg).
Qed.

Lemma stats_groups : stats objects = list_to_map ((fun g => (occ_term (first_of g), group_stats g)) <$> runs same_term items).
Proof using HS Hterms Hpost.
  apply map_eq. intros t. rewrite stats_lookup. case_decide as D.
  - symmetry. rewrite Hterms in D. destruct (group_of_term t D) as (g&Hg&<-). rewrite group_occurrences, Hpost by done. apply elem_of_list_to_map.
    + rewrite <- list_fmap_compose. apply (pt_distinct _ _ _ term_groups).
    + apply list_elem_of_fmap. by exists g.
  - symmetry. apply not_elem_of_list_to_map_1. rewrite <- list_fmap_compose. intros (g&->&Hg)%list_elem_of_fmap. apply D. rewrite Hterms.
    apply (list_elem_of_fmap_2 occ_term items (first_of g)). rewrite <- (runs_concat same_term items). apply (in_concat _ g); [done|]. apply first_of_in. exact (proj1 (Forall_forall _ _) (runs_nonempty same_term items) g Hg).
Qed.

Lemma msum_groups f : msum f (stats objects) = sum ((fun g => f (occ_term (first_of g)) (group_stats g)) <$> runs same_term items).
Proof using HS Hterms Hpost.
  rewrite stats_groups. unfold msum. rewrite map_to_list_to_map; [by rewrite <- list_fmap_compose|]. rewrite <- list_fmap_compose. apply (pt_distinct _ _ _ term_groups).
Qed.
End items.

(** ** The lengths of the lexical files *)
Lemma zlen_images_from image groups (len_ : list YAP_V2_LEXICAL_OCCURRENCE -> Z) : (forall index g, zlen (image index g) = len_ g) -> forall index,
  zlen (images_from image index groups) = sum (len_ <$> groups).
Proof. intros H. induction groups as [|g groups IH]; intros index; [done|]. cbn [images_from]. by rewrite zlen_app, H, IH. Qed.

Lemma zlen_entry t : zlen (LexicalWriter.entry_image t) = 44 + zlen (view_bytes (term t)).
Proof. unfold LexicalWriter.entry_image. rewrite !zlen_app, zlen_put_u32_le, !zlen_put_u64_le. lia. Qed.

Lemma zlen_group_entries groups : forall index po so,
  zlen (concat (LexicalWriter.entry_image <$> group_entries index po so groups)) = sum ((fun g => 44 + zlen (occ_term (first_of g))) <$> groups).
Proof.
  induction groups as [|g groups IH]; intros index po so; [done|]. cbn [group_entries fmap list_fmap concat]. rewrite zlen_app, zlen_entry. unfold fmap in IH. rewrite IH. cbn [group_entry term]. by rewrite view_bytes_mk.
Qed.

Lemma zlen_terms_image groups : zlen (terms_image groups) = 12 + sum ((fun g => term_cost (occ_term (first_of g)) (group_stats g)) <$> groups).
Proof. unfold terms_image. rewrite !zlen_app, zlen_put_u32_le, zlen_put_u64_le, zlen_group_entries. unfold term_cost. lia. Qed.

Lemma zlen_postings_image documents passages totals groups :
  zlen (postings_image documents passages totals groups) = 56 + sum ((fun g => posting_cost (occ_term (first_of g)) (group_stats g)) <$> groups).
Proof.
  unfold postings_image. rewrite !zlen_app, !zlen_put_u32_le, !zlen_put_u64_le, (zlen_images_from _ _ (fun g => posting_cost (occ_term (first_of g)) (group_stats g))); [lia|].
  intros index g. rewrite zlen_postings_record. unfold posting_cost. cbn. lia.
Qed.

Lemma zlen_positions_image groups : zlen (positions_image groups) = 12 + sum ((fun g => position_cost (occ_term (first_of g)) (group_stats g)) <$> groups).
Proof.
  unfold positions_image. rewrite !zlen_app, zlen_put_u32_le, zlen_put_u64_le, (zlen_images_from _ _ (fun g => position_cost (occ_term (first_of g)) (group_stats g))); [lia|].
  intros index g. rewrite zlen_positions_record. unfold position_cost. cbn. lia.
Qed.

(** ** The objects of a segment *)
Section objects.
Context {T : Tokenizer}.

Definition terms_of (o : list YAP_V2_LEXICAL_OCCURRENCE) : list bytes := occ_term <$> o.
Definition segment_terms (docs : list YAP_V2_DOCUMENT_VIEW) (pass : list YAP_V2_PASSAGE_VIEW) : list (list bytes) := (document_terms <$> docs) ++ (passage_terms <$> pass).

(** The occurrences of every object, one list each. *)
Fixpoint objects_from {X} (f : Z -> X -> list YAP_V2_LEXICAL_OCCURRENCE) (i : Z) (xs : list X) : list (list YAP_V2_LEXICAL_OCCURRENCE) :=
  match xs with [] => [] | x :: xs => f i x :: objects_from f (i + 1) xs end.
Fixpoint keys_from {X} (type i : Z) (xs : list X) : list (Z * Z) :=
  match xs with [] => [] | _ :: xs => (type, i) :: keys_from type (i + 1) xs end.

Definition segment_objects (docs : list YAP_V2_DOCUMENT_VIEW) (pass : list YAP_V2_PASSAGE_VIEW) : list (list YAP_V2_LEXICAL_OCCURRENCE) :=
  objects_from document_occurrences 0 docs ++ objects_from passage_occurrences 0 pass.
Definition segment_keys (docs : list YAP_V2_DOCUMENT_VIEW) (pass : list YAP_V2_PASSAGE_VIEW) : list (Z * Z) :=
  keys_from YAP_V2_LEXICAL_DOCUMENT 0 docs ++ keys_from YAP_V2_LEXICAL_PASSAGE 0 pass.

Lemma objects_from_concat {X} (f : Z -> X -> list YAP_V2_LEXICAL_OCCURRENCE) xs : forall i, concat (objects_from f i xs) = each_from f i xs.
Proof. induction xs as [|x xs IH]; intros i; [done|]. cbn [objects_from each_from concat]. by rewrite IH. Qed.

Lemma objects_from_terms {X} (f : Z -> X -> list YAP_V2_LEXICAL_OCCURRENCE) (g : X -> list bytes) xs : (forall i x, occ_term <$> f i x = g x) -> forall i, terms_of <$> objects_from f i xs = g <$> xs.
Proof. intros H. induction xs as [|x xs IH]; intros i; [done|]. cbn [objects_from]. rewrite !fmap_cons, IH. unfold terms_of at 1. by rewrite H. Qed.

Lemma segment_objects_terms docs pass : terms_of <$> segment_objects docs pass = segment_terms docs pass.
Proof.
  unfold segment_objects, segment_terms. rewrite fmap_app. f_equal; apply objects_from_terms; [apply document_terms_eq|apply passage_terms_eq].
Qed.

Lemma segment_objects_concat docs pass : concat (segment_objects docs pass) = segment_occurrences docs pass.
Proof. unfold segment_objects, segment_occurrences. by rewrite concat_app, !objects_from_concat. Qed.

Lemma segment_terms_concat docs pass : concat (segment_terms docs pass) = occ_term <$> segment_occurrences docs pass.
Proof. rewrite <- segment_objects_terms, <- segment_objects_concat. generalize (segment_objects docs pass). induction l as [|o l IH]; [done|]. rewrite fmap_cons. cbn [concat]. by rewrite IH, fmap_app. Qed.

Lemma keys_from_in {X} type (xs : list X) k : forall i, k ∈ keys_from type i xs -> k.1 = type /\ i <= k.2.
Proof. induction xs as [|x xs IH]; intros i H; [by apply elem_of_nil in H|]. apply elem_of_cons in H as [->|H]; [done|]. destruct (IH _ H). split; [done|lia]. Qed.

Lemma keys_from_distinct {X} type (xs : list X) : forall i, NoDup (keys_from type i xs).
Proof. induction xs as [|x xs IH]; intros i; constructor; [|done]. intros [_ H]%keys_from_in. cbn in H. lia. Qed.

Lemma objects_from_keys {X} (f : Z -> X -> list YAP_V2_LEXICAL_OCCURRENCE) type xs : (forall i x, Forall (fun o => object_of o = (type, i)) (f i x)) ->
  forall i, Forall2 (fun o k => Forall (fun x => object_of x = k) o) (objects_from f i xs) (keys_from type i xs).
Proof. intros H. induction xs as [|x xs IH]; intros i; constructor; [apply H|apply IH]. Qed.

Lemma segment_objects_keys docs pass : Forall2 (fun o k => Forall (fun x => object_of x = k) o) (segment_objects docs pass) (segment_keys docs pass) /\ NoDup (segment_keys docs pass).
Proof.
  split.
  - apply Forall2_app; apply objects_from_keys; intros i x; apply Forall_forall; intros o Ho; unfold object_of.
    + by apply document_occurrences_in in Ho as [(->&->&_)|(->&->&_)].
    + by apply text_occurrences_in in Ho as (->&->&_).
  - apply NoDup_app. split_and!; [apply keys_from_distinct| |apply keys_from_distinct]. intros k [H1 _]%keys_from_in [H2 _]%keys_from_in. rewrite H1 in H2. done.
Qed.

(** The objects that have a term. *)
Definition having (t : bytes) (objects : list (list YAP_V2_LEXICAL_OCCURRENCE)) : list (list YAP_V2_LEXICAL_OCCURRENCE) :=
  filter (fun o => o <> []) (filter (fun x => occ_term x = t) <$> objects).

Lemma having_partition t objects keys : Forall2 (fun o k => Forall (fun x => object_of x = k) o) objects keys -> NoDup keys ->
  exists keys', partition object_of (having t objects) keys' /\ forall k, k ∈ keys' -> k ∈ keys.
Proof.
  unfold having. induction 1 as [|o k objects keys Ho HF IH]; intros HN; [exists []; split; [split; constructor|done]|]. apply NoDup_cons in HN as [Hn HN]. destruct (IH HN) as (keys'&HP&Hsub).
  rewrite fmap_cons, filter_cons. case_decide as D; [|exists keys'; split; [done|intros k' Hk'; right; by apply Hsub]].
  exists (k :: keys'). split; [|intros k' [->|Hk']%elem_of_cons; [by left|right; by apply Hsub]]. destruct HP as [HF' HN']. split; [|constructor; [intros Hk; by apply Hn, Hsub|done]].
  constructor; [|done]. split; [done|]. apply Forall_forall. intros x [_ Hx]%list_elem_of_filter. exact (proj1 (Forall_forall _ _) Ho x Hx).
Qed.

Lemma having_count t objects : zlen (having t objects) = postings_in t (terms_of <$> objects).
Proof.
  unfold having, postings_in. induction objects as [|o objects IH]; [done|]. rewrite !fmap_cons, !filter_cons.
  assert (filter (fun x => occ_term x = t) o <> [] <-> t ∈ terms_of o) as Hiff.
  { split.
    - destruct (filter _ o) as [|x l] eqn:E; [done|]. intros _. assert (x ∈ filter (fun x => occ_term x = t) o) as Hx by (rewrite E; by left). apply list_elem_of_filter in Hx as [<- Hx]. by apply list_elem_of_fmap_2.
    - intros (x&->&Hx)%list_elem_of_fmap E. assert (x ∈ filter (fun y => occ_term y = occ_term x) o) as Hin by by apply list_elem_of_filter. rewrite E in Hin. by apply elem_of_nil in Hin. }
  case_decide as D; case_decide as D'; [by rewrite !zlen_cons, IH|by apply Hiff in D|by apply Hiff in D'|done].
Qed.

Lemma having_in t objects x : x ∈ concat (having t objects) <-> occ_term x = t /\ x ∈ concat objects.
Proof.
  unfold having. induction objects as [|o objects IH]; [cbn; split; [by intros ?%elem_of_nil|by intros [_ ?%elem_of_nil]]|]. rewrite fmap_cons, filter_cons. cbn [concat]. rewrite elem_of_app.
  assert (x ∈ filter (fun x => occ_term x = t) o <-> occ_term x = t /\ x ∈ o) as Ho by by rewrite list_elem_of_filter.
  case_decide as D; [cbn [concat]; rewrite elem_of_app, IH, Ho; tauto|]. rewrite IH. clear IH.
  assert (~ x ∈ filter (fun x => occ_term x = t) o) as Hno by (rewrite D; apply not_elem_of_nil). tauto.
Qed.

(** A term has as many postings as there are documents and passages that contain it. *)
Lemma segment_postings docs pass items g : items ≡ₚ segment_occurrences docs pass -> StronglySorted occurrence_le items -> g ∈ runs same_term items ->
  postings_in (occ_term (first_of g)) (segment_terms docs pass) = zlen (runs same_object g).
Proof.
  intros HP HS Hg. rewrite <- segment_objects_terms, <- having_count. destruct (segment_objects_keys docs pass) as [HF HN].
  destruct (having_partition (occ_term (first_of g)) _ _ HF HN) as (keys&Hpt&_). apply (partition_count object_of _ _ _ _ Hpt (term_group_objects items HS g Hg)).
  intros x. rewrite having_in, segment_objects_concat, runs_concat, <- HP. rewrite <- (term_group items HS g Hg) at 2. by rewrite list_elem_of_filter.
Qed.
End objects.

(** ** The files of a slice *)
Section images.
Context {Q : Qsort} {T : Tokenizer} {J : Yyjson} (c : YAP_V2_CONFIG) (sid : bytes).

(** The terms in the order in which they are written, with their occurrences. *)
Definition slice_groups (d : slice_data) : list (list YAP_V2_LEXICAL_OCCURRENCE) :=
  runs same_term (sorted_items (segment_occurrences (slice_documents d) (slice_passages d))).

(** The payloads of documents.yap2, terms.yap2, postings.yap2, positions.yap2, metadata.yap2,
    vectors.yap2 and tombstones.yap2; a file that is not written is empty. *)
Definition slice_images (us : list YAP_V2_SEGMENT_UNIT) : list bytes :=
  let d := collect_slice us in
  let docs := slice_documents d in
  let pass := slice_passages d in
  let with_documents f := match docs with [] => [] | _ => f end in
  [segment_payload sid docs pass;
   with_documents (terms_image (slice_groups d));
   with_documents (postings_image (zlen docs) (zlen pass) (token_totals docs pass) (slice_groups d));
   with_documents (positions_image (slice_groups d));
   with_documents (metadata_image (field_names c) (zlen docs) (roots_entries (field_names c) 0 (omap document_root docs)));
   if negb (vector_metric c =? YAP_V2_VECTOR_DISABLED) && (0 <? zlen pass)
   then vectors_image c ((fun p => view_bytes (passage_id p)) <$> pass) (slice_vectors d) else [];
   match slice_tombstones d with [] => [] | ids => tombstones_payload ids end].

Lemma collect_counts us : let d := collect_slice us in
  zlen (slice_documents d) = total_of documents_part us /\ zlen (slice_passages d) = total_of passages_part us /\ zlen (slice_tombstones d) = total_of tombstones_part us.
Proof.
  unfold total_of. induction us as [|u us (IH1&IH2&IH3)]; [done|]. cbn [collect_slice]. rewrite !fmap_cons, !sum_cons, <- IH1, <- IH2, <- IH3. unfold documents_part, passages_part, tombstones_part.
  destruct (unit_document u) as [doc|]; cbn; rewrite ?zlen_cons, ?zlen_app; split_and!; lia.
Qed.

Lemma zlen_bind {X} (f : X -> bytes) (l : list X) : zlen (l ≫= f) = sum ((fun x => zlen (f x)) <$> l).
Proof. induction l as [|x l IH]; [done|]. rewrite bind_cons, zlen_app, fmap_cons, sum_cons, IH. done. Qed.

Lemma zlen_fmap_concat {X} (f : X -> bytes) (l : list X) : zlen (concat (f <$> l)) = sum ((fun x => zlen (f x)) <$> l).
Proof. induction l as [|x l IH]; [done|]. rewrite !fmap_cons. cbn [concat]. by rewrite zlen_app, sum_cons, IH. Qed.

Lemma collect_records us : let d := collect_slice us in
  zlen (slice_documents d ≫= document_record) + zlen (slice_passages d ≫= passage_record) = total_of document_part us /\
  zlen (concat ((fun p => view_bytes (passage_id p)) <$> slice_passages d)) = total_of ids_part us /\
  zlen (slice_tombstones d ≫= fun v => view_image (view_bytes v)) = total_of tombstone_part us.
Proof.
  cbv zeta. rewrite !zlen_bind, zlen_fmap_concat. unfold total_of. induction us as [|u us (IH1&IH2&IH3)]; [done|]. cbn [collect_slice]. rewrite !fmap_cons, !sum_cons, <- IH1, <- IH2, <- IH3.
  unfold document_part, ids_part, tombstone_part. destruct (unit_document u) as [doc|]; cbn [slice_documents slice_passages slice_tombstones]; rewrite ?fmap_cons, ?fmap_app, ?sum_cons, ?sum_app; split_and!; lia.
Qed.

Lemma collect_objects us : objects_of us ≡ₚ segment_terms (slice_documents (collect_slice us)) (slice_passages (collect_slice us)).
Proof.
  unfold segment_terms, objects_of. induction us as [|u us IH]; [done|]. cbn [collect_slice fmap list_fmap concat]. unfold fmap in IH. rewrite IH. unfold unit_objects.
  destruct (unit_document u) as [doc|]; cbn [slice_documents slice_passages]; [|done]. rewrite fmap_cons, fmap_app. solve_Permutation.
Qed.

Lemma stats_permutation L L' : L ≡ₚ L' -> stats L = stats L'.
Proof.
  intros HP. apply map_eq. intros t. rewrite !stats_lookup. assert (concat L ≡ₚ concat L') as HC by (clear -HP; induction HP; cbn [concat]; [done|by f_equiv|solve_Permutation|by etransitivity]).
  assert (occurrences_in t L = occurrences_in t L') as -> by (unfold occurrences_in, zlen; by rewrite HC). assert (postings_in t L = postings_in t L') as -> by (unfold postings_in, zlen; by rewrite HP).
  case_decide as D; case_decide as D'; [done| | |done]; by rewrite HC in D.
Qed.

(** The cost of the terms of a slice, term by term. *)
Lemma slice_cost us f : msum f (stats (objects_of us)) = sum ((fun g => f (occ_term (first_of g)) (group_stats g)) <$> slice_groups (collect_slice us)).
Proof.
  rewrite (stats_permutation _ _ (collect_objects us)). unfold slice_groups. set (docs := slice_documents _). set (pass := slice_passages _). pose proof (sorted_items_permutation (segment_occurrences docs pass)) as HP.
  pose proof (sorted_items_sorted (segment_occurrences docs pass)) as HS. apply msum_groups; [done| |].
  - rewrite segment_terms_concat. by rewrite HP.
  - intros g Hg. by apply (segment_postings docs pass (sorted_items (segment_occurrences docs pass))).
Qed.

(** The length of the metadata does not depend on the ordinals of the documents. *)
Lemma scalar_entry_length f d d' v : zlen (entries_image (option_list (scalar_entry f d v))) = zlen (entries_image (option_list (scalar_entry f d' v))).
Proof. unfold scalar_entry. destruct (scalar_text v) as [[[[type t] m]|]|e|]; [|done|done|done].
  etransitivity; [apply (zlen_one_entry (MetadataEntry f d type (mk_view (default [] t))))|]. symmetry. apply (zlen_one_entry (MetadataEntry f d' type (mk_view (default [] t)))). Qed.

Lemma scalars_entry_length f d d' vs : zlen (entries_image (omap (scalar_entry f d) vs)) = zlen (entries_image (omap (scalar_entry f d') vs)).
Proof.
  induction vs as [|v vs IH]; [done|]. pose proof (scalar_entry_length f d d' v) as E.
  assert (forall e, omap (scalar_entry f e) (v :: vs) = option_list (scalar_entry f e v) ++ omap (scalar_entry f e) vs) as Ho by (intros e; cbn; by destruct (scalar_entry f e v)).
  rewrite !Ho, !entries_image_app, !zlen_app. lia.
Qed.

Lemma names_entries_length names root d d' : forall i, zlen (entries_image (names_entries names i d root)) = zlen (entries_image (names_entries names i d' root)).
Proof.
  induction names as [|name names IH]; intros i; [done|]. cbn [names_entries]. rewrite !entries_image_app, !zlen_app, (IH (i + 1)). f_equal. unfold field_entries. destruct (value_at root name); [apply scalars_entry_length|done].
Qed.

Lemma collect_metadata us : forall i, zlen (entries_image (roots_entries (field_names c) i (omap document_root (slice_documents (collect_slice us))))) = total_of (metadata_part c) us.
Proof.
  unfold total_of. induction us as [|u us IH]; intros i; [done|]. cbn [collect_slice]. rewrite fmap_cons, sum_cons. unfold metadata_part at 1. destruct (unit_document u) as [doc|]; cbn [slice_documents mbind option_bind]; [|by rewrite IH].
  cbn [omap list_omap]. destruct (document_root doc) as [root|]; [|by rewrite IH]. cbn [roots_entries]. rewrite entries_image_app, zlen_app, IH. f_equal. apply names_entries_length.
Qed.

Lemma collect_vectors us : vector_metric c <> YAP_V2_VECTOR_DISABLED -> Forall (unit_ok c) us ->
  zlen (slice_vectors (collect_slice us)) = total_of passages_part us * vector_dimensions c.
Proof.
  intros Hm. unfold total_of. induction 1 as [|u us Hu _ IH]; [done|]. cbn [collect_slice]. rewrite fmap_cons, sum_cons. unfold unit_ok in Hu. unfold passages_part at 1. destruct (unit_document u) as [doc|]; cbn [slice_vectors]; [|lia].
  destruct Hu as (_&_&Hv). rewrite zlen_app, IH, (Hv Hm). lia.
Qed.

Lemma zlen_vectors_image ids values : zlen (vectors_image c ids values) =
  let head := 40 + zlen (c_str (vector_model_id c)) + 16 * zlen ids + zlen (concat ids) in head + zlen (padding_of head) + 4 * zlen values.
Proof.
  unfold vectors_image. cbv zeta. rewrite !zlen_app, zlen_records_image, zlen_floats_image, !zlen_put_u32_le, !zlen_put_u64_le.
  replace (40 + zlen (c_str (vector_model_id c)) + 16 * zlen ids + zlen (concat ids)) with (40 + (zlen (c_str (vector_model_id c)) + 16 * zlen ids + zlen (concat ids))) by lia.
  rewrite padding_of_40. lia.
Qed.

(** The sizes of the planner are the lengths of the files. *)
Lemma slice_sizes_exact us : Forall (unit_ok c) us -> slice_sizes c (zlen sid) us = zlen <$> slice_images us.
Proof.
  intros Hok. destruct (collect_counts us) as (C1&C2&C3). destruct (collect_records us) as (R1&R2&R3). unfold slice_sizes, slice_images, has_vectors. cbv zeta. rewrite !slice_cost.
  set (d := collect_slice us) in *. cbn [fmap list_fmap]. rewrite C2.
  assert ((0 <? total_of documents_part us) = match slice_documents d with [] => false | _ => true end) as -> by (rewrite <- C1; destruct (slice_documents d); [done|rewrite zlen_cons; pose_zlen; apply Z.ltb_lt; lia]).
  assert ((0 <? total_of tombstones_part us) = match slice_tombstones d with [] => false | _ => true end) as -> by (rewrite <- C3; destruct (slice_tombstones d); [done|rewrite zlen_cons; pose_zlen; apply Z.ltb_lt; lia]).
  f_equal; [|f_equal; [|f_equal; [|f_equal; [|f_equal; [|f_equal; [|f_equal]]]]]].
  - unfold segment_payload. rewrite !zlen_app, !zlen_put_u32_le, !zlen_put_u64_le. lia.
  - destruct (slice_documents d); [done|]. by rewrite zlen_terms_image.
  - destruct (slice_documents d); [done|]. by rewrite zlen_postings_image.
  - destruct (slice_documents d); [done|]. by rewrite zlen_positions_image.
  - pose proof (collect_metadata us 0) as HM. fold d in HM. destruct (slice_documents d); [done|]. unfold metadata_image, metadata_head. rewrite !zlen_app, !zlen_put_u32_le, !zlen_put_u64_le, HM. lia.
  - destruct (Z.eqb_spec (vector_metric c) YAP_V2_VECTOR_DISABLED) as [|Hm]; [done|]. cbn [negb andb]. destruct (0 <? total_of passages_part us); [|done]. rewrite zlen_vectors_image. cbv zeta. rewrite zlen_fmap, R2, C2.
    unfold d. rewrite (collect_vectors us Hm Hok). done.
  - unfold tombstones_payload. destruct (slice_tombstones d) as [|v ids]; [done|]. rewrite !zlen_app, zlen_put_u32_le, zlen_put_u64_le, R3. lia.
Qed.
End images.

(** ** The results *)
Section results.
Context {Q : Qsort} {T : Tokenizer} {J : Yyjson}.

(** The units make a segment with at most the allowed numbers of documents and passages and with
    payloads of at most [limit] bytes. *)
Definition within (c : YAP_V2_CONFIG) (sid : bytes) (limit : Z) (us : list YAP_V2_SEGMENT_UNIT) : Prop :=
  zlen (slice_documents (collect_slice us)) <= YAP_V2_MAX_SEGMENT_DOCUMENTS /\ zlen (slice_passages (collect_slice us)) <= YAP_V2_MAX_SEGMENT_PASSAGES /\
  Forall (fun f => zlen f <= limit) (slice_images c sid us).

(** A batch of valid units, none of which makes a file of 2^60 bytes. *)
Record batch_ok (c : YAP_V2_CONFIG) (sid : bytes) (units : list YAP_V2_SEGMENT_UNIT) : Prop := {
  bt_config : config_wf c;
  bt_valid : config_valid c;
  bt_id : zlen sid <= YAP_V2_MAX_IDENTIFIER_BYTES;
  bt_count : zlen units < 2 ^ 63;
  bt_units : Forall (unit_ok c) units;
  bt_small : Forall (fun u => Forall (fun f => zlen f < 2 ^ 60) (slice_images c sid [u])) units }.

Lemma fits_within c sid limit us : Forall (unit_ok c) us -> fits c (zlen sid) limit us = true <-> within c sid limit us.
Proof.
  intros Hok. destruct (collect_counts us) as (C1&C2&_). unfold fits, within. rewrite C1, C2, (slice_sizes_exact c sid us Hok), !andb_true_iff, !Z.leb_le, forallb_forall, Forall_forall.
  split; [intros [[H1 H2] H3]|intros (H1&H2&H3)]; split_and!; try done.
  - intros f Hf. apply Z.leb_le, H3, list_elem_of_In. by apply list_elem_of_fmap_2.
  - intros n (f&->&Hf)%list_elem_of_In%list_elem_of_fmap. by apply Z.leb_le, H3.
Qed.

Lemma not_fits_within c sid limit us : Forall (unit_ok c) us -> fits c (zlen sid) limit us = false <-> ~ within c sid limit us.
Proof. intros Hok. rewrite <- (fits_within c sid limit us Hok). by destruct (fits _ _ _ _). Qed.

Lemma slice_units_ok c units s : Forall (unit_ok c) units -> Forall (unit_ok c) (slice_units units s).
Proof. intros H. by apply Forall_slice. Qed.

(** The plan of a batch, for any policy. *)
Lemma batch_plan {A : Allocator} c sid units policy : batch_ok c sid units -> 0 <= target_payload_bytes policy ->
  match YAP_V2_segment_plan_with_policy (Some c) units (zlen sid) policy with
  | Ok plan => plan_ok c (zlen sid) units policy (plan_slices plan) /\ Forall2 prepared_rep units (plan_prepared_units plan)
  | Err (e, ce) => capacity_report c (zlen sid) units policy e ce
  | Fault => False
  end.
Proof.
  intros [Hw Hv Hi Hz Hok Hs] Ht. destruct ((zlen sid =? 0) || (target_payload_bytes policy =? 0) || (soft_max_payload_bytes policy <? target_payload_bytes policy) ||
      (hard_max_payload_bytes policy <? soft_max_payload_bytes policy) || (YAP_V2_MAX_SEGMENT_PAYLOAD_BYTES <? hard_max_payload_bytes policy)) eqn:EG.
  { unfold YAP_V2_segment_plan_with_policy. rewrite EG. by left. }
  btests. pose proof (zlen_nonneg sid). apply plan_rep; try done; try lia. rewrite Forall_forall in Hs, Hok |- *. intros u Hu. apply (sizes_small c (zlen sid)); [done|done|lia|].
  rewrite (slice_sizes_exact c sid [u]) by (constructor; [by apply Hok|done]). apply Forall_fmap. by apply Hs.
Qed.

(** C10: cutting a batch of units into segments.  When the planner returns a plan, its slices cover
    the units in their order, so that every unit is in exactly one segment; the payload of every
    file of a segment is at most as long as the hard limit of the policy, and as the soft limit
    when the segment has more than one unit, and the segment holds at most the allowed numbers of
    documents and passages; a slice is as long as it can be: with the first unit of the next slice
    a file would exceed the target.  When it reports a capacity error, it names a unit that does
    not fit the hard limit even on its own. *)
Theorem segment_plan_correct {A : Allocator} (c : YAP_V2_CONFIG) (sid : bytes) (units : list YAP_V2_SEGMENT_UNIT) (policy : YAP_V2_SEGMENT_SIZE_POLICY) :
  batch_ok c sid units -> 0 <= target_payload_bytes policy ->
  match YAP_V2_segment_plan_with_policy (Some c) units (zlen sid) policy with
  | Ok plan =>
      covers 0 (zlen units) (plan_slices plan) /\
      (units <> [] -> Forall (fun s => 0 < slice_count s /\ within c sid (hard_max_payload_bytes policy) (slice_units units s) /\
        (2 <= slice_count s -> within c sid (soft_max_payload_bytes policy) (slice_units units s))) (plan_slices plan)) /\
      Forall (fun s => exists v, units !! Z.to_nat (slice_first s + slice_count s) = Some v /\
        ~ within c sid (target_payload_bytes policy) (slice_units units s ++ [v])) (removelast (plan_slices plan))
  | Err (e, error) =>
      error = capacity_error_zero \/
      e = YAP_V2_SEGMENT_CAPACITY_EXCEEDED /\ ce_limit_bytes error = hard_max_payload_bytes policy /\ hard_max_payload_bytes policy < ce_required_bytes error /\
      exists u, u ∈ units /\ ce_document_id error = unit_id u /\ ~ within c sid (hard_max_payload_bytes policy) [u]
  | Fault => False
  end.
Proof.
  intros HB Ht. pose proof (batch_plan c sid units policy HB Ht) as HP. pose proof (bt_units _ _ _ HB) as Hok.
  destruct (YAP_V2_segment_plan_with_policy _ _ _ _) as [plan|[e ce]|]; [|destruct HP as [?|(He&Hl&Hr&u&Hu&Hd&Hf)]; [by left|right]|done].
  - destruct HP as [(Hc&_&Hw&Hf) _]. split_and!; [done| |].
    + intros Hne. eapply Forall_impl; [by apply Hw|]. intros s (H1&H2&H3). rewrite <- !fits_within by by apply slice_units_ok. done.
    + eapply Forall_impl; [exact Hf|]. intros s (v&Hv&Hn). exists v. split; [done|]. apply not_fits_within; [|done].
      apply Forall_app. split; [by apply slice_units_ok|]. constructor; [|done]. by apply (proj1 (Forall_lookup _ _) Hok _ _ Hv).
  - split_and!; [done|done|done|]. exists u. split_and!; [done|done|]. apply not_fits_within; [|done]. constructor; [|done]. by apply (proj1 (Forall_forall _ _) Hok).
Qed.

(** C11: the planner predicts the files exactly.  For every slice of a plan, the seven sizes that
    it records are the lengths of the payloads that the writers produce for the units of the
    slice: the records of the documents and passages, the three files of the lexical index with
    its terms sorted and its postings counted by term and object, the metadata records, the
    vectors with their padding and the tombstones, 0 for a file that is not written. *)
Theorem planned_sizes_exact {A : Allocator} (c : YAP_V2_CONFIG) (sid : bytes) (units : list YAP_V2_SEGMENT_UNIT) (policy : YAP_V2_SEGMENT_SIZE_POLICY) (plan : YAP_V2_SEGMENT_PLAN) :
  batch_ok c sid units -> 0 <= target_payload_bytes policy -> YAP_V2_segment_plan_with_policy (Some c) units (zlen sid) policy = Ok plan ->
  Forall (fun s => payload_sizes s = zlen <$> slice_images c sid (slice_units units s)) (plan_slices plan).
Proof.
  intros HB Ht E. pose proof (batch_plan c sid units policy HB Ht) as HP. rewrite E in HP. destruct HP as [(_&He&_) _].
  eapply Forall_impl; [exact He|]. intros s Hs. rewrite Hs. apply slice_sizes_exact. by apply slice_units_ok, (bt_units _ _ _ HB).
Qed.
End results.

(** ** A concrete batch *)

(** Two documents, one of them with a passage and its vector, and a tombstone. *)
Definition plan_document (id : Z) : YAP_V2_DOCUMENT_VIEW := DocumentView (mk_view [id]) (mk_view []) (mk_view [120]) (mk_view [121; 120]) (mk_view [49]) 1.
Definition plan_units_demo : list YAP_V2_SEGMENT_UNIT :=
  [SegmentUnit (Some (plan_document 97)) [demo_index_passage] (Some (replicate (Z.to_nat (vector_dimensions vectors_config)) 0)) (BytesView None 0);
   SegmentUnit None [] None (mk_view [98]);
   SegmentUnit (Some (plan_document 99)) [] None (BytesView None 0)].
Definition plan_policy : YAP_V2_SEGMENT_SIZE_POLICY := SizePolicy 400 500 600.

Definition plan_demo := YAP_V2_segment_plan_with_policy (A := alloc_total) (J := demo_json) (Some vectors_config) plan_units_demo (zlen [115]) plan_policy.
Lemma plan_batch_ok : batch_ok (J := demo_json) vectors_config [115] plan_units_demo.
Proof.
  split; [exact vectors_config_wf|exact vectors_config_valid|done|done| |].
  - repeat constructor; cbn; try done; try lia; try (by apply (bool_decide_unpack _); vm_compute); by apply not_elem_of_nil.
  - repeat constructor; vm_compute; done.
Qed.

Lemma segment_plan_correct_witness :
  match plan_demo with
  | Ok plan => (slice_count <$> plan_slices plan) = [2; 1] /\ covers 0 3 (plan_slices plan) /\
      Forall (fun s => exists v, plan_units_demo !! Z.to_nat (slice_first s + slice_count s) = Some v /\
        ~ within (J := demo_json) vectors_config [115] 400 (slice_units plan_units_demo s ++ [v])) (removelast (plan_slices plan))
  | _ => False
  end.
Proof.
  pose proof (segment_plan_correct (A := alloc_total) (J := demo_json) vectors_config [115] plan_units_demo plan_policy plan_batch_ok ltac:(vm_compute; discriminate)) as H.
  assert (match plan_demo with Ok plan => bool_decide ((slice_count <$> plan_slices plan) = [2; 1]) | _ => false end = true) as E by (vm_compute; reflexivity).
  fold plan_demo in H. destruct plan_demo as [plan|e|]; [|discriminate E|discriminate E]. destruct H as (Hc&_&Hf).
  split; [exact (bool_decide_eq_true_1 _ E)|]. split; [exact Hc|exact Hf].
Defined.

Lemma planned_sizes_exact_witness : exists plan, plan_demo = Ok plan /\
  Forall (fun s => payload_sizes s = zlen <$> slice_images (J := demo_json) vectors_config [115] (slice_units plan_units_demo s)) (plan_slices plan) /\
  (payload_sizes <$> plan_slices plan) = [[102; 102; 320; 84; 111; 72; 17]; [66; 102; 224; 68; 111; 0; 0]].
Proof.
  assert (match plan_demo with Ok plan => bool_decide ((payload_sizes <$> plan_slices plan) = [[102; 102; 320; 84; 111; 72; 17]; [66; 102; 224; 68; 111; 0; 0]]) | _ => false end = true) as E by (vm_compute; reflexivity).
  destruct plan_demo as [plan|e|] eqn:EP; [|discriminate E|discriminate E]. exists plan. split; [reflexivity|]. split; [|exact (bool_decide_eq_true_1 _ E)].
  exact (planned_sizes_exact (A := alloc_total) (J := demo_json) vectors_config [115] plan_units_demo plan_policy plan plan_batch_ok ltac:(vm_compute; discriminate) EP).
Defined.
