(* ===== verification/Ann.v ===== *)
(** The nearest-neighbour index of a segment (src/src/components/yappo_ann_v2.c): building it from
    the vectors and saving it.

    USearch is a library outside of the repository: the class [Usearch] has the functions that the
    code calls, [None] or [false] when they report an error.  Its law is that saving an index
    changes no file but the one that is named, and that the size of this file is an [off_t]. *)
From Stdlib Require Import String.
From S2P Require Import Prelude Words Types Sha256 Header SlotTable Manifest FileSystem Segment Verify CString Config Vectors Frame.
#[local] Open Scope io_scope.
#[local] Open Scope Z_scope.

Inductive YAP_ANN_STATUS :=
  | YAP_ANN_INVALID_ARGUMENT
  | YAP_ANN_ALLOCATION_FAILED
  | YAP_ANN_IO_ERROR
  | YAP_ANN_BACKEND_ERROR
  | YAP_ANN_CONFLICT.

Inductive usearch_metric_kind_t :=
  | usearch_metric_cos_k
  | usearch_metric_ip_k
  | usearch_metric_l2sq_k
  | usearch_metric_unknown_k.
#[export] Instance metric_kind_eq_dec : EqDecision usearch_metric_kind_t.
Proof. solve_decision. Defined.

Definition metric_kind (metric : Z) : usearch_metric_kind_t :=
  if metric =? YAP_V2_VECTOR_COSINE then usearch_metric_cos_k
  else if metric =? YAP_V2_VECTOR_DOT then usearch_metric_ip_k
  else if metric =? YAP_V2_VECTOR_L2 then usearch_metric_l2sq_k
  else usearch_metric_unknown_k.

(** The options that the code sets; the scalars are always 32-bit floats. *)
Record usearch_init_options_t := InitOptions {
  opt_metric_kind : usearch_metric_kind_t;
  opt_dimensions : Z;
  opt_connectivity : Z;
  opt_expansion_add : Z;
  opt_expansion_search : Z }.

Class Usearch := {
  usearch_index_t : Type;
  usearch_init : usearch_init_options_t -> option usearch_index_t;
  usearch_reserve : usearch_index_t -> Z -> option usearch_index_t;
  usearch_add : usearch_index_t -> Z -> list Z -> option usearch_index_t;
  usearch_save : usearch_index_t -> path -> io bool;
  usearch_save_frame index p w : bounded [] [p] w ->
    wp (usearch_save index p) (fun saved w' => touches [] [p] w w' /\ (saved = true -> forall bs, file_at w' p = Some bs -> zlen bs < 2 ^ 63)) (touches [] [p] w) w }.

Section ann.
Context {A : Allocator} {U : Usearch} (garbage : nat -> Z).

Definition create_index_for_config (metric dimensions connectivity expansion_add expansion_search : Z) : option usearch_index_t :=
  usearch_init (InitOptions (metric_kind metric) dimensions connectivity expansion_add expansion_search).

Definition create_index (vectors : YAP_V2_VECTOR_SEGMENT) (connectivity expansion_add expansion_search : Z) : option usearch_index_t :=
  create_index_for_config (vs_metric vectors) (vs_dimensions vectors) connectivity expansion_add expansion_search.

Definition ANN_NAME : bytes := text "vectors.usearch"%string.

Definition descriptor (p : path) (records : Z) : io (outcome YAP_ANN_STATUS YAP_V2_COMPONENT_DESCRIPTOR) :=
  let* digest := YAP_V2_file_sha256 garbage (Some p) in
  io_ret (match digest with
          | Ok (checksum, bytes_) => Ok (ComponentDescriptor ANN_NAME YAP_V2_FILE_ANN records bytes_ checksum)
          | Err _ => Err YAP_ANN_IO_ERROR
          | Fault => Fault
          end).

(** The loop over the vectors; the key of a vector is its position. *)
Fixpoint add_entries (index : usearch_index_t) (i : Z) (entries : list YAP_VECTOR_ENTRY) : option usearch_index_t :=
  match entries with
  | [] => Some index
  | e :: entries => index ← usearch_add index i (vec_values e); add_entries index (i + 1) entries
  end.

(** The index of the vectors, in memory. *)
Definition build_index (vectors : YAP_V2_VECTOR_SEGMENT) (connectivity expansion_add expansion_search : Z) : option usearch_index_t :=
  index ← create_index vectors connectivity expansion_add expansion_search;
  index ← usearch_reserve index (zlen (vs_entries vectors));
  add_entries index 0 (vs_entries vectors).

(** No entries stand for a null array as well. *)
Definition YAP_V2_ann_build_save (p : option path) (vectors : YAP_V2_VECTOR_SEGMENT) (connectivity expansion_add expansion_search : Z)
  : io (outcome YAP_ANN_STATUS YAP_V2_COMPONENT_DESCRIPTOR) :=
  match p with
  | None => io_ret (Err YAP_ANN_INVALID_ARGUMENT)
  | Some p =>
    if (zlen (vs_entries vectors) =? 0) || bool_decide (metric_kind (vs_metric vectors) = usearch_metric_unknown_k) ||
       (connectivity =? 0) || (expansion_add =? 0) || (expansion_search =? 0)
    then io_ret (Err YAP_ANN_INVALID_ARGUMENT)
    else
    match build_index vectors connectivity expansion_add expansion_search with
    | None => io_ret (Err YAP_ANN_BACKEND_ERROR)
    | Some index =>
      if SIZE_MAX - 5 <? zlen p then io_ret (Err YAP_ANN_ALLOCATION_FAILED)
      else if negb (alloc_ok (zlen p + 5)) then io_ret (Err YAP_ANN_ALLOCATION_FAILED)
      else
      do* unlink (tmp_path p) in
      let* status := (let* saved := usearch_save index (tmp_path p) in
                      if negb saved then io_ret (Err YAP_ANN_BACKEND_ERROR)
                      else
                      let* renamed := rename (tmp_path p) p in
                      if negb renamed then io_ret (Err YAP_ANN_IO_ERROR)
                      else descriptor p (zlen (vs_entries vectors))) in
      match status with
      | Ok component => io_ret (Ok component)
      | Err e => do* unlink (tmp_path p) in io_ret (Err e)
      | Fault => io_ret Fault
      end
    end
  end.
End ann.
