(* ===== verification/SegmentFiles.v ===== *)
(** The files of a segment on disk: for each of the writers (src/src/storage/yappo_segment_v2.c,
    src/src/components/yappo_metadata_v2.c, yappo_vector_v2.c and yappo_ann_v2.c), what it reports
    to have written is there, described, and no other file has changed. *)
From Stdlib Require Import String.
From S2P Require Import Prelude Words Types Crc Sha256 Header SlotTable Manifest FileSystem Reader Buffer Segment Verify CString Config Json Vectors Metadata LexicalWriter Frame LexicalFiles MetadataFiles Ann.
#[local] Open Scope io_scope.
#[local] Open Scope Z_scope.

Section files.
Context {A : Allocator} (garbage : nat -> Z).

Lemma apart_fresh p w i : tmp_apart p w -> current w (tmp_path p) = Some i -> (i < next_inode w)%nat.
Proof. intros [H _] Hi. apply H. by right. Qed.

(** ** Documents and tombstones *)
Lemma write_atomic_frame p bs w0 : tmp_apart p w0 ->
  wp (write_atomic p bs) (fun r w => changes p (tmp_path p) w0 w /\ match r with Ok _ => durable p bs w | Err _ => True | Fault => False end) trivial w0.
Proof.
  intros Hap. eapply wp_weaken; [apply wp_conj; [by apply (write_atomic_wp p w0 bs)|apply write_atomic_within; intros i; by apply apart_fresh]| |done].
  intros [[]|e|] w [H1 H2]; done.
Qed.

Lemma segment_write_frame p sid g docs pass w0 : c_string sid -> g <> 0 -> Forall document_wf docs -> Forall passage_wf pass -> tmp_apart p w0 ->
  let file := file_image YAP_V2_FILE_DOCUMENTS g (segment_payload sid docs pass) in
  wp (YAP_V2_segment_write garbage (Some p) (Some sid) g docs pass)
    (fun r w => changes p (tmp_path p) w0 w /\
      match r with
      | Ok d => durable p file w /\ d = written_descriptor sid docs pass file /\ segment_views_valid docs pass /\
          zlen (segment_payload sid docs pass) <= YAP_V2_MAX_SEGMENT_PAYLOAD_BYTES
      | Err _ => True | Fault => False end) trivial w0.
Proof.
  intros Hs Hg Hd Hp Hap file. assert (changes p (tmp_path p) w0 w0) as HR by (apply changes_refl; intros i; by apply apart_fresh).
  unfold YAP_V2_segment_write. rewrite (proj2 (Z.eqb_neq g 0)) by done. pose proof (segment_file_data_spec garbage sid g docs pass Hs Hg Hd Hp) as H.
  destruct (segment_file_data garbage sid g docs pass) as [f|e|]; [|by apply wp_ret|done]. destruct H as (Hid&Hval&->&Hl). fold file.
  rewrite sha256_digest_eq by apply stack_sha_valid. apply wp_bind. eapply wp_mono; [by apply write_atomic_frame|]. intros r w [HC HD]. apply wp_ret. split; [done|].
  destruct r as [[]|e|]; [|done|done]. cbn [mbind outcome_bind]. rewrite documents_descriptor_spec; [done| |done]. unfold file. rewrite zlen_file_image. pose_zlen. lia.
Qed.

Lemma tombstones_write_frame p g ids w0 : g <> 0 -> Forall view_wf ids -> tmp_apart p w0 ->
  let file := file_image YAP_V2_FILE_TOMBSTONES g (tombstones_payload ids) in
  wp (YAP_V2_tombstones_write garbage (Some p) g ids)
    (fun r w => component_written p file (describe TOMBSTONES_NAME YAP_V2_FILE_TOMBSTONES (zlen ids) file) w0 r w /\
      match r with Ok _ => zlen (tombstones_payload ids) <= YAP_V2_MAX_SEGMENT_PAYLOAD_BYTES | _ => True end) trivial w0.
Proof.
  intros Hg Hw Hap. cbv zeta. assert (changes p (tmp_path p) w0 w0) as HR by (apply changes_refl; intros i; by apply apart_fresh).
  unfold YAP_V2_tombstones_write. rewrite (proj2 (Z.eqb_neq g 0)) by done. pose proof (tombstones_file_data_spec garbage g ids Hg Hw) as H.
  destruct (tombstones_file_data garbage g ids) as [f|e|]; [|by apply wp_ret|done]. destruct H as (_&<-&Hl).
  apply wp_bind. eapply wp_mono; [by apply write_atomic_frame|]. intros r w [HC HD]. apply wp_ret.
  destruct r as [[]|e|]; [|by split|done]. rewrite outcome_bind_ok, sha256_digest_eq by apply stack_sha_valid. rewrite outcome_bind_ok. split; [by split|exact Hl].
Qed.

(** ** Metadata and vectors *)
Lemma write_vectors_tmp_within p w0 i header payload w : temporary (tmp_path p) w0 i -> changes p (tmp_path p) w0 w ->
  wp (write_vectors_tmp i header payload) (fun _ => changes p (tmp_path p) w0) (changes p (tmp_path p) w0) w.
Proof.
  intros Hi. revert w. unfold write_vectors_tmp. apply within_bind; [|intros b; apply within_bind; [apply within_noop|intros b'; apply within_ret]].
  apply within_bind; [by apply within_fwrite|]. intros [|]; [|apply within_ret]. cbn [negb].
  apply within_bind; [by apply within_fwrite|]. intros [|]; [|apply within_ret]. cbn [negb].
  apply within_bind; [apply within_noop|]. intros [|]; [by apply within_fsync|apply within_ret].
Qed.

(** Reading a file changes nothing, whatever its size. *)
Abbreviation quiet c := (forall w, wp c (fun _ => frames w) (frames w) w).

Lemma quiet_ret {B} (b : B) : quiet (io_ret b).
Proof. intros w. apply frames_refl. Qed.
Lemma quiet_noop : quiet (call (fun w => w)).
Proof. intros w. apply wp_noop; [intros s b|intros s]; by exists s. Qed.
Lemma quiet_bind {B C} (c : io B) (f : B -> io C) : quiet c -> (forall b, quiet (f b)) -> quiet (io_bind c f).
Proof. intros Hc Hf w. apply wp_bind. eapply wp_mono; [apply Hc|]. intros b w' Hw. eapply wp_weaken; [apply Hf|intros b' w''|intros w'']; by apply frames_trans. Qed.

Lemma quiet_hash_chunks fuel : forall rest sha total, quiet (hash_chunks fuel rest sha total).
Proof.
  induction fuel as [|fuel IH]; intros rest sha total; [apply quiet_ret|]. cbn [hash_chunks]. apply quiet_bind; [apply quiet_noop|]. intros [|]; cbn [negb]; [|apply quiet_ret].
  destruct (_ =? _); [apply quiet_ret|]. destruct (_ <? _); [apply quiet_bind; [apply quiet_noop|intros b; apply quiet_ret]|]. destruct (sha256_update _ _); [apply IH|apply quiet_ret..].
Qed.

Lemma quiet_file_sha256 p : quiet (YAP_V2_file_sha256 garbage (Some p)).
Proof.
  unfold YAP_V2_file_sha256. apply quiet_bind; [apply quiet_bind; [apply quiet_noop|]; intros b w; apply frames_refl|]. intros [bs|]; [|apply quiet_ret].
  apply quiet_bind; [apply quiet_hash_chunks|]. intros [[sha total]|e|]; [|apply quiet_ret..]. apply quiet_bind; [apply quiet_noop|]. intros b. apply quiet_ret.
Qed.

Lemma quiet_within {B} (c : io B) p t w0 : quiet c -> forall w, changes p t w0 w -> wp c (fun _ => changes p t w0) (changes p t w0) w.
Proof. intros Hc w Hw. eapply wp_weaken; [apply Hc|intros b w' [s ->]|intros w' [s ->]]; by apply changes_script. Qed.

Lemma unlink_within {B} p w0 (b : B) w : changes p (tmp_path p) w0 w -> wp (do* unlink (tmp_path p) in io_ret b) (fun _ => changes p (tmp_path p) w0) (changes p (tmp_path p) w0) w.
Proof. revert w. apply within_bind; [apply within_unlink, tmp_path_ne|]. intros b'. apply within_ret. Qed.

Lemma metadata_atomic_within p g payload records w0 : tmp_apart p w0 ->
  wp (metadata_write_atomic garbage p g payload records) (fun _ => changes p (tmp_path p) w0) (changes p (tmp_path p) w0) w0.
Proof.
  intros Hap. pose proof (fun i => apart_fresh p w0 i Hap) as Hfresh. pose proof (changes_refl p (tmp_path p) w0 Hfresh) as HR. unfold metadata_write_atomic.
  destruct (metadata_header _ _ _); [|by apply wp_ret..]. destruct (negb (alloc_ok _)); [by apply wp_ret|].
  apply wp_bind, (within_fopen p _ w0 Hfresh); [apply tmp_path_ne| |by intros; apply wp_ret|done]. intros i w1 Hi. revert w1.
  apply within_bind; [intros w; by apply write_vectors_tmp_within|]. intros written. apply within_bind; [destruct (negb written); [apply within_ret|apply within_rename, tmp_path_ne]|].
  intros [|]; cbn [negb]; [|intros w; by apply unlink_within]. destruct (negb (alloc_ok _)); [apply within_ret|]. apply within_bind; [apply within_fsync_parent|]. intros [|]; cbn [negb]; [|apply within_ret].
  apply within_bind; [apply quiet_within, quiet_file_sha256|]. intros r. apply within_ret.
Qed.

Lemma metadata_write_frame {J : Yyjson} p g c docs roots w0 : config_wf c -> g <> 0 -> Forall document_wf docs -> length roots = length docs -> tmp_apart p w0 ->
  wp (YAP_V2_metadata_write_preparsed garbage (Some p) g (Some c) docs roots)
    (fun r w => changes p (tmp_path p) w0 w /\ match r with Ok d => exists vals, roots = Some <$> vals /\ metadata_written c p g (zlen docs) vals d w | Err _ => True | Fault => False end) trivial w0.
Proof.
  intros Hw Hg HD Hl Hap. eapply wp_weaken; [apply wp_conj; [by apply (metadata_write_preparsed_wp garbage p g c docs roots w0)|]| |done].
  - instantiate (1 := changes p (tmp_path p) w0). instantiate (1 := fun _ => changes p (tmp_path p) w0).
    assert (changes p (tmp_path p) w0 w0) as HR by (apply changes_refl; intros i; by apply apart_fresh). unfold YAP_V2_metadata_write_preparsed.
    destruct (YAP_V2_config_validate _); [|by apply wp_ret..]. destruct (_ <? _); [by apply wp_ret|]. destruct (metadata_payload _ _ _ _) as [[payload n]|e|]; [|by apply wp_ret..]. by apply metadata_atomic_within.
  - intros [d|e|] w [H HC]; [|done|done]. split; [done|]. by destruct H as (_&_&H).
Qed.

(** The writer of vectors does what that of the lexical index does. *)
Lemma vectors_atomic_frame p g payload records w0 : g <> 0 -> buffer_ok payload -> content payload <> [] -> tmp_apart p w0 -> zlen p + 5 <= SIZE_MAX ->
  let file := file_image YAP_V2_FILE_VECTORS g (content payload) in
  wp (vectors_write_atomic garbage p g payload records) (component_written p file (describe VECTORS_NAME YAP_V2_FILE_VECTORS records file) w0) (changes p (tmp_path p) w0) w0.
Proof.
  intros Hg Hb Hne Hap Hz file. pose proof (write_component_wp garbage p VECTORS_NAME YAP_V2_FILE_VECTORS g payload records w0 eq_refl Hg Hb Hap) as H. cbv zeta in H. fold file in H.
  assert (write_component garbage p VECTORS_NAME YAP_V2_FILE_VECTORS g payload records w0 = vectors_write_atomic garbage p g payload records w0) as EQ; [|unfold wp in *; by rewrite <- EQ].
  unfold write_component, vectors_write_atomic.
  change (vectors_header garbage g payload) with (component_header garbage YAP_V2_FILE_VECTORS g payload). rewrite component_header_spec by done.
  rewrite (proj2 (Z.ltb_ge (SIZE_MAX - 5) (zlen p))) by lia. destruct (negb (alloc_ok (zlen p + 5))); [done|]. unfold io_bind at 1 6.
  destruct (fopen_wb (tmp_path p) w0) as [[i|] w1|w1]; [|done|done]. by rewrite (write_tmp_eq i _ (take (Z.to_nat (buffer_len payload)) (buffer_data payload))).
Qed.
Lemma vectors_write_frame p g c passages values w0 : config_wf c -> g <> 0 -> Forall passage_wf passages -> zlen values = zlen passages * vector_dimensions c -> tmp_apart p w0 ->
  zlen p + 5 <= SIZE_MAX -> let file := file_image YAP_V2_FILE_VECTORS g (vectors_image c (passage_ids passages) values) in
  wp (YAP_V2_vectors_write garbage (Some p) g (Some c) passages (Some (EmbeddingResult (Some values) (zlen passages) (vector_dimensions c))))
    (fun r w => component_written p file (describe VECTORS_NAME YAP_V2_FILE_VECTORS (zlen passages) file) w0 r w /\
      match r with Ok _ => config_valid c /\ vector_metric c <> YAP_V2_VECTOR_DISABLED /\ bytes_ok (vectors_image c (passage_ids passages) values) /\
        zlen (vectors_image c (passage_ids passages) values) <= YAP_V2_MAX_SEGMENT_PAYLOAD_BYTES
      | _ => True end) trivial w0.
Proof.
  intros Hw Hg HP Hv Hap Hz. cbv zeta. assert (changes p (tmp_path p) w0 w0) as HR by (apply changes_refl; intros i; by apply apart_fresh).
  unfold YAP_V2_vectors_write. destruct (config_validate_spec c Hw) as [HI HF]. destruct (YAP_V2_config_validate (Some c)) as [[]|e|]; [|by apply wp_ret|done].
  assert (config_valid c) as Hc by by apply HI. destruct (_ || _) eqn:E; [by apply wp_ret|]. btests. change (default [] (emb_values _)) with values.
  pose proof (vectors_payload_spec garbage c passages values Hw Hc ltac:(done) HP Hv) as HS. destruct (vectors_payload _ _ _ _) as [payload|e|]; [|by apply wp_ret|done].
  destruct HS as (Hb&Hcont&Hpo&_). pose proof (zlen_content payload Hb) as Hzc. pose proof Hb as (?&?&_). rewrite <- Hcont.
  assert (content payload <> []) as Hne by (rewrite Hcont; unfold vectors_image; by destruct (put_u32_le VECTOR_PAYLOAD_VERSION) eqn:Ev).
  assert (bytes_ok (content payload)) as Hok.
  { rewrite Hcont. apply (vectors_image_ok (fun _ => true)); [done|done|]. apply passage_ids_readable; [done|]. by apply Forall_true. }
  eapply wp_weaken; [by apply vectors_atomic_frame| |done]. intros r w HC. split; [done|]. destruct r; [|done..]. split_and!; [done|done|done|lia].
Qed.

Lemma quiet_vector_open utf8_valid p g c segment : quiet (YAP_V2_vector_segment_open utf8_valid (Some p) g (Some c) segment).
Proof.
  unfold YAP_V2_vector_segment_open. destruct (YAP_V2_config_validate _); [|apply quiet_ret..]. destruct (_ =? _); [apply quiet_ret|].
  apply quiet_bind; [apply quiet_bind; [apply quiet_noop|]; intros b w; apply frames_refl|]. intros [bs|]; [|apply quiet_ret].
  apply quiet_bind; [apply quiet_noop|]. intros stat. destruct (_ || _); [apply quiet_bind; [apply quiet_noop|intros b; apply quiet_ret]|].
  apply quiet_bind; [apply quiet_noop|]. intros [|]; cbn [negb]; (apply quiet_bind; [apply quiet_noop|intros b; apply quiet_ret]).
Qed.

(** Opening a vectors file that is there does not fault. *)
Lemma vector_open_safe utf8_valid p g c segment w : config_wf c -> (forall bs, file_at w p = Some bs -> bytes_ok bs /\ zlen bs < 2 ^ 64) ->
  wp (YAP_V2_vector_segment_open utf8_valid (Some p) g (Some c) segment) (fun r _ => r.2 <> Fault) trivial w.
Proof.
  intros Hw Hf. unfold YAP_V2_vector_segment_open. destruct (config_validate_spec c Hw) as [HI HF]. destruct (YAP_V2_config_validate (Some c)) as [[]|e|]; [|by apply wp_ret|done].
  assert (config_valid c) as Hc by by apply HI. destruct (Z.eqb_spec (vector_metric c) YAP_V2_VECTOR_DISABLED) as [|Hm]; [by apply wp_ret|].
  apply wp_bind. unfold fopen_rb. apply wp_bind, wp_noop; [|done]. intros s b. unfold wp. cbn.
  assert (forall o, (forall bs, o = Some bs -> bytes_ok bs /\ zlen bs < 2 ^ 64) -> forall w, wp match o with
    | Some bs => let* stat := fstat in
        if negb stat || (zlen bs <? YAP_V2_FILE_HEADER_BYTES) || (SIZE_MAX <? zlen bs) then do* fclose_rb in io_ret (segment, Err YAP_V2_INVALID_FORMAT)
        else let* mapped := mmap in
          if negb mapped then do* fclose_rb in io_ret (segment, Err YAP_V2_IO_ERROR)
          else do* fclose_rb in io_ret (install_vectors utf8_valid c g bs segment)
    | None => io_ret (segment, Err YAP_V2_INVALID_FORMAT) end (fun r _ => r.2 <> Fault) trivial w) as H.
  { clear -Hw Hc Hm. intros [bs|] Hf w; [|by apply wp_ret]. destruct (Hf bs eq_refl) as [Hok Hz]. apply wp_bind, wp_noop; [|done]. intros s stat.
    destruct (_ || _) eqn:E; [apply wp_bind, wp_noop; [|done]; intros s' b; by apply wp_ret|]. btests. apply wp_bind, wp_noop; [|done]. intros s' [|]; cbn [negb].
    - apply wp_bind, wp_noop; [|done]. intros s'' b. apply wp_ret. pose proof (install_vectors_sound utf8_valid c g bs segment Hw Hc Hm Hok) as HI.
      unfold YAP_V2_FILE_HEADER_BYTES in *. specialize (HI ltac:(lia)). by destruct (install_vectors _ _ _ _ _) as [? []].
    - apply wp_bind, wp_noop; [|done]. intros s'' b. by apply wp_ret. }
  apply H. destruct b; [|done]. intros bs Hbs. by apply Hf.
Qed.

(** ** The nearest-neighbour index *)
Section ann.
Context {U : Usearch}.

Lemma single_disjoint (p : path) x : x ∈ [p] -> x ∈ [tmp_path p] -> False.
Proof. rewrite !list_elem_of_singleton. intros -> E. by apply (tmp_path_ne p). Qed.

Lemma bounded_fresh (p : path) ps w i : bounded ps [tmp_path p] w -> current w (tmp_path p) = Some i -> (i < next_inode w)%nat.
Proof. intros [_ H]. apply H. by left. Qed.

(** One step on the file and its temporary name. *)
Lemma touches_step {B} (c : io B) p w0 w :
  (forall w0, (forall i, current w0 (tmp_path p) = Some i -> (i < next_inode w0)%nat) -> wp c (fun _ => changes p (tmp_path p) w0) trivial w0) ->
  touches [p] [tmp_path p] w0 w -> wp c (fun _ => touches [p] [tmp_path p] w0) trivial w.
Proof.
  intros Hc Hw. pose proof (to_bounded _ _ _ _ Hw) as HB. eapply wp_weaken; [apply Hc; intros i; by apply (bounded_fresh p _ _ i HB)| |done]. intros b w' H.
  apply (touches_trans _ _ w0 w); [done|]. apply (touches_changes _ _ (single_disjoint p) p (tmp_path p)); [by left|by left|done|done].
Qed.

Lemma file_shows x bs w : file_at w x = Some bs -> exists b, shows x (Inode bs b) w.
Proof.
  unfold file_at, shows. destruct (current w x) as [i|]; [|done]. cbn. destruct (inodes w !! i) as [[c b]|] eqn:E; [|done]. cbn. intros [= <-]. by exists b, i.
Qed.

Lemma shows_frames x nd w w' : frames w w' -> shows x nd w -> shows x nd w'.
Proof. by intros [s ->]. Qed.

Lemma file_renamed p w : file_at (rename_effect (tmp_path p) p w) p = file_at w (tmp_path p).
Proof.
  unfold file_at, rename_effect. rewrite current_other by (intros E; by apply (tmp_path_ne p)). rewrite current_same. done.
Qed.

Lemma rename_file p w : wp (rename (tmp_path p) p) (fun b w' => b = true -> file_at w' p = file_at w (tmp_path p)) trivial w.
Proof. unfold wp, rename. destruct (current w (tmp_path p)); [|done]. apply wp_call. intros s. split_and!; [|done|done]. intros _. by rewrite file_renamed. Qed.

(** The file that the descriptor is about is there; its inode need not be synchronised. *)
Lemma ann_build_frame p vectors connectivity expansion_add expansion_search w0 : bounded [p] [tmp_path p] w0 ->
  wp (YAP_V2_ann_build_save garbage (Some p) vectors connectivity expansion_add expansion_search)
    (fun r w => touches [p] [tmp_path p] w0 w /\
      match r with
      | Ok d => exists bs synced_, shows p (Inode bs synced_) w /\ d = describe ANN_NAME YAP_V2_FILE_ANN (zlen (vs_entries vectors)) bs
      | Err _ => True | Fault => False end) trivial w0.
Proof.
  intros HB. pose proof (touches_refl [p] [tmp_path p] w0 HB) as HR. unfold YAP_V2_ann_build_save. destruct (_ || _); [by apply wp_ret|]. destruct (build_index _ _ _ _) as [index|]; [|by apply wp_ret].
  destruct (_ <? _); [by apply wp_ret|]. destruct (negb (alloc_ok _)); [by apply wp_ret|].
  assert (forall w (e : YAP_ANN_STATUS), touches [p] [tmp_path p] w0 w -> wp (do* unlink (tmp_path p) in io_ret (Err e)) (fun (r : outcome YAP_ANN_STATUS YAP_V2_COMPONENT_DESCRIPTOR) w => touches [p] [tmp_path p] w0 w /\
      match r with Ok d => exists bs synced_, shows p (Inode bs synced_) w /\ d = describe ANN_NAME YAP_V2_FILE_ANN (zlen (vs_entries vectors)) bs
      | Err _ => True | Fault => False end) trivial w) as Hfail.
  { intros w e Hw. apply wp_bind. eapply wp_mono; [eapply (touches_step _ p w0 w)|]; [|done|].
    - intros w' Hf. eapply wp_weaken; [apply within_unlink; [apply tmp_path_ne|by apply changes_refl]|done|done].
    - intros b w' Hw'. by apply wp_ret. }
  apply wp_bind. eapply wp_mono; [eapply (touches_step (unlink (tmp_path p)) p w0 w0)|]; [|done|].
  { intros w' Hf. eapply wp_weaken; [apply within_unlink; [apply tmp_path_ne|by apply changes_refl]|done|done]. }
  intros ? w1 H1. cbn beta in H1. pose proof (to_bounded _ _ _ _ H1) as B1. apply wp_bind, wp_bind. eapply wp_weaken; [apply usearch_save_frame; split; [by intros ? ? ?%elem_of_nil|apply B1]| |done].
  intros saved w2 [H2 Hsz]. assert (touches [p] [tmp_path p] w0 w2) as T2.
  { apply (touches_trans _ _ w0 w1); [done|]. apply (touches_mono [] [tmp_path p]); [by intros x ?%elem_of_nil|done|apply single_disjoint|done|done]. }
  destruct saved; cbn [negb]; [|by apply wp_ret, Hfail]. specialize (Hsz eq_refl). apply wp_bind.
  eapply wp_weaken; [apply wp_conj; [eapply (touches_step (rename (tmp_path p) p) p w0 w2); [|done]|apply rename_file]| |done].
  { intros w' Hf. eapply wp_weaken; [apply within_rename; [apply tmp_path_ne|by apply changes_refl]|done|done]. }
  intros [|] w3 [H3 Hf3]; cbn [negb]; [|by apply wp_ret, Hfail]. specialize (Hf3 eq_refl).
  unfold descriptor. apply wp_bind. eapply wp_weaken; [apply (file_sha256_reads_at garbage p w3); intros bs; rewrite Hf3; apply Hsz| |done].
  intros r w4 [Hd Hfr]. assert (touches [p] [tmp_path p] w0 w4) as T4 by (destruct Hfr as [s ->]; by apply touches_script). apply wp_ret.
  destruct r as [[sum n]|e|]; [|by apply Hfail|done]. destruct Hd as (bs&Hbs&->&->). apply wp_ret. split; [done|].
  destruct (file_shows p bs w3 Hbs) as [b Hb]. exists bs, b. split; [by apply (shows_frames _ _ w3)|done].
Qed.
End ann.
End files.
