(* ===== verification/SliceWrite.v ===== *)
(** Writing a slice of a plan as a segment ([YAP_V2_segment_slice_write] of
    src/src/indexing/yappo_segment_planner_v2.c): the documents, the lexical index, the metadata,
    the vectors with their nearest-neighbour index and the tombstones, one file after the other.

    A null pointer to the units, the plan or the configuration is [None].  [utf8_valid] is the check
    of src/src/components/yappo_vector_v2.c. *)
From Stdlib Require Import String.
From S2P Require Import Prelude Words Types Header SlotTable Manifest FileSystem Buffer Segment CString Config Json Vectors Metadata Lexical LexicalWriter Planner Tokens Sizer SegmentPlan Frame Ann.
#[local] Open Scope io_scope.
#[local] Open Scope Z_scope.

(** [status] decides whether the calls go on. *)
Definition io_try {B C} (c : io (result B)) (k : B -> io (result C)) : io (result C) :=
  let* r := c in match r with Ok b => k b | Err e => io_ret (Err e) | Fault => io_ret Fault end.
Notation "'try*' x := c 'in' k" := (io_try c (fun x => k)) (at level 10, x name, c at level 100, k at level 200) : io_scope.

Definition PATH_CAPACITY : Z := 4096.

Definition join_path (left right : bytes) : option path :=
  let joined := left ++ [SLASH] ++ right in if PATH_CAPACITY <=? zlen joined then None else Some joined.

(** The calls on a path that may be too long. *)
Definition at_path {B} (directory name_ : bytes) (k : path -> io (result B)) : io (result B) :=
  match join_path directory name_ with None => io_ret (Err YAP_V2_OUT_OF_RANGE) | Some p => k p end.

Definition sync_directory (d : path) : io (result unit) :=
  let* synced_ := fsync_dir d in io_ret (if synced_ : bool then Ok tt else Err YAP_V2_IO_ERROR).

(** The vectors of the units, one passage after the other; a unit must have those of its passages. *)
Fixpoint slice_values (dimensions : Z) (units : list YAP_V2_SEGMENT_UNIT) : result (list Z) :=
  match units with
  | [] => Ok []
  | u :: units =>
      match unit_document u with
      | None => slice_values dimensions units
      | Some _ =>
          let n := zlen (unit_passages u) * dimensions in
          let values := default [] (unit_vectors u) in
          if zlen values <? n then Fault else rest ← slice_values dimensions units; Ok (take (Z.to_nat n) values ++ rest)
      end
  end.

(** The prepared units of the documents of a slice. *)
Definition document_prepared {J : Yyjson} (units : list YAP_V2_SEGMENT_UNIT) (prepared : list PREPARED_UNIT) : list PREPARED_UNIT :=
  omap (fun '(u, p) => match unit_document u with None => None | Some _ => Some p end) (zip units prepared).

Section slice_write.
Context {A : Allocator} {Q : Qsort} {J : Yyjson} {U : Usearch} (garbage : nat -> Z) (utf8_valid : bytes -> bool).
Context (directory segment_id_ : bytes) (generation_ : Z) (config : YAP_V2_CONFIG).

Definition add_component (d : YAP_V2_SEGMENT_DESCRIPTOR) (c : YAP_V2_COMPONENT_DESCRIPTOR) : result YAP_V2_SEGMENT_DESCRIPTOR :=
  YAP_V2_segment_descriptor_add_component (Some d) (Some c).
Fixpoint add_components (d : YAP_V2_SEGMENT_DESCRIPTOR) (cs : list YAP_V2_COMPONENT_DESCRIPTOR) : result YAP_V2_SEGMENT_DESCRIPTOR :=
  match cs with [] => Ok d | c :: cs => d ← add_component d c; add_components d cs end.

Definition write_documents (documents : list YAP_V2_DOCUMENT_VIEW) (passages : list YAP_V2_PASSAGE_VIEW) : io (result YAP_V2_SEGMENT_DESCRIPTOR) :=
  at_path directory DOCUMENTS_NAME (fun p => YAP_V2_segment_write garbage (Some p) (Some segment_id_) generation_ documents passages).

Definition write_indexes (documents : list YAP_V2_DOCUMENT_VIEW) (prepared : list PREPARED_UNIT) (d : YAP_V2_SEGMENT_DESCRIPTOR)
  : io (result YAP_V2_SEGMENT_DESCRIPTOR) :=
  try* lexical := YAP_V2_lexical_write_prepared garbage (Some directory) generation_ ((fun p => Some (pu_lexical p)) <$> prepared) in
  try* d := io_ret (add_components d lexical) in
  try* metadata := at_path directory METADATA_NAME (fun p =>
    YAP_V2_metadata_write_preparsed garbage (Some p) generation_ (Some config) documents (pu_metadata_document <$> prepared)) in
  io_ret (add_component d metadata).

(** Only whether [YAP_V2_ann_build_save] succeeds counts. *)
Definition write_ann (vectors : YAP_V2_VECTOR_SEGMENT) (p : path) : io (result YAP_V2_COMPONENT_DESCRIPTOR) :=
  let* built_ := YAP_V2_ann_build_save garbage (Some p) vectors 16 128 64 in
  io_ret (match built_ with Ok c => Ok c | Err _ => Err YAP_V2_CONFLICT | Fault => Fault end).

Definition open_vectors (p : path) : io (result YAP_V2_VECTOR_SEGMENT) :=
  let* opened := YAP_V2_vector_segment_open utf8_valid (Some p) generation_ (Some config) YAP_V2_vector_segment_init in
  io_ret (_ ← opened.2; Ok opened.1).

Definition write_vectors (passages : list YAP_V2_PASSAGE_VIEW) (values : list Z) (d : YAP_V2_SEGMENT_DESCRIPTOR)
  : io (result YAP_V2_SEGMENT_DESCRIPTOR) :=
  at_path directory VECTORS_NAME (fun p =>
    try* component := YAP_V2_vectors_write garbage (Some p) generation_ (Some config) passages
      (Some (EmbeddingResult (Some values) (zlen passages) (vector_dimensions config))) in
    try* d := io_ret (add_component d component) in
    try* vectors := open_vectors p in
    try* component := at_path directory ANN_NAME (write_ann vectors) in
    io_ret (add_component d component)).

(** The tombstones are counted once they are written. *)
Definition write_tombstones (ids : list YAP_V2_BYTES_VIEW) (d : YAP_V2_SEGMENT_DESCRIPTOR) : io (result YAP_V2_SEGMENT_DESCRIPTOR) :=
  try* component := at_path directory TOMBSTONES_NAME (fun p => YAP_V2_tombstones_write garbage (Some p) generation_ ids) in
  io_ret (d ← add_component d component; Ok (SegmentDescriptor (id d) (document_count d) (passage_count d) (zlen ids) (components d))).

(** The files of a slice with these units and prepared units. *)
Definition write_slice (units : list YAP_V2_SEGMENT_UNIT) (prepared : list PREPARED_UNIT) (values : list Z) : io (result YAP_V2_SEGMENT_DESCRIPTOR) :=
  let d := collect_slice units in
  let with_vectors := negb (vector_metric config =? YAP_V2_VECTOR_DISABLED) && (0 <? zlen (slice_passages d)) in
  try* s := write_documents (slice_documents d) (slice_passages d) in
  try* s := (if 0 <? zlen (slice_documents d) then write_indexes (slice_documents d) (document_prepared units prepared) s else io_ret (Ok s)) in
  try* s := (if with_vectors then write_vectors (slice_passages d) values s else io_ret (Ok s)) in
  try* s := (if 0 <? zlen (slice_tombstones d) then write_tombstones (slice_tombstones d) s else io_ret (Ok s)) in
  try* _ := sync_directory directory in
  io_ret (Ok s).

Definition sizeof_pointer : Z := 8.

(** The arrays for the writers: the range of the vectors is checked before any failure counts. *)
Definition slice_arrays (d : slice_data) : result unit :=
  let with_vectors := negb (vector_metric config =? YAP_V2_VECTOR_DISABLED) && (0 <? zlen (slice_passages d)) in
  let values := zlen (slice_passages d) * vector_dimensions config in
  let failed count size := (0 <? count) && negb (alloc_ok (count * size)) in
  if with_vectors && ((vector_dimensions config =? 0) || (SIZE_MAX / vector_dimensions config <? zlen (slice_passages d)) || (SIZE_MAX / Vectors.sizeof_float <? values))
  then Err YAP_V2_OUT_OF_RANGE
  else if failed (zlen (slice_documents d)) sizeof_document_view || failed (zlen (slice_passages d)) sizeof_passage_view ||
          failed (zlen (slice_tombstones d)) sizeof_bytes_view || failed (zlen (slice_documents d)) sizeof_pointer ||
          (with_vectors && negb (alloc_ok (values * Vectors.sizeof_float)))
  then Err YAP_V2_ALLOCATION_FAILED
  else Ok tt.
End slice_write.

(** The units of the slice must be there: the code knows only how many units are prepared. *)
Definition YAP_V2_segment_slice_write {A : Allocator} {Q : Qsort} {J : Yyjson} {U : Usearch} (garbage : nat -> Z) (utf8_valid : bytes -> bool)
    (directory segment_id_ : option bytes) (generation_ : Z) (config : option YAP_V2_CONFIG) (units : option (list YAP_V2_SEGMENT_UNIT))
    (plan : option YAP_V2_SEGMENT_PLAN) (slice_ : YAP_V2_SEGMENT_SLICE) : io (result YAP_V2_SEGMENT_DESCRIPTOR) :=
  match directory, segment_id_, config, plan with
  | Some directory, Some segment_id_, Some config, Some plan =>
      let count := zlen (plan_prepared_units plan) in
      if (generation_ =? 0) || ((0 <? slice_count slice_) && bool_decide (units = None)) ||
         (count <? slice_first slice_) || (count - slice_first slice_ <? slice_count slice_)
      then io_ret (Err YAP_V2_INVALID_ARGUMENT)
      else
      let units := default [] units in
      if zlen units <? slice_first slice_ + slice_count slice_ then io_ret Fault
      else
      let us := slice_units units slice_ in
      match (_ ← slice_arrays config (collect_slice us);
             if negb (vector_metric config =? YAP_V2_VECTOR_DISABLED) && (0 <? zlen (slice_passages (collect_slice us)))
             then slice_values (vector_dimensions config) us else Ok []) with
      | Err e => io_ret (Err e)
      | Fault => io_ret Fault
      | Ok values =>
          write_slice garbage utf8_valid directory segment_id_ generation_ config us
            (slice (plan_prepared_units plan) (slice_first slice_) (slice_count slice_)) values
      end
  | _, _, _, _ => io_ret (Err YAP_V2_INVALID_ARGUMENT)
  end.
