(* ===== verification/SliceFiles.v ===== *)
(** The files of a slice on disk ([YAP_V2_segment_slice_write] of
    src/src/indexing/yappo_segment_planner_v2.c): when a planned slice has been written, its directory
    holds the files that the planner measured, and the descriptor of the segment describes them. *)
From Stdlib Require Import String Sorted.
From S2P Require Import Prelude Words Types Crc Sha256 Header SlotTable EntryTable Manifest FileSystem Reader Buffer Segment Verify CString Config Lexical Planner TermMap Tokens LexicalWriter LexicalIndex Frame LexicalFiles LexicalRoundtrip Json Vectors Metadata MetadataFiles Sizer TermStats SizerSpec SegmentPlan PlanImages Ann SegmentFiles SliceWrite.
#[local] Open Scope io_scope.
#[local] Open Scope Z_scope.

(** ** Names that are still to be written *)
Definition reserved (dir : bytes) (ns : list bytes) : list path := (index_path dir <$> ns) ++ (tmp_path <$> (index_path dir <$> ns)).

Lemma reserved_in dir ns x : x ∈ reserved dir ns <-> x ∈ index_path dir <$> ns \/ x ∈ tmp_path <$> (index_path dir <$> ns).
Proof. apply elem_of_app. Qed.

Lemma reserved_app dir own ns x : x ∈ reserved dir (own ++ ns) <-> x ∈ reserved dir own \/ x ∈ reserved dir ns.
Proof. rewrite !reserved_in, !fmap_app, !elem_of_app. tauto. Qed.

(** Distinct names give distinct paths. *)
Lemma reserved_nodup dir ns : NoDup (ns ++ ((fun n => n ++ TMP_SUFFIX) <$> ns)) -> NoDup (reserved dir ns).
Proof.
  intros H. assert (reserved dir ns = (fun n => dir ++ [SLASH] ++ n) <$> (ns ++ ((fun n => n ++ TMP_SUFFIX) <$> ns))) as ->.
  { unfold reserved. rewrite fmap_app. f_equal. rewrite <- !list_fmap_compose. apply list_fmap_ext. intros i n _. unfold compose, index_path, tmp_path. by rewrite <- !(assoc_L (++)). }
  apply (NoDup_fmap_2_strong); [|done]. intros x y _ _ E. by apply app_inv_head, app_inv_head in E.
Qed.

Lemma reserved_split dir own ns y : NoDup (reserved dir (own ++ ns)) -> y ∈ reserved dir ns ->
  y ∈ reserved dir (own ++ ns) /\ ~ (y ∈ index_path dir <$> own) /\ ~ (y ∈ tmp_path <$> (index_path dir <$> own)).
Proof.
  intros HN Hy. split; [apply reserved_app; by right|]. unfold reserved in HN. rewrite !fmap_app in HN. apply NoDup_app in HN as (H1&H2&H3). apply NoDup_app in H1 as (_&H1&_), H3 as (_&H3&_).
  apply reserved_in in Hy as [Hy|Hy]; split; intros Ho.
  - by apply (H1 y).
  - apply (H2 y); rewrite elem_of_app; auto.
  - apply (H2 y); rewrite elem_of_app; auto.
  - by apply (H3 y).
Qed.

Lemma reserved_disjoint dir ns x : NoDup (reserved dir ns) -> x ∈ index_path dir <$> ns -> x ∈ tmp_path <$> (index_path dir <$> ns) -> False.
Proof. intros (_&H&_)%NoDup_app. apply H. Qed.

(** ** Files that are finished *)
Record slice_file := SliceFile {
  sf_name : bytes;
  sf_type : Z;
  sf_records : Z;
  sf_bytes : bytes;
  sf_synced : bool }.
Definition sf_component (f : slice_file) : YAP_V2_COMPONENT_DESCRIPTOR := describe (sf_name f) (sf_type f) (sf_records f) (sf_bytes f).
Definition sf_inode (f : slice_file) : inode := Inode (sf_bytes f) (sf_synced f).

Section progress.
Context (dir : bytes).

Record progress (ns : list bytes) (files : list slice_file) (w : world) : Prop := {
  pr_apart : apart_names (reserved dir ns) w;
  pr_files : Forall (fun f => stored (reserved dir ns) (index_path dir (sf_name f)) (sf_inode f) w) files }.

Lemma progress_frames ns files w w' : frames w w' -> progress ns files w -> progress ns files w'.
Proof. intros [s ->] [H1 H2]. by split. Qed.

(** The names of a file that is not written are given up. *)
Lemma progress_skip own ns files w : progress (own ++ ns) files w -> progress ns files w.
Proof.
  intros [[Hb Hd] Hf]. assert (forall y, y ∈ reserved dir ns -> y ∈ reserved dir (own ++ ns)) as Hin by (intros y Hy; apply reserved_app; by right). split.
  - split; [intros x i Hx; apply Hb; auto|intros x y i Hx Hy; apply Hd; auto].
  - eapply Forall_impl; [exact Hf|]. intros f (i&H1&H2&H3&H4). exists i. split_and!; auto.
Qed.

(** Files of the names [own] have been written. *)
Lemma progress_step own ns files new w0 w : NoDup (reserved dir (own ++ ns)) -> progress (own ++ ns) files w0 ->
  touches (index_path dir <$> own) (tmp_path <$> (index_path dir <$> own)) w0 w ->
  Forall (fun f => sf_name f ∈ own /\ shows (index_path dir (sf_name f)) (sf_inode f) w) new -> progress ns (files ++ new) w.
Proof.
  intros HN [Hap Hf] HT Hnew. assert (forall x, x ∈ index_path dir <$> own \/ x ∈ tmp_path <$> (index_path dir <$> own) -> x ∈ reserved dir (own ++ ns)) as Hsub
    by (intros x Hx; apply reserved_app; left; by apply reserved_in).
  pose proof (fun y => reserved_split dir own ns y HN) as Hrest. split; [by apply (touched_apart _ _ _ w0 w Hap Hsub HT _ Hrest)|].
  apply Forall_app. split.
  - rewrite Forall_forall in Hf |- *. intros f Hfin. specialize (Hf f Hfin). apply (touched_stored _ _ _ w0 w Hsub HT _ Hrest); [| |done];
      destruct Hf as (i&Hc&_&_&Hy); intros Hx; apply current_history in Hc; (apply (Hy (index_path dir (sf_name f))); [|done]); auto.
  - eapply Forall_impl; [exact Hnew|]. intros f [Hn Hs]. apply (touched_new _ _ _ w0 w Hap Hsub HT _ Hrest); [|done]. by apply list_elem_of_fmap_2.
Qed.

(** Replacing one file touches its names. *)
Lemma touches_one n ns w0 w : NoDup (reserved dir (n :: ns)) -> apart_names (reserved dir (n :: ns)) w0 ->
  changes (index_path dir n) (tmp_path (index_path dir n)) w0 w -> touches (index_path dir <$> [n]) (tmp_path <$> (index_path dir <$> [n])) w0 w.
Proof.
  intros HN Hap HC. apply (touches_changes _ _ (single_disjoint (index_path dir n)) (index_path dir n) (tmp_path (index_path dir n))); [by left|by left| |done].
  apply (bounded_apart _ _ (reserved dir (n :: ns))); [done|]. intros x Hx. apply (reserved_app dir [n]). left. by apply reserved_in.
Qed.

Lemma reserved_tmp_apart n ns w : apart_names (reserved dir (n :: ns)) w -> tmp_apart (index_path dir n) w.
Proof. intros H. apply (apart_tmp _ _ _ H); apply reserved_in; cbn; [left|right]; by left. Qed.
End progress.

(** ** Calls that go on as long as they succeed *)
Definition good {B} (P : B -> world -> Prop) (r : result B) (w : world) : Prop := match r with Ok b => P b w | Err _ => True | Fault => False end.

Lemma try_good {B C} (c : io (result B)) (k : B -> io (result C)) P P' w :
  wp c (good P) trivial w -> (forall b w, P b w -> wp (k b) (good P') trivial w) -> wp (io_try c k) (good P') trivial w.
Proof. intros Hc Hk. apply wp_bind. eapply wp_mono; [exact Hc|]. intros [b|e|] w' H; [by apply Hk|by apply wp_ret|done]. Qed.

Lemma at_path_good {B} dir n (k : path -> io (result B)) P w :
  (zlen (index_path dir n) < PATH_CAPACITY -> wp (k (index_path dir n)) (good P) trivial w) -> wp (at_path dir n k) (good P) trivial w.
Proof.
  intros H. unfold at_path, join_path. fold (index_path dir n). destruct (Z.leb_spec PATH_CAPACITY (zlen (index_path dir n))); [by apply wp_ret|by apply H].
Qed.

Lemma good_mono {B} (c : io (result B)) (P P' : B -> world -> Prop) w : wp c (good P) trivial w -> (forall b w, P b w -> P' b w) -> wp c (good P') trivial w.
Proof. intros Hc H. eapply wp_mono; [exact Hc|]. intros [b|e|] w'; [apply H|done|done]. Qed.

Definition SLICE_NAMES : list bytes := [DOCUMENTS_NAME; TERMS_NAME; POSTINGS_NAME; POSITIONS_NAME; METADATA_NAME; VECTORS_NAME; ANN_NAME; TOMBSTONES_NAME].

Lemma slice_names_nodup dir k : NoDup (reserved dir (drop k SLICE_NAMES)).
Proof.
  apply reserved_nodup. destruct (decide (k < 8)%nat) as [Hk|Hk].
  - do 8 (destruct k as [|k]; [apply (bool_decide_unpack (NoDup _)); vm_compute; done|]). lia.
  - rewrite drop_ge by (cbn; lia). apply NoDup_nil_2.
Qed.

(** ** The stages *)
Section stages.
Context {A : Allocator} {Q : Qsort} {T : Tokenizer} {J : Yyjson} {U : Usearch} (garbage : nat -> Z) (utf8_valid : bytes -> bool).
Context (dir sid : bytes) (g : Z) (c : YAP_V2_CONFIG) (Hw : config_wf c) (Hg : is_u64 g) (Hg0 : g <> 0) (Hs : c_string sid).

(** The files and then those in [new] are finished, the descriptor lists [files], and the names behind
    the [k]th are still free. *)
Record pending (nd np nt : Z) (k : nat) (files new : list slice_file) (d : YAP_V2_SEGMENT_DESCRIPTOR) (w : world) : Prop := {
  st_progress : progress dir (drop k SLICE_NAMES) (files ++ new) w;
  st_components : components d = sf_component <$> files;
  st_id : id d = sid;
  st_documents : document_count d = nd;
  st_passages : passage_count d = np;
  st_tombstones : tombstone_count d = nt }.
Definition state (nd np nt : Z) (k : nat) (files : list slice_file) : YAP_V2_SEGMENT_DESCRIPTOR -> world -> Prop := pending nd np nt k files [].

Lemma state_skip nd np nt j k files d w : state nd np nt k files d w -> state nd np nt (k + j) files d w.
Proof using.
  intros [H1 H2 H3 H4 H5 H6]. split; try done. rewrite <- drop_drop. apply (progress_skip dir (take j (drop k SLICE_NAMES))). by rewrite take_drop.
Qed.

(** A component whose file is finished is added. *)
Lemma add_pending nd np nt k files f new d w : pending nd np nt k files (f :: new) d w -> good (pending nd np nt k (files ++ [f]) new) (add_component d (sf_component f)) w.
Proof using.
  intros [HP H2 H3 H4 H5 H6]. unfold add_component. destruct (YAP_V2_segment_descriptor_add_component _ _) as [d'|e|] eqn:E; [|done|].
  - apply add_component_ok in E as (_&_&_&_&->). split; cbn; rewrite <- ?(assoc_L (++)); try done. by rewrite H2, fmap_app.
  - exfalso. unfold YAP_V2_segment_descriptor_add_component in E. by repeat case_match.
Qed.

Lemma add_all_pending nd np nt k new : forall files d w, pending nd np nt k files new d w -> good (state nd np nt k (files ++ new)) (add_components d (sf_component <$> new)) w.
Proof using.
  induction new as [|f new IH]; intros files d w HP; cbn [add_components fmap list_fmap]; [by rewrite app_nil_r|].
  pose proof (add_pending nd np nt k files f new d w HP) as H. destruct (add_component _ _) as [d'|e|]; [|done|done]. rewrite outcome_bind_ok. specialize (IH (files ++ [f]) d' w H).
  by rewrite <- (assoc_L (++)) in IH.
Qed.

(** The names of the next files. *)
Definition next_names (k j : nat) : list bytes := take j (drop k SLICE_NAMES).

Lemma pending_step nd np nt k j files new d w0 w : state nd np nt k files d w0 ->
  touches (index_path dir <$> next_names k j) (tmp_path <$> (index_path dir <$> next_names k j)) w0 w ->
  Forall (fun f => sf_name f ∈ next_names k j /\ shows (index_path dir (sf_name f)) (sf_inode f) w) new -> pending nd np nt (k + j) files new d w.
Proof using.
  intros [H1 H2 H3 H4 H5 H6] HT Hn. rewrite app_nil_r in H1. split; try done. rewrite <- drop_drop. eapply (progress_step dir (next_names k j) _ files new w0); unfold next_names; rewrite ?take_drop; try done.
  apply slice_names_nodup.
Qed.

(** One file. *)
Lemma pending_one nd np nt k n files f d w0 w : state nd np nt k files d w0 -> drop k SLICE_NAMES = n :: drop (S k) SLICE_NAMES -> sf_name f = n ->
  changes (index_path dir n) (tmp_path (index_path dir n)) w0 w -> shows (index_path dir n) (sf_inode f) w -> pending nd np nt (k + 1) files [f] d w.
Proof using.
  intros HS E En HC Hf. assert (next_names k 1 = [n]) as E1 by (unfold next_names; by rewrite E).
  pose proof (slice_names_nodup dir k) as HN. pose proof (pr_apart _ _ _ _ (st_progress _ _ _ _ _ _ _ _ HS)) as Hap. rewrite E in HN, Hap.
  apply (pending_step _ _ _ _ _ _ _ _ w0); [done|rewrite E1; by apply (touches_one dir n (drop (S k) SLICE_NAMES))|]. constructor; [|done]. rewrite E1, En. split; [by left|done].
Qed.

Lemma state_tmp_apart nd np nt k n files d w : state nd np nt k files d w -> drop k SLICE_NAMES = n :: drop (S k) SLICE_NAMES -> tmp_apart (index_path dir n) w.
Proof using. intros HS E. pose proof (pr_apart _ _ _ _ (st_progress _ _ _ _ _ _ _ _ HS)) as Hap. rewrite E in Hap. by eapply reserved_tmp_apart. Qed.

(** A file that is not the nearest-neighbour index has a header and a payload of a size that is allowed. *)
Definition sized (files : list slice_file) : Prop :=
  Forall (fun f => exists payload, sf_bytes f = file_image (sf_type f) g payload /\ file_header_type_valid (sf_type f) = true /\ zlen payload <= YAP_V2_MAX_SEGMENT_PAYLOAD_BYTES /\ sf_synced f = true) files.

Lemma sized_cons f files : sized (f :: files) <-> sized [f] /\ sized files.
Proof using. unfold sized. rewrite (Forall_cons _ f files), Forall_singleton. done. Qed.

Lemma sized_image n type records payload : file_header_type_valid type = true -> zlen payload <= YAP_V2_MAX_SEGMENT_PAYLOAD_BYTES ->
  sized [SliceFile n type records (file_image type g payload) true].
Proof using. intros Ht Hz. constructor; [|done]. by exists payload. Qed.

(** *** Documents *)
Definition documents_file (docs : list YAP_V2_DOCUMENT_VIEW) (pass : list YAP_V2_PASSAGE_VIEW) : slice_file :=
  SliceFile DOCUMENTS_NAME YAP_V2_FILE_DOCUMENTS (zlen docs + zlen pass) (file_image YAP_V2_FILE_DOCUMENTS g (segment_payload sid docs pass)) true.

Lemma write_documents_state docs pass w0 : Forall document_wf docs -> Forall passage_wf pass -> apart_names (reserved dir SLICE_NAMES) w0 ->
  wp (write_documents garbage dir sid g docs pass) (good (fun d w => state (zlen docs) (zlen pass) 0 1 [documents_file docs pass] d w /\
    segment_views_valid docs pass /\ sized [documents_file docs pass])) trivial w0.
Proof using Hg0 Hs.
  intros Hd Hp Hap. apply at_path_good. intros _. eapply wp_mono; [apply segment_write_frame; [done|done|done|done|by eapply reserved_tmp_apart]|].
  intros [d|e|] w [HC H]; [|done|done]. destruct H as (HD&->&Hv&Hz). apply durable_shows in HD. split; [|split; [done|by apply sized_image]]. split; try done.
  apply (progress_step dir [DOCUMENTS_NAME] (drop 1 SLICE_NAMES) [] _ w0); [apply (slice_names_nodup dir 0)|by split| |].
  - apply (touches_one dir _ (drop 1 SLICE_NAMES)); [apply (slice_names_nodup dir 0)|done|done].
  - constructor; [|done]. split; [by left|done].
Qed.

(** *** Metadata *)
Definition metadata_slice_file (docs : list YAP_V2_DOCUMENT_VIEW) (vals : list yyjson_val) : slice_file :=
  let es := roots_entries (field_names c) 0 vals in
  SliceFile METADATA_NAME YAP_V2_FILE_METADATA (zlen es) (file_image YAP_V2_FILE_METADATA g (metadata_image (field_names c) (zlen docs) es)) true.

Lemma write_metadata_state nd np nt files d docs vals w0 : Forall document_wf docs -> length vals = length docs -> state nd np nt 4 files d w0 ->
  wp (at_path dir METADATA_NAME (fun p => YAP_V2_metadata_write_preparsed garbage (Some p) g (Some c) docs (Some <$> vals)))
    (good (fun m w => m = sf_component (metadata_slice_file docs vals) /\ pending nd np nt 5 files [metadata_slice_file docs vals] d w /\
      sized [metadata_slice_file docs vals])) trivial w0.
Proof using Hw Hg0.
  intros Hd Hl HS. apply at_path_good. intros _. eapply wp_mono; [apply metadata_write_frame; [done|done|done|by rewrite length_fmap|by eapply state_tmp_apart]|].
  intros [m|e|] w [HC H]; [|done|done]. destruct H as (vals'&E&HD&->&_&Hz). apply (inj (fmap Some)) in E as <-. apply durable_shows in HD.
  split; [done|]. split; [|by apply sized_image]. by eapply (pending_one _ _ _ 4 METADATA_NAME files (metadata_slice_file docs vals)).
Qed.

(** *** Tombstones *)
Definition tombstones_file (ids : list YAP_V2_BYTES_VIEW) : slice_file :=
  SliceFile TOMBSTONES_NAME YAP_V2_FILE_TOMBSTONES (zlen ids) (file_image YAP_V2_FILE_TOMBSTONES g (tombstones_payload ids)) true.

Lemma write_tombstones_state nd np nt files d ids w0 : Forall view_wf ids -> state nd np nt 7 files d w0 ->
  wp (write_tombstones garbage dir g ids d) (good (fun d w => state nd np (zlen ids) 8 (files ++ [tombstones_file ids]) d w /\ sized [tombstones_file ids])) trivial w0.
Proof using Hg0.
  intros Hi HS. eapply (try_good _ _ (fun m w => m = sf_component (tombstones_file ids) /\ pending nd np nt 8 files [tombstones_file ids] d w /\ sized [tombstones_file ids])).
  - apply at_path_good. intros _. eapply wp_mono; [apply tombstones_write_frame; [done|done|by eapply state_tmp_apart]|].
    intros [m|e|] w [[HC H] Hz]; [|done|done]. destruct H as [HD ->]. apply durable_shows in HD. split; [done|]. split; [|by apply sized_image]. by eapply (pending_one _ _ _ 7 TOMBSTONES_NAME files (tombstones_file ids)).
  - intros m w (->&HP&Hz). apply wp_ret. pose proof (add_pending _ _ _ _ _ _ _ _ _ HP) as H. destruct (add_component _ _) as [d'|e|]; [|done|done]. rewrite outcome_bind_ok. destruct H. split; [by split|done].
Qed.

(** *** Vectors *)
Definition vectors_file (pass : list YAP_V2_PASSAGE_VIEW) (values : list Z) : slice_file :=
  SliceFile VECTORS_NAME YAP_V2_FILE_VECTORS (zlen pass) (file_image YAP_V2_FILE_VECTORS g (vectors_image c (passage_ids pass) values)) true.
Definition ann_file (n : Z) (bs : bytes) (synced_ : bool) : slice_file := SliceFile ANN_NAME YAP_V2_FILE_ANN n bs synced_.

Lemma state_frames nd np nt k files d w w' : frames w w' -> state nd np nt k files d w -> state nd np nt k files d w'.
Proof using. intros HF [H1 H2 H3 H4 H5 H6]. split; try done. by eapply progress_frames. Qed.

Lemma add_good nd np nt k files f d w : pending nd np nt k files [f] d w ->
  wp (io_ret (add_component d (sf_component f))) (good (state nd np nt k (files ++ [f]))) trivial w.
Proof using. intros HP. apply wp_ret. by apply add_pending. Qed.

Lemma write_ann_state nd np nt files d vectors w0 : state nd np nt 6 files d w0 ->
  wp (at_path dir ANN_NAME (write_ann garbage vectors)) (good (fun m w => exists n bs b, m = sf_component (ann_file n bs b) /\ pending nd np nt 7 files [ann_file n bs b] d w)) trivial w0.
Proof using.
  intros HS. apply at_path_good. intros _. unfold write_ann. apply wp_bind. eapply wp_mono; [apply ann_build_frame|].
  - apply (bounded_apart _ _ (reserved dir (drop 6 SLICE_NAMES))); [apply (st_progress _ _ _ _ _ _ _ _ HS)|]. intros x Hx. apply (reserved_app dir [ANN_NAME]). left. by apply reserved_in.
  - intros [m|e|] w [HT H]; [|by apply wp_ret|done]. destruct H as (bs&b&Hsh&->). apply wp_ret. exists (zlen (vs_entries vectors)), bs, b. split; [done|].
    apply (pending_step nd np nt 6 1 files [ann_file (zlen (vs_entries vectors)) bs b] d w0); [done|exact HT|]. constructor; [|done]. split; [by left|done].
Qed.

Lemma open_vectors_state nd np nt files d bs w0 : state nd np nt 6 files d w0 -> file_at w0 (index_path dir VECTORS_NAME) = Some bs -> bytes_ok bs -> zlen bs < 2 ^ 64 ->
  wp (open_vectors utf8_valid g c (index_path dir VECTORS_NAME)) (good (fun _ w => state nd np nt 6 files d w)) trivial w0.
Proof using Hw.
  intros HS Hf Hok Hz. unfold open_vectors. apply wp_bind.
  eapply wp_weaken; [apply wp_conj; [apply (quiet_vector_open utf8_valid)|apply (vector_open_safe utf8_valid); [done|]]| |done].
  - intros bs'. rewrite Hf. by intros [= <-].
  - intros [v r] w [HF Hr]. apply wp_ret. destruct r as [[]|e|]; [|done|done]. by apply (state_frames _ _ _ _ _ _ w0).
Qed.

Lemma write_vectors_state nd np nt files d pass values w0 : Forall passage_wf pass -> zlen values = zlen pass * vector_dimensions c -> state nd np nt 5 files d w0 ->
  wp (write_vectors garbage utf8_valid dir g c pass values d)
    (good (fun d w => exists n bs b, state nd np nt 7 (files ++ [vectors_file pass values; ann_file n bs b]) d w /\
      sized [vectors_file pass values])) trivial w0.
Proof using Hw Hg0.
  intros HP Hv HS. set (image := vectors_image c (passage_ids pass) values). set (f := vectors_file pass values). set (facts := bytes_ok image /\ zlen image <= YAP_V2_MAX_SEGMENT_PAYLOAD_BYTES).
  apply at_path_good. intros Hz. eapply (try_good _ _ (fun m w => m = sf_component f /\ pending nd np nt 6 files [f] d w /\ facts)).
  { eapply wp_mono; [apply vectors_write_frame; [done|done|done|done|by eapply state_tmp_apart|unfold PATH_CAPACITY, SIZE_MAX in *; lia]|].
    intros [m|e|] w [[HC H] HF]; [|done|done]. destruct H as [HD ->]. destruct HF as (_&_&HF). apply durable_shows in HD. split; [done|]. split; [|done]. by eapply (pending_one _ _ _ 5 VECTORS_NAME files f). }
  intros m w [-> [HPe HF]]. eapply (try_good _ _ (fun d w => state nd np nt 6 (files ++ [f]) d w)); [by apply add_good|].
  intros d1 w1 HS1. eapply (try_good _ _ (fun _ w => state nd np nt 6 (files ++ [f]) d1 w)).
  { apply (open_vectors_state _ _ _ _ _ (sf_bytes f)); [done| | |].
    - pose proof (pr_files _ _ _ _ (st_progress _ _ _ _ _ _ _ _ HS1)) as Hst. rewrite app_nil_r in Hst. apply Forall_app in Hst as [_ Hst]. apply Forall_inv in Hst. by apply stored_shows, shows_file in Hst.
    - apply file_image_ok, HF.
    - destruct HF as [_ HF]. unfold f, vectors_file. cbn [sf_bytes]. fold image. rewrite zlen_file_image. unfold YAP_V2_MAX_SEGMENT_PAYLOAD_BYTES in HF. lia. }
  intros v w2 HS2. eapply try_good; [by apply write_ann_state|]. intros m w3 (n&bs&b&->&HPe3). eapply good_mono; [by apply add_good|]. intros d4 w4 HS4. exists n, bs, b.
  rewrite <- (assoc_L (++)) in HS4. split; [exact HS4|by apply sized_image, HF].
Qed.

(** *** The lexical index *)
Definition lexical_slice_files (docs : list YAP_V2_DOCUMENT_VIEW) (pass : list YAP_V2_PASSAGE_VIEW) : list slice_file :=
  let occurrences := segment_occurrences docs pass in
  let groups := runs same_term (sorted_items occurrences) in
  [SliceFile TERMS_NAME YAP_V2_FILE_TERMS (zlen groups) (file_image YAP_V2_FILE_TERMS g (terms_image groups)) true;
   SliceFile POSTINGS_NAME YAP_V2_FILE_POSTINGS (posting_total groups) (file_image YAP_V2_FILE_POSTINGS g (postings_image (zlen docs) (zlen pass) (token_totals docs pass) groups)) true;
   SliceFile POSITIONS_NAME YAP_V2_FILE_POSITIONS (zlen occurrences) (file_image YAP_V2_FILE_POSITIONS g (positions_image groups)) true].

Lemma write_lexical_state nd np nt files d units prepared w0 : let docs := fst <$> units in let pass := concat (snd <$> units) in
  Forall2 (fun u p => unit_prepared u.1 u.2 p) units prepared -> zlen docs < 2 ^ 63 -> zlen pass < 2 ^ 63 -> state nd np nt 1 files d w0 ->
  wp (YAP_V2_lexical_write_prepared garbage (Some dir) g (Some <$> prepared))
    (good (fun cs w => cs = sf_component <$> lexical_slice_files docs pass /\ pending nd np nt 4 files (lexical_slice_files docs pass) d w /\
      sized (lexical_slice_files docs pass))) trivial w0.
Proof using Hg Hg0.
  intros docs pass HF Hzd Hzp HS. unfold docs in Hzd. rewrite zlen_fmap in Hzd. eapply wp_mono; [apply (write_prepared_wp garbage dir g w0 units prepared); [done|done| |done|done|done]|].
  - pose proof (pr_apart _ _ _ _ (st_progress _ _ _ _ _ _ _ _ HS)) as [Hb Hd]. assert (forall x, x ∈ index_names dir -> x ∈ reserved dir (drop 1 SLICE_NAMES)) as Hin.
    { intros x Hx. apply (reserved_app dir [TERMS_NAME; POSTINGS_NAME; POSITIONS_NAME]). left. apply reserved_in. by apply index_groups in Hx. }
    split; [intros x i Hx; apply Hb; auto|intros x y i Hx Hy; apply Hd; auto].
  - intros [cs|e|] w Hi; [|done|done]. destruct Hi as [_ (s&HP&HSs&(Hsh&HT&->)&Hz1&Hz2&Hz3)]. fold docs pass in HP, Hsh, Hz2 |- *.
    assert (s = sorted_items (segment_occurrences docs pass)) as ->.
    { apply (sorted_occurrences_unique (segment_occurrences docs pass)); [apply segment_places|done|apply sorted_items_permutation|done|apply sorted_items_sorted]. }
    assert (zlen units = zlen docs) as Ed by (unfold docs; by rewrite zlen_fmap). rewrite Ed in *. split; [done|]. split.
    + destruct Hsh as (S1&S2&S3). apply (pending_step nd np nt 1 3 files _ d w0); [done|exact HT|]. repeat constructor; try done; set_solver.
    + unfold lexical_slice_files. cbv zeta. rewrite (sized_cons _ [_; _]), (sized_cons _ [_]). split_and!; by apply sized_image.
Qed.

(** *** The units of a slice *)
Definition document_units (us : list YAP_V2_SEGMENT_UNIT) : list (YAP_V2_DOCUMENT_VIEW * list YAP_V2_PASSAGE_VIEW) :=
  omap (fun u => d ← unit_document u; Some (d, unit_passages u)) us.

Lemma collect_document_units us : slice_documents (collect_slice us) = fst <$> document_units us /\ slice_passages (collect_slice us) = concat (snd <$> document_units us).
Proof using.
  unfold document_units. induction us as [|u us [IH1 IH2]]; [done|]. cbn [collect_slice omap list_omap]. destruct (unit_document u) as [doc|]; cbn; rewrite IH1, IH2; done.
Qed.

Lemma document_prepared_cons u us p ps : document_prepared (u :: us) (p :: ps) = match unit_document u with None => document_prepared us ps | Some _ => p :: document_prepared us ps end.
Proof using. unfold document_prepared. cbn. by destruct (unit_document u). Qed.

Lemma prepared_units us prepared : Forall2 prepared_rep us prepared ->
  Forall2 (fun u p => unit_prepared u.1 u.2 p) (document_units us) (pu_lexical <$> document_prepared us prepared) /\
  pu_metadata_document <$> document_prepared us prepared = Some <$> omap document_root (slice_documents (collect_slice us)) /\
  length (omap document_root (slice_documents (collect_slice us))) = length (slice_documents (collect_slice us)).
Proof using.
  induction 1 as [|u p us ps Hu _ (IH1&IH2&IH3)]; [by split_and!|]. rewrite document_prepared_cons. unfold document_units. cbn [collect_slice omap list_omap]. unfold prepared_rep in Hu.
  destruct (unit_document u) as [doc|]; cbn [slice_documents mbind option_bind]; [|done]. destruct Hu as (Hl&root&Hr&_&Em). rewrite !fmap_cons. cbn [omap list_omap]. rewrite Hr. split_and!.
  - by constructor.
  - rewrite Em, fmap_cons. by f_equal.
  - cbn. by f_equal.
Qed.

Lemma write_indexes_state np nt files d us prepared w0 : let docs := slice_documents (collect_slice us) in let pass := slice_passages (collect_slice us) in
  Forall document_wf docs -> Forall2 prepared_rep us prepared -> zlen docs < 2 ^ 63 -> zlen pass < 2 ^ 63 -> state (zlen docs) np nt 1 files d w0 ->
  let new := lexical_slice_files docs pass ++ [metadata_slice_file docs (omap document_root docs)] in
  wp (write_indexes garbage dir g c docs (document_prepared us prepared) d)
    (good (fun d w => state (zlen docs) np nt 5 (files ++ new) d w /\ sized new)) trivial w0.
Proof using Hw Hg Hg0.
  intros docs pass Hd HP Hzd Hzp HS new. destruct (prepared_units us prepared HP) as (HU&HM&HL). destruct (collect_document_units us) as [E1 E2]. fold docs in E1, HM, HL. fold pass in E2.
  unfold write_indexes. rewrite HM. replace ((fun p => Some (pu_lexical p)) <$> document_prepared us prepared) with (Some <$> (pu_lexical <$> document_prepared us prepared)) by (by rewrite <- list_fmap_compose).
  rewrite E1 in Hzd. rewrite E2 in Hzp. eapply try_good; [by apply (write_lexical_state (zlen docs) np nt files d (document_units us))|]. rewrite <- E1, <- E2. intros cs w (->&HPe&Hz1).
  eapply (try_good _ _ (state (zlen docs) np nt 4 (files ++ lexical_slice_files docs pass))); [apply wp_ret; by apply add_all_pending|]. intros d1 w1 HS1.
  eapply try_good; [by apply (write_metadata_state (zlen docs) np nt (files ++ lexical_slice_files docs pass) d1)|]. intros m w2 (->&HPe2&Hz2).
  eapply good_mono; [by apply add_good|]. intros d3 w3 HS3. unfold new. rewrite (assoc_L (++)). split; [exact HS3|]. by apply Forall_app.
Qed.

(** *** The directory is synchronised *)
Definition finished (files : list slice_file) (w : world) : Prop :=
  Forall (fun f => exists i, history w (index_path dir (sf_name f)) = [Some i] /\ inodes w !! i = Some (sf_inode f)) files.

Lemma parent_index_path n : dir <> [] -> ~ (SLASH ∈ n) -> parent (index_path dir n) = dir.
Proof using. intros Hd Hn. unfold parent, index_path. rewrite split_last_join by done. by destruct dir. Qed.

Lemma sync_finished files w : dir <> [] -> Forall (fun f => ~ (SLASH ∈ sf_name f) /\ shows (index_path dir (sf_name f)) (sf_inode f) w) files -> finished files (fsync_dir_effect dir w).
Proof using.
  intros Hd H. eapply Forall_impl; [exact H|]. intros f [Hn (i&Hc&Hi)]. exists i. split; [|done]. rewrite history_sync, bool_decide_true by by apply parent_index_path.
  unfold current in Hc. destruct (history w _) as [|e h]; [done|]. cbn in Hc. by subst e.
Qed.

Lemma sync_directory_finished files w0 : dir <> [] -> Forall (fun f => ~ (SLASH ∈ sf_name f) /\ shows (index_path dir (sf_name f)) (sf_inode f) w0) files ->
  wp (sync_directory dir) (good (fun _ w => finished files w)) trivial w0.
Proof using.
  intros Hd H. unfold sync_directory, fsync_dir. apply wp_bind, wp_bind, wp_noop; [|done]. intros s [|]; [|by apply wp_ret, wp_ret].
  apply wp_bind, wp_call. intros s'. split_and!; [| |done]; (apply wp_bind, wp_noop; [|done]); intros s'' b; apply wp_ret, wp_ret.
  - destruct b; cbn; [|done]. by apply (sync_finished files (set_script (set_script w0 s) s')).
  - done.
Qed.

(** *** The whole slice *)
Lemma collect_wf us : Forall (unit_ok c) us ->
  Forall document_wf (slice_documents (collect_slice us)) /\ Forall passage_wf (slice_passages (collect_slice us)) /\ Forall view_wf (slice_tombstones (collect_slice us)).
Proof using.
  induction 1 as [|u us Hu _ (IH1&IH2&IH3)]; [done|]. cbn [collect_slice]. unfold unit_ok in Hu. destruct (unit_document u) as [doc|]; cbn [slice_documents slice_passages slice_tombstones].
  - destruct Hu as ([Hd _]&Hp&_). split_and!; [by constructor| |done]. apply Forall_app. split; [|done]. eapply Forall_impl; [exact Hp|]. by intros p [? _].
  - split_and!; [done|done|]. constructor; [|done]. apply Hu.
Qed.

Lemma slice_values_spec us : vector_metric c <> YAP_V2_VECTOR_DISABLED -> Forall (unit_ok c) us -> slice_values (vector_dimensions c) us = Ok (slice_vectors (collect_slice us)).
Proof using.
  intros Hm. induction 1 as [|u us Hu _ IH]; [done|]. cbn [slice_values collect_slice]. unfold unit_ok in Hu. destruct (unit_document u) as [doc|]; cbn [slice_vectors]; [|done].
  destruct Hu as (_&_&Hv). rewrite <- (Hv Hm), Z.ltb_irrefl, IH, outcome_bind_ok. by rewrite take_ge by (unfold zlen; lia).
Qed.

Definition with_vectors (us : list YAP_V2_SEGMENT_UNIT) : bool := negb (vector_metric c =? YAP_V2_VECTOR_DISABLED) && (0 <? zlen (slice_passages (collect_slice us))).

(** The files of a segment, the nearest-neighbour index among them. *)
Definition segment_files (us : list YAP_V2_SEGMENT_UNIT) (ann : slice_file) : list slice_file :=
  let d := collect_slice us in
  [documents_file (slice_documents d) (slice_passages d)] ++
  (if 0 <? zlen (slice_documents d)
   then lexical_slice_files (slice_documents d) (slice_passages d) ++ [metadata_slice_file (slice_documents d) (omap document_root (slice_documents d))] else []) ++
  (if with_vectors us then [vectors_file (slice_passages d) (slice_vectors d); ann] else []) ++
  (if 0 <? zlen (slice_tombstones d) then [tombstones_file (slice_tombstones d)] else []).

(** The segment is complete. *)
Definition segment_complete (us : list YAP_V2_SEGMENT_UNIT) (d : YAP_V2_SEGMENT_DESCRIPTOR) (w : world) : Prop :=
  exists n bs b, let files := segment_files us (ann_file n bs b) in
  finished files w /\ Forall (fun f => f = ann_file n bs b \/ sized [f]) files /\
  d = SegmentDescriptor sid (zlen (slice_documents (collect_slice us))) (zlen (slice_passages (collect_slice us))) (zlen (slice_tombstones (collect_slice us))) (sf_component <$> files).

Lemma slice_name_plain n : n ∈ SLICE_NAMES -> ~ (SLASH ∈ n).
Proof using. assert (Forall (fun n => ~ (SLASH ∈ n)) SLICE_NAMES) as H by (apply (bool_decide_unpack (Forall _ _)); vm_compute; done). by apply (proj1 (Forall_forall _ _) H). Qed.

Lemma segment_files_names us n bs b : Forall (fun f => ~ (SLASH ∈ sf_name f)) (segment_files us (ann_file n bs b)).
Proof using.
  assert (forall f, sf_name f ∈ SLICE_NAMES -> ~ (SLASH ∈ sf_name f)) as H by (intros f; apply slice_name_plain). unfold segment_files. cbv zeta.
  constructor; [apply H; by left|]. repeat (apply Forall_app; split); [destruct (0 <? zlen (slice_documents _))|destruct (with_vectors us)|destruct (0 <? zlen (slice_tombstones _))]; repeat constructor; apply H; cbn [sf_name]; apply (bool_decide_unpack (_ ∈ _)); vm_compute; done.
Qed.

Lemma write_slice_complete us prepared values w0 : Forall (unit_ok c) us -> Forall2 prepared_rep us prepared -> (with_vectors us = true -> values = slice_vectors (collect_slice us)) ->
  dir <> [] -> apart_names (reserved dir SLICE_NAMES) w0 ->
  wp (write_slice garbage utf8_valid dir sid g c us prepared values) (good (segment_complete us)) trivial w0.
Proof using Hw Hg Hg0 Hs.
  intros Hok HP Hval Hd0 Hap. destruct (collect_wf us Hok) as (Hd&Hp&Ht). unfold write_slice. fold (with_vectors us). set (docs := slice_documents (collect_slice us)) in *.
  set (pass := slice_passages (collect_slice us)) in *. set (tombs := slice_tombstones (collect_slice us)) in *.
  eapply try_good; [by apply write_documents_state|]. intros d1 w1 (HS1&Hv&Hz1). destruct Hv as (Hzd&Hzp&_). unfold YAP_V2_MAX_SEGMENT_DOCUMENTS, YAP_V2_MAX_SEGMENT_PASSAGES in *.
  set (indexes := if 0 <? zlen docs then lexical_slice_files docs pass ++ [metadata_slice_file docs (omap document_root docs)] else []).
  eapply (try_good _ _ (fun d w => state (zlen docs) (zlen pass) 0 5 (documents_file docs pass :: indexes) d w /\ sized indexes)).
  { unfold indexes. destruct (0 <? zlen docs); [apply (write_indexes_state (zlen pass) 0 [documents_file docs pass]); try done; fold docs pass; lia|].
    apply wp_ret. split; [by apply (state_skip _ _ _ 4 1)|constructor]. }
  intros d2 w2 [HS2 Hz2]. set (vecs := fun ann => if with_vectors us then [vectors_file pass (slice_vectors (collect_slice us)); ann] else []).
  eapply (try_good _ _ (fun d w => exists n bs b, state (zlen docs) (zlen pass) 0 7 (documents_file docs pass :: indexes ++ vecs (ann_file n bs b)) d w /\
    Forall (fun f => f = ann_file n bs b \/ sized [f]) (vecs (ann_file n bs b)))).
  { unfold vecs. destruct (with_vectors us) eqn:E.
    - rewrite (Hval eq_refl). eapply good_mono; [apply (write_vectors_state (zlen docs) (zlen pass) 0 (documents_file docs pass :: indexes)); [done| |done]|].
      + unfold with_vectors in E. btests. rewrite (collect_vectors c us) by done. unfold pass. by destruct (collect_counts us) as (_&->&_).
      + intros d w (n&bs&b&HS&Hz). exists n, bs, b. split; [exact HS|]. constructor; [by right|constructor; [by left|constructor]].
    - apply wp_ret. exists 0, [], true. rewrite app_nil_r. split; [by apply (state_skip _ _ _ 2 5)|constructor]. }
  intros d3 w3 (n&bs&b&HS3&Hz3). set (tail := if 0 <? zlen tombs then [tombstones_file tombs] else []).
  eapply (try_good _ _ (fun d w => state (zlen docs) (zlen pass) (zlen tombs) 8 ((documents_file docs pass :: indexes ++ vecs (ann_file n bs b)) ++ tail) d w /\ sized tail)).
  { unfold tail. destruct (Z.ltb_spec 0 (zlen tombs)) as [|Hz]; [by apply (write_tombstones_state _ _ 0)|]. apply wp_ret. rewrite app_nil_r. split; [|constructor].
    assert (zlen tombs = 0) as -> by (pose proof (zlen_nonneg tombs); lia). by apply (state_skip _ _ _ 1 7). }
  intros d4 w4 [HS4 Hz4].
  assert ((documents_file docs pass :: indexes ++ vecs (ann_file n bs b)) ++ tail = segment_files us (ann_file n bs b)) as E by (unfold segment_files; cbn [app]; by rewrite <- (assoc_L (++))).
  rewrite E in HS4. destruct HS4 as [H1 H2 H3 H4 H5 H6]. rewrite app_nil_r in H1.
  eapply (try_good _ _ (fun _ w => finished (segment_files us (ann_file n bs b)) w)).
  - apply sync_directory_finished; [done|]. apply Forall_and. split; [apply segment_files_names|]. eapply Forall_impl; [apply (pr_files _ _ _ _ H1)|]. intros f. apply stored_shows.
  - intros _ w5 HF. apply wp_ret. exists n, bs, b. split; [done|]. split; [|destruct d4; cbn in *; by subst].
    rewrite <- E. assert (forall l, sized l -> Forall (fun f => f = ann_file n bs b \/ sized [f]) l) as HZ by (intros l Hl; eapply Forall_impl; [exact Hl|]; intros f Hf; right; by constructor).
    apply Forall_app. split; [|by apply HZ]. constructor; [right; done|]. apply Forall_app. split; [by apply HZ|done].
Qed.
End stages.

(** ** The result *)

(** The names and types of the seven files whose sizes are planned. *)
Definition slice_table : list (bytes * Z) :=
  [(DOCUMENTS_NAME, YAP_V2_FILE_DOCUMENTS); (TERMS_NAME, YAP_V2_FILE_TERMS); (POSTINGS_NAME, YAP_V2_FILE_POSTINGS); (POSITIONS_NAME, YAP_V2_FILE_POSITIONS);
   (METADATA_NAME, YAP_V2_FILE_METADATA); (VECTORS_NAME, YAP_V2_FILE_VECTORS); (TOMBSTONES_NAME, YAP_V2_FILE_TOMBSTONES)].

Section result.
Context {Q : Qsort} {T : Tokenizer} {J : Yyjson} (sid : bytes) (g : Z) (c : YAP_V2_CONFIG).

(** Those that the units need, with their payloads. *)
Definition slice_payloads (us : list YAP_V2_SEGMENT_UNIT) : list (bytes * Z * bytes) := filter (fun x => x.2 <> []) (zip slice_table (slice_images c sid us)).

Lemma put_nonempty v (l : bytes) : put_u32_le v ++ l <> [].
Proof. intros E. apply (f_equal zlen) in E. rewrite zlen_app, zlen_put_u32_le, zlen_nil in E. pose proof (zlen_nonneg l). lia. Qed.

(** A file that is written has a payload. *)
Lemma segment_payload_nonempty docs pass : segment_payload sid docs pass <> [].
Proof. apply put_nonempty. Qed.
Lemma terms_image_nonempty groups : terms_image groups <> [].
Proof. apply put_nonempty. Qed.
Lemma postings_image_nonempty documents passages totals groups : postings_image documents passages totals groups <> [].
Proof. apply put_nonempty. Qed.
Lemma positions_image_nonempty groups : positions_image groups <> [].
Proof. apply put_nonempty. Qed.
Lemma metadata_image_nonempty names documents es : metadata_image names documents es <> [].
Proof. apply put_nonempty. Qed.
Lemma vectors_image_nonempty ids values : vectors_image c ids values <> [].
Proof. apply put_nonempty. Qed.
Lemma tombstones_payload_nonempty ids : tombstones_payload ids <> [].
Proof. apply put_nonempty. Qed.

#[local] Hint Resolve segment_payload_nonempty terms_image_nonempty postings_image_nonempty positions_image_nonempty metadata_image_nonempty vectors_image_nonempty tombstones_payload_nonempty : core.

Lemma segment_files_payloads us n bs b :
  (fun f => (sf_name f, sf_type f, sf_bytes f)) <$> filter (fun f => sf_type f <> YAP_V2_FILE_ANN) (segment_files sid g c us (ann_file n bs b)) =
  (fun x => (x.1.1, x.1.2, file_image x.1.2 g x.2)) <$> slice_payloads us.
Proof.
  unfold segment_files, slice_payloads, slice_images, with_vectors. cbv zeta. set (d := collect_slice us). unfold slice_groups.
  assert ((0 <? zlen (slice_documents d)) = match slice_documents d with [] => false | _ => true end) as -> by (destruct (slice_documents d); [done|rewrite zlen_cons; pose_zlen; apply Z.ltb_lt; lia]).
  assert ((0 <? zlen (slice_tombstones d)) = match slice_tombstones d with [] => false | _ => true end) as -> by (destruct (slice_tombstones d); [done|rewrite zlen_cons; pose_zlen; apply Z.ltb_lt; lia]).
  destruct (slice_documents d) as [|doc docs] eqn:Ed, (slice_tombstones d) as [|t ts] eqn:Et, (negb _ && _) eqn:Ev; unfold slice_table; cbn [zip zip_with app];
    repeat first [rewrite filter_cons_True by (cbn; first [done|auto]) | rewrite filter_cons_False by (cbn; intros H; by apply H)]; done.
Qed.

(** A finished file is what its component says. *)
Lemma finished_intact index_dir f w : is_u64 g -> g <> 0 -> sf_type f = YAP_V2_FILE_ANN \/ sized g [f] -> file_at w (component_file index_dir sid (sf_name f)) = Some (sf_bytes f) ->
  component_intact w index_dir g sid (sf_component f).
Proof.
  intros Hg Hg0 Hf Hw. exists (sf_bytes f). split; [done|]. split; [done|]. split; [done|]. cbn [sf_component describe component_type]. intros Hn. destruct Hf as [|Hf]; [done|].
  apply Forall_inv in Hf as (payload&E&Ht&Hz&_). exists (file_header (sf_type f) g payload). unfold YAP_V2_MAX_SEGMENT_PAYLOAD_BYTES, is_u64 in *. split_and!; try done.
  - apply file_header_valid; try done; [|lia]. unfold file_header_type_valid, YAP_V2_FILE_TERMS, YAP_V2_FILE_TOMBSTONES, YAP_V2_FILE_MANIFEST, YAP_V2_FILE_ANN_BASE in Ht. unfold is_u32.
    apply orb_true_iff in Ht as [[[?%Z.leb_le ?%Z.leb_le]%andb_true_iff|?%Z.eqb_eq]%orb_true_iff|?%Z.eqb_eq]; lia.
  - rewrite E. unfold file_image. by apply take_app_length'.
  - cbn [file_header generation]. lia.
  - rewrite E, zlen_file_image. done.
Qed.

Lemma component_path index_dir n : component_file index_dir sid n = index_path (index_dir ++ SEGMENTS_DIR ++ sid) n.
Proof. unfold component_file, index_path. by rewrite <- !(assoc_L (++)). Qed.
End result.

Lemma slice_arrays_safe {A : Allocator} c d : slice_arrays c d <> Fault.
Proof. unfold slice_arrays. by repeat case_match. Qed.

(** Any range of the units of a plan, as a segment in [dir]. *)
Lemma slice_write_wp {A : Allocator} {Q : Qsort} {T : Tokenizer} {J : Yyjson} {U : Usearch} garbage utf8_valid dir sid g c units plan s w0 :
  config_wf c -> is_u64 g -> c_string sid -> Forall (unit_ok c) units -> Forall2 prepared_rep units (plan_prepared_units plan) -> 0 <= slice_first s -> 0 <= slice_count s ->
  dir <> [] -> apart_names (reserved dir SLICE_NAMES) w0 ->
  wp (YAP_V2_segment_slice_write garbage utf8_valid (Some dir) (Some sid) g (Some c) (Some units) (Some plan) s)
    (good (segment_complete dir sid g c (slice_units units s))) trivial w0.
Proof.
  intros Hw Hg Hs Hok HP Hf Hn Hd Hap. unfold YAP_V2_segment_slice_write. destruct (_ || _) eqn:E; [by apply wp_ret|]. btests. apply Forall2_length in HP as HL.
  assert (zlen (plan_prepared_units plan) = zlen units) as Ez by (unfold zlen; lia). rewrite Ez in *. change (default [] (Some units)) with units.
  rewrite (proj2 (Z.ltb_ge (zlen units) (slice_first s + slice_count s))) by lia. pose proof (slice_arrays_safe c (collect_slice (slice_units units s))) as HA.
  destruct (slice_arrays _ _) as [[]|e|]; [|by apply wp_ret|done]. rewrite outcome_bind_ok. fold (with_vectors c (slice_units units s)).
  assert (Forall (unit_ok c) (slice_units units s)) as Hus by by apply slice_units_ok.
  assert (exists values, (if with_vectors c (slice_units units s) then slice_values (vector_dimensions c) (slice_units units s) else Ok []) = Ok values /\
    (with_vectors c (slice_units units s) = true -> values = slice_vectors (collect_slice (slice_units units s)))) as (values&->&Hv).
  { destruct (with_vectors c (slice_units units s)) eqn:Ev; [|by exists []]. eexists. split; [|done]. apply slice_values_spec; [|done]. unfold with_vectors in Ev. by btests. }
  apply write_slice_complete; try done. unfold slice_units, slice. by apply Forall2_take, Forall2_drop.
Qed.

Lemma finished_durable dir files f w : finished dir files w -> f ∈ files -> sf_synced f = true -> durable (index_path dir (sf_name f)) (sf_bytes f) w.
Proof. intros HF Hf Hs. destruct (proj1 (Forall_forall _ _) HF f Hf) as (i&Hh&Hi). exists i. split; [done|]. rewrite Hi. unfold sf_inode. by rewrite Hs. Qed.

Lemma finished_file dir files f w : finished dir files w -> f ∈ files -> file_at w (index_path dir (sf_name f)) = Some (sf_bytes f).
Proof. intros HF Hf. destruct (proj1 (Forall_forall _ _) HF f Hf) as (i&Hh&Hi). apply (shows_file _ (sf_inode f)). exists i. split; [|done]. unfold current. by rewrite Hh. Qed.

Lemma component_sizes (files : list slice_file) : (fun x => (name x, component_type x, file_bytes x)) <$> filter (fun x => component_type x <> YAP_V2_FILE_ANN) (sf_component <$> files) =
  (fun x => (x.1, zlen x.2)) <$> ((fun f => (sf_name f, sf_type f, sf_bytes f)) <$> filter (fun f => sf_type f <> YAP_V2_FILE_ANN) files).
Proof.
  rewrite <- list_fmap_compose. induction files as [|f files IH]; [done|]. rewrite fmap_cons, !filter_cons. change (component_type (sf_component f)) with (sf_type f).
  case_decide; [|done]. rewrite !fmap_cons. by f_equal.
Qed.


(** ** A concrete segment *)

(** A computation that, for every other name, changes only [p] changes only [p]. *)
Lemma touches_only {B} (k : io B) p w : bounded [] [p] w -> (forall q, p <> q -> wp k (fun _ => changes q p w) (changes q p w) w) ->
  wp k (fun _ => touches [] [p] w) (touches [] [p] w) w.
Proof.
  intros HB H. assert (forall w', (forall q, p <> q -> changes q p w w') -> touches [] [p] w w') as HT.
  { intros w' HC. assert (forall x : path, x <> p -> exists q, p <> q /\ x <> q) as Hq.
    { intros x _. exists (p ++ x ++ [0]). split; intros E; apply (f_equal length) in E; rewrite !length_app in E; cbn in E; lia. }
    destruct (Hq (p ++ [0])) as (q0&Hq0&_); [intros E; apply (f_equal length) in E; rewrite length_app in E; cbn in E; lia|]. specialize (HC q0 Hq0) as HC0. split.
    - intros x _ Hx. rewrite list_elem_of_singleton in Hx. destruct (Hq x Hx) as (q&Hpq&Hxq). by apply (ch_names _ _ _ _ (HC q Hpq)).
    - intros x _ Hx. rewrite list_elem_of_singleton in Hx. destruct (Hq x Hx) as (q&Hpq&Hxq). by apply (ch_history _ _ _ _ (HC q Hpq)).
    - intros k' Ho. apply (ch_inodes _ _ _ _ HC0); [unfold owned in Ho; apply Nat.nle_gt; tauto|]. intros Hc. apply Ho. right; right. exists p. split; [by left|done].
    - apply (ch_next _ _ _ _ HC0).
    - by intros x i ?%elem_of_nil.
    - intros x i ->%list_elem_of_singleton Hi. destruct (ch_temporary _ _ _ _ HC0 i Hi) as [[Hc|Hge] _]; [right; right; exists p; split; [by left|done]|by left].
    - split; [by intros x i ?%elem_of_nil|]. intros x i ->%list_elem_of_singleton Hi. by apply (ch_temporary _ _ _ _ HC0). }
  unfold wp in *. destruct (k w); apply HT; intros q Hq; by apply (H q Hq).
Qed.

(** A USearch that saves the number of its vectors, and leaves it to the system when the bytes reach
    the disk. *)
Definition plain_save (index : Z) (p : path) : io bool :=
  let* file := fopen_wb p in
  match file with
  | None => io_ret false
  | Some i => let* written := fwrite i (put_u64_le index) in let* closed := fclose i in io_ret (written && closed)
  end.

Lemma plain_save_size index p w : wp (plain_save index p) (fun saved w' => saved = true -> forall bs, file_at w' p = Some bs -> zlen bs < 2 ^ 63) trivial w.
Proof.
  assert (forall w s, shows p (Inode [] false) (create_effect p (set_script w s))) as HC.
  { intros w' s. unfold create_effect. change (current (set_script w' s) p) with (current w' p). destruct (current w' p) as [i|] eqn:E.
    - exists i. split; [exact E|]. cbn. by rewrite lookup_insert_eq.
    - exists (next_inode w'). unfold current, history. cbn. by rewrite !lookup_insert_eq. }
  unfold plain_save. apply wp_bind. unfold fopen_wb. apply wp_bind, wp_call. intros s. split_and!; [|unfold wp; by cbn|done]. destruct (HC w s) as (i&Hi&Hn).
  unfold wp at 1. cbn. rewrite Hi. apply wp_bind, wp_fwrite. intros s1 n. split_and!; [| |done]; (apply wp_bind, wp_noop; [|done]); intros s2 b; apply wp_ret; [|by intros [? _]%andb_true_iff].
  intros _ bs. unfold append_effect. cbn [inodes set_script]. rewrite Hn.
  match goal with |- file_at ?w' p = _ -> _ => assert (shows p (Inode (put_u64_le index) false) w') as H end.
  { exists i. split; [exact Hi|]. cbn. by rewrite lookup_insert_eq. }
  rewrite (shows_file _ _ _ H). by intros [= <-].
Qed.

Lemma plain_save_frame index p w : bounded [] [p] w ->
  wp (plain_save index p) (fun saved w' => touches [] [p] w w' /\ (saved = true -> forall bs, file_at w' p = Some bs -> zlen bs < 2 ^ 63)) (touches [] [p] w) w.
Proof.
  intros HB. eapply wp_weaken; [apply wp_conj; [apply (touches_only _ p w HB)|apply plain_save_size]|by intros|by intros w' []].
  intros q Hq. assert (forall i, current w p = Some i -> (i < next_inode w)%nat) as Hfresh by (intros i; apply (proj2 HB); by left).
  apply wp_bind, (within_fopen q p w Hfresh); [done| |intros w' Hw'; by apply wp_ret|done]. intros i w1 Hi. revert w1.
  apply within_bind; [by apply within_fwrite|]. intros b. apply within_bind; [apply within_noop|]. intros b'. apply within_ret.
Qed.

#[export] Instance plain_usearch : Usearch := {
  usearch_index_t := Z;
  usearch_init _ := Some 0;
  usearch_reserve index _ := Some index;
  usearch_add index _ _ := Some (index + 1);
  usearch_save := plain_save;
  usearch_save_frame := plain_save_frame }.

Definition slice_dir : bytes := [105] ++ SEGMENTS_DIR ++ [115].

(** The first slice of the plan of PlanImages, two units with a vector and a tombstone. *)
Definition slice_demo (plan : YAP_V2_SEGMENT_PLAN (J := demo_json)) : io (result YAP_V2_SEGMENT_DESCRIPTOR) :=
  YAP_V2_segment_slice_write (A := alloc_total) (J := demo_json) (fun _ => 7) (fun _ => true) (Some slice_dir) (Some [115]) 3 (Some vectors_config) (Some plan_units_demo) (Some plan) (bare_slice 0 2).

Lemma empty_apart xs : apart_names xs Segment.empty_world.
Proof. split; [intros x i _ H|intros x y i _ _ _ H]; apply list_elem_of_singleton in H; done. Qed.

(** What is checked of the written segment. *)
Definition slice_demo_holds (check : YAP_V2_SEGMENT_DESCRIPTOR -> world -> bool) : bool :=
  match plan_demo with
  | Ok plan => match slice_demo plan Segment.empty_world with Done (Ok d) w => check d w | _ => false end
  | _ => false
  end.

Lemma slice_demo_case check : slice_demo_holds check = true -> exists plan d w, plan_demo = Ok plan /\ slice_demo plan Segment.empty_world = Done (Ok d) w /\ check d w = true.
Proof.
  unfold slice_demo_holds. destruct plan_demo as [plan|e|]; [|done|done]. destruct (slice_demo plan Segment.empty_world) as [[d|e|] w|w] eqn:E; [|done|done|done]. intros H. by exists plan, d, w.
Qed.


