(* ===== verification/HttpHead.v ===== *)
(** Requests to the core server (src/src/server/yappo_core_http_v2.c): parsing the head of a
    request and reading a request from a stream.

    The parser works in a copy of the head with a NUL behind it, and puts more NULs where lines,
    names and values end; the pointer [cursor] only moves behind what was changed, so it is
    modelled by the bytes from it to the end of the copy.  Reading behind them is a [Fault].
    [isspace], [strcasecmp] and [sscanf] are those of the "C" locale. *)
From Stdlib Require Import String.
From S2P Require Import Prelude Words CString.
#[local] Open Scope Z_scope.

Inductive YAP_V2_CORE_HTTP_STATUS :=
  | YAP_V2_CORE_HTTP_EOF
  | YAP_V2_CORE_HTTP_INVALID_ARGUMENT
  | YAP_V2_CORE_HTTP_INVALID
  | YAP_V2_CORE_HTTP_TOO_LARGE
  | YAP_V2_CORE_HTTP_IO_ERROR
  | YAP_V2_CORE_HTTP_NO_MEMORY.
Abbreviation http := (outcome YAP_V2_CORE_HTTP_STATUS).

Definition YAP_V2_CORE_HTTP_MAX_LINE_BYTES : Z := 8192.
Definition YAP_V2_CORE_HTTP_MAX_HEADER_BYTES : Z := 65536.
Definition YAP_V2_AUTHORIZATION_MAX_BYTES : Z := 7 + 255.

(** The arrays are the strings they hold; [body_bytes] is the length of the body. *)
Record YAP_V2_CORE_HTTP_REQUEST := Request {
  method : bytes;
  target : bytes;
  content_length : Z;
  have_content_length : bool;
  json_content_type : bool;
  close_connection : bool;
  authorization : bytes;
  request_body : bytes }.

Definition YAP_V2_core_http_request_init : YAP_V2_CORE_HTTP_REQUEST := Request [] [] 0 false false false [] [].

Definition CR : Z := 13.
Definition LF : Z := 10.
Definition CRLF : bytes := [CR; LF].
Definition COLON : Z := 58.

(** ** The C library *)
Definition isspace (c : Z) : bool := ((9 <=? c) && (c <=? 13)) || (c =? 32).
Definition tolower (c : Z) : Z := if (65 <=? c) && (c <=? 90) then c + 32 else c.
Definition strcaseeq (a b : bytes) : bool := bool_decide (tolower <$> a = tolower <$> b).

(** [strstr] with a line end: the bytes before it and those behind it. *)
Fixpoint strstr_crlf (s : bytes) : http (option (bytes * bytes)) :=
  match s with
  | [] => Fault
  | c :: rest =>
      if c =? 0 then Ok None
      else
      match rest with
      | [] => Fault
      | d :: rest' =>
          if (c =? CR) && (d =? LF) then Ok (Some ([], rest'))
          else found ← strstr_crlf rest; Ok (match found with Some (l, tail) => Some (c :: l, tail) | None => None end)
      end
  end.

(** [strchr] in a string. *)
Fixpoint strchr (s : bytes) (c : Z) : option (bytes * bytes) :=
  match s with
  | [] => None
  | x :: s => if x =? c then Some ([], s) else match strchr s c with Some (l, r) => Some (x :: l, r) | None => None end
  end.

(** The directives of [sscanf]: white space, and a word of at most [n] characters. *)
Fixpoint skip_space (s : bytes) : bytes := match s with c :: r => if isspace c then skip_space r else s | [] => [] end.
Fixpoint take_word (n : nat) (s : bytes) : bytes * bytes :=
  match n, s with
  | S n, c :: r => if isspace c then ([], s) else let '(w, rest) := take_word n r in (c :: w, rest)
  | _, _ => ([], s)
  end.
Definition scan_word (n : nat) (s : bytes) : option (bytes * bytes) :=
  match take_word n (skip_space s) with ([], _) => None | (w, rest) => Some (w, rest) end.

(** ["%15s %255s %31s %c"]: the three words, and whether the fourth directive matched. *)
Definition scan_request_line (line : bytes) : option (bytes * bytes * bytes * bool) :=
  '(m, s) ← scan_word 15 line;
  '(t, s) ← scan_word 255 s;
  '(v, s) ← scan_word 31 s;
  Some (m, t, v, match skip_space s with [] => false | _ => true end).

(** ** Fields *)

Fixpoint content_length_loop (value : bytes) (parsed : Z) : option Z :=
  match value with
  | [] => Some parsed
  | c :: value =>
      if (c <? 48) || (57 <? c) then None
      else
      let digit := c - 48 in
      if (SIZE_MAX - digit) / 10 <? parsed then None else content_length_loop value (parsed * 10 + digit)
  end.
Definition parse_content_length (value : bytes) : option Z :=
  match value with [] => None | _ => content_length_loop value 0 end.

Definition token_char (c : Z) : bool :=
  ((48 <=? c) && (c <=? 57)) || ((65 <=? c) && (c <=? 90)) || ((97 <=? c) && (c <=? 122)) || bool_decide (c ∈ text "!#$%&'*+-.^_`|~").
Definition header_name_valid (name : bytes) : bool := match name with [] => false | _ => forallb token_char name end.

Definition blank (c : Z) : bool := (c =? 32) || (c =? 9).
Fixpoint skip_blank (s : bytes) : bytes := match s with c :: r => if blank c then skip_blank r else s | [] => [] end.
Definition trim_value (value : bytes) : bytes := reverse (skip_blank (reverse (skip_blank value))).

Record head_state := HeadState {
  hs_request : YAP_V2_CORE_HTTP_REQUEST;
  have_host : bool;
  have_type : bool;
  have_authorization : bool;
  have_connection : bool }.

(** The branches for one field. *)
Definition header_field (name value : bytes) (st : head_state) : http head_state :=
  let r := hs_request st in
  if strcaseeq name (text "Host") then
    if have_host st || bool_decide (value = []) then Err YAP_V2_CORE_HTTP_INVALID
    else Ok (HeadState r true (have_type st) (have_authorization st) (have_connection st))
  else if strcaseeq name (text "Content-Type") then
    if have_type st then Err YAP_V2_CORE_HTTP_INVALID
    else
    let json := strcaseeq (take 16 value) (text "application/json") && ((16 =? zlen value) || bool_decide (value !! 16%nat = Some 59)) in
    Ok (HeadState (Request (method r) (target r) (content_length r) (have_content_length r) json (close_connection r) (authorization r) (request_body r))
          (have_host st) true (have_authorization st) (have_connection st))
  else if strcaseeq name (text "Content-Length") then
    if have_content_length r then Err YAP_V2_CORE_HTTP_INVALID
    else
    match parse_content_length value with
    | None => Err YAP_V2_CORE_HTTP_INVALID
    | Some n =>
        Ok (HeadState (Request (method r) (target r) n true (json_content_type r) (close_connection r) (authorization r) (request_body r))
              (have_host st) (have_type st) (have_authorization st) (have_connection st))
    end
  else if strcaseeq name (text "Transfer-Encoding") then Err YAP_V2_CORE_HTTP_INVALID
  else if strcaseeq name (text "Authorization") then
    if have_authorization st || (zlen value =? 0) || (YAP_V2_AUTHORIZATION_MAX_BYTES <? zlen value) then Err YAP_V2_CORE_HTTP_INVALID
    else
    Ok (HeadState (Request (method r) (target r) (content_length r) (have_content_length r) (json_content_type r) (close_connection r) value (request_body r))
          (have_host st) (have_type st) true (have_connection st))
  else if strcaseeq name (text "Connection") then
    if have_connection st || (negb (strcaseeq value (text "close")) && negb (strcaseeq value (text "keep-alive"))) then Err YAP_V2_CORE_HTTP_INVALID
    else
    Ok (HeadState (Request (method r) (target r) (content_length r) (have_content_length r) (json_content_type r)
                     (negb (strcaseeq value (text "keep-alive"))) (authorization r) (request_body r))
          (have_host st) (have_type st) (have_authorization st) true)
  else Ok st.

Definition header_line (line : bytes) (st : head_state) : http head_state :=
  match strchr line COLON with
  | None => Err YAP_V2_CORE_HTTP_INVALID
  | Some (name, value) =>
      if bool_decide (name = []) || negb (header_name_valid name) then Err YAP_V2_CORE_HTTP_INVALID
      else header_field name (trim_value value) st
  end.

(** The loop over the lines; every turn consumes a line end. *)
Fixpoint parse_fields (fuel : nat) (cursor : bytes) (st : head_state) : http head_state :=
  c ← load cursor 0;
  if c =? 0 then Ok st
  else
  match fuel with
  | O => Fault
  | S fuel =>
      found ← strstr_crlf cursor;
      match found with
      | None => Err YAP_V2_CORE_HTTP_INVALID
      | Some (line, rest) =>
          if YAP_V2_CORE_HTTP_MAX_LINE_BYTES <? zlen line then Err YAP_V2_CORE_HTTP_INVALID
          else if bool_decide (line = []) then Ok st
          else st ← header_line line st; parse_fields fuel rest st
      end
  end.

Definition request_line (line : bytes) : http (bytes * bytes) :=
  match scan_request_line line with
  | Some (m, t, version, false) => if bool_decide (version = text "HTTP/1.1") then Ok (m, t) else Err YAP_V2_CORE_HTTP_INVALID
  | _ => Err YAP_V2_CORE_HTTP_INVALID
  end.

(** The lines of the copy. *)
Definition parse_lines (copy : bytes) : http YAP_V2_CORE_HTTP_REQUEST :=
  found ← strstr_crlf copy;
  match found with
  | None => Err YAP_V2_CORE_HTTP_INVALID
  | Some (line, rest) =>
      if YAP_V2_CORE_HTTP_MAX_LINE_BYTES <? zlen line then Err YAP_V2_CORE_HTTP_INVALID
      else
      '(m, t) ← request_line line;
      st ← parse_fields (length rest) rest (HeadState (Request m t 0 false false true [] []) false false false false);
      if have_host st then Ok (hs_request st) else Err YAP_V2_CORE_HTTP_INVALID
  end.

Section requests.
Context {A : Allocator}.

Definition YAP_V2_core_http_parse_head (input : option bytes) (input_bytes : Z) : http YAP_V2_CORE_HTTP_REQUEST :=
  match input with
  | None => Err YAP_V2_CORE_HTTP_INVALID_ARGUMENT
  | Some m =>
      if (input_bytes <? 4) || (YAP_V2_CORE_HTTP_MAX_HEADER_BYTES <? input_bytes) then Err YAP_V2_CORE_HTTP_INVALID_ARGUMENT
      else
      last ← load_bytes m (input_bytes - 4) 4;
      if negb (bool_decide (last = CRLF ++ CRLF)) then Err YAP_V2_CORE_HTTP_INVALID
      else if negb (alloc_ok (input_bytes + 1)) then Err YAP_V2_CORE_HTTP_NO_MEMORY
      else
      copy ← load_bytes m 0 input_bytes;
      parse_lines (copy ++ [0])
  end.

(** ** Streams *)

(** The bytes still to come, and whether the stream then ends or fails. *)
Record stream := Stream { pending : bytes; ends : bool }.

(** The loop over [fgetc]: the head with its empty line, or the reason why there is none. *)
Fixpoint read_head (fuel : nat) (head : bytes) (s : stream) : stream * http bytes :=
  match fuel with
  | O => (s, if bool_decide (drop (length head - 4) head = CRLF ++ CRLF) then Ok head else Err YAP_V2_CORE_HTTP_TOO_LARGE)
  | S fuel =>
      match pending s with
      | [] => (s, Err (if bool_decide (head = []) && ends s then YAP_V2_CORE_HTTP_EOF else YAP_V2_CORE_HTTP_IO_ERROR))
      | c :: rest =>
          let head := head ++ [c] in
          let s := Stream rest (ends s) in
          if (4 <=? zlen head) && bool_decide (drop (length head - 4) head = CRLF ++ CRLF) then (s, Ok head) else read_head fuel head s
      end
  end.

Definition INGEST_TARGET : bytes := text "/v2/documents:batch".

(** What follows the head. *)
Definition read_request_body (s : stream) (r : YAP_V2_CORE_HTTP_REQUEST) (max_body_bytes max_ingest_body_bytes : Z) : stream * http YAP_V2_CORE_HTTP_REQUEST :=
  let request_limit := if bool_decide (target r = INGEST_TARGET) then max_ingest_body_bytes else max_body_bytes in
  if have_content_length r && (request_limit <? content_length r) then (s, Err YAP_V2_CORE_HTTP_TOO_LARGE)
  else if negb (have_content_length r) || (content_length r =? 0) then (s, Ok r)
  else if negb (alloc_ok (content_length r)) then (s, Err YAP_V2_CORE_HTTP_NO_MEMORY)
  else
  let got := take (Z.to_nat (content_length r)) (pending s) in
  let s := Stream (drop (Z.to_nat (content_length r)) (pending s)) (ends s) in
  if negb (zlen got =? content_length r) then (s, Err YAP_V2_CORE_HTTP_IO_ERROR)
  else (s, Ok (Request (method r) (target r) (content_length r) (have_content_length r) (json_content_type r) (close_connection r)
                 (authorization r) got)).

Definition YAP_V2_core_http_read_request (s : option stream) (max_body_bytes max_ingest_body_bytes : Z) : option stream * http YAP_V2_CORE_HTTP_REQUEST :=
  match s with
  | None => (None, Err YAP_V2_CORE_HTTP_INVALID_ARGUMENT)
  | Some s =>
      if (max_body_bytes =? 0) || (max_ingest_body_bytes =? 0) then (Some s, Err YAP_V2_CORE_HTTP_INVALID_ARGUMENT)
      else if negb (alloc_ok YAP_V2_CORE_HTTP_MAX_HEADER_BYTES) then (Some s, Err YAP_V2_CORE_HTTP_NO_MEMORY)
      else
      let '(s, head) := read_head (Z.to_nat YAP_V2_CORE_HTTP_MAX_HEADER_BYTES) [] s in
      match (head ← head; YAP_V2_core_http_parse_head (Some head) (zlen head)) with
      | Err e => (Some s, Err e)
      | Fault => (Some s, Fault)
      | Ok r => let '(s, result) := read_request_body s r max_body_bytes max_ingest_body_bytes in (Some s, result)
      end
  end.
End requests.

(** ** Lines *)
Fixpoint no_crlf (l : bytes) : bool :=
  match l with
  | [] => true
  | c :: r => negb (match r with [] => false | d :: _ => (c =? CR) && (d =? LF) end) && no_crlf r
  end.

Lemma no_crlf_cons c d l : no_crlf (c :: d :: l) = (negb ((c =? CR) && (d =? LF)) && no_crlf (d :: l)).
Proof. done. Qed.

(** The first line end of the string: [l] comes before it. *)
Definition line_ok (l : bytes) : Prop := ~ (0 ∈ l) /\ no_crlf l = true.

Lemma strstr_crlf_app l r : line_ok l -> strstr_crlf (l ++ CRLF ++ r) = Ok (Some (l, r)).
Proof.
  intros [H0 Hn]. induction l as [|c l IH]; [done|]. apply not_elem_of_cons in H0 as [H0 Hl]. cbn [app strstr_crlf]. rewrite (proj2 (Z.eqb_neq _ _)) by congruence.
  destruct l as [|d l].
  - cbn [app CRLF strstr_crlf]. by destruct (c =? CR).
  - rewrite no_crlf_cons in Hn. apply andb_true_iff in Hn as [Hn Hn']. cbn [app]. apply negb_true_iff in Hn. rewrite Hn.
    change (d :: l ++ CRLF ++ r) with ((d :: l) ++ CRLF ++ r). by rewrite IH.
Qed.

Lemma strstr_crlf_spec s : 0 ∈ s ->
  match strstr_crlf s with Ok (Some (l, r)) => s = l ++ CRLF ++ r /\ line_ok l | Ok None => True | _ => False end.
Proof.
  induction s as [|c s IH]; [by intros ?%not_elem_of_nil|]. intros H0. cbn [strstr_crlf]. destruct (Z.eqb_spec c 0) as [->|N]; [done|].
  apply elem_of_cons in H0 as [|H0]; [done|]. destruct s as [|d s]; [by apply not_elem_of_nil in H0|]. destruct ((c =? CR) && (d =? LF)) eqn:E.
  { btests. subst. split; [done|]. split; [apply not_elem_of_nil|done]. }
  specialize (IH H0). destruct (strstr_crlf (d :: s)) as [[[l r]|]| |]; cbn [mbind outcome_bind]; [|done..]. destruct IH as [Es [Hl Hn]]. rewrite Es. split; [done|]. split.
  - rewrite not_elem_of_cons. by split.
  - destruct l as [|x l]; [done|]. cbn [app] in Es. injection Es as -> _. by rewrite no_crlf_cons, E, Hn.
Qed.

(** Reading the same bytes twice gives the same lines. *)
Lemma line_ok_unique l l' r r' : line_ok l -> line_ok l' -> l ++ CRLF ++ r = l' ++ CRLF ++ r' -> l = l' /\ r = r'.
Proof.
  intros H H' E. pose proof (strstr_crlf_app l r H) as E1. rewrite E, (strstr_crlf_app l' r' H') in E1. by injection E1.
Qed.

(** The lines up to an empty one, or to a NUL at the start of a line. *)
Inductive head_lines : bytes -> list bytes -> Prop :=
  | head_lines_nul r : head_lines (0 :: r) []
  | head_lines_empty r : head_lines (CRLF ++ r) []
  | head_lines_cons l ls r : l <> [] -> line_ok l -> zlen l <= YAP_V2_CORE_HTTP_MAX_LINE_BYTES -> head_lines r ls -> head_lines (l ++ CRLF ++ r) (l :: ls).

Fixpoint header_lines (ls : list bytes) (st : head_state) : http head_state :=
  match ls with [] => Ok st | l :: ls => st ← header_line l st; header_lines ls st end.

Lemma head_lines_inv cursor ls : head_lines cursor ls ->
  (exists r, cursor = 0 :: r /\ ls = []) \/
  (exists l r, cursor = l ++ CRLF ++ r /\ line_ok l /\
     (l = [] /\ ls = [] \/ l <> [] /\ zlen l <= YAP_V2_CORE_HTTP_MAX_LINE_BYTES /\ exists ls', ls = l :: ls' /\ head_lines r ls')).
Proof.
  intros [r|r|l ls' r Hne Hl Hz HL]; [left; eauto|right; exists [], r|right; exists l, r].
  - split_and!; [done|split; [apply not_elem_of_nil|done]|by left].
  - split_and!; [done|done|]. right. eauto.
Qed.

Lemma line_ok_first c l r s : line_ok l -> l ++ CRLF ++ r = c :: s -> c <> 0.
Proof. intros [Hl _] E. destruct l as [|x l]; [by injection E as <- _|]. injection E as -> _. apply not_elem_of_cons in Hl as [? _]. congruence. Qed.

(** The lines of bytes that start with a line. *)
Lemma head_lines_line l r ls : line_ok l -> head_lines (l ++ CRLF ++ r) ls ->
  l = [] /\ ls = [] \/ l <> [] /\ zlen l <= YAP_V2_CORE_HTTP_MAX_LINE_BYTES /\ exists ls', ls = l :: ls' /\ head_lines r ls'.
Proof.
  intros Hl [(r'&E&->)|(l'&r'&E&Hl'&H)]%head_lines_inv; [by apply (line_ok_first 0) in E|]. apply line_ok_unique in E as [-> ->]; done.
Qed.

Lemma header_line_safe l st : header_line l st <> Fault.
Proof.
  unfold header_line. destruct (strchr l COLON) as [[n v]|]; [|done]. destruct (_ || _); [done|]. unfold header_field. repeat (case_match; try done).
Qed.

Lemma parse_fields_exact fuel : forall cursor st, 0 ∈ cursor -> (length cursor <= fuel)%nat ->
  parse_fields fuel cursor st <> Fault /\
  forall st', parse_fields fuel cursor st = Ok st' <-> exists ls, head_lines cursor ls /\ header_lines ls st = Ok st'.
Proof.
  induction fuel as [|fuel IH]; intros cursor st H0 Hf; (destruct cursor as [|c cursor]; [by apply not_elem_of_nil in H0|]); cbn [length] in Hf; [lia|].
  cbn [parse_fields]. unfold load. rewrite (proj2 (in_range_true _ _ _)), outcome_bind_ok by (rewrite zlen_cons; pose_zlen; lia). change ((c :: cursor) !!! Z.to_nat 0) with c.
  destruct (Z.eqb_spec c 0) as [->|N].
  { split; [done|]. intros st'. split; [intros [= ->]; exists []; split; [constructor|done]|]. intros (ls&HL&HE).
    apply head_lines_inv in HL as [(r&_&->)|(l&r&E&Hl&_)]; [done|]. symmetry in E. by apply line_ok_first in E. }
  pose proof (strstr_crlf_spec (c :: cursor) H0) as HS. destruct (strstr_crlf (c :: cursor)) as [[[l r]|]| |] eqn:ES; cbn [mbind outcome_bind]; try done.
  2:{ split; [done|]. intros st'. split; [done|]. intros (ls&HL&_). apply head_lines_inv in HL as [(r&[= -> _]&_)|(l&r&E&Hl&_)]; [done|].
      rewrite E, (strstr_crlf_app l r Hl) in ES. done. }
  destruct HS as [Es Hl]. rewrite Es in *. pose proof (fun ls => head_lines_line l r ls Hl) as Hinv.
  destruct (Z.ltb_spec YAP_V2_CORE_HTTP_MAX_LINE_BYTES (zlen l)) as [Hz|Hz].
  { split; [done|]. intros st'. split; [done|]. intros (ls&HL&_). destruct (Hinv ls HL) as [[-> _]|(_&?&_)]; [done|lia]. }
  destruct (bool_decide_reflect (l = [])) as [->|Hne].
  { split; [done|]. intros st'. split; [intros [= ->]; exists []; split; [apply (head_lines_empty r)|done]|]. intros (ls&HL&HE). by destruct (Hinv ls HL) as [[_ ->]|(?&_)]. }
  assert (0 ∈ r) as Hr by (rewrite !elem_of_app in H0; destruct H0 as [H0|[H0|?]]; [by destruct Hl|by apply elem_of_cons in H0 as [|[|?%not_elem_of_nil]%elem_of_cons]|done]).
  assert (length r <= fuel)%nat as Hfr by (apply (f_equal length) in Es; rewrite !length_app in Es; cbn in Es; lia).
  assert (forall ls, head_lines (l ++ CRLF ++ r) ls <-> exists ls', ls = l :: ls' /\ head_lines r ls') as Hcons.
  { intros ls. split; [|by intros (ls'&->&?); constructor]. intros HL. by destruct (Hinv ls HL) as [[? _]|(_&_&?)]. }
  pose proof (header_line_safe l st) as Hsafe.
  destruct (header_line l st) as [st1|e|] eqn:EL; cbn [mbind outcome_bind]; [|split; [done|]; intros st'; split; [done|]|done].
  - destruct (IH r st1 Hr Hfr) as [HF HI]. split; [done|]. intros st'. rewrite HI. split.
    + intros (ls&HL&HE). exists (l :: ls). rewrite Hcons. split; [by exists ls|]. cbn [header_lines]. by rewrite EL.
    + intros (ls&(ls'&->&HL')%Hcons&HE). exists ls'. split; [done|]. cbn [header_lines] in HE. by rewrite EL in HE.
  - intros (ls&(ls'&->&HL')%Hcons&HE). cbn [header_lines] in HE. by rewrite EL in HE.
Qed.

(** ** What the fields say *)
Definition digit (c : Z) : Prop := 48 <= c <= 57.

Lemma of_decimal_from_le v : forall p, 0 <= p -> Forall digit v -> p <= foldl (fun n c => 10 * n + (c - 48)) p v.
Proof.
  induction v as [|c v IH]; intros p Hp Hv; cbn [foldl]; [lia|]. apply Forall_cons in Hv as [Hc Hv]. unfold digit in Hc. specialize (IH (10 * p + (c - 48)) ltac:(lia) Hv). lia.
Qed.

Lemma content_length_loop_exact v : forall p n, 0 <= p -> p <= SIZE_MAX -> content_length_loop v p = Some n <->
  Forall digit v /\ n = foldl (fun n c => 10 * n + (c - 48)) p v /\ n <= SIZE_MAX.
Proof.
  induction v as [|c v IH]; intros p n H0 H1; cbn [content_length_loop foldl].
  { split; [by intros [= ->]|]. by intros (_&->&_). }
  rewrite Forall_cons. destruct (_ || _) eqn:T; [split; [done|]; intros ([Hc _]&_); unfold digit in Hc; apply orb_true_iff in T as [T|T]; btests; lia|].
  btests. cbv zeta. destruct (Z.ltb_spec ((SIZE_MAX - (c - 48)) / 10) p) as [Hd|Hd].
  - split; [done|]. intros ([_ Hv]&->&Hn). pose proof (of_decimal_from_le v (10 * p + (c - 48)) ltac:(lia) Hv).
    pose proof (Z.div_mod (SIZE_MAX - (c - 48)) 10 ltac:(lia)). pose proof (Z.mod_pos_bound (SIZE_MAX - (c - 48)) 10 ltac:(lia)). lia.
  - pose proof (Z.mul_div_le (SIZE_MAX - (c - 48)) 10 ltac:(lia)). rewrite (Z.mul_comm p 10), IH by lia. unfold digit. intuition lia.
Qed.

Lemma parse_content_length_exact v n : parse_content_length v = Some n <-> v <> [] /\ Forall digit v /\ n = of_decimal v /\ n <= SIZE_MAX.
Proof.
  unfold parse_content_length. destruct v as [|c v]; [split; [done|by intros []]|]. rewrite content_length_loop_exact by (unfold SIZE_MAX; lia). unfold of_decimal. naive_solver.
Qed.

Inductive field_kind := KHost | KType | KLength | KTransfer | KAuthorization | KConnection | KOther.
#[export] Instance field_kind_eq_dec : EqDecision field_kind.
Proof. solve_decision. Defined.

Definition kind (name : bytes) : field_kind :=
  if strcaseeq name (text "Host") then KHost
  else if strcaseeq name (text "Content-Type") then KType
  else if strcaseeq name (text "Content-Length") then KLength
  else if strcaseeq name (text "Transfer-Encoding") then KTransfer
  else if strcaseeq name (text "Authorization") then KAuthorization
  else if strcaseeq name (text "Connection") then KConnection
  else KOther.

Abbreviation field := (bytes * bytes)%type.

(** The values of the fields of a kind. *)
Definition values (k : field_kind) (fs : list field) : list bytes := snd <$> filter (fun f => kind f.1 = k) fs.

(** What a value has to be. *)
Definition value_ok (k : field_kind) (v : bytes) : Prop :=
  match k with
  | KHost => v <> []
  | KLength => v <> [] /\ Forall digit v /\ of_decimal v <= SIZE_MAX
  | KTransfer => False
  | KAuthorization => 1 <= zlen v <= YAP_V2_AUTHORIZATION_MAX_BYTES
  | KConnection => strcaseeq v (text "close") = true \/ strcaseeq v (text "keep-alive") = true
  | KType | KOther => True
  end.

(** Every field that the server knows occurs at most once. *)
Definition values_ok (k : field_kind) (vs : list bytes) : Prop :=
  match vs with [] => True | [v] => value_ok k v | _ => k = KOther end.
Definition fields_ok (fs : list field) : Prop := forall k, values_ok k (values k fs).

Definition json_type (v : bytes) : bool := strcaseeq (take 16 v) (text "application/json") && ((16 =? zlen v) || bool_decide (v !! 16%nat = Some 59)).
Definition nonempty {X} (l : list X) : bool := match l with [] => false | _ => true end.

(** The request that the fields describe. *)
Definition request_of (m t : bytes) (fs : list field) : YAP_V2_CORE_HTTP_REQUEST :=
  Request m t (match values KLength fs with v :: _ => of_decimal v | [] => 0 end) (nonempty (values KLength fs))
    (match values KType fs with v :: _ => json_type v | [] => false end)
    (match values KConnection fs with v :: _ => negb (strcaseeq v (text "keep-alive")) | [] => true end)
    (match values KAuthorization fs with v :: _ => v | [] => [] end) [].

Definition state_of (m t : bytes) (fs : list field) : head_state :=
  HeadState (request_of m t fs) (nonempty (values KHost fs)) (nonempty (values KType fs)) (nonempty (values KAuthorization fs)) (nonempty (values KConnection fs)).

Lemma values_snoc k fs n v : values k (fs ++ [(n, v)]) = values k fs ++ (if decide (kind n = k) then [v] else []).
Proof. unfold values. rewrite filter_app, fmap_app. f_equal. cbn. by case_decide. Qed.

(** One more field is accepted when it is unknown, or new and with a proper value. *)
Definition next_ok (fs : list field) (n v : bytes) : Prop := kind n = KOther \/ values (kind n) fs = [] /\ value_ok (kind n) v.

Lemma header_field_exact m t fs n v st' : header_field n v (state_of m t fs) = Ok st' <-> next_ok fs n v /\ st' = state_of m t (fs ++ [(n, v)]).
Proof.
  assert (st' = state_of m t (fs ++ [(n, v)]) <-> st' = HeadState (request_of m t (fs ++ [(n, v)])) (nonempty (values KHost (fs ++ [(n, v)])))
    (nonempty (values KType (fs ++ [(n, v)]))) (nonempty (values KAuthorization (fs ++ [(n, v)]))) (nonempty (values KConnection (fs ++ [(n, v)])))) as -> by done.
  unfold request_of, next_ok. rewrite !values_snoc. unfold header_field, kind, state_of, request_of. cbn [hs_request have_host have_type have_authorization have_connection method target content_length
    have_content_length json_content_type close_connection authorization request_body].
  destruct (strcaseeq n (text "Host")); [|destruct (strcaseeq n (text "Content-Type")); [|destruct (strcaseeq n (text "Content-Length")); [|
    destruct (strcaseeq n (text "Transfer-Encoding")); [|destruct (strcaseeq n (text "Authorization")); [|destruct (strcaseeq n (text "Connection"))]]]]];
    cbn [decide_rel field_kind_eq_dec]; repeat first [rewrite decide_True by done|rewrite decide_False by done]; rewrite ?app_nil_r; cbn [value_ok].
  - destruct (values KHost fs); cbn [nonempty orb app]; [|naive_solver]. destruct (bool_decide_reflect (v = [])); naive_solver.
  - destruct (values KType fs); cbn [nonempty app]; naive_solver.
  - destruct (values KLength fs); cbn [nonempty app]; [|naive_solver]. pose proof (parse_content_length_exact v) as HP. destruct (parse_content_length v) as [x|].
    + destruct (proj1 (HP x) eq_refl) as (?&?&->&?). naive_solver.
    + split; [done|]. intros ([|[_ (H1&H2&H3)]]&_); [done|]. discriminate (proj2 (HP (of_decimal v)) (conj H1 (conj H2 (conj eq_refl H3)))).
  - naive_solver.
  - destruct (values KAuthorization fs); cbn [nonempty orb app]; [|naive_solver].
    destruct (Z.eqb_spec (zlen v) 0), (Z.ltb_spec YAP_V2_AUTHORIZATION_MAX_BYTES (zlen v)); cbn [orb]; pose_zlen; naive_solver lia.
  - destruct (values KConnection fs); cbn [nonempty orb app]; [|naive_solver].
    destruct (strcaseeq v (text "close")) eqn:E1, (strcaseeq v (text "keep-alive")) eqn:E2; cbn [negb andb]; split.
    all: try (by intros [= <-]; split; [right; split; [done|tauto]|]).
    all: try (by intros [_ ->]).
    all: try done.
    by intros [[|[_ [|]]] _].
  - destruct (values KOther fs); naive_solver.
Qed.

Lemma next_ok_fields fs n v : fields_ok fs -> fields_ok (fs ++ [(n, v)]) <-> next_ok fs n v.
Proof.
  intros HF. unfold fields_ok, next_ok. split.
  - intros H. specialize (H (kind n)). specialize (HF (kind n)). rewrite values_snoc, decide_True in H by done.
    destruct (values (kind n) fs) as [|x [|y l]]; [by right|by left|by left].
  - intros H k. rewrite values_snoc. destruct (decide (kind n = k)) as [<-|N]; [|rewrite app_nil_r; apply HF]. specialize (HF (kind n)).
    destruct H as [E|[-> Hv]]; [|done]. rewrite E in *. by destruct (values KOther fs) as [|x [|]].
Qed.

(** A line as a field. *)
Definition is_field (line : bytes) (f : field) : Prop :=
  exists raw, line = f.1 ++ COLON :: raw /\ ~ (COLON ∈ f.1) /\ f.1 <> [] /\ Forall (fun c => token_char c = true) f.1 /\ f.2 = trim_value raw.

Lemma strchr_spec s c : match strchr s c with Some (l, r) => s = l ++ c :: r /\ ~ (c ∈ l) | None => ~ (c ∈ s) end.
Proof.
  induction s as [|x s IH]; cbn [strchr]; [apply not_elem_of_nil|]. destruct (Z.eqb_spec x c) as [->|N]; [split; [done|apply not_elem_of_nil]|].
  destruct (strchr s c) as [[l r]|]; [destruct IH as [-> IH]; split; [done|]|]; rewrite not_elem_of_cons; split; congruence || done.
Qed.

Lemma header_line_exact line st st' : header_line line st = Ok st' <-> exists f, is_field line f /\ header_field f.1 f.2 st = Ok st'.
Proof.
  unfold header_line. pose proof (strchr_spec line COLON) as HS. destruct (strchr line COLON) as [[n raw]|].
  - destruct HS as [-> Hn]. destruct (_ || _) eqn:T.
    + split; [done|]. intros ([n' v]&(raw'&E&Hn'&Hne&Ht&_)&_). exfalso. cbn [fst] in *. apply (split_inj COLON n n') in E as [<- _]; [|done|done].
      apply orb_true_iff in T as [T|T]; btests; [done|]. destruct n as [|x n]; [done|]. unfold header_name_valid in T. apply not_true_iff_false in T. apply T. apply forallb_forall.
      intros c Hc. apply list_elem_of_In in Hc. by apply (proj1 (Forall_forall _ _) Ht).
    + apply orb_false_iff in T as [T1 T2]. btests. split.
      * intros HE. exists (n, trim_value raw). split; [|done]. exists raw. split_and!; [done|done|done| |done]. destruct n as [|x n]; [done|]. cbn [header_name_valid] in T2.
        apply Forall_forall. intros c Hc. rewrite forallb_forall in T2. by apply T2, list_elem_of_In.
      * intros ([n' v]&(raw'&E&Hn'&Hne&_&Hv)&HE). cbn [fst snd] in *. apply (split_inj COLON n n') in E as [<- <-]; [|done|done]. by rewrite <- Hv.
  - split; [done|]. intros ([n v]&(raw&->&_)&_). exfalso. apply HS. cbn. apply elem_of_app. right. by left.
Qed.

Lemma values_app k fs gs : values k (fs ++ gs) = values k fs ++ values k gs.
Proof. unfold values. by rewrite filter_app, fmap_app. Qed.

Lemma fields_ok_prefix fs gs : fields_ok (fs ++ gs) -> fields_ok fs.
Proof.
  intros H k. specialize (H k). rewrite values_app in H. destruct (values k fs) as [|x [|y l]]; [done| |done]. cbn [app] in H.
  by destruct (values k gs); [|cbn in H; subst].
Qed.

Lemma header_lines_exact m t ls : forall pre st', fields_ok pre ->
  header_lines ls (state_of m t pre) = Ok st' <-> exists fs, Forall2 is_field ls fs /\ fields_ok (pre ++ fs) /\ st' = state_of m t (pre ++ fs).
Proof.
  induction ls as [|l ls IH]; intros pre st' Hp; cbn [header_lines].
  { split; [intros [= <-]; exists []; by rewrite app_nil_r|]. intros (fs&HF&_&->). apply Forall2_nil_inv_l in HF as ->. by rewrite app_nil_r. }
  rewrite bind_ok. split.
  - intros (st1&([n v]&Hf&[Hn ->]%header_field_exact)%header_line_exact&H). cbn [fst snd] in *.
    apply IH in H as (fs&HF&Hok&->); [|by apply next_ok_fields]. exists ((n, v) :: fs). rewrite <- (assoc_L (++)) in Hok |- *. split_and!; [by constructor|done|done].
  - intros (fs&HF&Hok&->). apply Forall2_cons_inv_l in HF as ([n v]&fs'&Hf&HF&->). change ((n, v) :: fs') with ([(n, v)] ++ fs') in Hok |- *.
    rewrite (assoc_L (++)) in Hok |- *. pose proof (fields_ok_prefix _ _ Hok) as H1. exists (state_of m t (pre ++ [(n, v)])). split.
    + apply header_line_exact. exists (n, v). split; [done|]. apply header_field_exact. split; [by apply next_ok_fields|done].
    + apply IH; [done|]. by exists fs'.
Qed.

(** ** The request line *)
Definition spaces (s : bytes) : Prop := Forall (fun c => isspace c = true) s.
Definition word (n : Z) (w : bytes) : Prop := w <> [] /\ Forall (fun c => isspace c = false) w /\ zlen w <= n.

Lemma skip_space_spec s : exists sp, s = sp ++ skip_space s /\ spaces sp /\ match skip_space s with c :: _ => isspace c = false | [] => True end.
Proof.
  assert (spaces []) as H0 by constructor. induction s as [|c s IH]; [by exists []|]. cbn [skip_space]. destruct (isspace c) eqn:E; [|by exists []].
  destruct IH as (sp&Es&Hsp&Hh). exists (c :: sp). rewrite Es at 1. split_and!; [done|by constructor|done].
Qed.

Lemma skip_space_app sp s : spaces sp -> match s with c :: _ => isspace c = false | [] => True end -> skip_space (sp ++ s) = s.
Proof.
  intros Hsp Hs. induction Hsp as [|c sp Hc Hsp IH]; cbn [app skip_space]; [|by rewrite Hc]. destruct s as [|c s]; [done|]. cbn [skip_space]. by rewrite Hs.
Qed.

Lemma take_word_spec n : forall s, let '(w, rest) := take_word n s in s = w ++ rest /\ Forall (fun c => isspace c = false) w /\ (length w <= n)%nat /\
  (length w = n \/ match rest with c :: _ => isspace c = true | [] => True end).
Proof.
  induction n as [|n IH]; intros [|c s]; cbn [take_word]; [split_and!; (done || by left)..|split_and!; [done|done|cbn; lia|by right]|].
  destruct (isspace c) eqn:E; [split_and!; [done|done|cbn; lia|by right]|]. specialize (IH s). destruct (take_word n s) as [w rest]. destruct IH as (->&Hw&Hl&HR).
  split_and!; [done|by constructor|cbn; lia|]. destruct HR as [HR|HR]; [left; cbn; lia|by right].
Qed.

Lemma take_word_app n w : forall rest, Forall (fun c => isspace c = false) w -> (length w <= n)%nat ->
  (length w = n \/ match rest with c :: _ => isspace c = true | [] => True end) -> take_word n (w ++ rest) = (w, rest).
Proof.
  revert n. induction w as [|c w IH]; intros n rest Hw Hl HR; cbn [app length] in *.
  - destruct n as [|n]; [done|]. destruct HR as [|HR]; [done|]. destruct rest as [|c r]; [done|]. cbn [take_word]. by rewrite HR.
  - apply Forall_cons in Hw as [Hc Hw]. destruct n as [|n]; [lia|]. cbn [take_word]. rewrite Hc, IH; [done|done|lia|]. destruct HR; [left; lia|by right].
Qed.

Lemma scan_word_exact n s w rest : scan_word n s = Some (w, rest) <->
  exists sp, s = sp ++ w ++ rest /\ spaces sp /\ word (Z.of_nat n) w /\ (zlen w = Z.of_nat n \/ match rest with c :: _ => isspace c = true | [] => True end).
Proof.
  unfold scan_word, word. split.
  - destruct (skip_space_spec s) as (sp&Es&Hsp&_). pose proof (take_word_spec n (skip_space s)) as HT. destruct (take_word n (skip_space s)) as [w' rest']. destruct HT as (E&Hw&Hl&HR).
    destruct w' as [|c w']; [done|]. intros [= <- <-]. exists sp. rewrite <- E. unfold zlen. split_and!; try done; [lia|]. destruct HR; [left; lia|by right].
  - intros (sp&->&Hsp&(Hne&Hw&Hl)&HR). unfold zlen in *. rewrite skip_space_app; [|done|by destruct Hw].
    rewrite take_word_app; [by destruct w|done|lia|]. destruct HR; [left; lia|by right].
Qed.

(** Three words: a method, a target and the version; a space may be missing only behind a word that
    fills its array. *)
Definition request_line_ok (line m t : bytes) : Prop :=
  exists s0 s1 s2 s3, line = s0 ++ m ++ s1 ++ t ++ s2 ++ text "HTTP/1.1" ++ s3 /\ spaces s0 /\ spaces s1 /\ spaces s2 /\ spaces s3 /\
    word 15 m /\ word 255 t /\ (s1 <> [] \/ zlen m = 15) /\ (s2 <> [] \/ zlen t = 255).

Lemma spaces_nil s : skip_space s = [] <-> spaces s.
Proof.
  split; [|intros H; rewrite <- (app_nil_r s); by apply skip_space_app]. destruct (skip_space_spec s) as (sp&E&Hsp&_). intros H. by rewrite E, H, app_nil_r.
Qed.

Lemma word_first n w r : word n w -> match w ++ r with c :: _ => isspace c = false | [] => True end.
Proof. intros (Hne&Hw&_). by destruct Hw. Qed.

Lemma request_line_exact line m t : request_line line = Ok (m, t) <-> request_line_ok line m t.
Proof.
  unfold request_line, request_line_ok. split.
  - destruct (scan_request_line line) as [[[[m' t'] v] b]|] eqn:E; [|done]. unfold scan_request_line in E.
    destruct (scan_word 15 line) as [[m1 r1]|] eqn:E1; [|done]. cbn [mbind option_bind] in E. destruct (scan_word 255 r1) as [[t1 r2]|] eqn:E2; [|done]. cbn [mbind option_bind] in E.
    destruct (scan_word 31 r2) as [[v1 r3]|] eqn:E3; [|done]. cbn [mbind option_bind] in E. injection E as <- <- <- <-.
    destruct (skip_space r3) as [|] eqn:E4; [|done]. apply spaces_nil in E4. destruct (bool_decide_reflect (v1 = text "HTTP/1.1")) as [->|]; [|done]. intros [= <- <-].
    apply scan_word_exact in E1 as (s0&->&H0&Hm&R1), E2 as (s1&->&H1&Ht&R2), E3 as (s2&->&H2&Hv&R3).
    exists s0, s1, s2, r3. split_and!; try done.
    + destruct R1 as [R1|R1]; [by right|left]. intros ->. cbn [app] in R1. pose proof (word_first _ t1 (s2 ++ text "HTTP/1.1" ++ r3) Ht) as HW.
      destruct Ht as (?&_). destruct t1; [done|]. cbn in R1, HW. congruence.
    + destruct R2 as [R2|R2]; [by right|left]. by intros ->.
  - intros (s0&s1&s2&s3&->&H0&H1&H2&H3&Hm&Ht&N1&N2). unfold scan_request_line.
    rewrite (proj2 (scan_word_exact 15 _ m (s1 ++ t ++ s2 ++ text "HTTP/1.1" ++ s3))).
    2:{ exists s0. split_and!; [done|done|done|]. destruct N1 as [N1|N1]; [right|by left]. destruct H1; [done|]. done. }
    cbn [mbind option_bind]. rewrite (proj2 (scan_word_exact 255 _ t (s2 ++ text "HTTP/1.1" ++ s3))).
    2:{ exists s1. split_and!; [done|done|done|]. destruct N2 as [N2|N2]; [right|by left]. destruct H2; [done|]. done. }
    cbn [mbind option_bind]. rewrite (proj2 (scan_word_exact 31 _ (text "HTTP/1.1") s3)).
    2:{ exists s2. split_and!; [done|done| |right; by destruct H3]. split_and!; [done|by repeat constructor|done]. }
    cbn [mbind option_bind]. rewrite (proj2 (spaces_nil s3) H3). by rewrite bool_decide_eq_true_2.
Qed.

(** ** Heads *)
Definition ended (h : bytes) : Prop := 4 <= zlen h /\ drop (length h - 4) h = CRLF ++ CRLF.

(** The lines of a head, with what they say. *)
Definition lines_say (copy m t : bytes) (fs : list field) : Prop :=
  exists line rest ls, copy = line ++ CRLF ++ rest /\ line_ok line /\ zlen line <= YAP_V2_CORE_HTTP_MAX_LINE_BYTES /\
    request_line_ok line m t /\ head_lines rest ls /\ Forall2 is_field ls fs /\ fields_ok fs /\ values KHost fs <> [].

(** A head that the parser accepts: it ends with an empty line and is not too long. *)
Record head_accepts (input m t : bytes) (fs : list field) : Prop := {
  ha_size : zlen input <= YAP_V2_CORE_HTTP_MAX_HEADER_BYTES;
  ha_end : ended input;
  ha_lines : lines_say (input ++ [0]) m t fs }.

Lemma request_line_safe line : request_line line <> Fault.
Proof. unfold request_line. repeat (case_match; try done). Qed.

Lemma nul_behind_line copy line rest : 0 ∈ copy -> copy = line ++ CRLF ++ rest -> line_ok line -> 0 ∈ rest.
Proof.
  intros H -> [Hl _]. apply elem_of_app in H as [|[H|]%elem_of_app]; [done| |done]. by apply elem_of_cons in H as [|[|?%not_elem_of_nil]%elem_of_cons].
Qed.

Lemma nonempty_true {X} (l : list X) : nonempty l = true <-> l <> [].
Proof. by destruct l. Qed.

(** The fields behind the request line. *)
Lemma fields_exact rest m t : 0 ∈ rest -> let p := parse_fields (length rest) rest (state_of m t []) in
  p <> Fault /\ forall st, p = Ok st <-> exists ls fs, head_lines rest ls /\ Forall2 is_field ls fs /\ fields_ok fs /\ st = state_of m t fs.
Proof.
  intros H0 p. destruct (parse_fields_exact (length rest) rest (state_of m t []) H0 ltac:(done)) as [HF HX]. split; [done|]. intros st. subst p. rewrite HX.
  assert (fields_ok []) as Hnil by (by intros k). split.
  - intros (ls&HL&(fs&HFF&Hok&->)%header_lines_exact); [|done]. eauto 6.
  - intros (ls&fs&HL&HFF&Hok&->). exists ls. split; [done|]. apply header_lines_exact; [done|]. eauto.
Qed.

Lemma parse_lines_exact copy : 0 ∈ copy -> parse_lines copy <> Fault /\
  forall r, parse_lines copy = Ok r <-> exists m t fs, lines_say copy m t fs /\ r = request_of m t fs.
Proof.
  intros H0. unfold parse_lines. pose proof (strstr_crlf_spec _ H0) as HS.
  destruct (strstr_crlf copy) as [[[line rest]|]| |] eqn:ES; cbn [mbind outcome_bind]; try done.
  2:{ split; [done|]. intros r. split; [done|]. intros (m&t&fs&(line&rest&ls&E&Hl&_)&_). by rewrite E, (strstr_crlf_app line rest Hl) in ES. }
  destruct HS as [E Hl].
  assert (forall m t fs, lines_say copy m t fs <-> zlen line <= YAP_V2_CORE_HTTP_MAX_LINE_BYTES /\ request_line line = Ok (m, t) /\
    (exists ls, head_lines rest ls /\ Forall2 is_field ls fs) /\ fields_ok fs /\ values KHost fs <> []) as Hacc.
  { intros m t fs. rewrite request_line_exact. split; [|intros (Hz&Hr&(ls&HL&HF)&Hok&Hh); exists line, rest, ls; done].
    intros (line'&rest'&ls&E'&Hl'&Hz&Hr&HL&HF&Hok&Hh). rewrite E in E'. apply line_ok_unique in E' as [<- <-]; [|done|done]. eauto 10. }
  destruct (Z.ltb_spec YAP_V2_CORE_HTTP_MAX_LINE_BYTES (zlen line)) as [Hz|Hz]; [split; [done|]; intros r; split; [done|]; intros (m&t&fs&(?&_)%Hacc&_); lia|].
  pose proof (request_line_safe line) as Hsafe. destruct (request_line line) as [[m t]|e|] eqn:ER; cbn [mbind outcome_bind]; [|split; [done|]; intros r; split; [done|]|done].
  2:{ by intros (m&t&fs&(_&Hr&_)%Hacc&_). }
  change (HeadState _ _ _ _ _) with (state_of m t []). destruct (fields_exact rest m t (nul_behind_line _ _ _ H0 E Hl)) as [HF HX]. split.
  - destruct (parse_fields _ _ _) as [st|e|]; cbn [mbind outcome_bind]; [|done|done]. by destruct (have_host st).
  - intros r. rewrite bind_ok. split.
    + intros (st&(ls&fs&HL&HFF&Hok&->)%HX&Hr). unfold state_of in Hr. cbn [have_host hs_request] in Hr. destruct (nonempty (values KHost fs)) eqn:Eh; [|done].
      injection Hr as <-. exists m, t, fs. split; [|done]. apply Hacc. apply nonempty_true in Eh. eauto 10.
    + intros (m'&t'&fs&(_&[= <- <-]&(ls&HL&HFF)&Hok&Hh)%Hacc&->). exists (state_of m t fs). split; [apply HX; eauto 6|].
      unfold state_of. cbn [have_host hs_request]. by rewrite (proj2 (nonempty_true _) Hh).
Qed.

Section exact.
Context {A : Allocator}.

Lemma parse_head_spec input : alloc_ok (zlen input + 1) = true ->
  YAP_V2_core_http_parse_head (Some input) (zlen input) <> Fault /\
  forall r, YAP_V2_core_http_parse_head (Some input) (zlen input) = Ok r <-> exists m t fs, head_accepts input m t fs /\ r = request_of m t fs.
Proof.
  intros HA. unfold YAP_V2_core_http_parse_head.
  destruct (Z.ltb_spec (zlen input) 4) as [H4|H4]; [split; [done|]; intros r; split; [done|]; intros (?&?&?&[_ [? _] _]&_); lia|].
  destruct (Z.ltb_spec YAP_V2_CORE_HTTP_MAX_HEADER_BYTES (zlen input)) as [HM|HM]; [split; [done|]; intros r; split; [done|]; intros (?&?&?&[? _ _]&_); lia|]. cbn [orb].
  rewrite (load_bytes_slice input (zlen input - 4) 4), outcome_bind_ok by lia. assert (slice input (zlen input - 4) 4 = drop (length input - 4) input) as ->.
  { unfold slice, zlen in *. replace (Z.to_nat (Z.of_nat (length input) - 4)) with (length input - 4)%nat by lia. apply take_ge. rewrite length_drop. lia. }
  destruct (bool_decide_reflect (drop (length input - 4) input = CRLF ++ CRLF)) as [HE|HE]; cbn [negb]; [|split; [done|]; intros r; split; [done|]; by intros (?&?&?&[_ [_ ?] _]&_)].
  rewrite HA. cbn [negb]. rewrite load_bytes_slice, outcome_bind_ok, slice_all by lia.
  destruct (parse_lines_exact (input ++ [0])) as [HF HX]; [apply elem_of_app; right; by left|]. split; [done|]. intros r. rewrite HX.
  split; intros (m&t&fs&H&->); exists m, t, fs; (split; [|done]); [by split|by destruct H].
Qed.
End exact.

(** ** Reading from a stream *)

(** The first empty line ends the head. *)
Definition head_end (h : bytes) : Prop := ended h /\ forall k, (k < length h)%nat -> ~ ended (take k h).

Lemma ended_dec h : (4 <=? zlen h) && bool_decide (drop (length h - 4) h = CRLF ++ CRLF) = true <-> ended h.
Proof. unfold ended. rewrite andb_true_iff, Z.leb_le, bool_decide_eq_true. done. Qed.

Lemma read_head_exact fuel : forall h s, (forall k, (k <= length h)%nat -> ~ ended (take k h)) -> zlen h + Z.of_nat fuel = YAP_V2_CORE_HTTP_MAX_HEADER_BYTES ->
  (read_head fuel h s).2 <> Fault /\
  forall s' head, read_head fuel h s = (s', Ok head) <-> exists d, head = h ++ d /\ pending s = d ++ pending s' /\ ends s' = ends s /\ head_end head /\ zlen head <= YAP_V2_CORE_HTTP_MAX_HEADER_BYTES.
Proof.
  induction fuel as [|fuel IH]; intros h s Hh Hz; cbn [read_head]; assert (~ ended h) as Hno by (intros He; destruct (Hh (length h) ltac:(done)); by rewrite take_ge).
  - rewrite bool_decide_eq_false_2; [|intros E; apply (Hh (length h) ltac:(done)); rewrite take_ge by done; split; [unfold YAP_V2_CORE_HTTP_MAX_HEADER_BYTES in *; lia|done]].
    split; [done|]. intros s' head. split; [done|]. intros (d&->&_&_&[He _]&Hl). rewrite zlen_app in Hl. assert (d = []) as -> by (destruct d; [done|rewrite zlen_cons in Hl; pose_zlen; lia]).
    rewrite app_nil_r in He. destruct (Hh (length h) ltac:(done)). by rewrite take_ge.
  - destruct s as [[|c rest] e]; cbn [pending ends].
    { split; [by destruct (_ && _)|]. intros s' head. split; [done|]. intros (d&->&Hd&_&[He _]&_). symmetry in Hd. apply app_eq_nil in Hd as [-> _]. rewrite app_nil_r in He.
      destruct (Hh (length h) ltac:(done)). by rewrite take_ge. }
    pose proof (ended_dec (h ++ [c])) as HD. destruct (_ && bool_decide _) eqn:E.
    + split; [done|]. apply proj1 in HD. specialize (HD eq_refl). intros s' head. split.
      * intros [= <- <-]. exists [c]. split_and!; [done|done|done|split; [done|]|rewrite zlen_app, zlen_cons, zlen_nil; lia].
        intros k Hk. rewrite length_app in Hk. cbn in Hk. rewrite take_app_le by lia. apply Hh. lia.
      * intros (d&->&Hd&He&[Hx Hn]&_). destruct d as [|x d]; [by rewrite app_nil_r in Hx|]. cbn [app] in Hd. injection Hd as <- Hd.
        assert (d = []) as ->; [|destruct s'; cbn in *; by subst]. destruct d as [|y d]; [done|]. destruct (Hn (length (h ++ [c]))); [rewrite !length_app; cbn; lia|].
        change (c :: y :: d) with ([c] ++ y :: d). by rewrite (assoc_L (++)), take_app_length.
    + assert (~ ended (h ++ [c])) as HN by (by intros ?%HD). destruct (IH (h ++ [c]) (Stream rest e)) as [HF HX].
      { intros k Hk. rewrite length_app in Hk. cbn in Hk. destruct (decide (k = S (length h))) as [->|]; [rewrite take_ge by (rewrite length_app; cbn; lia); done|].
        rewrite take_app_le by lia. apply Hh. lia. }
      { rewrite zlen_app, zlen_cons, zlen_nil. lia. }
      split; [done|]. intros s' head. rewrite HX. cbn [pending ends]. split.
      * intros (d&->&->&He&Hx). exists (c :: d). rewrite <- (assoc_L (++)) in Hx |- *. done.
      * intros (d&->&Hd&He&[Hx Hn]&Hl). destruct d as [|x d]; [by rewrite app_nil_r in Hx|]. cbn [app] in Hd. injection Hd as <- ->.
        exists d. rewrite <- (assoc_L (++)). by split_and!.
Qed.

Definition with_body (r : YAP_V2_CORE_HTTP_REQUEST) (b : bytes) : YAP_V2_CORE_HTTP_REQUEST :=
  Request (method r) (target r) (content_length r) (have_content_length r) (json_content_type r) (close_connection r) (authorization r) b.

Definition body_limit (max_body_bytes max_ingest_body_bytes : Z) (t : bytes) : Z := if bool_decide (t = INGEST_TARGET) then max_ingest_body_bytes else max_body_bytes.

Lemma of_decimal_nonneg v : Forall digit v -> 0 <= of_decimal v.
Proof. apply of_decimal_from_le. done. Qed.

Lemma request_of_length m t fs : fields_ok fs -> 0 <= content_length (request_of m t fs) /\
  (have_content_length (request_of m t fs) = false -> content_length (request_of m t fs) = 0).
Proof.
  intros H. specialize (H KLength). unfold request_of. cbn [content_length have_content_length]. destruct (values KLength fs) as [|v [|]]; [done| |done].
  destruct H as (_&Hd&_). split; [by apply of_decimal_nonneg|done].
Qed.

Section framing.
Context {A : Allocator} (HA : forall n, alloc_ok n = true) (max_body_bytes max_ingest_body_bytes : Z) (Hm : 0 < max_body_bytes) (Hi : 0 < max_ingest_body_bytes).

Lemma read_request_body_exact s r : 0 <= content_length r -> (have_content_length r = false -> content_length r = 0) -> request_body r = [] ->
  (read_request_body s r max_body_bytes max_ingest_body_bytes).2 <> Fault /\
  forall s' r', read_request_body s r max_body_bytes max_ingest_body_bytes = (s', Ok r') <->
    exists body, pending s = body ++ pending s' /\ ends s' = ends s /\ r' = with_body r body /\ zlen body = content_length r /\
      zlen body <= body_limit max_body_bytes max_ingest_body_bytes (target r).
Proof.
  intros H0 Hn Hb. unfold read_request_body. fold (body_limit max_body_bytes max_ingest_body_bytes (target r)). set (limit := body_limit _ _ _).
  assert (0 < limit) as Hl by (unfold limit, body_limit; by destruct (bool_decide _)). clearbody limit.
  destruct (have_content_length r && (limit <? content_length r)) eqn:E1.
  { btests. split; [done|]. intros s' r'. split; [done|]. intros (body&_&_&_&?&?). lia. }
  destruct (negb (have_content_length r) || (content_length r =? 0)) eqn:E2.
  { assert (content_length r = 0) as EC by (apply orb_true_iff in E2 as [E2|E2]; btests; auto). split; [done|]. intros s' r'. rewrite EC. split.
    - intros [= <- <-]. exists []. destruct r; cbn in *. subst. split_and!; [done|done|done|done|rewrite zlen_nil; lia].
    - intros (body&E&Ee&->&Hz&_). assert (body = []) as -> by (destruct body; [done|rewrite zlen_cons in Hz; pose_zlen; lia]). destruct s, s', r; cbn in *. by subst. }
  rewrite HA. cbn [negb]. apply orb_false_iff in E2 as [E2 E3]. btests. rewrite E2 in E1. destruct E1 as [|E1]; [done|]. btests.
  destruct (Z.eqb_spec (zlen (take (Z.to_nat (content_length r)) (pending s))) (content_length r)) as [EL|EL]; cbn [negb]; (split; [done|]); intros s' r'.
  - split.
    + intros [= <- <-]. exists (take (Z.to_nat (content_length r)) (pending s)). cbn [pending ends]. rewrite take_drop. by rewrite EL.
    + intros (body&E&Ee&->&Hz&_). assert (Z.to_nat (content_length r) = length body) as Ek by (unfold zlen in Hz; lia). rewrite E, Ek, take_app_length, drop_app_length.
      destruct s'; cbn in *. by subst.
  - split; [done|]. intros (body&E&Ee&->&Hz&_). destruct EL. assert (Z.to_nat (content_length r) = length body) as Ek by (unfold zlen in Hz; lia). by rewrite E, Ek, take_app_length.
Qed.

(** The head of a request and where it leaves the stream. *)
Lemma read_head_parsed s : let '(s1, head) := read_head (Z.to_nat YAP_V2_CORE_HTTP_MAX_HEADER_BYTES) [] s in
  let parsed := head ← head; YAP_V2_core_http_parse_head (Some head) (zlen head) in
  parsed <> Fault /\ forall s' r, s1 = s' /\ parsed = Ok r <->
    exists head m t fs, pending s = head ++ pending s' /\ ends s' = ends s /\ head_end head /\ head_accepts head m t fs /\ r = request_of m t fs.
Proof using HA.
  destruct (read_head_exact (Z.to_nat YAP_V2_CORE_HTTP_MAX_HEADER_BYTES) [] s) as [HF HX]; [by intros [|] _ [H _]|done|].
  destruct (read_head _ [] s) as [s1 [head|e|]]; cbn [mbind outcome_bind]; [|split; [done|]; intros s' r; split; [by intros []|]|done].
  2:{ intros (head&m&t&fs&E&Ee&Hh&[Hz _ _]&_). by pose proof (proj2 (HX s' head) (ex_intro _ head (conj eq_refl (conj E (conj Ee (conj Hh Hz)))))). }
  destruct (parse_head_spec head (HA _)) as [PF PX]. split; [done|]. intros s' r. rewrite PX. split.
  - intros (<-&m&t&fs&Hacc&->). destruct (proj1 (HX s1 head) eq_refl) as (d&->&E&Ee&Hh&_). exists d, m, t, fs. done.
  - intros (head'&m&t&fs&E&Ee&Hh&Hacc&->). pose proof (proj2 (HX s' head') (ex_intro _ head' (conj eq_refl (conj E (conj Ee (conj Hh (ha_size _ _ _ _ Hacc))))))) as Hq.
    injection Hq as -> ->. eauto 6.
Qed.
End framing.

(** ** The results *)

(** C25: the parser of request heads is exact and safe: for any bytes, [YAP_V2_core_http_parse_head]
    reads only inside of them, and it accepts a head exactly when it is at most 64 KiB long, ends with an
    empty line, its first line is a method, a target and "HTTP/1.1", and the following lines, up to
    an empty one or to a NUL, are fields with a token as name, of which Host occurs once, the other
    fields the server knows at most once and with proper values, and Transfer-Encoding never.
    The request is what these fields say; a Content-Length is the number its digits denote, below
    2^64. *)
Theorem parse_head_exact {A : Allocator} (input : bytes) : alloc_ok (zlen input + 1) = true ->
  YAP_V2_core_http_parse_head (Some input) (zlen input) <> Fault /\
  forall r, YAP_V2_core_http_parse_head (Some input) (zlen input) = Ok r <-> exists m t fs, head_accepts input m t fs /\ r = request_of m t fs.
Proof. apply parse_head_spec. Qed.

(** C26: the framing of requests is exact: as long as memory suffices, [YAP_V2_core_http_read_request]
    returns a request from a stream exactly when the stream starts with a head that the parser
    accepts, up to its first empty line, followed by as many bytes of body as its Content-Length
    says and its target allows; these bytes are the body, and the stream is left at the byte
    behind them, where the next request starts.  A head never reads outside of its array. *)
Theorem read_request_framing {A : Allocator} (s : stream) (max_body_bytes max_ingest_body_bytes : Z) :
  (forall n, alloc_ok n = true) -> 0 < max_body_bytes -> 0 < max_ingest_body_bytes ->
  let result := YAP_V2_core_http_read_request (Some s) max_body_bytes max_ingest_body_bytes in
  result.2 <> Fault /\
  forall s' r, result = (Some s', Ok r) <->
    exists head body m t fs, pending s = head ++ body ++ pending s' /\ ends s' = ends s /\ head_end head /\ head_accepts head m t fs /\
      r = with_body (request_of m t fs) body /\ zlen body = content_length (request_of m t fs) /\ zlen body <= body_limit max_body_bytes max_ingest_body_bytes t.
Proof.
  intros HA Hm Hi. unfold YAP_V2_core_http_read_request. cbv zeta. rewrite (proj2 (Z.eqb_neq max_body_bytes 0)), (proj2 (Z.eqb_neq max_ingest_body_bytes 0)) by lia. cbn [orb].
  rewrite HA. cbn [negb]. pose proof (read_head_parsed HA s) as HP. destruct (read_head _ [] s) as [s1 head]. cbv zeta in HP. destruct HP as [PF PX].
  destruct (head ≫= _) as [r|e|]; [|split; [done|]; intros s' r; split; [done|]|done].
  2:{ intros (h&body&m&t&fs&E&Ee&Hh&Hacc&_). by destruct (proj2 (PX (Stream (body ++ pending s') (ends s')) (request_of m t fs))) as [_ ?]; [exists h, m, t, fs|]. }
  destruct (proj1 (PX s1 r) (conj eq_refl eq_refl)) as (h&m&t&fs&E&Ee&Hh&Hacc&Er). destruct (ha_lines _ _ _ _ Hacc) as (_&_&_&_&_&_&_&_&_&Hok&_).
  destruct (request_of_length m t fs Hok) as [H0 H1]. rewrite <- Er in H0, H1.
  destruct (read_request_body_exact HA max_body_bytes max_ingest_body_bytes Hm Hi s1 r H0 H1 ltac:(by rewrite Er)) as [BF BX].
  destruct (read_request_body s1 r _ _) as [s2 result]. split; [done|]. intros s' r'. transitivity ((s2, result) = (s', Ok r')); [split; [by intros [= -> ->]|by intros [= -> ->]]|].
  rewrite BX. split.
  - intros (body&Eb&Ee'&->&Hz&Hlim). exists h, body, m, t, fs. rewrite E, Eb, Ee', Er in *. split_and!; done.
  - intros (h'&body&m'&t'&fs'&E'&Ee'&Hh'&Hacc'&->&Hz&Hlim).
    destruct (proj2 (PX (Stream (body ++ pending s') (ends s')) (request_of m' t' fs'))) as [-> [= ->]]; [by exists h', m', t', fs'|]. exists body. done.
Qed.

(** A request with a body of two bytes. *)
Definition demo_head : bytes := text "POST /v2/search HTTP/1.1" ++ CRLF ++ text "Host: core" ++ CRLF ++ text "content-length: 2" ++ CRLF ++ CRLF.

Lemma parse_head_exact_witness : exists r, YAP_V2_core_http_parse_head (A := alloc_total) (Some demo_head) (zlen demo_head) = Ok r /\
  content_length r = 2 /\ exists m t fs, head_accepts demo_head m t fs /\ r = request_of m t fs.
Proof.
  destruct (parse_head_exact (A := alloc_total) demo_head eq_refl) as [_ H].
  destruct (YAP_V2_core_http_parse_head (A := alloc_total) (Some demo_head) (zlen demo_head)) as [r|e|] eqn:E; [|vm_compute in E; discriminate E..].
  exists r. split; [reflexivity|]. split; [vm_compute in E; injection E as <-; reflexivity|]. by apply H.
Defined.

Lemma read_request_framing_witness : exists r,
  YAP_V2_core_http_read_request (A := alloc_total) (Some (Stream (demo_head ++ text "hiPOST") true)) 100 100 = (Some (Stream (text "POST") true), Ok r) /\
  exists head body m t fs, demo_head ++ text "hiPOST" = head ++ body ++ text "POST" /\ head_end head /\ head_accepts head m t fs /\ r = with_body (request_of m t fs) body.
Proof.
  destruct (read_request_framing (A := alloc_total) (Stream (demo_head ++ text "hiPOST") true) 100 100) as [_ H]; [done|lia|lia|].
  set (r := Request (text "POST") (text "/v2/search") 2 true false true [] (text "hi")).
  assert (YAP_V2_core_http_read_request (A := alloc_total) (Some (Stream (demo_head ++ text "hiPOST") true)) 100 100 = (Some (Stream (text "POST") true), Ok r)) as E
    by (vm_compute; reflexivity).
  exists r. split; [exact E|]. apply H in E as (head&body&m&t&fs&Es&_&Hh&Ha&Hr&_). eauto 10.
Defined.
