(* ===== verification/Executor.v ===== *)
(** The bounded executor of the server (src/src/server/yappo_executor_v2.c): a ring of jobs,
    a mutex, a condition variable and worker threads.

    Every access to the shared state happens with the mutex held, so each critical section is
    one function on the state, and the interleavings of the threads are the sequences of such
    functions: the relation [step].  A thread is ready to enter its critical section, waits
    on the condition variable, gathers a batch (the timed wait), runs jobs outside the mutex,
    or has returned.  The condition variable is modelled with its wake-ups: a signal wakes one
    waiting thread if there is one, a broadcast wakes them all, and a waiting thread may also
    wake up by itself.  Functions and contexts of jobs are opaque values. *)
From S2P Require Import Prelude Words Types SlotTable.

Record EXECUTOR_JOB := ExecutorJob { job_function : option Z; job_context : Z }.

Record EXECUTOR_STATE := ExecutorState {
  ring : list EXECUTOR_JOB;
  worker_threads : Z;
  started_threads : Z;
  queue_capacity : Z;
  ring_head : Z;
  queued : Z;
  active : Z;
  submitted : Z;
  completed : Z;
  rejected : Z;
  accepting : bool;
  max_batch : Z;
  max_delay_microseconds : Z;
  batch_function : option Z }.

(** What [YAP_V2_executor_snapshot] copies. *)
Record YAP_V2_EXECUTOR_STATE := ExecutorSnapshot {
  snap_worker_threads : Z;
  snap_queue_capacity : Z;
  snap_queued : Z;
  snap_active : Z;
  snap_submitted : Z;
  snap_completed : Z;
  snap_rejected : Z;
  snap_accepting : bool }.

Inductive submit_status := SubmitOk | SubmitFull | SubmitInvalid.

Definition sizeof_executor_state : Z := 224.
Definition sizeof_pthread : Z := 8.
Definition sizeof_job : Z := 16.

Definition set_queue (st : EXECUTOR_STATE) ring head queued active submitted : EXECUTOR_STATE :=
  ExecutorState ring (worker_threads st) (started_threads st) (queue_capacity st) head queued active submitted
    (completed st) (rejected st) (accepting st) (max_batch st) (max_delay_microseconds st) (batch_function st).
Definition set_done (st : EXECUTOR_STATE) active completed : EXECUTOR_STATE :=
  ExecutorState (ring st) (worker_threads st) (started_threads st) (queue_capacity st) (ring_head st) (queued st) active
    (submitted st) completed (rejected st) (accepting st) (max_batch st) (max_delay_microseconds st) (batch_function st).
Definition set_rejected (st : EXECUTOR_STATE) rejected : EXECUTOR_STATE :=
  ExecutorState (ring st) (worker_threads st) (started_threads st) (queue_capacity st) (ring_head st) (queued st) (active st)
    (submitted st) (completed st) rejected (accepting st) (max_batch st) (max_delay_microseconds st) (batch_function st).
Definition set_accepting (st : EXECUTOR_STATE) started accepting : EXECUTOR_STATE :=
  ExecutorState (ring st) (worker_threads st) started (queue_capacity st) (ring_head st) (queued st) (active st)
    (submitted st) (completed st) (rejected st) accepting (max_batch st) (max_delay_microseconds st) (batch_function st).
Definition set_batch (st : EXECUTOR_STATE) max_batch delay function : EXECUTOR_STATE :=
  ExecutorState (ring st) (worker_threads st) (started_threads st) (queue_capacity st) (ring_head st) (queued st) (active st)
    (submitted st) (completed st) (rejected st) (accepting st) max_batch delay function.

(** ** Critical sections of the clients *)

(** Enter a job at the tail of the ring. *)
Definition push_job (st : EXECUTOR_STATE) (job : EXECUTOR_JOB) : result EXECUTOR_STATE :=
  if queue_capacity st =? 0 then Fault
  else
  let tail := u64 (ring_head st + queued st) mod queue_capacity st in
  if zlen (ring st) <=? tail then Fault
  else Ok (set_queue st (<[Z.to_nat tail := job]> (ring st)) (ring_head st) (u64 (queued st + 1)) (active st)
             (u64 (submitted st + 1))).

Definition YAP_V2_executor_try_submit (executor : option EXECUTOR_STATE) (function : option Z) (context : Z)
  : result (option EXECUTOR_STATE * submit_status) :=
  match executor, function with
  | Some st, Some f =>
      if bool_decide (is_Some (batch_function st)) || negb (accepting st) || (queued st =? queue_capacity st)
      then Ok (Some (set_rejected st (u64 (rejected st + 1))), SubmitFull)
      else st ← push_job st (ExecutorJob (Some f) context); Ok (Some st, SubmitOk)
  | _, _ => Ok (executor, SubmitInvalid)
  end.

Definition YAP_V2_executor_try_submit_item (executor : option EXECUTOR_STATE) (item : Z)
  : result (option EXECUTOR_STATE * submit_status) :=
  match executor with
  | Some st =>
      if negb (bool_decide (is_Some (batch_function st))) || negb (accepting st) || (queued st =? queue_capacity st)
      then Ok (Some (set_rejected st (u64 (rejected st + 1))), SubmitFull)
      else st ← push_job st (ExecutorJob None item); Ok (Some st, SubmitOk)
  | None => Ok (executor, SubmitInvalid)
  end.

Definition YAP_V2_executor_snapshot (executor : option EXECUTOR_STATE) : option YAP_V2_EXECUTOR_STATE :=
  st ← executor;
  Some (ExecutorSnapshot (worker_threads st) (queue_capacity st) (queued st) (active st) (submitted st)
          (completed st) (rejected st) (accepting st)).

(** ** Critical sections of the workers *)

(** The job at the head of the ring. *)
Definition pop_job (st : EXECUTOR_STATE) : result (EXECUTOR_JOB * EXECUTOR_STATE) :=
  if queue_capacity st =? 0 then Fault
  else
  job ← elem_at (ring st) (ring_head st);
  Ok (job, set_queue st (ring st) (u64 (ring_head st + 1) mod queue_capacity st) (u64 (queued st - 1)) (active st)
             (submitted st)).

Definition take_job (st : EXECUTOR_STATE) : result (EXECUTOR_JOB * EXECUTOR_STATE) :=
  '(job, st) ← pop_job st;
  Ok (job, set_done st (u64 (active st + 1)) (completed st)).

(** [while (count < max_batch && queued != 0)]; at most [queued] iterations. *)
Fixpoint pop_batch (fuel : nat) (st : EXECUTOR_STATE) (count : Z) : result (list EXECUTOR_JOB * EXECUTOR_STATE) :=
  if (count <? max_batch st) && negb (queued st =? 0) then
    match fuel with
    | O => Fault
    | S fuel =>
        '(job, st) ← pop_job st;
        '(jobs, st) ← pop_batch fuel st (count + 1);
        Ok (job :: jobs, st)
    end
  else Ok ([], st).

Definition take_batch (st : EXECUTOR_STATE) : result (list EXECUTOR_JOB * EXECUTOR_STATE) :=
  '(jobs, st) ← pop_batch (Z.to_nat (queued st)) st 0;
  Ok (jobs, set_done st (u64 (active st + zlen jobs)) (completed st)).

(** After the jobs ran. *)
Definition finish_jobs (st : EXECUTOR_STATE) (count : Z) : EXECUTOR_STATE :=
  set_done st (u64 (active st - count)) (u64 (completed st + count)).

(** ** Opening and closing *)
Inductive open_status := Opened (st : EXECUTOR_STATE) | OpenFailed (e : YAP_V2_STATUS).

(** [created] is the number of threads [pthread_create] starts before it fails. *)
Definition YAP_V2_executor_open {A : Allocator} (mutex_ok cond_ok : bool) (created : Z)
    (is_open : bool) (workers capacity : Z) : open_status :=
  if is_open || (workers =? 0) || (capacity =? 0) || (SIZE_MAX / sizeof_pthread <? workers) ||
     (SIZE_MAX / sizeof_job <? capacity) then OpenFailed YAP_V2_INVALID_ARGUMENT
  else if negb (alloc_ok sizeof_executor_state) || negb (alloc_ok (workers * sizeof_pthread)) ||
          negb (alloc_ok (capacity * sizeof_job))
  then OpenFailed YAP_V2_ALLOCATION_FAILED
  else if negb mutex_ok || negb cond_ok then OpenFailed YAP_V2_IO_ERROR
  else
  let started := Z.min created workers in
  if negb (started =? workers) then OpenFailed YAP_V2_IO_ERROR
  else Opened (ExecutorState (replicate (Z.to_nat capacity) (ExecutorJob None 0)) workers started capacity
                 0 0 0 0 0 0 true 0 0 None).

(** The ordinary worker of the opened executor is stopped and joined before the batch worker
    is created. *)
Definition YAP_V2_executor_open_batch {A : Allocator} (mutex_ok cond_ok : bool) (created : Z) (thread_ok : bool)
    (is_open : bool) (capacity batch delay : Z) (function : option Z) : open_status :=
  if is_open || (capacity =? 0) || (batch =? 0) || (capacity <? batch) || (delay =? 0) ||
     bool_decide (function = None) then OpenFailed YAP_V2_INVALID_ARGUMENT
  else
  match YAP_V2_executor_open mutex_ok cond_ok created is_open 1 capacity with
  | OpenFailed e => OpenFailed e
  | Opened st =>
      let st := set_batch st batch delay function in
      let st := set_accepting st (started_threads st) false in
      let st := set_accepting st 0 false in
      if negb (alloc_ok (batch * 8)) then OpenFailed YAP_V2_ALLOCATION_FAILED
      else
      let st := set_accepting st 0 true in
      if negb thread_ok then OpenFailed YAP_V2_IO_ERROR
      else Opened (set_accepting st 1 true)
  end.

(** The first critical section of [YAP_V2_executor_close]; the threads are joined afterwards. *)
Definition close_executor (st : EXECUTOR_STATE) : EXECUTOR_STATE := set_accepting st (started_threads st) false.

(** ** Interleavings *)
Inductive thread :=
  | Ready
  | Waiting
  | Gathering
  | Running (l : list EXECUTOR_JOB)
  | Exited.

(** The shared state, the worker threads, and the jobs accepted, started and finished so far,
    in that order of events. *)
Record system := System {
  shared : EXECUTOR_STATE;
  threads : list thread;
  accepted : list EXECUTOR_JOB;
  started : list EXECUTOR_JOB;
  finished : list EXECUTOR_JOB }.

(** [pthread_cond_signal] and [pthread_cond_broadcast]. *)
Definition signal (ts ts' : list thread) : Prop :=
  (exists i, ts !! i = Some Waiting /\ ts' = <[i := Ready]> ts) \/ ((Waiting ∉ ts) /\ ts' = ts).
Definition wake (t : thread) : thread := match t with Waiting => Ready | t => t end.

Definition is_batch (st : EXECUTOR_STATE) : bool := bool_decide (is_Some (batch_function st)).

Inductive actor := Client | Worker.

Inductive step : actor -> system -> system -> Prop :=
  | step_submit s f c st' ts' :
      YAP_V2_executor_try_submit (Some (shared s)) (Some f) c = Ok (Some st', SubmitOk) ->
      signal (threads s) ts' ->
      step Client s (System st' ts' (accepted s ++ [ExecutorJob (Some f) c]) (started s) (finished s))
  | step_submit_item s item st' ts' :
      YAP_V2_executor_try_submit_item (Some (shared s)) item = Ok (Some st', SubmitOk) ->
      signal (threads s) ts' ->
      step Client s (System st' ts' (accepted s ++ [ExecutorJob None item]) (started s) (finished s))
  | step_reject s f c st' :
      YAP_V2_executor_try_submit (Some (shared s)) (Some f) c = Ok (Some st', SubmitFull) ->
      step Client s (System st' (threads s) (accepted s) (started s) (finished s))
  | step_reject_item s item st' :
      YAP_V2_executor_try_submit_item (Some (shared s)) item = Ok (Some st', SubmitFull) ->
      step Client s (System st' (threads s) (accepted s) (started s) (finished s))
  | step_close s :
      step Client s (System (close_executor (shared s)) (wake <$> threads s) (accepted s) (started s) (finished s))
  | step_wait s i :
      threads s !! i = Some Ready -> queued (shared s) = 0 -> accepting (shared s) = true ->
      step Worker s (System (shared s) (<[i := Waiting]> (threads s)) (accepted s) (started s) (finished s))
  | step_spurious s i :
      threads s !! i = Some Waiting ->
      step Worker s (System (shared s) (<[i := Ready]> (threads s)) (accepted s) (started s) (finished s))
  | step_exit s i :
      threads s !! i = Some Ready -> queued (shared s) = 0 -> accepting (shared s) = false ->
      step Worker s (System (shared s) (<[i := Exited]> (threads s)) (accepted s) (started s) (finished s))
  | step_take s i job st' :
      threads s !! i = Some Ready -> is_batch (shared s) = false -> queued (shared s) <> 0 ->
      take_job (shared s) = Ok (job, st') ->
      step Worker s (System st' (<[i := Running [job]]> (threads s)) (accepted s) (started s ++ [job]) (finished s))
  | step_gather s i :
      threads s !! i = Some Ready -> is_batch (shared s) = true -> queued (shared s) <> 0 ->
      step Worker s (System (shared s) (<[i := Gathering]> (threads s)) (accepted s) (started s) (finished s))
  | step_take_batch s i jobs st' :
      threads s !! i = Some Gathering -> take_batch (shared s) = Ok (jobs, st') ->
      step Worker s (System st' (<[i := Running jobs]> (threads s)) (accepted s) (started s ++ jobs) (finished s))
  | step_finish s i jobs :
      threads s !! i = Some (Running jobs) ->
      step Worker s (System (finish_jobs (shared s) (zlen jobs)) (<[i := Ready]> (threads s)) (accepted s) (started s)
                (finished s ++ jobs)).

(** The executor right after it was opened. *)
Definition initial (st : EXECUTOR_STATE) : system :=
  System st (replicate (Z.to_nat (started_threads st)) Ready) [] [] [].

Inductive reachable (s0 : system) : system -> Prop :=
  | reachable_refl : reachable s0 s0
  | reachable_step who s s' : reachable s0 s -> step who s s' -> reachable s0 s'.

(** ** Specification *)

(** [q] are the queued jobs, oldest first. *)
Record ring_ok (st : EXECUTOR_STATE) (q : list EXECUTOR_JOB) : Prop := {
  ro_cap : 0 < queue_capacity st <= SIZE_MAX / sizeof_job;
  ro_len : zlen (ring st) = queue_capacity st;
  ro_head : 0 <= ring_head st < queue_capacity st;
  ro_queued : queued st = zlen q;
  ro_room : zlen q <= queue_capacity st;
  ro_jobs : forall i job, q !! i = Some job ->
    ring st !! Z.to_nat ((ring_head st + Z.of_nat i) mod queue_capacity st) = Some job }.

Definition running_of (t : thread) : list EXECUTOR_JOB := match t with Running l => l | _ => [] end.
Definition running (ts : list thread) : list EXECUTOR_JOB := ts ≫= running_of.

Definition is_ready (t : thread) : Prop := t = Ready.
#[export] Instance is_ready_dec t : Decision (is_ready t).
Proof. unfold is_ready. destruct t; first [by left|by right]. Defined.
#[export] Instance job_eq_dec : EqDecision EXECUTOR_JOB.
Proof. solve_decision. Defined.
#[export] Instance thread_eq_dec : EqDecision thread.
Proof. solve_decision. Defined.
Definition ready_count (ts : list thread) : nat := length (filter is_ready ts).

Record system_ok (s : system) (q : list EXECUTOR_JOB) : Prop := {
  so_ring : ring_ok (shared s) q;
  so_order : accepted s = started s ++ q;
  so_running : started s ≡ₚ finished s ++ running (threads s);
  so_submitted : submitted (shared s) = u64 (zlen (accepted s));
  so_completed : completed (shared s) = u64 (zlen (finished s));
  so_active : active (shared s) = u64 (zlen (running (threads s)));
  so_waiting : Waiting ∈ threads s -> accepting (shared s) = true /\ (length q <= ready_count (threads s))%nat;
  so_exited : Exited ∈ threads s -> accepting (shared s) = false /\ q = [];
  so_gathering : Gathering ∈ threads s -> is_batch (shared s) = true /\ q <> [];
  so_batch : is_batch (shared s) = true -> length (threads s) = 1%nat /\ 0 < max_batch (shared s) }.

(** ** The ring is a queue *)
Lemma ring_index_ne h c i n : 0 < c -> 0 <= i < n -> n < c -> (h + i) mod c <> (h + n) mod c.
Proof.
  intros Hc Hi Hn E.
  assert ((n - i) mod c = 0) as Hz.
  { replace (n - i) with ((h + n) - (h + i)) by lia. rewrite Zminus_mod, E, Z.sub_diag. by apply Z.mod_0_l; lia. }
  rewrite Z.mod_small in Hz; lia.
Qed.

Section ring.
Context (st : EXECUTOR_STATE).

Lemma push_job_spec q job : ring_ok st q -> zlen q < queue_capacity st ->
  exists r, push_job st job = Ok (set_queue st r (ring_head st) (zlen q + 1) (active st) (u64 (submitted st + 1))) /\
  ring_ok (set_queue st r (ring_head st) (zlen q + 1) (active st) (u64 (submitted st + 1))) (q ++ [job]).
Proof.
  intros [[Hc1 Hc2] Hl Hh Hq Hr Hj] Hroom. change (SIZE_MAX / sizeof_job) with 1152921504606846975 in Hc2.
  pose proof (zlen_nonneg q). unfold push_job. rewrite (proj2 (Z.eqb_neq _ _)) by lia. rewrite Hq.
  rewrite !u64_small by lia. pose proof (Z.mod_pos_bound (ring_head st + zlen q) (queue_capacity st) ltac:(lia)).
  rewrite Hl, (proj2 (Z.leb_gt _ _)) by lia. eexists. split; [done|].
  split; cbn [ring queue_capacity ring_head queued set_queue]; try (done || lia).
  - unfold zlen. rewrite length_insert. done.
  - rewrite zlen_app. done.
  - rewrite zlen_app. unfold zlen in *. cbn. lia.
  - intros i job' Hi. apply lookup_app_Some in Hi as [Hi|[Hge Hi]].
  + pose proof (lookup_lt_Some _ _ _ Hi). rewrite list_lookup_insert_ne; [by apply Hj|].
  pose proof (Z.mod_pos_bound (ring_head st + Z.of_nat i) (queue_capacity st) ltac:(lia)).
  pose proof (ring_index_ne (ring_head st) (queue_capacity st) (Z.of_nat i) (zlen q)). unfold zlen in *. lia.
  + destruct (i - length q)%nat eqn:D; [|done]. cbn in Hi. injection Hi as <-.
  assert (i = length q) as -> by lia. fold (zlen q). apply list_lookup_insert_eq. unfold zlen in *. lia.
Qed.

Lemma pop_job_spec q job : ring_ok st (job :: q) ->
  exists h, pop_job st = Ok (job, set_queue st (ring st) h (zlen q) (active st) (submitted st)) /\
  ring_ok (set_queue st (ring st) h (zlen q) (active st) (submitted st)) q.
Proof.
  intros [[Hc1 Hc2] Hl Hh Hq Hr Hj]. change (SIZE_MAX / sizeof_job) with 1152921504606846975 in Hc2.
  rewrite zlen_cons in *. pose proof (zlen_nonneg q). unfold pop_job. rewrite (proj2 (Z.eqb_neq _ _)) by lia.
  pose proof (Hj 0%nat job eq_refl) as H0. rewrite Z.add_0_r, Z.mod_small in H0 by lia.
  apply (elem_at_lookup (E := YAP_V2_STATUS)) in H0. rewrite Z2Nat.id in H0 by lia. rewrite H0, outcome_bind_ok.
  rewrite !u64_small by lia. rewrite Hq. replace (1 + zlen q - 1) with (zlen q) by lia.
  eexists. split; [done|]. split; cbn [ring queue_capacity ring_head queued set_queue]; try (done || lia).
  - apply Z.mod_pos_bound. lia.
  - intros i job' Hi. rewrite Zplus_mod_idemp_l. replace (ring_head st + 1 + Z.of_nat i) with (ring_head st + Z.of_nat (S i)) by lia.
  by apply Hj.
Qed.
End ring.

Lemma take_job_spec st q job : ring_ok st (job :: q) ->
  exists h, take_job st = Ok (job, set_queue st (ring st) h (zlen q) (u64 (active st + 1)) (submitted st)) /\
    ring_ok (set_queue st (ring st) h (zlen q) (u64 (active st + 1)) (submitted st)) q.
Proof.
  intros H. destruct (pop_job_spec st q job H) as (h&E&[]). unfold take_job. rewrite E, outcome_bind_ok.
  exists h. split; [done|]. by split.
Qed.

Lemma pop_batch_spec fuel : forall st q count, ring_ok st q -> (length q <= fuel)%nat ->
  exists jobs q' h, q = jobs ++ q' /\
    pop_batch fuel st count = Ok (jobs, set_queue st (ring st) h (zlen q') (active st) (submitted st)) /\
    ring_ok (set_queue st (ring st) h (zlen q') (active st) (submitted st)) q' /\
    (count < max_batch st -> q <> [] -> jobs <> []).
Proof.
  induction fuel as [|fuel IH]; intros st q count H Hf; cbn [pop_batch].
  - destruct q; [|cbn in Hf; lia]. pose proof (ro_queued _ _ H) as Hq. rewrite Hq, andb_false_r.
    exists [], [], (ring_head st). split_and!; [done| |by destruct H|done]. destruct st; cbn in *. by rewrite Hq.
  - pose proof (ro_queued _ _ H) as Hq. destruct (Z.ltb_spec count (max_batch st)) as [Hlt|Hge]; cbn [andb].
    2: { exists [], q, (ring_head st). split_and!; [done| |by destruct H|lia]. destruct st; cbn in *. by rewrite Hq. }
    destruct q as [|job q].
    { rewrite Hq. cbn. exists [], [], (ring_head st). split_and!; [done| |by destruct H|done].
      destruct st; cbn in *. by rewrite Hq. }
    rewrite Hq, zlen_cons, (proj2 (Z.eqb_neq _ _)) by (pose proof (zlen_nonneg q); lia). cbn [negb].
    destruct (pop_job_spec st q job H) as (h&->&H1). rewrite outcome_bind_ok.
    destruct (IH _ q (count + 1) H1) as (jobs&q'&h'&->&->&H2&_); [cbn in Hf; lia|]. rewrite outcome_bind_ok.
    exists (job :: jobs), q', h'. split_and!; done.
Qed.

Lemma take_batch_spec st q : ring_ok st q -> exists jobs q' h, q = jobs ++ q' /\
  take_batch st = Ok (jobs, set_queue st (ring st) h (zlen q') (u64 (active st + zlen jobs)) (submitted st)) /\
  ring_ok (set_queue st (ring st) h (zlen q') (u64 (active st + zlen jobs)) (submitted st)) q' /\
  (0 < max_batch st -> q <> [] -> jobs <> []).
Proof.
  intros H. unfold take_batch. pose proof (ro_queued _ _ H) as Hq.
  destruct (pop_batch_spec (Z.to_nat (queued st)) st q 0 H) as (jobs&q'&h&->&->&H1&Hne); [rewrite Hq; unfold zlen; lia|].
  rewrite outcome_bind_ok. exists jobs, q', h. split_and!; [done|done| |done]. by destruct H1.
Qed.

(** ** Threads *)
Lemma running_insert ts i t0 t : ts !! i = Some t0 ->
  running_of t0 ++ running (<[i := t]> ts) ≡ₚ running_of t ++ running ts.
Proof.
  revert i; induction ts as [|a ts IH]; intros [|i] Hi; cbn in Hi; try done.
  - injection Hi as ->. change (<[0%nat := t]> (t0 :: ts)) with (t :: ts). cbn. rewrite !(assoc_L (++)). apply Permutation_app_tail, Permutation_app_comm.
  - change (<[S i := t]> (a :: ts)) with (a :: <[i := t]> ts). cbn. specialize (IH i Hi). fold (running ts). fold (running (<[i := t]> ts)).
    rewrite !(assoc_L (++)), (Permutation_app_comm (running_of t0)), (Permutation_app_comm (running_of t)).
    rewrite <- !(assoc_L (++)). by rewrite IH.
Qed.

Lemma ready_insert ts i t0 t : ts !! i = Some t0 ->
  (ready_count (<[i := t]> ts) + (if decide (is_ready t0) then 1 else 0) = ready_count ts + (if decide (is_ready t) then 1 else 0))%nat.
Proof.
  unfold ready_count. revert i; induction ts as [|a ts IH]; intros [|i] Hi; cbn in Hi; try done.
  - injection Hi as ->. change (<[0%nat := t]> (t0 :: ts)) with (t :: ts). rewrite !filter_cons. do 2 case_decide; cbn; lia.
  - change (<[S i := t]> (a :: ts)) with (a :: <[i := t]> ts). rewrite !filter_cons. specialize (IH i Hi).
    destruct (decide (is_ready a)); cbn; lia.
Qed.

Lemma elem_of_insert_thread (ts : list thread) i t x : x ∈ <[i := t]> ts -> x = t \/ x ∈ ts.
Proof.
  intros (j&Hj)%list_elem_of_lookup_1. destruct (decide (i = j)) as [->|N].
  - left. destruct (decide (j < length ts)%nat).
    + rewrite list_lookup_insert_eq in Hj by done. congruence.
    + rewrite list_insert_ge in Hj by lia. apply lookup_lt_Some in Hj. lia.
  - right. rewrite list_lookup_insert_ne in Hj by done. by eapply list_elem_of_lookup_2.
Qed.

Lemma elem_of_insert_self (ts : list thread) i t0 t : ts !! i = Some t0 -> t ∈ <[i := t]> ts.
Proof. intros H. apply (list_elem_of_lookup_2 _ i). apply list_lookup_insert_eq. by eapply lookup_lt_Some. Qed.

(** ** The invariant is kept *)
Ltac fields := cbn [shared threads accepted started finished ring queue_capacity ring_head queued active submitted
  completed rejected accepting max_batch batch_function set_queue set_done set_rejected set_accepting finish_jobs
  close_executor].

Section kept.
Context (s : system) (q : list EXECUTOR_JOB) (Hs : system_ok s q).

(** A thread that does not run jobs changes its state, the shared state stays. *)
Lemma thread_ok i t0 t : threads s !! i = Some t0 -> running_of t0 = [] -> running_of t = [] ->
  (t = Waiting -> accepting (shared s) = true /\ q = []) ->
  (t = Exited -> accepting (shared s) = false /\ q = []) ->
  (t = Gathering -> is_batch (shared s) = true /\ q <> []) ->
  (t0 = Ready -> Waiting ∈ threads s -> q = [] \/ t = Gathering) ->
  system_ok (System (shared s) (<[i := t]> (threads s)) (accepted s) (started s) (finished s)) q.
Proof using Hs.
  intros Hi H0 H1 HW HE HG HR. destruct Hs as [Hr Ho Hp Hsub Hcom Hact Hwait Hexit Hgath Hbatch].
  pose proof (running_insert _ _ _ t Hi) as HP. rewrite H0, H1 in HP. cbn [app] in HP.
  pose proof (ready_insert _ _ _ t Hi) as HC.
  split; fields; try done.
  - by rewrite HP.
  - rewrite Hact. f_equal. unfold zlen. by rewrite HP.
  - intros [E|Hin]%elem_of_insert_thread.
  + symmetry in E. destruct (HW E) as [? ->]. split; [done|apply Nat.le_0_l].
  + destruct (Hwait Hin) as [Ha Hq]. split; [done|].
  revert HC. destruct (decide (is_ready t0)) as [R|N]; intros HC.
  * destruct (HR R Hin) as [->| ->]; [apply Nat.le_0_l|].
    destruct (Hbatch (proj1 (HG eq_refl))) as [Hone _].
    assert (i = 0%nat) as -> by (apply lookup_lt_Some in Hi; lia).
    destruct (threads s) as [|a [|? ?]]; try done. cbn in Hi. injection Hi as ->.
    apply list_elem_of_singleton in Hin. by rewrite <- Hin in R.
  * revert HC. destruct (decide (is_ready t)); lia.
  - intros [E|Hin]%elem_of_insert_thread; [by apply HE|by apply Hexit].
  - intros [E|Hin]%elem_of_insert_thread; [by apply HG|by apply Hgath].
  - by rewrite length_insert.
Qed.

Lemma signal_running ts' : signal (threads s) ts' -> running ts' ≡ₚ running (threads s).
Proof. intros [(i&Hi&->)|[_ ->]]; [|done]. apply (running_insert _ _ _ Ready) in Hi. exact Hi. Qed.

Lemma signal_elem ts' x : signal (threads s) ts' -> x ∈ ts' -> x = Ready \/ x ∈ threads s.
Proof. intros [(i&Hi&->)|[_ ->]]; [apply elem_of_insert_thread|by right]. Qed.

(** A job enters the ring and one waiting thread is woken. *)
Lemma push_ok job r ts' : signal (threads s) ts' -> accepting (shared s) = true -> zlen q < queue_capacity (shared s) ->
  ring_ok (set_queue (shared s) r (ring_head (shared s)) (zlen q + 1) (active (shared s)) (u64 (submitted (shared s) + 1)))
  (q ++ [job]) ->
  system_ok (System (set_queue (shared s) r (ring_head (shared s)) (zlen q + 1) (active (shared s)) (u64 (submitted (shared s) + 1)))
  ts' (accepted s ++ [job]) (started s) (finished s)) (q ++ [job]).
Proof using Hs.
  intros Hsig Hacc Hroom Hring. pose proof (signal_running ts' Hsig) as HP. pose proof (signal_elem ts') as HE.
  destruct Hs as [Hr Ho Hp Hsub Hcom Hact Hwait Hexit Hgath Hbatch].
  split; fields; try done.
  - by rewrite Ho, (assoc_L (++)).
  - by rewrite HP.
  - rewrite Hsub, u64_add_l, zlen_app. done.
  - rewrite Hact. f_equal. unfold zlen. by rewrite HP.
  - intros Hin. split; [done|]. rewrite length_app. cbn.
  destruct Hsig as [(i&Hi&->)|[HN ->]]; [|done].
  pose proof (ready_insert _ _ _ Ready Hi) as HC.
  destruct (Hwait (list_elem_of_lookup_2 _ _ _ Hi)) as [_ Hle].
  rewrite decide_False, decide_True in HC by done. lia.
  - intros Hin. destruct (HE Exited Hsig Hin) as [|Hex]; [done|]. destruct (Hexit Hex). congruence.
  - intros Hin. destruct (HE Gathering Hsig Hin) as [|Hga]; [done|]. destruct (Hgath Hga) as [? _]. split; [done|].
  by destruct q.
  - intros Hb. destruct (Hbatch Hb). split; [|done]. destruct Hsig as [(i&Hi&->)|[_ ->]]; [by rewrite length_insert|done].
Qed.

(** Jobs leave the ring for a thread. *)
Lemma take_ok i t0 jobs q' h : threads s !! i = Some t0 -> running_of t0 = [] ->
  q = jobs ++ q' -> (t0 = Ready -> length jobs = 1%nat) -> (t0 = Gathering -> is_batch (shared s) = true) -> (t0 = Ready \/ t0 = Gathering) ->
  let st' := set_queue (shared s) (ring (shared s)) h (zlen q') (u64 (active (shared s) + zlen jobs)) (submitted (shared s)) in
  ring_ok st' q' ->
  system_ok (System st' (<[i := Running jobs]> (threads s)) (accepted s) (started s ++ jobs) (finished s)) q'.
Proof using Hs.
  intros Hi H0 -> H1 HG Hor st' Hring. subst st'. destruct Hs as [Hr Ho Hp Hsub Hcom Hact Hwait Hexit Hgath Hbatch].
  pose proof (running_insert _ _ _ (Running jobs) Hi) as HP. rewrite H0 in HP. cbn [app running_of] in HP.
  pose proof (ready_insert _ _ _ (Running jobs) Hi) as HC. rewrite (decide_False (P := is_ready (Running jobs))) in HC by done.
  split; fields; try done.
  - by rewrite Ho, (assoc_L (++)).
  - rewrite HP, Hp. rewrite <- !(assoc_L (++)). apply Permutation_app_head, Permutation_app_comm.
  - rewrite Hact, u64_add_l. f_equal. unfold zlen. rewrite HP, length_app. lia.
  - intros [E|Hin]%elem_of_insert_thread; [done|]. destruct (Hwait Hin) as [Ha Hq]. split; [done|]. rewrite length_app in Hq.
  destruct Hor as [->| ->].
  + rewrite decide_True in HC by done. specialize (H1 eq_refl). lia.
  + destruct (Hbatch (HG eq_refl)) as [Hone _]. destruct (threads s) as [|a [|? ?]]; try done.
  destruct i; cbn in Hi; [|done]. injection Hi as ->. by apply list_elem_of_singleton in Hin.
  - intros [E|Hin]%elem_of_insert_thread; [done|]. destruct (Hexit Hin) as [? Hq]. split; [done|]. by apply app_eq_nil in Hq as [_ ->].
  - intros Hin. exfalso. pose proof Hin as [E|Hg]%elem_of_insert_thread; [done|].
  destruct (Hbatch (proj1 (Hgath Hg))) as [Hone _]. destruct (threads s) as [|a [|? ?]]; try done.
  destruct i; cbn in Hi; [|done]. change (<[0%nat := Running jobs]> [a]) with [Running jobs] in Hin.
  by apply list_elem_of_singleton in Hin.
  - by rewrite length_insert.
Qed.

Lemma finish_ok i jobs : threads s !! i = Some (Running jobs) ->
  system_ok (System (finish_jobs (shared s) (zlen jobs)) (<[i := Ready]> (threads s)) (accepted s) (started s)
  (finished s ++ jobs)) q.
Proof using Hs.
  intros Hi. destruct Hs as [Hr Ho Hp Hsub Hcom Hact Hwait Hexit Hgath Hbatch].
  pose proof (running_insert _ _ _ Ready Hi) as HP. cbn [app running_of] in HP.
  pose proof (ready_insert _ _ _ Ready Hi) as HC. rewrite decide_False, decide_True in HC by done.
  split; fields; try done.
  - destruct Hr. by split.
  - rewrite Hp, <- HP, (assoc_L (++)). done.
  - by rewrite Hcom, u64_add_l, zlen_app.
  - rewrite Hact, u64_sub_l. f_equal. unfold zlen. rewrite <- HP, length_app. lia.
  - intros [E|Hin]%elem_of_insert_thread; [done|]. destruct (Hwait Hin) as [Ha Hq]. split; [done|lia].
  - intros [E|Hin]%elem_of_insert_thread; [done|by apply Hexit].
  - intros [E|Hin]%elem_of_insert_thread; [done|by apply Hgath].
  - by rewrite length_insert.
Qed.

Lemma reject_ok n : system_ok (System (set_rejected (shared s) n) (threads s) (accepted s) (started s) (finished s)) q.
Proof using Hs. destruct Hs as [[] ? ? ? ? ? ? ? ? ?]. by split. Qed.

Lemma close_ok : system_ok (System (close_executor (shared s)) (wake <$> threads s) (accepted s) (started s) (finished s)) q.
Proof using Hs.
  destruct Hs as [Hr Ho Hp Hsub Hcom Hact Hwait Hexit Hgath Hbatch].
  assert (running (wake <$> threads s) = running (threads s)) as HP.
  { clear. unfold running. induction (threads s) as [|t ts IH]; [done|]. cbn. rewrite IH. by destruct t. }
  assert (forall t, t <> Ready -> t ∈ (wake <$> threads s) -> t <> Waiting /\ t ∈ threads s) as HE.
  { intros t Ht (t'&->&Hin)%list_elem_of_fmap. by destruct t'. }
  split; fields; try done.
  - destruct Hr. by split.
  - by rewrite HP.
  - by rewrite HP.
  - intros Hin. by destruct (HE Waiting) as [? _].
  - intros Hin. destruct (HE Exited) as [_ Hex]; [done|done|]. split; [done|by apply Hexit].
  - intros Hin. destruct (HE Gathering) as [_ Hga]; [done|done|]. by apply Hgath.
  - by rewrite length_fmap.
Qed.
End kept.

(** A successful submission is a push into a ring with room. *)
Lemma submit_push st q st' r : ring_ok st q -> (exists job b, r = job /\
    (if (b : bool) || negb (accepting st) || (queued st =? queue_capacity st)
     then Ok (Some (set_rejected st (u64 (rejected st + 1))), SubmitFull)
     else st1 ← push_job st job; Ok (Some st1, SubmitOk)) = Ok (Some st', SubmitOk)) ->
  accepting st = true /\ zlen q < queue_capacity st /\ exists rg,
    st' = set_queue st rg (ring_head st) (zlen q + 1) (active st) (u64 (submitted st + 1)) /\ ring_ok st' (q ++ [r]).
Proof.
  intros Hr (job&b&->&E). pose proof (ro_queued _ _ Hr). pose proof (ro_room _ _ Hr).
  destruct (b || _ || _) eqn:T; [done|]. btests. assert (zlen q < queue_capacity st) as Hroom by lia.
  destruct (push_job_spec st q job Hr Hroom) as (rg&Hpush&Hok). rewrite Hpush, outcome_bind_ok in E.
  injection E as <-. split_and!; [done|done|]. by exists rg.
Qed.

Lemma step_ok who s s' q : system_ok s q -> step who s s' -> exists q', system_ok s' q'.
Proof.
  intros Hs Hstep. pose proof (so_ring _ _ Hs) as Hr. pose proof (ro_queued _ _ Hr) as Hq.
  destruct Hstep as [s f c st' ts' E Hsig|s item st' ts' E Hsig|s f c st' E|s item st' E|s|s i Hi H0 Ha|s i Hi|s i Hi H0 Ha
    |s i job st' Hi Hb Hn E|s i Hi Hb Hn|s i jobs st' Hi E|s i jobs Hi].
  - destruct (submit_push _ q st' (ExecutorJob (Some f) c) Hr) as (Ha&Hroom&rg&->&Hok); [by eexists _, _|].
    eexists. by apply push_ok.
  - destruct (submit_push _ q st' (ExecutorJob None item) Hr) as (Ha&Hroom&rg&->&Hok); [by eexists _, _|].
    eexists. by apply push_ok.
  - exists q. unfold YAP_V2_executor_try_submit in E. destruct (_ || _ || _); [injection E as <-; by apply reject_ok|].
    destruct (push_job _ _); discriminate E.
  - exists q. unfold YAP_V2_executor_try_submit_item in E. destruct (_ || _ || _); [injection E as <-; by apply reject_ok|].
    destruct (push_job _ _); discriminate E.
  - exists q. by apply close_ok.
  - exists q. assert (q = []) as -> by (destruct q; [done|rewrite zlen_cons in Hq; pose proof (zlen_nonneg q); lia]).
    eapply thread_ok; eauto; done.
  - exists q. eapply thread_ok; eauto; done.
  - exists q. assert (q = []) as -> by (destruct q; [done|rewrite zlen_cons in Hq; pose proof (zlen_nonneg q); lia]).
    eapply thread_ok; eauto; done.
  - destruct q as [|job' q]; [by rewrite Hq in Hn|]. destruct (take_job_spec _ q job' Hr) as (h&E'&Hok).
    rewrite E in E'. injection E' as -> ->. exists q. by apply (take_ok s _ Hs i Ready [job'] q h); auto.
  - exists q. eapply thread_ok; eauto; try done. intros _. split; [done|]. intros ->. by rewrite Hq in Hn.
  - destruct (take_batch_spec _ q Hr) as (jobs'&q'&h&->&E'&Hok&_). rewrite E in E'. injection E' as -> ->.
    exists q'. apply (take_ok s _ Hs i Gathering jobs' q' h); auto; [done|].
    intros _. by apply (so_gathering _ _ Hs), (list_elem_of_lookup_2 _ i).
  - exists q. by apply finish_ok.
Qed.

(** An executor that was opened, in either way. *)
Inductive opened {A : Allocator} : EXECUTOR_STATE -> Prop :=
  | opened_workers m c n w cap st : is_u64 w -> is_u64 cap ->
      YAP_V2_executor_open m c n false w cap = Opened st -> opened st
  | opened_batch m c n t cap batch delay f st : is_u64 cap -> is_u64 batch ->
      YAP_V2_executor_open_batch m c n t false cap batch delay f = Opened st -> opened st.

Lemma running_ready n : running (replicate n Ready) = [].
Proof. induction n as [|n IH]; [done|]. exact IH. Qed.

(** What a plain [YAP_V2_executor_open] leaves. *)
Lemma open_inv {A : Allocator} m c n w cap st : is_u64 w -> is_u64 cap ->
  YAP_V2_executor_open m c n false w cap = Opened st ->
  ring_ok st [] /\ active st = 0 /\ submitted st = 0 /\ completed st = 0 /\ accepting st = true /\ batch_function st = None /\
  started_threads st = w /\ 0 < w.
Proof.
  unfold YAP_V2_executor_open, is_u64. intros Hw Hc E. repeat case_match; try discriminate E. injection E as <-. btests.
  split_and!; fields; try done; [|lia..]. split; fields; try done; [lia|rewrite zlen_replicate; lia|lia|rewrite zlen_nil; lia].
Qed.

Lemma opened_ok {A : Allocator} st : opened st -> system_ok (initial st) [] /\ threads (initial st) <> [].
Proof.
  assert (forall st w, ring_ok st [] -> active st = 0 -> submitted st = 0 -> completed st = 0 ->
    started_threads st = w -> 0 < w -> (is_batch st = true -> w = 1 /\ 0 < max_batch st) ->
    system_ok (initial st) [] /\ threads (initial st) <> []) as Hgo.
  { intros st' w Hr Ha Hsub Hcom Hw Hpos Hb. unfold initial. rewrite Hw.
    assert (forall x, x <> Ready -> x ∉ replicate (Z.to_nat w) Ready) as HN.
    { intros x Hx Hin. by apply elem_of_replicate_inv in Hin. }
    split; [|cbn; destruct (Z.to_nat w) eqn:E; [lia|done]].
    split; fields; try done; rewrite ?running_ready; try done.
    - intros Hin. by apply HN in Hin.
    - intros Hin. by apply HN in Hin.
    - intros Hin. by apply HN in Hin.
    - intros Hbt. rewrite length_replicate. destruct (Hb Hbt) as [-> ?]. done. }
  intros [m c n w cap st' Hw Hc E|m c n t cap batch delay f st' Hc Hbt E].
  - destruct (open_inv m c n w cap st' Hw Hc E) as (?&?&?&?&?&HB&?&?). eapply Hgo; eauto.
    unfold is_batch. rewrite HB. by intros ?%bool_decide_eq_true_1%is_Some_None.
  - unfold YAP_V2_executor_open_batch, is_u64 in *. destruct (_ || bool_decide _) eqn:T; [done|]. btests.
    destruct (YAP_V2_executor_open m c n false 1 cap) as [st1|] eqn:E1; [|done].
    destruct (open_inv m c n 1 cap st1 ltac:(unfold is_u64; lia) Hc E1) as ([? ? ? ? ? ?]&?&?&?&?&HB&?&?).
    destruct (negb _); [done|]. destruct (negb t); [done|]. injection E as <-.
    apply (Hgo _ 1); try done; try (by split); [lia..|]. intros _. cbn. lia.
Qed.

Lemma reachable_ok s0 s q0 : system_ok s0 q0 -> reachable s0 s -> exists q, system_ok s q.
Proof. intros H0. induction 1 as [|who s s' _ [q Hq] Hstep]; [by exists q0|]. by eapply step_ok. Qed.

Lemma threads_length who s s' : step who s s' -> length (threads s') = length (threads s).
Proof.
  intros H. destruct H; fields; rewrite ?length_insert, ?length_fmap; try done;
    match goal with H : signal _ _ |- _ => destruct H as [(i&_&->)|[_ ->]] end; by rewrite ?length_insert.
Qed.

Lemma reachable_threads s0 s : reachable s0 s -> threads s0 <> [] -> threads s <> [].
Proof.
  induction 1 as [|who s s' _ IH Hstep]; [done|]. intros Hn%IH E. apply threads_length in Hstep. rewrite E in Hstep.
  by destruct (threads s).
Qed.

(** ** Progress *)
Definition weight (t : thread) : nat :=
  match t with Ready => 2 | Waiting => 3 | Gathering => 1 | Running _ => 3 | Exited => 0 end.

(** What the workers still have to do. *)
Definition work (s : system) : nat := 4 * Z.to_nat (queued (shared s)) + sum_list (weight <$> threads s).

Lemma weight_insert (ts : list thread) i t0 t : ts !! i = Some t0 ->
  (sum_list (weight <$> <[i := t]> ts) + weight t0 = sum_list (weight <$> ts) + weight t)%nat.
Proof.
  revert i; induction ts as [|a ts IH]; intros [|i] Hi; cbn in Hi; try done.
  - injection Hi as ->. cbn. lia.
  - change (<[S i := t]> (a :: ts)) with (a :: <[i := t]> ts). specialize (IH i Hi). rewrite !fmap_cons. cbn [sum_list]. lia.
Qed.

(** After [accepting] was cleared every step of a worker leaves less to do. *)
Lemma worker_decreases s s' q : system_ok s q -> accepting (shared s) = false -> step Worker s s' -> (work s' < work s)%nat.
Proof.
  intros Hs Ha Hstep. pose proof (so_ring _ _ Hs) as Hr. pose proof (ro_queued _ _ Hr) as Hq. unfold work.
  inversion Hstep as [| | | | |? i Hi H0 Ha'|? i Hi|? i Hi H0 _|? i job st' Hi Hb Hn E|? i Hi Hb Hn|? i jobs st' Hi E|? i jobs Hi];
    subst; fields.
  - congruence.
  - pose proof (weight_insert _ _ _ Ready Hi) as HW. cbn [weight] in HW. lia.
  - pose proof (weight_insert _ _ _ Exited Hi) as HW. cbn [weight] in HW. lia.
  - destruct q as [|job' q]; [by rewrite Hq in Hn|]. destruct (take_job_spec _ q job' Hr) as (h&E'&_).
    rewrite E in E'. injection E' as -> ->. pose proof (weight_insert _ _ _ (Running [job']) Hi) as HW. cbn [weight] in HW.
    fields. rewrite Hq, zlen_cons. pose proof (zlen_nonneg q). lia.
  - pose proof (weight_insert _ _ _ Gathering Hi) as HW. cbn [weight] in HW. lia.
  - destruct (take_batch_spec _ q Hr) as (jobs'&q'&h&->&E'&_&Hne). rewrite E in E'. injection E' as -> ->.
    destruct (so_gathering _ _ Hs (list_elem_of_lookup_2 _ _ _ Hi)) as [Hb Hqn].
    specialize (Hne (proj2 (so_batch _ _ Hs Hb)) Hqn).
    pose proof (weight_insert _ _ _ (Running jobs') Hi) as HW. cbn [weight] in HW. fields. rewrite Hq.
    destruct jobs'; [done|]. rewrite zlen_app, zlen_cons. pose_zlen. lia.
  - pose proof (weight_insert _ _ _ Ready Hi) as HW. cbn [weight] in HW. lia.
Qed.

(** ... and as long as a worker has not returned there is such a step. *)
Lemma worker_progress s q i t : system_ok s q -> accepting (shared s) = false -> threads s !! i = Some t -> t <> Exited ->
  exists s', step Worker s s'.
Proof.
  intros Hs Ha Hi Ht. pose proof (so_ring _ _ Hs) as Hr. pose proof (ro_queued _ _ Hr) as Hq. destruct t; [|..|done].
  - destruct q as [|job q]; [eexists; by apply (step_exit s i)|]. pose proof (zlen_nonneg q). rewrite zlen_cons in Hq.
    destruct (is_batch (shared s)) eqn:B; [eexists; apply (step_gather s i); [done|done|lia]|].
    destruct (take_job_spec _ q job Hr) as (h&E&_). eexists. eapply (step_take s i); [done|done|lia|exact E].
  - eexists. by apply (step_spurious s i).
  - destruct (take_batch_spec _ q Hr) as (jobs&q'&h&->&E&_). eexists. by eapply (step_take_batch s i).
  - eexists. by apply (step_finish s i).
Qed.

(** ** Main theorems *)

(** C4: in every interleaving of clients and workers, jobs are started in the order in which
    they were accepted, none is lost or duplicated, and the queue never exceeds its capacity:
    the accepted jobs are the started ones followed by the queued ones, every started job is
    finished or running, and the counters of a snapshot count exactly these (modulo 2^64). *)
Theorem executor_fifo {A : Allocator} (st : EXECUTOR_STATE) (s : system) :
  opened st -> reachable (initial st) s ->
  exists q, accepted s = started s ++ q /\ zlen q <= queue_capacity (shared s) /\
    started s ≡ₚ finished s ++ running (threads s) /\
    YAP_V2_executor_snapshot (Some (shared s)) =
      Some (ExecutorSnapshot (worker_threads (shared s)) (queue_capacity (shared s)) (zlen q)
              (u64 (zlen (running (threads s)))) (u64 (zlen (accepted s))) (u64 (zlen (finished s)))
              (rejected (shared s)) (accepting (shared s))).
Proof.
  intros Ho Hs. destruct (opened_ok st Ho) as [H0 _]. destruct (reachable_ok _ _ _ H0 Hs) as [q Hq]. exists q.
  destruct Hq as [Hr Hord Hp Hsub Hcom Hact _ _ _ _]. split_and!; [done|apply Hr|done|].
  cbn. by rewrite (ro_queued _ _ Hr), Hsub, Hcom, Hact.
Qed.

Definition demo_executor : EXECUTOR_STATE :=
  ExecutorState (replicate 2 (ExecutorJob None 0)) 1 1 2 0 0 0 0 0 0 true 0 0 None.

Lemma demo_opened : opened (A:=alloc_total) demo_executor.
Proof. apply (opened_workers (A:=alloc_total) true true 1 1 2); [by unfold is_u64; lia..|done]. Qed.

(** One job accepted, started and finished, and the worker returned. *)
Definition demo_final : system :=
  System (ExecutorState [ExecutorJob (Some 7) 8; ExecutorJob None 0] 1 1 2 1 0 0 1 1 0 false 0 0 None)
    [Exited] [ExecutorJob (Some 7) 8] [ExecutorJob (Some 7) 8] [ExecutorJob (Some 7) 8].

(** The same job is still running when the executor is closed. *)
Definition demo_closing : system :=
  System (ExecutorState [ExecutorJob (Some 7) 8; ExecutorJob None 0] 1 1 2 1 0 1 1 0 0 false 0 0 None)
    [Running [ExecutorJob (Some 7) 8]] [ExecutorJob (Some 7) 8] [ExecutorJob (Some 7) 8] [].

Lemma demo_closing_reachable : reachable (initial demo_executor) demo_closing.
Proof.
  eapply reachable_step; [|by apply (step_close (System (ExecutorState [ExecutorJob (Some 7) 8; ExecutorJob None 0] 1 1 2 1 0 1 1 0 0 true 0 0 None)
    [Running [ExecutorJob (Some 7) 8]] [ExecutorJob (Some 7) 8] [ExecutorJob (Some 7) 8] []))].
  eapply reachable_step; [|by apply (step_take (System (ExecutorState [ExecutorJob (Some 7) 8; ExecutorJob None 0] 1 1 2 0 1 0 1 0 0 true 0 0 None)
    [Ready] [ExecutorJob (Some 7) 8] [] []) 0)].
  eapply reachable_step; [apply reachable_refl|].
  apply (step_submit (initial demo_executor) 7 8); [done|]. right. split; [|done].
  intros H. by apply list_elem_of_singleton in H.
Qed.

Lemma demo_reachable : reachable (initial demo_executor) demo_final.
Proof.
  eapply reachable_step; [|by apply (step_exit (System (ExecutorState [ExecutorJob (Some 7) 8; ExecutorJob None 0] 1 1 2 1 0 0 1 1 0 false 0 0 None)
    [Ready] [ExecutorJob (Some 7) 8] [ExecutorJob (Some 7) 8] [ExecutorJob (Some 7) 8]) 0)].
  eapply reachable_step; [exact demo_closing_reachable|].
  by apply (step_finish demo_closing 0 [ExecutorJob (Some 7) 8]).
Qed.

Lemma executor_fifo_witness : exists q, accepted demo_final = started demo_final ++ q /\ zlen q <= 2.
Proof.
  destruct (executor_fifo (A:=alloc_total) demo_executor demo_final demo_opened demo_reachable) as (q&H1&H2&_).
  exists q. split; [exact H1|exact H2].
Defined.

(** Once every worker has returned (which is what closing the executor waits for), every
    accepted job has been run, once each, in order of acceptance, and the counters agree. *)
Theorem executor_drained {A : Allocator} (st : EXECUTOR_STATE) (s : system) :
  opened st -> reachable (initial st) s -> Forall (fun t => t = Exited) (threads s) ->
  started s = accepted s /\ finished s ≡ₚ accepted s /\ queued (shared s) = 0 /\ active (shared s) = 0 /\
  completed (shared s) = submitted (shared s).
Proof.
  intros Ho Hs He. destruct (opened_ok st Ho) as [H0 Hn]. destruct (reachable_ok _ _ _ H0 Hs) as [q Hq].
  pose proof (reachable_threads _ _ Hs Hn) as Hne.
  assert (Exited ∈ threads s) as Hin by (destruct (threads s); [done|]; apply Forall_cons in He as [-> _]; by left).
  assert (running (threads s) = []) as Hrun.
  { clear -He. induction He as [|t ts -> _ IH]; [done|]. exact IH. }
  destruct Hq as [Hr Hord Hp Hsub Hcom Hact _ Hex _ _]. destruct (Hex Hin) as [_ ->].
  rewrite Hrun, app_nil_r in *. rewrite Hord. pose proof (ro_queued _ _ Hr) as Hqd. split_and!; try done.
  rewrite Hcom, Hsub, Hord. f_equal. unfold zlen. by rewrite Hp.
Qed.

Lemma executor_drained_witness : finished demo_final ≡ₚ accepted demo_final /\ completed (shared demo_final) = 1.
Proof.
  destruct (executor_drained (A:=alloc_total) demo_executor demo_final demo_opened demo_reachable) as (_&H&_&_&H').
  - repeat constructor.
  - split; [exact H|exact H'].
Defined.

(** C37: no wake-up is lost and closing terminates.  While a job is queued some worker is not
    asleep, so the job will be taken; after closing, every step of a worker strictly decreases
    the remaining work, and until all workers have returned there is such a step, so joining
    them cannot block. *)
Theorem executor_progress {A : Allocator} (st : EXECUTOR_STATE) (s : system) :
  opened st -> reachable (initial st) s ->
  (queued (shared s) <> 0 -> exists t, t ∈ threads s /\ t <> Waiting /\ t <> Exited) /\
  (accepting (shared s) = false ->
    (forall s', step Worker s s' -> (work s' < work s)%nat) /\
    (Forall (fun t => t = Exited) (threads s) \/ exists s', step Worker s s')).
Proof.
  intros Ho Hs. destruct (opened_ok st Ho) as [H0 Hn]. destruct (reachable_ok _ _ _ H0 Hs) as [q Hq].
  pose proof (reachable_threads _ _ Hs Hn) as Hne. split.
  - intros Hqd. rewrite (ro_queued _ _ (so_ring _ _ Hq)) in Hqd.
    destruct (decide (Waiting ∈ threads s)) as [Hw|Hw].
    + destruct (so_waiting _ _ Hq Hw) as [_ Hle]. unfold ready_count in Hle.
      destruct (filter is_ready (threads s)) as [|t l] eqn:F; [cbn in Hle; unfold zlen in Hqd; lia|].
      assert (t ∈ filter is_ready (threads s)) as [-> Hin]%list_elem_of_filter by (rewrite F; by left).
      by exists Ready.
    + destruct (threads s) as [|t ts] eqn:E; [done|]. exists t. split; [by left|]. split.
      * intros ->. apply Hw. by left.
      * intros ->. destruct (so_exited _ _ Hq) as [_ ->]; [rewrite E; by left|done].
  - intros Ha. split; [intros s' Hst; by eapply worker_decreases|].
    destruct (decide (Forall (fun t => t = Exited) (threads s))) as [|N]; [by left|right].
    apply not_Forall_Exists in N; [|apply _]. apply Exists_exists in N as (t&Hin&Ht).
    apply list_elem_of_lookup_1 in Hin as [i Hi]. by eapply worker_progress.
Qed.

Lemma executor_progress_witness :
  (forall s', step Worker demo_closing s' -> (work s' < work demo_closing)%nat) /\ exists s', step Worker demo_closing s'.
Proof.
  destruct (proj2 (executor_progress (A:=alloc_total) demo_executor demo_closing demo_opened demo_closing_reachable) eq_refl)
    as [H1 [H2|H2]].
  - exfalso. apply Forall_inv in H2. discriminate H2.
  - split; [exact H1|exact H2].
Defined.
